(* ===== verification/_CoqProject ===== *)
-Q . S2P
Prelude.v
GoStr.v
Errors.v
Json.v
Provider.v
ToolName.v
TreeBudget.v
Middleware.v
Approval.v
ThinkParser.v
MultiSource.v
Events.v
Compaction.v
StepStage.v
Stuck.v
RunStore.v
Triggers.v
Dispatch.v
Runner.v
TurnProps.v
Failover.v
SubAgents.v
CallCancels.v
FuncSource.v
Stages.v
Injection.v
Linked.v
Memory.v
Offload.v
Consensus.v
Team.v
AgentPool.v
Fence.v
Edit.v
Patch.v
Paths.v
Workspace.v
ShellRules.v
Delegates.v
Output.v
Procs.v
Skills.v
SkillGrants.v
SkillConsent.v
Checkpoint.v
Undo.v
Session.v
SessionLog.v
SessionRuns.v
SessionEngine.v
SessionDemo.v
Rules.v
Instructions.v
InstructionSession.v
InstructionProps.v
InstructionDemo.v
Http.v
Wire.v
OpenAI.v
Anthropic.v
Cursors.v
Responses.v
ResponsesChain.v
Jsonrpc.v
Embeddings.v
Connections.v
ServerAgents.v
Sampling.v
Egress.v
