(* ===== verification/Prelude.v ===== *)
(** * chakra: a verification library for the agent SDK

    chakra runs turns of a language-model agent: a Runner streams a model,
    dispatches the tool calls it makes, feeds the results back and repeats
    until the model answers.  Around that loop sit the permission gate and the
    other tool middleware, the tool sources, the stages that prepare each
    request, sub-agents with their budgets and signals, failover between
    providers, triggers of proactive turns, and the store of runs.  This
    library models that core, the Go package at the root of src/ with the
    clients of the model vendors, the extensions that let an agent edit files,
    run commands, take changes back and follow instruction files (src/ext/files,
    src/ext/exec, src/ext/checkpoint, src/ext/agentsmd), the connection to a
    language server (src/ext/lsp), and of the host (src/host) the sessions,
    the skills and the gate it builds, the model connections, the agents of
    servers and sampling, and proves what makes them correct.

    ** How code is translated

    Pure functions are functions.  Code that calls out (providers, tool
    sources, stages, hooks, the user) is a value of [eff W E A] (Errors.v): a
    function of an abstract world that returns a value, the events emitted and
    the next world; [wp] are its rules.  Fallible code returns [result A],
    with Go's errors as the type [error].  Go ints are [Z]; where overflow can
    matter they are wrapped to 64 bits ([wrap64]).  Times are [Z] with 0 for
    Go's zero time.  Go maps are [gmap], slices lists, pointers that are
    compared are addresses ([ptr]).  Code that runs concurrently is modelled
    at the granularity of its atomic operations, as a step relation or as a
    run over an arbitrary schedule.  mcpkit and encoding/json's conversions
    of dynamic values are parameters of the definitions that use them.

    ** Files

    - Prelude: this header, tactics, the hint database, pointers, 64-bit
      integers, reachability.
    - GoStr: the parts of strings, strconv and fmt the code uses, on byte
      strings.
    - Errors: errors.Is and errors.As, sentinels, denials, effects.
    - Json: encoding/json's scanner and string quoting.
    - Provider: src/provider.go.  Messages, parameters, capabilities, deltas
      and their accumulator.
    - ToolName: src/toolname.go.  Wire names of tools and back.
    - TreeBudget: src/tree_budget.go, src/runscope.go and the call budget of
      src/agent_source.go, with the agents of a tree as a transition system.
    - Middleware: src/toolmiddleware.go.  The chain around a tool call.
    - Approval: src/approval.go.  [WrapToolCall] and its decision table.
    - ThinkParser: src/thinking_stream.go.  Reasoning tags in a stream.
    - MultiSource: src/toolsource.go, src/multi_source.go,
      src/filter_source.go.  The contract of a tool source is the class
      [LawfulSource].
    - Events: src/events.go, src/signal.go, src/plan.go, and the records of
      src/runner.go other components share.
    - Compaction: src/compaction.go.  [rounds_ok] is the shape of a
      conversation that providers accept.
    - StepStage: src/stepstage.go.  The stages before a model call.
    - Stuck: src/stuck.go.  Repetition, alternation and error runs.
    - RunStore: src/runstore.go, the in-memory store.
    - Triggers: src/triggers.go, src/incoming_event.go.
    - Dispatch: [callTool] and [dispatch] of src/runner.go, goroutines under a
      schedule that also lets the environment act.
    - Runner: [RunTurn] of src/runner.go and the hooks of src/turnend.go,
      against the class [Dispatcher].
    - TurnProps: the properties of a turn; the dispatcher of Dispatch.v is an
      instance of the class.
    - Failover: src/failover.go.
    - SubAgents: src/agent_source.go and the sinks of src/signal.go, with
      shared sinks and counters in a store.
    - CallCancels: the registry of running calls of src/runner.go.
    - FuncSource: src/func_source.go and the tool of src/plan.go; a
      [FuncSource] is an instance of [LawfulSource].
    - Stages: src/stages.go.  The pipelines events pass: filters, transforms
      and coalescing windows, refined from a list of bursts.
    - Injection: src/injection.go.  The buffer of incoming events and what a
      turn drains from it.
    - Linked: the bounded map in order of insertion that the stores in memory
      share.
    - Memory: src/memory.go.  The store and the tools over the class
      [LawfulMemory].
    - Offload: src/offloading_source.go, src/toolresultstore.go.  Large
      results kept aside and read back, over the class [LawfulResults].
    - Consensus: src/consensus.go.  The draws of a vote, their workers and the
      tally.
    - Team: src/team.go.  Members, their transfer tools and the loop of a
      team's turn.
    - AgentPool: src/agent_pool.go.  Agents in the background and their
      handles, as an interleaving of critical sections.
    - Fence: src/spotlight.go and src/critique.go.  Fences around untrusted
      text, and the critic before a tool call.
    - Edit: src/ext/files/edit.go, hash.go.  Hunks applied to a text.
    - Patch: src/ext/files/patch.go.  The patch format and its chunks.
    - Paths: path/filepath's Clean, Join and Rel, and a file system behind
      os.Root whose operations may fail at any point.
    - Workspace: src/ext/files/tools.go, patchtool.go.  The file tools and the
      patch tool on that file system.
    - ShellRules: src/ext/exec/rules.go, shell.go.  The splitter of scripts,
      prefix rules and the class of a shell call.
    - Delegates: src/fanout_source.go, src/async_agent_source.go,
      src/server_agent_source.go.  Delegation to many and in the background.
    - Output: src/ext/exec/output.go and the buffers of procs.go and
      procs_stream.go.
    - Procs: src/ext/exec/procs.go.  The background commands of a session and
      their tools.
    - Skills: src/host/skillset.go, localskills.go and parts of skills.go.
      The catalog of skills, its collisions and the approval keys.
    - SkillGrants: src/host/skillgrants.go and the load_skill tool.  What
      allowed-tools grants, the state of approvals and grants, and the gate
      the App builds.
    - SkillConsent: the runs of an App as far as skills go, as a step
      relation.
    - Checkpoint: src/ext/checkpoint/filestore.go.  Capturing and restoring
      files on the file system of Paths.v.
    - Undo: src/ext/checkpoint/extension.go.  Capture before a declared write,
      the /undo command, and the properties of both files.
    - Session: src/host/persistence.go, steer.go, sessionstate.go,
      contextpipeline.go, subscribe.go and the turns of app.go and events.go,
      over a record of store operations.
    - SessionLog: the laws of a run store (class [StoreLaws], the in-memory
      store of RunStore.v is an instance) and what one turn keeps.
    - SessionRuns: sequences of session operations; steers, replay, search.
    - SessionEngine: what a session relies on from whoever answers (classes
      [PairedEngine], [PairedRunner]); the Runner is an instance.
    - SessionDemo: sessions to try, and where they depart from the comments.
    - Rules: src/ext/agentsmd/rules.go.  Rule files: frontmatter and globs.
    - Instructions: src/ext/agentsmd/profile.go, load.go.  Which instruction
      files apply where, and what they import.
    - InstructionSession, InstructionProps, InstructionDemo:
      src/ext/agentsmd/extension.go.  The hooks of a session on disks that
      change, their properties, and concrete disks.
    - Http: src/retry.go, src/sse_stream.go.  Sending with retries, and the
      loop over a stream of events.
    - Wire: what the vendors' clients share: bodies, posting, fragments of
      tool calls.
    - OpenAI, Anthropic: src/openai_provider.go, src/anthropic_provider.go.
    - Cursors, Responses, ResponsesChain: src/responses_cursor.go,
      src/responses_provider.go, and a conversation the server continues.
    - Jsonrpc: src/ext/lsp/jsonrpc.go.  Frames, the read loop, and the calls
      that wait for replies, as a step relation.
    - Embeddings: src/embedder.go, src/semantic_memory.go.
    - Connections: src/host/connections.go, src/host/steproute.go,
      src/local_providers.go.  From a configuration to a provider; the
      registry and the active connection.
    - ServerAgents: src/host/server_agents.go.  Delegates a server advertises.
    - Sampling: src/host/sampling.go.  Completions a server asks for.
    - Egress: src/ext/exec/egress.go.  Which hosts commands can reach.

    ** What is proved

    Turns (TurnProps): every result pairs tool calls with their results; the
    event stream has one begin, numbered steps within the cap and one terminal
    event that agrees with the result; usage by model sums to the whole; the
    answer is the last message and the structured document is judged by its
    schema; a model call shows what was delivered.  Dispatch: every schedule
    answers every call, in order, with matching events.  The gate (Approval,
    Middleware): it runs exactly what its decision table authorises, forbidden
    tools never run and always-ask verdicts are never remembered; last in the
    chain it cannot be bypassed.  Budgets (TreeBudget, SubAgents): step cap,
    token bound, call budget, and termination of self-delegation.  Signals and
    cancellation (SubAgents, CallCancels): nothing lost or sent to the wrong
    sink, and controls hit what they name.  Streams (Provider, ThinkParser):
    the accumulator and the tag parser against reference definitions.  Tools
    (ToolName, MultiSource, FuncSource): round trips of names, listings that
    are routable, filters that are boundaries.  Stages (StepStage, Compaction,
    Stuck): what survives a chain, what compaction keeps, when a turn counts
    as stuck.  Stores and triggers (RunStore, Triggers, Failover): append-only
    runs, forks, complete paging, firing budgets, health reports.  Incoming
    events (Stages, Injection): windows lose nothing, a drain keeps to
    priority and budget, and drains deliver everything.  Memory and large
    results (Memory, Offload): the stores refine ordered lists, what is
    remembered is recalled, what is offloaded can be read back in full.
    Several agents (Consensus, Team, AgentPool): a vote draws each slot once
    and its winner has the most votes, the turns of a team chain and end,
    handles stay valid, a fan-out returns one result per member within the
    call budget, and a run in the background is reported once (Delegates).
    Untrusted text (Fence): a reader that honours a call's fences finds every
    text inside one, and a critic's refusal stops the call.  Files (Edit,
    Patch, Paths, Workspace): names stay below the roots, an edit applies to
    the text it was written for, a printed patch is read back, a patch is
    applied in full or not at all, whatever fails.  Commands (ShellRules,
    Procs, Output): scripts are read as a reference lexer reads them and
    judged command by command, the gate keeps to that for the arguments that
    the tool and the gate read alike, the number of commands is bounded, and
    what is shown of an output accounts for every byte.  Skills (Skills,
    SkillGrants, SkillConsent): names never shadow, keys bind what was shown,
    and what runs on a skill's word comes of a load in this turn, of the user's
    own skill or of one with the files of a skill whose load the user agreed
    to.  Checkpoints (Checkpoint, Undo): a restore has every file its
    checkpoint names as the turn found it or says which it refused, whatever
    fails; the stored manifest names all that was captured unless a capture
    failed.  Sessions (SessionLog,
    SessionRuns, SessionEngine): a turn joins the conversation and its stored
    run whole or not at all, what is stored is part of the conversation, a
    session that injects nothing is given back by resuming it, steers are
    handed out once and in order, late surfaces are replayed what happened,
    and the conversation keeps calls and answers paired.  Instruction files
    (Rules, Instructions, InstructionProps): the prompt is fixed and within its
    limit, every file that applies is in view as it is now as far as the limit
    goes, imports stay below the roots, and a rule applies for a reason.  Vendors (Http, OpenAI, Anthropic,
    Responses, Cursors, ResponsesChain): six attempts at most and waits that
    are capped, a request is refused exactly when the reported capabilities do
    not admit it, a body holds the conversation, a stream amounts to what the
    whole answer would have been, and what the server stored followed by what
    is sent is the history.  Language servers (Jsonrpc): frames are read back,
    and a call returns its own reply and is never left waiting.  Recall
    (Embeddings): the best notes first, as lists would give them.
    Connections and delegates (Connections, ServerAgents): a configuration that
    is accepted can be built, a name keeps its provider, steps go where their
    route says, and a delegation runs what the server describes now.  Consent
    (Sampling, Egress): no server reaches the model without the user's yes,
    and the proxy dials no address but that of a host that is listed or that
    the user said yes to.  Where a
    hypothesis is needed a closed lemma ending in [_witness] applies the
    theorem to a concrete instance.  Lemmas on concrete inputs also record
    where the code departs from its comments or its intent.

    ** Bounds and fuel

    [turn_loop] runs on [MaxSteps] and [structured_attempts] on the code's
    constant, so neither can run out early.  The loops of ThinkParser and
    ToolName run on a fuel computed from the input, and their theorems show
    that it is enough.  [drain_stream] (Failover) runs on one more than the
    length of the stream, and [all_pages] (RunStore) on one more than the
    number of runs.  [unrolled] (SubAgents) is independent of what is below
    the fuel its theorem asks for.  [flush_stages] (Stages) runs on the number
    of stages, [expand] (Injection) on the length of the template, [evict]
    (Linked) on the number of entries, [read_pages] (Offload) on one more than
    the length of the text and [team_loop] (Team) on one more than
    [MaxHandoffs]; their theorems show that each is enough.  Parsing a patch
    runs on one more than its number of lines, counting occurrences on one
    more than the length of the text, [split_loop] (ShellRules) on the length
    of the script, and [open_temp] (Workspace) on the ten retries of the code.  [search_loop] (SessionRuns) needs
    twenty pages, and [late_turns] (Session) one moment for each turn, as many
    as messages can still be submitted.
    [send_from] (Http) runs on the six attempts of the code, [read_headers] and
    [run_loop] (Jsonrpc) on one more than the bytes left, the scanners of
    Rules and Instructions on the length of their text, and climbing to a root
    on the number of its elements.
    The theorems on fan-out ask that a schedule lets each goroutine move
    twice, once for its guards and once for its run.

    ** What is not modelled

    The store of results on disk, the providers and embedders for tests, the
    host's configuration, its connections to servers and its commands, the
    database stores, git and the tools over a language server, and the
    surfaces; of the parts modelled, spans, metrics, logging and JSON encodings
    of events.  The sandbox, processes, terminals, sockets, floating point and
    the clock are the environment's: parameters of the definitions that use
    them, or steps of a relation.  Token counts are summed as
    integers where the code sums Go ints without checks.

    ** Order of the work

    The turn and what it calls came first, then incoming events, memory,
    offloading and the ways several agents work together, then the file and
    command extensions, then the host's skills, checkpoints and sessions, and
    last instruction files, the vendors, and the parts that talk to servers.
    What is left is mostly input and output: the host's configuration and
    commands, the server connections, and the surfaces. *)

From stdpp Require Export base tactics gmap strings list pretty.
From Stdlib Require Export ZArith Lia Sorted.

(** ** Scopes, hint databases and tactics *)

Declare Scope chakra_scope.
Delimit Scope chakra_scope with chakra.

(** [chakra] collects the lemmas that close the routine goals of the
    components: bounds, membership in the lists the code builds, and the
    preservation lemmas of each component's invariant. *)
Create HintDb chakra discriminated.

(** Case analysis on the scrutinee of a [match] or an [if], in the goal or in
    a hypothesis, keeping the equation. *)
Ltac case_goal :=
  match goal with
  | |- context [match ?x with _ => _ end] => destruct x eqn:?
  end.

Ltac case_hyp H :=
  match type of H with
  | context [match ?x with _ => _ end] => destruct x eqn:?
  end.

(** Runs a functional model to a value: every branch, each closed by the
    default solver. *)
Ltac crush_cases := repeat (case_goal; simplify_eq/=); auto with chakra.

(** ** Pointers

    Go compares pointers by address.  The code never writes through the
    pointers modelled here, so a pointer is its address together with the
    value it points at, and [==] is equality of addresses. *)
Record ptr (A : Type) := Ptr { p_addr : positive; p_deref : A }.
Arguments Ptr {A} _ _.
Arguments p_addr {A} _.
Arguments p_deref {A} _.

Definition ptr_eqb {A} (p q : option (ptr A)) : bool :=
  match p, q with
  | None, None => true
  | Some p, Some q => Pos.eqb (p_addr p) (p_addr q)
  | _, _ => false
  end.

Lemma ptr_eqb_refl {A} (p : option (ptr A)) : ptr_eqb p p = true.
Proof. destruct p; simpl; auto using Pos.eqb_refl. Qed.
#[export] Hint Resolve ptr_eqb_refl : chakra.

(** ** Machine integers

    Go's [int] and [int64] are 64-bit two's complement on the platforms the
    repository targets. *)
Definition int64_min : Z := (- 2 ^ 63)%Z.
Definition int64_max : Z := (2 ^ 63 - 1)%Z.

Definition wrap64 (z : Z) : Z := ((z + 2 ^ 63) mod 2 ^ 64 - 2 ^ 63)%Z.

Definition in_int64 (z : Z) : Prop := (int64_min <= z <= int64_max)%Z.

Lemma wrap64_id z : in_int64 z -> wrap64 z = z.
Proof.
  unfold in_int64, int64_min, int64_max, wrap64. intros H.
  rewrite Z.mod_small; lia.
Qed.

Lemma wrap64_range z : in_int64 (wrap64 z).
Proof.
  unfold in_int64, int64_min, int64_max, wrap64.
  pose proof (Z.mod_pos_bound (z + 2 ^ 63) (2 ^ 64) eq_refl). lia.
Qed.
#[export] Hint Resolve wrap64_range : chakra.

(** ** Lists the components share *)

(** [slices.Contains]. *)
Definition str_mem (x : string) (l : list string) : bool :=
  existsb (String.eqb x) l.

Lemma str_mem_true x l : str_mem x l = true <-> x ∈ l.
Proof.
  unfold str_mem. rewrite existsb_exists. setoid_rewrite String.eqb_eq.
  setoid_rewrite <- list_elem_of_In. naive_solver.
Qed.

Lemma str_mem_false x l : str_mem x l = false <-> x ∉ l.
Proof. rewrite <- str_mem_true. destruct (str_mem x l); split; congruence. Qed.

(** A filter that refuses every element leaves nothing. *)
Lemma filter_none {A} (f : A -> bool) (l : list A) :
  Forall (fun a => f a = false) l -> filter (fun a => f a = true) l = [].
Proof. induction 1 as [|a l Ha _ IH]; [done|]. rewrite filter_cons, decide_False by congruence. done. Qed.

Lemma filter_all {A} (P : A -> Prop) `{forall x, Decision (P x)} (l : list A) : Forall P l -> filter P l = l.
Proof. induction 1 as [|x l Hx _ IH]; [done|]. rewrite filter_cons, decide_True by done. by rewrite IH. Qed.

Lemma Forall_filter_sub {A} (Q P : A -> Prop) `{forall x, Decision (P x)} (l : list A) :
  Forall Q l -> Forall Q (filter P l).
Proof. rewrite !Forall_forall. intros HQ x [_ Hx]%list_elem_of_filter. auto. Qed.

(** Elements of a list are told apart by a key that does not repeat in it. *)
Lemma NoDup_key_eq {A B} (f : A -> B) (l : list A) x y :
  NoDup (f <$> l) -> x ∈ l -> y ∈ l -> f x = f y -> x = y.
Proof.
  intros Hnd [i Hi]%list_elem_of_lookup [j Hj]%list_elem_of_lookup Heq.
  assert (i = j) as ->; [|congruence].
  eapply (NoDup_lookup (f <$> l)); [done| |];
    rewrite list_lookup_fmap, ?Hi, ?Hj; simpl; f_equal; eauto.
Qed.

(** ** Stable sorting

    [sort.SliceStable] by an integer rank: the result is a permutation in
    order of rank that keeps the order of equal ranks, which determines it. *)
Section StableSort.
Context {A : Type} (rank : A -> Z).

Fixpoint insert_ranked (x : A) (l : list A) : list A :=
  match l with
  | [] => [x]
  | y :: l' => if Z.leb (rank x) (rank y) then x :: l else y :: insert_ranked x l'
  end.

Definition stable_sort (l : list A) : list A := foldr insert_ranked [] l.

Definition rank_le (x y : A) : Prop := (rank x <= rank y)%Z.

Lemma insert_ranked_perm x l : insert_ranked x l ≡ₚ x :: l.
Proof. induction l as [|y l IH]; simpl; [done|]. case_match; [done|]. rewrite IH. apply Permutation_swap. Qed.

Lemma stable_sort_perm l : stable_sort l ≡ₚ l.
Proof. induction l as [|x l IH]; simpl; [done|]. by rewrite insert_ranked_perm, IH. Qed.

Lemma insert_ranked_sorted x l : StronglySorted rank_le l -> StronglySorted rank_le (insert_ranked x l).
Proof.
  induction 1 as [|y l Hs IH Hy]; simpl; [repeat constructor|].
  destruct (Z.leb_spec (rank x) (rank y)) as [Hle|Hlt]; constructor; auto.
  - constructor; auto.
  - constructor; [exact Hle|]. eapply Forall_impl; [exact Hy|]. unfold rank_le; intros; lia.
  - rewrite insert_ranked_perm. constructor; [unfold rank_le; lia|done].
Qed.

Lemma stable_sort_sorted l : StronglySorted rank_le (stable_sort l).
Proof. induction l as [|x l IH]; simpl; [constructor|]. by apply insert_ranked_sorted. Qed.

Lemma insert_ranked_filter r x l :
  filter (fun y => rank y = r) (insert_ranked x l) = filter (fun y => rank y = r) (x :: l).
Proof.
  induction l as [|y l IH]; cbn [insert_ranked]; [done|].
  destruct (Z.leb_spec (rank x) (rank y)) as [Hle|Hlt]; [done|].
  rewrite filter_cons, IH, !filter_cons. repeat case_decide; try done. lia.
Qed.

Lemma stable_sort_stable r l :
  filter (fun y => rank y = r) (stable_sort l) = filter (fun y => rank y = r) l.
Proof.
  induction l as [|x l IH]; simpl; [done|]. rewrite insert_ranked_filter, !filter_cons, IH. done.
Qed.

(** A prefix of a sorted list is before the rest. *)
Lemma sorted_prefix l1 l2 x y :
  StronglySorted rank_le (l1 ++ l2) -> x ∈ l1 -> y ∈ l2 -> (rank x <= rank y)%Z.
Proof.
  induction l1 as [|z l1 IH]; simpl; [set_solver|].
  intros [Hs Hz]%StronglySorted_inv [->|Hx]%elem_of_cons Hy; [|by apply IH].
  rewrite Forall_forall in Hz. apply Hz. set_solver.
Qed.

Lemma sorted_app_l l1 l2 : StronglySorted rank_le (l1 ++ l2) -> StronglySorted rank_le l1.
Proof.
  induction l1 as [|z l1 IH]; simpl; intros H; [constructor|].
  apply StronglySorted_inv in H as [Hs Hz]. constructor; [auto|]. by apply Forall_app in Hz as [? _].
Qed.

(** Two sorted lists of the same elements with distinct ranks are equal. *)
Lemma sorted_perm_unique l1 l2 :
  StronglySorted rank_le l1 -> StronglySorted rank_le l2 -> l1 ≡ₚ l2 -> NoDup (rank <$> l2) -> l1 = l2.
Proof.
  revert l2. induction l1 as [|x l1 IH]; intros l2 H1 H2 Hp Hnd.
  { by apply Permutation_nil_l in Hp as ->. }
  destruct l2 as [|y l2]; [by apply Permutation_nil_r in Hp|].
  apply StronglySorted_inv in H1 as [H1 Hx], H2 as [H2 Hy]. rewrite Forall_forall in Hx, Hy.
  assert (x = y) as ->.
  { apply (NoDup_key_eq rank (y :: l2)); [done| | |].
    - rewrite <- Hp. set_solver.
    - set_solver.
    - assert (x ∈ y :: l2) as [->|Hin]%elem_of_cons by (rewrite <- Hp; set_solver); [done|].
      assert (y ∈ x :: l1) as [->|Hin']%elem_of_cons by (rewrite Hp; set_solver); [done|].
      apply Hx in Hin'. apply Hy in Hin. unfold rank_le in *. lia. }
  f_equal. apply IH; [done..| |].
  - by apply Permutation_cons_inv in Hp.
  - csimpl in Hnd. by apply NoDup_cons in Hnd as [_ Hnd].
Qed.
End StableSort.

(** ** Reachability *)
Inductive star {A} (R : A -> A -> Prop) : A -> A -> Prop :=
| star_refl a : star R a a
| star_step a b c : R a b -> star R b c -> star R a c.

Lemma star_one {A} (R : A -> A -> Prop) a b : R a b -> star R a b.
Proof. intros. eapply star_step; [eassumption | apply star_refl]. Qed.

Lemma star_trans {A} (R : A -> A -> Prop) a b c : star R a b -> star R b c -> star R a c.
Proof. induction 1; eauto using star_step. Qed.

(** An invariant of the initial state and of every step holds in every
    reachable state. *)
Lemma star_invariant {A} (R : A -> A -> Prop) (P : A -> Prop) :
  (forall a b, P a -> R a b -> P b) -> forall a b, star R a b -> P a -> P b.
Proof. intros Hstep a b. induction 1; eauto. Qed.

#[export] Hint Resolve star_refl star_one : chakra.
