(* ===== verification/GoStr.v ===== *)
(** * Go strings

    A Go string is a sequence of bytes; here it is a [string], whose
    characters are the 256 bytes.  This file holds the operations of Go's
    [strings], [bytes] and [strconv] packages the code uses, and the lemmas
    on prefixes, cuts and searches the components share. *)

From stdpp Require Import sorting.
From S2P Require Import Prelude.

(** ** Cutting: [s[:n]] and [s[n:]] *)
Fixpoint str_take (n : nat) (s : string) : string :=
  match n, s with
  | S n, String c s => String c (str_take n s)
  | _, _ => ""
  end.

Fixpoint str_drop (n : nat) (s : string) : string :=
  match n, s with
  | O, s => s
  | S n, String _ s => str_drop n s
  | S _, EmptyString => ""
  end.

(** ** Prefixes, suffixes and searching *)
Fixpoint has_prefix (p s : string) : bool :=
  match p, s with
  | EmptyString, _ => true
  | String a p, String b s => Ascii.eqb a b && has_prefix p s
  | _, EmptyString => false
  end.

Definition has_suffix (p s : string) : bool :=
  Nat.leb (String.length p) (String.length s)
  && String.eqb (str_drop (String.length s - String.length p) s) p.

(** [strings.Index]: the position of the first occurrence. *)
Fixpoint str_index (sub s : string) : option nat :=
  if has_prefix sub s then Some 0
  else match s with
       | EmptyString => None
       | String _ s => S <$> str_index sub s
       end.

Definition str_contains (s sub : string) : bool :=
  match str_index sub s with Some _ => true | None => false end.

(** [strings.IndexByte]. *)
Fixpoint str_index_byte (c : Ascii.ascii) (s : string) : option nat :=
  match s with
  | EmptyString => None
  | String d s => if Ascii.eqb c d then Some 0 else S <$> str_index_byte c s
  end.

Definition trim_prefix (s p : string) : string :=
  if has_prefix p s then str_drop (String.length p) s else s.

Definition trim_suffix (s p : string) : string :=
  if has_suffix p s then str_take (String.length s - String.length p) s else s.

(** [strings.Join]. *)
Fixpoint str_join (sep : string) (l : list string) : string :=
  match l with
  | [] => ""
  | [s] => s
  | s :: l => s +:+ sep +:+ str_join sep l
  end.

(** [strings.Join] with no separator, which is what a [strings.Builder] that
    is written to in a loop holds. *)
Definition str_concat (l : list string) : string :=
  foldr String.append "" l.

(** ** Bytes *)
Definition byte_of (n : nat) : string := String (Ascii.ascii_of_nat n) "".
Definition code (c : Ascii.ascii) : nat := Ascii.nat_of_ascii c.
Definition bquote : Ascii.ascii := Ascii.ascii_of_nat 34.
Definition bbackslash : Ascii.ascii := Ascii.ascii_of_nat 92.
Definition newline : string := byte_of 10.
Definition nul : string := byte_of 0.

(** ** Lines *)

(** [strings.Split(text, newline)]. *)
Fixpoint split_lines (s : string) : list string :=
  match s with
  | EmptyString => [""]
  | String c s' =>
      if Nat.eqb (code c) 10 then "" :: split_lines s'
      else match split_lines s' with
           | l :: ls => String c l :: ls
           | [] => [String c ""]
           end
  end.

(** ** [TrimSpace]

    The white space of [unicode.IsSpace], as the byte sequences that encode
    it. *)
Definition space_seqs : list string :=
  map byte_of [9; 10; 11; 12; 13; 32]
  ++ map (fun n => byte_of 194 +:+ byte_of n) [133; 160]
  ++ [byte_of 225 +:+ byte_of 154 +:+ byte_of 128]
  ++ map (fun n => byte_of 226 +:+ byte_of 128 +:+ byte_of n)
         [128; 129; 130; 131; 132; 133; 134; 135; 136; 137; 138; 168; 169; 175]
  ++ [byte_of 226 +:+ byte_of 129 +:+ byte_of 159;
      byte_of 227 +:+ byte_of 128 +:+ byte_of 128].

Fixpoint trim_left_go (fuel : nat) (s : string) : string :=
  match fuel with
  | O => s
  | S fuel =>
      match find (fun p => has_prefix p s) space_seqs with
      | Some p => trim_left_go fuel (str_drop (String.length p) s)
      | None => s
      end
  end.

Fixpoint trim_right_go (fuel : nat) (s : string) : string :=
  match fuel with
  | O => s
  | S fuel =>
      match find (fun p => has_suffix p s) space_seqs with
      | Some p => trim_right_go fuel (trim_suffix s p)
      | None => s
      end
  end.

(** Every round removes at least one byte, so the length is enough fuel. *)
Definition trim_space (s : string) : string :=
  let l := trim_left_go (String.length s) s in
  trim_right_go (String.length l) l.

(** ** UTF-8 and quoting *)
Definition ceq (c : Ascii.ascii) (n : nat) : bool := Nat.eqb (code c) n.

Definition in_range (lo hi : nat) (c : Ascii.ascii) : bool :=
  Nat.leb lo (code c) && Nat.leb (code c) hi.

Definition lower_ascii (c : Ascii.ascii) : Ascii.ascii :=
  if in_range 65 90 c then Ascii.ascii_of_nat (code c + 32) else c.

(** [utf8.DecodeRuneInString] on a non-ASCII first byte: the length of the
    well-formed sequence that starts here, 0 when there is none. *)
Definition utf8_len (s : string) : nat :=
  match s with
  | String a (String b s') =>
      if in_range 194 223 a && in_range 128 191 b then 2
      else match s' with
           | String c s'' =>
               let lo := if ceq a 224 then 160 else 128 in
               let hi := if ceq a 237 then 159 else 191 in
               if in_range 224 239 a && in_range lo hi b && in_range 128 191 c then 3
               else match s'' with
                    | String d _ =>
                        let lo := if ceq a 240 then 144 else 128 in
                        let hi := if ceq a 244 then 143 else 191 in
                        if in_range 240 244 a && in_range lo hi b
                           && in_range 128 191 c && in_range 128 191 d
                        then 4 else 0
                    | EmptyString => 0
                    end
           | EmptyString => 0
           end
  | _ => 0
  end.

Definition hex_digit (n : nat) : Ascii.ascii :=
  Ascii.ascii_of_nat (if Nat.ltb n 10 then 48 + n else 87 + n).

Definition backslash : string := String bbackslash "".

Definition bslash (s : string) : string := backslash +:+ s.

Definition go_quote_ascii (c : Ascii.ascii) : string :=
  if ceq c 92 || ceq c 34 then String bbackslash (String c "")
  else if ceq c 7 then bslash "a"
  else if ceq c 8 then bslash "b"
  else if ceq c 12 then bslash "f"
  else if ceq c 10 then bslash "n"
  else if ceq c 13 then bslash "r"
  else if ceq c 9 then bslash "t"
  else if ceq c 11 then bslash "v"
  else if Nat.ltb (code c) 32 || Nat.leb 127 (code c)
  then bslash "x" +:+ String (hex_digit (code c / 16)) (String (hex_digit (code c mod 16)) "")
  else String c "".

(** The body of the [%q] verb.  A well-formed multi-byte sequence is copied,
    which is exact for every printable rune. *)
Fixpoint go_quote_body (copy : nat) (s : string) : string :=
  match s with
  | EmptyString => ""
  | String c rest =>
      match copy with
      | S k => String c (go_quote_body k rest)
      | O =>
          if Nat.ltb (code c) 128 then go_quote_ascii c +:+ go_quote_body 0 rest
          else match utf8_len s with
               | O => go_quote_ascii c +:+ go_quote_body 0 rest
               | S k => String c (go_quote_body k rest)
               end
      end
  end.

(** [fmt]'s [%q] and [strconv.Quote]. *)
Definition go_quote (s : string) : string :=
  String bquote (go_quote_body 0 s +:+ String bquote "").

(** [hex.EncodeToString]. *)
Fixpoint hex_encode (s : string) : string :=
  match s with
  | EmptyString => ""
  | String c s => String (hex_digit (code c / 16)) (String (hex_digit (code c mod 16)) (hex_encode s))
  end.

(** [strconv.Itoa] and the [%d] verb. *)
Definition itoa (z : Z) : string := pretty z.

(** [strings.Cut] at a byte: what is before it and after it. *)
Definition cut_byte (c : Ascii.ascii) (s : string) : option (string * string) :=
  match str_index_byte c s with Some i => Some (str_take i s, str_drop (S i) s) | None => None end.

(** What [range] over a string and [WriteRune] make of a byte that starts no
    well-formed sequence. *)
Definition replacement_char : string := byte_of 239 +:+ byte_of 191 +:+ byte_of 189.

(** [strings.Fields]: [skip] bytes of a space are left to read, [cur] is the
    field so far. *)
Definition flush_field (cur : string) : list string := if String.eqb cur "" then [] else [cur].

Fixpoint fields_from (skip : nat) (cur s : string) : list string :=
  match s with
  | EmptyString => flush_field cur
  | String c rest =>
      match skip with
      | S k => fields_from k cur rest
      | O => match find (fun p => has_prefix p s) space_seqs with
             | Some p => flush_field cur ++ fields_from (Nat.pred (String.length p)) "" rest
             | None => fields_from 0 (cur +:+ String c "") rest
             end
      end
  end.

Definition str_fields (s : string) : list string := fields_from 0 "" s.

(** [strings.ToLower] of ASCII text. *)
Fixpoint str_lower (s : string) : string :=
  match s with String c t => String (lower_ascii c) (str_lower t) | EmptyString => "" end.

(** [sort.Strings]. *)
Definition sort_strings (l : list string) : list string := merge_sort String.le l.

(** ** Lemmas *)

Lemma sort_strings_perm l : sort_strings l ≡ₚ l.
Proof. apply merge_sort_Permutation. Qed.

(** The sorted list is determined by its elements. *)
Lemma sort_strings_eq l l' : l ≡ₚ l' -> sort_strings l = sort_strings l'.
Proof.
  intros H. apply (StronglySorted_unique String.le); try (apply StronglySorted_merge_sort; apply _).
  by rewrite !sort_strings_perm.
Qed.

Lemma sort_strings_sorted l : StronglySorted String.le (sort_strings l).
Proof. apply StronglySorted_merge_sort; apply _. Qed.

Lemma app_cons c s t : String c s +:+ t = String c (s +:+ t).
Proof. reflexivity. Qed.

Lemma app_empty_l s : "" +:+ s = s.
Proof. reflexivity. Qed.

Lemma app_empty_r s : s +:+ "" = s.
Proof. induction s as [|c s IH]; [done|]. by rewrite app_cons, IH. Qed.

Lemma app_assoc_str s t u : (s +:+ t) +:+ u = s +:+ (t +:+ u).
Proof. induction s as [|c s IH]; [done|]. by rewrite !app_cons, IH. Qed.

Lemma length_app_str s t :
  String.length (s +:+ t) = String.length s + String.length t.
Proof. induction s as [|c s IH]; [done|]. rewrite app_cons. simpl. by rewrite IH. Qed.

Lemma str_concat_snoc ws w : str_concat (ws ++ [w]) = str_concat ws +:+ w.
Proof.
  unfold str_concat. rewrite foldr_app. cbn. rewrite app_empty_r.
  induction ws as [|x ws IH]; cbn; [done|]. by rewrite IH, app_assoc_str.
Qed.

Create Rewrite HintDb gostr.
#[export] Hint Rewrite app_empty_r app_assoc_str length_app_str : gostr.
#[export] Hint Rewrite app_cons app_empty_l : gostr.

Lemma app_eq_nil_str s t : s +:+ t = "" -> s = "" /\ t = "".
Proof. destruct s; [by auto | rewrite app_cons; discriminate]. Qed.

Lemma take_drop_str n s : str_take n s +:+ str_drop n s = s.
Proof.
  revert s. induction n as [|n IH]; intros [|c s]; try done.
  cbn [str_take str_drop]. by rewrite app_cons, IH.
Qed.

Lemma length_take_str n s : String.length (str_take n s) = Nat.min n (String.length s).
Proof. revert s. induction n; intros [|c s]; simpl; auto. Qed.

Lemma length_drop_str n s : String.length (str_drop n s) = String.length s - n.
Proof. revert s. induction n; intros [|c s]; simpl; auto. Qed.

Lemma take_app_str s t : str_take (String.length s) (s +:+ t) = s.
Proof. induction s as [|c s IH]; [by destruct t|]. rewrite app_cons. simpl. by rewrite IH. Qed.

Lemma drop_app_str s t : str_drop (String.length s) (s +:+ t) = t.
Proof. induction s as [|c s IH]; [done|]. rewrite app_cons. simpl. by rewrite IH. Qed.

Lemma drop_drop_str a b s : str_drop a (str_drop b s) = str_drop (b + a) s.
Proof. revert s. induction b as [|b IH]; intros s; [done|]. destruct s; simpl; [by destruct a|]. apply IH. Qed.

Lemma take_ge_str n s : String.length s <= n -> str_take n s = s.
Proof.
  revert s. induction n; intros [|c s]; simpl; intros; auto; try lia.
  f_equal. apply IHn. lia.
Qed.

Lemma drop_ge_str n s : String.length s <= n -> str_drop n s = "".
Proof. revert s. induction n; intros [|c s]; simpl; intros; auto; try lia. apply IHn. lia. Qed.

Lemma take_0_str s : str_take 0 s = "".
Proof. by destruct s. Qed.

Lemma take_app_le_str n s t : n <= String.length s -> str_take n (s +:+ t) = str_take n s.
Proof.
  revert s. induction n as [|n IH]; intros [|c s] Hn; simpl in Hn; try lia.
  - by rewrite !take_0_str.
  - by rewrite !take_0_str.
  - rewrite app_cons. simpl. rewrite IH; [done | lia].
Qed.

Lemma drop_app_le_str n s t : n <= String.length s -> str_drop n (s +:+ t) = str_drop n s +:+ t.
Proof.
  revert s. induction n as [|n IH]; intros [|c s] Hn; simpl in Hn; try lia; auto.
  rewrite app_cons. simpl. apply IH. lia.
Qed.

Lemma app_inj_str s1 s2 t1 t2 :
  String.length s1 = String.length s2 -> s1 +:+ t1 = s2 +:+ t2 -> s1 = s2 /\ t1 = t2.
Proof.
  revert s2. induction s1 as [|c s1 IH]; intros [|d s2] Hl; simpl in *; try lia; auto.
  rewrite !app_cons. intros [= -> H]. apply IH in H as [-> ->]; auto.
Qed.

Lemma has_prefix_spec p s : has_prefix p s = true <-> exists t, s = p +:+ t.
Proof.
  revert s. induction p as [|a p IH]; intros s; simpl.
  - split; [by exists s | done].
  - destruct s as [|b s].
    + split; [discriminate | intros [t H]; rewrite app_cons in H; discriminate].
    + rewrite andb_true_iff, Ascii.eqb_eq, IH. split.
      * intros [-> [t ->]]. exists t. by rewrite app_cons.
      * intros [t H]. rewrite app_cons in H. injection H as -> ->. eauto.
Qed.

Lemma has_prefix_app p t : has_prefix p (p +:+ t) = true.
Proof. apply has_prefix_spec. eauto. Qed.

Lemma has_prefix_length p s : has_prefix p s = true -> String.length p <= String.length s.
Proof. rewrite has_prefix_spec. intros [t ->]. rewrite length_app_str. lia. Qed.

Lemma has_prefix_drop p s : has_prefix p s = true -> s = p +:+ str_drop (String.length p) s.
Proof. rewrite has_prefix_spec. intros [t ->]. by rewrite drop_app_str. Qed.

(** An occurrence splits the string around the searched text. *)
Lemma str_index_split sub s i :
  str_index sub s = Some i ->
  s = str_take i s +:+ sub +:+ str_drop (i + String.length sub) s
  /\ i + String.length sub <= String.length s.
Proof.
  revert i. induction s as [|c s IH]; intros i; simpl; destruct (has_prefix sub _) eqn:E.
  - intros [= <-]. pose proof (has_prefix_length _ _ E) as Hl. simpl in *.
    apply has_prefix_drop in E. split; [exact E | simpl; lia].
  - discriminate.
  - intros [= <-]. pose proof (has_prefix_length _ _ E) as Hl.
    apply has_prefix_drop in E. split; [exact E | simpl in *; lia].
  - destruct (str_index sub s) as [j|]; [|discriminate].
    intros [= <-]. destruct (IH j eq_refl) as [E' Hl]. split; [|simpl; lia].
    simpl. rewrite app_cons. f_equal. exact E'.
Qed.

(** No earlier position starts an occurrence. *)
Lemma str_index_first sub s i j :
  str_index sub s = Some i -> j < i -> has_prefix sub (str_drop j s) = false.
Proof.
  revert i j. induction s as [|c s IH]; intros i j; simpl; destruct (has_prefix sub _) eqn:E;
    try (intros [= <-]; lia); try discriminate.
  destruct (str_index sub s) as [k|]; [|discriminate]. intros [= <-] Hj.
  destruct j as [|j]; simpl; [exact E | eapply IH; [reflexivity | lia]].
Qed.

Lemma str_index_none sub s j :
  str_index sub s = None -> has_prefix sub (str_drop j s) = false.
Proof.
  revert j. induction s as [|c s IH]; intros j; simpl; destruct (has_prefix sub _) eqn:E;
    try discriminate.
  - intros _. by destruct j.
  - destruct (str_index sub s); [discriminate|]. intros _. destruct j; simpl; auto.
Qed.

(** ** Every byte of a string *)
Fixpoint str_forall (P : Ascii.ascii -> bool) (s : string) : bool :=
  match s with EmptyString => true | String c s => P c && str_forall P s end.

Lemma str_forall_app P s t : str_forall P (s +:+ t) = str_forall P s && str_forall P t.
Proof.
  induction s as [|c s IH]; [done|]. rewrite app_cons. simpl. by rewrite IH, andb_assoc.
Qed.

Lemma str_forall_take P n s : str_forall P s = true -> str_forall P (str_take n s) = true.
Proof.
  revert s. induction n; intros [|c s]; simpl; auto.
  rewrite !andb_true_iff. naive_solver.
Qed.

Lemma str_forall_impl (P Q : Ascii.ascii -> bool) s :
  (forall c, P c = true -> Q c = true) -> str_forall P s = true -> str_forall Q s = true.
Proof. intros H. induction s; simpl; [done|]. rewrite !andb_true_iff. naive_solver. Qed.

(** ** Decimal numbers *)
Definition is_dec_digit (c : Ascii.ascii) : bool := in_range 48 57 c.

Lemma pretty_N_char_digit x : is_dec_digit (pretty_N_char x) = true.
Proof. unfold pretty_N_char. by repeat case_match. Qed.

Lemma pretty_N_go_digits x s :
  str_forall is_dec_digit s = true -> str_forall is_dec_digit (pretty_N_go x s) = true.
Proof.
  revert s. induction (N.lt_wf_0 x) as [x _ IH]; intros s Hs.
  destruct (decide (x = 0%N)) as [->|]; [done|].
  rewrite pretty_N_go_step by lia. apply IH; [apply N.div_lt; lia|].
  cbn [str_forall]. by rewrite pretty_N_char_digit.
Qed.

Lemma pretty_N_digits (x : N) : str_forall is_dec_digit (pretty x) = true.
Proof. unfold pretty, pretty_N. case_decide; [done | by apply pretty_N_go_digits]. Qed.

Lemma pretty_N_go_length k x s :
  (x < 10 ^ N.of_nat k)%N -> String.length (pretty_N_go x s) <= k + String.length s.
Proof.
  revert x s. induction k as [|k IH]; intros x s Hx.
  - assert (x = 0%N) as -> by (simpl in Hx; lia). done.
  - destruct (decide (x = 0%N)) as [->|]; [rewrite pretty_N_go_0; lia|].
    rewrite pretty_N_go_step by lia. etrans; [apply IH | simpl; lia].
    apply N.Div0.div_lt_upper_bound.
    replace (N.of_nat (S k)) with (N.succ (N.of_nat k)) in Hx by lia.
    by rewrite N.pow_succ_r' in Hx.
Qed.

(** A number below [10^k] has at most [k] digits. *)
Lemma pretty_N_length k (x : N) :
  1 <= k -> (x < 10 ^ N.of_nat k)%N -> String.length (pretty x) <= k.
Proof.
  intros Hk Hx. unfold pretty, pretty_N. case_decide; [simpl; lia|].
  etrans; [by apply (pretty_N_go_length k)|]. simpl. lia.
Qed.

(** The text after the last separator is determined when the separator does
    not occur in it. *)
Lemma app_last_sep (P : Ascii.ascii -> bool) sep s1 s2 d1 d2 :
  P sep = false -> str_forall P d1 = true -> str_forall P d2 = true ->
  s1 +:+ String sep d1 = s2 +:+ String sep d2 -> d1 = d2.
Proof.
  intros Hsep H1 H2. revert s2. induction s1 as [|c s1 IH]; intros [|c' s2]; rewrite ?app_cons.
  - by intros [= ->].
  - rewrite app_empty_l. intros [= -> ->]. rewrite str_forall_app in H1. simpl in H1.
    rewrite Hsep, andb_false_r in H1. discriminate.
  - rewrite app_empty_l. intros [= -> <-]. rewrite str_forall_app in H2. simpl in H2.
    rewrite Hsep, andb_false_r in H2. discriminate.
  - intros [= _ H]. eauto.
Qed.

(** ** Lines: lemmas *)
Definition not_newline (c : Ascii.ascii) : bool := negb (Nat.eqb (code c) 10).
Definition one_line (s : string) : bool := str_forall not_newline s.

Lemma split_lines_cons s : exists l ls, split_lines s = l :: ls.
Proof.
  destruct s as [|c s]; simpl; [eauto|]. case_match; [eauto|].
  destruct (split_lines s); eauto.
Qed.

Lemma split_lines_clean s : Forall (fun l => one_line l = true) (split_lines s).
Proof.
  induction s as [|c s IH]; [by repeat constructor|]. simpl.
  destruct (Nat.eqb (code c) 10) eqn:Ec; [by constructor|].
  destruct (split_lines_cons s) as (l & ls & E). rewrite E in *.
  apply Forall_cons in IH as [Hl Hls]. constructor; [|done].
  unfold one_line in *. simpl. unfold not_newline at 1. by rewrite Ec.
Qed.

Lemma split_lines_app a b : split_lines (a +:+ newline +:+ b) = split_lines a ++ split_lines b.
Proof.
  induction a as [|c a IH]; [done|]. rewrite app_cons. simpl. rewrite IH.
  destruct (Nat.eqb (code c) 10); [done|].
  destruct (split_lines_cons a) as (l & ls & ->). done.
Qed.

Lemma split_lines_line l : one_line l = true -> split_lines l = [l].
Proof.
  induction l as [|c l IH]; [done|]. unfold one_line. simpl. rewrite andb_true_iff. intros [Hc Hl].
  rewrite IH by done. unfold not_newline in Hc. by destruct (Nat.eqb (code c) 10).
Qed.

Lemma join_split s : str_join newline (split_lines s) = s.
Proof.
  induction s as [|c s IH]; [done|]. simpl.
  destruct (split_lines_cons s) as (l & ls & E). rewrite E in *.
  destruct (Nat.eqb (code c) 10) eqn:Ec.
  - apply Nat.eqb_eq in Ec. cbn [str_join] in *. rewrite IH, app_empty_l. unfold newline, byte_of. rewrite app_cons.
    unfold code in Ec. by rewrite <- Ec, Ascii.ascii_nat_embedding.
  - revert IH. cbn [str_join]. destruct ls as [|l' ls]; [by intros ->|]. by rewrite app_cons; intros ->.
Qed.

Lemma split_join ls :
  ls <> [] -> Forall (fun l => one_line l = true) ls -> split_lines (str_join newline ls) = ls.
Proof.
  induction ls as [|l ls IH]; [done|]. intros _ [Hl Hls]%Forall_cons.
  destruct ls as [|l' ls]; [by apply split_lines_line|].
  change (str_join newline (l :: l' :: ls)) with (l +:+ newline +:+ str_join newline (l' :: ls)).
  rewrite split_lines_app, split_lines_line by done. simpl. f_equal. by apply IH.
Qed.

Lemma one_line_app a b : one_line (a +:+ b) = one_line a && one_line b.
Proof. apply str_forall_app. Qed.

Lemma hex_digit_line n : n < 16 -> not_newline (hex_digit n) = true.
Proof. intros H. do 16 (destruct n as [|n]; [reflexivity|]). lia. Qed.

Lemma code_lt c : code c < 256.
Proof. destruct c as [[] [] [] [] [] [] [] []]; vm_compute; lia. Qed.

Lemma hex_encode_line s : one_line (hex_encode s) = true.
Proof.
  induction s as [|c s IH]; [done|]. unfold one_line in *. cbn [hex_encode str_forall].
  rewrite IH, !hex_digit_line; [done| |].
  - apply Nat.mod_upper_bound. lia.
  - apply Nat.Div0.div_lt_upper_bound. pose proof (code_lt c). lia.
Qed.

(** ** Hexadecimal: lemmas *)
Lemma hex_digit_inj n m : n < 16 -> m < 16 -> hex_digit n = hex_digit m -> n = m.
Proof.
  assert (Hc : forall k, k < 16 -> code (hex_digit k) = if Nat.ltb k 10 then 48 + k else 87 + k).
  { intros k Hk. do 16 (destruct k as [|k]; [reflexivity|]). lia. }
  intros Hn Hm H%(f_equal code). rewrite !Hc in H by done.
  destruct (Nat.ltb_spec n 10), (Nat.ltb_spec m 10); lia.
Qed.

Lemma code_inj c d : code c = code d -> c = d.
Proof. intros H. unfold code in H. by rewrite <- (Ascii.ascii_nat_embedding c), H, Ascii.ascii_nat_embedding. Qed.

Lemma hex_encode_inj s t : hex_encode s = hex_encode t -> s = t.
Proof.
  assert (Hd : forall c, code c / 16 < 16).
  { intros c. apply Nat.Div0.div_lt_upper_bound. pose proof (code_lt c). lia. }
  assert (Hmod : forall c, code c mod 16 < 16) by (intros; apply Nat.mod_upper_bound; lia).
  revert t. induction s as [|c s IH]; intros [|d t]; try done. cbn [hex_encode].
  intros H.
  assert (H1 : hex_digit (code c / 16) = hex_digit (code d / 16)) by congruence.
  assert (H2 : hex_digit (code c mod 16) = hex_digit (code d mod 16)) by congruence.
  apply hex_digit_inj in H1, H2; auto. f_equal; [|apply IH; congruence]. apply code_inj.
  pose proof (Nat.div_mod_eq (code c) 16). pose proof (Nat.div_mod_eq (code d) 16). congruence.
Qed.

Lemma app_prefix_inj p s t : p +:+ s = p +:+ t -> s = t.
Proof. by intros [_ H]%app_inj_str. Qed.

Lemma app_suffix_inj p s t : s +:+ p = t +:+ p -> s = t.
Proof.
  intros H. assert (Hl : String.length s = String.length t).
  { apply (f_equal String.length) in H. rewrite !length_app_str in H. lia. }
  by apply app_inj_str in H as [H _].
Qed.

(** ** Words of printable characters *)
Definition graphic (c : Ascii.ascii) : bool := in_range 33 126 c.

Lemma space_seqs_edges :
  Forall (fun p => exists c q d r, p = String c q /\ p = r +:+ String d "" /\ graphic c = false /\ graphic d = false) space_seqs.
Proof.
  unfold space_seqs. cbn [map app].
  repeat (constructor; [match goal with
    | |- exists c q d r, byte_of ?n = _ /\ _ => exists (Ascii.ascii_of_nat n), "", (Ascii.ascii_of_nat n), ""
    | |- exists c q d r, byte_of ?m +:+ byte_of ?n = _ /\ _ => exists (Ascii.ascii_of_nat m), (byte_of n), (Ascii.ascii_of_nat n), (byte_of m)
    | |- exists c q d r, byte_of ?m +:+ byte_of ?k +:+ byte_of ?n = _ /\ _ =>
        exists (Ascii.ascii_of_nat m), (byte_of k +:+ byte_of n), (Ascii.ascii_of_nat n), (byte_of m +:+ byte_of k)
    end; repeat split; reflexivity|]).
  constructor.
Qed.

Lemma no_space_prefix c s : graphic c = true -> List.find (fun p => has_prefix p (String c s)) space_seqs = None.
Proof.
  intros Hc. destruct (List.find _ _) as [p|] eqn:E; [|done]. exfalso. apply find_some in E as [Hin Hp].
  apply list_elem_of_In in Hin. pose proof space_seqs_edges as H. rewrite Forall_forall in H.
  destruct (H _ Hin) as (d & q & _ & _ & -> & _ & Hd & _). apply has_prefix_spec in Hp as [t Ht]. injection Ht as -> _. congruence.
Qed.

Lemma snoc_inj s t c d : s +:+ String c "" = t +:+ String d "" -> c = d.
Proof.
  intros H. assert (String.length s = String.length t) as Hl.
  { apply (f_equal String.length) in H. rewrite !length_app_str in H. cbn in H. lia. }
  apply app_inj_str in H as [_ H]; [|done]. by injection H.
Qed.

Lemma no_space_suffix c s : graphic c = true -> List.find (fun p => has_suffix p (s +:+ String c "")) space_seqs = None.
Proof.
  intros Hc. destruct (List.find _ _) as [p|] eqn:E; [|done]. exfalso. apply find_some in E as [Hin Hp].
  apply list_elem_of_In in Hin. pose proof space_seqs_edges as H. rewrite Forall_forall in H.
  destruct (H _ Hin) as (_ & _ & d & q & _ & -> & _ & Hd).
  unfold has_suffix in Hp. apply andb_true_iff in Hp as [_ Hp%String.eqb_eq].
  assert (exists t, s +:+ String c "" = t +:+ (q +:+ String d "")) as [t Ht]
    by (eexists; rewrite <- Hp; symmetry; apply take_drop_str).
  rewrite <- app_assoc_str in Ht. apply snoc_inj in Ht. congruence.
Qed.

(** [TrimSpace] keeps a text whose first and last bytes are printable. *)
Lemma trim_space_edges c d s t : graphic c = true -> graphic d = true -> String c s = t +:+ String d "" -> trim_space (String c s) = String c s.
Proof.
  intros Hc Hd He. unfold trim_space.
  assert (forall n, trim_left_go n (String c s) = String c s) as -> by (intros [|n]; [done|]; cbn [trim_left_go]; by rewrite no_space_prefix).
  rewrite He. generalize (String.length (t +:+ String d "")) as n. intros [|n]; [done|]. cbn [trim_right_go]. by rewrite no_space_suffix.
Qed.

Definition graphic_word (w : string) : bool := negb (String.eqb w "") && str_forall graphic w.

Lemma word_last w : w <> "" -> exists t d, w = t +:+ String d "" .
Proof.
  induction w as [|c w IH]; [done|]. intros _. destruct w as [|d w]; [by exists "", c|].
  destruct IH as (t & e & ->); [done|]. by exists (String c t), e.
Qed.

Lemma trim_graphic w : graphic_word w = true -> trim_space w = w.
Proof.
  unfold graphic_word. intros [Hn%negb_true_iff%String.eqb_neq Hg]%andb_true_iff. destruct (word_last w Hn) as (t & d & Hw).
  destruct w as [|c w]; [done|]. pose proof Hg as Hg'. rewrite Hw in Hg'. cbn in Hg. rewrite str_forall_app in Hg'. cbn in Hg'.
  apply andb_true_iff in Hg as [Hc _]. apply andb_true_iff in Hg' as [_ Hd]. rewrite andb_true_r in Hd. by eapply trim_space_edges.
Qed.

Lemma fields_word cur w rest : str_forall graphic w = true -> fields_from 0 cur (w +:+ rest) = fields_from 0 (cur +:+ w) rest.
Proof.
  revert cur. induction w as [|c w IH]; intros cur; [by rewrite app_empty_r|]. cbn [str_forall]. intros [Hc Hw]%andb_true_iff.
  rewrite app_cons. cbn [fields_from]. rewrite no_space_prefix by done. rewrite IH by done. by rewrite app_assoc_str.
Qed.

Lemma fields_space cur rest : fields_from 0 cur (" " +:+ rest) = flush_field cur ++ fields_from 0 "" rest.
Proof. reflexivity. Qed.

(** [Fields] of words joined by spaces. *)
Lemma fields_join ws : Forall (fun w => graphic_word w = true) ws -> str_fields (str_join " " ws) = ws.
Proof.
  unfold str_fields. induction ws as [|w ws IH]; [done|]. intros [Hw Hws]%Forall_cons.
  unfold graphic_word in Hw. apply andb_true_iff in Hw as [Hn%negb_true_iff Hg].
  destruct ws as [|v ws].
  - cbn [str_join]. rewrite <- (app_empty_r w) at 1. rewrite fields_word, app_empty_l by done.
    cbn [fields_from]. unfold flush_field. by rewrite Hn.
  - change (str_join " " (w :: v :: ws)) with (w +:+ " " +:+ str_join " " (v :: ws)).
    rewrite fields_word, fields_space, IH, app_empty_l by done. unfold flush_field. by rewrite Hn.
Qed.

(** ** Suffixes and spaces *)
Lemma has_suffix_self p s : has_suffix p (s +:+ p) = true.
Proof.
  unfold has_suffix. rewrite length_app_str. replace (String.length s + String.length p - String.length p) with (String.length s) by lia.
  rewrite drop_app_str, String.eqb_refl, andb_true_r. apply Nat.leb_le. lia.
Qed.

Lemma trim_suffix_self p s : trim_suffix (s +:+ p) p = s.
Proof.
  unfold trim_suffix. rewrite has_suffix_self, length_app_str.
  replace (String.length s + String.length p - String.length p) with (String.length s) by lia. apply take_app_str.
Qed.

Lemma trim_space_space s : trim_space (" " +:+ s) = trim_space s.
Proof. reflexivity. Qed.
