(* ===== verification/Errors.v ===== *)
(** * Errors

    Go errors as values: the sentinels of the agent package, the denial a
    tool middleware returns, plain errors, and [fmt.Errorf] with one [%w].
    [errors.Is] and [errors.As] walk the chain of wrapped errors.  The file
    also holds the effect monad of the code that calls out: it threads an
    abstract world and collects the events the code emits. *)

From S2P Require Import Prelude GoStr.

Inductive sentinel :=
| ErrMaxSteps
| ErrNotAvailableNow
| ErrTreeBudget
| ErrContextBudget
| ErrTurnStopped
| ErrUnknownTool
| ErrUnsupportedParam
| ErrSignalAbort
| ErrCanceled
| ErrDeadlineExceeded
| ErrMaxHandoffs.

#[export] Instance sentinel_eq_dec : EqDecision sentinel.
Proof. solve_decision. Defined.

Definition sentinel_text (s : sentinel) : string :=
  match s with
  | ErrMaxSteps => "agent: max steps exceeded"
  | ErrNotAvailableNow => "agent: tool source not available now"
  | ErrTreeBudget => "agent: tree budget exhausted"
  | ErrContextBudget => "agent: context budget exceeded"
  | ErrTurnStopped => "agent: turn stopped"
  | ErrUnknownTool => "agent: unknown tool"
  | ErrUnsupportedParam => "agent: provider does not support request parameter"
  | ErrSignalAbort => "agent: turn aborted by child signal"
  | ErrCanceled => "context canceled"
  | ErrDeadlineExceeded => "context deadline exceeded"
  | ErrMaxHandoffs => "agent: max handoffs exceeded"
  end.

(** [ToolDeniedError]: the reason surfaces show and what the model is told. *)
Record ToolDeniedError := {
  Reason : string;
  ModelReason : string;
}.

Definition ToolDeniedError_Error (e : ToolDeniedError) : string :=
  if String.eqb (Reason e) "" then "tool call denied"
  else "tool call denied: " +:+ Reason e.

Inductive error :=
| ESentinel (s : sentinel)
| EDenied (d : ToolDeniedError)
| EText (msg : string)
| EWrap (pre : string) (inner : error) (post : string).

(** [err.Error()]. *)
Fixpoint error_text (e : error) : string :=
  match e with
  | ESentinel s => sentinel_text s
  | EDenied d => ToolDeniedError_Error d
  | EText msg => msg
  | EWrap pre e post => pre +:+ error_text e +:+ post
  end.

(** [errors.Is(err, s)]. *)
Fixpoint error_is (s : sentinel) (e : error) : bool :=
  match e with
  | ESentinel s' => bool_decide (s = s')
  | EWrap _ e _ => error_is s e
  | _ => false
  end.

(** [errors.As(err, &d)] for a [*ToolDeniedError]. *)
Fixpoint error_as_denied (e : error) : option ToolDeniedError :=
  match e with
  | EDenied d => Some d
  | EWrap _ e _ => error_as_denied e
  | _ => None
  end.

(** [fmt.Errorf("%w: ...", s, ...)] and [fmt.Errorf("...: %w", err)]. *)
Definition wrap_sentinel (s : sentinel) (post : string) : error :=
  EWrap "" (ESentinel s) post.

Definition wrap_error (pre : string) (e : error) : error := EWrap pre e "".

(** A Go call that returns a value or an error. *)
Abbreviation result A := (error + A)%type.

(** ** Effects

    A callback sees and changes the world [W] (providers, tool servers, the
    user) and may emit events, which are only ever appended to the turn's
    stream. *)
Definition eff (W E A : Type) : Type := W -> A * list E * W.

Definition eff_ret {W E A} (a : A) : eff W E A := fun w => (a, [], w).

Definition eff_bind {W E A B} (m : eff W E A) (k : A -> eff W E B) : eff W E B :=
  fun w =>
    let '(a, evs, w1) := m w in
    let '(b, evs', w2) := k a w1 in
    (b, evs ++ evs', w2).

Definition eff_emit {W E} (ev : E) : eff W E unit := fun w => (tt, [ev], w).

(** A call that cannot emit events. *)
Definition eff_call {W E A} (f : W -> A * W) : eff W E A :=
  fun w => let '(a, w') := f w in (a, [], w').

Declare Scope eff_scope.
Delimit Scope eff_scope with eff.
Notation "'let*' x ':=' m 'in' k" := (eff_bind m (fun x => k))
  (at level 10, x pattern, m at level 100, k at level 200) : eff_scope.
Notation "m ';;;' k" := (eff_bind m (fun _ => k))
  (at level 199, right associativity) : eff_scope.

(** [eff_value] and [eff_events]: what a run returns and what it emitted. *)
Definition eff_value {W E A} (m : eff W E A) (w : W) : A := (m w).1.1.
Definition eff_events {W E A} (m : eff W E A) (w : W) : list E := (m w).1.2.
Definition eff_world {W E A} (m : eff W E A) (w : W) : W := (m w).2.

Lemma eff_run {W E A} (m : eff W E A) w : m w = (eff_value m w, eff_events m w, eff_world m w).
Proof. unfold eff_value, eff_events, eff_world. by destruct (m w) as [[]]. Qed.

Lemma eff_value_ret {W E A} (a : A) (w : W) : eff_value (eff_ret (E:=E) a) w = a.
Proof. done. Qed.

Lemma eff_value_bind {W E A B} (m : eff W E A) (k : A -> eff W E B) w :
  eff_value (eff_bind m k) w = eff_value (k (eff_value m w)) (eff_world m w).
Proof.
  unfold eff_value, eff_bind, eff_world. destruct (m w) as [[a evs] w1]. simpl.
  by destruct (k a w1) as [[b evs'] w2].
Qed.

Lemma eff_events_bind {W E A B} (m : eff W E A) (k : A -> eff W E B) w :
  eff_events (eff_bind m k) w
  = eff_events m w ++ eff_events (k (eff_value m w)) (eff_world m w).
Proof.
  unfold eff_value, eff_events, eff_bind, eff_world. destruct (m w) as [[a evs] w1]. simpl.
  by destruct (k a w1) as [[b evs'] w2].
Qed.

Lemma eff_world_bind {W E A B} (m : eff W E A) (k : A -> eff W E B) w :
  eff_world (eff_bind m k) w = eff_world (k (eff_value m w)) (eff_world m w).
Proof.
  unfold eff_value, eff_bind, eff_world. destruct (m w) as [[a evs] w1]. simpl.
  by destruct (k a w1) as [[b evs'] w2].
Qed.

(** Runs that continue alike, and runs that start alike, are alike. *)
Lemma eff_bind_ext {W E A B} (m : eff W E A) (k k' : A -> eff W E B) w :
  (forall a w', k a w' = k' a w') -> eff_bind m k w = eff_bind m k' w.
Proof. intros H. unfold eff_bind. destruct (m w) as [[a evs] w1]. by rewrite H. Qed.

Lemma eff_bind_ext_l {W E A B} (m m' : eff W E A) (k : A -> eff W E B) w :
  m w = m' w -> eff_bind m k w = eff_bind m' k w.
Proof. intros H. unfold eff_bind. by rewrite H. Qed.

Lemma eff_bind_ret_l {W E A B} (a : A) (k : A -> eff W E B) w : eff_bind (eff_ret a) k w = k a w.
Proof. unfold eff_bind. simpl. by destruct (k a w) as [[b evs] w1]. Qed.

Lemma eff_bind_assoc {W E A B C} (m : eff W E A) (k : A -> eff W E B) (h : B -> eff W E C) w :
  eff_bind (eff_bind m k) h w = eff_bind m (fun a => eff_bind (k a) h) w.
Proof.
  unfold eff_bind. destruct (m w) as [[a evs] w1]. destruct (k a w1) as [[b evs'] w2].
  destruct (h b w2) as [[c evs''] w3]. by rewrite app_assoc.
Qed.

(** ** Reasoning about runs

    [wp m Q]: from every world, [m] returns a value and emits events that
    satisfy [Q]. *)
Definition wp {W E A} (m : eff W E A) (Q : A -> list E -> Prop) : Prop :=
  forall w, Q (eff_value m w) (eff_events m w).

Lemma wp_ret {W E A} (a : A) (Q : A -> list E -> Prop) : Q a [] -> wp (W:=W) (eff_ret a) Q.
Proof. by intros H w. Qed.

Lemma wp_emit {W E} (ev : E) (Q : unit -> list E -> Prop) : Q tt [ev] -> wp (W:=W) (eff_emit ev) Q.
Proof. by intros H w. Qed.

Lemma wp_bind {W E A B} (m : eff W E A) (k : A -> eff W E B) Q :
  wp m (fun a evs => wp (k a) (fun b evs' => Q b (evs ++ evs'))) -> wp (eff_bind m k) Q.
Proof. intros H w. rewrite eff_value_bind, eff_events_bind. apply H. Qed.

Lemma wp_mono {W E A} (m : eff W E A) (Q Q' : A -> list E -> Prop) :
  wp m Q -> (forall a evs, Q a evs -> Q' a evs) -> wp m Q'.
Proof. intros H HQ w. apply HQ, H. Qed.

Lemma wp_any {W E A} (m : eff W E A) (Q : A -> list E -> Prop) : (forall a evs, Q a evs) -> wp m Q.
Proof. intros H w. apply H. Qed.

Lemma wp_and {W E A} (m : eff W E A) (Q Q' : A -> list E -> Prop) :
  wp m Q -> wp m Q' -> wp m (fun a evs => Q a evs /\ Q' a evs).
Proof. intros H H' w. by split. Qed.

(** One step of a run whose head is known. *)
Ltac wp_step :=
  match goal with
  | |- wp (eff_ret _) _ => apply wp_ret
  | |- wp (eff_emit _) _ => apply wp_emit
  | |- wp (eff_bind _ _) _ => apply wp_bind
  end.

(** ** Errors: lemmas *)

Lemma error_is_wrap s pre e post : error_is s (EWrap pre e post) = error_is s e.
Proof. done. Qed.

Lemma error_is_sentinel s post : error_is s (wrap_sentinel s post) = true.
Proof. simpl. by apply bool_decide_eq_true. Qed.
#[export] Hint Resolve error_is_sentinel : chakra.
