(* ===== verification/Json.v ===== *)
(** * JSON text

    The parts of Go's [encoding/json] the agent relies on, at the level of
    bytes: [json.Valid], a translation of the package's scanner, and
    [json.Marshal] of a string, with its HTML and UTF-8 escaping.  The
    scanner reads one byte at a time with a stack of what it is inside of,
    so it is a structural recursion on the input. *)

From S2P Require Import Prelude GoStr.

(** ** The scanner *)

(** What the scanner is inside of, innermost first. *)
Inductive frame := FObjectKey | FObjectValue | FArrayValue.

Inductive jstate :=
| JBeginValueOrEmpty | JBeginValue | JBeginStringOrEmpty | JBeginString
| JEndValue | JEndTop
| JInString | JInStringEsc | JInStringU | JInStringU1 | JInStringU12 | JInStringU123
| JNeg | J1 | J0 | JDot | JDot0 | JE | JESign | JE0
| JT | JTr | JTru | JF | JFa | JFal | JFals | JN | JNu | JNul.

(** [maxNestingDepth]. *)
Definition max_nesting : Z := 10000.

Definition is_space (c : Ascii.ascii) : bool :=
  existsb (Nat.eqb (code c)) [32; 9; 13; 10].

Definition is_digit (c : Ascii.ascii) : bool := Nat.leb 48 (code c) && Nat.leb (code c) 57.
Definition is_digit19 (c : Ascii.ascii) : bool := Nat.leb 49 (code c) && Nat.leb (code c) 57.

Definition is_hex (c : Ascii.ascii) : bool :=
  is_digit c || (Nat.leb 97 (code c) && Nat.leb (code c) 102)
  || (Nat.leb 65 (code c) && Nat.leb (code c) 70).

(** A configuration, or [None] once the scanner has seen an error. *)
Definition jconf : Type := jstate * list frame.

Definition push (f : frame) (st : jstate) (stk : list frame) : option jconf :=
  if (Z.of_nat (length stk) <? max_nesting)%Z then Some (st, f :: stk) else None.

Definition pop (stk : list frame) : option jconf :=
  match stk with
  | [] => None
  | [_] => Some (JEndTop, [])
  | _ :: stk => Some (JEndValue, stk)
  end.

Definition step_begin_value (c : Ascii.ascii) (stk : list frame) : option jconf :=
  if is_space c then Some (JBeginValue, stk)
  else if ceq c 123 then push FObjectKey JBeginStringOrEmpty stk
  else if ceq c 91 then push FArrayValue JBeginValueOrEmpty stk
  else if ceq c 34 then Some (JInString, stk)
  else if ceq c 45 then Some (JNeg, stk)
  else if ceq c 48 then Some (J0, stk)
  else if ceq c 116 then Some (JT, stk)
  else if ceq c 102 then Some (JF, stk)
  else if ceq c 110 then Some (JN, stk)
  else if is_digit19 c then Some (J1, stk)
  else None.

Definition step_begin_string (c : Ascii.ascii) (stk : list frame) : option jconf :=
  if is_space c then Some (JBeginString, stk)
  else if ceq c 34 then Some (JInString, stk)
  else None.

Definition step_end_top (c : Ascii.ascii) : option jconf :=
  if is_space c then Some (JEndTop, []) else None.

Definition step_end_value (c : Ascii.ascii) (stk : list frame) : option jconf :=
  match stk with
  | [] => step_end_top c
  | f :: rest =>
      if is_space c then Some (JEndValue, stk)
      else match f with
           | FObjectKey =>
               if ceq c 58 then Some (JBeginValue, FObjectValue :: rest) else None
           | FObjectValue =>
               if ceq c 44 then Some (JBeginString, FObjectKey :: rest)
               else if ceq c 125 then pop stk else None
           | FArrayValue =>
               if ceq c 44 then Some (JBeginValue, stk)
               else if ceq c 93 then pop stk else None
           end
  end.

Definition step_num0 (c : Ascii.ascii) (stk : list frame) : option jconf :=
  if ceq c 46 then Some (JDot, stk)
  else if ceq c 101 || ceq c 69 then Some (JE, stk)
  else step_end_value c stk.

Definition step_esign (c : Ascii.ascii) (stk : list frame) : option jconf :=
  if is_digit c then Some (JE0, stk) else None.

Definition expect (n : nat) (st : jstate) (c : Ascii.ascii) (stk : list frame) : option jconf :=
  if ceq c n then Some (st, stk) else None.

Definition expect_hex (st : jstate) (c : Ascii.ascii) (stk : list frame) : option jconf :=
  if is_hex c then Some (st, stk) else None.

Definition jstep (cf : jconf) (c : Ascii.ascii) : option jconf :=
  let '(st, stk) := cf in
  match st with
  | JBeginValueOrEmpty =>
      if is_space c then Some (JBeginValueOrEmpty, stk)
      else if ceq c 93 then step_end_value c stk
      else step_begin_value c stk
  | JBeginValue => step_begin_value c stk
  | JBeginStringOrEmpty =>
      if is_space c then Some (JBeginStringOrEmpty, stk)
      else if ceq c 125 then
        match stk with _ :: rest => step_end_value c (FObjectValue :: rest) | [] => None end
      else step_begin_string c stk
  | JBeginString => step_begin_string c stk
  | JEndValue => step_end_value c stk
  | JEndTop => step_end_top c
  | JInString =>
      if ceq c 34 then Some (JEndValue, stk)
      else if ceq c 92 then Some (JInStringEsc, stk)
      else if Nat.ltb (code c) 32 then None
      else Some (JInString, stk)
  | JInStringEsc =>
      if existsb (ceq c) [98; 102; 110; 114; 116; 92; 47; 34] then Some (JInString, stk)
      else if ceq c 117 then Some (JInStringU, stk)
      else None
  | JInStringU => expect_hex JInStringU1 c stk
  | JInStringU1 => expect_hex JInStringU12 c stk
  | JInStringU12 => expect_hex JInStringU123 c stk
  | JInStringU123 => expect_hex JInString c stk
  | JNeg =>
      if ceq c 48 then Some (J0, stk)
      else if is_digit19 c then Some (J1, stk) else None
  | J1 => if is_digit c then Some (J1, stk) else step_num0 c stk
  | J0 => step_num0 c stk
  | JDot => if is_digit c then Some (JDot0, stk) else None
  | JDot0 =>
      if is_digit c then Some (JDot0, stk)
      else if ceq c 101 || ceq c 69 then Some (JE, stk)
      else step_end_value c stk
  | JE => if ceq c 43 || ceq c 45 then Some (JESign, stk) else step_esign c stk
  | JESign => step_esign c stk
  | JE0 => if is_digit c then Some (JE0, stk) else step_end_value c stk
  | JT => expect 114 JTr c stk
  | JTr => expect 117 JTru c stk
  | JTru => expect 101 JEndValue c stk
  | JF => expect 97 JFa c stk
  | JFa => expect 108 JFal c stk
  | JFal => expect 115 JFals c stk
  | JFals => expect 101 JEndValue c stk
  | JN => expect 117 JNu c stk
  | JNu => expect 108 JNul c stk
  | JNul => expect 108 JEndValue c stk
  end.

Fixpoint jrun (cf : jconf) (s : string) : option jconf :=
  match s with
  | EmptyString => Some cf
  | String c s => match jstep cf c with Some cf => jrun cf s | None => None end
  end.

(** [scanner.eof]: the value is complete, or one more blank completes it. *)
Definition jeof (cf : jconf) : bool :=
  match cf with
  | (JEndTop, _) => true
  | _ => match jstep cf (Ascii.ascii_of_nat 32) with
         | Some (JEndTop, _) => true
         | _ => false
         end
  end.

(** [json.Valid]. *)
Definition json_valid (s : string) : bool :=
  match jrun (JBeginValue, []) s with Some cf => jeof cf | None => false end.

(** ** Writing a string: [json.Marshal] of a Go string *)

Definition esc_u00 (c : Ascii.ascii) : string :=
  backslash +:+ "u00" +:+ String (hex_digit (code c / 16)) (String (hex_digit (code c mod 16)) "").

(** The escape of one ASCII byte, or the byte itself. *)
Definition quote_ascii (c : Ascii.ascii) : string :=
  if ceq c 92 || ceq c 34 then String bbackslash (String c "")
  else if ceq c 8 then backslash +:+ "b"
  else if ceq c 12 then backslash +:+ "f"
  else if ceq c 10 then backslash +:+ "n"
  else if ceq c 13 then backslash +:+ "r"
  else if ceq c 9 then backslash +:+ "t"
  else if Nat.ltb (code c) 32 || ceq c 60 || ceq c 62 || ceq c 38 then esc_u00 c
  else String c "".

(** U+2028 and U+2029, which Go escapes for the sake of JavaScript. *)
Definition is_line_sep (s : string) : bool :=
  has_prefix (byte_of 226 +:+ byte_of 128 +:+ byte_of 168) s
  || has_prefix (byte_of 226 +:+ byte_of 128 +:+ byte_of 169) s.

Definition esc_line_sep (s : string) : string :=
  backslash +:+ "u202"
  +:+ (if has_prefix (byte_of 226 +:+ byte_of 128 +:+ byte_of 168) s then "8" else "9").

(** What an ill-formed byte is replaced by. *)
Definition esc_replacement : string := backslash +:+ "ufffd".

(** Where the writer is inside a multi-byte sequence: outside, or with some
    continuation bytes still to copy, or still to skip because the sequence
    has been replaced by its escape. *)
Inductive qmode := QNormal | QCopy (k : nat) | QSkip (k : nat).

Definition qcopy (k : nat) : qmode := match k with O => QNormal | S _ => QCopy k end.
Definition qskip (k : nat) : qmode := match k with O => QNormal | S _ => QSkip k end.

Fixpoint quote_body (m : qmode) (s : string) : string :=
  match s with
  | EmptyString => ""
  | String c rest =>
      match m with
      | QCopy k => String c (quote_body (qcopy (Nat.pred k)) rest)
      | QSkip k => quote_body (qskip (Nat.pred k)) rest
      | QNormal =>
          if Nat.ltb (code c) 128 then quote_ascii c +:+ quote_body QNormal rest
          else match utf8_len s with
               | O => esc_replacement +:+ quote_body QNormal rest
               | S k =>
                   if is_line_sep s
                   then esc_line_sep s +:+ quote_body (qskip k) rest
                   else String c (quote_body (qcopy k) rest)
               end
      end
  end.

(** [json.Marshal(s)] for a string. *)
Definition json_quote (s : string) : string :=
  String bquote (quote_body QNormal s +:+ String bquote "").

(** ** The scanner accepts what the writer writes *)

Lemma jrun_app cf s t :
  jrun cf (s +:+ t) = match jrun cf s with Some cf => jrun cf t | None => None end.
Proof.
  revert cf. induction s as [|c s IH]; intros cf; [done|].
  rewrite app_cons. simpl. destruct (jstep cf c); auto.
Qed.

(** Reading a piece leaves the scanner inside the string it was in. *)
Definition stays_in_string (s : string) : Prop :=
  forall stk, jrun (JInString, stk) s = Some (JInString, stk).

Lemma stays_app s t : stays_in_string s -> stays_in_string t -> stays_in_string (s +:+ t).
Proof. intros Hs Ht stk. rewrite jrun_app, Hs. apply Ht. Qed.

Lemma stays_cons c s :
  code c <> 34 -> code c <> 92 -> 32 <= code c -> stays_in_string s ->
  stays_in_string (String c s).
Proof.
  intros H1 H2 H3 Hs stk. simpl. unfold ceq.
  apply Nat.eqb_neq in H1 as ->. apply Nat.eqb_neq in H2 as ->.
  destruct (Nat.ltb_spec (code c) 32); [lia | apply Hs].
Qed.

Lemma quote_ascii_stays c : stays_in_string (quote_ascii c).
Proof. intros stk. destruct c as [[] [] [] [] [] [] [] []]; vm_compute; reflexivity. Qed.

(** The first [k] bytes are not ASCII. *)
Fixpoint high_bytes (k : nat) (s : string) : Prop :=
  match k, s with
  | S k, String c s => 128 <= code c /\ high_bytes k s
  | _, _ => True
  end.

Definition qmode_ok (m : qmode) (s : string) : Prop :=
  match m with QCopy k => k <> 0 /\ high_bytes k s | _ => True end.

Lemma in_range_spec lo hi c : in_range lo hi c = true -> lo <= code c <= hi.
Proof.
  unfold in_range. intros [H1 H2]%andb_true_iff.
  by apply Nat.leb_le in H1; apply Nat.leb_le in H2.
Qed.

Lemma utf8_len_high c s k : utf8_len (String c s) = S k -> high_bytes k s.
Proof.
  assert (Hr : forall hi b, in_range 128 hi b = true -> 128 <= code b)
    by (intros ? ? ?%in_range_spec; lia).
  assert (Hr' : forall (t : bool) n hi b,
             128 <= n -> in_range (if t then n else 128) hi b = true -> 128 <= code b)
    by (intros [] ? ? ? ? ?%in_range_spec; lia).
  destruct s as [|b s]; simpl; [discriminate|].
  destruct (in_range 194 223 c && in_range 128 191 b) eqn:E.
  { intros [= <-]. apply andb_true_iff in E as [_ E]. simpl. eauto. }
  destruct s as [|d s]; [discriminate|].
  match goal with |- context [if ?x then 3 else _] => destruct x eqn:E3 end.
  { intros [= <-]. rewrite !andb_true_iff in E3. destruct E3 as [[_ E3] E3'].
    simpl. split; [eapply Hr'; [|exact E3]; lia | eauto]. }
  destruct s as [|e s]; [discriminate|].
  match goal with |- context [if ?x then 4 else _] => destruct x eqn:E4 end; [|discriminate].
  intros [= <-]. rewrite !andb_true_iff in E4. destruct E4 as [[[_ E4] E4'] E4''].
  simpl. split; [eapply Hr'; [|exact E4]; lia | split; [exact (Hr _ _ E4') | split; [exact (Hr _ _ E4'') | done]]].
Qed.

Lemma high_bytes_qmode k s : high_bytes k s -> qmode_ok (qcopy k) s.
Proof. by destruct k. Qed.

Lemma qskip_ok k s : qmode_ok (qskip k) s.
Proof. by destruct k. Qed.

Lemma esc_line_sep_stays s : stays_in_string (esc_line_sep s).
Proof. intros stk. unfold esc_line_sep. by case_match. Qed.

Lemma quote_body_stays m s : qmode_ok m s -> stays_in_string (quote_body m s).
Proof.
  revert m. induction s as [|c s IH]; intros m Hm; [done|].
  destruct m as [|k|k]; cbn [quote_body].
  - destruct (Nat.ltb_spec (code c) 128).
    { apply stays_app; [apply quote_ascii_stays | by apply IH]. }
    destruct (utf8_len (String c s)) as [|k] eqn:E.
    { apply stays_app; [done | by apply IH]. }
    destruct (is_line_sep _).
    { apply stays_app; [apply esc_line_sep_stays | apply IH, qskip_ok]. }
    apply stays_cons; [lia..|]. apply IH, high_bytes_qmode. by eapply utf8_len_high.
  - destruct Hm as [Hk Hm]. destruct k as [|k]; [done|]. destruct Hm.
    apply stays_cons; [lia..|]. by apply IH, high_bytes_qmode.
  - apply IH, qskip_ok.
Qed.

(** Reading a quoted string takes the scanner from before a value to after
    it, whatever it is inside of. *)
Lemma jrun_json_quote s stk : jrun (JBeginValue, stk) (json_quote s) = Some (JEndValue, stk).
Proof.
  unfold json_quote. simpl. rewrite jrun_app, quote_body_stays; [|done]. done.
Qed.

(** Every string is written as valid JSON. *)
Lemma json_quote_valid s : json_valid (json_quote s) = true.
Proof. unfold json_valid. by rewrite jrun_json_quote. Qed.

(** An object with one string member is valid JSON when the member name is
    plain text. *)
Lemma json_single_member_valid k s :
  stays_in_string k ->
  json_valid ("{" +:+ String bquote k +:+ String bquote ":" +:+ json_quote s +:+ "}") = true.
Proof.
  intros Hk. unfold json_valid. rewrite jrun_app.
  change (jrun (JBeginValue, []) "{") with (Some (JBeginStringOrEmpty, [FObjectKey])).
  cbv beta iota. rewrite app_cons. cbn [jrun].
  change (jstep (JBeginStringOrEmpty, [FObjectKey]) bquote) with (Some (JInString, [FObjectKey])).
  cbv beta iota. rewrite jrun_app, Hk, jrun_app.
  change (jrun (JInString, [FObjectKey]) (String bquote ":"))
    with (Some (JBeginValue, [FObjectValue])).
  cbv beta iota. by rewrite jrun_app, jrun_json_quote.
Qed.
