(* ===== verification/Provider.v ===== *)
(** * The provider seam: src/provider.go

    Messages, tool calls, requests, the generation parameters and how they
    merge, the sampling penalties, guided decoding, capabilities, deltas, and
    [DeltaAccumulator], which folds a stream of deltas into a response.  The
    records of mcpkit the seam carries ([core.ToolDef], [core.ToolResult],
    [core.Content], [core.RawJSON]) are the fields this code reads. *)

From S2P Require Import Prelude GoStr Errors Json.

(** ** Data of mcpkit

    [core.RawJSON] is wire-transparent: it is its raw bytes, [Len] is their
    number and [Raw] returns them. *)
Abbreviation RawJSON := string.

(** A dynamically typed Go value, as far as this code looks into one. *)
Inductive any := AnyBool (b : bool) | AnyString (s : string) | AnyOther.

Record ToolDef := {
  td_Name : string;
  td_Description : string;
  td_Annotations : gmap string any;
}.

Record Content := { c_Type : string; c_Text : string }.

(** [StructuredContent] is only ever passed to [json.Marshal]: nil, or the
    outcome of that call. *)
Record ToolResult := {
  tr_Content : list Content;
  tr_IsError : bool;
  tr_StructuredContent : option (option string);
}.

Abbreviation float64 := Z.
Abbreviation Time := Z.

(** ** Messages *)

Inductive Role := RoleUser | RoleAssistant | RoleTool | RoleSystem | RoleOther (s : string).

#[export] Instance Role_eq_dec : EqDecision Role.
Proof. solve_decision. Defined.

Definition role_text (r : Role) : string :=
  match r with
  | RoleUser => "user"
  | RoleAssistant => "assistant"
  | RoleTool => "tool"
  | RoleSystem => "system"
  | RoleOther s => s
  end.

Record ToolCall := {
  tc_ID : string;
  tc_Name : string;
  tc_Args : RawJSON;
}.

#[export] Instance ToolCall_eq_dec : EqDecision ToolCall.
Proof. solve_decision. Defined.

Record Message := {
  m_Role : Role;
  m_Text : string;
  m_ToolCalls : list ToolCall;
  m_ToolCallID : string;
  m_Timestamp : Time;
}.

#[export] Instance Message_eq_dec : EqDecision Message.
Proof. solve_decision. Defined.

(** [Message{Role: r, Text: t}]. *)
Definition text_message (r : Role) (t : string) : Message :=
  {| m_Role := r; m_Text := t; m_ToolCalls := []; m_ToolCallID := ""; m_Timestamp := 0 |}.

(** ** Sampling penalties *)

Record SamplingPenalties := {
  sp_Repeat : option (ptr float64);
  sp_RepeatLastN : option (ptr Z);
  sp_Frequency : option (ptr float64);
  sp_Presence : option (ptr float64);
  sp_DRYMultiplier : option (ptr float64);
  sp_DRYBase : option (ptr float64);
  sp_DRYAllowedLength : option (ptr Z);
}.

Definition PenaltyRepeat : string := "repeat".
Definition PenaltyFrequency : string := "frequency".
Definition PenaltyPresence : string := "presence".
Definition PenaltyDRY : string := "dry".

Definition is_set {A} (o : option A) : bool := match o with Some _ => true | None => false end.

Definition penalties_kinds (s : option (ptr SamplingPenalties)) : list string :=
  match s with
  | None => []
  | Some p =>
      let s := p_deref p in
      (if is_set (sp_Repeat s) || is_set (sp_RepeatLastN s) then [PenaltyRepeat] else [])
      ++ (if is_set (sp_Frequency s) then [PenaltyFrequency] else [])
      ++ (if is_set (sp_Presence s) then [PenaltyPresence] else [])
      ++ (if is_set (sp_DRYMultiplier s) || is_set (sp_DRYBase s)
             || is_set (sp_DRYAllowedLength s) then [PenaltyDRY] else [])
  end.

(** [pick] and [pickInt]: a set field of [over] wins. *)
Definition pick {A} (dst v : option A) : option A :=
  match v with Some _ => v | None => dst end.

(** [merge] allocates a fresh struct when both sides are set; [fresh] is its
    address. *)
Definition penalties_merge (fresh : positive) (s over : option (ptr SamplingPenalties))
  : option (ptr SamplingPenalties) :=
  match over with
  | None => s
  | Some o =>
      match s with
      | None => over
      | Some s =>
          let s := p_deref s in
          let o := p_deref o in
          Some (Ptr fresh
            {| sp_Repeat := pick (sp_Repeat s) (sp_Repeat o);
               sp_RepeatLastN := pick (sp_RepeatLastN s) (sp_RepeatLastN o);
               sp_Frequency := pick (sp_Frequency s) (sp_Frequency o);
               sp_Presence := pick (sp_Presence s) (sp_Presence o);
               sp_DRYMultiplier := pick (sp_DRYMultiplier s) (sp_DRYMultiplier o);
               sp_DRYBase := pick (sp_DRYBase s) (sp_DRYBase o);
               sp_DRYAllowedLength := pick (sp_DRYAllowedLength s) (sp_DRYAllowedLength o) |})
      end
  end.

Fixpoint refuse_kinds (ks sendable : list string) (why : string) : option error :=
  match ks with
  | [] => None
  | k :: ks =>
      if str_mem k sendable then refuse_kinds ks sendable why
      else Some (wrap_sentinel ErrUnsupportedParam
                   (": Penalties " +:+ k +:+ " (" +:+ why +:+ ")"))
  end.

Definition refusePenalties (s : option (ptr SamplingPenalties)) (sendable : list string)
    (why : string) : option error :=
  refuse_kinds (penalties_kinds s) sendable why.

(** ** Tool choice and generation parameters *)

Record ToolChoice := { tch_Mode : string; tch_Name : string }.

#[export] Instance ToolChoice_eq_dec : EqDecision ToolChoice.
Proof. solve_decision. Defined.

Definition ToolChoice_zero : ToolChoice := {| tch_Mode := ""; tch_Name := "" |}.
Definition ToolChoiceAuto : ToolChoice := {| tch_Mode := "auto"; tch_Name := "" |}.
Definition ToolChoiceRequired : ToolChoice := {| tch_Mode := "required"; tch_Name := "" |}.
Definition ToolChoiceNone : ToolChoice := {| tch_Mode := "none"; tch_Name := "" |}.
Definition ToolChoiceFunc (name : string) : ToolChoice :=
  {| tch_Mode := "function"; tch_Name := name |}.

Definition ToolChoice_IsZero (tc : ToolChoice) : bool := String.eqb (tch_Mode tc) "".

(** [wire]: nothing, a bare string, or the object that names a function. *)
Inductive wire_choice := WireNil | WireString (s : string) | WireFunction (name : string).

Definition ToolChoice_wire (tc : ToolChoice) : wire_choice :=
  let m := tch_Mode tc in
  if String.eqb m "" || String.eqb m "auto" then
    if String.eqb m "" then WireNil else WireString "auto"
  else if String.eqb m "required" || String.eqb m "none" then WireString m
  else if String.eqb m "function" then WireFunction (tch_Name tc)
  else WireNil.

Record GenerationParams := {
  gp_Temperature : option (ptr float64);
  gp_MaxTokens : Z;
  gp_ToolChoice : ToolChoice;
  gp_Seed : option (ptr Z);
  gp_Penalties : option (ptr SamplingPenalties);
}.

Definition GenerationParams_zero : GenerationParams :=
  {| gp_Temperature := None; gp_MaxTokens := 0; gp_ToolChoice := ToolChoice_zero;
     gp_Seed := None; gp_Penalties := None |}.

(** [==] on the struct: pointers by address, the rest by value. *)
Definition GenerationParams_eqb (a b : GenerationParams) : bool :=
  ptr_eqb (gp_Temperature a) (gp_Temperature b)
  && Z.eqb (gp_MaxTokens a) (gp_MaxTokens b)
  && bool_decide (gp_ToolChoice a = gp_ToolChoice b)
  && ptr_eqb (gp_Seed a) (gp_Seed b)
  && ptr_eqb (gp_Penalties a) (gp_Penalties b).

Definition generation_merge (fresh : positive) (p over : GenerationParams) : GenerationParams :=
  {| gp_Temperature := pick (gp_Temperature p) (gp_Temperature over);
     gp_MaxTokens := if Z.eqb (gp_MaxTokens over) 0 then gp_MaxTokens p else gp_MaxTokens over;
     gp_ToolChoice :=
       if ToolChoice_IsZero (gp_ToolChoice over) then gp_ToolChoice p else gp_ToolChoice over;
     gp_Seed := pick (gp_Seed p) (gp_Seed over);
     gp_Penalties := penalties_merge fresh (gp_Penalties p) (gp_Penalties over) |}.

(** ** Guided decoding and requests *)

Record GuidedDecoding := {
  g_Grammar : string;
  g_Regex : string;
  g_JSONSchema : RawJSON;
}.

Definition GuidedGrammar : string := "grammar".
Definition GuidedRegex : string := "regex".
Definition GuidedJSONSchema : string := "jsonSchema".

Definition guided_kinds (g : GuidedDecoding) : list string :=
  (if String.eqb (g_Grammar g) "" then [] else [GuidedGrammar])
  ++ (if String.eqb (g_Regex g) "" then [] else [GuidedRegex])
  ++ (if String.eqb (g_JSONSchema g) "" then [] else [GuidedJSONSchema]).

Definition guided_kind (g : GuidedDecoding) : result string :=
  match guided_kinds g with
  | [k] => inr k
  | ks => inl (wrap_sentinel ErrUnsupportedParam
                 (": Guided needs exactly one of Grammar, Regex or JSONSchema, got ["
                  +:+ str_join " " ks +:+ "]"))
  end.

Record ProviderRequest := {
  pr_Instructions : string;
  pr_Messages : list Message;
  pr_Tools : list ToolDef;
  pr_Temperature : option (ptr float64);
  pr_MaxTokens : Z;
  pr_ToolChoice : ToolChoice;
  pr_Seed : option (ptr Z);
  pr_Penalties : option (ptr SamplingPenalties);
  pr_Guided : option (ptr GuidedDecoding);
  pr_ResponseSchema : RawJSON;
}.

Definition applyTo (p : GenerationParams) (req : ProviderRequest) : ProviderRequest :=
  {| pr_Instructions := pr_Instructions req;
     pr_Messages := pr_Messages req;
     pr_Tools := pr_Tools req;
     pr_Temperature := gp_Temperature p;
     pr_MaxTokens := gp_MaxTokens p;
     pr_ToolChoice := gp_ToolChoice p;
     pr_Seed := gp_Seed p;
     pr_Penalties := gp_Penalties p;
     pr_Guided := pr_Guided req;
     pr_ResponseSchema := pr_ResponseSchema req |}.

(** ** Capabilities *)

Record Capabilities := {
  cap_Guided : list string;
  cap_Seed : bool;
  cap_Temperature : bool;
  cap_Penalties : list string;
}.

Definition Capabilities_zero : Capabilities :=
  {| cap_Guided := []; cap_Seed := false; cap_Temperature := false; cap_Penalties := [] |}.

Definition CanPenalize (c : Capabilities) (s : option (ptr SamplingPenalties)) : bool :=
  match refusePenalties s (cap_Penalties c) "" with None => true | Some _ => false end.

Definition CanGuide (c : Capabilities) (g : option (ptr GuidedDecoding)) : bool :=
  match g with
  | None => true
  | Some g =>
      match guided_kind (p_deref g) with
      | inl _ => false
      | inr k => str_mem k (cap_Guided c)
      end
  end.

Definition both (a b : list string) : list string := filter (fun k => str_mem k b) a.

Definition intersect (c o : Capabilities) : Capabilities :=
  {| cap_Guided := both (cap_Guided c) (cap_Guided o);
     cap_Seed := cap_Seed c && cap_Seed o;
     cap_Temperature := cap_Temperature c && cap_Temperature o;
     cap_Penalties := both (cap_Penalties c) (cap_Penalties o) |}.

(** ** Usage, deltas and responses *)

Record Usage := { u_In : Z; u_Out : Z; u_Cached : Z }.

#[export] Instance Usage_eq_dec : EqDecision Usage.
Proof. solve_decision. Defined.

Definition Usage_zero : Usage := {| u_In := 0; u_Out := 0; u_Cached := 0 |}.

Inductive DeltaKind :=
| DeltaText | DeltaReasoning | DeltaToolCallStart | DeltaToolCallArgs
| DeltaFinish | DeltaUsage | DeltaOther (s : string).

#[export] Instance DeltaKind_eq_dec : EqDecision DeltaKind.
Proof. solve_decision. Defined.

Record Delta := {
  d_Kind : DeltaKind;
  d_Text : string;
  d_Index : Z;
  d_ToolCallID : string;
  d_ToolName : string;
  d_FinishReason : string;
  d_Usage : option Usage;
}.

#[export] Instance Delta_eq_dec : EqDecision Delta.
Proof. solve_decision. Defined.

(** [Delta{Kind: k, Text: t}]. *)
Definition text_delta (k : DeltaKind) (t : string) : Delta :=
  {| d_Kind := k; d_Text := t; d_Index := 0; d_ToolCallID := ""; d_ToolName := "";
     d_FinishReason := ""; d_Usage := None |}.

Record ProviderResponse := {
  r_Text : string;
  r_Reasoning : string;
  r_ToolCalls : list ToolCall;
  r_FinishReason : string;
  r_Usage : option Usage;
}.

(** ** Tool arguments *)

Definition invalidArgsKey : string := "__invalid_arguments".

Definition toolCallArgsFromJSON (raw : string) : RawJSON :=
  let trimmed := trim_space raw in
  match trimmed with
  | EmptyString => "{}"
  | String c _ =>
      if json_valid trimmed && ceq c 123 then trimmed
      else "{" +:+ String bquote invalidArgsKey +:+ String bquote ":"
           +:+ json_quote raw +:+ "}"
  end.

(** [decodeToolArgs], over [RawJSON.Bind] into a map. *)
Definition decodeToolArgs (bind : RawJSON -> result (gmap string any)) (raw : RawJSON)
  : result (gmap string any) :=
  if String.eqb raw "" then inr ∅
  else match bind raw with
       | inl e => inl (wrap_error "expected a JSON object: " e)
       | inr args =>
           match args !! invalidArgsKey with
           | Some (AnyString bad) =>
               inl (EText ("the model emitted arguments that are not valid JSON: "
                           +:+ go_quote bad))
           | _ => inr args
           end
       end.

(** ** DeltaAccumulator *)

Record DeltaAccumulator := {
  acc_finish : string;
  acc_usage : option Usage;
  acc_text : string;
  acc_reason : string;
  acc_argBufs : gmap Z string;
  acc_calls : gmap Z ToolCall;
  acc_order : list Z;
}.

Definition acc_zero : DeltaAccumulator :=
  {| acc_finish := ""; acc_usage := None; acc_text := ""; acc_reason := "";
     acc_argBufs := ∅; acc_calls := ∅; acc_order := [] |}.

Definition acc_Add (a : DeltaAccumulator) (d : Delta) : DeltaAccumulator :=
  match d_Kind d with
  | DeltaText =>
      {| acc_finish := acc_finish a; acc_usage := acc_usage a;
         acc_text := acc_text a +:+ d_Text d; acc_reason := acc_reason a;
         acc_argBufs := acc_argBufs a; acc_calls := acc_calls a; acc_order := acc_order a |}
  | DeltaReasoning =>
      {| acc_finish := acc_finish a; acc_usage := acc_usage a;
         acc_text := acc_text a; acc_reason := acc_reason a +:+ d_Text d;
         acc_argBufs := acc_argBufs a; acc_calls := acc_calls a; acc_order := acc_order a |}
  | DeltaToolCallStart =>
      {| acc_finish := acc_finish a; acc_usage := acc_usage a;
         acc_text := acc_text a; acc_reason := acc_reason a;
         acc_argBufs := <[d_Index d := d_Text d]> (acc_argBufs a);
         acc_calls := <[d_Index d := {| tc_ID := d_ToolCallID d; tc_Name := d_ToolName d;
                                        tc_Args := "" |}]> (acc_calls a);
         acc_order := acc_order a ++ [d_Index d] |}
  | DeltaToolCallArgs =>
      match acc_argBufs a !! d_Index d with
      | Some buf =>
          {| acc_finish := acc_finish a; acc_usage := acc_usage a;
             acc_text := acc_text a; acc_reason := acc_reason a;
             acc_argBufs := <[d_Index d := buf +:+ d_Text d]> (acc_argBufs a);
             acc_calls := acc_calls a; acc_order := acc_order a |}
      | None => a
      end
  | DeltaFinish =>
      {| acc_finish := d_FinishReason d; acc_usage := acc_usage a;
         acc_text := acc_text a; acc_reason := acc_reason a;
         acc_argBufs := acc_argBufs a; acc_calls := acc_calls a; acc_order := acc_order a |}
  | DeltaUsage =>
      {| acc_finish := acc_finish a; acc_usage := d_Usage d;
         acc_text := acc_text a; acc_reason := acc_reason a;
         acc_argBufs := acc_argBufs a; acc_calls := acc_calls a; acc_order := acc_order a |}
  | DeltaOther _ => a
  end.

Definition finish_call (c : ToolCall) (args : string) : ToolCall :=
  {| tc_ID := tc_ID c; tc_Name := tc_Name c;
     tc_Args := toolCallArgsFromJSON (if String.eqb args "" then "{}" else args) |}.

(** [Result].  Every index of [order] has an entry in both maps, because
    [Add] writes the three together. *)
Definition acc_Result (a : DeltaAccumulator) : ProviderResponse :=
  {| r_Text := acc_text a;
     r_Reasoning := acc_reason a;
     r_ToolCalls :=
       omap (fun i => c ← acc_calls a !! i; args ← acc_argBufs a !! i;
                      Some (finish_call c args)) (acc_order a);
     r_FinishReason := acc_finish a;
     r_Usage := acc_usage a |}.

Definition accumulate (ds : list Delta) : ProviderResponse :=
  acc_Result (foldl acc_Add acc_zero ds).

(** ** The stream's meaning

    What a stream of deltas says, read off the list: the text fragments in
    order, and for each tool call its own fragments in order. *)

Definition texts_of (k : DeltaKind) (ds : list Delta) : string :=
  str_concat (d_Text <$> filter (fun d => d_Kind d = k) ds).

Definition args_of (i : Z) (ds : list Delta) : string :=
  str_concat (d_Text <$> filter (fun d => d_Kind d = DeltaToolCallArgs /\ d_Index d = i) ds).

Fixpoint calls_of (ds : list Delta) : list ToolCall :=
  match ds with
  | [] => []
  | d :: ds =>
      if decide (d_Kind d = DeltaToolCallStart)
      then finish_call {| tc_ID := d_ToolCallID d; tc_Name := d_ToolName d; tc_Args := "" |}
                       (d_Text d +:+ args_of (d_Index d) ds) :: calls_of ds
      else calls_of ds
  end.

Definition starts_of (ds : list Delta) : list Z :=
  d_Index <$> filter (fun d => d_Kind d = DeltaToolCallStart) ds.

Definition finish_of (ds : list Delta) : string :=
  from_option d_FinishReason "" (last (filter (fun d => d_Kind d = DeltaFinish) ds)).

Definition usage_of (ds : list Delta) : option Usage :=
  last (filter (fun d => d_Kind d = DeltaUsage) ds) ≫= d_Usage.

Definition stream_meaning (ds : list Delta) : ProviderResponse :=
  {| r_Text := texts_of DeltaText ds;
     r_Reasoning := texts_of DeltaReasoning ds;
     r_ToolCalls := calls_of ds;
     r_FinishReason := finish_of ds;
     r_Usage := usage_of ds |}.

(** ** The accumulator computes the stream's meaning *)

Lemma filter_snoc {A} (P : A -> Prop) `{forall x, Decision (P x)} l x :
  filter P (l ++ [x]) = filter P l ++ (if decide (P x) then [x] else []).
Proof. rewrite filter_app, filter_cons, filter_nil. by case_decide. Qed.

(** The tool calls still open in an accumulator, completed by the fragments
    of the deltas to come. *)
Definition open_calls (a : DeltaAccumulator) (ds : list Delta) : list ToolCall :=
  omap (fun i => c ← acc_calls a !! i; args ← acc_argBufs a !! i;
                 Some (finish_call c (args +:+ args_of i ds))) (acc_order a).

Lemma args_of_cons i d ds :
  args_of i (d :: ds)
  = (if decide (d_Kind d = DeltaToolCallArgs /\ d_Index d = i) then d_Text d else "")
    +:+ args_of i ds.
Proof. unfold args_of. rewrite filter_cons. by case_decide. Qed.

Lemma args_of_other i d ds : d_Kind d <> DeltaToolCallArgs -> args_of i (d :: ds) = args_of i ds.
Proof. intros H. rewrite args_of_cons. rewrite decide_False; [done | naive_solver]. Qed.

Lemma omap_ext_in {A B} (f g : A -> option B) (l : list A) :
  (forall x, x ∈ l -> f x = g x) -> omap f l = omap g l.
Proof.
  induction l as [|x l IH]; intros H; [done|]. csimpl.
  rewrite H by set_solver. rewrite IH; [done|]. intros; apply H; set_solver.
Qed.

(** The tool calls of the remaining deltas join the open ones. *)
Lemma foldl_acc_calls ds a :
  NoDup (acc_order a ++ starts_of ds) ->
  r_ToolCalls (acc_Result (foldl acc_Add a ds)) = open_calls a ds ++ calls_of ds.
Proof.
  revert a. induction ds as [|d ds IH]; intros a Hnd.
  { simpl. rewrite app_nil_r. unfold open_calls. apply omap_ext_in. intros i _.
    destruct (acc_calls a !! i); simpl; [|done].
    destruct (acc_argBufs a !! i); simpl; [|done]. by rewrite app_empty_r. }
  simpl foldl. unfold starts_of in *. rewrite filter_cons in Hnd.
  destruct (decide (d_Kind d = DeltaToolCallStart)) as [Hs|Hs].
  - simpl in Hnd. rewrite IH; unfold acc_Add; rewrite Hs; simpl.
    2: { by rewrite <- app_assoc. }
    rewrite decide_True by done. unfold open_calls. simpl.
    rewrite omap_app. simpl. rewrite !lookup_insert_eq. simpl. rewrite <- app_assoc. simpl.
    f_equal. apply omap_ext_in. intros i Hi.
    assert (i <> d_Index d).
    { intros ->. apply NoDup_app in Hnd as (_ & H & _). apply (H (d_Index d)); set_solver. }
    rewrite !lookup_insert_ne by done. by rewrite args_of_other by congruence.
  - assert (Hargs : open_calls (acc_Add a d) ds = open_calls a (d :: ds)).
    { unfold open_calls, acc_Add. destruct (d_Kind d) eqn:Hk; try done; simpl;
        try (apply omap_ext_in; intros i _; by rewrite args_of_other by congruence).
      destruct (acc_argBufs a !! d_Index d) as [buf|] eqn:Hb; simpl; apply omap_ext_in; intros i _;
        destruct (acc_calls a !! i); simpl; try done; rewrite args_of_cons;
        destruct (decide (d_Index d = i)) as [<-|Hne].
      - rewrite lookup_insert_eq, Hb, decide_True by done. simpl. by rewrite app_assoc_str.
      - rewrite lookup_insert_ne, decide_False by naive_solver. done.
      - by rewrite Hb.
      - rewrite decide_False by naive_solver. done. }
    rewrite IH.
    + rewrite Hargs. simpl. by rewrite decide_False.
    + unfold acc_Add. destruct (d_Kind d); simpl; try done. by case_match.
Qed.

Lemma texts_of_cons k d ds :
  texts_of k (d :: ds) = (if decide (d_Kind d = k) then d_Text d else "") +:+ texts_of k ds.
Proof. unfold texts_of. rewrite filter_cons. by case_decide. Qed.

Lemma foldl_acc_text ds a :
  acc_text (foldl acc_Add a ds) = acc_text a +:+ texts_of DeltaText ds.
Proof.
  revert a. induction ds as [|d ds IH]; intros a; simpl; [by rewrite app_empty_r|].
  rewrite IH, texts_of_cons. unfold acc_Add.
  destruct (d_Kind d); simpl; try done; [by rewrite app_assoc_str | by case_match].
Qed.

Lemma foldl_acc_reason ds a :
  acc_reason (foldl acc_Add a ds) = acc_reason a +:+ texts_of DeltaReasoning ds.
Proof.
  revert a. induction ds as [|d ds IH]; intros a; simpl; [by rewrite app_empty_r|].
  rewrite IH, texts_of_cons. unfold acc_Add.
  destruct (d_Kind d); simpl; try done; [by rewrite app_assoc_str | by case_match].
Qed.

Lemma foldl_acc_finish ds a :
  acc_finish (foldl acc_Add a ds)
  = from_option d_FinishReason (acc_finish a)
      (last (filter (fun d => d_Kind d = DeltaFinish) ds)).
Proof.
  revert a. induction ds as [|d ds IH]; intros a; simpl; [done|].
  rewrite IH, filter_cons. unfold acc_Add.
  destruct (d_Kind d) eqn:E; cbn -[last]; try done; try by case_match.
  rewrite decide_True, last_cons by done. by destruct (last _).
Qed.

Lemma foldl_acc_usage ds a :
  acc_usage (foldl acc_Add a ds)
  = from_option d_Usage (acc_usage a)
      (last (filter (fun d => d_Kind d = DeltaUsage) ds)).
Proof.
  revert a. induction ds as [|d ds IH]; intros a; simpl; [done|].
  rewrite IH, filter_cons. unfold acc_Add.
  destruct (d_Kind d) eqn:E; cbn -[last]; try done; try by case_match.
  rewrite decide_True, last_cons by done. by destruct (last _).
Qed.

(** Folding a stream of deltas whose tool calls start at distinct
    indexes gives exactly what the stream says: the text and the reasoning
    are the fragments in order, the tool calls come in the order they
    started, each with its own argument fragments in order however the calls
    interleave, and the finish reason and the usage are the last ones
    sent. *)
Theorem accumulate_meaning (ds : list Delta) :
  NoDup (starts_of ds) -> accumulate ds = stream_meaning ds.
Proof.
  intros Hnd. unfold accumulate, stream_meaning.
  pose proof (foldl_acc_calls ds acc_zero Hnd) as Hcalls.
  unfold acc_Result in *. simpl in Hcalls. rewrite Hcalls.
  rewrite foldl_acc_text, foldl_acc_reason, foldl_acc_finish, foldl_acc_usage.
  done.
Qed.

Definition start_delta (i : Z) (id name : string) : Delta :=
  {| d_Kind := DeltaToolCallStart; d_Text := ""; d_Index := i; d_ToolCallID := id;
     d_ToolName := name; d_FinishReason := ""; d_Usage := None |}.

Definition args_delta (i : Z) (t : string) : Delta :=
  {| d_Kind := DeltaToolCallArgs; d_Text := t; d_Index := i; d_ToolCallID := "";
     d_ToolName := ""; d_FinishReason := ""; d_Usage := None |}.

Lemma accumulate_meaning_witness :
  let ds := [text_delta DeltaText "hi"; start_delta 0 "a" "f"; start_delta 1 "b" "g";
             args_delta 1 "[1]"; args_delta 0 "{}"] in
  accumulate ds = stream_meaning ds
  /\ tc_ID <$> r_ToolCalls (accumulate ds) = ["a"; "b"].
Proof.
  split; [|reflexivity]. apply accumulate_meaning.
  apply (bool_decide_unpack _). vm_compute. exact I.
Defined.

Lemma invalidArgsKey_plain : stays_in_string invalidArgsKey.
Proof. intros stk. reflexivity. Qed.

(** Whatever argument text the model sent, the arguments kept on the
    tool call are valid JSON and an object, so the session store, the event
    stream and the next request can encode them. *)
Theorem toolCallArgs_object (raw : string) :
  json_valid (toolCallArgsFromJSON raw) = true
  /\ exists rest, toolCallArgsFromJSON raw = "{" +:+ rest.
Proof.
  unfold toolCallArgsFromJSON. destruct (trim_space raw) as [|c t] eqn:E.
  { split; [reflexivity | by exists "}"]. }
  destruct (json_valid (String c t) && ceq c 123) eqn:V.
  - apply andb_true_iff in V as [V Hc]. split; [done|]. exists t.
    unfold ceq in Hc. apply Nat.eqb_eq in Hc. unfold code in Hc.
    rewrite <- (Ascii.ascii_nat_embedding c), Hc. reflexivity.
  - split; [apply json_single_member_valid, invalidArgsKey_plain | eauto].
Qed.

(** ** Merging generation parameters

    Two parameter sets are equivalent when their pointers hold the same
    values: [merge] allocates, so the laws hold up to addresses. *)
Definition same_pointee {A} (p q : option (ptr A)) : Prop := p_deref <$> p = p_deref <$> q.

Record sp_equiv (a b : SamplingPenalties) : Prop := {
  spe_Repeat : same_pointee (sp_Repeat a) (sp_Repeat b);
  spe_RepeatLastN : same_pointee (sp_RepeatLastN a) (sp_RepeatLastN b);
  spe_Frequency : same_pointee (sp_Frequency a) (sp_Frequency b);
  spe_Presence : same_pointee (sp_Presence a) (sp_Presence b);
  spe_DRYMultiplier : same_pointee (sp_DRYMultiplier a) (sp_DRYMultiplier b);
  spe_DRYBase : same_pointee (sp_DRYBase a) (sp_DRYBase b);
  spe_DRYAllowedLength : same_pointee (sp_DRYAllowedLength a) (sp_DRYAllowedLength b);
}.

Definition penalties_equiv (p q : option (ptr SamplingPenalties)) : Prop :=
  match p, q with
  | None, None => True
  | Some p, Some q => sp_equiv (p_deref p) (p_deref q)
  | _, _ => False
  end.

Record gp_equiv (a b : GenerationParams) : Prop := {
  gpe_Temperature : same_pointee (gp_Temperature a) (gp_Temperature b);
  gpe_MaxTokens : gp_MaxTokens a = gp_MaxTokens b;
  gpe_ToolChoice : gp_ToolChoice a = gp_ToolChoice b;
  gpe_Seed : same_pointee (gp_Seed a) (gp_Seed b);
  gpe_Penalties : penalties_equiv (gp_Penalties a) (gp_Penalties b);
}.

#[export] Instance same_pointee_equiv {A} : Equivalence (@same_pointee A).
Proof. unfold same_pointee. split; [intros ?; reflexivity | intros ???; by symmetry | intros ?????; by etrans]. Qed.

#[export] Instance sp_equiv_equiv : Equivalence sp_equiv.
Proof.
  split; [intros ?; split; reflexivity | intros ?? []; split; by symmetry |].
  intros ??? [] []; split; by etrans.
Qed.

#[export] Instance penalties_equiv_equiv : Equivalence penalties_equiv.
Proof.
  split.
  - intros [p|]; simpl; [reflexivity | done].
  - intros [p|] [q|]; simpl; by symmetry || done.
  - intros [p|] [q|] [r|]; simpl; by etrans || done.
Qed.

#[export] Instance gp_equiv_equiv : Equivalence gp_equiv.
Proof.
  split; [intros ?; split; reflexivity | intros ?? []; split; by symmetry |].
  intros ??? [] []; split; by etrans.
Qed.

#[export] Instance pick_proper {A} :
  Proper (same_pointee ==> same_pointee ==> same_pointee) (@pick (ptr A)).
Proof. intros [?|] [?|] ? [?|] [?|] ?; simpl in *; done. Qed.

Lemma pick_assoc {A} (a b c : option A) : pick (pick a b) c = pick a (pick b c).
Proof. by destruct c. Qed.

Lemma penalties_merge_proper f g p p' q q' :
  penalties_equiv p p' -> penalties_equiv q q' ->
  penalties_equiv (penalties_merge f p q) (penalties_merge g p' q').
Proof.
  destruct p, p', q, q'; simpl; try done. intros [] []; split; simpl; by apply pick_proper.
Qed.

Lemma penalties_merge_assoc f1 f2 f3 f4 a b c :
  penalties_equiv (penalties_merge f1 (penalties_merge f2 a b) c)
                  (penalties_merge f3 a (penalties_merge f4 b c)).
Proof.
  destruct c as [c|]; [|apply (penalties_merge_proper f2 f3); reflexivity].
  destruct b as [b|]; [|apply (penalties_merge_proper f1 f3); reflexivity].
  destruct a as [a|]; simpl; [|reflexivity].
  split; simpl; by rewrite pick_assoc.
Qed.

(** Layering parameter sets is associative and the empty set changes
    nothing, so a config default, a per-turn override and a per-call override
    give the same request in whichever grouping the layers are merged, and a
    layer only ever changes the fields it sets. *)
Theorem generation_merge_layers (f1 f2 f3 f4 : positive) (a b c : GenerationParams) :
  gp_equiv (generation_merge f1 (generation_merge f2 a b) c)
           (generation_merge f3 a (generation_merge f4 b c))
  /\ generation_merge f1 a GenerationParams_zero = a.
Proof.
  split; [|by destruct a].
  split; simpl.
  - by rewrite pick_assoc.
  - destruct (Z.eqb_spec (gp_MaxTokens c) 0) as [E|E]; [done|].
    destruct (Z.eqb_spec (gp_MaxTokens c) 0); [congruence | done].
  - destruct (ToolChoice_IsZero (gp_ToolChoice c)) eqn:E; [done|]. by rewrite E.
  - by rewrite pick_assoc.
  - apply penalties_merge_assoc.
Qed.

(** ** What both providers of a pair can send *)

Lemma str_mem_both k a b : str_mem k (both a b) = str_mem k a && str_mem k b.
Proof.
  apply eq_true_iff_eq. rewrite andb_true_iff, !str_mem_true. unfold both.
  rewrite list_elem_of_filter, Is_true_true, str_mem_true. naive_solver.
Qed.

Lemma refuse_kinds_both ks a b why :
  (refuse_kinds ks (both a b) why = None)
  <-> (refuse_kinds ks a why = None /\ refuse_kinds ks b why = None).
Proof.
  induction ks as [|k ks IH]; simpl; [naive_solver|].
  rewrite str_mem_both. destruct (str_mem k a), (str_mem k b); simpl; naive_solver.
Qed.

(** The capabilities a failover pair reports admit a grammar or a set of
    penalties exactly when both of its providers admit them, so a parameter
    accepted up front is never refused by whichever provider serves the
    call. *)
Theorem intersect_admits (c o : Capabilities) g s :
  CanGuide (intersect c o) g = CanGuide c g && CanGuide o g
  /\ CanPenalize (intersect c o) s = CanPenalize c s && CanPenalize o s.
Proof.
  split.
  - unfold CanGuide. destruct g as [g|]; [|done].
    destruct (guided_kind _); [done|]. apply str_mem_both.
  - unfold CanPenalize, refusePenalties. simpl.
    pose proof (refuse_kinds_both (penalties_kinds s) (cap_Penalties c) (cap_Penalties o) "") as H.
    repeat case_match; naive_solver.
Qed.
