(* ===== verification/ToolName.v ===== *)
(** * Provider-safe tool names: src/toolname.go

    Providers accept tool names that match [^[a-zA-Z0-9_-]{1,64}$].  The
    code sends a sanitized name and maps the model's answer back through a
    bijection built afresh from each request's tools. *)

From S2P Require Import Prelude GoStr Errors Json Provider.

Definition maxToolNameLen : nat := 64.

(** The complement of the class [invalidToolNameChars]. *)
Definition valid_name_char (c : Ascii.ascii) : bool :=
  in_range 97 122 c || in_range 65 90 c || in_range 48 57 c || ceq c 95 || ceq c 45.

(** [invalidToolNameChars.ReplaceAllString(name, "_")]: a run of invalid
    bytes becomes one underscore. *)
Fixpoint replace_invalid (in_run : bool) (s : string) : string :=
  match s with
  | EmptyString => ""
  | String c s =>
      if valid_name_char c then String c (replace_invalid false s)
      else if in_run then replace_invalid true s
      else "_" +:+ replace_invalid true s
  end.

Definition truncateToolName (s : string) : string :=
  if Nat.ltb maxToolNameLen (String.length s) then str_take maxToolNameLen s else s.

Definition sanitizeToolName (name : string) : string :=
  let s := replace_invalid false name in
  truncateToolName (if String.eqb s "" then "tool" else s).

(** The candidate for counter [n]. *)
Definition suffixed (name : string) (n : N) : string :=
  let suffix := "_" +:+ pretty n in
  let base := sanitizeToolName name in
  let base :=
    if Nat.ltb maxToolNameLen (String.length base + String.length suffix)
    then str_take (maxToolNameLen - String.length suffix) base else base in
  base +:+ suffix.

(** The inner loop: try candidates until one is free. *)
Fixpoint first_free (fuel : nat) (name : string) (n : N) (taken : gmap string string)
    (safe : string) : option string :=
  match taken !! safe with
  | None => Some safe
  | Some _ =>
      match fuel with
      | O => None
      | S fuel => first_free fuel name (n + 1) taken (suffixed name n)
      end
  end.

Record NameMaps := { realToSafe : gmap string string; safeToReal : gmap string string }.

Definition add_tool (m : NameMaps) (td : ToolDef) : option NameMaps :=
  match realToSafe m !! td_Name td with
  | Some _ => Some m
  | None =>
      safe ← first_free (S (size (safeToReal m))) (td_Name td) 2 (safeToReal m)
               (sanitizeToolName (td_Name td));
      Some {| realToSafe := <[td_Name td := safe]> (realToSafe m);
              safeToReal := <[safe := td_Name td]> (safeToReal m) |}
  end.

Definition maps_empty : NameMaps := {| realToSafe := ∅; safeToReal := ∅ |}.

Fixpoint add_tools (m : NameMaps) (tools : list ToolDef) : option NameMaps :=
  match tools with
  | [] => Some m
  | td :: tools => m' ← add_tool m td; add_tools m' tools
  end.

Definition toolNameMaps (tools : list ToolDef) : option NameMaps := add_tools maps_empty tools.

Definition safeToolName (r : gmap string string) (name : string) : string :=
  match r !! name with Some s => s | None => sanitizeToolName name end.

Definition realToolName (s : gmap string string) (name : string) : string :=
  match s !! name with Some r => r | None => name end.

(** [ToolNames], with [NewToolNames], [Wire] and [Real]. *)
Definition NewToolNames (tools : list ToolDef) : option NameMaps := toolNameMaps tools.
Definition Wire (n : NameMaps) (name : string) : string := safeToolName (realToSafe n) name.
Definition Real (n : NameMaps) (wire : string) : string := realToolName (safeToReal n) wire.

(** The provider's constraint on a name. *)
Definition wire_ok (s : string) : bool :=
  Nat.leb 1 (String.length s) && Nat.leb (String.length s) maxToolNameLen
  && str_forall valid_name_char s.

(** ** Sanitized names satisfy the constraint *)

Lemma replace_invalid_valid b s : str_forall valid_name_char (replace_invalid b s) = true.
Proof.
  revert b. induction s as [|c s IH]; intros b; [done|]. cbn [replace_invalid].
  destruct (valid_name_char c) eqn:E; [cbn [str_forall]; by rewrite E, IH|].
  destruct b; [apply IH | rewrite str_forall_app; by rewrite IH].
Qed.

Lemma replace_invalid_id s b : str_forall valid_name_char s = true -> replace_invalid b s = s.
Proof.
  revert b. induction s as [|c s IH]; intros b; [done|]. simpl. rewrite andb_true_iff.
  intros [-> H]. by rewrite IH.
Qed.

Lemma truncate_ok s :
  s <> "" -> str_forall valid_name_char s = true -> wire_ok (truncateToolName s) = true.
Proof.
  intros Hne Hv. unfold wire_ok, truncateToolName.
  assert (1 <= String.length s) by (destruct s; [done | simpl; lia]).
  destruct (Nat.ltb_spec maxToolNameLen (String.length s)) as [Hl|Hl]; unfold maxToolNameLen in *.
  - rewrite str_forall_take by done. rewrite length_take_str.
    rewrite !andb_true_iff, !Nat.leb_le. lia.
  - rewrite Hv, !andb_true_iff, !Nat.leb_le. lia.
Qed.

Lemma sanitize_ok name : wire_ok (sanitizeToolName name) = true.
Proof.
  unfold sanitizeToolName. pose proof (replace_invalid_valid false name).
  destruct (String.eqb_spec (replace_invalid false name) ""); by apply truncate_ok.
Qed.

Lemma wire_ok_length s : wire_ok s = true -> 1 <= String.length s <= 64.
Proof. unfold wire_ok, maxToolNameLen. rewrite !andb_true_iff, !Nat.leb_le. naive_solver. Qed.

Lemma wire_ok_chars s : wire_ok s = true -> str_forall valid_name_char s = true.
Proof. unfold wire_ok. rewrite !andb_true_iff. naive_solver. Qed.

Lemma digit_valid c : is_dec_digit c = true -> valid_name_char c = true.
Proof. unfold is_dec_digit, valid_name_char. intros ->. by rewrite orb_true_r. Qed.

Lemma suffixed_ok name n : (n < 10 ^ 63)%N -> wire_ok (suffixed name n) = true.
Proof.
  intros Hn. pose proof (sanitize_ok name) as Hs.
  pose proof (wire_ok_length _ Hs) as Hl. pose proof (wire_ok_chars _ Hs) as Hc.
  pose proof (pretty_N_length 63 n ltac:(lia) Hn) as Hp.
  assert (Hd : str_forall valid_name_char (pretty n) = true)
    by (eapply str_forall_impl; [apply digit_valid | apply pretty_N_digits]).
  unfold suffixed, wire_ok, maxToolNameLen. rewrite app_cons, app_empty_l. cbn [String.length].
  destruct (Nat.ltb_spec 64 (String.length (sanitizeToolName name) + S (String.length (pretty n))));
    rewrite str_forall_app; cbn [str_forall]; rewrite ?str_forall_take by done;
    rewrite Hd, ?Hc, !andb_true_iff, !Nat.leb_le;
    rewrite length_app_str; cbn [String.length]; rewrite ?length_take_str; repeat split; lia.
Qed.

(** ** The search for a free name *)

Lemma suffixed_inj name n m : suffixed name n = suffixed name m -> n = m.
Proof.
  unfold suffixed. rewrite !app_cons, !app_empty_l. intros H.
  apply (app_last_sep is_dec_digit) in H; [by apply (inj pretty) | done | apply pretty_N_digits..].
Qed.

(** The search fails only when the first name and every numbered candidate
    it tried are taken. *)
Lemma first_free_None fuel name n taken safe :
  first_free fuel name n taken safe = None ->
  forall k, k < fuel -> is_Some (taken !! suffixed name (n + N.of_nat k)).
Proof.
  revert n safe. induction fuel as [|fuel IH]; intros n safe; cbn [first_free].
  { lia. }
  destruct (taken !! safe); [|discriminate]. intros H k Hk.
  destruct k as [|k].
  - rewrite N.add_0_r. destruct fuel; cbn [first_free] in H; by case_match.
  - specialize (IH _ _ H k ltac:(lia)).
    replace (n + N.of_nat (S k))%N with (n + 1 + N.of_nat k)%N by lia. done.
Qed.

Lemma NoDup_size_le (l : list string) (m : gmap string string) :
  NoDup l -> (forall x, x ∈ l -> is_Some (m !! x)) -> length l <= size m.
Proof.
  intros Hnd Hin. rewrite <- size_dom, <- (size_list_to_set (C:=gset string) l) by done.
  apply subseteq_size. intros x Hx. apply elem_of_dom, Hin. by apply elem_of_list_to_set in Hx.
Qed.

Lemma first_free_total name n taken safe :
  is_Some (first_free (S (size taken)) name n taken safe).
Proof.
  destruct (first_free _ _ _ _ _) eqn:E; [eauto|]. exfalso.
  pose proof (NoDup_size_le
    ((fun k => suffixed name (n + N.of_nat k)) <$> seq 0 (S (size taken))) taken) as H.
  rewrite length_fmap, length_seq in H. enough (S (size taken) <= size taken) by lia. apply H.
  - apply NoDup_fmap_2_strong; [|apply NoDup_seq]. intros x y _ _ Hxy%suffixed_inj. lia.
  - intros x [k [-> Hk]]%list_elem_of_fmap. apply elem_of_seq in Hk.
    eapply first_free_None; [exact E | lia].
Qed.

Lemma first_free_Some fuel name n taken safe s :
  first_free fuel name n taken safe = Some s ->
  taken !! s = None
  /\ (s = safe \/ exists k, k < fuel /\ s = suffixed name (n + N.of_nat k)).
Proof.
  revert n safe. induction fuel as [|fuel IH]; intros n safe; cbn [first_free];
    destruct (taken !! safe) eqn:E; try discriminate; try (intros [= <-]; by auto).
  intros H. destruct (IH _ _ H) as [Hf [->|[k [Hk ->]]]]; (split; [done|]); right.
  - exists 0. rewrite N.add_0_r. split; [lia | done].
  - exists (S k). split; [lia|]. f_equal. lia.
Qed.

(** ** The maps stay inverse to each other *)

Record maps_ok (m : NameMaps) : Prop := {
  mo_inverse : forall a b, realToSafe m !! a = Some b <-> safeToReal m !! b = Some a;
  mo_wire : forall a b, realToSafe m !! a = Some b ->
            b = sanitizeToolName a
            \/ exists n, (n <= N.of_nat (size (safeToReal m)) + 2)%N /\ b = suffixed a n;
}.

Lemma maps_empty_ok : maps_ok maps_empty.
Proof. split; intros a b; simpl; by rewrite !lookup_empty. Qed.

Lemma add_tool_ok m td m' :
  maps_ok m -> add_tool m td = Some m' ->
  maps_ok m' /\ is_Some (realToSafe m' !! td_Name td)
  /\ (forall a, is_Some (realToSafe m !! a) -> is_Some (realToSafe m' !! a))
  /\ size (safeToReal m') <= S (size (safeToReal m)).
Proof.
  intros [Hinv Hw]. unfold add_tool. destruct (realToSafe m !! td_Name td) eqn:E.
  { intros [= <-]. eauto 10 using maps_ok, Build_maps_ok. }
  destruct (first_free _ _ _ _ _) as [s|] eqn:F; simpl; [|discriminate]. intros [= <-].
  apply first_free_Some in F as [Hf Hs]. simpl.
  assert (Hsz : size (<[s:=td_Name td]> (safeToReal m)) = S (size (safeToReal m)))
    by by rewrite map_size_insert_None.
  split; [split; simpl|split; [|split]].
  - intros a b. rewrite !lookup_insert_Some, Hinv. split.
    + intros [[<- <-]|[Hne H]]; [by left|]. right. split; [|done]. intros ->. congruence.
    + intros [[<- <-]|[Hne H]]; [by left|]. right. split; [|done].
      intros Heq. rewrite <- Heq in H. apply Hinv in H. congruence.
  - intros a b. rewrite lookup_insert_Some, Hsz. intros [[<- <-]|[Hne H]].
    + destruct Hs as [->|[k [Hk ->]]]; [by left|]. right. eexists; split; [|reflexivity]. lia.
    + destruct (Hw a b H) as [?|[n [Hn ?]]]; [by left|]. right. exists n. split; [lia | done].
  - rewrite lookup_insert_eq. eauto.
  - intros a Ha. destruct (decide (td_Name td = a)) as [<-|]; [rewrite lookup_insert_eq; eauto|].
    by rewrite lookup_insert_ne.
  - lia.
Qed.

Lemma add_tools_ok tools m :
  maps_ok m ->
  exists m', add_tools m tools = Some m' /\ maps_ok m'
    /\ (forall a, is_Some (realToSafe m !! a) \/ a ∈ td_Name <$> tools ->
                  is_Some (realToSafe m' !! a))
    /\ size (safeToReal m') <= length tools + size (safeToReal m).
Proof.
  revert m. induction tools as [|td tools IH]; intros m Hm.
  { exists m. repeat split; try apply Hm; [|simpl; lia]. intros a [H|H]; [done | set_solver]. }
  assert (exists m1, add_tool m td = Some m1) as [m1 E].
  { unfold add_tool. case_match; [eauto|]. destruct (first_free_total (td_Name td) 2
      (safeToReal m) (sanitizeToolName (td_Name td))) as [s ->]. simpl. eauto. }
  destruct (add_tool_ok _ _ _ Hm E) as (Hm1 & Hin & Hmono & Hsz).
  destruct (IH _ Hm1) as (m' & E' & Hm' & Hmono' & Hsz').
  exists m'. simpl. rewrite E. simpl. split; [done|]. split; [done|]. split; [|simpl; lia].
  intros a [H|H]; apply Hmono'; [left; eauto|].
  csimpl in H. apply elem_of_cons in H as [->|H]; [by left | by right].
Qed.

(** ** What the providers rely on *)

(** C18: The name maps of a request exist for every list of tools (the search
    for a free suffix ends), every offered tool has a wire name, and [Real]
    inverts [Wire] on offered names: the model's answer reaches the tool the
    request meant, also when names collide after sanitizing. *)
Theorem toolNames_roundtrip tools :
  exists n, NewToolNames tools = Some n
    /\ (forall a, a ∈ td_Name <$> tools -> Real n (Wire n a) = a)
    /\ (forall a b, a ∈ td_Name <$> tools -> b ∈ td_Name <$> tools ->
                    Wire n a = Wire n b -> a = b).
Proof.
  destruct (add_tools_ok tools maps_empty maps_empty_ok) as (m & E & [Hinv _] & Hin & _).
  exists m. split; [done|].
  assert (Hr : forall a, a ∈ td_Name <$> tools -> Real m (Wire m a) = a).
  { intros a Ha. destruct (Hin a (or_intror Ha)) as [s Hs].
    unfold Real, Wire, safeToolName, realToolName. rewrite Hs.
    apply Hinv in Hs. by rewrite Hs. }
  split; [done|]. intros a b Ha Hb Hab. rewrite <- (Hr a Ha), <- (Hr b Hb). by rewrite Hab.
Qed.

(** Every name that goes on the wire (an offered tool's, or one from an
    earlier message) matches the provider's constraint, for every request a
    64-bit machine can hold. *)
Theorem toolNames_wire_ok tools n a :
  (Z.of_nat (length tools) <= int64_max)%Z ->
  NewToolNames tools = Some n -> wire_ok (Wire n a) = true.
Proof.
  intros Hlen Hn. destruct (add_tools_ok tools maps_empty maps_empty_ok) as (m & E & Hm & _ & Hsz).
  assert (m = n) as -> by (unfold NewToolNames, toolNameMaps in Hn; congruence).
  unfold Wire, safeToolName. destruct (realToSafe n !! a) as [s|] eqn:Es; [|apply sanitize_ok].
  destruct (mo_wire _ Hm _ _ Es) as [->|[k [Hk ->]]]; [apply sanitize_ok|].
  apply suffixed_ok. simpl in Hsz. rewrite map_size_empty in Hsz.
  unfold int64_max in Hlen. lia.
Qed.

Definition named (s : string) : ToolDef := Build_ToolDef s "" ∅.

Lemma toolNames_wire_ok_witness :
  exists n, NewToolNames [named "a.b"; named "a/b"; named "a_b"] = Some n
    /\ Wire n "a/b" = "a_b_2" /\ Wire n "a_b" = "a_b_3" /\ wire_ok (Wire n "a_b") = true.
Proof.
  destruct (NewToolNames [named "a.b"; named "a/b"; named "a_b"]) as [n|] eqn:E;
    [|vm_compute in E; discriminate].
  exists n. split; [done|]. split; [vm_compute in E; injection E as <-; vm_compute; done|].
  split; [vm_compute in E; injection E as <-; vm_compute; done|].
  apply (toolNames_wire_ok [named "a.b"; named "a/b"; named "a_b"] n "a_b"); [vm_compute; discriminate | exact E].
Defined.

(** Sanitizing a valid name changes nothing. *)
Lemma sanitize_valid name : wire_ok name = true -> sanitizeToolName name = name.
Proof.
  intros H. pose proof (wire_ok_length _ H). pose proof (wire_ok_chars _ H).
  unfold sanitizeToolName, truncateToolName, maxToolNameLen. rewrite replace_invalid_id by done.
  destruct (String.eqb_spec name "") as [->|]; [simpl in *; lia|].
  destruct (Nat.ltb_spec 64 (String.length name)); [lia | done].
Qed.
