(* ===== verification/TreeBudget.v ===== *)
(** * The aggregate budget and the run scope: src/tree_budget.go, src/runscope.go

    A turn's whole agent tree shares one [treeBudgetState].  Its counters are
    [atomic.Int64]s that concurrent Runners read and update, so the file
    models each atomic operation as one step of a transition system over the
    agents of the tree, and proves what the caps guarantee under every
    interleaving.  [RunScope] is the read-only view of it that a tool call
    gets; the sub-agent call budget of src/agent_source.go is part of it. *)

From S2P Require Import Prelude GoStr Errors.
Local Open Scope Z_scope.

(** ** The shared state and its operations *)

Record TreeBudget := { tb_MaxSteps : Z; tb_MaxTokens : Z }.

Definition TreeBudget_zero (b : TreeBudget) : bool :=
  (tb_MaxSteps b <=? 0) && (tb_MaxTokens b <=? 0).

Record treeBudgetState := {
  stepsLeft : Z;
  maxSteps : Z;
  tokensUsed : Z;
  maxTokens : Z;
}.

(** The context's budget: none, or the shared state. *)
Definition WithTreeBudget (cur : option treeBudgetState) (b : TreeBudget)
  : option treeBudgetState :=
  if TreeBudget_zero b then cur
  else Some {| stepsLeft := tb_MaxSteps b; maxSteps := tb_MaxSteps b;
               tokensUsed := 0; maxTokens := tb_MaxTokens b |}.

Definition set_steps (st : treeBudgetState) (n : Z) : treeBudgetState :=
  {| stepsLeft := n; maxSteps := maxSteps st; tokensUsed := tokensUsed st;
     maxTokens := maxTokens st |}.

Definition set_tokens (st : treeBudgetState) (n : Z) : treeBudgetState :=
  {| stepsLeft := stepsLeft st; maxSteps := maxSteps st; tokensUsed := n;
     maxTokens := maxTokens st |}.

(** The two atomic operations of [consumeStep]: the load of [tokensUsed], and
    the decrement of [stepsLeft] whose new value decides. *)
Definition tokens_exhausted (st : treeBudgetState) : bool :=
  (0 <? maxTokens st) && (maxTokens st <=? tokensUsed st).

Definition charge_step (st : treeBudgetState) : bool * treeBudgetState :=
  if 0 <? maxSteps st then
    let left := wrap64 (stepsLeft st - 1) in
    (negb (left <? 0), set_steps st left)
  else (true, st).

Definition consumeStep (st : option treeBudgetState) : bool * option treeBudgetState :=
  match st with
  | None => (true, None)
  | Some st =>
      if tokens_exhausted st then (false, Some st)
      else let '(ok, st') := charge_step st in (ok, Some st')
  end.

Definition add_tokens (st : treeBudgetState) (n : Z) : treeBudgetState :=
  if (0 <? maxTokens st) && (0 <? n) then set_tokens st (wrap64 (tokensUsed st + n)) else st.

Definition addTokens (st : option treeBudgetState) (n : Z) : option treeBudgetState :=
  match st with None => None | Some st => Some (add_tokens st n) end.

(** ** RunScope *)

Record AgentHop := { hop_Name : string }.
Abbreviation AgentPath := (list AgentHop).

Definition path_Depth (p : AgentPath) : nat := length p.

Definition path_Contains (p : AgentPath) (name : string) : bool :=
  existsb (fun h => String.eqb (hop_Name h) name) p.

Definition path_Child (p : AgentPath) (name : string) : AgentPath :=
  p ++ [{| hop_Name := name |}].

Definition path_String (p : AgentPath) : string :=
  match p with [] => "" | _ => str_join "/" (hop_Name <$> p) end.

Record TreeUsage := {
  tu_StepsUsed : Z;
  tu_MaxSteps : Z;
  tu_TokensUsed : Z;
  tu_MaxTokens : Z;
}.

Definition usage (st : option treeBudgetState) : TreeUsage :=
  match st with
  | None => {| tu_StepsUsed := 0; tu_MaxSteps := 0; tu_TokensUsed := 0; tu_MaxTokens := 0 |}
  | Some st =>
      {| tu_StepsUsed := if 0 <? maxSteps st then wrap64 (maxSteps st - stepsLeft st) else 0;
         tu_MaxSteps := maxSteps st;
         tu_TokensUsed := if 0 <? maxTokens st then tokensUsed st else 0;
         tu_MaxTokens := maxTokens st |}
  end.

Record RunScope := { rs_Path : AgentPath; rs_CallBudget : Z; rs_Tree : TreeUsage }.

Definition scope_Depth (s : RunScope) : nat := path_Depth (rs_Path s).

(** [ScopeFrom], over the three values it reads from the context: the
    ancestry, the current value of the call budget's counter, and the tree
    budget. *)
Definition ScopeFrom (path : AgentPath) (calls : option Z) (tree : option treeBudgetState)
  : RunScope :=
  {| rs_Path := path;
     rs_CallBudget := match calls with Some b => b | None => -1 end;
     rs_Tree := usage tree |}.

(** [WithAgentCallBudget], and the charge [b.Add(-1) < 0] of a sub-agent call:
    whether it is refused, and the counter after it. *)
Definition WithAgentCallBudget (n : Z) : option Z := Some n.

Definition charge_call (calls : option Z) : bool * option Z :=
  match calls with
  | None => (false, None)
  | Some b => let b' := wrap64 (b - 1) in (b' <? 0, Some b')
  end.

(** ** The tree as a transition system

    An agent is between steps, has passed the token check of [consumeStep]
    but not yet charged its step, or is inside a granted step and has
    reported [spent] tokens for it so far (the streamed call and the
    finalizing calls report separately).  [granted] and [attempts] are ghost
    counters: the steps granted, and the charges made. *)
Inductive agent_pc := Between | Checked | InStep (spent : Z).

Record tree := {
  budget : treeBudgetState;
  agents : list agent_pc;
  granted : Z;
  attempts : Z;
}.

Definition tree_start (b : treeBudgetState) (n : nat) : tree :=
  {| budget := b; agents := replicate n Between; granted := 0; attempts := 0 |}.

(** [per_step] bounds what one granted step reports over its calls. *)
Inductive tree_step (per_step : Z) : tree -> tree -> Prop :=
| ts_check_pass t i :
    agents t !! i = Some Between ->
    tokens_exhausted (budget t) = false ->
    tree_step per_step t
      {| budget := budget t; agents := <[i := Checked]> (agents t);
         granted := granted t; attempts := attempts t |}
| ts_check_fail t i :
    agents t !! i = Some Between ->
    tokens_exhausted (budget t) = true ->
    tree_step per_step t t
| ts_charge t i ok b' :
    agents t !! i = Some Checked ->
    charge_step (budget t) = (ok, b') ->
    tree_step per_step t
      {| budget := b';
         agents := <[i := if ok : bool then InStep 0 else Between]> (agents t);
         granted := if ok : bool then granted t + 1 else granted t;
         attempts := attempts t + 1 |}
| ts_report t i spent n :
    agents t !! i = Some (InStep spent) ->
    spent + Z.max 0 n <= per_step ->
    tree_step per_step t
      {| budget := add_tokens (budget t) n;
         agents := <[i := InStep (spent + Z.max 0 n)]> (agents t);
         granted := granted t; attempts := attempts t |}
| ts_end t i spent :
    agents t !! i = Some (InStep spent) ->
    tree_step per_step t
      {| budget := budget t; agents := <[i := Between]> (agents t);
         granted := granted t; attempts := attempts t |}.

(** ** Sums over the agents *)

Definition zsum {A} (f : A -> Z) (l : list A) : Z := foldr (fun a s => f a + s) 0 l.

Lemma zsum_insert {A} (f : A -> Z) (l : list A) i x y :
  l !! i = Some x -> zsum f (<[i:=y]> l) = zsum f l - f x + f y.
Proof.
  revert i. induction l as [|a l IH]; intros [|i]; simpl; try discriminate.
  - intros [= ->]. lia.
  - intros H. rewrite (IH i H). lia.
Qed.

Lemma zsum_lookup {A} (f : A -> Z) (l : list A) i x :
  (forall a, 0 <= f a) -> l !! i = Some x -> f x <= zsum f l.
Proof.
  intros Hf. revert i. induction l as [|a l IH]; intros [|i]; simpl; try discriminate.
  - intros [= ->]. assert (0 <= zsum f l); [|lia]. clear -Hf. induction l as [|b l IH]; simpl; [lia|].
    pose proof (Hf b). lia.
  - intros H. pose proof (IH i H). pose proof (Hf a). lia.
Qed.

Lemma zsum_bound {A} (f : A -> Z) (b : Z) (l : list A) :
  (forall a, f a <= b) -> zsum f l <= Z.of_nat (length l) * b.
Proof. intros H. induction l as [|a l IH]; simpl; [lia|]. pose proof (H a). lia. Qed.

Lemma zsum_replicate {A} (f : A -> Z) n a : zsum f (replicate n a) = Z.of_nat n * f a.
Proof. induction n; simpl; lia. Qed.

(** ** The step cap *)

(** The shared counter is the cap less the charges made, and the steps
    granted are the charges up to the cap. *)
Record steps_inv (cap : Z) (t : tree) : Prop := {
  si_cap : maxSteps (budget t) = cap;
  si_attempts : 0 <= attempts t;
  si_left : stepsLeft (budget t) = wrap64 (cap - attempts t);
  si_granted : attempts t <= 2 ^ 63 -> granted t = Z.min (attempts t) cap;
}.

Lemma add_tokens_steps st n :
  stepsLeft (add_tokens st n) = stepsLeft st /\ maxSteps (add_tokens st n) = maxSteps st.
Proof. unfold add_tokens. by case_goal. Qed.

Lemma wrap64_sub z k : wrap64 (wrap64 z - k) = wrap64 (z - k).
Proof.
  unfold wrap64. f_equal.
  replace ((z + 2 ^ 63) mod 2 ^ 64 - 2 ^ 63 - k + 2 ^ 63)
    with ((z + 2 ^ 63) mod 2 ^ 64 - k) by lia.
  rewrite Zminus_mod_idemp_l. f_equal. lia.
Qed.

Lemma steps_inv_step per_step cap t t' :
  0 < cap <= int64_max -> steps_inv cap t -> tree_step per_step t t' -> steps_inv cap t'.
Proof.
  intros Hcap [Hc Ha Hl Hg] Hs.
  destruct Hs as [t i Hi Ht|t i Hi Ht|t i ok b' Hi Hb|t i spent n Hi Hm|t i spent Hi];
    try (split; simpl; assumption).
  - unfold charge_step in Hb. rewrite Hc, (proj2 (Z.ltb_lt 0 cap)) in Hb by lia.
    injection Hb as <- <-.
    assert (Hle : wrap64 (stepsLeft (budget t) - 1) = wrap64 (cap - (attempts t + 1))).
    { rewrite Hl, wrap64_sub. f_equal. lia. }
    split; simpl; [done | lia | by rewrite Hle |].
    intros Hb. rewrite Hg by lia. rewrite Hle.
    rewrite wrap64_id by (unfold in_int64, int64_min, int64_max in *; lia).
    destruct (Z.ltb_spec (cap - (attempts t + 1)) 0); simpl; lia.
  - destruct (add_tokens_steps (budget t) n) as [H1 H2].
    split; simpl; rewrite ?H1, ?H2; assumption.
Qed.

Lemma steps_inv_start per_step b n t cap :
  tb_MaxSteps b = cap -> 0 < cap <= int64_max ->
  star (tree_step per_step) (tree_start {| stepsLeft := tb_MaxSteps b; maxSteps := tb_MaxSteps b;
               tokensUsed := 0; maxTokens := tb_MaxTokens b |} n) t ->
  steps_inv cap t.
Proof.
  intros Hb Hcap Hs. eapply (star_invariant _ (steps_inv cap)); [|exact Hs|].
  - intros. eapply steps_inv_step; eauto.
  - split; simpl; [done | lia | | lia].
    rewrite Z.sub_0_r, wrap64_id; [done|]. unfold in_int64, int64_min. lia.
Qed.

(** C10: Under every interleaving of the agents of a tree, an installed budget
    with a step cap grants at most that many model steps in total, grants
    every charge until the cap is reached, and [RunScope] reports the charges
    made as the steps used.  (The counter keeps decreasing when charges are
    refused; the bound on attempts is where it would wrap.) *)
Theorem tree_budget_step_cap b n per_step st t :
  WithTreeBudget None b = Some st ->
  0 < tb_MaxSteps b <= int64_max ->
  star (tree_step per_step) (tree_start st n) t ->
  attempts t <= int64_max ->
  granted t = Z.min (attempts t) (tb_MaxSteps b)
  /\ granted t <= tb_MaxSteps b
  /\ tu_StepsUsed (usage (Some (budget t))) = attempts t.
Proof.
  intros Hst Hcap Hstar Hatt.
  assert (steps_inv (tb_MaxSteps b) t) as [Hc Ha Hl Hg].
  { unfold WithTreeBudget in Hst. case_hyp Hst; [discriminate|]. injection Hst as <-.
    eapply steps_inv_start; eauto. }
  rewrite Hg by (unfold int64_max in *; lia). split; [done|]. split; [lia|].
  simpl. rewrite Hc, (proj2 (Z.ltb_lt 0 _)) by lia. rewrite Hl.
  rewrite (wrap64_id (tb_MaxSteps b - attempts t)) by (unfold in_int64, int64_min, int64_max in *; lia).
  rewrite wrap64_id; unfold in_int64, int64_min, int64_max in *; lia.
Qed.

Definition cap2 : TreeBudget := {| tb_MaxSteps := 2; tb_MaxTokens := 0 |}.

(** An executable scheduler: the next atomic operation of agent [i]. *)
Inductive tree_act := ACheck (i : nat) | ACharge (i : nat) | AReport (i : nat) (n : Z) | AEnd (i : nat).

Definition tree_do (per_step : Z) (t : tree) (a : tree_act) : option tree :=
  match a with
  | ACheck i =>
      match agents t !! i with
      | Some Between =>
          if tokens_exhausted (budget t) then Some t
          else Some {| budget := budget t; agents := <[i := Checked]> (agents t);
                       granted := granted t; attempts := attempts t |}
      | _ => None
      end
  | ACharge i =>
      match agents t !! i with
      | Some Checked =>
          let '(ok, b') := charge_step (budget t) in
          Some {| budget := b';
                  agents := <[i := if ok : bool then InStep 0 else Between]> (agents t);
                  granted := if ok : bool then granted t + 1 else granted t;
                  attempts := attempts t + 1 |}
      | _ => None
      end
  | AReport i n =>
      match agents t !! i with
      | Some (InStep spent) =>
          if spent + Z.max 0 n <=? per_step then
            Some {| budget := add_tokens (budget t) n;
                    agents := <[i := InStep (spent + Z.max 0 n)]> (agents t);
                    granted := granted t; attempts := attempts t |}
          else None
      | _ => None
      end
  | AEnd i =>
      match agents t !! i with
      | Some (InStep _) =>
          Some {| budget := budget t; agents := <[i := Between]> (agents t);
                  granted := granted t; attempts := attempts t |}
      | _ => None
      end
  end.

Fixpoint tree_run (per_step : Z) (t : tree) (l : list tree_act) : option tree :=
  match l with
  | [] => Some t
  | a :: l => t' ← tree_do per_step t a; tree_run per_step t' l
  end.

Lemma tree_do_step per_step t a t' : tree_do per_step t a = Some t' -> tree_step per_step t t'.
Proof.
  destruct a as [i|i|i n|i]; simpl; destruct (agents t !! i) as [[| |spent]|] eqn:Hi; try discriminate.
  - case_goal; intros [= <-]; [by eapply ts_check_fail | by apply ts_check_pass].
  - destruct (charge_step (budget t)) as [ok b'] eqn:Hb. intros [= <-]. by apply ts_charge.
  - destruct (Z.leb_spec (spent + Z.max 0 n) per_step); [|discriminate]. intros [= <-].
    by apply ts_report.
  - intros [= <-]. by eapply ts_end.
Qed.

Lemma tree_run_star per_step l t t' :
  tree_run per_step t l = Some t' -> star (tree_step per_step) t t'.
Proof.
  revert t. induction l as [|a l IH]; intros t; simpl; [intros [= <-]; apply star_refl|].
  destruct (tree_do per_step t a) eqn:E; simpl; [|discriminate].
  eauto using star_step, tree_do_step.
Qed.

(** Three agents, all past the token check before any of them charges. *)
Definition cap2_end : tree :=
  {| budget := {| stepsLeft := -1; maxSteps := 2; tokensUsed := 0; maxTokens := 0 |};
     agents := [InStep 0; InStep 0; Between]; granted := 2; attempts := 3 |}.

Lemma tree_budget_step_cap_witness :
  exists st, WithTreeBudget None cap2 = Some st
    /\ star (tree_step 10) (tree_start st 3) cap2_end /\ granted cap2_end = Z.min 3 2.
Proof.
  eexists. split; [reflexivity|].
  assert (H : star (tree_step 10) (tree_start {| stepsLeft := 2; maxSteps := 2; tokensUsed := 0;
     maxTokens := 0 |} 3) cap2_end).
  { apply (tree_run_star _ [ACheck 0; ACheck 1; ACheck 2; ACharge 0; ACharge 1; ACharge 2]).
    vm_compute. reflexivity. }
  split; [exact H|].
  exact (proj1 (tree_budget_step_cap cap2 3 10 _ _ eq_refl
    ltac:(unfold int64_max; simpl; lia) H ltac:(unfold int64_max; simpl; lia))).
Defined.

(** ** The token cap *)

(** What an agent may still report for the step it is in or has been cleared
    to start. *)
Definition owed (per_step : Z) (a : agent_pc) : Z :=
  match a with Between => 0 | Checked => per_step | InStep spent => per_step - spent end.

Record tokens_inv (per_step cap : Z) (n : nat) (t : tree) : Prop := {
  ti_cap : maxTokens (budget t) = cap;
  ti_len : length (agents t) = n;
  ti_spent : forall i s, agents t !! i = Some (InStep s) -> 0 <= s <= per_step;
  ti_used : 0 <= tokensUsed (budget t);
  ti_owed : tokensUsed (budget t) + zsum (owed per_step) (agents t)
            <= cap - 1 + Z.of_nat n * per_step;
}.

Lemma zsum_owed_nonneg per_step l :
  0 <= per_step ->
  (forall (i : nat) s, l !! i = Some (InStep s) -> 0 <= s <= per_step) ->
  0 <= zsum (owed per_step) l <= Z.of_nat (length l) * per_step.
Proof.
  intros Hp. induction l as [|a l IH]; intros H; simpl; [lia|].
  destruct IH as [IH1 IH2]; [intros i s Hi; by apply (H (S i))|].
  assert (0 <= owed per_step a <= per_step); [|lia].
  destruct a as [| |s]; simpl; [lia | lia |]. pose proof (H 0%nat s eq_refl). lia.
Qed.

Lemma spent_insert per_step (l : list agent_pc) i a :
  (forall (j : nat) s, l !! j = Some (InStep s) -> 0 <= s <= per_step) ->
  (forall s, a = InStep s -> 0 <= s <= per_step) ->
  forall j s, <[i:=a]> l !! j = Some (InStep s) -> 0 <= s <= per_step.
Proof.
  intros H Ha j s. rewrite list_lookup_insert_Some. intros [(-> & -> & _)|[_ Hj]]; eauto.
Qed.

Lemma tokens_inv_step per_step cap n t t' :
  0 < cap -> 0 <= per_step -> cap - 1 + Z.of_nat n * per_step <= int64_max ->
  tokens_inv per_step cap n t -> tree_step per_step t t' -> tokens_inv per_step cap n t'.
Proof.
  intros Hcap Hp Hmax [Hc Hn Hs Hu Ho] Hstep.
  destruct Hstep as [t i Hi Ht|t i Hi Ht|t i ok b' Hi Hb|t i spent m Hi Hm|t i spent Hi].
  - assert (Hsi : forall j s, <[i:=Checked]> (agents t) !! j = Some (InStep s) -> 0 <= s <= per_step)
      by by apply spent_insert.
    pose proof (zsum_owed_nonneg per_step _ Hp Hsi) as Hz. rewrite length_insert in Hz.
    split; simpl; [done | by rewrite length_insert | done | done |].
    unfold tokens_exhausted in Ht. rewrite (proj2 (Z.ltb_lt 0 _)) in Ht by lia. simpl in Ht.
    apply Z.leb_gt in Ht. lia.
  - by split.
  - assert (Hb' : maxTokens b' = maxTokens (budget t) /\ tokensUsed b' = tokensUsed (budget t))
      by (unfold charge_step in Hb; case_hyp Hb; simplify_eq; done).
    destruct Hb' as [Hb1 Hb2]. split; simpl; [by rewrite Hb1 | by rewrite length_insert | | by rewrite Hb2 |].
    + apply spent_insert; [done|]. destruct ok; [|discriminate]. intros s [= <-]. lia.
    + rewrite Hb2, (zsum_insert _ _ _ _ _ Hi). destruct ok; simpl; lia.
  - pose proof (Hs _ _ Hi).
    assert (Hsi : forall j s, <[i:=InStep (spent + Z.max 0 m)]> (agents t) !! j = Some (InStep s)
      -> 0 <= s <= per_step) by (apply spent_insert; [done|]; intros s [= <-]; lia).
    pose proof (zsum_owed_nonneg per_step _ Hp Hsi) as Hz.
    rewrite (zsum_insert _ _ _ _ _ Hi) in Hz. simpl in Hz.
    assert (Ha : tokensUsed (add_tokens (budget t) m) = tokensUsed (budget t) + Z.max 0 m
                 /\ maxTokens (add_tokens (budget t) m) = maxTokens (budget t)).
    { unfold add_tokens. rewrite (proj2 (Z.ltb_lt 0 (maxTokens (budget t)))) by lia. simpl.
      destruct (Z.ltb_spec 0 m); simpl; [|split; [lia | done]]. split; [|done].
      rewrite wrap64_id; [lia|]. unfold in_int64, int64_min in *. lia. }
    destruct Ha as [Ha1 Ha2].
    split; simpl; [congruence | by rewrite length_insert | done | lia |].
    rewrite Ha1, (zsum_insert _ _ _ _ _ Hi). simpl. lia.
  - pose proof (Hs _ _ Hi). split; simpl; [done | by rewrite length_insert | | done |].
    + by apply spent_insert.
    + rewrite (zsum_insert _ _ _ _ _ Hi). simpl. lia.
Qed.

(** Under every interleaving of [n] concurrent agents whose steps report
    at most [per_step] tokens each, the tree's tokens stay below the cap plus
    one step per agent: the check lets at most one step per agent through
    after the cap is reached. *)
Theorem tree_budget_token_bound b n per_step st t :
  WithTreeBudget None b = Some st ->
  0 < tb_MaxTokens b -> 0 <= per_step ->
  tb_MaxTokens b - 1 + Z.of_nat n * per_step <= int64_max ->
  star (tree_step per_step) (tree_start st n) t ->
  tokensUsed (budget t) <= tb_MaxTokens b - 1 + Z.of_nat n * per_step.
Proof.
  intros Hst Hcap Hp Hmax Hstar.
  unfold WithTreeBudget in Hst. case_hyp Hst; [discriminate|]. injection Hst as <-.
  assert (tokens_inv per_step (tb_MaxTokens b) n t) as [Hc Hn Hs Hu Ho].
  { eapply (star_invariant _ (tokens_inv per_step (tb_MaxTokens b) n)); [|exact Hstar|].
    - intros. eapply tokens_inv_step; eauto.
    - split; simpl; [done | apply length_replicate | | lia |].
      + intros i s [H _]%lookup_replicate. discriminate.
      + rewrite zsum_replicate. simpl. nia. }
  pose proof (zsum_owed_nonneg per_step _ Hp Hs). lia.
Qed.

Definition cap5 : TreeBudget := {| tb_MaxSteps := 0; tb_MaxTokens := 5 |}.

(** The bound is reached: two agents, each within its own step, take a tree
    with a cap of 5 tokens to 24, which is more than one step past it. *)
Definition cap5_end : tree :=
  {| budget := {| stepsLeft := 0; maxSteps := 0; tokensUsed := 24; maxTokens := 5 |};
     agents := [InStep 10; InStep 10]; granted := 3; attempts := 3 |}.

Lemma tree_budget_token_bound_witness :
  exists st, WithTreeBudget None cap5 = Some st
    /\ star (tree_step 10) (tree_start st 2) cap5_end
    /\ tokensUsed (budget cap5_end) = 24 /\ tokensUsed (budget cap5_end) <= 5 - 1 + 2 * 10.
Proof.
  eexists. split; [reflexivity|].
  assert (H : star (tree_step 10) (tree_start {| stepsLeft := 0; maxSteps := 0; tokensUsed := 0;
     maxTokens := 5 |} 2) cap5_end).
  { apply (tree_run_star _ [ACheck 0; ACharge 0; AReport 0 4; AEnd 0; ACheck 0; ACheck 1;
      ACharge 0; ACharge 1; AReport 0 10; AReport 1 10]). vm_compute. reflexivity. }
  split; [exact H|]. split; [reflexivity|].
  exact (tree_budget_token_bound cap5 2 10 _ _ eq_refl ltac:(simpl; lia) ltac:(lia)
    ltac:(unfold int64_max; simpl; lia) H).
Defined.

(** ** The scope a call sees *)

Lemma path_Contains_Child p name n :
  path_Contains (path_Child p name) n = path_Contains p n || String.eqb name n.
Proof. unfold path_Contains, path_Child. rewrite existsb_app. simpl. by rewrite orb_false_r. Qed.

Fixpoint charge_calls (k : nat) (calls : option Z) : option Z :=
  match k with O => calls | S k => charge_calls k (charge_call calls).2 end.

(** An exhausted call budget reads as the value documented as unbounded after
    the first refused call. *)
Lemma call_budget_refused_reads_unbounded path tree :
  charge_call (WithAgentCallBudget 0) = (true, Some (-1))
  /\ rs_CallBudget (ScopeFrom path (charge_call (WithAgentCallBudget 0)).2 tree)
     = rs_CallBudget (ScopeFrom path None tree).
Proof. split; reflexivity. Qed.
