(* ===== verification/Middleware.v ===== *)
(** * Tool middleware: src/toolmiddleware.go

    The chain every tool call goes through.  A middleware gets the call and
    the rest of the chain; it may rewrite the call, decide it without calling
    the rest, or change what comes back.  [Ctx] is the Go context, [W] the
    world callbacks act on and [E] the events they emit.  A call returns Go's
    pair of a result pointer and an error. *)

From Stdlib Require Import FunctionalExtensionality.
From S2P Require Import Prelude GoStr Errors Json Provider TreeBudget.
Local Open Scope eff_scope.

(** ** The call travelling down the chain *)

(** [CallDisposition]; the type is an [int], so other values exist. *)
Inductive CallDisposition :=
| DispositionUnknown
| DispositionReadOnly
| DispositionReversible
| DispositionDestructive
| DispositionForbidden
| DispositionAlwaysAsk
| DispositionOther (n : Z).

#[export] Instance CallDisposition_eq_dec : EqDecision CallDisposition.
Proof. solve_decision. Defined.

Record CallClass := {
  cc_Disposition : CallDisposition;
  cc_Key : string;
  cc_Reason : string;
}.

Record ToolCallInfo := {
  ti_Step : Z;
  ti_Call : ToolCall;
  ti_Scope : RunScope;
  ti_ReadOnly : bool;
  ti_Destructive : bool;
  ti_Idempotent : bool;
  ti_Class : option CallClass;
}.

Definition info_name (info : ToolCallInfo) : string := tc_Name (ti_Call info).

Definition set_hints (info : ToolCallInfo) (ro de id : bool) (c : option CallClass)
  : ToolCallInfo :=
  {| ti_Step := ti_Step info; ti_Call := ti_Call info; ti_Scope := ti_Scope info;
     ti_ReadOnly := ro; ti_Destructive := de; ti_Idempotent := id; ti_Class := c |}.

Definition set_args (info : ToolCallInfo) (args : RawJSON) : ToolCallInfo :=
  {| ti_Step := ti_Step info;
     ti_Call := {| tc_ID := tc_ID (ti_Call info); tc_Name := tc_Name (ti_Call info);
                   tc_Args := args |};
     ti_Scope := ti_Scope info; ti_ReadOnly := ti_ReadOnly info;
     ti_Destructive := ti_Destructive info; ti_Idempotent := ti_Idempotent info;
     ti_Class := ti_Class info |}.

Definition classified (info : ToolCallInfo) (c : CallClass) : ToolCallInfo :=
  match cc_Disposition c with
  | DispositionReadOnly => set_hints info true false true (Some c)
  | DispositionReversible => set_hints info false false (ti_Idempotent info) (Some c)
  | DispositionDestructive | DispositionAlwaysAsk =>
      set_hints info false true (ti_Idempotent info) (Some c)
  | _ => set_hints info (ti_ReadOnly info) (ti_Destructive info) (ti_Idempotent info) (Some c)
  end.

(** ** Denials *)

Definition DenyTool (reason : string) : error := EDenied {| Reason := reason; ModelReason := "" |}.

Definition deniedReason (err : error) : option string :=
  match error_as_denied err with
  | None => None
  | Some d => Some (if String.eqb (Reason d) "" then "denied by policy" else Reason d)
  end.

Definition deniedModelReason (err : error) (surfaced : string) : string :=
  match error_as_denied err with
  | Some d => if String.eqb (ModelReason d) "" then surfaced else ModelReason d
  | None => surfaced
  end.

(** ** The chain *)

(** The pair of a [core.ToolResult] pointer and an error. *)
Abbreviation call_out := (option ToolResult * option error)%type.

Section Chain.
Context {Ctx W E : Type}.

Definition ToolCallFunc := Ctx -> ToolCallInfo -> eff W E call_out.
Definition ToolMiddleware := Ctx -> ToolCallInfo -> ToolCallFunc -> eff W E call_out.

(** The loop runs from the last entry to the first, wrapping as it goes. *)
Definition chainToolMiddleware (mw : list ToolMiddleware) (base : ToolCallFunc)
  : ToolCallFunc :=
  fold_left (fun next (m : ToolMiddleware) ctx info => m ctx info next) (rev mw) base.

(** [fn] edits the call in place and may refuse it. *)
Definition BeforeToolCall (fn : Ctx -> ToolCallInfo -> eff W E (ToolCallInfo * option error))
  : ToolMiddleware :=
  fun ctx info next =>
    let* r := fn ctx info in
    match r with
    | (_, Some err) => eff_ret (None, Some err)
    | (info, None) => next ctx info
    end.

Definition AfterToolCall
    (fn : Ctx -> ToolCallInfo -> option ToolResult -> eff W E (option ToolResult * option error))
  : ToolMiddleware :=
  fun ctx info next =>
    let* r := next ctx info in
    match r with
    | (_, Some err) => eff_ret (None, Some err)
    | (res, None) =>
        let* o := fn ctx info res in
        match o with
        | (_, Some ferr) => eff_ret (None, Some (wrap_error "tool middleware: " ferr))
        | (Some out, None) => eff_ret (Some out, None)
        | (None, None) => eff_ret (res, None)
        end
    end.

(** ** Lemmas *)

Lemma chain_nil base : chainToolMiddleware [] base = base.
Proof. done. Qed.

Lemma chain_cons m mw base ctx info :
  chainToolMiddleware (m :: mw) base ctx info = m ctx info (chainToolMiddleware mw base).
Proof. unfold chainToolMiddleware. simpl. by rewrite fold_left_app. Qed.

Lemma chain_app mw1 mw2 base :
  chainToolMiddleware (mw1 ++ mw2) base
  = chainToolMiddleware mw1 (chainToolMiddleware mw2 base).
Proof. unfold chainToolMiddleware. by rewrite rev_app_distr, fold_left_app. Qed.

(** A gate blocks the calls in [P] when its outcome does not depend on what
    running one of them would do. *)
Definition blocks (P : ToolCallInfo -> Prop) (gate : ToolMiddleware) : Prop :=
  forall base base' : ToolCallFunc,
    (forall ctx info, ~ P info -> base ctx info = base' ctx info) ->
    forall ctx info, gate ctx info base = gate ctx info base'.

(** A gate placed last in the chain cannot be bypassed.  Whatever the
    earlier middleware does (rewriting the call, calling the rest of the
    chain several times, or not at all), calls the gate blocks never reach
    the real dispatch: two dispatch functions that agree on every other
    call give the same outcome, events and world. *)
Theorem gate_last_cannot_be_bypassed P gate mw (base base' : ToolCallFunc) :
  blocks P gate ->
  (forall ctx info, ~ P info -> base ctx info = base' ctx info) ->
  chainToolMiddleware (mw ++ [gate]) base = chainToolMiddleware (mw ++ [gate]) base'.
Proof.
  intros Hb Hag. rewrite !chain_app. f_equal.
  extensionality ctx. extensionality info. rewrite !chain_cons, !chain_nil.
  by apply Hb.
Qed.

(** Order of the chain: an entry that rewrites the call is seen by every
    later entry and by the dispatch, and an entry that edits the result sees
    what the later ones returned; a refusal by [BeforeToolCall] stops the
    rest of the chain, and the error of an [AfterToolCall]'s inner call
    passes through it unchanged. *)
Theorem chain_before_after before after fn gn base ctx info w :
  chainToolMiddleware [BeforeToolCall fn; AfterToolCall gn] base ctx info w
  = (let '(i1, e1, evs1, w1) := fn ctx info w in
     match e1 with
     | Some err => (None, Some err, evs1, w1)
     | None =>
         let '(r2, e2, evs2, w2) := base ctx i1 w1 in
         match e2 with
         | Some err => (None, Some err, evs1 ++ evs2, w2)
         | None =>
             let '(r3, e3, evs3, w3) := gn ctx i1 r2 w2 in
             (match e3 with
              | Some ferr => (None, Some (wrap_error "tool middleware: " ferr))
              | None => (match r3 with Some out => Some out | None => r2 end, None)
              end, evs1 ++ evs2 ++ evs3, w3)
         end
     end)
  /\ chainToolMiddleware (before ++ after) base
     = chainToolMiddleware before (chainToolMiddleware after base).
Proof.
  split; [|apply chain_app]. rewrite chain_cons. unfold BeforeToolCall, eff_bind.
  destruct (fn ctx info w) as [[[i1 [err|]] evs1] w1]; [simpl; by rewrite app_nil_r|].
  rewrite chain_cons, chain_nil. unfold AfterToolCall, eff_bind.
  destruct (base ctx i1 w1) as [[[r2 [err|]] evs2] w2]; [simpl; by rewrite app_nil_r|].
  destruct (gn ctx i1 r2 w2) as [[[[out|] [ferr|]] evs3] w3]; simpl; by rewrite app_nil_r.
Qed.
End Chain.
Arguments ToolCallFunc : clear implicits.
Arguments ToolMiddleware : clear implicits.

(** A gate that refuses every call to [rm], behind a middleware that rewrites
    calls into it. *)
Definition plain_info (name : string) : ToolCallInfo :=
  {| ti_Step := 1; ti_Call := {| tc_ID := "c1"; tc_Name := name; tc_Args := "" |};
     ti_Scope := ScopeFrom [] None None; ti_ReadOnly := false; ti_Destructive := true;
     ti_Idempotent := false; ti_Class := None |}.

Definition no_rm : ToolMiddleware unit nat unit :=
  BeforeToolCall (fun _ info =>
    eff_ret (info, if String.eqb (info_name info) "rm" then Some (DenyTool "no rm") else None)).

Definition to_rm : ToolMiddleware unit nat unit :=
  BeforeToolCall (fun _ _ => eff_ret (plain_info "rm", None)).

Definition count_call : ToolCallFunc unit nat unit := fun _ _ w => ((None, None), [], S w).
Definition count_other : ToolCallFunc unit nat unit :=
  fun _ info w => ((None, None), [], if String.eqb (info_name info) "rm" then w + 100 else S w).

Lemma gate_last_cannot_be_bypassed_witness :
  chainToolMiddleware ([to_rm] ++ [no_rm]) count_call
  = chainToolMiddleware ([to_rm] ++ [no_rm]) count_other
  /\ chainToolMiddleware ([to_rm] ++ [no_rm]) count_call tt (plain_info "ls") 0
     = ((None, Some (DenyTool "no rm")), [], 0).
Proof.
  split; [|reflexivity].
  apply (gate_last_cannot_be_bypassed (fun info => info_name info = "rm")).
  - intros base base' H [] info. unfold no_rm, BeforeToolCall, eff_bind, eff_ret.
    destruct (String.eqb_spec (info_name info) "rm"); [done|]. by rewrite (H tt info).
  - intros [] info H. unfold count_call, count_other.
    destruct (String.eqb_spec (info_name info) "rm"); [contradiction | done].
Defined.
