(* ===== verification/Approval.v ===== *)
(** * The permission gate: src/approval.go

    [TieredApproval] decides a call from a classifier, the approvals it
    remembers, per-tool rules, grants and a default mode, and asks a human
    when they leave it open.  Its mutable state (the mode and the remembered
    approvals) is shared by concurrent calls: the world the callbacks act on
    contains it, so a callback may stand for any other use of the gate that
    happens while this call waits for it. *)

From Stdlib Require Import FunctionalExtensionality.
From S2P Require Import Prelude GoStr Errors Json Provider TreeBudget Middleware.
Local Open Scope eff_scope.

Inductive ApprovalMode :=
| ModeAlwaysAsk | ModeReadOnlyAuto | ModeReversibleAuto | ModeAlwaysAllow | ModeOther (n : Z).

Inductive ToolRule := RuleAsk | RuleAllow | RuleDeny | RuleOther (n : Z).

#[export] Instance ToolRule_eq_dec : EqDecision ToolRule.
Proof. solve_decision. Defined.

Record Choice := {
  ch_Claimed : bool;
  ch_Approved : bool;
  ch_Args : RawJSON;
  ch_Note : string;
}.

(** The state under [t.mu]. *)
Record GateState := { gs_mode : ApprovalMode; gs_remembered : gset string }.

Section Gate.
Context {Ctx W E : Type}.

(** The gate's own state beside the rest of the world. *)
Abbreviation GW := (GateState * W)%type.

Definition AskFunc := Ctx -> ToolCallInfo -> eff GW E (bool * option error).
Definition ChooseFunc := Ctx -> ToolCallInfo -> eff GW E (Choice * option error).
Definition ClassifyFunc := Ctx -> ToolCallInfo -> eff GW E (option CallClass).
Definition GrantFunc := Ctx -> ToolCallInfo -> eff GW E bool.
(** Runs while the gate's lock is held, so it reads the world beside it. *)
Definition RememberKeyFunc := W -> ToolCallInfo -> option string.

Record TieredApproval := {
  ta_rules : gmap string ToolRule;
  ta_ask : option AskFunc;
  ta_choose : option ChooseFunc;
  ta_remember : bool;
  ta_key : option RememberKeyFunc;
  ta_classify : option ClassifyFunc;
  ta_grant : option GrantFunc;
}.

(** ** Construction *)

(** [TieredOption] edits the gate being built: its fields and its mode. *)
Definition TieredOption := TieredApproval * ApprovalMode -> TieredApproval * ApprovalMode.

Definition WithDefaultMode (m : ApprovalMode) : TieredOption := fun '(t, _) => (t, m).

Definition WithToolRule (tool : string) (rule : ToolRule) : TieredOption := fun '(t, m) =>
  ({| ta_rules := <[tool := rule]> (ta_rules t); ta_ask := ta_ask t; ta_choose := ta_choose t;
      ta_remember := ta_remember t; ta_key := ta_key t; ta_classify := ta_classify t;
      ta_grant := ta_grant t |}, m).

Definition WithAsk (ask : option AskFunc) : TieredOption := fun '(t, m) =>
  ({| ta_rules := ta_rules t; ta_ask := ask; ta_choose := ta_choose t;
      ta_remember := ta_remember t; ta_key := ta_key t; ta_classify := ta_classify t;
      ta_grant := ta_grant t |}, m).

Definition WithChooser (choose : option ChooseFunc) : TieredOption := fun '(t, m) =>
  ({| ta_rules := ta_rules t; ta_ask := ta_ask t; ta_choose := choose;
      ta_remember := ta_remember t; ta_key := ta_key t; ta_classify := ta_classify t;
      ta_grant := ta_grant t |}, m).

Definition WithRememberKey (fn : option RememberKeyFunc) : TieredOption := fun '(t, m) =>
  ({| ta_rules := ta_rules t; ta_ask := ta_ask t; ta_choose := ta_choose t;
      ta_remember := ta_remember t; ta_key := fn; ta_classify := ta_classify t;
      ta_grant := ta_grant t |}, m).

Definition WithClassifier (fn : option ClassifyFunc) : TieredOption := fun '(t, m) =>
  ({| ta_rules := ta_rules t; ta_ask := ta_ask t; ta_choose := ta_choose t;
      ta_remember := ta_remember t; ta_key := ta_key t; ta_classify := fn;
      ta_grant := ta_grant t |}, m).

Definition WithGrants (fn : option GrantFunc) : TieredOption := fun '(t, m) =>
  ({| ta_rules := ta_rules t; ta_ask := ta_ask t; ta_choose := ta_choose t;
      ta_remember := ta_remember t; ta_key := ta_key t; ta_classify := ta_classify t;
      ta_grant := fn |}, m).

Definition WithRememberApprovals (remember : bool) : TieredOption := fun '(t, m) =>
  ({| ta_rules := ta_rules t; ta_ask := ta_ask t; ta_choose := ta_choose t;
      ta_remember := remember; ta_key := ta_key t; ta_classify := ta_classify t;
      ta_grant := ta_grant t |}, m).

Definition NewTieredApproval (opts : list TieredOption) : TieredApproval * GateState :=
  let '(t, m) :=
    fold_left (fun tm opt => opt tm) opts
      ({| ta_rules := ∅; ta_ask := None; ta_choose := None; ta_remember := false;
          ta_key := None; ta_classify := None; ta_grant := None |}, ModeAlwaysAsk) in
  (t, {| gs_mode := m; gs_remembered := ∅ |}).

Definition SetDefaultMode (m : ApprovalMode) (g : GateState) : GateState :=
  {| gs_mode := m; gs_remembered := gs_remembered g |}.

Definition DefaultMode (g : GateState) : ApprovalMode := gs_mode g.

(** ** One call *)

Definition rememberKey (t : TieredApproval) (w : W) (info : ToolCallInfo) : option string :=
  match ti_Class info with
  | Some c =>
      if String.eqb (cc_Key c) "" || bool_decide (cc_Disposition c = DispositionAlwaysAsk)
      then None
      else Some (info_name info +:+ nul +:+ cc_Key c)
  | None =>
      match ta_key t with
      | None => Some (info_name info)
      | Some key => key w info
      end
  end.

Definition denied (e : error) : eff GW E call_out := eff_ret (None, Some e).

Definition userDeclined (note : string) : error :=
  let reason := "declined by user" +:+ (if String.eqb note "" then "" else ": " +:+ note) in
  EDenied {| Reason := reason;
             ModelReason := reason +:+ ". The call did not run. Tell the user plainly that it was declined, and don't ask to run it again unless they bring it up." |}.

(** The critical section that stores an approval. *)
Definition store_approval (t : TieredApproval) (info : ToolCallInfo) : eff GW E unit :=
  eff_call (fun '(g, w) =>
    (tt, match rememberKey t w info with
         | Some key => ({| gs_mode := gs_mode g; gs_remembered := {[key]} ∪ gs_remembered g |}, w)
         | None => (g, w)
         end)).

(** The critical section that reads the mode and the cache. *)
Definition read_gate (t : TieredApproval) (info : ToolCallInfo)
  : eff GW E (ApprovalMode * bool) :=
  eff_call (fun '(g, w) =>
    ((gs_mode g,
      ta_remember t
      && match rememberKey t w info with
         | Some key => bool_decide (key ∈ gs_remembered g)
         | None => false
         end), (g, w))).

Definition add_note (res : ToolResult) (note : string) : ToolResult :=
  {| tr_Content := tr_Content res ++ [{| c_Type := "text"; c_Text := note |}];
     tr_IsError := tr_IsError res;
     tr_StructuredContent := tr_StructuredContent res |}.

Definition doChoice (t : TieredApproval) (ctx : Ctx) (info : ToolCallInfo) (c : Choice)
    (next : ToolCallFunc Ctx GW E) : eff GW E call_out :=
  if negb (ch_Approved c) then denied (userDeclined (ch_Note c))
  else
    let narrowed := negb (String.eqb (ch_Args c) "") in
    let info := if narrowed then set_args info (ch_Args c) else info in
    (if negb narrowed && ta_remember t then store_approval t info else eff_ret tt) ;;;
    let* out := next ctx info in
    match out with
    | (Some res, None) =>
        if String.eqb (ch_Note c) "" then eff_ret out
        else eff_ret (Some (add_note res (ch_Note c)), None)
    | _ => eff_ret out
    end.

Definition ask_user (t : TieredApproval) (ctx : Ctx) (info : ToolCallInfo)
    (next : ToolCallFunc Ctx GW E) : eff GW E call_out :=
  match ta_ask t with
  | None => denied (DenyTool "no approval UI available")
  | Some ask =>
      let* a := ask ctx info in
      match a with
      | (_, Some err) => eff_ret (None, Some err)
      | (false, None) => denied (userDeclined "")
      | (true, None) =>
          (if ta_remember t then store_approval t info else eff_ret tt) ;;;
          next ctx info
      end
  end.

Definition doAsk (t : TieredApproval) (ctx : Ctx) (info : ToolCallInfo)
    (next : ToolCallFunc Ctx GW E) : eff GW E call_out :=
  match ta_choose t with
  | None => ask_user t ctx info next
  | Some choose =>
      let* r := choose ctx info in
      match r with
      | (_, Some err) => eff_ret (None, Some err)
      | (c, None) =>
          if ch_Claimed c then doChoice t ctx info c next else ask_user t ctx info next
      end
  end.

(** The default mode's answer for a call no rule covers: run it, or ask. *)
Definition mode_runs (m : ApprovalMode) (info : ToolCallInfo) : bool :=
  match m with
  | ModeAlwaysAllow => true
  | ModeReadOnlyAuto => ti_ReadOnly info
  | ModeReversibleAuto => ti_ReadOnly info || negb (ti_Destructive info)
  | ModeAlwaysAsk | ModeOther _ => false
  end.

Definition denied_by_policy : error := DenyTool "denied by approval policy".

(** [WrapToolCall] after the classifier. *)
Definition wrap_classified (t : TieredApproval) (ctx : Ctx) (info : ToolCallInfo)
    (next : ToolCallFunc Ctx GW E) : eff GW E call_out :=
  let* r := read_gate t info in
  let '(mode, remembered) := r in
  if (remembered : bool) then next ctx info
  else
    let rule := ta_rules t !! info_name info in
    if bool_decide (rule = Some RuleDeny) then denied denied_by_policy
    else
      let* granted := match ta_grant t with
                      | Some grant => grant ctx info
                      | None => eff_ret false
                      end in
      if (granted : bool) then next ctx info
      else match rule with
           | Some RuleAllow => next ctx info
           | Some RuleDeny => denied denied_by_policy
           | Some RuleAsk => doAsk t ctx info next
           | Some (RuleOther _) | None =>
               if mode_runs mode info then next ctx info else doAsk t ctx info next
           end.

Definition forbidden_reason (c : CallClass) : string :=
  "forbidden by policy" +:+ (if String.eqb (cc_Reason c) "" then "" else ": " +:+ cc_Reason c).

Definition classify_call (t : TieredApproval) (ctx : Ctx) (info : ToolCallInfo)
  : eff GW E (option CallClass) :=
  match ta_classify t with Some f => f ctx info | None => eff_ret None end.

Definition WrapToolCall (t : TieredApproval) : ToolMiddleware Ctx GW E :=
  fun ctx info next =>
    let* c := classify_call t ctx info in
    match c with
    | None => wrap_classified t ctx info next
    | Some c =>
        match cc_Disposition c with
        | DispositionForbidden => denied (DenyTool (forbidden_reason c))
        | DispositionAlwaysAsk =>
            let info := classified info c in
            if bool_decide (ta_rules t !! info_name info = Some RuleDeny)
            then denied denied_by_policy else doAsk t ctx info next
        | _ => wrap_classified t ctx (classified info c) next
        end
    end.

(** ** Lemmas *)

Lemma info_name_classified info c : info_name (classified info c) = info_name info.
Proof. unfold classified, info_name. by destruct (cc_Disposition c). Qed.

Lemma info_name_set_args info a : info_name (set_args info a) = info_name info.
Proof. done. Qed.

Lemma ti_Class_classified info c : ti_Class (classified info c) = Some c.
Proof. unfold classified. by destruct (cc_Disposition c). Qed.

(** Two continuations that agree on the calls of one tool are the same to
    everything the gate does with a call of that tool. *)
Section SameTool.
Variables next next' : ToolCallFunc Ctx GW E.
Variables (t : TieredApproval) (n : string).
Hypothesis agree : forall ctx info, info_name info = n -> next ctx info = next' ctx info.

Lemma doChoice_agree ctx info c w :
  info_name info = n -> doChoice t ctx info c next w = doChoice t ctx info c next' w.
Proof.
  intros Hn. unfold doChoice. destruct (negb (ch_Approved c)); [done|].
  apply eff_bind_ext. intros [] w1. apply eff_bind_ext_l.
  rewrite agree; [done|]. by destruct (negb (String.eqb (ch_Args c) "")).
Qed.

Lemma ask_user_agree ctx info w :
  info_name info = n -> ask_user t ctx info next w = ask_user t ctx info next' w.
Proof.
  intros Hn. unfold ask_user. destruct (ta_ask t); [|done].
  apply eff_bind_ext. intros [[] [err|]] w1; try done.
  apply eff_bind_ext. intros [] w2. by rewrite agree.
Qed.

Lemma doAsk_agree ctx info w :
  info_name info = n -> doAsk t ctx info next w = doAsk t ctx info next' w.
Proof.
  intros Hn. unfold doAsk. destruct (ta_choose t); [|by apply ask_user_agree].
  apply eff_bind_ext. intros [ch [err|]] w1; [done|].
  destruct (ch_Claimed ch); [by apply doChoice_agree | by apply ask_user_agree].
Qed.

Lemma wrap_classified_agree ctx info w :
  info_name info = n ->
  wrap_classified t ctx info next w = wrap_classified t ctx info next' w.
Proof.
  intros Hn. unfold wrap_classified.
  apply eff_bind_ext. intros [mode []] w1; [by rewrite agree|].
  case_bool_decide; [done|]. apply eff_bind_ext. intros [] w2; [by rewrite agree|].
  repeat case_match; rewrite ?agree by done; try done; by apply doAsk_agree.
Qed.
End SameTool.

(** A tool the classifier forbids is blocked by the gate under every
    mode, rule, grant, remembered approval and answer: no outcome depends
    on what running it would do.  With the gate last in the chain no other
    middleware can bypass it. *)
Theorem forbidden_tool_blocked t n :
  (forall ctx info w, info_name info = n ->
     exists c, eff_value (classify_call t ctx info) w = Some c
               /\ cc_Disposition c = DispositionForbidden) ->
  blocks (fun info => info_name info = n) (WrapToolCall t).
Proof.
  intros Hf base base' Hag ctx info.
  destruct (decide (info_name info = n)) as [Hn|Hn];
    apply functional_extensionality; intros w; unfold WrapToolCall.
  - unfold eff_bind. destruct (Hf ctx info w Hn) as (c & Hc & Hd).
    unfold eff_value in Hc. destruct (classify_call t ctx info w) as [[c' evs] w1].
    simpl in Hc. subst. by rewrite Hd.
  - assert (Hag' : forall c i, info_name i = info_name info -> base c i = base' c i)
      by (intros; apply Hag; congruence).
    apply eff_bind_ext. intros [c|] w1; [|by apply (wrap_classified_agree _ _ _ _ Hag')].
    destruct (cc_Disposition c) eqn:Hd;
      try (apply (wrap_classified_agree _ _ _ _ Hag'); apply info_name_classified); [done|].
    case_bool_decide; [done|]. apply (doAsk_agree _ _ _ _ Hag'). apply info_name_classified.
Qed.

(** ** What authorises a call *)

(** The user's answer, as [doAsk] collects it. *)
Definition consent (t : TieredApproval) (ctx : Ctx) (info : ToolCallInfo) (w : GW) : bool :=
  let asked w := match ta_ask t with
                 | None => false
                 | Some ask => match eff_value (ask ctx info) w with
                               | (b, None) => b
                               | (_, Some _) => false
                               end
                 end in
  match ta_choose t with
  | None => asked w
  | Some choose =>
      match eff_value (choose ctx info) w with
      | (_, Some _) => false
      | (c, None) => if ch_Claimed c then ch_Approved c
                     else asked (eff_world (choose ctx info) w)
      end
  end.

(** Whether a classified call may run: a remembered approval, or, unless a
    rule denies the tool, a grant, an allowing rule, the default mode for a
    tool without a rule, or the user. *)
Definition authorised_classified (t : TieredApproval) (ctx : Ctx) (info : ToolCallInfo) (w : GW)
  : bool :=
  let rule := ta_rules t !! info_name info in
  let '(mode, remembered) := eff_value (read_gate t info) w in
  let grant_check := match ta_grant t with Some grant => grant ctx info | None => eff_ret false end in
  let rule_allows := match rule with
                     | Some RuleAllow => true
                     | Some RuleAsk | Some RuleDeny => false
                     | Some (RuleOther _) | None => mode_runs mode info
                     end in
  remembered
  || (negb (bool_decide (rule = Some RuleDeny))
      && (eff_value grant_check w || rule_allows || consent t ctx info (eff_world grant_check w))).

Definition authorised (t : TieredApproval) (ctx : Ctx) (info : ToolCallInfo) (w : GW) : bool :=
  let w1 := eff_world (classify_call t ctx info) w in
  match eff_value (classify_call t ctx info) w with
  | None => authorised_classified t ctx info w1
  | Some c =>
      match cc_Disposition c with
      | DispositionForbidden => false
      | DispositionAlwaysAsk =>
          negb (bool_decide (ta_rules t !! info_name info = Some RuleDeny))
          && consent t ctx (classified info c) w1
      | _ => authorised_classified t ctx (classified info c) w1
      end
  end.

(** [m] ends by running [next] on a call with the same tool and call ID. *)
Definition runs (next : ToolCallFunc Ctx GW E) (ctx : Ctx) (info : ToolCallInfo)
    (m : eff GW E call_out) (w : GW) : Prop :=
  exists info' w0, info_name info' = info_name info
    /\ tc_ID (ti_Call info') = tc_ID (ti_Call info)
    /\ eff_world m w = eff_world (next ctx info') w0
    /\ exists evs, eff_events m w = evs ++ eff_events (next ctx info') w0.

(** [m] is the refusal it is whatever [next] would do. *)
Definition refuses (m : ToolCallFunc Ctx GW E -> eff GW E call_out) (w : GW) : Prop :=
  (forall next next', m next w = m next' w)
  /\ forall next, exists e, eff_value (m next) w = (None, Some e).

Lemma runs_bind {A} next ctx info (m : eff GW E A) k w :
  runs next ctx info (k (eff_value m w)) (eff_world m w) ->
  runs next ctx info (eff_bind m k) w.
Proof.
  intros (i & w0 & Hn & Hi & Hw & evs & He). exists i, w0.
  rewrite eff_world_bind, eff_events_bind, Hw, He, app_assoc. eauto 10.
Qed.

Lemma runs_bind_ret next ctx info (m : eff GW E call_out) k w :
  (forall a, exists b, k a = eff_ret b) ->
  runs next ctx info m w -> runs next ctx info (eff_bind m k) w.
Proof.
  intros Hk (i & w0 & Hn & Hi & Hw & evs & He). exists i, w0.
  rewrite eff_world_bind, eff_events_bind. destruct (Hk (eff_value m w)) as [b ->].
  unfold eff_world at 1, eff_events at 2. simpl. rewrite app_nil_r. eauto 10.
Qed.

Lemma runs_next next ctx info info' w :
  info_name info' = info_name info -> tc_ID (ti_Call info') = tc_ID (ti_Call info) ->
  runs next ctx info (next ctx info') w.
Proof. intros. exists info', w. repeat split; [done..|]. by exists []. Qed.

Lemma refuses_bind {A} (m : eff GW E A) k w :
  refuses (fun next => k next (eff_value m w)) (eff_world m w) ->
  refuses (fun next => eff_bind m (k next)) w.
Proof.
  intros [H1 H2]. split.
  - intros next next'. specialize (H1 next next').
    unfold eff_bind. unfold eff_value, eff_world in *. destruct (m w) as [[a evs] w1]. simpl in *.
    by rewrite H1.
  - intros next. rewrite eff_value_bind. apply H2.
Qed.

Lemma refuses_denied e w : refuses (fun _ => denied e) w.
Proof. split; [done|]. intros _. by exists e. Qed.

Definition settled (ok : bool) (ctx : Ctx) (info : ToolCallInfo)
    (m : ToolCallFunc Ctx GW E -> eff GW E call_out) (w : GW) : Prop :=
  if ok then forall next, runs next ctx info (m next) w else refuses m w.

Lemma settled_bind {A} ok ctx info (m : eff GW E A) k w :
  settled ok ctx info (fun next => k next (eff_value m w)) (eff_world m w) ->
  settled ok ctx info (fun next => eff_bind m (k next)) w.
Proof.
  destruct ok; simpl; [|apply refuses_bind]. intros H next. by apply runs_bind.
Qed.

Lemma ask_user_settled t ctx info w :
  settled (match ta_ask t with
           | None => false
           | Some ask => match eff_value (ask ctx info) w with
                         | (b, None) => b
                         | (_, Some _) => false
                         end
           end) ctx info (ask_user t ctx info) w.
Proof.
  unfold ask_user. destruct (ta_ask t) as [ask|]; [|apply refuses_denied].
  apply settled_bind. destruct (eff_value (ask ctx info) w) as [[] [err|]];
    try apply refuses_denied.
  apply settled_bind. intros next. by apply runs_next.
Qed.

Lemma doChoice_settled t ctx info c w :
  settled (ch_Approved c) ctx info (doChoice t ctx info c) w.
Proof.
  unfold doChoice. destruct (ch_Approved c); [|apply refuses_denied]. simpl.
  intros next. apply runs_bind, runs_bind_ret.
  - intros [[] []]; try destruct (String.eqb (ch_Note c) ""); eauto.
  - apply runs_next; by destruct (negb (String.eqb (ch_Args c) "")).
Qed.

Lemma doAsk_settled t ctx info w :
  settled (consent t ctx info w) ctx info (doAsk t ctx info) w.
Proof.
  unfold doAsk, consent. destruct (ta_choose t) as [choose|]; [|apply ask_user_settled].
  apply settled_bind. destruct (eff_value (choose ctx info) w) as [c [err|]];
    [apply refuses_denied|].
  destruct (ch_Claimed c); [apply doChoice_settled | apply ask_user_settled].
Qed.

Lemma wrap_classified_settled t ctx info w :
  settled (authorised_classified t ctx info w) ctx info (wrap_classified t ctx info) w.
Proof.
  unfold wrap_classified, authorised_classified. apply settled_bind.
  replace (eff_world (read_gate t info) w) with w by by destruct w.
  destruct (eff_value (read_gate t info) w) as [mode []]; [intros next; by apply runs_next|].
  case_bool_decide as Hd; [apply refuses_denied|]. apply settled_bind. simpl.
  match goal with |- context [eff_value ?g w] => set (grant := g) in * end.
  destruct (eff_value grant w); [intros next; by apply runs_next|]. simpl.
  destruct (ta_rules t !! info_name info) as [[| | |k]|] eqn:Hr; simpl;
    [apply doAsk_settled | intros next; by apply runs_next | congruence
    | destruct (mode_runs mode info); [intros next; by apply runs_next | apply doAsk_settled]
    | destruct (mode_runs mode info); [intros next; by apply runs_next | apply doAsk_settled]].
Qed.

Lemma settled_same ok ctx info info' m w :
  info_name info' = info_name info -> ti_Call info' = ti_Call info ->
  settled ok ctx info' m w -> settled ok ctx info m w.
Proof.
  intros Hn Hc. unfold settled, runs. rewrite Hn, Hc. done.
Qed.

Lemma ti_Call_classified info c : ti_Call (classified info c) = ti_Call info.
Proof. unfold classified. by destruct (cc_Disposition c). Qed.

Lemma wrap_settled t ctx info w :
  settled (authorised t ctx info w) ctx info (WrapToolCall t ctx info) w.
Proof.
  unfold WrapToolCall, authorised. apply settled_bind.
  destruct (eff_value (classify_call t ctx info) w) as [c|]; [|apply wrap_classified_settled].
  assert (Hs : forall ok m w, settled ok ctx (classified info c) m w -> settled ok ctx info m w)
    by (intros; eapply settled_same; eauto using info_name_classified, ti_Call_classified).
  destruct (cc_Disposition c) eqn:Hd; try (apply Hs, wrap_classified_settled);
    [apply refuses_denied|].
  rewrite info_name_classified. case_bool_decide; [apply refuses_denied|].
  apply Hs, doAsk_settled.
Qed.

(** C3: The gate runs exactly the authorised calls.  [authorised] reads the
    classifier, the remembered approvals, the rules, the grant, the mode
    and the user's answer; an authorised call ends by running the rest of
    the chain on the same tool and call ID, and any other call is refused
    with an error, without running anything. *)
Theorem gate_runs_iff_authorised t ctx info w :
  settled (authorised t ctx info w) ctx info (WrapToolCall t ctx info) w.
Proof. apply wrap_settled. Qed.

(** ** What is remembered *)

(** The same gate with the cache switched off. *)
Definition forgetful (t : TieredApproval) : TieredApproval :=
  {| ta_rules := ta_rules t; ta_ask := ta_ask t; ta_choose := ta_choose t;
     ta_remember := false; ta_key := ta_key t; ta_classify := ta_classify t;
     ta_grant := ta_grant t |}.

Lemma store_unkeyed t info w :
  rememberKey t (snd w) info = None -> store_approval t info w = (tt, [], w).
Proof. destruct w as [g w]. unfold store_approval, eff_call. simpl. by intros ->. Qed.

(** [set_args] narrows a call but does not change how it is keyed. *)
Lemma rememberKey_always_ask t w info c :
  ti_Class info = Some c -> cc_Disposition c = DispositionAlwaysAsk ->
  rememberKey t w info = None.
Proof. intros H Hd. unfold rememberKey. rewrite H, bool_decide_eq_true_2 by done. by rewrite orb_true_r. Qed.

Lemma doAsk_always_ask t ctx info c next w :
  ti_Class info = Some c -> cc_Disposition c = DispositionAlwaysAsk ->
  doAsk t ctx info next w = doAsk (forgetful t) ctx info next w.
Proof.
  intros Hc Hd.
  assert (Hst : forall i w, ti_Class i = Some c -> store_approval t i w = (tt, [], w))
    by (intros; eauto using store_unkeyed, rememberKey_always_ask).
  assert (Hask : forall w, ask_user t ctx info next w = ask_user (forgetful t) ctx info next w).
  { intros w1. unfold ask_user. simpl. destruct (ta_ask t); [|done].
    apply eff_bind_ext. intros [[] [err|]] w2; try done. apply eff_bind_ext_l.
    destruct (ta_remember t); [by apply Hst | done]. }
  unfold doAsk. simpl. destruct (ta_choose t); [|done].
  apply eff_bind_ext. intros [ch [err|]] w1; [done|]. destruct (ch_Claimed ch); [|done].
  unfold doChoice. destruct (negb (ch_Approved ch)); [done|]. apply eff_bind_ext_l.
  simpl. rewrite andb_false_r. case_goal; [|done]. apply Hst.
  by destruct (negb (String.eqb (ch_Args ch) "")).
Qed.

(** An always-ask verdict is decided by the user alone, each time: the
    run is the run of the same gate with its cache off, the mode and the
    remembered approvals are not consulted, and without the user's consent
    nothing runs. *)
Theorem always_ask_never_remembered t ctx info w c :
  eff_value (classify_call t ctx info) w = Some c ->
  cc_Disposition c = DispositionAlwaysAsk ->
  (forall next, WrapToolCall t ctx info next w = WrapToolCall (forgetful t) ctx info next w)
  /\ (consent t ctx (classified info c) (eff_world (classify_call t ctx info) w) = false ->
      refuses (WrapToolCall t ctx info) w).
Proof.
  intros Hc Hd. split.
  - intros next. unfold WrapToolCall, eff_bind. unfold classify_call. simpl.
    fold (classify_call t ctx info). unfold eff_value in Hc.
    destruct (classify_call t ctx info w) as [[c' evs] w1]. simpl in Hc. subst c'. rewrite Hd.
    case_bool_decide; [done|].
    by rewrite (doAsk_always_ask t ctx _ c) by (by rewrite ?ti_Class_classified).
  - intros Hno. pose proof (wrap_settled t ctx info w) as H.
    unfold authorised in H. by rewrite Hc, Hd, Hno, andb_false_r in H.
Qed.

(** ** Rules that deny *)

Definition nul_free (s : string) : bool := str_forall (fun c => negb (ceq c 0)) s.

(** No remembered key covers a call to a tool whose rule denies it. *)
Definition keys_safe (t : TieredApproval) (g : GateState) : Prop :=
  forall n, ta_rules t !! n = Some RuleDeny ->
    (n ∉ gs_remembered g) /\ forall k, (n +:+ nul +:+ k) ∉ gs_remembered g.

Definition preserves {A} (P : GateState -> Prop) (m : eff GW E A) : Prop :=
  forall w, P w.1 -> P (eff_world m w).1.

(** The callbacks of the gate keep [P] true of its state: they may use the
    gate themselves, or run while others do. *)
Record callbacks_preserve (P : GateState -> Prop) (t : TieredApproval)
    (next : ToolCallFunc Ctx GW E) : Prop := {
  cp_classify : forall ctx info, preserves P (classify_call t ctx info);
  cp_ask : forall f ctx info, ta_ask t = Some f -> preserves P (f ctx info);
  cp_choose : forall f ctx info, ta_choose t = Some f -> preserves P (f ctx info);
  cp_grant : forall f ctx info, ta_grant t = Some f -> preserves P (f ctx info);
  cp_next : forall ctx info, preserves P (next ctx info);
}.

Lemma preserves_ret {A} P (a : A) : preserves P (eff_ret a).
Proof. by intros w. Qed.

Lemma preserves_bind {A B} P (m : eff GW E A) (k : A -> eff GW E B) :
  preserves P m -> (forall a, preserves P (k a)) -> preserves P (eff_bind m k).
Proof. intros Hm Hk w Hw. rewrite eff_world_bind. apply Hk, Hm, Hw. Qed.

Lemma preserves_read P t info : preserves P (read_gate t info).
Proof. by intros [g w]. Qed.

Lemma nul_split (a b : string) k k' :
  nul_free a = true -> nul_free b = true -> a +:+ nul +:+ k = b +:+ nul +:+ k' -> a = b.
Proof.
  unfold nul_free. revert b. induction a as [|x a IH]; intros [|y b]; simpl; try done.
  - intros _ H [= <- _]. done.
  - intros H _ [= -> _]. done.
  - rewrite !andb_true_iff. intros [_ Ha] [_ Hb] [= -> H]. f_equal. eauto.
Qed.

Lemma nul_free_app (a k : string) : nul_free (a +:+ nul +:+ k) = false.
Proof. unfold nul_free in *. induction a as [|x a IH]; simpl; [done|]. rewrite IH. by rewrite andb_false_r. Qed.

Lemma store_preserves_safe t info :
  ta_key t = None -> nul_free (info_name info) = true ->
  (forall n, ta_rules t !! n = Some RuleDeny -> nul_free n = true) ->
  ta_rules t !! info_name info <> Some RuleDeny ->
  preserves (keys_safe t) (store_approval t info).
Proof.
  intros Hkey Hnf Hdeny Hr [g w] Hs. unfold eff_world, store_approval, eff_call. simpl.
  destruct (rememberKey t w info) as [key|] eqn:Hk; [|done]. simpl. intros n Hn.
  destruct (Hs n Hn) as [H1 H2]. pose proof (Hdeny n Hn) as Hnn.
  assert (Hne : info_name info <> n) by congruence.
  unfold rememberKey in Hk. rewrite Hkey in Hk.
  destruct (ti_Class info) as [c|]; [case_hyp Hk; [discriminate|]|]; injection Hk as <-; simpl;
    (split; [|intros k]);
    rewrite elem_of_union, elem_of_singleton; intros [H|H];
    try (exfalso; eapply H1; exact H); try (exfalso; eapply H2; exact H).
  - by rewrite H, nul_free_app in Hnn.
  - symmetry in H. apply nul_split in H; done.
  - congruence.
  - by rewrite <- H, nul_free_app in Hnf.
Qed.

Section Denied.
Variables (t : TieredApproval) (next : ToolCallFunc Ctx GW E).
Hypothesis default_keys : ta_key t = None.
Hypothesis denied_nul_free : forall n, ta_rules t !! n = Some RuleDeny -> nul_free n = true.
Hypothesis callbacks : callbacks_preserve (keys_safe t) t next.

Lemma doAsk_preserves_safe ctx info :
  nul_free (info_name info) = true -> ta_rules t !! info_name info <> Some RuleDeny ->
  preserves (keys_safe t) (doAsk t ctx info next).
Proof.
  intros Hn Hr. destruct callbacks as [_ Hask Hch _ Hnx].
  assert (Hst : preserves (keys_safe t) (store_approval t info))
    by (apply store_preserves_safe; done).
  assert (Ha : preserves (keys_safe t) (ask_user t ctx info next)).
  { unfold ask_user. destruct (ta_ask t) as [f|] eqn:E1; [|apply preserves_ret].
    apply preserves_bind; [by apply Hask|]. intros [[] [err|]]; try apply preserves_ret.
    apply preserves_bind; [|intros []; apply Hnx].
    destruct (ta_remember t); [done | apply preserves_ret]. }
  unfold doAsk. destruct (ta_choose t) as [f|] eqn:E2; [|done].
  apply preserves_bind; [by apply Hch|]. intros [ch [err|]]; [apply preserves_ret|].
  destruct (ch_Claimed ch); [|done]. unfold doChoice.
  destruct (negb (ch_Approved ch)); [apply preserves_ret|].
  apply preserves_bind; [|intros []; apply preserves_bind; [apply Hnx|]].
  - destruct (negb (String.eqb (ch_Args ch) "")); simpl; [apply preserves_ret|].
    destruct (ta_remember t); [done | apply preserves_ret].
  - intros [[] []]; try destruct (String.eqb (ch_Note ch) ""); apply preserves_ret.
Qed.

Lemma wrap_classified_preserves_safe ctx info :
  nul_free (info_name info) = true ->
  preserves (keys_safe t) (wrap_classified t ctx info next).
Proof.
  intros Hn. destruct callbacks as [_ _ _ Hg Hnx]. unfold wrap_classified.
  apply preserves_bind; [apply preserves_read|]. intros [mode []]; [apply Hnx|].
  case_bool_decide as Hd; [apply preserves_ret|]. apply preserves_bind.
  { destruct (ta_grant t) as [f|] eqn:E1; [by apply Hg | apply preserves_ret]. }
  intros []; [apply Hnx|].
  repeat case_match; try apply Hnx; try apply preserves_ret;
    apply doAsk_preserves_safe; congruence.
Qed.

(** A rule that denies a tool is absolute under the default keys.
    Starting from the empty cache, no sequence of asks, choices, grants
    and calls (of tools whose names contain no NUL byte) makes the cache
    cover a denied tool: every call keeps the cache safe, and with a safe
    cache a call to the denied tool is refused and runs nothing. *)
Theorem rule_deny_absolute ctx info :
  nul_free (info_name info) = true ->
  preserves (keys_safe t) (WrapToolCall t ctx info next)
  /\ (forall w, keys_safe t w.1 -> ta_rules t !! info_name info = Some RuleDeny ->
      refuses (WrapToolCall t ctx info) w).
Proof.
  intros Hn. split.
  - unfold WrapToolCall. apply preserves_bind; [apply (cp_classify _ _ _ callbacks)|].
    intros [c|]; [|by apply wrap_classified_preserves_safe].
    destruct (cc_Disposition c);
      try (apply wrap_classified_preserves_safe; by rewrite info_name_classified);
      [apply preserves_ret|].
    case_bool_decide as Hd; [apply preserves_ret|].
    apply doAsk_preserves_safe; [by rewrite info_name_classified | done].
  - intros w Hs Hr. pose proof (wrap_settled t ctx info w) as H.
    replace (authorised t ctx info w) with false in H; [done|]. symmetry.
    pose proof (cp_classify _ _ _ callbacks ctx info w Hs) as Hs1.
    assert (Hcl : forall i, info_name i = info_name info ->
      authorised_classified t ctx i (eff_world (classify_call t ctx info) w) = false).
    { intros i Hi. unfold authorised_classified. rewrite Hi.
      destruct (eff_world (classify_call t ctx info) w) as [g w1]. simpl in Hs1.
      rewrite bool_decide_eq_true_2 by done. simpl. rewrite orb_false_r.
      destruct (Hs1 _ Hr) as [H1 H2]. rewrite <- Hi in H1, H2.
      unfold rememberKey. rewrite default_keys.
      destruct (ta_remember t); simpl; [|done].
      destruct (ti_Class i) as [c|]; [destruct (_ || _); [done|]|];
        by apply bool_decide_eq_false_2. }
    unfold authorised. destruct (eff_value (classify_call t ctx info) w) as [c|]; [|by apply Hcl].
    destruct (cc_Disposition c); try done; try (apply Hcl, info_name_classified).
    by rewrite bool_decide_eq_true_2.
Qed.
End Denied.
End Gate.
Arguments TieredApproval : clear implicits.

(** A fresh gate has remembered nothing, so its cache is safe. *)
Lemma new_gate_safe {Ctx W E} (opts : list (@TieredOption Ctx W E)) :
  keys_safe (NewTieredApproval opts).1 (NewTieredApproval opts).2.
Proof.
  unfold NewTieredApproval. destruct (fold_left _ _ _) as [t m]. intros n _. simpl. set_solver.
Qed.

(** ** A gate to run the theorems on *)

(** Asks say yes; the classifier forbids [sudo] and always asks for [deploy];
    a rule denies [rm]; approvals are remembered and the mode allows
    everything. *)
Definition demo_classify : @ClassifyFunc unit nat unit := fun _ info =>
  eff_ret (if String.eqb (info_name info) "sudo"
           then Some {| cc_Disposition := DispositionForbidden; cc_Key := ""; cc_Reason := "root" |}
           else if String.eqb (info_name info) "deploy"
           then Some {| cc_Disposition := DispositionAlwaysAsk; cc_Key := "d"; cc_Reason := "" |}
           else None).

Definition demo_ask (yes : bool) : @AskFunc unit nat unit :=
  fun _ _ '(g, w) => ((yes, None), [], (g, S w)).

Definition demo_options (yes : bool) : list (@TieredOption unit nat unit) :=
  [WithDefaultMode ModeAlwaysAllow; WithToolRule "rm" RuleDeny; WithAsk (Some (demo_ask yes));
   WithClassifier (Some demo_classify); WithRememberApprovals true].

Definition demo_gate (yes : bool) : TieredApproval unit nat unit :=
  (NewTieredApproval (demo_options yes)).1.

Definition demo_next : ToolCallFunc unit (GateState * nat) unit :=
  fun _ _ '(g, w) => ((None, None), [tt], (g, w + 10)).

Definition demo_world : GateState * nat := ((NewTieredApproval (demo_options true)).2, 0).

Lemma forbidden_tool_blocked_witness :
  blocks (fun info => info_name info = "sudo") (WrapToolCall (demo_gate true))
  /\ WrapToolCall (demo_gate true) tt (plain_info "sudo") demo_next demo_world
     = ((None, Some (DenyTool "forbidden by policy: root")), [], demo_world).
Proof.
  split; [|vm_compute; reflexivity].
  apply (forbidden_tool_blocked (demo_gate true) "sudo"). intros [] info w Hn.
  unfold classify_call, demo_gate. simpl. unfold demo_classify, eff_value. simpl. rewrite Hn.
  eexists. split; reflexivity.
Defined.

Lemma always_ask_never_remembered_witness :
  refuses (WrapToolCall (demo_gate false) tt (plain_info "deploy")) demo_world
  /\ WrapToolCall (demo_gate true) tt (plain_info "deploy") demo_next demo_world
     = WrapToolCall (forgetful (demo_gate true)) tt (plain_info "deploy") demo_next demo_world.
Proof.
  split.
  - apply (proj2 (always_ask_never_remembered (demo_gate false) tt (plain_info "deploy") demo_world
      _ eq_refl eq_refl)). reflexivity.
  - apply (proj1 (always_ask_never_remembered (demo_gate true) tt (plain_info "deploy") demo_world
      _ eq_refl eq_refl)).
Defined.

Lemma rule_deny_absolute_witness :
  refuses (WrapToolCall (demo_gate true) tt (plain_info "rm")) demo_world
  /\ WrapToolCall (demo_gate true) tt (plain_info "ls") demo_next demo_world
     = ((None, None), [tt], (demo_world.1, 10)).
Proof.
  split; [|vm_compute; reflexivity].
  eapply (proj2 (rule_deny_absolute (demo_gate true) demo_next eq_refl _ _ tt (plain_info "rm")
    eq_refl) demo_world); [|reflexivity].
  apply (new_gate_safe (demo_options true)).
  Unshelve.
  - intros n. unfold demo_gate. simpl. rewrite lookup_insert_Some, lookup_empty.
    intros [[<- _]|[_ H]]; [reflexivity | discriminate].
  - split.
    + intros [] info w Hw. exact Hw.
    + intros f [] info [= <-] [g w] Hw. exact Hw.
    + intros f [] info [=].
    + intros f [] info [=].
    + intros [] info [g w] Hw. exact Hw.
Defined.
