(* ===== verification/ThinkParser.v ===== *)
(** * Inline reasoning: src/thinking_stream.go

    A model that writes its reasoning between tags in its text gets the
    reasoning re-labelled as it streams.  A tag may be split across deltas,
    so the parser holds back a suffix that could still begin one.  The file
    models the parser, the stream that wraps another stream, and the
    non-streaming path, and relates all three to one reference scanner over
    the whole text. *)

From S2P Require Import Prelude GoStr Errors Json Provider.

(** ** The parser *)

Record thinkParser := {
  tp_open : string;
  tp_close : string;
  tp_inThink : bool;
  tp_buf : string;
}.

Definition newThinkParser (open close : string) : thinkParser :=
  {| tp_open := open; tp_close := close; tp_inThink := String.eqb open ""; tp_buf := "" |}.

Definition tp_set (p : thinkParser) (m : bool) (buf : string) : thinkParser :=
  {| tp_open := tp_open p; tp_close := tp_close p; tp_inThink := m; tp_buf := buf |}.

(** The tag looked for in mode [m]. *)
Definition tag_of (open close : string) (m : bool) : string := if m then close else open.

Definition tp_emit (m : bool) (text : string) : Delta :=
  text_delta (if m then DeltaReasoning else DeltaText) text.

Definition appendNonEmpty (out : list Delta) (d : Delta) : list Delta :=
  if String.eqb (d_Text d) "" then out else out ++ [d].

(** The loop of [prefixOverlap], [k] counting down. *)
Fixpoint overlap_from (k : nat) (s tag : string) : nat :=
  match k with
  | O => 0
  | S k' =>
      if has_prefix (str_drop (String.length s - k) s) tag then k else overlap_from k' s tag
  end.

Definition prefixOverlap (s tag : string) : nat :=
  overlap_from (Nat.min (String.length tag - 1) (String.length s)) s tag.

(** The loop of [feed]: every round but the last removes a tag from the
    buffer, so its length bounds the rounds. *)
Fixpoint feed_loop (fuel : nat) (open close : string) (m : bool) (buf : string)
    (out : list Delta) : list Delta * (bool * string) :=
  match fuel with
  | O => (out, (m, buf))
  | S fuel =>
      let tag := tag_of open close m in
      if String.eqb tag "" then (appendNonEmpty out (tp_emit m buf), (m, ""))
      else match str_index tag buf with
           | Some idx =>
               feed_loop fuel open close (negb m) (str_drop (idx + String.length tag) buf)
                 (appendNonEmpty out (tp_emit m (str_take idx buf)))
           | None =>
               let keep := prefixOverlap buf tag in
               let cut := String.length buf - keep in
               (appendNonEmpty out (tp_emit m (str_take cut buf)), (m, str_drop cut buf))
           end
  end.

Definition feed (p : thinkParser) (s : string) : list Delta * thinkParser :=
  let buf := tp_buf p +:+ s in
  let '(out, (m, buf')) :=
    feed_loop (S (String.length buf)) (tp_open p) (tp_close p) (tp_inThink p) buf [] in
  (out, tp_set p m buf').

Definition flush (p : thinkParser) : list Delta * thinkParser :=
  if String.eqb (tp_buf p) "" then ([], p)
  else ([tp_emit (tp_inThink p) (tp_buf p)], tp_set p (tp_inThink p) "").

(** ** The wrapping stream *)

(** What an inner stream has still to say; the end of the list is [io.EOF]. *)
Abbreviation inner_stream := (list (error + Delta)).

Record thinkingStream := {
  ts_inner : inner_stream;
  ts_p : thinkParser;
  ts_queue : list Delta;
  ts_done : bool;
}.

Inductive recv_out := RDelta (d : Delta) | REOF | RErr (e : error).

(** The loop of [Recv]: each round takes one item of the inner stream, and
    after its end the queue holds at most what the parser flushed. *)
Fixpoint recv_loop (inner : inner_stream) (p : thinkParser) (queue : list Delta) (done : bool)
  : recv_out * thinkingStream :=
  match queue with
  | d :: q => (RDelta d, {| ts_inner := inner; ts_p := p; ts_queue := q; ts_done := done |})
  | [] =>
      if done then (REOF, {| ts_inner := inner; ts_p := p; ts_queue := []; ts_done := true |})
      else match inner with
           | [] =>
               let '(ds, p') := flush p in
               match ds with
               | d :: q => (RDelta d, {| ts_inner := []; ts_p := p'; ts_queue := q; ts_done := true |})
               | [] => (REOF, {| ts_inner := []; ts_p := p'; ts_queue := []; ts_done := true |})
               end
           | inl e :: inner' =>
               (RErr e, {| ts_inner := inner'; ts_p := p; ts_queue := []; ts_done := false |})
           | inr d :: inner' =>
               if bool_decide (d_Kind d = DeltaText)
               then let '(ds, p') := feed p (d_Text d) in recv_loop inner' p' ds false
               else let '(ds, p') := flush p in recv_loop inner' p' (ds ++ [d]) false
           end
  end.

Definition think_Recv (s : thinkingStream) : recv_out * thinkingStream :=
  recv_loop (ts_inner s) (ts_p s) (ts_queue s) (ts_done s).

(** [Stream] of the wrapping provider on an inner stream. *)
Definition think_stream (open close : string) (inner : inner_stream) : thinkingStream :=
  {| ts_inner := inner; ts_p := newThinkParser open close; ts_queue := []; ts_done := false |}.

(** The two string builders of [Generate]. *)
Definition split_reasoning (ds : list Delta) : string * string :=
  fold_left (fun '(text, reason) d =>
      if bool_decide (d_Kind d = DeltaReasoning) then (text, reason +:+ d_Text d)
      else (text +:+ d_Text d, reason)) ds ("", "").

(** [Generate] of the wrapping provider on the inner response. *)
Definition think_generate (open close : string) (resp : ProviderResponse) : ProviderResponse :=
  let '(ds1, p) := feed (newThinkParser open close) (r_Text resp) in
  let '(ds2, _) := flush p in
  let '(text, reason) := split_reasoning (ds1 ++ ds2) in
  {| r_Text := text;
     r_Reasoning := if String.eqb reason "" then r_Reasoning resp
                    else if String.eqb (r_Reasoning resp) "" then reason
                    else r_Reasoning resp +:+ reason;
     r_ToolCalls := r_ToolCalls resp;
     r_FinishReason := r_FinishReason resp;
     r_Usage := r_Usage resp |}.

(** ** The reference scanner

    One pass over the whole text, a character at a time: inside a tag
    ([skip]), at a tag, at a suffix that is the start of a tag, or at content
    of the current mode. *)
Fixpoint think_scan (open close : string) (m : bool) (skip : nat) (s : string)
  : list (bool * Ascii.ascii) * (bool * string) :=
  match s with
  | EmptyString => ([], (m, ""))
  | String c s' =>
      match skip with
      | S k => think_scan open close m k s'
      | O =>
          let tag := tag_of open close m in
          let content :=
            let '(o, r) := think_scan open close m 0 s' in ((m, c) :: o, r) in
          if String.eqb tag "" then content
          else if has_prefix tag s
          then think_scan open close (negb m) (String.length tag - 1) s'
          else if has_prefix s tag then ([], (m, s))
          else content
      end
  end.

Fixpoint label (m : bool) (s : string) : list (bool * Ascii.ascii) :=
  match s with EmptyString => [] | String c s => (m, c) :: label m s end.

(** What a text means: its characters with the mode of each, the tags gone,
    and an unfinished tag at the end taken literally. *)
Definition think_meaning (open close s : string) : list (bool * Ascii.ascii) :=
  let '(o, (m, held)) := think_scan open close (String.eqb open "") 0 s in o ++ label m held.

(** The characters deltas carry, with the mode of each. *)
Definition labelled (ds : list Delta) : list (bool * Ascii.ascii) :=
  flat_map (fun d => label (bool_decide (d_Kind d = DeltaReasoning)) (d_Text d)) ds.

(** ** The parser computes the scanner *)

Lemma label_app m s t : label m (s +:+ t) = label m s ++ label m t.
Proof. induction s as [|c s IH]; [done|]. rewrite app_cons. simpl. by rewrite IH. Qed.

Lemma labelled_app ds es : labelled (ds ++ es) = labelled ds ++ labelled es.
Proof. apply flat_map_app. Qed.

Lemma labelled_emit m t : labelled [tp_emit m t] = label m t.
Proof. unfold labelled. simpl. rewrite app_nil_r. by destruct m. Qed.

Lemma labelled_append out m t : labelled (appendNonEmpty out (tp_emit m t)) = labelled out ++ label m t.
Proof.
  unfold appendNonEmpty. destruct (String.eqb_spec (d_Text (tp_emit m t)) "") as [E|E].
  - simpl in E. subst. by rewrite app_nil_r.
  - by rewrite labelled_app, labelled_emit.
Qed.

Section Scan.
Variables open close : string.
Abbreviation scan := (think_scan open close).
Abbreviation tag m := (tag_of open close m).

Lemma scan_skip m k s : scan m k s = scan m 0 (str_drop k s).
Proof. revert s. induction k as [|k IH]; intros [|c s]; try done. simpl. apply IH. Qed.

Lemma scan_plain m s : tag m = "" -> scan m 0 s = (label m s, (m, "")).
Proof. intros H. induction s as [|c s IH]; simpl; [done|]. by rewrite H, IH. Qed.

Lemma scan_found m s i :
  tag m <> "" -> str_index (tag m) s = Some i ->
  scan m 0 s = (let '(o, r) := scan (negb m) 0 (str_drop (i + String.length (tag m)) s) in
                (label m (str_take i s) ++ o, r)).
Proof.
  intros Hne. revert i. induction s as [|c s IH]; intros i.
  { simpl. destruct (tag m); done. }
  cbn [str_index]. intros Hi. cbn [think_scan].
  destruct (String.eqb_spec (tag m) ""); [done|].
  destruct (has_prefix (tag m) (String c s)) eqn:Hp.
  - injection Hi as <-. rewrite scan_skip. simpl.
    destruct (tag m) as [|d t'] eqn:Et; [done|]. simpl. rewrite Nat.sub_0_r.
    by destruct (scan (negb m) 0 (str_drop (String.length t') s)).
  - destruct (str_index (tag m) s) as [j|] eqn:Ej; [|discriminate]. simpl in Hi.
    injection Hi as <-. destruct (str_index_split _ _ _ Ej) as [_ Hlen].
    destruct (has_prefix (String c s) (tag m)) eqn:Hq.
    { apply has_prefix_length in Hq. simpl in Hq. lia. }
    rewrite (IH j eq_refl). simpl. by destruct (scan (negb m) 0 _).
Qed.

Lemma overlap_from_cons k c s t :
  k <= String.length s -> overlap_from k (String c s) t = overlap_from k s t.
Proof.
  induction k as [|k IH]; intros Hk; [done|]. cbn [overlap_from].
  replace (String.length (String c s) - S k) with (S (String.length s - S k)) by (simpl; lia).
  simpl. by rewrite IH by lia.
Qed.

Lemma prefixOverlap_whole c s t :
  has_prefix (String c s) t = true -> has_prefix t (String c s) = false ->
  prefixOverlap (String c s) t = S (String.length s).
Proof.
  intros Hp Hnp. pose proof (has_prefix_length _ _ Hp) as Hl. unfold prefixOverlap.
  assert (String.length (String c s) <> String.length t).
  { intros He. apply has_prefix_spec in Hp as [u Hu]. rewrite Hu, length_app_str in He.
    destruct u; [|simpl in He; lia]. rewrite app_empty_r in Hu. subst t.
    pose proof (has_prefix_app (String c s) "") as H. rewrite app_empty_r in H. congruence. }
  replace (Nat.min _ _) with (S (String.length s)) by (simpl in *; lia).
  cbn [overlap_from]. replace (_ - _) with 0 by (simpl; lia). simpl str_drop. by rewrite Hp.
Qed.

Lemma prefixOverlap_step c s t :
  has_prefix (String c s) t = false -> prefixOverlap (String c s) t = prefixOverlap s t.
Proof.
  intros Hp. unfold prefixOverlap.
  destruct (decide (String.length t - 1 <= String.length s)).
  - replace (Nat.min (String.length t - 1) (String.length (String c s)))
      with (String.length t - 1) by (simpl; lia).
    rewrite Nat.min_l by lia. by apply overlap_from_cons.
  - replace (Nat.min (String.length t - 1) (String.length (String c s)))
      with (S (String.length s)) by (simpl; lia).
    rewrite Nat.min_r by lia. cbn [overlap_from]. replace (_ - _) with 0 by (simpl; lia).
    simpl str_drop. rewrite Hp. by apply overlap_from_cons.
Qed.

Lemma prefixOverlap_le s t : prefixOverlap s t <= String.length s.
Proof.
  unfold prefixOverlap. assert (H : forall k, overlap_from k s t <= k)
    by (induction k; simpl; [lia|]; case_match; lia).
  pose proof (H (Nat.min (String.length t - 1) (String.length s))). lia.
Qed.

Lemma scan_none m s :
  tag m <> "" -> str_index (tag m) s = None ->
  let cut := String.length s - prefixOverlap s (tag m) in
  scan m 0 s = (label m (str_take cut s), (m, str_drop cut s)).
Proof.
  intros Hne. induction s as [|c s IH].
  { intros _. unfold prefixOverlap. rewrite Nat.min_0_r. done. }
  cbn [str_index]. intros Hi. cbn [think_scan].
  destruct (String.eqb_spec (tag m) ""); [done|].
  destruct (has_prefix (tag m) (String c s)) eqn:Hp; [discriminate|].
  destruct (str_index (tag m) s) as [j|]; [discriminate|]. specialize (IH eq_refl).
  destruct (has_prefix (String c s) (tag m)) eqn:Hq.
  - rewrite prefixOverlap_whole by done. simpl. by rewrite Nat.sub_diag.
  - rewrite prefixOverlap_step by done. pose proof (prefixOverlap_le s (tag m)).
    replace (String.length (String c s) - prefixOverlap s (tag m))
      with (S (String.length s - prefixOverlap s (tag m))) by (simpl; lia).
    simpl in IH. rewrite IH. done.
Qed.

Lemma feed_loop_scan fuel m buf out :
  String.length buf < fuel ->
  let '(ds, r) := feed_loop fuel open close m buf out in
  (labelled ds, r) = (let '(o, r) := scan m 0 buf in (labelled out ++ o, r)).
Proof.
  revert m buf out. induction fuel as [|fuel IH]; intros m buf out Hf; [lia|].
  cbn [feed_loop]. destruct (String.eqb_spec (tag m) "") as [E|E].
  { by rewrite scan_plain, labelled_append. }
  destruct (str_index (tag m) buf) as [i|] eqn:Ei.
  - destruct (str_index_split _ _ _ Ei) as [_ Hlen].
    rewrite (scan_found _ _ _ E Ei).
    specialize (IH (negb m) (str_drop (i + String.length (tag m)) buf)
      (appendNonEmpty out (tp_emit m (str_take i buf)))).
    rewrite length_drop_str in IH.
    assert (0 < String.length (tag m)) by (destruct (tag m); [done | simpl; lia]).
    specialize (IH ltac:(lia)). destruct (feed_loop _ _ _ _ _ _) as [ds r]. rewrite IH.
    destruct (scan (negb m) 0 _) as [o r']. by rewrite labelled_append, app_assoc.
  - rewrite (scan_none _ _ E Ei). by rewrite labelled_append.
Qed.

(** Scanning a prefix, then the held suffix with the rest, is scanning the
    whole. *)
Lemma scan_app m k x y :
  k <= String.length x ->
  scan m k (x +:+ y)
  = (let '(o1, (m1, b1)) := scan m k x in
     let '(o2, r) := scan m1 0 (b1 +:+ y) in (o1 ++ o2, r)).
Proof.
  revert m k. induction x as [|c x IH]; intros m k Hk.
  { simpl in Hk. assert (k = 0) as -> by lia. cbn [think_scan].
    rewrite !app_empty_l. by destruct (think_scan open close m 0 y). }
  rewrite app_cons. destruct k as [|k]; [|simpl; apply IH; simpl in Hk; lia].
  cbn [think_scan].
  assert (Hc : (let '(o, r) := scan m 0 (x +:+ y) in ((m, c) :: o, r))
    = (let '(o1, (m1, b1)) := (let '(o, r) := scan m 0 x in ((m, c) :: o, r)) in
       let '(o2, r) := scan m1 0 (b1 +:+ y) in (o1 ++ o2, r))).
  { rewrite IH by lia. destruct (scan m 0 x) as [o1 [m1 b1]].
    by destruct (scan m1 0 (b1 +:+ y)). }
  destruct (String.eqb_spec (tag m) ""); [done|].
  destruct (has_prefix (tag m) (String c x)) eqn:Hp.
  - pose proof (has_prefix_length _ _ Hp) as Hl. apply has_prefix_spec in Hp as [u Hu].
    rewrite <- app_cons, Hu, app_assoc_str, has_prefix_app. apply IH.
    simpl in Hl. lia.
  - destruct (has_prefix (String c x) (tag m)) eqn:Hq.
    + rewrite app_cons. cbn [think_scan]. rewrite (proj2 (String.eqb_neq _ _)) by done.
      match goal with |- ?l = _ => by destruct l end.
    + assert (has_prefix (tag m) (String c (x +:+ y)) = false) as ->.
      { apply not_true_is_false. intros [u Hu]%has_prefix_spec. rewrite <- app_cons in Hu.
        destruct (decide (String.length (tag m) <= String.length (String c x))) as [Hl|Hl].
        - apply (f_equal (str_take (String.length (tag m)))) in Hu.
          rewrite take_app_le_str, take_app_str in Hu by done.
          assert (has_prefix (tag m) (String c x) = true); [|congruence].
          apply has_prefix_spec. exists (str_drop (String.length (tag m)) (String c x)).
          rewrite <- Hu at 1. by rewrite take_drop_str.
        - apply (f_equal (str_take (String.length (String c x)))) in Hu.
          rewrite take_app_str, take_app_le_str in Hu by lia.
          assert (has_prefix (String c x) (tag m) = true); [|congruence].
          apply has_prefix_spec. exists (str_drop (String.length (String c x)) (tag m)).
          rewrite Hu at 1. by rewrite take_drop_str. }
      assert (has_prefix (String c (x +:+ y)) (tag m) = false) as ->; [|done].
      apply not_true_is_false. intros [u Hu]%has_prefix_spec.
      assert (has_prefix (String c x) (tag m) = true); [|congruence].
      apply has_prefix_spec. exists (y +:+ u). by rewrite Hu, <- app_cons, app_assoc_str.
Qed.
End Scan.

(** ** Feeding a text in pieces *)

Fixpoint feed_all (p : thinkParser) (cs : list string) : list Delta * thinkParser :=
  match cs with
  | [] => ([], p)
  | c :: cs =>
      let '(ds1, p1) := feed p c in
      let '(ds2, p2) := feed_all p1 cs in (ds1 ++ ds2, p2)
  end.

(** What the parser holds back is what the scanner would. *)
Definition held (p : thinkParser) : Prop :=
  think_scan (tp_open p) (tp_close p) (tp_inThink p) 0 (tp_buf p)
  = ([], (tp_inThink p, tp_buf p)).

Lemma scan_held open close m s :
  let '(_, (m', b)) := think_scan open close m 0 s in
  think_scan open close m' 0 b = ([], (m', b)).
Proof.
  pose proof (scan_app open close m 0 s "" ltac:(lia)) as H. rewrite app_empty_r in H.
  destruct (think_scan open close m 0 s) as [o [m' b]]. rewrite app_empty_r in H.
  destruct (think_scan open close m' 0 b) as [o2 r]. injection H as H1 H2. subst r.
  apply (f_equal length) in H1. rewrite length_app in H1. destruct o2; [done | simpl in H1; lia].
Qed.

Lemma feed_scan p s :
  held p ->
  let '(ds, p') := feed p s in
  think_scan (tp_open p) (tp_close p) (tp_inThink p) 0 (tp_buf p +:+ s)
    = (labelled ds, (tp_inThink p', tp_buf p'))
  /\ tp_open p' = tp_open p /\ tp_close p' = tp_close p /\ held p'.
Proof.
  intros _. unfold feed. set (buf := tp_buf p +:+ s).
  pose proof (feed_loop_scan (tp_open p) (tp_close p) (S (String.length buf)) (tp_inThink p) buf []
    ltac:(lia)) as H.
  pose proof (scan_held (tp_open p) (tp_close p) (tp_inThink p) buf) as Hh.
  destruct (feed_loop _ _ _ _ _ _) as [ds [m b]].
  destruct (think_scan _ _ _ 0 buf) as [o [m' b']]. simpl in H. injection H as -> <- <-.
  repeat split. exact Hh.
Qed.

Lemma feed_all_scan p cs :
  held p ->
  let '(ds, p') := feed_all p cs in
  think_scan (tp_open p) (tp_close p) (tp_inThink p) 0 (tp_buf p +:+ str_concat cs)
    = (labelled ds, (tp_inThink p', tp_buf p'))
  /\ tp_open p' = tp_open p /\ tp_close p' = tp_close p.
Proof.
  revert p. induction cs as [|c cs IH]; intros p Hp; cbn [feed_all].
  { change (str_concat []) with "". rewrite app_empty_r. by rewrite Hp. }
  pose proof (feed_scan p c Hp) as H. destruct (feed p c) as [ds1 p1].
  destruct H as (H1 & Ho & Hc & Hh). specialize (IH p1 Hh).
  destruct (feed_all p1 cs) as [ds2 p2]. destruct IH as (H2 & Ho2 & Hc2).
  change (str_concat (c :: cs)) with (c +:+ str_concat cs).
  rewrite <- app_assoc_str, scan_app by lia. rewrite H1, <- Ho, <- Hc, H2, labelled_app.
  repeat split; congruence.
Qed.

Lemma new_held open close : held (newThinkParser open close).
Proof. done. Qed.

Lemma labelled_flush p : labelled (flush p).1 = label (tp_inThink p) (tp_buf p).
Proof.
  unfold flush. destruct (String.eqb_spec (tp_buf p) "") as [->|]; [done|].
  apply labelled_emit.
Qed.

Lemma think_pieces open close cs :
  labelled ((feed_all (newThinkParser open close) cs).1
            ++ (flush (feed_all (newThinkParser open close) cs).2).1)
  = think_meaning open close (str_concat cs).
Proof.
  pose proof (feed_all_scan (newThinkParser open close) cs (new_held _ _)) as H.
  destruct (feed_all _ cs) as [ds p']. destruct H as [H _]. simpl in H |- *.
  rewrite app_empty_l in H. unfold think_meaning. rewrite H.
  by rewrite labelled_app, labelled_flush.
Qed.

(** Chunk invariance.  However a provider splits the text of a run into
    deltas, the parser's output, flushed at the end, carries the characters of
    the reference scanner on the whole text, in order and with the same
    reasoning/answer labels: a tag split across deltas is matched whole, and
    no content is lost or duplicated. *)
Theorem think_chunk_invariant open close cs cs' :
  str_concat cs = str_concat cs' ->
  let out l := (feed_all (newThinkParser open close) l).1
               ++ (flush (feed_all (newThinkParser open close) l).2).1 in
  labelled (out cs) = think_meaning open close (str_concat cs)
  /\ labelled (out cs) = labelled (out cs').
Proof. intros H. simpl. rewrite !think_pieces. by rewrite H. Qed.

Lemma think_chunk_invariant_witness :
  str_concat ["a<thi"; "nk>b</"; "think>c"] = str_concat ["a<think>b</think>c"]
  /\ labelled ((feed_all (newThinkParser "<think>" "</think>") ["a<thi"; "nk>b</"; "think>c"]).1
     ++ (flush (feed_all (newThinkParser "<think>" "</think>") ["a<thi"; "nk>b</"; "think>c"]).2).1)
     = think_meaning "<think>" "</think>" "a<think>b</think>c".
Proof.
  split; [reflexivity|].
  exact (proj1 (think_chunk_invariant "<think>" "</think>" ["a<thi"; "nk>b</"; "think>c"]
    ["a<think>b</think>c"] eq_refl)).
Defined.

(** ** The stream *)

(** Everything an inner stream leads to: the deltas in order, then the error
    that ends it, if one does. *)
Fixpoint stream_out (p : thinkParser) (inner : inner_stream) : list Delta * option error :=
  match inner with
  | [] => ((flush p).1, None)
  | inl e :: _ => ([], Some e)
  | inr d :: inner =>
      if bool_decide (d_Kind d = DeltaText) then
        let '(ds, p') := feed p (d_Text d) in
        let '(out, e) := stream_out p' inner in (ds ++ out, e)
      else
        let '(ds, p') := flush p in
        let '(out, e) := stream_out p' inner in (ds ++ d :: out, e)
  end.

Definition pending (s : thinkingStream) : list Delta * option error :=
  if ts_done s then (ts_queue s, None)
  else let '(out, e) := stream_out (ts_p s) (ts_inner s) in (ts_queue s ++ out, e).

(** [Recv] hands out the transformed stream one delta at a time: it
    returns the first pending delta and leaves the rest pending, reports the
    inner stream's error only after everything before it was handed out, and
    otherwise ends with EOF.  Its loop always ends. *)
Theorem think_recv_refines s :
  match pending s with
  | (d :: ds, e) => exists s', think_Recv s = (RDelta d, s') /\ pending s' = (ds, e)
  | ([], Some e) => exists s', think_Recv s = (RErr e, s')
  | ([], None) => exists s', think_Recv s = (REOF, s') /\ pending s' = ([], None)
  end.
Proof.
  destruct s as [inner p queue done]. unfold pending, think_Recv. simpl.
  revert p queue done. induction inner as [|[e|d] inner IH]; intros p queue done.
  - destruct queue as [|d q], done; simpl; eauto. unfold flush.
    destruct (String.eqb_spec (tp_buf p) ""); simpl; eauto.
  - destruct queue as [|d q], done; simpl; eauto.
  - destruct queue as [|d' q], done; simpl; eauto.
    + case_bool_decide as Hk.
      * destruct (feed p (d_Text d)) as [ds p'] eqn:Ef. specialize (IH p' ds false). simpl in IH.
        by destruct (stream_out p' inner) as [out e].
      * destruct (flush p) as [ds p'] eqn:Ef. specialize (IH p' (ds ++ [d]) false). simpl in IH.
        destruct (stream_out p' inner) as [out e]. by rewrite <- app_assoc in IH.
    + case_bool_decide as Hk.
      * destruct (feed p (d_Text d)) as [ds p'] eqn:Ef. destruct (stream_out p' inner) as [out e] eqn:Eo.
        simpl. eexists. split; [done|]. simpl. rewrite bool_decide_eq_true_2 by done. by rewrite Ef, Eo.
      * destruct (flush p) as [ds p'] eqn:Ef. destruct (stream_out p' inner) as [out e] eqn:Eo.
        simpl. eexists. split; [done|]. simpl. rewrite bool_decide_eq_false_2 by done. by rewrite Ef, Eo.
Qed.

(** ** Streaming and not streaming agree *)

(** The characters of one mode, as a string. *)
Fixpoint content (b : bool) (l : list (bool * Ascii.ascii)) : string :=
  match l with
  | [] => ""
  | (m, c) :: l => if Bool.eqb m b then String c (content b l) else content b l
  end.

Lemma content_app b l l' : content b (l ++ l') = content b l +:+ content b l'.
Proof.
  induction l as [|[m c] l IH]; simpl; [done|]. rewrite IH. by destruct (Bool.eqb m b).
Qed.

Lemma content_label b m s : content b (label m s) = if Bool.eqb m b then s else "".
Proof.
  induction s as [|c s IH]; simpl; [by destruct (Bool.eqb m b)|]. rewrite IH.
  by destruct (Bool.eqb m b).
Qed.

Definition spoken (d : Delta) : Prop := d_Kind d = DeltaText \/ d_Kind d = DeltaReasoning.

Lemma spoken_append out m t : Forall spoken out -> Forall spoken (appendNonEmpty out (tp_emit m t)).
Proof.
  intros H. unfold appendNonEmpty. case_match; [done|]. apply Forall_app. split; [done|].
  constructor; [|done]. destruct m; [by right | by left].
Qed.

Lemma feed_loop_spoken fuel open close m buf out :
  Forall spoken out -> Forall spoken (feed_loop fuel open close m buf out).1.
Proof.
  revert m buf out. induction fuel as [|fuel IH]; intros m buf out H; simpl; [done|].
  repeat case_match; simpl; auto using spoken_append.
Qed.

Lemma feed_spoken p s : Forall spoken (feed p s).1.
Proof.
  unfold feed. pose proof (feed_loop_spoken (S (String.length (tp_buf p +:+ s))) (tp_open p)
    (tp_close p) (tp_inThink p) (tp_buf p +:+ s) [] (Forall_nil_2 _)) as H.
  by destruct (feed_loop _ _ _ _ _ _) as [ds [m b]].
Qed.

Lemma flush_spoken p : Forall spoken (flush p).1.
Proof.
  unfold flush. case_match; simpl; [constructor|]. constructor; [|done].
  destruct (tp_inThink p); [by right | by left].
Qed.

Lemma feed_all_spoken p cs : Forall spoken (feed_all p cs).1.
Proof.
  revert p. induction cs as [|c cs IH]; intros p; cbn [feed_all]; [constructor|].
  pose proof (feed_spoken p c) as H. destruct (feed p c) as [ds1 p1]. specialize (IH p1).
  destruct (feed_all p1 cs). by apply Forall_app.
Qed.

Lemma texts_of_content ds :
  Forall spoken ds ->
  texts_of DeltaText ds = content false (labelled ds)
  /\ texts_of DeltaReasoning ds = content true (labelled ds).
Proof.
  induction 1 as [|d ds Hd _ [IH1 IH2]]; [done|]. rewrite !texts_of_cons, IH1, IH2.
  change (labelled (d :: ds)) with (label (bool_decide (d_Kind d = DeltaReasoning)) (d_Text d) ++ labelled ds).
  rewrite !content_app, !content_label.
  destruct Hd as [->| ->]; simpl; split; by rewrite ?app_empty_l.
Qed.

Lemma split_reasoning_content ds :
  split_reasoning ds = (content false (labelled ds), content true (labelled ds)).
Proof.
  unfold split_reasoning.
  enough (H : forall t r, fold_left (fun '(text, reason) d =>
      if bool_decide (d_Kind d = DeltaReasoning) then (text, reason +:+ d_Text d)
      else (text +:+ d_Text d, reason)) ds (t, r)
    = (t +:+ content false (labelled ds), r +:+ content true (labelled ds))) by apply H.
  induction ds as [|d ds IH]; intros t r; [simpl; by rewrite !app_empty_r|].
  cbn [fold_left]. change (labelled (d :: ds))
    with (label (bool_decide (d_Kind d = DeltaReasoning)) (d_Text d) ++ labelled ds).
  rewrite !content_app, !content_label.
  case_bool_decide; rewrite IH; simpl; by rewrite ?app_empty_l, ?app_assoc_str.
Qed.

Definition text_stream (cs : list string) : inner_stream := (fun c => inr (text_delta DeltaText c)) <$> cs.

Lemma stream_out_text p cs :
  stream_out p (text_stream cs) = ((feed_all p cs).1 ++ (flush (feed_all p cs).2).1, None).
Proof.
  revert p. induction cs as [|c cs IH]; intros p; [done|]. cbn [text_stream fmap list_fmap stream_out feed_all].
  simpl. destruct (feed p c) as [ds p']. change ((_ <$> cs)) with (text_stream cs). rewrite IH.
  destruct (feed_all p' cs) as [ds2 p2]. simpl. by rewrite app_assoc.
Qed.

Lemma think_generate_content open close resp :
  r_Text (think_generate open close resp) = content false (think_meaning open close (r_Text resp))
  /\ (r_Reasoning resp = "" ->
      r_Reasoning (think_generate open close resp)
      = content true (think_meaning open close (r_Text resp))).
Proof.
  pose proof (think_pieces open close [r_Text resp]) as H.
  change (str_concat [r_Text resp]) with (r_Text resp +:+ "") in H. rewrite app_empty_r in H.
  unfold think_generate. cbn [feed_all] in H. destruct (feed _ (r_Text resp)) as [ds1 p].
  simpl in H. rewrite app_nil_r in H. destruct (flush p) as [ds2 p2]. simpl in H.
  rewrite split_reasoning_content, H. split; [done|]. intros ->. simpl. by destruct (content true _).
Qed.

(** The streaming and the non-streaming path agree: accumulating the
    wrapped stream of a text, however it was split into deltas, gives the
    answer and the reasoning that wrapping the completed response gives. *)
Theorem think_stream_generate_agree open close cs resp :
  r_Text resp = str_concat cs -> r_Reasoning resp = "" ->
  let streamed := accumulate (pending (think_stream open close (text_stream cs))).1 in
  r_Text streamed = r_Text (think_generate open close resp)
  /\ r_Reasoning streamed = r_Reasoning (think_generate open close resp).
Proof.
  intros Ht Hr. destruct (think_generate_content open close resp) as [H1 H2].
  rewrite H1, H2, Ht by done. unfold pending, think_stream. simpl.
  rewrite stream_out_text. simpl. set (ds := _ ++ _).
  assert (Hs : Forall spoken ds).
  { apply Forall_app. split; [apply feed_all_spoken | apply flush_spoken]. }
  destruct (texts_of_content ds Hs) as [Ht1 Ht2]. rewrite <- (think_pieces open close cs).
  fold ds. rewrite <- Ht1, <- Ht2. unfold accumulate, acc_Result. simpl.
  by rewrite foldl_acc_text, foldl_acc_reason.
Qed.

Lemma think_stream_generate_agree_witness :
  r_Text (accumulate (pending (think_stream "" "</think>" (text_stream ["plan</th"; "ink>42"]))).1) = "42"
  /\ r_Reasoning (accumulate (pending (think_stream "" "</think>"
       (text_stream ["plan</th"; "ink>42"]))).1) = "plan".
Proof.
  pose proof (think_stream_generate_agree "" "</think>" ["plan</th"; "ink>42"]
    {| r_Text := "plan</think>42"; r_Reasoning := ""; r_ToolCalls := []; r_FinishReason := "stop";
       r_Usage := None |} eq_refl eq_refl) as [H1 H2].
  split; [rewrite H1 | rewrite H2]; vm_compute; reflexivity.
Defined.
