(* ===== verification/MultiSource.v ===== *)
(** * Tool sources: src/toolsource.go, src/multi_source.go, src/filter_source.go

    [MultiSource] aggregates sources under ids: a name one source claims is
    offered as it is, a name several claim is offered qualified, as
    "id/name", once per claimant.  [FilterSource] hides tools from listing and
    from calling.  The lock is held while the index is built, so the methods
    are functions of the aggregator's state and the world the sources act on. *)

From stdpp Require Import sorting.
From S2P Require Import Prelude GoStr Errors Json Provider TreeBudget Middleware.
Local Open Scope eff_scope.

Abbreviation tool_args := (gmap string any).

(** ** The interface *)

Record ToolSource {Ctx W E : Type} := {
  src_Tools : Ctx -> eff W E (result (list ToolDef));
  src_Call : Ctx -> string -> tool_args -> eff W E call_out;
}.
Arguments ToolSource : clear implicits.

Definition names_of (defs : list ToolDef) : list string := td_Name <$> defs.

(** What src/toolsource.go asks of an implementation, for a source whose
    listing is fixed: names are unique, and a listed name is callable (its
    call never reports an unknown tool). *)
Class LawfulSource {Ctx W E} (s : ToolSource Ctx W E) (catalog : list ToolDef) : Prop := {
  lawful_list : forall ctx w, src_Tools s ctx w = (inr catalog, [], w);
  lawful_names : NoDup (names_of catalog);
  lawful_call : forall ctx name args w e,
    name ∈ names_of catalog -> snd (eff_value (src_Call s ctx name args) w) = Some e ->
    error_is ErrUnknownTool e = false;
}.

(** ** FilterSource *)

Section Filter.
Context {Ctx W E : Type}.

Definition kept (keep : ToolDef -> bool) (defs : list ToolDef) : list ToolDef :=
  filter (fun d => keep d = true) defs.

Definition filter_Tools (src : ToolSource Ctx W E) (keep : ToolDef -> bool) (ctx : Ctx)
  : eff W E (result (list ToolDef)) :=
  let* r := src_Tools src ctx in
  match r with
  | inl e => eff_ret (inl e)
  | inr defs => eff_ret (inr (kept keep defs))
  end.

Definition unknown_filtered (name : string) : error :=
  wrap_sentinel ErrUnknownTool (": " +:+ go_quote name +:+ " (filtered)").

Definition filter_Call (src : ToolSource Ctx W E) (keep : ToolDef -> bool) (ctx : Ctx)
    (name : string) (args : tool_args) : eff W E call_out :=
  let* r := filter_Tools src keep ctx in
  match r with
  | inl e => eff_ret (None, Some e)
  | inr defs =>
      if existsb (fun d => String.eqb (td_Name d) name) defs
      then src_Call src ctx name args
      else eff_ret (None, Some (unknown_filtered name))
  end.

Definition NewFilterSource (src : ToolSource Ctx W E) (keep : ToolDef -> bool)
  : ToolSource Ctx W E :=
  {| src_Tools := filter_Tools src keep; src_Call := filter_Call src keep |}.

Lemma existsb_name name defs :
  existsb (fun d => String.eqb (td_Name d) name) defs = true <-> name ∈ names_of defs.
Proof.
  rewrite existsb_exists. unfold names_of. rewrite list_elem_of_fmap.
  setoid_rewrite String.eqb_eq. setoid_rewrite <- list_elem_of_In. naive_solver.
Qed.

(** A filter is a capability boundary: a call to a name no kept
    definition has is answered with an unknown-tool error whatever the
    wrapped source would do with it, and any other call is the wrapped
    source's call, made after its listing. *)
Theorem filter_is_a_boundary (tools : Ctx -> eff W E (result (list ToolDef)))
    (call call' : Ctx -> string -> tool_args -> eff W E call_out) keep ctx name args w defs :
  eff_value (tools ctx) w = inr defs ->
  (name ∉ names_of (kept keep defs) ->
   src_Call (NewFilterSource {| src_Tools := tools; src_Call := call |} keep) ctx name args w
   = src_Call (NewFilterSource {| src_Tools := tools; src_Call := call' |} keep) ctx name args w
   /\ eff_value (src_Call (NewFilterSource {| src_Tools := tools; src_Call := call |} keep)
                   ctx name args) w = (None, Some (unknown_filtered name))
   /\ error_is ErrUnknownTool (unknown_filtered name) = true)
  /\ (name ∈ names_of (kept keep defs) ->
      eff_value (src_Call (NewFilterSource {| src_Tools := tools; src_Call := call |} keep)
                   ctx name args) w
      = eff_value (call ctx name args) (eff_world (tools ctx) w)).
Proof.
  intros Hd. simpl. unfold filter_Call, filter_Tools, eff_value, eff_world, eff_bind in *. simpl.
  destruct (tools ctx w) as [[r evs] w1]. simpl in Hd. subst r. simpl.
  destruct (existsb (fun d => String.eqb (td_Name d) name) (kept keep defs)) eqn:Ex.
  - apply existsb_name in Ex. split; [contradiction|]. intros _. by destruct (call ctx name args w1) as [[]].
  - split; [|intros H; apply existsb_name in H; congruence]. intros _. auto with chakra.
Qed.

#[export] Instance filter_lawful (s : ToolSource Ctx W E) catalog keep :
  LawfulSource s catalog -> LawfulSource (NewFilterSource s keep) (kept keep catalog).
Proof.
  intros [Hl Hn Hc]. split.
  - intros ctx w. simpl. unfold filter_Tools, eff_bind. by rewrite Hl.
  - unfold names_of, kept in *. clear -Hn. induction catalog as [|d l IH]; [constructor|].
    rewrite filter_cons. csimpl in Hn. apply NoDup_cons in Hn as [Hd Hn].
    case_decide; [|by apply IH]. csimpl. constructor; [|by apply IH].
    intros (x & Hx & Hin)%list_elem_of_fmap. apply Hd. apply list_elem_of_fmap.
    exists x. split; [done|]. apply list_elem_of_filter in Hin. tauto.
  - intros ctx name args w e Hin. simpl. unfold filter_Call, filter_Tools.
    rewrite eff_value_bind. unfold eff_value at 2, eff_world. unfold eff_bind. rewrite Hl. simpl.
    rewrite (proj2 (existsb_name name (kept keep catalog))) by done.
    intros He. eapply Hc; [|exact He]. unfold names_of in *.
    apply list_elem_of_fmap in Hin as (x & -> & Hx). apply list_elem_of_fmap. exists x. split; [done|].
    unfold kept in Hx. apply list_elem_of_filter in Hx. tauto.
Qed.
End Filter.

(** ** MultiSource: names *)

Definition slash : string := "/".

Definition qualifiedName (sourceID name : string) : string := sourceID +:+ slash +:+ name.

Definition splitQualified (name : string) : option (string * string) :=
  match str_index slash name with
  | None => None
  | Some i =>
      if Nat.eqb i 0 || Nat.eqb i (String.length name - 1) then None
      else Some (str_take i name, str_drop (i + 1) name)
  end.

Record ToolOwner := { own_SourceID : string; own_Def : ToolDef }.

Abbreviation claims_map := (gmap string (list ToolOwner)).

Definition owners_of (claims : claims_map) (name : string) : list ToolOwner :=
  default [] (claims !! name).

(** The body of the inner loop of [gatherLocked]: one definition of source
    [id]. *)
Definition claim_def (id : string) (st : claims_map * list string) (def : ToolDef)
  : claims_map * list string :=
  let '(claims, order) := st in
  if existsb (fun o => String.eqb (own_SourceID o) id) (owners_of claims (td_Name def)) then st
  else
    (<[td_Name def := owners_of claims (td_Name def)
                      ++ [{| own_SourceID := id; own_Def := def |}]]> claims,
     match claims !! td_Name def with
     | Some _ => order
     | None => order ++ [td_Name def]
     end).

(** [sort.Slice] by source id; the ids of one name's owners are distinct, so
    the order does not depend on the algorithm. *)
Fixpoint insert_owner (o : ToolOwner) (l : list ToolOwner) : list ToolOwner :=
  match l with
  | [] => [o]
  | o' :: l' =>
      if String.ltb (own_SourceID o') (own_SourceID o) then o' :: insert_owner o l' else o :: l
  end.

Definition sort_owners (l : list ToolOwner) : list ToolOwner := foldr insert_owner [] l.

Section Multi.
Context {Ctx W E : Type}.

Definition Resolver := string -> list ToolOwner -> tool_args -> string * option error.

Record MultiSource := {
  ms_order : list string;
  ms_sources : gmap string (ToolSource Ctx W E);
  ms_resolver : option Resolver;
  ms_onCollision : option (string -> list string -> eff W E unit);
  ms_index : option (claims_map * list string);
}.

Definition ms_set (m : MultiSource) order sources index : MultiSource :=
  {| ms_order := order; ms_sources := sources; ms_resolver := ms_resolver m;
     ms_onCollision := ms_onCollision m; ms_index := index |}.

Definition MultiOption := MultiSource -> MultiSource.

Definition WithResolver (r : option Resolver) : MultiOption := fun m =>
  {| ms_order := ms_order m; ms_sources := ms_sources m; ms_resolver := r;
     ms_onCollision := ms_onCollision m; ms_index := ms_index m |}.

Definition WithCollisionNotify (fn : option (string -> list string -> eff W E unit))
  : MultiOption := fun m =>
  {| ms_order := ms_order m; ms_sources := ms_sources m; ms_resolver := ms_resolver m;
     ms_onCollision := fn; ms_index := ms_index m |}.

Definition NewMultiSource (opts : list MultiOption) : MultiSource :=
  fold_left (fun m opt => opt m) opts
    {| ms_order := []; ms_sources := ∅; ms_resolver := None; ms_onCollision := None;
       ms_index := None |}.

Definition ms_Add (m : MultiSource) (id : string) (src : ToolSource Ctx W E)
  : option error * MultiSource :=
  if str_contains id slash then
    (Some (EText ("agent: source id " +:+ go_quote id +:+ " must not contain "
                  +:+ go_quote slash)), m)
  else match ms_sources m !! id with
       | Some _ => (Some (EText ("agent: source " +:+ go_quote id +:+ " already added")), m)
       | None => (None, ms_set m (ms_order m ++ [id]) (<[id := src]> (ms_sources m)) None)
       end.

Definition ms_Invalidate (m : MultiSource) : MultiSource :=
  ms_set m (ms_order m) (ms_sources m) None.

(** Drops the first occurrence of [id]. *)
Fixpoint remove_first (id : string) (l : list string) : list string :=
  match l with
  | [] => []
  | x :: l => if String.eqb x id then l else x :: remove_first id l
  end.

Definition ms_Remove (m : MultiSource) (id : string) : MultiSource :=
  match ms_sources m !! id with
  | None => m
  | Some _ => ms_set m (remove_first id (ms_order m)) (delete id (ms_sources m)) None
  end.

(** ** Gathering the claims *)

(** The outer loop; every id of the order has a source. *)
Fixpoint gather_loop (sources : gmap string (ToolSource Ctx W E)) (ctx : Ctx)
    (ids : list string) (st : claims_map * list string)
  : eff W E (result (claims_map * list string)) :=
  match ids with
  | [] => eff_ret (inr st)
  | id :: ids =>
      match sources !! id with
      | None => gather_loop sources ctx ids st
      | Some src =>
          let* r := src_Tools src ctx in
          match r with
          | inl e => eff_ret (inl (wrap_error ("agent: listing tools from source "
                                               +:+ go_quote id +:+ ": ") e))
          | inr defs => gather_loop sources ctx ids (fold_left (claim_def id) defs st)
          end
      end
  end.

Definition gatherLocked (m : MultiSource) (ctx : Ctx)
  : eff W E (result (claims_map * list string)) :=
  let* r := gather_loop (ms_sources m) ctx (ms_order m) (∅, []) in
  match r with
  | inl e => eff_ret (inl e)
  | inr (claims, order) => eff_ret (inr (sort_owners <$> claims, order))
  end.

Definition indexLocked (m : MultiSource) (ctx : Ctx)
  : eff W E (result (claims_map * list string) * MultiSource) :=
  match ms_index m with
  | Some ix => eff_ret (inr ix, m)
  | None =>
      let* r := gatherLocked m ctx in
      match r with
      | inl e => eff_ret (inl e, m)
      | inr ix => eff_ret (inr ix, ms_set m (ms_order m) (ms_sources m) (Some ix))
      end
  end.

(** ** Resolution *)

Definition resolveLocked (m : MultiSource) (claims : claims_map) (name : string)
    (args : tool_args) : result (string * string) :=
  match claims !! name with
  | Some [o] => inr (own_SourceID o, name)
  | Some owners =>
      match ms_resolver m with
      | Some resolver =>
          match resolver name owners args with
          | (_, Some err) => inl err
          | (id, None) =>
              match ms_sources m !! id with
              | Some _ => inr (id, name)
              | None => inl (EText ("agent: resolver returned unknown source " +:+ go_quote id
                                    +:+ " for tool " +:+ go_quote name))
              end
          end
      | None =>
          inl (EText ("agent: tool " +:+ go_quote name +:+ " is ambiguous; use one of: "
                      +:+ str_join ", " ((fun o => qualifiedName (own_SourceID o) name) <$> owners)))
      end
  | None =>
      let unknown := inl (wrap_sentinel ErrUnknownTool (": " +:+ go_quote name)) in
      match splitQualified name with
      | None => unknown
      | Some (id, bare) =>
          match ms_sources m !! id with
          | None => unknown
          | Some _ =>
              if existsb (fun o => String.eqb (own_SourceID o) id) (owners_of claims bare)
              then inr (id, bare) else unknown
          end
      end
  end.

(** ** The methods that read the index *)

Definition listed (claims : claims_map) (name : string) : list ToolDef :=
  match owners_of claims name with
  | [o] => [own_Def o]
  | owners =>
      (fun o => {| td_Name := qualifiedName (own_SourceID o) name;
                   td_Description := td_Description (own_Def o);
                   td_Annotations := td_Annotations (own_Def o) |}) <$> owners
  end.

Fixpoint list_loop (m : MultiSource) (claims : claims_map) (names : list string)
  : eff W E (list ToolDef) :=
  match names with
  | [] => eff_ret []
  | name :: names =>
      (match owners_of claims name, ms_onCollision m with
       | [_], _ | _, None => eff_ret tt
       | owners, Some f => f name (own_SourceID <$> owners)
       end) ;;;
      let* rest := list_loop m claims names in
      eff_ret (listed claims name ++ rest)
  end.

Definition ms_Tools (m : MultiSource) (ctx : Ctx)
  : eff W E (result (list ToolDef) * MultiSource) :=
  let* r := indexLocked m ctx in
  match r with
  | (inl e, m) => eff_ret (inl e, m)
  | (inr (claims, order), m) =>
      let* out := list_loop m claims order in
      eff_ret (inr out, m)
  end.

Definition SourceTools (m : MultiSource) (ctx : Ctx) (id : string)
  : eff W E (option (result (list ToolDef))) :=
  match ms_sources m !! id with
  | None => eff_ret None
  | Some src => let* r := src_Tools src ctx in eff_ret (Some r)
  end.

(** One fresh gather after an unknown name. *)
Definition resolve_fresh (m : MultiSource) (ctx : Ctx) (name : string) (args : tool_args)
    (first : result (string * string)) : eff W E (result (result (string * string)) * MultiSource) :=
  match first with
  | inl e =>
      if error_is ErrUnknownTool e then
        let* r := indexLocked (ms_Invalidate m) ctx in
        match r with
        | (inl e, m) => eff_ret (inl e, m)
        | (inr (claims, _), m) => eff_ret (inr (resolveLocked m claims name args), m)
        end
      else eff_ret (inr first, m)
  | inr _ => eff_ret (inr first, m)
  end.

Definition ms_Call (m : MultiSource) (ctx : Ctx) (name : string) (args : tool_args)
  : eff W E (call_out * MultiSource) :=
  let* r := indexLocked m ctx in
  match r with
  | (inl e, m) => eff_ret ((None, Some e), m)
  | (inr (claims, _), m) =>
      let first := resolveLocked m claims name args in
      let* r2 := resolve_fresh m ctx name args first in
      let '(again, m) := r2 in
      (* a failed refresh leaves the first resolution's error *)
      match (match again with inr r => r | inl _ => first end) with
      | inl e => eff_ret ((None, Some e), m)
      | inr (id, bare) =>
          match ms_sources m !! id with
          | Some src => let* out := src_Call src ctx bare args in eff_ret (out, m)
          | None => eff_ret ((None, None), m)
          end
      end
  end.

Definition OwnerOf (m : MultiSource) (ctx : Ctx) (name : string) (args : tool_args)
  : eff W E (option string * MultiSource) :=
  let* r := indexLocked m ctx in
  match r with
  | (inl _, m) => eff_ret (None, m)
  | (inr (claims, _), m) =>
      let* r2 := resolve_fresh m ctx name args (resolveLocked m claims name args) in
      match r2 with
      | (inr (inr (id, _)), m) => eff_ret (Some id, m)
      | (_, m) => eff_ret (None, m)
      end
  end.
End Multi.
Arguments MultiSource : clear implicits.

(** ** Qualified names *)

Definition slash_free (s : string) : bool := negb (str_contains s slash).

Lemma slash_free_index s : slash_free s = true <-> str_index slash s = None.
Proof. unfold slash_free, str_contains. by destruct (str_index slash s). Qed.

Lemma index_qualified id name :
  slash_free id = true -> str_index slash (qualifiedName id name) = Some (String.length id).
Proof.
  rewrite slash_free_index. unfold qualifiedName. induction id as [|c id IH]; [done|].
  rewrite app_cons. cbn [str_index].
  destruct (has_prefix slash (String c id)) eqn:Hp; [done|].
  assert (Hc : has_prefix slash (String c (id +:+ slash +:+ name)) = false).
  { exact Hp. }
  rewrite Hc. destruct (str_index slash id); [done|]. intros _. by rewrite IH.
Qed.

Lemma slash_free_qualified id name : slash_free (qualifiedName id name) = false.
Proof.
  apply not_true_is_false. rewrite slash_free_index. intros H.
  pose proof (str_index_none slash (qualifiedName id name) (String.length id) H) as Hn.
  unfold qualifiedName in Hn. rewrite drop_app_str, has_prefix_app in Hn. done.
Qed.

Lemma qualified_inj id name id' name' :
  slash_free id = true -> slash_free id' = true ->
  qualifiedName id name = qualifiedName id' name' -> id = id' /\ name = name'.
Proof.
  intros H H' He. assert (Hl : String.length id = String.length id').
  { pose proof (index_qualified id name H). pose proof (index_qualified id' name' H').
    congruence. }
  destruct (app_inj_str _ _ _ _ Hl He) as [-> Ht]. split; [done|]. by injection Ht.
Qed.

(** The qualified form splits back into the id and the name. *)
Lemma split_qualified id name :
  slash_free id = true -> id <> "" -> name <> "" ->
  splitQualified (qualifiedName id name) = Some (id, name).
Proof.
  intros H Hi Hn. unfold splitQualified. rewrite index_qualified by done.
  assert (Hl : String.length (qualifiedName id name) = String.length id + S (String.length name))
    by (unfold qualifiedName; by rewrite length_app_str).
  assert (String.length id <> 0) by (destruct id; [done | simpl; lia]).
  assert (String.length name <> 0) by (destruct name; [done | simpl; lia]).
  rewrite Hl, (proj2 (Nat.eqb_neq _ 0)), (proj2 (Nat.eqb_neq _ _)) by lia. simpl.
  unfold qualifiedName. rewrite take_app_str.
  replace (id +:+ slash +:+ name) with ((id +:+ slash) +:+ name) by apply app_assoc_str.
  replace (String.length id + 1) with (String.length (id +:+ slash)) by (by rewrite length_app_str).
  by rewrite drop_app_str.
Qed.

(** ** The claims of a list of catalogs *)

(** Source [id]'s claim on [name]: its first definition of that name. *)
Definition claim_in (name : string) (s : string * list ToolDef) : option ToolOwner :=
  def ← head (filter (fun d => td_Name d = name) (snd s));
  Some {| own_SourceID := fst s; own_Def := def |}.

Definition claimants (listings : list (string * list ToolDef)) (name : string) : list ToolOwner :=
  omap (claim_in name) listings.

Record claims_ok (listings : list (string * list ToolDef)) (st : claims_map * list string) : Prop := {
  co_owners : forall name, owners_of (fst st) name = claimants listings name;
  co_some : forall name, is_Some (fst st !! name) <-> name ∈ snd st;
  co_nonempty : forall name, fst st !! name <> Some [];
  co_order : NoDup (snd st);
}.

Lemma owners_of_insert claims n os name :
  owners_of (<[n:=os]> claims) name = if decide (n = name) then os else owners_of claims name.
Proof.
  unfold owners_of. case_decide as E; [subst; by rewrite lookup_insert_eq | by rewrite lookup_insert_ne].
Qed.

Lemma claimants_snoc l s name :
  claimants (l ++ [s]) name = claimants l name ++ option_list (claim_in name s).
Proof.
  unfold claimants. rewrite omap_app. csimpl. by destruct (claim_in name s).
Qed.

Lemma claim_in_ids id l name :
  id ∉ fst <$> l ->
  existsb (fun o => String.eqb (own_SourceID o) id) (claimants l name) = false.
Proof.
  intros H. apply not_true_is_false. rewrite existsb_exists. intros (o & Ho & He%String.eqb_eq).
  apply list_elem_of_In in Ho. unfold claimants in Ho. apply list_elem_of_omap in Ho as (s & Hs & Hc).
  apply H. apply list_elem_of_fmap. exists s. split; [|done]. unfold claim_in in Hc.
  destruct (head _); [|done]. injection Hc as <-. by simpl in He.
Qed.

Lemma head_filter_snoc (P : ToolDef -> Prop) `{forall d, Decision (P d)} l d :
  head (filter P (l ++ [d]))
  = match head (filter P l) with Some x => Some x | None => if decide (P d) then Some d else None end.
Proof.
  rewrite filter_app. destruct (filter P l) as [|x l']; [|done]. simpl.
  rewrite filter_cons, filter_nil. by case_decide.
Qed.

Lemma claim_def_ok l id pre def st :
  id ∉ fst <$> l ->
  claims_ok (l ++ [(id, pre)]) st -> claims_ok (l ++ [(id, pre ++ [def])]) (claim_def id st def).
Proof.
  intros Hid [Ho Hs Hne Hnd]. destruct st as [claims order]. simpl in *.
  assert (Hsame : forall name, claim_in name (id, pre) <> None \/ td_Name def <> name ->
    claimants (l ++ [(id, pre ++ [def])]) name = claimants (l ++ [(id, pre)]) name).
  { intros name H. rewrite !claimants_snoc. f_equal. unfold claim_in in *. simpl in *.
    rewrite head_filter_snoc. destruct (head (filter _ pre)); [done|].
    destruct H as [H|H]; [by simpl in H|]. by rewrite decide_False. }
  assert (Hex : existsb (fun o => String.eqb (own_SourceID o) id) (owners_of claims (td_Name def))
    = existsb (fun o => String.eqb (own_SourceID o) id) (option_list (claim_in (td_Name def) (id, pre))))
    by (rewrite Ho, claimants_snoc, existsb_app; by rewrite claim_in_ids).
  unfold claim_def. rewrite Hex. clear Hex.
  destruct (claim_in (td_Name def) (id, pre)) as [o|] eqn:Ec; simpl.
  - assert (own_SourceID o = id) as Hoid
      by (unfold claim_in in Ec; simpl in Ec; destruct (head _); simplify_eq/=; done).
    rewrite Hoid, String.eqb_refl. simpl. split; simpl; auto. intros name. rewrite Ho.
    destruct (decide (td_Name def = name)) as [<-|]; [rewrite Hsame; [done | by left; rewrite Ec]|].
    by rewrite Hsame by by right.
  - split; simpl.
    + intros name. rewrite owners_of_insert. case_decide as En; [subst name | by rewrite Ho, Hsame by by right].
      rewrite Ho, !claimants_snoc, Ec. simpl. rewrite app_nil_r. f_equal.
      unfold claim_in in Ec |- *. simpl in *. rewrite head_filter_snoc.
      destruct (head (filter _ pre)); [done|]. by rewrite decide_True.
    + intros name. rewrite lookup_insert_is_Some. destruct (claims !! td_Name def) eqn:El.
      * rewrite <- Hs. split; [|by destruct (decide (td_Name def = name)); auto].
        intros [<-|[_ H]]; [rewrite El; eauto | done].
      * rewrite elem_of_app, list_elem_of_singleton, <- Hs.
        destruct (decide (td_Name def = name)); naive_solver.
    + intros name. rewrite lookup_insert_Some. intros [[_ H]|[_ H]]; [|by eapply Hne].
      by destruct (owners_of claims (td_Name def)).
    + destruct (claims !! td_Name def) eqn:El; [done|]. apply NoDup_app. split; [done|].
      split; [|apply NoDup_singleton]. intros x Hx. rewrite list_elem_of_singleton. intros ->.
      apply Hs in Hx. rewrite El in Hx. by destruct Hx.
Qed.

Lemma claim_defs_ok l id defs pre st :
  id ∉ fst <$> l ->
  claims_ok (l ++ [(id, pre)]) st ->
  claims_ok (l ++ [(id, pre ++ defs)]) (fold_left (claim_def id) defs st).
Proof.
  intros Hid. revert pre st. induction defs as [|d defs IH]; intros pre st H; simpl.
  { by rewrite app_nil_r. }
  replace (pre ++ d :: defs) with ((pre ++ [d]) ++ defs) by by rewrite <- app_assoc.
  apply IH. by apply claim_def_ok.
Qed.

Lemma claims_ok_start l id st : claims_ok l st -> claims_ok (l ++ [(id, [])]) st.
Proof.
  intros [Ho Hs Hne Hnd]. split; auto. intros name. rewrite Ho, claimants_snoc. by rewrite app_nil_r.
Qed.

(** Sources whose catalogs do not change, in a given order. *)
Definition catalogs_of {Ctx W E} (m : MultiSource Ctx W E) (l : list (string * list ToolDef)) : Prop :=
  fst <$> l = ms_order m /\ NoDup (ms_order m)
  /\ forall id defs, (id, defs) ∈ l ->
     exists src, ms_sources m !! id = Some src /\ forall ctx w, src_Tools src ctx w = (inr defs, [], w).

Lemma gather_loop_ok {Ctx W E} (sources : gmap string (ToolSource Ctx W E)) ctx l pre st w :
  NoDup (fst <$> pre ++ l) ->
  (forall id defs, (id, defs) ∈ l ->
     exists src, sources !! id = Some src /\ forall ctx w, src_Tools src ctx w = (inr defs, [], w)) ->
  claims_ok pre st ->
  exists st', gather_loop sources ctx (fst <$> l) st w = (inr st', [], w) /\ claims_ok (pre ++ l) st'.
Proof.
  revert pre st. induction l as [|[id defs] l IH]; intros pre st Hnd Hsrc Hok; csimpl.
  { exists st. by rewrite app_nil_r. }
  destruct (Hsrc id defs) as (src & Hs & Ht); [left|]. rewrite Hs. unfold eff_bind. rewrite Ht.
  assert (Hid : id ∉ fst <$> pre).
  { rewrite fmap_app in Hnd. apply NoDup_app in Hnd as (_ & Hnd & _). intros H. apply (Hnd id H).
    csimpl. left. }
  destruct (IH (pre ++ [(id, defs)]) (fold_left (claim_def id) defs st)) as (st' & Hg & Hok').
  - by rewrite <- app_assoc.
  - intros. apply Hsrc. by right.
  - apply (claim_defs_ok pre id defs []); [done|]. by apply claims_ok_start.
  - exists st'. rewrite Hg. by rewrite <- app_assoc in Hok'.
Qed.

(** ** Sorting the owners *)

Lemma str_compare_refl s : String.compare s s = Eq.
Proof.
  pose proof (String.compare_antisym s s) as H. by destruct (String.compare s s).
Qed.

Lemma ascii_compare_N a b : Ascii.compare a b = N.compare (Ascii.N_of_ascii a) (Ascii.N_of_ascii b).
Proof. done. Qed.

Lemma str_lt_trans a b c :
  String.compare a b = Lt -> String.compare b c = Lt -> String.compare a c = Lt.
Proof.
  revert b c. induction a as [|x a IH]; intros [|y b] [|z c]; simpl; try done.
  rewrite !ascii_compare_N.
  destruct (N.compare_spec (Ascii.N_of_ascii x) (Ascii.N_of_ascii y)) as [E1|E1|E1],
    (N.compare_spec (Ascii.N_of_ascii y) (Ascii.N_of_ascii z)) as [E2|E2|E2]; try done;
    destruct (N.compare_spec (Ascii.N_of_ascii x) (Ascii.N_of_ascii z)); try done; try lia; eauto.
Qed.

Definition owner_le (o o' : ToolOwner) : Prop := String.ltb (own_SourceID o') (own_SourceID o) = false.

#[local] Instance owner_le_trans : Transitive owner_le.
Proof.
  intros o1 o2 o3. unfold owner_le, String.ltb.
  destruct (String.compare (own_SourceID o2) (own_SourceID o1)) eqn:E1; try done;
    destruct (String.compare (own_SourceID o3) (own_SourceID o2)) eqn:E2; try done; intros _ _;
    try apply String.compare_eq_iff in E1; try apply String.compare_eq_iff in E2;
    rewrite ?E1, ?E2 in *; rewrite ?E1, ?E2, ?str_compare_refl; try done.
  rewrite String.compare_antisym in E1, E2.
  destruct (String.compare (own_SourceID o1) (own_SourceID o2)) eqn:F1; try done.
  destruct (String.compare (own_SourceID o2) (own_SourceID o3)) eqn:F2; try done.
  rewrite String.compare_antisym. by rewrite (str_lt_trans _ _ _ F1 F2).
Qed.

Lemma insert_owner_perm o l : insert_owner o l ≡ₚ o :: l.
Proof.
  induction l as [|o' l IH]; simpl; [done|]. case_match; [|done].
  rewrite IH. apply Permutation_swap.
Qed.

Lemma sort_owners_perm l : sort_owners l ≡ₚ l.
Proof. induction l as [|o l IH]; simpl; [done|]. by rewrite insert_owner_perm, IH. Qed.

Lemma insert_owner_sorted o l : Sorted owner_le l -> Sorted owner_le (insert_owner o l).
Proof.
  induction 1 as [|o' l Hs IH Hd]; simpl; [repeat constructor|].
  destruct (String.ltb (own_SourceID o') (own_SourceID o)) eqn:E; [|by repeat constructor].
  constructor; [done|]. assert (Hle : owner_le o' o).
  { unfold owner_le. unfold String.ltb in *. rewrite String.compare_antisym.
    by destruct (String.compare (own_SourceID o') (own_SourceID o)). }
  destruct l as [|o2 l]; simpl; [by constructor|]. case_match; constructor; [|done].
  by inversion Hd.
Qed.

Lemma sort_owners_sorted l : Sorted owner_le (sort_owners l).
Proof. induction l; simpl; [constructor | by apply insert_owner_sorted]. Qed.

Lemma owner_le_antisym o o' : owner_le o o' -> owner_le o' o -> own_SourceID o = own_SourceID o'.
Proof.
  unfold owner_le, String.ltb. intros H1 H2.
  pose proof (String.compare_antisym (own_SourceID o) (own_SourceID o')) as H.
  destruct (String.compare (own_SourceID o) (own_SourceID o')) eqn:E;
    [by apply String.compare_eq_iff | done |].
  by destruct (String.compare (own_SourceID o') (own_SourceID o)).
Qed.

Lemma sort_owners_unique l l' :
  NoDup (own_SourceID <$> l) -> l ≡ₚ l' -> sort_owners l = sort_owners l'.
Proof.
  intros Hnd Hp. apply (Sorted_unique_strong owner_le);
    [|apply sort_owners_sorted..|by rewrite !sort_owners_perm].
  intros o o' Ho Ho' H1 H2. rewrite sort_owners_perm in Ho, Ho'. rewrite <- Hp in Ho'.
  pose proof (owner_le_antisym _ _ H1 H2) as He. clear -Hnd Ho Ho' He.
  apply list_elem_of_lookup in Ho as [i Hi]. apply list_elem_of_lookup in Ho' as [j Hj].
  assert (i = j) as ->; [|congruence].
  eapply (NoDup_lookup _ i j (own_SourceID o) Hnd); rewrite list_lookup_fmap, ?Hi, ?Hj; simpl; congruence.
Qed.

(** ** What the aggregator lists *)

Lemma claimants_elem l name o :
  o ∈ claimants l name <->
  exists id defs, (id, defs) ∈ l /\ own_SourceID o = id
    /\ head (filter (fun d => td_Name d = name) defs) = Some (own_Def o).
Proof.
  unfold claimants. rewrite list_elem_of_omap. split.
  - intros ([id defs] & Hin & Hc). exists id, defs. unfold claim_in in Hc. simpl in Hc.
    destruct (head _) eqn:E; [|done]. injection Hc as <-. done.
  - intros (id & defs & Hin & Hid & Hh). exists (id, defs). split; [done|].
    unfold claim_in. simpl. rewrite Hh. simpl. destruct o. simpl in *. by subst.
Qed.

Lemma head_filter_elem (P : ToolDef -> Prop) `{forall d, Decision (P d)} defs d :
  head (filter P defs) = Some d -> d ∈ defs /\ P d.
Proof.
  intros Hh. assert (Hd : d ∈ filter P defs) by (destruct (filter P defs); simplify_eq/=; left).
  apply list_elem_of_filter in Hd. tauto.
Qed.

Lemma claimants_name l name o : o ∈ claimants l name -> td_Name (own_Def o) = name.
Proof. intros (id & defs & _ & _ & H)%claimants_elem. by apply head_filter_elem in H as [_ ?]. Qed.

Lemma claimants_ids_NoDup l name :
  NoDup (fst <$> l) -> NoDup (own_SourceID <$> claimants l name).
Proof.
  induction l as [|[id defs] l IH]; intros Hnd; [constructor|]. csimpl in Hnd.
  apply NoDup_cons in Hnd as [Hid Hnd]. unfold claimants in *. csimpl.
  destruct (claim_in name (id, defs)) as [o|] eqn:E; [|by apply IH]. csimpl.
  constructor; [|by apply IH]. intros (o' & He & Ho')%list_elem_of_fmap. apply Hid.
  fold (claimants l name) in Ho'. apply claimants_elem in Ho' as (id' & defs' & Hin & Hid' & _).
  apply list_elem_of_fmap. exists (id', defs'). split; [|done]. simpl. rewrite <- Hid', <- He.
  unfold claim_in in E. simpl in E. destruct (head _); simplify_eq/=. done.
Qed.

Definition listing_of (claims : claims_map) (order : list string) : list ToolDef :=
  flat_map (listed claims) order.

Section Listing.
Context {Ctx W E : Type}.
Variables (l : list (string * list ToolDef)) (m : MultiSource Ctx W E).
Hypothesis cats : catalogs_of m l.
Hypothesis fresh : ms_index m = None.

Lemma cats_ids : NoDup (fst <$> l).
Proof. destruct cats as [H [Hn _]]. by rewrite H. Qed.

(** The index that any use of the aggregator builds. *)
Record index_ok (ix : claims_map * list string) : Prop := {
  ix_owners : forall name, owners_of (fst ix) name = sort_owners (claimants l name);
  ix_some : forall name, is_Some (fst ix !! name) <-> name ∈ snd ix;
  ix_claimed : forall name, name ∈ snd ix <-> claimants l name <> [];
  ix_order : NoDup (snd ix);
}.

Definition with_index (ix : claims_map * list string) : MultiSource Ctx W E :=
  ms_set m (ms_order m) (ms_sources m) (Some ix).

Lemma index_builds ctx w :
  exists ix, indexLocked m ctx w = ((inr ix, with_index ix), [], w) /\ index_ok ix.
Proof.
  destruct cats as (Ho & Hnd & Hs).
  destruct (gather_loop_ok (ms_sources m) ctx l [] (∅, []) w) as ([claims order] & Hg & [H1 H2 H3 H4]).
  - simpl. by rewrite Ho.
  - exact Hs.
  - split; simpl; try constructor; try done.
    + by rewrite lookup_empty => -[].
    + by intros ?%elem_of_nil.
  - simpl in *. exists (sort_owners <$> claims, order).
    unfold indexLocked, gatherLocked, eff_bind. rewrite fresh, <- Ho, Hg. simpl. split.
    { unfold with_index. by rewrite Ho. }
    assert (Hsome : forall name, is_Some ((sort_owners <$> claims) !! name) <-> name ∈ order)
      by (intros name; rewrite lookup_fmap, fmap_is_Some; apply H2).
    split; simpl; try done.
    + intros name. rewrite <- H1. unfold owners_of. rewrite lookup_fmap.
      by destruct (claims !! name).
    + intros name. rewrite <- H2, <- H1. unfold owners_of. specialize (H3 name).
      destruct (claims !! name) as [os|]; simpl.
      * split; [intros _ ->; done | eauto].
      * split; [by intros [] | done].
Qed.

Lemma list_loop_value (m' : MultiSource Ctx W E) claims order w :
  eff_value (list_loop m' claims order) w = listing_of claims order.
Proof.
  revert w. induction order as [|name order IH]; intros w; [done|]. cbn [list_loop].
  rewrite eff_value_bind, eff_value_bind, IH. done.
Qed.

Lemma tools_value ctx w :
  exists ix, eff_value (ms_Tools m ctx) w = (inr (listing_of (fst ix) (snd ix)), with_index ix)
    /\ index_ok ix.
Proof.
  destruct (index_builds ctx w) as ([claims order] & Hi & Hok). exists (claims, order).
  split; [|done]. unfold ms_Tools. rewrite eff_value_bind.
  unfold eff_value at 2, eff_world. rewrite Hi. simpl.
  rewrite eff_value_bind, list_loop_value. done.
Qed.

Lemma listed_names ix name x :
  index_ok ix -> name ∈ snd ix -> x ∈ names_of (listed (fst ix) name) ->
  (x = name /\ exists o, sort_owners (claimants l name) = [o])
  \/ (exists o, o ∈ claimants l name /\ x = qualifiedName (own_SourceID o) name
      /\ length (claimants l name) <> 1).
Proof.
  intros Hix Hn. unfold listed. rewrite (ix_owners _ Hix).
  pose proof (sort_owners_perm (claimants l name)) as Hp.
  pose proof (Permutation_length Hp) as Hl.
  destruct (sort_owners (claimants l name)) as [|o [|o2 os]] eqn:Es.
  - by intros ?%elem_of_nil.
  - csimpl. rewrite list_elem_of_singleton. intros ->. left.
    assert (Ho : o ∈ claimants l name) by (rewrite <- Hp; left).
    split; [by apply claimants_name with l | eauto].
  - intros (d & -> & (o' & -> & Ho')%list_elem_of_fmap)%list_elem_of_fmap. right.
    exists o'. split; [by rewrite <- Hp|]. split; [done | simpl in Hl; lia].
Qed.

Hypothesis ids_ok : forall id defs, (id, defs) ∈ l -> slash_free id = true.
Hypothesis names_ok : forall id defs d, (id, defs) ∈ l -> d ∈ defs -> slash_free (td_Name d) = true.

Lemma claimant_slash_free name o :
  o ∈ claimants l name -> slash_free (own_SourceID o) = true /\ slash_free name = true.
Proof.
  intros Ho. pose proof (claimants_name _ _ _ Ho) as Hn.
  apply claimants_elem in Ho as (id & defs & Hin & Hid & Hh).
  apply head_filter_elem in Hh as [Hd _]. rewrite Hid, <- Hn. eauto.
Qed.

Lemma claimed_slash_free ix name : index_ok ix -> name ∈ snd ix -> slash_free name = true.
Proof.
  intros Hix Hn. apply (ix_claimed _ Hix) in Hn. destruct (claimants l name) as [|o os] eqn:Ec; [done|].
  apply (claimant_slash_free name o). rewrite Ec. left.
Qed.

Lemma listed_name_owner ix name name' x :
  index_ok ix -> name ∈ snd ix -> name' ∈ snd ix ->
  x ∈ names_of (listed (fst ix) name) -> x ∈ names_of (listed (fst ix) name') -> name = name'.
Proof.
  intros Hix Hn Hn' Hx Hx'. pose proof (claimed_slash_free _ _ Hix Hn) as Hs.
  pose proof (claimed_slash_free _ _ Hix Hn') as Hs'.
  destruct (listed_names _ _ _ Hix Hn Hx) as [[Hb _]|(o & Ho & Hb & _)],
    (listed_names _ _ _ Hix Hn' Hx') as [[Hc _]|(o' & Ho' & Hc & _)].
  - congruence.
  - by rewrite <- Hb, Hc, slash_free_qualified in Hs.
  - by rewrite <- Hc, Hb, slash_free_qualified in Hs'.
  - destruct (claimant_slash_free _ _ Ho), (claimant_slash_free _ _ Ho').
    rewrite Hb in Hc. by apply qualified_inj in Hc as [_ ?].
Qed.

Lemma listed_NoDup ix name : index_ok ix -> NoDup (names_of (listed (fst ix) name)).
Proof.
  intros Hix. unfold listed. rewrite (ix_owners _ Hix).
  pose proof (sort_owners_perm (claimants l name)) as Hp.
  assert (Hnd : NoDup (own_SourceID <$> sort_owners (claimants l name))).
  { rewrite Hp. apply claimants_ids_NoDup, cats_ids. }
  assert (Hsf : forall o, o ∈ sort_owners (claimants l name) -> slash_free (own_SourceID o) = true).
  { intros o Ho. rewrite Hp in Ho. by apply (claimant_slash_free name o). }
  assert (Hq : NoDup (names_of ((fun o => {| td_Name := qualifiedName (own_SourceID o) name;
                   td_Description := td_Description (own_Def o);
                   td_Annotations := td_Annotations (own_Def o) |}) <$> sort_owners (claimants l name)))).
  { unfold names_of. rewrite <- list_fmap_compose. clear Hp. induction (sort_owners _) as [|o os IH]; [constructor|].
    csimpl in Hnd. csimpl. apply NoDup_cons in Hnd as [Ho Hnd]. constructor.
    - intros (o' & He & Ho')%list_elem_of_fmap. simpl in He.
      apply qualified_inj in He as [He _]; [|by apply Hsf; left | by apply Hsf; right].
      apply Ho. rewrite He. by apply list_elem_of_fmap_2.
    - apply IH; [done|]. intros o' Ho'. apply Hsf. by right. }
  destruct (sort_owners (claimants l name)) as [|o [|o2 os]]; try done. apply NoDup_singleton.
Qed.

Lemma NoDup_names_flat_map (f : string -> list ToolDef) order :
  NoDup order ->
  (forall n, n ∈ order -> NoDup (names_of (f n))) ->
  (forall n n' x, n ∈ order -> n' ∈ order -> x ∈ names_of (f n) -> x ∈ names_of (f n') -> n = n') ->
  NoDup (names_of (flat_map f order)).
Proof.
  induction 1 as [|n order Hn Hnd IH]; intros H1 H2; [constructor|]. simpl.
  unfold names_of. rewrite fmap_app. apply NoDup_app. split; [by apply H1; left|]. split.
  - intros x Hx (d & -> & Hd)%list_elem_of_fmap. apply list_elem_of_In, in_flat_map in Hd as (n' & Hn' & Hd).
    apply list_elem_of_In in Hn'. apply Hn. rewrite (H2 n n' (td_Name d)); [done | left | by right | done |].
    unfold names_of. apply list_elem_of_fmap. exists d. split; [done|]. by apply list_elem_of_In.
  - apply IH; intros; [apply H1 | eapply H2]; eauto; by right.
Qed.

Lemma listing_NoDup ix : index_ok ix -> NoDup (names_of (listing_of (fst ix) (snd ix))).
Proof.
  intros Hix. apply NoDup_names_flat_map; [apply (ix_order _ Hix)| |].
  - intros n _. by apply listed_NoDup.
  - intros n n' x. by apply listed_name_owner.
Qed.

Hypothesis ids_nonempty : forall id defs, (id, defs) ∈ l -> id <> "".
Hypothesis names_nonempty : forall id defs d, (id, defs) ∈ l -> d ∈ defs -> td_Name d <> "".

(** A listed name resolves to its owner and the owner's own name. *)
Lemma listed_resolves ix x args :
  index_ok ix -> x ∈ names_of (listing_of (fst ix) (snd ix)) ->
  exists o name, o ∈ claimants l name
    /\ resolveLocked (with_index ix) (fst ix) x args = inr (own_SourceID o, name).
Proof.
  intros Hix (d & -> & Hd)%list_elem_of_fmap.
  apply list_elem_of_In, in_flat_map in Hd as (name & Hn & Hd).
  apply list_elem_of_In in Hn, Hd.
  assert (Hx : td_Name d ∈ names_of (listed (fst ix) name)) by by apply list_elem_of_fmap_2.
  pose proof (claimed_slash_free _ _ Hix Hn) as Hsn.
  destruct (listed_names _ _ _ Hix Hn Hx) as [[-> [o Hs]]|(o & Ho & -> & Hlen)].
  - exists o, name. split; [rewrite <- (sort_owners_perm (claimants l name)), Hs; left|].
    pose proof (ix_owners _ Hix name) as Hw. rewrite Hs in Hw. unfold owners_of in Hw.
    unfold resolveLocked. destruct (fst ix !! name) as [os|]; [|done]. simpl in Hw. by subst os.
  - exists o, name. split; [done|]. unfold resolveLocked.
    destruct (claimant_slash_free _ _ Ho) as [Hso _].
    assert (fst ix !! qualifiedName (own_SourceID o) name = None) as ->.
    { apply eq_None_not_Some. intros Hsome%(ix_some _ Hix).
      pose proof (claimed_slash_free _ _ Hix Hsome) as Hf. by rewrite slash_free_qualified in Hf. }
    apply claimants_elem in Ho as Hoc. destruct Hoc as (id & defs & Hin & Hid & Hh).
    apply head_filter_elem in Hh as [Hdd Hdn].
    rewrite split_qualified; [|done | rewrite Hid; eauto | rewrite <- Hdn; eauto].
    destruct cats as (_ & _ & Hsrc). destruct (Hsrc _ _ Hin) as (src & Hs & _).
    simpl. rewrite Hid, Hs. rewrite (ix_owners _ Hix).
    assert (existsb (fun o' => String.eqb (own_SourceID o') id) (sort_owners (claimants l name)) = true) as ->; [|done].
    apply existsb_exists. exists o. split; [|by apply String.eqb_eq].
    apply list_elem_of_In. by rewrite sort_owners_perm.
Qed.

(** With source ids and tool names free of the separator (and not
    empty), the model-facing list of an aggregator has no duplicate names,
    and a call to any listed name is exactly the owner's call under the
    owner's own name: colliding tools stay distinct and reachable. *)
Theorem multi_listing_routable ctx w :
  exists out m', eff_value (ms_Tools m ctx) w = (inr out, m')
    /\ NoDup (names_of out)
    /\ forall x args w', x ∈ names_of out ->
       exists id defs d src,
         (id, defs) ∈ l /\ d ∈ defs /\ ms_sources m !! id = Some src
         /\ ms_Call m' ctx x args w'
            = (let '(r, evs, w2) := src_Call src ctx (td_Name d) args w' in ((r, m'), evs, w2)).
Proof.
  destruct (tools_value ctx w) as (ix & Ht & Hix). exists (listing_of (fst ix) (snd ix)), (with_index ix).
  split; [done|]. split; [by apply listing_NoDup|]. intros x args w' Hx.
  destruct (listed_resolves ix x args Hix Hx) as (o & name & Ho & Hr).
  pose proof (claimants_name _ _ _ Ho) as Hname.
  apply claimants_elem in Ho as (id & defs & Hin & Hid & Hh). apply head_filter_elem in Hh as [Hd _].
  destruct cats as (_ & _ & Hsrc). destruct (Hsrc _ _ Hin) as (src & Hs & _).
  exists id, defs, (own_Def o), src. repeat split; try done.
  unfold ms_Call, eff_bind. destruct ix as [claims order]. simpl in *. rewrite Hr. simpl.
  rewrite Hid, Hs, Hname. destruct (src_Call src ctx name args w') as [[r evs] w2]. simpl.
  by rewrite app_nil_r.
Qed.
End Listing.

(** ** Registration order *)

Lemma claimants_perm l l' name : l ≡ₚ l' -> claimants l name ≡ₚ claimants l' name.
Proof.
  intros Hp. unfold claimants. induction Hp as [|x l l' Hp IH|x y l|l1 l2 l3 _ IH1 _ IH2]; csimpl.
  - done.
  - destruct (claim_in name x); [by constructor | done].
  - destruct (claim_in name x), (claim_in name y); try done. constructor.
  - by rewrite IH1.
Qed.

(** The listing does not depend on the order sources were added in: two
    aggregators of the same sources list the same definitions under the same
    names (as a set), because a colliding name's claimants are sorted. *)
Theorem multi_order_independent {Ctx W E} (m m' : MultiSource Ctx W E) l l' ctx ctx' w w' :
  catalogs_of m l -> catalogs_of m' l' -> ms_index m = None -> ms_index m' = None ->
  l ≡ₚ l' ->
  exists out out' m1 m1',
    eff_value (ms_Tools m ctx) w = (inr out, m1)
    /\ eff_value (ms_Tools m' ctx') w' = (inr out', m1') /\ out ≡ₚ out'.
Proof.
  intros Hc Hc' Hf Hf' Hp.
  destruct (tools_value l m Hc Hf ctx w) as (ix & Ht & Hix).
  destruct (tools_value l' m' Hc' Hf' ctx' w') as (ix' & Ht' & Hix').
  eexists _, _, _, _. split; [exact Ht|]. split; [exact Ht'|].
  assert (Ho : snd ix ≡ₚ snd ix').
  { apply NoDup_Permutation; [apply (ix_order _ _ Hix) | apply (ix_order _ _ Hix')|].
    intros n. rewrite (ix_claimed _ _ Hix), (ix_claimed _ _ Hix').
    pose proof (Permutation_length (claimants_perm _ _ n Hp)) as Hl.
    destruct (claimants l n), (claimants l' n); simpl in Hl; try done; lia. }
  assert (Hli : forall n, listed (fst ix) n = listed (fst ix') n).
  { intros n. unfold listed. rewrite (ix_owners _ _ Hix), (ix_owners _ _ Hix').
    rewrite (sort_owners_unique (claimants l n) (claimants l' n));
      [done | by apply claimants_ids_NoDup, (cats_ids l m) | by apply claimants_perm]. }
  unfold listing_of. rewrite <- Ho. clear -Hli.
  induction (snd ix) as [|n o IH]; simpl; [done|]. by rewrite IH, Hli.
Qed.

(** [OwnerOf] is honest: when it names a source, the call with the same
    name and arguments is dispatched to that source and to no other. *)
Theorem ownerof_names_the_dispatcher {Ctx W E} (m : MultiSource Ctx W E) ctx name args w id m' evs w1 src :
  OwnerOf m ctx name args w = ((Some id, m'), evs, w1) ->
  ms_sources m' !! id = Some src ->
  exists bare, ms_Call m ctx name args w
    = (let '(r, evs2, w2) := src_Call src ctx bare args w1 in ((r, m'), evs ++ evs2, w2)).
Proof.
  unfold OwnerOf, ms_Call, eff_bind.
  destruct (indexLocked m ctx w) as [[[[e|[claims o]] m1] evs1] w2]; [done|].
  destruct (resolve_fresh m1 ctx name args (resolveLocked m1 claims name args) w2)
    as [[[[e2|[e2|[id2 bare]]] m2] evs2] w3]; try done.
  simpl. rewrite !app_nil_r. intros [= -> -> <- <-] Hs. exists bare. rewrite Hs.
  destruct (src_Call src ctx bare args w3) as [[r evs3] w4]. simpl. by rewrite app_nil_r, app_assoc.
Qed.

(** ** Two servers that share a name *)

Definition tool (name desc : string) : ToolDef :=
  {| td_Name := name; td_Description := desc; td_Annotations := ∅ |}.

Definition fixed_source (id : string) (defs : list ToolDef) : ToolSource unit nat unit :=
  {| src_Tools := fun _ => eff_ret (inr defs);
     src_Call := fun _ name _ =>
       eff_ret (Some {| tr_Content := [{| c_Type := "text"; c_Text := id +:+ ":" +:+ name |}];
                        tr_IsError := false; tr_StructuredContent := None |}, None) |}.

Definition add_all (l : list (string * list ToolDef)) : MultiSource unit nat unit :=
  fold_left (fun m '(id, defs) => (ms_Add m id (fixed_source id defs)).2) l (NewMultiSource []).

Definition two_servers : list (string * list ToolDef) :=
  [("b", [tool "search" "b's"; tool "read" ""]); ("a", [tool "search" "a's"])].

Lemma two_servers_catalogs : catalogs_of (add_all two_servers) two_servers.
Proof.
  split; [reflexivity|]. split; [apply (bool_decide_unpack _); vm_compute; exact I|].
  intros id defs H. apply elem_of_cons in H as [[= -> ->]|H]; [by eexists|].
  apply list_elem_of_singleton in H as [= -> ->]. by eexists.
Qed.

Lemma two_servers_swapped : catalogs_of (add_all (rev two_servers)) (rev two_servers).
Proof.
  split; [reflexivity|]. split; [apply (bool_decide_unpack _); vm_compute; exact I|].
  intros id defs H. apply elem_of_cons in H as [[= -> ->]|H]; [by eexists|].
  apply list_elem_of_singleton in H as [= -> ->]. by eexists.
Qed.

Lemma multi_listing_routable_witness :
  exists out m', eff_value (ms_Tools (add_all two_servers) tt) 0 = (inr out, m')
    /\ NoDup (names_of out) /\ names_of out = ["a/search"; "b/search"; "read"].
Proof.
  destruct (multi_listing_routable two_servers (add_all two_servers) two_servers_catalogs eq_refl)
    with (ctx := tt) (w := 0) as (out & m' & H1 & H2 & _).
  - intros id defs H. apply elem_of_cons in H as [[= -> ->]|H]; [reflexivity|].
    apply list_elem_of_singleton in H as [= -> ->]. reflexivity.
  - intros id defs d H Hd. repeat (apply elem_of_cons in H as [[= -> ->]|H]); [..|by apply elem_of_nil in H];
      repeat (apply elem_of_cons in Hd as [->|Hd]; [reflexivity|]); by apply elem_of_nil in Hd.
  - intros id defs H. repeat (apply elem_of_cons in H as [[= -> ->]|H]; [discriminate|]). by apply elem_of_nil in H.
  - intros id defs d H Hd. repeat (apply elem_of_cons in H as [[= -> ->]|H]); [..|by apply elem_of_nil in H];
      repeat (apply elem_of_cons in Hd as [->|Hd]; [discriminate|]); by apply elem_of_nil in Hd.
  - exists out, m'. split; [exact H1|]. split; [exact H2|].
    assert (He : forall o m1, eff_value (ms_Tools (add_all two_servers) tt) 0 = (inr o, m1) ->
      names_of o = ["a/search"; "b/search"; "read"]).
    { intros o m1 Ho. apply (f_equal fst) in Ho. vm_compute in Ho. injection Ho as <-. reflexivity. }
    exact (He out m' H1).
Defined.

Lemma multi_order_independent_witness :
  exists out out' m1 m1',
    eff_value (ms_Tools (add_all two_servers) tt) 0 = (inr out, m1)
    /\ eff_value (ms_Tools (add_all (rev two_servers)) tt) 0 = (inr out', m1') /\ out ≡ₚ out'.
Proof.
  apply (multi_order_independent (add_all two_servers) (add_all (rev two_servers)) two_servers
    (rev two_servers) tt tt 0 0 two_servers_catalogs two_servers_swapped eq_refl eq_refl).
  apply Permutation_swap.
Defined.

Lemma ownerof_names_the_dispatcher_witness :
  exists m' evs w1 src bare,
    OwnerOf (add_all two_servers) tt "b/search" ∅ 0 = ((Some "b", m'), evs, w1)
    /\ ms_Call (add_all two_servers) tt "b/search" ∅ 0
       = (let '(r, evs2, w2) := src_Call src tt bare ∅ w1 in ((r, m'), evs ++ evs2, w2)).
Proof.
  destruct (OwnerOf (add_all two_servers) tt "b/search" ∅ 0) as [[[o m'] evs] w1] eqn:E.
  assert (Ho : o = Some "b") by (apply (f_equal (fun x => x.1.1.1)) in E; vm_compute in E; congruence).
  subst o.
  assert (Hs : exists src, ms_sources m' !! "b" = Some src).
  { apply (f_equal (fun x => x.1.1.2)) in E. simpl in E. subst m'. vm_compute. eauto. }
  destruct Hs as [src Hs].
  destruct (ownerof_names_the_dispatcher _ _ _ _ _ _ _ _ _ _ E Hs) as [bare H].
  exists m', evs, w1, src, bare. split; [reflexivity | exact H].
Defined.

Lemma filter_is_a_boundary_witness :
  eff_value (src_Call (NewFilterSource (fixed_source "s" [tool "ls" ""; tool "rm" ""])
      (fun d => negb (String.eqb (td_Name d) "rm"))) tt "rm" ∅) 0
  = (None, Some (unknown_filtered "rm")).
Proof.
  refine (proj1 (proj2 (proj1 (filter_is_a_boundary
    (src_Tools (fixed_source "s" [tool "ls" ""; tool "rm" ""]))
    (src_Call (fixed_source "s" [tool "ls" ""; tool "rm" ""])) (src_Call (fixed_source "s" []))
    (fun d => negb (String.eqb (td_Name d) "rm")) tt "rm" ∅ 0
    [tool "ls" ""; tool "rm" ""] eq_refl) _))).
  apply (bool_decide_unpack _). vm_compute. exact I.
Defined.

(** ** What the separator in a name does *)

(** A tool whose own name is another tool's qualified name is listed beside
    it: the listing has a duplicate, and only the first is reachable. *)
Lemma multi_slash_name_duplicates :
  exists out m', eff_value (ms_Tools (add_all
      [("a", [tool "x" ""]); ("b", [tool "x" ""]); ("c", [tool "a/x" ""])]) tt) 0 = (inr out, m')
    /\ names_of out = ["a/x"; "b/x"; "a/x"].
Proof. eexists _, _. split; [vm_compute; reflexivity | vm_compute; reflexivity]. Qed.

(** A source added under the empty id lists a colliding tool it cannot serve. *)
Lemma multi_empty_id_unreachable :
  (ms_Add (@NewMultiSource unit nat unit []) "" (fixed_source "" [])).1 = None
  /\ (exists out m', eff_value (ms_Tools (add_all [("", [tool "x" ""]); ("b", [tool "x" ""])]) tt) 0
        = (inr out, m') /\ names_of out = ["/x"; "b/x"])
  /\ exists e, fst (eff_value (ms_Call (add_all [("", [tool "x" ""]); ("b", [tool "x" ""])]) tt "/x" ∅) 0)
        = (None, Some e) /\ error_is ErrUnknownTool e = true.
Proof.
  split; [reflexivity|]. split.
  - eexists _, _. split; vm_compute; reflexivity.
  - eexists. split; [vm_compute; reflexivity | reflexivity].
Qed.
