(* ===== verification/Events.v ===== *)
(** * Events, signals and the Provider interface

    The vocabulary of a running turn: src/events.go, the signals children
    raise (src/signal.go), the plan a model publishes (src/plan.go), the
    result of a turn (src/runner.go) and the Provider interface
    (src/provider.go). *)

From S2P Require Import Prelude GoStr Errors Json Provider TreeBudget Middleware.

(** ** Signals *)

Inductive SignalKind := SignalEscalate | SignalCustom | SignalPreempt | SignalOther (s : string).

#[export] Instance SignalKind_eq_dec : EqDecision SignalKind.
Proof. solve_decision. Defined.

Definition signal_kind_text (k : SignalKind) : string :=
  match k with
  | SignalEscalate => "escalate"
  | SignalCustom => "custom"
  | SignalPreempt => "preempt"
  | SignalOther s => s
  end.

Definition interrupts (k : SignalKind) : bool :=
  match k with SignalPreempt | SignalEscalate => true | _ => false end.

Record Signal := {
  sig_Kind : SignalKind;
  sig_Name : string;
  sig_Note : string;
  sig_Data : RawJSON;
  sig_Source : string;
}.

Record SignalAction := { sa_AbortTurn : bool; sa_Reason : string }.

Fixpoint AbortOnEscalate (signals : list Signal) : SignalAction :=
  match signals with
  | [] => {| sa_AbortTurn := false; sa_Reason := "" |}
  | s :: signals =>
      if bool_decide (sig_Kind s = SignalEscalate) then
        {| sa_AbortTurn := true;
           sa_Reason := if String.eqb (sig_Note s) "" then "escalated by " +:+ sig_Source s
                        else sig_Note s |}
      else AbortOnEscalate signals
  end.

Definition GrantAllPreempts (_ : Signal) : bool := true.

Definition render_signal (s : Signal) : string :=
  newline +:+ "- " +:+ signal_kind_text (sig_Kind s)
  +:+ (if String.eqb (sig_Name s) "" then "" else " (" +:+ sig_Name s +:+ ")")
  +:+ (if String.eqb (sig_Source s) "" then "" else " from " +:+ sig_Source s)
  +:+ (if String.eqb (sig_Note s) "" then "" else ": " +:+ sig_Note s).

Definition renderSignals (signals : list Signal) : string :=
  "Sub-agent signals received:" +:+ str_concat (render_signal <$> signals).

(** ** Plans *)

Record PlanStep := { ps_Step : string; ps_Status : string }.
Record Plan := { plan_Steps : list PlanStep; plan_Explanation : string }.

Definition PlanPending : string := "pending".
Definition PlanInProgress : string := "in_progress".
Definition PlanCompleted : string := "completed".

(** The loop of [Validate]: the index of the step and how many were in
    progress before it. *)
Fixpoint validate_steps (i : nat) (in_progress : nat) (steps : list PlanStep) : error + nat :=
  match steps with
  | [] => inr in_progress
  | s :: steps =>
      if String.eqb (trim_space (ps_Step s)) "" then
        inl (EText ("step " +:+ itoa (Z.of_nat i + 1) +:+ " is empty"))
      else if String.eqb (ps_Status s) PlanPending || String.eqb (ps_Status s) PlanCompleted
      then validate_steps (S i) in_progress steps
      else if String.eqb (ps_Status s) PlanInProgress
      then validate_steps (S i) (S in_progress) steps
      else inl (EText ("step " +:+ itoa (Z.of_nat i + 1) +:+ "'s status is "
             +:+ go_quote (ps_Status s) +:+ "; use " +:+ PlanPending +:+ ", "
             +:+ PlanInProgress +:+ " or " +:+ PlanCompleted))
  end.

Definition Plan_Validate (p : Plan) : option error :=
  match plan_Steps p with
  | [] => Some (EText "a plan needs at least one step")
  | steps =>
      match validate_steps 0 0 steps with
      | inl e => Some e
      | inr n =>
          if Nat.ltb 1 n then
            Some (EText (itoa (Z.of_nat n) +:+ " steps are in_progress; at most one can be"))
          else None
      end
  end.

Definition plan_line (s : PlanStep) : string :=
  (if String.eqb (ps_Status s) PlanCompleted then "[x]"
   else if String.eqb (ps_Status s) PlanInProgress then "[~]" else "[ ]")
  +:+ " " +:+ ps_Step s +:+ newline.

Definition Plan_String (p : Plan) : string :=
  (if String.eqb (plan_Explanation p) "" then "" else plan_Explanation p +:+ newline)
  +:+ str_concat (plan_line <$> plan_Steps p).

(** ** What a turn reports *)

Record CompactionInfo := { ci_Before : Z; ci_After : Z }.

Record StuckFinding := {
  sf_Pattern : string;
  sf_Count : Z;
  sf_Steps : list Z;
  sf_Tools : list string;
  sf_Call : string;
}.

Record TurnResult := {
  res_Text : string;
  res_Messages : list Message;
  res_Usage : Usage;
  res_UsageByModel : option (gmap string Usage);
  res_Steps : Z;
  res_FinishReason : string;
  res_Structured : RawJSON;
  res_StructuredError : string;
}.

(** [Event], one constructor per kind with the fields its emitters set; the
    step comes first. *)
Inductive Event :=
| EventTurnBegin
| EventThinkingBegin (step : Z)
| EventThinkingDelta (step : Z) (text : string)
| EventThinkingEnd (step : Z)
| EventTextDelta (step : Z) (text : string)
| EventToolBegin (step : Z) (call : ToolCall)
| EventToolEnd (step : Z) (call : ToolCall) (res : ToolResult)
| EventToolError (step : Z) (call : ToolCall) (err : string)
| EventToolDenied (step : Z) (call : ToolCall) (reason : string)
| EventToolCancelled (step : Z) (call : ToolCall) (reason : string)
| EventToolUnavailable (step : Z) (call : ToolCall) (reason : string)
| EventCompaction (step : Z) (info : CompactionInfo)
| EventSignal (step : Z) (sig : Signal)
| EventTurnContinued (step : Z) (reason : string)
| EventStuck (step : Z) (f : StuckFinding)
| EventPlan (step : Z) (p : Plan)
| EventStep (step : Z) (model : string) (u : option Usage)
| EventTurnEnd (result : TurnResult)
| EventError (err : string).

(** The events that end a turn. *)
Definition terminal (e : Event) : bool :=
  match e with EventTurnEnd _ | EventError _ => true | _ => false end.

(** ** The Provider interface

    A provider has an identity (interface values are compared by it), may
    report its capabilities, and answers requests; a stream is what it will
    deliver, in order, up to an error or EOF. *)
Record Provider {Ctx W : Type} := {
  prov_id : positive;
  prov_caps : option Capabilities;
  prov_Stream : Ctx -> ProviderRequest -> eff W Event (result (list (error + Delta)));
  prov_Generate : Ctx -> ProviderRequest -> eff W Event (result ProviderResponse);
}.
Arguments Provider : clear implicits.

Definition CapabilitiesOf {Ctx W} (p : Provider Ctx W) : Capabilities :=
  match prov_caps p with Some c => c | None => Capabilities_zero end.

(** ** Properties *)

Lemma validate_steps_count i k steps n :
  validate_steps i k steps = inr n ->
  n = k + length (filter (fun s => ps_Status s = PlanInProgress) steps)
  /\ forall s, s ∈ steps -> trim_space (ps_Step s) <> ""
     /\ (ps_Status s = PlanPending \/ ps_Status s = PlanInProgress \/ ps_Status s = PlanCompleted).
Proof.
  revert i k. induction steps as [|s steps IH]; intros i k; cbn [validate_steps].
  { intros [= <-]. rewrite filter_nil. simpl. split; [lia|]. by intros s ?%elem_of_nil. }
  destruct (String.eqb_spec (trim_space (ps_Step s)) ""); [done|].
  rewrite filter_cons.
  destruct (String.eqb_spec (ps_Status s) PlanPending) as [Hp|Hp]; simpl;
    [|destruct (String.eqb_spec (ps_Status s) PlanCompleted) as [Hc|Hc]; simpl;
      [|destruct (String.eqb_spec (ps_Status s) PlanInProgress) as [Hi|Hi]; [|done]]];
    intros (-> & Hall)%IH; (split;
      [case_decide; simpl; try congruence; try lia
      | intros s' [->|H]%elem_of_cons; [by auto | by apply Hall]]).
  - rewrite Hp in *. discriminate.
  - rewrite Hc in *. discriminate.
Qed.

(** A plan that validates can be shown: it has steps, none of them
    blank, every status is one of the three, and at most one step is in
    progress. *)
Theorem plan_validate_sound p :
  Plan_Validate p = None ->
  plan_Steps p <> []
  /\ length (filter (fun s => ps_Status s = PlanInProgress) (plan_Steps p)) <= 1
  /\ forall s, s ∈ plan_Steps p -> trim_space (ps_Step s) <> ""
     /\ (ps_Status s = PlanPending \/ ps_Status s = PlanInProgress \/ ps_Status s = PlanCompleted).
Proof.
  unfold Plan_Validate. destruct (plan_Steps p) as [|s0 steps0] eqn:Es; [done|].
  destruct (validate_steps 0 0 (s0 :: steps0)) as [e|n] eqn:Ev; [done|].
  destruct (Nat.ltb_spec 1 n) as [Hn|Hn]; [done|]. intros _.
  destruct (validate_steps_count _ _ _ _ Ev) as [-> Hall]. repeat split; try done; try lia;
    by apply Hall.
Qed.

Lemma plan_validate_sound_witness :
  length (filter (fun s => ps_Status s = PlanInProgress)
    [{| ps_Step := "read"; ps_Status := "completed" |}; {| ps_Step := "fix"; ps_Status := "in_progress" |}]) <= 1.
Proof.
  exact (proj1 (proj2 (plan_validate_sound {| plan_Steps :=
    [{| ps_Step := "read"; ps_Status := "completed" |}; {| ps_Step := "fix"; ps_Status := "in_progress" |}];
    plan_Explanation := "" |} eq_refl))).
Defined.

Lemma abort_on_escalate_spec signals :
  sa_AbortTurn (AbortOnEscalate signals) = true <-> SignalEscalate ∈ sig_Kind <$> signals.
Proof.
  induction signals as [|s signals IH]; simpl; [split; [done | by intros ?%elem_of_nil]|].
  csimpl. rewrite elem_of_cons. case_bool_decide as H; simpl; [by rewrite H; split; auto|].
  rewrite IH. naive_solver.
Qed.
