(* ===== verification/Compaction.v ===== *)
(** * Compaction: src/compaction.go

    [SummarizingCompactor] replaces the head of an over-budget conversation
    by one summary and keeps a recent tail verbatim.  The file also fixes the
    shape providers accept: every assistant message with tool calls is
    followed by exactly one tool message per call, in order
    ([rounds_ok]). *)

From S2P Require Import Prelude GoStr Errors Json Provider TreeBudget Middleware Events.
Local Open Scope eff_scope.

(** ** The shape of a conversation *)

Definition is_tool (m : Message) : bool := bool_decide (m_Role m = RoleTool).
Definition is_assistant (m : Message) : bool := bool_decide (m_Role m = RoleAssistant).

(** The call ids a message leaves to be answered. *)
Definition asks (m : Message) : list string :=
  if is_assistant m then tc_ID <$> m_ToolCalls m else [].

(** [open] are the call ids still to be answered. *)
Fixpoint rounds_ok (open : list string) (msgs : list Message) : bool :=
  match msgs with
  | [] => bool_decide (open = [])
  | m :: rest =>
      if is_tool m then
        match open with
        | id :: open' => String.eqb id (m_ToolCallID m) && rounds_ok open' rest
        | [] => false
        end
      else bool_decide (open = []) && rounds_ok (asks m) rest
  end.

(** A conversation cut before a message that is no tool result splits into
    two acceptable parts. *)
Lemma rounds_ok_split open l m r :
  is_tool m = false ->
  rounds_ok open (l ++ m :: r) = rounds_ok open l && rounds_ok [] (m :: r).
Proof.
  intros Hm. revert open. induction l as [|a l IH]; intros open; simpl.
  { rewrite Hm. by destruct open. }
  destruct (is_tool a).
  - destruct open; [done|]. rewrite IH. simpl. by rewrite andb_assoc.
  - rewrite IH. simpl. by rewrite andb_assoc.
Qed.

(** ** The estimator *)

Definition defaultCharsPerToken : Z := 4.

Definition message_chars (m : Message) : Z :=
  (Z.of_nat (String.length (m_Text m))
   + foldr (fun tc n => Z.of_nat (String.length (tc_Args tc)) + n) 0 (m_ToolCalls m))%Z.

Definition total_chars (msgs : list Message) : Z :=
  foldr (fun m n => (message_chars m + n)%Z) 0%Z msgs.

(** [CharTokenEstimator.Estimate] with [CharsPerToken]. *)
Definition CharTokenEstimate (per : Z) (msgs : list Message) : Z :=
  let per := if (per <=? 0)%Z then defaultCharsPerToken else per in
  (total_chars msgs ÷ per)%Z.

(** ** The compactor *)

Definition defaultKeepRecent : nat := 6.

Definition defaultSummarizerInstructions : string :=
  "You compress the earlier part of a conversation into a compact summary "
  +:+ "an AI assistant will carry forward in place of the original messages. Preserve durable facts, decisions, "
  +:+ "user preferences, names, numbers, identifiers, and any open threads or pending tasks. Write terse notes, "
  +:+ "not prose, and do not invent anything that is not in the text.".

Definition render_call (tc : ToolCall) : string :=
  newline +:+ "  [calls " +:+ tc_Name tc +:+ " " +:+ trim_space (tc_Args tc) +:+ "]".

Definition render_message (m : Message) : string :=
  role_text (m_Role m) +:+ ": " +:+ m_Text m +:+ str_concat (render_call <$> m_ToolCalls m).

Definition renderHistory (msgs : list Message) : string :=
  str_join newline (render_message <$> msgs).

(** The loop that pulls the cut back off tool results.  An index past the end
    would be a run-time error; [Compact] starts below the length. *)
Fixpoint pull_cut (history : list Message) (cut : nat) : nat :=
  match cut with
  | O => 0
  | S c =>
      match history !! cut with
      | Some m => if is_tool m then pull_cut history c else cut
      | None => cut
      end
  end.

Section Compactor.
Context {Ctx W : Type}.

(** The interface the Runner uses; [Fits] is optional. *)
Record Compactor := {
  cmp_Compact : Ctx -> list Message -> eff W Event (result (list Message));
  cmp_Fits : option (list Message -> bool);
}.

Record SummarizingConfig := {
  sc_Provider : Provider Ctx W;
  sc_Estimator : list Message -> Z;
  sc_MaxTokens : Z;
  sc_KeepRecent : nat;
  sc_Instructions : string;
}.

(** The configuration as given: optional provider and estimator, and Go
    integers. *)
Definition NewSummarizingCompactor (provider : option (Provider Ctx W))
    (estimator : option (list Message -> Z)) (max keep : Z) (instructions : string)
  : result SummarizingConfig :=
  match provider with
  | None => inl (EText "agent: SummarizingCompactor needs a Provider")
  | Some p =>
      if (max <=? 0)%Z then inl (EText "agent: SummarizingCompactor needs MaxTokens > 0")
      else inr {| sc_Provider := p;
                  sc_Estimator := match estimator with
                                  | Some e => e
                                  | None => CharTokenEstimate 0
                                  end;
                  sc_MaxTokens := max;
                  sc_KeepRecent := if (keep <=? 0)%Z then defaultKeepRecent else Z.to_nat keep;
                  sc_Instructions := if String.eqb instructions "" then defaultSummarizerInstructions
                                     else instructions |}
  end.

Definition empty_request : ProviderRequest :=
  {| pr_Instructions := ""; pr_Messages := []; pr_Tools := []; pr_Temperature := None;
     pr_MaxTokens := 0; pr_ToolChoice := ToolChoice_zero; pr_Seed := None;
     pr_Penalties := None; pr_Guided := None; pr_ResponseSchema := "" |}.

Definition summarize_request (c : SummarizingConfig) (head : list Message) : ProviderRequest :=
  {| pr_Instructions := sc_Instructions c;
     pr_Messages := [text_message RoleUser
       ("Conversation excerpt to summarize:" +:+ newline +:+ newline +:+ renderHistory head)];
     pr_Tools := []; pr_Temperature := None; pr_MaxTokens := 0; pr_ToolChoice := ToolChoice_zero;
     pr_Seed := None; pr_Penalties := None; pr_Guided := None; pr_ResponseSchema := "" |}.

Definition summarize (c : SummarizingConfig) (ctx : Ctx) (head : list Message)
  : eff W Event (result string) :=
  let* r := prov_Generate (sc_Provider c) ctx (summarize_request c head) in
  match r with
  | inl e => eff_ret (inl (wrap_error "agent: summarizing head: " e))
  | inr resp =>
      if String.eqb (trim_space (r_Text resp)) ""
      then eff_ret (inl (EText "agent: summarizer returned no text"))
      else eff_ret (inr ("Summary of earlier conversation:" +:+ newline +:+ trim_space (r_Text resp)))
  end.

Definition Compact (c : SummarizingConfig) (ctx : Ctx) (history : list Message)
  : eff W Event (result (list Message)) :=
  if (sc_Estimator c history <=? sc_MaxTokens c)%Z then eff_ret (inr history)
  else
    let cut := pull_cut history (length history - sc_KeepRecent c) in
    match cut with
    | O => eff_ret (inr history)
    | S _ =>
        let* s := summarize c ctx (take cut history) in
        match s with
        | inl e => eff_ret (inl e)
        | inr summary => eff_ret (inr (text_message RoleSystem summary :: drop cut history))
        end
    end.

Definition Fits (c : SummarizingConfig) (msgs : list Message) : bool :=
  (sc_Estimator c msgs <=? sc_MaxTokens c)%Z.

Definition SummarizingCompactor (c : SummarizingConfig) : Compactor :=
  {| cmp_Compact := Compact c; cmp_Fits := Some (Fits c) |}.

(** ** Properties *)

Lemma pull_cut_le h cut : pull_cut h cut <= cut.
Proof. induction cut as [|c IH]; simpl; [lia|]. repeat case_match; lia. Qed.

(** The cut lands on a message that is no tool result, and everything it
    skipped was one. *)
Lemma pull_cut_spec h cut :
  cut < length h -> 0 < pull_cut h cut ->
  exists m, h !! pull_cut h cut = Some m /\ is_tool m = false
    /\ forall i, pull_cut h cut < i <= cut -> exists t, h !! i = Some t /\ is_tool t = true.
Proof.
  induction cut as [|c IH]; simpl; [lia|]. intros Hl. destruct (h !! S c) as [m|] eqn:E.
  - destruct (is_tool m) eqn:Et.
    + intros Hp. destruct (IH ltac:(lia) Hp) as (m' & H1 & H2 & H3). exists m'. repeat split; try done.
      intros i Hi. destruct (decide (i = S c)) as [->|]; [eauto | apply H3; lia].
    + intros _. exists m. repeat split; try done. intros i Hi. lia.
  - apply lookup_ge_None in E. lia.
Qed.

Lemma drop_lookup_cons {A} (l : list A) i x : l !! i = Some x -> drop i l = x :: drop (S i) l.
Proof. apply drop_S. Qed.

(** What [Compact] returns.  An answer is the history itself, or a
    summary followed by a verbatim tail: the tail keeps at least the
    configured number of recent messages, starts on a message that is no
    tool result, and pulls in only tool results beyond that number; and if
    the history had the shape providers accept, so has the answer, so no
    tool result is cut off from its call. *)
Theorem compact_shape c ctx history w out :
  1 <= sc_KeepRecent c ->
  eff_value (Compact c ctx history) w = inr out ->
  out = history
  \/ exists head tail summary,
       history = head ++ tail /\ head <> []
       /\ out = text_message RoleSystem summary :: tail
       /\ sc_KeepRecent c <= length tail
       /\ (exists m tail', tail = m :: tail' /\ is_tool m = false
           /\ forall t, t ∈ take (length tail - sc_KeepRecent c) tail' -> is_tool t = true)
       /\ (rounds_ok [] history = true -> rounds_ok [] out = true).
Proof.
  intros Hk. unfold Compact. destruct (_ <=? _)%Z; [intros [= ->]; by left|].
  set (c0 := length history - sc_KeepRecent c).
  destruct (pull_cut history c0) as [|n] eqn:Hcut; [intros [= ->]; by left|].
  rewrite eff_value_bind. destruct (eff_value (summarize c ctx _) w) as [e|summary]; [done|].
  intros [= <-]. right. rewrite <- Hcut.
  assert (Hc0 : c0 < length history).
  { pose proof (pull_cut_le history c0). unfold c0 in *. lia. }
  destruct (pull_cut_spec history c0 Hc0 ltac:(lia)) as (m & Hm & Ht & Hskip).
  pose proof (pull_cut_le history c0) as Hle.
  exists (take (pull_cut history c0) history), (drop (pull_cut history c0) history), summary.
  split; [by rewrite take_drop|]. split.
  { rewrite Hcut. destruct history; [simpl in *; lia | done]. }
  split; [done|]. split; [rewrite length_drop; unfold c0 in *; lia|]. split.
  - exists m, (drop (S (pull_cut history c0)) history). split; [by apply drop_S|]. split; [done|].
    intros t Ht'. apply list_elem_of_lookup in Ht' as [i Hi].
    apply lookup_take_Some in Hi as [Hi Hlt]. rewrite lookup_drop in Hi. rewrite length_drop in Hlt.
    destruct (Hskip (S (pull_cut history c0) + i)) as (t' & Ht1 & Ht2); [unfold c0 in *; lia | congruence].
  - intros Hr. rewrite (drop_S history m) by done.
    rewrite <- (take_drop (pull_cut history c0) history), (drop_S history m) in Hr by done.
    rewrite rounds_ok_split in Hr by done. apply andb_true_iff in Hr as [_ Hr].
    simpl in *. exact Hr.
Qed.

Lemma total_chars_nonneg msgs : (0 <= total_chars msgs)%Z.
Proof.
  induction msgs as [|m msgs IH]; simpl; [lia|]. enough (0 <= message_chars m)%Z by lia.
  unfold message_chars. enough (0 <= foldr (fun tc n => Z.of_nat (String.length (tc_Args tc)) + n) 0
    (m_ToolCalls m))%Z by lia. induction (m_ToolCalls m); simpl; lia.
Qed.

Lemma total_chars_app l l' : total_chars (l ++ l') = (total_chars l + total_chars l')%Z.
Proof. induction l as [|m l IH]; simpl; [done|]. rewrite IH. lia. Qed.

(** The estimate is monotonic, as its interface asks: adding messages
    anywhere, or making the text of one longer, never lowers it. *)
Theorem estimate_monotonic per l m m' more r :
  (String.length (m_Text m) <= String.length (m_Text m')) ->
  m_ToolCalls m = m_ToolCalls m' ->
  (CharTokenEstimate per (l ++ m :: r) <= CharTokenEstimate per (l ++ m' :: more ++ r))%Z.
Proof.
  intros Ht Hc. unfold CharTokenEstimate. pose proof (total_chars_nonneg (l ++ m :: r)).
  assert (total_chars (l ++ m :: r) <= total_chars (l ++ m' :: more ++ r))%Z.
  { rewrite !total_chars_app. simpl. rewrite total_chars_app. pose proof (total_chars_nonneg more).
    unfold message_chars. rewrite Hc. lia. }
  destruct (Z.leb_spec per 0); [unfold defaultCharsPerToken | ]; apply Z.quot_le_mono; lia.
Qed.
End Compactor.
Arguments Compactor : clear implicits.
Arguments SummarizingConfig : clear implicits.

(** ** A conversation to compact *)

Definition scribe : Provider unit nat :=
  {| prov_id := 1; prov_caps := None;
     prov_Stream := fun _ _ => eff_ret (inr []);
     prov_Generate := fun _ _ => eff_ret (inr {| r_Text := " notes "; r_Reasoning := ""; r_ToolCalls := [];
       r_FinishReason := "stop"; r_Usage := None |}) |}.

Definition small_config (keep : nat) : SummarizingConfig unit nat :=
  {| sc_Provider := scribe; sc_Estimator := CharTokenEstimate 1; sc_MaxTokens := 4;
     sc_KeepRecent := keep; sc_Instructions := "" |}.

Definition call_message (id : string) : Message :=
  {| m_Role := RoleAssistant; m_Text := ""; m_ToolCalls := [{| tc_ID := id; tc_Name := "t"; tc_Args := "{}" |}];
     m_ToolCallID := ""; m_Timestamp := 0 |}.
Definition result_message (id text : string) : Message :=
  {| m_Role := RoleTool; m_Text := text; m_ToolCalls := []; m_ToolCallID := id; m_Timestamp := 0 |}.

Definition tool_history : list Message :=
  [text_message RoleUser "first"; text_message RoleUser "second"; call_message "c1"; result_message "c1" "ok"].

Lemma compact_shape_witness :
  exists out, eff_value (Compact (small_config 1) tt tool_history) 0 = inr out
    /\ length out = 3 /\ rounds_ok [] out = true.
Proof.
  destruct (eff_value (Compact (small_config 1) tt tool_history) 0) as [e|out] eqn:E;
    [vm_compute in E; discriminate|].
  exists out. split; [reflexivity|].
  destruct (compact_shape (small_config 1) tt tool_history 0 out (le_n 1) E)
    as [->|(head & tail & s & H1 & H2 & H3 & H4 & H5 & H6)].
  - vm_compute in E. discriminate.
  - split; [|apply H6; reflexivity]. vm_compute in E. injection E as <-. reflexivity.
Defined.

Lemma estimate_monotonic_witness :
  (CharTokenEstimate 4 ([] ++ text_message RoleUser "abcd" :: [])
   <= CharTokenEstimate 4 ([] ++ text_message RoleUser "abcdefgh" :: tool_history ++ []))%Z.
Proof. apply estimate_monotonic; [simpl; lia | reflexivity]. Defined.
