(* ===== verification/StepStage.v ===== *)
(** * The step chain: src/stepstage.go

    Before every model call a chain of stages runs: session stages append to
    the record, turn stages rewrite the working messages, request stages
    shape one call.  The file models the stages the package ships, the chain
    the Runner builds and the loop that applies it, and proves what each
    scope can and cannot change. *)

From S2P Require Import Prelude GoStr Errors Json Provider TreeBudget Middleware Events Compaction.
Local Open Scope eff_scope.

(** [StepScope] is an [int]; the chain compares and switches on it. *)
Inductive StepScope := ScopeSession | ScopeTurn | ScopeRequest | ScopeOther (n : Z).

#[export] Instance StepScope_eq_dec : EqDecision StepScope.
Proof. solve_decision. Defined.

Definition scope_int (s : StepScope) : Z :=
  match s with ScopeSession => 0 | ScopeTurn => 1 | ScopeRequest => 2 | ScopeOther n => n end.

Record StepInfo := {
  si_Step : Z;
  si_MaxSteps : Z;
  si_Usage : Usage;
  si_Turn : list Message;
}.

(** [sameMessage]. *)
Definition sameMessage (a b : Message) : bool :=
  bool_decide (m_Role a = m_Role b) && String.eqb (m_Text a) (m_Text b)
  && String.eqb (m_ToolCallID a) (m_ToolCallID b)
  && Nat.eqb (length (m_ToolCalls a)) (length (m_ToolCalls b)).

(** [slices.EqualFunc(out[:n], in, sameMessage)] with [n = len(in)], after the
    length test: [in] is matched by the first messages of [out]. *)
Fixpoint appends_to (inp out : list Message) : bool :=
  match inp, out with
  | [], _ => true
  | a :: inp, b :: out => sameMessage b a && appends_to inp out
  | _ :: _, [] => false
  end.

Section Stages.
Context {Ctx W : Type}.

Record StepView := {
  sv_Messages : list Message;
  sv_Tools : list ToolDef;
  sv_Provider : option (Provider Ctx W);
  sv_ProviderName : string;
  sv_Guided : option (ptr GuidedDecoding);
  sv_Generation : GenerationParams;
}.

Record StepStage := {
  ss_Name : string;
  ss_Scope : StepScope;
  ss_Run : Ctx -> StepInfo -> StepView -> eff W Event (result StepView);
}.

Definition set_messages (v : StepView) (msgs : list Message) : StepView :=
  {| sv_Messages := msgs; sv_Tools := sv_Tools v; sv_Provider := sv_Provider v;
     sv_ProviderName := sv_ProviderName v; sv_Guided := sv_Guided v;
     sv_Generation := sv_Generation v |}.

Definition set_tools (v : StepView) (tools : list ToolDef) : StepView :=
  {| sv_Messages := sv_Messages v; sv_Tools := tools; sv_Provider := sv_Provider v;
     sv_ProviderName := sv_ProviderName v; sv_Guided := sv_Guided v;
     sv_Generation := sv_Generation v |}.

(** ** The stages of the package *)

Definition fits (c : Compactor Ctx W) (msgs : list Message) : bool :=
  match cmp_Fits c with Some f => f msgs | None => true end.

Definition compactionStage (c : Compactor Ctx W) : StepStage :=
  {| ss_Name := "agent.compaction";
     ss_Scope := ScopeTurn;
     ss_Run := fun ctx info v =>
       let before := length (sv_Messages v) in
       let* r := cmp_Compact c ctx (sv_Messages v) in
       match r with
       | inl e => eff_ret (inl (wrap_error "agent: compaction: " e))
       | inr compacted =>
           let changed := negb (Nat.eqb (length compacted) before) in
           let v := if changed then set_messages v compacted else v in
           (if changed then
              eff_emit (EventCompaction (si_Step info)
                {| ci_Before := Z.of_nat before; ci_After := Z.of_nat (length compacted) |})
            else eff_ret tt) ;;;
           if (1 <? si_Step info)%Z && negb (fits c (sv_Messages v)) then
             eff_ret (inl (wrap_sentinel ErrContextBudget
               (" at step " +:+ itoa (si_Step info) +:+ ", even after compacting")))
           else eff_ret (inr v)
       end |}.

Definition ToolSelector := Ctx -> list Message -> list ToolDef -> eff W Event (result (list ToolDef)).

Definition selectorStage (sel : ToolSelector) : StepStage :=
  {| ss_Name := "agent.selector";
     ss_Scope := ScopeRequest;
     ss_Run := fun ctx _ v =>
       let* r := sel ctx (sv_Messages v) (sv_Tools v) in
       match r with
       | inl e => eff_ret (inl (wrap_error "agent: tool selector: " e))
       | inr tools => eff_ret (inr (set_tools v tools))
       end |}.

Definition step_budget_note (info : StepInfo) : string :=
  let left := (si_MaxSteps info - si_Step info)%Z in
  (if (left =? 0)%Z
   then "Step " +:+ itoa (si_Step info) +:+ " of " +:+ itoa (si_MaxSteps info)
        +:+ ": this is the last step in this turn."
   else "Step " +:+ itoa (si_Step info) +:+ " of " +:+ itoa (si_MaxSteps info)
        +:+ " in this turn: " +:+ itoa left +:+ " left after this one.")
  +:+ " If the task won't fit, finish the step you're on and tell the user where you got to and what's left, rather than starting something new.".

Definition StepBudgetStage (within : Z) : StepStage :=
  {| ss_Name := "agent.step_budget";
     ss_Scope := ScopeRequest;
     ss_Run := fun _ info v =>
       let w := if (within <=? 0)%Z then Z.max (si_MaxSteps info ÷ 4) 3 else within in
       let left := (si_MaxSteps info - si_Step info)%Z in
       if (w <? left)%Z then eff_ret (inr v)
       else eff_ret (inr (set_messages v
              (sv_Messages v ++ [text_message RoleSystem (step_budget_note info)]))) |}.

(** ** The chain of a Runner *)

(** The comparison [int(a.Scope) - int(b.Scope) < 0]. *)
Definition stage_before (a b : StepStage) : bool :=
  (wrap64 (scope_int (ss_Scope a) - scope_int (ss_Scope b)) <? 0)%Z.

(** [slices.SortStableFunc]. *)
Fixpoint insert_stage (x : StepStage) (l : list StepStage) : list StepStage :=
  match l with
  | [] => [x]
  | y :: l' => if stage_before y x then y :: insert_stage x l' else x :: l
  end.

Definition sort_stages (l : list StepStage) : list StepStage := foldr insert_stage [] l.

Definition stepChain (compactor : option (Compactor Ctx W)) (selector : option ToolSelector)
    (stages : list StepStage) : list StepStage :=
  sort_stages ((match compactor with Some c => [compactionStage c] | None => [] end)
               ++ (match selector with Some s => [selectorStage s] | None => [] end)
               ++ stages).

(** ** Applying the chain *)

Definition stage_error (st : StepStage) (msg : string) : error :=
  EText ("step stage " +:+ go_quote (ss_Name st) +:+ ": " +:+ msg).

(** The checks after one stage ran: what it returned, or the error that
    ends the turn. *)
Definition check_stage (st : StepStage) (view out : StepView) : option error :=
  let req := bool_decide (ss_Scope st = ScopeRequest) in
  if negb req && (is_set (sv_Provider out) || negb (String.eqb (sv_ProviderName out) "")) then
    Some (stage_error st "only a request stage may route a call to another provider")
  else if negb req && negb (ptr_eqb (sv_Guided out) (sv_Guided view)) then
    Some (stage_error st "only a request stage may set a call's grammar")
  else if negb req && negb (GenerationParams_eqb (sv_Generation out) (sv_Generation view)) then
    Some (stage_error st "only a request stage may set a call's generation params")
  else None.

Fixpoint chain_loop (ctx : Ctx) (info : StepInfo) (chain : list StepStage)
    (working recorded : list Message) (view : StepView)
  : eff W Event (result (list Message * list Message * StepView)) :=
  match chain with
  | [] => eff_ret (inr (working, recorded, view))
  | st :: chain =>
      let inp := sv_Messages view in
      let* r := ss_Run st ctx info view in
      match r with
      | inl e => eff_ret (inl (wrap_error ("step stage " +:+ go_quote (ss_Name st) +:+ ": ") e))
      | inr out =>
          match check_stage st view out with
          | Some e => eff_ret (inl e)
          | None =>
              match ss_Scope st with
              | ScopeSession =>
                  if negb (Nat.ltb (length (sv_Messages out)) (length inp))
                     && appends_to inp (sv_Messages out)
                  then chain_loop ctx info chain (sv_Messages out)
                         (recorded ++ drop (length inp) (sv_Messages out))
                         (set_tools out (sv_Tools view))
                  else eff_ret (inl (stage_error st "a session stage may only append to the record"))
              | ScopeTurn =>
                  chain_loop ctx info chain (sv_Messages out) recorded (set_tools out (sv_Tools view))
              | ScopeRequest | ScopeOther _ => chain_loop ctx info chain working recorded out
              end
          end
      end
  end.

Definition first_view (working : list Message) (tools : list ToolDef)
    (guided : option (ptr GuidedDecoding)) (gen : GenerationParams) : StepView :=
  {| sv_Messages := working; sv_Tools := tools; sv_Provider := None; sv_ProviderName := "";
     sv_Guided := guided; sv_Generation := gen |}.

Definition runStepChain (ctx : Ctx) (chain : list StepStage) (info : StepInfo)
    (working : list Message) (tools : list ToolDef) (guided : option (ptr GuidedDecoding))
    (gen : GenerationParams) : eff W Event (result (list Message * list Message * StepView)) :=
  chain_loop ctx info chain working [] (first_view working tools guided gen).

(** ** Order *)

Definition declared (st : StepStage) : Prop :=
  match ss_Scope st with ScopeOther _ => False | _ => True end.

Definition of_scope (s : StepScope) (l : list StepStage) : list StepStage :=
  filter (fun st => ss_Scope st = s) l.

Definition by_scope (l : list StepStage) : list StepStage :=
  of_scope ScopeSession l ++ of_scope ScopeTurn l ++ of_scope ScopeRequest l.

Lemma of_scope_all s l : Forall (fun st => ss_Scope st = s) (of_scope s l).
Proof. apply Forall_forall. intros st H. by apply list_elem_of_filter in H as [? _]. Qed.

Lemma insert_stage_skip x l r :
  Forall (fun y => stage_before y x = true) l -> insert_stage x (l ++ r) = l ++ insert_stage x r.
Proof. induction 1 as [|y l Hy _ IH]; simpl; [done|]. by rewrite Hy, IH. Qed.

Lemma insert_stage_here x l :
  Forall (fun y => stage_before y x = false) l -> insert_stage x l = x :: l.
Proof. destruct 1 as [|y l Hy _]; simpl; [done|]. by rewrite Hy. Qed.

(** Inserting a stage puts it at the front of its scope. *)
Lemma sort_by_scope l : Forall declared l -> sort_stages l = by_scope l.
Proof.
  unfold by_scope. induction 1 as [|x l Hx _ IH]; [done|]. cbn [sort_stages foldr].
  fold (sort_stages l). rewrite IH. unfold of_scope. rewrite !filter_cons.
  assert (Hb : forall s y, ss_Scope y = s -> stage_before y x = (scope_int s <? scope_int (ss_Scope x))%Z
                           \/ exists n, s = ScopeOther n).
  { intros s y Hy. unfold stage_before, declared in *. rewrite Hy.
    destruct s, (ss_Scope x); try contradiction; try (by left); right; eauto. }
  assert (Hall : forall s b, (forall n, s <> ScopeOther n) ->
    (scope_int s <? scope_int (ss_Scope x))%Z = b ->
    Forall (fun y => stage_before y x = b) (of_scope s l)).
  { intros s b Hs Hsb. eapply Forall_impl; [apply of_scope_all|]. intros y Hy.
    destruct (Hb s y Hy) as [->|[n Hn]]; [done | by destruct (Hs n)]. }
  pose proof (Hall ScopeSession) as H1. pose proof (Hall ScopeTurn) as H2.
  pose proof (Hall ScopeRequest) as H3. unfold of_scope in H1, H2, H3. unfold declared in Hx.
  destruct (ss_Scope x) eqn:Ex; try contradiction; simpl;
    repeat (rewrite decide_True by done || rewrite decide_False by done); simpl.
  - apply insert_stage_here. repeat (apply Forall_app; split); auto.
  - rewrite insert_stage_skip by auto. f_equal. apply insert_stage_here.
    apply Forall_app. split; auto.
  - rewrite !insert_stage_skip by auto. do 2 f_equal. apply insert_stage_here. auto.
Qed.

(** The chain of a Runner runs session stages, then turn stages, then
    request stages, in the configured order within each scope, with the
    compactor first among turn stages and the selector first among request
    stages. *)
Theorem step_chain_order compactor selector stages :
  Forall declared stages ->
  stepChain compactor selector stages
  = of_scope ScopeSession stages
    ++ (match compactor with Some c => [compactionStage c] | None => [] end)
    ++ of_scope ScopeTurn stages
    ++ (match selector with Some s => [selectorStage s] | None => [] end)
    ++ of_scope ScopeRequest stages.
Proof.
  intros H. unfold stepChain. rewrite sort_by_scope.
  - unfold by_scope, of_scope. rewrite !filter_app.
    destruct compactor, selector; simpl; by rewrite <- ?app_assoc.
  - apply Forall_app. split; [destruct compactor; repeat constructor|].
    apply Forall_app. split; [destruct selector; repeat constructor | done].
Qed.
End Stages.
Arguments StepView : clear implicits.
Arguments StepStage : clear implicits.

(** ** What each scope can change *)

Section Scopes.
Context {Ctx W : Type}.
Implicit Types (st : StepStage Ctx W) (v view : StepView Ctx W) (chain : list (StepStage Ctx W)).

(** The chain splits where its list does. *)
Lemma chain_loop_app ctx info l1 l2 wk rc view w :
  chain_loop ctx info (l1 ++ l2) wk rc view w
  = eff_bind (chain_loop ctx info l1 wk rc view)
      (fun r => match r with
                | inl e => eff_ret (inl e)
                | inr (wk, rc, v) => chain_loop ctx info l2 wk rc v
                end) w.
Proof.
  revert wk rc view w. induction l1 as [|st l1 IH]; intros wk rc view w; simpl.
  { by rewrite eff_bind_ret_l. }
  rewrite eff_bind_assoc. apply eff_bind_ext. intros [e|out] w1; [by rewrite eff_bind_ret_l|].
  destruct (check_stage st view out); [by rewrite eff_bind_ret_l|].
  destruct (ss_Scope st); try apply IH. case_match; [apply IH | by rewrite eff_bind_ret_l].
Qed.

(** A successful run of a chain passes through a successful run of its
    first part. *)
Lemma chain_loop_split ctx info l1 l2 wk rc view w r :
  eff_value (chain_loop ctx info (l1 ++ l2) wk rc view) w = inr r ->
  exists wk1 rc1 v1,
    eff_value (chain_loop ctx info l1 wk rc view) w = inr (wk1, rc1, v1)
    /\ eff_value (chain_loop ctx info l2 wk1 rc1 v1) (eff_world (chain_loop ctx info l1 wk rc view) w) = inr r.
Proof.
  unfold eff_value at 1. rewrite chain_loop_app.
  fold (eff_value (eff_bind (chain_loop ctx info l1 wk rc view)
    (fun r => match r with inl e => eff_ret (inl e)
              | inr (wk, rc, v) => chain_loop ctx info l2 wk rc v end)) w).
  rewrite eff_value_bind. destruct (eff_value (chain_loop ctx info l1 wk rc view) w) as [e|[[wk1 rc1] v1]];
    [done | eauto 10].
Qed.

(** Inversion of one round of the loop. *)
Lemma chain_loop_cons ctx info st chain wk rc view w r :
  eff_value (chain_loop ctx info (st :: chain) wk rc view) w = inr r ->
  exists out w1, check_stage st view out = None
    /\ match ss_Scope st with
       | ScopeSession =>
           length (sv_Messages view) <= length (sv_Messages out)
           /\ appends_to (sv_Messages view) (sv_Messages out) = true
           /\ eff_value (chain_loop ctx info chain (sv_Messages out)
                (rc ++ drop (length (sv_Messages view)) (sv_Messages out))
                (set_tools out (sv_Tools view))) w1 = inr r
       | ScopeTurn =>
           eff_value (chain_loop ctx info chain (sv_Messages out) rc (set_tools out (sv_Tools view))) w1 = inr r
       | _ => eff_value (chain_loop ctx info chain wk rc out) w1 = inr r
       end.
Proof.
  cbn [chain_loop]. rewrite eff_value_bind.
  destruct (eff_value (ss_Run st ctx info view) w) as [e|out]; [done|].
  destruct (check_stage st view out) eqn:Ec; [done|]. intros H.
  exists out, (eff_world (ss_Run st ctx info view) w). split; [done|].
  destruct (ss_Scope st); try done. case_match eqn:Ea; [|done].
  apply andb_true_iff in Ea as [El Ea]. rewrite negb_true_iff, Nat.ltb_ge in El. done.
Qed.

(** Request stages leave the working messages and the record alone. *)
Lemma request_stages_keep ctx info chain wk rc view w wk' rc' v' :
  Forall (fun st => ss_Scope st = ScopeRequest) chain ->
  eff_value (chain_loop ctx info chain wk rc view) w = inr (wk', rc', v') -> wk' = wk /\ rc' = rc.
Proof.
  intros Hall. revert view w. induction Hall as [|st chain Hst _ IH]; intros view w H.
  { by injection H as <- <- _. }
  apply chain_loop_cons in H as (out & w1 & _ & H). rewrite Hst in H. eauto.
Qed.

(** The view that stages of the other scopes hand on. *)
Record clean (tools : list ToolDef) (guided : option (ptr GuidedDecoding)) (gen : GenerationParams)
    (wk : list Message) v : Prop := {
  cl_messages : sv_Messages v = wk;
  cl_tools : sv_Tools v = tools;
  cl_provider : sv_Provider v = None;
  cl_name : sv_ProviderName v = "";
  cl_guided : ptr_eqb (sv_Guided v) guided = true;
  cl_gen : GenerationParams_eqb (sv_Generation v) gen = true;
}.

Lemma ptr_eqb_trans {A} (p q r : option (ptr A)) :
  ptr_eqb p q = true -> ptr_eqb q r = true -> ptr_eqb p r = true.
Proof. destruct p, q, r; simpl; try done. rewrite !Pos.eqb_eq. congruence. Qed.

Lemma generation_eqb_trans a b c :
  GenerationParams_eqb a b = true -> GenerationParams_eqb b c = true -> GenerationParams_eqb a c = true.
Proof.
  unfold GenerationParams_eqb. rewrite !andb_true_iff, !Z.eqb_eq, !bool_decide_eq_true.
  intros [[[[? ?] ?] ?] ?] [[[[? ?] ?] ?] ?]. repeat split; eauto using ptr_eqb_trans; congruence.
Qed.

Lemma generation_eqb_refl a : GenerationParams_eqb a a = true.
Proof.
  unfold GenerationParams_eqb. rewrite !ptr_eqb_refl, Z.eqb_refl. simpl.
  rewrite !andb_true_r. by apply bool_decide_eq_true.
Qed.

Lemma check_stage_clean st tools guided gen wk view out :
  ss_Scope st <> ScopeRequest -> clean tools guided gen wk view -> check_stage st view out = None ->
  clean tools guided gen (sv_Messages out) (set_tools out (sv_Tools view)).
Proof.
  intros Hs [H1 H2 H3 H4 H5 H6]. unfold check_stage. rewrite bool_decide_eq_false_2 by done. simpl.
  destruct (sv_Provider out) eqn:Ep; [done|]. simpl.
  destruct (String.eqb_spec (sv_ProviderName out) ""); [|done]. simpl.
  destruct (ptr_eqb (sv_Guided out) (sv_Guided view)) eqn:Eg; [|done]. simpl.
  destruct (GenerationParams_eqb (sv_Generation out) (sv_Generation view)) eqn:En; [|done]. intros _.
  split; simpl; try done; [exact (ptr_eqb_trans _ _ _ Eg H5) | exact (generation_eqb_trans _ _ _ En H6)].
Qed.

Lemma turn_stages_clean ctx info chain tools guided gen wk rc view w wk' rc' v' :
  Forall (fun st => ss_Scope st = ScopeTurn) chain -> clean tools guided gen wk view ->
  eff_value (chain_loop ctx info chain wk rc view) w = inr (wk', rc', v') ->
  rc' = rc /\ clean tools guided gen wk' v'.
Proof.
  intros Hall. revert wk view w. induction Hall as [|st chain Hst _ IH]; intros wk view w Hcl H.
  { by injection H as <- <- <-. }
  apply chain_loop_cons in H as (out & w1 & Hc & H). rewrite Hst in H.
  eapply IH, H. eapply check_stage_clean, Hc; [by rewrite Hst | done].
Qed.

Definition same_as (a b : Message) : Prop := sameMessage b a = true.

Lemma sameMessage_refl m : sameMessage m m = true.
Proof. unfold sameMessage. by rewrite bool_decide_eq_true_2, !String.eqb_refl, Nat.eqb_refl. Qed.

Lemma same_as_trans a b c : same_as a b -> same_as b c -> same_as a c.
Proof.
  unfold same_as, sameMessage.
  rewrite !andb_true_iff, !bool_decide_eq_true, !String.eqb_eq, !Nat.eqb_eq. intuition congruence.
Qed.

Lemma appends_to_split inp out :
  appends_to inp out = true -> exists pre, out = pre ++ drop (length inp) out /\ Forall2 same_as inp pre.
Proof.
  revert out. induction inp as [|a inp IH]; intros [|b out]; simpl; try done.
  - by exists [].
  - by exists [].
  - intros [Hs Ha]%andb_true_iff. destruct (IH out Ha) as (pre & He & Hf).
    exists (b :: pre). split; [simpl; by rewrite <- He | by constructor].
Qed.

Lemma same_as_refl_list l : Forall2 same_as l l.
Proof. induction l; constructor; [apply sameMessage_refl | done]. Qed.

Lemma same_as_trans_list l1 l2 l3 :
  Forall2 same_as l1 l2 -> Forall2 same_as l2 l3 -> Forall2 same_as l1 l3.
Proof.
  intros H. revert l3. induction H as [|a b l1 l2 Hab _ IH]; intros l3 H3; inversion H3; subst;
    constructor; eauto using same_as_trans.
Qed.

Lemma session_stages_append ctx info chain tools guided gen wk rc view w wk' rc' v' :
  Forall (fun st => ss_Scope st = ScopeSession) chain -> clean tools guided gen wk view ->
  eff_value (chain_loop ctx info chain wk rc view) w = inr (wk', rc', v') ->
  clean tools guided gen wk' v' /\ exists new, rc' = rc ++ new /\ Forall2 same_as (wk ++ new) wk'.
Proof.
  intros Hall. revert wk rc view w. induction Hall as [|st chain Hst _ IH]; intros wk rc view w Hcl H.
  { injection H as <- <- <-. split; [done|]. exists []. rewrite !app_nil_r.
    split; [done | apply same_as_refl_list]. }
  apply chain_loop_cons in H as (out & w1 & Hc & H). rewrite Hst in H. destruct H as (_ & Ha & H).
  destruct (IH _ _ _ _ (check_stage_clean st _ _ _ _ view out ltac:(by rewrite Hst) Hcl Hc) H)
    as (Hcl' & new & -> & Hf). split; [done|].
  destruct (appends_to_split _ _ Ha) as (pre & He & Hp). rewrite (cl_messages _ _ _ _ _ Hcl) in *.
  exists (drop (length wk) (sv_Messages out) ++ new). split; [by rewrite app_assoc|].
  eapply same_as_trans_list, Hf. rewrite He at 2. rewrite <- app_assoc.
  apply Forall2_app; [done | apply same_as_refl_list].
Qed.

(** C19: What survives a step's chain.  When the chain of session, turn and
    request stages succeeds, the record grew by exactly what the session
    stages appended (the rest of what they returned is message for message
    what they were given); the working messages are those the session and
    turn stages left, so nothing a request stage did outlives the call; and
    the view the request stages start from has those messages, the step's
    own tools, no routed provider, and the turn's grammar and generation
    parameters. *)
Theorem step_chain_scopes ctx info sess turn req working tools guided gen w wk rc view :
  Forall (fun st => ss_Scope st = ScopeSession) sess ->
  Forall (fun st => ss_Scope st = ScopeTurn) turn ->
  Forall (fun st => ss_Scope st = ScopeRequest) req ->
  eff_value (runStepChain ctx (sess ++ turn ++ req) info working tools guided gen) w
    = inr (wk, rc, view) ->
  exists wk1 v1 v2,
    eff_value (runStepChain ctx sess info working tools guided gen) w = inr (wk1, rc, v1)
    /\ Forall2 same_as (working ++ rc) wk1
    /\ eff_value (runStepChain ctx (sess ++ turn) info working tools guided gen) w = inr (wk, rc, v2)
    /\ clean tools guided gen wk v2
    /\ (turn = [] -> wk = wk1).
Proof.
  intros Hs Ht Hr. unfold runStepChain. rewrite app_assoc. intros H.
  assert (Hcl : clean tools guided gen working (first_view (Ctx:=Ctx) (W:=W) working tools guided gen))
    by (split; simpl; auto using ptr_eqb_refl, generation_eqb_refl).
  apply chain_loop_split in H as (wk2 & rc2 & v2 & H2 & H3).
  destruct (request_stages_keep _ _ _ _ _ _ _ _ _ _ Hr H3) as [-> ->].
  pose proof H2 as H2'. apply chain_loop_split in H2' as (wk1 & rc1 & v1 & H1 & H2').
  destruct (session_stages_append _ _ _ _ _ _ _ _ _ _ _ _ _ Hs Hcl H1) as (Hcl1 & new & Hn & Hf).
  destruct (turn_stages_clean _ _ _ _ _ _ _ _ _ _ _ _ _ Ht Hcl1 H2') as [-> Hcl2].
  simpl in Hn. subst new. exists wk1, v1, v2. repeat split; try done; try apply Hcl2.
  intros ->. by injection H2' as ->.
Qed.

(** After the first step the compaction stage enforces the budget: when
    it lets a step through, the messages fit; it reports a compaction
    exactly when the count of messages changed. *)
Theorem compaction_stage_enforces c ctx info v w v' :
  (1 < si_Step info)%Z ->
  eff_value (ss_Run (compactionStage c) ctx info v) w = inr v' ->
  fits c (sv_Messages v') = true
  /\ eff_events (ss_Run (compactionStage c) ctx info v) w
     = eff_events (cmp_Compact c ctx (sv_Messages v)) w
       ++ (if Nat.eqb (length (sv_Messages v')) (length (sv_Messages v)) then []
           else [EventCompaction (si_Step info) {| ci_Before := Z.of_nat (length (sv_Messages v));
                   ci_After := Z.of_nat (length (sv_Messages v')) |}]).
Proof.
  intros Hs. unfold eff_value, eff_events. simpl. unfold eff_bind.
  destruct (cmp_Compact c ctx (sv_Messages v) w) as [[[e|out] evs] w1]; [done|].
  rewrite (proj2 (Z.ltb_lt 1 _)) by done. simpl.
  destruct (Nat.eqb_spec (length out) (length (sv_Messages v))) as [He|He]; simpl;
    destruct (fits c _) eqn:Ef; simpl; try done; intros [= <-]; simpl.
  - by rewrite Nat.eqb_refl.
  - rewrite (proj2 (Nat.eqb_neq _ _)) by done. by split.
Qed.
End Scopes.

(** ** A chain to run *)

Definition note_stage (scope : StepScope) (text : string) : StepStage unit nat :=
  {| ss_Name := text; ss_Scope := scope;
     ss_Run := fun _ _ v => eff_ret (inr (set_messages v (sv_Messages v ++ [text_message RoleSystem text]))) |}.

Definition route_stage (p : Provider unit nat) (scope : StepScope) : StepStage unit nat :=
  {| ss_Name := "route"; ss_Scope := scope;
     ss_Run := fun _ _ v => eff_ret (inr {| sv_Messages := sv_Messages v; sv_Tools := sv_Tools v;
       sv_Provider := Some p; sv_ProviderName := "fast"; sv_Guided := sv_Guided v;
       sv_Generation := sv_Generation v |}) |}.

Definition demo_info (step : Z) : StepInfo :=
  {| si_Step := step; si_MaxSteps := 8; si_Usage := Usage_zero; si_Turn := [] |}.

Definition demo_stages : list (StepStage unit nat) :=
  [route_stage scribe ScopeRequest; note_stage ScopeSession "log"; note_stage ScopeRequest "hint"].

Lemma step_chain_order_witness :
  ss_Name <$> stepChain (Some (SummarizingCompactor (small_config 1))) None demo_stages
  = ["log"; "agent.compaction"; "route"; "hint"].
Proof.
  rewrite (step_chain_order (Some (SummarizingCompactor (small_config 1))) None demo_stages);
    [reflexivity | repeat constructor].
Defined.

Lemma step_chain_scopes_witness :
  exists wk1 v1 (v2 : StepView unit nat),
    eff_value (runStepChain tt [note_stage ScopeSession "log"] (demo_info 1)
      [text_message RoleUser "hi"] [] None GenerationParams_zero) 0
      = inr (wk1, [text_message RoleSystem "log"], v1)
    /\ clean [] None GenerationParams_zero [text_message RoleUser "hi"; text_message RoleSystem "log"] v2.
Proof.
  destruct (step_chain_scopes tt (demo_info 1) [note_stage ScopeSession "log"] []
    [route_stage scribe ScopeRequest; note_stage ScopeRequest "hint"] [text_message RoleUser "hi"] [] None
    GenerationParams_zero 0 _ _ _ ltac:(repeat constructor) ltac:(constructor) ltac:(repeat constructor)
    eq_refl) as (wk1 & v1 & v2 & H1 & _ & _ & H4 & _).
  exists wk1, v1, v2. split; [exact H1 | exact H4].
Defined.

Lemma compaction_stage_enforces_witness :
  exists v', eff_value (ss_Run (compactionStage (SummarizingCompactor
      {| sc_Provider := scribe; sc_Estimator := CharTokenEstimate 1; sc_MaxTokens := 50;
         sc_KeepRecent := 1; sc_Instructions := "" |})) tt (demo_info 2)
      (first_view (replicate 11 (text_message RoleUser "hello")) [] None GenerationParams_zero)) 0 = inr v'
    /\ fits (SummarizingCompactor {| sc_Provider := scribe; sc_Estimator := CharTokenEstimate 1;
         sc_MaxTokens := 50; sc_KeepRecent := 1; sc_Instructions := "" |}) (sv_Messages v') = true.
Proof.
  eexists. split; [vm_compute; reflexivity|].
  refine (proj1 (compaction_stage_enforces _ tt (demo_info 2)
    (first_view (replicate 11 (text_message RoleUser "hello")) [] None GenerationParams_zero) 0 _ _ _));
    [reflexivity | vm_compute; reflexivity].
Defined.

(** ** A compaction the stage drops

    [Compact] of a history whose cut is 1 replaces one message by its
    summary: the result fits the budget and has the same length.  The stage
    takes equal lengths for "nothing was compacted", drops the result, and
    ends the turn for not fitting. *)
Definition budget50 : SummarizingConfig unit nat :=
  {| sc_Provider := scribe; sc_Estimator := CharTokenEstimate 1; sc_MaxTokens := 50;
     sc_KeepRecent := 1; sc_Instructions := "" |}.

Definition long_then_short : list Message :=
  [text_message RoleUser (str_concat (replicate 12 "hello")); text_message RoleUser "go"].

Lemma same_length_compaction_dropped :
  (exists out, eff_value (Compact budget50 tt long_then_short) 0 = inr out
     /\ Fits budget50 out = true /\ Fits budget50 long_then_short = false)
  /\ exists e, eff_value (ss_Run (compactionStage (SummarizingCompactor budget50)) tt (demo_info 2)
       (first_view long_then_short [] None GenerationParams_zero)) 0 = inl e
     /\ error_is ErrContextBudget e = true.
Proof.
  split.
  - eexists. split; [vm_compute; reflexivity | split; vm_compute; reflexivity].
  - eexists. split; [vm_compute; reflexivity | reflexivity].
Qed.

(** A session stage that rewrites the arguments of a recorded tool call
    passes the append-only check, which compares the number of calls only. *)
Definition rewrite_args_stage : StepStage unit nat :=
  {| ss_Name := "rewrite"; ss_Scope := ScopeSession;
     ss_Run := fun _ _ v => eff_ret (inr (set_messages v
       ((fun m => {| m_Role := m_Role m; m_Text := m_Text m;
                     m_ToolCalls := (fun tc => {| tc_ID := tc_ID tc; tc_Name := "other"; tc_Args := "{}" |}) <$> m_ToolCalls m;
                     m_ToolCallID := m_ToolCallID m; m_Timestamp := m_Timestamp m |}) <$> sv_Messages v))) |}.

Lemma session_rewrite_undetected :
  exists wk v, eff_value (runStepChain tt [rewrite_args_stage] (demo_info 2) tool_history [] None
      GenerationParams_zero) 0 = inr (wk, [], v) /\ wk <> tool_history.
Proof. eexists _, _. split; [vm_compute; reflexivity | vm_compute; discriminate]. Qed.
