(* ===== verification/Stuck.v ===== *)
(** * The stuck detector: src/stuck.go

    A request stage that reads the turn's record, splits it into steps, keys
    each step and looks for a repeat, a run of one error or an alternation at
    the end of the turn.  The hash of the default key and the canonical form
    of JSON arguments are parameters: the detector only compares them. *)

From S2P Require Import Prelude GoStr Errors Json Provider TreeBudget Middleware Events Compaction StepStage.
Local Open Scope eff_scope.

(** ** Steps and keys *)

Record StepRecord := {
  rec_Step : Z;
  rec_Assistant : Message;
  rec_Results : list Message;
}.

Record StuckKey := {
  sk_Call : string;
  sk_Result : string;
  sk_Error : bool;
  sk_Tools : list string;
}.

Definition StuckKeyFunc := StepRecord -> option StuckKey.

Definition toolErrorPrefix : string := "tool reported an error: ".
Definition toolFailedPrefix : string := "tool call failed: ".
Definition toolDeniedPrefix : string := "tool call not permitted: ".

(** [slices.Contains] guarding an append. *)
Definition add_new (l : list string) (x : string) : list string :=
  if str_mem x l then l else l ++ [x].

Definition failed_result (m : Message) : bool :=
  has_prefix toolErrorPrefix (m_Text m) || has_prefix toolFailedPrefix (m_Text m)
  || has_prefix toolDeniedPrefix (m_Text m).

(** [canonicalArgs], over the round trip through [encoding/json]. *)
Definition canonicalArgs (roundtrip : string -> option string) (raw : string) : string :=
  match roundtrip raw with Some out => out | None => raw end.

Definition DefaultStuckKey (sha256 : string -> string) (roundtrip : string -> option string)
  : StuckKeyFunc := fun rec =>
  match m_ToolCalls (rec_Assistant rec) with
  | [] => None
  | calls =>
      let tools := filter (fun m => is_tool m = true) (rec_Results rec) in
      Some {| sk_Call := str_join newline
                ((fun tc => tc_Name tc +:+ " " +:+ canonicalArgs roundtrip (tc_Args tc)) <$> calls);
              sk_Result := sha256 (str_concat ((fun m => m_Text m +:+ nul) <$> tools));
              sk_Error := existsb failed_result tools;
              sk_Tools := foldl add_new [] (tc_Name <$> calls) |}
  end.

(** The loop of [stepRecords]; [add_result] writes to the last record. *)
Definition add_result (r : StepRecord) (m : Message) : StepRecord :=
  {| rec_Step := rec_Step r; rec_Assistant := rec_Assistant r; rec_Results := rec_Results r ++ [m] |}.

Fixpoint on_last {A} (f : A -> A) (l : list A) : list A :=
  match l with
  | [] => []
  | [a] => [f a]
  | a :: l => a :: on_last f l
  end.

Definition record_message (out : list StepRecord) (m : Message) : list StepRecord :=
  if is_assistant m then
    out ++ [{| rec_Step := Z.of_nat (length out) + 1; rec_Assistant := m; rec_Results := [] |}]
  else on_last (fun r => add_result r m) out.

Definition stepRecords (turn : list Message) : list StepRecord := foldl record_message [] turn.

(** ** Detection *)

Record keyedStep := { ks_step : Z; ks_key : StuckKey }.

Definition same (k o : keyedStep) : bool :=
  String.eqb (sk_Call (ks_key k)) (sk_Call (ks_key o))
  && String.eqb (sk_Result (ks_key k)) (sk_Result (ks_key o)).

Definition StuckRepeat : string := "repeat".
Definition StuckAlternate : string := "alternate".
Definition StuckSameError : string := "same-error".

(** The keyed steps after the last one left out. *)
Definition segment (keyOf : StuckKeyFunc) (recs : list StepRecord) : list keyedStep :=
  foldl (fun seg r => match keyOf r with
                      | None => []
                      | Some k => seg ++ [{| ks_step := rec_Step r; ks_key := k |}]
                      end) [] recs.

(** How far a loop runs whose condition holds on a prefix. *)
Fixpoint count_while {A} (p : A -> bool) (l : list A) : nat :=
  match l with [] => 0 | a :: l => if p a then S (count_while p l) else 0 end.

(** The last [k] elements. *)
Definition tail_of {A} (k : nat) (l : list A) : list A := drop (length l - k) l.

Definition finding (pattern : string) (count : Z) (steps : list keyedStep) : StuckFinding :=
  let call := match last steps with Some s => sk_Call (ks_key s) | None => "" end in
  {| sf_Pattern := pattern;
     sf_Count := count;
     sf_Steps := ks_step <$> steps;
     sf_Tools := foldl add_new [] (flat_map (fun s => sk_Tools (ks_key s)) steps);
     sf_Call := if Nat.ltb 200 (String.length call) then str_take 200 call else call |}.

(** The three loops run backwards over [seg], so they run forwards over its
    reverse: [last], the step before it, and so on. *)
Definition repeat_run (last : keyedStep) (before : list keyedStep) : nat :=
  S (count_while (fun k => same k last) before).

Definition error_run (last : keyedStep) (before : list keyedStep) : nat :=
  S (count_while (fun k => sk_Error (ks_key k)
                           && String.eqb (sk_Result (ks_key k)) (sk_Result (ks_key last))) before).

Definition alternation_length (r : list keyedStep) : nat :=
  2 + count_while (fun '(newer, older) => same older newer) (zip r (drop 2 r)).

Definition detectStuck (recs : list StepRecord) (keyOf : StuckKeyFunc) (repeats alternations errs : Z)
  : option StuckFinding :=
  let seg := segment keyOf recs in
  match rev seg with
  | [] => None
  | last :: before =>
      let run := repeat_run last before in
      if ((0 <? repeats) && (repeats <=? Z.of_nat run))%Z
      then Some (finding StuckRepeat (Z.of_nat run) (tail_of run seg))
      else
        let erun := error_run last before in
        if ((0 <? errs)%Z && sk_Error (ks_key last) && (errs <=? Z.of_nat erun)%Z)
        then Some (finding StuckSameError (Z.of_nat erun) (tail_of erun seg))
        else
          match before with
          | prev :: _ =>
              let pairs := alternation_length (rev seg) / 2 in
              if ((0 <? alternations)%Z && negb (same prev last) && (alternations <=? Z.of_nat pairs)%Z)
              then Some (finding StuckAlternate (Z.of_nat pairs) (tail_of (2 * pairs) seg))
              else None
          | [] => None
          end
  end.

(** ** Policies and the stage *)

Definition StuckFinding_String (f : StuckFinding) : string :=
  let what := match sf_Tools f with [] => "the same step" | ts => str_join ", " ts end in
  if String.eqb (sf_Pattern f) StuckAlternate then
    "alternated between the same two calls (" +:+ what +:+ ") " +:+ itoa (sf_Count f)
    +:+ " times, with the same results each time"
  else if String.eqb (sf_Pattern f) StuckSameError then
    "got the same error " +:+ itoa (sf_Count f) +:+ " times in a row (" +:+ what +:+ ")"
  else "repeated " +:+ what +:+ " " +:+ itoa (sf_Count f) +:+ " times with the same result".

Section Policies.
Context {Ctx W : Type}.

Definition StuckPolicy := Ctx -> StepInfo -> StepView Ctx W -> StuckFinding -> eff W Event (result (StepView Ctx W)).

Definition stuck_note_text (f : StuckFinding) : string :=
  "You have " +:+ StuckFinding_String f +:+ ". Doing it again will give the same result. Try a different approach, or stop and say what is blocking you.".

Definition StuckNote : StuckPolicy := fun _ _ v f =>
  eff_ret (inr (set_messages v (sv_Messages v ++ [text_message RoleSystem (stuck_note_text f)]))).

(** [fresh] is the address of a merged penalties struct. *)
Definition StuckGeneration (fresh : positive) (over : GenerationParams) : StuckPolicy := fun _ _ v _ =>
  eff_ret (inr {| sv_Messages := sv_Messages v; sv_Tools := sv_Tools v; sv_Provider := sv_Provider v;
                  sv_ProviderName := sv_ProviderName v; sv_Guided := sv_Guided v;
                  sv_Generation := generation_merge fresh (sv_Generation v) over |}).

Definition StuckDropTools : StuckPolicy := fun _ _ v f =>
  eff_ret (inr (set_tools v (filter (fun td => str_mem (td_Name td) (sf_Tools f) = false) (sv_Tools v)))).

Definition StuckRoute (p : Provider Ctx W) (name : string) : StuckPolicy := fun _ _ v _ =>
  eff_ret (inr {| sv_Messages := sv_Messages v; sv_Tools := sv_Tools v; sv_Provider := Some p;
                  sv_ProviderName := name; sv_Guided := sv_Guided v; sv_Generation := sv_Generation v |}).

Definition StuckStop : StuckPolicy := fun _ _ _ f =>
  eff_ret (inl (wrap_sentinel ErrTurnStopped (": the model " +:+ StuckFinding_String f))).

Fixpoint StuckAll (policies : list StuckPolicy) : StuckPolicy := fun ctx info v f =>
  match policies with
  | [] => eff_ret (inr v)
  | p :: policies =>
      let* r := p ctx info v f in
      match r with inl e => eff_ret (inl e) | inr v => StuckAll policies ctx info v f end
  end.

Record StuckConfig := {
  stc_Key : StuckKeyFunc;
  stc_Repeats : Z;
  stc_Alternations : Z;
  stc_Errors : Z;
  stc_Policy : option StuckPolicy;
}.

Definition threshold (n : Z) : Z := if (n =? 0)%Z then 3 else n.

(** The configuration with its key resolved (nil is [DefaultStuckKey]). *)
Definition NewStuckDetector (cfg : StuckConfig) : StepStage Ctx W :=
  let policy := match stc_Policy cfg with Some p => p | None => StuckNote end in
  {| ss_Name := "agent.stuck";
     ss_Scope := ScopeRequest;
     ss_Run := fun ctx info view =>
       match detectStuck (stepRecords (si_Turn info)) (stc_Key cfg) (threshold (stc_Repeats cfg))
               (threshold (stc_Alternations cfg)) (threshold (stc_Errors cfg)) with
       | None => eff_ret (inr view)
       | Some f => eff_emit (EventStuck (si_Step info) f) ;;; policy ctx info view f
       end |}.
End Policies.
Arguments StuckConfig : clear implicits.

(** ** Splitting the record *)

Definition record_messages (r : StepRecord) : list Message := rec_Assistant r :: rec_Results r.

(** The turn from its first assistant message on. *)
Fixpoint from_first_assistant (turn : list Message) : list Message :=
  match turn with
  | [] => []
  | m :: turn => if is_assistant m then m :: turn else from_first_assistant turn
  end.

Lemma on_last_snoc {A} (f : A -> A) l a : on_last f (l ++ [a]) = l ++ [f a].
Proof.
  induction l as [|b l IH]; [done|]. simpl. rewrite IH. by destruct l.
Qed.

Record records_ok (recs : list StepRecord) : Prop := {
  ro_steps : rec_Step <$> recs = (fun i => Z.of_nat i + 1)%Z <$> seq 0 (length recs);
  ro_assistant : Forall (fun r => is_assistant (rec_Assistant r) = true
                                  /\ Forall (fun m => is_assistant m = false) (rec_Results r)) recs;
}.

Lemma record_message_ok recs m : records_ok recs -> records_ok (record_message recs m).
Proof.
  intros [Hs Ha]. unfold record_message. destruct (is_assistant m) eqn:Em.
  - split.
    + rewrite fmap_app, length_app. simpl length. rewrite seq_app, fmap_app, Hs. done.
    + apply Forall_app. split; [done|]. repeat constructor; done.
  - destruct (decide (recs = [])) as [->|Hne]; [by split|].
    destruct (exists_last Hne) as (l & a & ->). rewrite on_last_snoc. split.
    + rewrite fmap_app, length_app in *. simpl in *. exact Hs.
    + apply Forall_app in Ha as [Hl Ha]. apply Forall_app. split; [done|].
      apply Forall_singleton in Ha as [H1 H2]. constructor; [|done]. split; [done|].
      simpl. apply Forall_app. by split; [|repeat constructor].
Qed.

Lemma stepRecords_messages turn recs :
  recs <> [] ->
  flat_map record_messages (foldl record_message recs turn) = flat_map record_messages recs ++ turn.
Proof.
  revert recs. induction turn as [|m turn IH]; intros recs Hne; simpl; [by rewrite app_nil_r|].
  assert (Hm : flat_map record_messages (record_message recs m) = flat_map record_messages recs ++ [m]
               /\ record_message recs m <> []).
  { unfold record_message. destruct (is_assistant m).
    - rewrite flat_map_app. simpl. split; [done|]. by destruct recs.
    - destruct (exists_last Hne) as (l & a & ->). rewrite on_last_snoc, !flat_map_app. simpl.
      rewrite !app_nil_r, <- app_assoc. split; [done|]. by destruct l. }
  destruct Hm as [Hm Hne']. rewrite IH by done. rewrite Hm, <- app_assoc. done.
Qed.

(** [stepRecords] partitions the turn from its first assistant message
    on: the records' messages in order are exactly those, each record is one
    assistant message and the messages up to the next one, and the steps are
    numbered from one. *)
Theorem step_records_partition turn :
  flat_map record_messages (stepRecords turn) = from_first_assistant turn
  /\ records_ok (stepRecords turn).
Proof.
  split.
  - unfold stepRecords. induction turn as [|m turn IH]; simpl; [done|].
    unfold record_message at 2. simpl. destruct (is_assistant m); [|exact IH].
    by rewrite stepRecords_messages.
  - unfold stepRecords. assert (H0 : records_ok []) by (split; [done | constructor]).
    revert H0. generalize (@nil StepRecord). induction turn as [|m turn IH]; intros recs H; simpl; [done|].
    apply IH. by apply record_message_ok.
Qed.

(** ** What a finding means *)

Lemma count_while_spec {A} (p : A -> bool) l :
  Forall (fun a => p a = true) (take (count_while p l) l) /\ count_while p l <= length l.
Proof.
  induction l as [|a l [IH1 IH2]]; simpl; [split; [constructor | lia]|].
  destruct (p a) eqn:E; simpl; [|split; [constructor | lia]]. split; [by constructor | lia].
Qed.

Lemma count_while_max {A} (p : A -> bool) l k :
  k <= length l -> Forall (fun a => p a = true) (take k l) -> k <= count_while p l.
Proof.
  revert k. induction l as [|a l IH]; intros [|k] Hk H; simpl in *; try lia.
  inversion H as [|? ? Ha Hl]; subst. rewrite Ha. specialize (IH k ltac:(lia) Hl). lia.
Qed.

Lemma tail_of_rev {A} k (l : list A) : tail_of k l = rev (take k (rev l)).
Proof.
  unfold tail_of. pose proof (skipn_rev (length l - k) (rev l)) as H.
  rewrite rev_involutive in H. rewrite H, length_rev.
  destruct (decide (k <= length l)).
  - by replace (length l - (length l - k)) with k by lia.
  - rewrite !take_ge; rewrite ?length_rev; try lia; done.
Qed.

Section Detection.
Variables (keyOf : StuckKeyFunc) (recs : list StepRecord) (repeats alternations errs : Z).
Abbreviation seg := (segment keyOf recs).

(** The steps of a run all match [last]. *)
Lemma repeat_run_spec last before :
  rev seg = last :: before ->
  repeat_run last before <= length seg
  /\ Forall (fun k => same k last = true) (tail_of (repeat_run last before) seg).
Proof.
  intros Hr. destruct (count_while_spec (fun k => same k last) before) as [H1 H2].
  pose proof (f_equal length Hr) as Hl. rewrite length_rev in Hl. simpl in Hl.
  unfold repeat_run. split; [lia|]. rewrite tail_of_rev, Hr. simpl.
  apply Forall_app. split; [by apply Forall_rev|]. repeat constructor.
  unfold same. by rewrite !String.eqb_refl.
Qed.

Lemma error_run_spec last before :
  rev seg = last :: before -> sk_Error (ks_key last) = true ->
  Forall (fun k => sk_Error (ks_key k) = true /\ sk_Result (ks_key k) = sk_Result (ks_key last))
    (tail_of (error_run last before) seg).
Proof.
  intros Hr He. destruct (count_while_spec (fun k => sk_Error (ks_key k)
    && String.eqb (sk_Result (ks_key k)) (sk_Result (ks_key last))) before) as [H1 H2].
  unfold error_run. rewrite tail_of_rev, Hr. simpl.
  apply Forall_app. split; [apply Forall_rev|by repeat constructor].
  eapply Forall_impl; [exact H1|]. intros k [Hk Hk2]%andb_true_iff. split; [done|].
  by apply String.eqb_eq.
Qed.

(** [detectStuck] reports a repeat exactly when the most recent
    [repeats] steps (none left out by the key) have the same call and the
    same result; the finding then covers every step of the run. *)
Theorem stuck_repeat_iff :
  (0 < repeats)%Z ->
  (exists f, detectStuck recs keyOf repeats alternations errs = Some f /\ sf_Pattern f = StuckRepeat)
  <-> (exists last, (repeats <= Z.of_nat (length seg))%Z
        /\ Forall (fun k => same k last = true) (tail_of (Z.to_nat repeats) seg)
        /\ list.last seg = Some last).
Proof.
  intros Hp. unfold detectStuck. destruct (rev seg) as [|last before] eqn:Hr.
  { split; [by intros (f & Hf & _)|]. intros (l & Hl & _).
    apply (f_equal length) in Hr. rewrite length_rev in Hr. simpl in Hr. lia. }
  assert (Hseg : seg = rev before ++ [last]).
  { rewrite <- (rev_involutive seg), Hr. done. }
  assert (Hlast : list.last seg = Some last) by (rewrite Hseg; apply last_snoc).
  rewrite (proj2 (Z.ltb_lt 0 repeats)) by done. simpl.
  destruct (repeat_run_spec last before Hr) as [Hlen Hall].
  destruct (Z.leb_spec repeats (Z.of_nat (repeat_run last before))) as [Hle|Hgt].
  - split; [|by eexists]. intros _. exists last. split; [lia|]. split; [|done].
    rewrite tail_of_rev in *. apply Forall_rev in Hall. rewrite rev_involutive in Hall.
    apply Forall_rev. eapply Forall_take with (n := Z.to_nat repeats) in Hall.
    rewrite take_take in Hall. by rewrite Nat.min_l in Hall by lia.
  - split.
    + intros (f & Hf & Hpat). exfalso.
      destruct (_ && _ && _); [injection Hf as <-; discriminate|].
      destruct before; [done|]. destruct (_ && _ && _); [injection Hf as <-; discriminate | done].
    + intros (l & Hl & Hf & Hl2). exfalso. assert (l = last) as -> by congruence.
      rewrite tail_of_rev in Hf. apply Forall_rev in Hf. rewrite rev_involutive, Hr in Hf.
      destruct (Z.to_nat repeats) as [|r] eqn:Er; [lia|]. simpl in Hf.
      inversion Hf as [|? ? _ Hf']; subst.
      apply (f_equal length) in Hr as Hlr. rewrite length_rev in Hlr. simpl in Hlr.
      assert (r <= count_while (fun k => same k last) before) by (apply count_while_max; [lia | done]).
      unfold repeat_run in Hgt. lia.
Qed.

(** Every finding is true of the turn: it covers its most recent keyed
    steps, its count reaches the threshold, and the steps it lists all
    repeat one call and result (repeat), all failed with one result
    (same-error), or repeat with period two between two different steps
    (alternate). *)
Theorem stuck_finding_sound f :
  detectStuck recs keyOf repeats alternations errs = Some f ->
  exists k last, sf_Steps f = ks_step <$> tail_of k seg /\ list.last seg = Some last
    /\ ((sf_Pattern f = StuckRepeat /\ sf_Count f = Z.of_nat k /\ (repeats <= Z.of_nat k)%Z
         /\ Forall (fun s => same s last = true) (tail_of k seg))
        \/ (sf_Pattern f = StuckSameError /\ sf_Count f = Z.of_nat k /\ (errs <= Z.of_nat k)%Z
            /\ Forall (fun s => sk_Error (ks_key s) = true
                                /\ sk_Result (ks_key s) = sk_Result (ks_key last)) (tail_of k seg))
        \/ (sf_Pattern f = StuckAlternate /\ Z.of_nat k = (2 * sf_Count f)%Z
            /\ (alternations <= sf_Count f)%Z
            /\ (exists prev, tail_of 2 seg = [prev; last] /\ same prev last = false)
            /\ forall i a b, i + 2 < k -> rev seg !! i = Some a -> rev seg !! (i + 2) = Some b ->
                             same b a = true)).
Proof.
  unfold detectStuck. destruct (rev seg) as [|last before] eqn:Hr; [done|].
  assert (Hseg : seg = rev before ++ [last]) by (rewrite <- (rev_involutive seg), Hr; done).
  assert (Hlast : list.last seg = Some last) by (rewrite Hseg; apply last_snoc).
  destruct (((0 <? repeats) && (repeats <=? Z.of_nat (repeat_run last before)))%Z) eqn:E1.
  { intros [= <-]. apply andb_true_iff in E1 as [_ E1%Z.leb_le].
    exists (repeat_run last before), last. split; [done|]. split; [done|]. left.
    repeat split; try done. by apply repeat_run_spec. }
  destruct (((0 <? errs)%Z && sk_Error (ks_key last)
             && (errs <=? Z.of_nat (error_run last before))%Z)) eqn:E2.
  { intros [= <-]. apply andb_true_iff in E2 as [[_ E2]%andb_true_iff E3%Z.leb_le].
    exists (error_run last before), last. split; [done|]. split; [done|]. right; left.
    repeat split; try done. by apply error_run_spec. }
  destruct before as [|prev before']; [done|].
  destruct ((0 <? alternations)%Z && negb (same prev last) && _) eqn:E3; [|done].
  apply andb_true_iff in E3 as [[_ E3%negb_true_iff]%andb_true_iff E4%Z.leb_le].
  set (pairs := alternation_length (last :: prev :: before') / 2) in *.
  intros [= <-]. exists (2 * pairs), last. split; [done|]. split; [done|]. right; right.
  split; [done|]. split; [simpl; lia|]. split; [done|]. split.
  { exists prev. split; [|done]. rewrite tail_of_rev, Hr. done. }
  intros i a b Hi Ha Hb.
  assert (Hp2 : 2 * pairs <= alternation_length (last :: prev :: before'))
    by (unfold pairs; pose proof (Nat.div_mod_eq (alternation_length (last :: prev :: before')) 2); lia).
  unfold alternation_length in Hp2.
  match type of Hp2 with _ <= 2 + count_while ?p ?l =>
    destruct (count_while_spec p l) as [Hall _];
    rewrite Forall_lookup in Hall; apply (Hall i (a, b)) end.
  apply lookup_take_Some. split; [|lia].
  apply lookup_zip_with_Some. exists a, b. split; [done|]. split; [done|].
  rewrite lookup_drop. by rewrite Nat.add_comm.
Qed.
End Detection.

(** ** Turns to look at *)

Definition step_of (call result : string) (err : bool) (i : Z) : StepRecord :=
  {| rec_Step := i; rec_Assistant := text_message RoleAssistant call;
     rec_Results := [text_message RoleTool (if err then toolFailedPrefix +:+ result else result)] |}.

(** A key over text actions, as a host without tool calls would write. *)
Definition text_key : StuckKeyFunc := fun r =>
  Some {| sk_Call := m_Text (rec_Assistant r);
          sk_Result := str_concat (m_Text <$> rec_Results r);
          sk_Error := existsb failed_result (rec_Results r);
          sk_Tools := [] |}.

Definition three_edits : list StepRecord :=
  [step_of "look" "a" false 1; step_of "edit" "red" false 2; step_of "edit" "red" false 3;
   step_of "edit" "red" false 4].

Lemma stuck_repeat_iff_witness :
  exists f, detectStuck three_edits text_key 3 3 3 = Some f /\ sf_Pattern f = StuckRepeat.
Proof.
  apply (stuck_repeat_iff text_key three_edits 3 3 3); [reflexivity|].
  eexists. split; [vm_compute; discriminate|]. split; [|vm_compute; reflexivity].
  repeat constructor.
Defined.

Lemma stuck_finding_sound_witness :
  exists k last, [2; 3; 4]%Z = ks_step <$> tail_of k (segment text_key three_edits)
    /\ list.last (segment text_key three_edits) = Some last.
Proof.
  destruct (detectStuck three_edits text_key 3 3 3) as [f|] eqn:E; [|vm_compute in E; discriminate].
  destruct (stuck_finding_sound text_key three_edits 3 3 3 f E) as (k & last & H1 & H2 & _).
  exists k, last. split; [|exact H2]. rewrite <- H1. vm_compute in E. injection E as <-. reflexivity.
Defined.

(** Two calls that take turns and fail alike are both an alternation and a
    run of one error; the error is what is reported. *)
Definition failing_pair : list StepRecord :=
  [step_of "a" "no" true 1; step_of "b" "no" true 2; step_of "a" "no" true 3;
   step_of "b" "no" true 4; step_of "a" "no" true 5; step_of "b" "no" true 6].

Lemma stuck_error_before_alternation :
  sf_Pattern <$> detectStuck failing_pair text_key 3 3 3 = Some StuckSameError
  /\ sf_Pattern <$> detectStuck failing_pair text_key 3 3 (-1) = Some StuckAlternate.
Proof. split; vm_compute; reflexivity. Qed.
