(* ===== verification/RunStore.v ===== *)
(** * Persisted runs: src/runstore.go

    The in-memory run store: a map from run ids to append-only logs of
    messages and events, with creation, forking and paged listing.  Every
    method holds the mutex for its whole body, so a method is a function of
    the store's state and of the clock. *)

From stdpp Require Import sorting.
From S2P Require Import Prelude GoStr Errors Json Provider TreeBudget Middleware Events MultiSource.

(** ** Data *)

Record runEntry := {
  re_parentID : string;
  re_forkPoint : Z;
  re_createdAt : Time;
  re_messages : list Message;
  re_events : list Event;
}.

(** [seq] counts generated ids; it would take 2^63 of them to wrap. *)
Record InMemoryRunStore := { st_runs : gmap string runEntry; st_seq : Z }.

Definition NewInMemoryRunStore : InMemoryRunStore := {| st_runs := ∅; st_seq := 0 |}.

Record Run := {
  run_ID : string;
  run_ParentID : string;
  run_ForkPoint : Z;
  run_CreatedAt : Time;
  run_Messages : list Message;
  run_Events : list Event;
}.

Record RunInfo := {
  ri_ID : string;
  ri_ParentID : string;
  ri_ForkPoint : Z;
  ri_CreatedAt : Time;
  ri_MessageCount : Z;
}.

Record CreateRunResponse := { cr_RunID : string; cr_Created : bool }.
Record ForkRunResponse := { fr_RunID : string; fr_Found : bool; fr_Created : bool; fr_ForkPoint : Z }.
Record ListRunsResponse := { lr_Runs : list RunInfo; lr_NextCursor : string }.

(** ** Methods *)

Definition run_name (n : Z) : string := "run-" +:+ itoa n.

Definition CreateRun (now : Time) (id : string) (s : InMemoryRunStore)
  : CreateRunResponse * InMemoryRunStore :=
  let entry := {| re_parentID := ""; re_forkPoint := 0; re_createdAt := now;
                  re_messages := []; re_events := [] |} in
  if String.eqb id "" then
    let seq := (st_seq s + 1)%Z in
    ({| cr_RunID := run_name seq; cr_Created := true |},
     {| st_runs := <[run_name seq := entry]> (st_runs s); st_seq := seq |})
  else match st_runs s !! id with
       | Some _ => ({| cr_RunID := id; cr_Created := false |}, s)
       | None => ({| cr_RunID := id; cr_Created := true |},
                  {| st_runs := <[id := entry]> (st_runs s); st_seq := st_seq s |})
       end.

(** The stamping rule. *)
Definition stamp (now : Time) (m : Message) : Message :=
  {| m_Role := m_Role m; m_Text := m_Text m; m_ToolCalls := m_ToolCalls m;
     m_ToolCallID := m_ToolCallID m;
     m_Timestamp := if (m_Timestamp m =? 0)%Z then now else m_Timestamp m |}.

Definition AppendMessages (now : Time) (id : string) (msgs : list Message) (s : InMemoryRunStore)
  : bool * InMemoryRunStore :=
  match st_runs s !! id with
  | None => (false, s)
  | Some e =>
      (true, {| st_runs := <[id := {| re_parentID := re_parentID e; re_forkPoint := re_forkPoint e;
                                      re_createdAt := re_createdAt e;
                                      re_messages := re_messages e ++ (stamp now <$> msgs);
                                      re_events := re_events e |}]> (st_runs s);
                st_seq := st_seq s |})
  end.

Definition AppendEvents (id : string) (evs : list Event) (s : InMemoryRunStore)
  : bool * InMemoryRunStore :=
  match st_runs s !! id with
  | None => (false, s)
  | Some e =>
      (true, {| st_runs := <[id := {| re_parentID := re_parentID e; re_forkPoint := re_forkPoint e;
                                      re_createdAt := re_createdAt e; re_messages := re_messages e;
                                      re_events := re_events e ++ evs |}]> (st_runs s);
                st_seq := st_seq s |})
  end.

Definition LoadRun (id : string) (s : InMemoryRunStore) : option Run :=
  match st_runs s !! id with
  | None => None
  | Some e => Some {| run_ID := id; run_ParentID := re_parentID e; run_ForkPoint := re_forkPoint e;
                      run_CreatedAt := re_createdAt e; run_Messages := re_messages e;
                      run_Events := re_events e |}
  end.

Definition fork_count (len at_message : Z) : Z :=
  if ((0 <? at_message) && (at_message <? len))%Z then at_message else len.

Definition ForkRun (now : Time) (id new_id : string) (at_message : Z) (s : InMemoryRunStore)
  : ForkRunResponse * InMemoryRunStore :=
  match st_runs s !! id with
  | None => ({| fr_RunID := ""; fr_Found := false; fr_Created := false; fr_ForkPoint := 0 |}, s)
  | Some src =>
      let len := Z.of_nat (length (re_messages src)) in
      let n := fork_count len at_message in
      let entry := {| re_parentID := id; re_forkPoint := n; re_createdAt := now;
                      re_messages := take (Z.to_nat n) (re_messages src);
                      re_events := if (n =? len)%Z then re_events src else [] |} in
      if String.eqb new_id "" then
        let seq := (st_seq s + 1)%Z in
        ({| fr_RunID := run_name seq; fr_Found := true; fr_Created := true; fr_ForkPoint := n |},
         {| st_runs := <[run_name seq := entry]> (st_runs s); st_seq := seq |})
      else match st_runs s !! new_id with
           | Some _ => ({| fr_RunID := new_id; fr_Found := true; fr_Created := false; fr_ForkPoint := 0 |}, s)
           | None => ({| fr_RunID := new_id; fr_Found := true; fr_Created := true; fr_ForkPoint := n |},
                      {| st_runs := <[new_id := entry]> (st_runs s); st_seq := st_seq s |})
           end
  end.

(** *** Listing *)

Definition run_info (id : string) (e : runEntry) : RunInfo :=
  {| ri_ID := id; ri_ParentID := re_parentID e; ri_ForkPoint := re_forkPoint e;
     ri_CreatedAt := re_createdAt e; ri_MessageCount := Z.of_nat (length (re_messages e)) |}.

(** Newest first, then by id. *)
Definition info_before (a b : RunInfo) : bool :=
  if (ri_CreatedAt a =? ri_CreatedAt b)%Z then String.ltb (ri_ID a) (ri_ID b)
  else (ri_CreatedAt b <? ri_CreatedAt a)%Z.

Fixpoint insert_info (x : RunInfo) (l : list RunInfo) : list RunInfo :=
  match l with
  | [] => [x]
  | y :: l' => if info_before y x then y :: insert_info x l' else x :: l
  end.

Definition sorted_infos (s : InMemoryRunStore) : list RunInfo :=
  foldr insert_info [] ((fun '(id, e) => run_info id e) <$> map_to_list (st_runs s)).

(** [strconv.Atoi]. *)
Fixpoint digits_value (acc : Z) (s : string) : option Z :=
  match s with
  | EmptyString => Some acc
  | String c s =>
      if is_dec_digit c then digits_value (acc * 10 + Z.of_nat (code c - 48)) s else None
  end.

Definition atoi (s : string) : option Z :=
  let signed (neg : bool) (body : string) :=
    match body with
    | EmptyString => None
    | _ =>
        v ← digits_value 0 body;
        let v := if neg then (- v)%Z else v in
        if ((int64_min <=? v) && (v <=? int64_max))%Z then Some v else None
    end in
  match s with
  | String c body => if ceq c 45 then signed true body else if ceq c 43 then signed false body
                     else signed false s
  | EmptyString => None
  end.

Definition DefaultListRunsLimit : Z := 50.

(** [infos[offset:end]]; [None] is the run-time panic of a bad slice. *)
Definition slice_infos (l : list RunInfo) (lo hi : Z) : option (list RunInfo) :=
  if ((0 <=? lo) && (lo <=? hi) && (hi <=? Z.of_nat (length l)))%Z
  then Some (take (Z.to_nat (hi - lo)) (drop (Z.to_nat lo) l)) else None.

Definition ListRuns (cursor : string) (limit : Z) (s : InMemoryRunStore) : option ListRunsResponse :=
  let infos := sorted_infos s in
  let len := Z.of_nat (length infos) in
  let offset := match atoi cursor with
                | Some n => if (0 <? n)%Z then n else 0%Z
                | None => 0%Z
                end in
  let limit := if (limit <=? 0)%Z then DefaultListRunsLimit else limit in
  if (len <=? offset)%Z then Some {| lr_Runs := []; lr_NextCursor := "" |}
  else
    let stop := wrap64 (offset + limit) in
    let '(stop, next) := if (stop <? len)%Z then (stop, itoa stop) else (len, "") in
    runs ← slice_infos infos offset stop;
    Some {| lr_Runs := runs; lr_NextCursor := next |}.

(** ** Appending and loading *)

(** What is appended is what is loaded.  Appending to a run that exists
    extends its message log by the given messages in order, a zero timestamp
    replaced by the clock and everything else kept, and leaves every other
    run, the run's lineage and its events alone; appending to an unknown run
    reports it and writes nothing. *)
Theorem append_then_load now id msgs s :
  match LoadRun id s with
  | None => AppendMessages now id msgs s = (false, s)
  | Some r =>
      exists s', AppendMessages now id msgs s = (true, s')
        /\ LoadRun id s' = Some {| run_ID := id; run_ParentID := run_ParentID r;
             run_ForkPoint := run_ForkPoint r; run_CreatedAt := run_CreatedAt r;
             run_Messages := run_Messages r ++ (stamp now <$> msgs); run_Events := run_Events r |}
        /\ (forall id', id' <> id -> LoadRun id' s' = LoadRun id' s)
        /\ (now <> 0%Z -> Forall (fun m => m_Timestamp m <> 0%Z) (stamp now <$> msgs))
        /\ Forall2 (fun m m' => m_Timestamp m <> 0%Z -> m' = m) msgs (stamp now <$> msgs)
  end.
Proof.
  unfold LoadRun, AppendMessages. destruct (st_runs s !! id) as [e|]; [|done].
  eexists. split; [reflexivity|]. simpl. rewrite lookup_insert_eq. split; [done|]. split.
  { intros id' Hne. by rewrite lookup_insert_ne. }
  split.
  - intros Hn. apply Forall_fmap, Forall_true. intros m. simpl.
    destruct (Z.eqb_spec (m_Timestamp m) 0); done.
  - induction msgs as [|m msgs IH]; csimpl; constructor; [|done]. intros H. unfold stamp.
    rewrite (proj2 (Z.eqb_neq _ _)) by done. by destruct m.
Qed.

(** ** Forking *)

(** A fork is a prefix of its source, claimed atomically.  Forking an
    existing run under a fresh id creates a run whose messages are the first
    [ForkPoint] of the source's, whose parent is the source, and which has
    the source's events only when it has all its messages; the source and all
    other runs are untouched.  Forking again under the same id creates
    nothing and changes nothing. *)
Theorem fork_copies_prefix now now' id new_id at_message s r :
  LoadRun id s = Some r -> new_id <> "" -> LoadRun new_id s = None ->
  exists resp s', ForkRun now id new_id at_message s = (resp, s')
    /\ fr_Found resp = true /\ fr_Created resp = true /\ fr_RunID resp = new_id
    /\ (0 <= fr_ForkPoint resp <= Z.of_nat (length (run_Messages r)))%Z
    /\ (exists f, LoadRun new_id s' = Some f
        /\ run_Messages f `prefix_of` run_Messages r
        /\ Z.of_nat (length (run_Messages f)) = fr_ForkPoint resp
        /\ run_ParentID f = id /\ run_ForkPoint f = fr_ForkPoint resp
        /\ (run_Events f = [] \/ run_Messages f = run_Messages r /\ run_Events f = run_Events r))
    /\ (forall id', id' <> new_id -> LoadRun id' s' = LoadRun id' s)
    /\ (exists resp', ForkRun now' id new_id at_message s' = (resp', s') /\ fr_Created resp' = false).
Proof.
  unfold LoadRun, ForkRun. destruct (st_runs s !! id) as [e|] eqn:He; [|done]. intros [= <-] Hne.
  destruct (st_runs s !! new_id) eqn:Hn; [done|]. intros _.
  rewrite (proj2 (String.eqb_neq _ _)) by done. simpl.
  set (len := Z.of_nat (length (re_messages e))). set (n := fork_count len at_message).
  assert (Hr : (0 <= n <= len)%Z).
  { unfold n, fork_count. destruct (Z.ltb_spec 0 at_message), (Z.ltb_spec at_message len); simpl; lia. }
  eexists _, _. split; [reflexivity|]. simpl. repeat (split; [done|]). split.
  { rewrite lookup_insert_eq. eexists. split; [reflexivity|]. simpl. split.
    { exists (drop (Z.to_nat n) (re_messages e)). by rewrite take_drop. }
    split; [rewrite length_take; lia|]. repeat (split; [done|]).
    destruct (Z.eqb_spec n len) as [->|]; [right | by left].
    unfold len. by rewrite Nat2Z.id, firstn_all. }
  split; [intros id' Hid; by rewrite lookup_insert_ne|].
  rewrite lookup_insert_ne, He, lookup_insert_eq by congruence. eauto.
Qed.

(** ** Logs only grow *)

Inductive store_request :=
| ReqCreate (id : string)
| ReqAppend (id : string) (msgs : list Message)
| ReqEvents (id : string) (evs : list Event)
| ReqFork (id new_id : string) (at_message : Z).

Definition store_do (s : InMemoryRunStore) (t : Time * store_request) : InMemoryRunStore :=
  let '(now, r) := t in
  match r with
  | ReqCreate id => (CreateRun now id s).2
  | ReqAppend id msgs => (AppendMessages now id msgs s).2
  | ReqEvents id evs => (AppendEvents id evs s).2
  | ReqFork id new_id at_message => (ForkRun now id new_id at_message s).2
  end.

(** A caller that leaves the generated names to the store. *)
Definition tame_id (id : string) : Prop := forall n, id <> run_name n.

Definition tame (r : store_request) : Prop :=
  match r with
  | ReqCreate id => tame_id id
  | ReqFork _ new_id _ => tame_id new_id
  | _ => True
  end.

(** Generated names are taken in order. *)
Definition names_inv (s : InMemoryRunStore) : Prop :=
  forall n, (st_seq s < n)%Z -> st_runs s !! run_name n = None.

Definition grows (e e' : runEntry) : Prop :=
  re_messages e `prefix_of` re_messages e' /\ re_events e `prefix_of` re_events e'
  /\ re_parentID e' = re_parentID e /\ re_forkPoint e' = re_forkPoint e
  /\ re_createdAt e' = re_createdAt e.

Lemma grows_refl e : grows e e.
Proof. repeat split; done. Qed.

Lemma grows_trans e1 e2 e3 : grows e1 e2 -> grows e2 e3 -> grows e1 e3.
Proof.
  intros (H1 & H2 & H3 & H4 & H5) (G1 & G2 & G3 & G4 & G5). split; [by etrans|].
  split; [by etrans|]. repeat split; congruence.
Qed.

Lemma run_name_inj n m : run_name n = run_name m -> n = m.
Proof.
  unfold run_name. intros H. apply app_inj_str in H as [_ H]; [|done]. by apply (inj pretty) in H.
Qed.

Lemma insert_names_inv id e s seq :
  names_inv s -> (st_seq s <= seq)%Z ->
  (tame_id id \/ id = run_name seq) ->
  names_inv {| st_runs := <[id := e]> (st_runs s); st_seq := seq |}.
Proof.
  intros Hinv Hle Hid n Hn. simpl in *. rewrite lookup_insert_ne; [apply Hinv; lia|].
  destruct Hid as [Hid| ->]; [apply Hid|]. intros He%run_name_inj. lia.
Qed.

Lemma insert_grows (runs : gmap string runEntry) id e :
  (forall old, runs !! id = Some old -> grows old e) ->
  forall i o, runs !! i = Some o -> exists o', <[id := e]> runs !! i = Some o' /\ grows o o'.
Proof.
  intros H i o Hi. destruct (decide (id = i)) as [<-|Hne].
  - rewrite lookup_insert_eq. eauto.
  - rewrite lookup_insert_ne by done. eauto using grows_refl.
Qed.

Lemma store_do_grows s now r :
  names_inv s -> tame r ->
  names_inv (store_do s (now, r))
  /\ forall id e, st_runs s !! id = Some e ->
     exists e', st_runs (store_do s (now, r)) !! id = Some e' /\ grows e e'.
Proof.
  intros Hinv Ht. assert (Hkeep : names_inv s /\ forall id e, st_runs s !! id = Some e ->
     exists e', st_runs s !! id = Some e' /\ grows e e') by eauto using grows_refl.
  assert (Hfresh : st_runs s !! run_name (st_seq s + 1) = None) by (apply Hinv; lia).
  destruct r as [id|id msgs|id evs|id new_id n]; simpl in *.
  - unfold CreateRun. destruct (String.eqb id ""); simpl.
    + split; [apply insert_names_inv; auto; lia|]. apply insert_grows. intros old H. congruence.
    + destruct (st_runs s !! id) eqn:E; simpl; [done|].
      split; [apply insert_names_inv; auto; lia|]. apply insert_grows. intros old H. congruence.
  - unfold AppendMessages. destruct (st_runs s !! id) as [e|] eqn:E; simpl; [|done]. split.
    + intros k Hk. simpl in *. destruct (decide (id = run_name k)) as [->|Hne];
        [by rewrite Hinv in E by done|]. rewrite lookup_insert_ne by done. by apply Hinv.
    + apply insert_grows. intros old H. assert (old = e) as -> by congruence.
      split; simpl; [by apply prefix_app_r|]. done.
  - unfold AppendEvents. destruct (st_runs s !! id) as [e|] eqn:E; simpl; [|done]. split.
    + intros k Hk. simpl in *. destruct (decide (id = run_name k)) as [->|Hne];
        [by rewrite Hinv in E by done|]. rewrite lookup_insert_ne by done. by apply Hinv.
    + apply insert_grows. intros old H. assert (old = e) as -> by congruence.
      split; simpl; [done|]. split; [by apply prefix_app_r|]. done.
  - unfold ForkRun. destruct (st_runs s !! id) as [e|] eqn:E; simpl; [|done].
    destruct (String.eqb new_id ""); simpl.
    + split; [apply insert_names_inv; auto; lia|]. apply insert_grows. intros old H. congruence.
    + destruct (st_runs s !! new_id) eqn:E2; simpl; [done|].
      split; [apply insert_names_inv; auto; lia|]. apply insert_grows. intros old H. congruence.
Qed.

(** Runs are append-only.  Over any sequence of requests whose callers do
    not claim names of the generated form, every run that exists keeps
    existing, its lineage never changes, and its message and event logs only
    grow at the end. *)
Theorem runs_append_only reqs reqs' id r :
  Forall (fun t => tame (snd t)) (reqs ++ reqs') ->
  LoadRun id (foldl store_do NewInMemoryRunStore reqs) = Some r ->
  exists r', LoadRun id (foldl store_do NewInMemoryRunStore (reqs ++ reqs')) = Some r'
    /\ run_Messages r `prefix_of` run_Messages r' /\ run_Events r `prefix_of` run_Events r'
    /\ run_ParentID r' = run_ParentID r /\ run_ForkPoint r' = run_ForkPoint r.
Proof.
  intros Ht. rewrite foldl_app. apply Forall_app in Ht as [Ht Ht'].
  assert (Hinv : names_inv (foldl store_do NewInMemoryRunStore reqs)).
  { assert (H0 : names_inv NewInMemoryRunStore) by (intros n _; apply lookup_empty).
    revert H0. generalize NewInMemoryRunStore. induction Ht as [|[now q] l Hq _ IH]; intros s Hs; [done|].
    apply IH. by apply store_do_grows. }
  revert Hinv. generalize (foldl store_do NewInMemoryRunStore reqs) as s. intros s Hinv.
  unfold LoadRun at 1. destruct (st_runs s !! id) as [e|] eqn:E; [|done]. intros [= <-]. simpl.
  assert (exists e', st_runs (foldl store_do s reqs') !! id = Some e' /\ grows e e') as (e' & E' & G).
  { revert s e Hinv E. induction Ht' as [|[now q] l Hq _ IH]; intros s e Hinv E; simpl.
    { eauto using grows_refl. }
    destruct (store_do_grows s now q Hinv Hq) as [Hinv' Hg]. destruct (Hg id e E) as (e1 & E1 & G1).
    destruct (IH _ _ Hinv' E1) as (e2 & E2 & G2). eauto using grows_trans. }
  unfold LoadRun. rewrite E'. destruct G as (G1 & G2 & G3 & G4 & _). eauto 10.
Qed.

(** ** Paging *)

Lemma digits_value_char acc (d : N) s :
  (d < 10)%N -> digits_value acc (String (pretty_N_char d) s) = digits_value (acc * 10 + Z.of_N d) s.
Proof.
  intros Hd. assert (H : d ∈ [0; 1; 2; 3; 4; 5; 6; 7; 8; 9]%N).
  { destruct d as [|p]; [left|]. do 9 (destruct p as [p|p|]; try lia; try (repeat constructor; fail)). }
  repeat (apply elem_of_cons in H as [->|H]; [reflexivity|]). by apply elem_of_nil in H.
Qed.

Lemma digits_value_pretty (x : N) s :
  digits_value 0 (pretty_N_go x s) = digits_value (Z.of_N x) s.
Proof.
  revert s. induction (N.lt_wf_0 x) as [x _ IH]; intros s.
  destruct (decide (0 < x)%N) as [Hx|Hx].
  - rewrite pretty_N_go_step by done. rewrite IH by (apply N.div_lt; lia).
    rewrite digits_value_char by (apply N.mod_lt; lia). f_equal.
    rewrite (N.div_mod x 10) at 3 by lia. lia.
  - assert (x = 0%N) as -> by lia. by rewrite pretty_N_go_0.
Qed.

(** A cursor the store hands out is read back as the offset it stands for. *)
Lemma atoi_itoa z : (0 < z <= int64_max)%Z -> atoi (itoa z) = Some z.
Proof.
  intros Hz. unfold itoa. destruct z as [|p|p]; try lia.
  change (pretty (Z.pos p)) with (pretty (N.pos p)).
  pose proof (pretty_N_digits (N.pos p)) as Hd.
  assert (Hv : digits_value 0 (pretty (N.pos p)) = Some (Z.pos p)).
  { unfold pretty, pretty_N. rewrite decide_False by lia. rewrite digits_value_pretty. done. }
  destruct (pretty (N.pos p)) as [|c s]; [simpl in Hv; discriminate|].
  cbn [str_forall] in Hd. apply andb_true_iff in Hd as [Hc _].
  assert (Hc1 : ceq c 45 = false /\ ceq c 43 = false).
  { unfold is_dec_digit, in_range, ceq in *. apply andb_true_iff in Hc as [H1%Nat.leb_le H2%Nat.leb_le].
    split; apply Nat.eqb_neq; lia. }
  destruct Hc1 as [Hc1 Hc2]. unfold atoi. rewrite Hc1, Hc2, Hv. simpl.
  rewrite !(proj2 (Z.leb_le _ _)) by (unfold int64_min, int64_max in *; lia). done.
Qed.

(** Following [NextCursor] until it is empty. *)
Fixpoint all_pages (fuel : nat) (cursor : string) (limit : Z) (s : InMemoryRunStore)
  : option (list RunInfo) :=
  match fuel with
  | O => None
  | S fuel =>
      r ← ListRuns cursor limit s;
      if String.eqb (lr_NextCursor r) "" then Some (lr_Runs r)
      else rest ← all_pages fuel (lr_NextCursor r) limit s; Some (lr_Runs r ++ rest)
  end.

Lemma itoa_not_empty z : itoa z <> "".
Proof.
  unfold itoa. intros H. assert (Hlen : 0 < String.length (pretty z)).
  { destruct z as [|p|p]; simpl; try (simpl; lia).
    - change (pretty (Z.pos p)) with (pretty (N.pos p)).
      unfold pretty, pretty_N. rewrite decide_False by lia.
      pose proof (digits_value_pretty (N.pos p) "") as Hd. simpl in Hd.
      destruct (pretty_N_go (N.pos p) ""); [simpl in Hd; discriminate | simpl; lia]. }
  rewrite H in Hlen. simpl in Hlen. lia.
Qed.

Definition offset_of (cursor : string) : Z :=
  match atoi cursor with Some n => if (0 <? n)%Z then n else 0%Z | None => 0%Z end.

(** A page, whatever the cursor: the runs from its offset on, and a cursor for
    the rest if there is a rest. *)
Lemma list_page s cursor limit :
  (Z.of_nat (length (sorted_infos s)) + Z.max limit DefaultListRunsLimit <= int64_max)%Z ->
  let size := if (limit <=? 0)%Z then DefaultListRunsLimit else limit in
  ListRuns cursor limit s
  = Some {| lr_Runs := take (Z.to_nat size) (drop (Z.to_nat (offset_of cursor)) (sorted_infos s));
            lr_NextCursor := if (offset_of cursor + size <? Z.of_nat (length (sorted_infos s)))%Z
                             then itoa (offset_of cursor + size) else "" |}.
Proof.
  intros Hmax. cbv zeta. unfold ListRuns. fold (offset_of cursor). set (infos := sorted_infos s) in *.
  set (len := Z.of_nat (length infos)) in *. set (size := if (limit <=? 0)%Z then _ else _).
  assert (Hs : (0 < size /\ len + size <= int64_max)%Z).
  { unfold size, DefaultListRunsLimit in *. destruct (Z.leb_spec limit 0); lia. }
  assert (Ho : (0 <= offset_of cursor)%Z).
  { unfold offset_of. destruct (atoi cursor); [|lia]. destruct (Z.ltb_spec 0 z); lia. }
  destruct (Z.leb_spec len (offset_of cursor)) as [Hge|Hlt].
  { rewrite drop_ge, take_nil by lia. by rewrite (proj2 (Z.ltb_ge _ _)) by lia. }
  rewrite wrap64_id by (unfold in_int64, int64_min; lia). unfold slice_infos.
  destruct (Z.ltb_spec (offset_of cursor + size) len) as [Hn|Hn]; cbn [mbind option_bind];
    rewrite !(proj2 (Z.leb_le _ _)) by lia; cbn [andb mbind option_bind].
  - by replace (offset_of cursor + size - offset_of cursor)%Z with size by lia.
  - do 2 f_equal. fold len. rewrite !take_ge; [done|rewrite length_drop; lia..].
Qed.

Lemma offset_itoa z : (0 < z <= int64_max)%Z -> offset_of (itoa z) = z.
Proof. intros Hz. unfold offset_of. rewrite atoi_itoa by done. by rewrite (proj2 (Z.ltb_lt _ _)) by lia. Qed.

(** Paging is complete: following the cursors from any offset, with any
    positive page size, ends and yields exactly the rest of the newest-first
    listing, each run once; the number of pages is at most the number of
    runs. *)
Theorem paging_complete s limit cursor :
  (0 < limit)%Z -> (Z.of_nat (length (sorted_infos s)) + limit <= int64_max)%Z ->
  all_pages (S (length (sorted_infos s))) cursor limit s
  = Some (drop (Z.to_nat (offset_of cursor)) (sorted_infos s)).
Proof.
  intros Hl Hmax. set (infos := sorted_infos s) in *. set (len := Z.of_nat (length infos)) in *.
  assert (H : forall fuel cursor, (0 < Z.of_nat fuel)%Z -> (len - offset_of cursor < Z.of_nat fuel)%Z ->
    all_pages fuel cursor limit s = Some (drop (Z.to_nat (offset_of cursor)) infos)).
  { clear cursor. induction fuel as [|fuel IH]; intros cursor Hf0 Hf; [lia|].
    assert (Ho : (0 <= offset_of cursor)%Z).
    { unfold offset_of. destruct (atoi cursor); [|lia]. destruct (Z.ltb_spec 0 z); lia. }
    cbn [all_pages]. unfold ListRuns. fold infos. fold len. fold (offset_of cursor).
    rewrite (proj2 (Z.leb_gt limit 0)) by lia.
    destruct (Z.leb_spec len (offset_of cursor)) as [Hge|Hlt]; simpl.
    { rewrite drop_ge by lia. done. }
    rewrite wrap64_id by (unfold in_int64, int64_min; lia).
    destruct (Z.ltb_spec (offset_of cursor + limit) len) as [Hs|Hs]; unfold slice_infos.
    - rewrite !(proj2 (Z.leb_le _ _)) by lia. simpl.
      rewrite (proj2 (String.eqb_neq _ _)) by apply itoa_not_empty.
      assert (Hn : offset_of (itoa (offset_of cursor + limit)) = (offset_of cursor + limit)%Z).
      { unfold offset_of at 1. rewrite atoi_itoa by lia. rewrite (proj2 (Z.ltb_lt _ _)) by lia. done. }
      rewrite IH by lia. simpl. f_equal. rewrite Hn.
      replace (Z.to_nat (offset_of cursor + limit))
        with (Z.to_nat (offset_of cursor) + Z.to_nat limit) by lia.
      rewrite <- drop_drop. replace (Z.to_nat (offset_of cursor + limit - offset_of cursor))
        with (Z.to_nat limit) by lia. apply take_drop.
    - rewrite !(proj2 (Z.leb_le _ _)) by lia. simpl. f_equal.
      apply take_ge. rewrite length_drop. lia. }
  apply H; [lia|]. unfold offset_of.
  destruct (atoi cursor) as [z|]; [destruct (Z.ltb_spec 0 z)|]; unfold len; lia.
Qed.

(** ** Stores to try *)

Definition user_says (t : string) : Message := text_message RoleUser t.

Definition demo_requests : list (Time * store_request) :=
  [(10%Z, ReqCreate "chat"); (11%Z, ReqAppend "chat" [user_says "a"; user_says "b"]); (12%Z, ReqCreate "")].

Definition demo_store : InMemoryRunStore := foldl store_do NewInMemoryRunStore demo_requests.

Lemma tame_chat : tame_id "chat".
Proof. intros n. unfold run_name. simpl. discriminate. Qed.

Lemma tame_empty : tame_id "".
Proof. intros n. unfold run_name. simpl. discriminate. Qed.

Lemma tame_branch : tame_id "branch".
Proof. intros n. unfold run_name. simpl. discriminate. Qed.

Lemma fork_copies_prefix_witness :
  exists resp s', ForkRun 20 "chat" "branch" 1 demo_store = (resp, s')
    /\ fr_ForkPoint resp = 1%Z
    /\ exists f, LoadRun "branch" s' = Some f /\ run_ParentID f = "chat".
Proof.
  destruct (LoadRun "chat" demo_store) as [r|] eqn:Er; [|vm_compute in Er; discriminate].
  destruct (fork_copies_prefix 20 30 "chat" "branch" 1 demo_store r Er ltac:(discriminate) eq_refl)
    as (resp & s' & H1 & _ & _ & _ & _ & (f & Hf & _ & _ & Hp & _) & _).
  exists resp, s'. split; [exact H1|]. split; [|eauto].
  apply (f_equal (fun x => fr_ForkPoint x.1)) in H1. simpl in H1. rewrite <- H1. vm_compute. reflexivity.
Defined.

Lemma runs_append_only_witness :
  exists r r', LoadRun "chat" (foldl store_do NewInMemoryRunStore demo_requests) = Some r
    /\ LoadRun "chat" (foldl store_do NewInMemoryRunStore
         (demo_requests ++ [(20%Z, ReqAppend "chat" [user_says "c"]); (21%Z, ReqFork "chat" "branch" 1)])) = Some r'
    /\ run_Messages r `prefix_of` run_Messages r'.
Proof.
  destruct (LoadRun "chat" (foldl store_do NewInMemoryRunStore demo_requests)) as [r|] eqn:Er;
    [|vm_compute in Er; discriminate].
  destruct (runs_append_only demo_requests
    [(20%Z, ReqAppend "chat" [user_says "c"]); (21%Z, ReqFork "chat" "branch" 1)] "chat" r) as (r' & H1 & H2 & _).
  - repeat constructor; simpl; auto using tame_chat, tame_empty, tame_branch.
  - exact Er.
  - exists r, r'. eauto.
Defined.

Lemma paging_complete_witness :
  all_pages (S (length (sorted_infos demo_store))) "" 1 demo_store
  = Some (drop 0 (sorted_infos demo_store)) /\ length (sorted_infos demo_store) = 2.
Proof.
  split; [|vm_compute; reflexivity].
  exact (paging_complete demo_store 1 "" ltac:(lia) ltac:(vm_compute; discriminate)).
Defined.

(** ** A generated name that is taken

    Claiming a name of the generated form makes a later generated run
    overwrite it: the store reports a fresh run, and the first run's messages
    are gone. *)
Lemma generated_id_overwrites :
  let s1 := foldl store_do NewInMemoryRunStore
              [(1%Z, ReqCreate "run-1"); (2%Z, ReqAppend "run-1" [user_says "keep me"])] in
  (exists r, LoadRun "run-1" s1 = Some r /\ length (run_Messages r) = 1)
  /\ (CreateRun 3 "" s1).1 = {| cr_RunID := "run-1"; cr_Created := true |}
  /\ exists r, LoadRun "run-1" (CreateRun 3 "" s1).2 = Some r /\ run_Messages r = [].
Proof. split; [|split]; [eexists; split; vm_compute; reflexivity | vm_compute; reflexivity |
  eexists; split; vm_compute; reflexivity]. Qed.

(** A page size near the largest integer makes the end of the slice wrap
    around, and the slice panic. *)
Lemma huge_page_panics :
  ListRuns "1" int64_max demo_store = None /\ length (sorted_infos demo_store) = 2.
Proof. split; vm_compute; reflexivity. Qed.
