(* ===== verification/Triggers.v ===== *)
(** * Proactive turns: src/triggers.go

    [TriggerPolicy] decides which incoming events start a turn: each binding
    has a slot that firing spends and that re-arms only after the user
    engaged and a cooldown passed, and a budget caps the firings of a policy.
    Every method holds the mutex, so it is a function of the state.  A lookup
    of a missing slot is Go's nil pointer, whose use panics: [OnEvent] is an
    option. *)

From S2P Require Import Prelude GoStr Errors Json Provider.
Local Open Scope Z_scope.

Record IncomingEvent := {
  ie_Server : string;
  ie_Name : string;
  ie_ID : string;
  ie_Cursor : string;
  ie_Time : Time;
  ie_Data : RawJSON;
}.

Definition second : Z := 1000000000.
Definition defaultTriggerCooldown : Z := 5 * 60 * second.
Definition defaultTriggerBudget : Z := 10.

Record TriggerBinding := {
  tb_Server : string;
  tb_Event : string;
  tb_Filter : option (IncomingEvent -> bool);
  tb_Instructions : string;
  tb_Label : string;
  tb_Cooldown : Z;
}.

Definition slotKey (b : TriggerBinding) : string :=
  tb_Server b +:+ "/" +:+ tb_Event b +:+ "/" +:+ tb_Label b.

Record triggerSlot := { sl_spentAt : Time; sl_engaged : bool; sl_spent : bool }.

Definition slot_zero : triggerSlot := {| sl_spentAt := 0; sl_engaged := false; sl_spent := false |}.

Record TriggerPolicy := {
  tp_budget : Z;
  tp_consent : option (TriggerBinding -> IncomingEvent -> bool);
  tp_bindings : list TriggerBinding;
  tp_slots : gmap string triggerSlot;
  tp_firings : Z;
}.

Definition NewTriggerPolicy (bindings : list TriggerBinding) (budget : Z)
    (consent : option (TriggerBinding -> IncomingEvent -> bool)) : TriggerPolicy :=
  {| tp_budget := if budget <=? 0 then defaultTriggerBudget else budget;
     tp_consent := consent;
     tp_bindings := bindings;
     tp_slots := fold_left (fun m b => <[slotKey b := slot_zero]> m) bindings ∅;
     tp_firings := 0 |}.

Definition tp_with (t : TriggerPolicy) bindings slots firings : TriggerPolicy :=
  {| tp_budget := tp_budget t; tp_consent := tp_consent t; tp_bindings := bindings;
     tp_slots := slots; tp_firings := firings |}.

(** Replaces, or removes, the first binding with a key. *)
Fixpoint replace_binding (key : string) (b : TriggerBinding) (l : list TriggerBinding) : list TriggerBinding :=
  match l with
  | [] => []
  | x :: l => if String.eqb (slotKey x) key then b :: l else x :: replace_binding key b l
  end.

Fixpoint remove_binding (key : string) (l : list TriggerBinding) : list TriggerBinding :=
  match l with
  | [] => []
  | x :: l => if String.eqb (slotKey x) key then l else x :: remove_binding key l
  end.

Definition trigger_Add (t : TriggerPolicy) (b : TriggerBinding) : TriggerPolicy :=
  let key := slotKey b in
  let bindings := match tp_slots t !! key with
                  | Some _ => replace_binding key b (tp_bindings t)
                  | None => tp_bindings t ++ [b]
                  end in
  tp_with t bindings (<[key := slot_zero]> (tp_slots t)) (tp_firings t).

Definition removal_key (server event label : string) : string :=
  slotKey {| tb_Server := server; tb_Event := event; tb_Filter := None;
             tb_Instructions := ""; tb_Label := label; tb_Cooldown := 0 |}.

Definition trigger_Remove (t : TriggerPolicy) (server event label : string) : bool * TriggerPolicy :=
  let key := removal_key server event label in
  match tp_slots t !! key with
  | None => (false, t)
  | Some _ => (true, tp_with t (remove_binding key (tp_bindings t)) (delete key (tp_slots t)) (tp_firings t))
  end.

Definition Bindings (t : TriggerPolicy) : list TriggerBinding := tp_bindings t.

Definition matches (b : TriggerBinding) (ev : IncomingEvent) : bool :=
  String.eqb (tb_Event b) (ie_Name ev)
  && (String.eqb (tb_Server b) "" || String.eqb (tb_Server b) (ie_Server ev))
  && match tb_Filter b with Some f => f ev | None => true end.

Definition cooldown_of (b : TriggerBinding) : Z :=
  if tb_Cooldown b <=? 0 then defaultTriggerCooldown else tb_Cooldown b.

(** Whether a spent slot stays spent at [now]. *)
Definition still_spent (b : TriggerBinding) (now : Time) (s : triggerSlot) : bool :=
  sl_spent s && (negb (sl_engaged s) || (now <? sl_spentAt s + cooldown_of b)).

Definition rearm (s : triggerSlot) : triggerSlot :=
  {| sl_spentAt := sl_spentAt s; sl_engaged := sl_engaged s; sl_spent := false |}.

(** The loop of [OnEvent]; [None] is the nil-slot panic. *)
Fixpoint fire_loop (t : TriggerPolicy) (now : Time) (ev : IncomingEvent) (bs : list TriggerBinding)
    (slots : gmap string triggerSlot) : option (option TriggerBinding * gmap string triggerSlot) :=
  match bs with
  | [] => Some (None, slots)
  | b :: bs =>
      if negb (matches b ev) then fire_loop t now ev bs slots
      else
        slot ← slots !! slotKey b;
        if still_spent b now slot then fire_loop t now ev bs slots
        else
          let slots := <[slotKey b := rearm slot]> slots in
          if tp_budget t <=? tp_firings t then Some (None, slots)
          else if match tp_consent t with Some c => negb (c b ev) | None => false end
          then fire_loop t now ev bs slots
          else Some (Some b, <[slotKey b := {| sl_spentAt := now; sl_engaged := false; sl_spent := true |}]> slots)
  end.

Definition OnEvent (t : TriggerPolicy) (now : Time) (ev : IncomingEvent)
  : option (option TriggerBinding * TriggerPolicy) :=
  r ← fire_loop t now ev (tp_bindings t) (tp_slots t);
  let '(fired, slots) := r in
  Some (fired, tp_with t (tp_bindings t) slots
                 (match fired with Some _ => tp_firings t + 1 | None => tp_firings t end)).

Definition NotifyEngagement (t : TriggerPolicy) : TriggerPolicy :=
  tp_with t (tp_bindings t)
    ((fun s => if sl_spent s then {| sl_spentAt := sl_spentAt s; sl_engaged := true; sl_spent := true |} else s)
       <$> tp_slots t)
    (tp_firings t).

Definition Firings (t : TriggerPolicy) : Z := tp_firings t.

(** ** Histories of a policy *)

Inductive trigger_op :=
| OpEvent (now : Time) (ev : IncomingEvent)
| OpEngage
| OpAdd (b : TriggerBinding)
| OpRemove (server event label : string).

(** One operation: what fired, and the state after it. *)
Definition trigger_do (t : TriggerPolicy) (op : trigger_op) : option (option TriggerBinding * TriggerPolicy) :=
  match op with
  | OpEvent now ev => OnEvent t now ev
  | OpEngage => Some (None, NotifyEngagement t)
  | OpAdd b => Some (None, trigger_Add t b)
  | OpRemove s e l => Some (None, (trigger_Remove t s e l).2)
  end.

Fixpoint trigger_run (t : TriggerPolicy) (ops : list trigger_op)
  : option (list (option TriggerBinding) * TriggerPolicy) :=
  match ops with
  | [] => Some ([], t)
  | op :: ops =>
      r ← trigger_do t op;
      rest ← trigger_run r.2 ops;
      Some (r.1 :: rest.1, rest.2)
  end.

Definition fired_count (l : list (option TriggerBinding)) : Z :=
  Z.of_nat (length (filter (fun o => is_Some o) l)).

(** ** Bindings and slots correspond *)

Record policy_wf (t : TriggerPolicy) : Prop := {
  pw_keys : NoDup (slotKey <$> tp_bindings t);
  pw_slots : forall k, is_Some (tp_slots t !! k) <-> k ∈ slotKey <$> tp_bindings t;
}.

Lemma new_slots (bs : list TriggerBinding) (m : gmap string triggerSlot) k :
  is_Some (fold_left (fun m b => <[slotKey b := slot_zero]> m) bs m !! k)
  <-> k ∈ slotKey <$> bs \/ is_Some (m !! k).
Proof.
  revert m. induction bs as [|b bs IH]; intros m; simpl; [set_solver|].
  rewrite IH, lookup_insert_is_Some. csimpl. rewrite elem_of_cons.
  destruct (decide (slotKey b = k)); naive_solver.
Qed.

Lemma new_policy_wf bs budget consent :
  NoDup (slotKey <$> bs) -> policy_wf (NewTriggerPolicy bs budget consent).
Proof.
  intros H. split; [done|]. intros k. simpl. rewrite new_slots, lookup_empty.
  split; [intros [?|[? ?]]; [done | discriminate] | by left].
Qed.

Lemma replace_binding_keys key b l : slotKey b = key -> slotKey <$> replace_binding key b l = slotKey <$> l.
Proof.
  intros Hb. induction l as [|x l IH]; simpl; [done|].
  destruct (String.eqb_spec (slotKey x) key) as [->|]; csimpl; [by rewrite Hb | by rewrite IH].
Qed.

Lemma remove_binding_keys key l :
  NoDup (slotKey <$> l) ->
  NoDup (slotKey <$> remove_binding key l)
  /\ forall k, k ∈ slotKey <$> remove_binding key l <-> k ∈ slotKey <$> l /\ k <> key.
Proof.
  induction l as [|x l IH]; csimpl; intros H.
  { split; [constructor|]. set_solver. }
  apply NoDup_cons in H as [Hx H]. destruct (IH H) as [IH1 IH2].
  destruct (String.eqb_spec (slotKey x) key) as [<-|Hne].
  - split; [done|]. intros k. rewrite elem_of_cons. split; [|naive_solver].
    intros Hk. split; [by right|]. by intros ->.
  - csimpl. split.
    + constructor; [|done]. rewrite IH2. tauto.
    + intros k. rewrite !elem_of_cons, IH2. naive_solver.
Qed.

(** Every slot the loop writes was there before. *)
Lemma fire_loop_dom t now ev bs slots fired slots' :
  fire_loop t now ev bs slots = Some (fired, slots') -> forall k, is_Some (slots' !! k) <-> is_Some (slots !! k).
Proof.
  revert slots. induction bs as [|b bs IH]; intros slots; simpl; [by intros [= _ <-]|].
  destruct (negb (matches b ev)); [apply IH|].
  destruct (slots !! slotKey b) as [s|] eqn:Es; simpl; [|done].
  destruct (still_spent b now s); [apply IH|].
  assert (Hd : forall v k, is_Some (<[slotKey b := v]> slots !! k) <-> is_Some (slots !! k)).
  { intros v k. rewrite lookup_insert_is_Some. destruct (decide (slotKey b = k)) as [<-|];
      [rewrite Es; split; eauto | naive_solver]. }
  destruct (tp_budget t <=? tp_firings t); [intros [= _ <-]; apply Hd|].
  destruct (match tp_consent t with Some _ => _ | None => _ end).
  - intros H k. rewrite (IH _ H). apply Hd.
  - intros [= _ <-] k. rewrite insert_insert_eq. apply Hd.
Qed.

Lemma fire_loop_total t now ev bs slots :
  (forall b, b ∈ bs -> is_Some (slots !! slotKey b)) -> is_Some (fire_loop t now ev bs slots).
Proof.
  revert slots. induction bs as [|b bs IH]; intros slots H; simpl; [eauto|].
  assert (Hr : forall b', b' ∈ bs -> is_Some (slots !! slotKey b')) by (intros; apply H; by right).
  destruct (negb (matches b ev)); [by apply IH|].
  destruct (H b) as [s ->]; [left|]. simpl. destruct (still_spent b now s); [by apply IH|].
  destruct (tp_budget t <=? tp_firings t); [eauto|].
  destruct (match tp_consent t with Some _ => _ | None => _ end); [|eauto].
  apply IH. intros b' Hb'. rewrite lookup_insert_is_Some. destruct (decide (slotKey b = slotKey b')); eauto.
Qed.

Lemma trigger_do_wf t op :
  policy_wf t -> exists fired t', trigger_do t op = Some (fired, t') /\ policy_wf t'.
Proof.
  intros [Hk Hs]. destruct op as [now ev| |b|s e l]; simpl.
  - destruct (fire_loop_total t now ev (tp_bindings t) (tp_slots t)) as [[fired slots'] Hf].
    { intros b Hb. apply Hs. by apply list_elem_of_fmap_2. }
    unfold OnEvent. rewrite Hf. simpl. eexists _, _. split; [reflexivity|]. split; [done|]. intros k. simpl.
    rewrite (fire_loop_dom _ _ _ _ _ _ _ Hf). apply Hs.
  - eexists _, _. split; [reflexivity|]. split; [done|]. intros k. simpl.
    rewrite lookup_fmap, fmap_is_Some. apply Hs.
  - eexists _, _. split; [reflexivity|]. unfold trigger_Add. destruct (tp_slots t !! slotKey b) eqn:E; split; simpl.
    + by rewrite replace_binding_keys.
    + intros k. rewrite replace_binding_keys by done. rewrite lookup_insert_is_Some, <- Hs.
      destruct (decide (slotKey b = k)) as [<-|]; [rewrite E; split; eauto | naive_solver].
    + rewrite fmap_app. apply NoDup_app. split; [done|]. split; [|apply NoDup_singleton].
      intros x Hx%Hs. csimpl. rewrite list_elem_of_singleton. intros ->. rewrite E in Hx. by destruct Hx.
    + intros k. rewrite lookup_insert_is_Some, fmap_app, elem_of_app, <- Hs. csimpl.
      rewrite list_elem_of_singleton. destruct (decide (slotKey b = k)); naive_solver.
  - eexists _, _. split; [reflexivity|]. unfold trigger_Remove. case_match; simpl; [|by split].
    destruct (remove_binding_keys (removal_key s e l) (tp_bindings t) Hk) as [H1 H2].
    split; simpl; [done|]. intros k. rewrite H2, lookup_delete_is_Some, <- Hs. naive_solver.
Qed.

Lemma trigger_run_wf t ops :
  policy_wf t -> exists fired t', trigger_run t ops = Some (fired, t') /\ policy_wf t'.
Proof.
  revert t. induction ops as [|op ops IH]; intros t Hw; simpl; [eauto|].
  destruct (trigger_do_wf t op Hw) as (f & t1 & -> & Hw1). simpl.
  destruct (IH t1 Hw1) as (fs & t2 & -> & Hw2). simpl. eauto.
Qed.

(** ** The budget *)

Lemma trigger_do_count t op fired t' :
  trigger_do t op = Some (fired, t') ->
  tp_budget t' = tp_budget t /\ tp_firings t' = tp_firings t + fired_count [fired]
  /\ (tp_firings t <= tp_budget t -> tp_firings t' <= tp_budget t).
Proof.
  destruct op as [now ev| |b|s e l]; simpl.
  - unfold OnEvent. destruct (fire_loop t now ev (tp_bindings t) (tp_slots t)) as [[f slots]|] eqn:E; simpl; [|done].
    intros [= <- <-]. simpl. split; [done|]. destruct f as [b|]; simpl.
    + split; [done|]. intros _. revert E. generalize (tp_slots t). induction (tp_bindings t) as [|x bs IH];
        intros sl; simpl; [done|].
      destruct (negb (matches x ev)); [apply IH|]. destruct (sl !! slotKey x); simpl; [|done].
      destruct (still_spent x now t0); [apply IH|].
      destruct (Z.leb_spec (tp_budget t) (tp_firings t)); [done|].
      destruct (match tp_consent t with Some _ => _ | None => _ end); [apply IH | lia].
    + split; [unfold fired_count; simpl; lia | done].
  - intros [= <- <-]. unfold fired_count. simpl. split; [done|]. split; [lia | done].
  - intros [= <- <-]. unfold fired_count. simpl. split; [done|]. split; [lia | done].
  - intros [= <- <-]. unfold trigger_Remove, fired_count. case_match; simpl; split; try done; split; try lia; done.
Qed.

Lemma fired_count_cons f l : fired_count (f :: l) = fired_count [f] + fired_count l.
Proof. unfold fired_count. rewrite !filter_cons, filter_nil. case_decide; simpl; lia. Qed.

(** A policy whose bindings have distinct keys never fires more than its
    budget, over any history of events, engagements, additions and removals;
    the history never panics, and [Firings] reports the number of proactive
    turns approved. *)
Theorem trigger_budget bs budget consent ops :
  NoDup (slotKey <$> bs) ->
  exists fired t, trigger_run (NewTriggerPolicy bs budget consent) ops = Some (fired, t)
    /\ Firings t = fired_count fired
    /\ fired_count fired <= (if budget <=? 0 then defaultTriggerBudget else budget).
Proof.
  intros Hnd. destruct (trigger_run_wf _ ops (new_policy_wf bs budget consent Hnd)) as (fired & t & Hr & _).
  exists fired, t. split; [done|].
  assert (H : forall ops t0 fired t, trigger_run t0 ops = Some (fired, t) -> tp_firings t0 <= tp_budget t0 ->
    tp_firings t = tp_firings t0 + fired_count fired /\ tp_firings t <= tp_budget t0).
  { clear. induction ops as [|op ops IH]; intros t0 fired t; simpl.
    { intros [= <- <-]. unfold fired_count. simpl. lia. }
    destruct (trigger_do t0 op) as [[f t1]|] eqn:E; simpl; [|done].
    destruct (trigger_run t1 ops) as [[fs t2]|] eqn:E2; simpl; [|done]. intros [= <- <-] Hb.
    destruct (trigger_do_count _ _ _ _ E) as (H1 & H2 & H3). specialize (H3 Hb). rewrite <- H1 in H3.
    destruct (IH _ _ _ E2 H3) as [H4 H5]. rewrite fired_count_cons. simpl. lia. }
  destruct (H _ _ _ _ Hr) as [H1 H2]; simpl in *.
  - destruct (Z.leb_spec budget 0); unfold defaultTriggerBudget; lia.
  - unfold Firings. split; lia.
Qed.

(** ** No nagging *)

Section AntiNag.
Variables (b : TriggerBinding) (now now2 : Time).
Abbreviation key := (slotKey b).

Definition leaves_key (op : trigger_op) : Prop :=
  match op with
  | OpAdd b' => slotKey b' <> key
  | OpRemove s e l => removal_key s e l <> key
  | _ => True
  end.

Definition not_after (op : trigger_op) : Prop :=
  match op with OpEvent n _ => n <= now2 | _ => True end.

(** A spent slot that stays spent is not touched and does not fire. *)
Lemma fire_loop_spent t n ev bs slots fired slots' s :
  (forall x, x ∈ bs -> slotKey x = key -> x = b) ->
  slots !! key = Some s -> still_spent b n s = true ->
  fire_loop t n ev bs slots = Some (fired, slots') ->
  slots' !! key = Some s /\ forall b', fired = Some b' -> slotKey b' <> key.
Proof.
  revert slots. induction bs as [|x bs IH]; intros slots Hx Hs Hsp; simpl; [by intros [= <- <-]|].
  assert (Hx' : forall y, y ∈ bs -> slotKey y = key -> y = b) by (intros; apply Hx; [by right | done]).
  destruct (negb (matches x ev)); [by apply IH|].
  destruct (decide (slotKey x = key)) as [Hk|Hk].
  - assert (x = b) as -> by (apply Hx; [left | done]). rewrite Hs. simpl. rewrite Hsp. by apply IH.
  - destruct (slots !! slotKey x) as [sx|]; simpl; [|done].
    destruct (still_spent x n sx); [by apply IH|].
    destruct (tp_budget t <=? tp_firings t); [intros [= <- <-]; by rewrite lookup_insert_ne|].
    destruct (match tp_consent t with Some _ => _ | None => _ end).
    + apply IH; try done. by rewrite lookup_insert_ne.
    + intros [= <- <-]. rewrite !lookup_insert_ne by done. split; [done|]. by intros b' [= <-].
Qed.

Lemma still_spent_false s n :
  sl_spent s = true -> sl_spentAt s = now -> still_spent b n s = false ->
  sl_engaged s = true /\ now + cooldown_of b <= n.
Proof.
  intros H1 H2. unfold still_spent. rewrite H1, H2. simpl. intros [H3 H4]%orb_false_iff.
  apply negb_false_iff in H3. apply Z.ltb_ge in H4. done.
Qed.

(** Since the firing: the slot is still spent from it, or the user engaged
    and the cooldown has passed. *)
Definition waiting (t : TriggerPolicy) (past : list trigger_op) : Prop :=
  policy_wf t /\ b ∈ tp_bindings t
  /\ exists s, tp_slots t !! key = Some s
     /\ ((sl_spent s = true /\ sl_spentAt s = now /\ (sl_engaged s = true -> OpEngage ∈ past))
         \/ (OpEngage ∈ past /\ now + cooldown_of b <= now2)).

Lemma policy_key_unique t x : policy_wf t -> b ∈ tp_bindings t -> x ∈ tp_bindings t -> slotKey x = key -> x = b.
Proof.
  intros [Hnd _] Hb Hx Hk. apply list_elem_of_lookup in Hb as [i Hi]. apply list_elem_of_lookup in Hx as [j Hj].
  assert (i = j) as ->; [|congruence].
  eapply (NoDup_lookup _ i j key Hnd); rewrite list_lookup_fmap, ?Hi, ?Hj; simpl; congruence.
Qed.

Lemma replace_binding_other k b' l :
  k <> key -> slotKey b' = k -> b ∈ l -> b ∈ replace_binding k b' l.
Proof.
  intros Hk Hb'. induction l as [|x l IH]; simpl; [done|]. intros H.
  destruct (String.eqb_spec (slotKey x) k) as [E|E]; apply elem_of_cons in H as [->|H].
  - done.
  - by right.
  - left.
  - right. by apply IH.
Qed.

Lemma remove_binding_other k l : k <> key -> b ∈ l -> b ∈ remove_binding k l.
Proof.
  intros Hk. induction l as [|x l IH]; simpl; [done|]. intros H.
  destruct (String.eqb_spec (slotKey x) k) as [E|E]; apply elem_of_cons in H as [->|H]; try done.
  - left.
  - right. by apply IH.
Qed.

Lemma waiting_step t past op fired t' :
  waiting t past -> leaves_key op -> not_after op -> trigger_do t op = Some (fired, t') ->
  waiting t' (past ++ [op]).
Proof.
  intros (Hw & Hb & s & Hs & Hst) Hk Hn Hd.
  destruct (trigger_do_wf t op Hw) as (f' & t1 & Hd' & Hw'). assert (t1 = t') as -> by congruence.
  split; [done|].
  assert (Hin : forall o, o ∈ past -> o ∈ past ++ [op]) by (intros; apply elem_of_app; by left).
  destruct op as [n ev| |b'|sv e l]; simpl in *.
  - unfold OnEvent in Hd. destruct (fire_loop _ _ _ _ _) as [[f slots]|] eqn:Ef; simpl in Hd; [|done].
    injection Hd as <- <-. split; [done|]. simpl.
    destruct (proj2 (fire_loop_dom _ _ _ _ _ _ _ Ef key)) as [s' Hs']; [by rewrite Hs|].
    destruct Hst as [(H1 & H2 & H3)|(H1 & H2)]; [|exists s'; split; [done | right; auto]].
    destruct (still_spent b n s) eqn:Esp.
    + destruct (fire_loop_spent t n ev _ _ _ _ s (fun x => policy_key_unique t x Hw Hb) Hs Esp Ef) as [Hk' _].
      exists s. split; [done|]. left. auto.
    + destruct (still_spent_false _ _ H1 H2 Esp) as [H4 H5]. exists s'. split; [done|]. right.
      split; [auto | lia].
  - injection Hd as <- <-. split; [done|]. simpl. rewrite lookup_fmap, Hs. simpl. eexists. split; [reflexivity|].
    assert (OpEngage ∈ past ++ [OpEngage]) by (apply elem_of_app; right; left).
    destruct Hst as [(H1 & H2 & H3)|(H1 & H2)]; [left | by right]. rewrite H1. simpl. done.
  - injection Hd as <- <-. unfold trigger_Add. simpl. split.
    + destruct (tp_slots t !! slotKey b'); [by apply replace_binding_other | apply elem_of_app; by left].
    + rewrite lookup_insert_ne by done. exists s. split; [done|].
      destruct Hst as [(H1 & H2 & H3)|(H1 & H2)]; [left | right]; auto.
  - injection Hd as <- <-. unfold trigger_Remove.
    case_match; simpl; (split; [try by apply remove_binding_other | exists s; split;
      [try rewrite lookup_delete_ne by done; done |
       destruct Hst as [(H1 & H2 & H3)|(H1 & H2)]; [left | right]; auto]]); done.
Qed.
End AntiNag.

(** The anti-nag rule.  When a binding's slot fires twice, and the
    binding was neither replaced nor removed in between, then the user
    engaged between the two firings and the binding's cooldown has passed. *)
Theorem trigger_rearms_after_engagement t now ev b t1 mid fired t2 now2 ev2 b2 t3 :
  policy_wf t ->
  OnEvent t now ev = Some (Some b, t1) ->
  Forall (leaves_key b) mid -> Forall (not_after now2) mid ->
  trigger_run t1 mid = Some (fired, t2) ->
  OnEvent t2 now2 ev2 = Some (Some b2, t3) -> slotKey b2 = slotKey b ->
  OpEngage ∈ mid /\ now + cooldown_of b <= now2.
Proof.
  intros Hw Hf Hl Hn Hr Hf2 Hk.
  assert (H1 : waiting b now now2 t1 []).
  { destruct (trigger_do_wf t (OpEvent now ev) Hw) as (f' & t1' & Hd & Hw1). simpl in Hd.
    assert (t1' = t1) as -> by congruence. split; [done|].
    unfold OnEvent in Hf. destruct (fire_loop _ _ _ _ _) as [[f slots]|] eqn:Ef; simpl in Hf; [|done].
    injection Hf as -> <-. simpl. revert Ef. clear. generalize (tp_slots t).
    induction (tp_bindings t) as [|x bs IH]; intros sl; simpl; [done|].
    assert (Hrest : (b ∈ bs /\ exists s, slots !! slotKey b = Some s /\ ((sl_spent s = true /\ sl_spentAt s = now
       /\ (sl_engaged s = true -> OpEngage ∈ [])) \/ OpEngage ∈ [] /\ now + cooldown_of b <= now2)) ->
      (b ∈ x :: bs /\ exists s, slots !! slotKey b = Some s /\ ((sl_spent s = true /\ sl_spentAt s = now
       /\ (sl_engaged s = true -> OpEngage ∈ [])) \/ OpEngage ∈ [] /\ now + cooldown_of b <= now2)))
      by (intros [? ?]; split; [by right | done]).
    destruct (negb (matches x ev)); [intros; apply Hrest; eauto|].
    destruct (sl !! slotKey x); simpl; [|done].
    destruct (still_spent x now _); [intros; apply Hrest; eauto|].
    destruct (tp_budget t <=? tp_firings t); [done|].
    destruct (match tp_consent t with Some _ => _ | None => _ end); [intros; apply Hrest; eauto|].
    intros [= -> <-]. split; [left|]. rewrite lookup_insert_eq. eexists. split; [reflexivity|]. left. done. }
  assert (H2 : forall mid past t1 fired, waiting b now now2 t1 past -> Forall (leaves_key b) mid ->
    Forall (not_after now2) mid -> trigger_run t1 mid = Some (fired, t2) -> waiting b now now2 t2 (past ++ mid)).
  { clear. induction mid as [|op mid IH]; intros past t1 fired Hwt Hl Hn; simpl.
    { intros [= _ <-]. by rewrite app_nil_r. }
    destruct (trigger_do t1 op) as [[f t']|] eqn:E; simpl; [|done].
    destruct (trigger_run t' mid) as [[fs t2']|] eqn:E2; simpl; [|done]. intros [= _ <-].
    inversion Hl; subst. inversion Hn; subst. replace (past ++ op :: mid) with ((past ++ [op]) ++ mid)
      by by rewrite <- app_assoc. eapply IH; eauto using waiting_step. }
  destruct (H2 mid [] t1 fired H1 Hl Hn Hr) as (Hw2 & Hb & s & Hs & Hst). simpl in Hst.
  destruct Hst as [(G1 & G2 & G3)|G]; [|done].
  unfold OnEvent in Hf2. destruct (fire_loop t2 now2 ev2 _ _) as [[f slots]|] eqn:Ef; simpl in Hf2; [|done].
  injection Hf2 as -> _. destruct (still_spent b now2 s) eqn:Esp.
  - destruct (fire_loop_spent b t2 now2 ev2 _ _ _ _ s (fun x => policy_key_unique b t2 x Hw2 Hb) Hs Esp Ef) as [_ Hno].
    by destruct (Hno b2 eq_refl).
  - destruct (still_spent_false b now s now2 G1 G2 Esp) as [G4 G5]. auto.
Qed.

(** ** Policies to run *)

Definition ci_binding : TriggerBinding :=
  {| tb_Server := ""; tb_Event := "ci.failed"; tb_Filter := None; tb_Instructions := "look";
     tb_Label := "ci"; tb_Cooldown := 100 |}.

Definition ci_event : IncomingEvent :=
  {| ie_Server := "gh"; ie_Name := "ci.failed"; ie_ID := ""; ie_Cursor := ""; ie_Time := 0; ie_Data := "{}" |}.

Definition ci_policy : TriggerPolicy := NewTriggerPolicy [ci_binding] 2 None.

Lemma ci_keys : NoDup (slotKey <$> [ci_binding]).
Proof. apply NoDup_singleton. Qed.

Lemma trigger_budget_witness :
  exists fired t, trigger_run ci_policy
      [OpEvent 0 ci_event; OpEvent 50 ci_event; OpEngage; OpEvent 120 ci_event; OpEngage; OpEvent 300 ci_event]
      = Some (fired, t)
    /\ Firings t = fired_count fired /\ fired_count fired <= 2.
Proof. exact (trigger_budget [ci_binding] 2 None _ ci_keys). Defined.

Lemma trigger_rearms_after_engagement_witness :
  OpEngage ∈ [OpEvent 50 ci_event; OpEngage] /\ 0 + cooldown_of ci_binding <= 120.
Proof.
  destruct (OnEvent ci_policy 0 ci_event) as [[[b|] t1]|] eqn:E1; [|vm_compute in E1; discriminate..].
  destruct (trigger_run t1 [OpEvent 50 ci_event; OpEngage]) as [[fired t2]|] eqn:E2;
    [|vm_compute in E1; injection E1 as <- <-; vm_compute in E2; discriminate].
  destruct (OnEvent t2 120 ci_event) as [[[b2|] t3]|] eqn:E3;
    [|vm_compute in E1; injection E1 as <- <-; vm_compute in E2; injection E2 as <- <-;
      vm_compute in E3; discriminate..].
  assert (Hb : b = ci_binding) by (vm_compute in E1; injection E1 as <- <-; reflexivity).
  assert (Hk : slotKey b2 = slotKey b) by (vm_compute in E1; injection E1 as <- <-; vm_compute in E2;
    injection E2 as <- <-; vm_compute in E3; injection E3 as <- _; reflexivity).
  subst b.
  apply (trigger_rearms_after_engagement ci_policy 0 ci_event ci_binding t1
    [OpEvent 50 ci_event; OpEngage] fired t2 120 ci_event b2 t3); try assumption.
  - exact (new_policy_wf [ci_binding] 2 None ci_keys).
  - repeat constructor.
  - repeat constructor. simpl. lia.
Defined.

(** Two bindings with one key share a slot.  Removing the key drops the slot
    and one of them; the next event reads the missing slot and panics. *)
Lemma duplicate_binding_panics :
  let t := NewTriggerPolicy [ci_binding; ci_binding] 2 None in
  (trigger_Remove t "" "ci.failed" "ci").1 = true
  /\ OnEvent (trigger_Remove t "" "ci.failed" "ci").2 0 ci_event = None.
Proof. split; vm_compute; reflexivity. Qed.

(** Keys are joined with a slash and not escaped: two different bindings can
    have one key. *)
Lemma slot_keys_collide :
  slotKey {| tb_Server := "a"; tb_Event := "b/c"; tb_Filter := None; tb_Instructions := ""; tb_Label := "";
             tb_Cooldown := 0 |}
  = slotKey {| tb_Server := "a/b"; tb_Event := "c"; tb_Filter := None; tb_Instructions := ""; tb_Label := "";
             tb_Cooldown := 0 |}.
Proof. reflexivity. Qed.
