(* ===== verification/Dispatch.v ===== *)
(** * Dispatching tool calls: src/runner.go ([callTool], [dispatch], [toolHints], [toolResultText])

    The calls of one step run concurrently.  Each goroutine announces its
    call, runs the middleware chain, and turns what came back into one event
    and the text the model reads; events are serialized by a mutex.  The file
    models a dispatch as a set of such goroutines under a schedule: any
    interleaving of their actions with changes of the environment (a user's
    cancel, another goroutine of the program).  A nil result without an error
    is a nil dereference; the model then has no result. *)

From S2P Require Import Prelude GoStr Errors Json Provider TreeBudget Middleware Events MultiSource Compaction StepStage Stuck.
Local Open Scope eff_scope.

(** ** Hints and results *)

Definition bool_annotation (t : ToolDef) (key : string) : option bool :=
  match td_Annotations t !! key with Some (AnyBool b) => Some b | _ => None end.

(** [toolHints]: read-only, destructive, idempotent. *)
Fixpoint toolHints (tools : list ToolDef) (name : string) : bool * bool * bool :=
  match tools with
  | [] => (false, true, false)
  | t :: tools =>
      if negb (String.eqb (td_Name t) name) then toolHints tools name
      else if default false (bool_annotation t "readOnlyHint") then (true, false, true)
      else (false, default true (bool_annotation t "destructiveHint"),
            default false (bool_annotation t "idempotentHint"))
  end.

Definition text_parts (res : ToolResult) : list string :=
  c_Text <$> filter (fun c => c_Type c = "text" /\ c_Text c <> "") (tr_Content res).

Definition toolResultText (res : ToolResult) : string :=
  match text_parts res with
  | _ :: _ => str_join newline (text_parts res)
  | [] =>
      match tr_StructuredContent res with
      | Some (Some raw) => raw
      | _ => "(empty result)"
      end
  end.

(** [errorToolResult] of src/func_source.go. *)
Definition errorToolResult (text : string) : ToolResult :=
  {| tr_Content := [{| c_Type := "text"; c_Text := text |}]; tr_IsError := true;
     tr_StructuredContent := None |}.

(** ** One call *)

(** What a turn reads from Go's contexts and from mcpkit.  [env_cancelled k]
    is the [k]-th look of one call at its own and its parent's context: the
    looks happen at different moments. *)
Record RunEnv {Ctx W : Type} := {
  env_cancelled : nat -> Ctx -> Ctx -> W -> bool;
  env_call_ctx : Ctx -> ToolCall -> Ctx;
  env_scope : Ctx -> W -> RunScope;
  env_bind : RawJSON -> result tool_args;
  env_signals : W -> list Signal * W;
  env_ctx_err : Ctx -> W -> option error;
}.
Arguments RunEnv : clear implicits.

Section Call.
Context {Ctx W : Type} (env : RunEnv Ctx W).
Variable tools_cfg : option (ToolSource Ctx W Event).
Variable middleware : list (ToolMiddleware Ctx W Event).

(** The innermost dispatch of [callTool]. *)
Definition base_dispatch (src : ToolSource Ctx W Event) : ToolCallFunc Ctx W Event :=
  fun ctx info =>
    match decodeToolArgs (env_bind env) (tc_Args (ti_Call info)) with
    | inl err => eff_ret (Some (errorToolResult ("invalid arguments: " +:+ error_text err)), None)
    | inr args => src_Call src ctx (tc_Name (ti_Call info)) args
    end.

Definition call_info (ctx : Ctx) (step : Z) (call : ToolCall) (tools : list ToolDef) (w : W) : ToolCallInfo :=
  let '(ro, de, id) := toolHints tools (tc_Name call) in
  {| ti_Step := step; ti_Call := call; ti_Scope := env_scope env ctx w; ti_ReadOnly := ro;
     ti_Destructive := de; ti_Idempotent := id; ti_Class := None |}.

(** The chain's answer; without a tool source there is nothing to call. *)
Definition call_exec (ctx : Ctx) (step : Z) (call : ToolCall) (tools : list ToolDef)
  : eff W Event call_out :=
  match tools_cfg with
  | None => eff_ret (None, Some (wrap_sentinel ErrUnknownTool
               (": " +:+ go_quote (tc_Name call) +:+ " (no tools offered)")))
  | Some src => fun w =>
      chainToolMiddleware middleware (base_dispatch src) ctx (call_info ctx step call tools w) w
  end.

(** What the answer becomes: the event and the text for the model.  [c1],
    [c2], [c3] are the looks at the contexts, in order. *)
Definition outcome (step : Z) (call : ToolCall) (out : call_out) (c1 c2 c3 : bool)
  : option (Event * string) :=
  let cancelled := Some (EventToolCancelled step call "cancelled by user", "cancelled by user") in
  match out with
  | (_, Some err) =>
      match tools_cfg, deniedReason err with
      | Some _, Some reason =>
          if negb c1 then
            Some (EventToolDenied step call reason,
                  toolDeniedPrefix +:+ deniedModelReason err reason)
          else if error_is ErrNotAvailableNow err && negb c2 then
            Some (EventToolUnavailable step call (error_text err), error_text err)
          else if c3 then cancelled
          else Some (EventToolError step call (error_text err), toolFailedPrefix +:+ error_text err)
      | Some _, None =>
          if error_is ErrNotAvailableNow err && negb c2 then
            Some (EventToolUnavailable step call (error_text err), error_text err)
          else if c3 then cancelled
          else Some (EventToolError step call (error_text err), toolFailedPrefix +:+ error_text err)
      | None, _ =>
          if c3 then cancelled
          else Some (EventToolError step call (error_text err), toolFailedPrefix +:+ error_text err)
      end
  | (Some res, None) =>
      if c1 then cancelled
      else Some (EventToolEnd step call res,
                 if tr_IsError res then toolErrorPrefix +:+ toolResultText res
                 else toolResultText res)
  | (None, None) => None
  end.

(** ** Goroutines and schedules *)

Inductive call_pc :=
| CallReady
| CallBegun
| CallRan (out : call_out)
| CallDone (text : string)
| CallPanicked.

(** The program counters, the world, and the events with the index of the
    call that emitted each. *)
Record dispatch_state := {
  ds_pcs : list call_pc;
  ds_world : W;
  ds_trace : list (nat * Event);
}.

Definition set_pc (s : dispatch_state) (i : nat) (pc : call_pc) (w : W) (evs : list Event) : dispatch_state :=
  {| ds_pcs := <[i := pc]> (ds_pcs s); ds_world := w; ds_trace := ds_trace s ++ ((i,.) <$> evs) |}.

(** Goroutine [i] takes its next action. *)
Definition go_step (ctx : Ctx) (step : Z) (calls : list ToolCall) (tools : list ToolDef)
    (i : nat) (s : dispatch_state) : dispatch_state :=
  match calls !! i, ds_pcs s !! i with
  | Some call, Some CallReady =>
      set_pc s i CallBegun (ds_world s) [EventToolBegin step call]
  | Some call, Some CallBegun =>
      let '(out, evs, w) := call_exec (env_call_ctx env ctx call) step call tools (ds_world s) in
      set_pc s i (CallRan out) w evs
  | Some call, Some (CallRan out) =>
      let look k := env_cancelled env k (env_call_ctx env ctx call) ctx (ds_world s) in
      match outcome step call out (look 1) (look 2) (look 3) with
      | Some (ev, text) => set_pc s i (CallDone text) (ds_world s) [ev]
      | None => set_pc s i CallPanicked (ds_world s) []
      end
  | _, _ => s
  end.

Inductive sched_item := Go (i : nat) | Env (f : W -> W).

Definition sched_step ctx step calls tools (s : dispatch_state) (a : sched_item) : dispatch_state :=
  match a with
  | Go i => go_step ctx step calls tools i s
  | Env f => {| ds_pcs := ds_pcs s; ds_world := f (ds_world s); ds_trace := ds_trace s |}
  end.

(** [wg.Wait]: whatever the schedule left is run to its end. *)
Definition finish_all (n : nat) : list sched_item := flat_map (fun i => [Go i; Go i; Go i]) (seq 0 n).

Definition dispatch_run (ctx : Ctx) (step : Z) (calls : list ToolCall) (tools : list ToolDef)
    (schedule : list sched_item) (w : W) : dispatch_state :=
  foldl (sched_step ctx step calls tools)
    {| ds_pcs := replicate (length calls) CallReady; ds_world := w; ds_trace := [] |}
    (schedule ++ finish_all (length calls)).

Definition done_text (pc : call_pc) : option string :=
  match pc with CallDone t => Some t | _ => None end.

Definition result_of (call : ToolCall) (text : string) : Message :=
  {| m_Role := RoleTool; m_Text := text; m_ToolCalls := []; m_ToolCallID := tc_ID call; m_Timestamp := 0 |}.

(** The result slots in call order, and the signals drained at the join;
    [None] when a goroutine panicked. *)
Definition dispatch (ctx : Ctx) (step : Z) (calls : list ToolCall) (tools : list ToolDef)
    (schedule : list sched_item) (w : W)
  : option (list Message * list Signal * list (nat * Event) * W) :=
  let s := dispatch_run ctx step calls tools schedule w in
  texts ← mapM done_text (ds_pcs s);
  let '(signals, w') := env_signals env (ds_world s) in
  Some (zip_with result_of calls texts, signals, ds_trace s, w').

(** ** Invariants of a schedule *)

(** The middleware chain keeps its contract: a result or an error. *)
Definition answers : Prop := forall ctx step call tools w,
  eff_value (call_exec ctx step call tools) w <> (None, None).

(** A call's own events, tool output left out. *)
Definition call_event (e : Event) : bool :=
  match e with
  | EventToolBegin _ _ | EventToolEnd _ _ _ | EventToolError _ _ _ | EventToolDenied _ _ _
  | EventToolCancelled _ _ _ | EventToolUnavailable _ _ _ => true
  | _ => false
  end.

(** Tools report progress with events of other kinds. *)
Definition quiet : Prop := forall ctx step call tools w,
  Forall (fun e => call_event e = false) (eff_events (call_exec ctx step call tools) w).

Definition events_of (i : nat) (trace : list (nat * Event)) : list Event :=
  snd <$> filter (fun p => fst p = i /\ call_event (snd p) = true) trace.

(** The event of call [i] that gave the model [text]. *)
Definition outcome_event (step : Z) (call : ToolCall) (text : string) (e : Event) : Prop :=
  exists out c1 c2 c3, outcome step call out c1 c2 c3 = Some (e, text).

Definition pc_ok (step : Z) (call : ToolCall) (pc : call_pc) (evs : list Event) : Prop :=
  match pc with
  | CallReady => evs = []
  | CallBegun | CallRan _ => evs = [EventToolBegin step call]
  | CallDone text => exists e, evs = [EventToolBegin step call; e] /\ outcome_event step call text e
  | CallPanicked => False
  end /\ match pc with CallRan out => out <> (None, None) | _ => True end.

Record dispatch_inv (step : Z) (calls : list ToolCall) (s : dispatch_state) : Prop := {
  di_len : length (ds_pcs s) = length calls;
  di_pc : forall i call pc, calls !! i = Some call -> ds_pcs s !! i = Some pc ->
          pc_ok step call pc (events_of i (ds_trace s));
}.

Lemma events_of_app i t1 t2 : events_of i (t1 ++ t2) = events_of i t1 ++ events_of i t2.
Proof. unfold events_of. by rewrite filter_app, fmap_app. Qed.

Lemma events_of_same i evs : events_of i ((i,.) <$> evs) = filter (fun e => call_event e = true) evs.
Proof.
  unfold events_of. induction evs as [|e evs IH]; [done|]. csimpl. rewrite !filter_cons.
  destruct (call_event e) eqn:E.
  - rewrite !decide_True by (simpl; auto). csimpl. by rewrite IH.
  - rewrite !decide_False by (simpl; intuition congruence). done.
Qed.

Lemma events_of_other i j evs : i <> j -> events_of i ((j,.) <$> evs) = [].
Proof.
  intros Hne. unfold events_of. induction evs as [|e evs IH]; [done|]. csimpl.
  rewrite filter_cons, decide_False by (simpl; intuition congruence). done.
Qed.

Lemma set_pc_inv step calls s i call pc w evs :
  dispatch_inv step calls s -> calls !! i = Some call -> i < length (ds_pcs s) ->
  pc_ok step call pc (events_of i (ds_trace s) ++ filter (fun e => call_event e = true) evs) ->
  dispatch_inv step calls (set_pc s i pc w evs).
Proof.
  intros [Hl Hp] Hc Hi Hok. split; simpl; [by rewrite length_insert|].
  intros j call' pc' Hc' Hp'. rewrite events_of_app.
  destruct (decide (j = i)) as [->|Hne].
  - rewrite list_lookup_insert_eq in Hp' by done. injection Hp' as <-.
    assert (call' = call) as -> by congruence. by rewrite events_of_same.
  - rewrite list_lookup_insert_ne in Hp' by done. rewrite events_of_other by done.
    rewrite app_nil_r. eauto.
Qed.

Lemma outcome_answers step call out c1 c2 c3 :
  out <> (None, None) -> exists e text, outcome step call out c1 c2 c3 = Some (e, text)
    /\ call_event e = true.
Proof.
  intros H. destruct out as [[res|] [err|]]; try done; simpl;
    destruct tools_cfg, c1, c2, c3; simpl; rewrite ?andb_false_r, ?andb_true_r;
    repeat case_match; eauto.
Qed.

Hypothesis Hanswers : answers.
Hypothesis Hquiet : quiet.

Lemma go_step_inv ctx step calls tools i s :
  dispatch_inv step calls s -> dispatch_inv step calls (go_step ctx step calls tools i s).
Proof.
  intros Hinv. unfold go_step. destruct (calls !! i) as [call|] eqn:Hc; [|done].
  destruct (ds_pcs s !! i) as [pc|] eqn:Hp; [|done].
  pose proof (di_pc _ _ _ Hinv _ _ _ Hc Hp) as [Hev Hout]. pose proof (lookup_lt_Some _ _ _ Hp) as Hlt.
  destruct pc as [| |out|text|]; try done.
  - apply set_pc_inv with call; try done. rewrite Hev. by split.
  - pose proof (Hanswers (env_call_ctx env ctx call) step call tools (ds_world s)) as Ha.
    pose proof (Hquiet (env_call_ctx env ctx call) step call tools (ds_world s)) as Hq.
    unfold eff_value, eff_events in *. destruct (call_exec _ _ _ _ _) as [[out evs] w].
    apply set_pc_inv with call; try done. rewrite filter_none by done. rewrite app_nil_r. by split.
  - cbv zeta. set (look k := env_cancelled env k (env_call_ctx env ctx call) ctx (ds_world s)).
    change (env_cancelled env 1 _ _ _) with (look 1). change (env_cancelled env 2 _ _ _) with (look 2).
    change (env_cancelled env 3 _ _ _) with (look 3).
    destruct (outcome_answers step call out (look 1) (look 2) (look 3) Hout) as (e & text & Ho & He).
    rewrite Ho. apply set_pc_inv with call; try done. rewrite Hev, filter_cons, decide_True, filter_nil by done.
    split; [|done]. exists e. split; [done|]. unfold outcome_event. eauto.
Qed.

Lemma sched_inv ctx step calls tools sched s :
  dispatch_inv step calls s -> dispatch_inv step calls (foldl (sched_step ctx step calls tools) s sched).
Proof.
  revert s. induction sched as [|[i|f] sched IH]; intros s H; simpl; [done | |].
  - apply IH. by apply go_step_inv.
  - apply IH. destruct H. by split.
Qed.

(** How many actions a goroutine still has. *)
Definition remaining (pc : call_pc) : nat :=
  match pc with CallReady => 3 | CallBegun => 2 | CallRan _ => 1 | _ => 0 end.

Lemma go_step_progress ctx step calls tools i s pc :
  length (ds_pcs s) = length calls -> ds_pcs s !! i = Some pc ->
  exists pc', ds_pcs (go_step ctx step calls tools i s) !! i = Some pc'
    /\ remaining pc' <= remaining pc - 1.
Proof.
  intros Hl Hp. pose proof (lookup_lt_Some _ _ _ Hp) as Hlt.
  destruct (lookup_lt_is_Some_2 calls i) as [call Hc]; [lia|]. unfold go_step. rewrite Hc, Hp.
  destruct pc; simpl; rewrite ?Hp; eauto with lia.
  - rewrite list_lookup_insert_eq by done. eexists. split; [done|]. simpl. lia.
  - destruct (call_exec _ _ _ _ _) as [[out evs] w]. simpl. rewrite list_lookup_insert_eq by done.
    eexists. split; [done|]. simpl. lia.
  - destruct (outcome _ _ _ _ _ _) as [[ev text]|]; simpl; rewrite list_lookup_insert_eq by done;
      eexists; (split; [done|]); simpl; lia.
Qed.

Lemma go_step_len ctx step calls tools i s :
  length (ds_pcs (go_step ctx step calls tools i s)) = length (ds_pcs s).
Proof.
  unfold go_step. repeat case_match; simpl; rewrite ?length_insert; done.
Qed.

Lemma go_step_others ctx step calls tools i j s :
  i <> j -> ds_pcs (go_step ctx step calls tools i s) !! j = ds_pcs s !! j.
Proof.
  intros H. unfold go_step. repeat case_match; simpl; rewrite ?list_lookup_insert_ne by done; done.
Qed.

Lemma finish_all_done ctx step calls tools s :
  length (ds_pcs s) = length calls ->
  forall i pc, ds_pcs (foldl (sched_step ctx step calls tools) s (finish_all (length calls))) !! i = Some pc ->
  remaining pc = 0.
Proof.
  intros Hl. assert (H : forall n s s', n <= length calls -> length (ds_pcs s) = length calls ->
    s' = foldl (sched_step ctx step calls tools) s (finish_all n) ->
    length (ds_pcs s') = length calls
    /\ forall i pc, i < n -> ds_pcs s' !! i = Some pc -> remaining pc = 0).
  { clear s Hl. induction n as [|n IH]; intros s s' Hn Hl ->; [simpl; split; [done | lia]|].
    unfold finish_all. rewrite seq_S, flat_map_app, foldl_app. fold (finish_all n).
    destruct (IH s _ ltac:(lia) Hl eq_refl) as [Hl' Hd].
    set (s1 := foldl (sched_step ctx step calls tools) s (finish_all n)) in *. simpl.
    set (s2 := go_step ctx step calls tools n s1). set (s3 := go_step ctx step calls tools n s2).
    set (s4 := go_step ctx step calls tools n s3).
    assert (Hl2 : length (ds_pcs s2) = length calls) by (unfold s2; by rewrite go_step_len).
    assert (Hl3 : length (ds_pcs s3) = length calls) by (unfold s3; by rewrite go_step_len).
    split; [unfold s4; by rewrite go_step_len|]. intros i pc Hi Hp.
    destruct (decide (i = n)) as [->|Hne].
    - destruct (lookup_lt_is_Some_2 (ds_pcs s1) n) as [p1 H1]; [lia|].
      destruct (go_step_progress ctx step calls tools n s1 p1 Hl' H1) as (p2 & H2 & R2).
      destruct (go_step_progress ctx step calls tools n s2 p2 Hl2 H2) as (p3 & H3 & R3).
      destruct (go_step_progress ctx step calls tools n s3 p3 Hl3 H3) as (p4 & H4 & R4).
      assert (pc = p4) as -> by (unfold s4 in Hp; congruence).
      assert (remaining p1 <= 3) by (destruct p1; simpl; lia). lia.
    - unfold s4, s3, s2 in Hp. rewrite !go_step_others in Hp by done. apply (Hd i); [lia | done]. }
  intros i pc Hp. destruct (H (length calls) s _ (le_n _) Hl eq_refl) as [Hl' Hd].
  apply (Hd i); [|done]. apply lookup_lt_Some in Hp. lia.
Qed.

Lemma dispatch_finishes ctx step calls tools schedule w :
  exists texts signals trace w',
    dispatch ctx step calls tools schedule w = Some (zip_with result_of calls texts, signals, trace, w')
    /\ length texts = length calls
    /\ forall i call, calls !! i = Some call ->
       exists text e, texts !! i = Some text
         /\ events_of i trace = [EventToolBegin step call; e] /\ outcome_event step call text e.
Proof.
  set (s0 := {| ds_pcs := replicate (length calls) CallReady; ds_world := w; ds_trace := [] |}).
  set (s1 := foldl (sched_step ctx step calls tools) s0 schedule).
  set (s := foldl (sched_step ctx step calls tools) s1 (finish_all (length calls))).
  assert (Hrun : dispatch_run ctx step calls tools schedule w = s)
    by (unfold dispatch_run, s, s1; by rewrite foldl_app).
  assert (H0 : dispatch_inv step calls s0).
  { split; simpl; [apply length_replicate|]. intros i call pc _ [-> _]%lookup_replicate. by split. }
  assert (H1 : dispatch_inv step calls s1) by by apply sched_inv.
  assert (Hs : dispatch_inv step calls s) by by apply sched_inv.
  pose proof (finish_all_done ctx step calls tools s1 (di_len _ _ _ H1)) as Hrem.
  assert (Hdone : forall i pc, ds_pcs s !! i = Some pc -> exists t, pc = CallDone t).
  { intros i pc Hp. destruct (lookup_lt_is_Some_2 calls i) as [call Hc].
    { apply lookup_lt_Some in Hp. pose proof (di_len _ _ _ Hs). lia. }
    destruct (di_pc _ _ _ Hs _ _ _ Hc Hp) as [Hok _]. pose proof (Hrem i pc Hp) as Hr.
    destruct pc; simpl in *; try lia; eauto; done. }
  assert (exists texts, mapM done_text (ds_pcs s) = Some texts) as [texts Ht].
  { apply mapM_is_Some_2. apply Forall_lookup. intros i pc Hp. destruct (Hdone i pc Hp) as [t ->]. eauto. }
  pose proof (mapM_Some_1 _ _ _ Ht) as Hf. pose proof (Forall2_length _ _ _ Hf) as Hlen.
  rewrite (di_len _ _ _ Hs) in Hlen.
  unfold dispatch. rewrite Hrun, Ht. simpl. destruct (env_signals env (ds_world s)) as [signals w'].
  exists texts, signals, (ds_trace s), w'. split; [done|]. split; [done|]. intros i call Hc.
  destruct (lookup_lt_is_Some_2 (ds_pcs s) i) as [pc Hp].
  { apply lookup_lt_Some in Hc. pose proof (di_len _ _ _ Hs). lia. }
  destruct (Hdone i pc Hp) as [text ->]. destruct (di_pc _ _ _ Hs _ _ _ Hc Hp) as [(e & He & Ho) _].
  exists text, e. split; [|done].
  destruct (Forall2_lookup_l _ _ _ _ _ Hf Hp) as (t' & Ht' & Hd). simpl in Hd. congruence.
Qed.

(** What holds of every event a call can emit holds of the trace. *)
Lemma dispatch_trace_all (P : Event -> Prop) ctx step calls tools schedule w :
  (forall call, P (EventToolBegin step call)) ->
  (forall call out c1 c2 c3 e t, outcome step call out c1 c2 c3 = Some (e, t) -> P e) ->
  (forall ctx call tools w, Forall P (eff_events (call_exec ctx step call tools) w)) ->
  Forall (fun p => P (snd p)) (ds_trace (dispatch_run ctx step calls tools schedule w)).
Proof.
  intros Hb Ho He. unfold dispatch_run. generalize (schedule ++ finish_all (length calls)). intros sched.
  assert (Hset : forall s i pc w evs, Forall (fun p => P (snd p)) (ds_trace s) -> Forall P evs ->
    Forall (fun p => P (snd p)) (ds_trace (set_pc s i pc w evs))).
  { intros s i pc w0 evs Hs Hev. simpl. apply Forall_app. split; [done|]. by apply Forall_fmap. }
  match goal with |- context [foldl _ ?s0 _] => assert (H0 : Forall (fun p => P (snd p)) (ds_trace s0)) by constructor;
    revert H0; generalize s0 end.
  induction sched as [|a sched IH]; intros s Hs; [done|]. simpl. apply IH. destruct a as [i|f]; [|done].
  simpl. unfold go_step. destruct (calls !! i) as [call|]; [|done].
  destruct (ds_pcs s !! i) as [[| |out| |]|]; try done; [by apply Hset; [|constructor]| |].
  - specialize (He (env_call_ctx env ctx call) call tools (ds_world s)). unfold eff_events in He.
    destruct (call_exec _ _ _ _ _) as [[out evs] w']. by apply Hset.
  - destruct (outcome _ _ _ _ _ _) as [[ev text]|] eqn:E; [|by apply Hset].
    apply Hset; [done|]. repeat constructor. by eapply Ho.
Qed.

(** C4: Every schedule of a step's calls ends with one tool message per
    call, in call order and with that call's ID, whatever order the calls
    finished in and whatever the environment did meanwhile; and for each
    call the events are its tool-begin followed by exactly one outcome
    event, the one that belongs to the text the model is given. *)
Theorem dispatch_complete ctx step calls tools schedule w :
  exists texts signals trace w',
    dispatch ctx step calls tools schedule w = Some (zip_with result_of calls texts, signals, trace, w')
    /\ length texts = length calls
    /\ forall i call, calls !! i = Some call ->
       exists text e, texts !! i = Some text
         /\ events_of i trace = [EventToolBegin step call; e] /\ outcome_event step call text e.
Proof. apply dispatch_finishes. Qed.
End Call.

(** ** Resolved hints *)

(** A read-only tool is never reported destructive, and a name outside the
    offered set gets the strictest reading. *)
Lemma toolHints_resolved tools name :
  let '(ro, de, id) := toolHints tools name in
  (ro = true -> de = false /\ id = true)
  /\ (name ∉ names_of tools -> (ro, de, id) = (false, true, false)).
Proof.
  induction tools as [|t tools IH]; simpl; [done|].
  destruct (String.eqb_spec (td_Name t) name) as [<-|Hne]; simpl.
  - assert (Hin : td_Name t ∈ names_of (t :: tools)) by (unfold names_of; csimpl; left).
    destruct (default false (bool_annotation t "readOnlyHint")); (split; [done | by intros ?]).
  - destruct (toolHints tools name) as [[ro de] id]. destruct IH as [IH1 IH2]. split; [done|].
    intros Hn. apply IH2. unfold names_of in *. csimpl in Hn. set_solver.
Qed.

(** ** Two calls, one of them cancelled *)

Definition echo_source : ToolSource unit nat Event :=
  {| src_Tools := fun _ => eff_ret (inr []);
     src_Call := fun _ name _ w =>
       ((Some {| tr_Content := [{| c_Type := "text"; c_Text := name |}]; tr_IsError := false;
                 tr_StructuredContent := None |}, None), [], S w) |}.

(** A world above 100 is one where the calls were cancelled. *)
Definition demo_env : RunEnv unit nat :=
  {| env_cancelled := fun _ _ _ w => Nat.ltb 100 w;
     env_call_ctx := fun ctx _ => ctx;
     env_scope := fun _ _ => ScopeFrom [] None None;
     env_bind := fun _ => inr ∅;
     env_signals := fun w => ([], w);
     env_ctx_err := fun _ _ => None |}.

Definition call_named (id name : string) : ToolCall := {| tc_ID := id; tc_Name := name; tc_Args := "" |}.

Lemma echo_answers : answers demo_env (Some echo_source) [].
Proof. intros ctx step call tools w. unfold eff_value, call_exec, chainToolMiddleware. simpl. unfold base_dispatch.
  simpl. unfold decodeToolArgs. destruct (String.eqb _ _); simpl; discriminate. Qed.

Lemma echo_quiet : quiet demo_env (Some echo_source) [].
Proof. intros ctx step call tools w. unfold eff_events, call_exec, chainToolMiddleware. simpl. unfold base_dispatch.
  simpl. unfold decodeToolArgs. destruct (String.eqb _ _); simpl; constructor. Qed.

Lemma dispatch_complete_witness :
  exists texts signals trace w',
    dispatch demo_env (Some echo_source) [] tt 1 [call_named "1" "a"; call_named "2" "b"] []
      [Go 1; Go 0; Go 1; Go 1; Go 0; Env (fun w => w + 200)] 0
      = Some (zip_with result_of [call_named "1" "a"; call_named "2" "b"] texts, signals, trace, w')
    /\ texts = ["cancelled by user"; "b"].
Proof.
  destruct (dispatch_complete demo_env (Some echo_source) [] echo_answers echo_quiet tt 1
    [call_named "1" "a"; call_named "2" "b"] [] [Go 1; Go 0; Go 1; Go 1; Go 0; Env (fun w => w + 200)] 0)
    as (texts & signals & trace & w' & H & Hlen & _).
  exists texts, signals, trace, w'. split; [exact H|].
  apply (f_equal (fun o => (fun x => m_Text <$> x.1.1.1) <$> o)) in H. vm_compute in H.
  destruct texts as [|t1 [|t2 [|t3 ts]]]; try discriminate. by injection H as <- <-.
Defined.
