(* ===== verification/Runner.v ===== *)
(** * The turn loop: src/runner.go, src/turnend.go

    [RunTurn]: list the tools, run the step chain, call the model, then
    either accept its answer (through the finalizing calls and the turn-end
    hooks) or dispatch its tool calls and go round again, up to [MaxSteps].
    Everything the Runner calls (providers, sources, stages, hooks) acts on an
    abstract world and may emit events; the contexts, the tree budget's state
    and mcpkit's schema compiler are read through [TurnEnv].  Spans and
    metrics are not modelled.  Token counts are Go ints, summed without
    overflow checks in the code; the model sums integers. *)

From S2P Require Import Prelude GoStr Errors Json Provider TreeBudget Middleware Events MultiSource Compaction StepStage Stuck Dispatch.
Local Open Scope eff_scope.

(** ** The dispatch contract

    What the loop relies on: one tool message per call, in call order. *)
Class Dispatcher (Ctx W : Type) := {
  disp : Ctx -> Z -> list ToolCall -> list ToolDef -> eff W Event (list Message * list Signal);
  disp_results : forall ctx step calls tools w, exists texts,
    length texts = length calls
    /\ fst (eff_value (disp ctx step calls tools) w) = zip_with result_of calls texts;
}.

(** ** Usage *)

Definition usage_add (a b : Usage) : Usage :=
  {| u_In := u_In a + u_In b; u_Out := u_Out a + u_Out b; u_Cached := u_Cached a + u_Cached b |}.

Definition usage_sub (a b : Usage) : Usage :=
  {| u_In := u_In a - u_In b; u_Out := u_Out a - u_Out b; u_Cached := u_Cached a - u_Cached b |}.

Abbreviation usageByModel := (gmap string Usage).

Definition ubm_add (m : usageByModel) (name : string) (u : option Usage) : usageByModel :=
  let t := default Usage_zero (m !! name) in
  <[name := match u with Some u => usage_add t u | None => t end]> m.

Definition ubm_addDelta (m : usageByModel) (name : string) (before after : Usage) : usageByModel :=
  ubm_add m name (Some (usage_sub after before)).

Definition ubm_result (m : usageByModel) : option usageByModel :=
  if existsb (fun p => negb (String.eqb (fst p) "")) (map_to_list m) then Some m else None.

(** ** Trimming *)

(** The loop runs from the end of the slice. *)
Fixpoint drop_unanswered (rev_msgs : list Message) : list Message :=
  match rev_msgs with
  | [] => []
  | last :: rest =>
      if negb (is_assistant last) || Nat.eqb (length (m_ToolCalls last)) 0 then rev_msgs
      else drop_unanswered rest
  end.

Definition DropUnansweredToolCalls (msgs : list Message) : list Message :=
  rev (drop_unanswered (rev msgs)).

(** ** Structured output *)

Definition stripJSONFence (text : string) : string :=
  let fence := "```" in
  let t := trim_space text in
  if negb (has_prefix fence t) then text
  else
    let t := trim_prefix t fence in
    let t := match str_index_byte (Ascii.ascii_of_nat 10) t with
             | Some nl => str_drop (nl + 1) t
             | None => t
             end in
    trim_space (trim_suffix (trim_space t) fence).

(** [core.CompiledSchema]: the validation errors of a document, as paths and
    messages. *)
Abbreviation CompiledSchema := (string -> list (string * string)).

Definition checkStructured (text : string) (compiled : CompiledSchema) : string :=
  if negb (json_valid text) then "it is not valid JSON"
  else str_join "; " ((fun '(path, msg) =>
         (if String.eqb path "" then "/" else path) +:+ ": " +:+ msg) <$> compiled text).

(** ** Turn-end hooks *)

Record TurnEndInfo := {
  te_Step : Z;
  te_MaxSteps : Z;
  te_Text : string;
  te_Draft : string;
  te_StructuredError : string;
  te_Messages : list Message;
  te_Usage : Usage;
}.

Record TurnEndVerdict := { tv_Continue : string; tv_AsUser : bool; tv_Stop : string }.

Definition accepted : TurnEndVerdict := {| tv_Continue := ""; tv_AsUser := false; tv_Stop := "" |}.

(** ** The stream of one model call *)

(** The loop of [consumeStream]: the accumulator and whether reasoning is
    being shown; the events come out in order. *)
Fixpoint consume_loop (step : Z) (items : list (error + Delta)) (acc : DeltaAccumulator) (thinking : bool)
  : (error + ProviderResponse) * list Event :=
  let end_thinking := if thinking then [EventThinkingEnd step] else [] in
  match items with
  | [] => (inr (acc_Result acc), end_thinking)
  | inl e :: _ => (inl e, [])
  | inr d :: items =>
      let acc := acc_Add acc d in
      match d_Kind d with
      | DeltaReasoning =>
          let '(r, evs) := consume_loop step items acc true in
          (r, (if thinking then [] else [EventThinkingBegin step]) ++ EventThinkingDelta step (d_Text d) :: evs)
      | DeltaText =>
          let '(r, evs) := consume_loop step items acc false in
          (r, end_thinking ++ EventTextDelta step (d_Text d) :: evs)
      | DeltaToolCallStart =>
          let '(r, evs) := consume_loop step items acc false in (r, end_thinking ++ evs)
      | _ => consume_loop step items acc thinking
      end
  end.

Section Turn.
Context {Ctx W : Type}.

Definition consumeStream (items : list (error + Delta)) (step : Z) : eff W Event (result ProviderResponse) :=
  fun w => let '(r, evs) := consume_loop step items acc_zero false in (r, evs, w).

Definition TurnEndHook := Ctx -> TurnEndInfo -> eff W Event (result TurnEndVerdict).

Record RunnerConfig := {
  rc_Provider : Provider Ctx W;
  rc_Tools : option (ToolSource Ctx W Event);
  rc_Instructions : string;
  rc_InstructionsFunc : option (Ctx -> eff W Event string);
  rc_MaxSteps : Z;
  rc_TreeBudget : TreeBudget;
  rc_Selector : option (@ToolSelector Ctx W);
  rc_Generation : GenerationParams;
  rc_Compactor : option (Compactor Ctx W);
  rc_StepStages : list (StepStage Ctx W);
  rc_SignalPolicy : option (list Signal -> SignalAction);
  rc_PreemptGrant : option (Signal -> bool);
  rc_ResponseSchema : RawJSON;
  rc_ResponseGuided : option (ptr GuidedDecoding);
  rc_TurnEnd : list TurnEndHook;
}.

Definition defaultMaxSteps : Z := 8.

(** [NewRunner]: the defaults; a missing provider is an error. *)
Definition NewRunner (cfg : option RunnerConfig) : result RunnerConfig :=
  match cfg with
  | None => inl (EText "agent: RunnerConfig requires a Provider")
  | Some c =>
      inr {| rc_Provider := rc_Provider c; rc_Tools := rc_Tools c; rc_Instructions := rc_Instructions c;
             rc_InstructionsFunc := rc_InstructionsFunc c;
             rc_MaxSteps := if (rc_MaxSteps c <=? 0)%Z then defaultMaxSteps else rc_MaxSteps c;
             rc_TreeBudget := rc_TreeBudget c; rc_Selector := rc_Selector c;
             rc_Generation := rc_Generation c; rc_Compactor := rc_Compactor c;
             rc_StepStages := rc_StepStages c; rc_SignalPolicy := rc_SignalPolicy c;
             rc_PreemptGrant := rc_PreemptGrant c; rc_ResponseSchema := rc_ResponseSchema c;
             rc_ResponseGuided := rc_ResponseGuided c; rc_TurnEnd := rc_TurnEnd c |}
  end.

Definition shouldBreakOn (cfg : RunnerConfig) (sig : Signal) : bool :=
  if negb (interrupts (sig_Kind sig)) then false
  else if bool_decide (sig_Kind sig = SignalPreempt)
  then match rc_PreemptGrant cfg with Some g => g sig | None => false end
  else true.

Record TurnRequest := {
  tr_History : list Message;
  tr_Generation : GenerationParams;
  tr_ResponseSchema : RawJSON;
  tr_ResponseGuided : option (ptr GuidedDecoding);
}.

(** What the loop reads and writes through contexts: the budget a context
    carries, its cancellation, and a fresh budget stamped on a context; and
    mcpkit's schema compiler. *)
Record TurnEnv := {
  te_budget : Ctx -> W -> option treeBudgetState;
  te_set_budget : Ctx -> treeBudgetState -> W -> W;
  te_with_budget : Ctx -> treeBudgetState -> W -> Ctx * W;
  te_ctx_err : Ctx -> W -> option error;
  te_compile : RawJSON -> result CompiledSchema;
  te_fresh : positive;
}.

Context (env : TurnEnv) `{Dispatcher Ctx W}.

Definition consume_step (ctx : Ctx) : eff W Event bool := fun w =>
  match consumeStep (te_budget env ctx w) with
  | (ok, Some st) => (ok, [], te_set_budget env ctx st w)
  | (ok, None) => (ok, [], w)
  end.

Definition add_usage_tokens (ctx : Ctx) (u : Usage) : eff W Event unit := fun w =>
  match addTokens (te_budget env ctx w) (u_In u + u_Out u)%Z with
  | Some st => (tt, [], te_set_budget env ctx st w)
  | None => (tt, [], w)
  end.

(** One call's usage added to the turn's and to the tree's. *)
Definition spend (ctx : Ctx) (usage : Usage) (u : option Usage) : eff W Event Usage :=
  match u with
  | None => eff_ret usage
  | Some u => add_usage_tokens ctx u ;;; eff_ret (usage_add usage u)
  end.

(** *** Finalizing calls *)

Definition request (instructions : string) (msgs : list Message) (tools : list ToolDef)
    (guided : option (ptr GuidedDecoding)) (schema : RawJSON) : ProviderRequest :=
  {| pr_Instructions := instructions; pr_Messages := msgs; pr_Tools := tools; pr_Temperature := None;
     pr_MaxTokens := 0; pr_ToolChoice := ToolChoice_zero; pr_Seed := None; pr_Penalties := None;
     pr_Guided := guided; pr_ResponseSchema := schema |}.

(** The generation parameters applied, the tool choice dropped. *)
Definition final_request (gen : GenerationParams) (req : ProviderRequest) : ProviderRequest :=
  let r := applyTo gen req in
  {| pr_Instructions := pr_Instructions r; pr_Messages := pr_Messages r; pr_Tools := pr_Tools r;
     pr_Temperature := pr_Temperature r; pr_MaxTokens := pr_MaxTokens r; pr_ToolChoice := ToolChoice_zero;
     pr_Seed := pr_Seed r; pr_Penalties := pr_Penalties r; pr_Guided := pr_Guided r;
     pr_ResponseSchema := pr_ResponseSchema r |}.

Definition structuredMaxAttempts : nat := 2.

(** The document, why it is invalid, and the usage; or the provider's
    error with the usage so far. *)
Fixpoint structured_attempts (attempts : nat) (cfg : RunnerConfig) (ctx : Ctx) (instructions : string)
    (msgs : list Message) (usage : Usage) (gen : GenerationParams) (schema : RawJSON)
    (compiled : CompiledSchema) (last invalid : string)
  : eff W Event (result (string * string) * Usage) :=
  match attempts with
  | O => eff_ret (inr (last, invalid), usage)
  | S attempts =>
      let* r := prov_Generate (rc_Provider cfg) ctx (final_request gen (request instructions msgs [] None schema)) in
      match r with
      | inl e => eff_ret (inl e, usage)
      | inr resp =>
          let* usage := spend ctx usage (r_Usage resp) in
          let last := stripJSONFence (r_Text resp) in
          let invalid := checkStructured last compiled in
          if String.eqb invalid "" then eff_ret (inr (last, ""), usage)
          else structured_attempts attempts cfg ctx instructions
                 (msgs ++ [text_message RoleAssistant (r_Text resp);
                           text_message RoleUser ("That answer doesn't match the required JSON schema: "
                             +:+ invalid +:+ ". Reply with only a JSON document that matches it.")])
                 usage gen schema compiled last invalid
      end
  end.

Definition finalizeStructured (cfg : RunnerConfig) (ctx : Ctx) (instructions : string) (msgs : list Message)
    (usage : Usage) (gen : GenerationParams) (schema : RawJSON) (compiled : CompiledSchema)
  : eff W Event (result (string * string) * Usage) :=
  structured_attempts structuredMaxAttempts cfg ctx instructions msgs usage gen schema compiled "" "".

Definition finalizeGuided (cfg : RunnerConfig) (ctx : Ctx) (instructions : string) (msgs : list Message)
    (usage : Usage) (gen : GenerationParams) (g : option (ptr GuidedDecoding))
  : eff W Event (result string * Usage) :=
  let* r := prov_Generate (rc_Provider cfg) ctx (final_request gen (request instructions msgs [] g "")) in
  match r with
  | inl e => eff_ret (inl e, usage)
  | inr resp => let* usage := spend ctx usage (r_Usage resp) in eff_ret (inr (r_Text resp), usage)
  end.

Definition same_provider (a b : Provider Ctx W) : bool := Pos.eqb (prov_id a) (prov_id b).

Definition checkStepGuided (cfg : RunnerConfig) (g turn : option (ptr GuidedDecoding)) (send : bool)
    (prov : Provider Ctx W) (hasSchema : bool) (step : Z) (provName : string) : option error :=
  match g with
  | None => None
  | Some gp =>
      let own := negb (ptr_eqb g turn) in
      if own && hasSchema then
        Some (EText ("agent: step " +:+ itoa step +:+ ": a stage set a grammar beside ResponseSchema; a turn's answer takes one constraint"))
      else
        match (if own then match guided_kind (p_deref gp) with inl e => Some e | inr _ => None end else None) with
        | Some e => Some (wrap_error ("agent: step " +:+ itoa step +:+ "'s grammar: ") e)
        | None =>
            let target := if send then prov else rc_Provider cfg in
            if CanGuide (CapabilitiesOf target) g then None
            else if negb (same_provider target (rc_Provider cfg)) then
              Some (wrap_sentinel ErrUnsupportedParam (": step " +:+ itoa step +:+ "'s grammar (the step is routed to "
                      +:+ go_quote provName +:+ ", which can't send this kind of constraint)"))
            else Some (wrap_sentinel ErrUnsupportedParam (": step " +:+ itoa step
                      +:+ "'s grammar (the provider can't send this kind of constraint)"))
        end
  end.

(** *** Hooks *)

Fixpoint run_hooks (hooks : list TurnEndHook) (ctx : Ctx) (info : TurnEndInfo) : eff W Event (result TurnEndVerdict) :=
  match hooks with
  | [] => eff_ret (inr accepted)
  | h :: hooks =>
      let* r := h ctx info in
      match r with
      | inl e => eff_ret (inl e)
      | inr v =>
          if negb (String.eqb (tv_Continue v) "") && negb (String.eqb (tv_Stop v) "") then
            eff_ret (inl (EText "verdict sets both Continue and Stop"))
          else if negb (String.eqb (tv_Continue v) "") || negb (String.eqb (tv_Stop v) "") then eff_ret (inr v)
          else run_hooks hooks ctx info
      end
  end.

Definition turnEnd (cfg : RunnerConfig) (ctx : Ctx) (info : TurnEndInfo) : eff W Event (result TurnEndVerdict) :=
  run_hooks (rc_TurnEnd cfg) ctx info.

(** *** Ways out *)

Abbreviation turn_out := (option TurnResult * option error)%type.

Definition failSpan (err : error) : eff W Event turn_out :=
  eff_emit (EventError (error_text err)) ;;; eff_ret (None, Some err).

Record turn_state := {
  t_msgs : list Message;
  t_added : list Message;
  t_usage : Usage;
  t_byModel : usageByModel;
  t_defaultName : string;
}.

Definition partial_of (st : turn_state) (steps : Z) : TurnResult :=
  {| res_Text := ""; res_Messages := DropUnansweredToolCalls (t_added st); res_Usage := t_usage st;
     res_UsageByModel := ubm_result (t_byModel st); res_Steps := steps; res_FinishReason := "";
     res_Structured := ""; res_StructuredError := "" |}.

Definition partialResult (st : turn_state) (steps : Z) (err : error) : eff W Event turn_out :=
  eff_emit (EventError (error_text err)) ;;; eff_ret (Some (partial_of st steps), Some err).

Inductive step_next := Return (o : turn_out) | Next (st : turn_state).

Definition return_ (m : eff W Event turn_out) : eff W Event step_next :=
  let* o := m in eff_ret (Return o).

(** What a turn fixes before its loop. *)
Record turn_setup := {
  ts_ctx : Ctx;
  ts_gen : GenerationParams;
  ts_schema : RawJSON;
  ts_compiled : option CompiledSchema;
  ts_guided : option (ptr GuidedDecoding);
  ts_instructions : string;
  ts_chain : list (StepStage Ctx W);
}.

(** Replaces the text of the last message. *)
Definition set_last_text (l : list Message) (text : string) : list Message :=
  on_last (fun m => {| m_Role := m_Role m; m_Text := text; m_ToolCalls := m_ToolCalls m;
                       m_ToolCallID := m_ToolCallID m; m_Timestamp := m_Timestamp m |}) l.

Definition append_messages (st : turn_state) (l : list Message) : turn_state :=
  {| t_msgs := t_msgs st ++ l; t_added := t_added st ++ l; t_usage := t_usage st;
     t_byModel := t_byModel st; t_defaultName := t_defaultName st |}.

(** *** An answer without tool calls *)

(** The guided finalize of a step that offered tools: the state with the
    constrained answer, its draft and its text. *)
Definition guided_answer (cfg : RunnerConfig) (su : turn_setup) (g : option (ptr GuidedDecoding)) (sent : bool)
    (st : turn_state) (text : string) : eff W Event (result (turn_state * string * string)) :=
  if is_set g && negb sent then
    let* r := finalizeGuided cfg (ts_ctx su) (ts_instructions su)
                (take (length (t_msgs st) - 1) (t_msgs st)) (t_usage st) (ts_gen su) g in
    let '(r, usage) := r in
    let byModel := ubm_addDelta (t_byModel st) (t_defaultName st) (t_usage st) usage in
    match r with
    | inl e => eff_ret (inl (wrap_error "agent: guided finalize: " e))
    | inr final =>
        eff_ret (inr ({| t_msgs := set_last_text (t_msgs st) final; t_added := set_last_text (t_added st) final;
                         t_usage := usage; t_byModel := byModel; t_defaultName := t_defaultName st |}, text, final))
    end
  else eff_ret (inr (st, "", text)).

(** The structured finalize: the document and why it is invalid. *)
Definition structured_answer (cfg : RunnerConfig) (su : turn_setup) (st : turn_state)
  : eff W Event (result (turn_state * option (string * string))) :=
  match ts_compiled su with
  | None => eff_ret (inr (st, None))
  | Some compiled =>
      let* r := finalizeStructured cfg (ts_ctx su) (ts_instructions su) (t_msgs st) (t_usage st) (ts_gen su)
                  (ts_schema su) compiled in
      let '(r, usage) := r in
      let byModel := ubm_addDelta (t_byModel st) (t_defaultName st) (t_usage st) usage in
      let st := {| t_msgs := t_msgs st; t_added := t_added st; t_usage := usage; t_byModel := byModel;
                   t_defaultName := t_defaultName st |} in
      match r with
      | inl e => eff_ret (inl (wrap_error "agent: structured finalize: " e))
      | inr doc => eff_ret (inr (st, Some doc))
      end
  end.

Definition answer (cfg : RunnerConfig) (su : turn_setup) (step : Z) (g : option (ptr GuidedDecoding)) (sent : bool)
    (resp : ProviderResponse) (st : turn_state) : eff W Event step_next :=
  let* r := guided_answer cfg su g sent st (r_Text resp) in
  match r with
  | inl e => return_ (failSpan e)
  | inr (st, draft, text) =>
      let* r := structured_answer cfg su st in
      match r with
      | inl e => return_ (failSpan e)
      | inr (st, doc) =>
          let info := match doc with
                      | None => {| te_Step := step; te_MaxSteps := rc_MaxSteps cfg; te_Text := text; te_Draft := draft;
                                   te_StructuredError := ""; te_Messages := t_added st; te_Usage := t_usage st |}
                      | Some (d, invalid) =>
                          {| te_Step := step; te_MaxSteps := rc_MaxSteps cfg; te_Text := d; te_Draft := text;
                             te_StructuredError := invalid; te_Messages := t_added st; te_Usage := t_usage st |}
                      end in
          let* v := turnEnd cfg (ts_ctx su) info in
          match v with
          | inl e => return_ (failSpan (wrap_error "agent: turn-end hook: " e))
          | inr v =>
              if negb (String.eqb (tv_Stop v) "") then
                return_ (partialResult st step (wrap_sentinel ErrTurnStopped (": " +:+ tv_Stop v)))
              else if negb (String.eqb (tv_Continue v) "") then
                let cont := text_message (if tv_AsUser v then RoleUser else RoleSystem) (tv_Continue v) in
                eff_emit (EventTurnContinued step (tv_Continue v)) ;;;
                eff_ret (Next (append_messages st [cont]))
              else
                let result := {| res_Text := text; res_Messages := t_added st; res_Usage := t_usage st;
                                 res_UsageByModel := ubm_result (t_byModel st); res_Steps := step;
                                 res_FinishReason := r_FinishReason resp;
                                 res_Structured := match doc with Some (d, _) => d | None => "" end;
                                 res_StructuredError := match doc with Some (_, i) => i | None => "" end |} in
                eff_emit (EventTurnEnd result) ;;; eff_ret (Return (Some result, None))
          end
      end
  end.

(** *** Tool calls *)

Fixpoint emit_signals (step : Z) (signals : list Signal) : eff W Event unit :=
  match signals with
  | [] => eff_ret tt
  | s :: signals => eff_emit (EventSignal step s) ;;; emit_signals step signals
  end.

(** [ctx.Err()]. *)
Definition ctx_err (ctx : Ctx) : eff W Event (option error) := fun w => (te_ctx_err env ctx w, [], w).

Definition abort_of (cfg : RunnerConfig) (signals : list Signal) : option string :=
  match rc_SignalPolicy cfg with
  | None => None
  | Some policy =>
      let act := policy signals in
      if sa_AbortTurn act
      then Some (if String.eqb (sa_Reason act) "" then "child signalled abort" else sa_Reason act)
      else None
  end.

Definition handle_signals (cfg : RunnerConfig) (step : Z) (signals : list Signal) (st : turn_state)
  : eff W Event step_next :=
  match signals with
  | [] => eff_ret (Next st)
  | _ =>
      emit_signals step signals ;;;
      match abort_of cfg signals with
      | Some reason => return_ (failSpan (wrap_sentinel ErrSignalAbort (": " +:+ reason)))
      | None => eff_ret (Next (append_messages st [text_message RoleSystem (renderSignals signals)]))
      end
  end.

Definition run_calls (cfg : RunnerConfig) (su : turn_setup) (step : Z) (calls : list ToolCall)
    (tools : list ToolDef) (st : turn_state) : eff W Event step_next :=
  let* r := disp (ts_ctx su) step calls tools in
  let '(toolMsgs, signals) := r in
  let* err := ctx_err (ts_ctx su) in
  match err with
  | Some err => return_ (failSpan err)
  | None => handle_signals cfg step signals (append_messages st toolMsgs)
  end.

(** *** One step *)

Definition list_tools (cfg : RunnerConfig) (ctx : Ctx) : eff W Event (result (list ToolDef)) :=
  match rc_Tools cfg with
  | None => eff_ret (inr [])
  | Some src =>
      let* r := src_Tools src ctx in
      match r with
      | inl e => eff_ret (inl (wrap_error "agent: listing tools: " e))
      | inr tools => eff_ret (inr tools)
      end
  end.

(** The request, the grammar check and the model's stream. *)
Definition call_model (cfg : RunnerConfig) (su : turn_setup) (step : Z) (view : StepView Ctx W)
  : eff W Event (result ProviderResponse) :=
  let prov := match sv_Provider view with Some p => p | None => rc_Provider cfg end in
  let send := is_set (sv_Guided view) && Nat.eqb (length (sv_Tools view)) 0 in
  match checkStepGuided cfg (sv_Guided view) (ts_guided su) send prov (is_set (ts_compiled su)) step (sv_ProviderName view) with
  | Some e => eff_ret (inl e)
  | None =>
      let req := applyTo (sv_Generation view)
                   (request (ts_instructions su) (sv_Messages view) (sv_Tools view)
                      (if send then sv_Guided view else None) "") in
      let* r := prov_Stream prov (ts_ctx su) req in
      match r with
      | inl e => eff_ret (inl e)
      | inr items => consumeStream items step
      end
  end.

Definition turn_step (cfg : RunnerConfig) (su : turn_setup) (step : Z) (st : turn_state) : eff W Event step_next :=
  let* ok := consume_step (ts_ctx su) in
  if negb ok then return_ (failSpan (wrap_sentinel ErrTreeBudget " (aggregate across the agent tree)"))
  else
    let* r := list_tools cfg (ts_ctx su) in
    match r with
    | inl e => return_ (failSpan e)
    | inr tools =>
        let info := {| si_Step := step; si_MaxSteps := rc_MaxSteps cfg; si_Usage := t_usage st; si_Turn := t_added st |} in
        let* r := runStepChain (ts_ctx su) (ts_chain su) info (t_msgs st) tools (ts_guided su) (ts_gen su) in
        match r with
        | inl e =>
            if error_is ErrContextBudget e || error_is ErrTurnStopped e
            then return_ (partialResult st (step - 1) e) else return_ (failSpan e)
        | inr (working, recorded, view) =>
            let added := t_added st ++ recorded in
            let defaultName := if negb (is_set (sv_Provider view)) && negb (String.eqb (sv_ProviderName view) "")
                               then sv_ProviderName view else t_defaultName st in
            let* r := call_model cfg su step view in
            match r with
            | inl e => return_ (failSpan e)
            | inr resp =>
                let* usage := spend (ts_ctx su) (t_usage st) (r_Usage resp) in
                let byModel := ubm_add (t_byModel st) (sv_ProviderName view) (r_Usage resp) in
                eff_emit (EventStep step (sv_ProviderName view) (r_Usage resp)) ;;;
                let assistant := {| m_Role := RoleAssistant; m_Text := r_Text resp; m_ToolCalls := r_ToolCalls resp;
                                    m_ToolCallID := ""; m_Timestamp := 0 |} in
                let st := {| t_msgs := working ++ [assistant]; t_added := added ++ [assistant]; t_usage := usage;
                             t_byModel := byModel; t_defaultName := defaultName |} in
                match r_ToolCalls resp with
                | [] => answer cfg su step (sv_Guided view)
                          (is_set (sv_Guided view) && Nat.eqb (length (sv_Tools view)) 0) resp st
                | calls => run_calls cfg su step calls (sv_Tools view) st
                end
            end
        end
    end.

(** The loop: [steps_left] steps from [step] on. *)
Fixpoint turn_loop (steps_left : nat) (cfg : RunnerConfig) (su : turn_setup) (step : Z) (st : turn_state)
  : eff W Event turn_out :=
  match steps_left with
  | O => partialResult st (rc_MaxSteps cfg)
           (wrap_sentinel ErrMaxSteps (" (" +:+ itoa (rc_MaxSteps cfg) +:+ " steps)"))
  | S steps_left =>
      let* r := turn_step cfg su step st in
      match r with
      | Return o => eff_ret o
      | Next st => turn_loop steps_left cfg su (step + 1) st
      end
  end.

(** *** The turn *)

(** The checks before anything runs. *)
Definition turn_checks (cfg : RunnerConfig) (req : TurnRequest)
  : result (RawJSON * option CompiledSchema * option (ptr GuidedDecoding)) :=
  let schema := if String.eqb (tr_ResponseSchema req) "" then rc_ResponseSchema cfg else tr_ResponseSchema req in
  match (if String.eqb schema "" then inr None
         else match te_compile env schema with
              | inl e => inl (wrap_error "agent: response schema: " e)
              | inr c => inr (Some c)
              end) with
  | inl e => inl e
  | inr compiled =>
      let guided := match tr_ResponseGuided req with Some g => Some g | None => rc_ResponseGuided cfg end in
      match guided with
      | None => inr (schema, compiled, None)
      | Some g =>
          if negb (String.eqb schema "") then
            inl (EText "agent: ResponseGuided and ResponseSchema both set; a turn's answer takes one constraint")
          else match guided_kind (p_deref g) with
               | inl e => inl (wrap_error "agent: ResponseGuided: " e)
               | inr _ =>
                   if negb (CanGuide (CapabilitiesOf (rc_Provider cfg)) guided) then
                     inl (wrap_sentinel ErrUnsupportedParam
                            ": ResponseGuided (the provider can't send this kind of constraint)")
                   else inr (schema, compiled, guided)
               end
      end
  end.

Definition install_budget (cfg : RunnerConfig) (ctx : Ctx) : eff W Event Ctx := fun w =>
  if negb (TreeBudget_zero (rc_TreeBudget cfg)) && negb (is_set (te_budget env ctx w)) then
    match WithTreeBudget None (rc_TreeBudget cfg) with
    | Some st => let '(ctx, w) := te_with_budget env ctx st w in (ctx, [], w)
    | None => (ctx, [], w)
    end
  else (ctx, [], w).

Definition RunTurn (cfg : RunnerConfig) (ctx : Ctx) (req : TurnRequest) : eff W Event turn_out :=
  match turn_checks cfg req with
  | inl e => eff_ret (None, Some e)
  | inr (schema, compiled, guided) =>
      let* ctx := install_budget cfg ctx in
      eff_emit EventTurnBegin ;;;
      let* instructions := match rc_InstructionsFunc cfg with
                           | Some f => f ctx
                           | None => eff_ret (rc_Instructions cfg)
                           end in
      let su := {| ts_ctx := ctx; ts_gen := generation_merge (te_fresh env) (rc_Generation cfg) (tr_Generation req);
                   ts_schema := schema; ts_compiled := compiled; ts_guided := guided;
                   ts_instructions := instructions;
                   ts_chain := stepChain (rc_Compactor cfg) (rc_Selector cfg) (rc_StepStages cfg) |} in
      turn_loop (Z.to_nat (rc_MaxSteps cfg)) cfg su 1
        {| t_msgs := tr_History req; t_added := []; t_usage := Usage_zero; t_byModel := ∅; t_defaultName := "" |}
  end.

(** [Run]. *)
Definition Run (cfg : RunnerConfig) (ctx : Ctx) (history : list Message) : eff W Event turn_out :=
  RunTurn cfg ctx {| tr_History := history; tr_Generation := GenerationParams_zero;
                     tr_ResponseSchema := ""; tr_ResponseGuided := None |}.
End Turn.
Arguments RunnerConfig : clear implicits.
Arguments TurnEnv : clear implicits.
Arguments turn_state : clear implicits.
Arguments turn_setup : clear implicits.
