(* ===== verification/TurnProps.v ===== *)
(** * Properties of the turn loop

    What [RunTurn] of Runner.v promises its callers: the record of a turn
    pairs every tool call with its result, the event stream follows the
    lifecycle, the reported steps and usage are the ones that happened, and
    the structured answer is judged against its schema.  The proofs walk the
    loop once per property with the rules of [wp]. *)

From S2P Require Import Prelude GoStr Errors Json Provider TreeBudget Middleware Events MultiSource Compaction StepStage Stuck Dispatch Runner.
Local Open Scope eff_scope.

(** ** One model call *)

(** The automaton of the reasoning markers: [None] when an event comes where
    it must not. *)
Definition marker (step : Z) (thinking : option bool) (e : Event) : option bool :=
  match thinking, e with
  | Some false, EventThinkingBegin s => if Z.eqb s step then Some true else None
  | Some true, EventThinkingDelta s _ => if Z.eqb s step then Some true else None
  | Some true, EventThinkingEnd s => if Z.eqb s step then Some false else None
  | Some false, EventTextDelta s _ => if Z.eqb s step then Some false else None
  | _, _ => None
  end.

Definition markers (step : Z) (thinking : bool) (evs : list Event) : option bool :=
  foldl (marker step) (Some thinking) evs.

(** The text a surface that follows the events has shown. *)
Definition shown_text (evs : list Event) : string :=
  str_concat (omap (fun e => match e with EventTextDelta _ t => Some t | _ => None end) evs).

Definition shown_reasoning (evs : list Event) : string :=
  str_concat (omap (fun e => match e with EventThinkingDelta _ t => Some t | _ => None end) evs).

(** What the stream delivered before it ended. *)
Fixpoint delivered (items : list (error + Delta)) : list Delta :=
  match items with
  | inr d :: items => d :: delivered items
  | _ => []
  end.

Fixpoint stream_error (items : list (error + Delta)) : option error :=
  match items with
  | [] => None
  | inl e :: _ => Some e
  | inr _ :: items => stream_error items
  end.

Lemma consume_loop_result step items acc thinking :
  fst (consume_loop step items acc thinking)
  = match stream_error items with
    | Some e => inl e
    | None => inr (acc_Result (foldl acc_Add acc (delivered items)))
    end.
Proof.
  revert acc thinking. induction items as [|[e|d] items IH]; intros acc thinking; cbn -[acc_Add]; try done.
  specialize (IH (acc_Add acc d)).
  destruct (d_Kind d); cbn -[acc_Add]; try apply IH;
    match goal with |- context [consume_loop ?s ?i ?a ?b] => specialize (IH b);
      destruct (consume_loop s i a b); exact IH end.
Qed.

Lemma consume_loop_markers step items acc thinking :
  exists b, markers step thinking (snd (consume_loop step items acc thinking)) = Some b
    /\ (stream_error items = None -> b = false).
Proof.
  revert acc thinking. induction items as [|[e|d] items IH]; intros acc thinking; cbn -[acc_Add].
  - exists false. split; [|done]. destruct thinking; cbn; by rewrite ?Z.eqb_refl.
  - by exists thinking.
  - specialize (IH (acc_Add acc d)).
    destruct (d_Kind d) eqn:Ek; cbn -[acc_Add]; try apply IH;
      match goal with |- context [consume_loop ?s ?i ?a ?b] => destruct (IH b) as (b' & IHb & Hb);
        destruct (consume_loop s i a b) as [r evs] end; exists b'; (split; [|exact Hb]);
      unfold markers in *; destruct thinking; cbn in *; rewrite ?Z.eqb_refl; cbn; rewrite ?Z.eqb_refl; exact IHb.
Qed.

Lemma consume_loop_shown step items acc thinking :
  let evs := snd (consume_loop step items acc thinking) in
  shown_text evs = texts_of DeltaText (delivered items)
  /\ shown_reasoning evs = texts_of DeltaReasoning (delivered items).
Proof.
  revert acc thinking. induction items as [|[e|d] items IH]; intros acc thinking; cbn -[acc_Add texts_of]; try done.
  - by destruct thinking.
  - specialize (IH (acc_Add acc d)). rewrite !texts_of_cons.
    destruct (d_Kind d) eqn:Ek; cbn -[acc_Add texts_of shown_text shown_reasoning]; try apply IH;
      match goal with |- context [consume_loop ?s ?i ?a ?b] => destruct (IH b) as [IH1 IH2];
        destruct (consume_loop s i a b) as [r evs] end; cbn -[texts_of shown_text shown_reasoning] in *;
      rewrite <- IH1, <- IH2; by destruct thinking.
Qed.

(** One model call.  [consumeStream] returns what the deltas
    accumulate to, or the stream's error; the surface that follows the events
    has been shown exactly the text and the reasoning delivered; reasoning
    markers are well bracketed, with no text inside them, and closed when the
    call succeeds. *)
Theorem consume_stream_faithful {W} (items : list (error + Delta)) (step : Z) (w : W) :
  let evs := eff_events (consumeStream items step) w in
  eff_value (consumeStream items step) w
    = match stream_error items with Some e => inl e | None => inr (accumulate (delivered items)) end
  /\ shown_text evs = texts_of DeltaText (delivered items)
  /\ shown_reasoning evs = texts_of DeltaReasoning (delivered items)
  /\ exists b, markers step false evs = Some b /\ (stream_error items = None -> b = false).
Proof.
  unfold eff_events, eff_value, consumeStream.
  pose proof (consume_loop_result step items acc_zero false) as Hr.
  pose proof (consume_loop_markers step items acc_zero false) as Hm.
  pose proof (consume_loop_shown step items acc_zero false) as [Ht Hs].
  destruct (consume_loop step items acc_zero false) as [r evs]. simpl in *. by rewrite Hr.
Qed.

(** ** The record of a turn *)

(** A message that neither answers a call nor makes one. *)
Definition plain (m : Message) : Prop := is_tool m = false /\ asks m = [].

Lemma rounds_ok_app open a b : rounds_ok open a = true -> rounds_ok open (a ++ b) = rounds_ok [] b.
Proof.
  revert open. induction a as [|m a IH]; intros open; simpl.
  { by intros ->%bool_decide_eq_true. }
  destruct (is_tool m).
  - destruct open as [|id open]; [done|]. intros [-> H]%andb_true_iff. by apply IH.
  - intros [-> H]%andb_true_iff. by apply IH.
Qed.

Lemma rounds_ok_plain l : Forall plain l -> rounds_ok [] l = true.
Proof. induction 1 as [|m l [Ht Ha] _ IH]; [done|]. simpl. by rewrite Ht, Ha. Qed.

Lemma rounds_ok_extend a b : rounds_ok [] a = true -> rounds_ok [] b = true -> rounds_ok [] (a ++ b) = true.
Proof. intros Ha Hb. by rewrite rounds_ok_app. Qed.

Lemma rounds_ok_answers calls texts :
  length texts = length calls -> rounds_ok (tc_ID <$> calls) (zip_with result_of calls texts) = true.
Proof.
  revert texts. induction calls as [|c calls IH]; intros [|t texts] H; simplify_eq/=; [done|].
  rewrite String.eqb_refl. by apply IH.
Qed.

#[export] Hint Resolve rounds_ok_extend rounds_ok_plain : chakra.

Lemma text_message_plain r t : r <> RoleTool -> plain (text_message r t).
Proof. intros Hr. split; unfold is_tool, asks; simpl; [by apply bool_decide_eq_false|]. by destruct (is_assistant _). Qed.

Lemma rounds_ok_note a r t :
  rounds_ok [] a = true -> r <> RoleTool -> rounds_ok [] (a ++ [text_message r t]) = true.
Proof. intros Ha Hr. by apply rounds_ok_extend, rounds_ok_plain, Forall_singleton, text_message_plain. Qed.

Lemma rounds_ok_last_asks a m : rounds_ok [] (a ++ [m]) = true -> is_tool m = false -> asks m = [].
Proof.
  intros H Hm. rewrite rounds_ok_split in H by done. apply andb_true_iff in H as [_ H].
  simpl in H. rewrite Hm in H. by apply bool_decide_eq_true in H.
Qed.

(** A message whose calls nobody answered. *)
Definition unanswered (m : Message) : bool := is_assistant m && negb (Nat.eqb (length (m_ToolCalls m)) 0).

Lemma drop_unanswered_spec l :
  exists cut, l = cut ++ drop_unanswered l /\ Forall (fun m => unanswered m = true) cut
    /\ (forall m, hd_error (drop_unanswered l) = Some m -> unanswered m = false).
Proof.
  induction l as [|m l (cut & Hl & Hc & Hh)]; simpl; [by exists []|].
  destruct (negb (is_assistant m) || Nat.eqb (length (m_ToolCalls m)) 0) eqn:E.
  - exists []. split; [done|]. split; [done|]. intros ? [= <-]. unfold unanswered.
    destruct (is_assistant m); [|done]. simpl in *. by rewrite E.
  - exists (m :: cut). simpl. rewrite <- Hl. split; [done|]. split; [|exact Hh].
    constructor; [|done]. unfold unanswered. apply orb_false_iff in E as [E1 E2].
    rewrite negb_false_iff in E1. by rewrite E1, E2.
Qed.

Lemma drop_unanswered_snoc l m :
  DropUnansweredToolCalls (l ++ [m]) = if unanswered m then DropUnansweredToolCalls l else l ++ [m].
Proof.
  unfold DropUnansweredToolCalls, unanswered. rewrite rev_app_distr. simpl.
  destruct (is_assistant m); simpl; [|by rewrite rev_involutive].
  destruct (Nat.eqb _ 0); simpl; [by rewrite rev_involutive | done].
Qed.

Lemma drop_unanswered_answered l : rounds_ok [] l = true -> DropUnansweredToolCalls l = l.
Proof.
  intros H. destruct l as [|a l _] using rev_ind; [done|]. rewrite drop_unanswered_snoc.
  destruct (unanswered a) eqn:E; [|done]. unfold unanswered in E. apply andb_true_iff in E as [Ea E].
  assert (Ht : is_tool a = false).
  { unfold is_tool, is_assistant in *. apply bool_decide_eq_true in Ea. rewrite Ea. done. }
  apply rounds_ok_last_asks in H; [|done]. unfold asks in H. rewrite Ea in H.
  apply fmap_nil_inv in H. by rewrite H in E.
Qed.

(** [DropUnansweredToolCalls] removes from the end exactly the
    assistant messages whose calls nobody answered: what it keeps is a prefix
    that does not end in one, what it drops is only such messages, and a
    record in which every call is answered passes unchanged. *)
Theorem drop_unanswered_trims (msgs : list Message) :
  let kept := DropUnansweredToolCalls msgs in
  (exists cut, msgs = kept ++ cut /\ Forall (fun m => unanswered m = true) cut)
  /\ (forall m, last kept = Some m -> unanswered m = false)
  /\ (rounds_ok [] msgs = true -> kept = msgs)
  /\ (forall ok m, msgs = ok ++ [m] -> rounds_ok [] ok = true -> unanswered m = true -> kept = ok).
Proof.
  cbv zeta. split; [|split; [|split]].
  - destruct (drop_unanswered_spec (rev msgs)) as (cut & Hl & Hc & _). exists (rev cut).
    split; [|by apply Forall_rev]. unfold DropUnansweredToolCalls.
    by rewrite <- rev_app_distr, <- Hl, rev_involutive.
  - destruct (drop_unanswered_spec (rev msgs)) as (cut & _ & _ & Hh). intros m Hm. apply Hh.
    unfold DropUnansweredToolCalls in Hm. destruct (drop_unanswered (rev msgs)) as [|x l]; [done|].
    simpl in Hm. rewrite last_snoc in Hm. by injection Hm as ->.
  - apply drop_unanswered_answered.
  - intros ok m -> Hok Hm. rewrite drop_unanswered_snoc, Hm. by apply drop_unanswered_answered.
Qed.

(** ** Sums of usage *)

Definition usage_sum (m : usageByModel) : Usage := map_fold (fun _ => usage_add) Usage_zero m.

Lemma usage_eq a b : u_In a = u_In b -> u_Out a = u_Out b -> u_Cached a = u_Cached b -> a = b.
Proof. destruct a, b. simpl. congruence. Qed.

Lemma usage_sum_insert m name u :
  m !! name = None -> usage_sum (<[name := u]> m) = usage_add u (usage_sum m).
Proof.
  intros Hm. unfold usage_sum. apply map_fold_insert_L; [|done].
  intros. apply usage_eq; simpl; lia.
Qed.

Lemma usage_sum_add m name u :
  usage_sum (ubm_add m name u) = match u with Some u => usage_add (usage_sum m) u | None => usage_sum m end.
Proof.
  unfold ubm_add. destruct (m !! name) as [t|] eqn:Hm; simpl.
  - assert (Hs : usage_sum m = usage_add t (usage_sum (delete name m))).
    { rewrite <- (usage_sum_insert _ name) by apply lookup_delete_eq. by rewrite insert_delete_id. }
    rewrite Hs, <- insert_delete_eq, usage_sum_insert by apply lookup_delete_eq.
    destruct u; [apply usage_eq; simpl; lia | done].
  - rewrite usage_sum_insert by done. destruct u; apply usage_eq; simpl; lia.
Qed.

Lemma usage_sum_delta m name before after :
  usage_sum (ubm_addDelta m name before after) = usage_add (usage_sum m) (usage_sub after before).
Proof. apply usage_sum_add. Qed.

Lemma usage_add_sub a b : usage_add a (usage_sub b a) = b.
Proof. apply usage_eq; simpl; lia. Qed.

(** Runs a way out to its end. *)
Ltac wp_out := unfold return_, failSpan; repeat wp_step; done.

Section TurnProps.
Context {Ctx W : Type} (env : TurnEnv Ctx W) `{Dispatcher Ctx W}.
Implicit Types (cfg : RunnerConfig Ctx W) (su : turn_setup Ctx W) (st : turn_state).

(** The stages of a turn. *)
Definition turn_chain cfg : list (StepStage Ctx W) := stepChain (rc_Compactor cfg) (rc_Selector cfg) (rc_StepStages cfg).

(** An invariant of the states of the loop gives a property of its
    results. *)
Lemma turn_loop_rule (Inv : turn_state -> Prop) (P : option TurnResult * option error -> Prop) n cfg su step st :
  (forall step st, Inv st -> wp (turn_step env cfg su step st)
     (fun r _ => match r with Next st' => Inv st' | Return o => P o end)) ->
  (forall st err, Inv st -> P (Some (partial_of st (rc_MaxSteps cfg)), Some err)) ->
  Inv st ->
  wp (turn_loop env n cfg su step st) (fun o _ => P o).
Proof.
  intros Hstep Hmax. revert step st. induction n as [|n IH]; intros step st Hst; cbn [turn_loop].
  { unfold partialResult. repeat wp_step. auto. }
  apply wp_bind. eapply wp_mono; [by apply Hstep|]. intros [o|st'] _ Hr.
  - by apply wp_ret.
  - eapply wp_mono; [by apply IH|done].
Qed.

Definition on_result (P : TurnResult -> Prop) (o : option TurnResult * option error) : Prop :=
  match o.1 with Some res => P res | None => True end.

(** From the loop to the turn. *)
Lemma run_turn_rule cfg ctx req (P : option TurnResult * option error -> Prop) w :
  (forall e, P (None, Some e)) ->
  (forall schema compiled guided ctx instructions, turn_checks env cfg req = inr (schema, compiled, guided) ->
     wp (turn_loop env (Z.to_nat (rc_MaxSteps cfg)) cfg
           {| ts_ctx := ctx; ts_gen := generation_merge (te_fresh env) (rc_Generation cfg) (tr_Generation req);
              ts_schema := schema; ts_compiled := compiled; ts_guided := guided; ts_instructions := instructions;
              ts_chain := turn_chain cfg |} 1
           {| t_msgs := tr_History req; t_added := []; t_usage := Usage_zero; t_byModel := ∅; t_defaultName := "" |})
       (fun o _ => P o)) ->
  P (eff_value (RunTurn env cfg ctx req) w).
Proof.
  intros He Hloop. revert w. change (wp (RunTurn env cfg ctx req) (fun o _ => P o)).
  unfold RunTurn. destruct (turn_checks env cfg req) as [e|[[schema compiled] guided]]; [by apply wp_ret|].
  apply wp_bind, wp_any. intros ctx' _. apply wp_bind, wp_emit. apply wp_bind, wp_any. intros instructions _.
  by apply Hloop.
Qed.

(** *** Every call is answered *)

(** A session stage that records notes, not calls or results. *)
Definition notes_only (s : StepStage Ctx W) : Prop :=
  ss_Scope s = ScopeSession -> forall ctx info v w out,
    eff_value (ss_Run s ctx info v) w = inr out ->
    Forall plain (drop (length (sv_Messages v)) (sv_Messages out)).

Lemma chain_records_plain ctx info chain wk rc view :
  Forall notes_only chain -> Forall plain rc ->
  wp (chain_loop ctx info chain wk rc view)
    (fun r _ => match r with inr (_, rc', _) => Forall plain rc' | inl _ => True end).
Proof.
  intros Hn. revert wk rc view. induction Hn as [|s chain Hs _ IH]; intros wk rc view Hrc; [by apply wp_ret|].
  cbn [chain_loop]. apply wp_bind. intros w.
  destruct (eff_value (ss_Run s ctx info view) w) as [e|out] eqn:Eo; [by apply wp_ret|].
  destruct (check_stage s view out); [by apply wp_ret|].
  destruct (ss_Scope s) eqn:Es; try (eapply wp_mono; [by apply IH | done]).
  case_match; [|by apply wp_ret]. eapply wp_mono; [apply IH|done].
  apply Forall_app. split; [done|]. by apply (Hs Es ctx info view w).
Qed.

(** The turn ended its last step with an answer. *)
Definition answered_state st : Prop :=
  exists a m, t_added st = a ++ [m] /\ rounds_ok [] a = true /\ plain m.

Lemma answered_rounds st : answered_state st -> rounds_ok [] (t_added st) = true.
Proof. intros (a & m & -> & Ha & Hm). auto with chakra. Qed.

Lemma guided_answer_state cfg su g sent st text :
  answered_state st ->
  wp (guided_answer env cfg su g sent st text)
    (fun r _ => match r with inr (st', _, _) => answered_state st' | inl _ => True end).
Proof.
  intros (a & m & Ea & Ha & Hm). unfold guided_answer. destruct (is_set g && negb sent).
  - apply wp_bind, wp_any. intros [[e|final] usage] evs; [done|]. apply wp_ret. simpl.
    exists a. rewrite Ea. unfold set_last_text. rewrite on_last_snoc. eexists. by split.
  - apply wp_ret. by exists a, m.
Qed.

Lemma structured_answer_state cfg su st :
  wp (structured_answer env cfg su st)
    (fun r _ => match r with inr (st', _) => t_added st' = t_added st | inl _ => True end).
Proof.
  unfold structured_answer. destruct (ts_compiled su); [|done].
  apply wp_bind, wp_any. intros [[e|doc] usage] evs; done.
Qed.

Definition paired_next (r : step_next) : Prop :=
  match r with
  | Next st => rounds_ok [] (t_added st) = true
  | Return (Some res, _) => rounds_ok [] (res_Messages res) = true
  | Return (None, _) => True
  end.

Lemma partial_paired st steps err :
  rounds_ok [] (t_added st) = true ->
  wp (return_ (partialResult (W:=W) st steps err)) (fun r _ => paired_next r).
Proof.
  intros Hst. unfold return_, partialResult. repeat wp_step. simpl.
  by rewrite drop_unanswered_answered.
Qed.

Lemma answer_paired cfg su step g sent resp st :
  answered_state st -> wp (answer env cfg su step g sent resp st) (fun r _ => paired_next r).
Proof.
  intros Hst. unfold answer. apply wp_bind.
  eapply wp_mono; [by apply guided_answer_state|]. intros [e|[[st1 draft] text]] _ H1; [done|].
  apply wp_bind. eapply wp_mono; [apply structured_answer_state|]. intros [e|[st2 doc]] _ H2; [done|].
  assert (Hok : rounds_ok [] (t_added st2) = true) by (rewrite H2; by apply answered_rounds).
  apply wp_bind, wp_any. intros [e|v] _; [done|].
  destruct (negb (String.eqb (tv_Stop v) "")); [by eapply wp_mono; [apply partial_paired|]|].
  destruct (negb (String.eqb (tv_Continue v) "")); repeat wp_step; simpl; [|done].
  apply rounds_ok_note; [done|]. by destruct (tv_AsUser v).
Qed.

Lemma run_calls_paired cfg su step calls tools st a m :
  t_added st = a ++ [m] -> rounds_ok [] a = true -> is_tool m = false -> asks m = tc_ID <$> calls ->
  wp (run_calls env cfg su step calls tools st) (fun r _ => paired_next r).
Proof.
  intros Ea Ha Hm Hc. unfold run_calls. apply wp_bind. intros w0.
  destruct (disp_results (ts_ctx su) step calls tools w0) as (texts & Hlen & Hmsgs).
  destruct (eff_value (disp (ts_ctx su) step calls tools) w0) as [toolMsgs signals]. simpl in Hmsgs. subst toolMsgs.
  assert (Hok : rounds_ok [] (t_added st ++ zip_with result_of calls texts) = true).
  { rewrite Ea, <- app_assoc. apply rounds_ok_extend; [done|]. simpl. rewrite Hm, Hc. by apply rounds_ok_answers. }
  apply wp_bind, wp_any. intros [err|] _; [wp_out|]. unfold handle_signals.
  destruct signals as [|s signals]; [wp_out|]. apply wp_bind, wp_any. intros _ _.
  destruct (abort_of cfg _); [wp_out|]. apply wp_ret. simpl.
  by apply rounds_ok_note.
Qed.

Lemma turn_step_paired cfg su step st :
  Forall notes_only (ts_chain su) -> rounds_ok [] (t_added st) = true ->
  wp (turn_step env cfg su step st) (fun r _ => paired_next r).
Proof.
  intros Hn Hst. unfold turn_step. apply wp_bind, wp_any. intros [] _; [|wp_out].
  apply wp_bind, wp_any. intros [e|tools] _; [wp_out|]. apply wp_bind.
  eapply wp_mono; [by apply chain_records_plain|]. intros [e|[[working recorded] view]] _ Hrec.
  { destruct (_ || _); [|wp_out]. by eapply wp_mono; [apply partial_paired|]. }
  apply wp_bind, wp_any. intros [e|resp] _; [wp_out|]. apply wp_bind, wp_any. intros usage _.
  apply wp_bind, wp_emit. destruct (r_ToolCalls resp) as [|c calls] eqn:Ec.
  - eapply wp_mono; [apply answer_paired|done]. simpl. eexists _, _. split; [done|].
    split; [auto with chakra|]. by split.
  - eapply wp_mono; [eapply run_calls_paired; simpl; [done|auto with chakra|done|done]|done].
Qed.

Lemma run_turn_pairs cfg ctx req w res err :
  Forall notes_only (turn_chain cfg) ->
  eff_value (RunTurn env cfg ctx req) w = (Some res, err) ->
  rounds_ok [] (res_Messages res) = true.
Proof.
  intros Hn Hv. enough (HP : on_result (fun res => rounds_ok [] (res_Messages res) = true)
    (eff_value (RunTurn env cfg ctx req) w)) by by rewrite Hv in HP.
  apply run_turn_rule; [done|]. intros schema compiled guided ctx' instructions _.
  apply (turn_loop_rule (fun st => rounds_ok [] (t_added st) = true)).
  - intros step st Hst. eapply wp_mono; [by apply turn_step_paired|]. by intros [[[r|] e]|st'].
  - intros st e Hst. unfold on_result. simpl. by rewrite drop_unanswered_answered.
  - done.
Qed.

(** C1: The messages of every result [RunTurn] returns, complete or
    partial, pair each assistant tool call with its tool message: the calls
    of a message are answered, in order and by their IDs, before anything
    else is recorded.  So a caller that threads them into its history sends
    a conversation the providers accept.  The session stages only have to
    record notes; whatever the other stages, the tools, the hooks, the
    signals and the model do, and however the turn ends, the pairing
    holds. *)
Theorem turn_record_paired cfg ctx req w res err :
  Forall notes_only (turn_chain cfg) ->
  eff_value (RunTurn env cfg ctx req) w = (Some res, err) ->
  rounds_ok [] (res_Messages res) = true.
Proof. apply run_turn_pairs. Qed.

(** *** Usage is accounted for *)

Definition balanced st : Prop := usage_sum (t_byModel st) = t_usage st.

Definition balanced_result (res : TurnResult) : Prop :=
  match res_UsageByModel res with Some m => usage_sum m = res_Usage res | None => True end.

Definition balanced_next (r : step_next) : Prop :=
  match r with
  | Next st => balanced st
  | Return (Some res, _) => balanced_result res
  | Return (None, _) => True
  end.

Lemma ubm_result_balanced m u : usage_sum m = u ->
  match ubm_result m with Some m' => usage_sum m' = u | None => True end.
Proof. intros Hm. unfold ubm_result. by destruct (existsb _ _). Qed.

Lemma add_usage_tokens_silent ctx u : wp (add_usage_tokens env ctx u) (fun _ evs => evs = []).
Proof. intros w. unfold eff_events, add_usage_tokens. by destruct (addTokens _ _). Qed.

Lemma spend_value ctx usage u :
  wp (spend env ctx usage u)
    (fun usage' evs => usage' = match u with Some u => usage_add usage u | None => usage end /\ evs = []).
Proof.
  unfold spend. destruct u as [u|]; [|by apply wp_ret]. apply wp_bind.
  eapply wp_mono; [apply add_usage_tokens_silent|]. intros [] evs ->. by apply wp_ret.
Qed.

Lemma partial_balanced st steps err :
  balanced st -> wp (return_ (partialResult (W:=W) st steps err)) (fun r _ => balanced_next r).
Proof. intros Hst. unfold return_, partialResult. repeat wp_step. by apply ubm_result_balanced. Qed.

Lemma guided_answer_balanced cfg su g sent st text :
  balanced st ->
  wp (guided_answer env cfg su g sent st text)
    (fun r _ => match r with inr (st', _, _) => balanced st' | inl _ => True end).
Proof.
  intros Hst. unfold guided_answer. destruct (is_set g && negb sent); [|by apply wp_ret].
  apply wp_bind, wp_any. intros [[e|final] usage] _; apply wp_ret; [done|].
  unfold balanced in *. simpl. by rewrite usage_sum_delta, Hst, usage_add_sub.
Qed.

Lemma structured_answer_balanced cfg su st :
  balanced st ->
  wp (structured_answer env cfg su st)
    (fun r _ => match r with inr (st', _) => balanced st' | inl _ => True end).
Proof.
  intros Hst. unfold structured_answer. destruct (ts_compiled su); [|by apply wp_ret].
  apply wp_bind, wp_any. intros [[e|doc] usage] _; apply wp_ret; [done|].
  unfold balanced in *. simpl. by rewrite usage_sum_delta, Hst, usage_add_sub.
Qed.

Lemma answer_balanced cfg su step g sent resp st :
  balanced st -> wp (answer env cfg su step g sent resp st) (fun r _ => balanced_next r).
Proof.
  intros Hst. unfold answer. apply wp_bind.
  eapply wp_mono; [by apply guided_answer_balanced|]. intros [e|[[st1 draft] text]] _ H1; [wp_out|].
  apply wp_bind. eapply wp_mono; [by apply structured_answer_balanced|]. intros [e|[st2 doc]] _ H2; [wp_out|].
  apply wp_bind, wp_any. intros [e|v] _; [wp_out|].
  destruct (negb (String.eqb (tv_Stop v) "")); [by eapply wp_mono; [apply partial_balanced|]|].
  destruct (negb (String.eqb (tv_Continue v) "")); repeat wp_step; [done|]. by apply ubm_result_balanced.
Qed.

Lemma turn_step_balanced cfg su step st :
  balanced st -> wp (turn_step env cfg su step st) (fun r _ => balanced_next r).
Proof.
  intros Hst. unfold turn_step. apply wp_bind, wp_any. intros [] _; [|wp_out].
  apply wp_bind, wp_any. intros [e|tools] _; [wp_out|].
  apply wp_bind, wp_any. intros [e|[[working recorded] view]] _.
  { destruct (_ || _); [|wp_out]. by eapply wp_mono; [apply partial_balanced|]. }
  apply wp_bind, wp_any. intros [e|resp] _; [wp_out|].
  apply wp_bind. eapply wp_mono; [apply spend_value|]. intros usage _ [Hu _]. apply wp_bind, wp_emit.
  match goal with |- context [{| t_msgs := _; t_added := _; t_usage := usage; t_byModel := ?m; t_defaultName := _ |}] =>
    assert (Hb : usage_sum m = usage) by (subst usage; rewrite usage_sum_add, Hst; by destruct (r_Usage resp)) end.
  destruct (r_ToolCalls resp) as [|c calls] eqn:Ec; [by eapply wp_mono; [apply answer_balanced|done]|].
  unfold run_calls. apply wp_bind, wp_any. intros [toolMsgs signals] _.
  apply wp_bind, wp_any. intros [err|] _; [wp_out|]. unfold handle_signals.
  destruct signals as [|s signals]; [wp_out|]. apply wp_bind, wp_any. intros _ _.
  destruct (abort_of cfg _); wp_out.
Qed.

(** C20: Usage adds up.  When a result splits its usage by model, the parts
    sum to the whole, for each of the three counts: every model call of the
    turn, the finalizing calls included, is counted once and under one
    name. *)
Theorem turn_usage_adds_up cfg ctx req w res err m :
  eff_value (RunTurn env cfg ctx req) w = (Some res, err) ->
  res_UsageByModel res = Some m ->
  usage_sum m = res_Usage res.
Proof.
  intros Hv Hm. enough (HP : on_result balanced_result (eff_value (RunTurn env cfg ctx req) w)).
  { rewrite Hv in HP. unfold on_result, balanced_result in HP. simpl in HP. by rewrite Hm in HP. }
  apply run_turn_rule; [done|]. intros schema compiled guided ctx' instructions _.
  apply (turn_loop_rule balanced).
  - intros step st Hst. eapply wp_mono; [by apply turn_step_balanced|]. by intros [[[r|] e]|st'].
  - intros st e Hst. by apply ubm_result_balanced.
  - done.
Qed.

(** *** The lifecycle of a turn *)

(** The events only the Runner itself emits. *)
Definition lifecycle (e : Event) : bool :=
  match e with EventTurnBegin | EventStep _ _ _ | EventTurnEnd _ | EventError _ => true | _ => false end.

Definition life (evs : list Event) : list Event := filter (fun e => lifecycle e = true) evs.

Lemma life_app l1 l2 : life (l1 ++ l2) = life l1 ++ life l2.
Proof. apply filter_app. Qed.

(** What a run emits has no lifecycle event, and what it returns has
    [P]. *)
Definition silent {A} (m : eff W Event A) (P : A -> Prop) : Prop :=
  wp m (fun a evs => life evs = [] /\ P a).

Definition quiet_provider (p : Provider Ctx W) : Prop :=
  (forall ctx req, silent (prov_Stream p ctx req) (fun _ => True))
  /\ (forall ctx req, silent (prov_Generate p ctx req) (fun _ => True)).

Definition quiet_view (v : StepView Ctx W) : Prop :=
  match sv_Provider v with Some p => quiet_provider p | None => True end.

Definition quiet_stage (s : StepStage Ctx W) : Prop :=
  forall ctx info v, quiet_view v ->
    silent (ss_Run s ctx info v) (fun r => match r with inr out => quiet_view out | inl _ => True end).

(** Callbacks leave the lifecycle to the Runner. *)
Record quiet_turn cfg : Prop := {
  qt_provider : quiet_provider (rc_Provider cfg);
  qt_tools : forall src ctx, rc_Tools cfg = Some src -> silent (src_Tools src ctx) (fun _ => True);
  qt_instructions : forall f ctx, rc_InstructionsFunc cfg = Some f -> silent (f ctx) (fun _ => True);
  qt_chain : Forall quiet_stage (turn_chain cfg);
  qt_hooks : Forall (fun h => forall ctx info, silent (h ctx info) (fun _ => True)) (rc_TurnEnd cfg);
  qt_dispatch : forall ctx step calls tools, silent (disp ctx step calls tools) (fun _ => True);
}.

Lemma silent_ret {A} (a : A) (P : A -> Prop) : P a -> silent (eff_ret a) P.
Proof. intros Ha. by apply wp_ret. Qed.

Lemma silent_emit ev : lifecycle ev = false -> silent (eff_emit ev) (fun _ => True).
Proof. intros Hev. apply wp_emit. unfold life. rewrite filter_cons, decide_False by congruence. done. Qed.

Lemma silent_bind {A B} (m : eff W Event A) (k : A -> eff W Event B) P Q :
  silent m P -> (forall a, P a -> silent (k a) Q) -> silent (eff_bind m k) Q.
Proof.
  intros Hm Hk. apply wp_bind. eapply wp_mono; [exact Hm|]. intros a evs [He Ha].
  eapply wp_mono; [by apply Hk|]. intros b evs' [He' Hb]. by rewrite life_app, He, He'.
Qed.

Lemma silent_mono {A} (m : eff W Event A) (P Q : A -> Prop) :
  silent m P -> (forall a, P a -> Q a) -> silent m Q.
Proof. intros Hm HPQ. eapply wp_mono; [exact Hm|]. intros a evs [He Ha]. auto. Qed.

(** A silent run at the head of another one, for a property of events that
    silent prefixes do not change. *)
Lemma wp_silent {A B} (m : eff W Event A) (k : A -> eff W Event B) (P : A -> Prop) (Q : B -> list Event -> Prop) :
  (forall s b evs, life s = [] -> Q b evs -> Q b (s ++ evs)) ->
  silent m P -> (forall a, P a -> wp (k a) Q) -> wp (eff_bind m k) Q.
Proof.
  intros HQ Hm Hk. apply wp_bind. eapply wp_mono; [exact Hm|]. intros a evs [He Ha].
  eapply wp_mono; [by apply Hk|]. intros b evs' Hb. by apply HQ.
Qed.

Lemma chain_silent ctx info chain wk rc view :
  Forall quiet_stage chain -> quiet_view view ->
  silent (chain_loop ctx info chain wk rc view)
    (fun r => match r with inr (_, _, v) => quiet_view v | inl _ => True end).
Proof.
  intros Hq. revert wk rc view. induction Hq as [|s chain Hs _ IH]; intros wk rc view Hv; cbn [chain_loop].
  { by apply silent_ret. }
  eapply silent_bind; [by apply Hs|]. intros [e|out] Ho; [by apply silent_ret|].
  destruct (check_stage s view out); [by apply silent_ret|].
  destruct (ss_Scope s); try (by apply IH). case_match; [by apply IH | by apply silent_ret].
Qed.

Lemma spend_silent ctx usage u : silent (spend env ctx usage u) (fun _ => True).
Proof. eapply wp_mono; [apply spend_value|]. intros a evs [_ ->]. done. Qed.

Lemma consume_step_silent ctx : silent (consume_step env ctx) (fun _ => True).
Proof. intros w. unfold eff_events, consume_step. by destruct (consumeStep _) as [ok [st|]]. Qed.

Lemma consume_loop_life step items acc thinking : life (snd (consume_loop step items acc thinking)) = [].
Proof.
  revert acc thinking. induction items as [|[e|d] items IH]; intros acc thinking; cbn -[acc_Add life].
  - by destruct thinking.
  - done.
  - specialize (IH (acc_Add acc d)). destruct (d_Kind d); cbn -[acc_Add life]; try apply IH;
      match goal with |- context [consume_loop ?s ?i ?a ?b] => specialize (IH b);
        destruct (consume_loop s i a b) as [r evs] end; cbn -[life] in *; by destruct thinking.
Qed.

Lemma consumeStream_silent items step : silent (consumeStream items step) (fun _ => True).
Proof.
  intros w. pose proof (consume_loop_life step items acc_zero false) as Hl.
  unfold eff_events, consumeStream. by destruct (consume_loop step items acc_zero false).
Qed.

Lemma run_hooks_silent (hooks : list (@TurnEndHook Ctx W)) ctx info :
  Forall (fun h => forall ctx info, silent (h ctx info) (fun _ => True)) hooks ->
  silent (run_hooks hooks ctx info) (fun _ => True).
Proof.
  induction 1 as [|h hooks Hh _ IH]; cbn [run_hooks]; [by apply silent_ret|].
  eapply silent_bind; [apply Hh|]. intros [e|v] _; [by apply silent_ret|].
  repeat case_match; try (by apply silent_ret). exact IH.
Qed.

Lemma structured_attempts_silent n cfg ctx instructions msgs usage gen schema compiled doc invalid :
  quiet_provider (rc_Provider cfg) ->
  silent (structured_attempts env n cfg ctx instructions msgs usage gen schema compiled doc invalid) (fun _ => True).
Proof.
  intros [_ Hq]. revert msgs usage doc invalid.
  induction n as [|n IH]; intros msgs usage doc invalid; cbn [structured_attempts]; [by apply silent_ret|].
  eapply silent_bind; [apply Hq|]. intros [e|resp] _; [by apply silent_ret|].
  eapply silent_bind; [apply spend_silent|]. intros usage' _. case_match; [by apply silent_ret | apply IH].
Qed.

Lemma finalizeGuided_silent cfg ctx instructions msgs usage gen g :
  quiet_provider (rc_Provider cfg) ->
  silent (finalizeGuided env cfg ctx instructions msgs usage gen g) (fun _ => True).
Proof.
  intros [_ Hq]. unfold finalizeGuided. eapply silent_bind; [apply Hq|]. intros [e|resp] _; [by apply silent_ret|].
  eapply silent_bind; [apply spend_silent|]. intros usage' _. by apply silent_ret.
Qed.

Lemma guided_answer_silent cfg su g sent st text :
  quiet_turn cfg -> silent (guided_answer env cfg su g sent st text) (fun _ => True).
Proof.
  intros Hq. unfold guided_answer. destruct (is_set g && negb sent); [|by apply silent_ret].
  eapply silent_bind; [apply finalizeGuided_silent, Hq|]. intros [[e|final] usage] _; by apply silent_ret.
Qed.

Lemma structured_answer_silent cfg su st :
  quiet_turn cfg -> silent (structured_answer env cfg su st) (fun _ => True).
Proof.
  intros Hq. unfold structured_answer. destruct (ts_compiled su); [|by apply silent_ret].
  eapply silent_bind; [apply structured_attempts_silent, Hq|]. intros [[e|doc'] usage] _; by apply silent_ret.
Qed.

Lemma emit_signals_silent step signals : silent (emit_signals step signals) (fun _ => True).
Proof.
  induction signals as [|s signals IH]; cbn [emit_signals]; [by apply silent_ret|].
  eapply silent_bind; [by apply silent_emit|]. intros [] _. exact IH.
Qed.

Lemma list_tools_silent cfg ctx : quiet_turn cfg -> silent (list_tools cfg ctx) (fun _ => True).
Proof.
  intros Hq. unfold list_tools. destruct (rc_Tools cfg) as [src|] eqn:Es; [|by apply silent_ret].
  eapply silent_bind; [by apply (qt_tools _ Hq)|]. intros [e|tools] _; by apply silent_ret.
Qed.

Lemma call_model_silent cfg su step view :
  quiet_turn cfg -> quiet_view view -> silent (call_model cfg su step view) (fun _ => True).
Proof.
  intros Hq Hv. unfold call_model. case_match; [by apply silent_ret|].
  assert (Hp : quiet_provider (match sv_Provider view with Some p => p | None => rc_Provider cfg end)).
  { unfold quiet_view in Hv. destruct (sv_Provider view); [done | apply Hq]. }
  eapply silent_bind; [apply Hp|]. intros [e|items] _; [by apply silent_ret | apply consumeStream_silent].
Qed.

(** The event that ends a turn says what the caller gets. *)
Definition closing (o : option TurnResult * option error) (e : Event) : Prop :=
  match o, e with
  | (Some res, None), EventTurnEnd r => r = res
  | (_, Some err), EventError t => t = error_text err
  | _, _ => False
  end.

Definition steps_are (n : Z) (o : option TurnResult * option error) : Prop :=
  match o.1 with Some res => res_Steps res = n | None => True end.

Definition closes (n : Z) (o : option TurnResult * option error) (evs : list Event) : Prop :=
  exists mid final, evs = mid ++ [final] /\ life mid = [] /\ closing o final /\ steps_are n o.

(** After the model call of step [n]. *)
Definition after_step (n : Z) (r : step_next) (evs : list Event) : Prop :=
  match r with Next _ => life evs = [] | Return o => closes n o evs end.

(** From the start of step [n]. *)
Definition whole_step (n : Z) (r : step_next) (evs : list Event) : Prop :=
  (exists s model u evs', evs = s ++ EventStep n model u :: evs' /\ life s = [] /\ after_step n r evs')
  \/ (exists o, r = Return o /\ closes (n - 1) o evs).

Lemma closes_prefix n o s evs : life s = [] -> closes n o evs -> closes n o (s ++ evs).
Proof.
  intros Hs (mid & final & -> & Hm & Hc). exists (s ++ mid), final.
  by rewrite app_assoc, life_app, Hs, Hm.
Qed.

Lemma after_step_prefix n s r evs : life s = [] -> after_step n r evs -> after_step n r (s ++ evs).
Proof. intros Hs. destruct r as [o|st]; simpl; [by apply closes_prefix|]. intros He. by rewrite life_app, Hs, He. Qed.

Lemma whole_step_prefix n s r evs : life s = [] -> whole_step n r evs -> whole_step n r (s ++ evs).
Proof.
  intros Hs [(s' & model & u & evs' & -> & Hs' & Ha)|(o & -> & Hc)].
  - left. exists (s ++ s'), model, u, evs'. by rewrite app_assoc, life_app, Hs, Hs'.
  - right. exists o. split; [done | by apply closes_prefix].
Qed.

Lemma fail_closes n err : wp (return_ (failSpan (W:=W) err)) (fun r evs => after_step n r evs).
Proof. unfold return_, failSpan. repeat wp_step. by exists [], (EventError (error_text err)). Qed.

Lemma partial_closes n st err : wp (return_ (partialResult (W:=W) st n err)) (fun r evs => after_step n r evs).
Proof. unfold return_, partialResult. repeat wp_step. by exists [], (EventError (error_text err)). Qed.

(** A way out before the model was called. *)
Lemma early_whole n (m : eff W Event step_next) :
  wp m (fun r evs => after_step (n - 1) r evs /\ exists o, r = Return o) -> wp m (whole_step n).
Proof. intros Hm. eapply wp_mono; [exact Hm|]. intros r evs [Ha [o ->]]. right. by exists o. Qed.

Lemma fail_whole n err : wp (return_ (failSpan (W:=W) err)) (whole_step n).
Proof.
  apply early_whole, wp_and; [apply fail_closes|].
  unfold return_, failSpan. repeat wp_step. by eexists.
Qed.

Lemma answer_life cfg su step g sent resp st :
  quiet_turn cfg -> wp (answer env cfg su step g sent resp st) (after_step step).
Proof.
  intros Hq. unfold answer.
  eapply wp_silent; [apply after_step_prefix | by apply guided_answer_silent|].
  intros [e|[[st1 draft] text]] _; [apply fail_closes|].
  eapply wp_silent; [apply after_step_prefix | by apply structured_answer_silent|].
  intros [e|[st2 doc]] _; [apply fail_closes|].
  eapply wp_silent; [apply after_step_prefix | apply run_hooks_silent, Hq|].
  intros [e|v] _; [apply fail_closes|].
  destruct (negb (String.eqb (tv_Stop v) "")); [apply partial_closes|].
  destruct (negb (String.eqb (tv_Continue v) "")); repeat wp_step; [done|].
  eexists [], _. by split.
Qed.

Lemma run_calls_life cfg su step calls tools st :
  quiet_turn cfg -> wp (run_calls env cfg su step calls tools st) (after_step step).
Proof.
  intros Hq. unfold run_calls.
  eapply wp_silent; [apply after_step_prefix | apply (qt_dispatch _ Hq)|]. intros [toolMsgs signals] _.
  eapply wp_silent with (P := fun _ => True); [apply after_step_prefix | by intros w|].
  intros [err|] _; [apply fail_closes|]. unfold handle_signals.
  destruct signals as [|s signals]; [by apply wp_ret|].
  eapply wp_silent; [apply after_step_prefix | apply emit_signals_silent|]. intros [] _.
  destruct (abort_of cfg _); [apply fail_closes | by apply wp_ret].
Qed.

Lemma turn_step_life cfg su step st :
  quiet_turn cfg -> ts_chain su = turn_chain cfg -> wp (turn_step env cfg su step st) (whole_step step).
Proof.
  intros Hq Hch. unfold turn_step.
  eapply wp_silent; [apply whole_step_prefix | apply consume_step_silent|]. intros [] _; [|apply fail_whole].
  eapply wp_silent; [apply whole_step_prefix | by apply list_tools_silent|]. intros [e|tools] _; [apply fail_whole|].
  eapply wp_silent; [apply whole_step_prefix | apply chain_silent; [rewrite Hch; apply Hq | done] |].
  intros [e|[[working recorded] view]] Hv.
  { destruct (_ || _); [|apply fail_whole]. apply early_whole, wp_and; [apply partial_closes|].
    unfold return_, partialResult. repeat wp_step. by eexists. }
  eapply wp_silent; [apply whole_step_prefix | by apply call_model_silent|]. intros [e|resp] _; [apply fail_whole|].
  eapply wp_silent; [apply whole_step_prefix | apply spend_silent|]. intros usage _. apply wp_bind, wp_emit.
  destruct (r_ToolCalls resp) as [|c calls].
  - eapply wp_mono; [by apply answer_life|]. intros r evs Ha. left. by exists [], (sv_ProviderName view), (r_Usage resp), evs.
  - eapply wp_mono; [by apply run_calls_life|]. intros r evs Ha. left. by exists [], (sv_ProviderName view), (r_Usage resp), evs.
Qed.

(** Step events numbered from [k] on. *)
Fixpoint numbered (k : Z) (l : list Event) : Prop :=
  match l with
  | [] => True
  | EventStep s _ _ :: l => s = k /\ numbered (k + 1) l
  | _ => False
  end.

Definition turn_trace (first : Z) (n : nat) (o : option TurnResult * option error) (evs : list Event) : Prop :=
  exists mid final, evs = mid ++ [final] /\ numbered first (life mid) /\ length (life mid) <= n
    /\ closing o final /\ steps_are (first - 1 + Z.of_nat (length (life mid))) o.

Lemma turn_trace_prefix first n s o evs :
  life s = [] -> turn_trace first n o evs -> turn_trace first n o (s ++ evs).
Proof.
  intros Hs (mid & final & -> & Ht). exists (s ++ mid), final. rewrite <- app_assoc. split; [done|].
  by rewrite life_app, Hs.
Qed.

Lemma turn_loop_life n cfg su step st :
  quiet_turn cfg -> ts_chain su = turn_chain cfg -> rc_MaxSteps cfg = (step - 1 + Z.of_nat n)%Z ->
  wp (turn_loop env n cfg su step st) (turn_trace step n).
Proof.
  intros Hq Hch. revert step st. induction n as [|n IH]; intros step st Hmax; cbn [turn_loop].
  { unfold partialResult. repeat wp_step. eexists [], _. split; [done|]. simpl. split; [done|]. split; [done|].
    split; [done|]. unfold steps_are. simpl. lia. }
  apply wp_bind. eapply wp_mono; [by apply turn_step_life|]. intros r evs Hr.
  destruct r as [o|st'].
  - apply wp_ret. rewrite app_nil_r.
    destruct Hr as [(s & model & u & evs' & -> & Hs & mid & final & -> & Hm & Hc & Hn)
                   |(o' & [= <-] & mid & final & -> & Hm & Hc & Hn)].
    + exists (s ++ EventStep step model u :: mid), final. rewrite <- app_assoc. split; [done|].
      rewrite life_app, Hs. unfold life in Hm |- *. rewrite filter_cons, decide_True, Hm by done. simpl.
      split; [done|]. split; [lia|]. split; [done|]. unfold steps_are in *. destruct o.1; [lia | done].
    + exists mid, final. split; [done|]. rewrite Hm. simpl. split; [done|]. split; [lia|]. split; [done|].
      by rewrite Z.add_0_r.
  - destruct Hr as [(s & model & u & evs' & -> & Hs & Ha)|(o & [=] & _)]. simpl in Ha.
    eapply wp_mono; [apply IH; lia|]. intros o evs (mid & final & -> & Hnum & Hlen & Hc & Hn).
    exists (s ++ EventStep step model u :: evs' ++ mid), final. split.
    { rewrite <- !app_assoc. simpl. by rewrite <- !app_assoc. }
    rewrite life_app, Hs. unfold life at 1 2 3. rewrite filter_cons, decide_True by done.
    fold (life (evs' ++ mid)). rewrite life_app, Ha. simpl. split; [done|]. split; [lia|]. split; [done|].
    unfold steps_are in *. destruct o.1; [lia | done].
Qed.

(** C2: The lifecycle of a turn.  A Runner's turn either is refused before
    it starts, emitting nothing, or emits: the turn's begin first, then for
    its model calls one step event each, numbered 1, 2, 3 and so on and at
    most [MaxSteps] of them, and last of all one terminal event, which
    carries the result of a turn that completed and the error text of one
    that did not.  When there is a result, complete or partial, its [Steps]
    is the number of step events.  Callbacks may emit anything but
    lifecycle events. *)
Theorem turn_lifecycle c cfg ctx req w o evs :
  NewRunner c = inr cfg -> quiet_turn cfg ->
  (eff_value (RunTurn env cfg ctx req) w, eff_events (RunTurn env cfg ctx req) w) = (o, evs) ->
  (evs = [] /\ exists e, turn_checks env cfg req = inl e /\ o = (None, Some e))
  \/ (exists mid final, evs = EventTurnBegin :: mid ++ [final]
       /\ numbered 1 (life mid) /\ (Z.of_nat (length (life mid)) <= rc_MaxSteps cfg)%Z
       /\ closing o final /\ steps_are (Z.of_nat (length (life mid))) o).
Proof.
  intros Hnew Hq. assert (Hpos : (0 < rc_MaxSteps cfg)%Z).
  { unfold NewRunner, defaultMaxSteps in Hnew. destruct c as [c|]; [|done]. injection Hnew as <-. simpl.
    destruct (rc_MaxSteps c <=? 0)%Z eqn:E; lia. }
  intros [= <- <-].
  enough (Hwp : wp (RunTurn env cfg ctx req) (fun o evs =>
    (evs = [] /\ exists e, turn_checks env cfg req = inl e /\ o = (None, Some e))
    \/ exists evs', evs = EventTurnBegin :: evs' /\ turn_trace 1 (Z.to_nat (rc_MaxSteps cfg)) o evs')).
  { destruct (Hwp w) as [?|(evs' & -> & mid & final & -> & Hnum & Hlen & Hc & Hn)]; [by left|right].
    exists mid, final. repeat (split; [done || lia|]). exact Hn. }
  unfold RunTurn. destruct (turn_checks env cfg req) as [e|[[schema compiled] guided]].
  { apply wp_ret. left. split; [done|]. by exists e. }
  apply wp_bind. intros w0.
  assert (Hb : eff_events (install_budget env cfg ctx) w0 = []).
  { unfold eff_events, install_budget. repeat case_match; done. }
  rewrite Hb. apply wp_bind, wp_emit.
  eapply wp_mono with (Q := turn_trace 1 (Z.to_nat (rc_MaxSteps cfg))); [|intros o evs Ht; right; by exists evs].
  eapply wp_silent with (P := fun _ => True); [apply turn_trace_prefix| |].
  - destruct (rc_InstructionsFunc cfg) as [f|] eqn:Ef; [by apply (qt_instructions _ Hq) | by apply silent_ret].
  - intros instructions _. apply turn_loop_life; [done|done|]. lia.
Qed.

(** *** The answer of a completed turn *)

(** The record ends in an assistant message without calls that says
    [text]. *)
Definition ends_with (added : list Message) (text : string) : Prop :=
  exists a m, added = a ++ [m] /\ m_Role m = RoleAssistant /\ m_ToolCalls m = [] /\ m_Text m = text.

(** [doc] with the reason it is refused, judged by the turn's schema. *)
Definition judged su (doc reason : string) : Prop :=
  match ts_compiled su with
  | Some compiled => checkStructured doc compiled = reason
  | None => doc = "" /\ reason = ""
  end.

Definition complete_next su (r : step_next) : Prop :=
  match r with
  | Return (Some res, None) =>
      ends_with (res_Messages res) (res_Text res) /\ judged su (res_Structured res) (res_StructuredError res)
  | _ => True
  end.

Lemma guided_answer_ends cfg su g sent st text :
  ends_with (t_added st) text ->
  wp (guided_answer env cfg su g sent st text)
    (fun r _ => match r with inr (st', _, text') => ends_with (t_added st') text' | inl _ => True end).
Proof.
  intros (a & m & Ea & Hm & Hc & Ht). unfold guided_answer. destruct (is_set g && negb sent).
  - apply wp_bind, wp_any. intros [[e|final] usage] evs; [done|]. apply wp_ret. simpl.
    exists a. rewrite Ea. unfold set_last_text. rewrite on_last_snoc. eexists. by repeat split.
  - apply wp_ret. by exists a, m.
Qed.

Lemma structured_attempts_judged n cfg ctx instructions msgs usage gen schema compiled doc invalid :
  (n = 0 -> checkStructured doc compiled = invalid) ->
  wp (structured_attempts env n cfg ctx instructions msgs usage gen schema compiled doc invalid)
    (fun r _ => match r.1 with inr (doc, invalid) => checkStructured doc compiled = invalid | inl _ => True end).
Proof.
  revert msgs usage doc invalid. induction n as [|n IH]; intros msgs usage doc invalid Hz; cbn [structured_attempts].
  { apply wp_ret. by apply Hz. }
  apply wp_bind, wp_any. intros [e|resp] _; [by apply wp_ret|]. apply wp_bind, wp_any. intros usage' _.
  destruct (String.eqb_spec (checkStructured (stripJSONFence (r_Text resp)) compiled) ""); [by apply wp_ret|].
  eapply wp_mono; [by apply IH|done].
Qed.

Lemma structured_answer_judged cfg su st :
  wp (structured_answer env cfg su st)
    (fun r _ => match r with
                | inr (_, doc) => judged su (from_option fst "" doc) (from_option snd "" doc)
                | inl _ => True
                end).
Proof.
  unfold structured_answer, judged. destruct (ts_compiled su) as [compiled|]; [|by apply wp_ret].
  apply wp_bind. eapply wp_mono; [by apply structured_attempts_judged|].
  intros [[e|[doc invalid]] usage] _ Hj; by apply wp_ret.
Qed.

Lemma answer_complete cfg su step g sent resp st :
  ends_with (t_added st) (r_Text resp) ->
  wp (answer env cfg su step g sent resp st) (fun r _ => complete_next su r).
Proof.
  intros Hst. unfold answer. apply wp_bind.
  eapply wp_mono; [by apply guided_answer_ends|]. intros [e|[[st1 draft] text]] _ H1; [wp_out|].
  apply wp_bind. eapply wp_mono; [apply wp_and; [apply structured_answer_state | apply structured_answer_judged]|].
  intros [e|[st2 doc]] _ [H2 Hj]; [wp_out|]. apply wp_bind, wp_any. intros [e|v] _; [wp_out|].
  destruct (negb (String.eqb (tv_Stop v) "")); [unfold partialResult; wp_out|].
  destruct (negb (String.eqb (tv_Continue v) "")); repeat wp_step; [done|]. simpl. rewrite H2.
  split; [done|]. by destruct doc as [[d i]|].
Qed.

Lemma turn_step_complete cfg su step st :
  wp (turn_step env cfg su step st) (fun r _ => complete_next su r).
Proof.
  unfold turn_step. apply wp_bind, wp_any. intros [] _; [|wp_out].
  apply wp_bind, wp_any. intros [e|tools] _; [wp_out|].
  apply wp_bind, wp_any. intros [e|[[working recorded] view]] _.
  { destruct (_ || _); unfold partialResult; wp_out. }
  apply wp_bind, wp_any. intros [e|resp] _; [wp_out|].
  apply wp_bind, wp_any. intros usage _. apply wp_bind, wp_emit.
  destruct (r_ToolCalls resp) as [|c calls] eqn:Ec.
  { eapply wp_mono; [apply answer_complete|done]. eexists _, _. by split. }
  unfold run_calls. apply wp_bind, wp_any. intros [toolMsgs signals] _.
  apply wp_bind, wp_any. intros [err|] _; [wp_out|]. unfold handle_signals.
  destruct signals as [|s signals]; [wp_out|]. apply wp_bind, wp_any. intros _ _.
  destruct (abort_of cfg _); wp_out.
Qed.

Lemma str_join_empty sep s l : str_join sep (s :: l) = "" -> s = "".
Proof. destruct l; simpl; [done|]. by destruct s. Qed.

Lemma checkStructured_valid doc compiled :
  checkStructured doc compiled = "" <-> json_valid doc = true /\ compiled doc = [].
Proof.
  unfold checkStructured. destruct (json_valid doc); simpl; [|split; [done | by intros [? _]]].
  destruct (compiled doc) as [|[path msg] rest]; simpl; [done|]. split; [|by intros [_ ?]].
  intros He. exfalso. apply str_join_empty in He. by destruct (if String.eqb path "" then "/" else path).
Qed.

(** The answer of a turn that completes.  The record ends in an
    assistant message without tool calls whose text is the result's text,
    also when a grammar made the Runner ask for it again.  With a response
    schema, [StructuredError] is empty exactly when the document is valid
    JSON in which the schema finds no error; without one both fields are
    empty. *)
Theorem turn_answer cfg ctx req w res schema compiled guided :
  turn_checks env cfg req = inr (schema, compiled, guided) ->
  eff_value (RunTurn env cfg ctx req) w = (Some res, None) ->
  ends_with (res_Messages res) (res_Text res)
  /\ match compiled with
     | Some errors => res_StructuredError res = ""
                      <-> json_valid (res_Structured res) = true /\ errors (res_Structured res) = []
     | None => res_Structured res = "" /\ res_StructuredError res = ""
     end.
Proof.
  intros Hchk Hv. set (P := fun o : option TurnResult * option error => match o with
    | (Some res, None) => ends_with (res_Messages res) (res_Text res)
        /\ match compiled with
           | Some errors => checkStructured (res_Structured res) errors = res_StructuredError res
           | None => res_Structured res = "" /\ res_StructuredError res = "" end
    | _ => True end).
  enough (HP : P (eff_value (RunTurn env cfg ctx req) w)).
  { rewrite Hv in HP. destruct HP as [He Hj]. split; [done|]. destruct compiled as [errors|]; [|done].
    rewrite <- Hj. apply checkStructured_valid. }
  apply run_turn_rule; [done|]. intros schema' compiled' guided' ctx' instructions Hchk'.
  rewrite Hchk in Hchk'. injection Hchk' as <- <- <-.
  apply (turn_loop_rule (fun _ => True)); [|done|done]. intros step st _.
  eapply wp_mono; [apply turn_step_complete|]. by intros [[[r|] [e|]]|st'].
Qed.
End TurnProps.

(** ** The dispatcher

    The calls of Dispatch.v run under any schedule keep the contract the loop
    relies on. *)
Section RunDispatch.
Context {Ctx W : Type} (denv : RunEnv Ctx W).
Variable tools_cfg : option (ToolSource Ctx W Event).
Variable middleware : list (ToolMiddleware Ctx W Event).
Variable schedule : W -> list (@sched_item W).

(** A middleware that breaks its contract panics and takes the process
    down; when the chain [answers], that branch is dead. *)
Definition dispatch_eff (ctx : Ctx) (step : Z) (calls : list ToolCall) (tools : list ToolDef)
  : eff W Event (list Message * list Signal) :=
  fun w =>
    match dispatch denv tools_cfg middleware ctx step calls tools (schedule w) w with
    | Some (msgs, signals, trace, w') => ((msgs, signals), snd <$> trace, w')
    | None => (([], []), [], w)
    end.

(** Tools that leave the lifecycle alone make a dispatch that does. *)
Lemma dispatch_eff_silent ctx step calls tools :
  (forall ctx call tools w, Forall (fun e => lifecycle e = false) (eff_events (call_exec denv tools_cfg middleware ctx step call tools) w)) ->
  silent (dispatch_eff ctx step calls tools) (fun _ => True).
Proof.
  intros He w. split; [|done]. unfold eff_events, dispatch_eff, dispatch.
  pose proof (dispatch_trace_all denv tools_cfg middleware (fun e => lifecycle e = false) ctx step calls tools (schedule w) w) as Ht.
  destruct (mapM done_text _); [|done]. simpl. destruct (env_signals denv _). simpl.
  apply filter_none, Forall_fmap, Ht; [done| |done].
  intros call out c1 c2 c3 e t Ho. unfold outcome in Ho. repeat case_match; simplify_eq/=; done.
Qed.
Hypothesis Hanswers : answers denv tools_cfg middleware.
Hypothesis Hquiet : quiet denv tools_cfg middleware.

Lemma dispatch_eff_results ctx step calls tools w : exists texts,
  length texts = length calls
  /\ fst (eff_value (dispatch_eff ctx step calls tools) w) = zip_with result_of calls texts.
Proof.
  destruct (dispatch_finishes denv tools_cfg middleware Hanswers Hquiet ctx step calls tools (schedule w) w)
    as (texts & signals & trace & w' & Hd & Hlen & _).
  exists texts. split; [done|]. unfold eff_value, dispatch_eff. by rewrite Hd.
Qed.

#[local] Instance run_dispatcher : Dispatcher Ctx W :=
  {| disp := dispatch_eff; disp_results := dispatch_eff_results |}.
End RunDispatch.

(** ** A turn with one tool call

    The model calls a tool, reads its result and answers; a session stage
    records a note before each model call. *)

Definition usage_delta (i o : Z) : Delta :=
  {| d_Kind := DeltaUsage; d_Text := ""; d_Index := 0; d_ToolCallID := ""; d_ToolName := "";
     d_FinishReason := ""; d_Usage := Some {| u_In := i; u_Out := o; u_Cached := 0 |} |}.

Definition demo_model : Provider unit nat :=
  {| prov_id := 1; prov_caps := None;
     prov_Stream := fun _ req => eff_ret (inr (
       if existsb is_tool (pr_Messages req)
       then [inr (text_delta DeltaReasoning "so"); inr (text_delta DeltaText "done"); inr (usage_delta 20 2)]
       else [inr (start_delta 0 "c1" "look"); inr (usage_delta 10 1)]));
     prov_Generate := fun _ _ => eff_ret (inr {| r_Text := "[1]"; r_Reasoning := ""; r_ToolCalls := [];
       r_FinishReason := ""; r_Usage := Some {| u_In := 5; u_Out := 3; u_Cached := 0 |} |}) |}.

Definition name_stage : StepStage unit nat :=
  {| ss_Name := "name"; ss_Scope := ScopeRequest;
     ss_Run := fun _ _ v => eff_ret (inr {| sv_Messages := sv_Messages v; sv_Tools := sv_Tools v;
       sv_Provider := sv_Provider v; sv_ProviderName := "small"; sv_Guided := sv_Guided v;
       sv_Generation := sv_Generation v |}) |}.

Definition demo_config (schema : RawJSON) : RunnerConfig unit nat :=
  {| rc_Provider := demo_model; rc_Tools := Some echo_source; rc_Instructions := "help"; rc_InstructionsFunc := None;
     rc_MaxSteps := 5; rc_TreeBudget := {| tb_MaxSteps := 0; tb_MaxTokens := 0 |}; rc_Selector := None;
     rc_Generation := GenerationParams_zero; rc_Compactor := None;
     rc_StepStages := [note_stage ScopeSession "note"; name_stage];
     rc_SignalPolicy := None; rc_PreemptGrant := None; rc_ResponseSchema := schema; rc_ResponseGuided := None;
     rc_TurnEnd := [] |}.

(** Contexts without a budget; every document longer than two bytes passes
    the schema. *)
Definition demo_turn_env : TurnEnv unit nat :=
  {| te_budget := fun _ _ => None; te_set_budget := fun _ _ w => w; te_with_budget := fun c _ w => (c, w);
     te_ctx_err := fun _ _ => None;
     te_compile := fun _ => inr (fun doc => if Nat.ltb 2 (String.length doc) then [] else [("", "short")]);
     te_fresh := 1 |}.

#[local] Instance demo_dispatcher : Dispatcher unit nat :=
  run_dispatcher demo_env (Some echo_source) [] (fun _ => [Go 0]) echo_answers echo_quiet.

Definition demo_request : TurnRequest :=
  {| tr_History := [text_message RoleUser "hi"]; tr_Generation := GenerationParams_zero;
     tr_ResponseSchema := ""; tr_ResponseGuided := None |}.

Definition demo_turn (schema : RawJSON) := RunTurn demo_turn_env (demo_config schema) tt demo_request.

Definition demo_result (schema : RawJSON) : TurnResult :=
  match (eff_value (demo_turn schema) 0).1 with
  | Some res => res
  | None => {| res_Text := ""; res_Messages := []; res_Usage := Usage_zero; res_UsageByModel := None; res_Steps := 0;
               res_FinishReason := ""; res_Structured := ""; res_StructuredError := "" |}
  end.

Lemma demo_turn_completes schema : schema = "" \/ schema = "{}" ->
  eff_value (demo_turn schema) 0 = (Some (demo_result schema), None).
Proof. intros [-> | ->]; vm_compute; reflexivity. Qed.

Lemma demo_notes_only schema : Forall notes_only (turn_chain (demo_config schema)).
Proof.
  change (Forall notes_only [note_stage ScopeSession "note"; name_stage]).
  constructor; [|constructor; [|constructor]]; intros Hs ctx info v w out Hv; [|done].
  injection Hv as <-. simpl. rewrite drop_app_length. repeat constructor.
Qed.

Lemma turn_record_paired_witness :
  rounds_ok [] (res_Messages (demo_result "")) = true
  /\ m_Role <$> res_Messages (demo_result "") = [RoleSystem; RoleAssistant; RoleTool; RoleSystem; RoleAssistant].
Proof.
  split; [|vm_compute; reflexivity].
  exact (turn_record_paired demo_turn_env (demo_config "") tt demo_request 0 _ None
    (demo_notes_only "") (demo_turn_completes "" (or_introl eq_refl))).
Defined.

Lemma turn_usage_adds_up_witness :
  exists m, res_UsageByModel (demo_result "{}") = Some m /\ usage_sum m = res_Usage (demo_result "{}")
    /\ u_In (res_Usage (demo_result "{}")) = 35%Z.
Proof.
  destruct (res_UsageByModel (demo_result "{}")) as [m|] eqn:Em; [|vm_compute in Em; discriminate].
  exists m. split; [done|]. split; [|vm_compute; reflexivity].
  exact (turn_usage_adds_up demo_turn_env (demo_config "{}") tt demo_request 0 _ None m
    (demo_turn_completes "{}" (or_intror eq_refl)) Em).
Defined.

Lemma demo_quiet_turn : quiet_turn (demo_config "").
Proof.
  split; simpl.
  - split; intros ctx req; by apply silent_ret.
  - intros src ctx [= <-]. by apply silent_ret.
  - done.
  - change (Forall quiet_stage [note_stage ScopeSession "note"; name_stage]).
    constructor; [|constructor; [|constructor]]; intros ctx info v Hv; by apply silent_ret.
  - constructor.
  - intros ctx step calls tools. apply dispatch_eff_silent. intros ctx' call tools' w.
    unfold eff_events, call_exec, chainToolMiddleware. simpl. unfold base_dispatch, decodeToolArgs.
    destruct (String.eqb _ _); simpl; constructor.
Qed.

(** The default cap comes from [NewRunner]. *)
Lemma turn_lifecycle_witness :
  exists mid final, eff_events (demo_turn "") 0 = EventTurnBegin :: mid ++ [final]
    /\ numbered 1 (life mid) /\ final = EventTurnEnd (demo_result "") /\ length (life mid) = 2.
Proof.
  destruct (turn_lifecycle demo_turn_env (Some (demo_config "")) (demo_config "") tt demo_request 0
    (Some (demo_result ""), None) (eff_events (demo_turn "") 0) eq_refl demo_quiet_turn)
    as [[He _]|(mid & final & He & Hnum & _ & Hc & Hs)].
  - exact (f_equal (fun o => (o, eff_events (demo_turn "") 0)) (demo_turn_completes "" (or_introl eq_refl))).
  - vm_compute in He. discriminate.
  - exists mid, final. split; [exact He|]. split; [exact Hnum|].
    assert (H2 : res_Steps (demo_result "") = 2%Z) by (vm_compute; reflexivity).
    unfold steps_are in Hs. simpl fst in Hs. cbv iota in Hs. rewrite H2 in Hs.
    split; [|lia]. destruct final; try contradiction. simpl in Hc. by rewrite Hc.
Defined.

Lemma turn_answer_witness :
  ends_with (res_Messages (demo_result "{}")) "done"
  /\ json_valid (res_Structured (demo_result "{}")) = true.
Proof.
  destruct (turn_answer demo_turn_env (demo_config "{}") tt demo_request 0 (demo_result "{}")
    "{}" (Some (fun doc => if Nat.ltb 2 (String.length doc) then [] else [("", "short")])) None
    eq_refl (demo_turn_completes "{}" (or_intror eq_refl))) as [He Hs].
  split; [exact He|]. apply Hs. vm_compute. reflexivity.
Defined.
