(* ===== verification/Failover.v ===== *)
(** * Failover: src/failover.go

    [FailoverProvider] fronts a primary and a backup provider.  A primary
    that fails is benched for a cooldown, during which calls go to the
    backup; the next call after it tries the primary again.  The record the
    mutex guards is kept in the world, because streams, reconciler and calls
    of other goroutines change it too.  Logging is not modelled. *)

From S2P Require Import Prelude GoStr Errors Json Provider TreeBudget Middleware Events.
Local Open Scope eff_scope.
Local Open Scope Z_scope.

Definition defaultFailoverCooldown : Z := 30 * 1000000000.

Record FailoverProvider := {
  fo_failures : Z;
  fo_lastErr : option error;
  fo_lastFailure : Time;
  fo_benchedUntil : Time;
}.

Definition failover_zero : FailoverProvider :=
  {| fo_failures := 0; fo_lastErr := None; fo_lastFailure := 0; fo_benchedUntil := 0 |}.

Record ProviderHealth := {
  ph_Active : string;
  ph_ConsecutiveFailures : Z;
  ph_LastError : string;
  ph_LastFailureAt : Time;
}.

(** ** The guarded record *)

Definition benched (f : FailoverProvider) (now : Time) : bool := now <? fo_benchedUntil f.

Definition failed (cooldown : Z) (err : error) (now : Time) (f : FailoverProvider) : FailoverProvider :=
  {| fo_failures := fo_failures f + 1; fo_lastErr := Some err; fo_lastFailure := now;
     fo_benchedUntil := now + cooldown |}.

Definition recovered (f : FailoverProvider) : FailoverProvider :=
  {| fo_failures := 0; fo_lastErr := None; fo_lastFailure := fo_lastFailure f; fo_benchedUntil := 0 |}.

Definition Health (f : FailoverProvider) (now : Time) : ProviderHealth :=
  {| ph_Active := if benched f now then "backup" else "primary";
     ph_ConsecutiveFailures := fo_failures f;
     ph_LastError := match fo_lastErr f with Some e => error_text e | None => "" end;
     ph_LastFailureAt := fo_lastFailure f |}.

(** Where the record and the clock are. *)
Class Bench (W : Type) := {
  bench_get : W -> FailoverProvider;
  bench_put : FailoverProvider -> W -> W;
  bench_now : W -> Time;
  bench_get_put : forall f w, bench_get (bench_put f w) = f;
}.

Section Failover.
Context {Ctx W : Type} `{Bench W}.

Record FailoverConfig := {
  fc_Primary : Provider Ctx W;
  fc_Backup : Provider Ctx W;
  fc_Cooldown : Z;
}.

Definition NewFailoverProvider (primary backup : option (Provider Ctx W)) (cooldown : Z) : result FailoverConfig :=
  match primary, backup with
  | Some p, Some b => inr {| fc_Primary := p; fc_Backup := b;
                             fc_Cooldown := if cooldown <=? 0 then defaultFailoverCooldown else cooldown |}
  | _, _ => inl (EText "agent: FailoverConfig requires Primary and Backup")
  end.

Definition primaryBenched : eff W Event bool := fun w => (benched (bench_get w) (bench_now w), [], w).

Definition recordFailure (cfg : FailoverConfig) (err : error) : eff W Event unit := fun w =>
  (tt, [], bench_put (failed (fc_Cooldown cfg) err (bench_now w) (bench_get w)) w).

Definition recordRecovery : eff W Event unit := fun w =>
  (tt, [], bench_put (recovered (bench_get w)) w).

Definition fo_Generate (cfg : FailoverConfig) (ctx : Ctx) (req : ProviderRequest)
  : eff W Event (result ProviderResponse) :=
  let* b := primaryBenched in
  if b : bool then prov_Generate (fc_Backup cfg) ctx req
  else
    let* r := prov_Generate (fc_Primary cfg) ctx req in
    match r with
    | inl err => recordFailure cfg err ;;; prov_Generate (fc_Backup cfg) ctx req
    | inr resp => recordRecovery ;;; eff_ret (inr resp)
    end.

(** A stream and who serves it: the primary's is watched. *)
Record failoverStream := { fs_items : list (error + Delta); fs_watched : bool; fs_delivered : bool }.

Definition fo_Stream (cfg : FailoverConfig) (ctx : Ctx) (req : ProviderRequest)
  : eff W Event (result failoverStream) :=
  let unwatched (r : result (list (error + Delta))) : result failoverStream :=
    match r with
    | inl e => inl e
    | inr items => inr {| fs_items := items; fs_watched := false; fs_delivered := false |}
    end in
  let* b := primaryBenched in
  if b : bool then let* r := prov_Stream (fc_Backup cfg) ctx req in eff_ret (unwatched r)
  else
    let* r := prov_Stream (fc_Primary cfg) ctx req in
    match r with
    | inl err =>
        recordFailure cfg err ;;;
        let* r := prov_Stream (fc_Backup cfg) ctx req in eff_ret (unwatched r)
    | inr items => eff_ret (inr {| fs_items := items; fs_watched := true; fs_delivered := false |})
    end.

(** [Recv]: a delta, an error, or [None] at EOF; and the stream after it.
    A stream that failed stays failed. *)
Definition fo_Recv (cfg : FailoverConfig) (s : failoverStream)
  : eff W Event (option (error + Delta) * failoverStream) :=
  match fs_items s with
  | inr d :: items =>
      eff_ret (Some (inr d), {| fs_items := items; fs_watched := fs_watched s;
                                fs_delivered := fs_watched s || fs_delivered s |})
  | inl e :: _ =>
      if fs_watched s then recordFailure cfg e ;;; eff_ret (Some (inl e), s) else eff_ret (Some (inl e), s)
  | [] => if fs_watched s then recordRecovery ;;; eff_ret (None, s) else eff_ret (None, s)
  end.

(** A consumer that reads to the end or to the error, as [consumeStream]
    does. *)
Fixpoint drain_stream (fuel : nat) (cfg : FailoverConfig) (s : failoverStream)
  : eff W Event (list (error + Delta)) :=
  match fuel with
  | O => eff_ret []
  | S fuel =>
      let* r := fo_Recv cfg s in
      match r with
      | (None, _) => eff_ret []
      | (Some (inl e), _) => eff_ret [inl e]
      | (Some (inr d), s') => let* rest := drain_stream fuel cfg s' in eff_ret (inr d :: rest)
      end
  end.

Definition fo_Capabilities (cfg : FailoverConfig) : Capabilities :=
  intersect (CapabilitiesOf (fc_Primary cfg)) (CapabilitiesOf (fc_Backup cfg)).

(** One tick of the reconciler. *)
Definition reconcile_tick (probe : eff W Event (option error)) : eff W Event unit :=
  let* b := primaryBenched in
  if negb b then eff_ret tt
  else
    let* err := probe in
    match err with
    | None => recordRecovery
    | Some _ => eff_ret tt
    end.

Definition default_probe (cfg : FailoverConfig) (ctx : Ctx) : eff W Event (option error) :=
  let* r := prov_Generate (fc_Primary cfg) ctx
    {| pr_Instructions := ""; pr_Messages := [text_message RoleUser "ping"]; pr_Tools := []; pr_Temperature := None;
       pr_MaxTokens := 1; pr_ToolChoice := ToolChoice_zero; pr_Seed := None; pr_Penalties := None;
       pr_Guided := None; pr_ResponseSchema := "" |} in
  eff_ret (match r with inl e => Some e | inr _ => None end).
End Failover.
Arguments FailoverConfig : clear implicits.

(** ** What the record means *)

(** The writes to the record, in the order the mutex gave them. *)
Inductive health_op := PrimaryFailed (t : Time) (e : error) | PrimaryRecovered.

Definition health_step (cooldown : Z) (f : FailoverProvider) (op : health_op) : FailoverProvider :=
  match op with
  | PrimaryFailed t e => failed cooldown e t f
  | PrimaryRecovered => recovered f
  end.

Definition after_history (cooldown : Z) (ops : list health_op) : FailoverProvider :=
  foldl (health_step cooldown) failover_zero ops.

(** The failures since the last recovery, latest first. *)
Fixpoint trailing (latest_first : list health_op) : list (Time * error) :=
  match latest_first with
  | PrimaryFailed t e :: l => (t, e) :: trailing l
  | _ => []
  end.

Fixpoint last_failure (latest_first : list health_op) : Time :=
  match latest_first with
  | [] => 0
  | PrimaryFailed t _ :: _ => t
  | PrimaryRecovered :: l => last_failure l
  end.

Lemma history_record cooldown ops :
  let f := after_history cooldown ops in
  let fails := trailing (rev ops) in
  fo_failures f = Z.of_nat (length fails)
  /\ fo_lastErr f = snd <$> head fails
  /\ fo_lastFailure f = last_failure (rev ops)
  /\ fo_benchedUntil f = match fails with (t, _) :: _ => t + cooldown | [] => 0 end.
Proof.
  cbv zeta. induction ops as [|op ops (IH1 & IH2 & IH3 & IH4)] using rev_ind; [done|].
  unfold after_history in *. rewrite foldl_app, rev_app_distr. simpl.
  destruct op as [t e|]; simpl; [|by rewrite IH3].
  rewrite IH1. repeat split. lia.
Qed.

(** What a host that polls [Health] learns, after any history of
    failures and recoveries: the calls go to the backup exactly while the
    latest failure is not followed by a recovery and its cooldown has not
    passed; the consecutive failures are those since the last recovery; the
    error shown is the latest of them and none after a recovery; and the time
    of the latest failure survives the recovery. *)
Theorem failover_health_history cooldown ops now :
  0 <= now ->
  let h := Health (after_history cooldown ops) now in
  let fails := trailing (rev ops) in
  (ph_Active h = "backup" <-> exists t e rest, fails = (t, e) :: rest /\ now < t + cooldown)
  /\ ph_ConsecutiveFailures h = Z.of_nat (length fails)
  /\ ph_LastError h = from_option (fun p => error_text (snd p)) "" (head fails)
  /\ ph_LastFailureAt h = last_failure (rev ops).
Proof.
  intros Hnow h fails. destruct (history_record cooldown ops) as (H1 & H2 & H3 & H4).
  subst h fails. unfold Health. simpl. rewrite H1, H2, H3. unfold benched. rewrite H4.
  repeat split.
  - destruct (trailing (rev ops)) as [|[t e] rest]; case_match eqn:E; intros; simplify_eq; [lia|].
    exists t, e, rest. split; [done | lia].
  - intros (t & e & rest & -> & Hlt). by rewrite (proj2 (Z.ltb_lt _ _) Hlt).
  - by destruct (trailing (rev ops)).
Qed.

Lemma failover_health_history_witness :
  ph_Active (Health (after_history 30 [PrimaryFailed 5 (EText "down"); PrimaryRecovered; PrimaryFailed 40 (EText "again")]) 60)
    = "backup".
Proof.
  apply (failover_health_history 30 [PrimaryFailed 5 (EText "down"); PrimaryRecovered; PrimaryFailed 40 (EText "again")] 60);
    [lia|]. exists 40, (EText "again"), []. split; [reflexivity | lia].
Defined.

Section Calls.
Context {Ctx W : Type} `{Bench W}.
Implicit Types cfg : FailoverConfig Ctx W.

Lemma primaryBenched_value (w : W) : eff_value primaryBenched w = benched (bench_get w) (bench_now w).
Proof. done. Qed.

Lemma primaryBenched_world (w : W) : eff_world primaryBenched w = w.
Proof. done. Qed.

(** [Generate] hides the primary's failures.  While the primary is
    benched only the backup is asked.  Otherwise an answer of the primary
    is returned and leaves the record clean, and a failure of the primary
    is not: the backup is asked the same request, in a world where the
    primary is benched for the cooldown, and its outcome is the caller's,
    error or not. *)
Theorem failover_masks_primary cfg ctx req w :
  let primary := prov_Generate (fc_Primary cfg) ctx req in
  let backup := prov_Generate (fc_Backup cfg) ctx req in
  let call := fo_Generate cfg ctx req in
  let w1 := eff_world primary w in
  if benched (bench_get w) (bench_now w) then eff_value call w = eff_value backup w
  else match eff_value primary w with
       | inr resp => eff_value call w = inr resp
                     /\ bench_get (eff_world call w) = recovered (bench_get w1)
       | inl e => exists w2, eff_value call w = eff_value backup w2 /\ eff_world call w = eff_world backup w2
           /\ bench_get w2 = failed (fc_Cooldown cfg) e (bench_now w1) (bench_get w1)
           /\ forall now, now < bench_now w1 + fc_Cooldown cfg -> benched (bench_get w2) now = true
       end.
Proof.
  cbv zeta. unfold fo_Generate. rewrite eff_value_bind, eff_world_bind, primaryBenched_value, primaryBenched_world.
  destruct (benched (bench_get w) (bench_now w)); [done|]. rewrite eff_value_bind, eff_world_bind.
  set (w1 := eff_world _ w). destruct (eff_value (prov_Generate (fc_Primary cfg) ctx req) w) as [e|resp].
  - exists (bench_put (failed (fc_Cooldown cfg) e (bench_now w1) (bench_get w1)) w1).
    rewrite eff_value_bind, eff_world_bind. split; [done|]. split; [done|]. rewrite bench_get_put.
    split; [done|]. intros now Hlt. unfold benched. simpl. by apply Z.ltb_lt.
  - split; [done|]. unfold eff_world at 1. simpl. by rewrite bench_get_put.
Qed.

(** What a reader of a stream gets, and what is written when it stops. *)
Fixpoint until_error (items : list (error + Delta)) : list (error + Delta) :=
  match items with
  | [] => []
  | inl e :: _ => [inl e]
  | inr d :: items => inr d :: until_error items
  end.

Definition stream_verdict (items : list (error + Delta)) : option error :=
  match last (until_error items) with Some (inl e) => Some e | _ => None end.

Lemma drain_unwatched fuel cfg items delivered w :
  (length items < fuel)%nat ->
  drain_stream fuel cfg {| fs_items := items; fs_watched := false; fs_delivered := delivered |} w
  = (until_error items, [], w).
Proof.
  revert items delivered w. induction fuel as [|fuel IH]; intros items delivered w Hf; [lia|].
  destruct items as [|[e|d] items]; [done|done|]. simpl in *. unfold eff_bind. simpl. rewrite IH by lia. done.
Qed.

Lemma drain_watched fuel cfg items delivered w :
  (length items < fuel)%nat ->
  drain_stream fuel cfg {| fs_items := items; fs_watched := true; fs_delivered := delivered |} w
  = (until_error items, [],
     bench_put (match stream_verdict items with
                | Some e => failed (fc_Cooldown cfg) e (bench_now w) (bench_get w)
                | None => recovered (bench_get w)
                end) w).
Proof.
  revert items delivered w. induction fuel as [|fuel IH]; intros items delivered w Hf; [lia|].
  destruct items as [|[e|d] items]; [done|done|]. simpl in *. unfold eff_bind. simpl. rewrite IH by lia.
  unfold stream_verdict. cbn [until_error]. rewrite last_cons. by destruct (last (until_error items)) as [[e'|d']|].
Qed.

(** A stream is never replayed.  Whoever serves it, a consumer that
    reads to the end gets exactly what that provider sent, up to its first
    error, and the backup is not asked again; the one effect on the record
    is at the end, when the primary's stream finished (the primary is
    healthy again) or broke (it is benched from that moment). *)
Theorem failover_stream_not_replayed cfg ctx req w s :
  eff_value (fo_Stream cfg ctx req) w = inr s ->
  let w1 := eff_world (fo_Stream cfg ctx req) w in
  (exists w0, eff_value (prov_Stream (if fs_watched s then fc_Primary cfg else fc_Backup cfg) ctx req) w0
              = inr (fs_items s))
  /\ drain_stream (S (length (fs_items s))) cfg s w1
     = (until_error (fs_items s), [],
        if fs_watched s
        then bench_put (match stream_verdict (fs_items s) with
                        | Some e => failed (fc_Cooldown cfg) e (bench_now w1) (bench_get w1)
                        | None => recovered (bench_get w1)
                        end) w1
        else w1).
Proof.
  intros Hs w1. split.
  - clear w1. unfold fo_Stream in Hs. rewrite eff_value_bind, primaryBenched_value, primaryBenched_world in Hs.
    destruct (benched (bench_get w) (bench_now w)).
    + rewrite eff_value_bind, eff_value_ret in Hs. exists w.
      destruct (eff_value (prov_Stream (fc_Backup cfg) ctx req) w) eqn:E; by simplify_eq/=.
    + rewrite eff_value_bind in Hs.
      destruct (eff_value (prov_Stream (fc_Primary cfg) ctx req) w) as [e|items] eqn:Ep.
      * rewrite !eff_value_bind, eff_value_ret in Hs.
        match type of Hs with context [eff_value (prov_Stream (fc_Backup cfg) ctx req) ?w'] => exists w';
          destruct (eff_value (prov_Stream (fc_Backup cfg) ctx req) w') eqn:E end; by simplify_eq/=.
      * rewrite eff_value_ret in Hs. injection Hs as <-. by exists w.
  - destruct s as [items [] delivered]; cbn [fs_items fs_watched]; [apply drain_watched | apply drain_unwatched]; simpl; lia.
Qed.

(** Whichever provider serves a call can send what the pair said it can. *)
Lemma failover_capabilities cfg g s :
  CanGuide (fo_Capabilities cfg) g
    = CanGuide (CapabilitiesOf (fc_Primary cfg)) g && CanGuide (CapabilitiesOf (fc_Backup cfg)) g
  /\ CanPenalize (fo_Capabilities cfg) s
     = CanPenalize (CapabilitiesOf (fc_Primary cfg)) s && CanPenalize (CapabilitiesOf (fc_Backup cfg)) s.
Proof. apply intersect_admits. Qed.
End Calls.

(** ** A primary that is down

    The world is the record and a clock. *)

#[local] Instance demo_bench : Bench (FailoverProvider * Time) :=
  {| bench_get := fst; bench_put := fun f w => (f, snd w); bench_now := snd; bench_get_put := fun _ _ => eq_refl |}.

Definition answers_with (p : positive) (r : result (list (error + Delta))) : Provider unit (FailoverProvider * Time) :=
  {| prov_id := p; prov_caps := None; prov_Stream := fun _ _ => eff_ret r;
     prov_Generate := fun _ _ => eff_ret (inl (EText "down")) |}.

Definition demo_failover (primary : result (list (error + Delta))) : FailoverConfig unit (FailoverProvider * Time) :=
  {| fc_Primary := answers_with 1 primary;
     fc_Backup := answers_with 2 (inr [inr (text_delta DeltaText "backup")]); fc_Cooldown := 30 |}.

Definition blank_request : ProviderRequest :=
  {| pr_Instructions := ""; pr_Messages := []; pr_Tools := []; pr_Temperature := None; pr_MaxTokens := 0;
     pr_ToolChoice := ToolChoice_zero; pr_Seed := None; pr_Penalties := None; pr_Guided := None;
     pr_ResponseSchema := "" |}.

(** A stream that breaks before its first delta is not retried either: the
    caller gets the error. *)
Lemma failover_stream_not_replayed_witness :
  let cfg := demo_failover (inr [inl (EText "reset")]) in
  drain_stream 2 cfg {| fs_items := [inl (EText "reset")]; fs_watched := true; fs_delivered := false |} (failover_zero, 7)
  = ([inl (EText "reset")], [], (failed 30 (EText "reset") 7 failover_zero, 7)).
Proof.
  exact (proj2 (failover_stream_not_replayed (demo_failover (inr [inl (EText "reset")])) tt blank_request
    (failover_zero, 7) {| fs_items := [inl (EText "reset")]; fs_watched := true; fs_delivered := false |} eq_refl)).
Defined.

(** While the type's comment promises the backup for every call that fails
    before a delta was delivered, only the opening of the stream is
    retried. *)
Lemma first_delta_failure_surfaces :
  let cfg := demo_failover (inr [inl (EText "reset")]) in
  match eff_value (fo_Stream cfg tt blank_request) (failover_zero, 7) with
  | inr s => eff_value (drain_stream 2 cfg s) (failover_zero, 7) = [inl (EText "reset")]
  | inl _ => False
  end
  /\ eff_value (fo_Stream (demo_failover (inl (EText "reset"))) tt blank_request) (failover_zero, 7)
     = inr {| fs_items := [inr (text_delta DeltaText "backup")]; fs_watched := false; fs_delivered := false |}.
Proof. split; reflexivity. Qed.
