(* ===== verification/SubAgents.v ===== *)
(** * Sub-agents: src/agent_source.go, src/signal.go

    [AgentSource] offers a child Runner as one tool.  Its guards (nesting
    depth, aggregate call budget), the context it hands the child, and the
    sinks through which a child signals the agent that spawned it.  What the
    code keeps in Go contexts is the record [agent_ctx]; sinks and counters
    are shared by pointer, so contexts hold their addresses and the store
    holds the values. *)

From S2P Require Import Prelude GoStr Errors Json Provider TreeBudget Middleware Events MultiSource Dispatch.
Local Open Scope eff_scope.

(** ** The sink of one dispatch *)

(** [sk_notify] says whether the channel exists and whether it is closed;
    [sk_once] is the [sync.Once]; [sk_closes] counts the calls of [close],
    the second of which would panic. *)
Record signalSink := {
  sk_signals : list Signal;
  sk_notify : option bool;
  sk_once : bool;
  sk_breakOn : option (Signal -> bool);
  sk_closes : nat;
}.

Definition new_sink (interruptible : option (Signal -> bool)) : signalSink :=
  {| sk_signals := []; sk_notify := match interruptible with Some _ => Some false | None => None end;
     sk_once := false; sk_breakOn := interruptible; sk_closes := 0 |}.

Definition sink_with_signals (s : signalSink) (l : list Signal) : signalSink :=
  {| sk_signals := l; sk_notify := sk_notify s; sk_once := sk_once s; sk_breakOn := sk_breakOn s;
     sk_closes := sk_closes s |}.

(** [raise]: the part under the lock, with whether it goes on to close, and
    the [once.Do] after it. *)
Definition raise_append (s : signalSink) (sig : Signal) : bool * signalSink :=
  (match sk_notify s, sk_breakOn s with Some _, Some b => b sig | _, _ => false end,
   sink_with_signals s (sk_signals s ++ [sig])).

Definition raise_close (s : signalSink) : signalSink :=
  if sk_once s then s
  else {| sk_signals := sk_signals s; sk_notify := Some true; sk_once := true; sk_breakOn := sk_breakOn s;
          sk_closes := S (sk_closes s) |}.

Definition raise (s : signalSink) (sig : Signal) : signalSink :=
  let '(close, s) := raise_append s sig in
  if close : bool then raise_close s else s.

Definition drain (s : signalSink) : list Signal * signalSink := (sk_signals s, sink_with_signals s []).

(** ** Contexts *)

Record agent_ctx := {
  ac_depth : Z;
  ac_scope : AgentPath;
  ac_calls : option positive;
  ac_dispatchSink : option positive;
  ac_parentSink : option positive;
}.

Definition background : agent_ctx :=
  {| ac_depth := 0; ac_scope := []; ac_calls := None; ac_dispatchSink := None; ac_parentSink := None |}.

Definition withDispatchSink (ctx : agent_ctx) (s : positive) : agent_ctx :=
  {| ac_depth := ac_depth ctx; ac_scope := ac_scope ctx; ac_calls := ac_calls ctx;
     ac_dispatchSink := Some s; ac_parentSink := ac_parentSink ctx |}.

Definition withParentSink (ctx : agent_ctx) (s : positive) : agent_ctx :=
  {| ac_depth := ac_depth ctx; ac_scope := ac_scope ctx; ac_calls := ac_calls ctx;
     ac_dispatchSink := ac_dispatchSink ctx; ac_parentSink := Some s |}.

Definition withAgentDepth (ctx : agent_ctx) (d : Z) : agent_ctx :=
  {| ac_depth := d; ac_scope := ac_scope ctx; ac_calls := ac_calls ctx;
     ac_dispatchSink := ac_dispatchSink ctx; ac_parentSink := ac_parentSink ctx |}.

Definition withAgentScope (ctx : agent_ctx) (p : AgentPath) : agent_ctx :=
  {| ac_depth := ac_depth ctx; ac_scope := p; ac_calls := ac_calls ctx;
     ac_dispatchSink := ac_dispatchSink ctx; ac_parentSink := ac_parentSink ctx |}.

(** The shared objects. *)
Record store := { st_sinks : gmap positive signalSink; st_calls : gmap positive Z }.

(** [RaiseSignal]. *)
Definition RaiseSignal (ctx : agent_ctx) (sig : Signal) (s : store) : bool * store :=
  match ac_parentSink ctx with
  | None => (false, s)
  | Some a =>
      let sig := if String.eqb (sig_Source sig) ""
                 then {| sig_Kind := sig_Kind sig; sig_Name := sig_Name sig; sig_Note := sig_Note sig;
                         sig_Data := sig_Data sig; sig_Source := path_String (ac_scope ctx) |}
                 else sig in
      (true, {| st_sinks := alter (fun k => raise k sig) a (st_sinks s); st_calls := st_calls s |})
  end.

(** The [signal_parent] tool of [NewSignalSource]. *)
Definition signal_kind_of (s : string) : SignalKind :=
  if String.eqb s "escalate" then SignalEscalate
  else if String.eqb s "preempt" then SignalPreempt
  else if String.eqb s "custom" then SignalCustom
  else SignalOther s.

Definition signal_parent (ctx : agent_ctx) (kind note name : string) (s : store) : result string * store :=
  match signal_kind_of kind with
  | SignalOther _ =>
      (inl (EText ("unknown signal kind " +:+ go_quote kind +:+ " (want escalate, preempt, or custom)")), s)
  | k =>
      let '(sent, s) := RaiseSignal ctx {| sig_Kind := k; sig_Name := name; sig_Note := note; sig_Data := "";
                                           sig_Source := "" |} s in
      (inr (if sent : bool then "signalled parent: " +:+ kind
            else "no parent to signal (you are the top-level agent)"), s)
  end.

(** ** AgentSource *)

Record SubAgentEvent := { sub_Scope : string; sub_Depth : Z; sub_Event : Event }.

(** What a run emits: its own events, and those of the sub-agents below it,
    which their sources hand to the surface directly. *)
Abbreviation run_event := (Event + SubAgentEvent)%type.

Definition child_run := agent_ctx -> list Message -> eff store run_event (option TurnResult * option error).

Record AgentSource := {
  as_Name : string;
  as_def : ToolDef;
  as_Run : child_run;
  as_maxDepth : Z;
  as_OnEvent : bool;
  as_InputSchema : RawJSON;
}.

Definition defaultMaxAgentDepth : Z := 3.

(** encoding/json on the arguments of a call: their encoding, and the task
    read back from it. *)
Record ArgsCodec := {
  ac_marshal : tool_args -> result RawJSON;
  ac_task : RawJSON -> result string;
  ac_schema : RawJSON -> option error;
  ac_generated : RawJSON;
}.

Section AgentSource.
Variable codec : ArgsCodec.

Definition NewAgentSource (name description : string) (run : option child_run) (maxDepth : Z)
    (onEvent : bool) (schema : RawJSON) : result AgentSource :=
  if String.eqb name "" then inl (EText "agent: AgentSource requires a Name")
  else match run with
       | None => inl (EText ("agent: AgentSource " +:+ go_quote name +:+ " requires a Runner"))
       | Some run =>
           match ac_schema codec (if String.eqb schema "" then ac_generated codec else schema) with
           | Some e => inl (wrap_error ("agent: schema for AgentSource " +:+ go_quote name +:+ ": ") e)
           | None =>
               inr {| as_Name := name;
                      as_def := {| td_Name := name; td_Description := description; td_Annotations := ∅ |};
                      as_Run := run;
                      as_maxDepth := if (maxDepth <=? 0)%Z then defaultMaxAgentDepth else maxDepth;
                      as_OnEvent := onEvent; as_InputSchema := schema |}
           end
       end.

Definition agent_Tools (s : AgentSource) : list ToolDef := [as_def s].

Definition text_result (text : string) : ToolResult :=
  {| tr_Content := [{| c_Type := "text"; c_Text := text |}]; tr_IsError := false; tr_StructuredContent := None |}.

(** [b.Add(-1) < 0] on the counter of the context. *)
Definition charge (ctx : agent_ctx) : eff store SubAgentEvent bool := fun s =>
  match ac_calls ctx with
  | None => (false, [], s)
  | Some a =>
      match charge_call (st_calls s !! a) with
      | (refused, Some n) => (refused, [], {| st_sinks := st_sinks s; st_calls := <[a := n]> (st_calls s) |})
      | (refused, None) => (refused, [], s)
      end
  end.

(** The child's user turn: the raw arguments of a typed subtask, or the
    task. *)
Definition seed_of (s : AgentSource) (raw : RawJSON) : option string :=
  if String.eqb (as_InputSchema s) "" then
    match ac_task codec raw with
    | inl _ => None
    | inr task => if String.eqb (trim_space task) "" then None else Some task
    end
  else Some raw.

Definition child_ctx (s : AgentSource) (ctx : agent_ctx) : agent_ctx :=
  let c := withAgentScope (withAgentDepth ctx (ac_depth ctx + 1)) (path_Child (ac_scope ctx) (as_Name s)) in
  match ac_dispatchSink ctx with Some a => withParentSink c a | None => c end.

(** The child's stream as the surface sees it. *)
Definition forward (s : AgentSource) (ctx : agent_ctx) (evs : list run_event) : list SubAgentEvent :=
  omap (fun e => match e with
                 | inl e => if as_OnEvent s
                            then Some {| sub_Scope := path_String (path_Child (ac_scope ctx) (as_Name s));
                                         sub_Depth := ac_depth ctx + 1; sub_Event := e |}
                            else None
                 | inr e => Some e
                 end) evs.

Definition run_child (s : AgentSource) (ctx : agent_ctx) (seed : string)
  : eff store SubAgentEvent (option TurnResult * option error) := fun w =>
  let '(r, evs, w) := as_Run s (child_ctx s ctx) [text_message RoleUser seed] w in
  (r, forward s ctx evs, w).

(** What the parent model is told. *)
Definition child_answer (s : AgentSource) (r : option TurnResult * option error) : call_out :=
  match r with
  | (_, Some err) =>
      (Some (errorToolResult ("sub-agent " +:+ go_quote (as_Name s) +:+ " failed: " +:+ error_text err)), None)
  | (Some res, None) =>
      (Some (text_result (if String.eqb (res_Structured res) "" then res_Text res else res_Structured res)), None)
  | (None, None) => (None, None)
  end.

Definition agent_Call (s : AgentSource) (ctx : agent_ctx) (name : string) (args : tool_args)
  : eff store SubAgentEvent call_out :=
  if negb (String.eqb name (as_Name s)) then
    eff_ret (None, Some (wrap_sentinel ErrUnknownTool (": " +:+ go_quote name)))
  else if (as_maxDepth s <=? ac_depth ctx)%Z then
    eff_ret (Some (errorToolResult ("sub-agent " +:+ go_quote (as_Name s) +:+ " refused: max depth "
                                    +:+ itoa (as_maxDepth s) +:+ " reached")), None)
  else
    let* refused := charge ctx in
    if refused : bool then
      eff_ret (Some (errorToolResult ("sub-agent " +:+ go_quote (as_Name s) +:+ " refused: call budget exhausted")), None)
    else
      match ac_marshal codec args with
      | inl e => eff_ret (None, Some (wrap_error ("agent: encode args for sub-agent " +:+ go_quote (as_Name s) +:+ ": ") e))
      | inr raw =>
          match seed_of s raw with
          | None => eff_ret (Some (errorToolResult ("sub-agent " +:+ go_quote (as_Name s)
                                     +:+ " requires a non-empty 'task'")), None)
          | Some seed => let* r := run_child s ctx seed in eff_ret (child_answer s r)
          end
      end.
End AgentSource.

(** ** Sinks under concurrent raises *)

(** The atomic actions on one sink: a raise's append, the [once.Do] of a
    raise that breaks the barrier, a drain. *)
Inductive sink_op := OpAppend (sig : Signal) | OpClose | OpDrain.

(** [sr_pending] raises are between their two actions. *)
Record sink_run := { sr_sink : signalSink; sr_pending : nat; sr_drained : list Signal }.

Definition sink_do (r : sink_run) (op : sink_op) : sink_run :=
  match op with
  | OpAppend sig =>
      let '(close, s) := raise_append (sr_sink r) sig in
      {| sr_sink := s; sr_pending := (if close : bool then 1 else 0) + sr_pending r; sr_drained := sr_drained r |}
  | OpClose =>
      match sr_pending r with
      | O => r
      | S n => {| sr_sink := raise_close (sr_sink r); sr_pending := n; sr_drained := sr_drained r |}
      end
  | OpDrain =>
      let '(out, s) := drain (sr_sink r) in
      {| sr_sink := s; sr_pending := sr_pending r; sr_drained := sr_drained r ++ out |}
  end.

Definition sink_trace (interruptible : option (Signal -> bool)) (ops : list sink_op) : sink_run :=
  foldl sink_do {| sr_sink := new_sink interruptible; sr_pending := 0; sr_drained := [] |} ops.

Definition raised (ops : list sink_op) : list Signal :=
  omap (fun op => match op with OpAppend sig => Some sig | _ => None end) ops.

Definition breaks (interruptible : option (Signal -> bool)) (sig : Signal) : bool :=
  match interruptible with Some b => b sig | None => false end.

(** A signal that breaks the barrier was raised. *)
Definition broke (interruptible : option (Signal -> bool)) (ops : list sink_op) : bool :=
  existsb (breaks interruptible) (raised ops).

Record sink_inv (interruptible : option (Signal -> bool)) (ops : list sink_op) (r : sink_run) : Prop := {
  si_signals : sr_drained r ++ sk_signals (sr_sink r) = raised ops;
  si_breakOn : sk_breakOn (sr_sink r) = interruptible;
  si_notify : sk_notify (sr_sink r) = (fun _ => sk_once (sr_sink r)) <$> interruptible;
  si_closes : sk_closes (sr_sink r) = if sk_once (sr_sink r) then 1 else 0;
  si_broke : if broke interruptible ops then 0 < sr_pending r \/ sk_once (sr_sink r) = true
             else sr_pending r = 0 /\ sk_once (sr_sink r) = false;
}.

Lemma raised_snoc ops op : raised (ops ++ [op]) = raised ops ++ raised [op].
Proof. apply omap_app. Qed.

Lemma broke_snoc intr ops op : broke intr (ops ++ [op]) = broke intr ops || broke intr [op].
Proof. unfold broke. by rewrite raised_snoc, existsb_app. Qed.

Lemma append_inv intr ops sig r : sink_inv intr ops r -> sink_inv intr (ops ++ [OpAppend sig]) (sink_do r (OpAppend sig)).
Proof.
  intros [H1 H2 H3 H4 H5].
  assert (Hb : (match sk_notify (sr_sink r), sk_breakOn (sr_sink r) with Some _, Some b => b sig | _, _ => false end)
             = breaks intr sig) by (rewrite H2, H3; by destruct intr).
  unfold sink_do, raise_append. rewrite Hb. split; simpl; try done.
  - by rewrite raised_snoc, <- H1, app_assoc.
  - rewrite broke_snoc. unfold broke at 2. simpl. rewrite orb_false_r.
    destruct (broke intr ops), (breaks intr sig); simpl; try (left; lia); by destruct H5; auto with lia.
Qed.

Lemma close_inv intr ops r : sink_inv intr ops r -> sink_inv intr (ops ++ [OpClose]) (sink_do r OpClose).
Proof.
  intros [H1 H2 H3 H4 H5]. simpl. destruct (sr_pending r) as [|n] eqn:Ep.
  - split; try done; [by rewrite raised_snoc, app_nil_r|]. by rewrite broke_snoc, orb_false_r, Ep.
  - assert (Hbr : broke intr ops = true) by (destruct (broke intr ops); [done | by destruct H5]).
    assert (Hi : exists b, intr = Some b).
    { destruct intr as [b|]; [by exists b|]. unfold broke in Hbr.
      by apply existsb_exists in Hbr as (? & _ & ?). }
    destruct Hi as [b ->]. unfold raise_close. split; simpl; destruct (sk_once (sr_sink r)) eqn:Eo; simpl; try done;
      rewrite ?raised_snoc, ?app_nil_r, ?broke_snoc, ?Hbr, ?H4, ?H3, ?Eo; simpl; auto.
Qed.

Lemma drain_inv intr ops r : sink_inv intr ops r -> sink_inv intr (ops ++ [OpDrain]) (sink_do r OpDrain).
Proof.
  intros [H1 H2 H3 H4 H5]. split; simpl; try done.
  - by rewrite raised_snoc, !app_nil_r.
  - by rewrite broke_snoc, orb_false_r.
Qed.

Lemma sink_trace_inv intr ops : sink_inv intr ops (sink_trace intr ops).
Proof.
  unfold sink_trace. induction ops as [|op ops IH] using rev_ind.
  - split; simpl; done.
  - rewrite foldl_app. destruct op; [by apply append_inv | by apply close_inv | by apply drain_inv].
Qed.

(** However the raises of concurrent children interleave with each other
    and with the drains, no signal is lost, duplicated or reordered: what was
    drained followed by what is still collected is what was raised, in the
    order of the appends.  The notification channel is closed at most once,
    only after a signal that breaks the barrier, and when no raise is in
    progress it is closed exactly when one was raised. *)
Theorem sink_lossless intr ops :
  let r := sink_trace intr ops in
  sr_drained r ++ sk_signals (sr_sink r) = raised ops
  /\ sk_closes (sr_sink r) <= 1
  /\ (sk_notify (sr_sink r) = Some true -> broke intr ops = true)
  /\ (sr_pending r = 0 -> (sk_notify (sr_sink r) = Some true <-> broke intr ops = true)).
Proof.
  cbv zeta. destruct (sink_trace_inv intr ops) as [H1 H2 H3 H4 H5].
  split; [done|]. split; [rewrite H4; destruct (sk_once _); lia|]. rewrite H3.
  destruct intr as [b|]; simpl.
  - destruct (broke (Some b) ops); (split; [try done|]).
    + intros Hp. destruct H5 as [H5|H5]; [lia|]. by rewrite H5.
    + by destruct H5 as [_ ->].
    + intros _. destruct H5 as [_ ->]. split; congruence.
  - assert (Hno : broke None ops = false).
    { unfold broke. clear. by induction (raised ops). }
    rewrite Hno. done.
Qed.

(** ** Who a signal reaches *)

Lemma child_parent_sink src ctx a : ac_parentSink (child_ctx src (withDispatchSink ctx a)) = Some a.
Proof. done. Qed.

(** The signal a child's raise adds. *)
Definition stamped (ctx : agent_ctx) (sig : Signal) : Signal :=
  {| sig_Kind := sig_Kind sig; sig_Name := sig_Name sig; sig_Note := sig_Note sig; sig_Data := sig_Data sig;
     sig_Source := if String.eqb (sig_Source sig) "" then path_String (ac_scope ctx) else sig_Source sig |}.

Lemma RaiseSignal_alter ctx a sig s :
  ac_parentSink ctx = Some a ->
  RaiseSignal ctx sig s
  = (true, {| st_sinks := alter (fun k => raise k (stamped ctx sig)) a (st_sinks s); st_calls := st_calls s |}).
Proof.
  intros Ha. unfold RaiseSignal, stamped. rewrite Ha. destruct (String.eqb (sig_Source sig) ""); [done|].
  by destruct sig.
Qed.

Lemma raise_signals k sig : sk_signals (raise k sig) = sk_signals k ++ [sig].
Proof. unfold raise, raise_append, raise_close. simpl. repeat case_match; done. Qed.

(** A child signals the dispatch that spawned it and no other.  Take an
    agent that dispatches with sink [a], a child its AgentSource runs, and
    the child's own dispatch with sink [b], which spawns a grandchild.  A
    signal the child raises while its own dispatch runs is appended to [a],
    with the child's path as its source unless it names one, and [b] and
    every other sink are untouched; the grandchild's goes to [b]. *)
Theorem raise_reaches_spawner ctx src src' a b sig s ka :
  a <> b -> st_sinks s !! a = Some ka ->
  let child := withDispatchSink (child_ctx src (withDispatchSink ctx a)) b in
  let grandchild := child_ctx src' child in
  let '(sent, s') := RaiseSignal child sig s in
  sent = true
  /\ (sk_signals <$> st_sinks s' !! a) = Some (sk_signals ka ++ [stamped child sig])
  /\ ac_scope child = path_Child (ac_scope ctx) (as_Name src)
  /\ (forall c, c <> a -> st_sinks s' !! c = st_sinks s !! c)
  /\ (forall c, c <> b -> st_sinks (snd (RaiseSignal grandchild sig s)) !! c = st_sinks s !! c).
Proof.
  intros Hab Hk child grandchild. rewrite (RaiseSignal_alter child a), (RaiseSignal_alter grandchild b) by done.
  split; [done|]. cbn [st_sinks snd]. rewrite lookup_alter_eq, Hk. simpl. rewrite raise_signals.
  split; [done|]. split; [done|]. split; intros c Hc; by apply lookup_alter_ne.
Qed.

Lemma raise_reaches_spawner_witness :
  let s := {| st_sinks := {[ 1%positive := new_sink None; 2%positive := new_sink None ]}; st_calls := ∅ |} in
  let src := {| as_Name := "scout"; as_def := {| td_Name := "scout"; td_Description := ""; td_Annotations := ∅ |};
                as_Run := fun _ _ => eff_ret (None, None); as_maxDepth := 3; as_OnEvent := false; as_InputSchema := "" |} in
  let child := withDispatchSink (child_ctx src (withDispatchSink background 1)) 2 in
  let sig := {| sig_Kind := SignalEscalate; sig_Name := ""; sig_Note := "found"; sig_Data := ""; sig_Source := "" |} in
  sk_signals <$> st_sinks (snd (RaiseSignal child sig s)) !! 1%positive = Some [stamped child sig]
  /\ sig_Source (stamped child sig) = "scout".
Proof.
  cbv zeta. split; [|reflexivity].
  exact (proj1 (proj2 (raise_reaches_spawner background
    {| as_Name := "scout"; as_def := {| td_Name := "scout"; td_Description := ""; td_Annotations := ∅ |};
       as_Run := fun _ _ => eff_ret (None, None); as_maxDepth := 3; as_OnEvent := false; as_InputSchema := "" |}
    {| as_Name := "scout"; as_def := {| td_Name := "scout"; td_Description := ""; td_Annotations := ∅ |};
       as_Run := fun _ _ => eff_ret (None, None); as_maxDepth := 3; as_OnEvent := false; as_InputSchema := "" |}
    1 2 {| sig_Kind := SignalEscalate; sig_Name := ""; sig_Note := "found"; sig_Data := ""; sig_Source := "" |}
    {| st_sinks := {[ 1%positive := new_sink None; 2%positive := new_sink None ]}; st_calls := ∅ |}
    (new_sink None) ltac:(discriminate) eq_refl))).
Defined.

(** ** Guards *)

Section Guards.
Variable codec : ArgsCodec.

(** A sub-agent problem never aborts the parent's turn.  A call with
    the source's own name and arguments that encode is answered with a
    result whenever the child's run returns at all: at the depth cap, on an
    exhausted call budget and without a task the result is an error the
    model reads, and then the child was not run (the store changed at most
    by the charge of the budget, and no event was emitted). *)
Theorem agent_call_contained src ctx args w :
  (forall e, ac_marshal codec args <> inl e) ->
  (forall c msgs w', eff_value (as_Run src c msgs) w' <> (None, None)) ->
  exists res, eff_value (agent_Call codec src ctx (as_Name src) args) w = (Some res, None)
    /\ ((as_maxDepth src <= ac_depth ctx)%Z ->
        tr_IsError res = true /\ agent_Call codec src ctx (as_Name src) args w = ((Some res, None), [], w))
    /\ (eff_value (charge ctx) w = true ->
        tr_IsError res = true /\ eff_events (agent_Call codec src ctx (as_Name src) args) w = []).
Proof.
  intros Hm Hr. unfold agent_Call. rewrite String.eqb_refl. cbn [negb].
  destruct (as_maxDepth src <=? ac_depth ctx)%Z eqn:Ed.
  { eexists. split; [done|]. split; [done|]. done. }
  assert (Hd : ~ (as_maxDepth src <= ac_depth ctx)%Z) by lia.
  rewrite eff_value_bind, eff_events_bind. destruct (eff_value (charge ctx) w) eqn:Ec.
  { eexists. split; [done|]. split; [done|]. intros _. split; [done|].
    unfold eff_events at 1, charge. repeat case_match; done. }
  destruct (ac_marshal codec args) as [e|raw] eqn:Em; [by destruct (Hm e)|].
  destruct (seed_of codec src raw) as [seed|]; [|by eexists].
  rewrite eff_value_bind, eff_value_ret. unfold run_child at 1, eff_value at 1.
  specialize (Hr (child_ctx src ctx) [text_message RoleUser seed] (eff_world (charge ctx) w)).
  unfold eff_value at 1 in Hr. destruct (as_Run src _ _ _) as [[r evs] w']. simpl in Hr |- *.
  destruct r as [[res|] [err|]]; simpl; try done; by eexists.
Qed.
End Guards.

(** ** Delegation ends *)

Section Delegation.
Variable codec : ArgsCodec.
Variable name : string.
Variable maxDepth : Z.

(** An agent whose tools include itself: [body] is its run, given the tool
    to delegate with. *)
Variable body : (agent_ctx -> tool_args -> eff store SubAgentEvent call_out) -> child_run.

Definition self_source (run : child_run) : AgentSource :=
  {| as_Name := name; as_def := {| td_Name := name; td_Description := ""; td_Annotations := ∅ |};
     as_Run := run; as_maxDepth := maxDepth; as_OnEvent := true; as_InputSchema := "{}" |}.

(** The agent unrolled [fuel] times, with [bottom] below. *)
Fixpoint unrolled (bottom : child_run) (fuel : nat) : child_run :=
  match fuel with
  | O => bottom
  | S fuel => body (fun ctx args => agent_Call codec (self_source (unrolled bottom fuel)) ctx name args)
  end.

(** A run passes on contexts derived from its own, so it never calls a tool
    from a shallower depth. *)
Hypothesis body_local : forall call call' ctx msgs w,
  (forall ctx' args w', (ac_depth ctx <= ac_depth ctx')%Z -> call ctx' args w' = call' ctx' args w') ->
  body call ctx msgs w = body call' ctx msgs w.

Lemma child_depth src ctx : ac_depth (child_ctx src ctx) = (ac_depth ctx + 1)%Z.
Proof. unfold child_ctx. by destruct (ac_dispatchSink ctx). Qed.

Lemma agent_Call_ext run run' ctx args w :
  ((ac_depth ctx < maxDepth)%Z -> forall msgs w', run (child_ctx (self_source run) ctx) msgs w' = run' (child_ctx (self_source run) ctx) msgs w') ->
  agent_Call codec (self_source run) ctx name args w = agent_Call codec (self_source run') ctx name args w.
Proof.
  intros Hrun. unfold agent_Call. simpl. destruct (negb (String.eqb name name)); [done|].
  destruct (Z.leb_spec maxDepth (ac_depth ctx)) as [Hd|Hd]; [done|].
  apply eff_bind_ext. intros [] w1; [done|]. destruct (ac_marshal codec args) as [e|raw]; [done|].
  unfold seed_of. simpl. apply eff_bind_ext_l. unfold run_child. cbn [as_Run self_source].
  change (child_ctx (self_source run') ctx) with (child_ctx (self_source run) ctx). by rewrite Hrun by lia.
Qed.

(** C26: An agent that keeps delegating to itself terminates.  From depth
    [d] at most [maxDepth - d] further runs nest: unrolled once more than
    that, the agent's run does not depend on what is below it, so the
    bottom is never reached. *)
Theorem delegation_terminates bottom bottom' fuel ctx msgs w :
  (maxDepth - ac_depth ctx < Z.of_nat fuel)%Z -> 0 < fuel ->
  unrolled bottom fuel ctx msgs w = unrolled bottom' fuel ctx msgs w.
Proof.
  revert ctx msgs w. induction fuel as [|fuel IH]; intros ctx msgs w Hf Hpos; [lia|]. cbn [unrolled].
  apply body_local. intros ctx' args w' Hd. apply agent_Call_ext. intros Hlt msgs' w2.
  apply IH; rewrite ?child_depth; lia.
Qed.
End Delegation.

Definition demo_codec : ArgsCodec :=
  {| ac_marshal := fun _ => inr "{}"; ac_task := fun _ => inr "go"; ac_schema := fun _ => None; ac_generated := "{}" |}.

(** An agent that delegates once, whatever it is asked. *)
Definition relay (call : agent_ctx -> tool_args -> eff store SubAgentEvent call_out) : child_run :=
  fun ctx _ w =>
    let '(r, evs, w) := call ctx ∅ w in
    let text := match fst r with Some res => str_concat (c_Text <$> tr_Content res) | None => "" end in
    ((Some {| res_Text := "> " +:+ text; res_Messages := []; res_Usage := Usage_zero; res_UsageByModel := None;
              res_Steps := 1; res_FinishReason := ""; res_Structured := ""; res_StructuredError := "" |}, None),
     inl EventTurnBegin :: (inr <$> evs), w).

Lemma delegation_terminates_witness :
  let run b := unrolled demo_codec "relay" 2 relay b 3 background [] {| st_sinks := ∅; st_calls := ∅ |} in
  run (fun _ _ => eff_ret (None, None)) = run (fun _ _ => eff_ret (None, Some (EText "bottom")))
  /\ sub_Depth <$> omap (fun e => match e with inr e => Some e | inl _ => None end)
       (run (fun _ _ => eff_ret (None, None))).1.2 = [1; 2]%Z.
Proof.
  cbv zeta. split; [|vm_compute; reflexivity].
  apply (delegation_terminates demo_codec "relay" 2 relay); [|simpl; lia|lia].
  intros call call' ctx msgs w H. unfold relay. by rewrite H by lia.
Defined.

Lemma agent_call_contained_witness :
  exists res, eff_value (agent_Call demo_codec (self_source "relay" 2 (fun _ _ => eff_ret (None, Some (EText "no"))))
      background "relay" ∅) {| st_sinks := ∅; st_calls := ∅ |} = (Some res, None)
    /\ tr_IsError res = true.
Proof.
  destruct (agent_call_contained demo_codec (self_source "relay" 2 (fun _ _ => eff_ret (None, Some (EText "no"))))
    background ∅ {| st_sinks := ∅; st_calls := ∅ |}) as (res & Hres & _ & _); [discriminate|discriminate|].
  exists res. split; [exact Hres|]. vm_compute in Hres. injection Hres as <-. reflexivity.
Defined.

(** ** The call budget *)

(** The charges of concurrent calls are atomic, so any interleaving of them
    is a sequence; the calls that were let through. *)
Fixpoint charge_all (ctxs : list agent_ctx) (s : store) : nat * store :=
  match ctxs with
  | [] => (0, s)
  | ctx :: ctxs =>
      let '(refused, _, s) := charge ctx s in
      let '(n, s) := charge_all ctxs s in
      ((if refused : bool then 0 else 1) + n, s)
  end.

Lemma charge_all_counts a ctxs s n :
  Forall (fun ctx => ac_calls ctx = Some a) ctxs -> st_calls s !! a = Some n ->
  (int64_min <= n - Z.of_nat (length ctxs))%Z -> (n <= int64_max)%Z ->
  fst (charge_all ctxs s) = Nat.min (length ctxs) (Z.to_nat n).
Proof.
  intros Hall. revert s n. induction Hall as [|ctx ctxs Hc _ IH]; intros s n Hn Hlo Hhi; [done|].
  simpl length in *. cbn [charge_all]. unfold charge. rewrite Hc, Hn. unfold charge_call.
  rewrite wrap64_id by (unfold in_int64; lia).
  set (s' := {| st_sinks := _; st_calls := _ |}).
  assert (Hs : fst (charge_all ctxs s') = Nat.min (length ctxs) (Z.to_nat (n - 1))).
  { apply IH; [apply lookup_insert_eq | lia | lia]. }
  destruct (charge_all ctxs s') as [k s'']. cbn [fst] in *. subst k.
  destruct (Z.ltb_spec (n - 1) 0); lia.
Qed.

(** However many calls a tree of agents makes under a budget of [n], in
    whatever order their charges happen, exactly the first [n] are let
    through.  The count is of one 64-bit counter, so it holds until refused
    calls have driven it to its minimum. *)
Theorem call_budget_caps a ctxs s n :
  Forall (fun ctx => ac_calls ctx = Some a) ctxs -> st_calls s !! a = WithAgentCallBudget n ->
  (0 <= n <= int64_max)%Z -> (Z.of_nat (length ctxs) <= 2 ^ 63)%Z ->
  fst (charge_all ctxs s) = Nat.min (length ctxs) (Z.to_nat n).
Proof. intros Hall Hn Hr Hl. eapply charge_all_counts; [done|done|unfold int64_min; lia|lia]. Qed.

Lemma call_budget_caps_witness :
  let ctx := {| ac_depth := 0; ac_scope := []; ac_calls := Some 1%positive; ac_dispatchSink := None; ac_parentSink := None |} in
  fst (charge_all [ctx; ctx; ctx] {| st_sinks := ∅; st_calls := {[ 1%positive := 2%Z ]} |}) = 2.
Proof.
  cbv zeta. etransitivity; [apply (call_budget_caps 1 _ _ 2)|reflexivity];
    [by repeat constructor | reflexivity | unfold int64_max; lia | simpl; lia].
Defined.
