(* ===== verification/CallCancels.v ===== *)
(** * Cancelling calls: the registry of src/runner.go

    [callCancels] lets a surface cancel one running tool call, or all of
    them.  Each goroutine of a dispatch adds its cancel function under its
    call's ID, runs the call, and removes the entry; the control listener
    runs [cancel] for what the surface sends.  Each method holds the mutex,
    so a run is a sequence of them.  A cancel function is the index of the
    call whose context it cancels. *)

From S2P Require Import Prelude GoStr Errors Json Provider.

Record callCancels := { cc_cancels : gmap string nat }.

Definition cc_add (g : callCancels) (id : string) (call : nat) : callCancels :=
  {| cc_cancels := <[id := call]> (cc_cancels g) |}.

Definition cc_remove (g : callCancels) (id : string) : callCancels :=
  {| cc_cancels := delete id (cc_cancels g) |}.

(** The calls whose contexts a control cancels. *)
Definition cc_cancel (g : callCancels) (id : string) : list nat :=
  if String.eqb id "" then snd <$> map_to_list (cc_cancels g)
  else match cc_cancels g !! id with Some c => [c] | None => [] end.

(** ** A dispatch and its controls *)

Inductive control_op := Begin (i : nat) | End (i : nat) | Cancel (id : string).

Inductive call_phase := NotStarted | InFlight | Finished.

#[export] Instance call_phase_eq_dec : EqDecision call_phase.
Proof. solve_decision. Defined.

(** The registry, the phase of each call, and the cancellations so far:
    the id sent and the calls it hit. *)
Record control_state := {
  cs_reg : callCancels;
  cs_phase : list call_phase;
  cs_hits : list (string * list nat);
}.

Definition control_do (calls : list ToolCall) (s : control_state) (op : control_op) : control_state :=
  match op with
  | Begin i =>
      match calls !! i, cs_phase s !! i with
      | Some c, Some NotStarted =>
          {| cs_reg := cc_add (cs_reg s) (tc_ID c) i; cs_phase := <[i := InFlight]> (cs_phase s); cs_hits := cs_hits s |}
      | _, _ => s
      end
  | End i =>
      match calls !! i, cs_phase s !! i with
      | Some c, Some InFlight =>
          {| cs_reg := cc_remove (cs_reg s) (tc_ID c); cs_phase := <[i := Finished]> (cs_phase s); cs_hits := cs_hits s |}
      | _, _ => s
      end
  | Cancel id =>
      {| cs_reg := cs_reg s; cs_phase := cs_phase s; cs_hits := cs_hits s ++ [(id, cc_cancel (cs_reg s) id)] |}
  end.

Definition control_run (calls : list ToolCall) (ops : list control_op) : control_state :=
  foldl (control_do calls)
    {| cs_reg := {| cc_cancels := ∅ |}; cs_phase := replicate (length calls) NotStarted; cs_hits := [] |} ops.

(** The registry holds exactly the calls in flight. *)
Record control_inv (calls : list ToolCall) (s : control_state) : Prop := {
  ci_len : length (cs_phase s) = length calls;
  ci_reg : forall id i, cc_cancels (cs_reg s) !! id = Some i <->
    exists c, calls !! i = Some c /\ tc_ID c = id /\ cs_phase s !! i = Some InFlight;
}.

Definition distinct_ids (calls : list ToolCall) : Prop := NoDup (tc_ID <$> calls).

Lemma distinct_ids_inj calls i j c d :
  distinct_ids calls -> calls !! i = Some c -> calls !! j = Some d -> tc_ID c = tc_ID d -> i = j.
Proof.
  intros Hnd Hi Hj Heq. eapply (NoDup_lookup _ _ _ (tc_ID c) Hnd); rewrite list_lookup_fmap.
  - by rewrite Hi.
  - by rewrite Hj, Heq.
Qed.

Lemma control_do_inv calls s op : distinct_ids calls -> control_inv calls s -> control_inv calls (control_do calls s op).
Proof.
  intros Hnd [Hlen Hreg]. destruct op as [i|i|id]; [| |by split].
  - simpl. destruct (calls !! i) as [c|] eqn:Ec; [|by split]. destruct (cs_phase s !! i) as [[]|] eqn:Ep; try by split.
    split; simpl; [by rewrite length_insert|]. intros id j. destruct (decide (id = tc_ID c)) as [->|Hne].
    + rewrite lookup_insert_eq. split.
      * intros [= <-]. exists c. split; [done|]. split; [done|]. apply list_lookup_insert_eq. by eapply lookup_lt_Some.
      * intros (d & Hd & Hid & _). f_equal. by eapply distinct_ids_inj.
    + rewrite lookup_insert_ne by done. rewrite Hreg. split; intros (d & Hd & Hid & Hp); exists d;
        (split; [done|]; split; [done|]); (destruct (decide (i = j)) as [->|Hij]; [congruence|]);
        by rewrite list_lookup_insert_ne in *.
  - simpl. destruct (calls !! i) as [c|] eqn:Ec; [|by split]. destruct (cs_phase s !! i) as [[]|] eqn:Ep; try by split.
    split; simpl; [by rewrite length_insert|]. intros id j. destruct (decide (id = tc_ID c)) as [->|Hne].
    + rewrite lookup_delete_eq. split; [done|]. intros (d & Hd & Hid & Hp). exfalso.
      assert (i = j) as <- by by eapply distinct_ids_inj.
      rewrite list_lookup_insert_eq in Hp by by eapply lookup_lt_Some. done.
    + rewrite lookup_delete_ne by done. rewrite Hreg. split; intros (d & Hd & Hid & Hp); exists d;
        (split; [done|]; split; [done|]); (destruct (decide (i = j)) as [->|Hij]; [congruence|]);
        by rewrite list_lookup_insert_ne in *.
Qed.

Lemma control_run_inv calls ops : distinct_ids calls -> control_inv calls (control_run calls ops).
Proof.
  intros Hnd. unfold control_run. induction ops as [|op ops IH] using rev_ind.
  - split; simpl; [apply length_replicate|]. intros id i. rewrite lookup_empty. split; [done|].
    intros (c & _ & _ & Hp). by apply lookup_replicate in Hp as [? _].
  - rewrite foldl_app. by apply control_do_inv.
Qed.

(** With distinct call IDs, a control hits what it names.  At any point
    of any run, cancelling an ID cancels the call in flight that has it and
    nothing else, an ID whose call has not begun or has ended cancels
    nothing, and the empty ID cancels exactly the calls in flight. *)
Theorem cancel_hits_named calls ops :
  distinct_ids calls ->
  let s := control_run calls ops in
  (forall id i, id <> "" -> (i ∈ cc_cancel (cs_reg s) id <->
     exists c, calls !! i = Some c /\ tc_ID c = id /\ cs_phase s !! i = Some InFlight))
  /\ (forall i, i ∈ cc_cancel (cs_reg s) "" <-> cs_phase s !! i = Some InFlight).
Proof.
  intros Hnd s. destruct (control_run_inv calls ops Hnd) as [Hlen Hreg]. fold s in Hlen, Hreg. split.
  - intros id i Hne. unfold cc_cancel. destruct (String.eqb_spec id ""); [done|]. rewrite <- Hreg.
    destruct (cc_cancels (cs_reg s) !! id) as [j|]; [|split; [by intros ?%elem_of_nil | done]].
    rewrite list_elem_of_singleton. split; congruence.
  - intros i. unfold cc_cancel. simpl. rewrite list_elem_of_fmap. split.
    + intros ([id j] & -> & Hin). apply elem_of_map_to_list in Hin. simpl. by apply Hreg in Hin as (c & _ & _ & ?).
    + intros Hp. destruct (lookup_lt_is_Some_2 calls i) as [c Hc].
      { rewrite <- Hlen. by eapply lookup_lt_Some. }
      exists (tc_ID c, i). split; [done|]. apply elem_of_map_to_list, Hreg. by exists c.
Qed.

Definition call_id (id : string) : ToolCall := {| tc_ID := id; tc_Name := "t"; tc_Args := "" |}.

Lemma cancel_hits_named_witness :
  1 ∈ cc_cancel (cs_reg (control_run [call_id "a"; call_id "b"] [Begin 0; Begin 1; End 0])) "b"
  /\ 0 ∉ cc_cancel (cs_reg (control_run [call_id "a"; call_id "b"] [Begin 0; Begin 1; End 0])) "".
Proof.
  destruct (cancel_hits_named [call_id "a"; call_id "b"] [Begin 0; Begin 1; End 0]) as [H1 H2].
  { apply (bool_decide_unpack _). vm_compute. exact I. }
  split.
  - apply H1; [discriminate|]. exists (call_id "b"). by repeat split.
  - intros H. apply H2 in H. discriminate.
Defined.

(** Two calls of one step with the same ID share an entry: the first to end
    removes it, and the other can no longer be cancelled, by its ID or by a
    cancel of everything in flight. *)
Lemma duplicate_ids_escape_cancel :
  let s := control_run [call_id "a"; call_id "a"] [Begin 0; Begin 1; End 0] in
  cs_phase s !! 1 = Some InFlight /\ cc_cancel (cs_reg s) "a" = [] /\ cc_cancel (cs_reg s) "" = [].
Proof. vm_compute. done. Qed.
