(* ===== verification/FuncSource.v ===== *)
(** * Host-local tools: src/func_source.go, src/plan.go

    [FuncSource] serves Go functions as tools; [PlanTool] is the one tool a
    model publishes its plan with, and the stage that keeps the plan in view.
    Both are implementations of the ToolSource contract of MultiSource.v.
    mcpkit's schema generation and encoding/json's conversions of arguments
    are parameters of the constructors that use them. *)

From S2P Require Import Prelude GoStr Errors Json Provider TreeBudget Middleware Events MultiSource Compaction StepStage Dispatch.
Local Open Scope eff_scope.

Section FuncSource.
Context {Ctx W E : Type}.

Definition handler := Ctx -> tool_args -> eff W E call_out.

Record FuncSource := { fn_defs : list ToolDef; fn_handlers : gmap string handler }.

Definition NewFuncSource : FuncSource := {| fn_defs := []; fn_handlers := ∅ |}.

(** An option changes the definition. *)
Definition FuncOption := ToolDef -> ToolDef.

Definition ReadOnly : FuncOption := fun d =>
  {| td_Name := td_Name d; td_Description := td_Description d;
     td_Annotations := <["readOnlyHint" := AnyBool true]> (td_Annotations d) |}.

(** [funcToolDef]; [schema] is the outcome of generating and parsing the
    input schema. *)
Definition funcToolDef (name description : string) (schema : option error) (opts : list FuncOption) : result ToolDef :=
  match schema with
  | Some e => inl (wrap_error ("agent: schema generation for " +:+ go_quote name +:+ ": ") e)
  | None => inr (fold_left (fun d o => o d) opts
                   {| td_Name := name; td_Description := description; td_Annotations := ∅ |})
  end.

Definition AddToolFunc (s : FuncSource) (def : ToolDef) (fn : handler) : option error * FuncSource :=
  match fn_handlers s !! td_Name def with
  | Some _ => (Some (EText ("agent: tool " +:+ go_quote (td_Name def) +:+ " already registered")), s)
  | None => (None, {| fn_defs := fn_defs s ++ [def]; fn_handlers := <[td_Name def := fn]> (fn_handlers s) |})
  end.

Definition ok_result (text : string) : ToolResult :=
  {| tr_Content := [{| c_Type := "text"; c_Text := text |}]; tr_IsError := false; tr_StructuredContent := None |}.

(** The handler [AddFunc] registers: [encode] and [decode] are the round
    trip through JSON into the input struct. *)
Definition typed_handler {In : Type} (name : string) (encode : tool_args -> result RawJSON)
    (decode : RawJSON -> result In) (fn : Ctx -> In -> eff W E (result string)) : handler :=
  fun ctx args =>
    match encode args with
    | inl e => eff_ret (None, Some (wrap_error ("agent: encode args for " +:+ go_quote name +:+ ": ") e))
    | inr raw =>
        match decode raw with
        | inl e => eff_ret (Some (errorToolResult ("invalid arguments: " +:+ error_text e)), None)
        | inr inp =>
            let* r := fn ctx inp in
            match r with
            | inl e => eff_ret (Some (errorToolResult (error_text e)), None)
            | inr out => eff_ret (Some (ok_result out), None)
            end
        end
    end.

Definition AddFunc {In : Type} (s : FuncSource) (name description : string) (schema : option error)
    (encode : tool_args -> result RawJSON) (decode : RawJSON -> result In)
    (fn : Ctx -> In -> eff W E (result string)) (opts : list FuncOption) : option error * FuncSource :=
  match funcToolDef name description schema opts with
  | inl e => (Some e, s)
  | inr def => AddToolFunc s def (typed_handler name encode decode fn)
  end.

Definition func_Call (s : FuncSource) (ctx : Ctx) (name : string) (args : tool_args) : eff W E call_out :=
  match fn_handlers s !! name with
  | None => eff_ret (None, Some (wrap_sentinel ErrUnknownTool (": " +:+ go_quote name)))
  | Some fn => fn ctx args
  end.

Definition func_source (s : FuncSource) : ToolSource Ctx W E :=
  {| src_Tools := fun _ => eff_ret (inr (fn_defs s)); src_Call := func_Call s |}.

(** ** The contract *)

(** Definitions and handlers have the same names, each once. *)
Record func_inv (s : FuncSource) : Prop := {
  fi_nodup : NoDup (names_of (fn_defs s));
  fi_handlers : forall name, is_Some (fn_handlers s !! name) <-> name ∈ names_of (fn_defs s);
}.

Lemma new_func_inv : func_inv NewFuncSource.
Proof.
  split; simpl; [constructor|]. intros name. rewrite lookup_empty. split; [by intros [? ?] | by intros ?%elem_of_nil].
Qed.

Lemma AddToolFunc_inv s def fn : func_inv s -> func_inv (snd (AddToolFunc s def fn)).
Proof.
  intros [Hnd Hh]. unfold AddToolFunc. destruct (fn_handlers s !! td_Name def) eqn:El; [by split|].
  assert (Hnew : td_Name def ∉ names_of (fn_defs s)). { rewrite <- Hh, El. by intros [? ?]. }
  split; simpl; unfold names_of in *; rewrite fmap_app; simpl.
  - apply NoDup_app. split; [done|]. split; [|apply NoDup_singleton].
    intros x Hx ->%list_elem_of_singleton. done.
  - intros name. rewrite elem_of_app, list_elem_of_singleton. destruct (decide (name = td_Name def)) as [->|Hne].
    + rewrite lookup_insert_eq. split; [by right | by eexists].
    + rewrite lookup_insert_ne, Hh by done. split; [by left | by intros [?|?]].
Qed.

Lemma AddFunc_inv {In} s name description schema encode (decode : RawJSON -> result In) fn opts :
  func_inv s -> func_inv (snd (AddFunc s name description schema encode decode fn opts)).
Proof. intros Hs. unfold AddFunc. destruct (funcToolDef _ _ _ _); [done | by apply AddToolFunc_inv]. Qed.

(** Any source built with [AddToolFunc]. *)
Definition build (regs : list (ToolDef * handler)) : FuncSource :=
  fold_left (fun s r => snd (AddToolFunc s r.1 r.2)) regs NewFuncSource.

Lemma build_inv regs : func_inv (build regs).
Proof.
  unfold build. assert (H : func_inv NewFuncSource) by apply new_func_inv. revert H. generalize NewFuncSource.
  induction regs as [|r regs IH]; intros s Hs; [done|]. simpl. by apply IH, AddToolFunc_inv.
Qed.
End FuncSource.
Arguments FuncSource : clear implicits.

Section Registered.
Context {Ctx W E : Type}.
Implicit Types (regs : list (ToolDef * @handler Ctx W E)).

(** The first registration of a name. *)
Fixpoint first_registered regs (name : string) : option (@handler Ctx W E) :=
  match regs with
  | [] => None
  | (d, h) :: regs => if String.eqb (td_Name d) name then Some h else first_registered regs name
  end.

Lemma first_registered_snoc regs d h name :
  first_registered (regs ++ [(d, h)]) name
  = match first_registered regs name with
    | Some h' => Some h'
    | None => if String.eqb (td_Name d) name then Some h else None
    end.
Proof. induction regs as [|[d' h'] regs IH]; simpl; [done|]. by destruct (String.eqb (td_Name d') name). Qed.

Lemma build_snoc regs r : build (regs ++ [r]) = snd (AddToolFunc (build regs) r.1 r.2).
Proof. unfold build. by rewrite fold_left_app. Qed.

Lemma build_handlers regs name : fn_handlers (build regs) !! name = first_registered regs name.
Proof.
  revert name. induction regs as [|[d h] regs IH] using rev_ind; intros name; [done|].
  rewrite build_snoc, first_registered_snoc, <- IH. unfold AddToolFunc. simpl.
  destruct (fn_handlers (build regs) !! td_Name d) as [h'|] eqn:Ed; simpl.
  - destruct (fn_handlers (build regs) !! name) eqn:En; [done|].
    destruct (String.eqb_spec (td_Name d) name) as [Heq|]; [|done]. rewrite Heq in Ed. congruence.
  - destruct (String.eqb_spec (td_Name d) name) as [<-|Hne].
    + by rewrite lookup_insert_eq, Ed.
    + rewrite lookup_insert_ne by done. by destruct (fn_handlers (build regs) !! name).
Qed.

(** A source of Go functions, however it was built: each listed name
    is listed once and its calls go to the first function registered under
    it, every other name is reported as unknown, and a second registration
    of a name is refused and changes nothing. *)
Theorem func_source_serves regs ctx name args w :
  let s := build regs in
  src_Call (func_source s) ctx name args w
    = match first_registered regs name with
      | Some fn => fn ctx args w
      | None => ((None, Some (wrap_sentinel ErrUnknownTool (": " +:+ go_quote name))), [], w)
      end
  /\ NoDup (names_of (fn_defs s))
  /\ (name ∈ names_of (fn_defs s) <-> is_Some (first_registered regs name))
  /\ (forall def fn, is_Some (first_registered regs (td_Name def)) ->
        exists e, AddToolFunc s def fn = (Some e, s)).
Proof.
  cbv zeta. destruct (build_inv regs) as [Hnd Hh]. split; [|split; [done|split]].
  - simpl. unfold func_Call. rewrite build_handlers. by destruct (first_registered regs name).
  - by rewrite <- Hh, build_handlers.
  - intros def fn [fn' Hf]. unfold AddToolFunc. rewrite build_handlers, Hf. by eexists.
Qed.

(** The contract of a source, for functions that do not themselves report
    an unknown tool. *)
#[export] Instance func_source_lawful regs :
  Forall (fun r => forall ctx args w e, snd (eff_value (r.2 ctx args) w) = Some e -> error_is ErrUnknownTool e = false) regs ->
  LawfulSource (func_source (build regs)) (fn_defs (build regs)).
Proof.
  intros Hall. destruct (build_inv regs) as [Hnd Hh]. split; [done|done|].
  intros ctx name args w e Hin He. apply Hh in Hin as [fn Hfn].
  assert (Hc : src_Call (func_source (build regs)) ctx name args = fn ctx args)
    by (simpl; unfold func_Call; case_match eqn:Hq; pose proof (eq_trans (eq_sym Hq) Hfn); by simplify_eq).
  rewrite Hc in He. rewrite build_handlers in Hfn. clear Hnd Hh Hc. revert Hfn.
  induction Hall as [|[d h] regs' Hr _ IH]; simpl; [done|].
  destruct (String.eqb (td_Name d) name); [|exact IH]. intros [= ->]. by eapply Hr.
Qed.
End Registered.

(** ** The plan tool *)

Definition PlanToolName : string := "update_plan".

Record PlanTool := { pt_latest : option Plan }.

Definition NewPlanTool : PlanTool := {| pt_latest := None |}.

(** [Latest] copies the plan and its steps, so what a caller does with them
    does not reach the tool. *)
Definition Latest (t : PlanTool) : option Plan := pt_latest t.

Definition plan_done (steps : list PlanStep) : nat :=
  length (filter (fun s => ps_Status s = PlanCompleted) steps).

(** The last step in progress. *)
Definition plan_current (steps : list PlanStep) : string :=
  foldl (fun cur s => if String.eqb (ps_Status s) PlanInProgress then ps_Step s else cur) "" steps.

Definition plan_ack (p : Plan) : string :=
  "plan updated: " +:+ itoa (Z.of_nat (plan_done (plan_Steps p))) +:+ " of "
  +:+ itoa (Z.of_nat (length (plan_Steps p))) +:+ " steps done"
  +:+ (if String.eqb (plan_current (plan_Steps p)) "" then "" else "; now: " +:+ plan_current (plan_Steps p)).

Section PlanTool.
(** encoding/json: the object of the two arguments (nil when missing)
    encoded, and a plan decoded. *)
Variable marshal_plan : option any -> option any -> result RawJSON.
Variable unmarshal_plan : RawJSON -> result Plan.

Definition planFromArgs (args : tool_args) : result Plan :=
  match marshal_plan (args !! "plan") (args !! "explanation") with
  | inl e => inl e
  | inr raw =>
      match unmarshal_plan raw with
      | inl e => inl (wrap_error "the plan isn't a list of {step, status}: " e)
      | inr p => inr p
      end
  end.

(** [Call], in a context that can emit ([step] of the call) or cannot. *)
Definition plan_Call (t : PlanTool) (emit : option Z) (name : string) (args : tool_args)
  : call_out * list Event * PlanTool :=
  if negb (String.eqb name PlanToolName) then
    ((None, Some (wrap_sentinel ErrUnknownTool (": " +:+ go_quote name))), [], t)
  else
    let refuse e := ((Some (errorToolResult ("plan not updated: " +:+ error_text e)), None), [], t) in
    match planFromArgs args with
    | inl e => refuse e
    | inr p =>
        match Plan_Validate p with
        | Some e => refuse e
        | None => ((Some (ok_result (plan_ack p)), None),
                   match emit with Some step => [EventPlan step p] | None => [] end,
                   {| pt_latest := Some p |})
        end
    end.

Definition plan_in_view (msgs : list Message) : bool :=
  existsb (fun m => existsb (fun c => String.eqb (tc_Name c) PlanToolName) (m_ToolCalls m)) msgs.

(** The stage reads the tool's plan from the world. *)
Definition plan_StepStage {Ctx W} (tool : W -> PlanTool) : StepStage Ctx W :=
  {| ss_Name := "agent.plan";
     ss_Scope := ScopeRequest;
     ss_Run := fun _ _ v w =>
       match Latest (tool w) with
       | None => (inr v, [], w)
       | Some p =>
           if plan_in_view (sv_Messages v) then (inr v, [], w)
           else (inr (set_messages v (sv_Messages v ++ [text_message RoleSystem
                   ("Your current plan (from update_plan):" +:+ newline +:+ Plan_String p)])), [], w)
       end |}.

Definition plan_run (calls : list (option Z * string * tool_args)) : PlanTool * list Event :=
  foldl (fun '(t, evs) '(emit, name, args) =>
    let '(_, evs', t') := plan_Call t emit name args in (t', evs ++ evs')) (NewPlanTool, []) calls.

(** Over any sequence of calls, the plan the tool holds is the last
    plan it accepted and is valid, each accepted plan was shown once to the
    surfaces of a call that can emit, and nothing invalid ever was: the
    plans emitted are valid, and the latest of them is the tool's plan when
    every call could emit. *)
Theorem plan_tool_holds_valid calls :
  let '(t, evs) := plan_run calls in
  (forall p, Latest t = Some p -> Plan_Validate p = None)
  /\ (forall step p, EventPlan step p ∈ evs -> Plan_Validate p = None)
  /\ (Forall (fun c => is_Some c.1.1) calls ->
      Latest t = (last evs) ≫= (fun e => match e with EventPlan _ p => Some p | _ => None end)).
Proof.
  unfold plan_run. induction calls as [|[[emit name] args] calls IH] using rev_ind.
  { simpl. split; [done|]. split; [by intros ? ? ?%elem_of_nil | done]. }
  rewrite foldl_app. simpl. destruct (foldl _ _ calls) as [t evs]. destruct IH as (IH1 & IH2 & IH3).
  unfold plan_Call. destruct (negb (String.eqb name PlanToolName)); simpl.
  { rewrite app_nil_r. split; [done|]. split; [done|]. intros [? _]%Forall_app. by apply IH3. }
  destruct (planFromArgs args) as [e|p]; simpl.
  { rewrite app_nil_r. split; [done|]. split; [done|]. intros [? _]%Forall_app. by apply IH3. }
  destruct (Plan_Validate p) as [e|] eqn:Ev; simpl.
  { rewrite app_nil_r. split; [done|]. split; [done|]. intros [? _]%Forall_app. by apply IH3. }
  split; [by intros ? [= <-]|]. split.
  - intros step p'. rewrite elem_of_app. intros [?|Hin]; [by eapply IH2|].
    destruct emit as [z|]; [|by apply elem_of_nil in Hin]. apply list_elem_of_singleton in Hin. by simplify_eq.
  - intros [_ Hc]%Forall_app. apply Forall_singleton in Hc as [z Hz]. simpl in Hz. subst emit.
    by rewrite last_snoc.
Qed.
End PlanTool.
