(* ===== verification/Stages.v ===== *)
(** * Event pipelines: src/stages.go

    The stages an event passes before a policy sees it: filters, transforms
    and coalescing windows, chained by a pipeline.  [stage] is unexported with
    three implementations, so it is an inductive type.  A window keeps one
    bucket per key in a map and the keys in order of opening; its contract is
    a list of bursts, each with every event it folds, and the map-and-order
    representation refines it.  A combiner may panic ([ShallowMergeJSON]
    assigns into a nil map when the older payload is null): [merge] and what
    calls it return an option, [None] for the panic. *)

From S2P Require Import Prelude GoStr Errors Json Provider Triggers.
Local Open Scope Z_scope.

Inductive WindowStrategy := WindowLastWins | WindowMerge | WindowDebounce | WindowOther (s : string).

#[export] Instance WindowStrategy_eq_dec : EqDecision WindowStrategy.
Proof. solve_decision. Defined.

Section Stages.
Context {E : Type}.

Record bucket := { bk_acc : E; bk_deadline : Time }.

Record windowStage := {
  ws_d : Z;
  ws_strategy : WindowStrategy;
  ws_key : E -> string;
  ws_merge : option (E -> E -> option E);
  ws_buckets : gmap string bucket;
  ws_order : list string;
}.

Definition newWindowStage (d : Z) (strategy : WindowStrategy) (key : E -> string)
    (merge : option (E -> E -> option E)) : windowStage :=
  {| ws_d := d; ws_strategy := strategy; ws_key := key; ws_merge := merge;
     ws_buckets := ∅; ws_order := [] |}.

Definition ws_with (s : windowStage) buckets order : windowStage :=
  {| ws_d := ws_d s; ws_strategy := ws_strategy s; ws_key := ws_key s; ws_merge := ws_merge s;
     ws_buckets := buckets; ws_order := order |}.

(** What a bucket holds after one more event. *)
Definition coalesce (s : windowStage) (acc ev : E) : option E :=
  match ws_strategy s, ws_merge s with
  | WindowMerge, Some merge => merge acc ev
  | _, _ => Some ev
  end.

(** A window releases nothing when an event arrives. *)
Definition window_Push (s : windowStage) (now : Time) (ev : E) : option (list E * windowStage) :=
  let k := ws_key s ev in
  match ws_buckets s !! k with
  | None =>
      Some ([], ws_with s (<[k := {| bk_acc := ev; bk_deadline := now + ws_d s |}]> (ws_buckets s))
                  (ws_order s ++ [k]))
  | Some b =>
      match coalesce s (bk_acc b) ev with
      | None => None
      | Some acc =>
          let deadline := if decide (ws_strategy s = WindowDebounce) then now + ws_d s else bk_deadline b in
          Some ([], ws_with s (<[k := {| bk_acc := acc; bk_deadline := deadline |}]> (ws_buckets s)) (ws_order s))
      end
  end.

(** The loop of Flush over the keys in order: released events, buckets left,
    keys left.  A key without a bucket is a nil pointer. *)
Fixpoint flush_keys (now : Time) (buckets : gmap string bucket) (order : list string)
    : option (list E * gmap string bucket * list string) :=
  match order with
  | [] => Some ([], buckets, [])
  | k :: order =>
      match buckets !! k with
      | None => None
      | Some b =>
          if bk_deadline b <=? now then
            '(out, buckets, remaining) ← flush_keys now (delete k buckets) order;
            Some (bk_acc b :: out, buckets, remaining)
          else
            '(out, buckets, remaining) ← flush_keys now buckets order;
            Some (out, buckets, k :: remaining)
      end
  end.

Definition window_Flush (s : windowStage) (now : Time) : option (list E * windowStage) :=
  '(out, buckets, remaining) ← flush_keys now (ws_buckets s) (ws_order s);
  Some (out, ws_with s buckets remaining).

Inductive stage :=
| FilterStage (fn : E -> bool)
| TransformStage (fn : E -> E * bool)
| WindowStage (w : windowStage).

Definition stage_Push (s : stage) (now : Time) (ev : E) : option (list E * stage) :=
  match s with
  | FilterStage fn => Some (if fn ev then [ev] else [], s)
  | TransformStage fn => let '(out, keep) := fn ev in Some (if keep then [out] else [], s)
  | WindowStage w => '(out, w) ← window_Push w now ev; Some (out, WindowStage w)
  end.

Definition stage_Flush (s : stage) (now : Time) : option (list E * stage) :=
  match s with
  | WindowStage w => '(out, w) ← window_Flush w now; Some (out, WindowStage w)
  | _ => Some ([], s)
  end.

(** Every event of a list through one stage. *)
Fixpoint push_all (s : stage) (now : Time) (evs : list E) : option (list E * stage) :=
  match evs with
  | [] => Some ([], s)
  | ev :: evs =>
      '(out, s) ← stage_Push s now ev;
      '(rest, s) ← push_all s now evs;
      Some (out ++ rest, s)
  end.

(** A list of events through the stages in order.  Push stops at the first
    stage that releases nothing, which pushing an empty list does too. *)
Fixpoint cascade (stages : list stage) (now : Time) (evs : list E) : option (list E * list stage) :=
  match stages with
  | [] => Some (evs, [])
  | s :: stages =>
      '(next, s) ← push_all s now evs;
      '(out, stages) ← cascade stages now next;
      Some (out, s :: stages)
  end.

Definition pipeline_Push (stages : list stage) (now : Time) (ev : E) : option (list E * list stage) :=
  cascade stages now [ev].

(** Each event one stage flushed, through the stages after it. *)
Fixpoint cascade_each (later : list stage) (now : Time) (evs : list E) : option (list E * list stage) :=
  match evs with
  | [] => Some ([], later)
  | ev :: evs =>
      '(out, later) ← cascade later now [ev];
      '(rest, later) ← cascade_each later now evs;
      Some (out ++ rest, later)
  end.

Fixpoint flush_stages (fuel : nat) (stages : list stage) (now : Time) : option (list E * list stage) :=
  match fuel, stages with
  | S fuel, s :: later =>
      '(flushed, s) ← stage_Flush s now;
      '(out, later) ← cascade_each later now flushed;
      '(rest, later) ← flush_stages fuel later now;
      Some (out ++ rest, s :: later)
  | _, _ => Some ([], stages)
  end.

Definition pipeline_Flush (stages : list stage) (now : Time) : option (list E * list stage) :=
  flush_stages (length stages) stages now.
End Stages.
Arguments bucket : clear implicits.
Arguments windowStage : clear implicits.
Arguments stage : clear implicits.

(** ** Payload adapters

    Decoding and encoding of payloads (mcpkit's Bind, encoding/json) are
    parameters: [None] is their error. *)
Definition with_data (ev : IncomingEvent) (raw : RawJSON) : IncomingEvent :=
  {| ie_Server := ie_Server ev; ie_Name := ie_Name ev; ie_ID := ie_ID ev; ie_Cursor := ie_Cursor ev;
     ie_Time := ie_Time ev; ie_Data := raw |}.

Section Typed.
Context {T : Type} (bind : RawJSON -> option T) (marshal : T -> option RawJSON).

Definition TypedFilter (fn : T -> bool) (ev : IncomingEvent) : bool :=
  match bind (ie_Data ev) with
  | None => false
  | Some v => fn v
  end.

Definition TypedTransform (fn : T -> T * bool) (ev : IncomingEvent) : IncomingEvent * bool :=
  match bind (ie_Data ev) with
  | None => (ev, true)
  | Some v =>
      let '(out, keep) := fn v in
      if keep then
        match marshal out with
        | None => (ev, true)
        | Some raw => (with_data ev raw, true)
        end
      else (ev, false)
  end.

Definition MergeWith (merge : T -> T -> T) (acc next : IncomingEvent) : IncomingEvent :=
  match bind (ie_Data acc), bind (ie_Data next) with
  | Some a, Some n =>
      match marshal (merge a n) with
      | None => next
      | Some raw => with_data next raw
      end
  | _, _ => next
  end.
End Typed.

(** A Go map that decoding fills: [None] is the nil map that a JSON null
    leaves.  Assigning into a nil map panics. *)
Definition go_object : Type := option (gmap string RawJSON).

Definition assign_all (a n : go_object) : option go_object :=
  match a with
  | Some a => Some (Some (default ∅ n ∪ a))
  | None => if decide (default ∅ n = ∅) then Some None else None
  end.

Definition ShallowMergeJSON (bind : RawJSON -> option go_object) (marshal : go_object -> option RawJSON)
    (acc next : IncomingEvent) : option IncomingEvent :=
  match bind (ie_Data acc), bind (ie_Data next) with
  | Some a, Some n =>
      a ← assign_all a n;
      match marshal a with
      | None => Some next
      | Some raw => Some (with_data next raw)
      end
  | _, _ => Some next
  end.

(** ** What a window promises

    A burst is the events of one key from the one that opened the window on,
    each with its time of arrival.  The contract keeps the open bursts in
    order of opening and releases a burst when its window has expired. *)
Section Bursts.
Context {E : Type} (d : Z) (strategy : WindowStrategy) (key : E -> string)
  (merge : option (E -> E -> option E)) (m : E -> E -> E).

Record burst := { bu_key : string; bu_first : Time * E; bu_later : list (Time * E) }.

Definition burst_events (b : burst) : list E := snd <$> (bu_first b :: bu_later b).

Definition last_of {A} (x : A) (l : list A) : A := default x (last l).

(** What the model sees of a burst, and when. *)
Definition burst_value (b : burst) : E :=
  match strategy, merge with
  | WindowMerge, Some _ => foldl m (bu_first b).2 (snd <$> bu_later b)
  | _, _ => (last_of (bu_first b) (bu_later b)).2
  end.

Definition burst_deadline (b : burst) : Time :=
  match strategy with
  | WindowDebounce => (last_of (bu_first b) (bu_later b)).1 + d
  | _ => (bu_first b).1 + d
  end.

Definition open_burst (now : Time) (ev : E) : burst :=
  {| bu_key := key ev; bu_first := (now, ev); bu_later := [] |}.

Definition extend (now : Time) (ev : E) (b : burst) : burst :=
  {| bu_key := bu_key b; bu_first := bu_first b; bu_later := bu_later b ++ [(now, ev)] |}.

Fixpoint spec_Push (now : Time) (ev : E) (l : list burst) : list burst :=
  match l with
  | [] => [open_burst now ev]
  | b :: l => if decide (bu_key b = key ev) then extend now ev b :: l else b :: spec_Push now ev l
  end.

Definition expired (now : Time) (b : burst) : bool := burst_deadline b <=? now.

Definition spec_Flush (now : Time) (l : list burst) : list burst * list burst :=
  (filter (fun b => expired now b = true) l, filter (fun b => expired now b = false) l).

Inductive window_op := OpPush (now : Time) (ev : E) | OpFlush (now : Time).

Fixpoint window_run (s : windowStage E) (ops : list window_op) : option (list (list E) * windowStage E) :=
  match ops with
  | [] => Some ([], s)
  | OpPush now ev :: ops => '(_, s) ← window_Push s now ev; window_run s ops
  | OpFlush now :: ops =>
      '(out, s) ← window_Flush s now;
      '(outs, s) ← window_run s ops;
      Some (out :: outs, s)
  end.

Fixpoint spec_run (l : list burst) (ops : list window_op) : list (list burst) * list burst :=
  match ops with
  | [] => ([], l)
  | OpPush now ev :: ops => spec_run (spec_Push now ev l) ops
  | OpFlush now :: ops =>
      let '(out, l) := spec_Flush now l in
      let '(outs, l) := spec_run l ops in (out :: outs, l)
  end.

(** The values released at each flush. *)
Definition values_of (outs : list (list burst)) : list (list E) := map (map burst_value) outs.

Definition pushed (ops : list window_op) : list E :=
  omap (fun op => match op with OpPush _ ev => Some ev | OpFlush _ => None end) ops.

(** ** The representation *)
Definition bucket_of (b : burst) : bucket E :=
  {| bk_acc := burst_value b; bk_deadline := burst_deadline b |}.

Record window_rep (s : windowStage E) (l : list burst) : Prop := {
  wr_d : ws_d s = d;
  wr_strategy : ws_strategy s = strategy;
  wr_key : ws_key s = key;
  wr_merge : ws_merge s = merge;
  wr_order : ws_order s = bu_key <$> l;
  wr_nodup : NoDup (bu_key <$> l);
  wr_some k b : ws_buckets s !! k = Some b -> exists x, x ∈ l /\ bu_key x = k /\ b = bucket_of x;
  wr_all x : x ∈ l -> ws_buckets s !! bu_key x = Some (bucket_of x);
}.

Lemma new_window_rep : window_rep (newWindowStage d strategy key merge) [].
Proof. split; simpl; auto using NoDup_nil_2; set_solver. Qed.

Lemma last_of_snoc {A} (x y : A) l : last_of x (l ++ [y]) = y.
Proof. unfold last_of. by rewrite last_snoc. Qed.

Lemma extend_deadline now ev b :
  burst_deadline (extend now ev b) =
  if decide (strategy = WindowDebounce) then now + d else burst_deadline b.
Proof.
  unfold burst_deadline, extend; simpl. rewrite last_of_snoc.
  destruct strategy; reflexivity.
Qed.

Hypothesis merge_total : forall f, merge = Some f -> forall a e, f a e = Some (m a e).

Lemma coalesce_extend s now ev b :
  ws_strategy s = strategy -> ws_merge s = merge ->
  coalesce s (burst_value b) ev = Some (burst_value (extend now ev b)).
Proof.
  intros Hs Hm. unfold coalesce, burst_value, extend; simpl. rewrite Hs, Hm, last_of_snoc.
  destruct strategy, merge eqn:?; simpl; try done.
  rewrite fmap_app, foldl_app. simpl. eauto.
Qed.

Lemma spec_Push_fresh now ev l :
  key ev ∉ bu_key <$> l -> spec_Push now ev l = l ++ [open_burst now ev].
Proof.
  induction l as [|b l IH]; [done|]. intros H. simpl in *.
  apply not_elem_of_cons in H as [Hne H]. rewrite decide_False by congruence. f_equal; auto.
Qed.

Lemma spec_Push_keys now ev l :
  key ev ∈ bu_key <$> l -> bu_key <$> spec_Push now ev l = bu_key <$> l.
Proof.
  induction l as [|b l IH]; simpl; [set_solver|].
  intros H. case_decide as Hk; simpl; [done|]. f_equal. apply IH. set_solver.
Qed.

Lemma spec_Push_elem now ev l x :
  NoDup (bu_key <$> l) -> key ev ∈ bu_key <$> l ->
  x ∈ spec_Push now ev l <->
  (x ∈ l /\ bu_key x <> key ev) \/ exists b, b ∈ l /\ bu_key b = key ev /\ x = extend now ev b.
Proof.
  induction l as [|b l IH]; simpl; [set_solver|].
  intros [Hni Hnd]%NoDup_cons H.
  assert (forall y, y ∈ l -> bu_key y <> bu_key b) as Hne.
  { intros y Hy Heq. apply Hni. rewrite <- Heq. by apply list_elem_of_fmap_2. }
  case_decide as Hk.
  - rewrite elem_of_cons. split.
    + intros [->|Hx]; [right; set_solver|]. left. split; [set_solver|]. rewrite <- Hk. auto.
    + intros [[[->|Hx]%elem_of_cons Hb]|(b' & [->|Hb']%elem_of_cons & Hk' & ->)]; auto; try congruence.
      exfalso. apply (Hne b'); congruence.
  - rewrite elem_of_cons, IH; [|done|set_solver]. split.
    + intros [->|[[? ?]|(b' & ? & ? & ?)]]; [left; set_solver..|right; exists b'; set_solver].
    + intros [[[->|Hx]%elem_of_cons Hb]|(b' & [->|Hb']%elem_of_cons & Hk' & ->)]; auto; try congruence.
      right. right. eauto.
Qed.

Lemma window_Push_rep s l now ev :
  window_rep s l ->
  exists s', window_Push s now ev = Some ([], s') /\ window_rep s' (spec_Push now ev l).
Proof.
  intros R. unfold window_Push. rewrite (wr_key _ _ R), (wr_d _ _ R), (wr_strategy _ _ R).
  destruct (ws_buckets s !! key ev) as [b|] eqn:Hb.
  - destruct (wr_some _ _ R _ _ Hb) as (x & Hx & Hkx & ->). simpl.
    rewrite (coalesce_extend s now ev x) by apply R.
    assert (key ev ∈ bu_key <$> l) as Hin by (rewrite <- Hkx; by apply list_elem_of_fmap_2).
    eexists. split; [done|]. split; try apply R; cbn [ws_order ws_buckets ws_with].
    + rewrite spec_Push_keys by done. apply R.
    + rewrite spec_Push_keys by done. apply R.
    + intros k b [[<- <-]|[Hne Hk]]%lookup_insert_Some.
      * exists (extend now ev x). split; [apply spec_Push_elem; eauto using wr_nodup|].
        split; [done|]. unfold bucket_of. by rewrite extend_deadline.
      * destruct (wr_some _ _ R _ _ Hk) as (y & Hy & <- & ->). exists y.
        split; [apply spec_Push_elem; eauto using wr_nodup|done].
    + intros y [[Hy Hne]|(z & Hz & Hkz & ->)]%spec_Push_elem; eauto using wr_nodup.
      * rewrite lookup_insert_ne by done. by apply R.
      * cbn [bu_key extend]. rewrite Hkz, lookup_insert_eq.
        assert (z = x) as -> by (eapply (NoDup_key_eq bu_key l); eauto using wr_nodup; congruence).
        f_equal. unfold bucket_of. by rewrite extend_deadline.
  - assert (key ev ∉ bu_key <$> l) as Hni.
    { intros (x & Hk & Hx)%list_elem_of_fmap. apply (wr_all _ _ R) in Hx. congruence. }
    eexists. split; [done|]. rewrite spec_Push_fresh by done.
    split; try apply R; cbn [ws_order ws_buckets ws_with]; rewrite ?fmap_app; cbn.
    + by rewrite (wr_order _ _ R).
    + apply NoDup_app. split; [apply R|]. split; [|apply NoDup_singleton].
      intros k Hk ->%list_elem_of_singleton. done.
    + intros k b [[<- <-]|[Hne Hk]]%lookup_insert_Some.
      * exists (open_burst now ev). split; [set_solver|]. split; [done|].
        unfold bucket_of, burst_value, burst_deadline; simpl. f_equal; by destruct strategy, merge.
      * destruct (wr_some _ _ R _ _ Hk) as (y & Hy & <- & ->). exists y. set_solver.
    + intros y [Hy| ->%list_elem_of_singleton]%elem_of_app.
      * rewrite lookup_insert_ne; [by apply R|]. intros Heq. apply Hni. rewrite Heq. by apply list_elem_of_fmap_2.
      * simpl. rewrite lookup_insert_eq. f_equal.
        unfold bucket_of, burst_value, burst_deadline; simpl. f_equal; by destruct strategy, merge.
Qed.

Lemma flush_keys_rep now l buckets :
  NoDup (bu_key <$> l) ->
  (forall x, x ∈ l -> buckets !! bu_key x = Some (bucket_of x)) ->
  exists buckets', flush_keys now buckets (bu_key <$> l) =
    Some (map burst_value (spec_Flush now l).1, buckets', bu_key <$> (spec_Flush now l).2) /\
  forall k, buckets' !! k =
    if decide (k ∈ bu_key <$> (spec_Flush now l).1) then None else buckets !! k.
Proof.
  revert buckets. induction l as [|x l IH]; intros buckets Hnd Hall.
  { exists buckets. split; [done|]. intros k. by rewrite decide_False by apply not_elem_of_nil. }
  cbn [fmap list_fmap flush_keys]. apply NoDup_cons in Hnd as [Hni Hnd].
  rewrite (Hall x) by set_solver. cbn [bk_deadline bk_acc bucket_of].
  unfold spec_Flush. cbn [fst snd]. rewrite !filter_cons. fold (expired now x).
  destruct (expired now x) eqn:Hx.
  - destruct (IH (delete (bu_key x) buckets)) as (buckets' & -> & Hb); [done| |].
    { intros y Hy. rewrite lookup_delete_ne; [apply Hall; set_solver|].
      intros Heq. apply Hni. rewrite Heq. by apply list_elem_of_fmap_2. }
    rewrite decide_True, decide_False by done. exists buckets'. split; [done|].
    intros k. rewrite Hb. cbn [fst spec_Flush fmap list_fmap].
    destruct (decide (k = bu_key x)) as [->|Hne].
    + rewrite lookup_delete_eq, (decide_True (P:=bu_key x ∈ bu_key x :: _)) by set_solver. by case_decide.
    + rewrite lookup_delete_ne by done. apply decide_ext. set_solver.
  - destruct (IH buckets) as (buckets' & -> & Hb); [done|set_solver|].
    rewrite decide_False, decide_True by done. exists buckets'. split; [done|]. intros k. apply Hb.
Qed.

Lemma window_Flush_rep s l now :
  window_rep s l ->
  exists s', window_Flush s now = Some (map burst_value (spec_Flush now l).1, s') /\
             window_rep s' (spec_Flush now l).2.
Proof.
  intros R. unfold window_Flush. rewrite (wr_order _ _ R).
  destruct (flush_keys_rep now l (ws_buckets s)) as (buckets' & -> & Hb); [apply R..|].
  eexists. split; [done|]. split; try apply R; cbn [ws_order ws_buckets ws_with]; [done| | |].
  - apply (sublist_NoDup _ (bu_key <$> l)); [apply R|]. apply fmap_sublist, sublist_filter.
  - intros k b Hk. rewrite Hb in Hk. case_decide as Hd; [done|].
    destruct (wr_some _ _ R _ _ Hk) as (x & Hx & <- & ->). exists x. split; [|done].
    apply list_elem_of_filter. split; [|done]. destruct (expired now x) eqn:He; [|done].
    destruct Hd. apply list_elem_of_fmap_2, list_elem_of_filter. done.
  - intros x [He Hx]%list_elem_of_filter. rewrite Hb, decide_False; [by apply R|].
    intros (y & Hk & [Hy Hin]%list_elem_of_filter)%list_elem_of_fmap.
    assert (x = y) as -> by (eapply (NoDup_key_eq bu_key l); eauto using wr_nodup).
    congruence.
Qed.

Lemma window_run_rep s l ops :
  window_rep s l ->
  exists s', window_run s ops = Some (values_of (spec_run l ops).1, s') /\
             window_rep s' (spec_run l ops).2.
Proof.
  revert s l. induction ops as [|[now ev|now] ops IH]; intros s l R; simpl.
  - eauto.
  - destruct (window_Push_rep s l now ev R) as (s' & -> & R'). simpl. by apply IH.
  - destruct (window_Flush_rep s l now R) as (s1 & -> & R1). cbn [mbind option_bind].
    destruct (IH s1 _ R1) as (s2 & -> & R2). cbn [mbind option_bind].
    unfold spec_Flush in *. cbn [fst snd] in *.
    destruct (spec_run (filter (fun b => expired now b = false) l) ops) as [outs l'].
    eauto.
Qed.

(** The events of one key in a list of bursts, in order. *)
Definition folded (k : string) (l : list burst) : list E :=
  l ≫= (fun b => if decide (bu_key b = k) then burst_events b else []).

Lemma folded_app k l l' : folded k (l ++ l') = folded k l ++ folded k l'.
Proof. apply bind_app. Qed.

Lemma folded_fresh k l : k ∉ bu_key <$> l -> folded k l = [].
Proof.
  induction l as [|b l IH]; intros H; [done|]. unfold folded in *. csimpl in *.
  rewrite decide_False by set_solver. simpl. apply IH. set_solver.
Qed.

Lemma spec_Push_folded now ev l k :
  NoDup (bu_key <$> l) ->
  folded k (spec_Push now ev l) = folded k l ++ (if decide (key ev = k) then [ev] else []).
Proof.
  induction l as [|b l IH]; intros Hnd; [unfold folded; csimpl; by case_decide|].
  cbn [spec_Push]. apply NoDup_cons in Hnd as [Hni Hnd].
  assert (forall x (l' : list burst), folded k (x :: l') = folded k [x] ++ folded k l') as Hc
    by (intros; apply (folded_app k [_])).
  destruct (decide (bu_key b = key ev)) as [Hk|Hk].
  - rewrite (Hc b), (Hc (extend now ev b)). destruct (decide (key ev = k)) as [Heq|Hne].
    + rewrite (folded_fresh k l), !app_nil_r by (rewrite <- Heq, <- Hk; exact Hni).
      unfold folded, burst_events; csimpl. rewrite !decide_True by congruence.
      rewrite fmap_app, !app_nil_r. done.
    + assert (forall x, bu_key x = bu_key b -> folded k [x] = []) as Hs
        by (intros x Hx; unfold folded; csimpl; by rewrite decide_False by congruence).
      rewrite !Hs by done. by rewrite app_nil_r.
  - rewrite (Hc b l), (Hc b (spec_Push now ev l)), IH by done. by rewrite app_assoc.
Qed.

Lemma spec_Push_nodup now ev l : NoDup (bu_key <$> l) -> NoDup (bu_key <$> spec_Push now ev l).
Proof.
  intros Hnd. destruct (decide (key ev ∈ bu_key <$> l)) as [H|H]; [by rewrite spec_Push_keys|].
  rewrite spec_Push_fresh, fmap_app by done. csimpl. apply NoDup_app. split; [done|].
  split; [|apply NoDup_singleton]. intros k Hk ->%list_elem_of_singleton. done.
Qed.

(** A flush of bursts with distinct keys takes a key's burst whole. *)
Lemma spec_Flush_folded now l k :
  NoDup (bu_key <$> l) ->
  folded k (spec_Flush now l).1 ++ folded k (spec_Flush now l).2 = folded k l.
Proof.
  unfold spec_Flush; cbn [fst snd].
  induction l as [|b l IH]; intros Hnd; [done|].
  apply NoDup_cons in Hnd as [Hni Hnd]. rewrite !filter_cons.
  assert (forall x (l' : list burst), folded k (x :: l') = folded k [x] ++ folded k l') as Hc
    by (intros; apply (folded_app k [_])).
  destruct (expired now b) eqn:He.
  - rewrite decide_True, decide_False by done. rewrite Hc, (Hc b l), <- app_assoc, IH by done. done.
  - rewrite decide_False, decide_True by done. rewrite (Hc b), (Hc b l), <- IH by done.
    destruct (decide (bu_key b = k)) as [Hk|Hk].
    + rewrite !(folded_fresh k (filter _ l)), !app_nil_r; [done|..];
        intros (y & -> & [_ Hy]%list_elem_of_filter)%list_elem_of_fmap;
        apply Hni; rewrite Hk; by apply list_elem_of_fmap_2.
    + assert (folded k [b] = []) as -> by (unfold folded; csimpl; by rewrite decide_False).
      done.
Qed.

Lemma spec_run_folded l ops k :
  NoDup (bu_key <$> l) ->
  folded k (concat (spec_run l ops).1) ++ folded k (spec_run l ops).2 =
  folded k l ++ filter (fun ev => key ev = k) (pushed ops).
Proof.
  revert l. induction ops as [|[now ev|now] ops IH]; intros l Hnd; unfold pushed in *; csimpl.
  - by rewrite app_nil_r.
  - rewrite IH by auto using spec_Push_nodup. rewrite spec_Push_folded, filter_cons by done.
    rewrite <- app_assoc. by case_decide.
  - rewrite <- (spec_Flush_folded now l k) by done. unfold spec_Flush; cbn [fst snd].
    specialize (IH (filter (fun b => expired now b = false) l)).
    destruct (spec_run (filter (fun b => expired now b = false) l) ops) as [outs l'] eqn:Hr.
    cbn [fst snd concat] in *. rewrite folded_app, <- !app_assoc, IH; [done|].
    apply (sublist_NoDup _ (bu_key <$> l)); [done|]. apply fmap_sublist, sublist_filter.
Qed.

(** A window loses and invents nothing.  Whatever sequence of pushes and
    flushes it is driven through, it returns (no nil bucket), each flush
    releases exactly the fold of the bursts the contract says have expired,
    and per key the events of the released bursts followed by those of the
    burst still open are the events pushed with that key, each once and in
    order of arrival. *)
Theorem window_refines_bursts ops :
  exists s', window_run (newWindowStage d strategy key merge) ops =
    Some (values_of (spec_run [] ops).1, s') /\
  window_rep s' (spec_run [] ops).2 /\
  forall k, folded k (concat (spec_run [] ops).1) ++ folded k (spec_run [] ops).2 =
            filter (fun ev => key ev = k) (pushed ops).
Proof.
  destruct (window_run_rep _ _ ops new_window_rep) as (s' & Hr & R).
  exists s'. split; [done|]. split; [done|].
  intros k. apply (spec_run_folded []). apply NoDup_nil_2.
Qed.
End Bursts.
Arguments burst : clear implicits.
Arguments window_op : clear implicits.

(** ** Pipelines

    A filter in a pipeline is a guard for what comes after it: if every later
    stage keeps the property the filter establishes, nothing the pipeline
    releases lacks it, whichever window held it. *)
Section Guard.
Context {E : Type} (P : E -> Prop).

Definition keeps (s : stage E) : Prop :=
  match s with
  | FilterStage _ => True
  | TransformStage fn => forall e, P e -> (fn e).2 = true -> P (fn e).1
  | WindowStage w =>
      map_Forall (fun _ b => P (bk_acc b)) (ws_buckets w) /\
      forall f a e r, ws_merge w = Some f -> P a -> P e -> f a e = Some r -> P r
  end.

Lemma stage_Push_keeps s now ev out s' :
  keeps s -> P ev -> stage_Push s now ev = Some (out, s') -> Forall P out /\ keeps s'.
Proof.
  intros Hs He H. destruct s as [fn|fn|w]; simpl in H.
  - injection H as <- <-. split; [destruct (fn ev); auto|done].
  - destruct (fn ev) as [o k] eqn:Hf. injection H as <- <-. split; [|done].
    destruct k; [|done]. constructor; [|done]. specialize (Hs ev He). rewrite Hf in Hs. auto.
  - destruct Hs as [Hb Hm]. unfold window_Push, coalesce in H.
    repeat (case_match; simplify_eq/=); split; auto; split; auto;
      apply map_Forall_insert_2; simpl; eauto.
Qed.

Lemma flush_keys_keeps now order buckets out buckets' rest :
  map_Forall (fun _ (b : bucket E) => P (bk_acc b)) buckets ->
  flush_keys now buckets order = Some (out, buckets', rest) ->
  Forall P out /\ map_Forall (fun _ b => P (bk_acc b)) buckets'.
Proof.
  revert buckets out buckets' rest. induction order as [|k order IH]; intros buckets out buckets' rest Hb H; simpl in H.
  { by simplify_eq. }
  repeat (case_match; simplify_eq/=).
  - destruct (flush_keys now (delete k buckets) order) as [[[o b'] r]|] eqn:Hf; simplify_eq/=.
    apply IH in Hf as [Ho Hb']; [|by apply map_Forall_delete]. split; [|done].
    constructor; [|done]. by eapply (Hb k).
  - destruct (flush_keys now buckets order) as [[[o b'] r]|] eqn:Hf; simplify_eq/=. by eapply IH.
Qed.

Lemma stage_Flush_keeps s now out s' :
  keeps s -> stage_Flush s now = Some (out, s') -> Forall P out /\ keeps s'.
Proof.
  intros Hs H. destruct s as [fn|fn|w]; simpl in H; [by simplify_eq..|].
  destruct Hs as [Hb Hm]. unfold window_Flush in H.
  destruct (flush_keys now (ws_buckets w) (ws_order w)) as [[[o b'] r]|] eqn:Hf; simplify_eq/=.
  apply flush_keys_keeps in Hf as [Ho Hb']; auto.
Qed.

Lemma push_all_keeps s now evs out s' :
  keeps s -> Forall P evs -> push_all s now evs = Some (out, s') -> Forall P out /\ keeps s'.
Proof.
  intros Hs He. revert s out s' Hs. induction He as [|ev evs He _ IH]; intros s out s' Hs H; simpl in H.
  { by simplify_eq. }
  destruct (stage_Push s now ev) as [[o1 s1]|] eqn:H1; simplify_eq/=.
  destruct (push_all s1 now evs) as [[o2 s2]|] eqn:H2; simplify_eq/=.
  apply stage_Push_keeps in H1 as [Ho1 Hs1]; [|done..].
  apply IH in H2 as [Ho2 Hs2]; [|done]. split; [by apply Forall_app|done].
Qed.

Lemma cascade_keeps stages now evs out stages' :
  Forall keeps stages -> Forall P evs -> cascade stages now evs = Some (out, stages') ->
  Forall P out /\ Forall keeps stages'.
Proof.
  intros Hs. revert evs out stages'. induction Hs as [|s stages Hs _ IH]; intros evs out stages' He H; simpl in H.
  { by simplify_eq. }
  destruct (push_all s now evs) as [[next s1]|] eqn:H1; simplify_eq/=.
  destruct (cascade stages now next) as [[o2 st2]|] eqn:H2; simplify_eq/=.
  apply push_all_keeps in H1 as [Hn Hs1]; [|done..].
  apply IH in H2 as [Ho Hst]; [|done]. auto.
Qed.

Lemma cascade_each_keeps stages now evs out stages' :
  Forall keeps stages -> Forall P evs -> cascade_each stages now evs = Some (out, stages') ->
  Forall P out /\ Forall keeps stages'.
Proof.
  intros Hs He. revert stages out stages' Hs. induction He as [|ev evs He _ IH]; intros stages out stages' Hs H; simpl in H.
  { by simplify_eq. }
  destruct (cascade stages now [ev]) as [[o1 st1]|] eqn:H1; simplify_eq/=.
  destruct (cascade_each st1 now evs) as [[o2 st2]|] eqn:H2; simplify_eq/=.
  apply cascade_keeps in H1 as [Ho1 Hs1]; [|auto..].
  apply IH in H2 as [Ho2 Hs2]; [|done]. split; [by apply Forall_app|done].
Qed.

Lemma flush_stages_keeps n stages now out stages' :
  Forall keeps stages -> flush_stages n stages now = Some (out, stages') ->
  Forall P out /\ Forall keeps stages'.
Proof.
  revert stages out stages'. induction n as [|n IH]; intros stages out stages' Hs H; [by simplify_eq/=|].
  destruct stages as [|s later]; simplify_eq/=; [done|]. apply Forall_cons in Hs as [Hs Hl].
  destruct (stage_Flush s now) as [[o1 s1]|] eqn:H1; simplify_eq/=.
  destruct (cascade_each later now o1) as [[o2 l2]|] eqn:H2; simplify_eq/=.
  destruct (flush_stages n l2 now) as [[o3 l3]|] eqn:H3; simplify_eq/=.
  apply stage_Flush_keeps in H1 as [Ho1 Hs1]; [|done].
  apply cascade_each_keeps in H2 as [Ho2 Hl2]; [|done..].
  apply IH in H3 as [Ho3 Hl3]; [|done]. split; [by apply Forall_app|auto].
Qed.

(** A filter establishes its property, whatever reaches it. *)
Lemma push_all_filter fn now evs out s' :
  (forall e, fn e = true -> P e) ->
  push_all (FilterStage fn) now evs = Some (out, s') -> Forall P out /\ s' = FilterStage fn.
Proof.
  intros Hfn. revert out s'. induction evs as [|ev evs IH]; intros out s' H; simpl in H; [by simplify_eq|].
  destruct (push_all (FilterStage fn) now evs) as [[o2 s2]|] eqn:H2; simplify_eq/=.
  destruct (IH _ _ eq_refl) as [Ho ->]. split; [|done].
  apply Forall_app. split; [|done]. destruct (fn ev) eqn:?; auto.
Qed.

Definition guarded (stages : list (stage E)) : Prop :=
  exists pre fn post, stages = pre ++ FilterStage fn :: post /\
    (forall e, fn e = true -> P e) /\ Forall keeps post.

Lemma cascade_guarded stages now evs out stages' :
  guarded stages -> cascade stages now evs = Some (out, stages') -> Forall P out /\ guarded stages'.
Proof.
  intros (pre & fn & post & -> & Hfn & Hpost). revert evs out stages'.
  induction pre as [|s pre IH]; intros evs out stages' H; simpl in H.
  - destruct (push_all (FilterStage fn) now evs) as [[n s1]|] eqn:H1; simplify_eq/=.
    apply push_all_filter in H1 as [Hn ->]; [|done].
    destruct (cascade post now n) as [[o st]|] eqn:H2; simplify_eq/=.
    apply cascade_keeps in H2 as [Ho Hst]; [|done..]. split; [done|]. exists [], fn, st. done.
  - destruct (push_all s now evs) as [[n s1]|] eqn:H1; simplify_eq/=.
    destruct (cascade (pre ++ FilterStage fn :: post) now n) as [[o st]|] eqn:H2; simplify_eq/=.
    apply IH in H2 as [Ho (pre' & fn' & post' & -> & ? & ?)]. split; [done|].
    by exists (s1 :: pre'), fn', post'.
Qed.

Lemma cascade_each_guarded stages now evs out stages' :
  guarded stages -> cascade_each stages now evs = Some (out, stages') -> Forall P out /\ guarded stages'.
Proof.
  revert stages out stages'. induction evs as [|ev evs IH]; intros stages out stages' Hg H; simpl in H; [by simplify_eq|].
  destruct (cascade stages now [ev]) as [[o1 st1]|] eqn:H1; simplify_eq/=.
  destruct (cascade_each st1 now evs) as [[o2 st2]|] eqn:H2; simplify_eq/=.
  apply cascade_guarded in H1 as [Ho1 Hg1]; [|done].
  apply IH in H2 as [Ho2 Hg2]; [|done]. split; [by apply Forall_app|done].
Qed.

Lemma flush_stages_guarded n stages now out stages' :
  guarded stages -> flush_stages n stages now = Some (out, stages') ->
  Forall P out /\ guarded stages'.
Proof.
  revert stages out stages'. induction n as [|n IH]; intros stages out stages' Hg H; [by simplify_eq/=|].
  destruct Hg as ([|s pre] & fn & post & -> & Hfn & Hpost); simplify_eq/=.
  - destruct (flush_stages n post now) as [[o3 l3]|] eqn:H3; simplify_eq/=.
    apply flush_stages_keeps in H3 as [Ho Hl]; [|done]. split; [done|]. by exists [], fn, l3.
  - destruct (stage_Flush s now) as [[o1 s1]|] eqn:H1; simplify_eq/=.
    destruct (cascade_each (pre ++ FilterStage fn :: post) now o1) as [[o2 l2]|] eqn:H2; simplify_eq/=.
    destruct (flush_stages n l2 now) as [[o3 l3]|] eqn:H3; simplify_eq/=.
    apply cascade_each_guarded in H2 as [Ho2 Hg2]; [|by exists pre, fn, post].
    apply IH in H3 as [Ho3 (pre' & fn' & post' & -> & ? & ?)]; [|done].
    split; [by apply Forall_app|]. by exists (s1 :: pre'), fn', post'.
Qed.

(** Nothing a pipeline releases has bypassed one of its filters, and the
    pipeline stays guarded for the next event. *)
Lemma pipeline_guarded stages now out stages' :
  guarded stages ->
  (exists ev, pipeline_Push stages now ev = Some (out, stages')) \/ pipeline_Flush stages now = Some (out, stages') ->
  Forall P out /\ guarded stages'.
Proof.
  intros Hg [[ev H]|H]; [by eapply cascade_guarded|by eapply flush_stages_guarded].
Qed.
End Guard.

(** ** Concrete windows *)
Definition note (server name id data : string) : IncomingEvent :=
  {| ie_Server := server; ie_Name := name; ie_ID := id; ie_Cursor := ""; ie_Time := 0; ie_Data := data |}.

Lemma window_refines_bursts_witness :
  exists s', window_run (newWindowStage 10 WindowMerge (fun n => if Z.even n then "even" else "odd")
                           (Some (fun a b => Some (a + b))))
      [OpPush 0 1; OpPush 3 2; OpPush 5 5; OpFlush 9; OpFlush 10; OpPush 11 7; OpFlush 20]
    = Some ([[]; [6]; [2]], s').
Proof.
  destruct (window_refines_bursts 10 WindowMerge (fun n => if Z.even n then "even" else "odd")
              (Some (fun a b => Some (a + b))) Z.add
              ltac:(intros f [= <-]; reflexivity)
              [OpPush 0 1; OpPush 3 2; OpPush 5 5; OpFlush 9; OpFlush 10; OpPush 11 7; OpFlush 20])
    as (s' & Hr & _ & _).
  exists s'. exact Hr.
Defined.

(** A window of merge strategy whose first payload is a JSON null panics on
    the next object: decoding null leaves a nil map, and the merge assigns
    into it. *)
Definition null_or_object (raw : RawJSON) : option go_object :=
  if String.eqb raw "null" then Some None else Some (Some {[ "k" := raw ]}).

Lemma shallow_merge_null_panics :
  ShallowMergeJSON null_or_object (fun _ => Some "merged") (note "s" "e" "1" "null") (note "s" "e" "2" "7") = None /\
  ShallowMergeJSON null_or_object (fun _ => Some "merged") (note "s" "e" "1" "7") (note "s" "e" "2" "null")
    = Some (note "s" "e" "2" "merged").
Proof. split; reflexivity. Qed.
