(* ===== verification/Injection.v ===== *)
(** * Context injection: src/injection.go

    [EventInjectionPolicy] buffers incoming events, coalescing bursts through
    the windows of Stages.v, and renders them for the model when a turn drains
    it: consent first, then priority, then the budget.  Every method holds the
    mutex, so it is a function of the state; the clock is an argument, and so
    is the order in which Go ranges over the map of windows.  The payload
    accessors of mcpkit are parameters. *)

From S2P Require Import Prelude GoStr Errors Json Provider Triggers Stages.
Local Open Scope Z_scope.

Record AggregateHint := { ah_WindowMs : Z; ah_Strategy : WindowStrategy }.

Record ContextHint := {
  ch_Priority : string;
  ch_Aggregate : option AggregateHint;
  ch_Template : string;
  ch_Retention : string;
  ch_Sensitivity : string;
}.

Definition hint_zero : ContextHint :=
  {| ch_Priority := ""; ch_Aggregate := None; ch_Template := ""; ch_Retention := ""; ch_Sensitivity := "" |}.

Definition event_zero : IncomingEvent :=
  {| ie_Server := ""; ie_Name := ""; ie_ID := ""; ie_Cursor := ""; ie_Time := 0; ie_Data := "" |}.

(** ** Hints a server advertises

    The decoded _meta value; its numbers are floats, converted by [int]. *)
Inductive meta_value {F : Type} :=
| MetaString (s : string)
| MetaNumber (f : F)
| MetaMap (m : gmap string meta_value)
| MetaOther.
Arguments meta_value : clear implicits.

Definition MetaKeyContextHint : string := "io.github.panyam.mcpkit/context-hint".

Definition strategy_of (s : string) : WindowStrategy :=
  if String.eqb s "last-wins" then WindowLastWins
  else if String.eqb s "merge" then WindowMerge
  else if String.eqb s "debounce" then WindowDebounce
  else WindowOther s.

Definition meta_string {F} (m : gmap string (meta_value F)) (k : string) : string :=
  match m !! k with Some (MetaString s) => s | _ => "" end.

Definition HintFromMeta {F} (int_of : F -> Z) (meta : gmap string (meta_value F)) : option ContextHint :=
  match meta !! MetaKeyContextHint with
  | Some (MetaMap m) =>
      Some {| ch_Priority := meta_string m "priority";
              ch_Aggregate :=
                match m !! "aggregate" with
                | Some (MetaMap agg) =>
                    Some {| ah_WindowMs := match agg !! "windowMs" with Some (MetaNumber w) => int_of w | _ => 0 end;
                            ah_Strategy := strategy_of (meta_string agg "strategy") |}
                | _ => None
                end;
              ch_Template := meta_string m "template";
              ch_Retention := meta_string m "retention";
              ch_Sensitivity := meta_string m "sensitivity" |}
  | _ => None
  end.

Record EventInjectionConfig := {
  ic_Hints : gmap string ContextHint;
  ic_Filters : list (IncomingEvent -> bool);
  ic_Transforms : list (IncomingEvent -> IncomingEvent * bool);
  ic_Merge : option (IncomingEvent -> IncomingEvent -> option IncomingEvent);
  ic_MaxPerDrain : Z;
  ic_Consent : option (ContextHint -> IncomingEvent -> bool);
}.

Definition defaultMaxPerDrain : Z := 16.

Record InjectedContext := { inj_Event : IncomingEvent; inj_Text : string; inj_Priority : string }.

Record EventInjectionPolicy := {
  ip_cfg : EventInjectionConfig;
  ip_discovered : gmap string ContextHint;
  ip_windows : gmap string (windowStage IncomingEvent);
  ip_pending : list IncomingEvent;
  ip_session : gmap string IncomingEvent;
  ip_sessOrd : list string;
  ip_dropped : Z;
}.

Definition event_key (ev : IncomingEvent) : string := ie_Server ev +:+ "/" +:+ ie_Name ev.

Definition with_windows (p : EventInjectionPolicy) (ws : gmap string (windowStage IncomingEvent)) :=
  {| ip_cfg := ip_cfg p; ip_discovered := ip_discovered p; ip_windows := ws; ip_pending := ip_pending p;
     ip_session := ip_session p; ip_sessOrd := ip_sessOrd p; ip_dropped := ip_dropped p |}.

Definition with_pending (p : EventInjectionPolicy) (l : list IncomingEvent) (dropped : Z) :=
  {| ip_cfg := ip_cfg p; ip_discovered := ip_discovered p; ip_windows := ip_windows p; ip_pending := l;
     ip_session := ip_session p; ip_sessOrd := ip_sessOrd p; ip_dropped := dropped |}.

Definition with_session (p : EventInjectionPolicy) (s : gmap string IncomingEvent) (ord : list string) :=
  {| ip_cfg := ip_cfg p; ip_discovered := ip_discovered p; ip_windows := ip_windows p; ip_pending := ip_pending p;
     ip_session := s; ip_sessOrd := ord; ip_dropped := ip_dropped p |}.

Definition SetHint (p : EventInjectionPolicy) (name : string) (h : ContextHint) : EventInjectionPolicy :=
  {| ip_cfg := ip_cfg p; ip_discovered := <[name := h]> (ip_discovered p); ip_windows := ip_windows p;
     ip_pending := ip_pending p; ip_session := ip_session p; ip_sessOrd := ip_sessOrd p;
     ip_dropped := ip_dropped p |}.

Definition hint (p : EventInjectionPolicy) (name : string) : ContextHint :=
  match ic_Hints (ip_cfg p) !! name with
  | Some h => h
  | None => default hint_zero (ip_discovered p !! name)
  end.

Definition buffer (p : EventInjectionPolicy) (ev : IncomingEvent) (h : ContextHint) : EventInjectionPolicy :=
  if String.eqb (ch_Retention h) "session" then
    let key := event_key ev in
    let ord := match ip_session p !! key with Some _ => ip_sessOrd p | None => ip_sessOrd p ++ [key] end in
    with_session p (<[key := ev]> (ip_session p)) ord
  else with_pending p (ip_pending p ++ [ev]) (ip_dropped p).

Fixpoint apply_transforms (trs : list (IncomingEvent -> IncomingEvent * bool)) (ev : IncomingEvent)
    : option IncomingEvent :=
  match trs with
  | [] => Some ev
  | tr :: trs => let '(ev, keep) := tr ev in if keep then apply_transforms trs ev else None
  end.

(** The developer stages: [None] when one of them drops the event. *)
Definition admit_event (cfg : EventInjectionConfig) (ev : IncomingEvent) : option IncomingEvent :=
  if forallb (fun f => f ev) (ic_Filters cfg) then apply_transforms (ic_Transforms cfg) ev else None.

Definition millisecond : Z := 1000000.

(** [None] is a panic of the merge function. *)
Definition Ingest (p : EventInjectionPolicy) (now : Time) (ev : IncomingEvent) : option EventInjectionPolicy :=
  match admit_event (ip_cfg p) ev with
  | None => Some p
  | Some ev =>
      let h := hint p (ie_Name ev) in
      match ch_Aggregate h with
      | Some agg =>
          if ah_WindowMs agg <=? 0 then Some (buffer p ev h)
          else
            let w := match ip_windows p !! ie_Name ev with
                     | Some w => w
                     | None => newWindowStage (wrap64 (ah_WindowMs agg * millisecond)) (ah_Strategy agg)
                                 event_key (ic_Merge (ip_cfg p))
                     end in
            '(released, w) ← window_Push w now ev;
            Some (foldl (fun p r => buffer p r h) (with_windows p (<[ie_Name ev := w]> (ip_windows p))) released)
      | None => Some (buffer p ev h)
      end
  end.

(** ** Draining *)
Fixpoint flush_windows (p : EventInjectionPolicy) (now : Time) (range : list string)
    : option EventInjectionPolicy :=
  match range with
  | [] => Some p
  | name :: range =>
      match ip_windows p !! name with
      | None => flush_windows p now range
      | Some w =>
          '(released, w) ← window_Flush w now;
          let p := with_windows p (<[name := w]> (ip_windows p)) in
          flush_windows (foldl (fun p r => buffer p r (hint p name)) p released) now range
      end
  end.

Definition consentLocked (p : EventInjectionPolicy) (h : ContextHint) (ev : IncomingEvent) : bool :=
  if String.eqb (ch_Sensitivity h) "" || String.eqb (ch_Sensitivity h) "public" then true
  else match ic_Consent (ip_cfg p) with
       | Some consent => consent h ev
       | None => String.eqb (ch_Sensitivity h) "personal"
       end.

Definition priorityOrDefault (p : string) : string := if String.eqb p "" then "medium" else p.

Definition priorityRank (p : string) : Z :=
  if String.eqb p "critical" then 0
  else if String.eqb p "high" then 1
  else if String.eqb p "medium" then 2
  else 3.

Record cand := { cd_ev : IncomingEvent; cd_session : bool }.

Definition candidates (p : EventInjectionPolicy) : list cand :=
  map (fun key => {| cd_ev := default event_zero (ip_session p !! key); cd_session := true |}) (ip_sessOrd p) ++
  map (fun ev => {| cd_ev := ev; cd_session := false |}) (ip_pending p).

Definition cand_hint (p : EventInjectionPolicy) (c : cand) : ContextHint := hint p (ie_Name (cd_ev c)).

Definition consented (p : EventInjectionPolicy) (c : cand) : bool := consentLocked p (cand_hint p c) (cd_ev c).

Definition cand_priority (p : EventInjectionPolicy) (c : cand) : string :=
  priorityOrDefault (ch_Priority (cand_hint p c)).

Definition cand_rank (p : EventInjectionPolicy) (c : cand) : Z := priorityRank (cand_priority p c).

(** Characters of a template field name. *)
Definition is_field_char (c : Ascii.ascii) : bool :=
  in_range 97 122 c || in_range 65 90 c || in_range 48 57 c || ceq c 95 || ceq c 46 || ceq c 45.

Fixpoint field_run (s : string) : string * string :=
  match s with
  | String c s' => if is_field_char c then let '(f, rest) := field_run s' in (String c f, rest) else ("", s)
  | EmptyString => ("", "")
  end.

(** A match of the expression at the head of [s]: the field and what follows.
    The run of field characters is as long as it can be, and only then can a
    closing brace follow. *)
Definition match_field (s : string) : option (string * string) :=
  if has_prefix "{{" s then
    let '(f, rest) := field_run (str_drop 2 s) in
    if negb (String.eqb f "") && has_prefix "}}" rest then Some (f, str_drop 2 rest) else None
  else None.

Fixpoint trim_quotes_left (s : string) : string :=
  match s with
  | String c s' => if ceq c 34 then trim_quotes_left s' else s
  | EmptyString => ""
  end.

Fixpoint trim_quotes_right (s : string) : string :=
  match s with
  | String c s' =>
      let r := trim_quotes_right s' in
      if ceq c 34 && String.eqb r "" then "" else String c r
  | EmptyString => ""
  end.

(** [strings.Trim] of double quotes. *)
Definition trim_quotes (s : string) : string := trim_quotes_right (trim_quotes_left s).

Section Render.
Variable data_field : RawJSON -> string -> option RawJSON.

(** [ReplaceAllStringFunc]: leftmost matches, not overlapping. *)
Fixpoint expand (fuel : nat) (ev : IncomingEvent) (s : string) : string :=
  match fuel, s with
  | S fuel, String c s' =>
      match match_field s with
      | Some (f, rest) =>
          (match data_field (ie_Data ev) f with
           | None => "{{" +:+ f +:+ "}}"
           | Some v => trim_quotes v
           end) +:+ expand fuel ev rest
      | None => String c (expand fuel ev s')
      end
  | _, _ => ""
  end.

Definition renderEvent (ev : IncomingEvent) (h : ContextHint) : string :=
  if String.eqb (ch_Template h) "" then
    "event " +:+ ie_Name ev +:+ " from " +:+ ie_Server ev +:+ ": " +:+ trim_space (ie_Data ev)
  else expand (String.length (ch_Template h)) ev (ch_Template h).

Definition rendered (p : EventInjectionPolicy) (c : cand) : InjectedContext :=
  {| inj_Event := cd_ev c; inj_Text := renderEvent (cd_ev c) (cand_hint p c); inj_Priority := cand_priority p c |}.

(** The loop that fills the budget: entries out, turn events kept. *)
Fixpoint take_budget (p : EventInjectionPolicy) (out : list InjectedContext) (pending : list IncomingEvent)
    (cs : list cand) : list InjectedContext * list IncomingEvent :=
  match cs with
  | [] => (out, pending)
  | c :: cs =>
      if ic_MaxPerDrain (ip_cfg p) <=? Z.of_nat (length out) then
        take_budget p out (if cd_session c then pending else pending ++ [cd_ev c]) cs
      else take_budget p (out ++ [rendered p c]) pending cs
  end.

Definition Drain (p : EventInjectionPolicy) (now : Time) (range : list string)
    : option (list InjectedContext * EventInjectionPolicy) :=
  p ← flush_windows p now range;
  let cs := candidates p in
  let allowed := filter (fun c => consented p c = true) cs in
  let refused := filter (fun c => consented p c = false) cs in
  let '(out, pending) := take_budget p [] [] (stable_sort (cand_rank p) allowed) in
  Some (out, with_pending p pending (ip_dropped p + Z.of_nat (length refused))).
End Render.

Definition Dropped (p : EventInjectionPolicy) : Z := ip_dropped p.

Section New.
Variables (bind : RawJSON -> option go_object) (marshal : go_object -> option RawJSON).

Definition NewEventInjectionPolicy (cfg : EventInjectionConfig) : EventInjectionPolicy :=
  {| ip_cfg := {| ic_Hints := ic_Hints cfg; ic_Filters := ic_Filters cfg; ic_Transforms := ic_Transforms cfg;
                  ic_Merge := match ic_Merge cfg with Some m => Some m | None => Some (ShallowMergeJSON bind marshal) end;
                  ic_MaxPerDrain := if ic_MaxPerDrain cfg <=? 0 then defaultMaxPerDrain else ic_MaxPerDrain cfg;
                  ic_Consent := ic_Consent cfg |};
     ip_discovered := ∅; ip_windows := ∅; ip_pending := []; ip_session := ∅; ip_sessOrd := []; ip_dropped := 0 |}.
End New.

(** ** What a drain does *)
Section DrainProps.
Variable data_field : RawJSON -> string -> option RawJSON.

Definition turn_events (cs : list cand) : list IncomingEvent :=
  omap (fun c => if cd_session c then None else Some (cd_ev c)) cs.

Lemma take_budget_split p out pending cs :
  let room := Z.to_nat (ic_MaxPerDrain (ip_cfg p) - Z.of_nat (length out)) in
  take_budget data_field p out pending cs =
  (out ++ map (rendered data_field p) (take room cs), pending ++ turn_events (drop room cs)).
Proof.
  revert out pending. induction cs as [|c cs IH]; intros out pending; cbv zeta.
  { rewrite take_nil, drop_nil. cbn. by rewrite !app_nil_r. }
  cbn [take_budget]. destruct (Z.leb_spec (ic_MaxPerDrain (ip_cfg p)) (Z.of_nat (length out))) as [Hfull|Hroom].
  - rewrite IH. cbv zeta. replace (Z.to_nat _) with O by lia. cbn [take map drop turn_events]. f_equal.
    rewrite !drop_0. unfold turn_events. csimpl. destruct (cd_session c); [done|]. by rewrite <- app_assoc.
  - rewrite IH. cbv zeta. rewrite length_app. cbn [length].
    destruct (Z.to_nat (ic_MaxPerDrain (ip_cfg p) - Z.of_nat (length out))) as [|n] eqn:Hn; [lia|].
    replace (Z.to_nat _) with n by lia. cbn [take drop map]. by rewrite <- app_assoc.
Qed.

Lemma count_partition {A} (f : A -> bool) (l : list A) :
  filter (fun x => f x = true) l ++ filter (fun x => f x = false) l ≡ₚ l.
Proof.
  induction l as [|x l IH]; [done|]. rewrite !filter_cons. destruct (f x) eqn:Hx; simpl.
  - by rewrite IH.
  - rewrite <- Permutation_middle. by rewrite IH.
Qed.

(** What the candidates become: shown, kept for the next drain, or refused. *)
Record drained (p p' : EventInjectionPolicy) (out : list InjectedContext) (shown waiting refused : list cand) : Prop := {
  dr_candidates : shown ++ waiting ++ refused ≡ₚ candidates p;
  dr_out : out = map (rendered data_field p) shown;
  dr_pending : ip_pending p' = turn_events waiting;
  dr_session : ip_session p' = ip_session p /\ ip_sessOrd p' = ip_sessOrd p;
  dr_allowed : Forall (fun c => consented p c = true) (shown ++ waiting);
  dr_refused : Forall (fun c => consented p c = false) refused;
  dr_dropped : Dropped p' = Dropped p + Z.of_nat (length refused);
  dr_sorted : StronglySorted (rank_le (cand_rank p)) shown;
  dr_first c c' : c ∈ shown -> c' ∈ waiting -> cand_rank p c <= cand_rank p c';
  dr_fifo r : filter (fun c => cand_rank p c = r) (shown ++ waiting) =
              filter (fun c => cand_rank p c = r) (filter (fun c => consented p c = true) (candidates p));
  dr_budget : Z.of_nat (length out) <= ic_MaxPerDrain (ip_cfg p);
  dr_full : waiting <> [] -> Z.of_nat (length out) = ic_MaxPerDrain (ip_cfg p);
}.

Lemma drain_splits p now range p1 :
  0 < ic_MaxPerDrain (ip_cfg p1) ->
  flush_windows p now range = Some p1 ->
  exists out p' shown waiting refused,
    Drain data_field p now range = Some (out, p') /\ drained p1 p' out shown waiting refused.
Proof.
  intros Hmax Hf. unfold Drain. rewrite Hf. cbn [mbind option_bind]. rewrite take_budget_split. cbv zeta.
  cbn [length app]. rewrite Z.sub_0_r.
  set (allowed := filter (fun c => consented p1 c = true) (candidates p1)).
  set (cs := stable_sort (cand_rank p1) allowed). set (n := Z.to_nat (ic_MaxPerDrain (ip_cfg p1))).
  pose proof (stable_sort_sorted (cand_rank p1) allowed) as Hs. fold cs in Hs.
  rewrite <- (take_drop n cs) in Hs.
  eexists _, _, (take n cs), (drop n cs), (filter (fun c => consented p1 c = false) (candidates p1)).
  split; [reflexivity|].
  assert (cs ≡ₚ allowed) as Hp by apply stable_sort_perm.
  assert (length (map (rendered data_field p1) (take n cs)) = Nat.min n (length cs)) as Hlen
    by (by rewrite length_map, length_take).
  split; try done.
  - rewrite app_assoc, take_drop, Hp. apply count_partition.
  - rewrite take_drop, Hp. apply Forall_forall. intros c Hc. unfold allowed in Hc. by apply list_elem_of_filter in Hc as [? _].
  - apply Forall_forall. intros c Hc. by apply list_elem_of_filter in Hc as [? _].
  - by eapply sorted_app_l.
  - intros c c'. by apply sorted_prefix.
  - intros r. rewrite take_drop. apply stable_sort_stable.
  - rewrite Hlen. lia.
  - intros Hw. rewrite Hlen. assert (length (drop n cs) <> 0%nat) by (destruct (drop n cs); [done|simpl; lia]).
    rewrite length_drop in *. lia.
Qed.

(** ** Reachable policies *)
Definition window_wf (w : windowStage IncomingEvent) : Prop :=
  NoDup (ws_order w) /\ forall k, k ∈ ws_order w <-> is_Some (ws_buckets w !! k).

Record injection_wf (p : EventInjectionPolicy) : Prop := {
  iw_windows : map_Forall (fun _ w => window_wf w) (ip_windows p);
  iw_max : 0 < ic_MaxPerDrain (ip_cfg p);
  iw_session_nodup : NoDup (ip_sessOrd p);
  iw_session k : k ∈ ip_sessOrd p <-> is_Some (ip_session p !! k);
}.

Lemma window_Push_wf w now ev out w' :
  window_wf w -> window_Push w now ev = Some (out, w') -> out = [] /\ window_wf w'.
Proof.
  intros [Hnd Hb] H. unfold window_Push in H.
  destruct (ws_buckets w !! ws_key w ev) as [b|] eqn:Hk.
  - destruct (coalesce w (bk_acc b) ev) as [acc|]; simplify_eq/=. split; [done|].
    split; cbn [ws_order ws_buckets ws_with]; [done|].
    intros k. rewrite lookup_insert_is_Some, Hb. destruct (decide (ws_key w ev = k)) as [<-|]; [|naive_solver].
    rewrite Hk. naive_solver.
  - simplify_eq/=. split; [done|]. split; cbn [ws_order ws_buckets ws_with].
    + apply NoDup_app. split; [done|]. split; [|apply NoDup_singleton].
      intros k Hin ->%list_elem_of_singleton. apply Hb in Hin as [? ?]. congruence.
    + intros k. rewrite elem_of_app, list_elem_of_singleton, lookup_insert_is_Some, Hb.
      destruct (decide (ws_key w ev = k)); naive_solver.
Qed.

Lemma flush_keys_wf now order buckets :
  NoDup order -> (forall k, k ∈ order -> is_Some (buckets !! k)) ->
  exists out buckets' rest, flush_keys (E:=IncomingEvent) now buckets order = Some (out, buckets', rest) /\
    NoDup rest /\ rest ⊆ order /\
    (forall k, is_Some (buckets' !! k) <-> is_Some (buckets !! k) /\ (k ∈ order -> k ∈ rest)).
Proof.
  revert buckets. induction order as [|k order IH]; intros buckets Hnd Hall; simpl.
  { exists [], buckets, []. split; [done|]. split; [apply NoDup_nil_2|]. split; [done|]. naive_solver. }
  apply NoDup_cons in Hnd as [Hni Hnd]. destruct (Hall k) as [b Hb]; [set_solver|]. rewrite Hb. case_match.
  - destruct (IH (delete k buckets)) as (out & b' & rest & -> & Hr & Hsub & Hk); [done| |].
    { intros k' Hk'. rewrite lookup_delete_ne by set_solver. apply Hall. set_solver. }
    simpl. eexists _, _, _. split; [done|]. split; [done|]. split; [set_solver|].
    intros k'. rewrite Hk. destruct (decide (k' = k)) as [->|Hne].
    + rewrite lookup_delete_eq. split; [intros [[? ?] _]; done|].
      intros [_ Hin]. exfalso. apply Hni, Hsub, Hin. set_solver.
    + rewrite lookup_delete_ne by done. set_solver.
  - destruct (IH buckets) as (out & b' & rest & -> & Hr & Hsub & Hk); [done|set_solver|].
    simpl. eexists _, _, _. split; [done|]. split; [constructor; set_solver|]. split; [set_solver|].
    intros k'. rewrite Hk. destruct (decide (k' = k)) as [->|Hne]; set_solver.
Qed.

Lemma window_Flush_wf w now :
  window_wf w -> exists out w', window_Flush w now = Some (out, w') /\ window_wf w'.
Proof.
  intros [Hnd Hb]. unfold window_Flush.
  destruct (flush_keys_wf now (ws_order w) (ws_buckets w)) as (out & b' & rest & -> & Hr & Hsub & Hk);
    [done|intros k; apply Hb|].
  simpl. eexists _, _. split; [done|]. split; cbn [ws_order ws_buckets ws_with]; [done|].
  intros k. rewrite Hk, <- Hb. set_solver.
Qed.

Lemma buffer_wf p ev h : injection_wf p -> injection_wf (buffer p ev h).
Proof.
  intros W. unfold buffer. case_match; [|by split; apply W].
  split; cbn; try apply W.
  - destruct (ip_session p !! event_key ev) eqn:Hk; [apply W|].
    apply NoDup_app. split; [apply W|]. split; [|apply NoDup_singleton].
    intros k Hin ->%list_elem_of_singleton. apply W in Hin as [? ?]. congruence.
  - intros k. rewrite lookup_insert_is_Some. pose proof (iw_session _ W k).
    destruct (ip_session p !! event_key ev) eqn:Hk.
    + destruct (decide (event_key ev = k)) as [<-|]; [|naive_solver].
      rewrite H0, Hk. naive_solver.
    + rewrite elem_of_app, list_elem_of_singleton. destruct (decide (event_key ev = k)); naive_solver.
Qed.

Lemma buffer_all_wf p evs f : injection_wf p -> injection_wf (foldl (fun p r => buffer p r (f p)) p evs).
Proof. revert p. induction evs as [|ev evs IH]; intros p W; simpl; auto using buffer_wf. Qed.

Lemma with_window_wf p name w :
  injection_wf p -> window_wf w -> injection_wf (with_windows p (<[name := w]> (ip_windows p))).
Proof. intros W Hw. split; try apply W. apply map_Forall_insert_2; [done|apply W]. Qed.

Lemma new_window_wf d st m : window_wf (newWindowStage d st event_key m).
Proof. split; [apply NoDup_nil_2|]. intros k. simpl. rewrite lookup_empty, is_Some_alt. set_solver. Qed.

Lemma Ingest_wf p now ev p' : injection_wf p -> Ingest p now ev = Some p' -> injection_wf p'.
Proof.
  intros W H. unfold Ingest in H. repeat (case_match; simplify_eq/=); auto using buffer_wf.
  all: destruct (window_Push _ now i) as [[out w']|] eqn:Hp; simplify_eq/=.
  all: apply window_Push_wf in Hp as [_ Hw].
  all: try (apply (buffer_all_wf _ _ (fun _ => _))); try apply with_window_wf; auto using new_window_wf.
  by eapply (iw_windows _ W).
Qed.

Lemma flush_windows_wf p now range :
  injection_wf p -> exists p1, flush_windows p now range = Some p1 /\ injection_wf p1.
Proof.
  revert p. induction range as [|name range IH]; intros p W; simpl; [eauto|].
  destruct (ip_windows p !! name) as [w|] eqn:Hw; [|auto].
  destruct (window_Flush_wf w now) as (out & w' & -> & Hw'); [by eapply (iw_windows _ W)|].
  simpl. apply IH, buffer_all_wf, with_window_wf; auto.
Qed.

Lemma Drain_wf p now range out p' : injection_wf p -> Drain data_field p now range = Some (out, p') -> injection_wf p'.
Proof.
  intros W H. unfold Drain in H. destruct (flush_windows_wf p now range W) as (p1 & Hf & W1).
  rewrite Hf in H. cbn [mbind option_bind] in H. case_match. simplify_eq/=. split; apply W1.
Qed.

Inductive injection_op :=
| OpIngest (now : Time) (ev : IncomingEvent)
| OpSetHint (name : string) (h : ContextHint)
| OpDrain (now : Time) (range : list string).

(** A run of the policy; [None] when a merge panicked. *)
Fixpoint injection_run (p : EventInjectionPolicy) (ops : list injection_op) : option EventInjectionPolicy :=
  match ops with
  | [] => Some p
  | OpIngest now ev :: ops => p ← Ingest p now ev; injection_run p ops
  | OpSetHint name h :: ops => injection_run (SetHint p name h) ops
  | OpDrain now range :: ops => '(_, p) ← Drain data_field p now range; injection_run p ops
  end.

Lemma injection_run_wf p ops p' : injection_wf p -> injection_run p ops = Some p' -> injection_wf p'.
Proof.
  revert p. induction ops as [|[now ev|name h|now range] ops IH]; intros p W H; simpl in H.
  - by simplify_eq.
  - destruct (Ingest p now ev) as [p1|] eqn:Hi; [|done]. eauto using Ingest_wf.
  - apply (IH _) in H; [done|]. split; apply W.
  - destruct (Drain data_field p now range) as [[out p1]|] eqn:Hd; [|done]. eauto using Drain_wf.
Qed.

Lemma new_injection_wf bind marshal cfg : injection_wf (NewEventInjectionPolicy bind marshal cfg).
Proof.
  split; cbn.
  - apply map_Forall_empty.
  - case_match; unfold defaultMaxPerDrain; lia.
  - apply NoDup_nil_2.
  - intros k. rewrite lookup_empty, is_Some_alt. set_solver.
Qed.

(** Injection honours consent, priority and the budget.  In every state a
    policy can reach, Drain returns, and it divides its candidates (the
    session entries in order, then the turn events, after flushing the expired
    windows) into those shown, those waiting and those refused: nothing is
    lost or shown twice, what is shown passed the consent rule, at most the
    budget is shown and less only when nothing waits, nothing waits that has a
    better priority than something shown, equal priorities keep their order,
    and the turn events waiting are the next pending buffer. *)
Theorem drain_priority_budget bind marshal cfg ops p now range :
  injection_run (NewEventInjectionPolicy bind marshal cfg) ops = Some p ->
  exists p1 out p' shown waiting refused,
    flush_windows p now range = Some p1 /\
    Drain data_field p now range = Some (out, p') /\ drained p1 p' out shown waiting refused.
Proof.
  intros Hr. pose proof (injection_run_wf _ _ _ (new_injection_wf _ _ _) Hr) as W.
  destruct (flush_windows_wf p now range W) as (p1 & Hf & W1).
  destruct (drain_splits p now range p1 (iw_max _ W1) Hf) as (out & p' & s & w & r & Hd & D).
  exists p1, out, p', s, w, r. auto.
Qed.

(** ** Waiting entries get their turn *)
Definition allowed_event (p : EventInjectionPolicy) (ev : IncomingEvent) : bool :=
  consentLocked p (hint p (ie_Name ev)) ev.

Fixpoint drains (p : EventInjectionPolicy) (ticks : list (Time * list string))
    : option (list InjectedContext * EventInjectionPolicy) :=
  match ticks with
  | [] => Some ([], p)
  | (now, range) :: ticks =>
      '(out, p) ← Drain data_field p now range;
      '(rest, p) ← drains p ticks;
      Some (out ++ rest, p)
  end.

Lemma flush_no_windows p now range : ip_windows p = ∅ -> flush_windows p now range = Some p.
Proof. intros Hw. induction range as [|n range IH]; simpl; [done|]. by rewrite Hw, lookup_empty. Qed.

Lemma turn_events_pending l :
  turn_events (map (fun ev => {| cd_ev := ev; cd_session := false |}) l) = l.
Proof. unfold turn_events. induction l as [|ev l IH]; csimpl; [done|]. by rewrite IH. Qed.

Lemma turn_events_app l l' : turn_events (l ++ l') = turn_events l ++ turn_events l'.
Proof. unfold turn_events. apply omap_app. Qed.

Lemma turn_events_perm l l' : l ≡ₚ l' -> turn_events l ≡ₚ turn_events l'.
Proof. unfold turn_events. intros H. by rewrite H. Qed.

Lemma shown_events p cs :
  Forall (fun c => cd_session c = false) cs ->
  map inj_Event (map (rendered data_field p) cs) = turn_events cs.
Proof. unfold turn_events. induction 1 as [|c cs Hc _ IH]; csimpl; [done|]. by rewrite Hc, IH. Qed.

Lemma filter_turn_events p (b : bool) cs :
  Forall (fun c => cd_session c = false) cs -> Forall (fun c => consented p c = b) cs ->
  filter (fun ev => allowed_event p ev = true) (turn_events cs) = if b then turn_events cs else [].
Proof.
  unfold turn_events. induction cs as [|c cs IH]; intros Hs Hb; [by destruct b|].
  apply Forall_cons in Hs as [Hs Hss], Hb as [Hb Hbs]. csimpl. rewrite Hs, filter_cons.
  unfold consented, cand_hint in Hb. unfold allowed_event in *. rewrite Hb, IH by done.
  by destruct b.
Qed.

(** One drain of a policy that keeps nothing for the session. *)
Lemma drain_turns p now range :
  ip_windows p = ∅ -> ip_sessOrd p = [] -> 0 < ic_MaxPerDrain (ip_cfg p) ->
  exists out p', Drain data_field p now range = Some (out, p') /\
    ip_windows p' = ∅ /\ ip_sessOrd p' = [] /\ ip_cfg p' = ip_cfg p /\
    (forall ev, allowed_event p' ev = allowed_event p ev) /\
    map inj_Event out ++ filter (fun ev => allowed_event p ev = true) (ip_pending p') ≡ₚ
      filter (fun ev => allowed_event p ev = true) (ip_pending p) /\
    (filter (fun ev => allowed_event p ev = true) (ip_pending p') = [] \/
     Z.of_nat (length out) = ic_MaxPerDrain (ip_cfg p)).
Proof.
  intros Hw Hs Hmax. pose proof (flush_no_windows p now range Hw) as Hf.
  destruct (drain_splits p now range p Hmax Hf) as (out & p' & shown & waiting & refused & Hd & D).
  assert (Hd' := Hd). unfold Drain in Hd'. rewrite Hf in Hd'. cbn [mbind option_bind] in Hd'.
  case_match. injection Hd' as _ <-. rename l0 into pending.
  eexists out, _. split; [exact Hd|]. do 4 (split; [done|]).
  pose proof (dr_candidates _ _ _ _ _ _ D) as Hp. unfold candidates in Hp. rewrite Hs in Hp. cbn in Hp.
  assert (Forall (fun c => cd_session c = false) (shown ++ waiting ++ refused)) as Hss.
  { rewrite Hp. apply Forall_forall. intros c Hc. by apply list_elem_of_fmap in Hc as (ev & -> & _). }
  apply Forall_app in Hss as [Hss1 [Hss2 Hss3]%Forall_app].
  pose proof (dr_allowed _ _ _ _ _ _ D) as [Ha1 Ha2]%Forall_app.
  pose proof (dr_refused _ _ _ _ _ _ D) as Hr.
  rewrite (dr_pending _ _ _ _ _ _ D), (dr_out _ _ _ _ _ _ D), shown_events by done.
  rewrite (filter_turn_events p true waiting) by done. split.
  - apply turn_events_perm in Hp. rewrite turn_events_pending, !turn_events_app in Hp.
    rewrite <- Hp, !filter_app.
    rewrite (filter_turn_events p true shown), (filter_turn_events p true waiting),
      (filter_turn_events p false refused) by done.
    by rewrite app_nil_r.
  - destruct (decide (waiting = [])) as [->|Hne]; [by left|right].
    rewrite <- (dr_out _ _ _ _ _ _ D). by apply D.
Qed.

(** Entries beyond the budget are delivered later: with no session entries
    and no new events, enough drains show every pending event the consent rule
    allows exactly once and leave none of them behind. *)
Theorem drains_deliver_everything p ticks :
  ip_windows p = ∅ -> ip_sessOrd p = [] -> 0 < ic_MaxPerDrain (ip_cfg p) ->
  Z.of_nat (length (filter (fun ev => allowed_event p ev = true) (ip_pending p))) <=
    ic_MaxPerDrain (ip_cfg p) * Z.of_nat (length ticks) ->
  exists out p', drains p ticks = Some (out, p') /\
    map inj_Event out ≡ₚ filter (fun ev => allowed_event p ev = true) (ip_pending p) /\
    filter (fun ev => allowed_event p ev = true) (ip_pending p') = [].
Proof.
  revert p. induction ticks as [|[now range] ticks IH]; intros p Hw Hs Hmax Hlen.
  - assert (filter (fun ev => allowed_event p ev = true) (ip_pending p) = []) as Hnil
      by (apply length_zero_iff_nil; simpl in Hlen; lia).
    exists [], p. rewrite Hnil. done.
  - cbn [drains]. destruct (drain_turns p now range Hw Hs Hmax) as (out & p' & -> & Hw' & Hs' & Hcfg & Hall & Hperm & Hfull).
    assert (forall l, filter (fun ev => allowed_event p' ev = true) l = filter (fun ev => allowed_event p ev = true) l) as Hext
      by (intros l; apply list_filter_iff; intros ev; by rewrite Hall).
    cbn [mbind option_bind]. destruct (IH p') as (rest & p2 & -> & Hrest & Hnil); [done|done|by rewrite Hcfg| |].
    + rewrite Hext, Hcfg. apply Permutation_length in Hperm. rewrite length_app, length_map in Hperm.
      destruct Hfull as [-> |Hfull]; [simpl; lia|]. simpl length in Hlen. lia.
    + rewrite Hext in Hrest, Hnil. cbn [mbind option_bind]. exists (out ++ rest), p2.
      split; [done|]. split; [|done]. by rewrite map_app, Hrest, Hperm.
Qed.
End DrainProps.

(** ** Concrete policies *)
Definition inj_config (hints : list (string * ContextHint)) (max : Z) : EventInjectionConfig :=
  {| ic_Hints := list_to_map hints; ic_Filters := []; ic_Transforms := []; ic_Merge := None;
     ic_MaxPerDrain := max; ic_Consent := None |}.

Definition demo_hint (priority retention sensitivity : string) (agg : option AggregateHint) : ContextHint :=
  {| ch_Priority := priority; ch_Aggregate := agg; ch_Template := ""; ch_Retention := retention;
     ch_Sensitivity := sensitivity |}.

Definition demo_policy (hints : list (string * ContextHint)) (max : Z) : EventInjectionPolicy :=
  NewEventInjectionPolicy (fun _ => None) (fun _ => None) (inj_config hints max).

Definition no_field : RawJSON -> string -> option RawJSON := fun _ _ => None.

Definition mixed_hints : list (string * ContextHint) :=
  [("alarm", demo_hint "critical" "" "" None); ("chat", demo_hint "low" "" "" None);
   ("secret", demo_hint "critical" "" "restricted" None)].

Definition mixed_ops : list injection_op :=
  [OpIngest 1 (note "s" "chat" "1" "a"); OpIngest 2 (note "s" "secret" "2" "b");
   OpIngest 3 (note "s" "alarm" "3" "c"); OpIngest 4 (note "s" "chat" "4" "d")].

Lemma drain_priority_budget_witness :
  exists p p1 out p' shown waiting refused,
    injection_run no_field (demo_policy mixed_hints 2) mixed_ops = Some p /\
    flush_windows p 5 [] = Some p1 /\ Drain no_field p 5 [] = Some (out, p') /\
    map (fun i => ie_ID (inj_Event i)) out = ["3"; "1"] /\ map ie_ID (ip_pending p') = ["4"] /\ Dropped p' = 1 /\
    drained no_field p1 p' out shown waiting refused.
Proof.
  set (r := injection_run no_field (demo_policy mixed_hints 2) mixed_ops).
  destruct r as [p|] eqn:Hr; [|vm_compute in Hr; discriminate].
  destruct (drain_priority_budget no_field (fun _ => None) (fun _ => None) (inj_config mixed_hints 2) mixed_ops p 5 [] Hr)
    as (p1 & out & p' & s & w & f & H1 & H2 & D).
  exists p, p1, out, p', s, w, f.
  assert (Drain no_field p 5 [] = Some (out, p')) as H3 by exact H2.
  unfold r in Hr. vm_compute in Hr. injection Hr as <-.
  vm_compute in H3. injection H3 as <- <-. repeat split; try done; apply D.
Defined.

Definition chat_backlog : EventInjectionPolicy :=
  with_pending (demo_policy [] 2) [note "s" "chat" "1" "a"; note "s" "chat" "2" "b"; note "s" "chat" "3" "c"] 0.

Lemma drains_deliver_everything_witness :
  exists out p', drains no_field chat_backlog [(1, []); (2, [])] = Some (out, p') /\
    map inj_Event out ≡ₚ ip_pending chat_backlog /\
    filter (fun ev => allowed_event chat_backlog ev = true) (ip_pending p') = [].
Proof.
  apply (drains_deliver_everything no_field chat_backlog [(1, []); (2, [])]);
    [reflexivity|reflexivity|reflexivity|vm_compute; discriminate].
Defined.

Lemma render_template :
  renderEvent (fun _ f => if String.eqb f "who" then Some (go_quote "Ann") else None) (note "s" "cart" "" "{}")
    {| ch_Priority := ""; ch_Aggregate := None; ch_Template := "{{who}} has {{n}} {{}} {{{who}}";
       ch_Retention := ""; ch_Sensitivity := "" |}
  = "Ann has {{n}} {{}} {Ann".
Proof. reflexivity. Qed.

(** A hint revised from aggregated to immediate lets an older occurrence that
    was still in its window replace a newer one kept for the session. *)
Definition windowed : ContextHint :=
  demo_hint "" "session" "" (Some {| ah_WindowMs := 1000; ah_Strategy := WindowLastWins |}).

Lemma stale_session_entry_wins :
  exists p p',
    injection_run no_field (demo_policy [] 4)
      [OpSetHint "cart" windowed; OpIngest 0 (note "s" "cart" "old" ""); OpSetHint "cart" (demo_hint "" "session" "" None);
       OpIngest 1 (note "s" "cart" "new" "")] = Some p /\
    ie_ID <$> ip_session p !! "s/cart" = Some "new" /\
    Drain no_field p 1000000000 ["cart"] = Some ([rendered no_field p {| cd_ev := note "s" "cart" "old" ""; cd_session := true |}], p') /\
    ie_ID <$> ip_session p' !! "s/cart" = Some "old".
Proof. eexists _, _. split; [vm_compute; reflexivity|]. split; [reflexivity|]. split; vm_compute; reflexivity. Qed.

(** A revised window is ignored once an event of the name has been seen: the
    window keeps its first length. *)
Lemma revised_window_ignored :
  exists p,
    injection_run no_field (demo_policy [] 4)
      [OpSetHint "cart" windowed; OpIngest 0 (note "s" "cart" "a" ""); OpDrain 1000000000 ["cart"];
       OpSetHint "cart" (demo_hint "" "" "" (Some {| ah_WindowMs := 1; ah_Strategy := WindowLastWins |}));
       OpIngest 2000000000 (note "s" "cart" "b" "")] = Some p /\
    (out ← Drain no_field p 2500000000 ["cart"]; Some (map (fun i => ie_ID (inj_Event i)) out.1)) = Some ["a"].
Proof. eexists. split; vm_compute; reflexivity. Qed.

(** An event kept for the session that the consent rule refuses is counted as
    dropped again by every drain. *)
Lemma refused_session_counted_again :
  exists p p1 p2,
    injection_run no_field (demo_policy [("pin", demo_hint "" "session" "restricted" None)] 4)
      [OpIngest 0 (note "s" "pin" "1" "")] = Some p /\
    Drain no_field p 1 [] = Some ([], p1) /\ Drain no_field p1 2 [] = Some ([], p2) /\
    Dropped p1 = 1 /\ Dropped p2 = 2.
Proof. eexists _, _, _. split; [vm_compute; reflexivity|]. repeat split; vm_compute; reflexivity. Qed.
