(* ===== verification/Linked.v ===== *)
(** * Bounded ordered maps: container/list with an index

    src/memory.go and src/toolresultstore.go keep their entries the same way:
    a map of the entries, a linked list of the keys in order of insertion and
    a map from a key to its element of the list, so that the oldest entry can
    be evicted and any entry removed.  An element is a node with an identity;
    [list.Remove] unlinks the node it is given.  The contract is an
    association list in order of insertion, oldest first, and the three
    structures together refine it. *)

From S2P Require Import Prelude.

Section Linked.
Context {V : Type}.

Record linked := {
  lk_items : gmap string V;
  lk_order : list (nat * string);
  lk_elems : gmap string nat;
  lk_next : nat;
}.

Definition linked_empty : linked :=
  {| lk_items := ∅; lk_order := []; lk_elems := ∅; lk_next := 0 |}.

(** [elems[key] = order.PushBack(key)]. *)
Definition push_back (l : linked) (key : string) : linked :=
  {| lk_items := lk_items l; lk_order := lk_order l ++ [(lk_next l, key)];
     lk_elems := <[key := lk_next l]> (lk_elems l); lk_next := S (lk_next l) |}.

(** [order.Remove(e)]. *)
Definition unlink (id : nat) (order : list (nat * string)) : list (nat * string) :=
  filter (fun n => n.1 <> id) order.

(** [for order.Len() > max] evicting the front. *)
Fixpoint evict (fuel : nat) (max : nat) (l : linked) : linked :=
  match fuel, lk_order l with
  | S fuel, (id, key) :: _ =>
      if Nat.ltb max (length (lk_order l)) then
        evict fuel max
          {| lk_items := delete key (lk_items l); lk_order := unlink id (lk_order l);
             lk_elems := delete key (lk_elems l); lk_next := lk_next l |}
      else l
  | _, _ => l
  end.

(** An upsert under a cap; 0 is no cap. *)
Definition linked_put (max : nat) (l : linked) (key : string) (v : V) : linked :=
  let l := match lk_items l !! key with
           | Some _ => l
           | None =>
               let l := push_back l key in
               if Nat.eqb max 0 then l else evict (length (lk_order l)) max l
           end in
  {| lk_items := <[key := v]> (lk_items l); lk_order := lk_order l; lk_elems := lk_elems l; lk_next := lk_next l |}.

(** A removal: whether the key was there. *)
Definition linked_delete (l : linked) (key : string) : bool * linked :=
  match lk_items l !! key with
  | None => (false, l)
  | Some _ =>
      (true, match lk_elems l !! key with
             | Some id => {| lk_items := delete key (lk_items l); lk_order := unlink id (lk_order l);
                             lk_elems := delete key (lk_elems l); lk_next := lk_next l |}
             | None => {| lk_items := delete key (lk_items l); lk_order := lk_order l;
                          lk_elems := lk_elems l; lk_next := lk_next l |}
             end)
  end.

(** ** The contract *)
Fixpoint entries_get (a : list (string * V)) (key : string) : option V :=
  match a with
  | [] => None
  | (k, v) :: a => if String.eqb k key then Some v else entries_get a key
  end.

Fixpoint entries_set (a : list (string * V)) (key : string) (v : V) : list (string * V) :=
  match a with
  | [] => []
  | (k, x) :: a => if String.eqb k key then (k, v) :: a else (k, x) :: entries_set a key v
  end.

(** An update keeps its place; a new entry goes last, and the oldest make
    room for it. *)
Definition entries_put (max : nat) (a : list (string * V)) (key : string) (v : V) : list (string * V) :=
  match entries_get a key with
  | Some _ => entries_set a key v
  | None => let a := a ++ [(key, v)] in if Nat.eqb max 0 then a else drop (length a - max) a
  end.

Definition entries_delete (a : list (string * V)) (key : string) : bool * list (string * V) :=
  match entries_get a key with
  | Some _ => (true, filter (fun e => e.1 <> key) a)
  | None => (false, a)
  end.

Record linked_rep (l : linked) (a : list (string * V)) : Prop := {
  rep_keys : map snd (lk_order l) = map fst a;
  rep_nodup : NoDup (map fst a);
  rep_ids : NoDup (map fst (lk_order l));
  rep_items k : lk_items l !! k = entries_get a k;
  rep_elems k id : lk_elems l !! k = Some id <-> (id, k) ∈ lk_order l;
  rep_fresh : Forall (fun n => n.1 < lk_next l) (lk_order l);
}.

Lemma entries_get_none a k : entries_get a k = None <-> k ∉ map fst a.
Proof.
  induction a as [|[k' v] a IH]; simpl; [set_solver|].
  destruct (String.eqb_spec k' k) as [->|]; set_solver.
Qed.

Lemma entries_get_some a k v : NoDup (map fst a) -> entries_get a k = Some v <-> (k, v) ∈ a.
Proof.
  induction a as [|[k' x] a IH]; simpl; [set_solver|]. intros [Hni Hnd]%NoDup_cons.
  destruct (String.eqb_spec k' k) as [->|Hne].
  - split; [intros [= ->]; set_solver|]. intros [[= ->]|H]%elem_of_cons; [done|].
    destruct Hni. apply list_elem_of_fmap. by exists (k, v).
  - rewrite IH by done. rewrite elem_of_cons. naive_solver.
Qed.

Lemma entries_set_keys a k v : map fst (entries_set a k v) = map fst a.
Proof. induction a as [|[k' x] a IH]; simpl; [done|]. case_match; simpl; congruence. Qed.

Lemma entries_get_set a k v k' :
  is_Some (entries_get a k) ->
  entries_get (entries_set a k v) k' = if String.eqb k k' then Some v else entries_get a k'.
Proof.
  induction a as [|[x y] a IH]; simpl; [by intros [? ?]|]. intros H.
  destruct (String.eqb_spec x k) as [->|Hne]; simpl.
  - by destruct (String.eqb_spec k k').
  - destruct (String.eqb_spec x k') as [->|Hx]; [|auto].
    destruct (String.eqb_spec k k'); [congruence|done].
Qed.

Lemma entries_get_app a b k :
  entries_get (a ++ b) k = match entries_get a k with Some v => Some v | None => entries_get b k end.
Proof. induction a as [|[x y] a IH]; simpl; [done|]. by destruct (String.eqb x k). Qed.

Lemma entries_get_filter a k k' :
  entries_get (filter (fun e => e.1 <> k) a) k' = if String.eqb k k' then None else entries_get a k'.
Proof.
  induction a as [|[x y] a IH]; [by case_match|]. rewrite filter_cons. case_decide as Hx; simpl in *.
  - rewrite IH. destruct (String.eqb_spec x k') as [->|]; [|done].
    destruct (String.eqb_spec k k'); [congruence|done].
  - subst x. rewrite IH. by destruct (String.eqb_spec k k').
Qed.

Lemma unlink_fresh id order : id ∉ map fst order -> unlink id order = order.
Proof.
  unfold unlink. induction order as [|[i k] order IH]; intros H; [done|].
  rewrite filter_cons, decide_True by set_solver. simpl in *. rewrite IH by set_solver. done.
Qed.

Lemma linked_empty_rep : linked_rep linked_empty [].
Proof.
  split; cbn; try apply NoDup_nil_2; try apply Forall_nil_2; try done.
  intros k id. rewrite lookup_empty. set_solver.
Qed.

Lemma push_back_rep l a key v :
  linked_rep l a -> entries_get a key = None ->
  linked_rep {| lk_items := <[key := v]> (lk_items l); lk_order := lk_order (push_back l key);
                lk_elems := lk_elems (push_back l key); lk_next := lk_next (push_back l key) |} (a ++ [(key, v)]).
Proof.
  intros R Hk. apply entries_get_none in Hk as Hni.
  assert (lk_next l ∉ map fst (lk_order l)) as Hid.
  { intros ([i k] & Hi & Hin)%list_elem_of_fmap. pose proof (rep_fresh _ _ R) as F.
    rewrite Forall_forall in F. specialize (F _ Hin). simpl in *. lia. }
  split; cbn; rewrite ?map_app; cbn.
  - by rewrite (rep_keys _ _ R).
  - apply NoDup_app. split; [apply R|]. split; [|apply NoDup_singleton]. by intros ? ? ->%list_elem_of_singleton.
  - apply NoDup_app. split; [apply R|]. split; [|apply NoDup_singleton]. by intros ? ? ->%list_elem_of_singleton.
  - intros k. rewrite entries_get_app, lookup_insert, <- (rep_items _ _ R). simpl.
    destruct (String.eqb_spec key k) as [->|].
    + rewrite decide_True by done. rewrite (rep_items _ _ R), Hk. done.
    + rewrite decide_False by done. by destruct (lk_items l !! k).
  - intros k id. rewrite elem_of_app, list_elem_of_singleton. destruct (decide (key = k)) as [->|Hne].
    + rewrite lookup_insert_eq. split; [intros [= <-]; auto|]. intros [Hin|[= ->]]; [|done].
      exfalso. apply Hni. rewrite <- (rep_keys _ _ R). apply list_elem_of_fmap. by exists (id, k).
    + rewrite lookup_insert_ne, (rep_elems _ _ R) by done. naive_solver.
  - apply Forall_app. split; [|constructor; [simpl; lia|done]].
    eapply Forall_impl; [apply R|]. simpl. intros; lia.
Qed.

(** The front of the order is the first entry. *)
Lemma linked_rep_front l k v a :
  linked_rep l ((k, v) :: a) ->
  exists id order, lk_order l = (id, k) :: order /\ unlink id (lk_order l) = order /\
    linked_rep {| lk_items := delete k (lk_items l); lk_order := order;
                  lk_elems := delete k (lk_elems l); lk_next := lk_next l |} a.
Proof.
  intros R. pose proof (rep_keys _ _ R) as Hk. destruct (lk_order l) as [|[id k'] order] eqn:Ho; [done|].
  injection Hk as -> Hk. pose proof (rep_ids _ _ R) as Hids. rewrite Ho in Hids. simpl in Hids.
  apply NoDup_cons in Hids as [Hid Hids]. pose proof (rep_nodup _ _ R) as Hnd. simpl in Hnd.
  apply NoDup_cons in Hnd as [Hni Hnd]. exists id, order. split; [done|]. split.
  { rewrite <- (unlink_fresh id order) at 2 by done. unfold unlink. by rewrite filter_cons, decide_False by auto. }
  split; cbn; try done.
  - intros x. pose proof (rep_items _ _ R x) as Hx. simpl in Hx.
    destruct (String.eqb_spec k x) as [->|]; [|by rewrite lookup_delete_ne].
    rewrite lookup_delete_eq. symmetry. by apply entries_get_none.
  - intros x i. pose proof (rep_elems _ _ R x i) as Hx. rewrite Ho, elem_of_cons in Hx.
    destruct (decide (k = x)) as [->|Hne].
    + rewrite lookup_delete_eq. split; [done|]. intros Hin. destruct Hni. rewrite <- Hk.
      apply list_elem_of_fmap. by exists (i, x).
    + rewrite lookup_delete_ne, Hx by done. naive_solver.
  - pose proof (rep_fresh _ _ R) as F. rewrite Ho in F. by apply Forall_cons in F as [_ F].
Qed.

Lemma rep_length l a : linked_rep l a -> length (lk_order l) = length a.
Proof. intros R. rewrite <- (length_map snd), (rep_keys _ _ R). apply length_map. Qed.

Lemma evict_rep fuel max l a :
  linked_rep l a -> length a <= fuel -> linked_rep (evict fuel max l) (drop (length a - max) a).
Proof.
  revert l a. induction fuel as [|fuel IH]; intros l a R Hf; simpl.
  { destruct a; [done|simpl in Hf; lia]. }
  pose proof (rep_length _ _ R) as Hlen.
  destruct a as [|[k v] a].
  { destruct (lk_order l) as [|[? ?] ?] eqn:Ho; [done|simpl in Hlen; lia]. }
  destruct (linked_rep_front _ _ _ _ R) as (id & order & Ho & Hu & R').
  rewrite Ho in *. rewrite Hu, Hlen. cbn [length]. destruct (Nat.ltb_spec max (S (length a))).
  - replace (S (length a) - max) with (S (length a - max)) by lia. cbn [drop]. apply IH; [done|simpl in Hf; lia].
  - replace (S (length a) - max) with 0 by lia. done.
Qed.

Lemma insert_present_rep l a key v :
  linked_rep l a -> is_Some (entries_get a key) ->
  linked_rep {| lk_items := <[key := v]> (lk_items l); lk_order := lk_order l;
                lk_elems := lk_elems l; lk_next := lk_next l |} (entries_set a key v).
Proof.
  intros R Hk. split; cbn; rewrite ?entries_set_keys; try apply R.
  intros k. rewrite entries_get_set, lookup_insert, <- (rep_items _ _ R) by done.
  destruct (String.eqb_spec key k); by case_decide.
Qed.

Definition with_item (key : string) (v : V) (l : linked) : linked :=
  {| lk_items := <[key := v]> (lk_items l); lk_order := lk_order l; lk_elems := lk_elems l; lk_next := lk_next l |}.

(** Storing the newest entry before or after the eviction is the same: the
    eviction stops before it. *)
Lemma evict_with_item fuel max key v l o id :
  0 < max -> lk_order l = o ++ [(id, key)] -> NoDup (map fst (lk_order l)) -> key ∉ map snd o ->
  with_item key v (evict fuel max l) = evict fuel max (with_item key v l).
Proof.
  intros Hmax. revert l o. induction fuel as [|fuel IH]; intros l o Ho Hids Hk; [done|].
  cbn [evict]. change (lk_order (with_item key v l)) with (lk_order l).
  destruct o as [|[id' k'] o]; rewrite Ho in *; cbn [app length].
  - by destruct (Nat.ltb_spec max 1); [lia|].
  - destruct (Nat.ltb max _); [|done].
    assert (unlink id' ((id', k') :: o ++ [(id, key)]) = o ++ [(id, key)]) as Hu.
    { simpl in Hids. apply NoDup_cons in Hids as [Hni _].
      rewrite <- (unlink_fresh id' (o ++ [(id, key)])) at 2 by done.
      unfold unlink. by rewrite filter_cons, decide_False by auto. }
    cbn [app] in Hu. rewrite Hu. rewrite (IH _ o).
    + unfold with_item. cbn. f_equal. f_equal. symmetry. apply delete_insert_ne. set_solver.
    + done.
    + simpl in Hids. by apply NoDup_cons in Hids as [_ Hids].
    + set_solver.
Qed.

Lemma linked_put_rep max l a key v :
  linked_rep l a -> linked_rep (linked_put max l key v) (entries_put max a key v).
Proof.
  intros R. unfold linked_put, entries_put. rewrite (rep_items _ _ R).
  destruct (entries_get a key) as [x|] eqn:Hk; [by apply insert_present_rep|].
  pose proof (push_back_rep l a key v R Hk) as R1.
  destruct (Nat.eqb_spec max 0) as [->|Hmax]; [exact R1|].
  change (linked_rep (with_item key v (evict (length (lk_order (push_back l key))) max (push_back l key)))
            (drop (length (a ++ [(key, v)]) - max) (a ++ [(key, v)]))).
  rewrite (evict_with_item _ _ _ _ _ (lk_order l) (lk_next l)); [|lia|done|apply R1|].
  - apply evict_rep; [exact R1|]. cbn. rewrite !length_app. cbn.
    rewrite (rep_length _ _ R). lia.
  - rewrite (rep_keys _ _ R). by apply entries_get_none.
Qed.

Lemma linked_delete_rep l a key :
  linked_rep l a ->
  (linked_delete l key).1 = (entries_delete a key).1 /\
  linked_rep (linked_delete l key).2 (entries_delete a key).2.
Proof.
  intros R. unfold linked_delete, entries_delete. rewrite (rep_items _ _ R).
  destruct (entries_get a key) as [x|] eqn:Hk; [|by split].
  split; [by destruct (lk_elems l !! key)|].
  assert (key ∈ map snd (lk_order l)) as Hin.
  { rewrite (rep_keys _ _ R). apply entries_get_some in Hk; [|apply R]. apply list_elem_of_fmap. by exists (key, x). }
  apply list_elem_of_fmap in Hin as ([id k] & -> & Hin). apply (rep_elems _ _ R) in Hin as He. simpl in *. rewrite He.
  assert (forall n, n ∈ lk_order l -> n.1 = id <-> n.2 = k) as Hiff.
  { intros [i k'] Hn. simpl. split; intros ->.
    - pose proof (NoDup_key_eq fst (lk_order l) (id, k') (id, k) (rep_ids _ _ R) Hn Hin eq_refl). congruence.
    - apply (rep_elems _ _ R) in Hn. congruence. }
  split; cbn.
  - pose proof (rep_keys _ _ R) as Hkeys. unfold unlink.
    clear -Hkeys Hiff. revert a Hkeys Hiff. induction (lk_order l) as [|[i k'] order IH]; intros [|[k2 v] a] Hkeys Hiff; try done.
    injection Hkeys as -> Hkeys. rewrite !filter_cons. pose proof (Hiff (i, k2) ltac:(by constructor)) as Hi. simpl in *.
    specialize (IH a Hkeys ltac:(intros; apply Hiff; by constructor)).
    destruct (decide (k2 = k)) as [Hk2|Hk2].
    + rewrite !decide_False by tauto. exact IH.
    + rewrite !decide_True by tauto. simpl. by f_equal.
  - eapply sublist_NoDup; [apply R|]. apply (fmap_sublist fst), sublist_filter.
  - eapply sublist_NoDup; [apply R|]. apply (fmap_sublist fst), sublist_filter.
  - intros x'. rewrite entries_get_filter, lookup_delete, <- (rep_items _ _ R).
    destruct (String.eqb_spec k x'); by case_decide.
  - intros x' i. unfold unlink. rewrite list_elem_of_filter. simpl. destruct (decide (k = x')) as [->|Hne].
    + rewrite lookup_delete_eq. split; [done|]. intros [Hi Hn]. destruct Hi. by apply (Hiff (i, x')).
    + rewrite lookup_delete_ne, (rep_elems _ _ R) by done. split; [|naive_solver]. intros Hn. split; [|done].
      intros ->. apply Hne. symmetry. by apply (Hiff (id, x')).
  - unfold unlink. apply Forall_forall. intros n [_ Hn]%list_elem_of_filter.
    pose proof (rep_fresh _ _ R) as F. rewrite Forall_forall in F. auto.
Qed.

(** ** Laws of the contract *)
Lemma entries_put_bound max a key v :
  0 < max -> length a <= max -> length (entries_put max a key v) <= max.
Proof.
  intros Hm Ha. unfold entries_put. destruct (entries_get a key).
  - by rewrite <- (length_map fst), entries_set_keys, length_map.
  - destruct (Nat.eqb_spec max 0); [lia|]. rewrite length_drop, length_app. simpl. lia.
Qed.

Lemma entries_put_get max a key v : entries_get (entries_put max a key v) key = Some v.
Proof.
  unfold entries_put. destruct (entries_get a key) eqn:Hk.
  - rewrite entries_get_set by eauto. by rewrite String.eqb_refl.
  - assert (forall b, entries_get b key = None -> entries_get (b ++ [(key, v)]) key = Some v) as Hs
      by (intros b Hb; rewrite entries_get_app, Hb; simpl; by rewrite String.eqb_refl).
    destruct (Nat.eqb_spec max 0); [auto|]. rewrite length_app. simpl.
    rewrite drop_app_le by lia. apply Hs. apply entries_get_none. apply entries_get_none in Hk.
    intros Hin. apply Hk. rewrite <- (take_drop (length a + 1 - max) a), map_app. set_solver.
Qed.
End Linked.
Arguments linked : clear implicits.
