(* ===== verification/Memory.v ===== *)
(** * Working memory: src/memory.go

    The scratchpad a model manages with remember, recall and forget.
    [InMemoryMemoryStore] keeps one bounded ordered map per namespace
    (Linked.v) and refines a list of notes per namespace; [MemorySource]
    serves the three tools over any store that keeps the contract
    [LawfulMemory].  [strings.ToLower] needs Unicode's case tables and is a
    parameter, as are the random bytes of an assigned key. *)

From S2P Require Import Prelude GoStr Errors Json Provider Middleware MultiSource Dispatch FuncSource Linked.
Local Open Scope eff_scope.

Record MemoryItem := { mi_Key : string; mi_Value : string; mi_CreatedAt : Time }.

Definition item_zero : MemoryItem := {| mi_Key := ""; mi_Value := ""; mi_CreatedAt := 0 |}.

Record PutMemoryRequest := { pm_Item : MemoryItem; pm_Namespace : string }.
Record ListMemoriesRequest := { lm_Query : string; lm_Limit : Z; lm_Namespace : string }.
Record ScoredMemory := { sm_Item : MemoryItem; sm_Score : float64 }.
Record DeleteMemoryRequest := { dm_Key : string; dm_Namespace : string }.

(** ** The in-memory store *)
Record InMemoryMemoryStore := { mem_ns : gmap string (linked MemoryItem); mem_maxEntries : Z }.

Definition MemoryStoreOption := InMemoryMemoryStore -> InMemoryMemoryStore.

Definition WithMaxMemories (n : Z) : MemoryStoreOption := fun s =>
  if Z.ltb 0 n then {| mem_ns := mem_ns s; mem_maxEntries := n |} else s.

Definition NewInMemoryMemoryStore (opts : list MemoryStoreOption) : InMemoryMemoryStore :=
  fold_left (fun s o => o s) opts {| mem_ns := ∅; mem_maxEntries := 0 |}.

Definition set_ns (s : InMemoryMemoryStore) (ns : string) (m : linked MemoryItem) : InMemoryMemoryStore :=
  {| mem_ns := <[ns := m]> (mem_ns s); mem_maxEntries := mem_maxEntries s |}.

(** The sub-store of a namespace, created on first use. *)
Definition mem_bucket (s : InMemoryMemoryStore) (ns : string) : linked MemoryItem * InMemoryMemoryStore :=
  match mem_ns s !! ns with
  | Some m => (m, s)
  | None => (linked_empty, set_ns s ns linked_empty)
  end.

Definition stamp_item (now : Time) (it : MemoryItem) : MemoryItem :=
  if Z.eqb (mi_CreatedAt it) 0 then {| mi_Key := mi_Key it; mi_Value := mi_Value it; mi_CreatedAt := now |} else it.

Definition PutMemory (now : Time) (req : PutMemoryRequest) (s : InMemoryMemoryStore) : InMemoryMemoryStore :=
  let item := stamp_item now (pm_Item req) in
  let '(m, s) := mem_bucket s (pm_Namespace req) in
  set_ns s (pm_Namespace req) (linked_put (Z.to_nat (mem_maxEntries s)) m (mi_Key item) item).

Section Listing.
Variable ToLower : string -> string.

Definition item_matches (q : string) (it : MemoryItem) : bool :=
  String.eqb q "" || str_contains (ToLower (mi_Key it)) q || str_contains (ToLower (mi_Value it)) q.

Definition score_one : float64 := 1%Z.

Fixpoint list_items (q : string) (limit : Z) (items : gmap string MemoryItem) (order : list (nat * string))
    (out : list ScoredMemory) : list ScoredMemory :=
  match order with
  | [] => out
  | (_, k) :: order =>
      if Z.ltb 0 limit && Z.leb limit (Z.of_nat (length out)) then out
      else
        let item := default item_zero (items !! k) in
        list_items q limit items order
          (if item_matches q item then out ++ [{| sm_Item := item; sm_Score := score_one |}] else out)
  end.

Definition ListMemories (req : ListMemoriesRequest) (s : InMemoryMemoryStore)
    : list ScoredMemory * InMemoryMemoryStore :=
  let q := ToLower (lm_Query req) in
  let '(m, s) := mem_bucket s (lm_Namespace req) in
  (list_items q (lm_Limit req) (lk_items m) (lk_order m) [], s).
End Listing.

Definition DeleteMemory (req : DeleteMemoryRequest) (s : InMemoryMemoryStore) : bool * InMemoryMemoryStore :=
  let '(m, s) := mem_bucket s (dm_Namespace req) in
  let '(deleted, m) := linked_delete m (dm_Key req) in
  (deleted, set_ns s (dm_Namespace req) m).

(** ** The seam *)
Record MemoryStore {W E : Type} := {
  mst_Put : PutMemoryRequest -> eff W E (result unit);
  mst_List : ListMemoriesRequest -> eff W E (result (list ScoredMemory));
  mst_Delete : DeleteMemoryRequest -> eff W E (result bool);
}.
Arguments MemoryStore : clear implicits.

(** ** Rendering and budgets *)
Definition render_item (it : MemoryItem) : string := "- " +:+ mi_Key it +:+ ": " +:+ mi_Value it.

Definition renderMemories (items : list MemoryItem) : string := str_join newline (map render_item items).

Record SummaryOptions := { so_MaxItems : Z; so_MaxChars : Z }.

Fixpoint drop_until_fits (maxChars : Z) (items : list MemoryItem) : list MemoryItem :=
  match items with
  | [] => []
  | _ :: rest =>
      if Z.ltb maxChars (Z.of_nat (String.length (renderMemories items)))
      then drop_until_fits maxChars rest else items
  end.

Definition budgetMemories (items : list MemoryItem) (opts : SummaryOptions) : list MemoryItem :=
  let items := if Z.ltb 0 (so_MaxItems opts) && Z.ltb (so_MaxItems opts) (Z.of_nat (length items))
               then drop (length items - Z.to_nat (so_MaxItems opts)) items else items in
  if Z.ltb 0 (so_MaxChars opts) then drop_until_fits (so_MaxChars opts) items else items.

Definition itemsOf (sms : list ScoredMemory) : list MemoryItem := map sm_Item sms.

(** ** The tool source *)
Section Source.
Context {Ctx W E : Type} (store : MemoryStore W E) (nsFn : option (W -> string)) (randHex : nat -> eff W E string).

Definition memory_ns : eff W E string :=
  match nsFn with
  | Some fn => eff_call (fun w => (fn w, w))
  | None => eff_ret ""
  end.

Record rememberArgs := { ra_Key : string; ra_Value : string }.
Record recallArgs := { rc_Query : string }.
Record forgetArgs := { fa_Key : string }.

Definition remember (_ : Ctx) (inp : rememberArgs) : eff W E (result string) :=
  let key := trim_space (ra_Key inp) in
  let* key := (if String.eqb key "" then let* h := randHex 4 in eff_ret ("mem-" +:+ h) else eff_ret key) in
  let* ns := memory_ns in
  let* r := mst_Put store {| pm_Item := {| mi_Key := key; mi_Value := ra_Value inp; mi_CreatedAt := 0 |};
                             pm_Namespace := ns |} in
  eff_ret (match r with
           | inl e => inl e
           | inr _ => inr ("remembered: " +:+ key)
           end).

Definition recall (_ : Ctx) (inp : recallArgs) : eff W E (result string) :=
  let* ns := memory_ns in
  let* r := mst_List store {| lm_Query := rc_Query inp; lm_Limit := 0; lm_Namespace := ns |} in
  eff_ret (match r with
           | inl e => inl e
           | inr [] => inr (if String.eqb (rc_Query inp) "" then "working memory is empty"
                            else "no memories match " +:+ rc_Query inp)
           | inr items => inr (renderMemories (itemsOf items))
           end).

Definition forget (_ : Ctx) (inp : forgetArgs) : eff W E (result string) :=
  let* ns := memory_ns in
  let* r := mst_Delete store {| dm_Key := fa_Key inp; dm_Namespace := ns |} in
  eff_ret (match r with
           | inl e => inl e
           | inr false => inr ("no memory with key " +:+ fa_Key inp)
           | inr true => inr ("forgot: " +:+ fa_Key inp)
           end).

Definition Summary (opts : SummaryOptions) : eff W E (result string) :=
  let* ns := memory_ns in
  let* r := mst_List store {| lm_Query := ""; lm_Limit := 0; lm_Namespace := ns |} in
  eff_ret (match r with
           | inl e => inl e
           | inr items =>
               match budgetMemories (itemsOf items) opts with
               | [] => inr ""
               | kept => inr ("Working memory (notes you saved earlier):" +:+ newline +:+ renderMemories kept)
               end
           end).

Definition defaultRecallTopK : Z := 5.

Record RecallOptions := { ro_TopK : Z; ro_MinScore : float64 }.

Definition RecallRelevant (query : string) (opts : RecallOptions) : eff W E (result string) :=
  if String.eqb (trim_space query) "" then eff_ret (inr "")
  else
    let topK := if Z.leb (ro_TopK opts) 0 then defaultRecallTopK else ro_TopK opts in
    let* ns := memory_ns in
    let* r := mst_List store {| lm_Query := query; lm_Limit := topK; lm_Namespace := ns |} in
    eff_ret (match r with
             | inl e => inl e
             | inr items =>
                 match filter (fun sm => Z.ltb (sm_Score sm) (ro_MinScore opts) = false) items with
                 | [] => inr ""
                 | kept => inr ("Relevant to the current message (from your memory):" +:+ newline +:+
                                renderMemories (itemsOf kept))
                 end
             end).

(** [schema] and the codecs are those of [AddFunc]. *)
Record MemoryCodec := {
  mcd_encode : tool_args -> result RawJSON;
  mcd_remember : RawJSON -> result rememberArgs;
  mcd_recall : RawJSON -> result recallArgs;
  mcd_forget : RawJSON -> result forgetArgs;
  mcd_schema : string -> option error;
}.

Definition RememberToolName : string := "remember".
Definition RecallToolName : string := "recall".
Definition ForgetToolName : string := "forget".

Definition NewMemorySource (c : MemoryCodec) : result (FuncSource Ctx W E) :=
  let '(err, fs) := AddFunc NewFuncSource RememberToolName
    "Save a note to your working memory so you can recall it on a later turn. Provide a short key to label it (optional; used to update or forget it later) and the value to store."
    (mcd_schema c RememberToolName) (mcd_encode c) (mcd_remember c) remember [] in
  match err with
  | Some e => inl e
  | None =>
      let '(err, fs) := AddFunc fs RecallToolName
        "Read from your working memory. Optionally pass a query to filter notes by a substring of the key or value; omit it to list everything you have stored."
        (mcd_schema c RecallToolName) (mcd_encode c) (mcd_recall c) recall [ReadOnly] in
      match err with
      | Some e => inl e
      | None =>
          let '(err, fs) := AddFunc fs ForgetToolName "Delete a note from your working memory by its key."
            (mcd_schema c ForgetToolName) (mcd_encode c) (mcd_forget c) forget [] in
          match err with
          | Some e => inl e
          | None => inr fs
          end
      end
  end.
End Source.

(** ** The store refines a list of notes per namespace *)
Definition notes := string -> list (string * MemoryItem).

Definition on_namespace {A} (ns : string) (f : list (string * MemoryItem) -> A * list (string * MemoryItem))
    (n : notes) : A * notes :=
  let '(a, l) := f (n ns) in (a, fun ns' => if String.eqb ns' ns then l else n ns').

Inductive memory_request :=
| MPut (now : Time) (req : PutMemoryRequest)
| MList (req : ListMemoriesRequest)
| MDelete (req : DeleteMemoryRequest).

Inductive memory_response := RPut | RList (items : list ScoredMemory) | RDelete (deleted : bool).

Section Refinement.
Variable ToLower : string -> string.

Definition store_answer (s : InMemoryMemoryStore) (r : memory_request) : memory_response * InMemoryMemoryStore :=
  match r with
  | MPut now req => (RPut, PutMemory now req s)
  | MList req => let '(items, s) := ListMemories ToLower req s in (RList items, s)
  | MDelete req => let '(b, s) := DeleteMemory req s in (RDelete b, s)
  end.

Definition cap_items {A} (limit : Z) (l : list A) : list A :=
  if Z.ltb 0 limit then take (Z.to_nat limit) l else l.

(** The same requests on the lists. *)
Definition notes_answer (max : Z) (n : notes) (r : memory_request) : memory_response * notes :=
  match r with
  | MPut now req =>
      let item := stamp_item now (pm_Item req) in
      on_namespace (pm_Namespace req) (fun l => (RPut, entries_put (Z.to_nat max) l (mi_Key item) item)) n
  | MList req =>
      (RList (cap_items (lm_Limit req)
                (map (fun it => {| sm_Item := it; sm_Score := score_one |})
                   (filter (fun it => item_matches ToLower (ToLower (lm_Query req)) it = true)
                      (map snd (n (lm_Namespace req)))))), n)
  | MDelete req =>
      on_namespace (dm_Namespace req) (fun l => let '(b, l) := entries_delete l (dm_Key req) in (RDelete b, l)) n
  end.

Fixpoint respond {S R A} (step : S -> R -> A * S) (s : S) (rs : list R) : list A * S :=
  match rs with
  | [] => ([], s)
  | r :: rs => let '(a, s) := step s r in let '(l, s) := respond step s rs in (a :: l, s)
  end.

Record memory_rep (max : Z) (s : InMemoryMemoryStore) (n : notes) : Prop := {
  mr_max : mem_maxEntries s = max;
  mr_ns ns : linked_rep (default linked_empty (mem_ns s !! ns)) (n ns);
  mr_bound ns : (0 < max)%Z -> length (n ns) <= Z.to_nat max;
}.

Lemma mem_bucket_rep max s n ns :
  memory_rep max s n ->
  linked_rep (mem_bucket s ns).1 (n ns) /\ memory_rep max (mem_bucket s ns).2 n.
Proof.
  intros R. unfold mem_bucket. pose proof (mr_ns _ _ _ R ns) as Hns.
  destruct (mem_ns s !! ns) as [m|] eqn:Hm; simpl in *; [done|]. split; [done|].
  split; [apply R| |apply R]. intros ns'. simpl. destruct (decide (ns = ns')) as [->|].
  - by rewrite lookup_insert_eq.
  - rewrite lookup_insert_ne by done. apply R.
Qed.

Lemma set_ns_rep max s n ns m l :
  memory_rep max s n -> linked_rep m l -> ((0 < max)%Z -> length l <= Z.to_nat max) ->
  memory_rep max (set_ns s ns m) (fun ns' => if String.eqb ns' ns then l else n ns').
Proof.
  intros R Hm Hl. split; [apply R| |]; intros ns'; simpl.
  - destruct (String.eqb_spec ns' ns) as [->|]; [by rewrite lookup_insert_eq|].
    rewrite lookup_insert_ne by done. apply R.
  - destruct (String.eqb_spec ns' ns); [done|apply R].
Qed.

Lemma list_items_spec q limit items order (a : list (string * MemoryItem)) out :
  NoDup (map fst a) -> map snd order = map fst a -> (forall k v, (k, v) ∈ a -> items !! k = Some v) ->
  ((0 < limit)%Z -> (Z.of_nat (length out) <= limit)%Z) ->
  list_items ToLower q limit items order out =
  cap_items limit (out ++ map (fun it => {| sm_Item := it; sm_Score := score_one |})
                            (filter (fun it => item_matches ToLower q it = true) (map snd a))).
Proof.
  intros Hnd Hk Hi. revert order Hk out. induction a as [|[k v] a IH]; intros [|[id k'] order] Hk out Hout; try done.
  - simpl. unfold cap_items. rewrite app_nil_r. destruct (Z.ltb_spec 0 limit); [|done].
    rewrite take_ge; [done|lia].
  - injection Hk as -> Hk. cbn [map snd fst list_items] in *. apply NoDup_cons in Hnd as [_ Hnd].
    rewrite (Hi k v) by set_solver. change (default item_zero (Some v)) with v. cbv zeta.
    destruct (Z.ltb_spec 0 limit) as [Hl|Hl]; [destruct (Z.leb_spec limit (Z.of_nat (length out))) as [Hf|Hf]|]; cbn [andb].
    + unfold cap_items. rewrite (proj2 (Z.ltb_lt 0 limit)) by done.
      rewrite take_app_le by lia. symmetry. apply take_ge. lia.
    + rewrite IH; auto; [|intros; apply Hi; set_solver|].
      * rewrite filter_cons. destruct (item_matches ToLower q v); case_decide; try done.
        by rewrite <- app_assoc.
      * intros _. case_match; rewrite ?length_app; simpl; lia.
    + rewrite IH; auto; [|intros; apply Hi; set_solver|lia].
      rewrite filter_cons. destruct (item_matches ToLower q v); case_decide; try done.
      by rewrite <- app_assoc.
Qed.

Lemma entries_delete_length {V} (a : list (string * V)) k : length (entries_delete a k).2 <= length a.
Proof. unfold entries_delete. case_match; simpl; [apply length_filter|done]. Qed.

Lemma store_answer_rep max s n r :
  memory_rep max s n ->
  (store_answer s r).1 = (notes_answer max n r).1 /\
  memory_rep max (store_answer s r).2 (notes_answer max n r).2.
Proof.
  intros R. destruct r as [now req|req|req]; simpl.
  - destruct (mem_bucket_rep max s n (pm_Namespace req) R) as [Hl Hs].
    unfold PutMemory. destruct (mem_bucket s (pm_Namespace req)) as [m s1]. simpl in *. split; [done|].
    rewrite (mr_max _ _ _ Hs). apply set_ns_rep; [done|by apply linked_put_rep|].
    intros Hmax. apply entries_put_bound; [lia|]. by apply R.
  - destruct (mem_bucket_rep max s n (lm_Namespace req) R) as [Hl Hs].
    unfold ListMemories. destruct (mem_bucket s (lm_Namespace req)) as [m s1]. simpl in *. split; [|done].
    f_equal. rewrite (list_items_spec _ _ _ _ (n (lm_Namespace req))); try apply Hl; [done| |simpl; lia].
    intros k v Hin. rewrite (rep_items _ _ Hl). apply entries_get_some; [apply Hl|done].
  - destruct (mem_bucket_rep max s n (dm_Namespace req) R) as [Hl Hs].
    unfold DeleteMemory, on_namespace. destruct (mem_bucket s (dm_Namespace req)) as [m s1]. simpl in *.
    destruct (linked_delete_rep m _ (dm_Key req) Hl) as [Hb Hr].
    pose proof (entries_delete_length (n (dm_Namespace req)) (dm_Key req)) as Hlen.
    destruct (linked_delete m (dm_Key req)) as [b m'], (entries_delete (n (dm_Namespace req)) (dm_Key req)) as [b' l'].
    simpl in *. split; [congruence|]. apply set_ns_rep; auto. intros Hmax. pose proof (mr_bound _ _ _ R (dm_Namespace req) Hmax). lia.
Qed.

Lemma new_memory_rep max : (0 <= max)%Z ->
  memory_rep max (NewInMemoryMemoryStore [WithMaxMemories max]) (fun _ => []).
Proof.
  intros Hm. unfold NewInMemoryMemoryStore, WithMaxMemories. cbn [fold_left mem_ns].
  destruct (Z.ltb_spec 0 max); split; cbn [mem_maxEntries mem_ns]; try lia;
    intros ns; try (rewrite lookup_empty; apply linked_empty_rep); simpl; lia.
Qed.

(** The in-memory scratchpad is a list of notes per namespace.  Under any
    sequence of puts, listings and deletions, in any namespaces, it answers
    exactly as the lists do: an update keeps its place, a new note goes last
    and the oldest make room, a listing is the matching notes oldest first up
    to the limit, a deletion reports whether the key was there; no request
    sees or changes another namespace, and no namespace exceeds the cap. *)
Theorem memory_store_refines max rs :
  (0 <= max)%Z ->
  let '(out, s) := respond store_answer (NewInMemoryMemoryStore [WithMaxMemories max]) rs in
  let '(out', n) := respond (notes_answer max) (fun _ => []) rs in
  out = out' /\ memory_rep max s n.
Proof.
  intros Hm. pose proof (new_memory_rep max Hm) as R. revert R.
  generalize (NewInMemoryMemoryStore [WithMaxMemories max]) (fun _ : string => @nil (string * MemoryItem)).
  induction rs as [|r rs IH]; intros s n R; simpl; [done|].
  destruct (store_answer_rep max s n r R) as [Ha R'].
  destruct (store_answer s r) as [a s1], (notes_answer max n r) as [a' n1]. simpl in *. subst a'.
  specialize (IH s1 n1 R').
  destruct (respond store_answer s1 rs), (respond (notes_answer max) n1 rs). destruct IH as [-> IH]. done.
Qed.
End Refinement.

(** ** What a summary keeps *)
Lemma drop_until_fits_spec max items :
  (0 < max)%Z ->
  exists older, items = older ++ drop_until_fits max items /\
    (Z.of_nat (String.length (renderMemories (drop_until_fits max items))) <= max)%Z /\
    forall o x, older = o ++ [x] -> (max < Z.of_nat (String.length (renderMemories (x :: drop_until_fits max items))))%Z.
Proof.
  intros Hm. induction items as [|it items (older & Heq & Hfit & Hmax)].
  { exists []. split; [done|]. split; [simpl; lia|]. intros [|? ?] ? ?; discriminate. }
  cbn [drop_until_fits]. destruct (Z.ltb_spec max (Z.of_nat (String.length (renderMemories (it :: items))))) as [Hl|Hl].
  - exists (it :: older). split; [simpl; congruence|]. split; [done|].
    intros o x Ho. destruct o as [|y o]; injection Ho as -> Ho; [|by eapply Hmax].
    subst older. simpl in Heq. by rewrite <- Heq.
  - exists []. split; [done|]. split; [done|]. intros [|? ?] ? ?; discriminate.
Qed.

(** The summary's budget keeps the newest notes.  What is kept is a suffix
    of the notes, in their order, within both limits, and the next older note
    would not have fitted one of them. *)
Theorem summary_keeps_newest items opts :
  let kept := budgetMemories items opts in
  exists older, items = older ++ kept /\
    ((0 < so_MaxItems opts)%Z -> (Z.of_nat (length kept) <= so_MaxItems opts)%Z) /\
    ((0 < so_MaxChars opts)%Z -> (Z.of_nat (String.length (renderMemories kept)) <= so_MaxChars opts)%Z) /\
    (forall o x, older = o ++ [x] ->
       ((0 < so_MaxItems opts)%Z /\ (so_MaxItems opts < Z.of_nat (length (x :: kept)))%Z) \/
       ((0 < so_MaxChars opts)%Z /\ (so_MaxChars opts < Z.of_nat (String.length (renderMemories (x :: kept))))%Z)).
Proof.
  cbv zeta. unfold budgetMemories.
  set (newest := if (Z.ltb 0 (so_MaxItems opts) && Z.ltb (so_MaxItems opts) (Z.of_nat (length items)))%bool
                 then drop (length items - Z.to_nat (so_MaxItems opts)) items else items).
  assert (exists older, items = older ++ newest /\
    ((0 < so_MaxItems opts)%Z -> (Z.of_nat (length newest) <= so_MaxItems opts)%Z) /\
    (older <> [] -> (0 < so_MaxItems opts)%Z /\ (so_MaxItems opts = Z.of_nat (length newest))%Z)) as (older & Heq & Hn & Hmax).
  { unfold newest. destruct (Z.ltb_spec 0 (so_MaxItems opts)); [destruct (Z.ltb_spec (so_MaxItems opts) (Z.of_nat (length items)))|]; cbn [andb].
    - eexists. split; [symmetry; apply take_drop|]. rewrite length_drop. split; lia.
    - exists []. split; [done|]. split; [lia|done].
    - exists []. split; [done|]. split; [lia|done]. }
  clearbody newest. destruct (Z.ltb_spec 0 (so_MaxChars opts)) as [Hc|Hc].
  - destruct (drop_until_fits_spec (so_MaxChars opts) newest Hc) as (older2 & Heq2 & Hfit & Hmax2).
    exists (older ++ older2). split; [by rewrite <- app_assoc, <- Heq2|].
    assert (length newest = length older2 + length (drop_until_fits (so_MaxChars opts) newest)) as Hlen
      by (rewrite Heq2 at 1; apply length_app).
    split; [lia|]. split; [done|]. intros o x Ho. destruct (decide (older2 = [])) as [->|Hne].
    + left. rewrite app_nil_r in Ho. subst older. destruct Hmax as [? ?]; [by destruct o|]. simpl in *. lia.
    + right. split; [done|]. destruct (exists_last Hne) as (o2 & x2 & ->).
      rewrite app_assoc in Ho. apply app_inj_tail in Ho as [_ ->]. by eapply Hmax2.
  - exists older. split; [done|]. split; [done|]. split; [lia|].
    intros o x ->. left. destruct Hmax as [? ?]; [by destruct o|]. simpl. lia.
Qed.

(** ** The contract between the tools and a store

    [view] is what a world holds for a namespace.  A store may evict on a put;
    a listing without a query is everything. *)
Class LawfulMemory {W E} (st : MemoryStore W E) (view : W -> string -> list MemoryItem) : Prop := {
  lawful_put : forall req w evs w', mst_Put st req w = (inr tt, evs, w') ->
    (exists t, {| mi_Key := mi_Key (pm_Item req); mi_Value := mi_Value (pm_Item req); mi_CreatedAt := t |}
                 ∈ view w' (pm_Namespace req)) /\
    (forall it, it ∈ view w' (pm_Namespace req) -> mi_Key it <> mi_Key (pm_Item req) -> it ∈ view w (pm_Namespace req)) /\
    NoDup (map mi_Key (view w' (pm_Namespace req))) /\
    (forall ns, ns <> pm_Namespace req -> view w' ns = view w ns);
  lawful_listing : forall req w items evs w', mst_List st req w = (inr items, evs, w') ->
    (forall ns, view w' ns = view w ns) /\
    (lm_Query req = "" -> (lm_Limit req <= 0)%Z -> itemsOf items = view w (lm_Namespace req));
  lawful_delete : forall req w b evs w', mst_Delete st req w = (inr b, evs, w') ->
    (b = true <-> dm_Key req ∈ map mi_Key (view w (dm_Namespace req))) /\
    view w' (dm_Namespace req) = filter (fun it => mi_Key it <> dm_Key req) (view w (dm_Namespace req)) /\
    (forall ns, ns <> dm_Namespace req -> view w' ns = view w ns);
}.

Section Tools.
Context {Ctx W E : Type} (st : MemoryStore W E) (view : W -> string -> list MemoryItem) `{!LawfulMemory st view}.
Variables (nsFn : option (W -> string)) (randHex : nat -> eff W E string).

(** The namespace a world selects. *)
Definition current_ns (w : W) : string := match nsFn with Some fn => fn w | None => "" end.

Lemma memory_ns_run w : memory_ns (E:=E) nsFn w = (current_ns w, [], w).
Proof. unfold memory_ns, current_ns. by destruct nsFn. Qed.

Definition recalled (items : list MemoryItem) : string :=
  match items with [] => "working memory is empty" | _ => renderMemories items end.

Lemma recall_all (ctx : Ctx) w text evs w' :
  recall st nsFn ctx {| rc_Query := "" |} w = (inr text, evs, w') ->
  text = recalled (view w (current_ns w)) /\ forall ns, view w' ns = view w ns.
Proof.
  unfold recall, eff_bind. rewrite memory_ns_run.
  destruct (mst_List st _ w) as [[r e] w1] eqn:Hl. unfold eff_ret.
  destruct r as [er|items]; [intros; by simplify_eq/=|].
  apply lawful_listing in Hl as [Hv Hi]. specialize (Hi eq_refl ltac:(done)). simpl in Hi.
  intros Heq. assert (w1 = w') by (destruct items; by simplify_eq/=). subst w1. split; [|done].
  rewrite <- Hi. destruct items; by simplify_eq/=.
Qed.

(** What is remembered is recalled, and what is forgotten is not.  Over any
    store that keeps the contract: after a remember that succeeds under a
    non-blank key, that note is among the notes recall renders, under the key
    the answer names, once, and other namespaces are unchanged; after a forget
    that succeeds, no note of that key is rendered and the answer says whether
    there was one. *)
Theorem remember_recall_forget (ctx : Ctx) w key value text evs w1 (Hkey : trim_space key <> "") :
  remember st nsFn randHex ctx {| ra_Key := key; ra_Value := value |} w = (inr text, evs, w1) ->
  (forall w', current_ns w' = current_ns w) ->
  text = "remembered: " +:+ trim_space key /\
  (exists t, {| mi_Key := trim_space key; mi_Value := value; mi_CreatedAt := t |} ∈ view w1 (current_ns w)) /\
  NoDup (map mi_Key (view w1 (current_ns w))) /\
  (forall ns, ns <> current_ns w -> view w1 ns = view w ns) /\
  (forall all evs2 w2, recall st nsFn ctx {| rc_Query := "" |} w1 = (inr all, evs2, w2) ->
     all = renderMemories (view w1 (current_ns w))) /\
  (forall answer evs2 w2, forget st nsFn ctx {| fa_Key := trim_space key |} w1 = (inr answer, evs2, w2) ->
     answer = "forgot: " +:+ trim_space key /\ trim_space key ∉ map mi_Key (view w2 (current_ns w))).
Proof.
  intros Hr Hns. unfold remember in Hr. cbn [ra_Key ra_Value] in Hr.
  destruct (String.eqb_spec (trim_space key) "") as [|_]; [done|].
  unfold eff_bind, eff_ret in Hr. rewrite memory_ns_run in Hr.
  destruct (mst_Put st _ w) as [[[er|[]] e] w'] eqn:Hp; [by simplify_eq/=|].
  simplify_eq/=. apply lawful_put in Hp as (Hin & _ & Hnd & Hother). cbn [pm_Item pm_Namespace mi_Key mi_Value] in *.
  split; [done|]. split; [done|]. split; [done|]. split; [done|]. split.
  - intros all evs2 w2 Hrec. apply recall_all in Hrec as [-> _]. rewrite Hns.
    unfold recalled. destruct (view w1 (current_ns w)); [|done]. destruct Hin as [t Hin]. by apply elem_of_nil in Hin.
  - intros answer evs2 w2 Hf. unfold forget, eff_bind, eff_ret in Hf. rewrite memory_ns_run, Hns in Hf.
    destruct (mst_Delete st _ w1) as [[[er|b] e2] w3] eqn:Hd; [by simplify_eq/=|].
    apply lawful_delete in Hd as (Hb & Hv & _). cbn [dm_Key dm_Namespace fa_Key] in *.
    assert (b = true) as ->.
    { apply Hb. destruct Hin as [t Hin]. apply list_elem_of_fmap. eexists. split; [|exact Hin]. done. }
    simplify_eq/=. split; [done|]. rewrite Hv. intros (it & Heq & [Hne _]%list_elem_of_filter)%list_elem_of_fmap. done.
Qed.
End Tools.

(** ** The in-memory store keeps the contract *)
Section InMemory.
Variables (ToLower : string -> string) (now : Time) (max : Z).
Hypothesis lower_empty : ToLower "" = "".

Definition keyed (l : list (string * MemoryItem)) : Prop := Forall (fun e => mi_Key e.2 = e.1) l.

Definition mem_ok (s : InMemoryMemoryStore) : Prop := exists n, memory_rep max s n /\ forall ns, keyed (n ns).

Record mem_world := { mw_store : InMemoryMemoryStore; mw_ok : mem_ok mw_store }.

(** The notes of a namespace, oldest first. *)
Definition store_view (s : InMemoryMemoryStore) (ns : string) : list MemoryItem :=
  let m := default linked_empty (mem_ns s !! ns) in
  map (fun e => default item_zero (lk_items m !! e.2)) (lk_order m).

Definition mem_view (w : mem_world) : string -> list MemoryItem := store_view (mw_store w).

Lemma linked_view {V} (z : V) (l : linked V) a :
  linked_rep l a -> map (fun e => default z (lk_items l !! e.2)) (lk_order l) = map snd a.
Proof.
  intros R. transitivity (map (fun k => default z (lk_items l !! k)) (map snd (lk_order l))).
  { by rewrite map_map. }
  rewrite (rep_keys _ _ R), map_map. apply map_ext_in. intros [k v] Hin%list_elem_of_In.
  rewrite (rep_items _ _ R). apply entries_get_some in Hin; [|apply R]. simpl. by rewrite Hin.
Qed.

Lemma store_view_rep s n : memory_rep max s n -> forall ns, store_view s ns = map snd (n ns).
Proof. intros R ns. apply linked_view, R. Qed.

Lemma stamp_key it : mi_Key (stamp_item now it) = mi_Key it.
Proof. unfold stamp_item. by case_match. Qed.

Lemma stamp_value it : mi_Value (stamp_item now it) = mi_Value it.
Proof. unfold stamp_item. by case_match. Qed.

Lemma entries_set_keyed l k it : keyed l -> mi_Key it = k -> keyed (entries_set l k it).
Proof.
  unfold keyed. intros Hl Hk. induction l as [|[k' x] l IH]; simpl; [done|].
  apply Forall_cons in Hl as [Hx Hl]. destruct (String.eqb_spec k' k) as [->|]; auto.
Qed.

Lemma entries_put_keyed m l k it : keyed l -> mi_Key it = k -> keyed (entries_put m l k it).
Proof.
  intros Hl Hk. unfold entries_put. case_match; [by apply entries_set_keyed|].
  assert (keyed (l ++ [(k, it)])) by (apply Forall_app; split; [done|by constructor]).
  case_match; [done|]. by apply Forall_drop.
Qed.

(** Entries of another key survive a put or were there before. *)
Lemma entries_put_other m (l : list (string * MemoryItem)) k it e :
  e ∈ entries_put m l k it -> e.1 <> k -> e ∈ l.
Proof.
  unfold entries_put. intros He Hne. destruct (entries_get l k).
  - clear -He Hne. induction l as [|[k' x] l IH]; simpl in *; [done|].
    destruct (String.eqb_spec k' k) as [->|].
    + apply elem_of_cons in He as [->|He]; [done|]. by right.
    + apply elem_of_cons in He as [->|He]; [by left|]. right. auto.
  - assert (e ∈ l ++ [(k, it)]) as [| ->%list_elem_of_singleton]%elem_of_app; [|done..].
    case_match; [done|]. rewrite <- (take_drop (length (l ++ [(k, it)]) - m) (l ++ [(k, it)])).
    apply elem_of_app. by right.
Qed.

Lemma keyed_keys l : keyed l -> map mi_Key (map snd l) = map fst l.
Proof. unfold keyed. induction 1 as [|e l He _ IH]; simpl; congruence. Qed.

Lemma put_ok req s : mem_ok s -> mem_ok (PutMemory now req s).
Proof.
  intros (n & R & K). eexists. split; [apply (store_answer_rep ToLower max s n (MPut now req) R)|].
  intros ns. simpl. case_match; [|done]. apply entries_put_keyed; done.
Qed.

Lemma list_ok req s : mem_ok s -> mem_ok (ListMemories ToLower req s).2.
Proof.
  intros (n & R & K). destruct (store_answer_rep ToLower max s n (MList req) R) as [_ R']. simpl in R'.
  exists n. split; [|done]. by destruct (ListMemories ToLower req s).
Qed.

Lemma entries_delete_keyed l k : keyed l -> keyed (entries_delete l k).2.
Proof. intros Hl. unfold entries_delete. case_match; [|done]. by apply Forall_filter_sub. Qed.

Lemma delete_ok req s : mem_ok s -> mem_ok (DeleteMemory req s).2.
Proof.
  intros (n & R & K). destruct (store_answer_rep ToLower max s n (MDelete req) R) as [_ R']. simpl in R'.
  destruct (DeleteMemory req s) as [b s']. eexists. split; [exact R'|].
  intros ns. unfold on_namespace. pose proof (entries_delete_keyed (n (dm_Namespace req)) (dm_Key req) (K _)) as Hk.
  destruct (entries_delete _ _). simpl in *. by case_match.
Qed.

Definition in_memory : MemoryStore mem_world unit :=
  {| mst_Put := fun req w =>
       (inr tt, [], {| mw_store := PutMemory now req (mw_store w); mw_ok := put_ok req _ (mw_ok w) |});
     mst_List := fun req w =>
       (inr (ListMemories ToLower req (mw_store w)).1, [],
        {| mw_store := (ListMemories ToLower req (mw_store w)).2; mw_ok := list_ok req _ (mw_ok w) |});
     mst_Delete := fun req w =>
       (inr (DeleteMemory req (mw_store w)).1, [],
        {| mw_store := (DeleteMemory req (mw_store w)).2; mw_ok := delete_ok req _ (mw_ok w) |}) |}.

Lemma itemsOf_scored l : itemsOf (map (fun it => {| sm_Item := it; sm_Score := score_one |}) l) = l.
Proof. unfold itemsOf. rewrite map_map. apply map_id. Qed.

#[export] Instance in_memory_lawful : LawfulMemory in_memory mem_view.
Proof.
  split.
  - intros req w evs w' [= <- <-]. pose proof (mw_ok w) as (n & R & K). unfold mem_view; cbn [mw_store].
    destruct (store_answer_rep ToLower max _ n (MPut now req) R) as [_ R']. simpl in R'.
    set (it := stamp_item now (pm_Item req)) in *.
    set (l := entries_put (Z.to_nat max) (n (pm_Namespace req)) (mi_Key it) it) in *.
    assert (mi_Key it = mi_Key (pm_Item req)) as Hk by apply stamp_key.
    pose proof (mr_ns _ _ _ R' (pm_Namespace req)) as Hl. simpl in Hl. rewrite String.eqb_refl in Hl.
    assert (keyed l) as Hkl by (apply entries_put_keyed; done).
    pose proof (store_view_rep _ _ R') as Hv. pose proof (store_view_rep _ _ R) as Hv0.
    rewrite !Hv, String.eqb_refl. split; [|split; [|split]].
    + exists (mi_CreatedAt it). apply list_elem_of_fmap. exists (mi_Key it, it). split.
      * simpl. rewrite <- Hk. unfold it. rewrite <- (stamp_value (pm_Item req)). by destruct (stamp_item now (pm_Item req)).
      * apply entries_get_some; [apply Hl|]. apply entries_put_get.
    + intros x (e & -> & He)%list_elem_of_fmap Hne. rewrite Hv0. apply list_elem_of_fmap.
      exists e. split; [done|]. eapply entries_put_other; [exact He|].
      unfold keyed in Hkl. rewrite Forall_forall in Hkl. rewrite <- (Hkl _ He). congruence.
    + rewrite keyed_keys by done. apply Hl.
    + intros ns Hne. rewrite Hv, Hv0. by destruct (String.eqb_spec ns (pm_Namespace req)).
  - intros req w items evs w' [= <- <- <-]. pose proof (mw_ok w) as (n & R & K). unfold mem_view; cbn [mw_store].
    destruct (store_answer_rep ToLower max _ n (MList req) R) as [Ha R']. simpl in Ha, R'.
    destruct (ListMemories ToLower req (mw_store w)) as [items' s'] eqn:HL. simpl in *.
    pose proof (store_view_rep _ _ R') as Hv. pose proof (store_view_rep _ _ R) as Hv0. split.
    + intros ns. by rewrite Hv, Hv0.
    + intros Hq Hlim. rewrite Hv0. injection Ha as ->. unfold cap_items.
      rewrite (proj2 (Z.ltb_ge 0 (lm_Limit req))) by done. rewrite itemsOf_scored, Hq, lower_empty.
      apply filter_all, Forall_forall. intros it _. unfold item_matches. by rewrite String.eqb_refl.
  - intros req w b evs w' [= <- <- <-]. pose proof (mw_ok w) as (n & R & K). unfold mem_view; cbn [mw_store].
    destruct (store_answer_rep ToLower max _ n (MDelete req) R) as [Ha R']. simpl in Ha, R'. unfold on_namespace in *.
    destruct (DeleteMemory req (mw_store w)) as [b s'] eqn:HD. simpl in *.
    pose proof (store_view_rep _ _ R') as Hv. pose proof (store_view_rep _ _ R) as Hv0.
    rewrite Hv, !Hv0. setoid_rewrite Hv. setoid_rewrite Hv0. clear Hv Hv0 HD R'.
    pose proof (rep_nodup _ _ (mr_ns _ _ _ R (dm_Namespace req))) as Hnd. specialize (K (dm_Namespace req)).
    rewrite keyed_keys by done. unfold entries_delete in *.
    destruct (entries_get (n (dm_Namespace req)) (dm_Key req)) as [x|] eqn:Hg; simpl in *; injection Ha as ->; rewrite String.eqb_refl.
    + split; [|split; [|intros ns Hne; by destruct (String.eqb_spec ns (dm_Namespace req))]].
      * split; [|done]. intros _. apply entries_get_some in Hg; [|done]. apply list_elem_of_fmap. by exists (dm_Key req, x).
      * clear -K. induction K as [|[k it] l Hk _ IH]; [done|]. simpl in Hk. rewrite filter_cons. cbn [map snd fst].
        rewrite filter_cons, Hk. case_decide; simpl; by rewrite IH.
    + apply entries_get_none in Hg. split; [|split; [|intros ns Hne; by destruct (String.eqb_spec ns (dm_Namespace req))]].
      * split; [done|]. intros Hin. by destruct Hg.
      * symmetry. apply filter_all, Forall_forall. intros it Hit Heq. apply Hg. rewrite <- Heq.
        rewrite <- keyed_keys by done. by apply list_elem_of_fmap_2.
Qed.
End InMemory.

(** The source lists its three tools, in order. *)
Lemma memory_source_tools {Ctx W E} (store : MemoryStore W E) nsFn randHex (c : MemoryCodec) :
  (forall name, mcd_schema c name = None) ->
  exists fs, NewMemorySource (Ctx:=Ctx) store nsFn randHex c = inr fs /\
    names_of (fn_defs fs) = [RememberToolName; RecallToolName; ForgetToolName].
Proof. intros H. unfold NewMemorySource, AddFunc, funcToolDef. rewrite !H. eexists. split; reflexivity. Qed.

(** ** Concrete scratchpads *)
Definition ascii_lower (s : string) : string :=
  String.string_of_list_ascii (map (fun c => if in_range 65 90 c then Ascii.ascii_of_nat (code c + 32) else c)
                                 (String.list_ascii_of_string s)).

Lemma memory_store_refines_witness :
  exists s, respond (store_answer ascii_lower) (NewInMemoryMemoryStore [WithMaxMemories 2])
    [MPut 1 {| pm_Item := {| mi_Key := "a"; mi_Value := "Red"; mi_CreatedAt := 0 |}; pm_Namespace := "x" |};
     MPut 2 {| pm_Item := {| mi_Key := "b"; mi_Value := "red"; mi_CreatedAt := 0 |}; pm_Namespace := "x" |};
     MPut 3 {| pm_Item := {| mi_Key := "c"; mi_Value := "blue"; mi_CreatedAt := 0 |}; pm_Namespace := "x" |};
     MList {| lm_Query := "RED"; lm_Limit := 0; lm_Namespace := "x" |};
     MDelete {| dm_Key := "c"; dm_Namespace := "y" |}]
  = ([RPut; RPut; RPut; RList [{| sm_Item := {| mi_Key := "b"; mi_Value := "red"; mi_CreatedAt := 2 |}; sm_Score := 1 |}];
      RDelete false], s).
Proof.
  set (rs := [MPut 1 _; _; _; _; _]).
  pose proof (memory_store_refines ascii_lower 2 rs ltac:(done)) as H.
  destruct (respond (store_answer ascii_lower) (NewInMemoryMemoryStore [WithMaxMemories 2]) rs) as [out s] eqn:Ho.
  destruct (respond (notes_answer ascii_lower 2) (fun _ => []) rs) as [out' n] eqn:Hn.
  destruct H as [-> _]. exists s. f_equal. apply (f_equal fst) in Hn. simpl in Hn. rewrite <- Hn. vm_compute. reflexivity.
Defined.

Lemma empty_mem_ok : mem_ok 0 (NewInMemoryMemoryStore []).
Proof.
  exists (fun _ => []). split; [|intros ns; constructor]. by apply (new_memory_rep 0).
Qed.

Definition empty_world : mem_world 0 := {| mw_store := _; mw_ok := empty_mem_ok |}.

Definition demo_memory : MemoryStore (mem_world 0) unit := in_memory ascii_lower 7 0.

Lemma remember_recall_forget_witness :
  exists w1 w2, remember demo_memory None (fun _ => eff_ret "00") tt {| ra_Key := " tea "; ra_Value := "green" |} empty_world
      = (inr "remembered: tea", [], w1) /\
    recall demo_memory None tt {| rc_Query := "" |} w1 = (inr "- tea: green", [], w2).
Proof.
  destruct (remember demo_memory None (fun _ => eff_ret "00") tt {| ra_Key := " tea "; ra_Value := "green" |} empty_world)
    as [[r evs] w1] eqn:Hr.
  assert (r = inr "remembered: tea" /\ evs = []) as [-> ->]
    by (apply (f_equal fst) in Hr; vm_compute in Hr; by simplify_eq).
  pose proof (in_memory_lawful ascii_lower 7 0 eq_refl) as L.
  destruct (remember_recall_forget demo_memory (mem_view 0) (LawfulMemory0:=L) None (fun _ => eff_ret "00") tt empty_world
              " tea " "green" _ _ w1 ltac:(vm_compute; discriminate) Hr ltac:(done)) as (_ & _ & _ & _ & Hrec & _).
  destruct (recall demo_memory None tt {| rc_Query := "" |} w1) as [[r2 evs2] w2] eqn:H2.
  exists w1, w2. split; [done|]. rewrite H2. apply (f_equal snd) in Hr. cbn [snd] in Hr. subst w1.
  apply (f_equal fst) in H2. vm_compute in H2. by simplify_eq.
Defined.
