(* ===== verification/Offload.v ===== *)
(** * Offloaded tool results: src/toolresultstore.go, src/offloading_source.go

    [OffloadingSource] stores large results out of band, leaves a stub in the
    conversation and serves windows and line searches over what it stored.
    The store is a seam with the contract [LawfulResults]; the in-memory store
    is a bounded ordered map (Linked.v).  The hash of a text and the compiled
    regular expressions are parameters.  Slicing out of range panics: what can
    panic returns an option. *)

From S2P Require Import Prelude GoStr Errors Json Provider Middleware MultiSource Dispatch FuncSource Linked.
Local Open Scope eff_scope.

(** ** The store *)
Record InMemoryToolResultStore := {
  trs_linked : linked ToolResult;
  trs_tracked : bool;
  trs_maxEntries : Z;
}.

Definition ToolResultStoreOption := InMemoryToolResultStore -> InMemoryToolResultStore.

Definition WithMaxToolResults (n : Z) : ToolResultStoreOption := fun s =>
  if Z.ltb 0 n then
    {| trs_linked := {| lk_items := lk_items (trs_linked s); lk_order := []; lk_elems := ∅; lk_next := 0 |};
       trs_tracked := true; trs_maxEntries := n |}
  else s.

Definition NewInMemoryToolResultStore (opts : list ToolResultStoreOption) : InMemoryToolResultStore :=
  fold_left (fun s o => o s) opts {| trs_linked := linked_empty; trs_tracked := false; trs_maxEntries := 0 |}.

Definition PutToolResult (ref : string) (res : ToolResult) (s : InMemoryToolResultStore) : InMemoryToolResultStore :=
  {| trs_linked :=
       if trs_tracked s then linked_put (Z.to_nat (trs_maxEntries s)) (trs_linked s) ref res
       else with_item ref res (trs_linked s);
     trs_tracked := trs_tracked s; trs_maxEntries := trs_maxEntries s |}.

Definition GetToolResult (ref : string) (s : InMemoryToolResultStore) : option ToolResult :=
  lk_items (trs_linked s) !! ref.

(** The seam: a lookup answers [None] for a ref it does not hold. *)
Record ToolResultStore {W E : Type} := {
  ts_Put : string -> ToolResult -> eff W E (result unit);
  ts_Get : string -> eff W E (result (option ToolResult));
}.
Arguments ToolResultStore : clear implicits.

(** ** Searching *)
Record span := { sp_start : Z; sp_end : Z }.

Fixpoint hits_from (i : Z) (matches : string -> bool) (lines : list string) : list Z :=
  match lines with
  | [] => []
  | l :: lines => if matches l then i :: hits_from (i + 1) matches lines else hits_from (i + 1) matches lines
  end.

Definition widen (ctx n h : Z) : span :=
  {| sp_start := Z.max 0 (h - ctx); sp_end := Z.min n (wrap64 (h + ctx + 1)) |}.

(** The loop that merges a span into the previous one when they touch. *)
Fixpoint add_span (spans : list span) (s : span) : list span :=
  match spans with
  | [] => [s]
  | [p] => if Z.leb (sp_start s) (sp_end p)
           then [if Z.ltb (sp_end p) (sp_end s) then {| sp_start := sp_start p; sp_end := sp_end s |} else p]
           else [p; s]
  | p :: spans => p :: add_span spans s
  end.

Definition merge_spans (l : list span) : list span := foldl add_span [] l.

(** [lines[s.start:s.end]]. *)
Definition slice_lines (lines : list string) (s : span) : option (list string) :=
  if (Z.leb 0 (sp_start s) && Z.leb (sp_start s) (sp_end s) && Z.leb (sp_end s) (Z.of_nat (length lines)))%bool
  then Some (take (Z.to_nat (sp_end s - sp_start s)) (drop (Z.to_nat (sp_start s)) lines)) else None.

Definition span_size (s : span) : Z := (sp_end s - sp_start s)%Z.

(** Blocks until one does not fit: what is shown and what is left. *)
Fixpoint show_spans (lines : list string) (limit shown : Z) (first : bool) (spans : list span)
    : option (list string * list span) :=
  match spans with
  | [] => Some ([], [])
  | s :: rest =>
      if Z.ltb limit (shown + span_size s) then Some ([], spans)
      else
        block ← slice_lines lines s;
        '(out, hidden) ← show_spans lines limit (shown + span_size s) false rest;
        Some ((if first then [] else ["--"]) ++ block ++ out, hidden)
  end.

Definition defaultGrepMaxLines : Z := 200.

Definition ellipsis : string := byte_of 226 +:+ byte_of 128 +:+ byte_of 166.

Definition hidden_note (hidden : list span) (limit : Z) : string :=
  ellipsis +:+ " " +:+ itoa (foldr (fun s n => (span_size s + n)%Z) 0%Z hidden) +:+ " more matching line(s) in " +:+
  itoa (Z.of_nat (length hidden)) +:+ " more block(s) not shown (limit " +:+ itoa limit +:+
  "); narrow the pattern or raise limit.".

Definition grepLines (lines : list string) (matches : string -> bool) (ctx limit : Z) (ref pattern : string)
    : option string :=
  let ctx := if Z.ltb ctx 0 then 0%Z else ctx in
  let limit := if Z.leb limit 0 then defaultGrepMaxLines else limit in
  match hits_from 0 matches lines with
  | [] => Some ("no lines in " +:+ ref +:+ " match " +:+ go_quote pattern +:+ ".")
  | hits =>
      let spans := merge_spans (map (widen ctx (Z.of_nat (length lines))) hits) in
      '(out, hidden) ← show_spans lines limit 0 true spans;
      Some (str_join newline (out ++ match hidden with [] => [] | _ => [hidden_note hidden limit] end))
  end.

(** ** Windows *)
Record readToolResultArgs := {
  rt_Ref : string;
  rt_Offset : Z;
  rt_Limit : Z;
  rt_Pattern : string;
  rt_Context : Z;
}.

Definition defaultReadLimit : Z := 4000.

(** [text[offset:end]]. *)
Definition slice_str (text : string) (lo hi : Z) : option string :=
  if (Z.leb 0 lo && Z.leb lo hi && Z.leb hi (Z.of_nat (String.length text)))%bool
  then Some (str_take (Z.to_nat (hi - lo)) (str_drop (Z.to_nat lo) text)) else None.

(** The window and its end. *)
Definition window (text : string) (offset limit : Z) : option (string * Z) :=
  let limit := if Z.leb limit 0 then defaultReadLimit else limit in
  let len := Z.of_nat (String.length text) in
  let fin := wrap64 (offset + limit) in
  let fin := if Z.ltb len fin then len else fin in
  w ← slice_str text offset fin;
  Some (w, fin).

Definition read_text (compile : string -> result (string -> bool)) (text : string) (inp : readToolResultArgs)
    : option (result string) :=
  if negb (String.eqb (rt_Pattern inp) "") then
    match compile (rt_Pattern inp) with
    | inl e => Some (inl (wrap_error ("invalid pattern " +:+ go_quote (rt_Pattern inp) +:+ ": ") e))
    | inr re =>
        out ← grepLines (split_lines text) re (rt_Context inp) (rt_Limit inp) (rt_Ref inp) (rt_Pattern inp);
        Some (inr out)
    end
  else
    let offset := if Z.ltb (rt_Offset inp) 0 then 0%Z else rt_Offset inp in
    let len := Z.of_nat (String.length text) in
    if Z.leb len offset then
      Some (inr ("offset " +:+ itoa offset +:+ " is past the end of " +:+ rt_Ref inp +:+ " (" +:+ itoa len +:+ " chars)."))
    else
      '(w, fin) ← window text offset (rt_Limit inp);
      Some (inr (if Z.ltb fin len
                 then w +:+ newline +:+ ellipsis +:+ " (" +:+ itoa (len - fin) +:+ " more chars; call again with offset=" +:+
                      itoa fin +:+ ")"
                 else w)).

(** ** The source *)
Record OffloadConfig := {
  oc_Threshold : Z;
  oc_PreviewLen : Z;
  oc_PerToolThreshold : gmap string Z;
}.

Definition defaultOffloadThreshold : Z := 4096.
Definition defaultOffloadPreview : Z := 400.

Definition offload_defaults (cfg : OffloadConfig) : OffloadConfig :=
  {| oc_Threshold := if Z.eqb (oc_Threshold cfg) 0 then defaultOffloadThreshold else oc_Threshold cfg;
     oc_PreviewLen := if Z.eqb (oc_PreviewLen cfg) 0 then defaultOffloadPreview else oc_PreviewLen cfg;
     oc_PerToolThreshold := oc_PerToolThreshold cfg |}.

Definition ReadToolResultName : string := "read_tool_result".

Definition read_description : string :=
  "Fetch a previously offloaded tool result by its ref. Give offset+limit for a character window, or pattern (a regular expression) to return only matching lines. With pattern, add context=N to also get N lines either side of each match, which is how you see why something failed rather than only that it did. Refs appear in tool-result stubs like [tool result 52KB, stored as res:ab12].".

Section Source.
Context {Ctx W E : Type}.
Variables (sha48 : string -> string) (compile : string -> result (string -> bool)).
Variables (schema : option error) (encode : tool_args -> result RawJSON) (decode : RawJSON -> result readToolResultArgs).

Record OffloadingSource := {
  os_src : ToolSource Ctx W E;
  os_store : ToolResultStore W E;
  os_cfg : OffloadConfig;
  os_read : list ToolDef;
}.

(** A nil store panics; a read tool whose schema cannot be generated is
    silently missing. *)
Definition NewOffloadingSource (src : ToolSource Ctx W E) (store : option (ToolResultStore W E)) (cfg : OffloadConfig)
    : option OffloadingSource :=
  match store with
  | None => None
  | Some store =>
      Some {| os_src := src; os_store := store; os_cfg := offload_defaults cfg;
              os_read := match funcToolDef ReadToolResultName read_description schema [ReadOnly] with
                         | inl _ => []
                         | inr def => [def]
                         end |}
  end.

(** The first six bytes of the SHA-256 in hexadecimal. *)
Definition contentRef (text : string) : string := "res:" +:+ sha48 text.

Definition stub (o : OffloadingSource) (ref text : string) (seen : bool) : option string :=
  let head := "[tool result " +:+ itoa (Z.of_nat (String.length text)) +:+ "B, stored as " +:+ ref +:+ "]" +:+ newline in
  if seen then
    Some (head +:+ "This is identical to an earlier result stored under the same ref. If you already read it in this conversation, nothing has changed and you don't need to read it again. Otherwise call " +:+
          ReadToolResultName +:+ "(ref=" +:+ go_quote ref +:+ ") " +:+ byte_of 226 +:+ byte_of 128 +:+ byte_of 148 +:+
          " add offset+limit for a window, or pattern to grep.")
  else
    let truncated := Z.ltb (oc_PreviewLen (os_cfg o)) (Z.of_nat (String.length text)) in
    preview ← (if truncated then slice_str text 0 (oc_PreviewLen (os_cfg o)) else Some text);
    Some (head +:+ "preview: " +:+ preview +:+ (if truncated then ellipsis else "") +:+ newline +:+ "call " +:+
          ReadToolResultName +:+ "(ref=" +:+ go_quote ref +:+ ") for the full output " +:+
          byte_of 226 +:+ byte_of 128 +:+ byte_of 148 +:+
          " add offset+limit for a window, or pattern to grep (with context=N for the lines around each match).").

Definition threshold_of (o : OffloadingSource) (name : string) : option Z :=
  match oc_PerToolThreshold (os_cfg o) !! name with
  | Some t => if Z.leb t 0 then None else Some t
  | None => Some (oc_Threshold (os_cfg o))
  end.

Definition stub_result (text : string) : ToolResult :=
  {| tr_Content := [{| c_Type := "text"; c_Text := text |}]; tr_IsError := false; tr_StructuredContent := None |}.

Definition maybeOffload (o : OffloadingSource) (name : string) (res : ToolResult) : eff W E (option call_out) :=
  if tr_IsError res then eff_ret (Some (Some res, None))
  else match threshold_of o name with
  | None => eff_ret (Some (Some res, None))
  | Some threshold =>
      let text := toolResultText res in
      if Z.ltb (Z.of_nat (String.length text)) threshold then eff_ret (Some (Some res, None))
      else
        let ref := contentRef text in
        let* got := ts_Get (os_store o) ref in
        let seen := match got with inr (Some _) => true | _ => false end in
        let* err := (if seen then eff_ret (inr tt) else ts_Put (os_store o) ref res) in
        match err with
        | inl e => eff_ret (Some (None, Some (wrap_error ("agent: offloading " +:+ go_quote name +:+ " result: ") e)))
        | inr _ =>
            match stub o ref text seen with
            | None => eff_ret None
            | Some t => eff_ret (Some (Some (stub_result t), None))
            end
        end
  end.

Definition readToolResult (o : OffloadingSource) (inp : readToolResultArgs) : eff W E (option (result string)) :=
  let* got := ts_Get (os_store o) (rt_Ref inp) in
  match got with
  | inl e => eff_ret (Some (inl (wrap_error ("reading tool result " +:+ go_quote (rt_Ref inp) +:+ ": ") e)))
  | inr None =>
      eff_ret (Some (inr ("tool result " +:+ go_quote (rt_Ref inp) +:+
                          " is no longer available (expired or evicted); re-run the tool if you still need it.")))
  | inr (Some res) => eff_ret (read_text compile (toolResultText res) inp)
  end.

(** The handler that [AddFunc] builds around [readToolResult]. *)
Definition read_Call (o : OffloadingSource) (args : tool_args) : eff W E (option call_out) :=
  match os_read o with
  | [] => eff_ret (Some (None, Some (wrap_sentinel ErrUnknownTool (": " +:+ go_quote ReadToolResultName))))
  | _ =>
      match encode args with
      | inl e => eff_ret (Some (None, Some (wrap_error ("agent: encode args for " +:+ go_quote ReadToolResultName +:+ ": ") e)))
      | inr raw =>
          match decode raw with
          | inl e => eff_ret (Some (Some (errorToolResult ("invalid arguments: " +:+ error_text e)), None))
          | inr inp =>
              let* r := readToolResult o inp in
              eff_ret (match r with
                       | None => None
                       | Some (inl e) => Some (Some (errorToolResult (error_text e)), None)
                       | Some (inr out) => Some (Some (ok_result out), None)
                       end)
          end
      end
  end.

Definition off_Tools (o : OffloadingSource) (ctx : Ctx) : eff W E (result (list ToolDef)) :=
  let* r := src_Tools (os_src o) ctx in
  eff_ret (match r with
           | inl e => inl e
           | inr defs => inr (defs ++ os_read o)
           end).

(** [None] is a panic. *)
Definition off_Call (o : OffloadingSource) (ctx : Ctx) (name : string) (args : tool_args) : eff W E (option call_out) :=
  if String.eqb name ReadToolResultName then read_Call o args
  else
    let* r := src_Call (os_src o) ctx name args in
    match r with
    | (Some res, None) => maybeOffload o name res
    | _ => eff_ret (Some r)
    end.
End Source.
Arguments OffloadingSource : clear implicits.

(** ** What a search returns *)
Section Grep.
Local Open Scope Z_scope.

Definition in_span (j : Z) (s : span) : Prop := sp_start s <= j < sp_end s.

Definition covered (spans : list span) (j : Z) : Prop := exists s, s ∈ spans /\ in_span j s.

(** Blocks in order with a gap between them. *)
Fixpoint separated (l : list span) : Prop :=
  match l with
  | a :: ((b :: _) as rest) => sp_end a < sp_start b /\ separated rest
  | _ => True
  end.

Definition proper (n : Z) (s : span) : Prop := 0 <= sp_start s < sp_end s /\ sp_end s <= n.

Lemma separated_snoc l p s : separated (l ++ [p]) -> sp_end p < sp_start s -> separated (l ++ [p; s]).
Proof. induction l as [|a [|b l] IH]; simpl in *; intuition. Qed.

Lemma separated_grow l p p' : separated (l ++ [p]) -> sp_start p' = sp_start p -> separated (l ++ [p']).
Proof. induction l as [|a [|b l] IH]; simpl in *; intuition congruence. Qed.

Definition merged (p s : span) : span :=
  if Z.ltb (sp_end p) (sp_end s) then {| sp_start := sp_start p; sp_end := sp_end s |} else p.

Lemma add_span_snoc l p s :
  add_span (l ++ [p]) s = l ++ if Z.leb (sp_start s) (sp_end p) then [merged p s] else [p; s].
Proof.
  induction l as [|a l IH]; [done|]. cbn [app add_span]. rewrite IH. by destruct l.
Qed.

Lemma covered_app l l' j : covered (l ++ l') j <-> covered l j \/ covered l' j.
Proof. unfold covered. setoid_rewrite elem_of_app. naive_solver. Qed.

Lemma covered_one s j : covered [s] j <-> in_span j s.
Proof. unfold covered. setoid_rewrite list_elem_of_singleton. naive_solver. Qed.

(** Spans of increasing hits, merged: what the loop holds. *)
Record merged_ok (n : Z) (ss spans : list span) : Prop := {
  mg_proper : Forall (proper n) spans;
  mg_separated : separated spans;
  mg_cover j : covered spans j <-> covered ss j;
  mg_last : match last spans, last ss with
            | Some p, Some s => sp_end p = sp_end s /\ sp_start p <= sp_start s
            | None, None => True
            | _, _ => False
            end;
}.

Definition increasing (a b : span) : Prop := sp_start a <= sp_start b /\ sp_end a <= sp_end b.

Lemma merged_ok_snoc n ss spans s :
  merged_ok n ss spans -> proper n s -> (forall p, last ss = Some p -> increasing p s) ->
  merged_ok n (ss ++ [s]) (add_span spans s).
Proof.
  intros M Hs Hinc. destruct spans as [|p0 rest] eqn:Hsp using rev_ind.
  - simpl. pose proof (mg_last _ _ _ M) as Hl. pose proof (mg_cover _ _ _ M) as Hc. simpl in Hl.
    split; [by constructor|done| |rewrite last_snoc; simpl; lia].
    intros j. rewrite covered_app, <- Hc. unfold covered. set_solver.
  - clear IHrest. rename p0 into p, rest into l. rewrite add_span_snoc.
    pose proof (mg_last _ _ _ M) as Hl. rewrite last_snoc in Hl.
    destruct (last ss) as [q|] eqn:Hq; [|done]. destruct Hl as [He Hst]. destruct (Hinc q eq_refl) as [Hi1 Hi2].
    pose proof (mg_proper _ _ _ M) as [Hpl Hpp]%Forall_app. rewrite Forall_singleton in Hpp.
    pose proof (mg_separated _ _ _ M) as Hsep. pose proof (mg_cover _ _ _ M) as Hc.
    assert (Hpp' := Hpp). assert (Hs' := Hs). unfold proper in Hpp', Hs'.
    destruct (Z.leb_spec (sp_start s) (sp_end p)) as [Htouch|Hgap].
    + assert (sp_start (merged p s) = sp_start p /\ sp_end (merged p s) = sp_end s) as [Hms Hme]
        by (unfold merged; destruct (Z.ltb_spec (sp_end p) (sp_end s)); simpl; lia).
      split.
      * apply Forall_app. split; [done|]. apply Forall_singleton. unfold proper. lia.
      * by eapply separated_grow.
      * intros j. rewrite !covered_app, <- Hc, covered_app, !covered_one. unfold in_span. rewrite Hms, Hme.
        assert (sp_start p <= j < sp_end s <-> (sp_start p <= j < sp_end p \/ sp_start s <= j < sp_end s)) by lia. tauto.
      * rewrite !last_snoc. lia.
    + split.
      * apply Forall_app. split; [done|]. constructor; [|by apply Forall_singleton]. unfold proper. lia.
      * by apply separated_snoc.
      * intros j. change [p; s] with ([p] ++ [s]). rewrite !covered_app, <- Hc, covered_app. tauto.
      * change [p; s] with ([p] ++ [s]). rewrite app_assoc, !last_snoc. lia.
Qed.

Lemma merge_spans_ok n ss :
  Forall (proper n) ss -> StronglySorted increasing ss -> merged_ok n ss (merge_spans ss).
Proof.
  induction ss as [|s ss IH] using rev_ind; intros Hp Hs.
  { split; [done|done|done|done]. }
  apply Forall_app in Hp as [Hp Hps]. rewrite Forall_singleton in Hps.
  unfold merge_spans. rewrite foldl_snoc. apply merged_ok_snoc; [|done|].
  - apply IH; [done|]. clear -Hs. induction ss as [|x ss IH]; [constructor|].
    simpl in Hs. apply StronglySorted_inv in Hs as [Hs Hx]. constructor; [auto|]. by apply Forall_app in Hx as [? _].
  - intros q Hq. apply last_Some in Hq as [l ->]. clear -Hs. induction l as [|x l IH]; simpl in Hs.
    + apply StronglySorted_inv in Hs as [_ Hx]. by rewrite Forall_singleton in Hx.
    + apply StronglySorted_inv in Hs as [Hs _]. auto.
Qed.

Lemma hits_from_spec i matches lines h :
  h ∈ hits_from i matches lines <->
  i <= h /\ exists line, lines !! Z.to_nat (h - i) = Some line /\ matches line = true.
Proof.
  revert i. induction lines as [|l lines IH]; intros i; simpl.
  { split; [by intros ?%elem_of_nil|]. intros (_ & line & [=] & _). }
  assert (h ∈ hits_from (i + 1) matches lines <->
          i + 1 <= h /\ exists line, (l :: lines) !! Z.to_nat (h - i) = Some line /\ matches line = true) as Hr.
  { rewrite IH. split; intros (Hi & line & Hl & Hm); split; auto; exists line; split; auto.
    - replace (Z.to_nat (h - i)) with (S (Z.to_nat (h - (i + 1)))) by lia. done.
    - replace (Z.to_nat (h - i)) with (S (Z.to_nat (h - (i + 1)))) in Hl by lia. done. }
  assert (h = i -> (l :: lines) !! Z.to_nat (h - i) = Some l) as Hh by (intros ->; by rewrite Z.sub_diag).
  destruct (matches l) eqn:Hm; rewrite ?elem_of_cons, Hr; split.
  - intros [->|(? & ?)]; [|split; [lia|done]]. split; [lia|]. exists l. auto.
  - intros (Hi & H). destruct (decide (h = i)); [auto|right]. split; [lia|done].
  - intros (? & ?). split; [lia|done].
  - intros (Hi & line & Hl & Hml). split; [|eauto]. destruct (decide (h = i)) as [Heq|]; [|lia].
    rewrite (Hh Heq) in Hl. congruence.
Qed.

Lemma hits_from_sorted i matches lines : StronglySorted Z.lt (hits_from i matches lines).
Proof.
  revert i. induction lines as [|l lines IH]; intros i; simpl; [constructor|].
  destruct (matches l); [|done]. constructor; [done|]. apply Forall_forall. intros h Hh.
  apply hits_from_spec in Hh as [? _]. lia.
Qed.

Lemma show_spans_spec lines limit shown first spans :
  Forall (proper (Z.of_nat (length lines))) spans ->
  exists out vis hidden blocks, show_spans lines limit shown first spans = Some (out, hidden) /\
    spans = vis ++ hidden /\
    Forall2 (fun s b => slice_lines lines s = Some b) vis blocks /\
    out = concat (imap (fun i b => (if (i =? 0)%nat && first then [] else ["--"]) ++ b) blocks) /\
    (vis <> [] -> shown + foldr (fun s n => span_size s + n) 0 vis <= limit) /\
    (forall s rest, hidden = s :: rest -> limit < shown + foldr (fun s n => span_size s + n) 0 vis + span_size s).
Proof.
  intros Hp. revert shown first. induction Hp as [|s spans Hs _ IH]; intros shown first; cbn [show_spans].
  { exists [], [], [], []. repeat split; try done. }
  destruct (Z.ltb_spec limit (shown + span_size s)) as [Hl|Hl].
  { exists [], [], (s :: spans), []. repeat split; try done. intros s' rest [= <- <-]. simpl. lia. }
  assert (exists b, slice_lines lines s = Some b) as [b Hb].
  { unfold slice_lines, proper in *. rewrite !(proj2 (Z.leb_le _ _)) by lia. eauto. }
  rewrite Hb. cbn [mbind option_bind].
  destruct (IH (shown + span_size s) false) as (out & vis & hidden & blocks & -> & -> & HF & -> & Hfit & Hnext).
  cbn [mbind option_bind]. eexists _, (s :: vis), hidden, (b :: blocks). split; [done|]. split; [done|].
  split; [by constructor|]. split; [|split].
  - cbn [imap concat]. rewrite <- app_assoc. simpl. f_equal. f_equal. f_equal.
    apply imap_ext. intros i x _. simpl. by rewrite andb_false_r.
  - intros _. simpl. destruct vis as [|v vis]; [simpl; lia|]. specialize (Hfit ltac:(done)). lia.
  - intros s' rest Hh. specialize (Hnext _ _ Hh). simpl. lia.
Qed.

Lemma widen_spans n ctx hits :
  0 <= ctx -> n + ctx < int64_max -> StronglySorted Z.lt hits -> Forall (fun h => 0 <= h < n) hits ->
  Forall (proper n) (map (widen ctx n) hits) /\ StronglySorted increasing (map (widen ctx n) hits) /\
  forall j, covered (map (widen ctx n) hits) j <-> 0 <= j < n /\ exists h, h ∈ hits /\ Z.abs (j - h) <= ctx.
Proof.
  intros Hc Hov Hs Hb.
  assert (forall h, 0 <= h < n -> widen ctx n h = {| sp_start := Z.max 0 (h - ctx); sp_end := Z.min n (h + ctx + 1) |}) as Hw.
  { intros h Hh. unfold widen. rewrite wrap64_id; [done|]. unfold in_int64, int64_min, int64_max in *. lia. }
  rewrite Forall_forall in Hb. split; [|split].
  - apply Forall_forall. intros s (h & -> & Hh)%list_elem_of_fmap. rewrite Hw by auto.
    specialize (Hb _ Hh). unfold proper; simpl. lia.
  - induction Hs as [|h hits Hs IH Hh]; simpl; [constructor|]. constructor; [apply IH; set_solver|].
    rewrite Forall_forall in Hh. apply Forall_forall. intros s (h' & -> & Hh')%list_elem_of_fmap.
    rewrite !Hw by (apply Hb; set_solver). specialize (Hh _ Hh'). unfold increasing; simpl. lia.
  - intros j. unfold covered. split.
    + intros (s & (h & -> & Hh)%list_elem_of_fmap & Hin). rewrite Hw in Hin by auto. unfold in_span in Hin. simpl in Hin.
      specialize (Hb _ Hh). split; [lia|]. exists h. split; [done|lia].
    + intros (Hj & h & Hh & Habs). exists (widen ctx n h). split; [by apply list_elem_of_fmap_2|].
      rewrite Hw by auto. unfold in_span; simpl. lia.
Qed.

(** A search shows the lines around each match.  For a context that does
    not overflow, with at least one matching line: the search returns; its
    blocks are in order, separated by a gap and together are exactly the lines
    within [ctx] of a match; it shows the longest run of leading blocks whose
    lines fit the limit, joined with separators, and announces the rest. *)
Theorem grep_shows_neighbourhoods lines matches ctx limit ref pattern :
  0 <= ctx -> 0 < limit -> Z.of_nat (length lines) + ctx < int64_max ->
  hits_from 0 matches lines <> [] ->
  exists vis hidden blocks,
    grepLines lines matches ctx limit ref pattern =
      Some (str_join newline
              (concat (imap (fun i b => (if (i =? 0)%nat then [] else ["--"]) ++ b) blocks) ++
               match hidden with [] => [] | _ => [hidden_note hidden limit] end)) /\
    Forall2 (fun s b => slice_lines lines s = Some b) vis blocks /\
    separated (vis ++ hidden) /\
    (forall j, covered (vis ++ hidden) j <->
       0 <= j < Z.of_nat (length lines) /\
       exists h line, 0 <= h /\ lines !! Z.to_nat h = Some line /\ matches line = true /\ Z.abs (j - h) <= ctx) /\
    foldr (fun s n => span_size s + n) 0 vis <= limit /\
    (forall s rest, hidden = s :: rest -> limit < foldr (fun s n => span_size s + n) 0 vis + span_size s).
Proof.
  intros Hc Hl Hov Hh. unfold grepLines.
  rewrite (proj2 (Z.ltb_ge ctx 0)), (proj2 (Z.leb_gt limit 0)) by lia.
  set (hits := hits_from 0 matches lines) in *. set (n := Z.of_nat (length lines)) in *.
  assert (Forall (fun h => 0 <= h < n) hits) as Hb.
  { apply Forall_forall. intros h Hin. apply hits_from_spec in Hin as (? & line & Hline & _).
    apply lookup_lt_Some in Hline. lia. }
  destruct (widen_spans n ctx hits Hc Hov (hits_from_sorted _ _ _) Hb) as (Hp & Hs & Hcov).
  pose proof (merge_spans_ok n _ Hp Hs) as M. set (spans := merge_spans (map (widen ctx n) hits)) in *.
  destruct (show_spans_spec lines limit 0 true spans (mg_proper _ _ _ M))
    as (out & vis & hidden & blocks & Hshow & Heq & HF & -> & Hfit & Hnext).
  exists vis, hidden, blocks. split.
  { destruct hits as [|h0 hits'] eqn:Ehits; [done|]. fold spans. rewrite Hshow. cbn [mbind option_bind].
    do 3 f_equal. f_equal. apply imap_ext. intros i x _. simpl. by rewrite andb_true_r. }
  rewrite <- Heq. split; [done|]. split; [apply M|]. split; [|split].
  - intros j. rewrite (mg_cover _ _ _ M), Hcov. split.
    + intros (Hj & h & Hin & Habs). apply hits_from_spec in Hin as (Hh0 & line & Hline & Hm).
      rewrite Z.sub_0_r in Hline. split; [done|]. exists h, line. done.
    + intros (Hj & h & line & Hh0 & Hline & Hm & Habs). split; [done|]. exists h. split; [|done].
      apply hits_from_spec. rewrite Z.sub_0_r. eauto.
  - destruct vis as [|v vis]; [simpl; lia|]. specialize (Hfit ltac:(done)). lia.
  - intros s rest Hr. specialize (Hnext _ _ Hr). lia.
Qed.
End Grep.

(** ** Reading a text window by window *)
Section Paging.
Local Open Scope Z_scope.

(** Calls again with the offset each answer names, until nothing is left. *)
Fixpoint read_pages (fuel : nat) (text : string) (offset limit : Z) : option (list string) :=
  match fuel with
  | O => None
  | S fuel =>
      if Z.leb (Z.of_nat (String.length text)) offset then Some []
      else
        '(w, fin) ← window text offset limit;
        rest ← read_pages fuel text fin limit;
        Some (w :: rest)
  end.

Lemma window_spec text offset limit :
  0 <= offset < Z.of_nat (String.length text) -> 0 < limit -> Z.of_nat (String.length text) + limit <= int64_max ->
  let fin := Z.min (Z.of_nat (String.length text)) (offset + limit) in
  window text offset limit = Some (str_take (Z.to_nat (fin - offset)) (str_drop (Z.to_nat offset) text), fin).
Proof.
  intros Ho Hl Hov. cbv zeta. unfold window. rewrite (proj2 (Z.leb_gt limit 0)) by lia.
  rewrite wrap64_id by (unfold in_int64, int64_min, int64_max in *; lia).
  set (len := Z.of_nat (String.length text)) in *.
  replace (if len <? offset + limit then len else offset + limit) with (Z.min len (offset + limit))
    by (destruct (Z.ltb_spec len (offset + limit)); lia).
  unfold slice_str. fold len. rewrite !(proj2 (Z.leb_le _ _)) by lia. done.
Qed.

(** Paging returns the whole text.  Following the offsets the answers name
    from the start, with any positive limit that does not overflow, ends after
    at most one read per byte, every page is at most the limit long, and the
    pages in order are the stored text. *)
Theorem paging_reads_everything text limit :
  0 < limit -> Z.of_nat (String.length text) + limit <= int64_max ->
  exists pages, read_pages (S (String.length text)) text 0 limit = Some pages /\
    str_concat pages = text /\ Forall (fun p => Z.of_nat (String.length p) <= limit) pages.
Proof.
  intros Hl Hov.
  assert (forall fuel offset, 0 <= offset -> (String.length text - Z.to_nat offset < fuel)%nat ->
    exists pages, read_pages fuel text offset limit = Some pages /\
      str_concat pages = str_drop (Z.to_nat offset) text /\
      Forall (fun p => Z.of_nat (String.length p) <= limit) pages) as H.
  { induction fuel as [|fuel IH]; intros offset Ho Hf; [lia|]. cbn [read_pages].
    destruct (Z.leb_spec (Z.of_nat (String.length text)) offset) as [Hend|Hmore].
    - exists []. split; [done|]. split; [|done]. rewrite drop_ge_str by lia. done.
    - rewrite window_spec by lia. cbn [mbind option_bind].
      set (fin := Z.min (Z.of_nat (String.length text)) (offset + limit)).
      destruct (IH fin) as (pages & -> & Hcat & Hlen); [lia|lia|]. cbn [mbind option_bind].
      eexists. split; [done|]. split.
      + change (str_concat (?a :: ?b)) with (a +:+ str_concat b). rewrite Hcat.
        replace (Z.to_nat fin) with (Z.to_nat offset + Z.to_nat (fin - offset))%nat by lia.
        rewrite <- drop_drop_str. apply take_drop_str.
      + constructor; [|done]. rewrite length_take_str. lia. }
  destruct (H (S (String.length text)) 0) as (pages & Hr & Hc & Hlen); [lia|simpl; lia|].
  exists pages. auto.
Qed.
End Paging.

(** ** The contract of a store

    [view] is what a world holds.  A put may evict other refs, never change
    them; a lookup changes nothing. *)
Class LawfulResults {W E} (st : ToolResultStore W E) (view : W -> string -> option ToolResult) : Prop := {
  lawful_ts_put : forall ref res w evs w', ts_Put st ref res w = (inr tt, evs, w') ->
    view w' ref = Some res /\ forall ref', ref' <> ref -> view w' ref' = view w ref' \/ view w' ref' = None;
  lawful_ts_get : forall ref w r evs w', ts_Get st ref w = (r, evs, w') ->
    (forall ref', view w' ref' = view w ref') /\ (forall got, r = inr got -> got = view w ref);
}.

Section RoundTrip.
Context {Ctx W E : Type} (sha48 : string -> string) (compile : string -> result (string -> bool)).
Context (encode : tool_args -> result RawJSON) (decode : RawJSON -> result readToolResultArgs) (o : OffloadingSource Ctx W E).
Context (view : W -> string -> option ToolResult) `{!LawfulResults (os_store o) view}.

(** Every stored result is filed under the hash of its text. *)
Definition filed (w : W) : Prop := forall ref res, view w ref = Some res -> ref = contentRef sha48 (toolResultText res).

(** Offloading loses nothing.  A successful result is either passed on
    unchanged, when its tool is pinned or its text is below the threshold, or
    replaced by a stub, and then the store holds under the ref in the stub a
    result with exactly that text, whether it was stored now or found there;
    the store stays filed by content.  Results that report an error are never
    offloaded. *)
Theorem offload_keeps_text ctx name args res evs w1 w2 out evs2 w3
    (Hname : name <> ReadToolResultName)
    (Hsha : forall ref kept, view w2 ref = Some kept -> sha48 (toolResultText kept) = sha48 (toolResultText res) ->
              toolResultText kept = toolResultText res) :
  src_Call (os_src o) ctx name args w1 = ((Some res, None), evs, w2) -> filed w2 ->
  off_Call sha48 compile encode decode o ctx name args w1
    = (Some (Some out, None), evs2, w3) ->
  let text := toolResultText res in
  (out = res /\ w3 = w2 /\ (tr_IsError res = true \/ threshold_of o name = None \/
     exists t, threshold_of o name = Some t /\ (Z.of_nat (String.length text) < t)%Z)) \/
  (tr_IsError res = false /\ (exists t, threshold_of o name = Some t /\ (t <= Z.of_nat (String.length text))%Z) /\
   (exists seen s, stub o (contentRef sha48 text) text seen = Some s /\ out = stub_result s) /\
   (exists kept, view w3 (contentRef sha48 text) = Some kept /\ toolResultText kept = text) /\ filed w3).
Proof.
  intros Hcall Hnamed Hoff. cbv zeta.
  unfold off_Call in Hoff. destruct (String.eqb_spec name ReadToolResultName); [done|].
  unfold eff_bind at 1 in Hoff. rewrite Hcall in Hoff. unfold maybeOffload in Hoff.
  destruct (tr_IsError res) eqn:He; [left; unfold eff_ret in Hoff; simplify_eq/=; auto|].
  destruct (threshold_of o name) as [t|] eqn:Ht; [|left; unfold eff_ret in Hoff; simplify_eq/=; auto].
  destruct (Z.ltb_spec (Z.of_nat (String.length (toolResultText res))) t) as [Hlt|Hge];
    [left; unfold eff_ret in Hoff; simplify_eq/=; eauto 8|].
  right. split; [done|]. split; [eauto|].
  set (text := toolResultText res) in *. set (ref := contentRef sha48 text) in *.
  unfold eff_bind, eff_ret in Hoff.
  destruct (ts_Get (os_store o) ref w2) as [[got e1] w4] eqn:Hg.
  destruct (lawful_ts_get _ _ _ _ _ Hg) as [Hv4 Hfound].
  destruct got as [er|[found|]].
  1, 3: destruct (ts_Put (os_store o) ref res w4) as [[[er'|[]] e2] w5] eqn:Hp; [by simplify_eq/=|];
    destruct (stub o ref text false) as [s|] eqn:Hs; [|by simplify_eq]; injection Hoff as <- _ <-;
    destruct (lawful_ts_put _ _ _ _ _ Hp) as [Hnew Hold];
    (split; [by exists false, s|]); (split; [by exists res|]);
    intros r x Hx; (destruct (decide (r = ref)) as [->|Hne]; [by rewrite Hnew in Hx; simplify_eq|]);
    (destruct (Hold r Hne) as [Ho|Ho]; rewrite Ho in Hx; [|done]); rewrite Hv4 in Hx; by apply Hnamed.
  destruct (stub o ref text true) as [s|] eqn:Hs; [|by simplify_eq]. injection Hoff as <- _ <-.
  split; [by exists true, s|]. specialize (Hfound _ eq_refl). split.
  - exists found. rewrite Hv4. split; [done|]. symmetry in Hfound. apply (Hsha ref); [done|]. apply Hnamed in Hfound.
    unfold ref, contentRef in Hfound. apply (f_equal (str_drop 4)) in Hfound. simpl in Hfound. done.
  - intros r x. rewrite Hv4. apply Hnamed.
Qed.
End RoundTrip.

(** ** The in-memory store keeps the contract *)
Definition results_ok (s : InMemoryToolResultStore) : Prop :=
  trs_tracked s = true -> exists a, linked_rep (trs_linked s) a.

Record results_world := { rw_store : InMemoryToolResultStore; rw_ok : results_ok rw_store }.

Definition results_view (w : results_world) (ref : string) : option ToolResult := GetToolResult ref (rw_store w).

Lemma entries_put_evicts {V} max (a : list (string * V)) key v k :
  NoDup (map fst a) -> k <> key ->
  entries_get (entries_put max a key v) k = entries_get a k \/ entries_get (entries_put max a key v) k = None.
Proof.
  intros Hnd Hne. unfold entries_put. destruct (entries_get a key) eqn:Hk.
  - left. rewrite entries_get_set by eauto. by destruct (String.eqb_spec key k).
  - apply entries_get_none in Hk. set (b := a ++ [(key, v)]).
    assert (NoDup (map fst b)) as Hb.
    { unfold b. rewrite map_app. apply NoDup_app. split; [done|]. split; [|apply NoDup_singleton].
      by intros ? ? ->%list_elem_of_singleton. }
    assert (entries_get b k = entries_get a k) as Hbk.
    { unfold b. rewrite entries_get_app. destruct (entries_get a k); [done|]. simpl. by destruct (String.eqb_spec key k). }
    case_match; [by left|]. rewrite <- Hbk.
    destruct (entries_get (drop (length b - max) b) k) as [x|] eqn:Hx; [left|by right].
    symmetry. apply entries_get_some; [done|].
    assert (NoDup (map fst (drop (length b - max) b))) as Hd.
    { rewrite <- (take_drop (length b - max) b), map_app in Hb. by apply NoDup_app in Hb as (_ & _ & ?). }
    apply entries_get_some in Hx; [|done]. rewrite <- (take_drop (length b - max) b). apply elem_of_app. by right.
Qed.

Lemma results_put_ok ref res s : results_ok s -> results_ok (PutToolResult ref res s).
Proof.
  intros H Ht. simpl in Ht. destruct (H Ht) as [a R]. unfold PutToolResult; simpl. rewrite Ht.
  eexists. by apply linked_put_rep.
Qed.

Definition in_memory_results : ToolResultStore results_world unit :=
  {| ts_Put := fun ref res w =>
       (inr tt, [], {| rw_store := PutToolResult ref res (rw_store w); rw_ok := results_put_ok ref res _ (rw_ok w) |});
     ts_Get := fun ref w => (inr (GetToolResult ref (rw_store w)), [], w) |}.

#[export] Instance in_memory_results_lawful : LawfulResults in_memory_results results_view.
Proof.
  split.
  - intros ref res w evs w' [= <- <-]. unfold results_view, GetToolResult, PutToolResult; cbn [rw_store trs_linked].
    destruct (trs_tracked (rw_store w)) eqn:Ht; simpl.
    + destruct (rw_ok w Ht) as [a R].
      pose proof (linked_put_rep (Z.to_nat (trs_maxEntries (rw_store w))) _ _ ref res R) as R'.
      rewrite (rep_items _ _ R'), entries_put_get. split; [done|]. intros ref' Hne.
      rewrite (rep_items _ _ R'), (rep_items _ _ R). apply entries_put_evicts; [apply R|done].
    + rewrite lookup_insert_eq. split; [done|]. intros ref' Hne. left. by rewrite lookup_insert_ne.
  - intros ref w r evs w' [= <- <- <-]. split; [done|]. by intros got [= <-].
Qed.

(** ** Concrete reads *)
Definition demo_lines : list string := ["a"; "FAIL 1"; "b"; "c"; "d"; "e"; "FAIL 2"; "f"].
Definition is_fail (s : string) : bool := has_prefix "FAIL" s.

Lemma grep_shows_neighbourhoods_witness :
  grepLines demo_lines is_fail 1 5 "res:1" "FAIL"
    = Some (str_join newline ["a"; "FAIL 1"; "b"; hidden_note [{| sp_start := 5; sp_end := 8 |}] 5]) /\
  exists vis hidden, separated (vis ++ hidden) /\ (foldr (fun s n => span_size s + n) 0 vis <= 5)%Z.
Proof.
  split; [reflexivity|].
  destruct (grep_shows_neighbourhoods demo_lines is_fail 1 5 "res:1" "FAIL") as (vis & hidden & blocks & _ & _ & Hs & _ & Hf & _);
    [done|done|done|done|]. eauto.
Defined.

Lemma paging_reads_everything_witness :
  exists pages, read_pages 8 "abcdefg" 0 3 = Some pages /\ pages = ["abc"; "def"; "g"].
Proof.
  destruct (paging_reads_everything "abcdefg" 3) as (pages & Hr & _ & _); [done|vm_compute; discriminate|].
  exists pages. split; [exact Hr|]. vm_compute in Hr. congruence.
Defined.

Definition plain_result (text : string) : ToolResult := ok_result text.

Definition big_tool : ToolSource unit results_world unit :=
  {| src_Tools := fun _ => eff_ret (inr []); src_Call := fun _ _ _ => eff_ret (Some (plain_result "0123456789"), None) |}.

Definition demo_sha (s : string) : string := s.

Definition demo_offloader : OffloadingSource unit results_world unit :=
  {| os_src := big_tool; os_store := in_memory_results;
     os_cfg := {| oc_Threshold := 8; oc_PreviewLen := 4; oc_PerToolThreshold := ∅ |}; os_read := [] |}.

Definition empty_results : results_world :=
  {| rw_store := NewInMemoryToolResultStore []; rw_ok := fun H => ltac:(discriminate H) |}.

Lemma offload_keeps_text_witness :
  exists w3 out, off_Call demo_sha (fun _ => inl (EText "")) (fun _ => inl (EText "")) (fun _ => inl (EText ""))
      demo_offloader tt "cat" ∅ empty_results = (Some (Some out, None), [], w3) /\
    results_view w3 "res:0123456789" = Some (plain_result "0123456789").
Proof.
  destruct (off_Call demo_sha (fun _ => inl (EText "")) (fun _ => inl (EText "")) (fun _ => inl (EText ""))
      demo_offloader tt "cat" ∅ empty_results) as [[r evs] w3] eqn:Hc.
  assert (exists out, r = Some (Some out, None) /\ evs = []) as (out & -> & ->).
  { apply (f_equal fst) in Hc. vm_compute in Hc. eexists. by simplify_eq. }
  exists w3, out. split; [done|].
  destruct (offload_keeps_text demo_sha (fun _ => inl (EText "")) (fun _ => inl (EText "")) (fun _ => inl (EText ""))
              demo_offloader results_view tt "cat" ∅ (plain_result "0123456789") [] empty_results empty_results out [] w3)
    as [(_ & _ & [H|[H|(t & H & Hlt)]])|(_ & _ & _ & (kept & Hk & _) & _)]; try done.
  - injection H as <-. vm_compute in Hlt. done.
  - apply (f_equal snd) in Hc. cbn [snd] in Hc. subst w3. vm_compute. reflexivity.
Defined.

(** A huge limit or context makes the end of the window wrap around, and the
    slice panics. *)
Lemma huge_limit_panics :
  read_text (fun _ => inl (EText "")) "some text"
    {| rt_Ref := "res:1"; rt_Offset := 1; rt_Limit := 9223372036854775807; rt_Pattern := ""; rt_Context := 0 |} = None /\
  grepLines demo_lines is_fail 9223372036854775807 0 "res:1" "FAIL" = None.
Proof. split; reflexivity. Qed.

(** A wrapped source that has a tool of the reserved name is shadowed on
    calls, but the listing names the tool twice. *)
Lemma reserved_name_listed_twice :
  exists o : OffloadingSource unit nat unit,
    NewOffloadingSource None
      {| src_Tools := fun _ => eff_ret (inr [tool ReadToolResultName ""]); src_Call := fun _ _ _ => eff_ret (None, None) |}
      (Some {| ts_Put := fun _ _ => eff_ret (inr tt); ts_Get := fun _ => eff_ret (inr None) |})
      {| oc_Threshold := 0; oc_PreviewLen := 0; oc_PerToolThreshold := ∅ |} = Some o /\
    (names_of <$> match eff_value (off_Tools o tt) 0 with inr l => Some l | inl _ => None end)
      = Some [ReadToolResultName; ReadToolResultName].
Proof. eexists. split; reflexivity. Qed.
