(* ===== verification/Consensus.v ===== *)
(** * Self-consistency votes: src/consensus.go

    [Consensus] runs one turn several times, at most [Parallel] at once, and
    votes on the answers.  The workers are a transition system over the shared
    counter, the stopping error and the slots of the draws, one step per
    critical section; a draw's turn returns anything.  The tally ranges over a
    Go map: its order is an argument. *)

From S2P Require Import Prelude GoStr Errors Json Provider TreeBudget Middleware Events MultiSource Compaction StepStage Stuck Dispatch Runner.

Record DrawResult := {
  dr_Seed : option Z;
  dr_Result : option TurnResult;
  dr_Key : string;
  dr_OK : bool;
  dr_Err : string;
  dr_Prior : bool;
}.

Definition draw_zero : DrawResult :=
  {| dr_Seed := None; dr_Result := None; dr_Key := ""; dr_OK := false; dr_Err := ""; dr_Prior := false |}.

Definition draw_failed (d : DrawResult) (err : string) : DrawResult :=
  {| dr_Seed := dr_Seed d; dr_Result := dr_Result d; dr_Key := dr_Key d; dr_OK := dr_OK d; dr_Err := err; dr_Prior := dr_Prior d |}.

Record ConsensusResult := {
  cr_Winner : option TurnResult;
  cr_WinnerKey : string;
  cr_Agree : Z;
  cr_Counted : Z;
  cr_Draws : list DrawResult;
  cr_Split : bool;
  cr_Seeded : bool;
  cr_Stopped : option error;
}.

(** ** The tally *)
Section Tally.
Local Open Scope Z_scope.

Record ballot := { bl_counted : Z; bl_counts : gmap string Z; bl_first : gmap string Z }.

Definition count_draw (b : ballot) (i : Z) (d : DrawResult) : ballot :=
  let counted := match dr_Result d with Some _ => bl_counted b + 1 | None => bl_counted b end in
  if dr_OK d then
    {| bl_counted := counted;
       bl_counts := <[dr_Key d := default 0 (bl_counts b !! dr_Key d) + 1]> (bl_counts b);
       bl_first := match bl_first b !! dr_Key d with
                   | Some _ => bl_first b
                   | None => <[dr_Key d := i]> (bl_first b)
                   end |}
  else {| bl_counted := counted; bl_counts := bl_counts b; bl_first := bl_first b |}.

Fixpoint count_from (i : Z) (b : ballot) (draws : list DrawResult) : ballot :=
  match draws with
  | [] => b
  | d :: draws => count_from (i + 1) (count_draw b i d) draws
  end.

Definition ballot_zero : ballot := {| bl_counted := 0; bl_counts := ∅; bl_first := ∅ |}.

(** Winner key, agreement and the winner's index. *)
Definition better (b : ballot) (st : string * Z * Z) (k : string) : string * Z * Z :=
  let '(key, agree, best) := st in
  let n := default 0 (bl_counts b !! k) in
  let f := default 0 (bl_first b !! k) in
  if (agree <? n) || ((n =? agree) && (f <? best)) then (k, n, f) else st.

Definition tally (range : list string) (r : ConsensusResult) : ConsensusResult :=
  let b := count_from 0 ballot_zero (cr_Draws r) in
  let '(key, agree, best) := foldl (better b) (cr_WinnerKey r, cr_Agree r, -1) range in
  {| cr_Winner := if 0 <=? best then match cr_Draws r !! Z.to_nat best with Some d => dr_Result d | None => None end
                  else cr_Winner r;
     cr_WinnerKey := key; cr_Agree := agree; cr_Counted := cr_Counted r + bl_counted b; cr_Draws := cr_Draws r;
     cr_Split := agree * 2 <=? cr_Counted r + bl_counted b; cr_Seeded := cr_Seeded r; cr_Stopped := cr_Stopped r |}.
End Tally.

(** ** One draw *)
Definition with_seed (fresh : positive) (i : Z) (req : TurnRequest) : TurnRequest :=
  {| tr_History := tr_History req;
     tr_Generation := {| gp_MaxTokens := gp_MaxTokens (tr_Generation req); gp_Temperature := gp_Temperature (tr_Generation req);
                         gp_ToolChoice := gp_ToolChoice (tr_Generation req); gp_Seed := Some (Ptr fresh i);
                         gp_Penalties := gp_Penalties (tr_Generation req) |};
     tr_ResponseSchema := tr_ResponseSchema req; tr_ResponseGuided := tr_ResponseGuided req |}.

Section Draw.
Variables (Key : TurnResult -> string * bool) (seeded : bool).

(** What [draw] records for the outcome of its turn: the result and the
    error that stops the vote.  A turn that fails may leave a partial result,
    which is not recorded.  [ctx_done] is the context when it looks. *)
Definition draw_outcome (i : nat) (turn : error + TurnResult) (ctx_done : bool)
    : DrawResult * option error :=
  let seed := if seeded then Some (Z.of_nat i) else None in
  match turn with
  | inl err =>
      ({| dr_Seed := seed; dr_Result := None; dr_Key := ""; dr_OK := false; dr_Err := error_text err; dr_Prior := false |},
       if error_is ErrTreeBudget err || ctx_done then Some err else None)
  | inr res =>
      let '(key, ok) := Key res in
      ({| dr_Seed := seed; dr_Result := Some res; dr_Key := if ok then key else ""; dr_OK := ok; dr_Err := ""; dr_Prior := false |},
       None)
  end.

Definition draw_prior (res : TurnResult) : DrawResult :=
  let '(key, ok) := Key res in
  {| dr_Seed := None; dr_Result := Some res; dr_Key := if ok then key else ""; dr_OK := ok; dr_Err := ""; dr_Prior := true |}.

(** ** The workers *)
Inductive worker := WIdle | WClaimed (i : nat) | WStopping (e : error) | WExited.

(** [v_log] are the draws that ran, in the order they ended. *)
Record vote := {
  v_next : nat;
  v_stopped : option error;
  v_draws : list DrawResult;
  v_workers : list worker;
  v_log : list nat;
}.

Definition vote_start (n par : nat) : vote :=
  {| v_next := 0; v_stopped := None; v_draws := replicate n draw_zero; v_workers := replicate par WIdle; v_log := [] |}.

Definition set_worker (v : vote) (w : nat) (pc : worker) : list worker := <[w := pc]> (v_workers v).

Definition stop_with (v : vote) (e : error) : option error :=
  match v_stopped v with Some e' => Some e' | None => Some e end.

Inductive vote_step (n : nat) : vote -> vote -> Prop :=
| step_claim v w :
    v_workers v !! w = Some WIdle -> v_stopped v = None -> v_next v < n ->
    vote_step n v {| v_next := S (v_next v); v_stopped := None; v_draws := v_draws v;
                     v_workers := set_worker v w (WClaimed (v_next v)); v_log := v_log v |}
| step_exit v w :
    v_workers v !! w = Some WIdle -> (v_stopped v <> None \/ n <= v_next v) ->
    vote_step n v {| v_next := v_next v; v_stopped := v_stopped v; v_draws := v_draws v;
                     v_workers := set_worker v w WExited; v_log := v_log v |}
| step_ctx v w i e :
    v_workers v !! w = Some (WClaimed i) ->
    vote_step n v {| v_next := v_next v; v_stopped := stop_with v e;
                     v_draws := alter (fun d => draw_failed d (error_text e)) i (v_draws v);
                     v_workers := set_worker v w WIdle; v_log := v_log v |}
| step_draw v w i turn ctx_done :
    v_workers v !! w = Some (WClaimed i) ->
    vote_step n v {| v_next := v_next v; v_stopped := v_stopped v;
                     v_draws := <[i := (draw_outcome i turn ctx_done).1]> (v_draws v);
                     v_workers := set_worker v w (match (draw_outcome i turn ctx_done).2 with
                                                  | Some e => WStopping e | None => WIdle end);
                     v_log := v_log v ++ [i] |}
| step_stop v w e :
    v_workers v !! w = Some (WStopping e) ->
    vote_step n v {| v_next := v_next v; v_stopped := stop_with v e; v_draws := v_draws v;
                     v_workers := set_worker v w WIdle; v_log := v_log v |}.

Definition vote_done (v : vote) : Prop := Forall (fun w => w = WExited) (v_workers v).

(** ** The vote *)
Record Consensus := {
  cs_Draws : Z;
  cs_Parallel : Z;
  cs_Prior : list (option TurnResult);
}.

Definition draws_of (c : Consensus) : nat := Z.to_nat (Z.max (cs_Draws c) 1).
Definition parallel_of (c : Consensus) : nat := Nat.min (Z.to_nat (Z.max (cs_Parallel c) 1)) (draws_of c).

(** A nil entry of Prior is refused. *)
Fixpoint priors (l : list (option TurnResult)) : option (list TurnResult) :=
  match l with
  | [] => Some []
  | Some r :: l => rs ← priors l; Some (r :: rs)
  | None :: _ => None
  end.

Definition explain (stopped : option error) (d : DrawResult) : DrawResult :=
  match stopped with
  | Some e => match dr_Result d with
              | None => if String.eqb (dr_Err d) "" then draw_failed d ("not run: " +:+ error_text e) else d
              | Some _ => d
              end
  | None => d
  end.

(** The result once every worker is gone. *)
Definition vote_result (rs : list TurnResult) (v : vote) (range : list string) : ConsensusResult :=
  tally range
    {| cr_Winner := None; cr_WinnerKey := ""; cr_Agree := 0; cr_Counted := 0;
       cr_Draws := map (explain (v_stopped v)) (map draw_prior rs ++ v_draws v);
       cr_Split := false; cr_Seeded := seeded; cr_Stopped := v_stopped v |}.

(** The outcomes [Run] may have: an error for a nil prior, or a result of any
    schedule of the workers and any order of the counts. *)
Inductive consensus_run (c : Consensus) : error + ConsensusResult -> Prop :=
| run_nil_prior :
    priors (cs_Prior c) = None ->
    consensus_run c (inl (EText "agent: Consensus.Prior holds a nil result"))
| run_vote rs v range :
    priors (cs_Prior c) = Some rs ->
    star (vote_step (draws_of c)) (vote_start (draws_of c) (parallel_of c)) v -> vote_done v ->
    let draws := map (explain (v_stopped v)) (map draw_prior rs ++ v_draws v) in
    range ≡ₚ elements (dom (bl_counts (count_from 0 ballot_zero draws))) ->
    consensus_run c (inr (vote_result rs v range)).

(** ** Every schedule *)
Definition claimed_by (w : worker) : list nat := match w with WClaimed i => [i] | _ => [] end.

Definition claims (v : vote) : list nat := v_workers v ≫= claimed_by.

Record vote_inv (n par : nat) (v : vote) : Prop := {
  vi_workers : length (v_workers v) = par;
  vi_exited : WExited ∈ v_workers v -> v_stopped v <> None \/ n <= v_next v;
  vi_next : v_next v <= n;
  vi_len : length (v_draws v) = n;
  vi_distinct : NoDup (claims v ++ v_log v);
  vi_below i : i ∈ claims v ++ v_log v -> i < v_next v;
  vi_all i : v_stopped v = None -> i < v_next v -> i ∈ claims v ++ v_log v;
  vi_ran i : i ∈ v_log v -> exists turn c, v_draws v !! i = Some (draw_outcome i turn c).1;
  vi_not_ran i d : i ∉ v_log v -> v_draws v !! i = Some d -> dr_Result d = None /\ dr_OK d = false;
  vi_stopping : v_stopped v = None -> forall i d, v_draws v !! i = Some d -> i ∉ v_log v -> dr_Err d = "";
}.

Lemma claims_insert l w pc pc' :
  l !! w = Some pc -> (<[w := pc']> l) ≫= claimed_by ≡ₚ claimed_by pc' ++ (delete w l ≫= claimed_by).
Proof.
  intros Hl. rewrite insert_take_drop by (by eapply lookup_lt_Some).
  rewrite delete_take_drop, !bind_app. csimpl. rewrite !app_assoc. f_equiv. apply Permutation_app_comm.
Qed.

Lemma claims_split l w pc :
  l !! w = Some pc -> l ≫= claimed_by ≡ₚ claimed_by pc ++ (delete w l ≫= claimed_by).
Proof. intros Hl. rewrite <- (list_insert_id _ _ _ Hl) at 1. by eapply claims_insert. Qed.

Lemma vote_start_inv n par : vote_inv n par (vote_start n par).
Proof.
  assert (claims (vote_start n par) = []) as Hc.
  { unfold claims; simpl. induction par as [|par IH]; [done|]. csimpl. done. }
  split; rewrite ?Hc; cbn.
  - apply length_replicate.
  - by intros [? _]%elem_of_replicate.
  - lia.
  - apply length_replicate.
  - apply NoDup_nil_2.
  - intros i Hi. by apply elem_of_nil in Hi.
  - intros i _ Hi. lia.
  - intros i Hi. by apply elem_of_nil in Hi.
  - intros i d _ Hd. by apply lookup_replicate in Hd as [-> _].
  - intros _ i d Hd _. by apply lookup_replicate in Hd as [-> _].
Qed.

Lemma exited_insert (l : list worker) (w : nat) pc : WExited ∈ <[w := pc]> l -> pc = WExited \/ WExited ∈ l.
Proof.
  intros [j Hj]%list_elem_of_lookup. destruct (decide (w = j)) as [->|Hne].
  - apply list_lookup_insert_Some in Hj as [(_ & -> & _)|(? & _)]; [by left|done].
  - rewrite list_lookup_insert_ne in Hj by done. right. apply list_elem_of_lookup. eauto.
Qed.

Lemma vote_step_inv n par v v' : vote_inv n par v -> vote_step n v v' -> vote_inv n par v'.
Proof.
  intros I Hs. destruct Hs as [v w Hw Hst Hn|v w Hw Hex|v w i e Hw|v w i turn c Hw|v w e Hw];
    pose proof (claims_split _ _ _ Hw) as Hc; fold (claims v) in Hc; simpl in Hc.
  - (* claim *)
    pose proof (claims_insert _ _ _ (WClaimed (v_next v)) Hw) as Hc'. simpl in Hc'. rewrite <- Hc in Hc'.
    assert (v_next v ∉ claims v ++ v_log v) as Hfresh by (intros Hin; apply (vi_below _ _ _ I) in Hin; lia).
    split; cbn; unfold claims; cbn; unfold set_worker; rewrite ?length_insert; try apply I.
    + intros [?|Hx]%exited_insert; [done|]. apply I in Hx as [?|?]; [done|lia].
    + lia.
    + rewrite Hc'. simpl. constructor; [done|apply I].
    + intros i. rewrite Hc'. cbn. intros [->|Hin]%elem_of_cons; [lia|]. apply (vi_below _ _ _ I) in Hin. lia.
    + intros i _ Hi. rewrite Hc'. cbn. apply elem_of_cons. destruct (decide (i = v_next v)); [by left|right].
      apply I; [done|lia].
    + intros _. by apply I.
  - (* exit *)
    pose proof (claims_insert _ _ _ WExited Hw) as Hc'. simpl in Hc'. rewrite <- Hc in Hc'.
    split; cbn; unfold claims; cbn; unfold set_worker; rewrite ?length_insert; try apply I.
    + done.
    + rewrite Hc'. apply I.
    + intros i. rewrite Hc'. apply I.
    + intros i. rewrite Hc'. apply I.
  - (* the context ended *)
    pose proof (claims_insert _ _ _ WIdle Hw) as Hc'. simpl in Hc'.
    assert (forall j, j ∈ delete w (v_workers v) ≫= claimed_by -> j ∈ claims v) as Hsub by (intros j Hj; rewrite Hc; by right).
    assert (v_stopped v = None -> stop_with v e <> None) as Hstop by (unfold stop_with; by destruct (v_stopped v)).
    assert (stop_with v e <> None) as Hns by (unfold stop_with; by destruct (v_stopped v)).
    split; cbn; unfold claims; cbn; unfold set_worker; rewrite ?length_insert, ?length_alter; try apply I.
    + by left.
    + rewrite Hc'. pose proof (vi_distinct _ _ _ I) as N. rewrite Hc in N. by apply NoDup_cons in N as [_ N].
    + intros j. rewrite Hc'. intros [Hj|Hj]%elem_of_app; apply I; apply elem_of_app; auto.
    + intros j Hnone. done.
    + intros j Hj. assert (j <> i) as Hne.
      { intros ->. pose proof (vi_distinct _ _ _ I) as N. rewrite Hc in N. apply NoDup_cons in N as [N _]. apply N. apply elem_of_app. by right. }
      rewrite list_lookup_alter_ne by done. by apply I.
    + intros j d Hj. destruct (decide (i = j)) as [->|Hne].
      * rewrite list_lookup_alter_eq. intros (d' & Hd & ->)%fmap_Some. apply (vi_not_ran _ _ _ I j d' Hj) in Hd. done.
      * rewrite list_lookup_alter_ne by done. by apply I.
    + intros Hnone. done.
  - (* a draw ended *)
    set (pc' := match (draw_outcome i turn c).2 with Some e => WStopping e | None => WIdle end).
    assert (claimed_by pc' = []) as Hpc by (unfold pc'; by destruct (draw_outcome i turn c).2).
    pose proof (claims_insert _ _ _ pc' Hw) as Hc'. rewrite Hpc in Hc'. simpl in Hc'.
    assert (claims v ++ v_log v ≡ₚ (delete w (v_workers v) ≫= claimed_by) ++ v_log v ++ [i]) as Hp.
    { rewrite Hc. simpl. rewrite (Permutation_app_comm (v_log v) [i]). apply Permutation_middle. }
    assert (i < n) as Hin. { assert (i < v_next v); [apply I; rewrite Hc; by left|]. pose proof (vi_next _ _ _ I). lia. }
    split; cbn; unfold claims; cbn; unfold set_worker; fold pc'; rewrite ?length_insert; try apply I.
    + intros [Hx|Hx]%exited_insert; [|by apply I in Hx]. unfold pc' in Hx. by destruct (draw_outcome i turn c).2.
    + rewrite Hc', <- Hp. apply I.
    + intros j. rewrite Hc', <- Hp. apply I.
    + intros j. rewrite Hc', <- Hp. apply I.
    + intros j [Hj| ->%list_elem_of_singleton]%elem_of_app.
      * destruct (decide (i = j)) as [->|Hne]; [|rewrite list_lookup_insert_ne by done; by apply I].
        rewrite list_lookup_insert_eq by (rewrite (vi_len _ _ _ I); done). eauto.
      * rewrite list_lookup_insert_eq by (rewrite (vi_len _ _ _ I); done). eauto.
    + intros j d [Hj Hne]%not_elem_of_app. rewrite list_lookup_insert_ne by set_solver. by apply I.
    + intros Hnone j d Hd [Hj Hne]%not_elem_of_app. rewrite list_lookup_insert_ne in Hd by set_solver. by eapply I.
  - (* a draw stops the vote *)
    pose proof (claims_insert _ _ _ WIdle Hw) as Hc'. simpl in Hc'. rewrite <- Hc in Hc'.
    assert (stop_with v e <> None) as Hns by (unfold stop_with; by destruct (v_stopped v)).
    split; cbn; unfold claims; cbn; unfold set_worker; rewrite ?length_insert; try apply I.
    + by left.
    + rewrite Hc'. apply I.
    + intros i. rewrite Hc'. apply I.
    + intros i Hnone. done.
    + intros Hnone. done.
Qed.

(** Steps left: three for each draw not yet claimed and the rest of each
    worker's round. *)
Definition worker_weight (w : worker) : nat :=
  match w with WIdle => 1 | WClaimed _ => 3 | WStopping _ => 2 | WExited => 0 end.

Definition vote_measure (n : nat) (v : vote) : nat := 3 * (n - v_next v) + sum_list_with worker_weight (v_workers v).

Lemma weight_insert l w pc pc' :
  l !! w = Some pc ->
  sum_list_with worker_weight (<[w := pc']> l) + worker_weight pc = sum_list_with worker_weight l + worker_weight pc'.
Proof.
  revert w. induction l as [|x l IH]; intros [|w] Hl; simplify_eq/=; [lia|]. specialize (IH _ Hl). lia.
Qed.

Lemma vote_step_measure n v v' : vote_step n v v' -> vote_measure n v' < vote_measure n v.
Proof.
  intros Hs. unfold vote_measure.
  destruct Hs as [v w Hw Hst Hn|v w Hw Hex|v w i e Hw|v w i turn c Hw|v w e Hw]; cbn; unfold set_worker.
  - pose proof (weight_insert _ _ _ (WClaimed (v_next v)) Hw). simpl in *. lia.
  - pose proof (weight_insert _ _ _ WExited Hw). simpl in *. lia.
  - pose proof (weight_insert _ _ _ WIdle Hw). simpl in *. lia.
  - set (pc' := match (draw_outcome i turn c).2 with Some e => WStopping e | None => WIdle end).
    pose proof (weight_insert _ _ _ pc' Hw) as H. simpl in H.
    assert (worker_weight pc' <= 2) by (unfold pc'; destruct (draw_outcome i turn c).2; simpl; lia). lia.
  - pose proof (weight_insert _ _ _ WIdle Hw). simpl in *. lia.
Qed.

Lemma vote_progress n v : ~ vote_done v -> exists v', vote_step n v v'.
Proof.
  intros Hnd. assert (exists w pc, v_workers v !! w = Some pc /\ pc <> WExited) as (w & pc & Hw & Hpc).
  { unfold vote_done in Hnd. apply not_Forall_Exists in Hnd; [|intros x; destruct x; ((left; done) || (right; done))].
    apply Exists_exists in Hnd as (x & [w Hx]%list_elem_of_lookup & Hne). eauto. }
  destruct pc as [|i|e|]; [|eexists; by apply (step_draw n v w i (inl (EText "")) false)|eexists; by apply (step_stop n v w e)|done].
  destruct (v_stopped v) as [e|] eqn:Hst; [eexists; apply (step_exit n v w Hw); left; congruence|].
  destruct (decide (v_next v < n)); [eexists; by apply (step_claim n v w)|].
  eexists. apply (step_exit n v w Hw). right. lia.
Qed.

Inductive run_of (n : nat) : nat -> vote -> vote -> Prop :=
| run_end v : run_of n 0 v v
| run_more k v v' v'' : vote_step n v v' -> run_of n k v' v'' -> run_of n (S k) v v''.

Lemma run_of_bound n k v v' : run_of n k v v' -> k + vote_measure n v' <= vote_measure n v.
Proof. induction 1 as [|k v v1 v2 Hs _ IH]; [lia|]. apply vote_step_measure in Hs. lia. Qed.

Lemma vote_start_measure n par : vote_measure n (vote_start n par) = 3 * n + par.
Proof.
  unfold vote_measure; cbn. assert (sum_list_with worker_weight (replicate par WIdle) = par) as ->; [|lia].
  induction par; simpl; lia.
Qed.

Lemma run_of_star n k v v' : run_of n k v v' -> star (vote_step n) v v'.
Proof. induction 1; eauto using star. Qed.

Lemma done_claims v : vote_done v -> claims v = [].
Proof.
  unfold vote_done, claims. induction (v_workers v) as [|w l IH]; [done|]. intros [-> Hl]%Forall_cons. csimpl. auto.
Qed.

(** A vote ends, and each draw runs at most once.  However the workers
    interleave, no run has more than three steps per draw and one per worker,
    and one that has not ended can go on.  When every worker is gone, the
    draws that ran are distinct, each slot of one holds its outcome and the
    others hold no answer; if nothing stopped the vote, every draw ran. *)
Theorem consensus_draws_once n par k v :
  run_of n k (vote_start n par) v ->
  k <= 3 * n + par /\
  (~ vote_done v -> exists v', vote_step n v v') /\
  NoDup (v_log v) /\
  (forall i, i ∈ v_log v -> i < n /\ exists turn c, v_draws v !! i = Some (draw_outcome i turn c).1) /\
  (forall i d, i ∉ v_log v -> v_draws v !! i = Some d -> dr_Result d = None /\ dr_OK d = false) /\
  (vote_done v -> v_stopped v = None -> 0 < par -> v_log v ≡ₚ seq 0 n).
Proof.
  intros Hr. pose proof (run_of_bound _ _ _ _ Hr) as Hk. rewrite vote_start_measure in Hk.
  assert (vote_inv n par v) as I.
  { eapply (star_invariant (vote_step n) (vote_inv n par)); [intros; eapply vote_step_inv; eauto|by eapply run_of_star|apply vote_start_inv]. }
  split; [lia|]. split; [by apply vote_progress|].
  split; [pose proof (vi_distinct _ _ _ I) as N; by apply NoDup_app in N as (_ & _ & ?)|].
  split; [|split; [apply I|]].
  - intros i Hi. split; [|by apply I]. assert (i < v_next v); [apply I; apply elem_of_app; by right|].
    pose proof (vi_next _ _ _ I). lia.
  - intros Hd Hst Hpar. pose proof (done_claims v Hd) as Hc.
    assert (n <= v_next v) as Hn.
    { destruct (vi_exited _ _ _ I) as [?|?]; [|done..]. pose proof (vi_workers _ _ _ I) as Hl. unfold vote_done in Hd.
      destruct (v_workers v) as [|w ws]; [simpl in Hl; lia|]. apply Forall_cons in Hd as [-> _]. by left. }
    apply NoDup_Permutation; [|apply NoDup_ListNoDup, seq_NoDup|].
    + pose proof (vi_distinct _ _ _ I) as N. by rewrite Hc in N.
    + intros i. rewrite elem_of_seq. pose proof (vi_below _ _ _ I i) as Hb. pose proof (vi_all _ _ _ I i Hst) as Ha.
      pose proof (vi_next _ _ _ I). rewrite Hc in Hb, Ha. simpl in *. split; [intros Hi; apply Hb in Hi; lia|].
      intros Hi. apply Ha. lia.
Qed.
End Draw.

(** ** Who wins *)
Section Winner.
Local Open Scope Z_scope.

Definition votes_for (k : string) (ds : list DrawResult) : Z :=
  Z.of_nat (length (filter (fun d => dr_OK d = true /\ dr_Key d = k) ds)).

Definition finished (ds : list DrawResult) : Z := Z.of_nat (length (filter (fun d => dr_Result d <> None) ds)).

Fixpoint first_vote (k : string) (ds : list DrawResult) : option nat :=
  match ds with
  | [] => None
  | d :: ds => if decide (dr_OK d = true /\ dr_Key d = k) then Some 0%nat else S <$> first_vote k ds
  end.

Lemma votes_cons k d ds :
  votes_for k (d :: ds) = votes_for k ds + (if decide (dr_OK d = true /\ dr_Key d = k) then 1 else 0).
Proof. unfold votes_for. rewrite filter_cons. case_decide; simpl; lia. Qed.

Lemma first_vote_none k ds : first_vote k ds = None <-> votes_for k ds = 0.
Proof.
  induction ds as [|d ds IH]; [done|]. rewrite votes_cons. simpl. case_decide.
  - unfold votes_for. split; [done|lia].
  - rewrite fmap_None, IH. split; lia.
Qed.

Lemma first_vote_some k ds i :
  first_vote k ds = Some i ->
  (exists d, ds !! i = Some d /\ dr_OK d = true /\ dr_Key d = k) /\
  forall j d, ds !! j = Some d -> dr_OK d = true -> dr_Key d = k -> (i <= j)%nat.
Proof.
  revert i. induction ds as [|d ds IH]; intros i Hi; [done|]. simpl in Hi. case_decide as Hd.
  - injection Hi as <-. split; [exists d; naive_solver|]. intros; lia.
  - apply fmap_Some in Hi as (i' & Hi & ->). destruct (IH _ Hi) as [Hx Hmin]. split; [done|].
    intros [|j] d' Hj Hok Hk; [simplify_eq/=; naive_solver|]. simpl in Hj. specialize (Hmin _ _ Hj Hok Hk). lia.
Qed.

Record counted_ok (ds : list DrawResult) (i : Z) (b b' : ballot) : Prop := {
  co_counted : bl_counted b' = bl_counted b + finished ds;
  co_counts k : bl_counts b' !! k = if decide (votes_for k ds = 0) then bl_counts b !! k
                                    else Some (default 0 (bl_counts b !! k) + votes_for k ds);
  co_first k : bl_first b' !! k = match bl_first b !! k with
                                  | Some f => Some f
                                  | None => (fun n => i + Z.of_nat n) <$> first_vote k ds
                                  end;
}.

Lemma count_from_ok ds i b : counted_ok ds i b (count_from i b ds).
Proof.
  revert i b. induction ds as [|d ds IH]; intros i b.
  { split; simpl; [unfold finished; simpl; lia|done|]. intros k. by destruct (bl_first b !! k). }
  destruct (IH (i + 1) (count_draw b i d)) as [Hc Hn Hf]. cbn [count_from]. split.
  - rewrite Hc. unfold finished, count_draw. rewrite filter_cons.
    destruct (dr_Result d); [rewrite decide_True by done|rewrite decide_False by auto]; destruct (dr_OK d); simpl; lia.
  - intros k. rewrite Hn, votes_cons. assert (0 <= votes_for k ds) by (unfold votes_for; lia).
    unfold count_draw. destruct (dr_OK d) eqn:Hok; cbn [bl_counts].
    + destruct (decide (dr_Key d = k)) as [->|Hne].
      * rewrite lookup_insert_eq, (decide_True (P:=true = true /\ k = k)) by done. cbn [default].
        rewrite (decide_False (P:=votes_for k ds + 1 = 0)) by lia. case_decide; simpl; f_equal; lia.
      * rewrite lookup_insert_ne by done. rewrite (decide_False (P:=true = true /\ dr_Key d = k)) by tauto.
        by rewrite Z.add_0_r.
    + rewrite (decide_False (P:=false = true /\ dr_Key d = k)) by naive_solver. by rewrite Z.add_0_r.
  - intros k. rewrite Hf. cbn [first_vote]. unfold count_draw. destruct (dr_OK d) eqn:Hok; cbn [bl_first].
    + destruct (decide (dr_Key d = k)) as [->|Hne].
      * rewrite decide_True by done. destruct (bl_first b !! k) eqn:Hb; [by rewrite Hb|].
        rewrite lookup_insert_eq. simpl. f_equal. lia.
      * rewrite decide_False by tauto.
        assert ((match bl_first b !! dr_Key d with Some _ => bl_first b | None => <[dr_Key d := i]> (bl_first b) end) !! k
                = bl_first b !! k) as -> by (case_match; [done|by rewrite lookup_insert_ne]).
        destruct (bl_first b !! k); [done|]. destruct (first_vote k ds); simpl; [f_equal; lia|done].
    + rewrite decide_False by naive_solver. destruct (bl_first b !! k); [done|].
      destruct (first_vote k ds); simpl; [f_equal; lia|done].
Qed.

(** The loop over the counts holds the best of the keys it has seen. *)
Definition best_of (ds : list DrawResult) (seen : list string) (st : string * Z * Z) : Prop :=
  match seen with
  | [] => st = ("", 0, -1)
  | _ => exists k i, k ∈ seen /\ st = (k, votes_for k ds, Z.of_nat i) /\ first_vote k ds = Some i /\
           forall k' i', k' ∈ seen -> first_vote k' ds = Some i' ->
             votes_for k' ds < votes_for k ds \/ (votes_for k' ds = votes_for k ds /\ (i <= i')%nat)
  end.

Lemma better_best ds seen st k :
  let b := count_from 0 ballot_zero ds in
  is_Some (bl_counts b !! k) -> best_of ds seen st -> best_of ds (seen ++ [k]) (better b st k).
Proof.
  cbv zeta. destruct (count_from_ok ds 0 ballot_zero) as [_ Hn Hf]. intros Hk Hb.
  rewrite Hn in Hk. cbn in Hk. case_decide as Hv; [by rewrite lookup_empty in Hk; destruct Hk|]. clear Hk.
  assert (exists i, first_vote k ds = Some i) as [i Hi].
  { destruct (first_vote k ds) eqn:He; [eauto|]. by apply first_vote_none in He. }
  assert (0 < votes_for k ds) by (unfold votes_for in *; lia).
  unfold better. destruct st as [[key agree] best]. rewrite Hn, Hf, Hi, decide_False by done. cbn.
  rewrite lookup_empty. cbn. rewrite !Z.add_0_l || idtac.
  assert (best_of ds (seen ++ [k]) (k, votes_for k ds, Z.of_nat i) <->
          forall k' i', k' ∈ seen ++ [k] -> first_vote k' ds = Some i' ->
             votes_for k' ds < votes_for k ds \/ (votes_for k' ds = votes_for k ds /\ (i <= i')%nat)) as Hnew.
  { unfold best_of. destruct (seen ++ [k]) as [|x l] eqn:Hx; [by destruct seen|]. rewrite <- Hx. split.
    - intros (k0 & i0 & _ & [= <- Hii] & Hi0 & Hx0) k' i' Hin Hf'. assert (i = i0) as -> by lia. by apply Hx0.
    - intros Hx0. exists k, i. split; [rewrite Hx, <- Hx; apply elem_of_app; right; by constructor|]. auto. }
  destruct seen as [|k0 seen].
  - simpl in Hb. injection Hb as -> -> ->. rewrite (proj2 (Z.ltb_lt 0 _)) by done. apply Hnew.
    intros k' i' ->%list_elem_of_singleton Hf'. right. split; [done|]. rewrite Hi in Hf'. by simplify_eq.
  - destruct Hb as (kb & ib & Hin & [= -> -> ->] & Hfb & Hmax).
    destruct (Z.ltb_spec (votes_for kb ds) (votes_for k ds)) as [Hlt|Hge]; cbn [orb].
    { apply Hnew. intros k' i' [Hk'|Hk']%elem_of_app Hf'.
      - specialize (Hmax _ _ Hk' Hf'). lia.
      - apply list_elem_of_singleton in Hk' as ->. rewrite Hi in Hf'. simplify_eq. lia. }
    destruct (Z.eqb_spec (votes_for k ds) (votes_for kb ds)) as [Heq|Hne];
      [destruct (Z.ltb_spec (Z.of_nat i) (Z.of_nat ib)) as [Hif|Hif]|]; cbn [andb].
    + apply Hnew. intros k' i' [Hk'|Hk']%elem_of_app Hf'.
      * specialize (Hmax _ _ Hk' Hf'). lia.
      * apply list_elem_of_singleton in Hk' as ->. rewrite Hi in Hf'. simplify_eq. lia.
    + exists kb, ib. split; [set_solver|]. split; [done|]. split; [done|].
      intros k' i' [Hk'|Hk']%elem_of_app Hf'; [by apply Hmax|].
      apply list_elem_of_singleton in Hk' as ->. rewrite Hi in Hf'. simplify_eq. lia.
    + exists kb, ib. split; [set_solver|]. split; [done|]. split; [done|].
      intros k' i' [Hk'|Hk']%elem_of_app Hf'; [by apply Hmax|].
      apply list_elem_of_singleton in Hk' as ->. lia.
Qed.

Lemma better_fold ds range :
  let b := count_from 0 ballot_zero ds in
  Forall (fun k => is_Some (bl_counts b !! k)) range -> best_of ds range (foldl (better b) ("", 0, -1) range).
Proof.
  cbv zeta. induction range as [|k range IH] using rev_ind; intros H; [done|].
  apply Forall_app in H as [H Hk]. rewrite Forall_singleton in Hk. rewrite foldl_snoc. by apply better_best; [|apply IH].
Qed.

(** The vote elects the most common answer.  Whatever the schedule of the
    draws and the order of the counts, the winner is the earliest of the
    accepted draws whose key has the most votes, [Agree] counts that key and
    [Counted] the draws that finished, and the vote is split exactly when the
    key has no strict majority of them; with no accepted draw there is no
    winner. *)
Theorem consensus_winner Key seeded c r :
  consensus_run Key seeded c (inr r) ->
  cr_Counted r = finished (cr_Draws r) /\
  (cr_Split r = true <-> cr_Agree r * 2 <= cr_Counted r) /\
  ((Forall (fun d => dr_OK d = false) (cr_Draws r) /\ cr_Winner r = None /\ cr_WinnerKey r = "" /\
    cr_Agree r = 0 /\ cr_Split r = true) \/
   exists i d, cr_Draws r !! i = Some d /\ dr_OK d = true /\ dr_Key d = cr_WinnerKey r /\ dr_Result d = cr_Winner r /\
     cr_Agree r = votes_for (cr_WinnerKey r) (cr_Draws r) /\
     forall j d', cr_Draws r !! j = Some d' -> dr_OK d' = true ->
       votes_for (dr_Key d') (cr_Draws r) < cr_Agree r \/
       (votes_for (dr_Key d') (cr_Draws r) = cr_Agree r /\ (i <= j)%nat)).
Proof.
  intros H. inversion H as [|rs v range Hp Hrun Hdone draws Hrange]; subst; clear H.
  unfold vote_result, tally. cbn [cr_Draws cr_WinnerKey cr_Agree cr_Counted].
  fold draws. clearbody draws. clear Hrun Hdone Hp.
  pose proof (count_from_ok draws 0 ballot_zero) as [Hc Hn Hf].
  set (b := count_from 0 ballot_zero draws) in *.
  assert (forall k, k ∈ range <-> votes_for k draws <> 0) as Hin.
  { intros k. rewrite Hrange, elem_of_elements, elem_of_dom, Hn. cbn.
    rewrite lookup_empty. case_decide; [split; [by intros [? ?]|done]|split; eauto]. }
  assert (best_of draws range (foldl (better b) ("", 0, -1) range)) as Hbest.
  { apply better_fold. apply Forall_forall. intros k Hk. fold b. rewrite Hn. cbn. apply Hin in Hk.
    rewrite decide_False by done. eauto. }
  destruct (foldl (better b) ("", 0, -1) range) as [[key agree] best]. cbn [cr_Counted cr_Split cr_Agree cr_Winner cr_WinnerKey cr_Draws].
  rewrite Hc. cbn [bl_counted ballot_zero]. rewrite !Z.add_0_l.
  split; [done|]. split; [by rewrite Z.leb_le|].
  assert (0 <= finished draws) by (unfold finished; lia).
  assert (forall j d, draws !! j = Some d -> dr_OK d = true -> votes_for (dr_Key d) draws <> 0) as Hpos.
  { intros j d Hj Hok H0. unfold votes_for in H0. assert (d ∈ filter (fun x => dr_OK x = true /\ dr_Key x = dr_Key d) draws) as Hd
      by (apply list_elem_of_filter; split; [done|]; by eapply list_elem_of_lookup_2).
    destruct (filter _ draws); [by apply elem_of_nil in Hd|simpl in H0; lia]. }
  destruct range as [|k0 range].
  - simpl in Hbest. injection Hbest as -> -> ->. left. split; [|repeat split; try done; apply Z.leb_le; lia].
    apply Forall_forall. intros d [j Hj]%list_elem_of_lookup. destruct (dr_OK d) eqn:Hok; [|done].
    exfalso. eapply elem_of_nil, Hin, Hpos; eauto.
  - right. destruct Hbest as (k & i & Hk & [= -> -> ->] & Hfi & Hmax).
    destruct (first_vote_some _ _ _ Hfi) as [(d & Hd & Hok & Hkey) _].
    exists i, d. split; [done|]. split; [done|]. split; [done|].
    rewrite (proj2 (Z.leb_le 0 (Z.of_nat i))) by lia. rewrite Nat2Z.id, Hd. split; [done|]. split; [done|].
    intros j d' Hj Hok'. pose proof (Hpos _ _ Hj Hok') as Hv.
    destruct (first_vote (dr_Key d') draws) as [i'|] eqn:Hi'; [|by apply first_vote_none in Hi'].
    destruct (first_vote_some _ _ _ Hi') as [_ Hmin]. specialize (Hmin _ _ Hj Hok' eq_refl).
    destruct (Hmax _ _ (proj2 (Hin _) Hv) Hi') as [?|[? ?]]; [by left|right]. split; [done|lia].
Qed.
End Winner.

(** ** A concrete vote *)
Definition said (text : string) : TurnResult :=
  {| res_Text := text; res_Messages := [text_message RoleAssistant text]; res_Usage := Usage_zero; res_UsageByModel := None;
     res_Steps := 1; res_FinishReason := "stop"; res_Structured := ""; res_StructuredError := "" |}.

Definition by_text (r : TurnResult) : string * bool := (res_Text r, negb (String.eqb (res_Text r) "")).

Definition one_draw_end (r : TurnResult) : vote :=
  {| v_next := 1; v_stopped := None; v_draws := [(draw_outcome by_text true 0 (inr r) false).1];
     v_workers := [WExited]; v_log := [0] |}.

Definition one_draw_ended (r : TurnResult) : vote :=
  {| v_next := 1; v_stopped := None; v_draws := [(draw_outcome by_text true 0 (inr r) false).1];
     v_workers := [WIdle]; v_log := [0] |}.

Definition one_draw_claimed : vote :=
  {| v_next := 1; v_stopped := None; v_draws := [draw_zero]; v_workers := [WClaimed 0]; v_log := [] |}.

Lemma one_draw_runs r : run_of by_text true 1 3 (vote_start 1 1) (one_draw_end r).
Proof.
  apply (run_more _ _ _ _ _ one_draw_claimed);
    [exact (step_claim by_text true 1 (vote_start 1 1) 0 eq_refl eq_refl Nat.lt_0_1)|].
  apply (run_more _ _ _ _ _ (one_draw_ended r));
    [exact (step_draw by_text true 1 one_draw_claimed 0 0 (inr r) false eq_refl)|].
  apply (run_more _ _ _ _ _ (one_draw_end r)); [|apply run_end].
  exact (step_exit by_text true 1 (one_draw_ended r) 0 eq_refl (or_intror (le_n 1))).
Qed.

Lemma consensus_draws_once_witness : v_log (one_draw_end (said "4")) ≡ₚ seq 0 1.
Proof.
  pose proof (consensus_draws_once by_text true 1 1 3 _ (one_draw_runs (said "4"))) as (_ & _ & _ & _ & _ & H).
  apply H; [by constructor|done|lia].
Defined.

Definition demo_vote : Consensus :=
  {| cs_Draws := 1; cs_Parallel := 4; cs_Prior := [Some (said "5"); Some (said "4")] |}.

Definition demo_vote_result : ConsensusResult :=
  vote_result by_text true [said "5"; said "4"] (one_draw_end (said "4")) ["5"; "4"].

Lemma consensus_winner_witness :
  cr_Winner demo_vote_result = Some (said "4") /\ cr_Agree demo_vote_result = 2%Z /\
  cr_Counted demo_vote_result = finished (cr_Draws demo_vote_result) /\ cr_Split demo_vote_result = false.
Proof.
  assert (consensus_run by_text true demo_vote (inr demo_vote_result)) as Hr.
  { apply (run_vote by_text true demo_vote [said "5"; said "4"] (one_draw_end (said "4")) ["5"; "4"]).
    - reflexivity.
    - apply (run_of_star by_text true 1 3), one_draw_runs.
    - by constructor.
    - cbv zeta. apply NoDup_Permutation.
      + apply NoDup_cons. split; [by intros ?%list_elem_of_singleton|apply NoDup_singleton].
      + apply NoDup_elements.
      + intros k. rewrite elem_of_elements, elem_of_dom, (co_counts _ _ _ _ (count_from_ok _ _ _)). cbn [bl_counts ballot_zero].
        rewrite lookup_empty, !elem_of_cons.
        destruct (decide (k = "5")) as [->|H5]; [vm_compute; split; eauto|].
        destruct (decide (k = "4")) as [->|H4]; [vm_compute; split; eauto|].
        rewrite decide_True; [split; [intros [?|[?|?%elem_of_nil]]; done|by intros [? ?]]|].
        match goal with |- votes_for k ?l = _ => set (ds := l) end.
        assert (Forall (fun d => dr_Key d <> k) ds) as Hk by (repeat (constructor; [cbn; congruence|]); constructor).
        unfold votes_for. destruct (filter _ ds) as [|x l] eqn:Hx; [done|].
        assert (x ∈ x :: l) as Hin by constructor. rewrite <- Hx in Hin.
        apply list_elem_of_filter in Hin as [[_ Hkx] Hin]. rewrite Forall_forall in Hk. by apply Hk in Hin. }
  destruct (consensus_winner by_text true demo_vote _ Hr) as (Hc & _ & _).
  split; [reflexivity|]. split; [reflexivity|]. split; [exact Hc|reflexivity].
Defined.
