(* ===== verification/Team.v ===== *)
(** * Handoffs: src/team.go

    A [Team] runs one user turn through agents that transfer control to each
    other with transfer tools.  The pending target of a turn lives in the
    world, at the address its context carries; a [MultiSource] as a tool
    source keeps its index in the world too, so the conversion is a
    parameter.  A member's run is the runner's [Run]. *)

From S2P Require Import Prelude GoStr Errors Json Provider TreeBudget Middleware Events MultiSource Compaction StepStage Stuck Dispatch Runner SubAgents FuncSource.
Local Open Scope eff_scope.
Local Open Scope Z_scope.

Definition defaultMaxHandoffs : Z := 8.

(** What a team tells its surface: a member's event as it is, or tagged with
    the member's name, and each transfer. *)
Inductive team_event :=
| TeamRaw (e : Event)
| TeamTagged (e : SubAgentEvent)
| TeamHandoff (from to : string).

Section Team.
Context {Ctx W : Type}.

Definition member_run := Ctx -> list Message -> eff W Event (option TurnResult * option error).

(** The handoff signal of a context, by address. *)
Record SignalEnv := {
  se_from : Ctx -> option positive;
  se_with : Ctx -> positive -> Ctx;
  se_alloc : W -> positive * W;
  se_get : W -> positive -> string;
  se_set : W -> positive -> string -> W;
}.

Record Team := {
  tm_members : gmap string member_run;
  tm_order : list string;
  tm_start : string;
  tm_maxHandoffs : Z;
  tm_onHandoff : bool;
  tm_onEvent : bool;
}.

Record TeamMember := {
  tmb_Name : string;
  tmb_Config : option (RunnerConfig Ctx W);
  tmb_HandoffTo : list string;
}.

Record TeamConfig := {
  tc_Members : list TeamMember;
  tc_Start : string;
  tc_MaxHandoffs : Z;
  tc_OnHandoff : bool;
  tc_OnEvent : bool;
}.

Variables (senv : SignalEnv) (run_of : RunnerConfig Ctx W -> member_run).
Variables (multi_source : MultiSource Ctx W Event -> ToolSource Ctx W Event).
Variables (schema : string -> option error) (encode : tool_args -> result RawJSON) (decode : RawJSON -> result unit).

(** ** Signals *)
Definition signal_set (sig : positive) (target : string) : eff W Event unit :=
  fun w => (tt, [], se_set senv w sig target).

Definition signal_take {E} (sig : positive) : eff W E string :=
  fun w => (se_get senv w sig, [], se_set senv w sig "").

(** ** Construction *)
Definition transfer_handler (target : string) (ctx : Ctx) (_ : unit) : eff W Event (result string) :=
  (match se_from senv ctx with Some sig => signal_set sig target | None => eff_ret tt end) ;;;
  eff_ret (inr ("Transferring to " +:+ target +:+ ".")).

Fixpoint add_transfers (from : string) (members : list string) (targets : list string) (fs : FuncSource Ctx W Event)
    : result (FuncSource Ctx W Event) :=
  match targets with
  | [] => inr fs
  | target :: targets =>
      if negb (str_mem target members) then
        inl (EText ("agent: Team member " +:+ go_quote from +:+ " hands off to unknown member " +:+ go_quote target))
      else
        let '(err, fs) := AddFunc fs ("transfer_to_" +:+ target)
          ("Hand off the conversation to the " +:+ target +:+ " agent. Call this to transfer control; do not also answer.")
          (schema ("transfer_to_" +:+ target)) encode decode (transfer_handler target) [] in
        match err with
        | Some e => inl e
        | None => add_transfers from members targets fs
        end
  end.

Definition buildTransferSource (from : string) (targets members : list string) : result (FuncSource Ctx W Event) :=
  add_transfers from members targets NewFuncSource.

Definition with_tools (c : RunnerConfig Ctx W) (tools : ToolSource Ctx W Event) : RunnerConfig Ctx W :=
  {| rc_Provider := rc_Provider c; rc_Tools := Some tools; rc_Instructions := rc_Instructions c;
     rc_InstructionsFunc := rc_InstructionsFunc c; rc_MaxSteps := rc_MaxSteps c; rc_TreeBudget := rc_TreeBudget c;
     rc_Selector := rc_Selector c; rc_Generation := rc_Generation c; rc_Compactor := rc_Compactor c;
     rc_StepStages := rc_StepStages c; rc_SignalPolicy := rc_SignalPolicy c; rc_PreemptGrant := rc_PreemptGrant c;
     rc_ResponseSchema := rc_ResponseSchema c; rc_ResponseGuided := rc_ResponseGuided c; rc_TurnEnd := rc_TurnEnd c |}.

(** The member's tools with its transfer tools merged in. *)
Definition merge_tools (name : string) (tools : option (ToolSource Ctx W Event)) (transfers : FuncSource Ctx W Event)
    : result (ToolSource Ctx W Event) :=
  match tools with
  | None => inr (func_source transfers)
  | Some base =>
      let '(err, multi) := ms_Add (NewMultiSource []) "base" base in
      match err with
      | Some e => inl (wrap_error ("agent: Team " +:+ go_quote name +:+ " tools: ") e)
      | None =>
          let '(err, multi) := ms_Add multi "handoff" (func_source transfers) in
          match err with
          | Some e => inl (wrap_error ("agent: Team " +:+ go_quote name +:+ " handoff tools: ") e)
          | None => inr (multi_source multi)
          end
      end
  end.

Definition member_config (names : list string) (m : TeamMember) : result (option (RunnerConfig Ctx W)) :=
  match tmb_HandoffTo m with
  | [] => inr (tmb_Config m)
  | _ =>
      match buildTransferSource (tmb_Name m) (tmb_HandoffTo m) names with
      | inl e => inl e
      | inr transfers =>
          match merge_tools (tmb_Name m) (match tmb_Config m with Some c => rc_Tools c | None => None end) transfers with
          | inl e => inl e
          | inr tools => inr (match tmb_Config m with Some c => Some (with_tools c tools) | None => None end)
          end
      end
  end.

(** Names are present, not empty and distinct. *)
Fixpoint check_names (seen : list string) (ms : list TeamMember) : result (list string) :=
  match ms with
  | [] => inr seen
  | m :: ms =>
      if String.eqb (tmb_Name m) "" then inl (EText "agent: Team member with empty Name")
      else if str_mem (tmb_Name m) seen then inl (EText ("agent: Team has duplicate member " +:+ go_quote (tmb_Name m)))
      else check_names (seen ++ [tmb_Name m]) ms
  end.

Fixpoint add_members (names : list string) (ms : list TeamMember) (t : Team) : result Team :=
  match ms with
  | [] => inr t
  | m :: ms =>
      match member_config names m with
      | inl e => inl e
      | inr mc =>
          match NewRunner mc with
          | inl e => inl (wrap_error ("agent: Team member " +:+ go_quote (tmb_Name m) +:+ ": ") e)
          | inr cfg =>
              add_members names ms
                {| tm_members := <[tmb_Name m := run_of cfg]> (tm_members t); tm_order := tm_order t ++ [tmb_Name m];
                   tm_start := tm_start t; tm_maxHandoffs := tm_maxHandoffs t; tm_onHandoff := tm_onHandoff t;
                   tm_onEvent := tm_onEvent t |}
          end
      end
  end.

Definition NewTeam (cfg : TeamConfig) : result Team :=
  match tc_Members cfg with
  | [] => inl (EText "agent: Team needs at least one member")
  | ms =>
      match check_names [] ms with
      | inl e => inl e
      | inr names =>
          if negb (str_mem (tc_Start cfg) names) then
            inl (EText ("agent: Team Start " +:+ go_quote (tc_Start cfg) +:+ " is not a member"))
          else
            add_members names ms
              {| tm_members := ∅; tm_order := []; tm_start := tc_Start cfg;
                 tm_maxHandoffs := if tc_MaxHandoffs cfg <=? 0 then defaultMaxHandoffs else tc_MaxHandoffs cfg;
                 tm_onHandoff := tc_OnHandoff cfg; tm_onEvent := tc_OnEvent cfg |}
      end
  end.

Definition StartAgent (t : Team) : string := tm_start t.

(** ** Running a turn *)
Definition tag_event (t : Team) (name : string) (e : Event) : team_event :=
  if tm_onEvent t then TeamTagged {| sub_Scope := name; sub_Depth := 1; sub_Event := e |} else TeamRaw e.

Definition run_member (t : Team) (name : string) (run : member_run) (ctx : Ctx) (work : list Message)
    : eff W team_event (option TurnResult * option error) :=
  fun w => let '(r, evs, w) := run ctx work w in (r, map (tag_event t name) evs, w).

Definition with_messages (r : TurnResult) (msgs : list Message) : TurnResult :=
  {| res_Text := res_Text r; res_Messages := msgs; res_Usage := res_Usage r; res_UsageByModel := res_UsageByModel r;
     res_Steps := res_Steps r; res_FinishReason := res_FinishReason r; res_Structured := res_Structured r;
     res_StructuredError := res_StructuredError r |}.

Definition team_out : Type := option TurnResult * string * option error.

Definition too_many (t : Team) (name : string) : error :=
  wrap_sentinel ErrMaxHandoffs (" (" +:+ itoa (tm_maxHandoffs t) +:+ ") starting from " +:+ go_quote name).

(** The loop; [None] is a nil result without an error, or no fuel. *)
Fixpoint team_loop (fuel : nat) (t : Team) (ctx : Ctx) (sig : positive) (name : string) (run : member_run)
    (work appended : list Message) (handoffs : Z) : eff W team_event (option team_out) :=
  match fuel with
  | O => eff_ret None
  | S fuel =>
      let* r := run_member t name run ctx work in
      match r with
      | (_, Some err) => eff_ret (Some (None, name, Some err))
      | (None, None) => eff_ret None
      | (Some res, None) =>
          let work := work ++ res_Messages res in
          let appended := appended ++ res_Messages res in
          let* target := signal_take sig in
          if String.eqb target "" then eff_ret (Some (Some (with_messages res appended), name, None))
          else
            match tm_members t !! target with
            | None => eff_ret (Some (Some (with_messages res appended), name, None))
            | Some next =>
                if tm_maxHandoffs t <=? handoffs then eff_ret (Some (None, name, Some (too_many t name)))
                else
                  (if tm_onHandoff t then eff_emit (TeamHandoff name target) else eff_ret tt) ;;;
                  team_loop fuel t ctx sig target next work appended (handoffs + 1)
            end
      end
  end.

Definition team_RunTurn (t : Team) (ctx : Ctx) (history : list Message) (active : string)
    : eff W team_event (option team_out) :=
  let* sig := eff_call (se_alloc senv) in
  let ctx := se_with senv ctx sig in
  let name := match tm_members t !! active with Some _ => active | None => tm_start t end in
  match tm_members t !! name with
  | None => eff_ret None
  | Some run => team_loop (S (Z.to_nat (tm_maxHandoffs t))) t ctx sig name run history [] 0
  end.

Definition team_Run (t : Team) (ctx : Ctx) (input : string) : eff W team_event (option (option TurnResult * option error)) :=
  let* r := team_RunTurn t ctx [text_message RoleUser input] "" in
  eff_ret (match r with Some (res, _, err) => Some (res, err) | None => None end).
End Team.
Arguments SignalEnv : clear implicits.
Arguments Team : clear implicits.
Arguments TeamMember : clear implicits.
Arguments TeamConfig : clear implicits.

(** ** Construction keeps its promises *)
Section TeamProps.
Context {Ctx W : Type} (senv : SignalEnv Ctx W).

Record team_wf (t : Team Ctx W) : Prop := {
  tw_start : is_Some (tm_members t !! tm_start t);
  tw_max : 0 < tm_maxHandoffs t;
  tw_order name : name ∈ tm_order t <-> is_Some (tm_members t !! name);
}.

Lemma check_names_spec seen ms names :
  check_names seen ms = inr names -> NoDup seen ->
  names = seen ++ map (@tmb_Name Ctx W) ms /\ NoDup names /\ Forall (fun m => tmb_Name m <> "") ms.
Proof.
  revert seen. induction ms as [|m ms IH]; intros seen H Hnd; simpl in H.
  { injection H as <-. by rewrite app_nil_r. }
  destruct (String.eqb_spec (tmb_Name m) "") as [|Hne]; [done|].
  destruct (str_mem (tmb_Name m) seen) eqn:Hs; [done|]. apply str_mem_false in Hs.
  apply IH in H as (-> & Hn & Hf).
  - rewrite <- app_assoc in *. auto.
  - apply NoDup_app. split; [done|]. split; [|apply NoDup_singleton]. by intros ? ? ->%list_elem_of_singleton.
Qed.

Lemma add_members_spec run_of multi_source schema encode decode names ms t t' :
  add_members senv run_of multi_source schema encode decode names ms t = inr t' ->
  tm_start t' = tm_start t /\ tm_maxHandoffs t' = tm_maxHandoffs t /\ tm_order t' = tm_order t ++ map tmb_Name ms /\
  ((forall n, n ∈ tm_order t <-> is_Some (tm_members t !! n)) -> forall n, n ∈ tm_order t' <-> is_Some (tm_members t' !! n)).
Proof.
  revert t. induction ms as [|m ms IH]; intros t H; simpl in H.
  { injection H as <-. by rewrite app_nil_r. }
  destruct (member_config _ _ _ _ _ names m) as [e|mc]; [done|].
  destruct (NewRunner mc) as [e|cfg]; [done|]. apply IH in H as (-> & -> & -> & Hm). cbn in *.
  split; [done|]. split; [done|]. split; [by rewrite <- app_assoc|]. intros Ht. apply Hm.
  intros n. rewrite elem_of_app, list_elem_of_singleton, lookup_insert_is_Some, Ht.
  destruct (decide (tmb_Name m = n)); naive_solver.
Qed.

Lemma new_team_wf run_of multi_source schema encode decode cfg t :
  NewTeam senv run_of multi_source schema encode decode cfg = inr t -> team_wf t.
Proof.
  unfold NewTeam. destruct (tc_Members cfg) as [|m0 ms0] eqn:Hms; [done|]. rewrite <- Hms.
  destruct (check_names [] (tc_Members cfg)) as [e|names] eqn:Hc; [done|].
  destruct (str_mem (tc_Start cfg) names) eqn:Hs; [|done]. cbn [negb]. intros H.
  apply check_names_spec in Hc as (-> & _ & _); [|apply NoDup_nil_2].
  apply add_members_spec in H as (Hst & Hmax & Ho & Hm). cbn in *.
  specialize (Hm ltac:(intros n; rewrite lookup_empty, is_Some_alt; set_solver)).
  split; [|rewrite Hmax|exact Hm].
  - rewrite Hst. apply Hm. rewrite Ho. by apply str_mem_true.
  - case_match; unfold defaultMaxHandoffs; lia.
Qed.

(** The members are the runs of the members' configurations. *)
Lemma new_team_members (run_of : RunnerConfig Ctx W -> @member_run Ctx W) multi_source schema encode decode cfg t :
  NewTeam senv run_of multi_source schema encode decode cfg = inr t ->
  forall n run, tm_members t !! n = Some run -> exists c, run = run_of c.
Proof.
  unfold NewTeam. destruct (tc_Members cfg) as [|m0 ms0]; [done|].
  destruct (check_names [] (m0 :: ms0)) as [e|names]; [done|]. destruct (negb _); [done|].
  match goal with |- add_members _ _ _ _ _ _ _ _ ?t0 = _ -> _ => set (start := t0) end.
  assert (forall n run, tm_members start !! n = Some run -> exists c, run = run_of c) as H0
    by (intros n run Hn; cbn in Hn; by rewrite lookup_empty in Hn).
  clearbody start. revert start H0. induction (m0 :: ms0) as [|m ms IH]; intros start H0 H; simpl in H.
  { injection H as <-. exact H0. }
  destruct (member_config _ _ _ _ _ names m) as [e|mc]; [done|].
  destruct (NewRunner mc) as [e|c]; [done|]. refine (IH _ _ H). cbn.
  intros n run [[_ <-]|[_ Hn]]%lookup_insert_Some; eauto.
Qed.

(** ** The hops of a turn *)
Record hop := { h_name : string; h_work : list Message; h_result : TurnResult; h_target : string }.

Definition hop_messages (hops : list hop) : list Message := hops ≫= (fun h => res_Messages (h_result h)).

(** Each hop runs the agent the one before named, over everything said so
    far. *)
Fixpoint chained (name : string) (work : list Message) (hops : list hop) : Prop :=
  match hops with
  | [] => True
  | h :: hops => h_name h = name /\ h_work h = work /\ chained (h_target h) (work ++ res_Messages (h_result h)) hops
  end.

Definition active_after (name : string) (hops : list hop) : string := default name (h_target <$> last hops).

(** A hop is a run of the member, and its target is what the run left
    pending. *)
Definition real_hop (t : Team Ctx W) (ctx : Ctx) (sig : positive) (h : hop) : Prop :=
  exists run w evs w', tm_members t !! h_name h = Some run /\
    run ctx (h_work h) w = ((Some (h_result h), None), evs, w') /\ h_target h = se_get senv w' sig.

Definition transfers (evs : list team_event) : list (string * string) :=
  omap (fun e => match e with TeamHandoff a b => Some (a, b) | _ => None end) evs.

(** How a turn ends after the agents in [handed] passed control on. *)
Inductive turn_end (t : Team Ctx W) (ctx : Ctx) (name : string) (work appended : list Message) (handoffs : Z)
    (handed : list hop) : team_out -> list hop -> Prop :=
| end_answer h :
    h_target h = "" \/ tm_members t !! h_target h = None ->
    turn_end t ctx name work appended handoffs handed
      (Some (with_messages (h_result h) (appended ++ hop_messages (handed ++ [h]))), h_name h, None) [h]
| end_error run w e partial evs w' :
    tm_members t !! active_after name handed = Some run ->
    run ctx (work ++ hop_messages handed) w = ((partial, Some e), evs, w') ->
    turn_end t ctx name work appended handoffs handed (None, active_after name handed, Some e) []
| end_cap h :
    is_Some (tm_members t !! h_target h) -> h_target h <> "" ->
    handoffs + Z.of_nat (length handed) = tm_maxHandoffs t ->
    turn_end t ctx name work appended handoffs handed (None, h_name h, Some (too_many t (h_name h))) [h].

Lemma transfers_tagged (t : Team Ctx W) name evs : transfers (map (tag_event t name) evs) = [].
Proof. unfold transfers, tag_event. induction evs as [|e evs IH]; csimpl; [done|]. by destruct (tm_onEvent t). Qed.

Lemma transfers_app a b : transfers (a ++ b) = transfers a ++ transfers b.
Proof. apply omap_app. Qed.

Definition never_nil (run : @member_run Ctx W) : Prop := forall ctx ms w, eff_value (run ctx ms) w <> (None, None).

Lemma hop_messages_cons h hops : hop_messages (h :: hops) = res_Messages (h_result h) ++ hop_messages hops.
Proof. done. Qed.

Lemma active_after_cons name h hops : active_after name (h :: hops) = active_after (h_target h) hops.
Proof. unfold active_after. rewrite last_cons. by destruct (last hops). Qed.

Lemma turn_end_cons t ctx name work appended handoffs h handed out final :
  turn_end t ctx (h_target h) (work ++ res_Messages (h_result h)) (appended ++ res_Messages (h_result h)) (handoffs + 1)
    handed out final ->
  turn_end t ctx name work appended handoffs (h :: handed) out final.
Proof.
  inversion_clear 1 as [h' Ht|run w e partial evs w' Hm Hr|h' Ht Hne Hc].
  - rewrite <- app_assoc, <- hop_messages_cons. by apply (end_answer t ctx name work appended handoffs (h :: handed)).
  - rewrite <- (active_after_cons name) in *. rewrite <- app_assoc, <- hop_messages_cons in Hr. by econstructor.
  - apply end_cap; [done|done|simpl; lia].
Qed.

(** The loop, from any point of a turn on. *)
Lemma team_loop_hops t ctx sig (Hnil : forall n run, tm_members t !! n = Some run -> never_nil run) fuel :
  forall name run work appended handoffs w,
  tm_members t !! name = Some run -> 0 <= handoffs <= tm_maxHandoffs t ->
  fuel = S (Z.to_nat (tm_maxHandoffs t - handoffs)) ->
  exists handed final out evs w',
    team_loop senv fuel t ctx sig name run work appended handoffs w = (Some out, evs, w') /\
    turn_end t ctx name work appended handoffs handed out final /\
    chained name work (handed ++ final) /\ Forall (real_hop t ctx sig) (handed ++ final) /\
    handoffs + Z.of_nat (length handed) <= tm_maxHandoffs t /\
    transfers evs = (if tm_onHandoff t then map (fun h => (h_name h, h_target h)) handed else []).
Proof.
  induction fuel as [|fuel IH]; intros name run work appended handoffs w Hrun Hh Hf; [done|].
  cbn [team_loop]. unfold eff_bind at 1, run_member.
  destruct (run ctx work w) as [[r evs1] w1] eqn:Hr1.
  assert (r <> (None, None)) as Hr by (intros ->; apply (Hnil _ _ Hrun ctx work w); unfold eff_value; by rewrite Hr1).
  destruct r as [[res|] [err|]]; try done; cbn [eff_ret].
  1, 3: exists [], [], (None, name, Some err); eexists _, w1; split; [reflexivity|];
    (split; [by eapply (end_error t ctx name work appended handoffs []); [|rewrite app_nil_r]|]);
    (split; [done|]); (split; [done|]); (split; [simpl; lia|]);
    rewrite app_nil_r, transfers_tagged; by destruct (tm_onHandoff t).
  unfold eff_bind at 1, signal_take.
  set (h := {| h_name := name; h_work := work; h_result := res; h_target := se_get senv w1 sig |}).
  assert (real_hop t ctx sig h) as Hreal by (exists run, w, evs1, w1; done).
  set (target := se_get senv w1 sig) in *. set (w2 := se_set senv w1 sig "").
  assert (h_target h = "" \/ tm_members t !! h_target h = None ->
    turn_end t ctx name work appended handoffs []
      (Some (with_messages res (appended ++ res_Messages res)), name, None) [h]) as Hans.
  { intros Ht. pose proof (end_answer t ctx name work appended handoffs [] h Ht) as He.
    cbn in He. by rewrite app_nil_r in He. }
  assert (forall out, turn_end t ctx name work appended handoffs [] out [h] ->
    exists handed final out' evs w',
      (Some out, map (tag_event t name) evs1 ++ [] ++ [], w2) = (Some out', evs, w') /\
      turn_end t ctx name work appended handoffs handed out' final /\
      chained name work (handed ++ final) /\ Forall (real_hop t ctx sig) (handed ++ final) /\
      handoffs + Z.of_nat (length handed) <= tm_maxHandoffs t /\
      transfers evs = (if tm_onHandoff t then map (fun h => (h_name h, h_target h)) handed else [])) as Hstop.
  { intros out He. exists [], [h], out. eexists _, _. split; [reflexivity|]. split; [done|].
    split; [done|]. split; [by constructor|]. split; [simpl; lia|].
    rewrite !app_nil_r, transfers_tagged. by destruct (tm_onHandoff t). }
  destruct (String.eqb_spec target "") as [Ht|Ht]; [apply Hstop, Hans; by left|].
  destruct (tm_members t !! target) as [next|] eqn:Hnext; [|apply Hstop, Hans; by right].
  destruct (Z.leb_spec (tm_maxHandoffs t) handoffs) as [Hcap|Hcap].
  { apply Hstop. apply (end_cap t ctx name work appended handoffs [] h); [cbn; by rewrite Hnext|done|simpl; lia]. }
  destruct (IH target next (work ++ res_Messages res) (appended ++ res_Messages res) (handoffs + 1) w2)
    as (handed & final & out & evs & w' & Hl & He & Hlink & Hall & Hlen & Htr); [done|lia|lia|].
  unfold eff_bind. exists (h :: handed), final, out.
  destruct (tm_onHandoff t) eqn:Hon; cbn [eff_emit eff_ret]; unfold eff_emit, eff_ret; rewrite Hl;
    (eexists _, w'; split; [reflexivity|]); (split; [by apply turn_end_cons|]);
    (split; [done|]); (split; [by constructor|]); (split; [simpl; lia|]);
    rewrite !transfers_app, transfers_tagged, Htr; done.
Qed.

(** C25: A team's turn is a bounded chain of handoffs over one history.  A team
    that NewTeam accepts, whose members never return nothing, always ends its
    turn: a chain of at most [MaxHandoffs] agents passed control on, each over
    the history and everything said before it, to the agent its transfer tool
    named; then an agent answered, and the result is its own with the messages
    of every hop, or it failed, or it asked for one transfer too many.  The
    name returned is the agent in control at the end, and the transfers
    reported are exactly those of the chain, in order. *)
Theorem team_turn_chain run_of multi_source schema encode decode cfg t ctx history active w :
  NewTeam senv run_of multi_source schema encode decode cfg = inr t ->
  (forall c, never_nil (run_of c)) ->
  let first := match tm_members t !! active with Some _ => active | None => tm_start t end in
  let '(sig, w1) := se_alloc senv w in
  exists handed final out evs w',
    team_RunTurn senv t ctx history active w = (Some out, evs, w') /\
    turn_end t (se_with senv ctx sig) first history [] 0 handed out final /\
    chained first history (handed ++ final) /\
    Forall (real_hop t (se_with senv ctx sig) sig) (handed ++ final) /\
    Z.of_nat (length handed) <= tm_maxHandoffs t /\
    transfers evs = (if tm_onHandoff t then map (fun h => (h_name h, h_target h)) handed else []).
Proof.
  intros Hnew Hruns. apply new_team_wf in Hnew as Hwf. cbv zeta.
  assert (forall n run, tm_members t !! n = Some run -> never_nil run) as Hnil
    by (intros n run Hn; by destruct (new_team_members _ _ _ _ _ _ _ Hnew n run Hn) as [c ->]).
  destruct (se_alloc senv w) as [sig w1] eqn:Ha.
  set (first := match tm_members t !! active with Some _ => active | None => tm_start t end).
  assert (exists run, tm_members t !! first = Some run) as [run Hrun].
  { unfold first. destruct (tm_members t !! active) eqn:Hact; [eauto|]. apply Hwf. }
  pose proof (tw_max _ Hwf).
  destruct (team_loop_hops t (se_with senv ctx sig) sig Hnil _ first run history [] 0 w1 Hrun ltac:(lia) eq_refl)
    as (handed & final & out & evs & w' & Hl & He & Hlink & Hall & Hlen & Htr).
  exists handed, final, out, evs, w'. split; [|auto with lia].
  unfold team_RunTurn, eff_bind, eff_call. rewrite Ha. fold first. rewrite Z.sub_0_r in Hl.
  match goal with |- context [match ?x with Some _ => _ | None => eff_ret None end] => replace x with (Some run) by done end.
  by rewrite Hl.
Qed.
End TeamProps.

(** ** A concrete team *)
Definition demo_signals : SignalEnv unit string :=
  {| se_from := fun _ => Some 1%positive; se_with := fun c _ => c; se_alloc := fun _ => (1%positive, "");
     se_get := fun w _ => w; se_set := fun _ _ s => s |}.

Definition silent_provider : Provider unit string :=
  {| prov_id := 1; prov_caps := None; prov_Stream := fun _ _ => eff_ret (inr []);
     prov_Generate := fun _ _ => eff_ret (inl (EText "")) |}.

Definition agent_config (instructions : string) : RunnerConfig unit string :=
  {| rc_Provider := silent_provider; rc_Tools := None; rc_Instructions := instructions; rc_InstructionsFunc := None;
     rc_MaxSteps := 5; rc_TreeBudget := {| tb_MaxSteps := 0; tb_MaxTokens := 0 |}; rc_Selector := None;
     rc_Generation := GenerationParams_zero; rc_Compactor := None; rc_StepStages := [];
     rc_SignalPolicy := None; rc_PreemptGrant := None; rc_ResponseSchema := ""; rc_ResponseGuided := None;
     rc_TurnEnd := [] |}.

Definition spoke (text : string) : TurnResult :=
  {| res_Text := text; res_Messages := [text_message RoleAssistant text]; res_Usage := Usage_zero; res_UsageByModel := None;
     res_Steps := 1; res_FinishReason := "stop"; res_Structured := ""; res_StructuredError := "" |}.

(** An agent whose instructions name a teammate transfers to it. *)
Definition scripted (cfg : RunnerConfig unit string) : @member_run unit string := fun _ _ _ =>
  (Some (spoke ("from " +:+ rc_Instructions cfg)), None, [EventTurnBegin],
   if String.eqb (rc_Instructions cfg) "triage" then "billing" else "").

Definition demo_team_config (handoff : list string) : TeamConfig unit string :=
  {| tc_Members := [{| tmb_Name := "triage"; tmb_Config := Some (agent_config "triage"); tmb_HandoffTo := handoff |};
                    {| tmb_Name := "billing"; tmb_Config := Some (agent_config "billing"); tmb_HandoffTo := [] |}];
     tc_Start := "triage"; tc_MaxHandoffs := 0; tc_OnHandoff := true; tc_OnEvent := true |}.

Definition demo_team (handoff : list string) : result (Team unit string) :=
  NewTeam demo_signals scripted (fun _ => {| src_Tools := fun _ => eff_ret (inr []); src_Call := fun _ _ _ => eff_ret (None, None) |})
    (fun _ => None) (fun _ => inr "{}") (fun _ => inr tt) (demo_team_config handoff).

Lemma team_turn_chain_witness :
  exists t r w', demo_team ["billing"] = inr t /\
    team_RunTurn demo_signals t tt [] "" "" = (Some (Some r, "billing", None),
      [TeamTagged {| sub_Scope := "triage"; sub_Depth := 1; sub_Event := EventTurnBegin |};
       TeamHandoff "triage" "billing";
       TeamTagged {| sub_Scope := "billing"; sub_Depth := 1; sub_Event := EventTurnBegin |}], w') /\
    res_Messages r = [text_message RoleAssistant "from triage"; text_message RoleAssistant "from billing"] /\
    exists handed final, chained "triage" [] (handed ++ final) /\ Z.of_nat (length handed) <= tm_maxHandoffs t.
Proof.
  destruct (demo_team ["billing"]) as [e|t] eqn:Ht; [vm_compute in Ht; discriminate|].
  assert (forall c, never_nil (scripted c)) as Hnil by (by intros c ctx ms w).
  pose proof (team_turn_chain demo_signals scripted _ _ _ _ _ t tt [] "" "" Ht Hnil) as H.
  cbn [se_alloc demo_signals] in H. destruct H as (handed & final & out & evs & w' & Hrun & _ & Hl & _ & Hlen & _).
  exists t. vm_compute in Ht. injection Ht as <-.
  eexists _, _. split; [reflexivity|]. split; [vm_compute; reflexivity|]. split; [reflexivity|].
  exists handed, final. split; [exact Hl|exact Hlen].
Defined.

(** A member may be declared to hand off to itself. *)
Lemma self_handoff_accepted : exists t, demo_team ["triage"] = inr t.
Proof. eexists. reflexivity. Qed.
