(* ===== verification/AgentPool.v ===== *)
(** * Background agents with handles: src/agent_pool.go

    [AgentPool] starts named agents in the background and keeps a handle to
    each.  Its state is what its mutexes guard; a spawn takes the pool's mutex
    twice (to reserve an id, then to publish the handle), and everything else
    one critical section at a time, so a run of the pool is an interleaving of
    those sections with the children's returns.  A child's run is its
    outcome; the call budget of a context is the shared counter of
    TreeBudget.v. *)

From S2P Require Import Prelude GoStr Errors Json Provider TreeBudget Middleware Events SubAgents.
Local Open Scope Z_scope.

Definition SpawnAgentToolName : string := "spawn_agent".
Definition AwaitAgentToolName : string := "await_agent".
Definition CancelAgentToolName : string := "cancel_agent".
Definition ListAgentsToolName : string := "list_agents".

Record pooledAgent := { pa_description : string; pa_maxDepth : Z }.

Record RegisteredAgent := { ra_Name : string; ra_Description : string }.

Inductive spawn_status := Running | Done | Failed | Cancelled.

#[export] Instance spawn_status_eq_dec : EqDecision spawn_status.
Proof. solve_decision. Defined.

Definition status_text (s : spawn_status) : string :=
  match s with Running => "running" | Done => "done" | Failed => "failed" | Cancelled => "cancelled" end.

(** [sh_outcome] is set when [done] is closed; [sh_aborted] when the child's
    context was cancelled. *)
Record spawnHandle := {
  sh_id : string;
  sh_name : string;
  sh_depth : Z;
  sh_scope : AgentPath;
  sh_task : string;
  sh_status : spawn_status;
  sh_outcome : option (option TurnResult * option error);
  sh_aborted : bool;
}.

Record AgentPool := {
  ap_agents : gmap string pooledAgent;
  ap_order : list string;
  ap_handles : gmap string spawnHandle;
  ap_seq : Z;
  ap_pending : list spawnHandle;
}.

Definition NewAgentPool : AgentPool :=
  {| ap_agents := ∅; ap_order := []; ap_handles := ∅; ap_seq := 0; ap_pending := [] |}.

Definition with_handles (p : AgentPool) (hs : gmap string spawnHandle) (pending : list spawnHandle) : AgentPool :=
  {| ap_agents := ap_agents p; ap_order := ap_order p; ap_handles := hs; ap_seq := ap_seq p; ap_pending := pending |}.

Definition Register (p : AgentPool) (name description : string) (has_runner : bool) (maxDepth : Z)
    : option error * AgentPool :=
  if String.eqb name "" || negb has_runner then
    (Some (EText "agent: AgentPool.Register requires a name and runner"), p)
  else
    let maxDepth := if maxDepth <=? 0 then defaultMaxAgentDepth else maxDepth in
    match ap_agents p !! name with
    | Some _ => (Some (EText ("agent: AgentPool already has " +:+ go_quote name)), p)
    | None =>
        (None, {| ap_agents := <[name := {| pa_description := description; pa_maxDepth := maxDepth |}]> (ap_agents p);
                  ap_order := ap_order p ++ [name]; ap_handles := ap_handles p; ap_seq := ap_seq p;
                  ap_pending := ap_pending p |})
    end.

Definition Registered (p : AgentPool) : list RegisteredAgent :=
  map (fun n => {| ra_Name := n; ra_Description := match ap_agents p !! n with Some a => pa_description a | None => "" end |})
    (ap_order p).

Definition agent_id (n : Z) : string := "agent-" +:+ itoa n.

(** ** Spawning

    What a spawn reads from its context: the depth, the scope, and the call
    budget it shares. *)
Record spawn_ctx := { sc_depth : Z; sc_scope : AgentPath; sc_calls : option Z }.

(** The first critical section: the guards, then an id.  The handle is built
    before the second section publishes it. *)
Definition spawn_reserve (p : AgentPool) (ctx : spawn_ctx) (name task : string)
    : result string * option Z * AgentPool :=
  match ap_agents p !! name with
  | None => (inl (EText ("no spawnable agent " +:+ go_quote name)), sc_calls ctx, p)
  | Some spec =>
      if pa_maxDepth spec <=? sc_depth ctx then
        (inl (EText ("spawn " +:+ go_quote name +:+ " refused: max depth " +:+ itoa (pa_maxDepth spec) +:+ " reached")),
         sc_calls ctx, p)
      else
        let '(refused, calls) := charge_call (sc_calls ctx) in
        if refused : bool then
          (inl (EText ("spawn " +:+ go_quote name +:+ " refused: call budget exhausted")), calls, p)
        else
          let id := agent_id (ap_seq p + 1) in
          (inr id, calls,
           {| ap_agents := ap_agents p; ap_order := ap_order p; ap_handles := ap_handles p; ap_seq := ap_seq p + 1;
              ap_pending := ap_pending p ++
                [{| sh_id := id; sh_name := name; sh_depth := sc_depth ctx + 1;
                    sh_scope := path_Child (sc_scope ctx) name; sh_task := task; sh_status := Running;
                    sh_outcome := None; sh_aborted := false |}] |})
  end.

(** The second section; then the goroutine starts and the id is returned. *)
Definition spawn_publish (p : AgentPool) (id : string) : AgentPool :=
  match filter (fun h => sh_id h = id) (ap_pending p) with
  | [] => p
  | h :: _ => with_handles p (<[id := h]> (ap_handles p)) (filter (fun h => sh_id h <> id) (ap_pending p))
  end.

Definition with_outcome (h : spawnHandle) (result : option TurnResult) (err : option error) : spawnHandle :=
  {| sh_id := sh_id h; sh_name := sh_name h; sh_depth := sh_depth h; sh_scope := sh_scope h; sh_task := sh_task h;
     sh_status := match sh_status h with
                  | Running => match err with Some _ => Failed | None => Done end
                  | s => s
                  end;
     sh_outcome := Some (result, err); sh_aborted := sh_aborted h |}.

(** [finish], called once, by the child's goroutine. *)
Definition pool_finish (p : AgentPool) (id : string) (result : option TurnResult) (err : option error) : AgentPool :=
  match ap_handles p !! id with
  | Some h => match sh_outcome h with
              | None => with_handles p (<[id := with_outcome h result err]> (ap_handles p)) (ap_pending p)
              | Some _ => p
              end
  | None => p
  end.

Definition aborted (h : spawnHandle) : spawnHandle :=
  {| sh_id := sh_id h; sh_name := sh_name h; sh_depth := sh_depth h; sh_scope := sh_scope h; sh_task := sh_task h;
     sh_status := match sh_status h with Running => Cancelled | s => s end;
     sh_outcome := sh_outcome h; sh_aborted := true |}.

Definition pool_cancel (p : AgentPool) (id : string) : option error * AgentPool :=
  match ap_handles p !! id with
  | None => (Some (EText ("no spawned agent " +:+ go_quote id)), p)
  | Some h => (None, with_handles p (<[id := aborted h]> (ap_handles p)) (ap_pending p))
  end.

(** [await]: [None] is a caller that still waits.  When both the child has
    finished and the caller's context is done, [select] may take either. *)
Inductive await_answer : AgentPool -> option error -> string -> option (result (option TurnResult)) -> Prop :=
| await_unknown p ctx_err id :
    ap_handles p !! id = None ->
    await_answer p ctx_err id (Some (inl (EText ("no spawned agent " +:+ go_quote id))))
| await_blocked p id h :
    ap_handles p !! id = Some h -> sh_outcome h = None -> await_answer p None id None
| await_ctx p e id h :
    ap_handles p !! id = Some h -> await_answer p (Some e) id (Some (inl e))
| await_failed p ctx_err id h result e :
    ap_handles p !! id = Some h -> sh_outcome h = Some (result, Some e) ->
    await_answer p ctx_err id
      (Some (inl (wrap_error ("spawned agent " +:+ go_quote id +:+ " (" +:+ sh_name h +:+ ") failed: ") e)))
| await_done p ctx_err id h result :
    ap_handles p !! id = Some h -> sh_outcome h = Some (result, None) -> await_answer p ctx_err id (Some (inr result)).

Fixpoint statuses_upto (n : nat) (p : AgentPool) : list (string * string * spawn_status) :=
  match n with
  | O => []
  | S n =>
      statuses_upto n p ++
      match ap_handles p !! agent_id (Z.of_nat (S n)) with
      | Some h => [(sh_id h, sh_name h, sh_status h)]
      | None => []
      end
  end.

Definition statuses (p : AgentPool) : list (string * string * spawn_status) := statuses_upto (Z.to_nat (ap_seq p)) p.

(** ** The tools' answers *)
Definition spawn_text (name id : string) : string :=
  "spawned " +:+ go_quote name +:+ " as " +:+ id +:+ " (running in the background)".

Definition spawn_refuses_task (task : string) : bool := String.eqb (trim_space task) "".

Definition await_text (id : string) (result : option TurnResult) : string :=
  match result with
  | None => "spawned agent " +:+ id +:+ " finished with no result"
  | Some r => if String.eqb (res_Structured r) "" then res_Text r else res_Structured r
  end.

Definition list_text (p : AgentPool) : string :=
  match statuses p with
  | [] => "no spawned agents"
  | st => str_concat (map (fun '(id, name, s) => id +:+ " (" +:+ name +:+ "): " +:+ status_text s +:+ newline) st)
  end.

Definition menu_text (p : AgentPool) : string :=
  str_concat (map (fun a => newline +:+ "- " +:+ ra_Name a +:+ ": " +:+ ra_Description a) (Registered p)).

(** ** Runs of a pool *)
Inductive pool_op :=
| OpRegister (name description : string) (has_runner : bool) (maxDepth : Z)
| OpReserve (ctx : spawn_ctx) (name task : string)
| OpPublish (id : string)
| OpFinish (id : string) (result : option TurnResult) (err : option error)
| OpCancel (id : string).

Definition pool_do (p : AgentPool) (op : pool_op) : AgentPool :=
  match op with
  | OpRegister name description has_runner maxDepth => (Register p name description has_runner maxDepth).2
  | OpReserve ctx name task => (spawn_reserve p ctx name task).2
  | OpPublish id => spawn_publish p id
  | OpFinish id result err => pool_finish p id result err
  | OpCancel id => (pool_cancel p id).2
  end.

Definition pool_run (ops : list pool_op) (p : AgentPool) : AgentPool := foldl pool_do p ops.

(** ** Invariant *)
Lemma agent_id_inj a b : agent_id a = agent_id b -> a = b.
Proof. unfold agent_id, itoa. intros H%(inj (String.append "agent-")). by apply (inj pretty) in H. Qed.

Definition issued (p : AgentPool) (id : string) : Prop := exists n, 1 <= n <= ap_seq p /\ id = agent_id n.

(** What a status says of the run behind it. *)
Definition coherent (h : spawnHandle) : Prop :=
  match sh_status h with
  | Running => sh_outcome h = None /\ sh_aborted h = false
  | Done => exists r, sh_outcome h = Some (r, None)
  | Failed => exists r e, sh_outcome h = Some (r, Some e)
  | Cancelled => sh_aborted h = true
  end.

Definition within_depth (p : AgentPool) (h : spawnHandle) : Prop :=
  exists spec, ap_agents p !! sh_name h = Some spec /\ sh_depth h <= pa_maxDepth spec.

Record pool_inv (p : AgentPool) : Prop := {
  pi_seq : 0 <= ap_seq p;
  pi_handles id h : ap_handles p !! id = Some h ->
    sh_id h = id /\ issued p id /\ coherent h /\ within_depth p h;
  pi_pending h : h ∈ ap_pending p ->
    issued p (sh_id h) /\ sh_status h = Running /\ coherent h /\ within_depth p h /\ ap_handles p !! sh_id h = None;
  pi_distinct : NoDup (map sh_id (ap_pending p));
  pi_all id : issued p id -> is_Some (ap_handles p !! id) \/ id ∈ map sh_id (ap_pending p);
}.

Lemma new_pool_inv : pool_inv NewAgentPool.
Proof.
  split; cbn; try done.
  - intros h Hh. by apply elem_of_nil in Hh.
  - apply NoDup_nil_2.
  - intros id (n & Hn & _). cbn in Hn. lia.
Qed.

(** Changing one published handle without changing who it is. *)
Lemma update_handle_inv p id h h' :
  pool_inv p -> ap_handles p !! id = Some h -> sh_id h' = sh_id h -> sh_name h' = sh_name h -> sh_depth h' = sh_depth h ->
  coherent h' -> pool_inv (with_handles p (<[id := h']> (ap_handles p)) (ap_pending p)).
Proof.
  intros I Hh Hid Hname Hdepth Hc. destruct (pi_handles _ I _ _ Hh) as (Hi & Hiss & _ & Hw). split; cbn; try apply I.
  - intros id' x [[<- <-]|[_ Hx]]%lookup_insert_Some; [|by apply I].
    split; [congruence|]. split; [done|]. split; [done|]. unfold within_depth. by rewrite Hname, Hdepth.
  - intros x Hx. destruct (pi_pending _ I _ Hx) as (? & ? & ? & ? & Hn). repeat split; auto.
    rewrite lookup_insert_ne; [done|]. intros ->. congruence.
  - intros id' Hi'. destruct (pi_all _ I id' Hi') as [?|?]; [left|by right].
    rewrite lookup_insert_is_Some'. by right.
Qed.

Lemma publish_inv p id : pool_inv p -> pool_inv (spawn_publish p id).
Proof.
  intros I. unfold spawn_publish. destruct (filter (fun h => sh_id h = id) (ap_pending p)) as [|h l] eqn:Hf; [done|].
  assert (h ∈ filter (fun h => sh_id h = id) (ap_pending p)) as Hh by (rewrite Hf; by left).
  apply list_elem_of_filter in Hh as [<- Hh].
  destruct (pi_pending _ I _ Hh) as (Hiss & Hs & Hc & Hw & Hn). split; cbn; try apply I.
  - intros id x [[<- <-]|[_ Hx]]%lookup_insert_Some; [done|by apply I].
  - intros x [Hne Hx]%list_elem_of_filter. destruct (pi_pending _ I _ Hx) as (? & ? & ? & ? & ?).
    repeat split; auto. by rewrite lookup_insert_ne.
  - eapply sublist_NoDup; [apply I|]. apply (fmap_sublist sh_id), sublist_filter.
  - intros id Hi. destruct (decide (sh_id h = id)) as [<-|Hne]; [left; rewrite lookup_insert_eq; eauto|].
    destruct (pi_all _ I id Hi) as [?|Hp]; [left; by rewrite lookup_insert_ne|right].
    apply list_elem_of_fmap in Hp as (x & -> & Hx). apply list_elem_of_fmap. exists x. split; [done|].
    by apply list_elem_of_filter.
Qed.

Lemma register_inv p name d r m : pool_inv p -> pool_inv (Register p name d r m).2.
Proof.
  intros I. unfold Register. case_match; [done|]. destruct (ap_agents p !! name) eqn:Hn; [done|]. cbn.
  assert (forall h, within_depth p h ->
    within_depth {| ap_agents := <[name := {| pa_description := d; pa_maxDepth := if m <=? 0 then defaultMaxAgentDepth else m |}]> (ap_agents p);
                    ap_order := ap_order p ++ [name]; ap_handles := ap_handles p; ap_seq := ap_seq p; ap_pending := ap_pending p |} h) as Hw.
  { intros h (spec & Hs & Hd). exists spec. split; [|done]. cbn. rewrite lookup_insert_ne by congruence. done. }
  split; cbn; try apply I.
  - intros id h Hh. destruct (pi_handles _ I _ _ Hh) as (? & ? & ? & ?). auto.
  - intros h Hh. destruct (pi_pending _ I _ Hh) as (? & ? & ? & ? & ?). auto 6.
Qed.

Lemma reserve_inv p ctx name task : pool_inv p -> pool_inv (spawn_reserve p ctx name task).2.
Proof.
  intros I. unfold spawn_reserve. destruct (ap_agents p !! name) as [spec|] eqn:Hn; [|done].
  destruct (Z.leb_spec (pa_maxDepth spec) (sc_depth ctx)); [done|].
  destruct (charge_call (sc_calls ctx)) as [[] calls]; [done|]. cbn.
  pose proof (pi_seq _ I) as Hseq. set (h0 := {| sh_id := agent_id (ap_seq p + 1) |}).
  match goal with |- pool_inv ?q => set (p' := q) end.
  assert (forall id, issued p id -> issued p' id) as Hmono by (intros id (n & ? & ->); exists n; split; [cbn; lia|done]).
  assert (~ issued p (sh_id h0)) as Hfresh by (intros (n & ? & Heq%agent_id_inj); lia).
  split; cbn.
  - lia.
  - intros id h Hh. destruct (pi_handles _ I _ _ Hh) as (? & ? & ? & ?). auto.
  - intros h [Hh| ->%list_elem_of_singleton]%elem_of_app.
    + destruct (pi_pending _ I _ Hh) as (? & ? & ? & ? & ?). auto 6.
    + split; [exists (ap_seq p + 1); split; [cbn; lia|done]|]. split; [done|]. split; [done|].
      split; [exists spec; split; [done|cbn; lia]|].
      destruct (ap_handles p !! sh_id h0) eqn:Hx; [|done]. exfalso. apply Hfresh, (pi_handles _ I _ _ Hx).
  - rewrite map_app. apply NoDup_app. split; [apply I|]. split; [|apply NoDup_singleton].
    intros id Hin ->%list_elem_of_singleton. apply list_elem_of_fmap in Hin as (x & Heq & Hx).
    apply Hfresh. rewrite Heq. apply (pi_pending _ I _ Hx).
  - intros id (n & Hr & ->). cbn in Hr. rewrite map_app, elem_of_app.
    destruct (decide (n = ap_seq p + 1)) as [->|]; [right; right; by left|].
    destruct (pi_all _ I (agent_id n)) as [?|?]; [exists n; split; [lia|done]|auto..].
Qed.

Lemma pool_do_inv p op : pool_inv p -> pool_inv (pool_do p op).
Proof.
  intros I. destruct op as [name d r m|ctx name task|id|id result err|id]; cbn.
  - by apply register_inv.
  - by apply reserve_inv.
  - by apply publish_inv.
  - unfold pool_finish. destruct (ap_handles p !! id) as [h|] eqn:Hh; [|done].
    destruct (sh_outcome h) eqn:Ho; [done|]. destruct (pi_handles _ I _ _ Hh) as (_ & _ & Hc & _).
    eapply update_handle_inv; eauto. unfold coherent in *; cbn in *.
    destruct (sh_status h); [destruct err; eauto|naive_solver..].
  - unfold pool_cancel. destruct (ap_handles p !! id) as [h|] eqn:Hh; [|done]. cbn.
    destruct (pi_handles _ I _ _ Hh) as (_ & _ & Hc & _).
    eapply update_handle_inv; eauto. unfold coherent in *; cbn in *. by destruct (sh_status h).
Qed.

Lemma pool_run_inv ops p : pool_inv p -> pool_inv (pool_run ops p).
Proof. revert p. induction ops as [|op ops IH]; intros p I; [done|]. by apply IH, pool_do_inv. Qed.

(** ** Handles only move forward *)
Record advances (h h' : spawnHandle) : Prop := {
  ad_id : sh_id h' = sh_id h;
  ad_name : sh_name h' = sh_name h;
  ad_depth : sh_depth h' = sh_depth h;
  ad_scope : sh_scope h' = sh_scope h;
  ad_task : sh_task h' = sh_task h;
  ad_status : sh_status h <> Running -> sh_status h' = sh_status h;
  ad_outcome o : sh_outcome h = Some o -> sh_outcome h' = Some o;
  ad_aborted : sh_aborted h = true -> sh_aborted h' = true;
}.

#[export] Instance advances_preorder : PreOrder advances.
Proof.
  split; [intros h; by split|]. intros a b c A B.
  destruct A as [Ai An Ad Ac At As Ao Aa], B as [Bi Bn Bd Bc Bt Bs Bo Ba]; split; try congruence; eauto.
  intros H. rewrite <- As by done. apply Bs. by rewrite As.
Qed.

Lemma pool_do_advances p op id h :
  pool_inv p -> ap_handles p !! id = Some h -> exists h', ap_handles (pool_do p op) !! id = Some h' /\ advances h h'.
Proof.
  intros I Hh. assert (exists h', Some h = Some h' /\ advances h h') as Hsame by (exists h; split; [done|reflexivity]).
  destruct op as [name d r m|ctx name task|id'|id' result err|id']; cbn.
  - unfold Register. repeat case_match; cbn; by rewrite Hh.
  - unfold spawn_reserve. repeat case_match; cbn; by rewrite Hh.
  - unfold spawn_publish. destruct (filter _ _) as [|x l] eqn:Hf; [by rewrite Hh|]. cbn.
    rewrite lookup_insert_ne; [by rewrite Hh|]. intros ->.
    assert (x ∈ filter (fun h => sh_id h = id) (ap_pending p)) as Hx by (rewrite Hf; by left).
    apply list_elem_of_filter in Hx as [<- Hx]. apply (pi_pending _ I) in Hx as (_ & _ & _ & _ & Hn). congruence.
  - unfold pool_finish. destruct (ap_handles p !! id') as [x|] eqn:Hx; [|by rewrite Hh].
    destruct (sh_outcome x) eqn:Ho; [by rewrite Hh|]. cbn. destruct (decide (id' = id)) as [->|Hne].
    + rewrite lookup_insert_eq. assert (x = h) as -> by congruence. eexists. split; [done|].
      split; cbn; try done; [by destruct (sh_status h)|congruence].
    + rewrite lookup_insert_ne by done. by rewrite Hh.
  - unfold pool_cancel. destruct (ap_handles p !! id') as [x|] eqn:Hx; cbn; [|by rewrite Hh].
    destruct (decide (id' = id)) as [->|Hne].
    + rewrite lookup_insert_eq. assert (x = h) as -> by congruence. eexists. split; [done|].
      split; cbn; try done. by destruct (sh_status h).
    + rewrite lookup_insert_ne by done. by rewrite Hh.
Qed.

Lemma pool_run_advances ops p id h :
  pool_inv p -> ap_handles p !! id = Some h -> exists h', ap_handles (pool_run ops p) !! id = Some h' /\ advances h h'.
Proof.
  revert p h. induction ops as [|op ops IH]; intros p h I Hh.
  { exists h. split; [done|reflexivity]. }
  destruct (pool_do_advances p op id h I Hh) as (h1 & H1 & A1).
  destruct (IH (pool_do p op) h1 (pool_do_inv p op I) H1) as (h2 & H2 & A2). exists h2. split; [done|]. by transitivity h1.
Qed.

(** A handle is the one run it was given for.  From any reachable pool, and
    whatever happens afterwards, a published handle stays under its id with its
    agent, task, depth and scope; a status other than running and the recorded
    outcome never change again, so every await that returns the outcome
    returns the same one; running means the run has not returned, done that it
    returned without an error, failed that it returned one, and cancelled that
    its context was cancelled first; and no child runs deeper than its agent
    allows. *)
Theorem pool_handles_stable before after id h :
  let p := pool_run before NewAgentPool in
  ap_handles p !! id = Some h ->
  sh_id h = id /\ coherent h /\ within_depth p h /\
  (exists h', ap_handles (pool_run after p) !! id = Some h' /\ advances h h') /\
  (forall r, sh_outcome h <> None -> await_answer p None id (Some r) ->
     forall r', await_answer (pool_run after p) None id r' -> r' = Some r).
Proof.
  cbv zeta. set (p := pool_run before NewAgentPool). intros Hh.
  assert (pool_inv p) as I by (apply pool_run_inv, new_pool_inv).
  destruct (pi_handles _ I _ _ Hh) as (Hid & _ & Hc & Hw).
  destruct (pool_run_advances after p id h I Hh) as (h' & Hh' & A).
  split; [done|]. split; [done|]. split; [done|]. split; [eauto|].
  intros r Ho Hr r' Hr'. destruct (sh_outcome h) as [o|] eqn:Hout; [|done].
  pose proof (ad_outcome _ _ A _ Hout) as Hout'. pose proof (ad_name _ _ A) as Hn.
  inversion Hr; subst; simplify_eq; inversion Hr'; subst; simplify_eq; by rewrite ?Hn.
Qed.

Lemma statuses_upto_spec p n :
  pool_inv p -> Z.of_nat n <= ap_seq p ->
  NoDup (map (fun s => s.1.1) (statuses_upto n p)) /\
  forall id name s, (id, name, s) ∈ statuses_upto n p <->
    (exists k, 1 <= k <= Z.of_nat n /\ id = agent_id k) /\
    exists h, ap_handles p !! id = Some h /\ name = sh_name h /\ s = sh_status h.
Proof.
  intros I. induction n as [|n IH]; intros Hn; cbn [statuses_upto].
  { split; [apply NoDup_nil_2|]. intros id name s. split; [by intros ?%elem_of_nil|]. intros ((k & Hk & _) & _). lia. }
  destruct IH as [Hnd Hin]; [lia|].
  assert (forall id name s, (id, name, s) ∈ match ap_handles p !! agent_id (Z.of_nat (S n)) with
                                            | Some h => [(sh_id h, sh_name h, sh_status h)] | None => [] end <->
    id = agent_id (Z.of_nat (S n)) /\ exists h, ap_handles p !! id = Some h /\ name = sh_name h /\ s = sh_status h) as Hlast.
  { intros id name s. destruct (ap_handles p !! agent_id (Z.of_nat (S n))) as [h|] eqn:Hh.
    - destruct (pi_handles _ I _ _ Hh) as (Hid & _). rewrite list_elem_of_singleton, Hid. split.
      + intros [= -> -> ->]. split; [done|]. eauto.
      + intros (-> & h' & Hh' & -> & ->). rewrite Hh in Hh'. by simplify_eq.
    - split; [by intros ?%elem_of_nil|]. intros (-> & h' & Hh' & _). congruence. }
  split.
  - rewrite map_app. apply NoDup_app. split; [done|]. split; [|case_match; [apply NoDup_singleton|apply NoDup_nil_2]].
    intros id ([[i m] s] & -> & Hi)%list_elem_of_fmap ([[i' m'] s'] & Heq & Hi')%list_elem_of_fmap. simpl in Heq. subst i'.
    apply Hin in Hi as ((k & Hk & ->) & _). apply Hlast in Hi' as (Heq & _). apply agent_id_inj in Heq. lia.
  - intros id name s. rewrite elem_of_app, Hin, Hlast. split.
    + intros [((k & Hk & ->) & H)|(-> & H)]; (split; [|done]); [exists k|exists (Z.of_nat (S n))]; (split; [lia|done]).
    + intros ((k & Hk & ->) & H). destruct (decide (k = Z.of_nat (S n))) as [->|]; [by right|left].
      split; [|done]. exists k. split; [lia|done].
Qed.

Lemma statuses_upto_order p n :
  pool_inv p ->
  map (fun s => s.1.1) (statuses_upto n p) =
  filter (fun id => is_Some (ap_handles p !! id)) (map (fun k => agent_id (Z.of_nat k)) (seq 1 n)).
Proof.
  intros I. induction n as [|n IH]; [done|]. cbn [statuses_upto]. rewrite seq_S, !map_app, filter_app, IH. f_equal.
  cbn [map Nat.add]. rewrite filter_cons. destruct (ap_handles p !! agent_id (Z.of_nat (S n))) as [h|] eqn:Hh.
  - rewrite decide_True by eauto. destruct (pi_handles _ I _ _ Hh) as (Hid & _). cbn. by rewrite Hid.
  - rewrite decide_False by (by intros [? ?]). done.
Qed.

(** List_agents lists every spawned agent once.  In any reachable pool the
    listing has exactly the published handles, each once, with its current
    status, in the order their ids were issued, and every issued id is a
    published handle or one whose spawn has not returned yet. *)
Theorem pool_lists_all ops :
  let p := pool_run ops NewAgentPool in
  map (fun s => s.1.1) (statuses p) =
    filter (fun id => is_Some (ap_handles p !! id))
      (map (fun k => agent_id (Z.of_nat k)) (seq 1 (Z.to_nat (ap_seq p)))) /\
  NoDup (map (fun s => s.1.1) (statuses p)) /\
  (forall id name s, (id, name, s) ∈ statuses p <->
     exists h, ap_handles p !! id = Some h /\ name = sh_name h /\ s = sh_status h) /\
  (forall id, issued p id -> is_Some (ap_handles p !! id) \/ id ∈ map sh_id (ap_pending p)).
Proof.
  cbv zeta. set (p := pool_run ops NewAgentPool).
  assert (pool_inv p) as I by (apply pool_run_inv, new_pool_inv).
  pose proof (pi_seq _ I). destruct (statuses_upto_spec p (Z.to_nat (ap_seq p)) I) as [Hnd Hin]; [lia|].
  split; [by apply statuses_upto_order|]. split; [done|]. split; [|apply I]. intros id name s. unfold statuses. rewrite Hin. split; [by intros [_ ?]|].
  intros (h & Hh & Hr). split; [|eauto]. destruct (pi_handles _ I _ _ Hh) as (_ & (n & Hn & ->) & _).
  exists n. split; [lia|done].
Qed.

(** A refused spawn starts nothing, and an accepted one has a fresh id. *)
Lemma spawn_reserve_spec p ctx name task :
  pool_inv p ->
  match spawn_reserve p ctx name task with
  | (inl _, _, p') => p' = p
  | (inr id, _, p') =>
      ap_handles p !! id = None /\ id ∉ map sh_id (ap_pending p) /\
      (exists spec, ap_agents p !! name = Some spec /\ sc_depth ctx < pa_maxDepth spec) /\
      ap_handles (spawn_publish p' id) !! id =
        Some {| sh_id := id; sh_name := name; sh_depth := sc_depth ctx + 1; sh_scope := path_Child (sc_scope ctx) name;
                sh_task := task; sh_status := Running; sh_outcome := None; sh_aborted := false |}
  end.
Proof.
  intros I. unfold spawn_reserve. destruct (ap_agents p !! name) as [spec|] eqn:Hn; [|done].
  destruct (Z.leb_spec (pa_maxDepth spec) (sc_depth ctx)); [done|].
  destruct (charge_call (sc_calls ctx)) as [[] calls]; [done|]. cbn.
  assert (~ issued p (agent_id (ap_seq p + 1))) as Hfresh by (intros (n & ? & Heq%agent_id_inj); lia).
  assert (agent_id (ap_seq p + 1) ∉ map sh_id (ap_pending p)) as Hp.
  { intros (x & Heq & Hx)%list_elem_of_fmap. apply Hfresh. rewrite Heq. apply (pi_pending _ I _ Hx). }
  split; [|split; [done|split; [eauto|]]].
  - destruct (ap_handles p !! agent_id (ap_seq p + 1)) eqn:Hx; [|done]. exfalso. apply Hfresh, (pi_handles _ I _ _ Hx).
  - unfold spawn_publish. cbn [ap_pending]. rewrite filter_app.
    destruct (filter (fun h => sh_id h = agent_id (ap_seq p + 1)) (ap_pending p)) as [|x l] eqn:Hf.
    + rewrite filter_cons, decide_True by done. cbn. apply lookup_insert_eq.
    + exfalso. assert (x ∈ x :: l) as Hx by constructor. rewrite <- Hf in Hx.
      apply list_elem_of_filter in Hx as [Hi Hx]. apply Hp. apply list_elem_of_fmap. eauto.
Qed.

(** ** A concrete pool *)
Definition at_top : spawn_ctx := {| sc_depth := 0; sc_scope := []; sc_calls := None |}.

Definition demo_pool_ops : list pool_op :=
  [OpRegister "scout" "looks around" true 0; OpReserve at_top "scout" "north"; OpPublish "agent-1";
   OpReserve at_top "scout" "south"; OpPublish "agent-2"; OpCancel "agent-2"; OpFinish "agent-1" None None].

Lemma pool_handles_stable_witness :
  exists h, ap_handles (pool_run demo_pool_ops NewAgentPool) !! "agent-1" = Some h /\ sh_status h = Done /\
    forall r', await_answer (pool_run [OpCancel "agent-1"] (pool_run demo_pool_ops NewAgentPool)) None "agent-1" r' ->
      r' = Some (inr None).
Proof.
  eexists. split; [vm_compute; reflexivity|]. split; [reflexivity|].
  refine (proj2 (proj2 (proj2 (proj2 (pool_handles_stable demo_pool_ops [OpCancel "agent-1"] "agent-1" _ _)))) (inr None) _ _).
  - vm_compute. reflexivity.
  - done.
  - eapply await_done; vm_compute; reflexivity.
Defined.

Lemma demo_pool_listing :
  statuses (pool_run demo_pool_ops NewAgentPool) = [("agent-1", "scout", Done); ("agent-2", "scout", Cancelled)].
Proof. reflexivity. Qed.
