(* ===== verification/Edit.v ===== *)
(** * Anchored edits: src/ext/files/edit.go, src/ext/files/hash.go

    [edit.Apply] replaces pieces of a text found by the text they replace,
    all or none.  The contract is [spliced]: the source and the result are
    the same gaps around the old and the new texts.  SHA-256 is a parameter;
    offsets are positions in a string, hence naturals. *)

From S2P Require Import Prelude GoStr.

(** ** Counting occurrences

    [strings.Count] of a text that is not empty: the search goes on after
    each occurrence it found. *)
Fixpoint str_count_go (fuel : nat) (sub s : string) : nat :=
  match fuel with
  | O => 0
  | S fuel =>
      match str_index sub s with
      | None => 0
      | Some i => S (str_count_go fuel sub (str_drop (i + String.length sub) s))
      end
  end.

Definition str_count (s sub : string) : nat := str_count_go (S (String.length s)) sub s.

(** [hashLen] and [Hash], over SHA-256. *)
Definition hashLen : nat := 12.

Definition Hash (sha256 : string -> string) (content : string) : string :=
  str_take hashLen (hex_encode (sha256 content)).

(** ** Edits *)
Record hunk := { h_Old : string; h_New : string }.
Record edit := { e_ExpectHash : string; e_Hunks : list hunk }.

(** The sentinels, with what the messages add. *)
Inductive edit_error :=
| errStale (expect got : string)
| errAnchorNotFound (i : nat) (old : string)
| errAnchorAmbiguous (i : nat) (old : string) (n : nat)
| errOverlap (at_ : nat)
| errEmptyAnchor (i : nat)
| errNoHunks.

Definition quote (s : string) : string :=
  go_quote (if Nat.ltb 60 (String.length s) then str_take 60 s +:+ "..." else s).

Definition edit_error_text (e : edit_error) : string :=
  match e with
  | errStale expect got =>
      "file changed since it was read: expected " +:+ expect +:+ ", found " +:+ got +:+ "; re-read it before editing"
  | errAnchorNotFound i old => "hunk " +:+ itoa (Z.of_nat i) +:+ ": anchor not found: " +:+ quote old
  | errAnchorAmbiguous i old n =>
      "hunk " +:+ itoa (Z.of_nat i) +:+ ": anchor is not unique: " +:+ quote old +:+ " matches "
      +:+ itoa (Z.of_nat n) +:+ " places; extend it until it matches one"
  | errOverlap at_ => "hunks overlap: two hunks both cover offset " +:+ itoa (Z.of_nat at_)
  | errEmptyAnchor i => "hunk " +:+ itoa (Z.of_nat i) +:+ ": hunk has an empty anchor"
  | errNoHunks => "edit has no hunks"
  end.

Record edit_span := { es_start : nat; es_end : nat; es_replace : string }.

Definition edit_span_of (src : string) (i : nat) (h : hunk) : edit_error + edit_span :=
  if String.eqb (h_Old h) "" then inl (errEmptyAnchor i)
  else
    match str_count src (h_Old h) with
    | O => inl (errAnchorNotFound i (h_Old h))
    | S O =>
        let start := default 0 (str_index (h_Old h) src) in
        inr {| es_start := start; es_end := start + String.length (h_Old h); es_replace := h_New h |}
    | n => inl (errAnchorAmbiguous i (h_Old h) n)
    end.

Fixpoint edit_spans (src : string) (i : nat) (hs : list hunk) : edit_error + list edit_span :=
  match hs with
  | [] => inr []
  | h :: hs =>
      match edit_span_of src i h with
      | inl err => inl err
      | inr sp => match edit_spans src (S i) hs with inl err => inl err | inr sps => inr (sp :: sps) end
      end
  end.

(** The check of neighbours; [prev] is the end of the span before. *)
Fixpoint find_overlap (prev : nat) (sps : list edit_span) : option nat :=
  match sps with
  | [] => None
  | sp :: sps => if Nat.ltb (es_start sp) prev then Some (es_start sp) else find_overlap (es_end sp) sps
  end.

(** [src[i:j]] *)
Definition str_slice (i j : nat) (s : string) : string := str_take (j - i) (str_drop i s).

Fixpoint splice (src : string) (prev : nat) (sps : list edit_span) : string :=
  match sps with
  | [] => str_drop prev src
  | sp :: sps => str_slice prev (es_start sp) src +:+ es_replace sp +:+ splice src (es_end sp) sps
  end.

Definition edit_rank (sp : edit_span) : Z := Z.of_nat (es_start sp).

Section Apply.
Variable sha256 : string -> string.

Definition edit_Apply (e : edit) (src : string) : edit_error + string :=
  let got := Hash sha256 src in
  if negb (String.eqb (e_ExpectHash e) "") && negb (String.eqb got (e_ExpectHash e))
  then inl (errStale (e_ExpectHash e) got)
  else match e_Hunks e with
       | [] => inl errNoHunks
       | hs =>
           match edit_spans src 0 hs with
           | inl err => inl err
           | inr sps =>
               let sps := stable_sort edit_rank sps in
               match find_overlap 0 sps with
               | Some at_ => inl (errOverlap at_)
               | None => inr (splice src 0 sps)
               end
           end
       end.
End Apply.

(** ** The contract *)
Inductive spliced : list hunk -> string -> string -> Prop :=
| spliced_nil s : spliced [] s s
| spliced_cons gap h hs src out :
    spliced hs src out -> spliced (h :: hs) (gap +:+ h_Old h +:+ src) (gap +:+ h_New h +:+ out).

(** An anchor that occurs at one place and no other. *)
Definition occurs_at (i : nat) (sub s : string) : Prop :=
  i + String.length sub <= String.length s /\ has_prefix sub (str_drop i s) = true.

Definition occurs_once (sub s : string) : Prop := exists i, occurs_at i sub s /\ forall j, occurs_at j sub s -> j = i.

(** The edit that takes an edit back. *)
Definition undo (e : edit) : list hunk := map (fun h => {| h_Old := h_New h; h_New := h_Old h |}) (e_Hunks e).

(** ** Occurrences *)
Lemma occurs_split i sub s :
  occurs_at i sub s -> s = str_take i s +:+ sub +:+ str_drop (i + String.length sub) s.
Proof.
  intros [Hi Hp]. apply has_prefix_drop in Hp. rewrite <- (take_drop_str i s) at 1. f_equal.
  rewrite Hp at 1. f_equal. by rewrite drop_drop_str.
Qed.

Lemma occurs_app a sub b : occurs_at (String.length a) sub (a +:+ sub +:+ b).
Proof.
  split; [rewrite !length_app_str; lia|]. by rewrite drop_app_str, has_prefix_app.
Qed.

Lemma occurs_drop k j sub s : occurs_at j sub (str_drop k s) -> k <= String.length s -> occurs_at (k + j) sub s.
Proof.
  intros [Hj Hp] Hk. rewrite length_drop_str in Hj. split; [lia|]. by rewrite <- drop_drop_str.
Qed.

Lemma index_occurs sub s i : str_index sub s = Some i -> occurs_at i sub s.
Proof.
  intros H. apply str_index_split in H as [H Hle]. split; [done|].
  set (rest := str_drop (i + String.length sub) s) in H. rewrite H.
  rewrite drop_app_le_str by (rewrite length_take_str; lia).
  rewrite drop_ge_str by (rewrite length_take_str; lia). apply (has_prefix_app sub).
Qed.

Lemma index_of_occurs sub s j : occurs_at j sub s -> exists i, str_index sub s = Some i /\ i <= j.
Proof.
  intros [Hj Hp]. destruct (str_index sub s) as [i|] eqn:E.
  - exists i. split; [done|]. destruct (decide (i <= j)); [done|].
    rewrite (str_index_first sub s i j) in Hp by (done || lia). discriminate.
  - rewrite (str_index_none sub s j) in Hp by done. discriminate.
Qed.

Lemma str_count_one s sub :
  sub <> "" -> str_count s sub = 1 -> exists i, str_index sub s = Some i.
Proof. intros _. unfold str_count. simpl. destruct (str_index sub s); [eauto|discriminate]. Qed.

Lemma occurs_once_index sub s i : occurs_once sub s -> occurs_at i sub s -> str_index sub s = Some i.
Proof.
  intros (k & Hk & Hu) Hi. destruct (index_of_occurs sub s i Hi) as (j & Hj & _).
  rewrite Hj. f_equal. rewrite (Hu i Hi). by apply Hu, index_occurs.
Qed.

Lemma occurs_once_count sub s : sub <> "" -> occurs_once sub s -> str_count s sub = 1.
Proof.
  intros Hne Ho. pose proof Ho as (i & Hi & Hu). unfold str_count. simpl.
  rewrite (occurs_once_index sub s i Ho Hi). f_equal.
  destruct (String.length s) as [|fuel] eqn:El; [done|]. cbn [str_count_go].
  destruct (str_index sub _) as [j|] eqn:Ej; [|done]. exfalso.
  apply index_occurs, occurs_drop, Hu in Ej; [|destruct Hi; lia].
  destruct sub; [done|]. cbn in Ej. lia.
Qed.

(** ** Spans *)
Definition the_span (src : string) (h : hunk) : edit_span :=
  let start := default 0 (str_index (h_Old h) src) in
  {| es_start := start; es_end := start + String.length (h_Old h); es_replace := h_New h |}.

Definition anchored (src : string) (h : hunk) : Prop := h_Old h <> "" /\ str_count src (h_Old h) = 1.

Lemma edit_spans_spec src i hs :
  match edit_spans src i hs with
  | inr sps => Forall (anchored src) hs /\ sps = map (the_span src) hs
  | inl _ => ~ Forall (anchored src) hs
  end.
Proof.
  revert i. induction hs as [|h hs IH]; intros i; [done|]. cbn [edit_spans]. unfold edit_span_of.
  destruct (String.eqb_spec (h_Old h) "") as [He|He]; [by intros [[]]%Forall_cons|].
  destruct (str_count src (h_Old h)) as [|[|n]] eqn:Ec; [intros [[]]%Forall_cons; lia| |intros [[]]%Forall_cons; lia].
  specialize (IH (S i)). destruct (edit_spans src (S i) hs) as [err|sps].
  - by intros [_ H]%Forall_cons.
  - destruct IH as [Hf ->]. by split; [constructor|].
Qed.

Lemma anchored_at src h :
  anchored src h -> exists i, str_index (h_Old h) src = Some i /\ es_start (the_span src h) = i
    /\ es_end (the_span src h) = i + String.length (h_Old h) /\ occurs_at i (h_Old h) src /\ 0 < String.length (h_Old h).
Proof.
  intros [Hne Hc]. destruct (str_count_one src (h_Old h) Hne Hc) as [i Hi]. exists i. cbn. rewrite Hi.
  split_and!; try done. { by apply index_occurs. } destruct (h_Old h); [done|cbn; lia].
Qed.

(** *** Cutting a text at offsets *)
Lemma slice_gap prev i s t :
  prev <= i -> i <= String.length s -> str_drop prev s = str_slice prev i s +:+ str_drop i s /\
  (String.length (str_slice prev i s) = i - prev) /\ (t = str_drop i s -> str_slice prev i s +:+ t = str_drop prev s).
Proof.
  intros Hp Hi. unfold str_slice.
  assert (str_drop prev s = str_take (i - prev) (str_drop prev s) +:+ str_drop i s) as H.
  { rewrite <- (take_drop_str (i - prev) (str_drop prev s)) at 1. f_equal. rewrite drop_drop_str. f_equal. lia. }
  split_and!; [done| |by intros ->]. rewrite length_take_str, length_drop_str. lia.
Qed.

Lemma splice_spliced src prev hs :
  Forall (anchored src) hs -> prev <= String.length src -> find_overlap prev (map (the_span src) hs) = None ->
  spliced hs (str_drop prev src) (splice src prev (map (the_span src) hs)).
Proof.
  intros H. revert prev. induction H as [|h hs Ha _ IH]; intros prev Hp; cbn [map find_overlap splice]; [constructor|].
  destruct (anchored_at src h Ha) as (i & _ & -> & -> & Ho & Hl).
  destruct (Nat.ltb_spec i prev); [discriminate|]. intros Hov.
  pose proof Ho as [Hle _]. apply occurs_split in Ho.
  assert (str_drop i src = h_Old h +:+ str_drop (i + String.length (h_Old h)) src) as Hd.
  { rewrite Ho at 1. rewrite drop_app_le_str by (rewrite length_take_str; lia).
    by rewrite drop_ge_str by (rewrite length_take_str; lia). }
  destruct (slice_gap prev i src "") as [-> _]; [lia..|]. rewrite Hd. cbn [es_replace the_span].
  constructor. apply IH; [lia|done].
Qed.

Lemma spliced_splice src prev hs out :
  Forall (fun h => h_Old h <> "" /\ occurs_once (h_Old h) src) hs -> prev <= String.length src ->
  spliced hs (str_drop prev src) out ->
  find_overlap prev (map (the_span src) hs) = None /\ out = splice src prev (map (the_span src) hs).
Proof.
  intros H. revert prev out. induction H as [|h hs [Hne Ho] _ IH]; intros prev out Hp Hs.
  { by inversion Hs. }
  inversion Hs as [|gap h' hs' s' out' Hs' Hh Hsrc Hout]; subst.
  assert (Hat : occurs_at (prev + String.length gap) (h_Old h) src).
  { apply occurs_drop; [|done]. rewrite <- Hsrc. apply occurs_app. }
  pose proof (occurs_once_index _ _ _ Ho Hat) as Hi. pose proof Hat as [Hle _].
  assert (Hrest : s' = str_drop (prev + String.length gap + String.length (h_Old h)) src).
  { rewrite <- !drop_drop_str, <- Hsrc. by rewrite drop_app_str, drop_app_str. }
  cbn [map find_overlap splice the_span es_start es_end es_replace]. rewrite Hi. cbn [default from_option]. unfold id.
  destruct (Nat.ltb_spec (prev + String.length gap) prev); [lia|].
  subst s'. apply IH in Hs' as [-> ->]; [|lia]. split; [done|]. f_equal.
  unfold str_slice. rewrite <- Hsrc. replace (prev + String.length gap - prev) with (String.length gap) by lia.
  by rewrite take_app_str.
Qed.

(** ** Sorting the spans *)
Lemma chain_bounds src prev hs :
  Forall (anchored src) hs -> find_overlap prev (map (the_span src) hs) = None ->
  Forall (fun sp => Z.of_nat prev <= edit_rank sp)%Z (map (the_span src) hs)
  /\ StronglySorted (rank_le edit_rank) (map (the_span src) hs)
  /\ NoDup (edit_rank <$> map (the_span src) hs).
Proof.
  intros H. revert prev. induction H as [|h hs Ha _ IH]; intros prev; cbn [map find_overlap].
  { intros _. split_and!; constructor. }
  destruct (anchored_at src h Ha) as (i & _ & Hs & He & _ & Hl).
  destruct (Nat.ltb_spec (es_start (the_span src h)) prev); [discriminate|].
  intros (Hf & Hss & Hnd)%IH. rewrite He in Hf.
  assert (Hlt : Forall (fun sp => edit_rank (the_span src h) < edit_rank sp)%Z (map (the_span src) hs)).
  { eapply Forall_impl; [exact Hf|]. intros sp H0. unfold edit_rank in *. lia. }
  split_and!.
  - constructor; [unfold edit_rank; lia|]. eapply Forall_impl; [exact Hf|]. intros sp H0. unfold edit_rank in *. lia.
  - constructor; [done|]. eapply Forall_impl; [exact Hlt|]. intros sp. unfold rank_le. lia.
  - csimpl. constructor; [|done]. intros (sp & Heq & Hin)%list_elem_of_fmap.
    rewrite Forall_forall in Hlt. apply Hlt in Hin. lia.
Qed.

(** Spans that chain are the sorted form of each of their permutations. *)
Lemma sort_chain src hs hs' :
  Forall (anchored src) hs -> find_overlap 0 (map (the_span src) hs) = None -> hs ≡ₚ hs' ->
  stable_sort edit_rank (map (the_span src) hs') = map (the_span src) hs.
Proof.
  intros Ha Hov Hp. destruct (chain_bounds src 0 hs Ha Hov) as (_ & Hss & Hnd).
  apply (sorted_perm_unique edit_rank); [apply stable_sort_sorted|done| |done].
  rewrite stable_sort_perm. by rewrite Hp.
Qed.

Lemma sort_spans src hs :
  exists hs', hs' ≡ₚ hs /\ stable_sort edit_rank (map (the_span src) hs) = map (the_span src) hs'.
Proof.
  destruct (Permutation_map_inv (the_span src) _ (stable_sort_perm edit_rank (map (the_span src) hs))) as (hs' & H & Hp).
  by exists hs'.
Qed.

(** ** What an edit does *)
Section EditProps.
Variable sha256 : string -> string.

Definition hash_agrees (e : edit) (src : string) : Prop := e_ExpectHash e = "" \/ Hash sha256 src = e_ExpectHash e.

(** Success, and what it is made of. *)
Lemma edit_Apply_inr e src out :
  edit_Apply sha256 e src = inr out <->
  hash_agrees e src /\ e_Hunks e <> [] /\ Forall (anchored src) (e_Hunks e) /\
  exists hs, hs ≡ₚ e_Hunks e /\ find_overlap 0 (map (the_span src) hs) = None /\ out = splice src 0 (map (the_span src) hs).
Proof.
  unfold edit_Apply, hash_agrees. pose proof (edit_spans_spec src 0 (e_Hunks e)) as Hsp.
  destruct (sort_spans src (e_Hunks e)) as (hs' & Hp' & Hsort).
  destruct (String.eqb_spec (e_ExpectHash e) ""), (String.eqb_spec (Hash sha256 src) (e_ExpectHash e)); cbn [negb andb];
    (split; [|intros (Hh & Hne & Ha & hs & Hp & Hov & ->)]); try discriminate; try (destruct Hh; contradiction).
  all: destruct (e_Hunks e) as [|h0 hs0] eqn:Eh; try discriminate; try contradiction.
  all: rewrite <- Eh in *; destruct (edit_spans src 0 (e_Hunks e)) as [err|sps]; try discriminate; try contradiction.
  all: destruct Hsp as [Ha' ->].
  1,3,5: rewrite Hsort; destruct (find_overlap 0 _) eqn:Eov; [discriminate|]; intros [= <-];
    split; [by auto|]; split; [by rewrite Eh|]; split; [done|]; by exists hs'.
  all: rewrite (sort_chain src hs) by (done || by rewrite Hp); by rewrite Hov.
Qed.

Lemma edit_apply_sound e src out :
  edit_Apply sha256 e src = inr out -> hash_agrees e src /\ exists hs, hs ≡ₚ e_Hunks e /\ spliced hs src out.
Proof.
  intros (Hh & _ & Ha & hs & Hp & Hov & ->)%edit_Apply_inr. split; [done|]. exists hs. split; [done|].
  apply (splice_spliced src 0 hs); [by rewrite Hp|lia|done].
Qed.

Lemma edit_apply_total e src hs out :
  hash_agrees e src -> e_Hunks e <> [] ->
  Forall (fun h => h_Old h <> "" /\ occurs_once (h_Old h) src) (e_Hunks e) ->
  hs ≡ₚ e_Hunks e -> spliced hs src out -> edit_Apply sha256 e src = inr out.
Proof.
  intros Hh Hne Ho Hp Hs. apply edit_Apply_inr. split; [done|]. split; [done|]. split.
  - eapply Forall_impl; [exact Ho|]. intros h [Hn Hoc]. split; [done|]. by apply occurs_once_count.
  - exists hs. split; [done|]. apply (spliced_splice src 0 hs out); [by rewrite Hp|lia|done].
Qed.

(** An edit is exact.  An edit succeeds only on a text whose hash it was
    written against, and then the text and the result are the same gaps
    around the old and the new texts of all its hunks, each hunk once.
    Conversely, when every anchor occurs at exactly one place, any way of
    cutting the text into gaps and anchors is what the edit does. *)
Theorem edit_apply_exact e src :
  (forall out, edit_Apply sha256 e src = inr out ->
     hash_agrees e src /\ exists hs, hs ≡ₚ e_Hunks e /\ spliced hs src out) /\
  (hash_agrees e src -> e_Hunks e <> [] ->
   Forall (fun h => h_Old h <> "" /\ occurs_once (h_Old h) src) (e_Hunks e) ->
   forall hs out, hs ≡ₚ e_Hunks e -> spliced hs src out -> edit_Apply sha256 e src = inr out).
Proof.
  split; [apply edit_apply_sound|]. intros. by eapply edit_apply_total.
Qed.

(** The order of the hunks does not matter: listing the same hunks in
    another order gives the same result, or both orders fail. *)
Theorem edit_order_independent expect hs hs' src :
  hs ≡ₚ hs' ->
  match edit_Apply sha256 {| e_ExpectHash := expect; e_Hunks := hs |} src,
        edit_Apply sha256 {| e_ExpectHash := expect; e_Hunks := hs' |} src with
  | inr out, inr out' => out = out'
  | inl _, inl _ => True
  | _, _ => False
  end.
Proof.
  intros Hp. assert (Hsame : forall l l' out, l ≡ₚ l' ->
    edit_Apply sha256 {| e_ExpectHash := expect; e_Hunks := l |} src = inr out ->
    edit_Apply sha256 {| e_ExpectHash := expect; e_Hunks := l' |} src = inr out).
  { intros l l' out Hl (Hh & Hne & Ha & hs0 & Hp0 & Hov & ->)%edit_Apply_inr. apply edit_Apply_inr.
    cbn [e_Hunks] in *. split; [done|]. split; [intros ->; by apply Permutation_nil_r in Hl as ->|].
    split; [by rewrite <- Hl|]. exists hs0. split; [by rewrite Hp0|done]. }
  destruct (edit_Apply sha256 {| e_ExpectHash := expect; e_Hunks := hs |} src) as [err|out] eqn:E.
  - destruct (edit_Apply sha256 {| e_ExpectHash := expect; e_Hunks := hs' |} src) as [|out'] eqn:E'; [done|].
    apply (Hsame hs' hs) in E'; [|done]. congruence.
  - by rewrite (Hsame hs hs' out Hp E).
Qed.

Lemma spliced_flip hs src out :
  spliced hs src out -> spliced (map (fun h => {| h_Old := h_New h; h_New := h_Old h |}) hs) out src.
Proof. induction 1; simpl; [constructor|]. by apply (spliced_cons gap {| h_Old := h_New h; h_New := h_Old h |}). Qed.

(** An edit can be taken back.  When every new text occurs at exactly one
    place of the result, the edit with old and new exchanged restores the
    text, byte for byte. *)
Theorem edit_undo e src out :
  edit_Apply sha256 e src = inr out ->
  Forall (fun h => h_New h <> "" /\ occurs_once (h_New h) out) (e_Hunks e) ->
  edit_Apply sha256 {| e_ExpectHash := Hash sha256 out; e_Hunks := undo e |} out = inr src.
Proof.
  intros H Hnew. pose proof H as (_ & Hne & _)%edit_Apply_inr.
  apply edit_apply_sound in H as (_ & hs & Hp & Hs).
  apply (edit_apply_total _ _ (map (fun h => {| h_Old := h_New h; h_New := h_Old h |}) hs)); cbn [e_Hunks].
  - by right.
  - unfold undo. by destruct (e_Hunks e).
  - unfold undo. by rewrite Forall_map.
  - unfold undo. by rewrite Hp.
  - by apply spliced_flip.
Qed.
End EditProps.

(** ** Concrete edits *)
Definition demo_sha (s : string) : string := str_take 32 (s +:+ "0123456789abcdef0123456789abcdef").

Definition demo_source : string := "let a = one" +:+ newline +:+ "let b = two" +:+ newline.

Definition demo_edit : edit :=
  {| e_ExpectHash := Hash demo_sha demo_source;
     e_Hunks := [{| h_Old := "two"; h_New := "2" |}; {| h_Old := "one"; h_New := "111" |}] |}.

Definition demo_edited : string := "let a = 111" +:+ newline +:+ "let b = 2" +:+ newline.

Lemma occurs_once_check sub s i :
  (i + String.length sub <=? String.length s) && has_prefix sub (str_drop i s)
  && forallb (fun j => (i =? j) || negb (has_prefix sub (str_drop j s))) (seq 0 (S (String.length s))) = true ->
  occurs_once sub s.
Proof.
  rewrite !andb_true_iff, forallb_forall. intros [[H1 H2] H3]. apply Nat.leb_le in H1. exists i. split; [done|].
  intros j [Hj Hp]. specialize (H3 j). rewrite in_seq in H3. specialize (H3 ltac:(lia)).
  apply orb_true_iff in H3 as [H3|H3]; [by apply Nat.eqb_eq in H3|]. by rewrite Hp in H3.
Qed.

Lemma edit_apply_exact_witness :
  edit_Apply demo_sha demo_edit demo_source = inr demo_edited /\
  exists hs, hs ≡ₚ e_Hunks demo_edit /\ spliced hs demo_source demo_edited.
Proof.
  assert (H : edit_Apply demo_sha demo_edit demo_source = inr demo_edited) by (vm_compute; reflexivity).
  split; [exact H|]. exact (proj2 (proj1 (edit_apply_exact demo_sha demo_edit demo_source) demo_edited H)).
Defined.

Lemma edit_order_independent_witness :
  let swapped := {| e_ExpectHash := Hash demo_sha demo_source; e_Hunks := rev (e_Hunks demo_edit) |} in
  match edit_Apply demo_sha demo_edit demo_source, edit_Apply demo_sha swapped demo_source with
  | inr out, inr out' => out = out'
  | inl _, inl _ => True
  | _, _ => False
  end.
Proof. apply edit_order_independent. apply Permutation_swap. Defined.

Lemma edit_undo_witness :
  edit_Apply demo_sha {| e_ExpectHash := Hash demo_sha demo_edited; e_Hunks := undo demo_edit |} demo_edited
  = inr demo_source.
Proof.
  apply edit_undo; [vm_compute; reflexivity|].
  constructor; [split; [discriminate|apply (occurs_once_check _ _ 20); vm_compute; reflexivity]|].
  constructor; [split; [discriminate|apply (occurs_once_check _ _ 8); vm_compute; reflexivity]|constructor].
Defined.

(** [strings.Count] skips the occurrence that overlaps the one it found, so
    an anchor that occurs twice can be taken for a unique one. *)
Lemma overlapping_anchor_accepted :
  let src := "aaa" in
  occurs_at 0 "aa" src /\ occurs_at 1 "aa" src /\
  edit_Apply demo_sha {| e_ExpectHash := ""; e_Hunks := [{| h_Old := "aa"; h_New := "b" |}] |} src = inr "ba".
Proof. vm_compute. repeat split; lia. Qed.
