(* ===== verification/Patch.v ===== *)
(** * Patches: src/ext/files/patch.go

    The patch envelope, parsed line by line, and the hunks of an update,
    found in the file by their lines and applied.  The contract of the parser
    is a printer it inverts; the contract of the hunks is [patched]: the file
    and the result are the same gaps around what the hunks replace and what
    they put there.  A slice out of range panics: what can panic returns an
    option. *)

From S2P Require Import Prelude GoStr Errors.
Local Open Scope nat_scope.

Definition patchBegin : string := "*** Begin Patch".
Definition patchEnd : string := "*** End Patch".
Definition patchAdd : string := "*** Add File: ".
Definition patchDelete : string := "*** Delete File: ".
Definition patchUpdate : string := "*** Update File: ".
Definition patchMove : string := "*** Move to: ".
Definition patchEOF : string := "*** End of File".

Inductive patchKind := kindAdd | kindDelete | kindUpdate.

Record patchChunk := {
  pc_Context : string;
  pc_Old : list string;
  pc_New : list string;
  pc_EOF : bool;
}.

Record filePatch := {
  fp_Kind : patchKind;
  fp_Path : string;
  fp_MoveTo : string;
  fp_Content : string;
  fp_Chunks : list patchChunk;
}.

(** ** Parsing *)

(** [strings.ReplaceAll] of carriage return and newline by newline. *)
Fixpoint replace_crlf (s : string) : string :=
  match s with
  | String c ((String d rest) as tail) =>
      if Nat.eqb (code c) 13 && Nat.eqb (code d) 10 then String d (replace_crlf rest) else String c (replace_crlf tail)
  | s => s
  end.

Definition isSectionStart (l : string) : bool :=
  has_prefix patchAdd l || has_prefix patchDelete l || has_prefix patchUpdate l.

Definition line_error (n : nat) (msg : string) : error := EText ("line " +:+ itoa (Z.of_nat n) +:+ ": " +:+ msg).

Definition claim (seen : gset string) (path : string) (n : nat) : result (gset string) :=
  if decide (path ∈ seen) then inl (line_error n (path +:+ " appears twice in one patch"))
  else inr ({[path]} ∪ seen).

(** The path a header line names. *)
Definition header_arg (prefix l : string) : string := trim_space (trim_prefix l prefix).

(** The lines of an added file: what was read, and where reading stopped. *)
Fixpoint parse_added (i : nat) (body : list string) : result (list string * nat * list string) :=
  match body with
  | [] => inr ([], i, [])
  | l :: rest =>
      if has_prefix "*** " l then inr ([], i, body)
      else if negb (has_prefix "+" l) then inl (line_error (i + 2) "every line of an added file starts with +")
      else match parse_added (S i) rest with
           | inl err => inl err
           | inr (content, j, rest) => inr (trim_prefix l "+" :: content, j, rest)
           end
  end.

Definition added_content (lines : list string) : string :=
  str_join newline lines +:+ match lines with [] => "" | _ => newline end.

Definition empty_chunk (context : string) : patchChunk :=
  {| pc_Context := context; pc_Old := []; pc_New := []; pc_EOF := false |}.

Definition hunk_line (c : patchChunk) (l : string) : option patchChunk :=
  if String.eqb l patchEOF
  then Some {| pc_Context := pc_Context c; pc_Old := pc_Old c; pc_New := pc_New c; pc_EOF := true |}
  else match l with
       | EmptyString =>
           Some {| pc_Context := pc_Context c; pc_Old := pc_Old c ++ [""]; pc_New := pc_New c ++ [""]; pc_EOF := pc_EOF c |}
       | String k t =>
           if Nat.eqb (code k) 32 then
             Some {| pc_Context := pc_Context c; pc_Old := pc_Old c ++ [t]; pc_New := pc_New c ++ [t]; pc_EOF := pc_EOF c |}
           else if Nat.eqb (code k) 45 then
             Some {| pc_Context := pc_Context c; pc_Old := pc_Old c ++ [t]; pc_New := pc_New c; pc_EOF := pc_EOF c |}
           else if Nat.eqb (code k) 43 then
             Some {| pc_Context := pc_Context c; pc_Old := pc_Old c; pc_New := pc_New c ++ [t]; pc_EOF := pc_EOF c |}
           else None
       end.

Fixpoint parse_hunk (c : patchChunk) (i : nat) (body : list string) : result (patchChunk * nat * list string) :=
  match body with
  | [] => inr (c, i, [])
  | l :: rest =>
      if isSectionStart l || has_prefix "@@" l then inr (c, i, body)
      else match hunk_line c l with
           | None => inl (line_error (i + 2) ("a hunk line starts with a space, - or +, got " +:+ go_quote l))
           | Some c => if pc_EOF c then inr (c, S i, rest) else parse_hunk c (S i) rest
           end
  end.

(** The header of a hunk, if there is one. *)
Definition hunk_context (i : nat) (body : list string) : string * nat * list string :=
  match body with
  | l :: rest => if has_prefix "@@" l then (header_arg "@@" l, S i, rest) else ("", i, body)
  | [] => ("", i, [])
  end.

(** The hunks of an update.  Every round reads at least one line. *)
Fixpoint parse_chunks (fuel n : nat) (path : string) (i : nat) (body : list string)
    : result (list patchChunk * nat * list string) :=
  match fuel, body with
  | O, _ => inl (EText "")
  | _, [] => inr ([], i, [])
  | S fuel, l :: _ =>
      if isSectionStart l then inr ([], i, body)
      else
        let '(context, start, rest) := hunk_context i body in
        match parse_hunk (empty_chunk context) start rest with
        | inl err => inl err
        | inr (c, j, rest) =>
            if Nat.eqb j start && String.eqb (pc_Context c) "" then inl (line_error n "empty hunk")
            else match pc_Old c, pc_New c with
                 | [], [] => inl (line_error (start + 2) ("a hunk in " +:+ path +:+ " changes nothing"))
                 | _, _ =>
                     match parse_chunks fuel n path j rest with
                     | inl err => inl err
                     | inr (cs, j, rest) => inr (c :: cs, j, rest)
                     end
                 end
        end
  end.

Definition parse_move (i : nat) (body : list string) : string * nat * list string :=
  match body with
  | l :: rest => if has_prefix patchMove l then (header_arg patchMove l, S i, rest) else ("", i, body)
  | [] => ("", i, [])
  end.

Definition parse_update (n : nat) (path : string) (i : nat) (body : list string)
    : result (filePatch * nat * list string) :=
  let '(to, i, body) := parse_move i body in
  match parse_chunks (S (length body)) n path i body with
  | inl err => inl err
  | inr (cs, i, body) =>
      match cs with
      | [] => if String.eqb to "" then inl (line_error n (path +:+ " has no hunks"))
              else inr ({| fp_Kind := kindUpdate; fp_Path := path; fp_MoveTo := to; fp_Content := ""; fp_Chunks := [] |}, i, body)
      | _ => inr ({| fp_Kind := kindUpdate; fp_Path := path; fp_MoveTo := to; fp_Content := ""; fp_Chunks := cs |}, i, body)
      end
  end.

(** One section from its header line. *)
Definition parse_section (n i : nat) (l : string) (rest : list string) : result (option filePatch * nat * list string) :=
  if has_prefix patchAdd l then
    match parse_added (S i) rest with
    | inl err => inl err
    | inr (content, j, rest) =>
        inr (Some {| fp_Kind := kindAdd; fp_Path := header_arg patchAdd l; fp_MoveTo := "";
                     fp_Content := added_content content; fp_Chunks := [] |}, j, rest)
    end
  else if has_prefix patchDelete l then
    inr (Some {| fp_Kind := kindDelete; fp_Path := header_arg patchDelete l; fp_MoveTo := "";
                 fp_Content := ""; fp_Chunks := [] |}, S i, rest)
  else if has_prefix patchUpdate l then
    match parse_update n (header_arg patchUpdate l) (S i) rest with
    | inl err => inl err
    | inr (fp, j, rest) => inr (Some fp, j, rest)
    end
  else if String.eqb (trim_space l) "" then inr (None, S i, rest)
  else inl (line_error n ("expected *** Add File, *** Delete File or *** Update File, got " +:+ go_quote l)).

Definition claim_patch (seen : gset string) (fp : filePatch) (n : nat) : result (gset string) :=
  match claim seen (fp_Path fp) n with
  | inl err => inl err
  | inr seen => if String.eqb (fp_MoveTo fp) "" then inr seen else claim seen (fp_MoveTo fp) n
  end.

(** The loop over the body.  Every round reads at least one line. *)
Fixpoint parse_sections (fuel : nat) (seen : gset string) (i : nat) (body : list string) : result (list filePatch) :=
  match fuel, body with
  | O, _ => inl (EText "")
  | _, [] => inr []
  | S fuel, l :: rest =>
      match parse_section (i + 2) i l rest with
      | inl err => inl err
      | inr (None, j, rest) => parse_sections fuel seen j rest
      | inr (Some fp, j, rest) =>
          match claim_patch seen fp (i + 2) with
          | inl err => inl err
          | inr seen =>
              match parse_sections fuel seen j rest with
              | inl err => inl err
              | inr fps => inr (fp :: fps)
              end
          end
      end
  end.

Definition parsePatch (text : string) : result (list filePatch) :=
  let lines := split_lines (trim_space (replace_crlf text)) in
  let starts := EText ("a patch starts with " +:+ go_quote patchBegin) in
  match lines with
  | [] | [_] => inl starts
  | first :: rest =>
      if negb (String.eqb (trim_space first) patchBegin) then inl starts
      else if negb (String.eqb (trim_space (List.last rest "")) patchEnd)
      then inl (EText ("a patch ends with " +:+ go_quote patchEnd))
      else
        let body := removelast rest in
        match parse_sections (S (length body)) ∅ 0 body with
        | inl err => inl err
        | inr [] => inl (EText "the patch changes no files")
        | inr out => inr out
        end
  end.

(** ** Finding and applying hunks *)

(** [strings.TrimRight] of spaces and tabs. *)
Fixpoint trim_right_blanks (s : string) : string :=
  match s with
  | EmptyString => ""
  | String c s =>
      match trim_right_blanks s with
      | EmptyString => if Nat.eqb (code c) 32 || Nat.eqb (code c) 9 then "" else String c ""
      | t => String c t
      end
  end.

Definition norms : list (string -> string) := [fun s => s; trim_right_blanks; trim_space].

Definition match_at (norm : string -> string) (lines want : list string) (at_ : nat) : bool :=
  forallb (fun '(w, l) => String.eqb (norm l) (norm w)) (combine want (drop at_ lines)).

(** The positions the scan tries, in order. *)
Definition scan_from (start : nat) (lines want : list string) : list nat :=
  seq start (S (length lines) - length want - start).

Definition seek_norm (lines want : list string) (start : nat) (eof : bool) (norm : string -> string) : option nat :=
  let last := length lines - length want in
  if eof && (start <=? last) && match_at norm lines want last then Some last
  else List.find (match_at norm lines want) (scan_from start lines want).

Definition seek (lines want : list string) (start : nat) (eof : bool) : option nat :=
  if length lines <? length want then None
  else foldr (fun norm found => match seek_norm lines want start eof norm with Some i => Some i | None => found end)
             None norms.

Record repl := { rp_at : nat; rp_n : nat; rp_with : list string }.

(** A blank line at the end of the hunk may be the model's own. *)
Definition drop_blank (old nw : list string) : option (list string * list string) :=
  if (1 <? length old) && String.eqb (List.last old "") ""
  then Some (removelast old,
             if String.eqb (List.last nw "x") "" then removelast nw else nw)
  else None.

Definition context_error (ci : nat) (c : patchChunk) : error :=
  EText ("hunk " +:+ itoa (Z.of_nat (ci + 1)) +:+ ": can't find the line " +:+ go_quote (pc_Context c)
         +:+ " its @@ header names").

Definition hunk_error (ci : nat) (old : list string) : error :=
  EText ("hunk " +:+ itoa (Z.of_nat (ci + 1)) +:+ " doesn't match the file; it expected these lines:" +:+ newline
         +:+ str_join newline old).

(** Where a hunk goes, and the cursor after it. *)
Definition place_chunk (lines : list string) (cursor ci : nat) (c : patchChunk) : result (repl * nat) :=
  match (if String.eqb (pc_Context c) "" then inr cursor
         else match seek lines [pc_Context c] cursor false with
              | None => inl (context_error ci c)
              | Some at_ => inr (at_ + 1)
              end) with
  | inl err => inl err
  | inr cursor =>
      match pc_Old c with
      | [] => inr ({| rp_at := length lines; rp_n := 0; rp_with := pc_New c |}, cursor)
      | old =>
          match seek lines old cursor (pc_EOF c) with
          | Some at_ => inr ({| rp_at := at_; rp_n := length old; rp_with := pc_New c |}, at_ + length old)
          | None =>
              match drop_blank old (pc_New c) with
              | None => inl (hunk_error ci old)
              | Some (old, nw) =>
                  match seek lines old cursor (pc_EOF c) with
                  | Some at_ => inr ({| rp_at := at_; rp_n := length old; rp_with := nw |}, at_ + length old)
                  | None => inl (hunk_error ci old)
                  end
              end
          end
      end
  end.

Fixpoint place_chunks (lines : list string) (cursor ci : nat) (cs : list patchChunk) : result (list repl) :=
  match cs with
  | [] => inr []
  | c :: cs =>
      match place_chunk lines cursor ci c with
      | inl err => inl err
      | inr (r, cursor) =>
          match place_chunks lines cursor (S ci) cs with
          | inl err => inl err
          | inr rs => inr (r :: rs)
          end
      end
  end.

Definition apply_repl (r : repl) (lines : list string) : option (list string) :=
  if length lines <? rp_at r + rp_n r then None
  else Some (take (rp_at r) lines ++ rp_with r ++ drop (rp_at r + rp_n r) lines).

(** The replacements, the last one first. *)
Fixpoint apply_repls (rs : list repl) (lines : list string) : option (list string) :=
  match rs with
  | [] => Some lines
  | r :: rs => lines ← apply_repls rs lines; apply_repl r lines
  end.

Definition file_lines (src : string) : list string :=
  let lines := split_lines src in
  if String.eqb (List.last lines "") "" then removelast lines else lines.

Definition file_text (lines : list string) : string :=
  match lines with [] => "" | _ => str_join newline lines +:+ newline end.

Definition applyChunks (src : string) (cs : list patchChunk) : option (result string) :=
  let lines := file_lines src in
  match place_chunks lines 0 0 cs with
  | inl err => Some (inl err)
  | inr rs => lines ← apply_repls rs lines; Some (inr (file_text lines))
  end.

(** ** A printer the parser inverts *)
Inductive hunk_op := Keep (l : string) | Del (l : string) | Add (l : string).

Record hunk_script := { hs_context : string; hs_ops : list hunk_op; hs_eof : bool }.

Inductive section :=
| SAdd (path : string) (lines : list string)
| SDelete (path : string)
| SUpdate (path move : string) (hunks : list hunk_script).

Definition render_op (o : hunk_op) : string :=
  match o with Keep l => " " +:+ l | Del l => "-" +:+ l | Add l => "+" +:+ l end.

Definition render_hunk (h : hunk_script) : list string :=
  ("@@ " +:+ hs_context h) :: map render_op (hs_ops h) ++ (if hs_eof h then [patchEOF] else []).

Definition render_section (s : section) : list string :=
  match s with
  | SAdd path lines => (patchAdd +:+ path) :: map (fun l => "+" +:+ l) lines
  | SDelete path => [patchDelete +:+ path]
  | SUpdate path move hunks =>
      (patchUpdate +:+ path) :: (if String.eqb move "" then [] else [patchMove +:+ move]) ++ flat_map render_hunk hunks
  end.

Definition render_patch (ss : list section) : string :=
  str_join newline (patchBegin :: flat_map render_section ss ++ [patchEnd]).

(** What a script says. *)
Definition ops_old (ops : list hunk_op) : list string :=
  omap (fun o => match o with Keep l | Del l => Some l | Add _ => None end) ops.
Definition ops_new (ops : list hunk_op) : list string :=
  omap (fun o => match o with Keep l | Add l => Some l | Del _ => None end) ops.

Definition chunk_of (h : hunk_script) : patchChunk :=
  {| pc_Context := hs_context h; pc_Old := ops_old (hs_ops h); pc_New := ops_new (hs_ops h); pc_EOF := hs_eof h |}.

Definition patch_of (s : section) : filePatch :=
  match s with
  | SAdd path lines => {| fp_Kind := kindAdd; fp_Path := path; fp_MoveTo := ""; fp_Content := added_content lines; fp_Chunks := [] |}
  | SDelete path => {| fp_Kind := kindDelete; fp_Path := path; fp_MoveTo := ""; fp_Content := ""; fp_Chunks := [] |}
  | SUpdate path move hunks =>
      {| fp_Kind := kindUpdate; fp_Path := path; fp_MoveTo := move; fp_Content := ""; fp_Chunks := map chunk_of hunks |}
  end.

(** Texts without line breaks, and names without white space around them. *)
Definition plain_char (c : Ascii.ascii) : bool := negb (Nat.eqb (code c) 10) && negb (Nat.eqb (code c) 13).
Definition plain (s : string) : bool := str_forall plain_char s.
Definition trimmed (s : string) : bool := plain s && String.eqb (trim_space s) s.

Definition op_ok (o : hunk_op) : bool := match o with Keep l | Del l | Add l => plain l end.

Definition hunk_ok (h : hunk_script) : bool :=
  trimmed (hs_context h) && forallb op_ok (hs_ops h) && negb (Nat.eqb (length (hs_ops h)) 0).

Definition section_ok (s : section) : bool :=
  match s with
  | SAdd path lines => trimmed path && forallb plain lines
  | SDelete path => trimmed path
  | SUpdate path move hunks =>
      trimmed path && trimmed move && forallb hunk_ok hunks
      && (negb (String.eqb move "") || negb (Nat.eqb (length hunks) 0))
  end.

Definition section_paths (s : section) : list string :=
  match s with
  | SAdd path _ | SDelete path => [path]
  | SUpdate path move _ => path :: (if String.eqb move "" then [] else [move])
  end.

(** *** Lines *)
Lemma header_arg_app prefix arg : header_arg prefix (prefix +:+ arg) = trim_space arg.
Proof. unfold header_arg, trim_prefix. by rewrite has_prefix_app, drop_app_str. Qed.

Lemma trimmed_spec s : trimmed s = true <-> plain s = true /\ trim_space s = s.
Proof. unfold trimmed. by rewrite andb_true_iff, String.eqb_eq. Qed.

Lemma section_start_stars l : isSectionStart l = true -> has_prefix "*** " l = true.
Proof.
  unfold isSectionStart. rewrite !orb_true_iff, !has_prefix_spec. intros [[[t ->]|[t ->]]|[t ->]]; eexists; reflexivity.
Qed.

(** Where reading a section or a hunk stops. *)
Definition at_section (rest : list string) : Prop := match rest with [] => True | l :: _ => isSectionStart l = true end.
Definition at_stop (rest : list string) : Prop :=
  match rest with [] => True | l :: _ => isSectionStart l || has_prefix "@@" l = true end.

Lemma at_section_stop rest : at_section rest -> at_stop rest.
Proof. destruct rest; simpl; [done|]. by intros ->. Qed.

Lemma parse_added_render i lines rest :
  at_section rest -> parse_added i (map (fun l => "+" +:+ l) lines ++ rest) = inr (lines, i + length lines, rest).
Proof.
  intros Hr. revert i. induction lines as [|l lines IH]; intros i; cbn [map app parse_added].
  - rewrite Nat.add_0_r. destruct rest as [|l rest]; [done|]. cbn [parse_added]. by rewrite section_start_stars.
  - change (has_prefix "*** " ("+" +:+ l)) with false. change (has_prefix "+" ("+" +:+ l)) with true. cbn [negb].
    rewrite IH. cbn [length]. rewrite Nat.add_succ_r. done.
Qed.

Lemma hunk_line_op c o :
  hunk_line c (render_op o) = Some {| pc_Context := pc_Context c; pc_Old := pc_Old c ++ ops_old [o];
                                      pc_New := pc_New c ++ ops_new [o]; pc_EOF := pc_EOF c |}.
Proof. destruct o as [l|l|l]; cbn; by rewrite ?app_nil_r. Qed.

Lemma op_not_stop o : isSectionStart (render_op o) || has_prefix "@@" (render_op o) = false.
Proof. by destruct o. Qed.

Lemma parse_hunk_render c i h rest :
  at_stop rest -> pc_EOF c = false ->
  parse_hunk c i (map render_op (hs_ops h) ++ (if hs_eof h then [patchEOF] else []) ++ rest)
  = inr ({| pc_Context := pc_Context c; pc_Old := pc_Old c ++ ops_old (hs_ops h);
            pc_New := pc_New c ++ ops_new (hs_ops h); pc_EOF := hs_eof h |},
         i + length (hs_ops h) + (if hs_eof h then 1 else 0), rest).
Proof.
  destruct h as [ctx ops eof]. cbn [hs_ops hs_eof]. intros Hr. revert c i.
  induction ops as [|o ops IH]; intros c i Hc; cbn [map app parse_hunk].
  - change (ops_old []) with (@nil string). change (ops_new []) with (@nil string). cbn [length].
    rewrite !app_nil_r, Nat.add_0_r. destruct eof; cbn [app].
    + cbn. by rewrite Nat.add_1_r.
    + rewrite Nat.add_0_r. destruct c as [? ? ? e]. cbn [pc_EOF] in Hc. subst e.
      destruct rest as [|l rest]; [done|]. cbn [parse_hunk]. unfold at_stop in Hr. by rewrite Hr.
  - rewrite op_not_stop, hunk_line_op. cbn [pc_EOF]. rewrite Hc, IH by done. cbn [pc_Context pc_Old pc_New pc_EOF length].
    rewrite <- !app_assoc. replace (S i + length ops) with (i + S (length ops)) by lia. by destruct o.
Qed.

Lemma hunk_header_ctx ctx : trimmed ctx = true -> header_arg "@@" ("@@ " +:+ ctx) = ctx.
Proof.
  intros [_ Ht]%trimmed_spec. change ("@@ " +:+ ctx) with ("@@" +:+ (" " +:+ ctx)).
  by rewrite header_arg_app, trim_space_space.
Qed.

Lemma hunk_not_empty h : hunk_ok h = true -> ops_old (hs_ops h) <> [] \/ ops_new (hs_ops h) <> [].
Proof.
  unfold hunk_ok. rewrite !andb_true_iff. intros [_ H]. destruct (hs_ops h) as [|[l|l|l] ops]; [discriminate| | |];
    [left|left|right]; discriminate.
Qed.

Lemma render_hunks_stop hunks rest : at_section rest -> at_stop (flat_map render_hunk hunks ++ rest).
Proof. destruct hunks as [|h hunks]; intros Hr; cbn [flat_map app]; [by apply at_section_stop|]. done. Qed.

Definition size_of (hunks : list hunk_script) : nat := length (flat_map render_hunk hunks).

Lemma parse_chunks_render fuel n path i hunks rest :
  at_section rest -> forallb hunk_ok hunks = true -> length hunks < fuel ->
  parse_chunks fuel n path i (flat_map render_hunk hunks ++ rest)
  = inr (map chunk_of hunks, i + size_of hunks, rest).
Proof.
  intros Hr. revert fuel i. induction hunks as [|h hunks IH]; intros [|fuel] i Hok Hf; cbn [length] in Hf; try lia.
  - unfold size_of. cbn [flat_map app map length]. rewrite Nat.add_0_r. destruct rest as [|l rest]; [done|].
    cbn [parse_chunks]. unfold at_section in Hr. by rewrite Hr.
  - cbn [forallb] in Hok. apply andb_true_iff in Hok as [Hh Hok].
    cbn [flat_map render_hunk app]. rewrite <- !app_assoc. cbn [parse_chunks].
    change (isSectionStart ("@@ " +:+ hs_context h)) with false. cbn [hunk_context].
    change (has_prefix "@@" ("@@ " +:+ hs_context h)) with true. cbv iota.
    pose proof Hh as Hctx. unfold hunk_ok in Hctx. rewrite !andb_true_iff in Hctx. destruct Hctx as [[Hctx _] Hlen].
    rewrite hunk_header_ctx by done.
    rewrite parse_hunk_render by (done || by apply render_hunks_stop). cbn [pc_Context pc_Old pc_New empty_chunk app].
    apply negb_true_iff, Nat.eqb_neq in Hlen.
    destruct (Nat.eqb_spec (S i + length (hs_ops h) + (if hs_eof h then 1 else 0)) (S i)); [lia|]. cbn [andb].
    rewrite IH by (done || lia).
    assert (Hsz : S i + length (hs_ops h) + (if hs_eof h then 1 else 0) + size_of hunks = i + size_of (h :: hunks)).
    { unfold size_of. cbn [flat_map render_hunk app length]. rewrite !length_app, length_map. destruct (hs_eof h); cbn; lia. }
    rewrite Hsz. pose proof (hunk_not_empty h Hh) as Hne. cbn [map]. unfold chunk_of.
    destruct (ops_old (hs_ops h)) eqn:Eo, (ops_new (hs_ops h)) eqn:En; try done. by destruct Hne.
Qed.

Lemma trimmed_trim s : trimmed s = true -> trim_space s = s.
Proof. by intros [_ H]%trimmed_spec. Qed.

Lemma parse_update_render n path i move hunks rest :
  at_section rest -> section_ok (SUpdate path move hunks) = true ->
  parse_update n path i ((if String.eqb move "" then [] else [patchMove +:+ move]) ++ flat_map render_hunk hunks ++ rest)
  = inr (patch_of (SUpdate path move hunks),
         i + length (if String.eqb move "" then [] else [patchMove +:+ move]) + size_of hunks, rest).
Proof.
  intros Hr. cbn [section_ok]. rewrite !andb_true_iff. intros [[[_ Hm] Hh] Hne]. unfold parse_update.
  assert (Hbody : forall j, parse_chunks (S (length (flat_map render_hunk hunks ++ rest))) n path j (flat_map render_hunk hunks ++ rest)
                  = inr (map chunk_of hunks, j + size_of hunks, rest)).
  { intros j. apply parse_chunks_render; [done..|]. rewrite length_app. clear. induction hunks as [|h hunks IH]; cbn; [lia|].
    rewrite length_app in *. cbn [render_hunk length]. lia. }
  destruct (String.eqb_spec move "") as [->|Hmove].
  - cbn [app length]. rewrite Nat.add_0_r.
    assert (parse_move i (flat_map render_hunk hunks ++ rest) = ("", i, flat_map render_hunk hunks ++ rest)) as ->.
    { destruct hunks as [|h hunks]; [|done]. destruct rest as [|l rest]; [done|]. cbn [flat_map app parse_move].
      assert (has_prefix patchMove l = false) as ->; [|done]. unfold at_section, isSectionStart in Hr.
      rewrite !orb_true_iff, !has_prefix_spec in Hr. destruct Hr as [[[t ->]|[t ->]]|[t ->]]; reflexivity. }
    rewrite Hbody. destruct hunks; [discriminate Hne|]. done.
  - cbn [app parse_move length]. rewrite has_prefix_app, header_arg_app, (trimmed_trim move Hm), Hbody.
    rewrite Nat.add_1_r. apply String.eqb_neq in Hmove. destruct hunks; cbn [map]; [by rewrite Hmove|]. done.
Qed.

Lemma section_header s : at_section (render_section s).
Proof. destruct s; cbn; unfold isSectionStart; by rewrite ?orb_true_r. Qed.

Lemma render_sections_at ss : at_section (flat_map render_section ss).
Proof. destruct ss as [|s ss]; [done|]. cbn [flat_map]. pose proof (section_header s). by destruct s. Qed.

Lemma parse_section_render n i s rest :
  at_section rest -> section_ok s = true ->
  exists l ls, render_section s ++ rest = l :: ls /\
    parse_section n i l ls = inr (Some (patch_of s), i + length (render_section s), rest).
Proof.
  intros Hr Hok. destruct s as [path lines|path|path move hunks]; cbn [render_section app]; do 2 eexists; (split; [done|]);
    unfold parse_section.
  - cbn [section_ok] in Hok. apply andb_true_iff in Hok as [Hp _]. rewrite has_prefix_app.
    rewrite parse_added_render by done. rewrite header_arg_app, trimmed_trim by done.
    cbn [length patch_of]. by rewrite length_map, Nat.add_succ_r.
  - change (has_prefix patchAdd (patchDelete +:+ path)) with false. rewrite has_prefix_app, header_arg_app.
    cbn [section_ok] in Hok. rewrite trimmed_trim by done. cbn [length patch_of]. by rewrite Nat.add_1_r.
  - change (has_prefix patchAdd (patchUpdate +:+ path)) with false.
    change (has_prefix patchDelete (patchUpdate +:+ path)) with false. rewrite has_prefix_app, header_arg_app.
    pose proof Hok as Hp. cbn [section_ok] in Hp. rewrite !andb_true_iff in Hp. destruct Hp as [[[Hp _] _] _].
    rewrite (trimmed_trim path) by done. rewrite <- app_assoc, parse_update_render by done.
    do 3 f_equal. cbn [length]. rewrite length_app. unfold size_of. lia.
Qed.

Lemma claim_patch_fresh seen s n :
  (forall p, p ∈ section_paths s -> p ∉ seen) -> NoDup (section_paths s) ->
  exists seen', claim_patch seen (patch_of s) n = inr seen' /\ forall p, p ∈ seen' <-> p ∈ seen \/ p ∈ section_paths s.
Proof.
  intros Hf Hnd. assert (Hone : forall p, section_paths s = [p] -> fp_MoveTo (patch_of s) = "" -> fp_Path (patch_of s) = p ->
    exists seen', claim_patch seen (patch_of s) n = inr seen' /\ forall q, q ∈ seen' <-> q ∈ seen \/ q ∈ section_paths s).
  { intros p Hp Hm Hpath. unfold claim_patch, claim. rewrite Hpath, Hm. rewrite Hp in *.
    rewrite decide_False by (apply Hf; set_solver). eexists. split; [done|]. set_solver. }
  destruct s as [path lines|path|path move hunks]; cbn [patch_of fp_Path fp_MoveTo section_paths] in *; [by eapply Hone..|].
  destruct (String.eqb_spec move "") as [->|Hm]; [by eapply Hone|].
  unfold claim_patch, claim. cbn [fp_Path fp_MoveTo]. rewrite decide_False by (apply Hf; set_solver).
  apply String.eqb_neq in Hm. rewrite Hm, decide_False.
  - eexists. split; [done|]. set_solver.
  - apply NoDup_cons in Hnd as [Hnd _]. specialize (Hf move). set_solver.
Qed.

Lemma parse_sections_render fuel seen i ss :
  forallb section_ok ss = true -> NoDup (flat_map section_paths ss) ->
  (forall p, p ∈ flat_map section_paths ss -> p ∉ seen) -> length ss < fuel ->
  parse_sections fuel seen i (flat_map render_section ss) = inr (map patch_of ss).
Proof.
  revert fuel seen i. induction ss as [|s ss IH]; intros [|fuel] seen i; cbn [length]; intros Hok Hnd Hf Hl; try lia; [done|].
  cbn [forallb flat_map] in *. apply andb_true_iff in Hok as [Hs Hok]. apply NoDup_app in Hnd as (Hnd1 & Hdis & Hnd2).
  destruct (parse_section_render (i + 2) i s (flat_map render_section ss) (render_sections_at ss) Hs) as (l & ls & -> & Hp).
  cbn [parse_sections]. rewrite Hp.
  destruct (claim_patch_fresh seen s (i + 2)) as (seen' & -> & Hseen); [|done|].
  { intros p Hin. apply Hf. rewrite elem_of_app. by left. }
  rewrite IH; [done..| |lia]. intros p Hin. rewrite Hseen. intros [Hin'|Hin'].
  - eapply Hf; [|exact Hin']. rewrite elem_of_app. by right.
  - by eapply Hdis.
Qed.

(** *** The text around the sections *)
Definition no_cr (c : Ascii.ascii) : bool := negb (Nat.eqb (code c) 13).

Lemma replace_crlf_id s : str_forall no_cr s = true -> replace_crlf s = s.
Proof.
  induction s as [|c s IH]; [done|]. cbn [str_forall]. rewrite andb_true_iff. intros [Hc Hs].
  destruct s as [|d s]; [done|]. cbn [replace_crlf]. unfold no_cr in Hc. apply negb_true_iff in Hc. rewrite Hc. cbn [andb].
  f_equal. by apply IH.
Qed.

Lemma join_forall P ls : str_forall P newline = true -> Forall (fun l => str_forall P l = true) ls -> str_forall P (str_join newline ls) = true.
Proof.
  intros Hn H. induction H as [|l ls Hl Hls IH]; [done|]. destruct ls as [|l' ls]; [done|].
  cbn [str_join] in *. by rewrite !str_forall_app, Hl, Hn, IH.
Qed.

Lemma plain_app a b : plain (a +:+ b) = plain a && plain b.
Proof. apply str_forall_app. Qed.

Lemma render_ops_plain ops : forallb op_ok ops = true -> Forall (fun l => plain l = true) (map render_op ops).
Proof.
  intros H. rewrite Forall_map, Forall_forall. rewrite forallb_forall in H. intros o Ho%list_elem_of_In%H.
  by destruct o; cbn [render_op op_ok] in *; rewrite plain_app, Ho.
Qed.

Lemma render_hunk_plain h : hunk_ok h = true -> Forall (fun l => plain l = true) (render_hunk h).
Proof.
  unfold hunk_ok. rewrite !andb_true_iff. intros [[[Hc _]%trimmed_spec Ho] _]. unfold render_hunk.
  constructor; [by rewrite plain_app, Hc|]. apply Forall_app. split; [by apply render_ops_plain|].
  destruct (hs_eof h); by repeat constructor.
Qed.

Lemma render_section_plain s : section_ok s = true -> Forall (fun l => plain l = true) (render_section s).
Proof.
  destruct s as [path lines|path|path move hunks]; cbn [section_ok render_section]; rewrite ?andb_true_iff.
  - intros [[Hp _]%trimmed_spec Hl]. constructor; [by rewrite plain_app, Hp|].
    rewrite Forall_map, Forall_forall. rewrite forallb_forall in Hl. intros l H%list_elem_of_In%Hl. by rewrite plain_app, H.
  - intros [Hp _]%trimmed_spec. by repeat constructor; rewrite plain_app, Hp.
  - intros [[[[Hp _]%trimmed_spec [Hm _]%trimmed_spec] Hh] _]. constructor; [by rewrite plain_app, Hp|].
    apply Forall_app. split; [case_match; [done|]; repeat constructor; by rewrite plain_app, Hm|].
    apply Forall_flat_map, Forall_forall. rewrite forallb_forall in Hh. intros h H%list_elem_of_In%Hh. by apply render_hunk_plain.
Qed.

Lemma plain_one_line l : plain l = true -> one_line l = true.
Proof. apply str_forall_impl. intros c. unfold plain_char, not_newline. by intros [H _]%andb_true_iff. Qed.

Lemma plain_no_cr l : plain l = true -> str_forall no_cr l = true.
Proof. apply str_forall_impl. intros c. unfold plain_char, no_cr. by intros [_ H]%andb_true_iff. Qed.

(** *** A text between two stars and a letter is trimmed *)
Lemma has_suffix_app p s : has_suffix p s = true -> exists t, s = t +:+ p.
Proof.
  unfold has_suffix. rewrite andb_true_iff, String.eqb_eq. intros [_ H].
  exists (str_take (String.length s - String.length p) s). rewrite <- H at 2. by rewrite take_drop_str.
Qed.

Lemma last_byte t c p x d : t +:+ (p +:+ String c "") = x +:+ String d "" -> c = d.
Proof.
  rewrite <- app_assoc_str. intros H. assert (String.length (t +:+ p) = String.length x) as Hl.
  { apply (f_equal String.length) in H. rewrite !length_app_str in H. cbn in H. rewrite length_app_str. lia. }
  apply app_inj_str in H as [_ H]; [|done]. by injection H.
Qed.

Lemma trim_star_h x : trim_space (String (Ascii.ascii_of_nat 42) x +:+ "h") = String (Ascii.ascii_of_nat 42) x +:+ "h".
Proof.
  assert (Hl : forall n s, trim_left_go n (String (Ascii.ascii_of_nat 42) s) = String (Ascii.ascii_of_nat 42) s) by (intros [|n] s; done).
  unfold trim_space. rewrite app_cons, Hl. set (s := String _ (x +:+ "h")). destruct (String.length s) as [|n]; [done|].
  cbn [trim_right_go]. destruct (List.find _ space_seqs) as [p|] eqn:E; [|done]. exfalso.
  apply find_some in E as [Hin Hsuf]. apply has_suffix_app in Hsuf as [t Ht].
  assert (Hlast : exists q c, p = q +:+ String c "" /\ c <> Ascii.ascii_of_nat 104).
  { unfold space_seqs in Hin. apply list_elem_of_In in Hin. revert p t Hin Ht. clear. intros p t Hin _.
    revert p Hin. apply Forall_forall. unfold space_seqs. cbn [map app].
    repeat (constructor; [match goal with |- exists q c, byte_of ?n = _ /\ _ => exists "", (Ascii.ascii_of_nat n); split; [done|by vm_compute]
      | |- exists q c, ?a +:+ byte_of ?n = _ /\ _ => exists a, (Ascii.ascii_of_nat n); split; [done|by vm_compute]
      | |- exists q c, ?a +:+ ?b +:+ byte_of ?n = _ /\ _ => exists (a +:+ b), (Ascii.ascii_of_nat n); split; [done|by vm_compute] end|]).
    constructor. }
  destruct Hlast as (q & c & -> & Hc). apply Hc. unfold s in Ht. rewrite <- app_cons in Ht.
  symmetry in Ht. by apply last_byte in Ht.
Qed.

(** What is printed is parsed back.  Every list of file sections with
    well-formed names, distinct paths and hunks that say something, printed
    as a patch, parses to exactly those sections: kinds, paths, moves,
    contents, and for each hunk its context, the lines it replaces, the lines
    it puts there and its anchor at the end of the file. *)
Theorem patch_roundtrip (ss : list section) :
  ss <> [] -> forallb section_ok ss = true -> NoDup (flat_map section_paths ss) ->
  parsePatch (render_patch ss) = inr (map patch_of ss).
Proof.
  intros Hne Hok Hnd. unfold parsePatch, render_patch.
  set (body := flat_map render_section ss).
  assert (Hplain : Forall (fun l => plain l = true) (patchBegin :: body ++ [patchEnd])).
  { constructor; [done|]. apply Forall_app. split; [|by repeat constructor].
    apply Forall_flat_map, Forall_forall. rewrite forallb_forall in Hok.
    intros s H%list_elem_of_In%Hok. by apply render_section_plain. }
  rewrite replace_crlf_id by (apply join_forall; [done|]; eapply Forall_impl; [exact Hplain|exact plain_no_cr]).
  assert (Htrim : trim_space (str_join newline (patchBegin :: body ++ [patchEnd])) = str_join newline (patchBegin :: body ++ [patchEnd])).
  { assert (exists x, str_join newline (patchBegin :: body ++ [patchEnd]) = String (Ascii.ascii_of_nat 42) x +:+ "h") as [x ->].
    - assert (Hj : forall ls, exists x, str_join newline (ls ++ [patchEnd]) = x +:+ "h").
      { induction ls as [|l ls [x IH]]; [by exists "*** End Patc"|]. exists (l +:+ newline +:+ x).
        rewrite !app_assoc_str, <- IH. destruct ls; done. }
      destruct (Hj body) as [x Hx]. exists ("** Begin Patch" +:+ newline +:+ x).
      change (str_join newline (patchBegin :: body ++ [patchEnd]) = (patchBegin +:+ (newline +:+ x)) +:+ "h").
      rewrite !app_assoc_str, <- Hx. by destruct body.
    - apply trim_star_h. }
  rewrite Htrim, split_join; [|done|eapply Forall_impl; [exact Hplain|exact plain_one_line]].
  destruct (body ++ [patchEnd]) as [|l rest] eqn:Eb; [by apply app_eq_nil in Eb as [_ Eb]|]. rewrite <- Eb.
  change (trim_space patchBegin) with patchBegin. rewrite String.eqb_refl. cbn [negb].
  rewrite last_last. change (trim_space patchEnd) with patchEnd. rewrite String.eqb_refl. cbn [negb].
  rewrite removelast_last. unfold body. rewrite parse_sections_render; try done.
  - destruct ss; done.
  - clear. induction ss as [|s ss IH]; [cbn; lia|]. cbn [flat_map length]. rewrite length_app.
    pose proof (section_header s). destruct s; cbn [render_section length]; lia.
Qed.

(** ** What a parsed patch is *)
Definition patch_paths (fp : filePatch) : list string :=
  fp_Path fp :: (if String.eqb (fp_MoveTo fp) "" then [] else [fp_MoveTo fp]).

Lemma claim_patch_spec seen fp n seen' :
  claim_patch seen fp n = inr seen' ->
  NoDup (patch_paths fp) /\ (forall p, p ∈ patch_paths fp -> p ∉ seen) /\ (forall p, p ∈ seen' <-> p ∈ seen \/ p ∈ patch_paths fp).
Proof.
  unfold claim_patch, claim, patch_paths. destruct (decide (fp_Path fp ∈ seen)) as [|Hp]; [done|].
  destruct (String.eqb (fp_MoveTo fp) ""); [|destruct (decide _) as [|Hm]; [done|]];
    intros [= <-].
  - split_and!; [apply NoDup_singleton| |]; set_solver.
  - split_and!; [|set_solver..]. apply NoDup_cons. split; [set_solver|apply NoDup_singleton].
Qed.

(** The chunks of an update say something, and an update without chunks is a
    move. *)
Definition chunk_says (c : patchChunk) : Prop := pc_Old c <> [] \/ pc_New c <> [].

Definition patch_wf (fp : filePatch) : Prop :=
  Forall chunk_says (fp_Chunks fp) /\
  (fp_Kind fp <> kindUpdate -> fp_Chunks fp = [] /\ fp_MoveTo fp = "") /\
  (fp_Kind fp = kindUpdate -> fp_Chunks fp <> [] \/ fp_MoveTo fp <> "").

Lemma parse_chunks_says fuel n path i body cs j rest :
  parse_chunks fuel n path i body = inr (cs, j, rest) -> Forall chunk_says cs.
Proof.
  revert i body cs j rest. induction fuel as [|fuel IH]; intros i body cs j rest; [done|]. cbn [parse_chunks].
  destruct body as [|l body]; [by intros [= <- <- <-]|]. destruct (isSectionStart l); [by intros [= <- <- <-]|].
  destruct (hunk_context i (l :: body)) as [[ctx start] rest0]. destruct (parse_hunk _ start rest0) as [|[[c j0] rest1]]; [done|].
  destruct (_ && _); [done|].
  destruct (parse_chunks fuel n path j0 rest1) as [err|[[cs' j'] rest']] eqn:E.
  - by destruct (pc_Old c), (pc_New c).
  - apply IH in E. intros H. assert (chunk_says c /\ cs = c :: cs') as [Hc ->]; [|by constructor].
    unfold chunk_says. destruct (pc_Old c), (pc_New c); naive_solver.
Qed.

Lemma parse_section_wf n i l rest fp j rest' : parse_section n i l rest = inr (Some fp, j, rest') -> patch_wf fp.
Proof.
  unfold parse_section. destruct (has_prefix patchAdd l).
  { destruct (parse_added _ _) as [|[[content k] r]]; [done|]. intros [= <- _ _]. by split_and!. }
  destruct (has_prefix patchDelete l); [intros [= <- _ _]; by split_and!|].
  destruct (has_prefix patchUpdate l); [|by destruct (String.eqb _ _)].
  unfold parse_update. destruct (parse_move (S i) rest) as [[to k] r].
  destruct (parse_chunks _ _ _ _ _) as [|[[cs k'] r']] eqn:E; [done|]. apply parse_chunks_says in E.
  destruct cs as [|c cs].
  - destruct (String.eqb_spec to ""); [done|]. intros [= <- _ _]. split_and!; [done|done|by right].
  - intros [= <- _ _]. split_and!; [done|done|by left].
Qed.

Lemma parse_sections_wf fuel seen i body fps :
  parse_sections fuel seen i body = inr fps ->
  Forall patch_wf fps /\ NoDup (flat_map patch_paths fps) /\ (forall p, p ∈ flat_map patch_paths fps -> p ∉ seen).
Proof.
  revert seen i body fps. induction fuel as [|fuel IH]; intros seen i body fps; [done|]. cbn [parse_sections].
  destruct body as [|l body]; [intros [= <-]; split_and!; [constructor|constructor|set_solver]|].
  destruct (parse_section _ _ _ _) as [|[[[fp|] j] rest]] eqn:E; [done| |by apply IH].
  destruct (claim_patch seen fp _) as [|seen'] eqn:Ec; [done|]. apply claim_patch_spec in Ec as (Hnd & Hf & Hs).
  destruct (parse_sections fuel seen' j rest) as [|fps'] eqn:Ep; [done|]. apply IH in Ep as (Hwf & Hnd' & Hf').
  intros [= <-]. split_and!.
  - constructor; [by eapply parse_section_wf|done].
  - cbn [flat_map]. apply NoDup_app. split_and!; [done| |done]. intros p Hp Hp'. eapply Hf'; [exact Hp'|]. apply Hs. by right.
  - cbn [flat_map]. intros p [Hp|Hp]%elem_of_app; [by apply Hf|]. intros Hin. eapply Hf'; [exact Hp|]. apply Hs. by left.
Qed.

Lemma parsePatch_wf text fps :
  parsePatch text = inr fps -> fps <> [] /\ Forall patch_wf fps /\ NoDup (flat_map patch_paths fps).
Proof.
  unfold parsePatch. destruct (split_lines _) as [|first [|l rest]]; [done..|].
  destruct (negb _); [done|]. destruct (negb _); [done|].
  destruct (parse_sections _ _ _ _) as [|fps'] eqn:E; [done|]. apply parse_sections_wf in E as (Hwf & Hnd & _).
  destruct fps' as [|fp fps']; [done|]. by intros [= <-].
Qed.

(** ** What applying hunks does *)

(** The same lines under one of the three tolerances, the same for all. *)
Definition same_lines (want piece : list string) : Prop :=
  exists norm, norm ∈ norms /\ Forall2 (fun w l => norm l = norm w) want piece.

Definition replaces (c : patchChunk) (piece nw : list string) : Prop :=
  exists old, ((old = pc_Old c /\ nw = pc_New c) \/ drop_blank (pc_Old c) (pc_New c) = Some (old, nw)) /\
              same_lines old piece.

(** The file and the result are the same gaps around the pieces the hunks
    replace and what they put there; the line a header names is in the gap
    before its hunk. *)
Inductive patched : list patchChunk -> list string -> list string -> Prop :=
| patched_nil ls : patched [] ls ls
| patched_cons c cs gap piece nw rest out :
    (pc_Context c = "" \/ exists l, l ∈ gap /\ same_lines [pc_Context c] [l]) ->
    replaces c piece nw -> patched cs rest out ->
    patched (c :: cs) (gap ++ piece ++ rest) (gap ++ nw ++ out).

Lemma match_at_spec norm lines want at_ :
  at_ + length want <= length lines ->
  match_at norm lines want at_ = true <-> Forall2 (fun w l => norm l = norm w) want (take (length want) (drop at_ lines)).
Proof.
  unfold match_at. intros H. assert (length want <= length (drop at_ lines)) as Hl by (rewrite length_drop; lia).
  clear H. revert Hl. generalize (drop at_ lines). induction want as [|w want IH]; intros ls Hl; [split; constructor|].
  destruct ls as [|l ls]; cbn in Hl; [lia|]. cbn [combine forallb length take].
  rewrite andb_true_iff, String.eqb_eq, IH by lia. split.
  - intros [H1 H2]. by constructor.
  - by intros [? ?]%Forall2_cons.
Qed.

Lemma seek_norm_spec lines want start eof norm at_ :
  length want <= length lines -> seek_norm lines want start eof norm = Some at_ ->
  start <= at_ /\ at_ + length want <= length lines /\ match_at norm lines want at_ = true.
Proof.
  intros Hl. unfold seek_norm. set (last := length lines - length want).
  destruct (eof && (start <=? last) && match_at norm lines want last) eqn:E.
  - rewrite !andb_true_iff in E. destruct E as [[_ E1%Nat.leb_le] E2]. intros [= <-]. split_and!; [done|unfold last; lia|done].
  - intros [Hin Hm]%find_some. unfold scan_from in Hin. apply in_seq in Hin. split_and!; [lia|lia|done].
Qed.

Lemma seek_spec lines want start eof at_ :
  seek lines want start eof = Some at_ ->
  start <= at_ /\ at_ + length want <= length lines /\ same_lines want (take (length want) (drop at_ lines)).
Proof.
  unfold seek. destruct (Nat.ltb_spec (length lines) (length want)) as [|Hl]; [done|].
  assert (H : forall ns, (forall n, n ∈ ns -> n ∈ norms) ->
    foldr (fun norm found => match seek_norm lines want start eof norm with Some i => Some i | None => found end) None ns = Some at_ ->
    exists norm, norm ∈ norms /\ seek_norm lines want start eof norm = Some at_).
  { induction ns as [|n ns IH]; intros Hn; [done|]. cbn [foldr]. destruct (seek_norm lines want start eof n) eqn:E.
    - intros [= ->]. exists n. split; [apply Hn; set_solver|done].
    - apply IH. intros m Hm. apply Hn. set_solver. }
  intros (norm & Hn & Hs)%H; [|done]. apply seek_norm_spec in Hs as (H1 & H2 & H3); [|done].
  split_and!; [done..|]. exists norm. split; [done|]. by apply match_at_spec.
Qed.

Lemma length_drop_blank old nw old' nw' : drop_blank old nw = Some (old', nw') -> old' <> [].
Proof.
  unfold drop_blank. destruct (Nat.ltb_spec 1 (length old)); [|done]. destruct (String.eqb _ _); [|done].
  intros [= <- _]. destruct old as [|a [|b old]]; cbn in *; [lia|lia|done].
Qed.

(** Where a hunk that replaces something is placed. *)
Lemma place_chunk_spec lines cursor ci c r cursor' :
  pc_Old c <> [] -> place_chunk lines cursor ci c = inr (r, cursor') ->
  cursor <= rp_at r /\ cursor' = rp_at r + rp_n r /\ cursor' <= length lines /\
  replaces c (take (rp_n r) (drop (rp_at r) lines)) (rp_with r) /\
  (pc_Context c = "" \/ exists k l, cursor <= k < rp_at r /\ lines !! k = Some l /\ same_lines [pc_Context c] [l]).
Proof.
  intros Hne. unfold place_chunk.
  destruct (if String.eqb (pc_Context c) "" then _ else _) as [err|cur] eqn:Ec; [done|].
  assert (Hctx : cursor <= cur /\ (pc_Context c = "" \/
            exists k l, cursor <= k < cur /\ lines !! k = Some l /\ same_lines [pc_Context c] [l])).
  { destruct (String.eqb_spec (pc_Context c) ""); [injection Ec as <-; by auto|].
    destruct (seek lines [pc_Context c] cursor false) as [k|] eqn:Es; [|done]. injection Ec as <-.
    apply seek_spec in Es as (H1 & H2 & H3). cbn [length] in *. split; [lia|]. right.
    destruct (lines !! k) as [l|] eqn:El; [|apply lookup_ge_None in El; lia].
    exists k, l. split_and!; [lia|lia|done|].
    by rewrite (drop_S lines l k El) in H3. }
  clear Ec. destruct Hctx as [Hcur Hctx].
  assert (Hgo : forall old nw, old <> [] ->
    ((old = pc_Old c /\ nw = pc_New c) \/ drop_blank (pc_Old c) (pc_New c) = Some (old, nw)) ->
    forall at_, seek lines old cur (pc_EOF c) = Some at_ ->
    r = {| rp_at := at_; rp_n := length old; rp_with := nw |} -> cursor' = at_ + length old ->
    cursor <= rp_at r /\ cursor' = rp_at r + rp_n r /\ cursor' <= length lines /\
    replaces c (take (rp_n r) (drop (rp_at r) lines)) (rp_with r) /\
    (pc_Context c = "" \/ exists k l, cursor <= k < rp_at r /\ lines !! k = Some l /\ same_lines [pc_Context c] [l])).
  { intros old nw Ho Hcase at_ Hs -> ->. apply seek_spec in Hs as (H1 & H2 & H3). cbn [rp_at rp_n rp_with].
    split_and!; [lia|done|lia|by exists old|]. destruct Hctx as [|(k & l & Hk & Hl)]; [by left|]. right. exists k, l. split; [lia|done]. }
  destruct (pc_Old c) as [|o0 old0] eqn:Eo; [done|]. rewrite <- Eo in *.
  destruct (seek lines (pc_Old c) cur (pc_EOF c)) as [at_|] eqn:Es.
  { intros [= <- <-]. apply (Hgo (pc_Old c) (pc_New c)) with at_; auto. }
  destruct (drop_blank (pc_Old c) (pc_New c)) as [[old nw]|] eqn:Ed; [|done].
  destruct (seek lines old cur (pc_EOF c)) as [at_|] eqn:Es'; [|done].
  intros [= <- <-]. apply (Hgo old nw) with at_; auto. by eapply length_drop_blank.
Qed.

Lemma take_split {A} k a (l : list A) : k <= a -> take a l = take k l ++ drop k (take a l).
Proof. intros H. rewrite <- (take_drop k (take a l)) at 1. f_equal. rewrite take_take. f_equal. lia. Qed.

Lemma place_chunks_applied lines cursor ci cs rs :
  Forall (fun c => pc_Old c <> []) cs -> cursor <= length lines -> place_chunks lines cursor ci cs = inr rs ->
  exists out, apply_repls rs lines = Some (take cursor lines ++ out) /\ patched cs (drop cursor lines) out.
Proof.
  intros H. revert cursor ci rs. induction H as [|c cs Hc _ IH]; intros cursor ci rs Hcur; cbn [place_chunks].
  { intros [= <-]. exists (drop cursor lines). cbn. rewrite take_drop. split; [done|constructor]. }
  destruct (place_chunk lines cursor ci c) as [err|[r cursor']] eqn:Ep; [done|].
  apply place_chunk_spec in Ep as (H1 & -> & H3 & Hr & Hctx); [|done].
  destruct (place_chunks lines _ _ cs) as [err|rs'] eqn:Er; [done|]. apply IH in Er as (out & Ho & Hp); [|done].
  intros [= <-]. set (a := rp_at r) in *. set (n := rp_n r) in *.
  exists (drop cursor (take a lines) ++ rp_with r ++ out). split.
  - cbn [apply_repls]. rewrite Ho. cbn. unfold apply_repl. fold a n.
    assert (Hl : length (take (a + n) lines) = a + n) by (rewrite length_take; lia).
    rewrite length_app, Hl. destruct (Nat.ltb_spec (a + n + length out) (a + n)); [lia|]. f_equal.
    rewrite take_app_le, take_take, Nat.min_l by lia. rewrite drop_app_ge, Hl, Nat.sub_diag, drop_0 by lia.
    rewrite (app_assoc (take cursor lines)). f_equal. apply take_split. lia.
  - assert (Hsplit : drop cursor lines = drop cursor (take a lines) ++ take n (drop a lines) ++ drop (a + n) lines).
    { rewrite <- (take_drop a lines) at 1. rewrite drop_app_le by (rewrite length_take; lia). f_equal.
      rewrite <- (take_drop n (drop a lines)) at 1. by rewrite drop_drop. }
    rewrite Hsplit. constructor; [|done|done]. destruct Hctx as [|(k & l & Hk & Hl & Hs)]; [by left|]. right.
    exists l. split; [|done]. apply list_elem_of_lookup. exists (k - cursor).
    rewrite lookup_drop, lookup_take_lt by lia. by replace (cursor + (k - cursor)) with k by lia.
Qed.

(** *** A patch made from the file *)

(** Hunks whose lines are found where they came from: the first exact match
    after the previous hunk. *)
Inductive made_from : list patchChunk -> list string -> list string -> Prop :=
| made_nil ls : made_from [] ls ls
| made_cons c cs gap rest out :
    pc_Context c = "" -> pc_EOF c = false -> pc_Old c <> [] ->
    (forall i, i < length gap -> match_at (fun s => s) (gap ++ pc_Old c ++ rest) (pc_Old c) i = false) ->
    made_from cs rest out -> made_from (c :: cs) (gap ++ pc_Old c ++ rest) (gap ++ pc_New c ++ out).

Lemma find_seq_first (P : nat -> bool) start n i :
  start <= i < start + n -> P i = true -> (forall j, start <= j < i -> P j = false) -> List.find P (seq start n) = Some i.
Proof.
  revert start. induction n as [|n IH]; intros start Hi HP Hlt; [lia|]. cbn [seq List.find].
  destruct (decide (start = i)) as [->|Hne]; [by rewrite HP|]. rewrite Hlt by lia. apply IH; [lia|done|].
  intros j Hj. apply Hlt. lia.
Qed.

Lemma match_at_drop norm lines want k i : match_at norm (drop k lines) want i = match_at norm lines want (k + i).
Proof. unfold match_at. by rewrite drop_drop. Qed.

Lemma seek_first lines want cursor gap rest :
  cursor <= length lines -> drop cursor lines = gap ++ want ++ rest ->
  (forall i, i < length gap -> match_at (fun s => s) (gap ++ want ++ rest) want i = false) ->
  seek lines want cursor false = Some (cursor + length gap).
Proof.
  intros Hc Hd Hfirst. assert (Hlen : length lines = cursor + length gap + length want + length rest).
  { apply (f_equal length) in Hd. rewrite length_drop, !length_app in Hd. lia. }
  unfold seek. destruct (Nat.ltb_spec (length lines) (length want)); [lia|]. cbn [norms foldr].
  assert (seek_norm lines want cursor false (fun s => s) = Some (cursor + length gap)) as ->; [|done].
  unfold seek_norm. cbn [andb]. unfold scan_from. apply find_seq_first; [lia| |].
  - apply match_at_spec; [lia|]. rewrite <- drop_drop, Hd, drop_app_length, take_app_length.
    apply Forall2_same_length_lookup_2; [done|]. intros i x y H1 H2. congruence.
  - intros j Hj. replace j with (cursor + (j - cursor)) by lia. rewrite <- match_at_drop, Hd. apply Hfirst. lia.
Qed.

Lemma place_made_from lines cursor ci cs out :
  cursor <= length lines -> made_from cs (drop cursor lines) out ->
  exists rs, place_chunks lines cursor ci cs = inr rs /\ apply_repls rs lines = Some (take cursor lines ++ out).
Proof.
  intros Hc H. remember (drop cursor lines) as src eqn:Hsrc. revert cursor ci Hc Hsrc.
  induction H as [ls|c cs gap rest out Hctx Heof Hold Hfirst _ IH]; intros cursor ci Hc Hsrc.
  { exists []. split; [done|]. cbn. by rewrite Hsrc, take_drop. }
  pose proof (seek_first lines (pc_Old c) cursor gap rest Hc (eq_sym Hsrc) Hfirst) as Hs.
  assert (Hlen : length lines = cursor + length gap + length (pc_Old c) + length rest).
  { apply (f_equal length) in Hsrc. rewrite length_drop, !length_app in Hsrc. lia. }
  destruct (IH (cursor + length gap + length (pc_Old c)) (S ci)) as (rs & Hp & Ha); [lia| |].
  { by rewrite <- !drop_drop, <- Hsrc, !drop_app_length. }
  assert (Hpl : place_chunk lines cursor ci c
                = inr ({| rp_at := cursor + length gap; rp_n := length (pc_Old c); rp_with := pc_New c |},
                       cursor + length gap + length (pc_Old c))).
  { unfold place_chunk. rewrite Hctx. cbn. rewrite Heof. destruct (pc_Old c) eqn:Eo; [done|]. by rewrite Hs. }
  eexists. split; [cbn [place_chunks]; by rewrite Hpl, Hp|].
  cbn [apply_repls]. rewrite Ha. cbn. unfold apply_repl. cbn [rp_at rp_n rp_with].
  set (a := cursor + length gap) in *. set (n := length (pc_Old c)) in *.
  assert (Hl : length (take (a + n) lines) = a + n) by (rewrite length_take; lia).
  rewrite length_app, Hl. destruct (Nat.ltb_spec (a + n + length out) (a + n)); [lia|]. f_equal.
  rewrite take_app_le, take_take, Nat.min_l by lia. rewrite drop_app_ge, Hl, Nat.sub_diag, drop_0 by lia.
  rewrite (app_assoc (take cursor lines)). f_equal. rewrite (take_split cursor a lines) by lia. f_equal.
  rewrite skipn_firstn_comm. unfold a. replace (cursor + length gap - cursor) with (length gap) by lia.
  by rewrite <- Hsrc, take_app_length.
Qed.

(** Hunks apply exactly.  When every hunk replaces something, applying
    them never goes out of range, and on success the file and the result are
    the same gaps around the pieces the hunks match (line by line, under one
    of the three tolerances) and what they put there, in order, each after
    the line its header names.  Hunks made from the file, each the first
    exact match after the one before, always apply, and give the file they
    describe. *)
Theorem apply_chunks_exact src cs :
  Forall (fun c => pc_Old c <> []) cs ->
  (exists r, applyChunks src cs = Some r /\
     forall out, r = inr out -> exists ls, out = file_text ls /\ patched cs (file_lines src) ls) /\
  (forall ls, made_from cs (file_lines src) ls -> applyChunks src cs = Some (inr (file_text ls))).
Proof.
  intros Hold. unfold applyChunks. split.
  - destruct (place_chunks (file_lines src) 0 0 cs) as [err|rs] eqn:E; [by exists (inl err)|].
    apply place_chunks_applied in E as (out & -> & Hp); [|done|lia]. exists (inr (file_text out)). split; [done|].
    intros o [= <-]. by exists out.
  - intros ls Hm. destruct (place_made_from (file_lines src) 0 0 cs ls) as (rs & -> & Ha); [lia|done|]. by rewrite Ha.
Qed.

(** ** Concrete patches *)
Definition demo_hunk : hunk_script :=
  {| hs_context := ""; hs_ops := [Keep "b"; Del "c"; Add "C"; Add ""]; hs_eof := false |}.

Definition demo_sections : list section :=
  [SUpdate "x/a.go" "x/b.go" [demo_hunk; {| hs_context := "func f"; hs_ops := [Add "end"]; hs_eof := true |}];
   SAdd "new.txt" ["one"; "+two"]; SDelete "old.txt"].

Lemma patch_roundtrip_witness : parsePatch (render_patch demo_sections) = inr (map patch_of demo_sections).
Proof.
  apply patch_roundtrip; [discriminate|vm_compute; reflexivity|].
  by apply (bool_decide_unpack _).
Defined.

Definition demo_file : string := str_join newline ["a"; "b"; "c"; "d"; ""].

Lemma apply_chunks_exact_witness :
  applyChunks demo_file [chunk_of demo_hunk] = Some (inr (str_join newline ["a"; "b"; "C"; ""; "d"; ""])).
Proof.
  assert (Hold : Forall (fun c => pc_Old c <> []) [chunk_of demo_hunk]) by (constructor; [discriminate|constructor]).
  refine (proj2 (apply_chunks_exact demo_file [chunk_of demo_hunk] Hold) ["a"; "b"; "C"; ""; "d"] _).
  change (made_from [chunk_of demo_hunk] (["a"] ++ pc_Old (chunk_of demo_hunk) ++ ["d"]) (["a"] ++ pc_New (chunk_of demo_hunk) ++ ["d"])).
  apply made_cons; [reflexivity|reflexivity|discriminate| |constructor].
  intros i Hi. cbn [length] in Hi. assert (i = 0) as -> by lia. reflexivity.
Defined.

(** A hunk that only inserts is placed at the end of the file as it was, and
    the replacements are made from the last to the first: a later hunk that
    changes the number of lines moves the end before the insertion. *)
Definition insert_end : patchChunk := {| pc_Context := ""; pc_Old := []; pc_New := ["end"]; pc_EOF := false |}.

Lemma insertion_then_deletion_panics :
  applyChunks demo_file [insert_end; {| pc_Context := ""; pc_Old := ["a"; "b"]; pc_New := ["b"]; pc_EOF := false |}] = None.
Proof. vm_compute. reflexivity. Qed.

Lemma insertion_then_growth_misplaces :
  applyChunks demo_file [insert_end; {| pc_Context := ""; pc_Old := ["a"]; pc_New := ["a"; "1"]; pc_EOF := false |}]
  = Some (inr (str_join newline ["a"; "1"; "b"; "c"; "end"; "d"; ""])).
Proof. vm_compute. reflexivity. Qed.

(** A hunk anchored to the end of the file is applied elsewhere when the end
    does not match. *)
Lemma eof_hunk_applied_elsewhere :
  applyChunks demo_file [{| pc_Context := ""; pc_Old := ["a"]; pc_New := ["A"]; pc_EOF := true |}]
  = Some (inr (str_join newline ["A"; "b"; "c"; "d"; ""])).
Proof. vm_compute. reflexivity. Qed.
