(* ===== verification/Paths.v ===== *)
(** * File paths and a confined file tree

    The parts of path/filepath and of [os.Root] the file tools use, on a
    system with slashes.  A tree maps a root and a path inside it to a node.
    Every call of the file system may fail: the world carries the failures to
    come, and a call that fails changes nothing.  Directories are created
    when they are asked for and are not in the tree, and neither are the
    temporary files a write goes through. *)

From S2P Require Import Prelude GoStr Errors.

(** ** [filepath.Clean], [Rel], [Join], [Dir], [Base] *)
Fixpoint split_slash (s : string) : list string :=
  match s with
  | EmptyString => [""]
  | String c s' =>
      if Nat.eqb (code c) 47 then "" :: split_slash s'
      else match split_slash s' with
           | l :: ls => String c l :: ls
           | [] => [String c ""]
           end
  end.

Definition slash : string := "/".

Definition is_abs (p : string) : bool := has_prefix slash p.

(** One element of a path on the stack of those before it, innermost first. *)
Definition clean_elem (rooted : bool) (stack : list string) (e : string) : list string :=
  if String.eqb e "" || String.eqb e "." then stack
  else if String.eqb e ".." then
    match stack with
    | [] => if rooted then [] else [".."]
    | top :: below => if String.eqb top ".." then ".." :: stack else below
    end
  else e :: stack.

Definition clean_elems (p : string) : list string := rev (foldl (clean_elem (is_abs p)) [] (split_slash p)).

Definition path_of (rooted : bool) (es : list string) : string :=
  if rooted then slash +:+ str_join slash es
  else match es with [] => "." | _ => str_join slash es end.

Definition Clean (p : string) : string := path_of (is_abs p) (clean_elems p).

Fixpoint strip_common (base targ : list string) : list string * list string :=
  match base, targ with
  | b :: base', t :: targ' => if String.eqb b t then strip_common base' targ' else (base, targ)
  | _, _ => (base, targ)
  end.

(** [filepath.Rel] of two absolute paths. *)
Definition Rel (base targ : string) : string :=
  let '(up, down) := strip_common (clean_elems base) (clean_elems targ) in
  path_of false (map (fun _ => "..") up ++ down).

Definition Join (a b : string) : string := Clean (a +:+ slash +:+ b).

(** The directory and the last element of a clean path. *)
Definition Dir (p : string) : string := path_of (is_abs p) (removelast (clean_elems p)).

Definition Base (p : string) : string :=
  if String.eqb p "" then "."
  else match rev (List.filter (fun e => negb (String.eqb e "")) (split_slash p)) with [] => slash | e :: _ => e end.

Definition climbs (rel : string) : bool := String.eqb rel ".." || has_prefix "../" rel.

(** ** The tree *)
Record file := { f_content : string; f_mode : Z }.
Inductive node := NFile (f : file) | NOther (mode : Z).

Inductive os_error := ErrNotExist | ErrExist | OsError (msg : string).

Definition os_error_text (e : os_error) : string :=
  match e with ErrNotExist => "file does not exist" | ErrExist => "file already exists" | OsError msg => msg end.

(** A root and a path inside it. *)
Abbreviation key := (string * string)%type.
Abbreviation tree := (gmap key node).

(** A failure from outside; [Stat] never says that a file is missing which is
    there. *)
Inductive fault := FaultExist | FaultOther (msg : string).
Definition fault_error (e : fault) : os_error := match e with FaultExist => ErrExist | FaultOther msg => OsError msg end.

Record FS := { fs_tree : tree; fs_faults : list (option fault) }.

Definition fsm (A : Type) : Type := FS -> A * FS.
Definition fs_ret {A} (a : A) : fsm A := fun w => (a, w).
Definition fs_bind {A B} (m : fsm A) (k : A -> fsm B) : fsm B := fun w => let '(a, w) := m w in k a w.

Declare Scope fs_scope.
Delimit Scope fs_scope with fs.
Notation "'let!' x ':=' m 'in' k" := (fs_bind m (fun x => k))
  (at level 10, x pattern, m at level 100, k at level 200) : fs_scope.
Local Open Scope fs_scope.

(** A call of the file system: the failure that is due, or what it does. *)
Definition fs_call {A} (f : tree -> (os_error + A) * tree) : fsm (os_error + A) := fun w =>
  match fs_faults w with
  | Some err :: faults => (inl (fault_error err), {| fs_tree := fs_tree w; fs_faults := faults |})
  | faults =>
      let '(r, t) := f (fs_tree w) in (r, {| fs_tree := t; fs_faults := tail faults |})
  end.

(** [Stat]: whether the node is a regular file, and its mode. *)
Definition fs_Stat (k : key) : fsm (os_error + (bool * Z)) :=
  fs_call (fun t => (match t !! k with
                     | None => inl ErrNotExist
                     | Some (NFile f) => inr (true, f_mode f)
                     | Some (NOther m) => inr (false, m)
                     end, t)).

Definition fs_ReadFile (k : key) : fsm (os_error + string) :=
  fs_call (fun t => (match t !! k with
                     | None => inl ErrNotExist
                     | Some (NFile f) => inr (f_content f)
                     | Some (NOther _) => inl (OsError "is a directory")
                     end, t)).

Definition fs_Remove (k : key) : fsm (os_error + unit) :=
  fs_call (fun t => match t !! k with
                    | None => (inl ErrNotExist, t)
                    | Some (NFile _) => (inr tt, delete k t)
                    | Some (NOther _) => (inl (OsError "is a directory"), t)
                    end).

Definition fs_MkdirAll (k : key) : fsm (os_error + unit) := fs_call (fun t => (inr tt, t)).

(** A call on the temporary file: opening, writing, changing its mode,
    closing and removing it leave the tree alone. *)
Definition fs_temp : fsm (os_error + unit) := fs_call (fun t => (inr tt, t)).

(** Renaming the temporary file, with what was written to it, onto [k]. *)
Definition fs_RenameTemp (k : key) (f : file) : fsm (os_error + unit) :=
  fs_call (fun t => match t !! k with
                    | Some (NOther _) => (inl (OsError "is a directory"), t)
                    | _ => (inr tt, <[k := NFile f]> t)
                    end).

(** ** Reasoning about runs: what a run does to the tree *)
Definition does {A} (m : fsm A) (R : tree -> A -> tree -> Prop) : Prop :=
  forall w, R (fs_tree w) (m w).1 (fs_tree (m w).2).

Lemma does_ret {A} (a : A) (R : tree -> A -> tree -> Prop) : (forall t, R t a t) -> does (fs_ret a) R.
Proof. intros H w. apply H. Qed.

Lemma does_mono {A} (m : fsm A) (R R' : tree -> A -> tree -> Prop) :
  does m R -> (forall t a t', R t a t' -> R' t a t') -> does m R'.
Proof. intros H HR w. apply HR, H. Qed.

Lemma does_impl {A} {P : Prop} {m : fsm A} {R : tree -> A -> tree -> Prop} :
  (P -> does m R) -> does m (fun t a t' => P -> R t a t').
Proof. intros H w HP. by apply H. Qed.

Lemma does_bind {A B} (m : fsm A) (k : A -> fsm B) (R : tree -> A -> tree -> Prop) (S : tree -> B -> tree -> Prop) :
  does m R -> (forall t a, does (k a) (fun t1 b t2 => R t a t1 -> S t b t2)) -> does (fs_bind m k) S.
Proof.
  intros Hm Hk w. specialize (Hm w). unfold fs_bind. destruct (m w) as [a w1]. cbn in Hm.
  by apply (Hk (fs_tree w) a w1).
Qed.

Lemma does_call {A} (f : tree -> (os_error + A) * tree) (R : tree -> (os_error + A) -> tree -> Prop) :
  (forall t err, err <> ErrNotExist -> R t (inl err) t) -> (forall t, R t (f t).1 (f t).2) -> does (fs_call f) R.
Proof.
  intros Herr Hf w. unfold fs_call. destruct (fs_faults w) as [|[err|] faults]; cbn; [|by apply Herr; destruct err|];
    specialize (Hf (fs_tree w)); by destruct (f (fs_tree w)).
Qed.

Lemma fs_Stat_does k :
  does (fs_Stat k) (fun t r t' => t' = t /\
    match r with
    | inr (true, m) => exists f, t !! k = Some (NFile f) /\ m = f_mode f
    | inr (false, _) => exists m, t !! k = Some (NOther m)
    | inl ErrNotExist => t !! k = None
    | inl _ => True
    end).
Proof.
  apply does_call; [by intros t []|]. intros t. cbn. split; [done|]. destruct (t !! k) as [[f|m]|]; eauto.
Qed.

Lemma fs_ReadFile_does k :
  does (fs_ReadFile k) (fun t r t' => t' = t /\
    match r with inr c => exists f, t !! k = Some (NFile f) /\ f_content f = c | inl _ => True end).
Proof. apply does_call; [done|]. intros t. cbn. split; [done|]. destruct (t !! k) as [[f|m]|]; eauto. Qed.

Lemma fs_Remove_does k :
  does (fs_Remove k) (fun t r t' =>
    match r with inr _ => is_Some (t !! k) /\ t' = delete k t | inl _ => t' = t end).
Proof. apply does_call; [done|]. intros t. destruct (t !! k) as [[f|m]|] eqn:E; cbn; eauto. Qed.

Lemma fs_quiet_does : does fs_temp (fun t _ t' => t' = t).
Proof. by apply does_call. Qed.

Lemma fs_MkdirAll_does k : does (fs_MkdirAll k) (fun t _ t' => t' = t).
Proof. by apply does_call. Qed.

Lemma fs_RenameTemp_does k f :
  does (fs_RenameTemp k f) (fun t r t' => match r with inr _ => t' = <[k := NFile f]> t | inl _ => t' = t end).
Proof. apply does_call; [done|]. intros t. destruct (t !! k) as [[g|m]|]; done. Qed.

(** Runs of bound calls, one call at a time. *)
Ltac does_with H := eapply does_bind; [apply H|]; cbv beta; intros.
Ltac tidy := repeat match goal with H : _ /\ _ |- _ => destruct H | H : exists _, _ |- _ => destruct H end; subst.
Ltac does_done := apply does_ret; cbv beta; intros.

(** ** Clean paths *)
Definition no_slash (e : string) : bool := str_forall (fun c => negb (Nat.eqb (code c) 47)) e.

Definition normal (e : string) : Prop := e <> "" /\ e <> "." /\ e <> ".." /\ no_slash e = true.

Lemma split_slash_cons s : exists l ls, split_slash s = l :: ls.
Proof. destruct s as [|c s]; simpl; [eauto|]. case_match; [eauto|]. destruct (split_slash s); eauto. Qed.

Lemma split_slash_clean s : Forall (fun e => no_slash e = true) (split_slash s).
Proof.
  induction s as [|c s IH]; [by repeat constructor|]. simpl. destruct (Nat.eqb (code c) 47) eqn:Ec; [by constructor|].
  destruct (split_slash_cons s) as (l & ls & E). rewrite E in *. apply Forall_cons in IH as [Hl Hls].
  constructor; [|done]. unfold no_slash in *. simpl. by rewrite Ec, Hl.
Qed.

Lemma split_slash_app a b : split_slash (a +:+ slash +:+ b) = split_slash a ++ split_slash b.
Proof.
  induction a as [|c a IH]; [done|]. rewrite app_cons. simpl. rewrite IH. destruct (Nat.eqb (code c) 47); [done|].
  by destruct (split_slash_cons a) as (l & ls & ->).
Qed.

Lemma split_slash_elem e : no_slash e = true -> split_slash e = [e].
Proof.
  induction e as [|c e IH]; [done|]. unfold no_slash. simpl. rewrite andb_true_iff. intros [Hc He].
  rewrite IH by done. by destruct (Nat.eqb (code c) 47).
Qed.

Lemma split_join_slash es : es <> [] -> Forall (fun e => no_slash e = true) es -> split_slash (str_join slash es) = es.
Proof.
  induction es as [|e es IH]; [done|]. intros _ [He Hes]%Forall_cons. destruct es as [|e' es]; [by apply split_slash_elem|].
  change (str_join slash (e :: e' :: es)) with (e +:+ slash +:+ str_join slash (e' :: es)).
  rewrite split_slash_app, split_slash_elem by done. simpl. f_equal. by apply IH.
Qed.

Lemma clean_elem_normal rooted st e : normal e -> clean_elem rooted st e = e :: st.
Proof.
  intros (H1 & H2 & H3 & _). unfold clean_elem. apply String.eqb_neq in H1, H2, H3. by rewrite H1, H2, H3.
Qed.

Lemma clean_normals rooted st es : Forall normal es -> foldl (clean_elem rooted) st es = rev es ++ st.
Proof.
  intros H. revert st. induction H as [|e es He _ IH]; intros st; [done|]. cbn [foldl rev].
  rewrite clean_elem_normal, IH by done. by rewrite <- app_assoc.
Qed.

(** A cleaned stack: normal names above the climbs of a relative path. *)
Definition stack_ok (rooted : bool) (st : list string) : Prop :=
  exists ns n, st = ns ++ replicate n ".." /\ Forall normal ns /\ (rooted = true -> n = 0).

Lemma clean_elem_ok rooted st e : no_slash e = true -> stack_ok rooted st -> stack_ok rooted (clean_elem rooted st e).
Proof.
  intros He (ns & n & -> & Hns & Hr). unfold clean_elem.
  destruct (String.eqb_spec e "") as [->|H1]; [by exists ns, n|]. destruct (String.eqb_spec e ".") as [->|H2]; [by exists ns, n|].
  cbn [orb]. destruct (String.eqb_spec e "..") as [->|H3]; [|exists (e :: ns), n; split; [done|]; by split; [constructor|]].
  destruct ns as [|x ns].
  - cbn [app]. destruct n as [|n]; [destruct rooted; [by exists [], 0|]; by exists [], 1|].
    exists [], (S (S n)). split_and!; [done|constructor|]. intros Hr'. by specialize (Hr Hr').
  - cbn [app]. apply Forall_cons in Hns as [(_ & _ & Hx & _) Hns]. apply String.eqb_neq in Hx. rewrite Hx. by exists ns, n.
Qed.

Lemma clean_stack_ok rooted st es :
  Forall (fun e => no_slash e = true) es -> stack_ok rooted st -> stack_ok rooted (foldl (clean_elem rooted) st es).
Proof. intros H. revert st. induction H; intros st Hst; cbn [foldl]; [done|]. eauto using clean_elem_ok. Qed.

Lemma clean_elems_shape p :
  exists n ns, clean_elems p = replicate n ".." ++ ns /\ Forall normal ns /\ (is_abs p = true -> n = 0).
Proof.
  destruct (clean_stack_ok (is_abs p) [] (split_slash p) (split_slash_clean p)) as (ns & n & H & Hns & Hr).
  { by exists [], 0. }
  exists n, (rev ns). unfold clean_elems. rewrite H, rev_app_distr. split_and!; [|by apply Forall_rev|done].
  f_equal. clear. induction n as [|n IH]; [done|]. cbn. rewrite IH. symmetry. apply (replicate_cons_app n "..").
Qed.

Lemma clean_elems_abs p : is_abs p = true -> Forall normal (clean_elems p).
Proof. intros Ha. destruct (clean_elems_shape p) as (n & ns & -> & Hns & Hn). by rewrite Hn. Qed.

Lemma normals_no_slash es : Forall normal es -> Forall (fun e => no_slash e = true) es.
Proof. intros H. eapply Forall_impl; [exact H|]. by intros e (_ & _ & _ & ?). Qed.

(** Appending a relative path without climbs to a path. *)
Lemma clean_elems_join r down :
  is_abs r = true -> Forall normal down -> clean_elems (r +:+ slash +:+ path_of false down) = clean_elems r ++ down.
Proof.
  intros Ha Hd. unfold clean_elems. assert (is_abs (r +:+ slash +:+ path_of false down) = true) as ->.
  { destruct r; [done|]. exact Ha. }
  rewrite Ha, split_slash_app, foldl_app. destruct down as [|e es]; cbn [path_of].
  - cbn. by rewrite app_nil_r.
  - rewrite split_join_slash by (done || by apply normals_no_slash). rewrite clean_normals by done.
    by rewrite rev_app_distr, rev_involutive.
Qed.

Lemma join_abs r rel : is_abs r = true -> is_abs (r +:+ slash +:+ rel) = true.
Proof. by destruct r. Qed.

Lemma clean_elems_path es : Forall normal es -> clean_elems (path_of true es) = es.
Proof.
  intros Hn. unfold clean_elems. cbn [path_of]. change (is_abs (slash +:+ str_join slash es)) with true.
  change (slash +:+ str_join slash es) with ("" +:+ slash +:+ str_join slash es). rewrite split_slash_app. cbn [split_slash app foldl].
  change (clean_elem true [] "") with (@nil string). destruct es as [|e es]; [done|].
  rewrite split_join_slash by (done || by apply normals_no_slash).
  rewrite clean_normals by done. by rewrite app_nil_r, rev_involutive.
Qed.

Lemma clean_elems_clean p : is_abs p = true -> is_abs (Clean p) = true /\ clean_elems (Clean p) = clean_elems p.
Proof.
  intros Ha. unfold Clean. rewrite Ha. split; [done|]. apply clean_elems_path. by apply clean_elems_abs.
Qed.

Lemma strip_common_spec base targ up down :
  strip_common base targ = (up, down) -> exists common, base = common ++ up /\ targ = common ++ down.
Proof.
  revert targ. induction base as [|b base IH]; intros targ; cbn [strip_common]; [intros [= <- <-]; by exists []|].
  destruct targ as [|t targ]; [intros [= <- <-]; by exists []|].
  destruct (String.eqb_spec b t) as [->|]; [|intros [= <- <-]; by exists []].
  intros (common & -> & ->)%IH. by exists (t :: common).
Qed.

Lemma climbs_up es : climbs (path_of false (".." :: es)) = true.
Proof. unfold climbs. cbn [path_of]. destruct es as [|e es]; done. Qed.

Lemma rel_down r p : is_abs p = true -> climbs (Rel r (Clean p)) = false ->
  exists down, Rel r (Clean p) = path_of false down /\ Forall normal down /\ clean_elems p = clean_elems r ++ down.
Proof.
  intros Ha. unfold Rel. destruct (clean_elems_clean p Ha) as [_ ->].
  destruct (strip_common (clean_elems r) (clean_elems p)) as [up down] eqn:E.
  apply strip_common_spec in E as (common & Hr & Hp). destruct up as [|u up]; [|cbn [map app]; by rewrite climbs_up].
  intros _. exists down. cbn [map app]. rewrite app_nil_r in Hr. subst common. split_and!; [done| |done].
  pose proof (clean_elems_abs p Ha) as Hn. rewrite Hp in Hn. by apply Forall_app in Hn as [_ Hn].
Qed.

Lemma clean_elem_eq rooted st e :
  clean_elem rooted st e =
    (if String.eqb e "" || String.eqb e "." then st
     else if String.eqb e ".." then
       match st with
       | [] => if rooted then [] else [".."]
       | top :: below => if String.eqb top ".." then ".." :: st else below
       end
     else e :: st).
Proof. done. Qed.

(** A relative path that does not climb, appended to a path. *)
Lemma clean_over base es :
  Forall (fun e => no_slash e = true) es -> Forall normal (foldl (clean_elem false) [] es) ->
  foldl (clean_elem true) base es = foldl (clean_elem false) [] es ++ base.
Proof.
  induction es as [|e es IH] using rev_ind; [done|]. intros [Hes _]%Forall_app. rewrite !foldl_app. cbn [foldl].
  destruct (clean_stack_ok false [] es Hes) as (ns & n & Hst & Hns & _); [by exists [], 0|].
  set (st := foldl (clean_elem false) [] es) in *. rewrite !clean_elem_eq. intros H.
  destruct (String.eqb e "" || String.eqb e ".") eqn:E1; [by apply IH|].
  destruct (String.eqb_spec e "..") as [->|E2].
  - destruct st as [|x st0] eqn:E; [apply Forall_cons in H as [(_ & _ & H & _) _]; done|].
    destruct (String.eqb_spec x "..") as [->|Ex]; [apply Forall_cons in H as [(_ & _ & H & _) _]; done|].
    assert (Hx : normal x).
    { destruct ns as [|y ns]; [destruct n; by simplify_eq/=|]. simplify_eq/=. by apply Forall_cons in Hns as [? _]. }
    rewrite IH; [|done|by constructor]. cbn [app]. apply String.eqb_neq in Ex. by rewrite Ex.
  - apply Forall_cons in H as [_ H]. by rewrite IH.
Qed.

Lemma rel_shape p : is_abs p = false -> climbs (Clean p) = false ->
  Forall normal (clean_elems p) /\ Clean p = path_of false (clean_elems p).
Proof.
  intros Ha. unfold Clean. rewrite Ha. destruct (clean_elems_shape p) as (n & ns & -> & Hns & _).
  destruct n as [|n]; [by split|]. cbn [replicate app]. by rewrite climbs_up.
Qed.

Lemma clean_join_rel r p :
  is_abs r = true -> is_abs p = false -> Forall normal (clean_elems p) ->
  clean_elems (r +:+ slash +:+ p) = clean_elems r ++ clean_elems p.
Proof.
  intros Hr Hp Hn. unfold clean_elems in *. rewrite join_abs, Hr by done. rewrite Hp in *.
  rewrite split_slash_app, foldl_app. rewrite clean_over; [|apply split_slash_clean|].
  - by rewrite rev_app_distr.
  - apply Forall_rev in Hn. by rewrite rev_involutive in Hn.
Qed.

(** The first element of a path is what comes before its first slash. *)
Lemma prefix_elem e t : no_slash e = true -> has_prefix "../" (e +:+ slash +:+ t) = true -> e = "..".
Proof.
  intros He. rewrite has_prefix_spec. intros [u Hu].
  assert (H : split_slash (e +:+ slash +:+ t) = split_slash (".." +:+ slash +:+ u)) by (rewrite Hu; done).
  rewrite !split_slash_app, (split_slash_elem e), (split_slash_elem "..") in H by done. by injection H.
Qed.

Lemma no_slash_prefix e : no_slash e = true -> has_prefix "../" e = false.
Proof.
  intros He. apply not_true_iff_false. rewrite has_prefix_spec. intros [u ->]. discriminate He.
Qed.

Lemma normals_do_not_climb down : Forall normal down -> climbs (path_of false down) = false.
Proof.
  intros H. destruct H as [|e es (_ & _ & He & Hs) Hes]; [done|]. unfold climbs. apply orb_false_iff. cbn [path_of].
  destruct es as [|e' es].
  - cbn [str_join]. split; [by apply String.eqb_neq|by apply no_slash_prefix].
  - change (str_join slash (e :: e' :: es)) with (e +:+ slash +:+ str_join slash (e' :: es)). split.
    + apply String.eqb_neq. intros Heq. apply (f_equal split_slash) in Heq.
      rewrite split_slash_app, split_slash_elem in Heq by done.
      destruct (split_slash_cons (str_join slash (e' :: es))) as (l & ls & E). rewrite E in Heq. discriminate Heq.
    + apply not_true_iff_false. intros Hp. by apply prefix_elem in Hp.
Qed.

Lemma strip_common_prefix base down : strip_common base (base ++ down) = ([], down).
Proof. induction base as [|b base IH]; cbn; [done|]. by rewrite String.eqb_refl. Qed.

(** [Rel] does not climb exactly when the base is an ancestor. *)
Lemma rel_climbs_iff r p :
  is_abs p = true -> climbs (Rel r (Clean p)) = false <-> exists down, clean_elems p = clean_elems r ++ down.
Proof.
  intros Ha. split; [intros H; apply rel_down in H as (down & _ & _ & H); eauto|].
  intros [down H]. unfold Rel. destruct (clean_elems_clean p Ha) as [_ ->]. rewrite H, strip_common_prefix. cbn [map app].
  apply normals_do_not_climb. pose proof (clean_elems_abs p Ha) as Hn. rewrite H in Hn. by apply Forall_app in Hn as [_ ?].
Qed.
