(* ===== verification/Workspace.v ===== *)
(** * The file tools: src/ext/files/tools.go, src/ext/files/patchtool.go

    [Source] reads, edits, writes, deletes and patches the files under its
    roots.  A call runs over the tree of Paths.v, whose calls may fail at any
    point; nobody else writes to the tree while it runs.  SHA-256 is a
    parameter.  The structured contents of results repeat what their texts
    say and are left out, as are listing and searching. *)

From S2P Require Import Prelude GoStr Errors Provider Edit Patch Paths.
Local Open Scope fs_scope.
Local Open Scope Z_scope.

(** ** Arguments: decoded JSON, numbers by their integer part *)
Inductive value :=
| VNull
| VBool (b : bool)
| VNum (z : Z)
| VStr (s : string)
| VList (l : list value)
| VObj (fields : list (string * value)).

Abbreviation args := (gmap string value).

Definition field (name : string) (fields : list (string * value)) : option value :=
  snd <$> List.find (fun p => String.eqb (fst p) name) fields.

(** The empty string stands for an argument that is missing or no string. *)
Definition str_arg (a : args) (name : string) : string :=
  match a !! name with Some (VStr s) => s | _ => "" end.

Definition intArg (a : args) (name : string) : option Z :=
  match a !! name with Some (VNum z) => Some z | _ => None end.

Definition text_result (text : string) (is_error : bool) : ToolResult :=
  {| tr_Content := [{| c_Type := "text"; c_Text := text |}]; tr_IsError := is_error; tr_StructuredContent := None |}.

Definition toolError (msg : string) : ToolResult := text_result msg true.

(** ** The source *)
Record Source := { src_primary : string; src_more : list string; src_tools : list string }.

Definition src_roots (s : Source) : list string := src_primary s :: src_more s.

Definition PatchTool : string := "apply_patch".

(** The definitions by their names. *)
Definition tool_names : list string := ["read_file"; "edit_file"; "write_file"; "delete_file"; "list_files"; "search_files"].

Definition wanted_tools (want : option (list string)) : result (list string) :=
  match want with
  | None => inr ["edit_file"; PatchTool]
  | Some want =>
      match List.find (fun t => negb (String.eqb t "edit_file") && negb (String.eqb t PatchTool)) want with
      | Some t => inl (EText ("files: EditTools " +:+ go_quote t +:+ ", want edit_file or " +:+ PatchTool))
      | None => match want with [] => inl (EText "files: EditTools is empty; leave it nil for both") | _ => inr want end
      end
  end.

Definition editToolDefs (want : option (list string)) : result (list string) :=
  match wanted_tools want with
  | inl err => inl err
  | inr offer =>
      inr (flat_map (fun d =>
        if String.eqb d "edit_file"
        then (if str_mem "edit_file" offer then [d] else []) ++ (if str_mem PatchTool offer then [PatchTool] else [])
        else [d]) tool_names)
  end.

Section NewSource.
(** [filepath.Abs] and [os.OpenRoot]. *)
Variables (abs : string -> result string) (open_root : string -> result unit).

Definition open_one (r : string) : result string :=
  if String.eqb r "" then inl (EText "files: Config.Roots contains an empty path")
  else match abs r with
       | inl err => inl (wrap_error ("files: resolve root " +:+ r +:+ ": ") err)
       | inr p => match open_root p with
                  | inl err => inl (wrap_error ("files: open root " +:+ r +:+ ": ") err)
                  | inr _ => inr p
                  end
       end.

Fixpoint open_roots (rs : list string) : result (list string) :=
  match rs with
  | [] => inr []
  | r :: rs => match open_one r with
               | inl err => inl err
               | inr p => match open_roots rs with inl err => inl err | inr ps => inr (p :: ps) end
               end
  end.

Definition NewSource (roots : list string) (want : option (list string)) : result Source :=
  match roots with
  | [] => inl (EText "files: Config.Roots needs at least one directory")
  | _ =>
      match open_roots roots with
      | inl err => inl err
      | inr [] => inl (EText "")
      | inr (p :: ps) =>
          match editToolDefs want with
          | inl err => inl err
          | inr tools => inr {| src_primary := p; src_more := ps; src_tools := tools |}
          end
      end
  end.
End NewSource.

(** ** Paths *)
Definition outside (path : string) : error := EText ("refusing " +:+ path +:+ ": outside every workspace root").

Definition resolve (s : Source) (path : string) : result key :=
  if String.eqb path "" then inl (EText "empty path")
  else if is_abs path then
    match List.find (fun r => negb (climbs (Rel r (Clean path)))) (src_roots s) with
    | Some r => inr (r, Rel r (Clean path))
    | None => inl (outside path)
    end
  else
    let rel := Clean path in
    if climbs rel then inl (outside path) else inr (src_primary s, rel).

Definition abs_path (k : key) : string := Join (fst k) (snd k).

Definition escapeMessage (path : string) (err : os_error) : string :=
  if str_contains (os_error_text err) "escapes from parent" then error_text (outside path)
  else "cannot access " +:+ path +:+ ": " +:+ os_error_text err.

(** ** Writing through the root *)

(** At most ten retries after names that are taken. *)
Fixpoint open_temp (retries : nat) : fsm (os_error + unit) :=
  let! r := fs_temp in
  match r, retries with
  | inl ErrExist, S retries => open_temp retries
  | r, _ => fs_ret r
  end.

Definition write_temp (k : key) (f : file) : fsm (os_error + unit) :=
  let! r := fs_temp in
  match r with
  | inl err => let! _ := fs_temp in fs_ret (inl err)
  | inr _ =>
      let! r := fs_temp in
      match r with
      | inl err => let! _ := fs_temp in fs_ret (inl err)
      | inr _ =>
          let! r := fs_temp in
          match r with
          | inl err => fs_ret (inl err)
          | inr _ => fs_RenameTemp k f
          end
      end
  end.

Definition writeThroughRoot (k : key) (content : string) (mode : Z) : fsm (os_error + unit) :=
  let! r := open_temp 10 in
  match r with
  | inl err => fs_ret (inl err)
  | inr _ =>
      let! r := write_temp k {| f_content := content; f_mode := mode |} in
      let! _ := fs_temp in
      fs_ret r
  end.

Definition mkdirFor (k : key) : fsm (os_error + unit) :=
  let dir := Dir (snd k) in
  if String.eqb dir "." then fs_ret (inr tt) else fs_MkdirAll (fst k, dir).

(** ** Reading *)
Definition split_after_lines (content : string) : list string :=
  let ls := split_lines content in
  let lines := map (fun l => l +:+ newline) (removelast ls) ++ [List.last ls ""] in
  if String.eqb (List.last lines "") "" then removelast lines else lines.

Definition lineRange (a : args) (total : Z) : option (Z * Z) :=
  match intArg a "start_line", intArg a "end_line" with
  | None, None => None
  | s, e =>
      let start := match s with Some s => if 1 <? s then s else 1 | None => 1 end in
      let stop := match e with Some e => if e <? total then e else total | None => total end in
      let stop := if stop <? start then start else stop in
      Some (start, if total <? stop then total else stop)
  end.

Definition nl2 : string := newline +:+ newline.

Section Tools.
Variable sha256 : string -> string.
Abbreviation hash := (Hash sha256).

Definition read_reply (path shown content : string) (a : args) : ToolResult :=
  let lines := split_after_lines content in
  let total := Z.of_nat (length lines) in
  match lineRange a total with
  | None => text_result ("path: " +:+ shown +:+ newline +:+ "hash: " +:+ hash content +:+ newline +:+ "lines: "
                         +:+ itoa total +:+ nl2 +:+ content) false
  | Some (start, stop) =>
      if total <? start
      then toolError ("start_line " +:+ itoa start +:+ " is past the end of " +:+ path +:+ ", which has "
                      +:+ itoa total +:+ " lines")
      else
        let part := str_concat (take (Z.to_nat (stop - (start - 1))) (drop (Z.to_nat (start - 1)) lines)) in
        text_result ("path: " +:+ shown +:+ newline +:+ "hash: " +:+ hash content +:+ " (whole file)" +:+ newline
                     +:+ "lines: " +:+ itoa start +:+ "-" +:+ itoa stop +:+ " of " +:+ itoa total +:+ nl2 +:+ part) false
  end.

Definition read_file (s : Source) (a : args) : fsm ToolResult :=
  let path := str_arg a "path" in
  if String.eqb path "" then fs_ret (toolError "read_file needs a path")
  else match resolve s path with
       | inl err => fs_ret (toolError (error_text err))
       | inr k =>
           let! r := fs_ReadFile k in
           fs_ret (match r with
                   | inl err => toolError (escapeMessage path err)
                   | inr content => read_reply path (abs_path k) content a
                   end)
       end.

(** ** Editing *)
Definition parse_hunk_arg (i : nat) (item : value) : result hunk :=
  let at_ := "edit " +:+ itoa (Z.of_nat i) in
  match item with
  | VObj fields =>
      match field "old" fields with
      | Some (VStr old) =>
          match field "new" fields with
          | Some (VStr nw) => inr {| h_Old := old; h_New := nw |}
          | None | Some VNull => inr {| h_Old := old; h_New := "" |}
          | Some _ => inl (EText (at_ +:+ " has a non-string `new`"))
          end
      | _ => inl (EText (at_ +:+ " has no `old` string"))
      end
  | _ => inl (EText (at_ +:+ " is not an object"))
  end.

Fixpoint parse_hunk_args (i : nat) (l : list value) : result (list hunk) :=
  match l with
  | [] => inr []
  | item :: l =>
      match parse_hunk_arg i item with
      | inl err => inl err
      | inr h => match parse_hunk_args (S i) l with inl err => inl err | inr hs => inr (h :: hs) end
      end
  end.

Definition parseHunks (raw : option value) : result (list hunk) :=
  match raw with
  | Some (VList ((_ :: _) as l)) => parse_hunk_args 0 l
  | _ => inl (EText "edit_file needs a non-empty edits array")
  end.

Definition edit_file (s : Source) (a : args) : fsm ToolResult :=
  let path := str_arg a "path" in
  let expect := str_arg a "expect_hash" in
  if String.eqb path "" then fs_ret (toolError "edit_file needs a path")
  else if String.eqb expect ""
  then fs_ret (toolError "edit_file needs expect_hash; read the file first and pass the hash it returned")
  else match parseHunks (a !! "edits"), resolve s path with
       | inl err, _ | inr _, inl err => fs_ret (toolError (error_text err))
       | inr hunks, inr k =>
           let! r := fs_Stat k in
           match r with
           | inl err => fs_ret (toolError (escapeMessage path err))
           | inr (_, mode) =>
               let! r := fs_ReadFile k in
               match r with
               | inl err => fs_ret (toolError (escapeMessage path err))
               | inr b =>
                   match edit_Apply sha256 {| e_ExpectHash := expect; e_Hunks := hunks |} b with
                   | inl err => fs_ret (toolError (path +:+ ": " +:+ edit_error_text err))
                   | inr out =>
                       let! r := writeThroughRoot k out mode in
                       fs_ret (match r with
                               | inl err => toolError ("cannot write " +:+ path +:+ ": " +:+ os_error_text err)
                               | inr _ => text_result ("edited " +:+ abs_path k +:+ ", " +:+ itoa (Z.of_nat (length hunks))
                                            +:+ " edit(s) applied" +:+ newline +:+ "hash: " +:+ hash out) false
                               end)
                   end
               end
           end
       end.

(** ** Writing whole files, and deleting *)
Definition stale (path expect got what : string) : ToolResult :=
  toolError (path +:+ ": file changed since it was read: expected " +:+ expect +:+ ", found " +:+ got
             +:+ "; re-read it before " +:+ what).

(** What the file there says about a write: a refusal, or the mode to write
    with and whether the file is new. *)
Definition write_check (path expect : string) (k : key) : fsm (ToolResult + (Z * bool)) :=
  let! st := fs_Stat k in
  match st with
  | inr (false, _) => fs_ret (inl (toolError ("refusing " +:+ path +:+ ": it is not a regular file")))
  | inr (true, mode) =>
      if String.eqb expect "" then
        fs_ret (inl (toolError ("refusing " +:+ path +:+ ": it already exists. Read it first and pass expect_hash to "
                                +:+ "replace it, or use edit_file to change part of it.")))
      else
        let! r := fs_ReadFile k in
        fs_ret (match r with
                | inl err => inl (toolError (escapeMessage path err))
                | inr b => if String.eqb (hash b) expect then inr (mode, false)
                           else inl (stale path expect (hash b) "writing")
                end)
  | inl ErrNotExist =>
      fs_ret (if String.eqb expect "" then inr (420, true)
              else inl (toolError ("refusing " +:+ path +:+ ": expect_hash was given but the file does not exist. "
                                   +:+ "Omit it to create the file.")))
  | inl err => fs_ret (inl (toolError (escapeMessage path err)))
  end.

Definition write_file (s : Source) (a : args) : fsm ToolResult :=
  let path := str_arg a "path" in
  if String.eqb path "" then fs_ret (toolError "write_file needs a path")
  else match a !! "content" with
       | Some (VStr content) =>
           match resolve s path with
           | inl err => fs_ret (toolError (error_text err))
           | inr k =>
               let! c := write_check path (str_arg a "expect_hash") k in
               match c with
               | inl refusal => fs_ret refusal
               | inr (mode, created) =>
                   let! r := (if created : bool then mkdirFor k else fs_ret (inr tt)) in
                   match r with
                   | inl err => fs_ret (toolError (escapeMessage path err))
                   | inr _ =>
                       let! r := writeThroughRoot k content mode in
                       fs_ret (match r with
                               | inl err => toolError ("cannot write " +:+ path +:+ ": " +:+ os_error_text err)
                               | inr _ => text_result ((if created then "created " else "replaced ") +:+ abs_path k +:+ ", "
                                            +:+ itoa (Z.of_nat (String.length content)) +:+ " byte(s)" +:+ newline
                                            +:+ "hash: " +:+ hash content) false
                               end)
                   end
               end
           end
       | _ => fs_ret (toolError "write_file needs content (pass an empty string to write an empty file)")
       end.

Definition delete_file (s : Source) (a : args) : fsm ToolResult :=
  let path := str_arg a "path" in
  let expect := str_arg a "expect_hash" in
  if String.eqb path "" then fs_ret (toolError "delete_file needs a path")
  else if String.eqb expect ""
  then fs_ret (toolError "delete_file needs expect_hash; read the file first and pass the hash it returned")
  else match resolve s path with
       | inl err => fs_ret (toolError (error_text err))
       | inr k =>
           let! st := fs_Stat k in
           match st with
           | inl ErrNotExist => fs_ret (toolError ("cannot delete " +:+ path +:+ ": it does not exist"))
           | inl err => fs_ret (toolError (escapeMessage path err))
           | inr (false, _) => fs_ret (toolError ("refusing " +:+ path +:+ ": it is not a regular file"))
           | inr (true, _) =>
               let! r := fs_ReadFile k in
               match r with
               | inl err => fs_ret (toolError (escapeMessage path err))
               | inr b =>
                   if negb (String.eqb (hash b) expect) then fs_ret (stale path expect (hash b) "deleting")
                   else
                     let! r := fs_Remove k in
                     fs_ret (match r with
                             | inl err => toolError ("cannot delete " +:+ path +:+ ": " +:+ os_error_text err)
                             | inr _ => text_result ("deleted " +:+ abs_path k +:+ ", "
                                          +:+ itoa (Z.of_nat (String.length b)) +:+ " byte(s)") false
                             end)
               end
           end
       end.

(** ** Patches *)
Record patchOp := {
  po_fp : filePatch;
  po_key : key;
  po_mode : Z;
  po_had : bool;
  po_old : string;
  po_nw : string;
  po_to : option key;
}.

Definition kind_error (verb path why : string) : error := EText ("can't " +:+ verb +:+ " " +:+ path +:+ ": " +:+ why).

(** The file's state before the patch: its content and mode, if it is there. *)
Definition plan_state (path : string) (k : key) : fsm (result (option (string * Z))) :=
  let! st := fs_Stat k in
  match st with
  | inr (false, _) => fs_ret (inl (EText (path +:+ " is not a regular file")))
  | inr (true, mode) =>
      let! r := fs_ReadFile k in
      fs_ret (match r with
              | inl err => inl (EText (escapeMessage path err))
              | inr b => inr (Some (b, mode))
              end)
  | inl ErrNotExist => fs_ret (inr None)
  | inl err => fs_ret (inl (EText (escapeMessage path err)))
  end.

(** The new text of an updated file.  A panic of [applyChunks] ends the call. *)
Definition plan_text (fp : filePatch) (old : string) : option (result string) :=
  match fp_Chunks fp with
  | [] => Some (inr old)
  | cs => r ← applyChunks old cs;
          Some (match r with inl err => inl (EText (fp_Path fp +:+ ": " +:+ error_text err)) | inr nw => inr nw end)
  end.

Definition plan_move (s : Source) (fp : filePatch) : fsm (result (option key)) :=
  if String.eqb (fp_MoveTo fp) "" then fs_ret (inr None)
  else match resolve s (fp_MoveTo fp) with
       | inl err => fs_ret (inl err)
       | inr to =>
           let! st := fs_Stat to in
           fs_ret (match st with
                   | inr _ => inl (kind_error "move" (fp_Path fp +:+ " to " +:+ fp_MoveTo fp) "the target exists")
                   | inl ErrNotExist => inr (Some to)
                   | inl err => inl (EText (escapeMessage (fp_MoveTo fp) err))
                   end)
       end.

Definition planned (fp : filePatch) (k : key) (st : option (string * Z)) (nw : string) (to : option key) : patchOp :=
  {| po_fp := fp; po_key := k; po_mode := match st with Some (_, m) => m | None => 420 end;
     po_had := match st with Some _ => true | None => false end;
     po_old := match st with Some (b, _) => b | None => "" end; po_nw := nw; po_to := to |}.

Definition plan_op (s : Source) (fp : filePatch) : fsm (option (result patchOp)) :=
  match resolve s (fp_Path fp) with
  | inl err => fs_ret (Some (inl err))
  | inr k =>
      let! st := plan_state (fp_Path fp) k in
      match st with
      | inl err => fs_ret (Some (inl err))
      | inr st =>
          match fp_Kind fp, st with
          | kindAdd, Some _ =>
              fs_ret (Some (inl (kind_error "add" (fp_Path fp) "it already exists; use *** Update File to change it")))
          | kindAdd, None => fs_ret (Some (inr (planned fp k st (fp_Content fp) None)))
          | kindDelete, None => fs_ret (Some (inl (kind_error "delete" (fp_Path fp) "it doesn't exist")))
          | kindDelete, Some _ => fs_ret (Some (inr (planned fp k st "" None)))
          | kindUpdate, None =>
              fs_ret (Some (inl (kind_error "update" (fp_Path fp) "it doesn't exist; use *** Add File to create it")))
          | kindUpdate, Some (b, _) =>
              match plan_text fp b with
              | None => fs_ret None
              | Some (inl err) => fs_ret (Some (inl err))
              | Some (inr nw) =>
                  let! to := plan_move s fp in
                  fs_ret (Some (match to with inl err => inl err | inr to => inr (planned fp k st nw to) end))
              end
          end
      end
  end.

Fixpoint planPatch (s : Source) (fps : list filePatch) : fsm (option (result (list patchOp))) :=
  match fps with
  | [] => fs_ret (Some (inr []))
  | fp :: fps =>
      let! r := plan_op s fp in
      match r with
      | None => fs_ret None
      | Some (inl err) => fs_ret (Some (inl err))
      | Some (inr op) =>
          let! r := planPatch s fps in
          fs_ret (match r with
                  | Some (inr ops) => Some (inr (op :: ops))
                  | r => r
                  end)
      end
  end.

(** What takes back a change, newest first. *)
Inductive undo_action := Restore (k : key) (content : string) (mode : Z) | RemoveFile (k : key).

Definition undo_one (u : undo_action) : fsm (os_error + unit) :=
  match u with Restore k content mode => writeThroughRoot k content mode | RemoveFile k => fs_Remove k end.

Fixpoint undo_all (us : list undo_action) : fsm (list string) :=
  match us with
  | [] => fs_ret []
  | u :: us =>
      let! r := undo_one u in
      let! bad := undo_all us in
      fs_ret (match r with inl err => os_error_text err :: bad | inr _ => bad end)
  end.

(** A failed commit: why, and what could not be put back. *)
Record commit_failure := { cf_why : string; cf_bad : list string }.

Definition commit_fail {A} (us : list undo_action) (why : string) : fsm (commit_failure + A) :=
  let! bad := undo_all us in
  fs_ret (inl {| cf_why := why; cf_bad := bad |}).

Definition failure_text (f : commit_failure) : string :=
  match cf_bad f with
  | [] => cf_why f +:+ ". The files already changed were put back"
  | bad => cf_why f +:+ ", and putting back the files already changed failed too: " +:+ str_join "; " bad
  end.

Definition why_text (what : string) (err : os_error) : string := "can't " +:+ what +:+ ": " +:+ os_error_text err.

Definition restore_op (op : patchOp) : undo_action := Restore (po_key op) (po_old op) (po_mode op).

(** One planned change; [us] grows by what takes it back. *)
Definition commit_delete (op : patchOp) (us : list undo_action) : fsm (commit_failure + list undo_action) :=
  let! r := fs_Remove (po_key op) in
  match r with
  | inl err => commit_fail us (why_text ("delete " +:+ fp_Path (po_fp op)) err)
  | inr _ => fs_ret (inr (restore_op op :: us))
  end.

Definition commit_move (op : patchOp) (to : key) (us : list undo_action) : fsm (commit_failure + list undo_action) :=
  let path := fp_Path (po_fp op) in
  let target := fp_MoveTo (po_fp op) in
  let! r := mkdirFor to in
  match r with
  | inl err => commit_fail us (why_text ("move " +:+ path +:+ " to " +:+ target) err)
  | inr _ =>
      let! r := writeThroughRoot to (po_nw op) (po_mode op) in
      match r with
      | inl err => commit_fail us (why_text ("write " +:+ target) err)
      | inr _ =>
          let us := RemoveFile to :: us in
          let! r := fs_Remove (po_key op) in
          match r with
          | inl err => commit_fail us (why_text ("remove " +:+ path +:+ " after moving it") err)
          | inr _ => fs_ret (inr (restore_op op :: us))
          end
      end
  end.

Definition commit_write (op : patchOp) (us : list undo_action) : fsm (commit_failure + list undo_action) :=
  let path := fp_Path (po_fp op) in
  let! r := (if po_had op then fs_ret (inr tt) else mkdirFor (po_key op)) in
  match r with
  | inl err => commit_fail us (why_text ("create " +:+ path) err)
  | inr _ =>
      let! r := writeThroughRoot (po_key op) (po_nw op) (po_mode op) in
      match r with
      | inl err => commit_fail us (why_text ("write " +:+ path) err)
      | inr _ => fs_ret (inr ((if po_had op then restore_op op else RemoveFile (po_key op)) :: us))
      end
  end.

Definition commit_op (op : patchOp) (us : list undo_action) : fsm (commit_failure + list undo_action) :=
  match fp_Kind (po_fp op), po_to op with
  | kindDelete, _ => commit_delete op us
  | _, Some to => commit_move op to us
  | _, None => commit_write op us
  end.

Fixpoint commit_ops (ops : list patchOp) (us : list undo_action) : fsm (commit_failure + unit) :=
  match ops with
  | [] => fs_ret (inr tt)
  | op :: ops =>
      let! r := commit_op op us in
      match r with
      | inl f => fs_ret (inl f)
      | inr us => commit_ops ops us
      end
  end.

Definition commitPatch (ops : list patchOp) : fsm (commit_failure + unit) := commit_ops ops [].

Definition applied_line (op : patchOp) : string :=
  match fp_Kind (po_fp op), po_to op with
  | kindAdd, _ => "A " +:+ abs_path (po_key op) +:+ " (hash: " +:+ hash (po_nw op) +:+ ")"
  | kindDelete, _ => "D " +:+ abs_path (po_key op)
  | kindUpdate, Some to => "R " +:+ abs_path to +:+ " (hash: " +:+ hash (po_nw op) +:+ ")"
  | kindUpdate, None => "M " +:+ abs_path (po_key op) +:+ " (hash: " +:+ hash (po_nw op) +:+ ")"
  end.

(** How a patch call ends. *)
Inductive patch_outcome :=
| PatchRefused (why : string)
| PatchFailed (f : commit_failure)
| PatchApplied (ops : list patchOp).

Definition run_patch (s : Source) (a : args) : fsm (option patch_outcome) :=
  let text := str_arg a "input" in
  if String.eqb (trim_space text) ""
  then fs_ret (Some (PatchRefused "apply_patch needs input: the patch, from *** Begin Patch to *** End Patch"))
  else match parsePatch text with
       | inl err => fs_ret (Some (PatchRefused ("apply_patch: " +:+ error_text err)))
       | inr fps =>
           let! p := planPatch s fps in
           match p with
           | None => fs_ret None
           | Some (inl err) =>
               fs_ret (Some (PatchRefused ("apply_patch: " +:+ error_text err +:+ ". No file was changed.")))
           | Some (inr ops) =>
               let! r := commitPatch ops in
               fs_ret (Some (match r with inl f => PatchFailed f | inr _ => PatchApplied ops end))
           end
       end.

Definition outcome_result (o : patch_outcome) : ToolResult :=
  match o with
  | PatchRefused why => toolError why
  | PatchFailed f => toolError ("apply_patch: " +:+ failure_text f)
  | PatchApplied ops => text_result (str_join newline ("Patch applied:" :: map applied_line ops)) false
  end.

Definition applyPatch (s : Source) (a : args) : fsm (option ToolResult) :=
  let! o := run_patch s a in fs_ret (outcome_result <$> o).

(** The paths a patch call would touch. *)
Fixpoint resolve_all (s : Source) (paths : list string) : option (list string) :=
  match paths with
  | [] => Some []
  | p :: paths =>
      match resolve s p with
      | inl _ => None
      | inr k => rest ← resolve_all s paths; Some (abs_path k :: rest)
      end
  end.

Definition patchPaths (s : Source) (a : args) : list string :=
  match parsePatch (str_arg a "input") with
  | inl _ => []
  | inr fps =>
      default [] (resolve_all s (List.filter (fun p => negb (String.eqb p ""))
                                             (flat_map (fun fp => [fp_Path fp; fp_MoveTo fp]) fps)))
  end.

Definition PathArg (a : args) : list string :=
  let p := str_arg a "path" in if String.eqb p "" then [] else [p].

Section Call.
(** [list_files] and [search_files]. *)
Variables (list_files search_files : Source -> args -> fsm ToolResult).

(** [None] is a panic. *)
Definition files_Call (s : Source) (name : string) (a : args) : fsm (option (result ToolResult)) :=
  let ok (m : fsm ToolResult) : fsm (option (result ToolResult)) := let! r := m in fs_ret (Some (inr r)) in
  if String.eqb name "read_file" then ok (read_file s a)
  else if String.eqb name "edit_file" then ok (edit_file s a)
  else if String.eqb name PatchTool then let! r := applyPatch s a in fs_ret (inr <$> r)
  else if String.eqb name "write_file" then ok (write_file s a)
  else if String.eqb name "delete_file" then ok (delete_file s a)
  else if String.eqb name "list_files" then ok (list_files s a)
  else if String.eqb name "search_files" then ok (search_files s a)
  else fs_ret (Some (inl (EText ("files: unknown tool " +:+ go_quote name)))).
End Call.
End Tools.

(** ** What runs do to the tree *)

Lemma open_temp_does n : does (open_temp n) (fun t _ t' => t' = t).
Proof.
  induction n as [|n IH]; cbn [open_temp]; does_with fs_quiet_does; destruct a as [[| |]|];
    try (by does_done); (eapply does_mono; [apply IH|]); by intros ? ? ? -> ->.
Qed.

Lemma write_temp_does k f :
  does (write_temp k f) (fun t r t' => match r with inr _ => t' = <[k := NFile f]> t | inl _ => t' = t end).
Proof.
  unfold write_temp. does_with fs_quiet_does. destruct a; [does_with fs_quiet_does; does_done; congruence|].
  does_with fs_quiet_does. destruct a; [does_with fs_quiet_does; does_done; congruence|].
  does_with fs_quiet_does. destruct a; [does_done; congruence|].
  eapply does_mono; [apply fs_RenameTemp_does|]. cbv beta. intros ? [] ? ? ? ? ?; congruence.
Qed.

Lemma writeThroughRoot_does k content mode :
  does (writeThroughRoot k content mode) (fun t r t' =>
    match r with inr _ => t' = <[k := NFile {| f_content := content; f_mode := mode |}]> t | inl _ => t' = t end).
Proof.
  unfold writeThroughRoot. does_with open_temp_does. destruct a as [err|]; [by does_done|].
  does_with write_temp_does. does_with fs_quiet_does. does_done. destruct a as [|]; congruence.
Qed.

Lemma mkdirFor_does k : does (mkdirFor k) (fun t _ t' => t' = t).
Proof. unfold mkdirFor. case_match; [by does_done|]. apply fs_MkdirAll_does. Qed.

(** ** Confinement *)

(** The path a name stands for: as it is, or under the first root. *)
Definition target (s : Source) (p : string) : string := if is_abs p then Clean p else Join (src_primary s) p.

Lemma Clean_ext a b : is_abs a = true -> is_abs b = true -> clean_elems a = clean_elems b -> Clean a = Clean b.
Proof. intros Ha Hb H. unfold Clean. by rewrite Ha, Hb, H. Qed.

(** C30: Names cannot leave the roots.  A name resolves to a path below one of
    the roots: the file meant is that root followed by ordinary names, and it
    is the very file the name stands for.  An absolute name is refused
    exactly when no root is above it. *)
Theorem resolve_confined s p :
  Forall (fun r => is_abs r = true) (src_roots s) ->
  (forall k, resolve s p = inr k ->
     fst k ∈ src_roots s /\ abs_path k = target s p /\
     exists down, Forall normal down /\ snd k = path_of false down /\
       clean_elems (target s p) = clean_elems (fst k) ++ down) /\
  (is_abs p = true ->
     (exists k, resolve s p = inr k) <-> exists r down, r ∈ src_roots s /\ clean_elems p = clean_elems r ++ down).
Proof.
  intros Hroots. rewrite Forall_forall in Hroots.
  assert (Hne : is_abs p = true -> String.eqb p "" = false) by (by destruct p).
  split.
  - intros k. unfold resolve, target. destruct (String.eqb p ""); [done|]. destruct (is_abs p) eqn:Ha.
    + destruct (List.find _ _) as [r|] eqn:Ef; [|done]. intros [= <-]. cbn [fst snd]. unfold abs_path. cbn [fst snd].
      apply find_some in Ef as [Hin%list_elem_of_In Hc%negb_true_iff]. pose proof (Hroots r Hin) as Hr.
      destruct (rel_down r p Ha Hc) as (down & Hrel & Hn & He). destruct (clean_elems_clean p Ha) as [_ Hcl].
      split; [done|]. rewrite Hrel. split; [|exists down; split_and!; try done; by rewrite Hcl].
      apply Clean_ext; [by apply join_abs|done|]. by rewrite clean_elems_join, He.
    + destruct (climbs (Clean p)) eqn:Ec; [done|]. intros [= <-]. cbn [fst snd]. unfold abs_path. cbn [fst snd].
      assert (src_primary s ∈ src_roots s) as Hin by (unfold src_roots; set_solver).
      pose proof (Hroots _ Hin) as Hr. destruct (rel_shape p Ha Ec) as [Hn Hcl]. split; [done|].
      assert (He : clean_elems (src_primary s +:+ slash +:+ p) = clean_elems (src_primary s) ++ clean_elems p)
        by (by apply clean_join_rel).
      split.
      * apply Clean_ext; [by apply join_abs..|]. rewrite Hcl, clean_elems_join by done. by rewrite He.
      * exists (clean_elems p). split_and!; [done..|]. unfold Join.
        destruct (clean_elems_clean (src_primary s +:+ slash +:+ p)) as [_ ->]; [by apply join_abs|done].
  - intros Ha. unfold resolve. rewrite (Hne Ha), Ha. split.
    + intros [k Hk]. destruct (List.find _ _) as [r|] eqn:Ef; [|done].
      apply find_some in Ef as [Hin%list_elem_of_In Hc%negb_true_iff].
      apply rel_climbs_iff in Hc as [down Hd]; [|done]. by exists r, down.
    + intros (r & down & Hin & Hd). destruct (List.find _ _) as [r'|] eqn:Ef; [by eexists|].
      apply list_elem_of_In in Hin. apply (find_none _ _ Ef) in Hin. apply negb_false_iff in Hin.
      assert (climbs (Rel r (Clean p)) = false) as Hc; [|congruence]. apply rel_climbs_iff; [done|]. by exists down.
Qed.

Section ToolProps.
Variable sha256 : string -> string.
Abbreviation hash := (Hash sha256).

(** A run that refuses and changes nothing, or succeeds and changes the tree
    as [P] says. *)
Definition refuses_or (P : tree -> tree -> Prop) (t : tree) (r : ToolResult) (t' : tree) : Prop :=
  (tr_IsError r = true /\ t' = t) \/ (tr_IsError r = false /\ P t t').

Lemma refuses_error P t t' msg : t' = t -> refuses_or P t (toolError msg) t'.
Proof. by left. Qed.

Definition edited (s : Source) (a : args) (t t' : tree) : Prop :=
  exists k f hunks out,
    resolve s (str_arg a "path") = inr k /\ t !! k = Some (NFile f) /\ str_arg a "expect_hash" <> "" /\
    hash (f_content f) = str_arg a "expect_hash" /\ parseHunks (a !! "edits") = inr hunks /\
    edit_Apply sha256 {| e_ExpectHash := str_arg a "expect_hash"; e_Hunks := hunks |} (f_content f) = inr out /\
    t' = <[k := NFile {| f_content := out; f_mode := f_mode f |}]> t.

Lemma edit_agrees expect hunks b out :
  expect <> "" -> edit_Apply sha256 {| e_ExpectHash := expect; e_Hunks := hunks |} b = inr out -> hash b = expect.
Proof. intros Hne (Hh & _)%edit_Apply_inr. destruct Hh as [Hh|Hh]; [by cbn in Hh|exact Hh]. Qed.

Lemma edit_file_does s a : does (edit_file sha256 s a) (refuses_or (edited s a)).
Proof.
  unfold edit_file. destruct (String.eqb _ ""); [does_done; by apply refuses_error|].
  destruct (String.eqb_spec (str_arg a "expect_hash") "") as [|He]; [does_done; by apply refuses_error|].
  destruct (parseHunks (a !! "edits")) as [err|hunks] eqn:Eh; [does_done; by apply refuses_error|].
  destruct (resolve s _) as [err|k] eqn:Er; [does_done; by apply refuses_error|].
  does_with fs_Stat_does. destruct a0 as [err|[reg mode]]; [does_done; apply refuses_error; naive_solver|].
  does_with fs_ReadFile_does. destruct a0 as [err|b]; [does_done; apply refuses_error; naive_solver|].
  destruct (edit_Apply sha256 _ b) as [err|out] eqn:Ea; [does_done; apply refuses_error; naive_solver|].
  does_with writeThroughRoot_does. does_done. destruct a0 as [err|]; [apply refuses_error; naive_solver|].
  right. split; [done|]. tidy. destruct reg; tidy; simplify_eq.
  do 4 eexists. split_and!; try done. by eapply edit_agrees.
Qed.

Definition written (s : Source) (a : args) (t t' : tree) : Prop :=
  exists k content mode,
    resolve s (str_arg a "path") = inr k /\ a !! "content" = Some (VStr content) /\
    t' = <[k := NFile {| f_content := content; f_mode := mode |}]> t /\
    ((str_arg a "expect_hash" = "" /\ t !! k = None /\ mode = 420) \/
     (str_arg a "expect_hash" <> "" /\ exists f, t !! k = Some (NFile f) /\
        hash (f_content f) = str_arg a "expect_hash" /\ mode = f_mode f)).

Lemma write_check_does path expect k :
  does (write_check sha256 path expect k) (fun t r t' => t' = t /\
    match r with
    | inl e => tr_IsError e = true
    | inr (mode, true) => expect = "" /\ t !! k = None /\ mode = 420
    | inr (mode, false) => expect <> "" /\ exists f, t !! k = Some (NFile f) /\ hash (f_content f) = expect /\ mode = f_mode f
    end).
Proof.
  unfold write_check. does_with fs_Stat_does. destruct a as [[]|[[] mode]]; try (does_done; by tidy).
  - destruct (String.eqb_spec expect ""); does_done; by tidy.
  - destruct (String.eqb_spec expect "") as [|Hne]; [does_done; by tidy|].
    does_with fs_ReadFile_does. does_done. destruct a as [err|b]; [by tidy|].
    destruct (String.eqb_spec (hash b) expect); tidy; simplify_eq; split; eauto.
Qed.

Lemma write_file_does s a : does (write_file sha256 s a) (refuses_or (written s a)).
Proof.
  unfold write_file. destruct (String.eqb _ ""); [does_done; by apply refuses_error|].
  destruct (a !! "content") as [[]|] eqn:Ec; try (does_done; by apply refuses_error).
  destruct (resolve s _) as [err|k] eqn:Er; [does_done; by apply refuses_error|].
  does_with write_check_does. destruct a0 as [refusal|[mode created]]; [does_done; left; by tidy|].
  eapply (does_bind _ _ (fun t _ t' => t' = t)); [destruct created; [apply mkdirFor_does|by does_done]|]. cbv beta. intros.
  destruct a0 as [err|]; [does_done; apply refuses_error; by tidy|].
  does_with writeThroughRoot_does. does_done. destruct a0 as [err|]; [apply refuses_error; by tidy|].
  right. split; [done|]. tidy. exists k, s0, mode. split_and!; try done. destruct created; [by left|by right].
Qed.

Definition deleted (s : Source) (a : args) (t t' : tree) : Prop :=
  exists k f, resolve s (str_arg a "path") = inr k /\ t !! k = Some (NFile f) /\ str_arg a "expect_hash" <> "" /\
    hash (f_content f) = str_arg a "expect_hash" /\ t' = delete k t.

Lemma delete_file_does s a : does (delete_file sha256 s a) (refuses_or (deleted s a)).
Proof.
  unfold delete_file. destruct (String.eqb _ ""); [does_done; by apply refuses_error|].
  destruct (String.eqb_spec (str_arg a "expect_hash") "") as [|He]; [does_done; by apply refuses_error|].
  destruct (resolve s _) as [err|k] eqn:Er; [does_done; by apply refuses_error|].
  does_with fs_Stat_does. destruct a0 as [[]|[[] mode]]; try (does_done; apply refuses_error; by tidy).
  does_with fs_ReadFile_does. destruct a0 as [err|b]; [does_done; apply refuses_error; by tidy|].
  destruct (String.eqb_spec (hash b) (str_arg a "expect_hash")) as [Hh|]; cbn [negb];
    [|does_done; apply refuses_error; by tidy].
  does_with fs_Remove_does. does_done. destruct a0 as [err|]; [apply refuses_error; by tidy|].
  right. split; [done|]. tidy. simplify_eq. by do 2 eexists.
Qed.

Lemma read_file_does s a :
  does (read_file sha256 s a) (fun t r t' => t' = t /\
    (tr_IsError r = false -> exists k f, resolve s (str_arg a "path") = inr k /\ t !! k = Some (NFile f) /\
       r = read_reply sha256 (str_arg a "path") (abs_path k) (f_content f) a)).
Proof.
  unfold read_file. destruct (String.eqb _ ""); [by does_done|].
  destruct (resolve s _) as [err|k] eqn:Er; [by does_done|].
  does_with fs_ReadFile_does. does_done. tidy. split; [done|]. destruct a0 as [err|b]; [done|]. tidy. eauto.
Qed.

(** C29: The tools change only what the model has seen.  Whatever fails on the
    way, reading changes nothing, and each writing tool either reports an
    error and leaves the tree as it was, or changes exactly the file its path
    names: an edit and a replacement to the text asked for, under the same
    mode, a deletion by removing it, and each only when the file's content
    has the hash the call carries; without a hash a write only creates. *)
Theorem tools_guarded s a :
  does (read_file sha256 s a) (fun t r t' => t' = t) /\
  does (edit_file sha256 s a) (refuses_or (edited s a)) /\
  does (write_file sha256 s a) (refuses_or (written s a)) /\
  does (delete_file sha256 s a) (refuses_or (deleted s a)).
Proof.
  split_and!; [|apply edit_file_does|apply write_file_does|apply delete_file_does].
  eapply does_mono; [apply read_file_does|]. by intros ? ? ? [? _].
Qed.

(** ** Patches: planning *)
Definition op_planned (s : Source) (t : tree) (fp : filePatch) (op : patchOp) : Prop :=
  po_fp op = fp /\ resolve s (fp_Path fp) = inr (po_key op) /\
  t !! po_key op = (if po_had op then Some (NFile {| f_content := po_old op; f_mode := po_mode op |}) else None) /\
  match fp_Kind fp with
  | kindAdd => po_had op = false /\ po_nw op = fp_Content fp /\ po_to op = None
  | kindDelete => po_had op = true /\ po_to op = None
  | kindUpdate => po_had op = true /\ plan_text fp (po_old op) = Some (inr (po_nw op)) /\
      match po_to op with
      | None => fp_MoveTo fp = ""
      | Some to => resolve s (fp_MoveTo fp) = inr to /\ t !! to = None
      end
  end.

Lemma plan_state_does path k :
  does (plan_state path k) (fun t r t' => t' = t /\
    match r with
    | inl _ => True
    | inr None => t !! k = None
    | inr (Some (b, m)) => t !! k = Some (NFile {| f_content := b; f_mode := m |})
    end).
Proof.
  unfold plan_state. does_with fs_Stat_does. destruct a as [[]|[[] mode]]; try (does_done; by tidy).
  does_with fs_ReadFile_does. does_done. tidy. destruct a as [err|b]; [done|]. tidy. simplify_eq. split; [done|].
  match goal with f : file |- _ => by destruct f end.
Qed.

Lemma plan_move_does s fp :
  does (plan_move s fp) (fun t r t' => t' = t /\
    match r with
    | inl _ => True
    | inr None => fp_MoveTo fp = ""
    | inr (Some to) => resolve s (fp_MoveTo fp) = inr to /\ t !! to = None
    end).
Proof.
  unfold plan_move. destruct (String.eqb_spec (fp_MoveTo fp) ""); [by does_done|].
  destruct (resolve s _) as [err|to]; [by does_done|].
  does_with fs_Stat_does. does_done. tidy. by destruct a as [[]|[[] ?]].
Qed.

Lemma plan_op_does s fp :
  does (plan_op s fp) (fun t r t' => t' = t /\ match r with Some (inr op) => op_planned s t fp op | _ => True end).
Proof.
  unfold plan_op. destruct (resolve s (fp_Path fp)) as [err|k] eqn:Er; [by does_done|].
  does_with plan_state_does. destruct a as [err|st]; [does_done; by tidy|].
  destruct (fp_Kind fp) eqn:Ek, st as [[b m]|]; try (does_done; by tidy).
  - does_done. tidy. split; [done|]. unfold op_planned. cbn. rewrite Ek. by split_and!.
  - does_done. tidy. split; [done|]. unfold op_planned. cbn. rewrite Ek. by split_and!.
  - destruct (plan_text fp b) as [[err|nw]|] eqn:Ep; try (does_done; by tidy).
    does_with plan_move_does. does_done. tidy. split; [done|]. destruct a as [err|to]; [done|].
    unfold op_planned. cbn. rewrite Ek. by split_and!.
Qed.

Lemma planPatch_does s fps :
  does (planPatch s fps) (fun t r t' => t' = t /\ match r with Some (inr ops) => Forall2 (op_planned s t) fps ops | _ => True end).
Proof.
  induction fps as [|fp fps IH]; cbn [planPatch]; [does_done; by split|].
  does_with plan_op_does. destruct a as [[err|op]|]; try (does_done; by tidy).
  does_with IH. does_done. tidy. split; [done|]. destruct a as [[err|ops]|]; try done. by constructor.
Qed.

(** ** Patches: committing and rolling back *)
Definition undo_effect (t : tree) (u : undo_action) : tree :=
  match u with
  | Restore k content mode => <[k := NFile {| f_content := content; f_mode := mode |}]> t
  | RemoveFile k => delete k t
  end.

Definition undoes (us : list undo_action) (t t0 : tree) : Prop := foldl undo_effect t us = t0.

Lemma undo_all_does us :
  does (undo_all us) (fun t bad t' => bad = [] -> t' = foldl undo_effect t us).
Proof.
  induction us as [|u us IH]; cbn [undo_all foldl]; [by does_done|].
  eapply (does_bind _ _ (fun t r t' => match r with inr _ => t' = undo_effect t u | inl _ => True end)).
  - destruct u as [k c m|k]; cbn [undo_one undo_effect]; (eapply does_mono; [apply writeThroughRoot_does || apply fs_Remove_does|]);
      intros ? [] ? H; by tidy.
  - cbv beta. intros t r. does_with IH. does_done. destruct r as [err|]; [done|]. naive_solver.
Qed.

Lemma put_put (k : key) (x y : option node) (t : tree) :
  partial_alter (fun _ => x) k (partial_alter (fun _ => y) k t) = partial_alter (fun _ => x) k t.
Proof. apply partial_alter_partial_alter_eq. Qed.

(** Writing back what was there does not change what taking back gives. *)
Lemma undoes_put us t t0 k :
  undoes us t t0 -> undoes us (partial_alter (fun _ => t0 !! k) k t) t0.
Proof.
  unfold undoes. revert t. induction us as [|u us IH]; intros t; cbn [foldl].
  - intros ->. apply partial_alter_self.
  - intros H. assert (Hset : exists j v, forall t, undo_effect t u = partial_alter (fun _ => v) j t).
    { destruct u as [j c m|j]; cbn; [exists j, (Some (NFile {| f_content := c; f_mode := m |}))|exists j, None]; done. }
    destruct Hset as (j & v & Hset). rewrite Hset in *. destruct (decide (j = k)) as [->|Hne].
    + by rewrite put_put.
    + rewrite partial_alter_partial_alter_ne by done. by apply IH.
Qed.

(** What a planned change does, and where. *)
Definition op_effect (t : tree) (op : patchOp) : tree :=
  let new := NFile {| f_content := po_nw op; f_mode := po_mode op |} in
  match fp_Kind (po_fp op), po_to op with
  | kindDelete, _ => delete (po_key op) t
  | _, Some to => delete (po_key op) (<[to := new]> t)
  | _, None => <[po_key op := new]> t
  end.

Definition op_keys (op : patchOp) : list key := po_key op :: match po_to op with Some to => [to] | None => [] end.

Lemma commit_fail_does {A} us why t0 :
  does (commit_fail (A := A) us why) (fun t r t' =>
    match r with inl f => undoes us t t0 -> cf_bad f = [] -> t' = t0 | inr _ => False end).
Proof. unfold commit_fail. does_with undo_all_does. does_done. unfold undoes in *. cbn in *. naive_solver. Qed.

Definition op_restorable (t0 : tree) (op : patchOp) : Prop :=
  t0 !! po_key op = (if po_had op then Some (NFile {| f_content := po_old op; f_mode := po_mode op |}) else None) /\
  match fp_Kind (po_fp op), po_to op with
  | kindDelete, _ => po_had op = true
  | _, Some to => po_had op = true /\ t0 !! to = None
  | _, None => True
  end.

Lemma op_planned_restorable s t0 fp op : op_planned s t0 fp op -> op_restorable t0 op.
Proof.
  unfold op_planned, op_restorable. intros (-> & _ & Hk & Hkind). split; [done|].
  destruct (fp_Kind fp), (po_to op); naive_solver.
Qed.

(** Taking back one more change that put [x] where [t0] has its own node. *)
Lemma undoes_cons us t t0 u k x :
  (forall t, undo_effect t u = partial_alter (fun _ => t0 !! k) k t) ->
  undoes us t t0 -> undoes (u :: us) (partial_alter (fun _ => x) k t) t0.
Proof.
  intros Hu H. unfold undoes. cbn [foldl]. rewrite Hu, put_put. by apply (undoes_put us t t0 k).
Qed.

Lemma undo_restore t0 op :
  op_restorable t0 op -> po_had op = true ->
  forall t, undo_effect t (restore_op op) = partial_alter (fun _ => t0 !! po_key op) (po_key op) t.
Proof. intros [Hk _] Hh t. by rewrite Hk, Hh. Qed.

Lemma undo_remove (t0 : tree) k : t0 !! k = None -> forall t, undo_effect t (RemoveFile k) = partial_alter (fun _ => t0 !! k) k t.
Proof. by intros -> t. Qed.

Definition commit_step (t0 : tree) (op : patchOp) (us : list undo_action) (t : tree)
    (r : commit_failure + list undo_action) (t' : tree) : Prop :=
  undoes us t t0 ->
  match r with
  | inl f => cf_bad f = [] -> t' = t0
  | inr us' => t' = op_effect t op /\ undoes us' t' t0
  end.

Lemma fail_step t0 op us us0 t why :
  does (commit_fail us0 why) (fun ta r t' => (undoes us t t0 -> undoes us0 ta t0) -> commit_step t0 op us t r t').
Proof.
  eapply does_mono; [apply commit_fail_does|]. cbv beta. intros ta [f|] t' H Hu; [|done]. unfold commit_step. eauto.
Qed.

(** A step that failed: what was done so far can be taken back. *)
Ltac fail_with := eapply does_mono; [apply fail_step|]; cbv beta; intros ? ? ? Hstep; intros; apply Hstep; tidy; auto.

Section Step.
Variables (t0 : tree) (op : patchOp) (us : list undo_action).
Hypothesis Hr : op_restorable t0 op.

Lemma commit_delete_does :
  fp_Kind (po_fp op) = kindDelete -> does (commit_delete op us) (commit_step t0 op us).
Proof.
  intros Hk. assert (Hhad : po_had op = true) by (destruct Hr as [_ H]; by rewrite Hk in H).
  unfold commit_delete. does_with fs_Remove_does. destruct a as [err|]; [fail_with|].
  does_done. intros Hu. tidy. unfold op_effect. rewrite Hk. split; [done|].
  apply undoes_cons with (k := po_key op) (x := None); [by apply undo_restore|done].
Qed.

Lemma commit_move_does to :
  po_to op = Some to -> fp_Kind (po_fp op) <> kindDelete -> does (commit_move op to us) (commit_step t0 op us).
Proof.
  intros Hto Hk. assert (Hm : po_had op = true /\ t0 !! to = None).
  { destruct Hr as [_ H]. rewrite Hto in H. by destruct (fp_Kind (po_fp op)). }
  destruct Hm as [Hhad Hnone]. set (new := NFile {| f_content := po_nw op; f_mode := po_mode op |}).
  assert (Hput : forall t, undoes us t t0 -> undoes (RemoveFile to :: us) (<[to := new]> t) t0).
  { intros t H. apply undoes_cons with (k := to) (x := Some new); [by apply undo_remove|done]. }
  unfold commit_move. cbv zeta. does_with mkdirFor_does. destruct a as [err|]; [fail_with|].
  does_with writeThroughRoot_does. destruct a as [err|]; [fail_with|].
  does_with fs_Remove_does. destruct a as [err|]; [fail_with|].
  does_done. intros Hu. tidy. unfold op_effect. rewrite Hto. split; [by destruct (fp_Kind (po_fp op))|].
  apply undoes_cons with (k := po_key op) (x := None); [by apply undo_restore|by apply Hput].
Qed.

Lemma commit_write_does :
  po_to op = None -> fp_Kind (po_fp op) <> kindDelete -> does (commit_write op us) (commit_step t0 op us).
Proof.
  intros Hto Hk. unfold commit_write. cbv zeta.
  eapply (does_bind _ _ (fun t _ t' => t' = t)); [destruct (po_had op); [by does_done|apply mkdirFor_does]|]. cbv beta. intros.
  destruct a as [err|]; [fail_with|]. does_with writeThroughRoot_does. destruct a as [err|]; [fail_with|].
  does_done. intros Hu. tidy. unfold op_effect. rewrite Hto. split; [by destruct (fp_Kind (po_fp op))|].
  set (new := NFile _). apply undoes_cons with (k := po_key op) (x := Some new); [|done].
  destruct (po_had op) eqn:Hhad; [by apply undo_restore|]. apply undo_remove. destruct Hr as [H _]. by rewrite Hhad in H.
Qed.

Lemma commit_op_does : does (commit_op op us) (commit_step t0 op us).
Proof.
  unfold commit_op. destruct (fp_Kind (po_fp op)) eqn:Hk; [|by apply commit_delete_does|];
    (destruct (po_to op) eqn:Hto; [apply commit_move_does|apply commit_write_does]; congruence).
Qed.
End Step.

Lemma commit_ops_does t0 ops us :
  Forall (op_restorable t0) ops ->
  does (commit_ops ops us) (fun t r t' => undoes us t t0 ->
    match r with inl f => cf_bad f = [] -> t' = t0 | inr _ => t' = foldl op_effect t ops end).
Proof.
  intros H. revert us. induction H as [|op ops Hop _ IH]; intros us; cbn [commit_ops foldl]; [by does_done|].
  does_with (commit_op_does t0 op us Hop). destruct a as [f|us'].
  - does_done. tidy. auto.
  - eapply does_mono; [apply IH|]. cbv beta. intros t1 r t' Hr Hstep Hu. destruct (Hstep Hu) as [-> Hu']. by apply Hr.
Qed.

Definition op_done (op : patchOp) (t : tree) : Prop :=
  let new := NFile {| f_content := po_nw op; f_mode := po_mode op |} in
  match fp_Kind (po_fp op), po_to op with
  | kindDelete, _ => t !! po_key op = None
  | _, Some to => t !! po_key op = None /\ t !! to = Some new
  | _, None => t !! po_key op = Some new
  end.

Lemma op_effect_other op t k : k ∉ op_keys op -> op_effect t op !! k = t !! k.
Proof.
  unfold op_effect, op_keys. intros Hk. destruct (fp_Kind (po_fp op)), (po_to op);
    rewrite ?not_elem_of_cons in Hk; tidy; rewrite ?lookup_delete_ne, ?lookup_insert_ne by congruence; done.
Qed.

Lemma op_effect_done op t : NoDup (op_keys op) -> op_done op (op_effect t op).
Proof.
  unfold op_effect, op_done, op_keys. intros Hnd. destruct (po_to op) as [to|].
  - assert (po_key op <> to) by (apply NoDup_cons in Hnd as [Hnd _]; set_solver).
    destruct (fp_Kind (po_fp op)); try split; rewrite ?lookup_delete_eq, ?lookup_delete_ne, ?lookup_insert_eq by done; done.
  - destruct (fp_Kind (po_fp op)); by rewrite ?lookup_delete_eq, ?lookup_insert_eq.
Qed.

Lemma effects_other ops t k : k ∉ flat_map op_keys ops -> foldl op_effect t ops !! k = t !! k.
Proof.
  revert t. induction ops as [|op ops IH]; intros t; [done|]. cbn [flat_map foldl].
  intros [Hop Hops]%not_elem_of_app. rewrite IH by done. by apply op_effect_other.
Qed.

Lemma op_done_ext op t t' : (forall k, k ∈ op_keys op -> t !! k = t' !! k) -> op_done op t -> op_done op t'.
Proof.
  unfold op_done, op_keys. intros H. rewrite <- (H (po_key op)) by set_solver.
  destruct (po_to op) as [to|]; [rewrite <- (H to) by set_solver|]; done.
Qed.

Lemma effects_done ops t op : NoDup (flat_map op_keys ops) -> op ∈ ops -> op_done op (foldl op_effect t ops).
Proof.
  revert t. induction ops as [|op' ops IH]; intros t Hnd Hin; [by apply elem_of_nil in Hin|].
  cbn [flat_map foldl] in *. apply NoDup_app in Hnd as (Hnd & Hdis & Hnds).
  apply elem_of_cons in Hin as [->|Hin]; [|by apply IH].
  eapply op_done_ext; [|by apply op_effect_done]. intros k Hk. symmetry. apply effects_other. by apply Hdis.
Qed.

(** C22: A patch is applied completely or not at all.  Whatever fails on the
    way, a refused patch (one that does not parse, names a path outside the
    roots, finds a file in the wrong state, or has a hunk that does not
    match) leaves the tree as it was, and so does one that fails while it is
    written, as long as taking back did not fail too, which the outcome says.
    An applied patch was planned in full against the tree as it was; then no
    other file changes, and when its files are different files each is what
    its section says. *)
Theorem patch_all_or_nothing s a :
  does (run_patch s a) (fun t r t' =>
    match r with
    | None | Some (PatchRefused _) => t' = t
    | Some (PatchFailed f) => cf_bad f = [] -> t' = t
    | Some (PatchApplied ops) =>
        exists fps, parsePatch (str_arg a "input") = inr fps /\ Forall2 (op_planned s t) fps ops /\
          (forall k, k ∉ flat_map op_keys ops -> t' !! k = t !! k) /\
          (NoDup (flat_map op_keys ops) -> Forall (fun op => op_done op t') ops)
    end).
Proof.
  unfold run_patch. cbv zeta. destruct (String.eqb _ ""); [by does_done|].
  destruct (parsePatch (str_arg a "input")) as [err|fps] eqn:Ep; [by does_done|].
  does_with planPatch_does. destruct a0 as [[err|ops]|]; try (does_done; by tidy).
  does_with (does_impl (commit_ops_does t ops [])). does_done. tidy.
  match goal with H : Forall2 _ fps ops |- _ => rename H into Hplan end.
  assert (Hres : Forall (op_restorable t) ops).
  { clear -Hplan. induction Hplan; constructor; [by eapply op_planned_restorable|done]. }
  match goal with H : Forall _ ops -> _ |- _ => specialize (H Hres eq_refl) end.
  destruct a0 as [f|]; [done|]. subst. exists fps. split_and!; [done..| |].
  - intros k. apply effects_other.
  - intros Hnd. apply Forall_forall. intros op Hop. by apply effects_done.
Qed.
End ToolProps.

(** ** Concrete calls *)
Definition demo_source_at : Source := {| src_primary := "/work/api"; src_more := ["/work/web"]; src_tools := [] |}.

Lemma resolve_confined_witness :
  resolve demo_source_at "/work/web/src/../a.ts" = inr ("/work/web", "a.ts") /\
  abs_path ("/work/web", "a.ts") = target demo_source_at "/work/web/src/../a.ts".
Proof.
  split; [reflexivity|].
  refine (proj1 (proj2 (proj1 (resolve_confined demo_source_at "/work/web/src/../a.ts" _) ("/work/web", "a.ts") eq_refl))).
  repeat constructor.
Defined.

(** Climbing out is refused, also by a name that looks like a sibling. *)
Example resolve_refuses :
  (is_Some (match resolve demo_source_at "src/../../web/a.ts" with inl _ => Some tt | _ => None end)) /\
  (is_Some (match resolve demo_source_at "/work/api2/a.ts" with inl _ => Some tt | _ => None end)).
Proof. vm_compute. eauto. Qed.

Definition demo_tree : tree :=
  {[ ("/work/api", "a.go") := NFile {| f_content := "one" +:+ newline +:+ "two" +:+ newline; f_mode := 420 |};
     ("/work/api", "b.go") := NFile {| f_content := "b" +:+ newline; f_mode := 420 |} ]}.

Definition update_line (path old nw : string) : section :=
  SUpdate path "" [{| hs_context := ""; hs_ops := [Del old; Add nw]; hs_eof := false |}].

Definition patch_args (ss : list section) : args := {[ "input" := VStr (render_patch ss) ]}.

Definition patch_run (ss : list section) (faults : list (option fault)) : option ToolResult * FS :=
  applyPatch demo_sha demo_source_at (patch_args ss) {| fs_tree := demo_tree; fs_faults := faults |}.

(** A failure at the last rename: the first file is put back. *)
Example patch_put_back :
  let r := patch_run [update_line "a.go" "one" "1"; update_line "b.go" "b" "B"]
                     (replicate 14 None ++ [Some (FaultOther "disk full")]) in
  (tr_IsError <$> fst r) = Some true /\ fs_tree (snd r) = demo_tree.
Proof. vm_compute. done. Qed.

(** Two spellings of one path pass for two files: both sections are planned
    against the file as it was, the second undoes the first, and the call
    reports both as applied. *)
Lemma respelled_path_loses_update :
  let r := patch_run [update_line "a.go" "one" "1"; update_line "./a.go" "two" "2"] [] in
  (tr_IsError <$> fst r) = Some false /\
  fs_tree (snd r) !! ("/work/api", "a.go")
    = Some (NFile {| f_content := "one" +:+ newline +:+ "2" +:+ newline; f_mode := 420 |}).
Proof. vm_compute. done. Qed.
