(* ===== verification/ShellRules.v ===== *)
(** * Commands under rules: src/ext/exec/rules.go, src/ext/exec/shell.go

    Prefix rules decide which commands run, ask, or are refused.  A script
    given to a shell is split into its commands by a reader that gives up on
    anything it does not understand; its contract is a lexer that reads one
    character at a time.  The decoding of the call's JSON is a parameter. *)

From S2P Require Import Prelude GoStr Errors Json Provider TreeBudget Middleware Approval Paths.
Local Open Scope nat_scope.

(** ** Rules *)
Inductive Decision := Allow | Prompt | Forbidden | DecisionOther (s : string).

#[export] Instance Decision_eq_dec : EqDecision Decision.
Proof. solve_decision. Defined.

Record PrefixRule := {
  r_Prefix : list (list string);
  r_Decision : Decision;
  r_Justification : string;
  r_Match : list (list string);
  r_NotMatch : list (list string);
}.

Definition decision_text (d : Decision) : string :=
  match d with Allow => "allow" | Prompt => "prompt" | Forbidden => "forbidden" | DecisionOther s => s end.

Definition rule_String (r : PrefixRule) : string := str_join " " (map (str_join "|") (r_Prefix r)).

(** The positions of a prefix against the words, [base] for the first word. *)
Fixpoint matches_from (first : bool) (prefix : list (list string)) (argv : list string) : bool :=
  match prefix, argv with
  | [], _ => true
  | _, [] => false
  | alts :: prefix, w :: argv => str_mem (if first then Base w else w) alts && matches_from false prefix argv
  end.

Definition rule_matches (r : PrefixRule) (argv : list string) : bool := matches_from true (r_Prefix r) argv.

Definition strictness (d : Decision) : nat := match d with Forbidden => 2 | Prompt => 1 | _ => 0 end.

(** The rule so far, and the next one. *)
Definition better_rule (argv : list string) (best : option PrefixRule) (r : PrefixRule) : option PrefixRule :=
  if rule_matches r argv then
    match best with
    | None => Some r
    | Some b =>
        if (length (r_Prefix b) <? length (r_Prefix r))
           || ((length (r_Prefix r) =? length (r_Prefix b)) && (strictness (r_Decision b) <? strictness (r_Decision r)))
        then Some r else best
    end
  else best.

Definition match_rules (rules : list PrefixRule) (argv : list string) : option PrefixRule :=
  foldl (better_rule argv) None rules.

Definition rule_error (i : nat) (r : PrefixRule) (msg : string) : error :=
  EText ("exec: shell rule " +:+ itoa (Z.of_nat i) +:+ " (" +:+ rule_String r +:+ ")" +:+ msg).

Definition check_rule (i : nat) (r : PrefixRule) : option error :=
  if Nat.eqb (length (r_Prefix r)) 0 then Some (EText ("exec: shell rule " +:+ itoa (Z.of_nat i) +:+ " has an empty prefix"))
  else if existsb (fun alts => Nat.eqb (length alts) 0) (r_Prefix r) then Some (rule_error i r " has a position with no words")
  else match r_Decision r with
       | DecisionOther d => Some (rule_error i r (": decision " +:+ go_quote d +:+ ", want allow, prompt or forbidden"))
       | _ =>
           match List.find (fun ex => negb (rule_matches r ex)) (r_Match r) with
           | Some ex => Some (rule_error i r (" does not match its example " +:+ go_quote (str_join " " ex)))
           | None =>
               match List.find (rule_matches r) (r_NotMatch r) with
               | Some ex => Some (rule_error i r (" matches " +:+ go_quote (str_join " " ex) +:+ ", listed under notMatch"))
               | None => None
               end
           end
       end.

Fixpoint check_rules (i : nat) (rules : list PrefixRule) : option error :=
  match rules with
  | [] => None
  | r :: rules => match check_rule i r with Some err => Some err | None => check_rules (S i) rules end
  end.

Definition NewRules (rules : list PrefixRule) : result (list PrefixRule) :=
  match check_rules 0 rules with Some err => inl err | None => inr rules end.

(** ** Splitting scripts *)

(** The variables of the loop: the commands, the words of the command, and
    the word being read, if one has begun. *)
Record split_state := { sp_cmds : list (list string); sp_cur : list string; sp_word : option string }.

Definition endWord (st : split_state) : split_state :=
  match sp_word st with
  | None => st
  | Some w => {| sp_cmds := sp_cmds st; sp_cur := sp_cur st ++ [w]; sp_word := None |}
  end.

Definition endCmd (st : split_state) : option split_state :=
  let st := endWord st in
  match sp_cur st with
  | [] => None
  | cur => Some {| sp_cmds := sp_cmds st ++ [cur]; sp_cur := []; sp_word := None |}
  end.

Definition add_text (t : string) (st : split_state) : split_state :=
  {| sp_cmds := sp_cmds st; sp_cur := sp_cur st; sp_word := Some (default "" (sp_word st) +:+ t) |}.

Definition is_char (n : nat) (c : Ascii.ascii) : bool := Nat.eqb (code c) n.
Definition squote : Ascii.ascii := Ascii.ascii_of_nat 39.

(** The characters the splitter gives up on: redirections, parentheses,
    dollar, back quote, backslash, globs, brackets, braces, tilde, bang, hash
    and line ends. *)
Definition specials : list nat := [60; 62; 40; 41; 36; 96; 92; 42; 63; 91; 93; 123; 125; 126; 33; 35; 10; 13].
Definition is_special (c : Ascii.ascii) : bool := existsb (Nat.eqb (code c)) specials.

(** Dollar, back quote and backslash. *)
Definition is_expansion (c : Ascii.ascii) : bool := existsb (Nat.eqb (code c)) [36; 96; 92].

Definition head_is (c : Ascii.ascii) (s : string) : bool :=
  match s with String d _ => Ascii.eqb c d | EmptyString => false end.

(** Every round reads at least one byte. *)
Fixpoint split_loop (fuel : nat) (st : split_state) (s : string) : option split_state :=
  match fuel, s with
  | _, EmptyString => Some st
  | O, _ => None
  | S fuel, String c rest =>
      if is_char 32 c || is_char 9 c then split_loop fuel (endWord st) rest
      else if is_char 39 c then
        match str_index_byte squote rest with
        | None => None
        | Some j => split_loop fuel (add_text (str_take j rest) st) (str_drop (S j) rest)
        end
      else if is_char 34 c then
        match str_index_byte bquote rest with
        | None => None
        | Some j =>
            let body := str_take j rest in
            if str_forall (fun c => negb (is_expansion c)) body
            then split_loop fuel (add_text body st) (str_drop (S j) rest) else None
        end
      else if is_char 59 c then st ← endCmd st; split_loop fuel st rest
      else if is_char 38 c || is_char 124 c then
        if is_char 38 c && negb (head_is c rest) then None
        else st ← endCmd st; split_loop fuel st (if head_is c rest then str_drop 1 rest else rest)
      else if is_special c then None
      else split_loop fuel (add_text (String c "") st) rest
  end.

Definition split_start : split_state := {| sp_cmds := []; sp_cur := []; sp_word := None |}.

Definition is_assignment (cmd : list string) : bool :=
  match cmd with w :: _ => str_contains w "=" | [] => false end.

Definition splitScript (script : string) : option (list (list string)) :=
  st ← split_loop (String.length script) split_start script;
  st ← endCmd st;
  if existsb is_assignment (sp_cmds st) then None else Some (sp_cmds st).

Definition shells : list string := ["sh"; "bash"; "zsh"; "dash"].

Definition commandsOf (argv : list string) : option (list (list string)) :=
  match argv with
  | [] => None
  | [sh; flag; script] =>
      if str_mem (Base sh) shells && (String.eqb flag "-c" || String.eqb flag "-lc") then splitScript script else Some [argv]
  | _ => Some [argv]
  end.

(** ** Classifying calls *)
Definition firstWords (argv : list string) (n : nat) : string :=
  str_join " " (match take n argv with w :: ws => Base w :: ws | [] => [] end).

(** What the loop over the commands has found. *)
Record verdict := { v_keys : list string; v_unmatched : bool; v_prompt : bool; v_reasons : list string }.

Definition judge_command (rules : list PrefixRule) (cmd : list string) (v : verdict) : CallClass + verdict :=
  match match_rules rules cmd with
  | None => inr {| v_keys := v_keys v ++ [firstWords cmd 2]; v_unmatched := true; v_prompt := v_prompt v; v_reasons := v_reasons v |}
  | Some r =>
      match r_Decision r with
      | Forbidden =>
          inl {| cc_Disposition := DispositionForbidden; cc_Key := "";
                 cc_Reason := if String.eqb (r_Justification r) "" then rule_String r +:+ " is forbidden" else r_Justification r |}
      | d =>
          let prompts := bool_decide (d = Prompt) in
          inr {| v_keys := v_keys v ++ [firstWords cmd (length (r_Prefix r))]; v_unmatched := v_unmatched v;
                 v_prompt := v_prompt v || prompts;
                 v_reasons := v_reasons v ++ (if prompts && negb (String.eqb (r_Justification r) "") then [r_Justification r] else []) |}
      end
  end.

Fixpoint judge_commands (rules : list PrefixRule) (cmds : list (list string)) (v : verdict) : CallClass + verdict :=
  match cmds with
  | [] => inr v
  | cmd :: cmds => match judge_command rules cmd v with inl class => inl class | inr v => judge_commands rules cmds v end
  end.

Definition verdict_start : verdict := {| v_keys := []; v_unmatched := false; v_prompt := false; v_reasons := [] |}.

Definition class_of (d : CallDisposition) (key reason : string) : CallClass :=
  {| cc_Disposition := d; cc_Key := key; cc_Reason := reason |}.

Definition classify (rules : list PrefixRule) (argv : list string) : CallClass :=
  match commandsOf argv with
  | None => class_of DispositionUnknown "" "a script the rules can't read"
  | Some cmds =>
      match judge_commands rules cmds verdict_start with
      | inl class => class
      | inr v =>
          let key := match v_keys v with [k] => k | _ => "" end in
          let reason := str_join "; " (v_reasons v) in
          if v_unmatched v then class_of DispositionUnknown key reason
          else if v_prompt v then class_of DispositionDestructive key reason
          else class_of DispositionReadOnly key ""
      end
  end.

Record shellArgs := {
  sa_Command : list string;
  sa_Workdir : string;
  sa_TimeoutMS : Z;
  sa_Escalate : bool;
  sa_Justification : string;
}.

Definition ShellTool : string := "shell".

Section Shell.
Variable unmarshal : RawJSON -> result shellArgs.

Definition parseShellArgs (raw : RawJSON) (sandboxed : bool) : result shellArgs :=
  match unmarshal raw with
  | inl err => inl (EText ("shell: " +:+ error_text err))
  | inr a =>
      let a := if sandboxed then a
               else {| sa_Command := sa_Command a; sa_Workdir := sa_Workdir a; sa_TimeoutMS := sa_TimeoutMS a;
                       sa_Escalate := false; sa_Justification := "" |} in
      if match sa_Command a with [] => true | w :: _ => String.eqb w "" end
      then inl (EText ("shell: command is empty; pass an argv such as [" +:+ str_join ", " (map go_quote ["go"; "test"; "./..."]) +:+ "]"))
      else if sa_Escalate a && String.eqb (trim_space (sa_Justification a)) ""
      then inl (EText "shell: escalate needs a justification saying why the command must run outside the sandbox")
      else inr a
  end.

(** The classifier of the shell tool: [None] is no opinion. *)
Definition classifyShell (rules : option (list PrefixRule)) (sandboxed : bool) (info : ToolCallInfo) : option CallClass :=
  match rules with
  | None => None
  | Some rules =>
      if negb (String.eqb (info_name info) ShellTool) then None
      else match parseShellArgs (tc_Args (ti_Call info)) sandboxed with
           | inl _ => Some (class_of DispositionUnknown "" "")
           | inr a =>
               let class := classify rules (sa_Command a) in
               if bool_decide (cc_Disposition class = DispositionForbidden) || negb (sa_Escalate a) then Some class
               else Some (class_of DispositionAlwaysAsk "" ("outside the sandbox: " +:+ sa_Justification a))
           end
  end.

(** [callShell] up to the start: what it runs and whether outside the sandbox,
    unless it answers with an error; it may still not find the directory or the
    program.  [remarshal] is the call's object decoded to a map and encoded
    again, which is what the tool reads. *)
Variable remarshal : RawJSON -> RawJSON.

Definition callShell_starts (sandboxed : bool) (raw : RawJSON) : option (list string * bool) :=
  match parseShellArgs (remarshal raw) sandboxed with
  | inl _ => None
  | inr a => Some (sa_Command a, sa_Escalate a)
  end.
End Shell.

(** ** The lexer *)
Inductive lex_mode := LNormal | LSingle | LDouble | LAmp | LBar.

(** One character outside quotes; a bar that follows a bar is part of it. *)
Definition lex_plain (st : split_state) (c : Ascii.ascii) : option (lex_mode * split_state) :=
  if is_char 32 c || is_char 9 c then Some (LNormal, endWord st)
  else if is_char 39 c then Some (LSingle, add_text "" st)
  else if is_char 34 c then Some (LDouble, add_text "" st)
  else if is_char 59 c then st ← endCmd st; Some (LNormal, st)
  else if is_char 38 c then Some (LAmp, st)
  else if is_char 124 c then st ← endCmd st; Some (LBar, st)
  else if is_special c then None
  else Some (LNormal, add_text (String c "") st).

Definition lex_step (mode : lex_mode) (st : split_state) (c : Ascii.ascii) : option (lex_mode * split_state) :=
  match mode with
  | LNormal => lex_plain st c
  | LSingle => Some (if is_char 39 c then (LNormal, st) else (LSingle, add_text (String c "") st))
  | LDouble =>
      if is_char 34 c then Some (LNormal, st)
      else if is_expansion c then None else Some (LDouble, add_text (String c "") st)
  | LAmp => if is_char 38 c then st ← endCmd st; Some (LNormal, st) else None
  | LBar => if is_char 124 c then Some (LNormal, st) else lex_plain st c
  end.

Fixpoint lex_run (mode : lex_mode) (st : split_state) (s : string) : option (lex_mode * split_state) :=
  match s with
  | EmptyString => Some (mode, st)
  | String c s => '(mode, st) ← lex_step mode st c; lex_run mode st s
  end.

(** The commands of a script: every quote closed, every operator complete,
    no command empty or an assignment. *)
Definition lex_script (script : string) : option (list (list string)) :=
  '(mode, st) ← lex_run LNormal split_start script;
  match mode with
  | LNormal | LBar =>
      st ← endCmd st;
      if existsb is_assignment (sp_cmds st) then None else Some (sp_cmds st)
  | _ => None
  end.

(** ** The best rule *)

(** Longer prefixes first, then stricter decisions. *)
Definition rule_rank (r : PrefixRule) : nat := length (r_Prefix r) * 3 + strictness (r_Decision r).

Lemma strictness_lt d : strictness d < 3.
Proof. destruct d; simpl; lia. Qed.

Lemma better_rule_rank b r :
  (length (r_Prefix b) <? length (r_Prefix r))
  || ((length (r_Prefix r) =? length (r_Prefix b)) && (strictness (r_Decision b) <? strictness (r_Decision r)))
  = (rule_rank b <? rule_rank r).
Proof.
  unfold rule_rank. pose proof (strictness_lt (r_Decision b)). pose proof (strictness_lt (r_Decision r)).
  destruct (Nat.ltb_spec (length (r_Prefix b)) (length (r_Prefix r))), (Nat.eqb_spec (length (r_Prefix r)) (length (r_Prefix b))),
    (Nat.ltb_spec (strictness (r_Decision b)) (strictness (r_Decision r))); cbn [orb andb]; symmetry;
    (apply Nat.ltb_lt || apply Nat.ltb_ge); lia.
Qed.

(** [r] decides [argv] among [rules]: it matches, every rule that matches is
    ranked at most as high, and those before it lower. *)
Definition decides (rules : list PrefixRule) (argv : list string) (r : PrefixRule) : Prop :=
  rule_matches r argv = true /\
  exists before after, rules = before ++ r :: after /\
    Forall (fun r' => rule_matches r' argv = true -> rule_rank r' < rule_rank r) before /\
    Forall (fun r' => rule_matches r' argv = true -> rule_rank r' <= rule_rank r) after.

(** The longest prefix decides, and on a tie the strictest decision, and
    then the first rule of the list; no rule decides exactly when none
    matches. *)
Theorem match_rules_best rules argv :
  match match_rules rules argv with
  | Some r => decides rules argv r
  | None => Forall (fun r => rule_matches r argv = false) rules
  end.
Proof.
  induction rules as [|r rules IH] using rev_ind; [constructor|].
  unfold match_rules in *. rewrite foldl_snoc. unfold better_rule at 1. destruct (rule_matches r argv) eqn:Hm.
  - destruct (foldl (better_rule argv) None rules) as [b|].
    + rewrite better_rule_rank. destruct IH as (Hb & before & after & -> & H1 & H2).
      destruct (Nat.ltb_spec (rule_rank b) (rule_rank r)).
      * split; [done|]. exists (before ++ b :: after), []. split; [done|]. split; [|done].
        apply Forall_app. split; [|constructor; [done|]]; (eapply Forall_impl; [eassumption|]); cbn; intros r' Hr Hr'; specialize (Hr Hr'); lia.
      * split; [done|]. exists before, (after ++ [r]). rewrite <- app_assoc. split; [done|]. split; [done|].
        apply Forall_app. split; [done|]. by repeat constructor.
    + split; [done|]. exists rules, []. split; [done|]. split; [|done].
      eapply Forall_impl; [exact IH|]. cbn. congruence.
  - destruct (foldl (better_rule argv) None rules) as [b|].
    + destruct IH as (Hb & before & after & -> & H1 & H2). split; [done|]. exists before, (after ++ [r]).
      rewrite <- app_assoc. split; [done|]. split; [done|]. apply Forall_app. split; [done|]. repeat constructor. congruence.
    + apply Forall_app. by split; [|repeat constructor].
Qed.

Lemma match_rules_in rules argv r : match_rules rules argv = Some r -> r ∈ rules.
Proof.
  revert r. induction rules as [|x rules IH] using rev_ind; [done|]. intros r. unfold match_rules in *. rewrite foldl_snoc.
  unfold better_rule at 1. destruct (rule_matches x argv), (foldl _ None rules) as [b|]; try case_match;
    rewrite elem_of_app, list_elem_of_singleton; naive_solver.
Qed.

(** ** The splitter and the lexer *)
Definition accepted (o : option (lex_mode * split_state)) : option split_state :=
  match o with Some (LNormal, st) | Some (LBar, st) => Some st | _ => None end.

Lemma add_text_text a b st : add_text b (add_text a st) = add_text (a +:+ b) st.
Proof. unfold add_text. cbn. f_equal. by rewrite app_assoc_str. Qed.

Lemma add_text_empty t st : add_text t (add_text "" st) = add_text t st.
Proof. by rewrite add_text_text. Qed.

Lemma lex_single t st s :
  lex_run LSingle (add_text t st) s =
    match str_index_byte squote s with
    | None => Some (LSingle, add_text (t +:+ s) st)
    | Some j => lex_run LNormal (add_text (t +:+ str_take j s) st) (str_drop (S j) s)
    end.
Proof.
  revert t. induction s as [|c s IH]; intros t; cbn [lex_run str_index_byte].
  { by rewrite app_empty_r. }
  cbn [lex_step]. change (is_char 39 c) with (Nat.eqb (code c) 39).
  destruct (Nat.eqb_spec (code c) 39) as [Hc|Hc].
  - assert (c = squote) as -> by (by apply code_inj). cbn [mbind option_bind Ascii.eqb squote]. simpl.
    by destruct s; cbn; rewrite app_empty_r.
  - assert (Ascii.eqb squote c = false) as ->.
    { apply Ascii.eqb_neq. intros <-. by apply Hc. }
    cbn. rewrite add_text_text, IH. destruct (str_index_byte squote s) as [j|]; cbn [fmap option_fmap option_map].
    + cbn [str_take str_drop]. by rewrite app_assoc_str.
    + by rewrite app_assoc_str.
Qed.

Lemma lex_double t st s :
  accepted (lex_run LDouble (add_text t st) s) =
    match str_index_byte bquote s with
    | None => None
    | Some j =>
        if str_forall (fun c => negb (is_expansion c)) (str_take j s)
        then accepted (lex_run LNormal (add_text (t +:+ str_take j s) st) (str_drop (S j) s)) else None
    end.
Proof.
  revert t. induction s as [|c s IH]; intros t; cbn [lex_run str_index_byte]; [done|].
  cbn [lex_step]. change (is_char 34 c) with (Nat.eqb (code c) 34).
  destruct (Nat.eqb_spec (code c) 34) as [Hc|Hc].
  - assert (c = bquote) as -> by (by apply code_inj).
    rewrite Ascii.eqb_refl, take_0_str, app_empty_r. done.
  - assert (Ascii.eqb bquote c = false) as ->.
    { apply Ascii.eqb_neq. intros <-. by apply Hc. }
    destruct (is_expansion c) eqn:Ex.
    { destruct (str_index_byte bquote s) as [j|]; [|done]. cbn [mbind option_bind accepted fmap option_fmap option_map].
      by cbn [str_take str_forall]; rewrite Ex. }
    cbn [mbind option_bind]. rewrite add_text_text, IH. destruct (str_index_byte bquote s) as [j|]; [|done].
    cbn [fmap option_fmap option_map]. cbn [str_take str_forall]. rewrite Ex. cbn [negb andb]. by rewrite app_assoc_str.
Qed.

Lemma lex_bar st s : accepted (lex_run LBar st s) =
  accepted (lex_run LNormal st (if head_is (Ascii.ascii_of_nat 124) s then str_drop 1 s else s)).
Proof.
  destruct s as [|c s]; [done|]. cbn [head_is lex_run lex_step]. change (is_char 124 c) with (Nat.eqb (code c) 124).
  destruct (Ascii.eqb_spec (Ascii.ascii_of_nat 124) c) as [<-|Hc]; [done|].
  destruct (Nat.eqb_spec (code c) 124) as [H|H]; [|done]. exfalso. apply Hc. by apply code_inj.
Qed.

Lemma split_loop_lex fuel st s :
  String.length s <= fuel -> split_loop fuel st s = accepted (lex_run LNormal st s).
Proof.
  revert st s. induction fuel as [|fuel IH]; intros st [|c s] Hl; try done; [cbn in Hl; lia|].
  cbn [split_loop lex_run lex_step]. unfold lex_plain. cbn in Hl.
  assert (Hdrop : forall j, String.length (str_drop j s) <= fuel) by (intros; rewrite length_drop_str; lia).
  destruct (is_char 32 c || is_char 9 c); [cbn; apply IH; lia|].
  destruct (is_char 39 c).
  { cbn [mbind option_bind]. rewrite lex_single. destruct (str_index_byte squote s); [|done]. by rewrite IH. }
  destruct (is_char 34 c).
  { cbn [mbind option_bind]. rewrite lex_double. destruct (str_index_byte bquote s); [|done]. case_match; [|done]. by rewrite IH. }
  destruct (is_char 59 c).
  { destruct (endCmd st); [cbn; apply IH; lia|done]. }
  destruct (is_char 38 c) eqn:Eamp; cbn [orb andb].
  { assert (c = Ascii.ascii_of_nat 38) as -> by (apply code_inj; by apply Nat.eqb_eq in Eamp). cbn [mbind option_bind].
    destruct s as [|d s]; [done|]. cbn [head_is lex_run lex_step]. change (is_char 38 d) with (Nat.eqb (code d) 38).
    destruct (Ascii.eqb_spec (Ascii.ascii_of_nat 38) d) as [<-|Hd]; cbn [negb].
    - cbn. destruct (endCmd st); [cbn; apply IH; cbn in Hl; lia|done].
    - destruct (Nat.eqb_spec (code d) 38) as [H|H]; [|done]. exfalso. apply Hd. by apply code_inj. }
  destruct (is_char 124 c) eqn:Ebar.
  { assert (c = Ascii.ascii_of_nat 124) as -> by (apply code_inj; by apply Nat.eqb_eq in Ebar).
    destruct (endCmd st) as [st'|]; [|done]. cbn [mbind option_bind]. rewrite lex_bar. apply IH. case_match; [apply Hdrop|lia]. }
  destruct (is_special c); [done|]. cbn. apply IH. lia.
Qed.

Lemma split_is_lex script : splitScript script = lex_script script.
Proof.
  unfold splitScript, lex_script. rewrite split_loop_lex by done.
  by destruct (lex_run LNormal split_start script) as [[[] st]|].
Qed.

(** C31: The splitter reads exactly the scripts a lexer with one state per
    quote and operator reads, and into the same commands: its look-ahead
    skips nothing and it always ends. *)
Theorem split_refines_lexer script : splitScript script = lex_script script.
Proof. apply split_is_lex. Qed.

(** ** Quoted words *)
Definition sq : string := String squote "".
Definition quote_word (w : string) : string := sq +:+ w +:+ sq.
Definition no_squote (c : Ascii.ascii) : bool := negb (is_char 39 c).
Definition quote_cmd (cmd : list string) : string := str_join " " (map quote_word cmd).
Definition quote_script (cmds : list (list string)) : string := str_join " && " (map quote_cmd cmds).

(** A command of words without single quotes, the first no assignment. *)
Definition quotable (cmd : list string) : Prop :=
  cmd <> [] /\ Forall (fun w => str_forall no_squote w = true) cmd /\ is_assignment cmd = false.

Lemma lex_run_app mode st a b :
  lex_run mode st (a +:+ b) = '(mode, st) ← lex_run mode st a; lex_run mode st b.
Proof.
  revert mode st. induction a as [|c a IH]; intros mode st; [done|]. rewrite app_cons. cbn [lex_run].
  destruct (lex_step mode st c) as [[mode' st']|]; [|done]. cbn. apply IH.
Qed.

Lemma lex_quoted t st w : str_forall no_squote w = true ->
  lex_run LSingle (add_text t st) (w +:+ sq) = Some (LNormal, add_text (t +:+ w) st).
Proof.
  revert t. induction w as [|c w IH]; intros t Hw; [by rewrite app_empty_r|].
  cbn [str_forall] in Hw. apply andb_true_iff in Hw as [Hc Hw]. unfold no_squote in Hc. apply negb_true_iff in Hc.
  rewrite app_cons. cbn [lex_run lex_step]. rewrite Hc. cbn [mbind option_bind]. rewrite add_text_text, IH by done.
  by rewrite app_assoc_str.
Qed.

Lemma lex_quote_word st w : str_forall no_squote w = true ->
  lex_run LNormal st (quote_word w) = Some (LNormal, add_text w st).
Proof.
  intros Hw. unfold quote_word, sq at 1. rewrite app_cons, app_empty_l. cbn [lex_run lex_step].
  change (lex_plain st squote) with (Some (LSingle, add_text "" st)). cbn [mbind option_bind].
  by rewrite lex_quoted.
Qed.

(** The state once [cmd] has been read, its last word perhaps still open. *)
Definition read_cmd (cmds : list (list string)) (cur : list string) (st : split_state) : Prop :=
  endWord st = {| sp_cmds := cmds; sp_cur := cur; sp_word := None |}.

Lemma lex_quote_cmd cmds cur cmd st :
  read_cmd cmds cur st -> sp_word st = None -> cmd <> [] -> Forall (fun w => str_forall no_squote w = true) cmd ->
  exists st', lex_run LNormal st (quote_cmd cmd) = Some (LNormal, st') /\ read_cmd cmds (cur ++ cmd) st'.
Proof.
  revert cur st. induction cmd as [|w cmd IH]; [done|]. intros cur st Hst Hw _ [Hq Hqs]%Forall_cons.
  unfold quote_cmd. assert (Hst' : read_cmd cmds (cur ++ [w]) (add_text w st)).
  { unfold read_cmd, endWord in *. rewrite Hw in Hst. rewrite Hst. by unfold add_text, endWord. }
  destruct cmd as [|w' cmd]; [exists (add_text w st); split; [by apply lex_quote_word|done]|].
  change (str_join " " (map quote_word (w :: w' :: cmd))) with (quote_word w +:+ " " +:+ quote_cmd (w' :: cmd)).
  rewrite lex_run_app, lex_quote_word by done. cbn [mbind option_bind]. rewrite lex_run_app.
  change (lex_run LNormal (add_text w st) " ") with (Some (LNormal, endWord (add_text w st))). cbn [mbind option_bind].
  rewrite Hst'. destruct (IH (cur ++ [w]) {| sp_cmds := cmds; sp_cur := cur ++ [w]; sp_word := None |}) as (st' & -> & H);
    [done..|]. exists st'. split; [done|]. by rewrite <- app_assoc in H.
Qed.

Lemma endCmd_read cmds cur st : read_cmd cmds cur st -> cur <> [] ->
  endCmd st = Some {| sp_cmds := cmds ++ [cur]; sp_cur := []; sp_word := None |}.
Proof. unfold read_cmd, endCmd. intros ->. by destruct cur. Qed.

Lemma lex_and st : lex_run LNormal st " && " = st' ← endCmd (endWord st); Some (LNormal, endWord st').
Proof.
  transitivity ('(m, st) ← (st' ← endCmd (endWord st); Some (LNormal, st')); lex_run m st " "); [done|].
  by destruct (endCmd (endWord st)).
Qed.

Lemma lex_quote_script cmds done_ :
  cmds <> [] -> Forall quotable cmds ->
  exists st cmd, lex_run LNormal {| sp_cmds := done_; sp_cur := []; sp_word := None |} (quote_script cmds) = Some (LNormal, st)
    /\ read_cmd (done_ ++ removelast cmds) cmd st /\ cmd <> [] /\ removelast cmds ++ [cmd] = cmds.
Proof.
  revert done_. induction cmds as [|cmd cmds IH]; [done|]. intros done_ _ [(Hne & Hq & _) Hqs]%Forall_cons.
  destruct (lex_quote_cmd done_ [] cmd {| sp_cmds := done_; sp_cur := []; sp_word := None |}) as (st & Hrun & Hst); [done..|].
  destruct cmds as [|cmd' cmds]; [exists st, cmd; split_and!; [done| |done..]; by rewrite app_nil_r|].
  change (quote_script (cmd :: cmd' :: cmds)) with (quote_cmd cmd +:+ " && " +:+ quote_script (cmd' :: cmds)).
  rewrite lex_run_app, Hrun. cbn [mbind option_bind]. rewrite lex_run_app.
  assert (lex_run LNormal st " && " = Some (LNormal, {| sp_cmds := done_ ++ [cmd]; sp_cur := []; sp_word := None |})) as ->.
  { rewrite lex_and, Hst. by destruct cmd. }
  cbn [mbind option_bind]. destruct (IH (done_ ++ [cmd])) as (st' & cmd'' & -> & H & Hne' & He); [done..|].
  exists st', cmd''. split_and!; [done| |done|]; [by rewrite <- app_assoc in H|].
  change (removelast (cmd :: cmd' :: cmds)) with (cmd :: removelast (cmd' :: cmds)). cbn [app]. by rewrite He.
Qed.

(** Text in single quotes stays text: a script of commands joined by
    and-and, every word in single quotes, is read back as those commands and
    words, whatever operators, spaces, expansions or line ends are inside
    them. *)
Theorem quoted_script_roundtrip cmds :
  cmds <> [] -> Forall quotable cmds -> commandsOf ["bash"; "-c"; quote_script cmds] = Some cmds.
Proof.
  intros Hne Hq. change (splitScript (quote_script cmds) = Some cmds). rewrite split_is_lex. unfold lex_script.
  destruct (lex_quote_script cmds [] Hne Hq) as (st & cmd & Hrun & Hst & Hc & Heq). unfold split_start. rewrite Hrun.
  cbn [mbind option_bind]. rewrite (endCmd_read _ _ _ Hst Hc). cbn [mbind option_bind sp_cmds app]. rewrite Heq.
  replace (existsb is_assignment cmds) with false; [done|]. symmetry. clear -Hq.
  induction Hq as [|c cs (_ & _ & Hc) _ IH]; [done|]. cbn. by rewrite Hc.
Qed.

Lemma quoted_script_roundtrip_witness :
  commandsOf ["bash"; "-c"; quote_script [["echo"; "a && rm -rf $HOME"]; ["ls"; ""]]] = Some [["echo"; "a && rm -rf $HOME"]; ["ls"; ""]].
Proof. apply quoted_script_roundtrip; [done|]. repeat constructor; done. Defined.

(** ** Decisions *)

(** The rule that decides [cmd] has decision [d]. *)
Definition decided (rules : list PrefixRule) (d : Decision) (cmd : list string) : bool :=
  match match_rules rules cmd with Some r => bool_decide (r_Decision r = d) | None => false end.

Definition undecided (rules : list PrefixRule) (cmd : list string) : bool :=
  match match_rules rules cmd with Some _ => false | None => true end.

Definition valid_decision (d : Decision) : Prop := match d with DecisionOther _ => False | _ => True end.

Definition rules_valid (rules : list PrefixRule) : Prop := Forall (fun r => valid_decision (r_Decision r)) rules.

Lemma check_rules_valid i rules : check_rules i rules = None -> rules_valid rules.
Proof.
  revert i. induction rules as [|r rules IH]; [by constructor|]. intros i. cbn [check_rules].
  destruct (check_rule i r) eqn:Hr; [done|]. intros H. constructor; [|by apply (IH (S i))]. revert Hr. unfold check_rule.
  do 2 (case_match; [done|]). by destruct (r_Decision r).
Qed.

Lemma NewRules_valid rules rules' : NewRules rules = inr rules' -> rules_valid rules'.
Proof. unfold NewRules. case_match; [done|]. intros [= <-]. by eapply check_rules_valid. Qed.

Definition disposition_of (rules : list PrefixRule) (cmds : list (list string)) : CallDisposition :=
  if existsb (decided rules Forbidden) cmds then DispositionForbidden
  else if existsb (undecided rules) cmds then DispositionUnknown
  else if existsb (decided rules Prompt) cmds then DispositionDestructive
  else DispositionReadOnly.

Lemma decided_some rules cmd r d : match_rules rules cmd = Some r -> decided rules d cmd = bool_decide (r_Decision r = d).
Proof. unfold decided. by intros ->. Qed.

Lemma decided_none rules cmd d : match_rules rules cmd = None -> decided rules d cmd = false.
Proof. unfold decided. by intros ->. Qed.

(** What the loop leaves, in terms of what it started from. *)
Lemma judge_commands_spec rules cmds v :
  match judge_commands rules cmds v with
  | inl class => existsb (decided rules Forbidden) cmds = true /\ cc_Disposition class = DispositionForbidden /\ cc_Key class = ""
  | inr v' =>
      existsb (decided rules Forbidden) cmds = false
      /\ v_unmatched v' = v_unmatched v || existsb (undecided rules) cmds
      /\ v_prompt v' = v_prompt v || existsb (decided rules Prompt) cmds
      /\ length (v_keys v') = length (v_keys v) + length cmds
  end.
Proof.
  revert v. induction cmds as [|cmd cmds IH]; intros v; cbn [judge_commands existsb]; [by rewrite !orb_false_r, Nat.add_0_r|].
  unfold judge_command. destruct (match_rules rules cmd) as [r|] eqn:Hm.
  - rewrite !(decided_some rules cmd r) by done. assert (undecided rules cmd = false) as -> by (unfold undecided; by rewrite Hm).
    destruct (r_Decision r); try done; match goal with |- context [judge_commands rules cmds ?v] => specialize (IH v) end;
      destruct (judge_commands rules cmds _); cbn -[decided undecided] in *; rewrite ?length_app in IH; cbn in IH;
      try done; destruct IH as (-> & -> & -> & ->); rewrite ?orb_false_r, ?orb_true_r; split_and!; try done; lia.
  - rewrite !decided_none by done. assert (undecided rules cmd = true) as -> by (unfold undecided; by rewrite Hm).
    match goal with |- context [judge_commands rules cmds ?v] => specialize (IH v) end.
    destruct (judge_commands rules cmds _); cbn -[decided undecided] in *; [done|]. rewrite ?length_app in IH; cbn in IH.
    destruct IH as (-> & -> & -> & ->). rewrite orb_true_r. split_and!; try done; lia.
Qed.

Lemma classify_disposition rules argv cmds :
  commandsOf argv = Some cmds -> cc_Disposition (classify rules argv) = disposition_of rules cmds.
Proof.
  intros Hc. unfold classify, disposition_of. rewrite Hc. pose proof (judge_commands_spec rules cmds verdict_start) as H.
  destruct (judge_commands rules cmds verdict_start) as [class|v]; [by destruct H as (-> & -> & _)|].
  destruct H as (-> & Hu & Hp & _). cbn in Hu, Hp. rewrite <- Hu, <- Hp. by destruct (v_unmatched v), (v_prompt v).
Qed.

Lemma existsb_Exists {A} (f : A -> bool) l : existsb f l = true <-> Exists (fun x => f x = true) l.
Proof. rewrite existsb_exists, Exists_exists. by setoid_rewrite list_elem_of_In. Qed.

Lemma all_allowed rules cmds : rules_valid rules ->
  disposition_of rules cmds = DispositionReadOnly <-> Forall (fun cmd => decided rules Allow cmd = true) cmds.
Proof.
  intros Hv. unfold disposition_of. induction cmds as [|cmd cmds IH]; [by cbn; split|]. rewrite Forall_cons, <- IH. cbn [existsb].
  destruct (match_rules rules cmd) as [r|] eqn:Hr.
  - rewrite !(decided_some rules cmd r) by done. assert (undecided rules cmd = false) as -> by (unfold undecided; by rewrite Hr).
    assert (valid_decision (r_Decision r)) as Hd by (eapply Forall_forall in Hv; [exact Hv|]; by eapply match_rules_in).
    destruct (r_Decision r); cbn -[decided undecided]; try done.
    + by intuition.
    + by split; [repeat case_match|intros [? _]].
    + by split; [|intros [? _]].
  - rewrite !decided_none by done. assert (undecided rules cmd = true) as -> by (unfold undecided; by rewrite Hr).
    by split; [cbn; case_match|intros [? _]].
Qed.

(** A call of the shell is judged by every command of its script: one
    forbidden command forbids it, else one no rule decides leaves it open,
    else one that prompts makes it ask, and it is as good as read-only
    exactly when a rule allows every command.  Only a call of one command
    has a key an approval could be remembered under. *)
Theorem classify_every_command rules0 rules argv cmds :
  NewRules rules0 = inr rules -> commandsOf argv = Some cmds ->
  let class := classify rules argv in
  (cc_Disposition class = DispositionForbidden <-> Exists (fun cmd => decided rules Forbidden cmd = true) cmds)
  /\ (cc_Disposition class = DispositionReadOnly <-> Forall (fun cmd => decided rules Allow cmd = true) cmds)
  /\ cc_Disposition class = disposition_of rules cmds
  /\ (cc_Key class <> "" -> exists cmd, cmds = [cmd]).
Proof.
  intros Hr Hc. pose proof (classify_disposition rules argv cmds Hc) as Hd. cbv zeta. rewrite Hd. split_and!.
  - rewrite <- existsb_Exists. unfold disposition_of. by destruct (existsb (decided rules Forbidden) cmds); repeat case_match.
  - eapply all_allowed, NewRules_valid, Hr.
  - done.
  - unfold classify. rewrite Hc. pose proof (judge_commands_spec rules cmds verdict_start) as H.
    destruct (judge_commands rules cmds verdict_start) as [class|v]; [by destruct H as (_ & _ & ->)|].
    destruct H as (_ & _ & _ & Hl). cbn in Hl.
    destruct cmds as [|cmd [|cmd' cmds]]; [|by exists cmd|]; destruct (v_keys v) as [|k [|k' ks]]; try done; cbn; repeat case_match; done.
Qed.

Definition git_rule : PrefixRule :=
  {| r_Prefix := [["git"]; ["status"; "diff"]]; r_Decision := Allow; r_Justification := ""; r_Match := [["/usr/bin/git"; "diff"; "HEAD"]];
     r_NotMatch := [["git"; "push"]] |}.
Definition rm_rule : PrefixRule :=
  {| r_Prefix := [["rm"]]; r_Decision := Forbidden; r_Justification := "no deleting"; r_Match := []; r_NotMatch := [] |}.

Lemma classify_every_command_witness :
  cc_Disposition (classify [git_rule; rm_rule] ["bash"; "-lc"; "git status | cat; rm -rf x"]) = DispositionForbidden.
Proof.
  refine (proj2 (proj1 (classify_every_command [git_rule; rm_rule] [git_rule; rm_rule] _
    [["git"; "status"]; ["cat"]; ["rm"; "-rf"; "x"]] _ _)) _); [reflexivity..|].
  right. right. left. reflexivity.
Defined.

(** ** Behind the gate *)
Section Gate.
Context {Ctx W E : Type}.

Lemma authorised_read_only (t : @TieredApproval Ctx W E) ctx info c w :
  cc_Disposition c = DispositionReadOnly -> ta_rules t !! info_name info = None -> gs_mode (fst w) = ModeReadOnlyAuto ->
  authorised_classified t ctx (classified info c) w = true.
Proof.
  intros Hc Hr Hm. unfold authorised_classified. rewrite info_name_classified, Hr.
  assert (ti_ReadOnly (classified info c) = true) as Hro by (unfold classified; by rewrite Hc).
  destruct w as [g w], g as [mode rem]. cbn in Hm. subst mode. unfold read_gate, eff_call, eff_value. cbn.
  rewrite Hro. cbn. by rewrite !orb_true_r.
Qed.

(** A call that is neither forbidden, allowed nor outside the sandbox is left
    to the user in the mode that runs read-only calls. *)
Lemma authorised_open (t : @TieredApproval Ctx W E) ctx info c w :
  cc_Disposition c = DispositionUnknown \/ cc_Disposition c = DispositionDestructive -> ti_ReadOnly info = false ->
  ta_rules t !! info_name info = None -> ta_grant t = None -> gs_mode (fst w) = ModeReadOnlyAuto -> gs_remembered (fst w) = ∅ ->
  authorised_classified t ctx (classified info c) w = consent t ctx (classified info c) w.
Proof.
  intros Hc Hro Hr Hg Hm Hrem. unfold authorised_classified. rewrite info_name_classified, Hr, Hg.
  assert (ti_ReadOnly (classified info c) = false) as Hcl by (unfold classified; by destruct Hc as [-> | ->]).
  destruct w as [g w], g as [mode rem]. cbn in Hm, Hrem. subst mode rem. unfold read_gate, eff_call, eff_value, eff_world, eff_ret. cbn.
  rewrite Hcl. cbn. destruct (rememberKey t w (classified info c)); [rewrite bool_decide_eq_false_2 by set_solver|]; by rewrite andb_false_r.
Qed.

(** What the classifier says of a call that the tool reads as the gate does. *)
Lemma classifyShell_read unmarshal rules sandboxed info a :
  info_name info = ShellTool -> parseShellArgs unmarshal (tc_Args (ti_Call info)) sandboxed = inr a ->
  classifyShell unmarshal (Some rules) sandboxed info
  = Some (if bool_decide (cc_Disposition (classify rules (sa_Command a)) = DispositionForbidden) || negb (sa_Escalate a)
          then classify rules (sa_Command a)
          else class_of DispositionAlwaysAsk "" ("outside the sandbox: " +:+ sa_Justification a)).
Proof. intros Hn Hp. unfold classifyShell. rewrite Hn, Hp. cbn [negb String.eqb ShellTool]. by destruct (_ || _). Qed.

(** The splitter reads no forbidden command in the argv. *)
Definition none_forbidden (rules : list PrefixRule) (argv : list string) : Prop :=
  forall cmds, commandsOf argv = Some cmds -> Forall (fun cmd => decided rules Forbidden cmd = false) cmds.

Lemma none_forbidden_class rules argv : none_forbidden rules argv -> cc_Disposition (classify rules argv) <> DispositionForbidden.
Proof.
  intros Hn. destruct (commandsOf argv) as [cmds|] eqn:Hc; [|unfold classify; by rewrite Hc]. rewrite (classify_disposition _ _ _ Hc).
  specialize (Hn cmds Hc). unfold disposition_of. replace (existsb (decided rules Forbidden) cmds) with false; [by repeat case_match|].
  symmetry. clear -Hn. induction Hn as [|c cs Hf _ IH]; [done|]. cbn. by rewrite Hf.
Qed.

(** C23: The shell behind the permission gate, for a call whose arguments the
    tool reads as the gate does.  When the splitter reads a forbidden command
    in the argv that the tool would start, the gate refuses the call whatever
    its mode, the rule on the tool, remembered approvals, grants and answers,
    escalated or not.  When it reads commands that are all allowed, and the
    call stays in the sandbox, the mode that runs read-only calls runs it
    unasked.  When it reads no forbidden command, or cannot read the script: a
    call to leave the sandbox runs exactly when the user consents to it and no
    rule denies the tool, whatever was approved or granted before; and a call
    within the sandbox with a command that is not allowed, in the mode that
    runs read-only calls, with no rule on the tool, nothing remembered and
    no grants, runs exactly when the user consents to it.  [readings_agree] of
    Procs.v says which calls both read alike; the splitter was
    compared with a lexer above. *)
Theorem shell_gate unmarshal remarshal rules0 rules sandboxed (t : @TieredApproval Ctx W E) ctx info w argv escalated :
  NewRules rules0 = inr rules ->
  ta_classify t = Some (fun _ info => eff_ret (classifyShell unmarshal (Some rules) sandboxed info)) ->
  info_name info = ShellTool ->
  callShell_starts unmarshal remarshal sandboxed (tc_Args (ti_Call info)) = Some (argv, escalated) ->
  parseShellArgs unmarshal (remarshal (tc_Args (ti_Call info))) sandboxed = parseShellArgs unmarshal (tc_Args (ti_Call info)) sandboxed ->
  (forall cmds, commandsOf argv = Some cmds -> Exists (fun cmd => decided rules Forbidden cmd = true) cmds ->
    refuses (WrapToolCall t ctx info) w)
  /\ (forall cmds, commandsOf argv = Some cmds -> Forall (fun cmd => decided rules Allow cmd = true) cmds -> escalated = false ->
    ta_rules t !! ShellTool = None -> gs_mode (fst w) = ModeReadOnlyAuto ->
    forall next, runs next ctx info (WrapToolCall t ctx info next) w)
  /\ (none_forbidden rules argv -> escalated = true -> exists c justification,
    cc_Disposition c = DispositionAlwaysAsk /\ cc_Reason c = "outside the sandbox: " +:+ justification
    /\ settled (negb (bool_decide (ta_rules t !! ShellTool = Some RuleDeny)) && consent t ctx (classified info c) w) ctx info (WrapToolCall t ctx info) w)
  /\ (none_forbidden rules argv ->
    (forall cmds, commandsOf argv = Some cmds -> Exists (fun cmd => decided rules Allow cmd = false) cmds) -> escalated = false ->
    ta_rules t !! ShellTool = None -> gs_mode (fst w) = ModeReadOnlyAuto -> gs_remembered (fst w) = ∅ -> ta_grant t = None -> ti_ReadOnly info = false ->
    exists c, c = classify rules argv /\ settled (consent t ctx (classified info c) w) ctx info (WrapToolCall t ctx info) w).
Proof.
  intros Hr Hcl Hn Hstart Halike. unfold callShell_starts in Hstart. rewrite Halike in Hstart.
  destruct (parseShellArgs unmarshal _ sandboxed) as [err|a] eqn:Hp; [done|]. injection Hstart as <- <-.
  pose proof (wrap_settled t ctx info w) as Hset. unfold authorised, classify_call in Hset. rewrite Hcl in Hset.
  unfold eff_value, eff_world in Hset. cbn -[classify authorised_classified classifyShell] in Hset.
  rewrite (classifyShell_read unmarshal rules sandboxed info a Hn Hp) in Hset. split_and!.
  - intros cmds Hc Hf%existsb_Exists. pose proof (classify_disposition rules _ _ Hc) as Hd. unfold disposition_of in Hd. rewrite Hf in Hd.
    rewrite bool_decide_eq_true_2 in Hset by done. cbn -[classify] in Hset. by rewrite Hd in Hset.
  - intros cmds Hc Hall Hesc Hrule Hmode. pose proof (classify_disposition rules _ _ Hc) as Hd. apply all_allowed in Hall; [|by eapply NewRules_valid].
    rewrite Hall in Hd. rewrite bool_decide_eq_false_2, Hesc in Hset by congruence.
    cbn -[classify authorised_classified] in Hset. rewrite Hd in Hset. by rewrite authorised_read_only in Hset by (by rewrite ?Hn).
  - intros Hnf%none_forbidden_class Hesc. rewrite bool_decide_eq_false_2, Hesc in Hset by done. cbn -[classify] in Hset. rewrite Hn in Hset.
    exists (class_of DispositionAlwaysAsk "" ("outside the sandbox: " +:+ sa_Justification a)), (sa_Justification a).
    split; [done|]. split; [done|exact Hset].
  - intros Hnf Hopen Hesc Hrule Hmode Hrem Hg Hro. exists (classify rules (sa_Command a)). split; [done|].
    assert (cc_Disposition (classify rules (sa_Command a)) = DispositionUnknown \/ cc_Disposition (classify rules (sa_Command a)) = DispositionDestructive) as Hd.
    { destruct (commandsOf (sa_Command a)) as [cmds|] eqn:Hc; [|left; unfold classify; by rewrite Hc].
      apply none_forbidden_class in Hnf. specialize (Hopen cmds eq_refl). rewrite (classify_disposition _ _ _ Hc) in *.
      assert (disposition_of rules cmds <> DispositionReadOnly) as Hnr.
      { intros Hx. apply all_allowed in Hx; [|by eapply NewRules_valid]. apply Exists_exists in Hopen as (cmd & Hin & Hcmd).
        rewrite Forall_forall in Hx. specialize (Hx cmd Hin). congruence. }
      revert Hnf Hnr. unfold disposition_of. repeat case_match; naive_solver. }
    rewrite bool_decide_eq_false_2, Hesc in Hset by (by destruct Hd; congruence). cbn -[classify authorised_classified] in Hset.
    rewrite authorised_open in Hset by (done || by rewrite ?Hn). destruct Hd as [Hd|Hd]; by rewrite Hd in Hset.
Qed.
End Gate.

Definition shell_unmarshal (raw : RawJSON) : result shellArgs :=
  inr {| sa_Command := if String.eqb raw "rm" then ["sh"; "-c"; "git diff; rm x"] else ["git"; "status"]; sa_Workdir := ""; sa_TimeoutMS := 0;
         sa_Escalate := false; sa_Justification := "" |}.

Definition shell_info (raw : RawJSON) : ToolCallInfo :=
  {| ti_Step := 0; ti_Call := {| tc_ID := "1"; tc_Name := ShellTool; tc_Args := raw |}; ti_Scope := ScopeFrom [] None None;
     ti_ReadOnly := false; ti_Destructive := true; ti_Idempotent := false; ti_Class := None |}.

Definition shell_gate_t : @TieredApproval unit unit unit :=
  fst (NewTieredApproval [WithClassifier (Some (fun _ info => eff_ret (classifyShell shell_unmarshal (Some [git_rule; rm_rule]) true info)))]).

Definition shell_remarshal (raw : RawJSON) : RawJSON := raw.

Lemma shell_gate_witness :
  refuses (WrapToolCall shell_gate_t tt (shell_info "rm")) ({| gs_mode := ModeAlwaysAllow; gs_remembered := {["shell"]} |}, tt)
  /\ forall next, runs next tt (shell_info "git") (WrapToolCall shell_gate_t tt (shell_info "git") next)
       ({| gs_mode := ModeReadOnlyAuto; gs_remembered := ∅ |}, tt).
Proof.
  split.
  - refine (proj1 (shell_gate shell_unmarshal shell_remarshal [git_rule; rm_rule] [git_rule; rm_rule] true shell_gate_t tt (shell_info "rm") _
      ["sh"; "-c"; "git diff; rm x"] false _ _ _ _ _) [["git"; "diff"]; ["rm"; "x"]] _ _); [reflexivity..|]. right. left. reflexivity.
  - refine (proj1 (proj2 (shell_gate shell_unmarshal shell_remarshal [git_rule; rm_rule] [git_rule; rm_rule] true shell_gate_t tt (shell_info "git") _
      ["git"; "status"] false _ _ _ _ _)) [["git"; "status"]] _ _ _ _ _); [reflexivity..| |reflexivity|reflexivity|reflexivity]. repeat constructor.
Defined.

(** ** What the splitter lets through *)

(** A reserved word before a command is read as the command's name, so the
    rule that forbids the command is not consulted: [time rm -rf /] is open
    to approval. *)
Lemma reserved_word_hides_forbidden :
  classify [rm_rule] ["bash"; "-c"; "time rm -rf x"] = class_of DispositionUnknown "time rm" ""
  /\ cc_Disposition (classify [rm_rule] ["bash"; "-c"; "rm -rf x"]) = DispositionForbidden.
Proof. done. Qed.

(** A script followed by its name and arguments is not split. *)
Lemma script_with_arguments_not_split :
  classify [rm_rule] ["bash"; "-c"; "rm -rf x"; "sh"] = class_of DispositionUnknown "bash -c" "".
Proof. done. Qed.
