(* ===== verification/Delegates.v ===== *)
(** * Other ways to delegate: src/fanout_source.go, src/async_agent_source.go, src/server_agent_source.go

    [FanOutSource] asks several sub-agents at once, one goroutine each, and
    joins their answers; a run is a schedule of the goroutines' atomic parts.
    [AsyncAgentSource] starts a sub-agent and answers at once; its state is
    the runs under way.  A server's agent is a sub-agent over a source scoped
    to the tools its definition names. *)

From S2P Require Import Prelude GoStr Errors Json Provider TreeBudget Middleware Events MultiSource Dispatch SubAgents.
Local Open Scope eff_scope.

(** ** One member's call, in its two parts

    The guards, which take from the shared call budget, and the child's run. *)
Section Member.
Variable codec : ArgsCodec.

Definition member_begin (s : AgentSource) (ctx : agent_ctx) : eff store SubAgentEvent (option ToolResult) :=
  if (as_maxDepth s <=? ac_depth ctx)%Z then
    eff_ret (Some (errorToolResult ("sub-agent " +:+ go_quote (as_Name s) +:+ " refused: max depth "
                                    +:+ itoa (as_maxDepth s) +:+ " reached")))
  else
    let* refused := charge ctx in
    eff_ret (if refused : bool
             then Some (errorToolResult ("sub-agent " +:+ go_quote (as_Name s) +:+ " refused: call budget exhausted")) else None).

Definition member_run (s : AgentSource) (ctx : agent_ctx) (args : tool_args) : eff store SubAgentEvent call_out :=
  match ac_marshal codec args with
  | inl e => eff_ret (None, Some (wrap_error ("agent: encode args for sub-agent " +:+ go_quote (as_Name s) +:+ ": ") e))
  | inr raw =>
      match seed_of codec s raw with
      | None => eff_ret (Some (errorToolResult ("sub-agent " +:+ go_quote (as_Name s) +:+ " requires a non-empty 'task'")), None)
      | Some seed => let* r := run_child s ctx seed in eff_ret (child_answer s r)
      end
  end.

Lemma agent_Call_parts s ctx args w :
  agent_Call codec s ctx (as_Name s) args w =
    eff_bind (member_begin s ctx) (fun r => match r with
                                            | Some res => eff_ret (Some res, None)
                                            | None => member_run s ctx args
                                            end) w.
Proof.
  unfold agent_Call, member_begin. rewrite String.eqb_refl. cbn [negb].
  destruct (as_maxDepth s <=? ac_depth ctx)%Z; [done|]. rewrite eff_bind_assoc. apply eff_bind_ext. intros [] w1; by rewrite eff_bind_ret_l.
Qed.
End Member.

(** ** FanOutSource *)
Record FanOutResult := { fr_Name : string; fr_Text : string; fr_IsError : bool }.

Definition zero_result : FanOutResult := {| fr_Name := ""; fr_Text := ""; fr_IsError := false |}.

Record FanOutSource := {
  fo_Name : string;
  fo_def : ToolDef;
  fo_Members : list AgentSource;
  fo_Aggregate : list FanOutResult -> string;
}.

Definition section_text (r : FanOutResult) : string :=
  "[" +:+ fr_Name r +:+ (if fr_IsError r then " (error)" else "") +:+ "]" +:+ newline +:+ fr_Text r.

Definition defaultFanOutAggregate (rs : list FanOutResult) : string := str_join (newline +:+ newline) (map section_text rs).

Definition NewFanOutSource (codec : ArgsCodec) (name description : string) (members : list AgentSource)
    (aggregate : option (list FanOutResult -> string)) : result FanOutSource :=
  if String.eqb name "" then inl (EText "agent: FanOutSource requires a Name")
  else match members with
       | [] => inl (EText ("agent: FanOutSource " +:+ go_quote name +:+ " requires at least one member"))
       | _ =>
           match ac_schema codec (ac_generated codec) with
           | Some e => inl (wrap_error ("agent: schema for FanOutSource " +:+ go_quote name +:+ ": ") e)
           | None => inr {| fo_Name := name; fo_def := {| td_Name := name; td_Description := description; td_Annotations := ∅ |};
                            fo_Members := members; fo_Aggregate := default defaultFanOutAggregate aggregate |}
           end
       end.

Definition slot_result (m : AgentSource) (out : call_out) : FanOutResult :=
  match out with
  | (_, Some err) => {| fr_Name := as_Name m; fr_Text := error_text err; fr_IsError := true |}
  | (Some res, None) => {| fr_Name := as_Name m; fr_Text := toolResultText res; fr_IsError := tr_IsError res |}
  | (None, None) => {| fr_Name := as_Name m; fr_Text := ""; fr_IsError := false |}
  end.

(** A goroutine before its guards, after them, and after its slot is
    written; [ran] says whether the child was run. *)
Inductive fan_pc := FanStart | FanAdmitted | FanDone (ran : bool).

Record fan_state := { fn_store : store; fn_pcs : list fan_pc; fn_slots : list FanOutResult; fn_events : list SubAgentEvent }.

Section FanOut.
Variable codec : ArgsCodec.
Variable ctx : agent_ctx.
Variable args : tool_args.

Definition fan_step (members : list AgentSource) (st : fan_state) (i : nat) : fan_state :=
  match members !! i, fn_pcs st !! i with
  | Some m, Some FanStart =>
      let '(r, evs, w) := member_begin m ctx (fn_store st) in
      match r with
      | Some res => {| fn_store := w; fn_pcs := <[i := FanDone false]> (fn_pcs st);
                       fn_slots := <[i := slot_result m (Some res, None)]> (fn_slots st); fn_events := fn_events st ++ evs |}
      | None => {| fn_store := w; fn_pcs := <[i := FanAdmitted]> (fn_pcs st); fn_slots := fn_slots st; fn_events := fn_events st ++ evs |}
      end
  | Some m, Some FanAdmitted =>
      let '(out, evs, w) := member_run codec m ctx args (fn_store st) in
      {| fn_store := w; fn_pcs := <[i := FanDone true]> (fn_pcs st); fn_slots := <[i := slot_result m out]> (fn_slots st);
         fn_events := fn_events st ++ evs |}
  | _, _ => st
  end.

Definition fan_start (members : list AgentSource) (w : store) : fan_state :=
  {| fn_store := w; fn_pcs := replicate (length members) FanStart; fn_slots := replicate (length members) zero_result; fn_events := [] |}.

Definition fan_run (members : list AgentSource) (sched : list nat) (w : store) : fan_state :=
  foldl (fan_step members) (fan_start members w) sched.

Definition is_fan_done (pc : fan_pc) : bool := match pc with FanDone _ => true | _ => false end.
Definition has_run (pc : fan_pc) : bool := match pc with FanAdmitted | FanDone true => true | _ => false end.

(** What the call answers without asking anyone, and the arguments' check. *)
Definition fan_check (s : FanOutSource) (name : string) : option call_out :=
  if negb (String.eqb name (fo_Name s)) then Some (None, Some (wrap_sentinel ErrUnknownTool (": " +:+ go_quote name)))
  else match ac_marshal codec args with
       | inl e => Some (None, Some (wrap_error ("agent: encode args for fan-out " +:+ go_quote (fo_Name s) +:+ ": ") e))
       | inr raw =>
           let refused := Some (Some (errorToolResult ("fan-out " +:+ go_quote (fo_Name s) +:+ " requires a non-empty 'task'")), None) in
           match ac_task codec raw with
           | inl _ => refused
           | inr task => if String.eqb (trim_space task) "" then refused else None
           end
       end.

(** The call under a schedule of its goroutines; [None] while it waits for
    one of them. *)
Definition fan_Call (s : FanOutSource) (name : string) (sched : list nat) (w : store) : option (call_out * list SubAgentEvent * store) :=
  match fan_check s name with
  | Some out => Some (out, [], w)
  | None =>
      let st := fan_run (fo_Members s) sched w in
      if forallb is_fan_done (fn_pcs st)
      then Some ((Some (text_result (fo_Aggregate s (fn_slots st))), None), fn_events st, fn_store st) else None
  end.
End FanOut.

(** ** AsyncAgentSource *)
Record AsyncAgentSource := {
  aa_Name : string;
  aa_def : ToolDef;
  aa_Run : child_run;
  aa_maxDepth : Z;
  aa_OnEvent : bool;
  aa_InputSchema : RawJSON;
}.

Definition NewAsyncAgentSource (codec : ArgsCodec) (name description : string) (run : option child_run) (onComplete : bool)
    (maxDepth : Z) (onEvent : bool) (schema : RawJSON) : result AsyncAgentSource :=
  if String.eqb name "" then inl (EText "agent: AsyncAgentSource requires a Name")
  else match run with
       | None => inl (EText ("agent: AsyncAgentSource " +:+ go_quote name +:+ " requires a Runner"))
       | Some run =>
           if negb onComplete then
             inl (EText ("agent: AsyncAgentSource " +:+ go_quote name +:+ " requires an OnComplete (else the result is dropped)"))
           else
             match ac_schema codec (if String.eqb schema "" then ac_generated codec else schema) with
             | Some e => inl (wrap_error ("agent: schema for AsyncAgentSource " +:+ go_quote name +:+ ": ") e)
             | None =>
                 inr {| aa_Name := name; aa_def := {| td_Name := name; td_Description := description; td_Annotations := ∅ |};
                        aa_Run := run; aa_maxDepth := if (maxDepth <=? 0)%Z then defaultMaxAgentDepth else maxDepth;
                        aa_OnEvent := onEvent; aa_InputSchema := schema |}
             end
       end.

(** A child under way: its context and the first message it runs on. *)
Record bg_run := { bg_ctx : agent_ctx; bg_seed : string }.

(** [OnComplete]'s arguments. *)
Record completion := { cp_Name : string; cp_Result : option TurnResult; cp_Err : option error }.

Record async_state := { as_store : store; as_running : list bg_run; as_completed : list (bg_run * completion); as_events : list SubAgentEvent }.

Section Async.
Variable codec : ArgsCodec.
(** mcpkit's [DetachForBackground]. *)
Variable detach : agent_ctx -> agent_ctx.

Definition ack_text (name : string) : string :=
  "sub-agent " +:+ go_quote name +:+ " started in the background; its result will arrive as context when it finishes.".

Definition async_seed (s : AsyncAgentSource) (raw : RawJSON) : option string :=
  if String.eqb (aa_InputSchema s) "" then
    match ac_task codec raw with
    | inl _ => None
    | inr task => if String.eqb (trim_space task) "" then None else Some task
    end
  else Some raw.

Definition async_ctx (s : AsyncAgentSource) (ctx : agent_ctx) : agent_ctx :=
  withAgentScope (withAgentDepth (detach ctx) (ac_depth ctx + 1)) (path_Child (ac_scope ctx) (aa_Name s)).

Definition async_Call (s : AsyncAgentSource) (ctx : agent_ctx) (name : string) (args : tool_args) (st : async_state)
    : call_out * async_state :=
  if negb (String.eqb name (aa_Name s)) then ((None, Some (wrap_sentinel ErrUnknownTool (": " +:+ go_quote name))), st)
  else if (aa_maxDepth s <=? ac_depth ctx)%Z then
    ((Some (errorToolResult ("sub-agent " +:+ go_quote (aa_Name s) +:+ " refused: max depth " +:+ itoa (aa_maxDepth s) +:+ " reached")), None), st)
  else
    let '(refused, _, w) := charge ctx (as_store st) in
    let st := {| as_store := w; as_running := as_running st; as_completed := as_completed st; as_events := as_events st |} in
    if refused : bool then
      ((Some (errorToolResult ("sub-agent " +:+ go_quote (aa_Name s) +:+ " refused: call budget exhausted")), None), st)
    else
      match ac_marshal codec args with
      | inl e => ((None, Some (wrap_error ("agent: encode args for sub-agent " +:+ go_quote (aa_Name s) +:+ ": ") e)), st)
      | inr raw =>
          match async_seed s raw with
          | None => ((Some (errorToolResult ("sub-agent " +:+ go_quote (aa_Name s) +:+ " requires a non-empty 'task'")), None), st)
          | Some seed =>
              ((Some (text_result (ack_text (aa_Name s))), None),
               {| as_store := as_store st; as_running := as_running st ++ [{| bg_ctx := async_ctx s ctx; bg_seed := seed |}];
                  as_completed := as_completed st; as_events := as_events st |})
          end
      end.

(** The child's events, when somebody listens. *)
Definition async_forward (s : AsyncAgentSource) (ctx : agent_ctx) (evs : list run_event) : list SubAgentEvent :=
  omap (fun e => match e with
                 | inl e => if aa_OnEvent s
                            then Some {| sub_Scope := path_String (ac_scope ctx); sub_Depth := ac_depth ctx; sub_Event := e |} else None
                 | inr e => Some e
                 end) evs.

(** The [i]th run under way returns, and [OnComplete] is called. *)
Definition async_finish (s : AsyncAgentSource) (i : nat) (st : async_state) : async_state :=
  match as_running st !! i with
  | None => st
  | Some b =>
      let '(r, evs, w) := aa_Run s (bg_ctx b) [text_message RoleUser (bg_seed b)] (as_store st) in
      {| as_store := w; as_running := delete i (as_running st);
         as_completed := as_completed st ++ [(b, {| cp_Name := aa_Name s; cp_Result := r.1; cp_Err := r.2 |})];
         as_events := as_events st ++ async_forward s (bg_ctx b) evs |}
  end.

Inductive async_op := OpCall (ctx : agent_ctx) (name : string) (args : tool_args) | OpReturn (i : nat).

Definition async_do (s : AsyncAgentSource) (st : async_state) (op : async_op) : async_state :=
  match op with OpCall ctx name args => (async_Call s ctx name args st).2 | OpReturn i => async_finish s i st end.

Definition async_trace (s : AsyncAgentSource) (ops : list async_op) (st : async_state) : async_state := foldl (async_do s) st ops.
End Async.

(** ** The scoped source of a server's agent *)
Section Scoped.
Context {Ctx W E : Type}.

Record scopedSource := { sc_defs : list ToolDef; sc_names : gset string; sc_backing : ToolSource Ctx W E }.

Definition newScopedSource (defs : list ToolDef) (backing : ToolSource Ctx W E) : scopedSource :=
  {| sc_defs := defs; sc_names := list_to_set (names_of defs); sc_backing := backing |}.

Definition scoped_Call (s : scopedSource) (ctx : Ctx) (name : string) (args : tool_args) : eff W E call_out :=
  if bool_decide (name ∈ sc_names s) then src_Call (sc_backing s) ctx name args
  else eff_ret (None, Some (wrap_sentinel ErrUnknownTool (": " +:+ go_quote name))).

Definition scoped_source (s : scopedSource) : ToolSource Ctx W E :=
  {| src_Tools := fun _ => eff_ret (inr (sc_defs s)); src_Call := scoped_Call s |}.

(** A scoped source with a duplicate-free scope the backing can call keeps
    the contract of a tool source. *)
#[export] Instance scoped_lawful defs backing :
  NoDup (names_of defs) ->
  (forall ctx name args w e, name ∈ names_of defs ->
     snd (eff_value (src_Call backing ctx name args) w) = Some e -> error_is ErrUnknownTool e = false) ->
  LawfulSource (scoped_source (newScopedSource defs backing)) defs.
Proof.
  intros Hnd Hb. split; [done|done|]. intros ctx name args w e Hn. cbn. unfold scoped_Call.
  rewrite bool_decide_eq_true_2; [by apply Hb|]. cbn. by apply elem_of_list_to_set.
Qed.

(** A server's agent reaches the tools its definition names and no
    others.  Whatever its child calls, a name outside the scope is an
    unknown tool without the server being asked, also when the server has
    that tool; a name inside is the server's own answer; and the listing is
    the scope whatever the server lists. *)
Theorem scoped_boundary defs (backing backing' : ToolSource Ctx W E) ctx name args w :
  let s := scoped_source (newScopedSource defs backing) in
  src_Tools s ctx w = (inr defs, [], w)
  /\ (name ∈ names_of defs -> src_Call s ctx name args w = src_Call backing ctx name args w)
  /\ (name ∉ names_of defs ->
      src_Call s ctx name args w = src_Call (scoped_source (newScopedSource defs backing')) ctx name args w
      /\ exists e, src_Call s ctx name args w = ((None, Some e), [], w) /\ error_is ErrUnknownTool e = true).
Proof.
  cbv zeta. split; [done|]. cbn. unfold scoped_Call. cbn. split.
  - intros Hn. by rewrite bool_decide_eq_true_2 by (by apply elem_of_list_to_set).
  - intros Hn. rewrite bool_decide_eq_false_2 by (by rewrite elem_of_list_to_set). split; [done|]. eexists. by split.
Qed.
End Scoped.

(** ** What a fan-out collects *)
Section FanProps.
Variable codec : ArgsCodec.
Variable ctx : agent_ctx.
Variable args : tool_args.
Variable members : list AgentSource.

Abbreviation step := (fan_step codec ctx args members).
Abbreviation run := (fan_run codec ctx args members).

(** What a goroutine's slot holds: nothing yet, the refusal of its guards,
    or the answer of its own child's run. *)
Definition slot_ok (m : AgentSource) (pc : fan_pc) (slot : FanOutResult) : Prop :=
  match pc with
  | FanStart | FanAdmitted => slot = zero_result
  | FanDone false => exists w res, eff_value (member_begin m ctx) w = Some res /\ slot = slot_result m (Some res, None)
  | FanDone true => exists w, slot = slot_result m (eff_value (member_run codec m ctx args) w)
  end.

Definition fan_inv (st : fan_state) : Prop :=
  length (fn_pcs st) = length members /\ length (fn_slots st) = length members
  /\ forall i m pc slot, members !! i = Some m -> fn_pcs st !! i = Some pc -> fn_slots st !! i = Some slot -> slot_ok m pc slot.

Lemma fan_update st i m w pc slot' evs :
  fan_inv st -> members !! i = Some m -> (forall slot, fn_slots st !! i = Some slot -> slot_ok m pc (default slot slot')) ->
  fan_inv {| fn_store := w; fn_pcs := <[i := pc]> (fn_pcs st);
             fn_slots := match slot' with Some s => <[i := s]> (fn_slots st) | None => fn_slots st end; fn_events := evs |}.
Proof.
  intros (Hp & Hs & H) Hm Hok. unfold fan_inv. cbn [fn_pcs fn_slots]. split; [by rewrite length_insert|].
  split; [by destruct slot'; rewrite ?length_insert|]. assert (i < length members) as Hi by by eapply lookup_lt_Some. intros j m' pc' slot Hj Hpc Hslot.
  destruct (decide (i = j)) as [<-|Hne].
  - rewrite list_lookup_insert_eq in Hpc by lia. simplify_eq. destruct slot' as [s|].
    + rewrite list_lookup_insert_eq in Hslot by lia. simplify_eq.
      destruct (lookup_lt_is_Some_2 (fn_slots st) i) as [old Hold]; [lia|]. exact (Hok _ Hold).
    + exact (Hok _ Hslot).
  - rewrite list_lookup_insert_ne in Hpc by done. eapply H; [done..|]. destruct slot'; [|done]. by rewrite list_lookup_insert_ne in Hslot.
Qed.

Lemma fan_step_inv st i : fan_inv st -> fan_inv (step st i).
Proof.
  intros I. unfold fan_step. destruct (members !! i) as [m|] eqn:Hm; [|done].
  destruct (fn_pcs st !! i) as [[| |ran]|] eqn:Hpc; try done.
  - rewrite eff_run. destruct (eff_value (member_begin m ctx) (fn_store st)) as [res|] eqn:Hb.
    + apply (fan_update st i m _ (FanDone false) (Some (slot_result m (Some res, None)))); [done..|]. intros slot _. cbn. eauto.
    + apply (fan_update st i m _ FanAdmitted None); [done..|]. intros slot Hs. cbn. destruct I as (_ & _ & H). by apply (H i m FanStart).
  - rewrite eff_run. apply (fan_update st i m _ (FanDone true) (Some _)); [done..|]. intros slot _. cbn. eauto.
Qed.

Lemma fan_start_inv w : fan_inv (fan_start members w).
Proof.
  unfold fan_inv. cbn [fn_pcs fn_slots fan_start]. rewrite !length_replicate. split; [done|]. split; [done|].
  intros i m pc slot _ [-> _]%lookup_replicate [-> _]%lookup_replicate. done.
Qed.

Lemma fan_run_inv sched w : fan_inv (run sched w).
Proof.
  unfold fan_run. induction sched as [|i sched IH] using rev_ind; [apply fan_start_inv|]. rewrite foldl_snoc. by apply fan_step_inv.
Qed.

(** The turns goroutine [i] has had. *)
Definition turns (i : nat) (sched : list nat) : nat := length (filter (fun j => j = i) sched).

Definition pc_rank (pc : fan_pc) : nat := match pc with FanStart => 0 | FanAdmitted => 1 | FanDone _ => 2 end.

Lemma fan_step_rank st i j pc :
  fan_inv st -> i < length members -> fn_pcs st !! i = Some pc ->
  exists pc', fn_pcs (step st j) !! i = Some pc' /\ pc_rank pc <= pc_rank pc' /\ (j = i -> Nat.min 2 (S (pc_rank pc)) <= pc_rank pc').
Proof.
  intros (Hp & _ & _) Hi Hpc. unfold fan_step. destruct (members !! j) as [m|] eqn:Hm; cycle 1.
  { exists pc. split; [done|]. split; [done|]. intros ->. apply lookup_ge_None in Hm. lia. }
  destruct (decide (j = i)) as [->|Hne].
  - rewrite Hpc. destruct pc as [| |ran]; cbn; [| |by exists (FanDone ran); split; [done|cbn; lia]];
      repeat case_match; cbn; rewrite list_lookup_insert_eq by lia; eexists; (split; [done|]); cbn; lia.
  - exists pc. split; [|done]. repeat case_match; cbn; rewrite ?list_lookup_insert_ne by done; done.
Qed.

Lemma fan_run_rank sched w i :
  i < length members -> exists pc, fn_pcs (run sched w) !! i = Some pc /\ Nat.min 2 (turns i sched) <= pc_rank pc.
Proof.
  intros Hi. unfold fan_run. induction sched as [|j sched IH] using rev_ind.
  { exists FanStart. split; [by apply lookup_replicate_2|cbn; lia]. }
  rewrite foldl_snoc. destruct IH as (pc & Hpc & Hr). destruct (fan_step_rank _ i j pc (fan_run_inv sched w) Hi Hpc) as (pc' & Hpc' & H1 & H2).
  exists pc'. split; [done|]. unfold turns in *. rewrite filter_app, length_app, filter_cons, filter_nil. case_decide as Hj; cbn [length]; [specialize (H2 Hj); lia|lia].
Qed.

Lemma forallb_lookup {A} (f : A -> bool) l : forallb f l = true <-> forall i x, l !! i = Some x -> f x = true.
Proof. by rewrite forallb_forall, <- Forall_lookup, Forall_forall; setoid_rewrite list_elem_of_In. Qed.

Lemma fan_run_done sched w : (forall i, i < length members -> 2 <= turns i sched) -> forallb is_fan_done (fn_pcs (run sched w)) = true.
Proof.
  intros Hs. apply forallb_lookup. intros i pc Hpc.
  assert (i < length members) as Hi by (destruct (fan_run_inv sched w) as (<- & _); by eapply lookup_lt_Some).
  destruct (fan_run_rank sched w i Hi) as (pc' & Hpc' & Hr). rewrite Hpc in Hpc'. simplify_eq. specialize (Hs i Hi).
  destruct pc'; cbn [pc_rank is_fan_done] in *; [lia..|done].
Qed.

Lemma fr_Name_slot m out : fr_Name (slot_result m out) = as_Name m.
Proof. by destruct out as [[] []]. Qed.

Lemma fan_run_slots sched w :
  forallb is_fan_done (fn_pcs (run sched w)) = true ->
  map fr_Name (fn_slots (run sched w)) = map as_Name members
  /\ forall i m, members !! i = Some m -> exists ran slot,
       fn_pcs (run sched w) !! i = Some (FanDone ran) /\ fn_slots (run sched w) !! i = Some slot /\ slot_ok m (FanDone ran) slot.
Proof.
  rewrite forallb_lookup. intros Hd. destruct (fan_run_inv sched w) as (Hp & Hs & H).
  assert (forall i m, members !! i = Some m -> exists ran slot,
       fn_pcs (run sched w) !! i = Some (FanDone ran) /\ fn_slots (run sched w) !! i = Some slot /\ slot_ok m (FanDone ran) slot) as Hall.
  { intros i m Hm. assert (i < length members) by by eapply lookup_lt_Some.
    destruct (lookup_lt_is_Some_2 (fn_pcs (run sched w)) i) as [pc Hpc]; [lia|].
    destruct (lookup_lt_is_Some_2 (fn_slots (run sched w)) i) as [slot Hslot]; [lia|].
    pose proof (Hd _ _ Hpc) as Hpd. destruct pc as [| |ran]; try done. exists ran, slot. split; [done|]. split; [done|]. by eapply H. }
  split; [|done]. change (fr_Name <$> fn_slots (run sched w) = as_Name <$> members). apply list_eq. intros i. rewrite !list_lookup_fmap.
  destruct (members !! i) as [m|] eqn:Hm.
  - destruct (Hall i m Hm) as (ran & slot & _ & -> & Hok). cbn. f_equal.
    destruct ran; [destruct Hok as (? & ->)|destruct Hok as (? & ? & _ & ->)]; apply fr_Name_slot.
  - cbn. apply lookup_ge_None in Hm. by rewrite (proj2 (lookup_ge_None _ _)) by lia.
Qed.
End FanProps.

(** A fan-out returns once every member has and loses nobody.  Under any
    schedule that lets each goroutine move twice the call is answered; the
    aggregate is made of one result per member, in the members' order
    however they finished, each the refusal of that member's own guards or
    the answer of that member's own child, so a member that fails or is
    refused leaves the others' answers alone, and the call itself does not
    fail. *)
Theorem fanout_collects codec ctx args s sched w :
  fan_check codec args s (fo_Name s) = None ->
  (forall i, i < length (fo_Members s) -> 2 <= turns i sched) ->
  exists slots evs w',
    fan_Call codec ctx args s (fo_Name s) sched w = Some ((Some (text_result (fo_Aggregate s slots)), None), evs, w')
    /\ map fr_Name slots = map as_Name (fo_Members s)
    /\ forall i m, fo_Members s !! i = Some m -> exists slot, slots !! i = Some slot /\
         ((exists w res, eff_value (member_begin m ctx) w = Some res /\ slot = slot_result m (Some res, None))
          \/ exists w, slot = slot_result m (eff_value (member_run codec m ctx args) w)).
Proof.
  intros Hc Hs. pose proof (fan_run_done codec ctx args _ sched w Hs) as Hd. unfold fan_Call. rewrite Hc, Hd.
  destruct (fan_run_slots codec ctx args _ sched w Hd) as (Hn & Hall). do 3 eexists. split; [done|]. split; [done|].
  intros i m Hm. destruct (Hall i m Hm) as (ran & slot & _ & Hslot & Hok). exists slot. split; [done|]. destruct ran; [by right|by left].
Qed.

Definition echo_run : child_run := fun c msgs w =>
  ((Some {| res_Text := match msgs with m :: _ => m_Text m | [] => "" end; res_Messages := []; res_Usage := Usage_zero;
            res_UsageByModel := None; res_Steps := 1; res_FinishReason := ""; res_Structured := ""; res_StructuredError := "" |}, None), [], w).

Definition member (name : string) (run : child_run) : AgentSource :=
  {| as_Name := name; as_def := {| td_Name := name; td_Description := ""; td_Annotations := ∅ |}; as_Run := run;
     as_maxDepth := 3; as_OnEvent := false; as_InputSchema := "" |}.

Definition demo_fan : FanOutSource :=
  {| fo_Name := "ask"; fo_def := {| td_Name := "ask"; td_Description := ""; td_Annotations := ∅ |};
     fo_Members := [member "a" echo_run; member "b" (fun _ _ w => ((None, Some (EText "no model")), [], w))];
     fo_Aggregate := defaultFanOutAggregate |}.

Definition empty_store : store := {| st_sinks := ∅; st_calls := ∅ |}.

Lemma fanout_collects_witness :
  (exists slots evs w', fan_Call demo_codec background ∅ demo_fan "ask" [1; 0; 0; 1] empty_store
     = Some ((Some (text_result (defaultFanOutAggregate slots)), None), evs, w') /\ map fr_Name slots = ["a"; "b"])
  /\ map fr_IsError (fn_slots (fan_run demo_codec background ∅ (fo_Members demo_fan) [1; 0; 0; 1] empty_store)) = [false; true].
Proof.
  split; [|reflexivity].
  destruct (fanout_collects demo_codec background ∅ demo_fan [1; 0; 0; 1] empty_store) as (slots & evs & w' & H & Hn & _).
  - reflexivity.
  - intros i Hi. cbn in Hi. destruct i as [|[|i]]; [cbv; lia..|lia].
  - exists slots, evs, w'. by split.
Defined.

(** ** Fan-outs and the call budget *)

(** A run only spends from counter [a], and not without end. *)
Definition frugal (a : positive) (run : child_run) : Prop :=
  forall c msgs w b, st_calls w !! a = Some b ->
    exists b', st_calls (eff_world (run c msgs) w) !! a = Some b' /\ (b' <= b)%Z /\ (b' = b \/ - 2 ^ 62 <= b')%Z.

Section FanBudget.
Variable codec : ArgsCodec.
Variable ctx : agent_ctx.
Variable args : tool_args.
Variable members : list AgentSource.
Variable a : positive.
Hypothesis shared : ac_calls ctx = Some a.
Hypothesis few : (Z.of_nat (length members) < 2 ^ 62)%Z.
Hypothesis all_frugal : Forall (fun m => frugal a (as_Run m)) members.

Lemma member_begin_calls m w b :
  st_calls w !! a = Some b -> (- 2 ^ 63 < b < 2 ^ 63)%Z ->
  exists b', st_calls (eff_world (member_begin m ctx) w) !! a = Some b' /\
    match eff_value (member_begin m ctx) w with
    | Some _ => b' = b \/ (b <= 0 /\ b' = b - 1)%Z
    | None => (1 <= b /\ b' = b - 1)%Z
    end.
Proof.
  intros Hb Hr. unfold member_begin. destruct (as_maxDepth m <=? ac_depth ctx)%Z; [exists b; split; [exact Hb|by left]|].
  rewrite eff_value_bind, eff_world_bind. unfold charge, eff_value, eff_world. rewrite shared, Hb. cbn [charge_call].
  rewrite wrap64_id by (unfold in_int64, int64_min, int64_max; lia). cbn. exists (b - 1)%Z. split; [apply lookup_insert_eq|].
  destruct (Z.ltb_spec (b - 1) 0); cbn; lia.
Qed.

Lemma member_run_calls m w b :
  frugal a (as_Run m) -> st_calls w !! a = Some b ->
  exists b', st_calls (eff_world (member_run codec m ctx args) w) !! a = Some b' /\ (b' <= b)%Z /\ (b' = b \/ - 2 ^ 62 <= b')%Z.
Proof.
  intros Hf Hb. unfold member_run. destruct (ac_marshal codec args) as [e|raw]; [exists b; split; [exact Hb|lia]|].
  destruct (seed_of codec m raw) as [seed|]; [|exists b; split; [exact Hb|lia]]. rewrite eff_world_bind. cbn. unfold run_child, eff_world.
  destruct (Hf (child_ctx m ctx) [text_message RoleUser seed] w b Hb) as (b' & Hb' & H). exists b'. split; [|done].
  unfold eff_world in Hb'. by destruct (as_Run m _ _ w) as [[? ?] ?].
Qed.

Lemma count_insert (P : fan_pc -> bool) pcs i old new :
  pcs !! i = Some old ->
  (Z.of_nat (length (filter (fun pc => P pc = true) (<[i := new]> pcs))) =
   Z.of_nat (length (filter (fun pc => P pc = true) pcs)) - (if P old then 1 else 0) + (if P new then 1 else 0))%Z.
Proof.
  revert i. induction pcs as [|pc pcs IH]; intros i; [done|]. destruct i as [|i].
  - intros [= ->]. change (<[0:=new]> (old :: pcs)) with (new :: pcs). rewrite !filter_cons. destruct (P old), (P new); repeat case_decide; try done; cbn [length]; lia.
  - intros H. change (<[S i:=new]> (pc :: pcs)) with (pc :: <[i:=new]> pcs). rewrite !filter_cons.
    specialize (IH i H). case_decide; cbn [length]; lia.
Qed.

Definition not_start (pc : fan_pc) : bool := match pc with FanStart => false | _ => true end.

Definition fan_count (P : fan_pc -> bool) (pcs : list fan_pc) : Z := Z.of_nat (length (filter (fun pc => P pc = true) pcs)).

Definition fan_budget_inv (b0 : Z) (st : fan_state) : Prop :=
  length (fn_pcs st) = length members /\
  exists b, st_calls (fn_store st) !! a = Some b /\ (b <= b0)%Z
    /\ (fan_count has_run (fn_pcs st) + Z.max 0 b <= Z.max 0 b0)%Z
    /\ (- 2 ^ 62 - fan_count not_start (fn_pcs st) <= b)%Z.

Lemma fan_step_budget b0 st i :
  (b0 < 2 ^ 63)%Z -> fan_budget_inv b0 st -> fan_budget_inv b0 (fan_step codec ctx args members st i).
Proof.
  intros Hb0 (Hl & b & Hb & Hle & Hran & Hlow). unfold fan_step. destruct (members !! i) as [m|] eqn:Hm; [|by split; eauto].
  assert (fan_count not_start (fn_pcs st) <= Z.of_nat (length members))%Z as Hmax.
  { unfold fan_count. rewrite <- Hl. apply inj_le, length_filter. }
  destruct (fn_pcs st !! i) as [[| |ran]|] eqn:Hpc; try (by split; eauto); rewrite eff_run.
  - destruct (member_begin_calls m (fn_store st) b Hb) as (b' & Hb' & Hcase); [lia|].
    destruct (eff_value (member_begin m ctx) (fn_store st)); (split; [by cbn; rewrite length_insert|]; exists b'; split; [done|]);
      unfold fan_count in *; cbn [fn_pcs]; rewrite !(count_insert _ _ _ _ _ Hpc); cbn [has_run not_start]; lia.
  - assert (frugal a (as_Run m)) as Hf by by eapply Forall_lookup in all_frugal.
    destruct (member_run_calls m (fn_store st) b Hf Hb) as (b' & Hb' & H1 & H2).
    split; [by cbn; rewrite length_insert|]. exists b'. split; [done|]. unfold fan_count in *. cbn [fn_pcs].
    rewrite !(count_insert _ _ _ _ _ Hpc). cbn [has_run not_start]. lia.
Qed.

Lemma fan_run_budget sched w b0 :
  st_calls w !! a = Some b0 -> (- 2 ^ 62 <= b0 < 2 ^ 63)%Z -> fan_budget_inv b0 (fan_run codec ctx args members sched w).
Proof.
  intros Hb Hr. unfold fan_run. induction sched as [|i sched IH] using rev_ind.
  - split; [by cbn; rewrite length_replicate|]. exists b0. split; [done|]. split; [done|]. unfold fan_count. cbn.
    assert (forall P n, P FanStart = false -> filter (fun pc => P pc = true) (replicate n FanStart) = []) as Hnone.
    { intros P n HP. apply filter_none. apply Forall_replicate. done. }
    rewrite !Hnone by done. cbn. lia.
  - rewrite foldl_snoc. apply fan_step_budget; [lia|done].
Qed.
End FanBudget.

(** The goroutines of a fan-out cannot overspend the call budget they
    share.  However they interleave, and whatever their children spend from
    it themselves, the children run are at most what the counter stood at,
    and none when it was used up. *)
Theorem fanout_budget codec ctx args members a sched w b :
  ac_calls ctx = Some a -> (Z.of_nat (length members) < 2 ^ 62)%Z ->
  Forall (fun m => frugal a (as_Run m)) members ->
  st_calls w !! a = Some b -> (- 2 ^ 62 <= b < 2 ^ 63)%Z ->
  (Z.of_nat (length (filter (fun pc => has_run pc = true) (fn_pcs (fan_run codec ctx args members sched w)))) <= Z.max 0 b)%Z.
Proof.
  intros Ha Hn Hf Hb Hr. destruct (fan_run_budget codec ctx args members a Ha Hn Hf sched w b Hb Hr) as (_ & b' & _ & _ & H & _).
  unfold fan_count in H. lia.
Qed.

Lemma fanout_budget_witness :
  let ctx := {| ac_depth := 0; ac_scope := []; ac_calls := Some 1%positive; ac_dispatchSink := None; ac_parentSink := None |} in
  let st := fan_run demo_codec ctx ∅ (fo_Members demo_fan) [1; 0; 0; 1] {| st_sinks := ∅; st_calls := {[ 1%positive := 1%Z ]} |} in
  (Z.of_nat (length (filter (fun pc => has_run pc = true) (fn_pcs st))) <= 1)%Z /\ map fr_IsError (fn_slots st) = [true; true].
Proof.
  cbv zeta. split; [|reflexivity].
  refine (fanout_budget demo_codec {| ac_depth := 0; ac_scope := []; ac_calls := Some 1%positive; ac_dispatchSink := None; ac_parentSink := None |}
    ∅ (fo_Members demo_fan) 1%positive [1; 0; 0; 1] {| st_sinks := ∅; st_calls := {[ 1%positive := 1%Z ]} |} 1 _ _ _ _ _); try done.
  repeat constructor; intros c msgs w b Hb; exists b; (split; [exact Hb|lia]).
Defined.

(** ** Background runs *)
Section AsyncProps.
Variable codec : ArgsCodec.
Variable detach : agent_ctx -> agent_ctx.
Variable s : AsyncAgentSource.

(** The runs the calls of a trace start. *)
Definition call_starts (op : async_op) (st : async_state) : list bg_run :=
  drop (length (as_running st)) (as_running (async_do codec detach s st op)).

Fixpoint started (ops : list async_op) (st : async_state) : list bg_run :=
  match ops with
  | [] => []
  | op :: ops => (match op with OpCall _ _ _ => call_starts op st | OpReturn _ => [] end) ++ started ops (async_do codec detach s st op)
  end.

(** One call: an acknowledgement with exactly one new run, or an answer and
    nothing started. *)
Lemma async_Call_spec ctx name args st :
  let '(out, st') := async_Call codec detach s ctx name args st in
  as_completed st' = as_completed st /\ as_events st' = as_events st /\
  ((exists seed, out = (Some (text_result (ack_text (aa_Name s))), None)
      /\ as_running st' = as_running st ++ [{| bg_ctx := async_ctx detach s ctx; bg_seed := seed |}]
      /\ name = aa_Name s /\ (ac_depth ctx < aa_maxDepth s)%Z /\ eff_value (charge ctx) (as_store st) = false)
   \/ (as_running st' = as_running st /\
       match out with (Some res, None) => tr_IsError res = true | (_, Some _) => True | (None, None) => False end)).
Proof.
  unfold async_Call. destruct (String.eqb_spec name (aa_Name s)) as [->|]; cbn [negb]; [|eauto 6].
  destruct (Z.leb_spec (aa_maxDepth s) (ac_depth ctx)); [by eauto 6|]. rewrite eff_run.
  destruct (eff_value (charge ctx) (as_store st)) eqn:Hc; [by eauto 6|].
  destruct (ac_marshal codec args) as [e|raw]; [by eauto 6|]. destruct (async_seed codec s raw) as [seed|]; [|by eauto 6].
  cbn. split; [done|]. split; [done|]. left. exists seed. by split_and!.
Qed.

(** What [OnComplete] was told of a run is what the run returned. *)
Definition completed_ok (bc : bg_run * completion) : Prop :=
  exists w, let r := eff_value (aa_Run s (bg_ctx bc.1) [text_message RoleUser (bg_seed bc.1)]) w in
    bc.2 = {| cp_Name := aa_Name s; cp_Result := r.1; cp_Err := r.2 |}.

Lemma async_do_completed op st : Forall completed_ok (as_completed st) -> Forall completed_ok (as_completed (async_do codec detach s st op)).
Proof.
  destruct op as [ctx name args|i]; cbn.
  - pose proof (async_Call_spec ctx name args st) as H. destruct (async_Call codec detach s ctx name args st) as [out st']. cbn. by destruct H as (-> & _).
  - unfold async_finish. destruct (as_running st !! i) as [b|]; [|done]. rewrite eff_run. intros H. cbn.
    apply Forall_app. split; [done|]. constructor; [|constructor]. by exists (as_store st).
Qed.

Lemma async_do_accounts op st :
  (as_completed (async_do codec detach s st op)).*1 ++ as_running (async_do codec detach s st op) ≡ₚ
    (as_completed st).*1 ++ as_running st ++ match op with OpCall _ _ _ => call_starts op st | OpReturn _ => [] end.
Proof.
  destruct op as [ctx name args|i]; cbn.
  - unfold call_starts. cbn. pose proof (async_Call_spec ctx name args st) as H.
    destruct (async_Call codec detach s ctx name args st) as [out st']. cbn. destruct H as (-> & _ & [(seed & _ & -> & _)|[-> _]]).
    + by rewrite drop_app_length.
    + by rewrite drop_all, app_nil_r.
  - rewrite app_nil_r. unfold async_finish. destruct (as_running st !! i) as [b|] eqn:Hb; [|done]. rewrite eff_run. cbn.
    rewrite fmap_app, <- app_assoc. cbn. by rewrite <- delete_Permutation.
Qed.

Lemma async_trace_accounts ops st :
  (as_completed (async_trace codec detach s ops st)).*1 ++ as_running (async_trace codec detach s ops st) ≡ₚ
    (as_completed st).*1 ++ as_running st ++ started ops st.
Proof.
  revert st. induction ops as [|op ops IH]; intros st; cbn [started]; [by rewrite app_nil_r|].
  change (async_trace codec detach s (op :: ops) st) with (async_trace codec detach s ops (async_do codec detach s st op)).
  rewrite IH, app_assoc, async_do_accounts, <- !app_assoc. done.
Qed.

Lemma async_trace_completed ops st :
  Forall completed_ok (as_completed st) -> Forall completed_ok (as_completed (async_trace codec detach s ops st)).
Proof. revert st. induction ops as [|op ops IH]; intros st H; [done|]. by apply IH, async_do_completed. Qed.

Lemma async_drain st : as_running (async_trace codec detach s (replicate (length (as_running st)) (OpReturn 0)) st) = [].
Proof.
  remember (length (as_running st)) as n eqn:Hn. revert st Hn. induction n as [|n IH]; intros st Hn; [by apply nil_length_inv|].
  cbn. apply IH. unfold async_finish. destruct (as_running st) as [|b l] eqn:Hr; [done|]. cbn. rewrite eff_run. cbn in *. lia.
Qed.
End AsyncProps.

(** A background agent is started once per acknowledgement and reported
    once.  Over any interleaving of calls and returns, the runs reported to
    OnComplete together with those still under way are the runs the calls
    started, none twice and none lost; each report is what its own run
    returned; a call that is refused starts nothing; and however many are
    under way, letting each return leaves none. *)
Theorem async_reports_once codec detach s ops w :
  let st0 := {| as_store := w; as_running := []; as_completed := []; as_events := [] |} in
  let st := async_trace codec detach s ops st0 in
  (as_completed st).*1 ++ as_running st ≡ₚ started codec detach s ops st0
  /\ Forall (completed_ok s) (as_completed st)
  /\ (forall ctx name args, as_running (async_Call codec detach s ctx name args st).2 <> as_running st ->
        (async_Call codec detach s ctx name args st).1 = (Some (text_result (ack_text (aa_Name s))), None)
        /\ (ac_depth ctx < aa_maxDepth s)%Z /\ length (as_running (async_Call codec detach s ctx name args st).2) = S (length (as_running st)))
  /\ exists more, as_running (async_trace codec detach s more st) = []
       /\ (as_completed (async_trace codec detach s more st)).*1 ≡ₚ started codec detach s (ops ++ more) st0.
Proof.
  cbv zeta. set (st0 := {| as_store := w |}). set (st := async_trace codec detach s ops st0). split_and!.
  - apply async_trace_accounts.
  - by apply async_trace_completed.
  - intros ctx name args Hne. pose proof (async_Call_spec codec detach s ctx name args st) as H.
    destruct (async_Call codec detach s ctx name args st) as [out st']. destruct H as (_ & _ & [(seed & -> & Hr & _ & Hd & _)|[Hr _]]); [|done].
    split; [done|]. split; [done|]. cbn. rewrite Hr, length_app. cbn. lia.
  - exists (replicate (length (as_running st)) (OpReturn 0)). split; [apply async_drain|].
    pose proof (async_trace_accounts codec detach s (ops ++ replicate (length (as_running st)) (OpReturn 0)) st0) as H.
    unfold async_trace in H at 1 2. rewrite foldl_app in H. change (foldl (async_do codec detach s) st0 ops) with st in H.
    pose proof (async_drain codec detach s st) as Hd. unfold async_trace in Hd. rewrite Hd, app_nil_r in H. exact H.
Qed.

(** ** A background child's signals *)

Definition demo_async : AsyncAgentSource :=
  {| aa_Name := "later"; aa_def := {| td_Name := "later"; td_Description := ""; td_Annotations := ∅ |}; aa_Run := echo_run;
     aa_maxDepth := 3; aa_OnEvent := false; aa_InputSchema := "" |}.

(** With a detached context that keeps its values, the child an agent starts
    in the background signals the sink its spawner signals, not the
    spawner's own dispatch: the signal of a sub-agent's child goes to the
    grandparent, a level the comment on [signalSink] says is never
    skipped. *)
Lemma async_signal_skips_level :
  let parent := withDispatchSink background 1 in
  let spawner := withDispatchSink (child_ctx (member "mid" echo_run) parent) 2 in
  let sig := {| sig_Kind := SignalEscalate; sig_Name := ""; sig_Note := "found"; sig_Data := ""; sig_Source := "" |} in
  let st := {| st_sinks := {[ 1%positive := new_sink None; 2%positive := new_sink None ]}; st_calls := ∅ |} in
  let raised_to ctx := (fun k => sk_signals k) <$> st_sinks (snd (RaiseSignal ctx sig st)) !! 2%positive in
  raised_to (async_ctx id demo_async spawner) = Some []
  /\ (sk_signals <$> st_sinks (snd (RaiseSignal (async_ctx id demo_async spawner) sig st)) !! 1%positive)
     = Some [stamped (async_ctx id demo_async spawner) sig]
  /\ raised_to (child_ctx (member "leaf" echo_run) spawner) = Some [stamped (child_ctx (member "leaf" echo_run) spawner) sig].
Proof. done. Qed.
