(* ===== verification/Output.v ===== *)
(** * Output of commands: src/ext/exec/output.go, src/ext/exec/procs.go, src/ext/exec/procs_stream.go

    A command's output is kept in a buffer that drops what is too much: the
    middle for a command that is waited for, the oldest for a process that
    outlives its call, and past a budget for what is shown to the user as it
    arrives.  Every drop is counted.  The sizes are positive, as the
    constructors make them. *)

From S2P Require Import Prelude GoStr.
Local Open Scope nat_scope.

Definition blen (s : string) : nat := String.length s.

(** The last [n] bytes. *)
Definition str_last (n : nat) (s : string) : string := str_drop (blen s - n) s.

(** ** capBuffer *)
Record capBuffer := { cb_max : nat; cb_head : string; cb_tail : string; cb_dropped : nat }.

Definition newCapBuffer (max : nat) : capBuffer := {| cb_max := max; cb_head := ""; cb_tail := ""; cb_dropped := 0 |}.

Definition cap_Write (c : capBuffer) (p : string) : capBuffer :=
  let half := cb_max c / 2 in
  let take := Nat.min (half - blen (cb_head c)) (blen p) in
  let head := cb_head c +:+ str_take take p in
  let p := str_drop take p in
  if String.eqb p "" then {| cb_max := cb_max c; cb_head := head; cb_tail := cb_tail c; cb_dropped := cb_dropped c |}
  else
    let tail := cb_tail c +:+ p in
    let excess := blen tail - (cb_max c - half) in
    {| cb_max := cb_max c; cb_head := head; cb_tail := str_drop excess tail; cb_dropped := cb_dropped c + excess |}.

Definition dropped_note (n : nat) : string :=
  newline +:+ "... " +:+ itoa (Z.of_nat n) +:+ " bytes of output dropped from the middle ..." +:+ newline.

Definition cap_View (c : capBuffer) (max : Z) : string * bool :=
  let kept := blen (cb_head c) + blen (cb_tail c) in
  let n := Z.to_nat max in
  let '(head, tail, dropped) :=
    if (0 <? max)%Z && (n <? kept) then
      let all := cb_head c +:+ cb_tail c in
      (str_take (n / 2) all, str_drop (kept - (n - n / 2)) all, cb_dropped c + (kept - n))
    else (cb_head c, cb_tail c, cb_dropped c) in
  if Nat.eqb dropped 0 then (head +:+ tail, false) else (head +:+ dropped_note dropped +:+ tail, true).

(** ** tailBuffer *)
Record tailBuffer := { tb_buf : string; tb_max : nat; tb_total : nat }.

Definition tail_Write (b : tailBuffer) (p : string) : tailBuffer :=
  let buf := tb_buf b +:+ p in
  {| tb_buf := str_drop (blen buf - tb_max b) buf; tb_max := tb_max b; tb_total := tb_total b + blen p |}.

(** The output after [from], the new position, and what was dropped. *)
Definition tail_since (b : tailBuffer) (from : nat) : string * nat * nat :=
  let start := tb_total b - blen (tb_buf b) in
  let '(dropped, from) := if from <? start then (start - from, start) else (0, from) in
  (str_drop (from - start) (tb_buf b), tb_total b, dropped).

(** The same of a log file, whose content is [log] when it is read. *)
Definition readLogSince (log : string) (from max : nat) : string * nat * nat :=
  let size := blen log in
  if size <=? from then ("", from, 0)
  else
    let '(dropped, start) := if max <? size - from then (size - max - from, size - max) else (0, from) in
    let text := str_drop start log in
    (text, start + blen text, dropped).

(** What one call shows of a long stretch. *)
Definition procReadMax : nat := 16 * 1024.

Definition clip_middle (text : string) : string :=
  if procReadMax <? blen text then
    str_take (procReadMax / 2) text
    +:+ (newline +:+ "... " +:+ itoa (Z.of_nat (blen text - procReadMax)) +:+ " bytes dropped from the middle ..." +:+ newline)
    +:+ str_drop (blen text - procReadMax / 2) text
  else text.

(** ** outputStream *)
Definition streamAt : nat := 8 * 1024.
Definition streamMax : nat := 16 * 1024.

(** [os_kick] is the channel of capacity one. *)
Record outputStream := { os_pending : string; os_dropped : nat; os_paused : bool; os_sent : nat; os_budget : Z; os_kick : bool }.

Definition newOutputStream (budget : Z) : outputStream :=
  {| os_pending := ""; os_dropped := 0; os_paused := false; os_sent := 0; os_budget := budget; os_kick := false |}.

Definition stream_add (st : outputStream) (b : string) : outputStream :=
  if os_paused st then st
  else
    let pending := os_pending st +:+ b in
    let over := blen pending - streamMax in
    let pending := str_drop over pending in
    {| os_pending := pending; os_dropped := os_dropped st + over; os_paused := false; os_sent := os_sent st;
       os_budget := os_budget st; os_kick := os_kick st || (streamAt <=? blen pending) |}.

Record ProcessOutput := { po_Text : string; po_Dropped : nat; po_Paused : bool }.

Definition stream_take (st : outputStream) : option ProcessOutput * outputStream :=
  if String.eqb (os_pending st) "" && Nat.eqb (os_dropped st) 0 then (None, st)
  else
    let left := (os_budget st - Z.of_nat (os_sent st))%Z in
    let stop := (0 <=? os_budget st)%Z && (left <=? Z.of_nat (blen (os_pending st)))%Z in
    let text := if stop then str_take (Z.to_nat left) (os_pending st) else os_pending st in
    (Some {| po_Text := text; po_Dropped := os_dropped st; po_Paused := stop |},
     {| os_pending := ""; os_dropped := 0; os_paused := os_paused st || stop; os_sent := os_sent st + blen text;
        os_budget := os_budget st; os_kick := os_kick st |}).

(** ** Lemmas on the ends of strings *)
Lemma blen_app a b : blen (a +:+ b) = blen a + blen b.
Proof. apply length_app_str. Qed.
Lemma blen_take n s : blen (str_take n s) = Nat.min n (blen s).
Proof. apply length_take_str. Qed.
Lemma blen_drop n s : blen (str_drop n s) = blen s - n.
Proof. apply length_drop_str. Qed.
Create Rewrite HintDb blen.
#[export] Hint Rewrite blen_app blen_take blen_drop : blen.

Ltac blen := autorewrite with blen in *; try lia.

Lemma drop_app_str_gen n s t : str_drop n (s +:+ t) = str_drop n s +:+ str_drop (n - blen s) t.
Proof.
  destruct (Nat.le_gt_cases n (blen s)).
  - rewrite drop_app_le_str by done. by replace (n - blen s) with 0 by lia.
  - rewrite (drop_ge_str n s) by (unfold blen in *; lia). replace n with (blen s + (n - blen s)) at 1 by lia.
    rewrite <- drop_drop_str. unfold blen at 1. by rewrite drop_app_str.
Qed.

Lemma take_app_str_gen n s t : str_take n (s +:+ t) = str_take n s +:+ str_take (n - blen s) t.
Proof.
  apply (app_suffix_inj (str_drop n (s +:+ t))). rewrite take_drop_str, drop_app_str_gen.
  destruct (Nat.le_gt_cases n (blen s)).
  - replace (n - blen s) with 0 by lia. by rewrite take_0_str, app_empty_r, <- app_assoc_str, take_drop_str.
  - rewrite (take_ge_str n s), (drop_ge_str n s) by (unfold blen in *; lia). by rewrite app_empty_l, app_assoc_str, take_drop_str.
Qed.

Lemma take_take_le a b s : a <= b -> str_take a (str_take b s) = str_take a s.
Proof.
  intros H. destruct (Nat.le_gt_cases b (blen s)) as [Hb|Hb]; [|by rewrite (take_ge_str b s) by (unfold blen in *; lia)].
  assert (blen (str_take b s) = b) as Hl by blen. transitivity (str_take a (str_take b s +:+ str_drop b s)); [|by rewrite take_drop_str].
  rewrite take_app_le_str; [done|]. fold (blen (str_take b s)). lia.
Qed.

Lemma blen_0 s : blen s = 0 -> s = "".
Proof. by destruct s. Qed.

Lemma last_app n s t : str_last n (str_last n s +:+ t) = str_last n (s +:+ t).
Proof.
  unfold str_last. rewrite !drop_app_str_gen, drop_drop_str. blen. f_equal; f_equal; lia.
Qed.

Lemma last_split n s : s = str_take (blen s - n) s +:+ str_last n s.
Proof. unfold str_last. by rewrite take_drop_str. Qed.

Lemma blen_last n s : blen (str_last n s) = Nat.min n (blen s).
Proof. unfold str_last. blen. Qed.
#[export] Hint Rewrite blen_last : blen.

(** ** The capped buffer *)

(** What is kept of [all]: its first half and the last of the rest. *)
Definition cap_of (max : nat) (all : string) : capBuffer :=
  let half := max / 2 in
  let rest := str_drop half all in
  {| cb_max := max; cb_head := str_take half all; cb_tail := str_last (max - half) rest; cb_dropped := blen rest - (max - half) |}.

Lemma cap_Write_of max all p : cap_Write (cap_of max all) p = cap_of max (all +:+ p).
Proof.
  unfold cap_Write, cap_of. cbn [cb_max cb_head cb_tail cb_dropped]. set (half := max / 2). set (tl := max - half).
  replace (Nat.min (half - blen (str_take half all)) (blen p)) with (Nat.min (half - blen all) (blen p)) by blen.
  assert (str_take (Nat.min (half - blen all) (blen p)) p = str_take (half - blen all) p) as Ht.
  { destruct (Nat.le_gt_cases (half - blen all) (blen p)); [by rewrite Nat.min_l by lia|].
    rewrite Nat.min_r by lia. by rewrite !take_ge_str by (unfold blen in *; lia). }
  assert (str_drop (Nat.min (half - blen all) (blen p)) p = str_drop (half - blen all) p) as Hd.
  { destruct (Nat.le_gt_cases (half - blen all) (blen p)); [by rewrite Nat.min_l by lia|].
    rewrite Nat.min_r by lia. by rewrite !drop_ge_str by (unfold blen in *; lia). }
  rewrite Ht, Hd, <- take_app_str_gen, (drop_app_str_gen half all p). set (q := str_drop (half - blen all) p).
  destruct (String.eqb_spec q "") as [Hq|Hq].
  - rewrite Hq, app_empty_r. done.
  - f_equal.
    + rewrite <- (last_app tl). unfold str_last at 2. f_equal.
    + rewrite !blen_app, blen_last. lia.
Qed.

Lemma cap_writes max ws : foldl cap_Write (newCapBuffer max) ws = cap_of max (str_concat ws).
Proof.
  induction ws as [|w ws IH] using rev_ind.
  - unfold newCapBuffer, cap_of. cbn [str_concat foldr foldl]. by rewrite (drop_ge_str (max / 2)), (take_ge_str (max / 2)) by (cbn; lia).
  - by rewrite foldl_snoc, IH, cap_Write_of, str_concat_snoc.
Qed.

Lemma half_le n : n / 2 <= n.
Proof. apply Nat.Div0.div_le_upper_bound. lia. Qed.

Lemma half_mono n m : n <= m -> n / 2 <= m / 2 /\ n - n / 2 <= m - m / 2.
Proof.
  intros H. pose proof (Nat.div_mod_eq n 2). pose proof (Nat.div_mod_eq m 2).
  pose proof (Nat.mod_upper_bound n 2). pose proof (Nat.mod_upper_bound m 2). lia.
Qed.

(** The end of [all] as the buffer keeps it. *)
Lemma cap_tail_last max all :
  max - max / 2 < blen (str_drop (max / 2) all) -> cb_tail (cap_of max all) = str_last (max - max / 2) all.
Proof.
  intros H. unfold cap_of. cbn [cb_tail]. unfold str_last. rewrite drop_drop_str. f_equal. blen.
Qed.

(** A command's output is shown whole or with an exact account of what is
    missing.  However the output arrives in writes, what is shown of it
    depends on the whole output only: it is the output itself, when nothing
    was dropped; else a beginning and an end of the output, within the
    limits of the capture and of the view, around a line that gives the
    number of all the bytes between them. *)
Theorem cap_view_accounts max ws vmax :
  let all := str_concat ws in
  match cap_View (foldl cap_Write (newCapBuffer max) ws) vmax with
  | (text, false) => text = all /\ blen all <= max
  | (text, true) =>
      exists a mid b, all = a +:+ mid +:+ b /\ mid <> "" /\ text = a +:+ dropped_note (blen mid) +:+ b
        /\ blen a + blen b <= max /\ ((0 < vmax)%Z -> blen a + blen b <= Z.to_nat vmax)
        /\ (blen a <= blen b /\ blen b <= S (blen a))
  end.
Proof.
  cbv zeta. rewrite cap_writes. set (all := str_concat ws). unfold cap_View. set (c := cap_of max all).
  pose proof (half_mono max max) as _. pose proof (half_le max).
  pose proof (Nat.div_mod_eq max 2). pose proof (Nat.mod_upper_bound max 2 ltac:(lia)).
  assert (blen (cb_head c) = Nat.min (max / 2) (blen all)) as Hh by (unfold c, cap_of; cbn [cb_head]; blen).
  assert (blen (cb_tail c) = Nat.min (max - max / 2) (blen all - max / 2)) as Hl by (unfold c, cap_of; cbn [cb_tail]; blen).
  assert (cb_dropped c = blen all - max / 2 - (max - max / 2)) as Hdr by (unfold c, cap_of; cbn [cb_dropped]; blen).
  destruct ((0 <? vmax)%Z && (Z.to_nat vmax <? blen (cb_head c) + blen (cb_tail c))) eqn:Hv.
  - apply andb_true_iff in Hv as [Hpos Hlt]. apply Z.ltb_lt in Hpos. apply Nat.ltb_lt in Hlt. set (n := Z.to_nat vmax) in *.
    destruct (half_mono n max) as [Hn1 Hn2]; [lia|]. pose proof (half_le n).
    pose proof (Nat.div_mod_eq n 2). pose proof (Nat.mod_upper_bound n 2 ltac:(lia)).
    replace (cb_dropped c + (blen (cb_head c) + blen (cb_tail c) - n) =? 0) with false by (symmetry; apply Nat.eqb_neq; lia).
    assert (str_take (n / 2) (cb_head c +:+ cb_tail c) = str_take (n / 2) all) as Ha.
    { destruct (Nat.le_gt_cases (n / 2) (blen (cb_head c))) as [Hle|Hgt]; [|lia].
      rewrite take_app_le_str by exact Hle. unfold c, cap_of. cbn [cb_head]. rewrite <- (take_drop_str (max / 2) all) at 2.
      by rewrite take_app_le_str by exact Hle. }
    assert (str_drop (blen (cb_head c) + blen (cb_tail c) - (n - n / 2)) (cb_head c +:+ cb_tail c) = str_last (n - n / 2) all) as Hb.
    { destruct (Nat.le_gt_cases (blen (str_drop (max / 2) all)) (max - max / 2)) as [Hle|Hgt].
      - assert (cb_head c +:+ cb_tail c = all) as ->.
        { unfold c, cap_of. cbn [cb_head cb_tail]. unfold str_last. replace (blen _ - (max - max / 2)) with 0 by lia. exact (take_drop_str (max / 2) all). }
        unfold str_last. f_equal. rewrite Hh, Hl. autorewrite with blen in Hle. lia.
      - autorewrite with blen in Hgt. rewrite drop_app_str_gen, (drop_ge_str _ (cb_head c)) by (unfold blen in *; lia).
        rewrite app_empty_l. unfold c. rewrite cap_tail_last by blen. unfold str_last. rewrite drop_drop_str. f_equal.
        cbn [cb_head cb_tail cap_of]. blen. }
    rewrite Ha, Hb. exists (str_take (n / 2) all), (str_drop (n / 2) (str_take (blen all - (n - n / 2)) all)), (str_last (n - n / 2) all).
    assert (str_take (n / 2) (str_take (blen all - (n - n / 2)) all) = str_take (n / 2) all) as Ht.
    { apply take_take_le. lia. }
    split_and!.
    + rewrite <- app_assoc_str, <- Ht, take_drop_str. apply last_split.
    + intros Hm. apply (f_equal blen) in Hm. autorewrite with blen in Hm. change (blen "") with 0 in Hm. lia.
    + do 3 f_equal. blen.
    + blen.
    + intros _. blen.
    + blen.
    + blen.
  - destruct (Nat.eqb_spec (cb_dropped c) 0) as [Hz|Hz].
    + split; [|lia]. unfold c, cap_of. cbn [cb_head cb_tail]. unfold str_last. rewrite Hdr in Hz. replace (blen _ - (max - max / 2)) with 0 by blen. exact (take_drop_str (max / 2) all).
    + exists (cb_head c), (str_take (blen all - max / 2 - (max - max / 2)) (str_drop (max / 2) all)), (cb_tail c). split_and!.
      * unfold c, cap_of. cbn [cb_head cb_tail]. unfold str_last. rewrite blen_drop, (take_drop_str (blen all - max / 2 - (max - max / 2))). by rewrite take_drop_str.
      * intros Hm. apply (f_equal blen) in Hm. autorewrite with blen in Hm. change (blen "") with 0 in Hm. lia.
      * do 3 f_equal. rewrite Hdr. blen.
      * lia.
      * intros Hp. apply andb_false_iff in Hv as [Hv|Hv]; [apply Z.ltb_ge in Hv; lia|apply Nat.ltb_ge in Hv; lia].
      * lia.
      * lia.
Qed.

Lemma demo_cap_view :
  cap_View (foldl cap_Write (newCapBuffer 6) ["ab"; "cdefg"; "hij"]) 0 = ("abc" +:+ dropped_note 4 +:+ "hij", true)
  /\ cap_View (foldl cap_Write (newCapBuffer 6) ["ab"; "cdefg"; "hij"]) 3 = ("a" +:+ dropped_note 7 +:+ "ij", true).
Proof. split; reflexivity. Qed.

(** ** What a reader is shown *)

(** Pieces that account for [all]: each shows a text after a gap of the
    stated length. *)
Inductive covers : string -> list (nat * string) -> Prop :=
| covers_nil : covers "" []
| covers_snoc all ps gap text : covers all ps -> covers (all +:+ gap +:+ text) (ps ++ [(blen gap, text)]).

Lemma covers_whole all ps : covers all ps -> Forall (fun p => fst p = 0) ps -> str_concat (map snd ps) = all.
Proof.
  induction 1 as [|all ps gap text _ IH]; [done|]. rewrite Forall_app, Forall_singleton. intros [Hps Hg]. cbn [fst] in Hg.
  rewrite map_app. cbn [map snd]. rewrite str_concat_snoc, (IH Hps). by rewrite (blen_0 gap Hg).
Qed.

(** ** The rolling buffer *)

(** The buffer after [all] was written. *)
Definition tail_of (max : nat) (all : string) : tailBuffer :=
  {| tb_buf := str_last max all; tb_max := max; tb_total := blen all |}.

Lemma tail_Write_of max all p : tail_Write (tail_of max all) p = tail_of max (all +:+ p).
Proof. unfold tail_Write, tail_of. cbn [tb_buf tb_max tb_total]. f_equal; [exact (last_app max all p)|by rewrite blen_app]. Qed.

(** Reading from [from] shows all that is left after the bytes that had to be
    dropped, the excess over [max] of what is new. *)
Lemma tail_since_of max all from :
  from <= blen all ->
  let d := blen all - max - from in
  tail_since (tail_of max all) from = (str_drop (from + d) all, blen all, d).
Proof.
  intros Hf. cbv zeta. unfold tail_since, tail_of. cbn [tb_buf tb_max tb_total]. rewrite blen_last.
  destruct (Nat.ltb_spec from (blen all - Nat.min max (blen all))) as [Hlt|Hge]; unfold str_last; rewrite drop_drop_str;
    repeat (f_equal; try lia).
Qed.

Lemma log_since_of log from max :
  from <= blen log ->
  let d := blen log - max - from in
  readLogSince log from max = (str_drop (from + d) log, blen log, d).
Proof.
  intros Hf. cbv zeta. unfold readLogSince. destruct (Nat.leb_spec (blen log) from).
  - rewrite drop_ge_str by (unfold blen in *; lia). f_equal; [f_equal; lia|lia].
  - destruct (Nat.ltb_spec max (blen log - from)); rewrite blen_drop; repeat (f_equal; try lia).
Qed.

Inductive tail_op := TailWrite (p : string) | TailRead.

(** Writes and reads, the reads from where the one before ended. *)
Definition tail_do (st : tailBuffer * nat * list (nat * string)) (op : tail_op) : tailBuffer * nat * list (nat * string) :=
  let '(b, from, shown) := st in
  match op with
  | TailWrite p => (tail_Write b p, from, shown)
  | TailRead => let '(text, pos, dropped) := tail_since b from in (b, pos, shown ++ [(dropped, text)])
  end.

Definition tail_trace (max : nat) (ops : list tail_op) : tailBuffer * nat * list (nat * string) :=
  foldl tail_do ({| tb_buf := ""; tb_max := max; tb_total := 0 |}, 0, []) ops.

Definition written (ops : list tail_op) : string :=
  str_concat (omap (fun op => match op with TailWrite p => Some p | TailRead => None end) ops).

Lemma written_snoc ops op :
  written (ops ++ [op]) = written ops +:+ match op with TailWrite p => p | TailRead => "" end.
Proof.
  unfold written. rewrite omap_app. destruct op; csimpl; [apply str_concat_snoc|by rewrite app_nil_r, app_empty_r].
Qed.

Lemma tail_trace_inv max ops :
  exists from shown, tail_trace max ops = (tail_of max (written ops), from, shown)
    /\ from <= blen (written ops) /\ covers (str_take from (written ops)) shown.
Proof.
  unfold tail_trace. induction ops as [|op ops (from & shown & IH & Hf & Hc)] using rev_ind.
  { exists 0, []. split; [done|]. split; [done|]. constructor. }
  rewrite foldl_snoc, IH, written_snoc. destruct op as [p|]; cbn [tail_do].
  - rewrite tail_Write_of. exists from, shown. split; [done|]. rewrite blen_app, take_app_le_str by done. split; [lia|done].
  - rewrite app_empty_r, tail_since_of by done. set (d := blen (written ops) - max - from). do 2 eexists. split; [done|]. split; [done|].
    rewrite (take_ge_str (blen _)) by done.
    pose proof (covers_snoc _ _ (str_take d (str_drop from (written ops))) (str_drop (from + d) (written ops)) Hc) as H.
    rewrite <- drop_drop_str, take_drop_str, take_drop_str in H.
    rewrite <- drop_drop_str. by replace (blen (str_take d (str_drop from (written ops)))) with d in H by blen.
Qed.

(** The output of a process is read in order, once, and with an account of
    what was lost.  Over any interleaving of writes and reads, what the reads
    showed, with gaps of exactly the lengths they reported, is the output up
    to the last read; without gaps it is that output.  A gap opens only when
    more arrives between two reads than the buffer keeps, and is the excess.
    A detached process, read from its log file, is shown the same. *)
Theorem tail_reads_account max ops :
  let '(b, from, shown) := tail_trace max ops in
  covers (str_take from (written ops)) shown
  /\ (Forall (fun p => fst p = 0) shown -> str_concat (map snd shown) = str_take from (written ops))
  /\ readLogSince (written ops) from max = tail_since b from
  /\ (tail_since b from).1.2 = blen (written ops)
  /\ (tail_since b from).2 = blen (written ops) - from - max.
Proof.
  destruct (tail_trace_inv max ops) as (from & shown & -> & Hf & Hc). split; [done|]. split; [by apply covers_whole|].
  rewrite log_since_of, tail_since_of by done. split; [done|]. split; [done|]. cbn. lia.
Qed.

(** ** The stream to the user *)
Inductive stream_op := StreamAdd (b : string) | StreamTake.

Definition stream_do (st : outputStream * list ProcessOutput) (op : stream_op) : outputStream * list ProcessOutput :=
  let '(s, evs) := st in
  match op with
  | StreamAdd b => (stream_add s b, evs)
  | StreamTake => let '(o, s) := stream_take s in (s, match o with Some o => evs ++ [o] | None => evs end)
  end.

Definition stream_trace (budget : Z) (ops : list stream_op) : outputStream * list ProcessOutput :=
  foldl stream_do (newOutputStream budget, []) ops.

Definition added (ops : list stream_op) : string :=
  str_concat (omap (fun op => match op with StreamAdd b => Some b | StreamTake => None end) ops).

Definition piece (o : ProcessOutput) : nat * string := (po_Dropped o, po_Text o).
Definition total_text (evs : list ProcessOutput) : nat := foldr (fun o n => blen (po_Text o) + n) 0 evs.

Lemma added_snoc ops op : added (ops ++ [op]) = added ops +:+ match op with StreamAdd b => b | StreamTake => "" end.
Proof.
  unfold added. rewrite omap_app. destruct op; csimpl; [apply str_concat_snoc|by rewrite app_nil_r, app_empty_r].
Qed.

Lemma total_text_snoc evs o : total_text (evs ++ [o]) = total_text evs + blen (po_Text o).
Proof. unfold total_text. induction evs as [|e evs IH]; cbn; lia. Qed.

Record stream_inv (budget : Z) (all : string) (st : outputStream) (evs : list ProcessOutput) : Prop := {
  si_budget : os_budget st = budget;
  si_sent : os_sent st = total_text evs;
  si_spent : (0 <= budget)%Z -> (Z.of_nat (os_sent st) <= budget)%Z;
  si_sizes : blen (os_pending st) <= streamMax /\ Forall (fun o => blen (po_Text o) <= streamMax) evs;
  si_shown : exists shown gap rest, all = shown +:+ gap +:+ os_pending st +:+ rest /\ blen gap = os_dropped st
    /\ covers shown (map piece evs) /\ (os_paused st = false -> rest = "");
  si_paused : os_paused st = true ->
    (0 <= budget)%Z /\ Z.of_nat (os_sent st) = budget /\ os_pending st = "" /\ os_dropped st = 0
    /\ exists evs' o, evs = evs' ++ [o] /\ po_Paused o = true;
  si_open : os_paused st = false -> Forall (fun o => po_Paused o = false) evs;
}.

Lemma stream_add_inv budget all st evs b :
  stream_inv budget all st evs -> stream_inv budget (all +:+ b) (stream_add st b) evs.
Proof.
  intros [Hb Hs Hsp [Hz1 Hz2] (shown & gap & rest & Hall & Hg & Hc & Hr) Hp Ho]. unfold stream_add.
  destruct (os_paused st) eqn:Ep.
  - split; rewrite ?Ep; auto; try done. exists shown, gap, (rest +:+ b). split; [by rewrite Hall, !app_assoc_str|]. split; [done|]. split; [done|]. done.
  - split; cbn -[streamMax]; auto; try done; [split; [blen|done]|]. specialize (Hr eq_refl). subst rest.
    set (over := blen (os_pending st +:+ b) - streamMax). exists shown, (gap +:+ str_take over (os_pending st +:+ b)), "". split_and!; try done.
    + rewrite app_empty_r, app_assoc_str, take_drop_str, Hall. by rewrite app_empty_r, !app_assoc_str.
    + unfold over. blen.
Qed.

Lemma stream_take_inv budget all st evs :
  stream_inv budget all st evs ->
  let '(o, st') := stream_take st in stream_inv budget all st' (match o with Some o => evs ++ [o] | None => evs end).
Proof.
  intros I. destruct I as [Hb Hs Hsp [Hz1 Hz2] (shown & gap & rest & Hall & Hg & Hc & Hr) Hp Ho]. unfold stream_take.
  destruct (String.eqb (os_pending st) "" && Nat.eqb (os_dropped st) 0) eqn:E; [split; eauto; by exists shown, gap, rest|].
  assert (os_paused st = false) as Ep.
  { destruct (os_paused st); [|done]. destruct Hp as (_ & _ & Hpe & Hde & _); [done|]. by rewrite Hpe, Hde in E. }
  specialize (Hr Ep). specialize (Ho Ep). subst rest budget. clear E Hp. rewrite app_empty_r in Hall.
  set (left := (os_budget st - Z.of_nat (os_sent st))%Z). rewrite Ep, <- Hg.
  destruct ((0 <=? os_budget st)%Z && (left <=? Z.of_nat (blen (os_pending st)))%Z) eqn:Estop.
  - apply andb_true_iff in Estop as [H0 H1]. apply Z.leb_le in H0, H1. specialize (Hsp H0).
    set (text := str_take (Z.to_nat left) (os_pending st)). assert (Z.of_nat (blen text) = left) as Hl by (unfold text; blen).
    split; cbn [os_budget os_sent os_pending os_dropped os_paused orb]; try done.
    + by rewrite total_text_snoc, Hs.
    + lia.
    + split; [apply Nat.le_0_l|]. apply Forall_app. split; [done|]. constructor; [|constructor]. cbn [po_Text]. unfold text. blen.
    + exists (shown +:+ gap +:+ text), "", (str_drop (Z.to_nat left) (os_pending st)). split_and!; try done.
      * rewrite Hall, !app_assoc_str, app_empty_l. unfold text. by rewrite take_drop_str.
      * rewrite map_app. by apply covers_snoc.
    + intros _. split_and!; try done; [lia|]. by eexists evs, _.
  - split; cbn [os_budget os_sent os_pending os_dropped os_paused orb]; try done.
    + by rewrite total_text_snoc, Hs.
    + intros H0. apply andb_false_iff in Estop as [H1|H1]; apply Z.leb_gt in H1; lia.
    + split; [apply Nat.le_0_l|]. apply Forall_app. split; [done|]. by constructor; [|constructor].
    + exists (shown +:+ gap +:+ os_pending st), "", "". split_and!; try done.
      * by rewrite Hall, !app_assoc_str, !app_empty_l, !app_empty_r.
      * rewrite map_app. by apply covers_snoc.
    + intros _. apply Forall_app. split; [done|]. by constructor; [|constructor].
Qed.

Lemma stream_trace_inv budget ops :
  let '(st, evs) := stream_trace budget ops in stream_inv budget (added ops) st evs.
Proof.
  unfold stream_trace. induction ops as [|op ops IH] using rev_ind.
  - split; cbn; try done; [split; [apply Nat.le_0_l|done]|]. exists "", "", "". split_and!; try done. constructor.
  - rewrite foldl_snoc, added_snoc. destruct (foldl stream_do _ ops) as [st evs]. destruct op as [b|]; cbn [stream_do].
    + by apply stream_add_inv.
    + rewrite app_empty_r. pose proof (stream_take_inv _ _ _ _ IH) as H. by destruct (stream_take st).
Qed.

(** What the user is shown as it arrives is the output, in order, each
    drop counted, until the budget is spent.  The events show a beginning of
    what was added, with gaps of exactly the reported lengths, and all of it
    but what still waits as long as the stream is open; with a budget their
    texts never exceed it, the event that pauses the stream uses it up, and
    a paused stream sends nothing more. *)
Theorem stream_keeps_budget budget ops :
  let '(st, evs) := stream_trace budget ops in
  (exists shown rest, added ops = shown +:+ rest /\ covers shown (map piece evs)
     /\ (os_paused st = false -> blen rest = os_dropped st + blen (os_pending st)))
  /\ ((0 <= budget)%Z -> (Z.of_nat (total_text evs) <= budget)%Z)
  /\ Forall (fun o => blen (po_Text o) <= streamMax) evs
  /\ (os_paused st = true -> Z.of_nat (total_text evs) = budget /\ stream_take st = (None, st) /\ forall b, stream_add st b = st).
Proof.
  pose proof (stream_trace_inv budget ops) as I. destruct (stream_trace budget ops) as [st evs].
  destruct I as [Hb Hs Hsp [_ Hz] (shown & gap & rest & Hall & Hg & Hc & Hr) Hp _]. split_and!.
  - exists shown, (gap +:+ os_pending st +:+ rest). split; [done|]. split; [done|]. intros Ho. rewrite (Hr Ho), !blen_app, Hg. cbn. lia.
  - by rewrite <- Hs.
  - done.
  - intros Ep. destruct (Hp Ep) as (_ & Hsent & Hpe & Hde & _). split; [by rewrite <- Hs|]. unfold stream_take, stream_add.
    by rewrite Hpe, Hde, Ep.
Qed.
