(* ===== verification/Procs.v ===== *)
(** * Long-running commands: src/ext/exec/procs.go

    The processes of a session: starting them within a limit, collecting
    their output, typing into them, stopping them, and what the permission
    gate is told of each call.  A call takes the manager's lock several
    times, so a run is an interleaving of those sections with the processes'
    own output and exits.  Starting the process is the operating system's. *)

From S2P Require Import Prelude GoStr Errors Json Provider TreeBudget Middleware Approval ShellRules Output.
Local Open Scope nat_scope.

Definition ExecCommandTool : string := "exec_command".
Definition WriteStdinTool : string := "write_stdin".
Definition ListProcessesTool : string := "list_processes".
Definition KillProcessTool : string := "kill_process".

(** Durations are in nanoseconds. *)
Definition millisecond : Z := 10 ^ 6.
Definition second : Z := 10 ^ 9.

Record ProcessConfig := {
  pc_Max : Z;
  pc_MaxOutput : Z;
  pc_DefaultYield : Z;
  pc_MaxYield : Z;
  pc_StreamBudget : Z;
  pc_AllowDetach : bool;
}.

(** The defaults [newProcManager] fills in. *)
Definition or_default (d z : Z) : Z := if (z <=? 0)%Z then d else z.

Definition config_defaults (c : ProcessConfig) : ProcessConfig :=
  {| pc_Max := or_default 8 (pc_Max c); pc_MaxOutput := or_default (2 ^ 20) (pc_MaxOutput c);
     pc_DefaultYield := or_default (10 * second) (pc_DefaultYield c); pc_MaxYield := or_default (30 * second) (pc_MaxYield c);
     pc_StreamBudget := if (pc_StreamBudget c =? 0)%Z then 2 ^ 22 else pc_StreamBudget c; pc_AllowDetach := pc_AllowDetach c |}.

(** [yield]: the product is an int64. *)
Definition yield (c : ProcessConfig) (ms : Z) : Z :=
  if (ms <=? 0)%Z then pc_DefaultYield c
  else let d := wrap64 (ms * millisecond) in if (pc_MaxYield c <? d)%Z then pc_MaxYield c else d.

(** [pr_exit] is set when [done] is closed.  [pr_log] is the log file of a
    detached process and its content, which takes the place of the buffer. *)
Record proc := {
  pr_command : string;
  pr_pid : Z;
  pr_adopted : bool;
  pr_log : option (string * string);
  pr_out : tailBuffer;
  pr_exit : option Z;
  pr_read : nat;
}.

Definition running (p : proc) : bool := match pr_exit p with None => true | Some _ => false end.

Record procManager := { pm_cfg : ProcessConfig; pm_procs : gmap string proc; pm_next : Z; pm_starting : nat }.

Definition proc_id (n : Z) : string := "p" +:+ itoa n.

Definition set_procs (m : procManager) (ps : gmap string proc) : procManager :=
  {| pm_cfg := pm_cfg m; pm_procs := ps; pm_next := pm_next m; pm_starting := pm_starting m |}.

(** ** exec_command *)
Definition running_procs (m : procManager) : gmap string proc := filter (fun p => running p.2 = true) (pm_procs m).
Definition running_count (m : procManager) : nat := size (running_procs m).

Record execCommandArgs := { ec_Cmd : string; ec_Workdir : string; ec_YieldMS : Z; ec_TTY : bool; ec_Detach : bool }.

(** The checks up to the start; [pm_starting] counts the calls past them. *)
Definition exec_admit (m : procManager) (a : result execCommandArgs) : result execCommandArgs * procManager :=
  match a with
  | inl _ => (inl (EText "exec_command needs cmd, the command line to run"), m)
  | inr a =>
      if String.eqb (trim_space (ec_Cmd a)) "" then (inl (EText "exec_command needs cmd, the command line to run"), m)
      else if ec_Detach a && negb (pc_AllowDetach (pm_cfg m)) then
        (inl (EText "exec_command: detach is not allowed in this workspace"), m)
      else if ec_Detach a && ec_TTY a then (inl (EText "exec_command: a detached command can't have a tty"), m)
      else if (pc_Max (pm_cfg m) <=? Z.of_nat (running_count m))%Z then
        (inl (EText ("exec_command: " +:+ itoa (Z.of_nat (running_count m))
                     +:+ " commands are already running, the most allowed; stop one with kill_process")), m)
      else (inr a, {| pm_cfg := pm_cfg m; pm_procs := pm_procs m; pm_next := pm_next m; pm_starting := S (pm_starting m) |})
  end.

(** A start that failed, and one that gave [pid]. *)
Definition exec_failed (m : procManager) : procManager :=
  {| pm_cfg := pm_cfg m; pm_procs := pm_procs m; pm_next := pm_next m; pm_starting := Nat.pred (pm_starting m) |}.

Definition exec_register (m : procManager) (a : execCommandArgs) (pid : Z) (log : string) : string * procManager :=
  let id := proc_id (pm_next m + 1) in
  let p := {| pr_command := ec_Cmd a; pr_pid := pid; pr_adopted := false;
              pr_log := if ec_Detach a then Some (log, "") else None;
              pr_out := {| tb_buf := ""; tb_max := Z.to_nat (pc_MaxOutput (pm_cfg m)); tb_total := 0 |}; pr_exit := None; pr_read := 0 |} in
  (id, {| pm_cfg := pm_cfg m; pm_procs := <[id := p]> (pm_procs m); pm_next := pm_next m + 1; pm_starting := Nat.pred (pm_starting m) |}).

(** ** What a process does *)
Definition proc_writes (p : proc) (s : string) : proc :=
  match pr_exit p with
  | Some _ => p
  | None =>
      {| pr_command := pr_command p; pr_pid := pr_pid p; pr_adopted := pr_adopted p;
         pr_log := match pr_log p with Some (path, text) => Some (path, text +:+ s) | None => None end;
         pr_out := match pr_log p with Some _ => pr_out p | None => tail_Write (pr_out p) s end;
         pr_exit := None; pr_read := pr_read p |}
  end.

Definition proc_exits (p : proc) (code : Z) : proc :=
  match pr_exit p with
  | Some _ => p
  | None => {| pr_command := pr_command p; pr_pid := pr_pid p; pr_adopted := pr_adopted p; pr_log := pr_log p; pr_out := pr_out p;
               pr_exit := Some code; pr_read := pr_read p |}
  end.

(** ** collect

    The read, under the process's [readMu], and then the report, which looks
    again whether the process runs. *)
Definition proc_since (maxOutput : nat) (p : proc) : string * nat * nat :=
  match pr_log p with
  | Some (_, text) => readLogSince text (pr_read p) maxOutput
  | None => tail_since (pr_out p) (pr_read p)
  end.

Definition collect_read (maxOutput : nat) (p : proc) : (string * nat) * proc :=
  let '(text, pos, dropped) := proc_since maxOutput p in
  ((text, dropped),
   {| pr_command := pr_command p; pr_pid := pr_pid p; pr_adopted := pr_adopted p; pr_log := pr_log p; pr_out := pr_out p;
      pr_exit := pr_exit p; pr_read := pos |}).

(** The process is forgotten once it has exited. *)
Definition collect_report (m : procManager) (id : string) (p : proc) : procManager :=
  if running p then m else set_procs m (delete id (pm_procs m)).

(** The text of the answer; [elapsed] is the time since the start. *)
Definition collect_text (header : string) (id : string) (p : proc) (read : string * nat) (elapsed : string) : string :=
  let '(text, dropped) := read in
  (if String.eqb header "" then "" else header +:+ newline)
  +:+ (if Nat.eqb dropped 0 then "" else "... " +:+ itoa (Z.of_nat dropped) +:+ " bytes of earlier output were dropped ..." +:+ newline)
  +:+ clip_middle text
  +:+ newline
  +:+ match pr_exit p, pr_log p with
      | None, Some (log, _) =>
          "[still running as " +:+ id +:+ " (pid " +:+ itoa (pr_pid p) +:+ ") after " +:+ elapsed
          +:+ ", detached: it keeps running after this session ends, with its output in " +:+ log +:+ "; kill_process stops it]"
      | None, None =>
          "[still running as " +:+ id +:+ " after " +:+ elapsed
          +:+ "; call write_stdin to send input or collect output, kill_process to stop it]"
      | Some code, _ => "[exited " +:+ itoa code +:+ " after " +:+ elapsed +:+ "]"
      end.

(** ** The other tools *)
Definition proc_get (m : procManager) (id : string) : result proc :=
  match pm_procs m !! id with
  | Some p => inr p
  | None => inl (EText ("no process " +:+ go_quote id +:+ "; list_processes shows the ones there are"))
  end.

Record writeStdinArgs := { ws_SessionID : string; ws_Chars : string; ws_YieldMS : Z }.

(** What a write_stdin call comes to: an error, or collecting, with a header,
    a wait and the text to write first. *)
Definition write_stdin (m : procManager) (a : result writeStdinArgs) : result (string * proc * string * Z * string) :=
  match a with
  | inl _ => inl (EText "write_stdin needs session_id")
  | inr a =>
      if String.eqb (ws_SessionID a) "" then inl (EText "write_stdin needs session_id")
      else match proc_get m (ws_SessionID a) with
           | inl e => inl (wrap_error "write_stdin: " e)
           | inr p =>
               if String.eqb (ws_Chars a) "" then inr (ws_SessionID a, p, "", yield (pm_cfg m) (ws_YieldMS a), "")
               else if negb (running p) then
                 inr (ws_SessionID a, p, "write_stdin: the process has already exited, so nothing was written", 0%Z, "")
               else match pr_log p with
                    | Some _ => inl (EText ("write_stdin: " +:+ ws_SessionID a +:+ " is detached and reads no input; send empty chars to collect its output"))
                    | None => inr (ws_SessionID a, p, "", yield (pm_cfg m) (ws_YieldMS a), ws_Chars a)
                    end
           end
  end.

(** [killAll]: the processes it kills, and the manager after it. *)
Definition kill_all (m : procManager) : list (string * proc) * procManager :=
  (filter (fun p => pr_log p.2 = None) (map_to_list (pm_procs m)), set_procs m ∅).

(** ** The gate *)
Section Classify.
Variable exec_args : RawJSON -> result execCommandArgs.
Variable stdin_args : RawJSON -> result writeStdinArgs.
(** Whether the system has bash. *)
Variable has_bash : bool.

Definition shellArgv (cmd : string) : list string := if has_bash then ["bash"; "-lc"; cmd] else ["sh"; "-c"; cmd].

Definition classifyProcs (procs : option (list PrefixRule)) (info : ToolCallInfo) : option CallClass :=
  match procs with
  | None => None
  | Some rules =>
      let raw := tc_Args (ti_Call info) in
      let name := info_name info in
      if String.eqb name ExecCommandTool then
        match exec_args raw with
        | inl _ => Some (class_of DispositionUnknown "" "")
        | inr a =>
            if String.eqb (ec_Cmd a) "" then Some (class_of DispositionUnknown "" "")
            else
              let class := classify rules (shellArgv (ec_Cmd a)) in
              Some (if ec_Detach a && negb (bool_decide (cc_Disposition class = DispositionForbidden))
                    then class_of DispositionDestructive ("detach " +:+ ec_Cmd a) "keeps running after this session ends" else class)
        end
      else if String.eqb name WriteStdinTool then
        match stdin_args raw with
        | inl _ => Some (class_of DispositionUnknown "" "")
        | inr a => Some (if String.eqb (ws_Chars a) "" then class_of DispositionReadOnly "poll" ""
                         else class_of DispositionDestructive (ws_SessionID a) "types into a running command")
        end
      else if String.eqb name KillProcessTool then Some (class_of DispositionReversible "kill" "")
      else None
  end.
End Classify.

(** ** Runs of a manager *)
Inductive proc_op :=
| OpAdmit (a : result execCommandArgs)
| OpFailed
| OpRegister (a : execCommandArgs) (pid : Z) (log : string)
| OpWrites (id s : string)
| OpExits (id : string) (code : Z)
| OpRead (id : string)
| OpReport (id : string)
| OpKillAll.

Definition update_proc (m : procManager) (id : string) (f : proc -> proc) : procManager := set_procs m (alter f id (pm_procs m)).

Definition proc_do (m : procManager) (op : proc_op) : procManager :=
  match op with
  | OpAdmit a => (exec_admit m a).2
  | OpFailed => exec_failed m
  | OpRegister a pid log => if Nat.eqb (pm_starting m) 0 then m else (exec_register m a pid log).2
  | OpWrites id s => update_proc m id (fun p => proc_writes p s)
  | OpExits id code => update_proc m id (fun p => proc_exits p code)
  | OpRead id => update_proc m id (fun p => (collect_read (Z.to_nat (pc_MaxOutput (pm_cfg m))) p).2)
  | OpReport id => match pm_procs m !! id with Some p => collect_report m id p | None => m end
  | OpKillAll => (kill_all m).2
  end.

Definition new_manager (c : ProcessConfig) : procManager :=
  {| pm_cfg := config_defaults c; pm_procs := ∅; pm_next := 0; pm_starting := 0 |}.

Definition proc_run (ops : list proc_op) (m : procManager) : procManager := foldl proc_do m ops.

(** ** The limit *)
Lemma elem_of_running m id : id ∈ dom (running_procs m) <-> exists p, pm_procs m !! id = Some p /\ running p = true.
Proof.
  unfold running_procs. rewrite elem_of_dom. split.
  - intros [p [Hp Hr]%map_lookup_filter_Some]. eauto.
  - intros (p & Hp & Hr). exists p. by apply map_lookup_filter_Some.
Qed.

Lemma running_count_dom m : running_count m = size (dom (running_procs m)).
Proof. unfold running_count. by rewrite size_dom. Qed.

(** At most one more running id is at most one more. *)
Lemma running_count_mono m m' :
  (forall id, id ∈ dom (running_procs m') -> id ∈ dom (running_procs m)) -> running_count m' <= running_count m.
Proof. intros H. rewrite !running_count_dom. by apply subseteq_size. Qed.

Lemma running_count_add m m' id :
  (forall id', id' ∈ dom (running_procs m') -> id' = id \/ id' ∈ dom (running_procs m)) -> running_count m' <= S (running_count m).
Proof.
  intros H. rewrite !running_count_dom. transitivity (size ({[id]} ∪ dom (running_procs m))).
  - apply subseteq_size. intros id' Hid'. destruct (H _ Hid') as [->|]; set_solver.
  - rewrite size_union_alt, size_singleton. apply le_n_S. apply subseteq_size. set_solver.
Qed.

Lemma update_running m id f :
  (forall p, running (f p) = true -> running p = true) -> running_count (update_proc m id f) <= running_count m.
Proof.
  intros Hf. apply running_count_mono. intros id' (p & Hp & Hr)%elem_of_running. apply elem_of_running. cbn in Hp.
  apply lookup_alter_Some in Hp as [(-> & q & Hq & ->)|[_ Hp]]; eauto.
Qed.

Lemma proc_writes_running p s : running (proc_writes p s) = running p.
Proof. unfold proc_writes, running. by destruct (pr_exit p) eqn:E; rewrite ?E. Qed.

Lemma collect_read_running n p : running (collect_read n p).2 = running p.
Proof. unfold collect_read. by destruct (proc_since n p) as [[? ?] ?]. Qed.

Lemma report_running m id p : running_count (collect_report m id p) <= running_count m.
Proof.
  unfold collect_report. destruct (running p); [done|]. apply running_count_mono.
  intros id' (q & Hq & Hr)%elem_of_running. apply elem_of_running. cbn in Hq. apply lookup_delete_Some in Hq as [_ Hq]. eauto.
Qed.

(** Calls between their check and their registration, and the most there
    have been. *)
Fixpoint peak_starting (ops : list proc_op) (m : procManager) : nat :=
  match ops with
  | [] => pm_starting m
  | op :: ops => Nat.max (pm_starting m) (peak_starting ops (proc_do m op))
  end.

Lemma proc_do_cfg m op : pm_cfg (proc_do m op) = pm_cfg m.
Proof. destruct op; cbn; unfold exec_admit, collect_report; repeat case_match; done. Qed.

Lemma proc_do_bound k m op :
  (Z.of_nat (running_count m + pm_starting m) < pc_Max (pm_cfg m) + Z.of_nat k)%Z -> pm_starting (proc_do m op) <= k ->
  (Z.of_nat (running_count (proc_do m op) + pm_starting (proc_do m op)) < pc_Max (pm_cfg m) + Z.of_nat k)%Z.
Proof.
  intros H. destruct op as [a| |a pid log|id s|id code|id|id|]; cbn [proc_do].
  - unfold exec_admit. destruct a as [e|a]; [done|]. do 3 (case_match; [done|]).
    destruct (Z.leb_spec (pc_Max (pm_cfg m)) (Z.of_nat (running_count m))); [done|]. cbn [snd pm_starting]. intros Hk.
    match goal with |- context [running_count ?m'] => change (running_count m') with (running_count m) end.
    lia.
  - cbn. change (running_count (exec_failed m)) with (running_count m). lia.
  - destruct (Nat.eqb_spec (pm_starting m) 0); [done|]. cbn [exec_register snd pm_starting]. intros _.
    match goal with |- context [running_count ?m'] => assert (running_count m' <= S (running_count m)) end; [|lia].
    apply (running_count_add _ _ (proc_id (pm_next m + 1))). intros id (p & Hp & Hr)%elem_of_running. cbn in Hp.
    apply lookup_insert_Some in Hp as [[<- _]|[_ Hp]]; [by left|right]. apply elem_of_running. eauto.
  - pose proof (update_running m id (fun p => proc_writes p s)) as Hu. cbn. intros _.
    assert (running_count (update_proc m id (fun p => proc_writes p s)) <= running_count m); [|lia]. apply Hu.
    intros p. by rewrite proc_writes_running.
  - pose proof (update_running m id (fun p => proc_exits p code)) as Hu. cbn. intros _.
    assert (running_count (update_proc m id (fun p => proc_exits p code)) <= running_count m); [|lia]. apply Hu.
    intros p. unfold proc_exits, running. by destruct (pr_exit p) eqn:E; cbn; rewrite ?E.
  - pose proof (update_running m id (fun p => (collect_read (Z.to_nat (pc_MaxOutput (pm_cfg m))) p).2)) as Hu. cbn. intros _.
    match goal with |- context [running_count ?m'] => assert (running_count m' <= running_count m) end; [|lia]. apply Hu.
    intros p. by rewrite collect_read_running.
  - destruct (pm_procs m !! id) as [p|]; [|done]. intros _. pose proof (report_running m id p).
    assert (pm_starting (collect_report m id p) = pm_starting m) as -> by (unfold collect_report; by destruct (running p)). lia.
  - intros _. cbn. assert (running_count (kill_all m).2 <= running_count m); [|cbn in *; lia]. apply running_count_mono.
    intros id (p & Hp & _)%elem_of_running. cbn in Hp. by rewrite lookup_empty in Hp.
Qed.

Lemma proc_run_bound k ops m :
  (Z.of_nat (running_count m + pm_starting m) < pc_Max (pm_cfg m) + Z.of_nat k)%Z -> peak_starting ops m <= k ->
  (Z.of_nat (running_count (proc_run ops m) + pm_starting (proc_run ops m)) < pc_Max (pm_cfg m) + Z.of_nat k)%Z.
Proof.
  revert m. induction ops as [|op ops IH]; intros m Hb Hp; [done|]. cbn in Hp.
  rewrite <- (proc_do_cfg m op). apply IH; [|lia]. rewrite proc_do_cfg. apply proc_do_bound; [done|]. destruct ops; cbn in Hp; lia.
Qed.

Lemma config_max_pos c : (0 < pc_Max (config_defaults c))%Z.
Proof. cbn. unfold or_default. destruct (Z.leb_spec (pc_Max c) 0); lia. Qed.

(** The limit on running commands holds up to the calls that race for it.
    When at most [k] exec_command calls are ever between their check and
    their registration at once, at most [Max + k - 1] commands run: with
    calls one at a time, at most [Max]. *)
Theorem process_limit c ops k :
  1 <= k -> peak_starting ops (new_manager c) <= k ->
  (Z.of_nat (running_count (proc_run ops (new_manager c))) <= pc_Max (config_defaults c) + Z.of_nat k - 1)%Z.
Proof.
  intros Hk Hp. pose proof (config_max_pos c).
  assert (running_count (new_manager c) = 0) as H0.
  { unfold running_count, running_procs. cbn [new_manager pm_procs]. by rewrite map_filter_empty, map_size_empty. }
  pose proof (proc_run_bound k ops (new_manager c)) as Hb. rewrite H0 in Hb. cbn [new_manager pm_starting pm_cfg] in Hb. lia.
Qed.

Definition demo_config : ProcessConfig :=
  {| pc_Max := 1; pc_MaxOutput := 0; pc_DefaultYield := 0; pc_MaxYield := 0; pc_StreamBudget := 0; pc_AllowDetach := false |}.
Definition demo_exec : execCommandArgs := {| ec_Cmd := "npm run dev"; ec_Workdir := ""; ec_YieldMS := 0; ec_TTY := false; ec_Detach := false |}.

Lemma process_limit_witness :
  (Z.of_nat (running_count (proc_run [OpAdmit (inr demo_exec); OpRegister demo_exec 7 ""; OpAdmit (inr demo_exec); OpRegister demo_exec 8 ""]
     (new_manager demo_config))) <= 1)%Z.
Proof. apply (process_limit demo_config _ 1); [done|]. apply Nat.leb_le. vm_compute. reflexivity. Defined.

(** Two calls of one step both pass the check. *)
Lemma racing_starts_exceed_max :
  running_count (proc_run [OpAdmit (inr demo_exec); OpAdmit (inr demo_exec); OpRegister demo_exec 7 ""; OpRegister demo_exec 8 ""]
     (new_manager demo_config)) = 2.
Proof. reflexivity. Qed.

(** ** Ids *)
Lemma proc_id_inj a b : proc_id a = proc_id b -> a = b.
Proof. unfold proc_id, itoa. intros H%(inj (String.append "p")). by apply (inj pretty) in H. Qed.

(** The ids a run hands out. *)
Fixpoint issued_ids (ops : list proc_op) (m : procManager) : list string :=
  match ops with
  | [] => []
  | op :: ops =>
      match op with
      | OpRegister a pid log => if Nat.eqb (pm_starting m) 0 then [] else [(exec_register m a pid log).1]
      | _ => []
      end ++ issued_ids ops (proc_do m op)
  end.

(** Every process has an id that was handed out, below the counter. *)
Definition ids_below (n : Z) (ids : list string) : Prop := forall id, id ∈ ids -> exists k, (1 <= k <= n)%Z /\ id = proc_id k.

Lemma proc_do_next m op : (pm_next m <= pm_next (proc_do m op))%Z.
Proof. destruct op; cbn; unfold exec_admit, collect_report; repeat case_match; cbn; lia. Qed.

Lemma issued_above ops m id : id ∈ issued_ids ops m -> exists k, (pm_next m < k)%Z /\ id = proc_id k.
Proof.
  revert m. induction ops as [|op ops IH]; intros m; cbn [issued_ids]; [by intros ?%elem_of_nil|].
  intros [H|H]%elem_of_app.
  - destruct op; try by apply elem_of_nil in H. destruct (Nat.eqb (pm_starting m) 0); [by apply elem_of_nil in H|].
    apply list_elem_of_singleton in H as ->. exists (pm_next m + 1)%Z. split; [lia|done].
  - destruct (IH _ H) as (k & Hk & ->). exists k. split; [|done]. pose proof (proc_do_next m op). lia.
Qed.

Lemma issued_NoDup ops m : NoDup (issued_ids ops m).
Proof.
  revert m. induction ops as [|op ops IH]; intros m; cbn [issued_ids]; [apply NoDup_nil_2|]. apply NoDup_app. split; [|split; [|apply IH]].
  - destruct op; try apply NoDup_nil_2. destruct (Nat.eqb (pm_starting m) 0); [apply NoDup_nil_2|apply NoDup_singleton].
  - intros id H (k & Hk & ->)%issued_above. destruct op; try by apply elem_of_nil in H. cbn in Hk.
    destruct (Nat.eqb (pm_starting m) 0); [by apply elem_of_nil in H|]. apply list_elem_of_singleton in H as H%proc_id_inj. cbn in Hk. lia.
Qed.

Lemma proc_do_dom m op id :
  id ∈ dom (pm_procs (proc_do m op)) -> id ∈ dom (pm_procs m) \/
    exists a pid log, op = OpRegister a pid log /\ pm_starting m <> 0 /\ id = (exec_register m a pid log).1.
Proof.
  destruct op as [a| |a pid log|id' s|id' code|id'|id'|]; cbn [proc_do].
  - unfold exec_admit. repeat case_match; auto.
  - auto.
  - destruct (Nat.eqb_spec (pm_starting m) 0); [auto|]. cbn. rewrite dom_insert. intros [->%elem_of_singleton|H]%elem_of_union; [|auto]. right. by do 3 eexists.
  - cbn. rewrite dom_alter. auto.
  - cbn. rewrite dom_alter. auto.
  - cbn. rewrite dom_alter. auto.
  - destruct (pm_procs m !! id') as [p|]; [|auto]. unfold collect_report. destruct (running p); [auto|]. cbn. rewrite dom_delete. set_solver.
  - cbn. rewrite dom_empty. set_solver.
Qed.

Lemma run_dom ops m id : id ∈ dom (pm_procs (proc_run ops m)) -> id ∈ dom (pm_procs m) \/ id ∈ issued_ids ops m.
Proof.
  revert m. induction ops as [|op ops IH]; intros m H; [by left|]. cbn [issued_ids]. rewrite elem_of_app.
  change (proc_run (op :: ops) m) with (proc_run ops (proc_do m op)) in H. destruct (IH _ H) as [Hd|Hi]; [|auto].
  apply proc_do_dom in Hd as [Hd|(a & pid & log & -> & Hs & ->)]; [auto|]. right. left.
  destruct (Nat.eqb_spec (pm_starting m) 0); [done|]. by apply list_elem_of_singleton.
Qed.

(** A session id names one process for the whole session: the ids a run
    hands out are pairwise different, also after processes ended or were
    killed, and only they name processes. *)
Theorem process_ids_unique c ops :
  NoDup (issued_ids ops (new_manager c))
  /\ forall id p, proc_get (proc_run ops (new_manager c)) id = inr p ->
       id ∈ issued_ids ops (new_manager c).
Proof.
  split; [apply issued_NoDup|]. intros id p. unfold proc_get. intros Hp.
  destruct (pm_procs (proc_run ops (new_manager c)) !! id) eqn:Hid; [|done].
  destruct (run_dom ops (new_manager c) id) as [H|H]; [by eapply elem_of_dom_2| |done]. cbn in H. set_solver.
Qed.

(** ** What collecting delivers *)
Inductive hist_op := HistWrite (s : string) | HistExit (code : Z) | HistRead.

Definition hist_do (max : nat) (st : proc * list (nat * string)) (op : hist_op) : proc * list (nat * string) :=
  let '(p, shown) := st in
  match op with
  | HistWrite s => (proc_writes p s, shown)
  | HistExit code => (proc_exits p code, shown)
  | HistRead => let '((text, dropped), p) := collect_read max p in (p, shown ++ [(dropped, text)])
  end.

(** A process just started: in the session, or detached with an empty log. *)
Definition fresh_proc (max : nat) (command : string) (pid : Z) (log : option string) : proc :=
  {| pr_command := command; pr_pid := pid; pr_adopted := false; pr_log := (fun path => (path, "")) <$> log;
     pr_out := {| tb_buf := ""; tb_max := max; tb_total := 0 |}; pr_exit := None; pr_read := 0 |}.

Definition history (max : nat) (p : proc) (ops : list hist_op) : proc * list (nat * string) := foldl (hist_do max) (p, []) ops.

(** What the process wrote before it exited. *)
Fixpoint printed (exited : bool) (ops : list hist_op) : string :=
  match ops with
  | [] => ""
  | HistWrite s :: ops => (if exited then "" else s) +:+ printed exited ops
  | HistExit _ :: ops => printed true ops
  | HistRead :: ops => printed exited ops
  end.

Definition exits (ops : list hist_op) : bool := existsb (fun op => match op with HistExit _ => true | _ => false end) ops.

Lemma printed_app exited ops ops' : printed exited (ops ++ ops') = printed exited ops +:+ printed (exited || exits ops) ops'.
Proof.
  revert exited. induction ops as [|op ops IH]; intros exited; cbn [app printed exits existsb]; [by rewrite orb_false_r|].
  destruct op; cbn [orb]; rewrite IH, ?orb_true_r; fold (exits ops); try done. by rewrite app_assoc_str.
Qed.

Record hist_inv (max : nat) (out : string) (p : proc) (shown : list (nat * string)) : Prop := {
  hi_content : match pr_log p with Some (_, text) => text = out | None => pr_out p = tail_of max out end;
  hi_read : pr_read p <= blen out;
  hi_shown : covers (str_take (pr_read p) out) shown;
}.

Lemma proc_since_of max out p shown :
  hist_inv max out p shown -> let d := blen out - max - pr_read p in proc_since max p = (str_drop (pr_read p + d) out, blen out, d).
Proof.
  intros [Hc Hr _]. unfold proc_since. destruct (pr_log p) as [[path text]|].
  - subst text. by apply log_since_of.
  - rewrite Hc. by apply tail_since_of.
Qed.

Lemma covers_read max out from shown :
  from <= blen out -> covers (str_take from out) shown ->
  let d := blen out - max - from in covers out (shown ++ [(d, str_drop (from + d) out)]).
Proof.
  intros Hf Hc. cbv zeta. set (d := blen out - max - from).
  pose proof (covers_snoc _ _ (str_take d (str_drop from out)) (str_drop (from + d) out) Hc) as H.
  rewrite <- drop_drop_str, take_drop_str, take_drop_str, drop_drop_str in H.
  by replace (blen (str_take d (str_drop from out))) with d in H by blen.
Qed.

Lemma history_inv max command pid log ops :
  let '(p, shown) := history max (fresh_proc max command pid log) ops in
  hist_inv max (printed false ops) p shown /\ (running p = negb (exits ops)).
Proof.
  unfold history. induction ops as [|op ops IH] using rev_ind.
  - cbn. split; [|done]. split; cbn; [by destruct log|lia|constructor].
  - rewrite foldl_snoc, printed_app. destruct (foldl (hist_do max) _ ops) as [p shown]. destruct IH as [[Hc Hr Hs] He].
    unfold exits. rewrite existsb_app. fold (exits ops). cbn [existsb orb]. destruct op as [s|code|]; cbn [hist_do printed].
    + unfold proc_writes. unfold running in He. destruct (pr_exit p) eqn:Ex; destruct (exits ops) eqn:Ee; try done; cbn [orb negb]; rewrite ?app_empty_r.
      * split; [done|]. unfold running. by rewrite Ex.
      * split; [|done]. split; cbn.
        -- destruct (pr_log p) as [[path text]|]; [by subst text|]. by rewrite Hc, tail_Write_of.
        -- rewrite blen_app. lia.
        -- by rewrite take_app_le_str.
    + rewrite app_empty_r, orb_true_r. unfold proc_exits, running in *. destruct (pr_exit p) eqn:Ex; [|by split; [split|]].
      split; [done|]. by rewrite Ex.
    + rewrite app_empty_r, orb_false_r. pose proof (proc_since_of max _ p shown ltac:(by split)) as Hps. cbv zeta in Hps.
      unfold collect_read. rewrite Hps. split; [|done]. split; cbn; [done|done|]. rewrite (take_ge_str (blen _)) by done. by apply covers_read.
Qed.

(** Collecting shows a process's output in order and once.  At any time
    what the calls showed, with gaps of exactly the lengths they reported, is
    the output up to the last read, for a process of the session as for a
    detached one; and once the process has exited, one more read completes
    the whole output, nothing comes after it, and the process is forgotten. *)
Theorem collect_accounts max command pid log ops :
  let '(p, shown) := history max (fresh_proc max command pid log) ops in
  covers (str_take (pr_read p) (printed false ops)) shown
  /\ (exits ops = true ->
      let '((text, dropped), p') := collect_read max p in
      covers (printed false ops) (shown ++ [(dropped, text)])
      /\ (forall s, proc_writes p' s = p') /\ forall m id, pm_procs (collect_report m id p') !! id = None).
Proof.
  pose proof (history_inv max command pid log ops) as H. destruct (history max _ ops) as [p shown]. destruct H as [I He].
  split; [apply I|]. intros Hx. rewrite Hx in He. pose proof (proc_since_of _ _ _ _ I) as Hps. cbv zeta in Hps. unfold collect_read. rewrite Hps.
  destruct I as [_ Hr Hs]. split; [by apply covers_read|]. unfold running in He. destruct (pr_exit p) eqn:Ex; [|done]. split.
  - intros s. by unfold proc_writes.
  - intros m id. unfold collect_report, running. cbn. apply lookup_delete_eq.
Qed.

(** A process that prints its last line and exits between the read of a
    collect and its report is forgotten with that line unread. *)
Lemma last_output_lost :
  let m := proc_run [OpAdmit (inr demo_exec); OpRegister demo_exec 7 ""; OpRead "p1"; OpWrites "p1" "done"; OpExits "p1" 0]
             (new_manager demo_config) in
  ((fun p => proc_since 100 p) <$> pm_procs m !! "p1") = Some ("done", 4, 0)
  /\ pm_procs (proc_do m (OpReport "p1")) = ∅.
Proof. vm_compute. done. Qed.

(** ** The wait *)
Lemma yield_bound c ms :
  (0 < ms)%Z -> (yield (config_defaults c) ms <= pc_MaxYield (config_defaults c))%Z.
Proof.
  intros Hms. unfold yield. destruct (Z.leb_spec ms 0); [lia|].
  destruct (Z.ltb_spec (pc_MaxYield (config_defaults c)) (wrap64 (ms * millisecond))); lia.
Qed.

(** ** Behind the gate *)
Section GateProps.
Context {Ctx W E : Type}.
Variable exec_args : RawJSON -> result execCommandArgs.
Variable stdin_args : RawJSON -> result writeStdinArgs.
Variable has_bash : bool.

Lemma commandsOf_shellArgv cmd : commandsOf (shellArgv has_bash cmd) = splitScript cmd.
Proof. unfold shellArgv. by destruct has_bash. Qed.

(** Starting a process is judged like the shell's commands.  A command
    line with a forbidden command never starts, detached or not, whatever
    the mode, rules, grants and answers; a detached start and text typed
    into a process are never run by the modes that run read-only or
    reversible calls; and an approval to type is remembered for one process
    only. *)
Theorem process_gate rules0 rules (t : @TieredApproval Ctx W E) ctx info w :
  NewRules rules0 = inr rules ->
  ta_classify t = Some (fun _ info => eff_ret (classifyProcs exec_args stdin_args has_bash (Some rules) info)) ->
  (forall a cmds, info_name info = ExecCommandTool -> exec_args (tc_Args (ti_Call info)) = inr a -> ec_Cmd a <> "" ->
     splitScript (ec_Cmd a) = Some cmds ->
     (Exists (fun cmd => decided rules Forbidden cmd = true) cmds -> refuses (WrapToolCall t ctx info) w)
     /\ (ec_Detach a = true -> Forall (fun cmd => decided rules Forbidden cmd = false) cmds ->
         exists c, eff_value (classify_call t ctx info) w = Some c
           /\ mode_runs ModeReadOnlyAuto (classified info c) = false /\ mode_runs ModeReversibleAuto (classified info c) = false))
  /\ (forall a, info_name info = WriteStdinTool -> stdin_args (tc_Args (ti_Call info)) = inr a -> ws_Chars a <> "" ->
        exists c, eff_value (classify_call t ctx info) w = Some c
          /\ mode_runs ModeReadOnlyAuto (classified info c) = false /\ mode_runs ModeReversibleAuto (classified info c) = false
          /\ forall w', ws_SessionID a <> "" ->
               rememberKey t w' (classified info c) = Some (WriteStdinTool +:+ nul +:+ ws_SessionID a)).
Proof.
  intros Hr Hcl. split.
  - intros a cmds Hn Ha Hcmd Hs. pose proof (classify_disposition rules (shellArgv has_bash (ec_Cmd a)) cmds) as Hd.
    rewrite commandsOf_shellArgv in Hd. specialize (Hd Hs).
    assert (eff_value (classify_call t ctx info) w = Some
      (let class := classify rules (shellArgv has_bash (ec_Cmd a)) in
       if ec_Detach a && negb (bool_decide (cc_Disposition class = DispositionForbidden))
       then class_of DispositionDestructive ("detach " +:+ ec_Cmd a) "keeps running after this session ends" else class)) as Hc.
    { unfold classify_call. rewrite Hcl. unfold classifyProcs, eff_value. cbn -[classify]. rewrite Hn, String.eqb_refl, Ha.
      destruct (String.eqb_spec (ec_Cmd a) ""); [done|]. done. }
    split.
    + intros Hf%existsb_Exists. unfold disposition_of in Hd. rewrite Hf in Hd. pose proof (wrap_settled t ctx info w) as Hset.
      unfold authorised in Hset. rewrite Hc in Hset. cbv zeta in Hset. rewrite Hd, bool_decide_eq_true_2, andb_false_r, Hd in Hset by done.
      exact Hset.
    + intros Hdet Hall. eexists. split; [exact Hc|]. cbv zeta. rewrite Hdet, bool_decide_eq_false_2; [done|]. rewrite Hd.
      unfold disposition_of. replace (existsb (decided rules Forbidden) cmds) with false; [by repeat case_match|].
      symmetry. clear -Hall. induction Hall as [|c cs Hc _ IH]; [done|]. cbn. by rewrite Hc.
  - intros a Hn Ha Hch. exists (class_of DispositionDestructive (ws_SessionID a) "types into a running command").
    assert (eff_value (classify_call t ctx info) w = Some (class_of DispositionDestructive (ws_SessionID a) "types into a running command")) as Hc.
    { unfold classify_call. rewrite Hcl. unfold classifyProcs, eff_value. cbn. rewrite Hn. cbn. rewrite Ha.
      destruct (String.eqb_spec (ws_Chars a) ""); [done|]. done. }
    split; [exact Hc|]. split; [done|]. split; [done|]. intros w' Hid. unfold rememberKey. rewrite ti_Class_classified. cbn [cc_Key cc_Disposition class_of].
    rewrite info_name_classified, Hn. destruct (String.eqb_spec (ws_SessionID a) ""); [done|]. done.
Qed.
End GateProps.

Definition procs_gate_t : @TieredApproval unit unit unit :=
  fst (NewTieredApproval [WithClassifier (Some (fun _ info => eff_ret (classifyProcs
    (fun raw => inr {| ec_Cmd := raw; ec_Workdir := ""; ec_YieldMS := 0; ec_TTY := false; ec_Detach := true |})
    (fun raw => inr {| ws_SessionID := "p1"; ws_Chars := raw; ws_YieldMS := 0 |}) true (Some [git_rule; rm_rule]) info)))]).

Definition proc_call (tool raw : string) : ToolCallInfo :=
  {| ti_Step := 0; ti_Call := {| tc_ID := "1"; tc_Name := tool; tc_Args := raw |}; ti_Scope := ScopeFrom [] None None;
     ti_ReadOnly := false; ti_Destructive := true; ti_Idempotent := false; ti_Class := None |}.

Lemma process_gate_witness :
  refuses (WrapToolCall procs_gate_t tt (proc_call ExecCommandTool "git diff && rm x")) ({| gs_mode := ModeAlwaysAllow; gs_remembered := ∅ |}, tt).
Proof.
  refine (proj1 (proj1 (process_gate (fun raw => inr {| ec_Cmd := raw; ec_Workdir := ""; ec_YieldMS := 0; ec_TTY := false; ec_Detach := true |})
    (fun raw => inr {| ws_SessionID := "p1"; ws_Chars := raw; ws_YieldMS := 0 |}) true [git_rule; rm_rule] [git_rule; rm_rule]
    procs_gate_t tt (proc_call ExecCommandTool "git diff && rm x") _ eq_refl eq_refl)
    _ [["git"; "diff"]; ["rm"; "x"]] eq_refl eq_refl _ eq_refl) _); [discriminate|].
  right. left. reflexivity.
Defined.

(** ** Two readings of one call

    The gate decodes the model's JSON into a struct; the tool decodes a map
    of it that was encoded again, with its keys sorted.  encoding/json gives
    a struct field the last key that equals its name up to case. *)
Section Readings.
Context {V : Type}.

Definition lower (c : Ascii.ascii) : Ascii.ascii := if in_range 65 90 c then Ascii.ascii_of_nat (code c + 32) else c.

Fixpoint fold_key (s : string) : string :=
  match s with EmptyString => "" | String c s => String (lower c) (fold_key s) end.

(** The field [name] of a struct, for keys in ASCII. *)
Definition struct_field (name : string) (fields : list (string * V)) : option V :=
  foldl (fun found '(k, v) => if String.eqb (fold_key k) (fold_key name) then Some v else found) None fields.

(** The object of the map an object decodes to: distinct keys, in order, the
    last value of each. *)
Fixpoint key_insert (k : string) (v : V) (l : list (string * V)) : list (string * V) :=
  match l with
  | [] => [(k, v)]
  | (k', v') :: l' =>
      match String.compare k k' with
      | Lt => (k, v) :: l
      | Eq => (k, v) :: l'
      | Gt => (k', v') :: key_insert k v l'
      end
  end.

Definition reencoded (fields : list (string * V)) : list (string * V) := foldl (fun l '(k, v) => key_insert k v l) [] fields.

Lemma key_insert_new k v l : k ∉ l.*1 -> key_insert k v l ≡ₚ (k, v) :: l.
Proof.
  induction l as [|[k' v'] l IH]; [done|]. intros Hn. cbn. destruct (String.compare k k') eqn:Hc; [|done|].
  - apply String.compare_eq_iff in Hc as ->. destruct Hn. cbn. by left.
  - rewrite IH; [apply Permutation_swap|]. intros H. apply Hn. cbn. by right.
Qed.

Lemma reencoded_perm fields : NoDup (fields.*1) -> reencoded fields ≡ₚ fields.
Proof.
  unfold reencoded. induction fields as [|[k v] fields IH] using rev_ind; [done|]. rewrite foldl_snoc, fmap_app.
  intros (Hnd & Hd & _)%NoDup_app. specialize (IH Hnd). rewrite key_insert_new.
  - rewrite IH. by rewrite Permutation_app_comm.
  - rewrite IH. intros Hin. apply (Hd k Hin). by apply list_elem_of_singleton.
Qed.

Lemma struct_field_spec name fields v :
  NoDup (map (fun kv => fold_key kv.1) fields) ->
  struct_field name fields = Some v <-> exists k, (k, v) ∈ fields /\ fold_key k = fold_key name.
Proof.
  unfold struct_field. induction fields as [|[k w] fields IH] using rev_ind.
  { intros _. cbn. split; [done|]. by intros (k & ?%elem_of_nil & _). }
  rewrite map_app, foldl_snoc. intros (Hnd & Hd & _)%NoDup_app. specialize (IH Hnd). setoid_rewrite elem_of_app.
  setoid_rewrite list_elem_of_singleton. destruct (String.eqb_spec (fold_key k) (fold_key name)) as [He|He].
  - split; [intros [= ->]; eauto|]. intros (k' & [Hin|[= -> ->]] & Hk'); [|done]. exfalso.
    apply (Hd (fold_key k')); [by apply (list_elem_of_fmap_2 (fun kv => fold_key kv.1) _ (k', v))|]. rewrite Hk', <- He. apply list_elem_of_singleton. done.
  - rewrite IH. split; [intros (k' & ? & ?); eauto|]. intros (k' & [Hin|[= -> ->]] & Hk'); [eauto|done].
Qed.

(** The tool runs the arguments the gate judged when no two keys of the
    call's object differ in case only: then every field reads the same from
    the model's object and from the map encoded again. *)
Theorem readings_agree fields name :
  NoDup (map (fun kv => fold_key kv.1) fields) -> struct_field name (reencoded fields) = struct_field name fields.
Proof.
  intros Hnd. assert (NoDup (fields.*1)) as Hk.
  { apply (NoDup_fmap_1 fold_key). rewrite <- list_fmap_compose. exact Hnd. }
  pose proof (reencoded_perm fields Hk) as Hp.
  assert (NoDup (map (fun kv => fold_key kv.1) (reencoded fields))) as Hnd' by by rewrite Hp.
  destruct (struct_field name fields) as [v|] eqn:Hf.
  - apply struct_field_spec; [done|]. apply struct_field_spec in Hf as (k & Hin & Hk'); [|done]. exists k. by rewrite Hp.
  - destruct (struct_field name (reencoded fields)) as [v|] eqn:Hf'; [|done].
    apply struct_field_spec in Hf' as (k & Hin & Hk'); [|done]. rewrite Hp in Hin.
    rewrite <- Hf. symmetry. apply struct_field_spec; [done|]. eauto.
Qed.
End Readings.

(** With a second key in another case the gate is shown one command, which
    the rules allow, and the tool runs another, which they forbid. *)
Definition two_commands : list (string * list string) := [("command", ["rm"; "-rf"; "x"]); ("COMMAND", ["git"; "status"])].

Lemma readings_agree_witness :
  struct_field "command" (reencoded [("workdir", [""]); ("command", ["git"; "status"])]) = Some ["git"; "status"].
Proof.
  transitivity (struct_field "command" [("workdir", [""]); ("command", ["git"; "status"])]); [|reflexivity].
  apply readings_agree. apply (bool_decide_unpack _). vm_compute. exact I.
Defined.

Lemma forbidden_command_disguised :
  (cc_Disposition ∘ classify [git_rule; rm_rule] <$> struct_field "command" two_commands) = Some DispositionReadOnly
  /\ (cc_Disposition ∘ classify [git_rule; rm_rule] <$> struct_field "command" (reencoded two_commands)) = Some DispositionForbidden.
Proof. done. Qed.
