(* ===== verification/SkillGrants.v ===== *)
(** * What skills grant: src/host/skillgrants.go, the [load_skill] tool of
    src/host/skills.go, and the gate src/host/app.go and config.go build

    A skill's [allowed-tools] lets matching calls run unasked for the rest of
    the turn: at once for the user's own skills, after a person approved the
    load for any other.  The App's part of the world is [AppState]; decoding a
    call's JSON, reading a skill's body and asking the user are parameters,
    and whatever they take the world may change meanwhile. *)

From S2P Require Import Prelude GoStr Errors Json Provider TreeBudget Middleware Approval Paths ShellRules Skills.
Local Open Scope nat_scope.

(** ** Grants *)
Record skillGrant := { sg_tool : string; sg_argv : list string; sg_any : bool }.

Definition grant_String (g : skillGrant) : string :=
  match sg_argv g with
  | [] => sg_tool g
  | argv => sg_tool g +:+ ": " +:+ str_join " " argv +:+ (if sg_any g then " *" else "")
  end.

(** The words of a grant against the words of a command. *)
Fixpoint words_match (first : bool) (ws cmd : list string) : bool :=
  match ws, cmd with
  | [], _ => true
  | _, [] => false
  | w :: ws, c :: cmd => String.eqb (if first then Base c else c) w && words_match false ws cmd
  end.

Section Matches.
(** The [command] of a call's arguments, if they can be read. *)
Variable command_of : RawJSON -> option (list string).

Definition grant_matches (g : skillGrant) (call : ToolCall) : bool :=
  if negb (String.eqb (tc_Name call) (sg_tool g)) then false
  else match sg_argv g with
       | [] => true
       | argv =>
           match command_of (tc_Args call) with
           | None => false
           | Some cmd =>
               if (length cmd <? length argv) || (negb (sg_any g) && negb (length cmd =? length argv)) then false
               else words_match true argv cmd
           end
       end.
End Matches.

(** ** Reading [allowed-tools] *)
Definition claudeTools (name : string) : option (list string) :=
  if String.eqb name "Bash" then Some ["shell"]
  else if String.eqb name "Read" then Some ["read_file"]
  else if String.eqb name "Write" then Some ["write_file"]
  else if String.eqb name "Edit" then Some ["edit_file"; "apply_patch"]
  else if String.eqb name "MultiEdit" then Some ["edit_file"; "apply_patch"]
  else if String.eqb name "Glob" then Some ["list_files"]
  else if String.eqb name "Grep" then Some ["search_files"]
  else None.

Definition is_lower (c : Ascii.ascii) : bool := in_range 97 122 c.

Definition chakraToolName (name : string) : bool :=
  match name with
  | EmptyString => false
  | String c rest => is_lower c && str_forall (fun c => is_lower c || in_range 48 57 c || is_char 95 c) rest
  end.

Definition flush_entry (cur : string) : list string :=
  let s := trim_space cur in if String.eqb s "" then [] else [s].

Definition is_list_sep (c : Ascii.ascii) : bool := is_char 44 c || is_char 32 c || is_char 9 c || is_char 10 c.

(** [copy] bytes of a character are left to write, [cur] is the entry so
    far. *)
Fixpoint split_tools (copy depth : nat) (cur s : string) : list string :=
  match s with
  | EmptyString => flush_entry cur
  | String c rest =>
      let write t depth copy := split_tools copy depth (cur +:+ t) rest in
      match copy with
      | S k => write (String c "") depth k
      | O =>
          if 128 <=? code c then
            match utf8_len s with
            | O => write replacement_char depth 0
            | S k => write (String c "") depth k
            end
          else if is_char 40 c then write (String c "") (S depth) 0
          else if is_char 41 c && (0 <? depth) then write (String c "") (Nat.pred depth) 0
          else if (depth =? 0) && is_list_sep c then flush_entry cur ++ split_tools 0 depth "" rest
          else write (String c "") depth 0
      end
  end.

Definition splitAllowedTools (text : string) : list string := split_tools 0 0 "" text.

Definition has_wildcard (w : string) : bool := negb (str_forall (fun c => negb (is_char 42 c || is_char 63 c)) w).

Definition bash_spec (spec : string) : string * bool :=
  if has_suffix ":*" spec then (trim_suffix spec ":*", true)
  else if has_suffix " *" spec then (trim_suffix spec " *", true)
  else (spec, false).

Definition bashGrant (spec : string) : option skillGrant :=
  let spec := trim_space spec in
  if String.eqb spec "*" || String.eqb spec "" then Some {| sg_tool := "shell"; sg_argv := []; sg_any := true |}
  else
    let '(spec, any) := bash_spec spec in
    let argv := str_fields spec in
    if Nat.eqb (length argv) 0 || existsb has_wildcard argv then None
    else Some {| sg_tool := "shell"; sg_argv := argv; sg_any := any |}.

Definition tool_grant (t : string) : skillGrant := {| sg_tool := t; sg_argv := []; sg_any := true |}.

(** The grants of one entry, or nothing when it is to be ignored. *)
Definition entry_grants (entry : string) : option (list skillGrant) :=
  match cut_byte (Ascii.ascii_of_nat 40) entry with
  | Some (name, spec) =>
      if negb (String.eqb name "Bash") || negb (has_suffix ")" spec) then None
      else (fun g => [g]) <$> bashGrant (trim_suffix spec ")")
  | None =>
      match claudeTools entry with
      | Some tools => Some (List.map tool_grant tools)
      | None => if chakraToolName entry then Some [tool_grant entry] else None
      end
  end.

Definition add_entry (acc : list skillGrant * list string) (entry : string) : list skillGrant * list string :=
  match entry_grants entry with
  | Some gs => (fst acc ++ gs, snd acc)
  | None => (fst acc, snd acc ++ [entry])
  end.

Definition parseSkillGrants (text : string) : list skillGrant * list string :=
  foldl add_entry ([], []) (splitAllowedTools text).

(** ** The state *)
Record skillGrants := { gr_approved : gset string; gr_active : list skillGrant }.

Definition approve (key : string) (s : skillGrants) : skillGrants :=
  {| gr_approved := {[key]} ∪ gr_approved s; gr_active := gr_active s |}.

Definition isApproved (s : skillGrants) (key : string) : bool := bool_decide (key ∈ gr_approved s).

Definition activate (gs : list skillGrant) (s : skillGrants) : skillGrants :=
  {| gr_approved := gr_approved s; gr_active := gr_active s ++ gs |}.

Definition grants_endTurn (s : skillGrants) : skillGrants := {| gr_approved := gr_approved s; gr_active := [] |}.

(** The state of the App the skills use. *)
Record AppState := { app_skills : skillSet; app_grants : skillGrants }.

Definition on_grants (f : skillGrants -> skillGrants) (a : AppState) : AppState :=
  {| app_skills := app_skills a; app_grants := f (app_grants a) |}.

Record loadSkillArgs := { ls_Name : string; ls_Server : string }.

Definition LoadSkillTool : string := "load_skill".

Definition skill_grants (m : catalogSkill) : list skillGrant := fst (parseSkillGrants (allowedTools (cs_entry m))).
Definition skill_ignored (m : catalogSkill) : list string := snd (parseSkillGrants (allowedTools (cs_entry m))).
Definition grant_names (gs : list skillGrant) : string := str_join ", " (List.map grant_String gs).

Definition resolve_load (a : AppState) (args : loadSkillArgs) : option catalogSkill * list string :=
  resolveCatalogSkill (allCatalog (app_skills a)) (trim_space (ls_Name args)) (trim_space (ls_Server args)).

(** [grantSkill]: the note for the model and the new state. *)
Definition grantSkill (m : catalogSkill) (a : AppState) : string * AppState :=
  match skill_grants m with
  | [] => ("", a)
  | gs =>
      let allowed := own_skill m || match skillApprovalKey m with Some key => isApproved (app_grants a) key | None => false end in
      if negb allowed then ("", a)
      else ("[granted for the rest of this turn, without asking: " +:+ grant_names gs +:+ "]", on_grants (activate gs) a)
  end.

(** The default question: the arguments up to 200 bytes. *)
Definition approvalPrompt (info : ToolCallInfo) : string :=
  let args := trim_space (tc_Args (ti_Call info)) in
  let args := if 200 <? String.length args then str_take 200 args +:+ byte_of 226 +:+ byte_of 128 +:+ byte_of 166 else args in
  let q := if String.eqb args "" || String.eqb args "{}" then "Allow tool call " +:+ go_quote (info_name info) +:+ "?"
           else "Allow tool call " +:+ go_quote (info_name info) +:+ " with " +:+ args +:+ "?" in
  match ti_Class info with
  | Some c => if String.eqb (cc_Reason c) "" then q else q +:+ " (" +:+ cc_Reason c +:+ ")"
  | None => q
  end.

Section Load.
(** [Args.Bind] of a [load_skill] call. *)
Variable bind_load : RawJSON -> option loadSkillArgs.

Definition named_skill (a : AppState) (info : ToolCallInfo) : option catalogSkill :=
  args ← bind_load (tc_Args (ti_Call info)); fst (resolve_load a args).

Definition loadSkillGrants (a : AppState) (info : ToolCallInfo) : option (catalogSkill * list skillGrant * list string) :=
  if negb (String.eqb (info_name info) LoadSkillTool) then None
  else
    m ← named_skill a info;
    match skill_grants m, skill_ignored m with
    | [], [] => None
    | gs, ig => Some (m, gs, ig)
    end.

Definition classifySkillLoad (a : AppState) (info : ToolCallInfo) : option CallClass :=
  match loadSkillGrants a info with
  | None | Some (_, [], _) => None
  | Some (m, _, _) =>
      if own_skill m then None
      else Some (class_of DispositionDestructive (default "" (skillApprovalKey m)) "")
  end.

Definition renderSkillLoad (a : AppState) (info : ToolCallInfo) : option string :=
  '(m, gs, ig) ← loadSkillGrants a info;
  Some (approvalPrompt info
        +:+ match gs with
            | [] => ""
            | _ => " Approving also lets these run without asking for the rest of this turn: " +:+ grant_names gs +:+ "."
            end
        +:+ match ig with
            | [] => ""
            | _ => " Not granted, since chakra has no matching tool: " +:+ str_join ", " ig +:+ "."
            end).

Definition noteApprovedSkillLoad (info : ToolCallInfo) (a : AppState) : AppState :=
  match loadSkillGrants a info with
  | None | Some (_, [], _) => a
  | Some (m, _, _) => match skillApprovalKey m with Some key => on_grants (approve key) a | None => a end
  end.

Definition app_rememberKey (a : AppState) (info : ToolCallInfo) : option string :=
  if negb (String.eqb (info_name info) LoadSkillTool) then Some (info_name info)
  else m ← named_skill a info; skillApprovalKey m.
End Load.

Definition grants_cover (command_of : RawJSON -> option (list string)) (s : skillGrants) (call : ToolCall) : bool :=
  existsb (fun g => grant_matches command_of g call) (gr_active s).

(** ** The gate of the App *)

(** [strings.ToLower] compared with ASCII text: of the characters beyond ASCII
    only the dotted capital I and the Kelvin sign have an ASCII lower case. *)
Definition dotted_I : string := byte_of 196 +:+ byte_of 176.
Definition kelvin : string := byte_of 226 +:+ byte_of 132 +:+ byte_of 170.

Fixpoint to_lower (skip : nat) (s : string) : string :=
  match s with
  | EmptyString => ""
  | String c rest =>
      match skip with
      | S k => to_lower k rest
      | O => if has_prefix dotted_I s then "i" +:+ to_lower 1 rest
             else if has_prefix kelvin s then "k" +:+ to_lower 2 rest
             else String (lower_ascii c) (to_lower 0 rest)
      end
  end.

Definition config_word (s : string) : string := to_lower 0 (trim_space s).

Definition parseApprovalMode (s : string) : ApprovalMode :=
  let w := config_word s in
  if str_mem w ["allow"; "yolo"; "auto"; "full-auto"] then ModeAlwaysAllow
  else if str_mem w ["read-only-auto"; "readonly"; "read-only"] then ModeReadOnlyAuto
  else if str_mem w ["reversible-auto"; "reversible"; "auto-edit"] then ModeReversibleAuto
  else ModeAlwaysAsk.

Definition approvalModeName (m : ApprovalMode) : string :=
  match m with
  | ModeAlwaysAllow => "allow"
  | ModeReadOnlyAuto => "read-only-auto"
  | ModeReversibleAuto => "reversible-auto"
  | _ => "ask"
  end.

Definition parseToolRule (s : string) : option ToolRule :=
  let w := config_word s in
  if String.eqb w "allow" then Some RuleAllow
  else if String.eqb w "deny" then Some RuleDeny
  else if String.eqb w "ask" then Some RuleAsk
  else None.

Record ApprovalConfig := { ac_Mode : string; ac_Remember : bool; ac_Rules : gmap string string }.

Section App.
Context {Ctx W E : Type}.
Abbreviation HW := (AppState * W)%type.
Abbreviation GW := (GateState * HW)%type.

Variable bind_load : RawJSON -> option loadSkillArgs.
Variable command_of : RawJSON -> option (list string).

(** The coordinator's question to the user, and what extensions add. *)
Variable confirm : Ctx -> string -> eff GW E (bool * option error).
Variable renderers : list (option (Ctx -> ToolCallInfo -> eff GW E (string * bool))).
Variable choosers : list (option (@ChooseFunc Ctx HW E)).
Variable classifiers : list (option (@ClassifyFunc Ctx HW E)).

Definition app_call {A} (f : AppState -> A * AppState) : eff GW E A :=
  eff_call (fun '(g, (a, w)) => let '(r, a) := f a in (r, (g, (a, w)))).

Local Open Scope eff_scope.

Fixpoint first_render (rs : list (option (Ctx -> ToolCallInfo -> eff GW E (string * bool)))) (ctx : Ctx) (info : ToolCallInfo) : eff GW E string :=
  match rs with
  | [] => eff_ret (approvalPrompt info)
  | None :: rs => first_render rs ctx info
  | Some r :: rs =>
      let* p := r ctx info in
      let '(text, ok) := p in
      if ok && negb (String.eqb text "") then eff_ret text else first_render rs ctx info
  end.

Definition renderApproval (ctx : Ctx) (info : ToolCallInfo) : eff GW E string :=
  let* t := app_call (fun a => (renderSkillLoad bind_load a info, a)) in
  match t with
  | Some text => eff_ret text
  | None => first_render renderers ctx info
  end.

Definition no_choice : Choice := {| ch_Claimed := false; ch_Approved := false; ch_Args := ""; ch_Note := "" |}.

Fixpoint first_choice (cs : list (option (@ChooseFunc Ctx HW E))) (ctx : Ctx) (info : ToolCallInfo) : eff GW E (Choice * option error) :=
  match cs with
  | [] => eff_ret (no_choice, None)
  | None :: cs => first_choice cs ctx info
  | Some c :: cs =>
      let* p := c ctx info in
      let '(choice, err) := p in
      if bool_decide (is_Some err) || ch_Claimed choice then eff_ret (choice, err) else first_choice cs ctx info
  end.

Definition chooseApproval : @ChooseFunc Ctx HW E := first_choice choosers.

Fixpoint first_class (cs : list (option (@ClassifyFunc Ctx HW E))) (ctx : Ctx) (info : ToolCallInfo) : eff GW E (option CallClass) :=
  match cs with
  | [] => eff_ret None
  | None :: cs => first_class cs ctx info
  | Some c :: cs =>
      let* class := c ctx info in
      match class with Some class => eff_ret (Some class) | None => first_class cs ctx info end
  end.

Definition classifyApproval : @ClassifyFunc Ctx HW E := fun ctx info =>
  let* class := app_call (fun a => (classifySkillLoad bind_load a info, a)) in
  match class with Some class => eff_ret (Some class) | None => first_class classifiers ctx info end.

(** The [ask] of NewApp. *)
Definition app_ask : @AskFunc Ctx HW E := fun ctx info =>
  let* text := renderApproval ctx info in
  let* p := confirm ctx text in
  let '(ok, err) := p in
  (if ok && negb (bool_decide (is_Some err)) then app_call (fun a => (tt, noteApprovedSkillLoad bind_load info a)) else eff_ret tt) ;;;
  eff_ret (ok, err).

Definition grantCovers : @GrantFunc Ctx HW E := fun _ info =>
  app_call (fun a => (grants_cover command_of (app_grants a) (ti_Call info), a)).

Definition rule_options (rules : list (string * string)) : list (@TieredOption Ctx HW E) :=
  flat_map (fun '(tool, r) => match parseToolRule r with Some rule => [WithToolRule tool rule] | None => [] end) rules.

Definition buildApproval (c : option ApprovalConfig) : option (@TieredApproval Ctx HW E * GateState) :=
  c ← c;
  Some (NewTieredApproval
    ([WithDefaultMode (parseApprovalMode (ac_Mode c)); WithAsk (Some app_ask); WithChooser (Some chooseApproval);
      WithRememberApprovals (ac_Remember c);
      WithRememberKey (Some (fun w info => app_rememberKey bind_load (fst w) info));
      WithClassifier (Some classifyApproval); WithGrants (Some grantCovers)]
     ++ rule_options (map_to_list (ac_Rules c)))).

(** ** The tool *)
Inductive read_result := ReadOk (body : string) | ReadMismatch | ReadFailed (err : error).

(** [readSkill] of the skill's reader, and the re-listing it may start. *)
Variable readSkill : Ctx -> catalogSkill -> eff GW E read_result.
Variable refreshSkills : string -> eff GW E unit.

Definition em_dash : string := byte_of 226 +:+ byte_of 128 +:+ byte_of 148.

Definition unresolved_text (name : string) (collisions : list string) : string :=
  match collisions with
  | [] => "no skill named " +:+ name +:+ " " +:+ em_dash +:+ " use a name from the skills catalog"
  | [c] => "skill " +:+ name +:+ " is served more than once by server " +:+ c +:+ " " +:+ em_dash
           +:+ " re-call load_skill with the skill's full URI to disambiguate"
  | cs => "skill " +:+ name +:+ " is served by more than one source: " +:+ str_join ", " cs +:+ " " +:+ em_dash
          +:+ " re-call load_skill with server set to one of these labels"
  end.

Definition changed_text (name label : string) : string :=
  "skill " +:+ name +:+ " changed at its source " +:+ label
  +:+ " since it was listed, so this copy was refused. The host is re-reading it; call load_skill again to load the new version.".

Definition skill_text (m : catalogSkill) (body note : string) : string :=
  (match cs_local m with
   | Some d => wrapLocalSkill d (cs_name m) body
   | None => wrapSkillOrigin (cs_serverID m) (cs_name m) body
   end) +:+ (if String.eqb note "" then "" else newline +:+ newline +:+ note).

Definition load_skill (ctx : Ctx) (args : loadSkillArgs) : eff GW E (result string) :=
  let* p := app_call (fun a => (resolve_load a args, a)) in
  let '(match_, collisions) := p in
  match match_ with
  | None => eff_ret (inr (unresolved_text (trim_space (ls_Name args)) collisions))
  | Some m =>
      let* r := readSkill ctx m in
      match r with
      | ReadMismatch => refreshSkills (cs_serverID m) ;;; eff_ret (inr (changed_text (trim_space (ls_Name args)) (cs_serverID m)))
      | ReadFailed err => eff_ret (inl err)
      | ReadOk body =>
          let* note := app_call (grantSkill m) in
          eff_ret (inr (skill_text m body note))
      end
  end.
End App.

(** ** Printing and reading [allowed-tools] *)

(** *** Entries *)
Lemma has_suffix_last q d s c : has_suffix (q +:+ String d "") (s +:+ String c "") = true -> c = d.
Proof.
  unfold has_suffix. intros [_ H%String.eqb_eq]%andb_true_iff.
  assert (exists t, s +:+ String c "" = t +:+ (q +:+ String d "")) as [t Ht] by (eexists; rewrite <- H; symmetry; apply take_drop_str).
  rewrite <- app_assoc_str in Ht. by apply snoc_inj in Ht.
Qed.

Lemma has_suffix_prev q d e s c : has_suffix (q +:+ String d (String e "")) (s +:+ String c (String e "")) = true -> c = d.
Proof.
  unfold has_suffix. intros [_ H%String.eqb_eq]%andb_true_iff.
  assert (exists t, s +:+ String c (String e "") = t +:+ (q +:+ String d (String e ""))) as [t Ht]
    by (eexists; rewrite <- H; symmetry; apply take_drop_str).
  assert ((s +:+ String c "") +:+ String e "" = ((t +:+ q) +:+ String d "") +:+ String e "") as He by (by rewrite !app_assoc_str).
  apply app_suffix_inj in He. by apply snoc_inj in He.
Qed.

Definition plain_char (c : Ascii.ascii) : bool := graphic c && negb (existsb (Nat.eqb (code c)) [40; 41; 42; 63]).
Definition plain_word (w : string) : bool := negb (String.eqb w "") && str_forall plain_char w.

Lemma plain_word_graphic w : plain_word w = true -> graphic_word w = true.
Proof.
  unfold plain_word, graphic_word. intros [-> H]%andb_true_iff. cbn [andb]. revert H. apply str_forall_impl.
  intros c. unfold plain_char. by intros [-> _]%andb_true_iff.
Qed.

(** The grants an entry of [allowed-tools] can say, and how. *)
Definition grant_ok (g : skillGrant) : bool :=
  match sg_argv g with
  | [] => chakraToolName (sg_tool g) && sg_any g
  | argv => String.eqb (sg_tool g) "shell" && forallb plain_word argv
  end.

Definition bash_inner (argv : list string) (any : bool) : string := str_join " " argv +:+ (if any then " *" else "").

Definition grant_entry (g : skillGrant) : string :=
  match sg_argv g with
  | [] => sg_tool g
  | argv => "Bash(" +:+ bash_inner argv (sg_any g) +:+ ")"
  end.

Lemma join_edges ws : ws <> [] -> forallb plain_word ws = true ->
  exists c s t d, str_join " " ws = String c s /\ str_join " " ws = t +:+ String d "" /\ plain_char c = true /\ plain_char d = true.
Proof.
  assert (forall w, plain_word w = true -> exists c s t d, w = String c s /\ w = t +:+ String d "" /\ plain_char c = true /\ plain_char d = true) as Hw.
  { intros w [Hn%negb_true_iff%String.eqb_neq Hf]%andb_true_iff. destruct (word_last w Hn) as (t & d & Hd).
    pose proof Hf as Hf'. rewrite Hd, str_forall_app in Hf'. apply andb_true_iff in Hf' as [_ Hf']. cbn in Hf'. rewrite andb_true_r in Hf'.
    destruct w as [|c w]; [done|]. cbn in Hf. apply andb_true_iff in Hf as [Hc _]. by exists c, w, t, d. }
  induction ws as [|w ws IH]; [done|]. intros _ [H Hws]%andb_true_iff. destruct (Hw w H) as (c & s & t & d & Hc & Hd & Pc & Pd).
  destruct ws as [|v ws]; [by exists c, s, t, d|]. destruct IH as (_ & _ & t' & d' & _ & Ht' & _ & Pd'); [done..|].
  change (str_join " " (w :: v :: ws)) with (w +:+ " " +:+ str_join " " (v :: ws)).
  exists c, (s +:+ " " +:+ str_join " " (v :: ws)), (w +:+ " " +:+ t'), d'. split_and!; try done.
  - by rewrite Hc.
  - by rewrite Ht', !app_assoc_str.
Qed.

Lemma plain_graphic c : plain_char c = true -> graphic c = true.
Proof. unfold plain_char. by intros [-> _]%andb_true_iff. Qed.

Lemma plain_not_star c : plain_char c = true -> c <> Ascii.ascii_of_nat 42.
Proof. intros H ->. done. Qed.

Lemma bash_spec_inner argv any : argv <> [] -> forallb plain_word argv = true -> bash_spec (bash_inner argv any) = (str_join " " argv, any).
Proof.
  intros Hne Hw. destruct (join_edges argv Hne Hw) as (_ & _ & t & d & _ & Ht & _ & Hd). unfold bash_spec, bash_inner. destruct any.
  - destruct (has_suffix ":*" _) eqn:E; [|by rewrite has_suffix_self, trim_suffix_self].
    apply (has_suffix_prev "" (Ascii.ascii_of_nat 58) (Ascii.ascii_of_nat 42) _ (Ascii.ascii_of_nat 32)) in E. done.
  - rewrite app_empty_r. destruct (has_suffix ":*" _) eqn:E.
    { rewrite Ht in E. apply (has_suffix_last ":" (Ascii.ascii_of_nat 42)) in E. subst d. done. }
    clear E. destruct (has_suffix " *" _) eqn:E; [|done]. rewrite Ht in E. apply (has_suffix_last " " (Ascii.ascii_of_nat 42)) in E. subst d. done.
Qed.

Lemma bash_inner_edges argv any : argv <> [] -> forallb plain_word argv = true ->
  exists c s t d, bash_inner argv any = String c s /\ bash_inner argv any = t +:+ String d "" /\ plain_char c = true /\ graphic d = true.
Proof.
  intros Hne Hw. destruct (join_edges argv Hne Hw) as (c & s & t & d & Hc & Hd & Pc & Pd). unfold bash_inner. destruct any.
  - exists c, (s +:+ " *"), (str_join " " argv +:+ " "), (Ascii.ascii_of_nat 42). rewrite app_assoc_str. by rewrite Hc at 1.
  - rewrite app_empty_r. exists c, s, t, d. split_and!; [done..|]. by apply plain_graphic.
Qed.

Lemma no_wildcard argv : forallb plain_word argv = true -> existsb has_wildcard argv = false.
Proof.
  induction argv as [|w argv IH]; [done|]. cbn [forallb existsb]. intros [[_ Hf]%andb_true_iff H]%andb_true_iff. rewrite IH by done.
  rewrite orb_false_r. unfold has_wildcard. apply negb_false_iff. revert Hf. apply str_forall_impl. intros c.
  unfold plain_char, is_char. cbn [existsb]. rewrite !orb_false_r. destruct (graphic c), (Nat.eqb (code c) 40), (Nat.eqb (code c) 41),
    (Nat.eqb (code c) 42), (Nat.eqb (code c) 63); done.
Qed.

Lemma bashGrant_inner argv any : argv <> [] -> forallb plain_word argv = true ->
  bashGrant (bash_inner argv any) = Some {| sg_tool := "shell"; sg_argv := argv; sg_any := any |}.
Proof.
  intros Hne Hw. destruct (bash_inner_edges argv any Hne Hw) as (c & s & t & d & Hc & Hd & Pc & Pd). unfold bashGrant.
  assert (trim_space (bash_inner argv any) = bash_inner argv any) as ->.
  { rewrite Hc. eapply trim_space_edges; [by apply plain_graphic|exact Pd|]. by rewrite <- Hc. }
  assert (String.eqb (bash_inner argv any) "*" || String.eqb (bash_inner argv any) "" = false) as ->.
  { rewrite Hc. apply orb_false_iff. split; apply String.eqb_neq; [|done]. intros [= -> ->]. by apply plain_not_star in Pc. }
  rewrite bash_spec_inner by done. rewrite fields_join.
  2:{ apply Forall_forall. intros w Hin. apply plain_word_graphic. rewrite forallb_forall in Hw. apply Hw. by apply list_elem_of_In. }
  rewrite no_wildcard by done. by destruct argv.
Qed.

Lemma cut_at c s t : no_byte c s = true -> cut_byte c (s +:+ String c t) = Some (s, t).
Proof.
  intros Hs. assert (str_index_byte c (s +:+ String c t) = Some (String.length s)) as Hi.
  { revert Hs. unfold no_byte. induction s as [|d s IH]; rewrite ?app_cons, ?app_empty_l; cbn [str_index_byte str_forall]; [by rewrite Ascii.eqb_refl|]. intros [Hd%negb_true_iff Hs]%andb_true_iff.
    rewrite Ascii.eqb_sym, Hd, IH by done. done. }
  unfold cut_byte. rewrite Hi, take_app_str. f_equal. f_equal.
  replace (S (String.length s)) with (String.length (s +:+ String c "")) by (rewrite length_app_str; cbn; lia).
  change (String c t) with (String c "" +:+ t). by rewrite <- app_assoc_str, drop_app_str.
Qed.

Lemma cut_none c s : no_byte c s = true -> cut_byte c s = None.
Proof.
  intros Hs. unfold cut_byte. replace (str_index_byte c s) with (@None nat); [done|]. symmetry.
  unfold no_byte in Hs. induction s as [|d s IH]; [done|]. cbn [str_index_byte str_forall] in *. apply andb_true_iff in Hs as [Hd%negb_true_iff Hs].
  by rewrite Ascii.eqb_sym, Hd, IH.
Qed.

Definition tool_char (c : Ascii.ascii) : bool := is_lower c || in_range 48 57 c || is_char 95 c.

Lemma tool_name_chars name : chakraToolName name = true -> str_forall tool_char name = true /\ exists c s, name = String c s /\ is_lower c = true.
Proof.
  destruct name as [|c s]; [done|]. cbn [chakraToolName str_forall]. intros [Hc Hs]%andb_true_iff. split; [|by exists c, s].
  change (str_forall tool_char s = true) in Hs. unfold tool_char at 1. by rewrite Hc, Hs.
Qed.

Lemma tool_char_codes c : tool_char c = true -> graphic c = true /\ is_char 40 c = false /\ is_char 41 c = false /\ is_list_sep c = false /\ (128 <=? code c) = false.
Proof.
  unfold tool_char, is_lower, is_list_sep, graphic, in_range, is_char. intros H.
  rewrite !orb_true_iff, !andb_true_iff, !Nat.leb_le, Nat.eqb_eq in H.
  rewrite !orb_false_iff, !Nat.eqb_neq, andb_true_iff, !Nat.leb_le, Nat.leb_gt. lia.
Qed.

Lemma not_claude name : (exists c s, name = String c s /\ is_lower c = true) -> claudeTools name = None.
Proof.
  intros (c & s & -> & Hc). unfold claudeTools.
  repeat match goal with |- context [String.eqb (String c s) ?x] => destruct (String.eqb_spec (String c s) x) as [[= -> ->]|_]; [done|] end. done.
Qed.

Lemma entry_grants_entry g : grant_ok g = true -> entry_grants (grant_entry g) = Some [g].
Proof.
  destruct g as [tool [|w argv] any]; unfold grant_ok, grant_entry; cbn [sg_argv sg_tool sg_any]; intros [Ht Ha]%andb_true_iff; unfold entry_grants.
  - destruct (tool_name_chars _ Ht) as [Hc Hl]. rewrite cut_none, not_claude, Ht by
      (done || (revert Hc; apply str_forall_impl; intros c (_ & H & _)%tool_char_codes; apply negb_true_iff, Ascii.eqb_neq; by intros ->)).
    by destruct any.
  - set (inner := bash_inner (w :: argv) any). change ("Bash(" +:+ inner +:+ ")") with ("Bash" +:+ String (Ascii.ascii_of_nat 40) (inner +:+ ")")).
    rewrite cut_at by done. rewrite has_suffix_self, trim_suffix_self. cbn [String.eqb negb orb]. unfold inner. rewrite bashGrant_inner by done.
    apply String.eqb_eq in Ht as ->. done.
Qed.

(** *** The list *)
Definition copied (d : nat) (c : Ascii.ascii) : bool :=
  (code c <? 128) && negb (is_char 40 c) && negb (is_char 41 c) && ((0 <? d) || negb (is_list_sep c)).

Lemma split_copied d t cur rest :
  str_forall (copied d) t = true -> split_tools 0 d cur (t +:+ rest) = split_tools 0 d (cur +:+ t) rest.
Proof.
  revert cur. induction t as [|c t IH]; intros cur; [by rewrite app_empty_r|]. cbn [str_forall]. intros [Hc Ht]%andb_true_iff.
  rewrite app_cons. cbn [split_tools]. unfold copied in Hc. rewrite !andb_true_iff, !negb_true_iff, Nat.ltb_lt in Hc. destruct Hc as [[[H1 H2] H3] H4].
  replace (128 <=? code c) with false by (symmetry; apply Nat.leb_gt; lia). rewrite H2, H3. cbn [andb].
  assert ((d =? 0) && is_list_sep c = false) as ->.
  { destruct d; [|done]. cbn in H4. by rewrite negb_true_iff in H4. }
  rewrite IH by done. by rewrite app_assoc_str.
Qed.

Lemma split_sep sep cur rest :
  sep <> "" -> str_forall is_list_sep sep = true -> split_tools 0 0 cur (sep +:+ rest) = flush_entry cur ++ split_tools 0 0 "" rest.
Proof.
  assert (forall c cur rest, is_list_sep c = true -> split_tools 0 0 cur (String c rest) = flush_entry cur ++ split_tools 0 0 "" rest) as H1.
  { clear. intros c cur rest Hc. cbn [split_tools]. unfold is_list_sep, is_char in *. rewrite !orb_true_iff, !Nat.eqb_eq in Hc.
    replace (128 <=? code c) with false by (symmetry; apply Nat.leb_gt; lia).
    replace (code c =? 40) with false by (symmetry; apply Nat.eqb_neq; lia).
    rewrite andb_false_r. cbn [andb Nat.eqb].
    replace ((code c =? 44) || (code c =? 32) || (code c =? 9) || (code c =? 10)) with true; [done|].
    symmetry. rewrite !orb_true_iff, !Nat.eqb_eq. lia. }
  revert cur. induction sep as [|c sep IH]; [done|]. intros cur _. cbn [str_forall]. intros [Hc Hs]%andb_true_iff. rewrite app_cons, H1 by done.
  f_equal. destruct sep as [|d sep]; [done|]. by rewrite IH.
Qed.

Lemma copied_inner argv any : forallb plain_word argv = true -> str_forall (copied 1) (bash_inner argv any) = true.
Proof.
  assert (forall w, plain_word w = true -> str_forall (copied 1) w = true) as Hw.
  { intros w [_ H]%andb_true_iff. revert H. apply str_forall_impl. intros c. unfold plain_char, graphic, in_range, copied, is_char.
    cbn [existsb]. rewrite !andb_true_iff, !negb_true_iff, !orb_false_iff, !Nat.eqb_neq, !Nat.leb_le, Nat.ltb_lt. cbn. lia. }
  intros H. unfold bash_inner. rewrite str_forall_app, andb_true_iff. split; [|by destruct any].
  induction argv as [|w argv IH]; [done|]. cbn [forallb] in H. apply andb_true_iff in H as [H1 H2].
  destruct argv as [|v argv]; [by apply Hw|]. change (str_join " " (w :: v :: argv)) with (w +:+ " " +:+ str_join " " (v :: argv)).
  rewrite !str_forall_app, Hw by done. cbn [andb]. apply andb_true_iff. split; [done|by apply IH].
Qed.

Lemma split_entry g cur rest :
  grant_ok g = true -> split_tools 0 0 cur (grant_entry g +:+ rest) = split_tools 0 0 (cur +:+ grant_entry g) rest.
Proof.
  destruct g as [tool [|w argv] any]; unfold grant_ok, grant_entry; cbn [sg_argv sg_tool sg_any]; intros [Ht Ha]%andb_true_iff.
  - apply split_copied. destruct (tool_name_chars _ Ht) as [Hc _]. revert Hc. apply str_forall_impl.
    intros c (Hg & H1 & H2 & H3 & H4)%tool_char_codes. unfold copied. rewrite H1, H2, H3.
    replace (code c <? 128) with true by (symmetry; apply Nat.ltb_lt; by apply Nat.leb_gt). done.
  - set (inner := bash_inner (w :: argv) any). rewrite !app_assoc_str.
    change ("Bash(" +:+ inner +:+ ")" +:+ rest) with ("Bash" +:+ String (Ascii.ascii_of_nat 40) (inner +:+ ")" +:+ rest)).
    rewrite split_copied by done.
    transitivity (split_tools 0 1 ((cur +:+ "Bash") +:+ "(") (inner +:+ ")" +:+ rest)); [done|].
    rewrite split_copied by (by apply copied_inner).
    transitivity (split_tools 0 0 ((((cur +:+ "Bash") +:+ "(") +:+ inner) +:+ ")") rest); [done|]. by rewrite !app_assoc_str.
Qed.

Lemma flush_grant g : grant_ok g = true -> flush_entry (grant_entry g) = [grant_entry g].
Proof.
  intros H. assert (trim_space (grant_entry g) = grant_entry g /\ grant_entry g <> "") as [Ht Hn].
  { destruct g as [tool [|w argv] any]; unfold grant_ok, grant_entry in *; cbn [sg_argv sg_tool sg_any] in *; apply andb_true_iff in H as [H1 H2].
    - destruct (tool_name_chars _ H1) as [Hc (c & s & -> & _)]. split; [|done]. apply trim_graphic. unfold graphic_word. cbn [String.eqb negb andb].
      revert Hc. apply str_forall_impl. by intros d (Hd & _)%tool_char_codes.
    - split; [|done]. set (inner := bash_inner (w :: argv) any). apply (trim_space_edges _ (Ascii.ascii_of_nat 41) _ ("Bash(" +:+ inner)); done. }
  unfold flush_entry. rewrite Ht. by rewrite (proj2 (String.eqb_neq _ _)).
Qed.

Definition allowed_text (sep : string) (gs : list skillGrant) : string := str_join sep (List.map grant_entry gs).

Lemma split_allowed sep gs :
  sep <> "" -> str_forall is_list_sep sep = true -> forallb grant_ok gs = true ->
  splitAllowedTools (allowed_text sep gs) = List.map grant_entry gs.
Proof.
  intros Hn Hs. unfold splitAllowedTools, allowed_text. induction gs as [|g gs IH]; [done|]. cbn [forallb]. intros [Hg Hgs]%andb_true_iff.
  destruct gs as [|h gs].
  - cbn [List.map str_join]. rewrite <- (app_empty_r (grant_entry g)) at 1. rewrite split_entry, app_empty_l by done. by apply flush_grant.
  - change (str_join sep (List.map grant_entry (g :: h :: gs)))
      with (grant_entry g +:+ sep +:+ str_join sep (List.map grant_entry (h :: gs))).
    rewrite split_entry, split_sep, app_empty_l, flush_grant, IH by done. done.
Qed.

(** What a skill's frontmatter says is what is granted.  Any grants of
    whole tools and of commands of plain words, written one after the other
    with commas and blanks between them, are read back as the same grants in
    the same order, and nothing of them is ignored. *)
Theorem allowed_tools_roundtrip sep gs :
  sep <> "" -> str_forall is_list_sep sep = true -> forallb grant_ok gs = true ->
  parseSkillGrants (allowed_text sep gs) = (gs, []).
Proof.
  intros Hn Hs Hg. unfold parseSkillGrants. rewrite split_allowed by done. clear Hn Hs.
  assert (forall acc, foldl add_entry acc (List.map grant_entry gs) = (fst acc ++ gs, snd acc)) as H; [|by rewrite H].
  induction gs as [|g gs IH]; intros [a i]; cbn [List.map foldl fst snd]; [by rewrite app_nil_r|].
  cbn [forallb] in Hg. apply andb_true_iff in Hg as [H1 H2]. unfold add_entry at 2. rewrite entry_grants_entry by done.
  rewrite IH by done. cbn [fst snd]. by rewrite <- app_assoc.
Qed.

Definition demo_grants : list skillGrant :=
  [{| sg_tool := "shell"; sg_argv := ["git"; "tag"]; sg_any := true |}; tool_grant "read_file";
   {| sg_tool := "shell"; sg_argv := ["make"; "-j,4"]; sg_any := false |}].

Lemma allowed_tools_roundtrip_witness : parseSkillGrants "Bash(git tag *), read_file, Bash(make -j,4)" = (demo_grants, []).
Proof. exact (allowed_tools_roundtrip ", " demo_grants ltac:(done) eq_refl eq_refl). Defined.

(** *** What a grant covers *)
Lemma words_match_spec first ws cmd :
  words_match first ws cmd = true <->
  exists cmd' rest, cmd = cmd' ++ rest /\ ws = match cmd' with [] => [] | c :: cs => (if first then Base c else c) :: cs end.
Proof.
  revert first cmd. induction ws as [|w ws IH]; intros first [|c cmd]; cbn [words_match].
  - split; [by exists [], []|done].
  - split; [by exists [], (c :: cmd)|done].
  - split; [done|]. intros ([|x xs] & rest & H & Hw); done.
  - rewrite andb_true_iff, String.eqb_eq, IH. split.
    + intros (<- & cmd' & rest & -> & Hws). exists (c :: cmd'), rest. split; [done|]. subst ws. by destruct cmd'.
    + intros (cs & rest & H & Hw). destruct cs as [|x cs]; [done|]. injection H as -> ->. injection Hw as -> ->.
      split; [done|]. exists cs, rest. split; [done|]. by destruct cs.
Qed.

(** A grant covers the calls of its tool, and of the shell those whose command
    begins with its words, the program by its base name, and has no more
    unless the grant says so. *)
Lemma grant_matches_spec command_of g call :
  grant_matches command_of g call = true <->
  tc_Name call = sg_tool g
  /\ (sg_argv g = [] \/ exists c cs rest, command_of (tc_Args call) = Some (c :: cs ++ rest) /\ sg_argv g = Base c :: cs
                        /\ (sg_any g = false -> rest = [])).
Proof.
  unfold grant_matches. destruct (String.eqb_spec (tc_Name call) (sg_tool g)) as [He|He]; cbn [negb]; [|naive_solver].
  destruct (sg_argv g) as [|w ws] eqn:Ea; [naive_solver|]. destruct (command_of (tc_Args call)) as [cmd|]; [|naive_solver].
  split.
  - destruct (_ || _) eqn:Hl; [done|]. intros (cs & rest & -> & Hw)%words_match_spec.
    destruct cs as [|c cs]; [done|]. injection Hw as -> ->. split; [done|right].
    exists c, cs, rest. split_and!; [done..|]. intros Hany. apply orb_false_iff in Hl as [_ Hl]. rewrite Hany in Hl. cbn in Hl.
    apply negb_false_iff, Nat.eqb_eq in Hl. rewrite length_app in Hl. destruct rest; [done|]. cbn in Hl. lia.
  - intros (_ & [?|(c & cs & rest & [= ->] & [= -> ->] & Hany)]); [done|].
    assert ((length (c :: cs ++ rest) <? length (Base c :: cs)) || negb (sg_any g) && negb (length (c :: cs ++ rest) =? length (Base c :: cs)) = false) as ->.
    { apply orb_false_iff. split; [apply Nat.ltb_ge; cbn; rewrite length_app; lia|]. destruct (sg_any g); [done|]. rewrite Hany by done.
      rewrite app_nil_r. cbn. by rewrite Nat.eqb_refl. }
    apply words_match_spec. exists (c :: cs), rest. done.
Qed.
