(* ===== verification/SkillConsent.v ===== *)
(** * Who agreed to what a skill grants

    The runs of an App as far as skills go: sources list and re-list skills,
    the user is asked about calls and answers, skills are loaded, turns start
    and end.  In every state that is reached, what runs unasked on a skill's
    word comes of a load in this turn, of a skill that is the user's own or
    that has the files of one whose load the user had said yes to; and the gate
    the App builds decides with it as its configuration says. *)

From S2P Require Import Prelude GoStr Errors Json Provider TreeBudget Middleware Approval Paths ShellRules Skills SkillGrants.
Local Open Scope nat_scope.

(** ** Runs *)

(** A question about a call: the text shown, and the skill it was about when
    it was asked, if it was about the load of one that says which tools it
    wants. *)
Record question := { q_info : ToolCallInfo; q_text : string; q_skill : option catalogSkill }.

(** What happened, newest first: a listing, a question, a yes and the skill the
    call names when it is given, a load, the start or end of a user's turn. *)
Inductive host_event :=
| HeList (s : skillSet) | HeAsk (q : question) | HeYes (q : question) (m : option catalogSkill)
| HeLoad (m : catalogSkill) | HeTurn | HeTriggered.

Record host := { h_app : AppState; h_log : list host_event }.

Section Runs.
Variable bind_load : RawJSON -> option loadSkillArgs.

Definition asked_skill (a : AppState) (info : ToolCallInfo) : option catalogSkill :=
  match loadSkillGrants bind_load a info with Some (m, _, _) => Some m | None => None end.

Definition question_about (a : AppState) (info : ToolCallInfo) (text : string) : question :=
  {| q_info := info; q_text := text; q_skill := asked_skill a info |}.

Definition happens (ev : host_event) (a : AppState) (h : host) : host := {| h_app := a; h_log := ev :: h_log h |}.

(** The entry has been listed. *)
Definition listed_in (log : list host_event) (m : catalogSkill) : Prop := exists s, HeList s ∈ log /\ m ∈ allCatalog s.

(** Listings change at any moment, also while a question is open; a call is
    asked about with the text for its skill, or that of a renderer when there
    is none; the yes is noted for the skill the call names when it arrives; a
    load grants what the skill that was resolved asks for.  Grants end where a
    user's turn starts and where it ends; a turn that an event triggers ends
    none. *)
Inductive host_step : host -> host -> Prop :=
| HsList h s : host_step h (happens (HeList s) {| app_skills := s; app_grants := app_grants (h_app h) |} h)
| HsAsk h info text :
    (forall t, renderSkillLoad bind_load (h_app h) info = Some t -> text = t) ->
    host_step h (happens (HeAsk (question_about (h_app h) info text)) (h_app h) h)
| HsYes h q :
    HeAsk q ∈ h_log h ->
    host_step h (happens (HeYes q (asked_skill (h_app h) (q_info q))) (noteApprovedSkillLoad bind_load (q_info q) (h_app h)) h)
| HsLoad h m : listed_in (h_log h) m -> host_step h (happens (HeLoad m) (snd (grantSkill m (h_app h))) h)
| HsTurn h : host_step h (happens HeTurn (on_grants grants_endTurn (h_app h)) h)
| HsTriggered h : host_step h (happens HeTriggered (h_app h) h).

Definition host_start (s : skillSet) : host :=
  {| h_app := {| app_skills := s; app_grants := {| gr_approved := ∅; gr_active := [] |} |}; h_log := [HeList s] |}.

Definition names_grant (text : string) (g : skillGrant) : Prop := exists a b, text = a +:+ grant_String g +:+ b.

(** *** What holds in every state *)

(** The question lists what the skill it is about wants. *)
Definition question_ok (q : question) : Prop := forall m g, q_skill q = Some m -> g ∈ skill_grants m -> names_grant (q_text q) g.

(** The user said yes to a question, asked before, and the skill the call then
    named has the key. *)
Definition said_yes (log : list host_event) (key : string) (q : question) (m : catalogSkill) : Prop :=
  HeAsk q ∈ log /\ HeYes q (Some m) ∈ log /\ skillApprovalKey m = Some key /\ question_ok q.

Definition licensed (log : list host_event) (m : catalogSkill) : Prop :=
  own_skill m = true \/ exists key q m', skillApprovalKey m = Some key /\ said_yes log key q m'.

(** A load since the last start or end of a user's turn gave the grant. *)
Definition granted_by (log : list host_event) (g : skillGrant) (m : catalogSkill) (before : list host_event) : Prop :=
  exists since, log = since ++ (HeLoad m :: before) /\ (HeTurn ∉ since) /\ (g ∈ skill_grants m) /\ listed_in before m.

Record host_inv (h : host) : Prop := {
  hi_asked : forall q, HeAsk q ∈ h_log h -> question_ok q;
  hi_yes : forall q m, HeYes q m ∈ h_log h -> HeAsk q ∈ h_log h;
  hi_approved : forall k, k ∈ gr_approved (app_grants (h_app h)) -> exists q m, said_yes (h_log h) k q m;
  hi_active : forall g, g ∈ gr_active (app_grants (h_app h)) -> exists m before, granted_by (h_log h) g m before /\ licensed before m;
}.

Lemma names_join g gs : g ∈ gs -> names_grant (grant_names gs) g.
Proof.
  unfold grant_names. induction gs as [|x gs IH]; [intros H; by apply not_elem_of_nil in H|]. intros [->|H]%elem_of_cons.
  - destruct gs as [|y gs]; [exists "", ""; by rewrite app_empty_r|].
    exists "", (", " +:+ str_join ", " (List.map grant_String (y :: gs))). done.
  - destruct (IH H) as (a & b & He). destruct gs as [|y gs]; [by apply not_elem_of_nil in H|].
    exists (grant_String x +:+ ", " +:+ a), b. rewrite !app_assoc_str. rewrite <- He. done.
Qed.

Lemma names_in text a b g : names_grant text g -> names_grant (a +:+ text +:+ b) g.
Proof. intros (x & y & ->). exists (a +:+ x), (y +:+ b). by rewrite !app_assoc_str. Qed.

Lemma load_of a info m gs ig :
  loadSkillGrants bind_load a info = Some (m, gs, ig) ->
  named_skill bind_load a info = Some m /\ gs = skill_grants m /\ ig = skill_ignored m.
Proof.
  unfold loadSkillGrants. destruct (negb _); [done|]. destruct (named_skill bind_load a info) as [m'|]; [|done]. cbn.
  destruct (skill_grants m') eqn:E1, (skill_ignored m') eqn:E2; intros [=]; by subst.
Qed.

(** The question lists everything that saying yes approves. *)
Lemma render_names a info text :
  (forall t, renderSkillLoad bind_load a info = Some t -> text = t) -> question_ok (question_about a info text).
Proof.
  intros Ht m g. cbn. unfold asked_skill. destruct (loadSkillGrants bind_load a info) as [[[m' gs] ig]|] eqn:H; [|done]. intros [= ->] Hg.
  destruct (load_of _ _ _ _ _ H) as (_ & Hgs & _). unfold renderSkillLoad in Ht. rewrite H in Ht. cbn in Ht. rewrite (Ht _ eq_refl), <- Hgs in *.
  destruct gs as [|x gs]; [by apply not_elem_of_nil in Hg|].
  set (post := match ig with [] => _ | _ => _ end).
  replace (approvalPrompt info +:+ _ +:+ post) with
    ((approvalPrompt info +:+ " Approving also lets these run without asking for the rest of this turn: ") +:+ grant_names (x :: gs) +:+ ("." +:+ post))
    by (by rewrite !app_assoc_str).
  by apply names_in, names_join.
Qed.

Lemma note_grants info a :
  app_skills (noteApprovedSkillLoad bind_load info a) = app_skills a
  /\ gr_active (app_grants (noteApprovedSkillLoad bind_load info a)) = gr_active (app_grants a)
  /\ (forall k, k ∈ gr_approved (app_grants (noteApprovedSkillLoad bind_load info a)) <->
        k ∈ gr_approved (app_grants a)
        \/ exists m gs ig, loadSkillGrants bind_load a info = Some (m, gs, ig) /\ gs <> [] /\ skillApprovalKey m = Some k).
Proof.
  unfold noteApprovedSkillLoad. destruct (loadSkillGrants bind_load a info) as [[[m [|g gs]] ig]|] eqn:E; [| |].
  - split_and!; [done..|]. naive_solver.
  - destruct (skillApprovalKey m) as [key|] eqn:Ek; (split_and!; [done..|]); intros k; [|naive_solver].
    cbn. rewrite elem_of_union, elem_of_singleton. split; [|naive_solver]. intros [->|Hk]; [right|by left]. by exists m, (g :: gs), ig.
  - split_and!; [done..|]. naive_solver.
Qed.

Lemma grant_skill_state m a :
  snd (grantSkill m a) = a
  \/ ((own_skill m = true \/ exists k, skillApprovalKey m = Some k /\ k ∈ gr_approved (app_grants a))
      /\ snd (grantSkill m a) = on_grants (activate (skill_grants m)) a).
Proof.
  unfold grantSkill. destruct (skill_grants m) as [|g gs] eqn:Eg; [by left|]. destruct (negb _) eqn:El; [by left|right].
  split; [|done]. apply negb_false_iff, orb_true_iff in El as [El|El]; [by left|right].
  destruct (skillApprovalKey m) as [k|]; [|done]. exists k. split; [done|]. by apply bool_decide_eq_true in El.
Qed.

Lemma said_yes_cons ev log k q m : said_yes log k q m -> said_yes (ev :: log) k q m.
Proof. intros (? & ? & ? & ?). split_and!; set_solver. Qed.

(** An event that leaves what is approved and ends no turn. *)
Lemma host_inv_event ev a h :
  host_inv h -> app_grants a = app_grants (h_app h) -> (forall q, ev = HeAsk q -> question_ok q) ->
  (forall q m, ev = HeYes q m -> HeAsk q ∈ h_log h) -> ev <> HeTurn -> host_inv (happens ev a h).
Proof.
  intros [Hq Hy Ha Hg] Heq Hask Hyes Hne. split; cbn; rewrite ?Heq.
  - intros q [?|?]%elem_of_cons; auto.
  - intros q m [E|E]%elem_of_cons; apply elem_of_cons; right; eauto.
  - intros k Hk. destruct (Ha k Hk) as (q & m & H). exists q, m. by apply said_yes_cons.
  - intros g H. destruct (Hg g H) as (m & before & (since & -> & Hs & H') & Hlic). exists m, before. split; [|done].
    exists (ev :: since). split_and!; set_solver.
Qed.

Lemma host_inv_yes h q :
  host_inv h -> HeAsk q ∈ h_log h ->
  host_inv (happens (HeYes q (asked_skill (h_app h) (q_info q))) (noteApprovedSkillLoad bind_load (q_info q) (h_app h)) h).
Proof.
  intros Hinv Hq. destruct (note_grants (q_info q) (h_app h)) as (_ & Hact & Happ).
  assert (host_inv (happens (HeYes q (asked_skill (h_app h) (q_info q))) (h_app h) h)) as [H1 H2 H3 H4]
    by (apply host_inv_event; naive_solver).
  split; cbn in *; rewrite ?Hact; try done. intros k Hk. apply Happ in Hk as [Hk|(m & gs & ig & Hl & _ & Hk)]; [by apply H3|].
  exists q, m. split_and!; [set_solver| |done|]; [|apply (hi_asked _ Hinv q Hq)]. unfold asked_skill. rewrite Hl. set_solver.
Qed.

Lemma host_inv_load h m : host_inv h -> listed_in (h_log h) m -> host_inv (happens (HeLoad m) (snd (grantSkill m (h_app h))) h).
Proof.
  intros Hinv Hm. assert (host_inv (happens (HeLoad m) (h_app h) h)) as Hinv' by (by apply host_inv_event).
  destruct (grant_skill_state m (h_app h)) as [->|[Hlic ->]]; [exact Hinv'|]. destruct Hinv' as [H1 H2 H3 H4]. split; cbn in *; try done.
  intros g [Hg|Hg]%elem_of_app; [by apply H4|]. exists m, (h_log h). split.
  - exists []. split_and!; [done|apply not_elem_of_nil|done|done].
  - destruct Hlic as [?|(k & Hk & Hin)]; [by left|right]. destruct (hi_approved _ Hinv k Hin) as (q & m' & Hy). by exists k, q, m'.
Qed.

Lemma host_inv_step h h' : host_step h h' -> host_inv h -> host_inv h'.
Proof.
  intros Hstep Hinv. destruct Hstep as [h s|h info text Ht|h q Hq|h m Hm|h|h].
  - by apply host_inv_event.
  - apply host_inv_event; try done. intros q [= <-]. by apply render_names.
  - by apply host_inv_yes.
  - by apply host_inv_load.
  - destruct Hinv as [Hq Hy Ha _]. split; cbn.
    + intros q [?|?]%elem_of_cons; [done|auto].
    + intros q m [?|E]%elem_of_cons; [done|]. apply elem_of_cons. eauto.
    + intros k Hk. destruct (Ha k Hk) as (q & m & H). exists q, m. by apply said_yes_cons.
    + intros g []%not_elem_of_nil.
  - by apply host_inv_event.
Qed.

Lemma host_inv_start s : host_inv (host_start s).
Proof. split; cbn; try done; set_solver. Qed.

(** C8: What runs unasked on a skill's word.  In every run, also when sources
    re-list their skills while a question is open: if an active grant covers a
    call, then a skill that was listed and asks for that grant was loaded since
    the last start or end of a user's turn (a triggered turn ends no grants),
    and either the skill is the user's own, or before the load the user had
    been asked about a call and had said yes, and the skill that call named
    when the yes came has the approval key of the loaded one: the same server,
    address and files.  When that is the skill the question was about, and it
    asks for the tools the loaded one asks for, then the text the user saw
    lists the grant. *)
Theorem grants_consented command_of s h call :
  star host_step (host_start s) h -> grants_cover command_of (app_grants (h_app h)) call = true ->
  exists g m before, grant_matches command_of g call = true /\ granted_by (h_log h) g m before
    /\ (own_skill m = true
        \/ exists key q m', skillApprovalKey m = Some key /\ skillApprovalKey m' = Some key
             /\ HeAsk q ∈ before /\ HeYes q (Some m') ∈ before
             /\ (q_skill q = Some m' -> allowedTools (cs_entry m') = allowedTools (cs_entry m) -> names_grant (q_text q) g)).
Proof.
  intros Hrun Hcov. assert (host_inv h) as Hinv
    by (eapply (star_invariant host_step); [intros ? ? ? ?; by eapply host_inv_step|exact Hrun|apply host_inv_start]).
  unfold grants_cover in Hcov. apply existsb_exists in Hcov as (g & Hin%list_elem_of_In & Hmatch).
  destruct (hi_active _ Hinv g Hin) as (m & before & Hg & Hlic). exists g, m, before. split_and!; [done..|].
  destruct Hlic as [?|(key & q & m' & Hk & Hask & Hyes & Hk' & Hok)]; [by left|right].
  exists key, q, m'. split_and!; try done. intros Hq Htools. apply (Hok m'); [done|]. destruct Hg as (_ & _ & _ & Hg & _).
  unfold skill_grants in *. by rewrite Htools.
Qed.
End Runs.

(** ** The gate with grants *)
Section Gate.
Context {Ctx W E : Type}.
Variable bind_load : RawJSON -> option loadSkillArgs.
Variable command_of : RawJSON -> option (list string).
Variable confirm : Ctx -> string -> eff (GateState * (AppState * W)) E (bool * option error).
Variable renderers : list (option (Ctx -> ToolCallInfo -> eff (GateState * (AppState * W)) E (string * bool))).
Variable choosers : list (option (@ChooseFunc Ctx (AppState * W) E)).
Variable classifiers : list (option (@ClassifyFunc Ctx (AppState * W) E)).

Abbreviation build := (buildApproval bind_load command_of confirm renderers choosers classifiers).
Abbreviation classify_app := (classifyApproval bind_load classifiers).

(** The options that set rules leave everything else alone. *)
Definition same_but_rules (t t' : @TieredApproval Ctx (AppState * W) E) : Prop :=
  ta_ask t' = ta_ask t /\ ta_choose t' = ta_choose t /\ ta_remember t' = ta_remember t /\ ta_key t' = ta_key t
  /\ ta_classify t' = ta_classify t /\ ta_grant t' = ta_grant t.

Lemma rules_set (l : list (string * string)) t m :
  NoDup l.*1 ->
  let tm := fold_left (fun tm (opt : @TieredOption Ctx (AppState * W) E) => opt tm) (rule_options l) (t, m) in
  snd tm = m /\ same_but_rules t (fst tm)
  /\ forall tool, ta_rules (fst tm) !! tool =
       match (list_to_map l : gmap string string) !! tool ≫= parseToolRule with Some r => Some r | None => ta_rules t !! tool end.
Proof.
  revert t. induction l as [|[k v] l IH]; intros t; csimpl.
  { intros _. split_and!; [done..|]. intros tool. by rewrite lookup_empty. }
  intros [Hk Hl]%NoDup_cons. unfold rule_options. cbn [flat_map]. fold (@rule_options Ctx W E l).
  assert ((list_to_map l : gmap string string) !! k = None) as Hnone by (by apply not_elem_of_list_to_map).
  destruct (parseToolRule v) as [r|] eqn:Hr; cbn [app fold_left].
  - destruct (IH (fst (WithToolRule k r (t, m))) Hl) as (Hm & Hs & Hrules). cbn [WithToolRule fst] in *. split_and!; [done|exact Hs|].
    intros tool. rewrite Hrules. destruct (decide (tool = k)) as [->|Hne].
    + rewrite lookup_insert_eq, Hnone. cbn. by rewrite Hr, lookup_insert_eq.
    + cbn [ta_rules]. by rewrite !lookup_insert_ne by done.
  - destruct (IH t Hl) as (Hm & Hs & Hrules). split_and!; [done..|]. intros tool. rewrite Hrules.
    destruct (decide (tool = k)) as [->|Hne]; [rewrite lookup_insert_eq, Hnone; cbn; by rewrite Hr|by rewrite lookup_insert_ne].
Qed.

(** What the gate is built of. *)
Lemma built cfg t g :
  build (Some cfg) = Some (t, g) ->
  ta_ask t = Some (app_ask bind_load confirm renderers) /\ ta_choose t = Some (chooseApproval choosers)
  /\ ta_remember t = ac_Remember cfg /\ ta_classify t = Some classify_app /\ ta_grant t = Some (grantCovers command_of)
  /\ (forall tool, ta_rules t !! tool = ac_Rules cfg !! tool ≫= parseToolRule)
  /\ g = {| gs_mode := parseApprovalMode (ac_Mode cfg); gs_remembered := ∅ |}.
Proof.
  unfold buildApproval, NewTieredApproval. cbn [mbind option_bind]. rewrite fold_left_app.
  match goal with |- context [fold_left _ (rule_options _) ?x] => set (start := x) end.
  pose proof (rules_set (map_to_list (ac_Rules cfg)) (fst start) (snd start) (NoDup_fst_map_to_list _)) as H.
  cbv zeta in H. rewrite list_to_map_to_list in H. replace (fst start, snd start) with start in H by reflexivity.
  revert H. destruct (fold_left _ (rule_options _) start) as [t' m']. cbn [fst snd]. intros H [= <- <-].
  destruct H as (-> & (H1 & H2 & H3 & H4 & H5 & H6) & Hr). split_and!; try done.
  intros tool. rewrite Hr. unfold start. cbn. by destruct (_ ≫= _).
Qed.

Definition app_of (w : GateState * (AppState * W)) : AppState := fst (snd w).

Lemma classify_load_first ctx info c w :
  classifySkillLoad bind_load (app_of w) info = Some c -> classify_app ctx info w = (Some c, [], w).
Proof.
  destruct w as [g [a w]]. unfold app_of. cbn. intros H. unfold classifyApproval, app_call, eff_call, eff_bind. cbn. by rewrite H.
Qed.

(** With no remembered approval, no rule and nothing granted, an unclaimed
    decision is the user's. *)
Lemma undecided (t : @TieredApproval Ctx (AppState * W) E) ctx info w :
  eff_value (read_gate t info) w = (gs_mode (fst w), false) ->
  ta_rules t !! info_name info = None -> ta_grant t = Some (grantCovers command_of) ->
  grants_cover command_of (app_grants (app_of w)) (ti_Call info) = false -> mode_runs (gs_mode (fst w)) info = false ->
  authorised_classified t ctx info w = consent t ctx info w.
Proof.
  intros Hr Hrule Hg Hc Hm. unfold authorised_classified. rewrite Hr, Hrule, Hg, Hm. destruct w as [g [a w]].
  unfold grantCovers, app_call, eff_call, eff_value, eff_world. cbn in *. by rewrite Hc.
Qed.

(** C24: The gate the App builds from its configuration, with skills.
    Loading a skill that is not the user's own and grants tools is decided by
    the user in every mode but the one that allows everything, unless a rule,
    an active grant or a remembered approval of these files decides it.  A
    call that an active grant covers runs unasked, unless a rule denies its
    tool; but a forbidden call is refused and one that must be asked about is
    the user's, whatever is granted. *)
Theorem skill_gate cfg t g0 ctx info g a w :
  build (Some cfg) = Some (t, g0) ->
  let rule := ac_Rules cfg !! info_name info ≫= parseToolRule in
  let covered a := grants_cover command_of (app_grants a) (ti_Call info) in
  let class := eff_value (classify_app ctx info) (g, (a, w)) in
  let w1 := eff_world (classify_app ctx info) (g, (a, w)) in
  (forall m gs ig, loadSkillGrants bind_load a info = Some (m, gs, ig) -> gs <> [] -> own_skill m = false ->
     rule = None -> gs_mode g <> ModeAlwaysAllow -> covered a = false ->
     (forall k, skillApprovalKey m = Some k -> (LoadSkillTool +:+ nul +:+ k) ∉ gs_remembered g) ->
     exists c, cc_Disposition c = DispositionDestructive
       /\ settled (consent t ctx (classified info c) (g, (a, w))) ctx info (WrapToolCall t ctx info) (g, (a, w)))
  /\ (rule <> Some RuleDeny -> covered (app_of w1) = true ->
      match class with Some c => cc_Disposition c <> DispositionForbidden /\ cc_Disposition c <> DispositionAlwaysAsk | None => True end ->
      forall next, runs next ctx info (WrapToolCall t ctx info next) (g, (a, w)))
  /\ (forall c, class = Some c -> cc_Disposition c = DispositionForbidden -> refuses (WrapToolCall t ctx info) (g, (a, w)))
  /\ (forall c, class = Some c -> cc_Disposition c = DispositionAlwaysAsk -> rule <> Some RuleDeny ->
      settled (consent t ctx (classified info c) w1) ctx info (WrapToolCall t ctx info) (g, (a, w))).
Proof.
  intros Hb. destruct (built _ _ _ Hb) as (_ & _ & _ & Hcl & Hgr & Hru & _). intros rule covered class w1.
  pose proof (wrap_settled t ctx info (g, (a, w))) as Hset. unfold authorised, classify_call in Hset. rewrite Hcl in Hset.
  fold class w1 in Hset. rewrite Hru in Hset. fold rule in Hset. split_and!.
  - intros m gs ig Hl Hgs Hown Hrule Hmode Hcov Hrem.
    set (c := class_of DispositionDestructive (default "" (skillApprovalKey m)) "").
    assert (classifySkillLoad bind_load a info = Some c) as Hc.
    { unfold classifySkillLoad. rewrite Hl, Hown. by destruct gs. }
    exists c. split; [done|]. pose proof (classify_load_first ctx info c (g, (a, w)) Hc) as Hcf.
    unfold class, w1, eff_value, eff_world in Hset. rewrite Hcf in Hset. cbn [fst snd] in Hset. cbn [c class_of cc_Disposition] in Hset.
    rewrite undecided in Hset; [exact Hset| |by rewrite info_name_classified, Hru|done|by rewrite ti_Call_classified|].
    + unfold read_gate, eff_call, eff_value. cbn. f_equal. change (info_name (set_hints info false true (ti_Idempotent info) (Some c))) with (info_name info).
      assert (info_name info = LoadSkillTool) as ->.
      { unfold loadSkillGrants in Hl. destruct (String.eqb_spec (info_name info) LoadSkillTool); done. }
      destruct (skillApprovalKey m) as [k|]; cbn [default]; [|by rewrite andb_false_r]. apply andb_false_iff. right.
      destruct (_ || _); [done|]. apply bool_decide_eq_false. by apply Hrem.
    + cbn. destruct (gs_mode g); done.
  - intros Hrule Hcov Hclass.
    assert (forall i, info_name i = info_name info -> ti_Call i = ti_Call info -> authorised_classified t ctx i w1 = true) as Hrun.
    { intros i Hi Hi'. unfold authorised_classified. rewrite Hi, Hru, Hgr. fold rule. destruct (eff_value (read_gate t i) w1) as [m []]; [done|].
      rewrite bool_decide_eq_false_2 by done. destruct w1 as [g1 [a1 w2]]. unfold grantCovers, app_call, eff_call, eff_value. cbn.
      rewrite Hi'. unfold covered in Hcov. cbn in Hcov. by rewrite Hcov. }
    destruct class as [c|]; [|by rewrite Hrun in Hset]. destruct Hclass as [H1 H2].
    rewrite Hrun in Hset by (by rewrite ?info_name_classified, ?ti_Call_classified). by destruct (cc_Disposition c).
  - intros c Hc Hd. by rewrite Hc, Hd in Hset.
  - intros c Hc Hd Hrule. rewrite Hc, Hd in Hset. by rewrite bool_decide_eq_false_2 in Hset.
Qed.
End Gate.

(** ** Concrete runs *)
Definition release (digest : string) (tools : string) : catalogSkill :=
  {| cs_serverID := "docs"; cs_local := None;
     cs_entry := {| se_Name := "release"; se_Description := "Tag a release"; se_URI := "skill://release/SKILL.md";
                    se_AllowedTools := FmString tools; se_Dynamic := false;
                    se_Files := [{| sr_URI := "skill://release/SKILL.md"; sr_Digest := digest |}] |} |}.

Definition v1 : catalogSkill := release "sha256:01" "Bash(git tag *)".
Definition v2 : catalogSkill := release "sha256:02" "shell".

Definition listed_skills (m : catalogSkill) : skillSet := snd (skills_add "docs" "" [m] (track "docs" newSkillSet)).
Definition no_grants : skillGrants := {| gr_approved := ∅; gr_active := [] |}.
Definition app_with (m : catalogSkill) : AppState := {| app_skills := listed_skills m; app_grants := no_grants |}.

Definition bind_release (_ : RawJSON) : option loadSkillArgs := Some {| ls_Name := "release"; ls_Server := "" |}.
Definition read_words (raw : RawJSON) : option (list string) := Some (str_fields raw).

Definition info_of (name raw : string) : ToolCallInfo :=
  {| ti_Step := 0; ti_Call := {| tc_ID := "1"; tc_Name := name; tc_Args := raw |}; ti_Scope := ScopeFrom [] None None;
     ti_ReadOnly := false; ti_Destructive := false; ti_Idempotent := false; ti_Class := None |}.

Definition load_info : ToolCallInfo := info_of LoadSkillTool "{}".
Definition load_question : question :=
  question_about bind_release (app_with v1) load_info (default "" (renderSkillLoad bind_release (app_with v1) load_info)).

Definition loaded : host :=
  {| h_app := {| app_skills := listed_skills v1;
                 app_grants := {| gr_approved := {[default "" (skillApprovalKey v1)]} ∪ ∅; gr_active := skill_grants v1 |} |};
     h_log := [HeLoad v1; HeYes load_question (Some v1); HeAsk load_question; HeList (listed_skills v1)] |}.

Lemma loaded_reached : star (host_step bind_release) (host_start (listed_skills v1)) loaded.
Proof.
  eapply star_step; [apply (HsAsk _ _ load_info (q_text load_question)); intros t H; vm_compute in H; injection H as <-; vm_compute; reflexivity|].
  eapply star_step; [apply (HsYes _ _ load_question); by left|].
  eapply star_step; [apply (HsLoad _ _ v1); exists (listed_skills v1); split; [by right; right; left|by left]|].
  match goal with |- star _ ?a ?b => replace a with b by (vm_compute; reflexivity) end. apply star_refl.
Qed.

Lemma grants_consented_witness :
  grants_cover read_words (app_grants (h_app loaded)) (ti_Call (info_of "shell" "git tag v1.0")) = true
  /\ exists g m before, grant_matches read_words g (ti_Call (info_of "shell" "git tag v1.0")) = true
    /\ granted_by (h_log loaded) g m before
    /\ (own_skill m = true
        \/ exists key q m', skillApprovalKey m = Some key /\ skillApprovalKey m' = Some key
             /\ HeAsk q ∈ before /\ HeYes q (Some m') ∈ before
             /\ (q_skill q = Some m' -> allowedTools (cs_entry m') = allowedTools (cs_entry m) -> names_grant (q_text q) g)).
Proof.
  assert (grants_cover read_words (app_grants (h_app loaded)) (ti_Call (info_of "shell" "git tag v1.0")) = true) as Hc by (vm_compute; reflexivity).
  split; [exact Hc|].
  exact (grants_consented bind_release read_words (listed_skills v1) loaded (ti_Call (info_of "shell" "git tag v1.0")) loaded_reached Hc).
Defined.

Definition demo_cfg : ApprovalConfig := {| ac_Mode := "Ask"; ac_Remember := true; ac_Rules := ∅ |}.

(** The same grants behind the gate: a tag runs unasked, another command is
    the user's. *)
Definition demo_build (confirm : unit -> string -> eff (GateState * (AppState * unit)) unit (bool * option error)) :=
  buildApproval bind_release read_words confirm [] [] [] (Some demo_cfg).

Definition demo_gate confirm : @TieredApproval unit (AppState * unit) unit :=
  match demo_build confirm with Some (t, _) => t | None => fst (NewTieredApproval []) end.

Definition fresh_gate : GateState := {| gs_mode := ModeAlwaysAsk; gs_remembered := ∅ |}.

Lemma demo_built confirm : demo_build confirm = Some (demo_gate confirm, fresh_gate).
Proof. reflexivity. Qed.

Definition refusing_confirm (_ : unit) (_ : string) : eff (GateState * (AppState * unit)) unit (bool * option error) :=
  eff_ret (false, None).

Definition printing_tool : @ToolCallFunc unit (GateState * (AppState * unit)) unit :=
  fun _ _ => eff_ret (Some {| tr_Content := [{| c_Type := "text"; c_Text := "tagged" |}]; tr_IsError := false; tr_StructuredContent := None |}, None).

Lemma skill_gate_witness :
  runs printing_tool tt (info_of "shell" "git tag v1.0")
    (WrapToolCall (demo_gate refusing_confirm) tt (info_of "shell" "git tag v1.0") printing_tool)
    (fresh_gate, (h_app loaded, tt)).
Proof.
  refine (proj1 (proj2 (skill_gate bind_release read_words refusing_confirm [] [] [] demo_cfg _ _ tt (info_of "shell" "git tag v1.0") fresh_gate (h_app loaded) tt
    (demo_built refusing_confirm))) _ _ _ printing_tool); [done|vm_compute; reflexivity|exact I].
Defined.

(** While the question is on the screen the source lists a new version: the
    yes is kept for the version that is listed when it arrives, whose grants
    the question did not name. *)
Definition relisting_confirm (_ : unit) (_ : string) : eff (GateState * (AppState * unit)) unit (bool * option error) :=
  eff_call (fun '(g, (a, w)) => ((true, None), (g, ({| app_skills := listed_skills v2; app_grants := app_grants a |}, w)))).

Definition raced : AppState :=
  app_of (eff_world (app_ask bind_release relisting_confirm [] tt load_info) (fresh_gate, (app_with v1, tt))).

Lemma answer_approves_unseen_version :
  renderSkillLoad bind_release (app_with v1) load_info
    = Some (approvalPrompt load_info +:+ " Approving also lets these run without asking for the rest of this turn: shell: git tag *.")
  /\ gr_active (app_grants (snd (grantSkill v2 raced))) = [tool_grant "shell"].
Proof. split; vm_compute; reflexivity. Qed.

(** A listing that changes [allowed-tools] and no file keeps the approval. *)
Definition approved_v1 : AppState := noteApprovedSkillLoad bind_release load_info (app_with v1).

Lemma relisted_tools_stay_approved :
  gr_active (app_grants (snd (grantSkill (release "sha256:01" "shell") approved_v1))) = [tool_grant "shell"].
Proof. vm_compute. reflexivity. Qed.
