(* ===== verification/Checkpoint.v ===== *)
(** * Checkpoints: src/ext/checkpoint

    Before a declared tool writes, the files it names are captured into a
    content-addressed store; undoing a turn puts back what was captured.
    Everything happens on the tree of Paths.v, whose calls may fail at any
    point: the user's files are the keys of the empty root, named by absolute
    paths, and the store's blobs and manifests are files below its own root.
    SHA-256, the JSON of manifests and the clock are parameters. *)

From S2P Require Import Prelude GoStr Errors Json Provider TreeBudget Middleware Paths.
Local Open Scope fs_scope.
Local Open Scope Z_scope.

(** ** Data *)
Inductive kind := KindRegular | KindAbsent | KindUnsupported | KindOther (s : string).

Definition kind_text (k : kind) : string :=
  match k with KindRegular => "regular" | KindAbsent => "absent" | KindUnsupported => "unsupported" | KindOther s => s end.

Record entry := { en_Hash : string; en_Kind : kind; en_Mode : Z }.

Definition manifestVersion : Z := 1.

Record manifest := { mf_Version : Z; mf_ID : string; mf_Created : Z; mf_Files : gmap string entry }.

Record Checkpoint := { ck_id : string; ck_created : Z; ck_files : gmap string entry }.

Record Info := { in_ID : string; in_Created : Z; in_Files : Z }.

Record Refusal := { rf_Path : string; rf_Reason : string }.
Record RestoreResult := { rr_Restored : list string; rr_Refused : list Refusal }.

Definition Complete (r : RestoreResult) : bool := Nat.eqb (length (rr_Refused r)) 0.

(** The user's file at an absolute path. *)
Definition at_path (p : string) : key := ("", p).

(** The bits of [fs.FileMode]. *)
Definition ModeDir : Z := 2 ^ 31.
Definition ModeSymlink : Z := 2 ^ 27.
Definition ModeDevice : Z := 2 ^ 26.
Definition ModeNamedPipe : Z := 2 ^ 25.
Definition ModeSocket : Z := 2 ^ 24.

Definition has_bit (m bit : Z) : bool := negb (Z.land m bit =? 0).

Definition describe (m : Z) : string :=
  if has_bit m ModeSymlink then "symlink"
  else if has_bit m ModeDir then "directory"
  else if has_bit m ModeDevice then "device"
  else if has_bit m ModeNamedPipe then "named pipe"
  else if has_bit m ModeSocket then "socket"
  else "non-regular file".

Definition ck_error (what : string) (err : os_error) : error := EText ("checkpoint: " +:+ what +:+ ": " +:+ os_error_text err).

Section Store.
Variable root : string.
Variable sha256 : string -> string.
Variable encode : manifest -> result string.
Variable probe_version : string -> result Z.
Variable decode : string -> result manifest.

Definition content_hash (c : string) : string := hex_encode (sha256 c).

Definition manifest_key (id : string) : key := (root, "manifests/" +:+ id +:+ ".json").
Definition blob_key (h : string) : key := (root, "blobs/" +:+ str_take 2 h +:+ "/" +:+ str_drop 2 h).

(** ** Capturing *)

(** A file written beside its destination and renamed onto it. *)
Definition write_rename (what_write what_commit : string) (k : key) (content : string) : fsm (option error) :=
  let! r := fs_temp in
  match r with
  | inl err => fs_ret (Some (ck_error what_write err))
  | inr _ =>
      let! r := fs_RenameTemp k {| f_content := content; f_mode := 420 |} in
      match r with
      | inl err => let! _ := fs_temp in fs_ret (Some (ck_error what_commit err))
      | inr _ => fs_ret None
      end
  end.

Definition putFile (path : string) : fsm (result string) :=
  let! r := fs_ReadFile (at_path path) in
  match r with
  | inl err => fs_ret (inl (ck_error ("read " +:+ path) err))
  | inr data =>
      let hash := content_hash data in
      let! st := fs_Stat (blob_key hash) in
      match st with
      | inr _ => fs_ret (inr hash)
      | inl _ =>
          let! r := fs_MkdirAll (root, Dir (snd (blob_key hash))) in
          match r with
          | inl err => fs_ret (inl (ck_error "create blob dir" err))
          | inr _ =>
              let! err := write_rename "write blob" "commit blob" (blob_key hash) data in
              match err with Some err => fs_ret (inl err) | None => fs_ret (inr hash) end
          end
      end
  end.

Definition capture (path : string) : fsm (result entry) :=
  let! st := fs_Stat (at_path path) in
  match st with
  | inl ErrNotExist => fs_ret (inr {| en_Hash := ""; en_Kind := KindAbsent; en_Mode := 0 |})
  | inl err => fs_ret (inl (ck_error ("inspect " +:+ path) err))
  | inr (false, _) => fs_ret (inr {| en_Hash := ""; en_Kind := KindUnsupported; en_Mode := 0 |})
  | inr (true, mode) =>
      let! r := putFile path in
      match r with
      | inl err => fs_ret (inl err)
      | inr hash => fs_ret (inr {| en_Hash := hash; en_Kind := KindRegular; en_Mode := mode |})
      end
  end.

Definition save (c : Checkpoint) : fsm (option error) :=
  match encode {| mf_Version := manifestVersion; mf_ID := ck_id c; mf_Created := ck_created c; mf_Files := ck_files c |} with
  | inl err => fs_ret (Some (EText ("checkpoint: encode manifest " +:+ go_quote (ck_id c) +:+ ": " +:+ error_text err)))
  | inr raw => write_rename ("write manifest " +:+ go_quote (ck_id c)) ("commit manifest " +:+ go_quote (ck_id c)) (manifest_key (ck_id c)) raw
  end.

Definition set_files (c : Checkpoint) (files : gmap string entry) : Checkpoint :=
  {| ck_id := ck_id c; ck_created := ck_created c; ck_files := files |}.

Definition relative_error (p : string) : error :=
  EText ("checkpoint: " +:+ go_quote p +:+ " is a relative path; WriteSpec.Paths must resolve it to the file the tool writes").

(** The loop of [Add]: why it stopped, the files, whether any was added. *)
Fixpoint add_paths (files : gmap string entry) (changed : bool) (paths : list string) : fsm (option error * gmap string entry * bool) :=
  match paths with
  | [] => fs_ret (None, files, changed)
  | p :: paths =>
      if negb (is_abs p) then fs_ret (Some (relative_error p), files, changed)
      else
        let abs := Clean p in
        match files !! abs with
        | Some _ => add_paths files changed paths
        | None =>
            let! r := capture abs in
            match r with
            | inl err => fs_ret (Some err, files, changed)
            | inr e => add_paths (<[abs := e]> files) true paths
            end
        end
  end.

(** The checkpoint keeps what was captured before a failure. *)
Definition Add (c : Checkpoint) (paths : list string) : fsm (option error * Checkpoint) :=
  let! r := add_paths (ck_files c) false paths in
  let '(err, files, changed) := r in
  let c := set_files c files in
  match err with
  | Some err => fs_ret (Some err, c)
  | None => if changed then let! err := save c in fs_ret (err, c) else fs_ret (None, c)
  end.

Definition Paths (c : Checkpoint) : list string := sort_strings (List.map fst (map_to_list (ck_files c))).

(** ** Opening *)
Inductive load_error := LoadOs (e : os_error) | LoadBad (e : error).
Definition load_error_text (e : load_error) : string := match e with LoadOs e => os_error_text e | LoadBad e => error_text e end.

Definition corrupt (id : string) (err : error) : load_error :=
  LoadBad (EText ("checkpoint: manifest " +:+ go_quote id +:+ " is corrupt: " +:+ error_text err)).

Definition read_manifest (id raw : string) : load_error + Checkpoint :=
  match probe_version raw with
  | inl err => inl (corrupt id err)
  | inr v =>
      if negb (v =? manifestVersion) then
        inl (LoadBad (EText ("checkpoint: manifest " +:+ go_quote id +:+ " is format v" +:+ itoa v +:+ ", this build writes v" +:+ itoa manifestVersion
                             +:+ "; delete it or keep using the mcpkit that wrote it")))
      else match decode raw with
           | inl err => inl (corrupt id err)
           | inr m => inr {| ck_id := mf_ID m; ck_created := mf_Created m; ck_files := mf_Files m |}
           end
  end.

Definition Load (id : string) : fsm (load_error + Checkpoint) :=
  let! r := fs_ReadFile (manifest_key id) in
  match r with
  | inl err => fs_ret (inl (LoadOs err))
  | inr raw => fs_ret (read_manifest id raw)
  end.

Definition Open (now : Z) (id : string) : fsm (load_error + Checkpoint) :=
  if String.eqb id "" then fs_ret (inl (LoadBad (EText "checkpoint: id is required")))
  else
    let! r := Load id in
    match r with
    | inl (LoadOs ErrNotExist) => fs_ret (inr {| ck_id := id; ck_created := now; ck_files := ∅ |})
    | r => fs_ret r
    end.

(** The names of the manifests, as [ReadDir] lists them. *)
Definition manifest_names (t : tree) : list string :=
  sort_strings (omap (fun '((r, p), n) =>
    match n with
    | NFile _ => if String.eqb r root && has_prefix "manifests/" p && has_suffix ".json" p && negb (str_contains (trim_prefix p "manifests/") "/")
                 then Some (trim_suffix (trim_prefix p "manifests/") ".json") else None
    | NOther _ => None
    end) (map_to_list t)).

Definition info_of_ck (c : Checkpoint) : Info :=
  {| in_ID := ck_id c; in_Created := ck_created c; in_Files := Z.of_nat (size (ck_files c)) |}.

Fixpoint load_all (ids : list string) : fsm (load_error + list Info) :=
  match ids with
  | [] => fs_ret (inr [])
  | id :: ids =>
      let! r := Load id in
      match r with
      | inl err => fs_ret (inl err)
      | inr c =>
          let! rest := load_all ids in
          match rest with
          | inl err => fs_ret (inl err)
          | inr infos => fs_ret (inr (info_of_ck c :: infos))
          end
      end
  end.

(** Newest first. *)
Definition List_ : fsm (load_error + list Info) :=
  let! r := fs_call (fun t => (inr (manifest_names t), t)) in
  match r with
  | inl err => fs_ret (inl (LoadOs err))
  | inr ids =>
      let! r := load_all ids in
      match r with
      | inl err => fs_ret (inl err)
      | inr infos => fs_ret (inr (stable_sort (fun i => - in_Created i) infos))
      end
  end.

(** ** Restoring *)
Definition staged : Type := string * file.

Definition stage (hash dst : string) (mode : Z) : fsm (result file) :=
  let! r := fs_ReadFile (blob_key hash) in
  match r with
  | inl err => fs_ret (inl (EText ("checkpoint: blob for " +:+ dst +:+ " is missing: " +:+ os_error_text err)))
  | inr data =>
      let fail err := fs_ret (inl (ck_error ("stage " +:+ dst) err)) in
      let! r := fs_temp in
      match r with
      | inl err => fail err
      | inr _ =>
          let! r := fs_temp in
          match r with
          | inl err => let! _ := fs_temp in fail err
          | inr _ =>
              let! r := fs_temp in
              match r with
              | inl err => let! _ := fs_temp in fail err
              | inr _ =>
                  let! r := fs_temp in
                  match r with
                  | inl err => let! _ := fs_temp in fail err
                  | inr _ => fs_ret (inr {| f_content := data; f_mode := mode |})
                  end
              end
          end
      end
  end.

(** What staging one path decided. *)
Inductive decision := DWrite (f : file) | DDelete | DRefuse (reason : string).

Definition restore_mode (e : entry) (now : option Z) : Z :=
  if en_Mode e =? 0 then default 420 now else en_Mode e.

(** [now] is the mode of the regular file that is there. *)
Definition stage_known (dst : string) (e : entry) (now : option Z) : fsm (result decision) :=
  match en_Kind e with
  | KindUnsupported => fs_ret (inr (DRefuse "was not a regular file at capture; checkpoint restores regular files only"))
  | KindAbsent => fs_ret (inr DDelete)
  | KindRegular =>
      let! r := fs_MkdirAll (at_path (Dir dst)) in
      match r with
      | inl err => fs_ret (inl (ck_error ("prepare " +:+ dst) err))
      | inr _ =>
          let! r := stage (en_Hash e) dst (restore_mode e now) in
          match r with inl err => fs_ret (inl err) | inr f => fs_ret (inr (DWrite f)) end
      end
  | KindOther s => fs_ret (inr (DRefuse ("unknown capture kind " +:+ go_quote s)))
  end.

Definition stage_path (dst : string) (e : entry) : fsm (result decision) :=
  let! st := fs_Stat (at_path dst) in
  match st with
  | inl ErrNotExist => stage_known dst e None
  | inl err => fs_ret (inl (ck_error ("inspect " +:+ dst) err))
  | inr (false, mode) => fs_ret (inr (DRefuse ("is now a " +:+ describe mode +:+ ", was " +:+ kind_text (en_Kind e) +:+ " at capture")))
  | inr (true, mode) => stage_known dst e (Some mode)
  end.

Record plan := { pl_writes : list staged; pl_deletes : list string; pl_refused : list Refusal }.

Definition add_decision (dst : string) (d : decision) (pl : plan) : plan :=
  match d with
  | DWrite f => {| pl_writes := pl_writes pl ++ [(dst, f)]; pl_deletes := pl_deletes pl; pl_refused := pl_refused pl |}
  | DDelete => {| pl_writes := pl_writes pl; pl_deletes := pl_deletes pl ++ [dst]; pl_refused := pl_refused pl |}
  | DRefuse why => {| pl_writes := pl_writes pl; pl_deletes := pl_deletes pl; pl_refused := pl_refused pl ++ [{| rf_Path := dst; rf_Reason := why |}] |}
  end.

(** Removing what was staged. *)
Fixpoint cleanup (ws : list staged) : fsm unit :=
  match ws with
  | [] => fs_ret tt
  | _ :: ws => let! _ := fs_temp in cleanup ws
  end.

Fixpoint stage_all (l : list (string * entry)) (pl : plan) : fsm (result plan) :=
  match l with
  | [] => fs_ret (inr pl)
  | (dst, e) :: l =>
      let! r := stage_path dst e in
      match r with
      | inl err => let! _ := cleanup (pl_writes pl) in fs_ret (inl err)
      | inr d => stage_all l (add_decision dst d pl)
      end
  end.

Fixpoint rename_all (ws : list staged) (done : list string) : fsm (list string * option error) :=
  match ws with
  | [] => fs_ret (done, None)
  | (dst, f) :: ws =>
      let! r := fs_RenameTemp (at_path dst) f in
      match r with
      | inl err => fs_ret (done, Some (ck_error ("restore " +:+ dst +:+ " (partially applied, safe to retry)") err))
      | inr _ => rename_all ws (done ++ [dst])
      end
  end.

Fixpoint remove_all (ds : list string) (done : list string) : fsm (list string * option error) :=
  match ds with
  | [] => fs_ret (done, None)
  | dst :: ds =>
      let! r := fs_Remove (at_path dst) in
      match r with
      | inr _ | inl ErrNotExist => remove_all ds (done ++ [dst])
      | inl err => fs_ret (done, Some (ck_error ("remove " +:+ dst +:+ " (partially applied, safe to retry)") err))
      end
  end.

(** The captured paths in order. *)
Definition sorted_files (files : gmap string entry) : list (string * entry) :=
  omap (fun p => e ← files !! p; Some (p, e)) (sort_strings (List.map fst (map_to_list files))).

(** Renaming what was staged into place, then removing. *)
Definition apply_plan (pl : plan) : fsm (RestoreResult * option error) :=
  let! r := rename_all (pl_writes pl) [] in
  let '(done, err) := r in
  match err with
  | Some err => fs_ret ({| rr_Restored := done; rr_Refused := pl_refused pl |}, Some err)
  | None =>
      let! r := remove_all (pl_deletes pl) done in
      let '(done, err) := r in
      match err with
      | Some err => fs_ret ({| rr_Restored := done; rr_Refused := pl_refused pl |}, Some err)
      | None => fs_ret ({| rr_Restored := sort_strings done; rr_Refused := pl_refused pl |}, None)
      end
  end.

Definition empty_plan : plan := {| pl_writes := []; pl_deletes := []; pl_refused := [] |}.

Definition Restore (c : Checkpoint) : fsm (RestoreResult * option error) :=
  let! r := stage_all (sorted_files (ck_files c)) empty_plan in
  match r with
  | inl err => fs_ret ({| rr_Restored := []; rr_Refused := [] |}, Some err)
  | inr pl => apply_plan pl
  end.

(** [Reversal]'s restore: a refusal is an error. *)
Definition Reversal_Restore (c : Checkpoint) : fsm (option error) :=
  let! r := Restore c in
  let '(res, err) := r in
  match err with
  | Some err => fs_ret (Some err)
  | None =>
      match rr_Refused res with
      | [] => fs_ret None
      | first :: _ =>
          fs_ret (Some (EText ("checkpoint: " +:+ itoa (Z.of_nat (length (rr_Refused res))) +:+ " of "
            +:+ itoa (Z.of_nat (length (rr_Refused res) + length (rr_Restored res)))
            +:+ " path(s) could not be restored: " +:+ rf_Reason first)))
      end
  end.

(** ** The extension *)
Record Gap := { gp_Tool : string; gp_Args : string }.

Record Extension := { ex_turn : Z; ex_current : option Checkpoint; ex_unreversed : list Gap; ex_undoPos : nat }.

Definition ext_start : Extension := {| ex_turn := 0; ex_current := None; ex_unreversed := []; ex_undoPos := 0 |}.

Definition TurnStart (e : Extension) : Extension :=
  {| ex_turn := ex_turn e + 1; ex_current := None; ex_unreversed := []; ex_undoPos := ex_undoPos e |}.

Definition truncate (s : string) (n : nat) : string :=
  if Nat.leb (String.length s) n then s else str_take n s +:+ "...".

Definition record (info : ToolCallInfo) (e : Extension) : Extension :=
  {| ex_turn := ex_turn e; ex_current := ex_current e;
     ex_unreversed := ex_unreversed e ++ [{| gp_Tool := info_name info; gp_Args := truncate (tc_Args (ti_Call info)) 120 |}];
     ex_undoPos := ex_undoPos e |}.

Definition denied (err : option error) : bool := match err with Some e => bool_decide (is_Some (error_as_denied e)) | None => false end.

Variable args : Type.
Variable empty_args : args.
Variable bind_args : RawJSON -> result args.
(** The declared tools and the files their arguments name. *)
Variable writes : gmap string (args -> list string).
Variable session : string.

Definition set_current (c : Checkpoint) (pos : nat) (e : Extension) : Extension :=
  {| ex_turn := ex_turn e; ex_current := Some c; ex_unreversed := ex_unreversed e; ex_undoPos := pos |}.

(** This turn's checkpoint. *)
Definition checkpoint (now : Z) (e : Extension) : fsm (result Checkpoint * Extension) :=
  match ex_current e with
  | Some c => fs_ret (inr c, e)
  | None =>
      let! r := Open now ("turn-" +:+ itoa (ex_turn e) +:+ "-" +:+ session) in
      match r with
      | inl err => fs_ret (inl (EText (load_error_text err)), e)
      | inr c => fs_ret (inr c, set_current c 0 e)
      end
  end.

(** Before the dispatch: the error that ends the call, if any. *)
Definition capture_call (now : Z) (info : ToolCallInfo) (e : Extension) : fsm (option error * Extension) :=
  match writes !! info_name info with
  | None => fs_ret (None, e)
  | Some paths =>
      match (if String.eqb (tc_Args (ti_Call info)) "" then inr empty_args else bind_args (tc_Args (ti_Call info))) with
      | inl err => fs_ret (Some (EWrap ("checkpoint: " +:+ go_quote (info_name info) +:+ " arguments are not a JSON object: ") err ""), e)
      | inr a =>
          match paths a with
          | [] => fs_ret (None, e)
          | ps =>
              let! r := checkpoint now e in
              let '(cp, e) := r in
              match cp with
              | inl err => fs_ret (Some err, e)
              | inr c =>
                  let! r := Add c ps in
                  let '(err, c) := r in
                  fs_ret (err, set_current c (ex_undoPos e) e)
              end
          end
      end
  end.

Definition ckpt_wrap (now : Z) (info : ToolCallInfo) (next : fsm call_out) (e : Extension) : fsm (call_out * Extension) :=
  if Nat.ltb 0 (scope_Depth (ti_Scope info)) then let! out := next in fs_ret (out, e)
  else
    let! r := capture_call now info e in
    let '(err, e) := r in
    match err with
    | Some err => fs_ret ((None, Some err), e)
    | None =>
        let! out := next in
        let gap := bool_decide (writes !! info_name info = None) && negb (ti_ReadOnly info) && negb (denied (snd out)) in
        fs_ret (out, if gap then record info e else e)
    end.

(** ** /undo *)
Record Proposal := { pp_Gap : Gap; pp_Tool : string; pp_Args : string; pp_Rationale : string }.

Variable proposer : option (list Gap -> fsm (result (list Proposal))).
Variable approve_proposal : option (Proposal -> fsm (bool * option error)).
Variable call_tool : option (Proposal -> fsm (option error)).

Definition offer_one (p : Proposal) : fsm string :=
  match approve_proposal, call_tool with
  | None, _ => fs_ret "NOT RUN: no approval prompt is wired"
  | Some _, None => fs_ret "NOT RUN: no tool source is wired"
  | Some ask, Some call =>
      let! r := ask p in
      match r with
      | (_, Some err) => fs_ret ("NOT RUN: approval failed: " +:+ error_text err)
      | (false, None) => fs_ret "declined"
      | (true, None) =>
          let! err := call p in
          match err with Some err => fs_ret ("FAILED: " +:+ error_text err) | None => fs_ret "ran" end
      end
  end.

Definition offer_line (p : Proposal) (outcome : string) : string :=
  newline +:+ "  " +:+ pp_Tool p +:+ " " +:+ pp_Args p +:+ newline +:+ "    why: " +:+ pp_Rationale p
  +:+ newline +:+ "    " +:+ outcome.

Fixpoint offer_all (ps : list Proposal) : fsm string :=
  match ps with
  | [] => fs_ret ""
  | p :: ps => let! o := offer_one p in let! rest := offer_all ps in fs_ret (offer_line p o +:+ rest)
  end.

Definition offerProposals (gaps : list Gap) : fsm string :=
  match proposer, gaps with
  | None, _ | _, [] => fs_ret ""
  | Some propose, _ =>
      let! r := propose gaps in
      match r with
      | inl err => fs_ret ("could not propose offsets: " +:+ error_text err)
      | inr [] => fs_ret "no offsets proposed."
      | inr ps =>
          let! lines := offer_all ps in
          fs_ret (itoa (Z.of_nat (length ps)) +:+ " offset(s) proposed. None runs without your approval:" +:+ lines)
      end
  end.

Definition em_dash : string := byte_of 226 +:+ byte_of 128 +:+ byte_of 148.

Definition undoReport (gaps : list Gap) (c : Checkpoint) (res : RestoreResult) : string :=
  ck_id c +:+ ": " +:+ itoa (Z.of_nat (length (rr_Restored res))) +:+ " file(s) restored"
  +:+ match rr_Refused res with
      | [] => ""
      | rs => newline +:+ newline +:+ itoa (Z.of_nat (length rs)) +:+ " path(s) REFUSED (not restored):"
              +:+ str_concat (List.map (fun r => newline +:+ "  " +:+ rf_Path r +:+ " " +:+ em_dash +:+ " " +:+ rf_Reason r) rs)
      end
  +:+ match gaps with
      | [] => ""
      | gs => newline +:+ newline +:+ itoa (Z.of_nat (length gs)) +:+ " call(s) had no reverser and were NOT undone:"
              +:+ str_concat (List.map (fun g => newline +:+ "  " +:+ gp_Tool g +:+ " " +:+ gp_Args g) gs)
      end.

(** The checkpoint a bare /undo restores, or the message that there is none. *)
Definition nextUndoTarget (e : Extension) : fsm (load_error + (string + string)) :=
  let! r := List_ in
  match r with
  | inl err => fs_ret (inl err)
  | inr [] => fs_ret (inr (inl "nothing to undo: no checkpoints yet"))
  | inr infos =>
      match infos !! ex_undoPos e with
      | None => fs_ret (inr (inl "nothing more to undo: every checkpoint has been restored"))
      | Some i => fs_ret (inr (inr (in_ID i)))
      end
  end.

Definition step_back (bare : bool) (e : Extension) : Extension :=
  {| ex_turn := ex_turn e; ex_current := ex_current e; ex_unreversed := ex_unreversed e;
     ex_undoPos := if bare then S (ex_undoPos e) else ex_undoPos e |}.

(** Undoing one checkpoint by its id. *)
Definition undo_id (bare : bool) (id : string) (e : Extension) : fsm (result string * Extension) :=
  let! r := Load id in
  match r with
  | inl err => fs_ret (inl (EText ("checkpoint: no such checkpoint " +:+ go_quote id +:+ ": " +:+ load_error_text err)), e)
  | inr c =>
      let! r := Restore c in
      let '(res, err) := r in
      match err with
      | Some err => fs_ret (inl err, e)
      | None =>
          let e := step_back bare e in
          let! extra := offerProposals (ex_unreversed e) in
          fs_ret (inr (undoReport (ex_unreversed e) c res +:+ (if String.eqb extra "" then "" else newline +:+ newline +:+ extra)), e)
      end
  end.

Definition runUndo (arg : string) (e : Extension) : fsm (result string * Extension) :=
  let id := trim_space arg in
  if negb (String.eqb id "") then undo_id false id e
  else
    let! r := nextUndoTarget e in
    match r with
    | inl err => fs_ret (inl (EText (load_error_text err)), e)
    | inr (inl msg) => fs_ret (inr msg, e)
    | inr (inr id) => undo_id true id e
    end.
End Store.
