(* ===== verification/Undo.v ===== *)
(** * What undoing promises

    Lemmas and theorems on Checkpoint.v.  Restoring is described by an
    abstract specification: the node each captured path is to have
    ([restored_at]), reached path by path; a run that fails reaches it for some
    paths and leaves the others alone, so it can be run again.  A turn is any
    interleaving of captures, which may fail, and of writes to captured paths. *)

From S2P Require Import Prelude GoStr Errors Json Provider TreeBudget Middleware Paths Checkpoint.
Local Open Scope fs_scope.

(** ** Equality of what is captured *)
#[export] Instance kind_eq_dec : EqDecision kind.
Proof. solve_decision. Defined.
#[export] Instance entry_eq_dec : EqDecision entry.
Proof. solve_decision. Defined.
#[export] Instance manifest_eq_dec : EqDecision manifest.
Proof. solve_decision. Defined.

Section Restoring.
Variable root : string.
Hypothesis root_named : root <> "".

Abbreviation blob_key := (blob_key root).
Abbreviation Restore := (Restore root).

(** ** The specification of a restore *)
Definition now_mode (n : option node) : option Z := match n with Some (NFile f) => Some (f_mode f) | _ => None end.

(** Paths that are left alone. *)
Definition refused_at (t : tree) (p : string) (e : entry) : bool :=
  match t !! at_path p with
  | Some (NOther _) => true
  | _ => match en_Kind e with KindRegular | KindAbsent => false | _ => true end
  end.

(** What a path holds after a restore from [t]. *)
Definition restored_at (t : tree) (p : string) (e : entry) : option node :=
  if refused_at t p e then t !! at_path p
  else match en_Kind e with
       | KindRegular =>
           match t !! blob_key (en_Hash e) with
           | Some (NFile b) => Some (NFile {| f_content := f_content b; f_mode := restore_mode e (now_mode (t !! at_path p)) |})
           | _ => t !! at_path p
           end
       | _ => None
       end.

(** Updates of the user's files, one after the other. *)
Definition update (t : tree) (u : string * option node) : tree := partial_alter (fun _ => snd u) (at_path (fst u)) t.
Definition updates (t : tree) (us : list (string * option node)) : tree := foldl update t us.

Lemma update_ne t u k : k <> at_path (fst u) -> update t u !! k = t !! k.
Proof. intros H. unfold update. by rewrite lookup_partial_alter_ne. Qed.

Lemma updates_other t us k : (forall u, u ∈ us -> k <> at_path (fst u)) -> updates t us !! k = t !! k.
Proof.
  revert t. induction us as [|u us IH]; intros t H; [done|]. unfold updates in *. cbn [foldl].
  rewrite IH by (intros; apply H; set_solver). apply update_ne. apply H. set_solver.
Qed.

Lemma updates_at t us u : NoDup us.*1 -> u ∈ us -> updates t us !! at_path (fst u) = snd u.
Proof.
  revert t. induction us as [|v us IH]; intros t; csimpl; [intros _ H; by apply not_elem_of_nil in H|]. intros [Hv Hnd]%NoDup_cons [->|Hin]%elem_of_cons.
  - rewrite updates_other; [unfold update; by rewrite lookup_partial_alter_eq|]. intros u Hu [= H]. apply Hv.
    rewrite H. apply list_elem_of_fmap. by exists u.
  - by apply IH.
Qed.

(** ** The steps of a restore *)
Definition decides (t : tree) (p : string) (e : entry) (d : Checkpoint.decision) : Prop :=
  match d with
  | DWrite f => refused_at t p e = false /\ restored_at t p e = Some (NFile f)
  | DDelete => refused_at t p e = false /\ restored_at t p e = None
  | DRefuse _ => refused_at t p e = true
  end.

Lemma cleanup_does ws : does (cleanup ws) (fun t _ t' => t' = t).
Proof. induction ws as [|w ws IH]; cbn [cleanup]; [by does_done|]. does_with fs_quiet_does. eapply does_mono; [apply IH|]. by intros ? ? ? -> ->. Qed.

Lemma stage_does hash dst mode :
  does (stage root hash dst mode) (fun t r t' => t' = t /\
    match r with inr f => exists b, t !! blob_key hash = Some (NFile b) /\ f = {| f_content := f_content b; f_mode := mode |} | inl _ => True end).
Proof.
  unfold stage. does_with fs_ReadFile_does. destruct a as [err|data]; [does_done; tidy; done|].
  do 4 (does_with fs_quiet_does; match goal with x : os_error + unit |- _ => destruct x end;
    [try (does_with fs_quiet_does); does_done; tidy; done|]).
  does_done. tidy. naive_solver.
Qed.

Lemma stage_known_does dst e now :
  does (stage_known root dst e now) (fun t r t' => t' = t /\
    (match t !! at_path dst with Some (NOther _) => False | n => now = now_mode n end ->
     match r with inr d => decides t dst e d | inl _ => True end)).
Proof.
  unfold stage_known. destruct (en_Kind e) eqn:Ek.
  - does_with fs_MkdirAll_does. destruct a as [err|]; [does_done; by subst|]. does_with stage_does. destruct a as [err|f]; does_done; [tidy; done|].
    destruct H as (-> & b & Hb & ->). subst t0. split; [done|]. intros Hn. cbn [decides]. unfold restored_at, refused_at. rewrite Ek, Hb.
    destruct (t !! at_path dst) as [[g|m]|]; try done; by subst.
  - does_done. split; [done|]. intros Hn. cbn [decides]. unfold restored_at, refused_at. rewrite Ek. by destruct (t !! at_path dst) as [[g|m]|].
  - does_done. split; [done|]. intros Hn. cbn [decides]. unfold refused_at. rewrite Ek. by destruct (t !! at_path dst) as [[g|m]|].
  - does_done. split; [done|]. intros Hn. cbn [decides]. unfold refused_at. rewrite Ek. by destruct (t !! at_path dst) as [[g|m]|].
Qed.

Lemma stage_path_does dst e :
  does (stage_path root dst e) (fun t r t' => t' = t /\ match r with inr d => decides t dst e d | inl _ => True end).
Proof.
  unfold stage_path. does_with fs_Stat_does. destruct a as [[| |msg]|[[] mode]].
  - eapply does_mono; [apply stage_known_does|]. cbv beta. intros t1 r t2 [-> H] [-> Ht]. split; [done|]. apply H. by rewrite Ht.
  - does_done. tidy. done.
  - does_done. tidy. done.
  - eapply does_mono; [apply stage_known_does|]. cbv beta. intros t1 r t2 [-> H] (-> & f & Hf & ->). split; [done|]. apply H. by rewrite Hf.
  - does_done. destruct H as (-> & m & Hm). split; [done|]. cbn. unfold refused_at. by rewrite Hm.
Qed.

(** The plan that a list of decisions makes. *)
Definition plan_from (pl : plan) (ds : list (string * Checkpoint.decision)) : plan :=
  foldl (fun pl '(p, d) => add_decision p d pl) pl ds.

Definition decision_update (pd : string * Checkpoint.decision) : option (string * option node) :=
  match snd pd with DWrite f => Some (fst pd, Some (NFile f)) | DDelete => Some (fst pd, None) | DRefuse _ => None end.

Definition write_update (w : staged) : string * option node := (fst w, Some (NFile (snd w))).
Definition plan_updates (pl : plan) : list (string * option node) :=
  List.map write_update (pl_writes pl) ++ List.map (fun p => (p, None)) (pl_deletes pl).

Lemma stage_all_does l pl :
  does (stage_all root l pl) (fun t r t' => t' = t /\
    match r with
    | inr pl' => exists ds, pl' = plan_from pl ds /\ Forall2 (fun pe pd => fst pd = fst pe /\ decides t (fst pe) (snd pe) (snd pd)) l ds
    | inl _ => True
    end).
Proof.
  revert pl. induction l as [|[dst e] l IH]; intros pl; cbn [stage_all]; [does_done; split; [done|]; by exists []|].
  does_with stage_path_does. destruct a as [err|d].
  - does_with cleanup_does. does_done. by destruct H0 as [-> _].
  - eapply does_mono; [apply IH|]. cbv beta. intros t1 r t2 [-> Hr] [-> Hd]. split; [done|]. destruct r as [err|pl']; [done|].
    destruct Hr as (ds & -> & Hds). exists ((dst, d) :: ds). split; [done|]. by constructor.
Qed.

(** A loop does a prefix of its updates, all of them when it succeeds. *)
Definition prefix_done (us : list (string * option node)) (acc : list string) (t : tree) (r : list string * option error) (t' : tree) : Prop :=
  exists us1 us2, us = us1 ++ us2 /\ fst r = acc ++ us1.*1 /\ t' = updates t us1 /\ (snd r = None -> us2 = []).

Lemma prefix_done_nil acc t : prefix_done [] acc t (acc, None) t.
Proof. exists [], []. split_and!; try done. cbn. by rewrite app_nil_r. Qed.

Lemma prefix_done_stop us acc t err : prefix_done us acc t (acc, Some err) t.
Proof. exists [], us. split_and!; try done. cbn. by rewrite app_nil_r. Qed.

Lemma prefix_done_cons u us acc t r t' : prefix_done us (acc ++ [fst u]) (update t u) r t' -> prefix_done (u :: us) acc t r t'.
Proof.
  intros (us1 & us2 & -> & Hr & -> & He). exists (u :: us1), us2. split_and!; [done| |done|done]. csimpl. by rewrite Hr, <- app_assoc.
Qed.

Lemma rename_all_does ws acc : does (rename_all ws acc) (prefix_done (List.map write_update ws) acc).
Proof.
  revert acc. induction ws as [|[dst f] ws IH]; intros acc; cbn [rename_all List.map]; [does_done; apply prefix_done_nil|].
  does_with fs_RenameTemp_does. destruct a as [err|[]].
  - does_done. subst. apply prefix_done_stop.
  - eapply does_mono; [apply IH|]. cbv beta. intros t1 r t2 H ->. apply prefix_done_cons. exact H.
Qed.

Lemma fs_Remove_missing k :
  does (fs_Remove k) (fun t r t' =>
    match r with inr _ => t' = delete k t | inl ErrNotExist => t' = delete k t | inl _ => t' = t end).
Proof.
  apply does_call; [by intros t []|]. intros t. destruct (t !! k) as [[f|m]|] eqn:E; cbn; try done. by rewrite delete_id.
Qed.

Lemma remove_all_does ds acc : does (remove_all ds acc) (prefix_done (List.map (fun p => (p, None)) ds) acc).
Proof.
  revert acc. induction ds as [|dst ds IH]; intros acc; cbn [remove_all List.map]; [does_done; apply prefix_done_nil|].
  does_with fs_Remove_missing. destruct a as [[| |msg]|[]];
    try (does_done; subst; apply prefix_done_stop);
    (eapply does_mono; [apply IH|]; cbv beta; intros t1 r t2 H ->; apply prefix_done_cons; exact H).
Qed.

(** *** The paths of a checkpoint *)
Lemma sorted_files_in files p e : (p, e) ∈ sorted_files files <-> files !! p = Some e.
Proof.
  unfold sorted_files. rewrite list_elem_of_omap. split.
  - intros (q & Hq & H). destruct (files !! q) as [x|] eqn:E; cbn in H; [|done]. injection H as -> ->. done.
  - intros H. exists p. split; [|by rewrite H]. rewrite sort_strings_perm, list_elem_of_In, in_map_iff. exists (p, e). split; [done|].
    by rewrite <- list_elem_of_In, elem_of_map_to_list.
Qed.

Lemma sorted_files_nodup files : NoDup (sorted_files files).*1.
Proof.
  unfold sorted_files. set (ps := sort_strings _). assert (NoDup ps) as Hnd.
  { unfold ps. rewrite sort_strings_perm. apply NoDup_fst_map_to_list. }
  clearbody ps. induction ps as [|p ps IH]; csimpl; [constructor|]. apply NoDup_cons in Hnd as [Hp Hnd].
  destruct (files !! p) as [e|]; cbn; [|by apply IH]. constructor; [|by apply IH]. intros Hin.
  apply list_elem_of_fmap in Hin as ([q e'] & -> & Hin). apply Hp. apply list_elem_of_omap in Hin as (q' & Hq' & H).
  destruct (files !! q') as [x|]; cbn in H; [|done]. by injection H as -> ->.
Qed.

(** The updates and refusals of a plan, path by path. *)
Lemma plan_from_parts pl ds :
  plan_updates (plan_from pl ds) ≡ₚ plan_updates pl ++ omap decision_update ds
  /\ (List.map rf_Path (pl_refused (plan_from pl ds))
      = List.map rf_Path (pl_refused pl) ++ omap (fun pd => match snd pd with DRefuse _ => Some (fst pd) | _ => None end) ds).
Proof.
  revert pl. induction ds as [|[p d] ds IH]; intros pl; cbn [plan_from foldl]; [csimpl; by rewrite !app_nil_r|].
  destruct (IH (add_decision p d pl)) as [H1 H2]. unfold plan_from in *. cbn [foldl]. split.
  - rewrite H1. unfold plan_updates. destruct d as [f| |why]; cbn [add_decision pl_writes pl_deletes]; csimpl; cbn [decision_update snd fst].
    + rewrite map_app. cbn [List.map]. unfold write_update at 2. cbn [fst snd]. rewrite <- !app_assoc. cbn. solve_Permutation.
    + rewrite map_app. cbn [List.map]. rewrite <- !app_assoc. done.
    + done.
  - rewrite H2. destruct d as [f| |why]; csimpl; cbn [add_decision pl_refused snd fst]; [done..|].
    rewrite map_app, <- app_assoc. done.
Qed.

(** The updates a full restore makes from [t]. *)
Definition full_updates (t : tree) (files : gmap string entry) (us : list (string * option node)) : Prop :=
  NoDup us.*1 /\ forall p n, (p, n) ∈ us <-> exists e, files !! p = Some e /\ refused_at t p e = false /\ n = restored_at t p e.

Lemma decided_updates t files ds :
  Forall2 (fun pe pd => fst pd = fst pe /\ decides t (fst pe) (snd pe) (snd pd)) (sorted_files files) ds ->
  full_updates t files (omap decision_update ds)
  /\ forall p, p ∈ omap (fun pd => match snd pd with DRefuse _ => Some (fst pd) | _ => None end) ds
       <-> exists e, files !! p = Some e /\ refused_at t p e = true.
Proof.
  intros Hds.
  assert (forall p d, (p, d) ∈ ds -> exists e, files !! p = Some e /\ decides t p e d) as Hin.
  { intros p d Hpd. apply list_elem_of_lookup in Hpd as [i Hi]. destruct (Forall2_lookup_r _ _ _ _ _ Hds Hi) as ([q e] & Hq & Hp & Hd).
    cbn in Hp, Hd. subst q. exists e. split; [|done]. apply sorted_files_in. by eapply list_elem_of_lookup_2. }
  assert (forall p e, files !! p = Some e -> exists d, (p, d) ∈ ds /\ decides t p e d) as Hex.
  { intros p e He. apply sorted_files_in, list_elem_of_lookup in He as [i Hi]. destruct (Forall2_lookup_l _ _ _ _ _ Hds Hi) as ([q d] & Hq & Hp & Hd).
    cbn in Hp, Hd. subst q. exists d. split; [|done]. by eapply list_elem_of_lookup_2. }
  split; [split|].
  - assert (ds.*1 = (sorted_files files).*1) as Hfst.
    { clear Hin Hex. induction Hds as [|[p e] [q d] l ds [H _] _ IH]; [done|]. csimpl. cbn in H. congruence. }
    pose proof (sorted_files_nodup files) as Hnd. rewrite <- Hfst in Hnd. clear -Hnd. induction ds as [|[p d] ds IH]; csimpl; [constructor|].
    apply NoDup_cons in Hnd as [Hp Hnd]. destruct d as [f| |why]; cbn; [constructor|constructor|]; try (by apply IH);
      (intros H; apply Hp; apply list_elem_of_fmap in H as ([q n] & Hq & H); cbn in Hq; subst q; apply list_elem_of_omap in H as ([q d'] & Hq & H);
       apply list_elem_of_fmap; exists (q, d'); split; [|done]; by destruct d'; cbn in H; simplify_eq).
  - intros p n. rewrite list_elem_of_omap. split.
    + intros ([q d] & Hq & Hd). destruct (Hin q d Hq) as (e & He & Hdec). destruct d as [f| |why]; cbn in Hd; [| |done]; injection Hd as -> <-;
        exists e; cbn in Hdec; destruct Hdec as [H1 H2]; by rewrite H2.
    + intros (e & He & Href & ->). destruct (Hex p e He) as (d & Hd & Hdec). exists (p, d). split; [done|].
      destruct d as [f| |why]; cbn in *; [destruct Hdec as [_ ->]|destruct Hdec as [_ ->]|congruence]; done.
  - intros p. rewrite list_elem_of_omap. split.
    + intros ([q d] & Hq & Hd). destruct (Hin q d Hq) as (e & He & Hdec). destruct d as [f| |why]; cbn in Hd; [done..|].
      injection Hd as ->. by exists e.
    + intros (e & He & Href). destruct (Hex p e He) as (d & Hd & Hdec). exists (p, d). split; [done|].
      destruct d as [f| |why]; cbn in *; [destruct Hdec; congruence..|done].
Qed.

Lemma full_updates_perm t files us us' : us ≡ₚ us' -> full_updates t files us' -> full_updates t files us.
Proof. intros H [H1 H2]. split; [by rewrite H|]. intros p n. by rewrite H, H2. Qed.

Lemma updates_app t us1 us2 : updates t (us1 ++ us2) = updates (updates t us1) us2.
Proof. apply foldl_app. Qed.

Lemma apply_plan_does pl :
  does (apply_plan pl) (fun t r t' => exists us1 us2, plan_updates pl = us1 ++ us2 /\ t' = updates t us1
    /\ (snd r = None -> us2 = [] /\ rr_Restored (fst r) = sort_strings us1.*1 /\ rr_Refused (fst r) = pl_refused pl)).
Proof.
  unfold apply_plan, plan_updates. does_with rename_all_does. destruct a as [done1 [err|]].
  - does_done. destruct H as (us1 & us2 & Hus & _ & -> & _). exists us1, (us2 ++ List.map (fun p => (p, None)) (pl_deletes pl)).
    rewrite Hus, <- app_assoc. subst. split_and!; done.
  - does_with remove_all_does. destruct a as [done2 err]. assert (forall tx, prefix_done (List.map write_update (pl_writes pl)) [] t (done1, None) t0 ->
      prefix_done (List.map (fun p => (p, None)) (pl_deletes pl)) done1 t0 (done2, err) tx ->
      exists us1 us2, List.map write_update (pl_writes pl) ++ List.map (fun p => (p, None)) (pl_deletes pl) = us1 ++ us2 /\ tx = updates t us1
        /\ done2 = us1.*1 /\ (err = None -> us2 = [])) as Hboth.
    { intros tx (us1 & us2 & Hus & Hd & -> & Hn) (vs1 & vs2 & Hvs & Hd' & -> & Hn'). specialize (Hn eq_refl). subst us2. cbn in Hd, Hd'.
      exists (us1 ++ vs1), vs2. rewrite Hus, Hvs, app_nil_r, <- app_assoc, updates_app, fmap_app, Hd', Hd. done. }
    destruct err as [err|]; does_done; destruct (Hboth _ H0 H) as (us1 & us2 & Hus & -> & -> & Hn); exists us1, us2; [by split_and!|].
    split_and!; [done..|]. intros _. split_and!; [by apply Hn|done..].
Qed.

(** What a run of [Restore] did: nothing, or some of the updates, all of them
    when it reports no error, and then it names what it did and did not do. *)
Definition restore_ran (c : Checkpoint.Checkpoint) (t : tree) (r : RestoreResult * option error) (t' : tree) : Prop :=
  exists us1 us2, t' = updates t us1 /\ (us1 = [] \/ full_updates t (ck_files c) (us1 ++ us2))
    /\ (snd r = None -> us2 = [] /\ full_updates t (ck_files c) us1
        /\ rr_Restored (fst r) = sort_strings us1.*1
        /\ forall p, p ∈ List.map rf_Path (rr_Refused (fst r)) <-> exists e, ck_files c !! p = Some e /\ refused_at t p e = true).

Lemma Restore_does c : does (Restore c) (restore_ran c).
Proof.
  unfold Checkpoint.Restore. does_with stage_all_does. destruct a as [err|pl].
  { does_done. destruct H as [-> _]. exists [], []. split_and!; [done|by left|done]. }
  eapply does_mono; [apply apply_plan_does|]. cbv beta. intros t1 r t2 (us1 & us2 & Hus & -> & Hr) [-> (ds & -> & Hds)].
  destruct (plan_from_parts empty_plan ds) as [H1 H2]. destruct (decided_updates _ _ _ Hds) as [Hu Href].
  assert (full_updates t (ck_files c) (us1 ++ us2)) as Hfull by (rewrite <- Hus; by eapply full_updates_perm).
  exists us1, us2. split_and!; [done|by right|]. intros Hn. destruct (Hr Hn) as (-> & Hd & Hf). rewrite app_nil_r in Hfull.
  split_and!; [done..|]. intros p. rewrite Hf, H2. exact (Href p).
Qed.

(** ** Restoring *)
Definition outside_files (c : Checkpoint.Checkpoint) (k : key) : Prop := forall p e, ck_files c !! p = Some e -> k <> at_path p.

Lemma ran_other c t r t' k : restore_ran c t r t' -> outside_files c k -> t' !! k = t !! k.
Proof.
  intros (us1 & us2 & -> & Hu & _) Hk. apply updates_other. intros [p n] Hin. destruct Hu as [->|[_ Hu]]; [by apply not_elem_of_nil in Hin|].
  assert ((p, n) ∈ us1 ++ us2) as (e & He & _)%Hu by set_solver. by eapply Hk.
Qed.

Lemma full_nodup_l t files us1 us2 : full_updates t files (us1 ++ us2) -> NoDup us1.*1.
Proof. intros [H _]. rewrite fmap_app in H. by apply NoDup_app in H as [H _]. Qed.

Lemma ran_at c t r t' p e :
  restore_ran c t r t' -> ck_files c !! p = Some e -> t' !! at_path p = t !! at_path p \/ t' !! at_path p = restored_at t p e.
Proof.
  intros (us1 & us2 & -> & Hu & _) He. destruct (decide (p ∈ us1.*1)) as [Hp|Hp].
  - destruct Hu as [->|Hu]; [by apply not_elem_of_nil in Hp|]. right. apply list_elem_of_fmap in Hp as ([q n] & -> & Hin). cbn [fst] in *.
    rewrite (updates_at _ _ (q, n)) by (done || by eapply full_nodup_l). destruct Hu as [_ Hu].
    assert ((q, n) ∈ us1 ++ us2) as (e' & He' & _ & Hn)%Hu by set_solver. cbn. congruence.
  - left. apply updates_other. intros u Hin [= ->]. apply Hp. apply list_elem_of_fmap. by exists u.
Qed.

Lemma ran_done c t r t' p e :
  restore_ran c t r t' -> snd r = None -> ck_files c !! p = Some e -> t' !! at_path p = restored_at t p e.
Proof.
  intros (us1 & us2 & -> & _ & Hd) Hn He. destruct (Hd Hn) as (_ & [Hnd Hu] & _ & _). destruct (refused_at t p e) eqn:Er.
  - rewrite updates_other; [unfold restored_at; by rewrite Er|]. intros [q n] Hin [= <-]. apply Hu in Hin as (e' & He' & Hr & _). congruence.
  - apply (updates_at _ _ (p, restored_at t p e)); [done|]. apply Hu. by exists e.
Qed.

Lemma root_key_ne k p : fst k = root -> k <> at_path p.
Proof. intros <- ->. done. Qed.

(** Running part of a restore does not change what the rest is to do. *)
Lemma restored_at_ran c t r t' p e :
  restore_ran c t r t' -> ck_files c !! p = Some e -> restored_at t' p e = restored_at t p e.
Proof.
  intros Hran He. assert (t' !! blob_key (en_Hash e) = t !! blob_key (en_Hash e)) as Hb.
  { eapply ran_other; [exact Hran|]. intros q e' _. by apply root_key_ne. }
  destruct (ran_at _ _ _ _ _ _ Hran He) as [H|H].
  - unfold restored_at, refused_at. by rewrite H, Hb.
  - unfold restored_at at 1. unfold refused_at. rewrite H, Hb. unfold restored_at, refused_at.
    destruct (t !! at_path p) as [[f|m]|] eqn:Et; destruct (en_Kind e) eqn:Ek; rewrite ?Et; try done;
      destruct (t !! blob_key (en_Hash e)) as [[b|m']|]; try done; cbn [now_mode f_mode restore_mode];
      unfold restore_mode; cbn; by destruct (en_Mode e =? 0)%Z.
Qed.

(** C27: Restoring a checkpoint, whatever fails on the way: a run changes no
    file that was not captured, and each captured one is as it was before the
    run or as it is to be.  A run that reports no error has done all of them:
    it names as restored, in order, exactly the paths that are now as they
    were captured, and as refused exactly those it left alone, which are not
    regular files now or were not then.  A run that fails can be run again:
    the end is the same. *)
Theorem restore_exact c :
  does (Restore c) (fun t r t' =>
    (forall k, outside_files c k -> t' !! k = t !! k)
    /\ (forall p e, ck_files c !! p = Some e -> t' !! at_path p = t !! at_path p \/ t' !! at_path p = restored_at t p e)
    /\ (snd r = None ->
        (forall p e, ck_files c !! p = Some e -> t' !! at_path p = restored_at t p e)
        /\ StronglySorted String.le (rr_Restored (fst r))
        /\ (forall p, p ∈ rr_Restored (fst r) <-> exists e, ck_files c !! p = Some e /\ refused_at t p e = false)
        /\ (forall p, p ∈ List.map rf_Path (rr_Refused (fst r)) <-> exists e, ck_files c !! p = Some e /\ refused_at t p e = true))
    /\ does (Restore c) (fun t1 r t2 => t1 = t' -> snd r = None ->
         (forall p e, ck_files c !! p = Some e -> t2 !! at_path p = restored_at t p e) /\ (forall k, outside_files c k -> t2 !! k = t !! k))).
Proof.
  eapply does_mono; [apply Restore_does|]. cbv beta. intros t r t' Hran. split_and!.
  - intros k. by eapply ran_other.
  - intros p e. by eapply ran_at.
  - intros Hn. pose proof Hran as (us1 & us2 & _ & _ & Hd). destruct (Hd Hn) as (_ & [Hnd Hu] & Hres & Href). split_and!.
    + intros p e. by eapply ran_done.
    + rewrite Hres. apply sort_strings_sorted.
    + intros p. rewrite Hres, sort_strings_perm. rewrite list_elem_of_fmap. split.
      * intros ([q n] & -> & (e & He & Hr & _)%Hu). by exists e.
      * intros (e & He & Hr). exists (p, restored_at t p e). split; [done|]. apply Hu. by exists e.
    + exact Href.
  - eapply does_mono; [apply Restore_does|]. cbv beta. intros t1 r2 t2 Hran2 -> Hn2. split.
    + intros p e He. rewrite <- (restored_at_ran _ _ _ _ _ _ Hran He). by eapply ran_done.
    + intros k Hk. rewrite <- (ran_other _ _ _ _ _ Hran Hk). by eapply ran_other.
Qed.

End Restoring.

Section Turns.
Variable root : string.
Variable sha256 : string -> string.
Variable encode : manifest -> result string.
Variable probe_version : string -> result Z.
Variable decode : string -> result manifest.

Hypothesis root_named : root <> "".
(** Files met have different digests when they differ. *)
Hypothesis sha_inj : forall c c', sha256 c = sha256 c' -> c = c'.
Hypothesis sha_some : forall c, sha256 c <> "".
(** A manifest that is written is read back. *)
Hypothesis codec : forall m raw, encode m = inr raw -> probe_version raw = inr (mf_Version m) /\ decode raw = inr m.

Abbreviation blob_key := (blob_key root).
Abbreviation manifest_key := (manifest_key root).
Abbreviation content_hash := (content_hash sha256).
Abbreviation Restore := (Restore root).
Abbreviation Add := (Add root sha256 encode).
Abbreviation restored_at := (restored_at root).
Abbreviation restore_ran := (restore_ran root).

(** ** Capturing *)

(** The blobs hold what their names say. *)
Definition blobs_ok (t : tree) : Prop :=
  forall c n, t !! blob_key (content_hash c) = Some n -> exists m, n = NFile {| f_content := c; f_mode := m |}.

(** The store only grows, and no user file changes. *)
Record grows (t t' : tree) : Prop := {
  gr_user : forall p, t' !! at_path p = t !! at_path p;
  gr_blobs : forall c, is_Some (t !! blob_key (content_hash c)) -> is_Some (t' !! blob_key (content_hash c));
  gr_ok : blobs_ok t -> blobs_ok t';
}.

Lemma ckpt_grows_refl t : grows t t.
Proof. by split. Qed.

Lemma ckpt_grows_trans t1 t2 t3 : grows t1 t2 -> grows t2 t3 -> grows t1 t3.
Proof.
  intros [H1 H2 H3] [H1' H2' H3']. split; [intros p; by rewrite H1'|by auto|by auto].
Qed.

(** The entry says what [t0] has at the path, and its content is in [t]. *)
Definition captured (t0 t : tree) (p : string) (e : entry) : Prop :=
  match en_Kind e with
  | KindRegular => exists f m, t0 !! at_path p = Some (NFile f) /\ en_Mode e = f_mode f
      /\ en_Hash e = content_hash (f_content f) /\ t !! blob_key (en_Hash e) = Some (NFile {| f_content := f_content f; f_mode := m |})
  | KindAbsent => t0 !! at_path p = None
  | KindUnsupported => exists m, t0 !! at_path p = Some (NOther m)
  | KindOther _ => False
  end.

Lemma captured_grows t0 t t' p e : grows t t' -> blobs_ok t -> captured t0 t p e -> captured t0 t' p e.
Proof.
  intros [_ Hb Hok] Ht. unfold captured. destruct (en_Kind e); try done. intros (f & m & H1 & H2 & H3 & H4). rewrite H3 in *.
  destruct (Hb (f_content f)) as [n Hn]; [by rewrite H4|]. destruct (Hok Ht _ _ Hn) as [m' ->]. by exists f, m'.
Qed.

Lemma captured_start t0 t0' t p e : t0 !! at_path p = t0' !! at_path p -> captured t0 t p e -> captured t0' t p e.
Proof. intros H. unfold captured. by rewrite H. Qed.

Lemma content_hash_inj c c' : content_hash c = content_hash c' -> c = c'.
Proof. intros H. by apply sha_inj, hex_encode_inj. Qed.

Lemma blob_key_inj c c' : blob_key (content_hash c) = blob_key (content_hash c') -> c = c'.
Proof.
  intros [= H]. apply content_hash_inj. unfold content_hash in *.
  pose proof (sha_some c) as H1. pose proof (sha_some c') as H2. destruct (sha256 c) as [|a s]; [done|]. destruct (sha256 c') as [|b s']; [done|].
  cbn in H |- *. injection H as Ha Hb Hs. rewrite !app_empty_l in Hs. by rewrite Ha, Hb, Hs.
Qed.

Lemma blob_not_manifest h id : blob_key h <> manifest_key id.
Proof. intros [= H]. Qed.

(** The manifests are as they were. *)
Definition keeps_manifests (t t' : tree) : Prop := forall id, t' !! manifest_key id = t !! manifest_key id.

Lemma write_rename_does a b k content :
  does (write_rename a b k content) (fun t r t' => match r with None => t' = <[k := NFile {| f_content := content; f_mode := 420 |}]> t | Some _ => t' = t end).
Proof.
  unfold write_rename. does_with fs_quiet_does. destruct a0 as [err|]; [by does_done|]. does_with fs_RenameTemp_does. destruct a0 as [err|].
  - does_with fs_quiet_does. does_done. congruence.
  - does_done. congruence.
Qed.

Lemma put_blob_grows t c m : grows t (<[blob_key (content_hash c) := NFile {| f_content := c; f_mode := m |}]> t).
Proof.
  split.
  - intros p. rewrite lookup_insert_ne; [done|]. by eapply root_key_ne.
  - intros c' Hc'. destruct (decide (blob_key (content_hash c) = blob_key (content_hash c'))) as [He|He]; [rewrite <- He, lookup_insert_eq; by eexists|].
    by rewrite lookup_insert_ne.
  - intros Hok c' n Hc'. destruct (decide (blob_key (content_hash c) = blob_key (content_hash c'))) as [He|He].
    + rewrite <- He, lookup_insert_eq in Hc'. apply blob_key_inj in He as ->. injection Hc' as <-. by exists m.
    + rewrite lookup_insert_ne in Hc' by done. by apply Hok.
Qed.

Lemma put_blob_keeps t h n : keeps_manifests t (<[blob_key h := n]> t).
Proof. intros id. rewrite lookup_insert_ne; [done|]. apply blob_not_manifest. Qed.

Lemma put_manifest_grows t id n : grows t (<[manifest_key id := n]> t).
Proof.
  assert (forall h, (<[manifest_key id := n]> t) !! blob_key h = t !! blob_key h) as Hb.
  { intros h. rewrite lookup_insert_ne; [done|]. apply not_eq_sym, blob_not_manifest. }
  split.
  - intros p. rewrite lookup_insert_ne; [done|]. by eapply root_key_ne.
  - intros c. by rewrite Hb.
  - intros Hok c m. rewrite Hb. apply Hok.
Qed.

Lemma putFile_does p :
  does (putFile root sha256 p) (fun t r t' => grows t t' /\ keeps_manifests t t' /\
    match r with inr h => exists f, t !! at_path p = Some (NFile f) /\ h = content_hash (f_content f) /\ is_Some (t' !! blob_key h) | inl _ => True end).
Proof.
  unfold putFile. does_with fs_ReadFile_does. destruct a as [err|data]; [does_done; tidy; split; [apply ckpt_grows_refl|done]|].
  does_with fs_Stat_does. destruct a as [err|[reg mode]].
  - does_with fs_MkdirAll_does. destruct a as [err'|]; [does_done; tidy; split; [apply ckpt_grows_refl|done]|].
    does_with write_rename_does. destruct a as [err'|]; does_done; tidy;
      (split; [apply ckpt_grows_refl || apply put_blob_grows|]; split; [done || apply put_blob_keeps|]); [done|].
    eexists. split_and!; [done..|]. by rewrite lookup_insert_eq.
  - does_done. destruct reg; tidy; (split; [apply ckpt_grows_refl|]; split; [done|]); eexists; split_and!; try done.
    all: by match goal with H : _ !! blob_key _ = _ |- _ => rewrite H end.
Qed.

Lemma capture_does p :
  does (capture root sha256 p) (fun t r t' => grows t t' /\ keeps_manifests t t' /\
    (blobs_ok t -> match r with inr e => captured t t' p e | inl _ => True end)).
Proof.
  unfold capture. does_with fs_Stat_does. destruct a as [[| |msg]|[[] mode]]; try (does_done; tidy; split; [apply ckpt_grows_refl|done]).
  - does_with putFile_does. destruct a as [err|h]; does_done; destruct H as (Hg & Hk & H); destruct H0 as (-> & f & Hf & ->); (split; [done|]; split; [done|]); [done|].
    intros Hok. destruct H as (f' & Hf' & -> & [n Hn]). unfold captured. cbn. rewrite Hf in Hf'. injection Hf' as <-.
    destruct (gr_ok _ _ Hg Hok _ _ Hn) as [m ->]. by exists f, m.
  - does_done. destruct H as (-> & m & Hm). split; [apply ckpt_grows_refl|]. split; [done|]. intros _. by exists m.
Qed.

(** *** A round of captures *)
Lemma add_paths_does files changed paths :
  does (add_paths root sha256 files changed paths) (fun t r t' =>
    let '(err, files', changed') := r in
    grows t t' /\ keeps_manifests t t'
    /\ (forall p e, files !! p = Some e -> files' !! p = Some e)
    /\ (blobs_ok t -> forall p e, files' !! p = Some e -> files !! p = Some e \/ captured t t' p e)
    /\ (err = None -> changed' = false -> files' = files /\ t' = t /\ changed = false)
    /\ (err = None -> Forall (fun p => is_abs p = true /\ is_Some (files' !! Clean p)) paths)).
Proof.
  revert files changed. induction paths as [|p paths IH]; intros files changed; cbn [add_paths].
  { does_done. split_and!; auto using ckpt_grows_refl; done. }
  destruct (is_abs p) eqn:Ha; cbn [negb]; [|does_done; subst; split_and!; auto using ckpt_grows_refl; done].
  destruct (files !! Clean p) as [e|] eqn:Ef.
  - eapply does_mono; [apply IH|]. cbv beta. intros t [[err files'] changed'] t' (H1 & Hk & H2 & H3 & H4 & H5). split_and!; try done.
    intros He. constructor; [|by apply H5]. split; [done|]. exists e. by apply H2.
  - does_with capture_does. destruct a as [err|e].
    { does_done. destruct H as (Hg & Hk & _). split_and!; try done. by auto. }
    eapply does_mono; [apply IH|]. cbv beta. intros t1 [[err files'] changed'] t2 (H1 & Hk1 & H2 & H3 & H4 & H5) (Hg & Hk & Hc). split_and!.
    + by eapply ckpt_grows_trans.
    + intros id. by rewrite Hk1.
    + intros q e' Hq. apply H2. by rewrite lookup_insert_ne by congruence.
    + intros Hok q e' Hq. destruct (H3 (gr_ok _ _ Hg Hok) q e' Hq) as [Hq'|Hq'].
      * destruct (decide (q = Clean p)) as [->|Hne]; [|rewrite lookup_insert_ne in Hq' by done; by left].
        rewrite lookup_insert_eq in Hq'. injection Hq' as ->. right. eapply captured_grows; [exact H1|exact (gr_ok _ _ Hg Hok)|exact (Hc Hok)].
      * right. eapply captured_start; [|exact Hq']. apply (gr_user _ _ Hg).
    + intros He Hch. destruct (H4 He Hch) as (_ & _ & ?). done.
    + intros He. constructor; [|by apply H5]. split; [done|]. exists e. apply H2. by rewrite lookup_insert_eq.
Qed.

Definition ck_manifest (c : Checkpoint.Checkpoint) : manifest :=
  {| mf_Version := manifestVersion; mf_ID := ck_id c; mf_Created := ck_created c; mf_Files := ck_files c |}.

(** The manifest on disk says what the checkpoint holds. *)
Definition saved (t : tree) (c : Checkpoint.Checkpoint) : Prop :=
  exists raw m, encode (ck_manifest c) = inr raw /\ t !! manifest_key (ck_id c) = Some (NFile {| f_content := raw; f_mode := m |}).

Lemma save_does c :
  does (save root encode c) (fun t r t' => grows t t' /\ match r with None => saved t' c | Some _ => keeps_manifests t t' end).
Proof.
  unfold save. fold (ck_manifest c). destruct (encode (ck_manifest c)) as [err|raw] eqn:He; [does_done; subst; split; [apply ckpt_grows_refl|done]|].
  eapply does_mono; [apply write_rename_does|]. cbv beta. intros t [err|] t' ->; [split; [apply ckpt_grows_refl|done]|].
  split; [apply put_manifest_grows|]. exists raw, 420%Z. by rewrite lookup_insert_eq.
Qed.

(** A round that succeeds found nothing new or has written the manifest; one
    that fails keeps what it captured in memory and leaves the manifest. *)
Lemma Add_does c paths :
  does (Add c paths) (fun t r t' =>
    let '(err, c') := r in
    ck_id c' = ck_id c /\ grows t t'
    /\ (forall p e, ck_files c !! p = Some e -> ck_files c' !! p = Some e)
    /\ (blobs_ok t -> forall p e, ck_files c' !! p = Some e -> ck_files c !! p = Some e \/ captured t t' p e)
    /\ match err with
       | None => (c' = c /\ t' = t \/ saved t' c') /\ Forall (fun p => is_abs p = true /\ is_Some (ck_files c' !! Clean p)) paths
       | Some _ => keeps_manifests t t'
       end).
Proof.
  unfold Checkpoint.Add. does_with add_paths_does. destruct a as [[err files'] changed']. destruct err as [err|].
  { does_done. subst. destruct H as (H1 & Hk & H2 & H3 & _). split_and!; done. }
  destruct changed'.
  - does_with save_does. does_done. destruct H as [Hg Hs], H0 as (H1 & Hk & H2 & H3 & _ & H5). cbn. split_and!; try done.
    + by eapply ckpt_grows_trans.
    + intros Hok p e He. destruct (H3 Hok p e He) as [?|Hc]; [by left|right]. eapply captured_grows; [exact Hg|exact (gr_ok _ _ H1 Hok)|exact Hc].
    + destruct a as [err|]; [intros id; by rewrite Hs|]. split; [right; exact Hs|by apply H5].
  - does_done. destruct H as (H1 & Hk & H2 & H3 & H4 & H5). destruct (H4 eq_refl eq_refl) as (-> & -> & _). cbn. split_and!; try done.
    + left. split; [|done]. by destruct c.
    + by apply H5.
Qed.

(** ** Turns *)

(** The tree, the turn's checkpoint, and whether a capture has failed without
    one after it that captured more: what was captured may then not be in the
    manifest. *)
Record turn := { tn_tree : tree; tn_ck : Checkpoint.Checkpoint; tn_failed : bool }.

Definition failed_after (err : option error) (c c' : Checkpoint.Checkpoint) (failed : bool) : bool :=
  match err with
  | Some _ => true
  | None => if decide (ck_files c' = ck_files c) then failed else false
  end.

(** A call's files are captured, under the checkpoint's lock, which may fail
    at any path or when the manifest is written; or a call writes, changes or
    removes a file that has been captured. *)
Inductive undo_turn_step : turn -> turn -> Prop :=
| TsCapture c paths w err c' w' failed :
    Add c paths w = ((err, c'), w') ->
    undo_turn_step {| tn_tree := fs_tree w; tn_ck := c; tn_failed := failed |}
                   {| tn_tree := fs_tree w'; tn_ck := c'; tn_failed := failed_after err c c' failed |}
| TsWrite t c failed p n :
    is_Some (ck_files c !! p) ->
    undo_turn_step {| tn_tree := t; tn_ck := c; tn_failed := failed |} {| tn_tree := update t (p, n); tn_ck := c; tn_failed := failed |}.

(** The manifest on disk: none, or one with part of what was captured, all of
    it unless a capture failed. *)
Definition on_disk (t : tree) (c : Checkpoint.Checkpoint) (failed : bool) : Prop :=
  t !! manifest_key (ck_id c) = None /\ (failed = false -> ck_files c = ∅)
  \/ exists cs, saved t cs /\ ck_id cs = ck_id c /\ ck_files cs ⊆ ck_files c /\ (failed = false -> ck_files cs = ck_files c).

Record turn_inv (t0 : tree) (tn : turn) : Prop := {
  ti_other : forall p, ck_files (tn_ck tn) !! p = None -> tn_tree tn !! at_path p = t0 !! at_path p;
  ti_captured : forall p e, ck_files (tn_ck tn) !! p = Some e -> captured t0 (tn_tree tn) p e;
  ti_blobs : blobs_ok (tn_tree tn);
  ti_disk : on_disk (tn_tree tn) (tn_ck tn) (tn_failed tn);
}.

Lemma saved_kept t t' c : t' !! manifest_key (ck_id c) = t !! manifest_key (ck_id c) -> saved t c -> saved t' c.
Proof. intros H (raw & m & He & Hm). exists raw, m. by rewrite H. Qed.

Lemma on_disk_kept t t' c failed : t' !! manifest_key (ck_id c) = t !! manifest_key (ck_id c) -> on_disk t c failed -> on_disk t' c failed.
Proof.
  intros H [[Ht Hf]|(cs & Hs & Hid & Hsub & Hf)]; [left; by rewrite H|]. right. exists cs. split_and!; try done.
  eapply saved_kept; [|exact Hs]. by rewrite Hid.
Qed.

Lemma on_disk_failed t c c' failed : ck_id c' = ck_id c -> ck_files c ⊆ ck_files c' -> on_disk t c failed -> on_disk t c' true.
Proof.
  intros Hid Hsub [[Ht _]|(cs & Hs & Hid' & Hsub' & _)]; [left; by rewrite Hid|]. right. exists cs. split_and!; [done|congruence|by etrans|done].
Qed.

Lemma at_path_inj p q : at_path p = at_path q -> p = q.
Proof. by intros [=]. Qed.

Lemma update_root t p n k : fst k = root -> update t (p, n) !! k = t !! k.
Proof. intros Hk. apply update_ne. by eapply root_key_ne. Qed.

Lemma on_disk_add c paths w err c' w' failed :
  Add c paths w = ((err, c'), w') -> on_disk (fs_tree w) c failed -> on_disk (fs_tree w') c' (failed_after err c c' failed).
Proof.
  intros Hadd Hd. pose proof (Add_does c paths w) as H. rewrite Hadd in H. cbn in H. destruct H as (Hid & _ & Hkeep & _ & Hsv).
  destruct err as [err|]; cbn [failed_after].
  - eapply on_disk_failed; [exact Hid|by apply map_subseteq_spec|]. eapply on_disk_kept; [|exact Hd]. apply Hsv.
  - destruct Hsv as [[[-> Ht]|Hsv] _]; [rewrite decide_True by done; by rewrite Ht|]. right. by exists c'.
Qed.

Lemma turn_inv_step t0 a b : turn_inv t0 a -> undo_turn_step a b -> turn_inv t0 b.
Proof.
  intros [Ho Hc Hb Hs] Hstep. destruct Hstep as [c paths w err c' w' failed Hadd|t c failed p n Hp]; cbn in Ho, Hc, Hb, Hs.
  - pose proof (Add_does c paths w) as H. rewrite Hadd in H. cbn in H. destruct H as (_ & Hg & Hkeep & Hnew & _). specialize (Hnew Hb).
    split; cbn.
    + intros p Hp. rewrite (gr_user _ _ Hg). apply Ho. destruct (ck_files c !! p) eqn:E; [|done]. apply Hkeep in E. congruence.
    + intros p e He. destruct (ck_files c !! p) as [e0|] eqn:E.
      * rewrite (Hkeep _ _ E) in He. injection He as <-. eapply captured_grows; [exact Hg|done|by apply Hc].
      * destruct (Hnew p e He) as [?|Hcap]; [congruence|]. eapply captured_start; [|exact Hcap]. by apply Ho.
    + by apply (gr_ok _ _ Hg).
    + by eapply on_disk_add.
  - split; cbn [tn_tree tn_ck tn_failed].
    + intros q Hq. rewrite update_ne; [by apply Ho|]. cbn. intros ->%at_path_inj. rewrite Hq in Hp. by destruct Hp.
    + intros q e He. specialize (Hc q e He). unfold captured in *. destruct (en_Kind e); try done.
      destruct Hc as (f & m & H1 & H2 & H3 & H4). exists f, m. by rewrite update_root.
    + intros c' m Hm. rewrite update_root in Hm by done. by apply Hb.
    + eapply on_disk_kept; [|exact Hs]. by rewrite update_root.
Qed.

(** The captures the manifest on disk names. *)
Definition manifest_files (t : tree) (id : string) : gmap string entry :=
  match t !! manifest_key id with
  | Some (NFile f) => match decode (f_content f) with inr m => mf_Files m | inl _ => ∅ end
  | _ => ∅
  end.

Lemma saved_files t c : saved t c -> manifest_files t (ck_id c) = ck_files c.
Proof. intros (raw & m & He & Ht). unfold manifest_files. rewrite Ht. cbn. by destruct (codec _ _ He) as [_ ->]. Qed.

Lemma Load_does t c : saved t c -> does (Load root probe_version decode (ck_id c)) (fun t1 r t2 => t2 = t1 /\ (t1 = t -> match r with inr c' => c' = c | inl _ => True end)).
Proof.
  intros (raw & m & Henc & Ht). unfold Load. does_with fs_ReadFile_does. destruct a as [err|data]; does_done; [tidy; done|].
  destruct H as (-> & f & Hf & <-). split; [done|]. intros ->. rewrite Ht in Hf. injection Hf as <-. cbn. unfold read_manifest.
  destruct (codec _ _ Henc) as [Hp Hd]. rewrite Hp. cbn. rewrite Hd. by destruct c.
Qed.

Lemma Load_none t id :
  t !! manifest_key id = None ->
  does (Load root probe_version decode id) (fun t1 r t2 => t2 = t1 /\ (t1 = t -> exists err, r = inl err)).
Proof.
  intros Ht. unfold Load. does_with fs_ReadFile_does. destruct a as [err|data]; does_done; [tidy; split; [done|]; intros _; by eexists|].
  destruct H as (-> & f & Hf & _). split; [done|]. intros ->. congruence.
Qed.

(** What the turn found at a path, with the mode that is put back: a mode of
    zero is taken for one that was not recorded. *)
Definition start_again (t0 t : tree) (p : string) : option node :=
  match t0 !! at_path p with
  | Some (NFile f) => Some (NFile {| f_content := f_content f;
      f_mode := if (f_mode f =? 0)%Z then default 420%Z (now_mode (t !! at_path p)) else f_mode f |})
  | n => n
  end.

(** A captured path that is not refused goes back to what the turn found. *)
Lemma restored_start t0 t p e : captured t0 t p e -> refused_at t p e = false -> restored_at t p e = start_again t0 t p.
Proof.
  intros Hcap Href. unfold Undo.restored_at. rewrite Href. unfold captured in Hcap. unfold refused_at in Href. unfold start_again.
  destruct (en_Kind e) eqn:Ek; [|by rewrite Hcap|by destruct (t !! at_path p) as [[]|]|done].
  destruct Hcap as (f & m & Hf & Hm & Hh & Hb). rewrite Hb, Hf. cbn. unfold restore_mode. by rewrite Hm.
Qed.

Lemma captured_refused t0 t p e :
  captured t0 t p e -> refused_at t p e = true -> exists m, t !! at_path p = Some (NOther m) \/ t0 !! at_path p = Some (NOther m).
Proof.
  unfold captured, refused_at. destruct (t !! at_path p) as [[f|m]|]; [|by exists m; left|]; destruct (en_Kind e); try done;
    intros [m Hm] _; exists m; by right.
Qed.

(** What a restore from the end of the turn did to each path. *)
Lemma ran_part t0 t cs r tx :
  (forall p e, ck_files cs !! p = Some e -> captured t0 t p e) ->
  restore_ran cs t r tx -> forall p, tx !! at_path p = t !! at_path p \/ tx !! at_path p = start_again t0 t p.
Proof.
  intros Hcap Hran p. destruct (ck_files cs !! p) as [en|] eqn:E.
  - destruct (ran_at root root_named _ _ _ _ _ _ Hran E) as [H|H]; [by left|]. destruct (refused_at t p en) eqn:Er.
    + left. rewrite H. unfold Undo.restored_at. by rewrite Er.
    + right. rewrite H. apply restored_start; auto.
  - left. eapply (ran_other root root_named); [exact Hran|]. intros q en Hq ->%at_path_inj. congruence.
Qed.

Lemma ran_whole t0 t cs res tx :
  (forall p e, ck_files cs !! p = Some e -> captured t0 t p e) ->
  restore_ran cs t (res, None) tx -> forall p,
  (ck_files cs !! p = None -> tx !! at_path p = t !! at_path p)
  /\ (p ∉ List.map rf_Path (rr_Refused res) -> is_Some (ck_files cs !! p) -> tx !! at_path p = start_again t0 t p)
  /\ (p ∈ List.map rf_Path (rr_Refused res) -> is_Some (ck_files cs !! p) /\ tx !! at_path p = t !! at_path p
        /\ exists m, t !! at_path p = Some (NOther m) \/ t0 !! at_path p = Some (NOther m)).
Proof.
  intros Hcap Hran p. pose proof Hran as (us1 & us2 & _ & _ & Hd). destruct (Hd eq_refl) as (_ & _ & _ & Href). cbn in Href. split_and!.
  - intros E. eapply (ran_other root root_named); [exact Hran|]. intros q en Hq ->%at_path_inj. congruence.
  - intros Hp [en E]. rewrite (ran_done root root_named _ _ _ _ _ _ Hran eq_refl E). apply restored_start; [by apply Hcap|].
    destruct (refused_at t p en) eqn:Er; [|done]. exfalso. apply Hp, Href. by exists en.
  - intros (en & He & Hr)%Href. split; [by exists en|]. split; [|eapply captured_refused; eauto].
    rewrite (ran_done root root_named _ _ _ _ _ _ Hran eq_refl He). unfold Undo.restored_at. by rewrite Hr.
Qed.

(** C7: Undoing a turn.  In a turn, however its calls interleave, files are
    captured before they are written; a round of captures may fail at any file
    or when it writes the manifest, and the turn goes on.  When no round failed
    since the last one that captured anything, the manifest names every file
    captured.  /undo then reports success only when every file that the
    manifest names is back to what it was when the turn started, content and
    mode (a file recorded without permissions takes those of the file that is
    there, or 0644), apart from the paths it names as refused, which are or
    were no regular files and which it leaves alone.  Files that were captured
    and that no manifest names are left as the turn left them; every other
    file was never changed.  When it fails on the way, every file is as the
    turn left it or as it was when the turn started.  The checkpoint is a new
    one: nothing is captured and no manifest has its name yet.  Calls change
    no file but those they declared, digests do not collide, the codec of
    manifests reads back what it writes, and no proposer of offsets, whose
    calls may change files after the restore, is wired. *)
Theorem undo_turn t0 c0 t c failed bare e approve call :
  ck_files c0 = ∅ -> t0 !! manifest_key (ck_id c0) = None -> blobs_ok t0 ->
  star undo_turn_step {| tn_tree := t0; tn_ck := c0; tn_failed := false |} {| tn_tree := t; tn_ck := c; tn_failed := failed |} ->
  let named := manifest_files t (ck_id c) in
  (failed = false -> named = ck_files c)
  /\ does (undo_id root probe_version decode None approve call bare (ck_id c) e) (fun t1 r t2 => t1 = t ->
    match fst r with
    | inl _ => forall p, t2 !! at_path p = t !! at_path p \/ t2 !! at_path p = start_again t0 t p
    | inr report => exists res, report = undoReport (ex_unreversed e) c res /\ forall p,
        (ck_files c !! p = None -> t2 !! at_path p = t0 !! at_path p)
        /\ (is_Some (ck_files c !! p) -> named !! p = None -> t2 !! at_path p = t !! at_path p)
        /\ (p ∉ List.map rf_Path (rr_Refused res) -> is_Some (named !! p) -> t2 !! at_path p = start_again t0 t p)
        /\ (p ∈ List.map rf_Path (rr_Refused res) -> is_Some (named !! p) /\ t2 !! at_path p = t !! at_path p
              /\ exists m, t !! at_path p = Some (NOther m) \/ t0 !! at_path p = Some (NOther m))
    end).
Proof.
  intros Hc0 Hfresh Hb0 Hrun named.
  assert (turn_inv t0 {| tn_tree := t; tn_ck := c; tn_failed := failed |}) as [Ho Hcap Hb Hs].
  { eapply (star_invariant undo_turn_step); [intros a b; by apply turn_inv_step|exact Hrun|]. split; cbn; try done; [rewrite Hc0; done|by left]. }
  cbn in Ho, Hcap, Hb, Hs. subst named. destruct Hs as [[Hnone Hf]|(cs & Hs & Hid & Hsub & Hf)].
  { split; [intros ->; unfold manifest_files; by rewrite Hnone, (Hf eq_refl)|]. unfold undo_id. does_with (Load_none t (ck_id c) Hnone). destruct a as [err|c'].
    - does_done. destruct H as [-> _]. subst. intros p. by left.
    - does_with Restore_does. destruct a as [res [err|]]; [does_done; destruct H0 as [_ H0]; by destruct (H0 H1)|].
      cbn [offerProposals]. eapply does_bind; [apply (does_ret "" (fun t r t' => True)); done|]. cbv beta. intros t4 extra. does_done.
      destruct H1 as [_ H1]. by destruct (H1 H2). }
  rewrite <- Hid, (saved_files t cs Hs). split; [done|].
  assert (forall p en, ck_files cs !! p = Some en -> captured t0 t p en) as Hcs.
  { intros p en He. apply Hcap. by eapply lookup_weaken. }
  unfold undo_id. does_with (Load_does t cs Hs). destruct a as [err|c'].
  { does_done. destruct H as [-> _]. subst. intros p. by left. }
  does_with Restore_does. destruct a as [res [err|]].
  - does_done. destruct H0 as [-> Hc']. specialize (Hc' H1). subst. cbn. by eapply ran_part.
  - cbn [offerProposals]. eapply does_bind; [apply (does_ret "" (fun t r t' => r = "" /\ t' = t)); done|]. cbv beta. intros t4 extra. does_done.
    destruct H as [-> ->]. destruct H1 as [-> Hc']. specialize (Hc' H2). subst. cbn. exists res.
    split; [rewrite app_empty_r; unfold undoReport; by rewrite Hid|]. intros p. destruct (ran_whole t0 t cs res _ Hcs H0 p) as (H1 & H3 & H4).
    split_and!; [|intros _; exact H1|exact H3|exact H4]. intros E. rewrite H1; [by apply Ho|]. by eapply lookup_weaken_None.
Qed.
End Turns.

(** ** Concrete runs *)
Definition demo_sha (c : string) : string := "x" +:+ c.

Definition demo_file (c : string) : node := NFile {| f_content := c; f_mode := 420 |}.
Definition demo_start : tree := {[ at_path "/w/a" := demo_file "old" ]}.
Definition demo_empty : Checkpoint.Checkpoint := {| ck_id := "turn-1-s"; ck_created := 7; ck_files := ∅ |}.

Definition demo_captured : Checkpoint.Checkpoint :=
  {| ck_id := "turn-1-s"; ck_created := 7;
     ck_files := <["/w/b" := {| en_Hash := ""; en_Kind := KindAbsent; en_Mode := 0 |}]>
       (<["/w/a" := {| en_Hash := content_hash demo_sha "old"; en_Kind := KindRegular; en_Mode := 420 |}]> ∅) |}.

Definition demo_encode (m : manifest) : result string :=
  if decide (m = ck_manifest demo_captured) then inr "M" else inl (EText "other").
Definition demo_probe (raw : string) : result Z := inr 1%Z.
Definition demo_decode (raw : string) : result manifest := inr (ck_manifest demo_captured).

Lemma demo_codec m raw : demo_encode m = inr raw -> demo_probe raw = inr (mf_Version m) /\ demo_decode raw = inr m.
Proof. unfold demo_encode. case_decide as H; [|done]. intros _. subst m. done. Qed.

Lemma demo_sha_inj c c' : demo_sha c = demo_sha c' -> c = c'.
Proof. by intros [=]. Qed.

Definition calm (t : tree) : FS := {| fs_tree := t; fs_faults := [] |}.
Definition demo_add (c : Checkpoint.Checkpoint) (paths : list string) (t : tree) := Checkpoint.Add "/ckpt" demo_sha demo_encode c paths (calm t).

Definition demo_after_add : tree := fs_tree (demo_add demo_empty ["/w/a"; "/w/./b"] demo_start).2.
Definition demo_end : tree := update (update demo_after_add ("/w/a", Some (demo_file "new"))) ("/w/b", Some (demo_file "b")).

Definition demo_undo (t : tree) := undo_id "/ckpt" demo_probe demo_decode None None None true (ck_id demo_captured) ext_start (calm t).

Lemma demo_run : star (undo_turn_step "/ckpt" demo_sha demo_encode)
  {| tn_tree := demo_start; tn_ck := demo_empty; tn_failed := false |} {| tn_tree := demo_end; tn_ck := demo_captured; tn_failed := false |}.
Proof.
  assert (false = failed_after None demo_empty demo_captured false) as E by (vm_compute; reflexivity).
  eapply star_step.
  { apply (TsCapture "/ckpt" demo_sha demo_encode demo_empty ["/w/a"; "/w/./b"] (calm demo_start) None demo_captured (calm demo_after_add)). vm_compute. reflexivity. }
  rewrite <- E. eapply star_step; [apply (TsWrite _ _ _ _ _ _ "/w/a" (Some (demo_file "new"))); by eexists|].
  eapply star_step; [apply (TsWrite _ _ _ _ _ _ "/w/b" (Some (demo_file "b"))); by eexists|]. apply star_refl.
Qed.

Lemma undo_turn_witness :
  match (demo_undo demo_end).1.1 with
  | inl _ => False
  | inr report => exists res, report = undoReport [] demo_captured res
      /\ (forall p, ck_files demo_captured !! p = None -> fs_tree (demo_undo demo_end).2 !! at_path p = demo_start !! at_path p)
      /\ (forall p, p ∉ List.map rf_Path (rr_Refused res) -> is_Some (ck_files demo_captured !! p) ->
            fs_tree (demo_undo demo_end).2 !! at_path p = start_again demo_start demo_end p)
  end.
Proof.
  assert (exists report, (demo_undo demo_end).1.1 = inr report) as [report Hr] by (eexists; vm_compute; reflexivity).
  pose proof (undo_turn "/ckpt" demo_sha demo_encode demo_probe demo_decode ltac:(done) demo_sha_inj ltac:(done) demo_codec
    demo_start demo_empty demo_end demo_captured false true ext_start None None eq_refl) as H.
  assert (blobs_ok "/ckpt" demo_sha demo_start) as Hb.
  { intros c n Hn. unfold demo_start in Hn. by apply lookup_singleton_Some in Hn as [? _]. }
  assert (demo_start !! manifest_key "/ckpt" (ck_id demo_empty) = None) as Hfresh by (vm_compute; reflexivity).
  specialize (H Hfresh Hb demo_run) as [Hn H]. specialize (H (calm demo_end) eq_refl). rewrite (Hn eq_refl) in H.
  fold (demo_undo demo_end) in H. rewrite Hr in H |- *.
  destruct H as (res & Hres & Hback). exists res. split; [exact Hres|]. split; intros p; destruct (Hback p) as (H1 & _ & H3 & _); assumption.
Defined.

Lemma restore_exact_witness :
  let r := Checkpoint.Restore "/ckpt" demo_captured (calm demo_end) in
  snd r.1 = None
  /\ fs_tree r.2 !! at_path "/w/unrelated" = demo_end !! at_path "/w/unrelated"
  /\ fs_tree r.2 !! at_path "/w/b"
     = restored_at "/ckpt" demo_end "/w/b" {| en_Hash := ""; en_Kind := KindAbsent; en_Mode := 0 |}.
Proof.
  pose proof (restore_exact "/ckpt" ltac:(done) demo_captured (calm demo_end)) as (Hout & _ & Hdone & _).
  split_and!; [vm_compute; reflexivity| |].
  - apply Hout. intros p e Hp [= <-]. revert Hp. vm_compute. discriminate.
  - apply Hdone; vm_compute; reflexivity.
Defined.

(** A round of captures that fails keeps in memory what it had captured, so
    when the call is made again for those files alone there is nothing new,
    the manifest is not written, and the call goes on with no way back. *)
Lemma failed_add_loses_capture :
  let r1 := demo_add demo_empty ["/w/a"; "rel"] demo_start in
  let c1 := r1.1.2 in
  let r2 := demo_add c1 ["/w/a"] (fs_tree r1.2) in
  is_Some r1.1.1 /\ r2.1 = (None, c1) /\ is_Some (ck_files c1 !! "/w/a")
  /\ fs_tree r2.2 !! manifest_key "/ckpt" "turn-1-s" = None
  /\ exists msg, (undo_id "/ckpt" demo_probe demo_decode None None None true "turn-1-s" ext_start r2.2).1.1 = inl (EText msg).
Proof. cbn zeta. split_and!; [vm_compute; by eexists|vm_compute; reflexivity|vm_compute; by eexists|vm_compute; reflexivity|eexists; vm_compute; reflexivity]. Qed.

(** A captured file without permissions that was deleted comes back readable
    to all: its mode is taken for one that was not recorded. *)
Lemma mode_zero_widened :
  restore_mode {| en_Hash := content_hash demo_sha "secret"; en_Kind := KindRegular; en_Mode := 0 |} None = 420%Z.
Proof. reflexivity. Qed.

(** One path that cannot be inspected keeps every other from being restored. *)
Lemma one_path_blocks_restore :
  let r := Checkpoint.Restore "/ckpt" demo_captured {| fs_tree := demo_end; fs_faults := [None; None; None; None; None; None; None; Some (FaultOther "not a directory")] |} in
  is_Some r.1.2 /\ fs_tree r.2 !! at_path "/w/a" = Some (demo_file "new").
Proof. vm_compute. split; [by eexists|reflexivity]. Qed.

(** The calls that could not be undone are forgotten when the next turn
    starts: an /undo then restores the turn that made them and does not
    mention them. *)
Definition gap_info (depth : AgentPath) (name : string) : ToolCallInfo :=
  {| ti_Step := 0; ti_Call := {| tc_ID := "1"; tc_Name := name; tc_Args := "{}" |}; ti_Scope := ScopeFrom depth None None;
     ti_ReadOnly := false; ti_Destructive := true; ti_Idempotent := false; ti_Class := None |}.

Definition after_gap : Extension := record (gap_info [] "create_issue") (TurnStart ext_start).

Lemma next_turn_hides_gaps :
  (undo_id "/ckpt" demo_probe demo_decode None None None true "turn-1-s" after_gap (calm demo_end)).1.1
    = inr ("turn-1-s: 2 file(s) restored" +:+ newline +:+ newline +:+ "1 call(s) had no reverser and were NOT undone:"
           +:+ newline +:+ "  create_issue {}")
  /\ (undo_id "/ckpt" demo_probe demo_decode None None None true "turn-1-s" (TurnStart after_gap) (calm demo_end)).1.1
    = inr "turn-1-s: 2 file(s) restored".
Proof. split; vm_compute; reflexivity. Qed.

(** A sub-agent's write is not captured: the call of a declared tool goes
    straight to the tool, the turn's checkpoint and the list of calls without
    a way back stay as they were. *)
Definition write_b : fsm call_out := fun w => ((None, None), calm (update (fs_tree w) ("/w/a", Some (demo_file "child")))).

Lemma child_writes_not_captured :
  let r := ckpt_wrap "/ckpt" demo_sha demo_encode demo_probe demo_decode unit tt (fun _ => inr tt) {["write_file" := fun _ => ["/w/a"]]} "s" 7
             (gap_info (path_Child [] "helper") "write_file") write_b (TurnStart ext_start) (calm demo_start) in
  r.1.2 = TurnStart ext_start /\ fs_tree r.2 = update demo_start ("/w/a", Some (demo_file "child"))
  /\ is_Some (ex_current (ckpt_wrap "/ckpt" demo_sha demo_encode demo_probe demo_decode unit tt (fun _ => inr tt) {["write_file" := fun _ => ["/w/a"]]} "s" 7
             (gap_info [] "write_file") write_b (TurnStart ext_start) (calm demo_start)).1.2).
Proof. cbn zeta. split_and!; [vm_compute; reflexivity|vm_compute; reflexivity|vm_compute; by eexists]. Qed.
