(* ===== verification/Session.v ===== *)
(** * The session: src/host/persistence.go, steer.go, sessionstate.go, contextpipeline.go

    What a surface talks to: an [App] that runs turns one at a time over a
    history, keeps each completed turn in a run store, takes input while a
    turn is running, and can attach to, resume and fork runs
    (src/host/app.go: [RunTurnWith], [runOneTurn]; src/host/events.go:
    [runProactiveTurn]; src/host/extension.go: the per-turn hooks).

    Everything a turn does holds [turnMu], so an operation is a function of
    the App.  What runs inside a turn (the Runner or the Team, and the hooks
    of extensions) acts on a world [W] and on the queue of steers, which other
    goroutines fill while it runs.  A store is a record of operations on its
    own state [Store], with the laws its clients rely on; the in-memory store of
    RunStore.v is one.  [None] is a panic. *)

From S2P Require Import Prelude GoStr Errors Json Provider TreeBudget Middleware Events Compaction StepStage.
From S2P Require Import RunStore Triggers Runner SubAgents FuncSource Memory Team Injection SkillGrants.
Local Open Scope Z_scope.

(** ** Steers *)

Record steerQueue := { sq_active : bool; sq_queue : list string }.

Definition steer_begin (q : steerQueue) : steerQueue := {| sq_active := true; sq_queue := sq_queue q |}.

Definition steer_offer (input : string) (q : steerQueue) : bool * steerQueue :=
  if sq_active q then (true, {| sq_active := true; sq_queue := sq_queue q ++ [input] |}) else (false, q).

Definition steer_take (q : steerQueue) : list string * steerQueue :=
  (sq_queue q, {| sq_active := sq_active q; sq_queue := [] |}).

Definition steer_end (q : steerQueue) : list string * steerQueue :=
  (sq_queue q, {| sq_active := false; sq_queue := [] |}).

Definition joinSteers (steers : list string) : string := str_join (newline +:+ newline) steers.

(** ** The store a session keeps its runs in *)

Record RunStore {Ctx Store : Type} := {
  rs_CreateRun : Ctx -> Time -> string -> Store -> result CreateRunResponse * Store;
  rs_AppendMessages : Ctx -> Time -> string -> list Message -> Store -> result bool * Store;
  rs_AppendEvents : Ctx -> string -> list Event -> Store -> result bool * Store;
  rs_LoadRun : Ctx -> string -> Store -> result (option RunStore.Run);
  rs_ForkRun : Ctx -> Time -> string -> string -> Z -> Store -> result ForkRunResponse * Store;
  rs_ListRuns : Ctx -> string -> Z -> Store -> option (result ListRunsResponse);
}.
Arguments RunStore : clear implicits.

(** ** What the host announces

    The kinds a session announces itself; [HostOther] stands for the rest. *)
Inductive HostEvent :=
| HostRunnerEvent (e : Event)
| HostSubAgentEvent (e : SubAgentEvent)
| HostHandoff (from to : string)
| HostUserInput (msg label : string)
| HostTurnDone (res : TurnResult)
| HostTurnFailed (err : string)
| HostSessionChanged (runID : string)
| HostSessionWarn (err : string)
| HostTriggerFired (label : string)
| HostMessage (msg : string)
| HostElicitRequest (req : string) (askID : Z)
| HostElicitResolved (askID : Z) (by_ : string)
| HostOther (kind : string).

(** ** Context stages *)

(** A stage acts on the state [St] its closure holds. *)
Record ContextStage {Ctx St : Type} := {
  cst_Name : string;
  cst_Run : Ctx -> list Message -> St -> option (list Message * St);
}.
Arguments ContextStage : clear implicits.

Fixpoint run_stages {Ctx St} (stages : list (ContextStage Ctx St)) (ctx : Ctx) (out : list Message) (s : St)
    : option (list Message * St) :=
  match stages with
  | [] => Some (out, s)
  | st :: stages => '(out, s) ← cst_Run st ctx out s; run_stages stages ctx out s
  end.

Definition runDurable {Ctx St} (stages : list (ContextStage Ctx St)) (ctx : Ctx) (prior : list Message) (user : Message)
    (s : St) : option (list Message * St) :=
  '(out, s) ← run_stages stages ctx prior s; Some (out ++ [user], s).

(** The copy is a value here: [out] starts as [history]. *)
Definition runTransient {Ctx St} (stages : list (ContextStage Ctx St)) (ctx : Ctx) (history : list Message) (s : St)
    : option (list Message * St) :=
  run_stages stages ctx history s.

Definition stageNames {Ctx St St'} (durable : list (ContextStage Ctx St)) (transient : list (ContextStage Ctx St'))
    : list string := map cst_Name durable ++ map cst_Name transient.

Definition system_message (text : string) : Message := text_message RoleSystem text.

Definition weaveBeforeUser (msgs : list Message) (blocks : list string) : list Message :=
  if Nat.eqb (length blocks) 0 || Nat.eqb (length msgs) 0 then msgs
  else take (length msgs - 1) msgs ++ map system_message blocks ++ drop (length msgs - 1) msgs.

(** A producer of one block, as memory's two stages are: it sees the messages
    and reports an error or what it has, which may be nothing. *)
Definition block_stage {Ctx W} (name : string) (produce : Ctx -> list Message -> W -> result string * W)
    : ContextStage Ctx W :=
  {| cst_Name := name;
     cst_Run := fun ctx msgs w =>
       if Nat.eqb (length msgs) 0 then Some (msgs, w)
       else let '(r, w) := produce ctx msgs w in
            Some (match r with
                  | inl _ => msgs
                  | inr s => if String.eqb s "" then msgs else weaveBeforeUser msgs [s]
                  end, w) |}.

(** ** Events on their way to the store *)

Definition redact_result (r : TurnResult) : TurnResult :=
  {| res_Text := res_Text r; res_Messages := []; res_Usage := res_Usage r; res_UsageByModel := res_UsageByModel r;
     res_Steps := res_Steps r; res_FinishReason := res_FinishReason r; res_Structured := res_Structured r;
     res_StructuredError := res_StructuredError r |}.

Definition redactForPersist (e : Event) : Event :=
  match e with EventTurnEnd r => EventTurnEnd (redact_result r) | _ => e end.

Record PersistingEmit := { pe_runID : string; pe_buf : list Event }.

Definition NewPersistingEmit (runID : string) : PersistingEmit := {| pe_runID := runID; pe_buf := [] |}.

(** What [Emit] buffers; forwarding is the caller's. *)
Definition pe_Emit (e : Event) (p : PersistingEmit) : PersistingEmit :=
  {| pe_runID := pe_runID p; pe_buf := pe_buf p ++ [redactForPersist e] |}.

(** ** The App *)

Section App.
Context {Ctx W Store : Type}.

(** What a session adds to a turn: the hooks the host calls around it. *)
Record Extension := {
  ext_Name : string;
  ext_TurnStart : Ctx -> eff W HostEvent (option error);
  ext_InputTransforms : list (option (Ctx -> string -> eff W HostEvent (result string)));
  ext_TurnEnd : option (Ctx -> option TurnResult -> option error -> eff W HostEvent unit);
}.

(** What a turn runs in: the world, the steers that arrive while it runs and
    the grants of the skills it loads. *)
Definition turn_world : Type := W * steerQueue * skillGrants.

(** Who answers: the Runner, and the Team instead of it when there is one. *)
Definition single_engine := Ctx -> TurnRequest -> eff turn_world Event (option TurnResult * option error).
Definition team_engine :=
  Ctx -> list Message -> string -> eff turn_world team_event (option (option TurnResult * string * option error)).

(** What is fixed when the App is built.  [ac_mirror] is the write of
    [runIDAtomic], the part of the run id that code inside a turn can see. *)
Record AppConfig := {
  ac_store : option (RunStore Ctx Store);
  ac_extensions : list Extension;
  ac_transient : list (ContextStage Ctx W);
  ac_runner : single_engine;
  ac_team : option team_engine;
  ac_mirror : string -> W -> W;
}.

Record App := {
  ap_history : list Message;
  ap_runID : string;
  ap_cursor : string;
  ap_store : Store;
  ap_steer : steerQueue;
  ap_injection : EventInjectionPolicy;
  ap_triggers : TriggerPolicy;
  ap_grants : skillGrants;
  ap_active : string;
  ap_log : list HostEvent;
  ap_persisted : Z;
  ap_world : W;
}.

Definition with_history (h : list Message) (a : App) : App :=
  {| ap_history := h; ap_runID := ap_runID a; ap_cursor := ap_cursor a; ap_store := ap_store a; ap_steer := ap_steer a;
     ap_injection := ap_injection a; ap_triggers := ap_triggers a; ap_grants := ap_grants a; ap_active := ap_active a;
     ap_log := ap_log a; ap_persisted := ap_persisted a; ap_world := ap_world a |}.

Definition with_run (id : string) (w : W) (a : App) : App :=
  {| ap_history := ap_history a; ap_runID := id; ap_cursor := ap_cursor a; ap_store := ap_store a; ap_steer := ap_steer a;
     ap_injection := ap_injection a; ap_triggers := ap_triggers a; ap_grants := ap_grants a; ap_active := ap_active a;
     ap_log := ap_log a; ap_persisted := ap_persisted a; ap_world := w |}.

Definition with_cursor (c : string) (a : App) : App :=
  {| ap_history := ap_history a; ap_runID := ap_runID a; ap_cursor := c; ap_store := ap_store a; ap_steer := ap_steer a;
     ap_injection := ap_injection a; ap_triggers := ap_triggers a; ap_grants := ap_grants a; ap_active := ap_active a;
     ap_log := ap_log a; ap_persisted := ap_persisted a; ap_world := ap_world a |}.

Definition with_store (s : Store) (a : App) : App :=
  {| ap_history := ap_history a; ap_runID := ap_runID a; ap_cursor := ap_cursor a; ap_store := s; ap_steer := ap_steer a;
     ap_injection := ap_injection a; ap_triggers := ap_triggers a; ap_grants := ap_grants a; ap_active := ap_active a;
     ap_log := ap_log a; ap_persisted := ap_persisted a; ap_world := ap_world a |}.

Definition with_turn_world (w : W) (q : steerQueue) (a : App) : App :=
  {| ap_history := ap_history a; ap_runID := ap_runID a; ap_cursor := ap_cursor a; ap_store := ap_store a; ap_steer := q;
     ap_injection := ap_injection a; ap_triggers := ap_triggers a; ap_grants := ap_grants a; ap_active := ap_active a;
     ap_log := ap_log a; ap_persisted := ap_persisted a; ap_world := w |}.

Definition with_events (p : EventInjectionPolicy) (t : TriggerPolicy) (a : App) : App :=
  {| ap_history := ap_history a; ap_runID := ap_runID a; ap_cursor := ap_cursor a; ap_store := ap_store a;
     ap_steer := ap_steer a; ap_injection := p; ap_triggers := t; ap_grants := ap_grants a; ap_active := ap_active a;
     ap_log := ap_log a; ap_persisted := ap_persisted a; ap_world := ap_world a |}.

Definition with_grants (g : skillGrants) (a : App) : App :=
  {| ap_history := ap_history a; ap_runID := ap_runID a; ap_cursor := ap_cursor a; ap_store := ap_store a;
     ap_steer := ap_steer a; ap_injection := ap_injection a; ap_triggers := ap_triggers a; ap_grants := g;
     ap_active := ap_active a; ap_log := ap_log a; ap_persisted := ap_persisted a; ap_world := ap_world a |}.

Definition with_active (name : string) (a : App) : App :=
  {| ap_history := ap_history a; ap_runID := ap_runID a; ap_cursor := ap_cursor a; ap_store := ap_store a;
     ap_steer := ap_steer a; ap_injection := ap_injection a; ap_triggers := ap_triggers a; ap_grants := ap_grants a;
     ap_active := name; ap_log := ap_log a; ap_persisted := ap_persisted a; ap_world := ap_world a |}.

Definition with_log (l : list HostEvent) (p : Z) (a : App) : App :=
  {| ap_history := ap_history a; ap_runID := ap_runID a; ap_cursor := ap_cursor a; ap_store := ap_store a;
     ap_steer := ap_steer a; ap_injection := ap_injection a; ap_triggers := ap_triggers a; ap_grants := ap_grants a;
     ap_active := ap_active a; ap_log := l; ap_persisted := p; ap_world := ap_world a |}.

(** *** Operations as functions of the App *)

Definition M (A : Type) : Type := App -> option (A * App).

Definition m_ret {A} (x : A) : M A := fun a => Some (x, a).
Definition m_bind {A B} (m : M A) (k : A -> M B) : M B := fun a => '(x, a) ← m a; k x a.
Definition m_upd (f : App -> App) : M unit := fun a => Some (tt, f a).
Definition m_get {A} (f : App -> A) : M A := fun a => Some (f a, a).

(** An extension's hook, whose announcements reach the log as they come. *)
Definition m_hook {A} (m : eff W HostEvent A) : M A := fun a =>
  let '(x, evs, w) := m (ap_world a) in
  Some (x, with_turn_world w (ap_steer a) (with_log (ap_log a ++ evs) (ap_persisted a) a)).

Definition m_store {A} (f : Store -> A * Store) : M A := fun a =>
  let '(x, s) := f (ap_store a) in Some (x, with_store s a).
End App.
Arguments Extension : clear implicits.
Arguments AppConfig : clear implicits.
Arguments App : clear implicits.
Arguments M : clear implicits.

Declare Scope app_scope.
Delimit Scope app_scope with app.
Notation "'let+' x ':=' m 'in' k" := (m_bind m (fun x => k))
  (at level 10, x name, m at level 100, k at level 200) : app_scope.
Notation "m ';;+' k" := (m_bind m (fun _ => k)) (at level 199, right associativity) : app_scope.

Section Session.
Context {Ctx W Store : Type}.
Variables (WithoutCancel : Ctx -> Ctx) (data_field : RawJSON -> string -> option RawJSON) (ToLower : string -> string).
Variable cfg : AppConfig Ctx W Store.
Local Abbreviation M := (M W Store).
Local Open Scope app_scope.

(** What one operation reads from outside: the clock at each of its reads, and
    the order in which the drain ranges over the map of windows. *)
Record moment := { mo_drain : Time; mo_range : list string; mo_create : Time; mo_append : Time }.

Definition emit (ev : HostEvent) : M unit := m_upd (fun a => with_log (ap_log a ++ [ev]) (ap_persisted a) a).

Definition emit_error (err : error) : M unit := emit (HostTurnFailed (error_text err)).

(** ** The hooks of extensions *)

Fixpoint start_turns (exts : list (Extension Ctx W)) (ctx : Ctx) : M (option error) :=
  match exts with
  | [] => m_ret None
  | ext :: exts =>
      let+ err := m_hook (ext_TurnStart ext ctx) in
      match err with
      | Some err =>
          m_ret (Some (wrap_error ("host: extension " +:+ go_quote (ext_Name ext) +:+ " turn start: ") err))
      | None => start_turns exts ctx
      end
  end.

Definition startExtensionTurns (ctx : Ctx) : M (option error) := start_turns (ac_extensions cfg) ctx.

Fixpoint end_turns (exts : list (Extension Ctx W)) (ctx : Ctx) (res : option TurnResult) (err : option error) : M unit :=
  match exts with
  | [] => m_ret tt
  | ext :: exts =>
      match ext_TurnEnd ext with
      | Some f => m_hook (f ctx res err) ;;+ end_turns exts ctx res err
      | None => end_turns exts ctx res err
      end
  end.

Definition endExtensionTurns (ctx : Ctx) (res : option TurnResult) (err : option error) : M unit :=
  end_turns (ac_extensions cfg) ctx res err.

Fixpoint transform_with (name : string) (fns : list (option (Ctx -> string -> eff W HostEvent (result string))))
    (ctx : Ctx) (input : string) : M (result string) :=
  match fns with
  | [] => m_ret (inr input)
  | None :: fns => transform_with name fns ctx input
  | Some fn :: fns =>
      let+ r := m_hook (fn ctx input) in
      match r with
      | inl err => m_ret (inl (wrap_error ("host: extension " +:+ go_quote name +:+ " input transform: ") err))
      | inr out => transform_with name fns ctx out
      end
  end.

Fixpoint transform_exts (exts : list (Extension Ctx W)) (ctx : Ctx) (input : string) : M (result string) :=
  match exts with
  | [] => m_ret (inr input)
  | ext :: exts =>
      let+ r := transform_with (ext_Name ext) (ext_InputTransforms ext) ctx input in
      match r with inl err => m_ret (inl err) | inr out => transform_exts exts ctx out end
  end.

Definition transformInput (ctx : Ctx) (input : string) : M (result string) :=
  transform_exts (ac_extensions cfg) ctx input.

(** ** The active run *)

Definition setRunID (id : string) : M unit := m_upd (fun a => with_run id (ac_mirror cfg id (ap_world a)) a).

Definition no_store : error := EText "host: no RunStore configured".

Definition run_not_found (id : string) : error := EText ("host: run " +:+ go_quote id +:+ " not found").

Definition disappeared (id : string) : string := "run " +:+ go_quote id +:+ " disappeared from the store".

Definition resumeLocked (st : RunStore Ctx Store) (ctx : Ctx) (id : string) : M (option error) :=
  let+ s := m_get ap_store in
  match rs_LoadRun st ctx id s with
  | inl err => m_ret (Some (wrap_error ("host: loading run " +:+ go_quote id +:+ ": ") err))
  | inr None => m_ret (Some (run_not_found id))
  | inr (Some r) => m_upd (with_history (run_Messages r)) ;;+ setRunID id ;;+ m_ret None
  end.

Definition Resume (ctx : Ctx) (id : string) : M (option error) :=
  match ac_store cfg with
  | None => m_ret (Some no_store)
  | Some st => resumeLocked st ctx id
  end.

Definition AttachRun (ctx : Ctx) (mo : moment) (id : string) : M (option error) :=
  match ac_store cfg with
  | None => m_ret (Some no_store)
  | Some st =>
      let+ r := m_store (rs_CreateRun st ctx (mo_create mo) id) in
      match r with
      | inl err => m_ret (Some (wrap_error ("host: attaching run " +:+ go_quote id +:+ ": ") err))
      | inr resp =>
          if cr_Created resp then setRunID (cr_RunID resp) ;;+ m_upd (with_history []) ;;+ m_ret None
          else resumeLocked st ctx id
      end
  end.

Definition Fork (ctx : Ctx) (mo : moment) (newRunID : string) (atMessage : Z) : M (string * option error) :=
  match ac_store cfg with
  | None => m_ret ("", Some no_store)
  | Some st =>
      let+ id := m_get ap_runID in
      if String.eqb id "" then
        m_ret ("", Some (EText "host: no active run to fork (run at least one turn first)"))
      else
        let+ r := m_store (rs_ForkRun st ctx (mo_create mo) id newRunID atMessage) in
        match r with
        | inl err => m_ret ("", Some (wrap_error ("host: forking run " +:+ go_quote id +:+ ": ") err))
        | inr resp =>
            if negb (fr_Found resp) then m_ret ("", Some (run_not_found id))
            else if negb (fr_Created resp) then
              m_ret ("", Some (EText ("host: run " +:+ go_quote newRunID +:+ " already exists")))
            else if 0 <? atMessage then
              let+ err := resumeLocked st ctx (fr_RunID resp) in m_ret (fr_RunID resp, err)
            else setRunID (fr_RunID resp) ;;+ m_ret (fr_RunID resp, None)
        end
  end.

Definition ensureRunLocked (st : RunStore Ctx Store) (ctx : Ctx) (mo : moment) : M (option error) :=
  let+ id := m_get ap_runID in
  if negb (String.eqb id "") then m_ret None
  else
    let+ r := m_store (rs_CreateRun st ctx (mo_create mo) "") in
    match r with
    | inl err => m_ret (Some (wrap_error "host: creating run: " err))
    | inr resp => setRunID (cr_RunID resp) ;;+ emit (HostSessionChanged (cr_RunID resp)) ;;+ m_ret None
    end.

(** ** Keeping a turn *)

Definition Flush (st : RunStore Ctx Store) (ctx : Ctx) (pe : PersistingEmit) : M (option error * PersistingEmit) :=
  if Nat.eqb (length (pe_buf pe)) 0 then m_ret (None, pe)
  else
    let+ r := m_store (rs_AppendEvents st ctx (pe_runID pe) (pe_buf pe)) in
    m_ret (match r with
           | inl err => (Some err, pe)
           | inr false => (Some (EText ("host: " +:+ disappeared (pe_runID pe))), pe)
           | inr true => (None, {| pe_runID := pe_runID pe; pe_buf := [] |})
           end).

Definition flushEventsLocked (st : RunStore Ctx Store) (ctx : Ctx) (pe : PersistingEmit) : M unit :=
  let+ r := Flush st ctx pe in
  match r.1 with
  | Some err => emit (HostSessionWarn (error_text err))
  | None => m_upd (fun a => with_log (ap_log a) (Z.of_nat (length (ap_log a))) a)
  end.

Definition persistTurnLocked (st : RunStore Ctx Store) (ctx : Ctx) (mo : moment) (msgs : list Message) (pe : PersistingEmit)
    : M unit :=
  let+ id := m_get ap_runID in
  let+ r := m_store (rs_AppendMessages st ctx (mo_append mo) id msgs) in
  match r with
  | inl err => emit (HostSessionWarn (error_text err))
  | inr false => emit (HostSessionWarn (disappeared id))
  | inr true => m_ret tt
  end ;;+
  flushEventsLocked st ctx pe.

Definition persistFailedTurnLocked (st : RunStore Ctx Store) (ctx : Ctx) (pe : PersistingEmit) : M unit :=
  flushEventsLocked st (WithoutCancel ctx) pe.

(** With persistence off there is no [PersistingEmit]. *)
Definition when_kept (pe : option (RunStore Ctx Store * PersistingEmit)) (f : RunStore Ctx Store -> PersistingEmit -> M unit)
    : M unit :=
  match pe with Some (st, p) => f st p | None => m_ret tt end.

(** ** Context *)

Definition injectionStage (mo : moment) : ContextStage Ctx EventInjectionPolicy :=
  {| cst_Name := "events";
     cst_Run := fun _ msgs p =>
       '(out, p) ← Drain data_field p (mo_drain mo) (mo_range mo);
       Some (msgs ++ map (fun inj => system_message (inj_Text inj)) out, p) |}.

Definition run_durable (ctx : Ctx) (mo : moment) (user : Message) : M unit := fun a =>
  '(h, p) ← runDurable [injectionStage mo] ctx (ap_history a) user (ap_injection a);
  Some (tt, with_history h (with_events p (ap_triggers a) a)).

Definition run_transient (ctx : Ctx) : M (list Message) := fun a =>
  '(msgs, w) ← runTransient (ac_transient cfg) ctx (ap_history a) (ap_world a);
  Some (msgs, with_turn_world w (ap_steer a) a).

(** ** Who answers *)

(** What a member's event, or a handoff, becomes on the log. *)
Definition team_host_event (e : team_event) : HostEvent :=
  match e with
  | TeamRaw e => HostRunnerEvent e
  | TeamTagged e => HostSubAgentEvent e
  | TeamHandoff f t => HostHandoff f t
  end.

(** What the sink of a team turn buffers. *)
Definition team_kept (e : team_event) : option Event :=
  match e with TeamTagged e => Some (sub_Event e) | _ => None end.

Definition buffer_all (evs : list Event) (p : PersistingEmit) : PersistingEmit := foldl (fun p e => pe_Emit e p) p evs.

Definition keep_events (evs : list Event) (pe : option (RunStore Ctx Store * PersistingEmit))
    : option (RunStore Ctx Store * PersistingEmit) := (fun '(st, p) => (st, buffer_all evs p)) <$> pe.

Definition run_single (ctx : Ctx) (req : TurnRequest) (pe : option (RunStore Ctx Store * PersistingEmit))
    : M (option TurnResult * option error * option (RunStore Ctx Store * PersistingEmit)) := fun a =>
  let '(out, evs, (w, q, g)) := ac_runner cfg ctx req (ap_world a, ap_steer a, ap_grants a) in
  Some ((out, keep_events evs pe),
        with_grants g (with_turn_world w q (with_log (ap_log a ++ map HostRunnerEvent evs) (ap_persisted a) a))).

Definition run_team (team : team_engine) (ctx : Ctx) (msgs : list Message)
    (pe : option (RunStore Ctx Store * PersistingEmit))
    : M (option TurnResult * option error * option (RunStore Ctx Store * PersistingEmit)) := fun a =>
  let '(out, evs, (w, q, g)) := team ctx msgs (ap_active a) (ap_world a, ap_steer a, ap_grants a) in
  '(res, active, err) ← out;
  Some ((res, err, keep_events (omap team_kept evs) pe),
        with_active (match err with None => active | Some _ => ap_active a end)
          (with_grants g (with_turn_world w q (with_log (ap_log a ++ map team_host_event evs) (ap_persisted a) a)))).

(** Failures that keep what the turn produced. *)
Definition keeps_record (err : error) : bool :=
  error_is ErrMaxSteps err || error_is ErrContextBudget err || error_is ErrTurnStopped err.

Definition result_messages (res : option TurnResult) : list Message :=
  match res with Some r => res_Messages r | None => [] end.

(** The session's half of a turn that has been answered. *)
Definition settle (ctx : Ctx) (mo : moment) (userMsg : Message) (res : option TurnResult) (err : option error)
    (pe : option (RunStore Ctx Store * PersistingEmit)) : M (option error) :=
  let append (msgs : list Message) :=
    m_upd (fun a => with_history (ap_history a ++ msgs) a) ;;+
    when_kept pe (fun st p => persistTurnLocked st ctx mo (userMsg :: msgs) p) in
  match err, res with
  | Some e, Some r =>
      if keeps_record e then
        append (DropUnansweredToolCalls (res_Messages r)) ;;+
        endExtensionTurns ctx res err ;;+ emit_error e ;;+ m_ret err
      else
        m_upd (fun a => with_history (removelast (ap_history a)) a) ;;+
        when_kept pe (fun st p => persistFailedTurnLocked st ctx p) ;;+
        endExtensionTurns ctx None err ;;+ emit_error e ;;+ m_ret err
  | Some e, None =>
      m_upd (fun a => with_history (removelast (ap_history a)) a) ;;+
      when_kept pe (fun st p => persistFailedTurnLocked st ctx p) ;;+
      endExtensionTurns ctx None err ;;+ emit_error e ;;+ m_ret err
  | None, Some r =>
      append (res_Messages r) ;;+ endExtensionTurns ctx res None ;;+ emit (HostTurnDone r) ;;+ m_ret None
  | None, None => fun _ => None
  end.

(** From the user's message to the answer. *)
Definition converse (ctx : Ctx) (mo : moment) (schema : RawJSON) (input : string) : M (option error) :=
  let userMsg := text_message RoleUser input in
  run_durable ctx mo userMsg ;;+
  let+ ready := match ac_store cfg with
                | None => m_ret (inr None)
                | Some st =>
                    let+ err := ensureRunLocked st ctx mo in
                    match err with
                    | Some err => m_ret (inl err)
                    | None => let+ id := m_get ap_runID in m_ret (inr (Some (st, NewPersistingEmit id)))
                    end
                end in
  match ready with
  | inl err =>
      m_upd (fun a => with_history (removelast (ap_history a)) a) ;;+ emit_error err ;;+ m_ret (Some err)
  | inr pe =>
      let+ turnMsgs := run_transient ctx in
      let+ out := match ac_team cfg with
                  | Some team => run_team team ctx turnMsgs pe
                  | None => run_single ctx {| tr_History := turnMsgs; tr_Generation := GenerationParams_zero;
                                              tr_ResponseSchema := schema; tr_ResponseGuided := None |} pe
                  end in
      let '(res, err, pe) := out in
      settle ctx mo userMsg res err pe
  end.

Definition turn_body (ctx : Ctx) (mo : moment) (input : string) (schema : RawJSON) (announced : bool) : M (option error) :=
  m_upd (fun a => with_turn_world (ap_world a) (steer_begin (ap_steer a)) a) ;;+
  m_upd (fun a => with_grants (grants_endTurn (ap_grants a)) a) ;;+
  m_upd (fun a => with_events (ap_injection a) (NotifyEngagement (ap_triggers a)) a) ;;+
  (if announced then m_ret tt else emit (HostUserInput input "")) ;;+
  let+ err := startExtensionTurns ctx in
  match err with
  | Some err => emit_error err ;;+ m_ret (Some err)
  | None =>
      let+ r := transformInput ctx input in
      match r with
      | inl err => emit_error err ;;+ m_ret (Some err)
      | inr input => converse ctx mo schema input
      end
  end.

(** The deferred calls run last first. *)
Definition runOneTurn (ctx : Ctx) (mo : moment) (input : string) (schema : RawJSON) (announced : bool)
    : M (list string * option error) :=
  let+ err := turn_body ctx mo input schema announced in
  m_upd (fun a => with_grants (grants_endTurn (ap_grants a)) a) ;;+
  let+ late := fun a => let '(late, q) := steer_end (ap_steer a) in Some (late, with_turn_world (ap_world a) q a) in
  m_ret (late, err).

(** The turns of late steers; [None] when the fuel or the moments run out.
    The first error is the one returned. *)
Fixpoint late_turns (ctx : Ctx) (mos : list moment) (late : list string) (err : option error) : M (option error) :=
  match late, mos with
  | [], _ => m_ret err
  | _, [] => fun _ => None
  | late, mo :: mos =>
      let+ r := runOneTurn ctx mo (joinSteers late) "" true in
      late_turns ctx mos r.1 (match err with Some _ => err | None => r.2 end)
  end.

Definition RunTurnWith (ctx : Ctx) (mo : moment) (mos : list moment) (input : string) (schema : RawJSON) : M (option error) :=
  if negb (String.eqb schema "") && match ac_team cfg with Some _ => true | None => false end then
    let err := EText "host: a response schema needs a single agent, not a team" in
    emit_error err ;;+ m_ret (Some err)
  else
    let+ r := runOneTurn ctx mo input schema false in
    late_turns ctx mos r.1 r.2.

(** [Submit]: whether the input became a steer. *)
Definition Submit (ctx : Ctx) (mo : moment) (mos : list moment) (input : string) (schema : RawJSON)
    : M (bool * option error) := fun a =>
  let '(queued, q) := steer_offer input (ap_steer a) in
  if queued then (emit (HostUserInput input "steer") ;;+ m_ret (true, None)) (with_turn_world (ap_world a) q a)
  else (let+ err := RunTurnWith ctx mo mos input schema in m_ret (false, err)) a.

(** ** Turns a trigger starts *)

(** The turn runs on the Runner whether or not there is a Team. *)
Definition runProactiveTurn (ctx : Ctx) (mo : moment) (firing : TriggerBinding) : M unit :=
  emit (HostTriggerFired (tb_Label firing)) ;;+
  let+ err := startExtensionTurns ctx in
  match err with
  | Some err => emit_error err
  | None =>
      run_durable ctx mo (system_message (tb_Instructions firing)) ;;+
      let+ history := m_get ap_history in
      let+ out := run_single ctx {| tr_History := history; tr_Generation := GenerationParams_zero;
                                    tr_ResponseSchema := ""; tr_ResponseGuided := None |} None in
      let '(res, err, _) := out in
      match err, res with
      | Some e, _ => endExtensionTurns ctx None err ;;+ emit_error e
      | None, Some r =>
          m_upd (fun a => with_history (ap_history a ++ res_Messages r) a) ;;+
          endExtensionTurns ctx res None ;;+ emit (HostTurnDone r)
      | None, None => fun _ => None
      end
  end.

(** One event off the streams. *)
Definition consume_event (ctx : Ctx) (mo : moment) (now : Time) (ev : IncomingEvent) : M unit :=
  let+ firing := fun a =>
    p ← Ingest (ap_injection a) now ev;
    '(firing, t) ← OnEvent (ap_triggers a) now ev;
    Some (firing, with_events p t a) in
  match firing with Some b => runProactiveTurn ctx mo b | None => m_ret tt end.

(** ** The session picker *)

Record SessionPage := { sp_Runs : list RunInfo; sp_HasMore : bool }.

(** [None] is the store's panic. *)
Definition SessionsPage (ctx : Ctx) (cursor : string) : M (result SessionPage) :=
  match ac_store cfg with
  | None => m_ret (inl no_store)
  | Some st =>
      let+ s := m_get ap_store in
      match rs_ListRuns st ctx cursor 0 s with
      | None => fun _ => None
      | Some (inl err) => m_ret (inl (wrap_error "host: listing sessions: " err))
      | Some (inr resp) =>
          m_upd (with_cursor (lr_NextCursor resp)) ;;+
          m_ret (inr {| sp_Runs := lr_Runs resp; sp_HasMore := negb (String.eqb (lr_NextCursor resp) "") |})
      end
  end.

Definition Sessions (ctx : Ctx) : M (result (list RunInfo)) :=
  let+ r := SessionsPage ctx "" in
  m_ret (match r with inl err => inl err | inr page => inr (sp_Runs page) end).

Definition PageMore (ctx : Ctx) : M (result SessionPage) :=
  let+ cursor := m_get ap_cursor in
  if String.eqb cursor "" then m_ret (inr {| sp_Runs := []; sp_HasMore := false |}) else SessionsPage ctx cursor.

Definition maxSessionSearchScan : Z := 1000.

Definition search_match (q : string) (r : RunInfo) : bool := str_contains (ToLower (ri_ID r)) q.

(** The loop, a page at a time; [None] when the fuel runs out or a page
    panics. *)
Fixpoint search_loop (fuel : nat) (st : RunStore Ctx Store) (ctx : Ctx) (s : Store) (q : string) (out : list RunInfo)
    (cursor : string) (scanned : Z) : option (result (list RunInfo)) :=
  if maxSessionSearchScan <=? scanned then Some (inr out)
  else
    match fuel with
    | O => None
    | S fuel =>
        r ← rs_ListRuns st ctx cursor 0 s;
        match r with
        | inl err => Some (inl (wrap_error "host: searching sessions: " err))
        | inr resp =>
            let out := out ++ List.filter (search_match q) (lr_Runs resp) in
            if String.eqb (lr_NextCursor resp) "" then Some (inr out)
            else search_loop fuel st ctx s q out (lr_NextCursor resp) (scanned + Z.of_nat (length (lr_Runs resp)))
        end
    end.

Definition SearchSessions (fuel : nat) (ctx : Ctx) (query : string) : M (result (list RunInfo)) := fun a =>
  match ac_store cfg with
  | None => Some (inl no_store, a)
  | Some st => r ← search_loop fuel st ctx (ap_store a) (ToLower query) [] "" 0; Some (r, a)
  end.

(** ** Attaching to the event stream *)

Definition stampAskID (offset : Z) (ev : HostEvent) : HostEvent :=
  match ev with HostElicitRequest req _ => HostElicitRequest req offset | _ => ev end.

(** [ReadFrom(off)] of a log that has evicted nothing, stamped. *)
Definition read_stamped (off : Z) (l : list HostEvent) : list HostEvent :=
  imap (fun i e => stampAskID (off + Z.of_nat i) e) (drop (Z.to_nat off) l).

(** What [Subscribe] has to deliver at once, and where it goes on from. *)
Definition subscribe_replay (ctx : Ctx) : M (list HostEvent * Z) :=
  let+ a := m_get id in
  let deep := match ac_store cfg with
              | Some st =>
                  if negb (String.eqb (ap_runID a) "") && (0 <? ap_persisted a) then
                    match rs_LoadRun st ctx (ap_runID a) (ap_store a) with
                    | inr (Some r) => run_Events r
                    | _ => []
                    end
                  else []
              | None => []
              end in
  m_ret (map HostRunnerEvent deep ++ read_stamped (ap_persisted a) (ap_log a), Z.of_nat (length (ap_log a))).
End Session.

(** ** What the host hands the Runner and the pipeline *)

(** The stage that drains steers into the record.  It reads the queue the
    surfaces fill, which is part of the world a turn runs in. *)
Definition steerStage {Ctx W} : StepStage Ctx (turn_world (W:=W)) :=
  {| ss_Name := "host.steer";
     ss_Scope := ScopeSession;
     ss_Run := fun _ _ v '(w, q, g) =>
       let '(steers, q) := steer_take q in
       (inr (set_messages v (sv_Messages v ++ map (text_message RoleUser) steers)), [], (w, q, g)) |}.

Section MemoryStages.
Context {Ctx W E : Type}.

Record MemoryConfig := {
  mc_InjectSummary : bool;
  mc_InjectRecall : bool;
  mc_Summary : SummaryOptions;
  mc_Recall : RecallOptions;
}.

(** The two reads of the memory source. *)
Variables (summary : SummaryOptions -> eff W E (result string))
  (recall : string -> RecallOptions -> eff W E (result string)).

Definition last_text (msgs : list Message) : string :=
  match last msgs with Some m => m_Text m | None => "" end.

Definition memoryStages (c : option MemoryConfig) : list (ContextStage Ctx W) :=
  match c with
  | None => []
  | Some c =>
      (if mc_InjectSummary c
       then [block_stage "memory.summary" (fun _ _ w =>
               let m := summary (mc_Summary c) in (eff_value m w, eff_world m w))]
       else []) ++
      (if mc_InjectRecall c
       then [block_stage "memory.recall" (fun _ msgs w =>
               let m := recall (last_text msgs) (mc_Recall c) in (eff_value m w, eff_world m w))]
       else [])
  end.
End MemoryStages.

(** ** The in-memory store as a store of sessions *)

Definition InMemorySessions {Ctx} : RunStore Ctx InMemoryRunStore :=
  {| rs_CreateRun := fun _ now id s => let '(r, s) := CreateRun now id s in (inr r, s);
     rs_AppendMessages := fun _ now id msgs s => let '(r, s) := AppendMessages now id msgs s in (inr r, s);
     rs_AppendEvents := fun _ id evs s => let '(r, s) := AppendEvents id evs s in (inr r, s);
     rs_LoadRun := fun _ id s => inr (LoadRun id s);
     rs_ForkRun := fun _ now id new_id n s => let '(r, s) := ForkRun now id new_id n s in (inr r, s);
     rs_ListRuns := fun _ cursor limit s => inr <$> ListRuns cursor limit s |}.
