(* ===== verification/SessionLog.v ===== *)
(** * What a session keeps

    The laws a run store keeps to, as its interface's comments state them
    (src/runstore.go), and the in-memory store as an instance; then what a
    session guarantees over any such store: what each turn adds to the
    history and to the stored run, that what is stored is part of the
    conversation, that without injected events it is all of it, that steers
    are neither lost nor doubled, that a surface attaching late is replayed
    what happened, and that a search ends. *)

From S2P Require Import Prelude GoStr Errors Json Provider TreeBudget Middleware Events Compaction.
From S2P Require Import StepStage RunStore Triggers Runner SubAgents Team Injection SkillGrants Session.
Local Open Scope Z_scope.

(** ** Stores *)

(** A message as it was handed over, the timestamp filled in if it had none. *)
Definition same_said (m m' : Message) : Prop :=
  m_Role m' = m_Role m /\ m_Text m' = m_Text m /\ m_ToolCalls m' = m_ToolCalls m /\ m_ToolCallID m' = m_ToolCallID m
  /\ (m_Timestamp m <> 0 -> m_Timestamp m' = m_Timestamp m).

Lemma same_said_refl m : same_said m m.
Proof. by repeat split. Qed.

Lemma same_said_trans m1 m2 m3 : same_said m1 m2 -> same_said m2 m3 -> same_said m1 m3.
Proof.
  intros (A1 & A2 & A3 & A4 & A5) (B1 & B2 & B3 & B4 & B5). repeat split; try congruence.
  intros H. rewrite B5; [by apply A5|]. by rewrite A5.
Qed.

Lemma same_said_stamp now m : same_said m (stamp now m).
Proof. repeat split. intros H. simpl. by rewrite (proj2 (Z.eqb_neq _ _)). Qed.

Lemma same_said_stamps now msgs : Forall2 same_said msgs (stamp now <$> msgs).
Proof. induction msgs; csimpl; constructor; auto using same_said_stamp. Qed.

(** The runs of a store, by id: their message and event logs. *)
Definition logs := string -> option (list Message * list Event).

Definition keeps_all (L L' : logs) : Prop := forall i l, L i = Some l -> L' i = Some l.

Definition same_but (id : string) (L L' : logs) : Prop := forall i, i <> id -> L' i = L i.

Definition created (L : logs) (id : string) (r : result CreateRunResponse) (L' : logs) : Prop :=
  match r with
  | inl _ => keeps_all L L'
  | inr resp =>
      (id <> "" -> cr_RunID resp = id) /\ cr_RunID resp <> "" /\
      if cr_Created resp then L' (cr_RunID resp) = Some ([], []) /\ same_but (cr_RunID resp) L L'
      else id <> "" /\ L' = L
  end.

Definition messages_added (L : logs) (id : string) (msgs : list Message) (L' : logs) : Prop :=
  exists m e l, L id = Some (m, e) /\ L' id = Some (m ++ l, e) /\ Forall2 same_said msgs l.

Definition appended (L : logs) (id : string) (msgs : list Message) (r : result bool) (L' : logs) : Prop :=
  same_but id L L' /\
  match r with
  | inr true => messages_added L id msgs L'
  | inr false => L id = None /\ L' id = None
  | inl _ => L' id = L id \/ messages_added L id msgs L'
  end.

Definition events_added (L : logs) (id : string) (evs : list Event) (L' : logs) : Prop :=
  exists m e, L id = Some (m, e) /\ L' id = Some (m, e ++ evs).

Definition evented (L : logs) (id : string) (evs : list Event) (r : result bool) (L' : logs) : Prop :=
  same_but id L L' /\
  match r with
  | inr true => events_added L id evs L'
  | inr false => L id = None /\ L' id = None
  | inl _ => L' id = L id \/ events_added L id evs L'
  end.

Definition forked (L : logs) (id : string) (n : Z) (r : result ForkRunResponse) (L' : logs) : Prop :=
  match r with
  | inl _ => keeps_all L L'
  | inr resp =>
      if fr_Found resp && fr_Created resp then
        fr_RunID resp <> "" /\ same_but (fr_RunID resp) L L' /\
        exists m e k e', L id = Some (m, e) /\ L' (fr_RunID resp) = Some (take k m, e') /\
          (n <= 0 -> (length m <= k)%nat)
      else L' = L
  end.

(** What a session relies on.  A call that reports an error may or may not
    have been carried out. *)
Class StoreLaws {Ctx Store} (st : RunStore Ctx Store) := {
  sl_wf : Store -> Prop;
  sl_log : Store -> logs;
  sl_create : forall ctx now id s r s', sl_wf s -> rs_CreateRun st ctx now id s = (r, s') ->
    sl_wf s' /\ created (sl_log s) id r (sl_log s');
  sl_append : forall ctx now id msgs s r s', sl_wf s -> rs_AppendMessages st ctx now id msgs s = (r, s') ->
    sl_wf s' /\ appended (sl_log s) id msgs r (sl_log s');
  sl_events : forall ctx id evs s r s', sl_wf s -> rs_AppendEvents st ctx id evs s = (r, s') ->
    sl_wf s' /\ evented (sl_log s) id evs r (sl_log s');
  sl_fork : forall ctx now id new_id n s r s', sl_wf s -> rs_ForkRun st ctx now id new_id n s = (r, s') ->
    sl_wf s' /\ forked (sl_log s) id n r (sl_log s');
  sl_load : forall ctx id s r, sl_wf s -> rs_LoadRun st ctx id s = inr (Some r) ->
    id <> "" /\ sl_log s id = Some (run_Messages r, run_Events r);
}.

(** A store whose calls on runs it has do not fail. *)
Class ReliableStore {Ctx Store} (st : RunStore Ctx Store) `{StoreLaws Ctx Store st} := {
  rel_append : forall ctx now id msgs s l, sl_wf s -> sl_log s id = Some l ->
    exists s', rs_AppendMessages st ctx now id msgs s = (inr true, s');
  rel_events : forall ctx id evs s l, sl_wf s -> sl_log s id = Some l ->
    exists s', rs_AppendEvents st ctx id evs s = (inr true, s');
  rel_load : forall ctx id s l, sl_wf s -> sl_log s id = Some l ->
    exists r, rs_LoadRun st ctx id s = inr (Some r);
}.

(** *** The in-memory store *)

Definition mem_log (s : InMemoryRunStore) : logs :=
  fun id => (fun e => (re_messages e, re_events e)) <$> st_runs s !! id.

Definition mem_wf (s : InMemoryRunStore) : Prop := st_runs s !! "" = None.

Lemma run_name_not_empty n : run_name n <> "".
Proof. unfold run_name. simpl. discriminate. Qed.

(** What an insertion does to the logs, and that the empty id stays free. *)
Lemma mem_insert (s : InMemoryRunStore) id e seq :
  mem_wf s -> id <> "" ->
  let s' := {| st_runs := <[id := e]> (st_runs s); st_seq := seq |} in
  mem_wf s' /\ mem_log s' id = Some (re_messages e, re_events e) /\ same_but id (mem_log s) (mem_log s').
Proof.
  intros Hw Hid. repeat split.
  - unfold mem_wf in *. simpl. by rewrite lookup_insert_ne.
  - unfold mem_log. simpl. by rewrite lookup_insert_eq.
  - intros i Hi. unfold mem_log. simpl. by rewrite lookup_insert_ne.
Qed.

Lemma mem_create : forall now id s r s', mem_wf s -> (let '(r, s) := CreateRun now id s in (inr r, s)) = (r, s') ->
  mem_wf s' /\ created (mem_log s) id r (mem_log s').
Proof.
  intros now id s r s' Hw. unfold CreateRun.
  destruct (String.eqb_spec id "") as [->|Hid]; [intros [= <- <-] | destruct (st_runs s !! id) eqn:E; intros [= <- <-]]; simpl.
  - destruct (mem_insert s (run_name (st_seq s + 1))
      {| re_parentID := ""; re_forkPoint := 0; re_createdAt := now; re_messages := []; re_events := [] |}
      (st_seq s + 1) Hw (run_name_not_empty _)) as (H1 & H2 & H3).
    split; [exact H1|]. split; [congruence|]. split; [apply run_name_not_empty|]. by split.
  - split; [done|]. split; [done|]. split; [done|]. by split.
  - destruct (mem_insert s id
      {| re_parentID := ""; re_forkPoint := 0; re_createdAt := now; re_messages := []; re_events := [] |}
      (st_seq s) Hw Hid) as (H1 & H2 & H3).
    split; [exact H1|]. split; [done|]. split; [done|]. by split.
Qed.

Lemma mem_append : forall now id msgs s r s', mem_wf s -> (let '(r, s) := AppendMessages now id msgs s in (inr r, s)) = (r, s') ->
  mem_wf s' /\ appended (mem_log s) id msgs r (mem_log s').
Proof.
  intros now id msgs s r s' Hw. unfold AppendMessages.
  destruct (st_runs s !! id) as [e|] eqn:E; intros [= <- <-].
  - assert (Hid : id <> "") by (intros ->; unfold mem_wf in Hw; congruence).
    destruct (mem_insert s id {| re_parentID := re_parentID e; re_forkPoint := re_forkPoint e;
      re_createdAt := re_createdAt e; re_messages := re_messages e ++ (stamp now <$> msgs);
      re_events := re_events e |} (st_seq s) Hw Hid) as (H1 & H2 & H3).
    split; [exact H1|]. split; [exact H3|]. exists (re_messages e), (re_events e), (stamp now <$> msgs).
    split; [unfold mem_log; by rewrite E|]. split; [exact H2|].
    apply same_said_stamps.
  - split; [done|]. split; [by intros i|]. unfold mem_log. by rewrite E.
Qed.

Lemma mem_events : forall id evs s r s', mem_wf s -> (let '(r, s) := AppendEvents id evs s in (inr r, s)) = (r, s') ->
  mem_wf s' /\ evented (mem_log s) id evs r (mem_log s').
Proof.
  intros id evs s r s' Hw. unfold AppendEvents.
  destruct (st_runs s !! id) as [e|] eqn:E; intros [= <- <-].
  - assert (Hid : id <> "") by (intros ->; unfold mem_wf in Hw; congruence).
    destruct (mem_insert s id {| re_parentID := re_parentID e; re_forkPoint := re_forkPoint e;
      re_createdAt := re_createdAt e; re_messages := re_messages e;
      re_events := re_events e ++ evs |} (st_seq s) Hw Hid) as (H1 & H2 & H3).
    split; [exact H1|]. split; [exact H3|]. exists (re_messages e), (re_events e).
    split; [unfold mem_log; by rewrite E | exact H2].
  - split; [done|]. split; [by intros i|]. unfold mem_log. by rewrite E.
Qed.

Lemma fork_count_le len n : 0 <= len -> fork_count len n <= len /\ (n <= 0 -> fork_count len n = len).
Proof.
  intros Hl. unfold fork_count. destruct (Z.ltb_spec 0 n), (Z.ltb_spec n len); simpl; split; intros; lia.
Qed.

Lemma mem_fork : forall now id new_id n s r s', mem_wf s ->
  (let '(r, s) := ForkRun now id new_id n s in (inr r, s)) = (r, s') ->
  mem_wf s' /\ forked (mem_log s) id n r (mem_log s').
Proof.
  intros now id new_id n s r s' Hw. unfold ForkRun.
  destruct (st_runs s !! id) as [src|] eqn:E; [|by intros [= <- <-]]. cbv zeta.
  set (k := fork_count _ n). pose proof (fork_count_le (Z.of_nat (length (re_messages src))) n ltac:(lia)) as [_ Hk].
  set (entry := Build_runEntry _ _ _ _ _).
  assert (Hnew : forall fresh seq, fresh <> "" ->
    let s' := {| st_runs := <[fresh := entry]> (st_runs s); st_seq := seq |} in
    mem_wf s' /\ fresh <> "" /\ same_but fresh (mem_log s) (mem_log s') /\
    exists m e k e', mem_log s id = Some (m, e) /\ mem_log s' fresh = Some (take k m, e') /\ (n <= 0 -> (length m <= k)%nat)).
  { intros fresh seq Hf. destruct (mem_insert s fresh entry seq Hw Hf) as (H1 & H2 & H3).
    split; [exact H1|]. split; [done|]. split; [exact H3|].
    exists (re_messages src), (re_events src), (Z.to_nat k), (re_events entry).
    split; [unfold mem_log; by rewrite E|]. split; [exact H2|]. intros Hn. unfold k. rewrite Hk by done. lia. }
  destruct (String.eqb_spec new_id "") as [->|Hid];
    [|destruct (st_runs s !! new_id) eqn:E2]; intros [= <- <-].
  - exact (Hnew (run_name _) _ (run_name_not_empty _)).
  - by split.
  - exact (Hnew new_id _ Hid).
Qed.

Lemma mem_load id s r : mem_wf s -> LoadRun id s = Some r -> id <> "" /\ mem_log s id = Some (run_Messages r, run_Events r).
Proof.
  intros Hw. unfold LoadRun. destruct (st_runs s !! id) eqn:E; [|done]. intros [= <-]. unfold mem_log. rewrite E.
  split; [|done]. intros ->. unfold mem_wf in Hw. congruence.
Qed.

#[export] Instance mem_laws {Ctx} : StoreLaws (InMemorySessions (Ctx:=Ctx)).
Proof.
  refine {| sl_wf := mem_wf; sl_log := mem_log |}; intros ctx; simpl.
  - exact mem_create.
  - exact mem_append.
  - exact mem_events.
  - exact mem_fork.
  - intros id s r Hw [= H]. by apply mem_load.
Defined.

#[export] Instance mem_reliable {Ctx} : ReliableStore (InMemorySessions (Ctx:=Ctx)).
Proof.
  constructor; intros ctx; simpl; unfold mem_log.
  - intros now id msgs s l _ Hl. unfold AppendMessages. destruct (st_runs s !! id); [eauto | done].
  - intros id evs s l _ Hl. unfold AppendEvents. destruct (st_runs s !! id); [eauto | done].
  - intros id s l _ Hl. unfold LoadRun. destruct (st_runs s !! id); [eauto | done].
Qed.

(** ** Reasoning about operations *)

Section Frames.
Context {Ctx W Store : Type}.
Variable cfg : AppConfig Ctx W Store.
Implicit Types a : App W Store.

Lemma m_bind_some {A B} (m : M W Store A) (k : A -> M W Store B) a r :
  m_bind m k a = Some r -> exists x a1, m a = Some (x, a1) /\ k x a1 = Some r.
Proof. unfold m_bind. destruct (m a) as [[x a1]|]; [eauto | done]. Qed.

Definition runner_events (l : list HostEvent) : list Event :=
  omap (fun e => match e with HostRunnerEvent e => Some e | _ => None end) l.

Lemma runner_events_app l l' : runner_events (l ++ l') = runner_events l ++ runner_events l'.
Proof. apply omap_app. Qed.

Lemma runner_events_map evs : runner_events (map HostRunnerEvent evs) = evs.
Proof. induction evs as [|e evs IH]; [done|]. cbn. unfold runner_events in IH. by rewrite IH. Qed.

(** Hooks announce what they like, but a Runner's events come from a Runner. *)
Definition hook_tame {A} (m : eff W HostEvent A) : Prop := forall w, runner_events (eff_events m w) = [].

Record ext_tame (ext : Extension Ctx W) : Prop := {
  et_start : forall ctx, hook_tame (ext_TurnStart ext ctx);
  et_transform : Forall (fun fn => forall f, fn = Some f -> forall ctx input, hook_tame (f ctx input)) (ext_InputTransforms ext);
  et_end : forall f, ext_TurnEnd ext = Some f -> forall ctx res err, hook_tame (f ctx res err);
}.

Definition tame : Prop := Forall ext_tame (ac_extensions cfg).

(** What only hooks, renderers and the turn's own world see. *)
Record apart a a' : Prop := {
  ap_same_history : ap_history a' = ap_history a;
  ap_same_run : ap_runID a' = ap_runID a;
  ap_same_store : ap_store a' = ap_store a;
  ap_same_injection : ap_injection a' = ap_injection a;
  ap_same_persisted : ap_persisted a' = ap_persisted a;
}.

Definition logged (evs : list Event) a a' : Prop :=
  exists l, ap_log a' = ap_log a ++ l /\ runner_events l = evs.

(** Nothing happens to the session, and the Runner says nothing. *)
Definition frames {A} (m : M W Store A) : Prop := forall a x a', m a = Some (x, a') ->
  apart a a' /\ exists l, ap_log a' = ap_log a ++ l /\ (tame -> runner_events l = []).

Lemma apart_refl a : apart a a.
Proof. by constructor. Qed.

Lemma apart_trans a1 a2 a3 : apart a1 a2 -> apart a2 a3 -> apart a1 a3.
Proof. intros [] []. constructor; congruence. Qed.

Lemma frames_ret {A} (x : A) : frames (m_ret x).
Proof. intros a y a' [= _ <-]. split; [apply apart_refl|]. exists []. by rewrite app_nil_r. Qed.

Lemma frames_bind {A B} (m : M W Store A) (k : A -> M W Store B) :
  frames m -> (forall x, frames (k x)) -> frames (m_bind m k).
Proof.
  intros Hm Hk a y a' (x & a1 & H1 & H2)%m_bind_some.
  apply Hm in H1 as (A1 & l1 & L1 & E1). apply Hk in H2 as (A2 & l2 & L2 & E2).
  split; [by eapply apart_trans|]. exists (l1 ++ l2). rewrite L2, L1, <- app_assoc. split; [done|].
  intros Ht. by rewrite runner_events_app, E1, E2.
Qed.

Lemma frames_emit ev : runner_events [ev] = [] -> frames (emit (W:=W) (Store:=Store) ev).
Proof. intros He a y a' [= _ <-]. split; [by constructor|]. by exists [ev]. Qed.

Lemma frames_hook {A} (m : eff W HostEvent A) : (tame -> hook_tame m) -> frames (m_hook m).
Proof.
  intros Hm a x a'. unfold m_hook. specialize (Hm). destruct (m (ap_world a)) as [[y evs] w] eqn:E. intros [= <- <-].
  split; [by constructor|]. exists evs. split; [done|]. intros Ht. specialize (Hm Ht (ap_world a)).
  unfold eff_events in Hm. by rewrite E in Hm.
Qed.

Lemma frames_get {A} (f : App W Store -> A) : frames (m_get f).
Proof. intros a x a' [= _ <-]. split; [apply apart_refl|]. exists []. by rewrite app_nil_r. Qed.

Lemma frames_start ctx : frames (startExtensionTurns cfg ctx).
Proof.
  unfold startExtensionTurns. assert (Hs : tame -> Forall ext_tame (ac_extensions cfg)) by done. revert Hs.
  induction (ac_extensions cfg) as [|ext exts IH]; intros Ht; cbn [start_turns]; [apply frames_ret|].
  apply frames_bind.
  - apply frames_hook. intros H. apply Ht, Forall_cons in H as [H _]. apply H.
  - intros [err|]; [apply frames_ret | apply IH]. intros H. by apply Ht, Forall_cons in H as [_ H].
Qed.

Lemma frames_end ctx res err : frames (endExtensionTurns cfg ctx res err).
Proof.
  unfold endExtensionTurns. assert (Hs : tame -> Forall ext_tame (ac_extensions cfg)) by done. revert Hs.
  induction (ac_extensions cfg) as [|ext exts IH]; intros Ht; cbn [end_turns]; [apply frames_ret|].
  assert (Hrest : frames (end_turns exts ctx res err)).
  { apply IH. intros H. by apply Ht, Forall_cons in H as [_ H]. }
  destruct (ext_TurnEnd ext) as [f|] eqn:E; [|done]. apply frames_bind; [|done].
  apply frames_hook. intros H. apply Ht, Forall_cons in H as [H _]. by apply H.
Qed.

Lemma frames_transform_with name fns (ctx : Ctx) input :
  (tame -> Forall (fun fn => forall f, fn = Some f -> forall ctx input, hook_tame (f ctx input)) fns) ->
  frames (transform_with (W:=W) (Store:=Store) name fns ctx input).
Proof.
  revert input. induction fns as [|[fn|] fns IH]; intros input Ht; cbn [transform_with]; [apply frames_ret| |].
  - apply frames_bind.
    + apply frames_hook. intros H. apply Ht, Forall_cons in H as [H _]. by apply H.
    + intros [err|out]; [apply frames_ret | apply IH]. intros H. by apply Ht, Forall_cons in H as [_ H].
  - apply IH. intros H. by apply Ht, Forall_cons in H as [_ H].
Qed.

Lemma frames_transform ctx input : frames (transformInput cfg ctx input).
Proof.
  unfold transformInput. assert (Hs : tame -> Forall ext_tame (ac_extensions cfg)) by done. revert Hs input.
  induction (ac_extensions cfg) as [|ext exts IH]; intros Ht input; cbn [transform_exts]; [apply frames_ret|].
  apply frames_bind.
  - apply frames_transform_with. intros H. apply Ht, Forall_cons in H as [H _]. apply H.
  - intros [err|out]; [apply frames_ret | apply IH]. intros H. by apply Ht, Forall_cons in H as [_ H].
Qed.
End Frames.

(** ** What a turn keeps *)

Section Turns.
Context {Ctx W Store : Type} (st : RunStore Ctx Store) {laws : StoreLaws st}.
Variables (WithoutCancel : Ctx -> Ctx) (data_field : RawJSON -> string -> option RawJSON).
Variable cfg : AppConfig Ctx W Store.
Implicit Types a : App W Store.

(** The messages of the active run; a run that is not there yet has none. *)
Definition stored a : option (list Message) :=
  if String.eqb (ap_runID a) "" then Some [] else fst <$> sl_log (ap_store a) (ap_runID a).

(** The stored record grows by what was said, all of it or none of it, and all
    of it when the store does not fail. *)
Definition grows_by (said : list Message) (m m' : list Message) : Prop :=
  exists l, m' = m ++ l /\ (l = [] \/ Forall2 same_said said l) /\ (ReliableStore st -> Forall2 same_said said l).

Record said_kept (said : list Message) a a' : Prop := {
  k_wf : sl_wf (ap_store a');
  k_run : ap_runID a' = ap_runID a;
  k_history : ap_history a' = ap_history a;
  k_injection : ap_injection a' = ap_injection a;
  k_stored : forall m, stored a = Some m -> exists m', stored a' = Some m' /\ grows_by said m m';
}.

Lemma grows_by_none m : grows_by [] m m.
Proof. exists []. rewrite app_nil_r. repeat split; auto. Qed.

Lemma grows_by_nothing m m' : grows_by [] m m' -> m' = m.
Proof. intros (l & -> & [->|H%Forall2_nil_inv_l] & _); [|subst l]; by rewrite app_nil_r. Qed.

Lemma stored_same a a' : ap_runID a' = ap_runID a -> ap_store a' = ap_store a -> stored a' = stored a.
Proof. unfold stored. by intros -> ->. Qed.

Lemma kept_apart a a' : sl_wf (ap_store a) -> apart a a' -> said_kept [] a a'.
Proof.
  intros Hw []. constructor; try done; [congruence|].
  intros m Hm. exists m. rewrite (stored_same a a') by done. split; [done | apply grows_by_none].
Qed.

Lemma kept_then said a a1 a2 : said_kept said a a1 -> said_kept [] a1 a2 -> said_kept said a a2.
Proof.
  intros [] []. constructor; try done; try congruence. intros m Hm.
  destruct (k_stored0 m Hm) as (m1 & H1 & G1). destruct (k_stored1 m1 H1) as (m2 & H2 & ->%grows_by_nothing). eauto.
Qed.

Lemma kept_before said a a1 a2 : said_kept [] a a1 -> said_kept said a1 a2 -> said_kept said a a2.
Proof.
  intros [] []. constructor; try done; try congruence. intros m Hm.
  destruct (k_stored0 m Hm) as (m1 & H1 & ->%grows_by_nothing). eauto.
Qed.

(** A store call that leaves the active run's messages as they are, or adds to
    them. *)
Lemma kept_store said a s' :
  sl_wf s' -> ap_runID a <> "" ->
  (forall m e, sl_log (ap_store a) (ap_runID a) = Some (m, e) ->
     exists m' e', sl_log s' (ap_runID a) = Some (m', e') /\ grows_by said m m') ->
  said_kept said a (with_store s' a).
Proof.
  intros Hw Hid Hg. constructor; try done. intros m. unfold stored. simpl.
  rewrite (proj2 (String.eqb_neq _ _) Hid). intros ([m0 e] & Hl & ->)%fmap_Some.
  destruct (Hg m0 e Hl) as (m' & e' & -> & G). by exists m'.
Qed.

Lemma kept_emit ev a : sl_wf (ap_store a) -> said_kept [] a (with_log (ap_log a ++ [ev]) (ap_persisted a) a).
Proof. intros Hw. by apply kept_apart. Qed.

Lemma kept_mark l p a : sl_wf (ap_store a) -> said_kept [] a (with_log l p a).
Proof. intros Hw. constructor; try done. intros m Hm. exists m. split; [exact Hm | apply grows_by_none]. Qed.

Lemma Flush_kept ctx pe a err pe' a' :
  sl_wf (ap_store a) -> ap_runID a <> "" -> pe_runID pe = ap_runID a ->
  Flush st ctx pe a = Some (err, pe', a') -> said_kept [] a a'.
Proof.
  intros Hw Hid Hpe. unfold Flush. destruct (Nat.eqb _ 0).
  { intros [= _ _ <-]. by apply kept_apart. }
  intros (r & a1 & H1 & H2)%m_bind_some. assert (a1 = a') as -> by (by injection H2). clear H2.
  unfold m_store in H1. destruct (rs_AppendEvents _ _ _ _ _) as [r' s'] eqn:E. injection H1 as <- <-.
  apply sl_events in E as [Hw' [_ He]]; [|done]. rewrite Hpe in He. apply kept_store; [done..|].
  intros m e Hl. assert (G : forall L', L' = Some (m, e) \/ events_added (sl_log (ap_store a)) (ap_runID a) (pe_buf pe) (fun _ => L') ->
    exists m' e', L' = Some (m', e') /\ grows_by [] m m').
  { intros L' [->|(m1 & e1 & H1 & ->)]; [|rewrite Hl in H1; injection H1 as <- <-]; eauto using grows_by_none. }
  apply G. destruct r' as [?|[]]; [destruct He as [He|He] | right | destruct He; congruence].
  - left. congruence.
  - right. destruct He as (m1 & e1 & H1 & H2). by exists m1, e1.
  - destruct He as (m1 & e1 & H1 & H2). by exists m1, e1.
Qed.

Lemma flush_kept ctx pe a u a' :
  sl_wf (ap_store a) -> ap_runID a <> "" -> pe_runID pe = ap_runID a ->
  flushEventsLocked st ctx pe a = Some (u, a') -> said_kept [] a a'.
Proof.
  intros Hw Hid Hpe ([err pe'] & a1 & H1 & H2)%m_bind_some. apply Flush_kept in H1; [|done..].
  eapply kept_then; [exact H1|]. pose proof (k_wf _ _ _ H1) as Hw1. simpl in H2.
  destruct err; injection H2 as _ <-; by apply kept_mark.
Qed.

Lemma persist_kept ctx mo msgs pe a u a' :
  sl_wf (ap_store a) -> ap_runID a <> "" -> pe_runID pe = ap_runID a ->
  persistTurnLocked st ctx mo msgs pe a = Some (u, a') -> said_kept msgs a a'.
Proof.
  intros Hw Hid Hpe (id & a0 & [= <- <-] & H)%m_bind_some. apply m_bind_some in H as (r & a1 & H1 & H2).
  apply m_bind_some in H2 as ([] & a2 & H2 & H3).
  unfold m_store in H1. destruct (rs_AppendMessages _ _ _ _ _ _) as [r' s'] eqn:E. injection H1 as <- <-.
  assert (K1 : said_kept msgs a (with_store s' a)).
  { pose proof E as E0. apply sl_append in E as [Hw' [_ He]]; [|done]. apply kept_store; [done..|]. intros m e Hl.
    assert (Hrel : ReliableStore st -> r' = inr true).
    { intros Hr. destruct (rel_append ctx (mo_append mo) (ap_runID a) msgs (ap_store a) (m, e) Hw Hl) as [s1 H].
      congruence. }
    assert (Hadd : messages_added (sl_log (ap_store a)) (ap_runID a) msgs (sl_log s') ->
      exists m' e', sl_log s' (ap_runID a) = Some (m', e') /\ grows_by msgs m m').
    { intros (m1 & e1 & l & G1 & G2 & G3). rewrite Hl in G1. injection G1 as <- <-. exists (m ++ l), e.
      split; [done|]. exists l. auto. }
    destruct r' as [err|[]]; [destruct He as [He|He] | |]; [|by apply Hadd..|].
    - exists m, e. split; [congruence|]. exists []. rewrite app_nil_r. split; [done|]. split; [by left|].
      intros Hr. by apply Hrel in Hr.
    - destruct He. congruence. }
  assert (K2 : said_kept [] (with_store s' a) a2).
  { destruct r' as [err|[]]; injection H2 as <-; [apply (kept_emit _ (with_store s' a)) | apply kept_apart; [|apply apart_refl]
      | apply (kept_emit _ (with_store s' a))]; apply K1. }
  eapply kept_then; [eapply kept_then; [exact K1 | exact K2]|].
  apply flush_kept in H3; [done|apply K2|rewrite (k_run _ _ _ K2); done|rewrite (k_run _ _ _ K2); done].
Qed.

(** ** Outcomes *)

(** What a turn's answer leaves in the conversation: everything, everything
    but calls without answers, or nothing. *)
Inductive turn_outcome (userMsg : Message) : option TurnResult -> option error -> list Message -> Prop :=
| OutDone r : turn_outcome userMsg (Some r) None (userMsg :: res_Messages r)
| OutKept r e : keeps_record e = true ->
    turn_outcome userMsg (Some r) (Some e) (userMsg :: DropUnansweredToolCalls (res_Messages r))
| OutFailed res e : res = None \/ keeps_record e = false -> turn_outcome userMsg res (Some e) [].

Lemma frames_kept {A} (m : M W Store A) a x a' :
  sl_wf (ap_store a) -> frames cfg m -> m a = Some (x, a') -> said_kept [] a a'.
Proof. intros Hw Hf H. apply Hf in H as [H _]. by apply kept_apart. Qed.

(** The end of every branch: hooks hear of it, and the surface. *)
Lemma finish_kept ctx res err ev (r : option error) a x a' :
  sl_wf (ap_store a) -> runner_events [ev] = [] ->
  m_bind (endExtensionTurns cfg ctx res err) (fun _ => m_bind (emit ev) (fun _ => m_ret r)) a = Some (x, a') ->
  x = r /\ said_kept [] a a'.
Proof.
  intros Hw He H.
  assert (Hf : frames cfg (m_bind (endExtensionTurns cfg ctx res err) (fun _ => emit ev))).
  { apply frames_bind; [apply frames_end | intros _; by apply frames_emit]. }
  apply m_bind_some in H as (u & a1 & H1 & H2). apply m_bind_some in H2 as (u2 & a2 & H2 & [= <- <-]).
  split; [done|]. eapply frames_kept; [done | exact Hf|]. unfold m_bind. rewrite H1. exact H2.
Qed.

Lemma settle_append ctx mo userMsg msgs res err ev (r : option error) (p : PersistingEmit) h a x a' :
  sl_wf (ap_store a) -> ap_history a = h ++ [userMsg] -> pe_runID p = ap_runID a -> ap_runID a <> "" ->
  runner_events [ev] = [] ->
  m_bind (m_bind (m_upd (fun a => with_history (ap_history a ++ msgs) a))
    (fun _ => persistTurnLocked st ctx mo (userMsg :: msgs) p))
    (fun _ => m_bind (endExtensionTurns cfg ctx res err) (fun _ => m_bind (emit ev) (fun _ => m_ret r))) a = Some (x, a') ->
  x = r /\ said_kept (userMsg :: msgs) (with_history (h ++ userMsg :: msgs) a) a'.
Proof.
  intros Hw Hh Hp Hid He H. apply m_bind_some in H as (u & a2 & H1 & H2).
  apply m_bind_some in H1 as (u1 & a1 & [= _ Ha1] & H1).
  rewrite Hh, <- app_assoc in Ha1. simpl in Ha1. subst a1.
  apply persist_kept in H1; [|done..]. apply finish_kept in H2 as [-> K2]; [|apply H1|done].
  split; [done|]. by eapply kept_then.
Qed.

Lemma settle_rollback ctx res err ev (r : option error) (p : PersistingEmit) userMsg h a x a' :
  sl_wf (ap_store a) -> ap_history a = h ++ [userMsg] -> pe_runID p = ap_runID a -> ap_runID a <> "" ->
  runner_events [ev] = [] ->
  m_bind (m_upd (fun a => with_history (removelast (ap_history a)) a))
    (fun _ => m_bind (persistFailedTurnLocked WithoutCancel st ctx p)
    (fun _ => m_bind (endExtensionTurns cfg ctx res err) (fun _ => m_bind (emit ev) (fun _ => m_ret r)))) a = Some (x, a') ->
  x = r /\ said_kept [] (with_history h a) a'.
Proof.
  intros Hw Hh Hp Hid He H. apply m_bind_some in H as (u1 & a1 & [= _ Ha1] & H).
  rewrite Hh, removelast_last in Ha1. subst a1. apply m_bind_some in H as (u & a2 & H1 & H2).
  apply flush_kept in H1; [|done..]. apply finish_kept in H2 as [-> K2]; [|apply H1|done].
  split; [done|]. by eapply kept_then.
Qed.

(** The session's half of a turn, the conversation ending in the user's
    message: what the answer leaves is in the history and in the store. *)
Lemma settle_spec ctx mo userMsg res err (p : PersistingEmit) h a x a' :
  sl_wf (ap_store a) -> ap_history a = h ++ [userMsg] -> pe_runID p = ap_runID a -> ap_runID a <> "" ->
  settle WithoutCancel cfg ctx mo userMsg res err (Some (st, p)) a = Some (x, a') ->
  x = err /\ exists said, turn_outcome userMsg res err said /\ said_kept said (with_history (h ++ said) a) a'.
Proof.
  intros Hw Hh Hp Hid. unfold settle. destruct err as [e|], res as [r|]; [destruct (keeps_record e) eqn:Ek| | |done]; intros H.
  - eapply settle_append in H as [-> K]; [|done..]. split; [done|]. eexists. split; [by constructor | exact K].
  - eapply settle_rollback in H as [-> K]; [|done..]. split; [done|]. exists []. rewrite app_nil_r.
    split; [constructor; by right | exact K].
  - eapply settle_rollback in H as [-> K]; [|done..]. split; [done|]. exists []. rewrite app_nil_r.
    split; [constructor; by left | exact K].
  - eapply settle_append in H as [-> K]; [|done..]. split; [done|]. eexists. split; [by constructor | exact K].
Qed.

(** What the Runner, or the Team, answers to the messages it is given. *)
Definition answered (ctx : Ctx) (schema : RawJSON) (msgs : list Message) (res : option TurnResult) (err : option error) : Prop :=
  match ac_team cfg with
  | Some team => exists active w name, eff_value (team ctx msgs active) w = Some (res, name, err)
  | None => exists w, eff_value (ac_runner cfg ctx {| tr_History := msgs; tr_Generation := GenerationParams_zero;
                        tr_ResponseSchema := schema; tr_ResponseGuided := None |}) w = (res, err)
  end.

(** Running the turn changes nothing of the session. *)
Lemma engine_spec ctx schema msgs p a res err pe a' :
  match ac_team cfg with
  | Some team => run_team team ctx msgs (Some (st, p))
  | None => run_single cfg ctx {| tr_History := msgs; tr_Generation := GenerationParams_zero;
                                  tr_ResponseSchema := schema; tr_ResponseGuided := None |} (Some (st, p))
  end a = Some (res, err, pe, a') ->
  answered ctx schema msgs res err /\ apart a a' /\ exists p', pe = Some (st, p') /\ pe_runID p' = pe_runID p.
Proof.
  assert (Hb : forall evs, pe_runID (buffer_all evs p) = pe_runID p).
  { intros evs. unfold buffer_all. generalize p. induction evs as [|e evs IH]; intros q; [done|]. simpl. by rewrite IH. }
  unfold answered. destruct (ac_team cfg) as [team|].
  - unfold run_team. destruct (team ctx msgs (ap_active a) (ap_world a, ap_steer a, ap_grants a)) as [[out evs] [[w q] g]] eqn:E.
    destruct out as [[[r name] e]|]; [|done]. intros [= <- <- <- <-]. split; [|split].
    + exists (ap_active a), (ap_world a, ap_steer a, ap_grants a), name. unfold eff_value. by rewrite E.
    + by constructor.
    + eauto.
  - unfold run_single. destruct (ac_runner cfg ctx _ _) as [[out evs] [[w q] g]] eqn:E. intros [= -> <- <-].
    split; [|split].
    + exists (ap_world a, ap_steer a, ap_grants a). unfold eff_value. by rewrite E.
    + by constructor.
    + eauto.
Qed.

Lemma transient_apart ctx a msgs a' : run_transient cfg ctx a = Some (msgs, a') -> apart a a'.
Proof.
  unfold run_transient. destruct (runTransient _ _ _ _) as [[m w]|]; [|done]. intros [= <- <-]. by constructor.
Qed.

(** ** A whole turn *)

(** A step that leaves the conversation and its record alone. *)
Record steady a a' : Prop := {
  sd_wf : sl_wf (ap_store a');
  sd_history : ap_history a' = ap_history a;
  sd_injection : ap_injection a' = ap_injection a;
  sd_stored : forall m, stored a = Some m -> stored a' = Some m;
}.

Lemma steady_trans a1 a2 a3 : steady a1 a2 -> steady a2 a3 -> steady a1 a3.
Proof. intros [] []. constructor; try congruence; auto. Qed.

Lemma apart_steady a a' : sl_wf (ap_store a) -> apart a a' -> steady a a'.
Proof.
  intros Hw []. constructor; try congruence. intros m Hm. by rewrite (stored_same a a').
Qed.

Lemma frames_steady {A} (m : M W Store A) a x a' :
  sl_wf (ap_store a) -> frames cfg m -> m a = Some (x, a') -> steady a a'.
Proof. intros Hw Hf H. apply Hf in H as [H _]. by apply apart_steady. Qed.

Lemma ensure_spec ctx mo a err a' :
  sl_wf (ap_store a) -> ensureRunLocked cfg st ctx mo a = Some (err, a') ->
  steady a a' /\ (err = None -> ap_runID a' <> "").
Proof.
  intros Hw (id & a0 & [= <- <-] & H)%m_bind_some.
  destruct (String.eqb_spec (ap_runID a) "") as [He|He]; simpl in H.
  2: { injection H as <- <-. split; [apply apart_steady, apart_refl; done | done]. }
  apply m_bind_some in H as (r & a1 & H1 & H2). unfold m_store in H1.
  destruct (rs_CreateRun st ctx (mo_create mo) "" (ap_store a)) as [r' s'] eqn:E. injection H1 as <- <-.
  apply sl_create in E as [Hw' Hc]; [|done]. destruct r' as [e|resp].
  - injection H2 as <- <-. split; [|done]. constructor; try done. intros m. unfold stored. simpl. by rewrite He.
  - apply m_bind_some in H2 as (u & a2 & [= _ <-] & H2). apply m_bind_some in H2 as (u2 & a3 & [= _ <-] & [= <- <-]).
    destruct Hc as (_ & Hid & Hc). split; [|done]. constructor; try done. intros m. unfold stored. simpl.
    rewrite He. intros [= <-]. rewrite (proj2 (String.eqb_neq _ _) Hid).
    destruct (cr_Created resp); [|by destruct Hc]. destruct Hc as [-> _]. done.
Qed.

Abbreviation injected_messages drained := (map (fun inj => system_message (inj_Text inj)) drained).

(** What a turn put into the conversation: nothing before the model was asked,
    or what the answer leaves. *)
Definition turn_said (ctx : Ctx) (mo : moment) (schema : RawJSON) a (drained : list InjectedContext)
    (err : option error) (said : list Message) : Prop :=
  (said = [] /\ err <> None) \/
  exists text view res p' w w',
    Drain data_field (ap_injection a) (mo_drain mo) (mo_range mo) = Some (drained, p')
    /\ runTransient (ac_transient cfg) ctx (ap_history a ++ injected_messages drained ++ [text_message RoleUser text]) w
       = Some (view, w')
    /\ answered ctx schema view res err
    /\ turn_outcome (text_message RoleUser text) res err said.

Definition turn_kept (ctx : Ctx) (mo : moment) (schema : RawJSON) a (err : option error) a' : Prop :=
  exists drained said,
    ap_history a' = ap_history a ++ injected_messages drained ++ said
    /\ turn_said ctx mo schema a drained err said
    /\ sl_wf (ap_store a')
    /\ (forall m, stored a = Some m -> exists m', stored a' = Some m' /\ grows_by said m m')
    /\ (drained = [] /\ ap_injection a' = ap_injection a
        \/ Drain data_field (ap_injection a) (mo_drain mo) (mo_range mo) = Some (drained, ap_injection a')).

Lemma turn_kept_steady ctx mo schema a a1 err a' :
  steady a a1 -> turn_kept ctx mo schema a1 err a' -> turn_kept ctx mo schema a err a'.
Proof.
  intros [Hw Hh Hi Hs] (drained & said & H1 & H2 & H3 & H4 & H5). exists drained, said. rewrite <- Hh, <- Hi.
  split; [done|]. split; [|auto]. destruct H2 as [H2 | (text & view & res & p' & w & w' & D & T & R)]; [by left|right].
  rewrite Hh in T. rewrite Hi in D. by exists text, view, res, p', w, w'.
Qed.

Lemma turn_kept_stopped ctx mo schema a e a' : steady a a' -> turn_kept ctx mo schema a (Some e) a'.
Proof.
  intros [Hw Hh Hi Hs]. exists [], []. simpl. rewrite app_nil_r. split; [done|]. split; [by left|]. split; [done|].
  split; [|by left]. intros m Hm. exists m. auto using grows_by_none.
Qed.

Lemma run_durable_some (ctx : Ctx) mo user a u a' :
  run_durable data_field ctx mo user a = Some (u, a') ->
  exists drained p', Drain data_field (ap_injection a) (mo_drain mo) (mo_range mo) = Some (drained, p')
    /\ a' = with_history ((ap_history a ++ injected_messages drained) ++ [user]) (with_events p' (ap_triggers a) a).
Proof.
  unfold run_durable, runDurable. cbn [run_stages injectionStage cst_Run mbind option_bind].
  destruct (Drain data_field (ap_injection a) (mo_drain mo) (mo_range mo)) as [[drained p']|]; [|done].
  intros [= _ <-]. eauto.
Qed.

Hypothesis Hst : ac_store cfg = Some st.

Lemma converse_spec ctx mo schema input a err a' :
  sl_wf (ap_store a) ->
  converse WithoutCancel data_field cfg ctx mo schema input a = Some (err, a') ->
  turn_kept ctx mo schema a err a'.
Proof.
  intros Hw H. unfold converse in H. rewrite Hst in H. set (user := text_message RoleUser input) in *.
  apply m_bind_some in H as (u & a1 & H1 & H). apply run_durable_some in H1 as (drained & p' & Ed & Ea1).
  set (h := ap_history a ++ injected_messages drained) in *.
  assert (Hh1 : ap_history a1 = h ++ [user]) by by rewrite Ea1.
  assert (Hs : forall m, stored a = Some m -> stored a1 = Some m) by by rewrite Ea1.
  assert (Hw1 : sl_wf (ap_store a1)) by by rewrite Ea1.
  apply m_bind_some in H as (ready & a2 & H2 & H).
  apply m_bind_some in H2 as (e0 & a3 & H3 & H2). apply ensure_spec in H3 as [S3 Hid]; [|done].
  destruct e0 as [e|].
  { injection H2 as <- <-. apply m_bind_some in H as (u3 & a4 & [= _ Ha4] & H).
    apply m_bind_some in H as (u2 & a5 & H5 & [= <- <-]). injection H5 as _ <-.
    rewrite (sd_history _ _ S3), Hh1, removelast_last in Ha4. subst a4.
    exists drained, []. rewrite app_nil_r. split; [done|]. split; [by left|]. split; [apply S3|].
    split; [intros m Hm; exists m; split; [by apply S3, Hs | apply grows_by_none]|].
    right. rewrite Ed. simpl. by rewrite (sd_injection _ _ S3), Ea1. }
  apply m_bind_some in H2 as (id & a4 & [= <- <-] & [= <- <-]). specialize (Hid eq_refl).
  apply m_bind_some in H as (view & a5 & H5 & H).
  assert (Hview : exists w w', runTransient (ac_transient cfg) ctx (h ++ [user]) w = Some (view, w')).
  { unfold run_transient in H5. rewrite (sd_history _ _ S3), Hh1 in H5. exists (ap_world a3).
    destruct (runTransient _ _ _ _) as [[v w']|]; [|done]. injection H5 as -> _. eauto. }
  apply transient_apart in H5. apply m_bind_some in H as ([[res e0] pe] & a6 & H6 & H).
  apply engine_spec in H6 as (Hans & A6 & p & -> & Hp).
  assert (A36 : apart a3 a6) by by eapply apart_trans. destruct A36 as [E1 E2 E3 E4 E5].
  assert (S6 : steady a1 a6) by (eapply steady_trans; [exact S3|]; apply apart_steady; [apply S3|]; by eapply apart_trans).
  eapply (settle_spec _ _ user _ _ p h) in H as [-> (said & Ho & K)];
    [|apply S6 | rewrite (sd_history _ _ S6); done | rewrite Hp, E2; done | rewrite E2; done].
  exists drained, said. unfold h in Hview. rewrite <- app_assoc in Hview. destruct Hview as (w & w' & Hview).
  split; [rewrite (k_history _ _ _ K); unfold h; simpl; by rewrite <- app_assoc|].
  split; [right; by exists input, view, res, p', w, w'|]. split; [apply K|].
  split; [intros m Hm; by apply K, S6, Hs|]. right. rewrite Ed, (k_injection _ _ _ K). simpl.
  by rewrite (sd_injection _ _ S6), Ea1.
Qed.

Lemma turn_body_spec ctx mo input schema announced a err a' :
  sl_wf (ap_store a) ->
  turn_body WithoutCancel data_field cfg ctx mo input schema announced a = Some (err, a') ->
  turn_kept ctx mo schema a err a'.
Proof.
  intros Hw H. unfold turn_body in H.
  apply m_bind_some in H as (u1 & a1 & [= _ <-] & H). apply m_bind_some in H as (u2 & a2 & [= _ <-] & H).
  apply m_bind_some in H as (u3 & a3 & [= _ <-] & H). apply m_bind_some in H as (u4 & a4 & H4 & H).
  match type of H4 with _ ?x = _ => set (a3 := x) in * end.
  apply (turn_kept_steady ctx mo schema a a4).
  { apply (steady_trans a a3); [by constructor|].
    destruct announced; [injection H4 as _ <-; by constructor|]. injection H4 as _ <-. by constructor. }
  assert (Hw4 : sl_wf (ap_store a4)) by (destruct announced; injection H4 as _ <-; done). clear Hw H4. clearbody a3.
  apply m_bind_some in H as (e & a5 & H5 & H). apply frames_steady in H5; [|done|apply frames_start].
  destruct e as [e|].
  { apply m_bind_some in H as (u5 & a6 & H6 & [= <- <-]). apply turn_kept_stopped.
    apply (steady_trans _ a5); [done|]. injection H6 as _ <-. destruct H5. by constructor. }
  apply (turn_kept_steady ctx mo schema a4 a5); [done|]. pose proof (sd_wf _ _ H5) as Hw5.
  apply m_bind_some in H as (r & a6 & H6 & H). apply frames_steady in H6; [|done|apply frames_transform].
  destruct r as [e|text].
  { apply m_bind_some in H as (u5 & a7 & H7 & [= <- <-]). apply turn_kept_stopped.
    apply (steady_trans _ a6); [done|]. injection H7 as _ <-. destruct H6. by constructor. }
  apply (turn_kept_steady ctx mo schema a5 a6); [done|]. eapply converse_spec; [apply H6 | exact H].
Qed.

(** C5: A turn either joins the conversation or leaves it.  The history after
    [runOneTurn] is the history before it, the events that were drained for
    it, and what the turn said: nothing when it failed or never reached the
    model; the user's message, as the transforms left it, and every message
    of the answer when it ended well; the same without calls nobody answered
    when it ran out of steps or context or a hook stopped it.  The answer is
    the Runner's (or the Team's) to the whole conversation with the per-turn
    context woven in, and of that context nothing is kept.  The stored run
    grows by exactly what was said, timestamps filled in, or, if the store
    fails, not at all; the queue of steers is closed and no skill's grants
    outlive the turn. *)
Theorem session_turn ctx mo input schema announced a late err a' m :
  sl_wf (ap_store a) -> stored a = Some m ->
  runOneTurn WithoutCancel data_field cfg ctx mo input schema announced a = Some (late, err, a') ->
  exists drained said m',
    ap_history a' = ap_history a ++ injected_messages drained ++ said
    /\ turn_said ctx mo schema a drained err said
    /\ stored a' = Some m' /\ grows_by said m m'
    /\ sl_wf (ap_store a') /\ ap_steer a' = {| sq_active := false; sq_queue := [] |} /\ gr_active (ap_grants a') = [].
Proof.
  intros Hw Hm H. unfold runOneTurn in H. apply m_bind_some in H as (e & a1 & H1 & H).
  apply turn_body_spec in H1 as (drained & said & Hh & Hs & Hw1 & Hk & _); [|done].
  apply m_bind_some in H as (u & a2 & [= _ <-] & H). apply m_bind_some in H as (l & a3 & H3 & [= -> <- <-]).
  injection H3 as _ <-. destruct (Hk m Hm) as (m' & Hm' & G). by exists drained, said, m'.
Qed.

(** What the next results need of it. *)
Lemma one_turn_kept ctx mo input schema announced a r a' :
  sl_wf (ap_store a) ->
  runOneTurn WithoutCancel data_field cfg ctx mo input schema announced a = Some (r, a') ->
  turn_kept ctx mo schema a r.2 a'.
Proof.
  intros Hw H. unfold runOneTurn in H. apply m_bind_some in H as (e & a1 & H1 & H).
  apply turn_body_spec in H1; [|done].
  apply m_bind_some in H as (u & a2 & [= _ <-] & H). apply m_bind_some in H as (l & a3 & H3 & [= <- <-]).
  injection H3 as _ <-. exact H1.
Qed.
End Turns.
