(* ===== verification/SessionRuns.v ===== *)
(** * Sessions over time

    A session is a sequence of operations on its App: turns, events, attaching
    to runs, resuming and forking them.  Whatever the sequence, the stored run
    is part of the conversation in memory; with a store that does not fail and
    no events to inject, it is the conversation, so resuming it gives the
    conversation back.  Then: steers are neither lost nor doubled, a surface
    that attaches late is replayed the Runner's events, and a search of the
    sessions ends with the matches among the newest. *)

From S2P Require Import Prelude GoStr Errors Json Provider TreeBudget Middleware Events Compaction StepStage.
From S2P Require Import RunStore Triggers Runner SubAgents Team Stages Injection SkillGrants Session SessionLog.
Local Open Scope Z_scope.

(** ** Operations *)

Inductive session_op {Ctx : Type} :=
| OpTurn (ctx : Ctx) (mo : moment) (mos : list moment) (input : string) (schema : RawJSON)
| OpSubmit (ctx : Ctx) (mo : moment) (mos : list moment) (input : string) (schema : RawJSON)
| OpEvent (ctx : Ctx) (mo : moment) (now : Time) (ev : IncomingEvent)
| OpAttach (ctx : Ctx) (mo : moment) (id : string)
| OpResume (ctx : Ctx) (id : string)
| OpFork (ctx : Ctx) (mo : moment) (newRunID : string) (atMessage : Z).
Arguments session_op : clear implicits.

Section Runs.
Context {Ctx W Store : Type} (st : RunStore Ctx Store) {laws : StoreLaws st}.
Variables (WithoutCancel : Ctx -> Ctx) (data_field : RawJSON -> string -> option RawJSON).
Variable cfg : AppConfig Ctx W Store.
Implicit Types a : App W Store.

Definition session_do (op : session_op Ctx) a : option (App W Store) :=
  match op with
  | OpTurn ctx mo mos input schema => snd <$> RunTurnWith WithoutCancel data_field cfg ctx mo mos input schema a
  | OpSubmit ctx mo mos input schema => snd <$> Submit WithoutCancel data_field cfg ctx mo mos input schema a
  | OpEvent ctx mo now ev => snd <$> consume_event data_field cfg ctx mo now ev a
  | OpAttach ctx mo id => snd <$> AttachRun cfg ctx mo id a
  | OpResume ctx id => snd <$> Resume cfg ctx id a
  | OpFork ctx mo new n => snd <$> Fork cfg ctx mo new n a
  end.

(** [None] when an operation panics, or the moments given for late turns run
    out. *)
Fixpoint session_run (ops : list (session_op Ctx)) a : option (App W Store) :=
  match ops with
  | [] => Some a
  | op :: ops => a ← session_do op a; session_run ops a
  end.

(** An App as it is built: no conversation, no run. *)
Record fresh a : Prop := {
  fr_history : ap_history a = [];
  fr_noRun : ap_runID a = "";
  fr_wf : sl_wf (ap_store a);
}.

(** ** The stored run is part of the conversation *)

Definition part_of (h m : list Message) : Prop := exists l, l `sublist_of` h /\ Forall2 same_said l m.

(** The conversation and the stored messages of the active run are related. *)
Record in_step (R : list Message -> list Message -> Prop) a : Prop := {
  is_wf : sl_wf (ap_store a);
  is_stored : exists m, stored st a = Some m /\ R (ap_history a) m;
}.

Lemma part_of_same m : part_of m m.
Proof. exists m. split; [done|]. apply Forall2_same_length_lookup_2; [done|]. intros i x y H1 H2. simplify_eq. apply same_said_refl. Qed.

Lemma part_of_grows h m d said m' : part_of h m -> grows_by st said m m' -> part_of (h ++ d ++ said) m'.
Proof.
  intros (l & Hl & Hf) (l' & -> & Hc & _). destruct Hc as [->|Hc].
  - exists l. rewrite app_nil_r. split; [by apply sublist_inserts_r | done].
  - exists (l ++ said). split; [|by apply Forall2_app]. apply sublist_app; [done|]. by apply sublist_inserts_l.
Qed.

Lemma part_of_take h m k : part_of h m -> part_of h (take k m).
Proof.
  intros (l & Hl & Hf). exists (take k l). split; [|by apply Forall2_take]. etrans; [|exact Hl]. apply sublist_take.
Qed.

Lemma part_of_more h d m : part_of h m -> part_of (h ++ d) m.
Proof. intros (l & Hl & Hf). exists l. split; [by apply sublist_inserts_r | done]. Qed.

(** ** Switching runs *)

Lemma resume_spec ctx id a err a' :
  sl_wf (ap_store a) -> resumeLocked cfg st ctx id a = Some (err, a') ->
  (err <> None /\ a' = a) \/
  (err = None /\ exists m e, id <> "" /\ sl_log (ap_store a) id = Some (m, e)
     /\ ap_history a' = m /\ ap_runID a' = id /\ ap_store a' = ap_store a /\ ap_injection a' = ap_injection a).
Proof.
  intros Hw (s & a0 & [= <- <-] & H)%m_bind_some.
  destruct (rs_LoadRun st ctx id (ap_store a)) as [e|[r|]] eqn:El; [injection H as <- <-; by left| |injection H as <- <-; by left].
  apply sl_load in El as [Hid Hl]; [|done]. apply m_bind_some in H as (u & a1 & [= _ <-] & H).
  apply m_bind_some in H as (u2 & a2 & [= _ <-] & [= <- <-]). right. split; [done|]. by exists (run_Messages r), (run_Events r).
Qed.

Lemma resume_reliable ctx id a err a' l :
  ReliableStore st -> sl_wf (ap_store a) -> sl_log (ap_store a) id = Some l ->
  resumeLocked cfg st ctx id a = Some (err, a') -> err = None.
Proof.
  intros Hr Hw Hl (s & a0 & [= <- <-] & H)%m_bind_some. destruct (rel_load ctx id (ap_store a) l Hw Hl) as [r Er].
  rewrite Er in H. by injection H as <- _.
Qed.

Lemma resumed_exact a m e id : 
  id <> "" -> sl_log (ap_store a) id = Some (m, e) -> ap_runID a = id -> stored st a = Some m.
Proof. intros Hid Hl <-. unfold stored. rewrite (proj2 (String.eqb_neq _ _) Hid), Hl. done. Qed.

(** A store call of the App's, and what is left of the App by it. *)
Lemma stored_keeps a s' :
  keeps_all (sl_log (ap_store a)) (sl_log s') -> forall m, stored st a = Some m -> stored st (with_store s' a) = Some m.
Proof.
  intros Hk m. unfold stored. simpl. destruct (String.eqb (ap_runID a) ""); [done|].
  intros ([m0 e] & Hl & ->)%fmap_Some. by rewrite (Hk _ _ Hl).
Qed.

Lemma in_step_refl (R : list Message -> list Message -> Prop) a m :
  (forall m, R m m) -> sl_wf (ap_store a) -> stored st a = Some m -> ap_history a = m -> in_step R a.
Proof. intros HR Hw Hm Hh. constructor; [done|]. exists m. rewrite Hh. auto. Qed.

Lemma in_step_same (R : list Message -> list Message -> Prop) a a' :
  in_step R a -> sl_wf (ap_store a') -> ap_history a' = ap_history a ->
  (forall m, stored st a = Some m -> stored st a' = Some m) -> in_step R a'.
Proof. intros [Hw (m & Hm & H)] Hw' Hh Hs. constructor; [done|]. exists m. rewrite Hh. auto. Qed.

(** Where a failed load after a fork leaves the session. *)
Definition cuts (R : list Message -> list Message -> Prop) : Prop :=
  (forall h m k, R h m -> R h (take k m)) \/ ReliableStore st.

Hypothesis Hst : ac_store cfg = Some st.

Lemma attach_in_step R ctx mo id a r a' :
  (forall m, R m m) -> in_step R a -> AttachRun cfg ctx mo id a = Some (r, a') -> in_step R a'.
Proof.
  intros HR Hi H. unfold AttachRun in H. rewrite Hst in H. apply m_bind_some in H as (c & a1 & H1 & H).
  unfold m_store in H1. destruct (rs_CreateRun st ctx (mo_create mo) id (ap_store a)) as [c' s'] eqn:E.
  injection H1 as <- <-. apply sl_create in E as [Hw' Hc]; [|apply Hi].
  destruct c' as [e|resp].
  { injection H as <- <-. apply (in_step_same R a); [done..|]. by apply stored_keeps. }
  destruct Hc as (_ & Hid & Hc). destruct (cr_Created resp).
  - apply m_bind_some in H as (u & a2 & [= _ <-] & H). apply m_bind_some in H as (u2 & a3 & [= _ <-] & [= <- <-]).
    apply (in_step_refl R _ []); [done..| |done]. eapply resumed_exact; [exact Hid|apply Hc|done].
  - destruct Hc as [_ Hc]. assert (Hi1 : in_step R (with_store s' a)).
    { apply (in_step_same R a); [done..|]. apply stored_keeps. rewrite Hc. by intros i l. }
    apply resume_spec in H as [[_ ->]|(_ & m & e & Hne & Hl & Hh & Hr & Hs & _)]; [done| |done].
    apply (in_step_refl R _ m); [done|by rewrite Hs| |done]. eapply resumed_exact; [exact Hne| |exact Hr].
    rewrite Hs. exact Hl.
Qed.

Lemma resume_in_step R ctx id a r a' :
  (forall m, R m m) -> in_step R a -> Resume cfg ctx id a = Some (r, a') -> in_step R a'.
Proof.
  intros HR Hi H. unfold Resume in H. rewrite Hst in H.
  apply resume_spec in H as [[_ ->]|(_ & m & e & Hne & Hl & Hh & Hr & Hs & _)]; [done| |apply Hi].
  apply (in_step_refl R _ m); [done|rewrite Hs; apply Hi| |done]. eapply resumed_exact; [exact Hne| |exact Hr].
  by rewrite Hs.
Qed.

Lemma fork_in_step R ctx mo new n a r a' :
  (forall m, R m m) -> cuts R -> in_step R a -> Fork cfg ctx mo new n a = Some (r, a') -> in_step R a'.
Proof.
  intros HR Hcut Hi H. unfold Fork in H. rewrite Hst in H. apply m_bind_some in H as (id & a0 & [= <- <-] & H).
  destruct (String.eqb_spec (ap_runID a) "") as [|Hid]; [by injection H as <- <-|].
  apply m_bind_some in H as (f & a1 & H1 & H). unfold m_store in H1.
  destruct (rs_ForkRun _ _ _ _ _ _ _) as [f' s'] eqn:E. injection H1 as <- <-.
  apply sl_fork in E as [Hw' Hf]; [|apply Hi].
  assert (Hsame : keeps_all (sl_log (ap_store a)) (sl_log s') -> in_step R (with_store s' a)).
  { intros Hk. apply (in_step_same R a); [done..|]. by apply stored_keeps. }
  destruct f' as [e|resp]; [injection H as <- <-; by apply Hsame|]. cbn [forked] in Hf.
  destruct (fr_Found resp), (fr_Created resp); cbn [andb negb] in H, Hf;
    try (injection H as <- <-; apply Hsame; rewrite Hf; by intros i l).
  destruct Hf as (Hne & Hbut & m & e & k & e' & Hl & Hl' & Hk).
  assert (Hm : stored st a = Some m) by (eapply resumed_exact; eauto).
  assert (HRm : R (ap_history a) m) by (destruct Hi as [_ (m0 & H0 & ?)]; congruence).
  destruct (Z.ltb_spec 0 n) as [Hn|Hn].
  - apply m_bind_some in H as (err & a2 & H2 & [= <- <-]). pose proof H2 as H2'.
    apply resume_spec in H2 as [[Herr ->]|(_ & m' & e1 & Hne' & Hl1 & Hh & Hr & Hs & _)]; [| |done].
    + destruct (decide (ap_runID a = fr_RunID resp)) as [Heq|Hd].
      * constructor; [done|]. exists (take k m). split; [eapply (resumed_exact _ _ e'); eauto; simpl; congruence|]. simpl.
        destruct Hcut as [Hc|Hr]; [by apply Hc|]. by eapply resume_reliable in H2'.
      * apply (in_step_same R a); [done..|]. intros m1. unfold stored. simpl. by rewrite Hbut.
    + apply (in_step_refl R _ m'); [done|by rewrite Hs| |done]. eapply resumed_exact; [exact Hne'| |exact Hr].
      by rewrite Hs.
  - apply m_bind_some in H as (u & a2 & [= _ <-] & [= <- <-]). constructor; [done|]. exists m. split; [|done].
    eapply (resumed_exact _ m e'); [exact Hne| |done]. simpl. rewrite Hl'. by rewrite take_ge by auto.
Qed.

(** ** Turns in a row *)

(** A property that announcements and the queue of steers do not touch. *)
Record untouched (P : App W Store -> Prop) : Prop := {
  ut_emit : forall ev a, runner_events [ev] = [] -> P a -> P (with_log (ap_log a ++ [ev]) (ap_persisted a) a);
  ut_steer : forall q a, P a -> P (with_turn_world (ap_world a) q a);
}.

Lemma run_turn_with_inv P ctx mo mos input schema a err a' :
  untouched P ->
  (forall mo input schema announced a r a', P a ->
     runOneTurn WithoutCancel data_field cfg ctx mo input schema announced a = Some (r, a') -> P a') ->
  P a -> RunTurnWith WithoutCancel data_field cfg ctx mo mos input schema a = Some (err, a') -> P a'.
Proof.
  intros [Hlog _] Hone Hp. unfold RunTurnWith. destruct (_ && _).
  { intros H. apply m_bind_some in H as (u & a1 & [= _ <-] & [= <- <-]). by apply Hlog. }
  intros H. apply m_bind_some in H as (r & a1 & H1 & H). apply Hone in H1; [|done]. clear Hp.
  revert H. generalize (r.1) (r.2). intros late e. revert late e a1 H1.
  induction mos as [|mo' mos IH]; intros [|s late] e a1 H1 H; cbn [late_turns] in H; try done.
  - by injection H as <- <-.
  - by injection H as <- <-.
  - apply m_bind_some in H as (r' & a2 & H2 & H). apply Hone in H2; [|done]. by eapply IH.
Qed.

Lemma submit_inv P ctx mo mos input schema a r a' :
  untouched P ->
  (forall mo input schema announced a r a', P a ->
     runOneTurn WithoutCancel data_field cfg ctx mo input schema announced a = Some (r, a') -> P a') ->
  P a -> Submit WithoutCancel data_field cfg ctx mo mos input schema a = Some (r, a') -> P a'.
Proof.
  intros Hu Hone Hp. unfold Submit. destruct (steer_offer input (ap_steer a)) as [[] q].
  - intros H. apply m_bind_some in H as (u & a1 & [= _ <-] & [= _ <-]).
    apply (ut_emit P Hu _ (with_turn_world (ap_world a) q a)); [done|]. by apply Hu.
  - intros H. apply m_bind_some in H as (err & a1 & H1 & [= _ <-]). by eapply run_turn_with_inv.
Qed.

(** ** Turns a trigger starts *)

Lemma proactive_spec ctx mo b a u a' :
  runProactiveTurn data_field cfg ctx mo b a = Some (u, a') ->
  ap_runID a' = ap_runID a /\ ap_store a' = ap_store a
  /\ exists d, ap_history a' = ap_history a ++ d.
Proof.
  intros H. unfold runProactiveTurn in H. apply m_bind_some in H as (u1 & a1 & [= _ Ha1] & H).
  apply m_bind_some in H as (e & a2 & H2 & H). apply frames_start in H2 as [[E1 E2 E3 E4 E5] _].
  assert (B : ap_runID a2 = ap_runID a /\ ap_store a2 = ap_store a /\ ap_history a2 = ap_history a) by (subst a1; done).
  destruct B as (B1 & B2 & B3). clear Ha1 E1 E2 E3 E4 E5.
  destruct e as [e|].
  { injection H as _ <-. repeat split; try done. exists []. by rewrite app_nil_r. }
  apply m_bind_some in H as (u2 & a3 & H3 & H). apply run_durable_some in H3 as (drained & p' & _ & ->).
  apply m_bind_some in H as (h & a4 & [= <- <-] & H). apply m_bind_some in H as ([[res err] pe] & a5 & H5 & H).
  unfold run_single in H5. destruct (ac_runner cfg ctx _ _) as [[out evs] [[w q] g]]. injection H5 as -> _ <-.
  assert (Hend : forall ev err res a u a', runner_events [ev] = [] ->
    m_bind (endExtensionTurns cfg ctx res err) (fun _ => emit ev) a = Some (u, a') -> apart a a').
  { intros ev err0 res0 b0 v b1 Hev Hb. eapply (frames_bind cfg) in Hb as [Hb _]; [done|apply frames_end|].
    intros _. by apply frames_emit. }
  destruct err as [err|]; [|destruct res as [r|]; [|done]].
  - apply Hend in H as [F1 F2 F3 _ _]; [|done]. simpl in *. rewrite F1, F2, F3, B3, <- app_assoc. eauto.
  - apply m_bind_some in H as (u3 & a6 & [= _ <-] & H). apply Hend in H as [F1 F2 F3 _ _]; [|done]. simpl in *.
    rewrite F1, F2, F3, B3, <- !app_assoc. eauto.
Qed.

Lemma event_spec ctx mo now ev a u a' :
  consume_event data_field cfg ctx mo now ev a = Some (u, a') ->
  ap_runID a' = ap_runID a /\ ap_store a' = ap_store a
  /\ exists d, ap_history a' = ap_history a ++ d.
Proof.
  intros H. unfold consume_event in H. apply m_bind_some in H as (firing & a1 & H1 & H).
  destruct (Ingest (ap_injection a) now ev) as [p|]; [simpl in H1|done].
  destruct (OnEvent (ap_triggers a) now ev) as [[f t]|]; [|done]. injection H1 as <- <-.
  destruct f as [b|]; [by apply proactive_spec in H|]. injection H as _ <-. repeat split; try done.
  exists []. by rewrite app_nil_r.
Qed.

(** ** The stored run is part of the conversation *)

Lemma turn_part_of ctx mo schema a err a' :
  in_step part_of a -> turn_kept st data_field cfg ctx mo schema a err a' -> in_step part_of a'.
Proof.
  intros [Hw (m & Hm & Hp)] (drained & said & Hh & _ & Hw' & Hk & _). destruct (Hk m Hm) as (m' & Hm' & G).
  constructor; [done|]. exists m'. split; [done|]. rewrite Hh. by eapply part_of_grows.
Qed.

Lemma untouched_in_step R : untouched (in_step R).
Proof. constructor; [intros ev a _ [] | intros q a []]; by constructor. Qed.

Lemma do_part_of op a a' : in_step part_of a -> session_do op a = Some a' -> in_step part_of a'.
Proof.
  intros Hi H.
  assert (Hone : forall ctx mo input schema announced a r a', in_step part_of a ->
     runOneTurn WithoutCancel data_field cfg ctx mo input schema announced a = Some (r, a') -> in_step part_of a').
  { intros ctx mo input schema announced b r b' Hb H1. eapply one_turn_kept in H1; [|done|apply Hb].
    by eapply turn_part_of. }
  destruct op; cbn [session_do] in H; apply fmap_Some in H as ([r a1] & H & ->); simpl.
  - eapply run_turn_with_inv; [apply untouched_in_step | apply Hone | exact Hi | exact H].
  - eapply submit_inv; [apply untouched_in_step | apply Hone | exact Hi | exact H].
  - destruct Hi as [Hw (m & Hm & Hp)]. apply event_spec in H as (Hr & Hs & d & Hd). constructor; [by rewrite Hs|].
    exists m. rewrite (stored_same st a a1) by done. split; [done|]. rewrite Hd. by apply part_of_more.
  - eapply attach_in_step in H; [done|apply part_of_same|done].
  - eapply resume_in_step in H; [done|apply part_of_same|done].
  - eapply fork_in_step in H; [done|apply part_of_same| |done]. left. intros. by apply part_of_take.
Qed.

(** C21: The record never says what was not said.  After any sequence of turns,
    submitted messages, incoming events and the turns they trigger, attaching,
    resuming and forking, over any store that keeps to its interface and
    whose calls may fail at any point, the active run is in the store and its
    messages are a subsequence of the conversation in memory, word for word
    and in order: a failed or cancelled turn, the context woven in for one
    turn, or an append that failed never show up in it. *)
Theorem session_record_sound ops a a' :
  fresh a -> session_run ops a = Some a' ->
  exists m said, stored st a' = Some m /\ said `sublist_of` ap_history a' /\ Forall2 same_said said m.
Proof.
  intros [Hh Hr Hw] H. assert (Hi : in_step part_of a).
  { constructor; [done|]. exists []. unfold stored. rewrite Hr, Hh. split; [done|]. by exists []. }
  clear Hh Hr Hw. revert a Hi H. induction ops as [|op ops IH]; intros a Hi H; cbn in H.
  - injection H as ->. destruct Hi as [_ (m & Hm & said & H1 & H2)]. eauto.
  - destruct (session_do op a) as [a1|] eqn:E; [|done]. simpl in H. eapply IH; [|exact H]. by eapply do_part_of.
Qed.

(** ** The stored run is the conversation *)

Definition same_log : list Message -> list Message -> Prop := Forall2 same_said.

Lemma same_log_refl m : same_log m m.
Proof. apply Forall2_same_length_lookup_2; [done|]. intros i x y H1 H2. simplify_eq. apply same_said_refl. Qed.

(** Nothing waits to be injected. *)
Record idle (p : EventInjectionPolicy) : Prop := {
  id_pending : ip_pending p = [];
  id_session : ip_sessOrd p = [];
  id_windows : ip_windows p = ∅;
}.

Lemma drain_idle p now range : idle p -> exists p', Drain data_field p now range = Some ([], p') /\ idle p'.
Proof.
  intros [H1 H2 H3]. unfold Drain.
  assert (Hf : flush_windows p now range = Some p).
  { induction range as [|n range IH]; [done|]. cbn [flush_windows]. by rewrite H3, lookup_empty. }
  rewrite Hf. cbn [mbind option_bind]. unfold candidates. rewrite H1, H2. simpl. eexists. split; [reflexivity|].
  by constructor.
Qed.

Definition exact_state a : Prop := in_step same_log a /\ idle (ap_injection a).

Lemma turn_exact ctx mo schema a err a' :
  ReliableStore st -> exact_state a -> turn_kept st data_field cfg ctx mo schema a err a' -> exact_state a'.
Proof.
  intros Hr [[Hw (m & Hm & Hp)] Hi] (drained & said & Hh & _ & Hw' & Hk & Hd).
  destruct (drain_idle _ (mo_drain mo) (mo_range mo) Hi) as (p' & Ed & Hi').
  destruct (Hk m Hm) as (m' & Hm' & l & -> & _ & G). specialize (G Hr).
  assert (Hnone : drained = [] /\ idle (ap_injection a')).
  { destruct Hd as [[-> ->]|Hd]; [done|]. rewrite Ed in Hd. by injection Hd as <- <-. }
  destruct Hnone as [-> Hi2]. split; [|done]. constructor; [done|]. exists (m ++ l). split; [done|].
  rewrite Hh. simpl. by apply Forall2_app.
Qed.

Lemma resume_injection ctx id a err a' :
  resumeLocked cfg st ctx id a = Some (err, a') -> ap_injection a' = ap_injection a.
Proof.
  intros (s & a0 & [= <- <-] & H)%m_bind_some. destruct (rs_LoadRun _ _ _ _) as [e|[r|]]; [by injection H as _ <-| |by injection H as _ <-].
  apply m_bind_some in H as (u & a1 & [= _ <-] & H). by apply m_bind_some in H as (u2 & a2 & [= _ <-] & [= _ <-]).
Qed.

Lemma attach_injection ctx mo id a r a' : AttachRun cfg ctx mo id a = Some (r, a') -> ap_injection a' = ap_injection a.
Proof.
  unfold AttachRun. rewrite Hst. intros (c & a1 & H1 & H)%m_bind_some.
  unfold m_store in H1. destruct (rs_CreateRun _ _ _ _ _) as [c' s']. injection H1 as <- <-.
  destruct c' as [e|resp]; [by injection H as _ <-|]. destruct (cr_Created resp); [|by apply resume_injection in H].
  apply m_bind_some in H as (u & a2 & [= _ <-] & H). by apply m_bind_some in H as (u2 & a3 & [= _ <-] & [= _ <-]).
Qed.

Lemma fork_injection ctx mo new n a r a' : Fork cfg ctx mo new n a = Some (r, a') -> ap_injection a' = ap_injection a.
Proof.
  unfold Fork. rewrite Hst. intros (id & a0 & [= <- <-] & H)%m_bind_some.
  destruct (String.eqb _ _); [by injection H as _ <-|]. apply m_bind_some in H as (f & a1 & H1 & H).
  unfold m_store in H1. destruct (rs_ForkRun _ _ _ _ _ _ _) as [f' s']. injection H1 as <- <-.
  destruct f' as [e|resp]; [by injection H as _ <-|].
  destruct (negb _); [by injection H as _ <-|]. destruct (negb _); [by injection H as _ <-|].
  destruct (0 <? n).
  - apply m_bind_some in H as (e & a2 & H2 & [= _ <-]). by apply resume_injection in H2.
  - by apply m_bind_some in H as (u & a2 & [= _ <-] & [= _ <-]).
Qed.

Definition quiet (op : session_op Ctx) : Prop := match op with OpEvent _ _ _ _ => False | _ => True end.

Lemma do_exact op a a' :
  ReliableStore st -> quiet op -> exact_state a -> session_do op a = Some a' -> exact_state a'.
Proof.
  intros Hr Hq Hi H.
  assert (Hone : forall ctx mo input schema announced a r a', exact_state a ->
     runOneTurn WithoutCancel data_field cfg ctx mo input schema announced a = Some (r, a') -> exact_state a').
  { intros ctx mo input schema announced b r b' Hb H1. eapply one_turn_kept in H1; [|done|apply Hb].
    by eapply turn_exact. }
  assert (Hu : untouched exact_state) by (constructor; [intros ev b He [H1 H2] | intros q b [H1 H2]]; (split; [by apply untouched_in_step | done])).
  destruct op; try done; cbn [session_do] in H; apply fmap_Some in H as ([r a1] & H & ->); simpl.
  - eapply run_turn_with_inv; [apply Hu | apply Hone | exact Hi | exact H].
  - eapply submit_inv; [apply Hu | apply Hone | exact Hi | exact H].
  - split; [|apply attach_injection in H; rewrite H; apply Hi]. eapply attach_in_step in H; [done|apply same_log_refl|apply Hi].
  - split; [eapply resume_in_step in H; [done|apply same_log_refl|apply Hi]|].
    unfold Resume in H. rewrite Hst in H. apply resume_injection in H. rewrite H. apply Hi.
  - split; [|apply fork_injection in H; rewrite H; apply Hi].
    eapply fork_in_step in H; [done|apply same_log_refl|by right|apply Hi].
Qed.

(** C6: A session can be picked up where it was left.  After any sequence of
    turns (ended well, failed, cancelled, stopped), attaching, resuming and
    forking, with a store that does not fail and no events to inject, the
    conversation in memory is what the active run holds; so resuming that run,
    in this process or in another, succeeds and gives the conversation back,
    message for message, with timestamps filled in. *)
Theorem session_resumes ctx ops a a' :
  ReliableStore st -> fresh a -> idle (ap_injection a) -> Forall quiet ops ->
  session_run ops a = Some a' -> ap_runID a' <> "" ->
  exists a'', Resume cfg ctx (ap_runID a') a' = Some (None, a'')
    /\ Forall2 same_said (ap_history a') (ap_history a'') /\ ap_runID a'' = ap_runID a'.
Proof.
  intros Hr [Hh Hn Hw] Hid Hq H Hrun. assert (Hi : exact_state a).
  { split; [|done]. constructor; [done|]. exists []. unfold stored. rewrite Hn, Hh. split; [done | constructor]. }
  clear Hh Hn Hw Hid. assert (Hi' : exact_state a').
  { revert a Hi H. induction Hq as [|op ops Ho Hq IH]; intros a Hi H; cbn in H; [by injection H as <-|].
    destruct (session_do op a) as [a1|] eqn:E; [|done]. eapply IH; [|exact H]. by eapply do_exact. }
  destruct Hi' as [[Hw (m & Hm & Hl)] _]. unfold stored in Hm. rewrite (proj2 (String.eqb_neq _ _) Hrun) in Hm.
  apply fmap_Some in Hm as ([m0 e] & Hlog & ->). destruct (rel_load ctx _ _ _ Hw Hlog) as [r Er].
  pose proof (sl_load _ _ _ _ Hw Er) as [_ Hr2]. rewrite Hlog in Hr2. injection Hr2 as -> ->.
  unfold Resume. rewrite Hst. unfold resumeLocked, m_bind, m_get. cbn [mbind option_bind]. rewrite Er.
  eexists. split; [reflexivity|]. by split.
Qed.

(** ** What a surface that attaches late is replayed *)

(** The Runner's events are in the store up to the persisted offset, and after
    it there are none. *)
Record replayable a : Prop := {
  rp_wf : sl_wf (ap_store a);
  rp_offset : 0 <= ap_persisted a <= Z.of_nat (length (ap_log a));
  rp_tail : runner_events (drop (Z.to_nat (ap_persisted a)) (ap_log a)) = [];
  rp_store : (ap_runID a = "" /\ runner_events (ap_log a) = []) \/
    (ap_runID a <> "" /\ exists m, sl_log (ap_store a) (ap_runID a) = Some (m, map redactForPersist (runner_events (ap_log a))));
}.

(** In the middle of a turn: [buf] is on its way. *)
Record replay_pending (buf : list Event) a : Prop := {
  pn_wf : sl_wf (ap_store a);
  pn_run : ap_runID a <> "";
  pn_store : exists m e, sl_log (ap_store a) (ap_runID a) = Some (m, e)
    /\ e ++ buf = map redactForPersist (runner_events (ap_log a));
}.

Lemma replayable_more a a' l :
  replayable a -> ap_runID a' = ap_runID a -> ap_store a' = ap_store a -> ap_persisted a' = ap_persisted a ->
  ap_log a' = ap_log a ++ l -> runner_events l = [] -> replayable a'.
Proof.
  intros [Hw Ho Ht Hs] Hr Hst' Hp Hl Hn. constructor.
  - by rewrite Hst'.
  - rewrite Hp, Hl, length_app. lia.
  - rewrite Hp, Hl, drop_app_le by lia. by rewrite runner_events_app, Ht, Hn.
  - by rewrite Hr, Hst', Hl, runner_events_app, Hn, app_nil_r.
Qed.

Lemma replayable_frames {A} (m : M W Store A) a x a' :
  tame cfg -> replayable a -> frames cfg m -> m a = Some (x, a') -> replayable a'.
Proof.
  intros Ht Hr Hf H. apply Hf in H as [[] (l & Hl & Hn)]. eapply replayable_more; [done..|]. by apply Hn.
Qed.

Lemma replayable_same a a' :
  replayable a -> ap_runID a' = ap_runID a -> ap_store a' = ap_store a -> ap_persisted a' = ap_persisted a ->
  ap_log a' = ap_log a -> replayable a'.
Proof. intros Hr H1 H2 H3 H4. apply (replayable_more a a' []); [done..| |done]. by rewrite app_nil_r. Qed.

Lemma flush_replay ctx p a u a' :
  ReliableStore st -> replay_pending (pe_buf p) a -> pe_runID p = ap_runID a ->
  flushEventsLocked st ctx p a = Some (u, a') -> replayable a'.
Proof.
  intros Hr [Hw Hid (m & e & Hl & He)] Hp. unfold flushEventsLocked. intros ([err p'] & a1 & H1 & H)%m_bind_some.
  assert (Hmark : forall a1, ap_runID a1 = ap_runID a -> ap_log a1 = ap_log a -> sl_wf (ap_store a1) ->
    sl_log (ap_store a1) (ap_runID a) = Some (m, e ++ pe_buf p) ->
    replayable (with_log (ap_log a1) (Z.of_nat (length (ap_log a1))) a1)).
  { intros b Hb1 Hb2 Hb3 Hb4. constructor; simpl; [done|lia| |].
    - by rewrite Nat2Z.id, drop_all.
    - right. rewrite Hb1, Hb2. split; [done|]. exists m. by rewrite Hb4, He. }
  unfold Flush in H1. destruct (Nat.eqb_spec (length (pe_buf p)) 0) as [Hz|_].
  - injection H1 as <- _ <-. injection H as _ <-. apply length_zero_iff_nil in Hz. apply (Hmark a); try done.
    by rewrite Hl, Hz, app_nil_r.
  - apply m_bind_some in H1 as (r & a2 & H2 & H1). unfold m_store in H2.
    destruct (rel_events ctx (pe_runID p) (pe_buf p) (ap_store a) (m, e) Hw ltac:(by rewrite Hp)) as [s' Es].
    rewrite Es in H2. injection H2 as <- <-. injection H1 as <- _ <-. injection H as _ <-.
    apply sl_events in Es as [Hw' [_ (m1 & e1 & G1 & G2)]]; [|done]. rewrite Hp in G1, G2. rewrite Hl in G1.
    injection G1 as <- <-. by apply (Hmark (with_store s' a)).
Qed.

Lemma persist_replay ctx mo msgs p a u a' :
  ReliableStore st -> replay_pending (pe_buf p) a -> pe_runID p = ap_runID a ->
  persistTurnLocked st ctx mo msgs p a = Some (u, a') -> replayable a'.
Proof.
  intros Hr [Hw Hid (m & e & Hl & He)] Hp. unfold persistTurnLocked. intros (id & a0 & [= <- <-] & H)%m_bind_some.
  apply m_bind_some in H as (r & a1 & H1 & H). unfold m_store in H1.
  destruct (rel_append ctx (mo_append mo) (ap_runID a) msgs (ap_store a) (m, e) Hw Hl) as [s' Es].
  rewrite Es in H1. injection H1 as <- <-. apply m_bind_some in H as (u1 & a2 & [= _ <-] & H).
  apply sl_append in Es as [Hw' [_ (m1 & e1 & l & G1 & G2 & _)]]; [|done]. rewrite Hl in G1. injection G1 as <- <-.
  eapply (flush_replay ctx p (with_store s' a)); [done| |exact Hp|exact H]. constructor; simpl; [done..|].
  by exists (m ++ l), e.
Qed.

Lemma finish_replay ctx res err ev (r : option error) a x a' :
  tame cfg -> replayable a -> runner_events [ev] = [] ->
  m_bind (endExtensionTurns cfg ctx res err) (fun _ => m_bind (emit ev) (fun _ => m_ret r)) a = Some (x, a') ->
  replayable a'.
Proof.
  intros Ht Hr He H. eapply replayable_frames in H; [done..|]. apply frames_bind; [apply frames_end|]. intros _.
  apply frames_bind; [by apply frames_emit | intros _; apply frames_ret].
Qed.

Lemma settle_replay ctx mo userMsg res err p a x a' :
  ReliableStore st -> tame cfg -> replay_pending (pe_buf p) a -> pe_runID p = ap_runID a ->
  settle WithoutCancel cfg ctx mo userMsg res err (Some (st, p)) a = Some (x, a') -> replayable a'.
Proof.
  intros Hr Ht Hp Hid. unfold settle.
  assert (Happ : forall msgs res err ev (r : option error), runner_events [ev] = [] ->
    m_bind (m_bind (m_upd (fun a => with_history (ap_history a ++ msgs) a))
      (fun _ => persistTurnLocked st ctx mo (userMsg :: msgs) p))
      (fun _ => m_bind (endExtensionTurns cfg ctx res err) (fun _ => m_bind (emit ev) (fun _ => m_ret r))) a = Some (x, a') ->
    replayable a').
  { intros msgs res0 err0 ev r He (u & a2 & H1 & H2)%m_bind_some. apply m_bind_some in H1 as (u1 & a1 & [= _ <-] & H1).
    eapply finish_replay; [done| |exact He|exact H2]. eapply (persist_replay _ _ _ _ (with_history (ap_history a ++ msgs) a)); [done| |exact Hid|exact H1].
    destruct Hp as [Hw Hn Hs]. by constructor. }
  assert (Hroll : forall res err ev (r : option error), runner_events [ev] = [] ->
    m_bind (m_upd (fun a => with_history (removelast (ap_history a)) a))
    (fun _ => m_bind (persistFailedTurnLocked WithoutCancel st ctx p)
    (fun _ => m_bind (endExtensionTurns cfg ctx res err) (fun _ => m_bind (emit ev) (fun _ => m_ret r)))) a = Some (x, a') ->
    replayable a').
  { intros res0 err0 ev r He (u & a1 & [= _ <-] & H)%m_bind_some. apply m_bind_some in H as (u1 & a2 & H1 & H2).
    eapply finish_replay; [done| |exact He|exact H2]. eapply (flush_replay _ _ (with_history (removelast (ap_history a)) a)); [done| |exact Hid|exact H1].
    destruct Hp as [Hw Hn Hs]. by constructor. }
  destruct err as [e|], res as [r|]; [destruct (keeps_record e)| | |done].
  - by apply Happ.
  - by apply Hroll.
  - by apply Hroll.
  - by apply Happ.
Qed.

Lemma buffer_all_buf evs p :
  pe_buf (buffer_all evs p) = pe_buf p ++ map redactForPersist evs /\ pe_runID (buffer_all evs p) = pe_runID p.
Proof.
  unfold buffer_all. revert p. induction evs as [|e evs IH]; intros p; simpl; [by rewrite app_nil_r|].
  destruct (IH (pe_Emit e p)) as [-> ->]. simpl. by rewrite <- app_assoc.
Qed.

Lemma converse_replay ctx mo schema input a x a' :
  ReliableStore st -> tame cfg -> ac_team cfg = None -> replayable a ->
  converse WithoutCancel data_field cfg ctx mo schema input a = Some (x, a') -> replayable a'.
Proof.
  intros Hr Ht Hteam Hp H. unfold converse in H. rewrite Hst, Hteam in H.
  apply m_bind_some in H as (u & a1 & H1 & H). apply run_durable_some in H1 as (drained & p' & _ & Ea1).
  assert (Hp1 : replayable a1) by (apply (replayable_same a); [exact Hp | by rewrite Ea1..]).
  clear Ea1 Hp. apply m_bind_some in H as (ready & a2 & H2 & H). apply m_bind_some in H2 as (e0 & a3 & H3 & H2).
  assert (Hp3 : replayable a3 /\ (e0 = None -> ap_runID a3 <> "")).
  { split; [|by eapply ensure_spec in H3; [apply H3 | apply Hp1]]. unfold ensureRunLocked in H3.
    apply m_bind_some in H3 as (id & a4 & [= <- <-] & H3).
    destruct (String.eqb_spec (ap_runID a1) "") as [He|He]; cbn [negb] in H3; [|by injection H3 as _ <-].
    apply m_bind_some in H3 as (r & a4 & H4 & H3). unfold m_store in H4.
    destruct (rs_CreateRun st ctx (mo_create mo) "" (ap_store a1)) as [r' s'] eqn:E. injection H4 as <- <-.
    destruct Hp1 as [Hw Ho Htl Hs]. destruct Hs as [[_ Hs]|[? _]]; [|done].
    apply sl_create in E as [Hw' Hc]; [|done]. destruct r' as [e|resp].
    { injection H3 as _ <-. constructor; simpl; [done..|]. by left. }
    apply m_bind_some in H3 as (u1 & a4 & [= _ <-] & H3). apply m_bind_some in H3 as (u2 & a5 & [= _ <-] & [= _ <-]).
    destruct Hc as (_ & Hid & Hc). destruct (cr_Created resp); [|by destruct Hc]. destruct Hc as [Hc _].
    constructor; simpl; [done| | |right].
    - rewrite length_app. lia.
    - rewrite drop_app_le by lia. by rewrite runner_events_app, Htl.
    - split; [done|]. exists []. by rewrite Hc, runner_events_app, Hs. }
  destruct Hp3 as [Hp3 Hid]. destruct e0 as [e|].
  { injection H2 as <- <-. apply m_bind_some in H as (u1 & a4 & [= _ <-] & H).
    apply m_bind_some in H as (u2 & a5 & [= _ <-] & [= _ <-]).
    eapply (replayable_more a3 _ [HostTurnFailed (error_text e)]); done. }
  apply m_bind_some in H2 as (id & a4 & [= <- <-] & [= <- <-]). specialize (Hid eq_refl).
  apply m_bind_some in H as (view & a5 & H5 & H).
  assert (Hp5 : replayable a5 /\ ap_runID a5 = ap_runID a3).
  { unfold run_transient in H5. destruct (runTransient _ _ _ _) as [[v w']|]; [|done]. injection H5 as _ <-.
    split; [by apply (replayable_same a3) | done]. }
  destruct Hp5 as [Hp5 Hid5]. apply m_bind_some in H as ([[res e0] pe] & a6 & H6 & H).
  unfold run_single in H6. destruct (ac_runner cfg ctx _ _) as [[out evs] [[w q] g]]. injection H6 as -> <- <-.
  cbn [keep_events fmap option_fmap option_map] in H.
  destruct (buffer_all_buf evs (NewPersistingEmit (ap_runID a3))) as [Hbuf Hrun].
  eapply settle_replay in H; [exact H|done|done| |by rewrite Hrun].
  destruct Hp5 as [Hw Ho Htl Hs]. constructor; simpl; [done|congruence|].
  destruct Hs as [[? _]|[_ (m & Hm)]]; [congruence|]. exists m. eexists. split; [exact Hm|].
  by rewrite Hbuf, runner_events_app, runner_events_map, map_app.
Qed.

Lemma one_turn_replay ctx mo input schema announced a r a' :
  ReliableStore st -> tame cfg -> ac_team cfg = None -> replayable a ->
  runOneTurn WithoutCancel data_field cfg ctx mo input schema announced a = Some (r, a') -> replayable a'.
Proof.
  intros Hr Ht Hteam Hp H. unfold runOneTurn in H. apply m_bind_some in H as (e & a1 & H1 & H).
  apply m_bind_some in H as (u & a2 & [= _ <-] & H). apply m_bind_some in H as (l & a3 & H3 & [= _ <-]).
  injection H3 as _ <-. enough (Hp1 : replayable a1) by by apply (replayable_same a1).
  clear r. unfold turn_body in H1.
  apply m_bind_some in H1 as (u1 & b1 & [= _ <-] & H1). apply m_bind_some in H1 as (u2 & b2 & [= _ <-] & H1).
  apply m_bind_some in H1 as (u3 & b3 & [= _ <-] & H1). apply m_bind_some in H1 as (u4 & b4 & H4 & H1).
  assert (Hp4 : replayable b4).
  { destruct announced; injection H4 as _ <-; [by apply (replayable_same a)|].
    by apply (replayable_more a _ [HostUserInput input ""]). }
  clear Hp H4. apply m_bind_some in H1 as (e0 & b5 & H5 & H1).
  apply replayable_frames in H5; [|done..|apply frames_start]. destruct e0 as [e0|].
  { apply m_bind_some in H1 as (u5 & b6 & [= _ <-] & [= _ <-]).
    by apply (replayable_more b5 _ [HostTurnFailed (error_text e0)]). }
  apply m_bind_some in H1 as (r & b6 & H6 & H1).
  apply replayable_frames in H6; [|done..|apply frames_transform]. destruct r as [e0|text].
  { apply m_bind_some in H1 as (u5 & b7 & [= _ <-] & [= _ <-]).
    by apply (replayable_more b6 _ [HostTurnFailed (error_text e0)]). }
  eapply converse_replay; [exact Hr | exact Ht | exact Hteam | exact H6 | exact H1].
Qed.

Definition own_turn (op : session_op Ctx) : Prop :=
  match op with OpTurn _ _ _ _ _ | OpSubmit _ _ _ _ _ => True | _ => False end.

Lemma read_stamped_runner off l : runner_events (read_stamped off l) = runner_events (drop (Z.to_nat off) l).
Proof.
  unfold read_stamped. generalize (drop (Z.to_nat off) l). intros l'.
  assert (H : forall f : nat -> Z, runner_events (imap (fun i e => stampAskID (f i) e) l') = runner_events l').
  { induction l' as [|e l' IH]; intros f; [done|]. rewrite imap_cons. unfold compose.
    change (?x :: ?y) with ([x] ++ y). rewrite !runner_events_app, (IH (fun i => f (S i))). f_equal. by destruct e. }
  apply (H (fun i => off + Z.of_nat i)).
Qed.

(** Attaching late misses nothing the Runner said.  After any turns and
    submitted messages of a session with a store that does not fail, a
    surface that subscribes is replayed exactly the Runner's events of the
    session, each once and in order, a turn's end without the messages the
    record holds anyway, and goes on from the end of the log. *)
Theorem subscribe_replays ctx ops a a' :
  ReliableStore st -> tame cfg -> ac_team cfg = None ->
  fresh a -> runner_events (ap_log a) = [] -> ap_persisted a = 0 -> Forall own_turn ops ->
  session_run ops a = Some a' ->
  exists evs, subscribe_replay cfg ctx a' = Some (evs, Z.of_nat (length (ap_log a')), a')
    /\ runner_events evs = map redactForPersist (runner_events (ap_log a')).
Proof.
  intros Hr Ht Hteam [_ Hn Hw] Hl Hz Ho H. assert (Hp : replayable a).
  { constructor; [done|lia| |by left]. by rewrite Hz. }
  clear Hn Hw Hl Hz. assert (Hp' : replayable a').
  { revert a Hp H. induction Ho as [|op ops Hop Ho IH]; intros a Hp H; cbn in H; [by injection H as <-|].
    destruct (session_do op a) as [a1|] eqn:E; [|done]. eapply IH; [|exact H]. clear H IH.
    assert (Hu : untouched replayable -> replayable a1).
    { intros Hu. destruct op; try done; cbn [session_do] in E; apply fmap_Some in E as ([r b] & E & ->); simpl.
      - eapply run_turn_with_inv; [exact Hu | | exact Hp | exact E]. intros. by eapply one_turn_replay.
      - eapply submit_inv; [exact Hu | | exact Hp | exact E]. intros. by eapply one_turn_replay. }
    apply Hu. constructor.
    - intros ev b He Hb. by apply (replayable_more b _ [ev]).
    - intros q b Hb. by apply (replayable_same b). }
  unfold subscribe_replay, m_bind, m_get, m_ret. cbn [mbind option_bind id]. eexists. split; [reflexivity|].
  rewrite Hst, runner_events_app, runner_events_map, read_stamped_runner, (rp_tail _ Hp'), app_nil_r.
  destruct Hp' as [Hw Ho' Htl [[Hr' Hs']|[Hr' (m & Hm)]]].
  { rewrite Hr', Hs'. done. }
  rewrite (proj2 (String.eqb_neq _ _) Hr'). cbn [negb andb]. destruct (Z.ltb_spec 0 (ap_persisted a')) as [Hlt|Hge].
  - destruct (rel_load ctx _ _ _ Hw Hm) as [r Er]. rewrite Er.
    destruct (sl_load _ _ _ _ Hw Er) as [_ Hr2]. rewrite Hm in Hr2. by injection Hr2.
  - replace (Z.to_nat (ap_persisted a')) with 0%nat in Htl by lia. rewrite drop_0 in Htl. by rewrite Htl.
Qed.

(** ** Late steers *)

(** A turn's late steers are all answered.  If the surfaces can still
    submit only so many messages, and a turn whose steers came too late has
    used up some of them, then [RunTurnWith] ends, within one turn for each
    message that can still come and one more. *)
Theorem late_turns_end (ok : App W Store -> Prop) (pending : App W Store -> nat) ctx mo mos input schema a :
  (forall mo input schema announced a, ok a -> exists late err a',
     runOneTurn WithoutCancel data_field cfg ctx mo input schema announced a = Some (late, err, a') /\ ok a'
     /\ (late <> [] -> (pending a' < pending a)%nat)) ->
  (forall ev a, ok a -> ok (with_log (ap_log a ++ [ev]) (ap_persisted a) a)) ->
  ok a -> (pending a <= length mos)%nat ->
  exists err a', RunTurnWith WithoutCancel data_field cfg ctx mo mos input schema a = Some (err, a') /\ ok a'.
Proof.
  intros Hone Hlog Ha Hm. unfold RunTurnWith. destruct (_ && _).
  { eexists _, _. split; [reflexivity|]. by apply Hlog. }
  destruct (Hone mo input schema false a Ha) as (late & err & a1 & H1 & Ha1 & Hlt).
  unfold m_bind at 1. rewrite H1. cbn [mbind option_bind fst snd].
  assert (Hb : late <> [] -> (pending a1 < length mos)%nat) by (intros Hne; specialize (Hlt Hne); lia).
  clear Ha Hm H1 Hlt. revert late err a1 Ha1 Hb. induction mos as [|mo' mos IH]; intros late e a1 Ha1 Hb.
  { destruct late; [|specialize (Hb ltac:(done)); simpl in Hb; lia]. by exists e, a1. }
  destruct late as [|s late]; cbn [late_turns]; [by exists e, a1|].
  destruct (Hone mo' (joinSteers (s :: late)) "" true a1 Ha1) as (late' & err & a2 & H2 & Ha2 & Hlt).
  unfold m_bind at 1. rewrite H2. cbn [mbind option_bind fst snd]. apply IH; [done|].
  intros Hne. specialize (Hlt Hne). specialize (Hb ltac:(done)). simpl in Hb. lia.
Qed.
End Runs.

(** ** Steers *)

(** What happens to the queue while the App lives, in the order in which its
    mutex was taken. *)
Inductive steer_op := SteerBegin | SteerOffer (input : string) | SteerTake | SteerEnd.

(** What was accepted and what was handed out. *)
Record steer_trace := { tr_accepted : list string; tr_delivered : list string; tr_queue : steerQueue }.

Definition steer_step (t : steer_trace) (op : steer_op) : steer_trace :=
  match op with
  | SteerBegin => {| tr_accepted := tr_accepted t; tr_delivered := tr_delivered t; tr_queue := steer_begin (tr_queue t) |}
  | SteerOffer s =>
      let '(ok, q) := steer_offer s (tr_queue t) in
      {| tr_accepted := if ok then tr_accepted t ++ [s] else tr_accepted t; tr_delivered := tr_delivered t; tr_queue := q |}
  | SteerTake =>
      let '(out, q) := steer_take (tr_queue t) in
      {| tr_accepted := tr_accepted t; tr_delivered := tr_delivered t ++ out; tr_queue := q |}
  | SteerEnd =>
      let '(out, q) := steer_end (tr_queue t) in
      {| tr_accepted := tr_accepted t; tr_delivered := tr_delivered t ++ out; tr_queue := q |}
  end.

Definition no_steers : steer_trace :=
  {| tr_accepted := []; tr_delivered := []; tr_queue := {| sq_active := false; sq_queue := [] |} |}.

(** C28: Steers are neither lost, doubled nor reordered.  Whatever the
    interleaving of turns starting and ending, stages draining the queue and
    surfaces offering input, what was accepted is what was handed out, in
    order, followed by what is waiting; something waits only while a turn
    runs, so after the end of a turn everything accepted has been handed out,
    and nothing is accepted outside a turn. *)
Theorem steers_delivered ops :
  let t := foldl steer_step no_steers ops in
  tr_accepted t = tr_delivered t ++ sq_queue (tr_queue t)
  /\ (sq_active (tr_queue t) = false -> tr_accepted t = tr_delivered t
       /\ forall s, tr_accepted (steer_step t (SteerOffer s)) = tr_accepted t).
Proof.
  cbv zeta. assert (H : tr_accepted (foldl steer_step no_steers ops) =
      tr_delivered (foldl steer_step no_steers ops) ++ sq_queue (tr_queue (foldl steer_step no_steers ops))
    /\ (sq_active (tr_queue (foldl steer_step no_steers ops)) = false -> sq_queue (tr_queue (foldl steer_step no_steers ops)) = [])).
  { induction ops as [|op ops IH] using rev_ind; [done|]. rewrite foldl_snoc. set (t := foldl steer_step no_steers ops) in *.
    destruct IH as [IH1 IH2]. destruct op; cbn; [done| |by rewrite app_nil_r..].
    unfold steer_offer. destruct (sq_active (tr_queue t)) eqn:E; cbn; [|by rewrite E in *].
    rewrite IH1, <- app_assoc. done. }
  destruct H as [H1 H2]. split; [done|]. intros He. rewrite (H2 He), app_nil_r in H1. split; [done|].
  intros s. cbn. unfold steer_offer. by rewrite He.
Qed.

(** The stage puts what was waiting at the end of the record, a message each
    in order, and says nothing else. *)
Lemma steer_stage_appends {Ctx W} (ctx : Ctx) info v (w : W) q g :
  ss_Run (steerStage (Ctx:=Ctx) (W:=W)) ctx info v (w, q, g)
  = (inr (set_messages v (sv_Messages v ++ map (text_message RoleUser) (sq_queue q))), [],
     (w, {| sq_active := sq_active q; sq_queue := [] |}, g)).
Proof. done. Qed.

(** ** Searching *)

Section Search.
Context {Ctx W : Type}.
Variables (ToLower : string -> string) (cfg : AppConfig Ctx W InMemoryRunStore).
Hypothesis Hst : ac_store cfg = Some InMemorySessions.

Lemma search_loop_pages ctx s q fuel : forall o out cursor,
  Z.of_nat (length (sorted_infos s)) + DefaultListRunsLimit <= int64_max ->
  offset_of cursor = Z.of_nat (50 * o) -> (20 - o <= fuel)%nat -> (o <= 20)%nat ->
  search_loop ToLower fuel (InMemorySessions (Ctx:=Ctx)) ctx s q out cursor (Z.of_nat (50 * o))
  = Some (inr (out ++ List.filter (search_match ToLower q) (take (1000 - 50 * o) (drop (50 * o) (sorted_infos s))))).
Proof.
  induction fuel as [|fuel IH]; intros o out cursor Hlen Ho Hf Hb; cbn [search_loop]; unfold maxSessionSearchScan.
  { replace o with 20%nat by lia. cbn. by rewrite app_nil_r. }
  destruct (Z.leb_spec 1000 (Z.of_nat (50 * o))) as [Hd|Hd].
  { replace (1000 - 50 * o)%nat with 0%nat by lia. cbn. by rewrite app_nil_r. }
  cbn [rs_ListRuns InMemorySessions]. rewrite list_page by (unfold DefaultListRunsLimit in *; lia).
  rewrite (proj2 (Z.leb_le 0 0)) by lia. rewrite Ho. cbn [fmap option_fmap option_map mbind option_bind lr_Runs lr_NextCursor].
  unfold DefaultListRunsLimit in *. rewrite Nat2Z.id. change (Z.to_nat 50) with 50%nat.
  destruct (Z.ltb_spec (Z.of_nat (50 * o) + 50) (Z.of_nat (length (sorted_infos s)))) as [Hn|Hn].
  - rewrite (proj2 (String.eqb_neq _ _)) by apply itoa_not_empty.
    rewrite length_take_le by (rewrite length_drop; lia).
    replace (Z.of_nat (50 * o) + Z.of_nat 50) with (Z.of_nat (50 * S o)) by lia.
    rewrite IH; [|done| |lia|lia]; [|rewrite offset_itoa by (unfold int64_max in *; lia); lia].
    do 2 f_equal. rewrite <- app_assoc. f_equal. rewrite <- List.filter_app. f_equal.
    replace (1000 - 50 * o)%nat with (50 + (1000 - 50 * S o))%nat by lia. rewrite <- take_take_drop, drop_drop.
    by replace (50 * o + 50)%nat with (50 * S o)%nat by lia.
  - rewrite String.eqb_refl. do 4 f_equal. rewrite !take_ge; [done|rewrite length_drop; lia..].
Qed.

(** Searching the sessions ends and finds what it says it looks at: the
    runs among the thousand newest whose id contains the query, case folded,
    newest first, each once, in at most twenty pages. *)
Theorem search_sessions fuel ctx query (a : App W InMemoryRunStore) :
  (20 <= fuel)%nat -> Z.of_nat (length (sorted_infos (ap_store a))) + DefaultListRunsLimit <= int64_max ->
  SearchSessions ToLower cfg fuel ctx query a
  = Some (inr (List.filter (search_match ToLower (ToLower query)) (take 1000 (sorted_infos (ap_store a)))), a).
Proof.
  intros Hf Hlen. unfold SearchSessions. rewrite Hst.
  change 0 with (Z.of_nat (50 * 0)). rewrite search_loop_pages; [done|done|done|lia|lia].
Qed.
End Search.

(** ** Context for one turn *)

(** Producers of one block each. *)
Definition producers (Ctx W : Type) := list (string * (Ctx -> list Message -> W -> result string * W)).

Definition block_stages {Ctx W} (ps : producers Ctx W) : list (ContextStage Ctx W) :=
  map (fun '(name, produce) => block_stage name produce) ps.

Lemma weave_last h u blocks : weaveBeforeUser (h ++ [u]) blocks = h ++ map system_message blocks ++ [u].
Proof.
  unfold weaveBeforeUser. rewrite length_app. simpl. replace (length h + 1 - 1)%nat with (length h) by lia.
  rewrite take_app_length, drop_app_length. destruct blocks as [|b blocks]; [done|]. simpl.
  by replace (Nat.eqb (length h + 1) 0) with false by (symmetry; apply Nat.eqb_neq; lia).
Qed.

(** What is woven in for one turn leaves the words of the conversation
    alone: whatever the producers do, the model reads the history unchanged,
    then at most one non-empty system block per producer, in the order of the
    producers, and the user's message last; a producer that fails adds
    nothing and stops nobody. *)
Theorem transient_before_user {Ctx W} (ps : producers Ctx W) (ctx : Ctx) h u (w : W) :
  exists blocks w', runTransient (block_stages ps) ctx (h ++ [u]) w = Some (h ++ map system_message blocks ++ [u], w')
    /\ (length blocks <= length ps)%nat /\ Forall (fun b => b <> "") blocks.
Proof.
  enough (H : forall before w, exists blocks w',
    run_stages (block_stages ps) ctx (h ++ map system_message before ++ [u]) w
    = Some (h ++ map system_message (before ++ blocks) ++ [u], w')
    /\ (length blocks <= length ps)%nat /\ Forall (fun b => b <> "") blocks).
  { exact (H [] w). }
  induction ps as [|[name produce] ps IH]; intros before w0; cbn [block_stages map run_stages].
  { exists [], w0. rewrite app_nil_r. split; [done|]. by split. }
  cbn [block_stage cst_Run]. rewrite app_assoc, length_app. cbn [length].
  replace (Nat.eqb _ 0) with false by (symmetry; apply Nat.eqb_neq; lia).
  destruct (produce ctx _ w0) as [r w1]. cbn [mbind option_bind]. fold (block_stages ps).
  destruct r as [e|s]; [|destruct (String.eqb_spec s "") as [->|Hs]].
  - rewrite <- app_assoc. destruct (IH before w1) as (bl & w' & H1 & H2 & H3). exists bl, w'. cbn. auto with lia.
  - rewrite <- app_assoc. destruct (IH before w1) as (bl & w' & H1 & H2 & H3). exists bl, w'. cbn. auto with lia.
  - rewrite weave_last, <- app_assoc. destruct (IH (before ++ [s]) w1) as (bl & w' & H1 & H2 & H3).
    exists (s :: bl), w'. rewrite map_app, <- app_assoc in H1. cbn in H1 |- *.
    rewrite H1, <- app_assoc. split; [done|]. split; [lia | by constructor].
Qed.

(** Memory's stages are such producers. *)
Lemma memory_stages_produce {Ctx W E} summary recall c :
  exists ps : producers Ctx W, memoryStages (E:=E) summary recall c = block_stages ps.
Proof.
  destruct c as [c|]; [|by exists []]. unfold memoryStages.
  destruct (mc_InjectSummary c), (mc_InjectRecall c); cbn;
    [eexists [(_, _); (_, _)] | eexists [(_, _)] | eexists [(_, _)] | by exists []]; reflexivity.
Qed.
