(* ===== verification/SessionEngine.v ===== *)
(** * The Runner in a session

    What a session relies on from whoever answers, as an interface; the Runner
    with the host's steer stage as an instance; and what follows for the whole
    conversation, whatever happens in it. *)

From S2P Require Import Prelude GoStr Errors Json Provider TreeBudget Middleware Events Compaction StepStage RunStore Triggers.
From S2P Require Import Dispatch Runner TurnProps SubAgents Team Stages Injection SkillGrants Session SessionLog SessionRuns.
Local Open Scope Z_scope.

(** Whoever answers pairs the tool calls of a result with their answers. *)
Class PairedEngine {Ctx W Store} (cfg : AppConfig Ctx W Store) := {
  pe_answers : forall ctx schema msgs r err,
    answered cfg ctx schema msgs (Some r) err -> rounds_ok [] (res_Messages r) = true;
}.

(** And so do the turns of triggers, which the Runner answers in any case. *)
Class PairedRunner {Ctx W Store} (cfg : AppConfig Ctx W Store) := {
  pr_answers : forall ctx req w r err,
    eff_value (ac_runner cfg ctx req) w = (Some r, err) -> rounds_ok [] (res_Messages r) = true;
}.

#[export] Instance single_engine_paired {Ctx W Store} (cfg : AppConfig Ctx W Store) :
  PairedRunner cfg -> TCEq (ac_team cfg) None -> PairedEngine cfg.
Proof.
  intros Hr Ht. constructor. intros ctx schema msgs r err. unfold answered. rewrite Ht. intros [w Hw].
  by eapply pr_answers.
Qed.

(** ** The Runner *)

(** The stage the host adds records user messages and nothing else. *)
Lemma steer_stage_notes {Ctx W} : notes_only (steerStage (Ctx:=Ctx) (W:=W)).
Proof.
  intros _ ctx info v [[w q] g] out. cbn. intros [= <-]. cbn. rewrite drop_app_length. apply Forall_forall.
  intros m (s & -> & _)%list_elem_of_fmap. by apply text_message_plain.
Qed.

(** The Runner the host builds: its configuration's stages and the steer
    stage. *)
Definition runner_engine {Ctx W} (env : TurnEnv Ctx (turn_world (W:=W))) `{Dispatcher Ctx (turn_world (W:=W))}
    (rcfg : RunnerConfig Ctx (turn_world (W:=W))) : single_engine (Ctx:=Ctx) (W:=W) :=
  fun ctx req => RunTurn env rcfg ctx req.

Lemma runner_engine_paired {Ctx W Store} env `{Dispatcher Ctx (turn_world (W:=W))} rcfg (cfg : AppConfig Ctx W Store) :
  ac_runner cfg = runner_engine env rcfg -> Forall notes_only (turn_chain rcfg) -> PairedRunner cfg.
Proof.
  intros Hc Hn. constructor. intros ctx req w r err. rewrite Hc. intros Hv. by eapply run_turn_pairs.
Qed.

(** ** The conversation *)

Section Paired.
Context {Ctx W Store : Type} (st : RunStore Ctx Store) {laws : StoreLaws st}.
Variables (WithoutCancel : Ctx -> Ctx) (data_field : RawJSON -> string -> option RawJSON).
Variable cfg : AppConfig Ctx W Store.
Hypothesis Hst : ac_store cfg = Some st.
Context {Hrun : PairedRunner cfg} {Heng : PairedEngine cfg}.

Definition paired (a : App W Store) : Prop := sl_wf (ap_store a) /\ rounds_ok [] (ap_history a) = true.

Lemma injected_plain (drained : list InjectedContext) :
  rounds_ok [] (map (fun inj => system_message (inj_Text inj)) drained) = true.
Proof.
  apply rounds_ok_plain, Forall_forall. intros m (s & -> & _)%list_elem_of_fmap. by apply text_message_plain.
Qed.

Lemma outcome_paired ctx schema msgs text res err said :
  answered cfg ctx schema msgs res err -> turn_outcome (text_message RoleUser text) res err said ->
  rounds_ok [] said = true.
Proof.
  intros Ha Ho. assert (Hu : plain (text_message RoleUser text)) by by apply text_message_plain.
  destruct Ho as [r|r e|res e]; [| |done].
  - apply (rounds_ok_extend [_]); [by apply rounds_ok_plain, Forall_singleton | by eapply pe_answers].
  - apply pe_answers in Ha. rewrite drop_unanswered_answered by done.
    apply (rounds_ok_extend [_]); [by apply rounds_ok_plain, Forall_singleton | done].
Qed.

Lemma turn_paired ctx mo schema a err a' :
  paired a -> turn_kept st data_field cfg ctx mo schema a err a' -> paired a'.
Proof.
  intros [Hw Hp] (drained & said & Hh & Hs & Hw' & _). split; [done|]. rewrite Hh.
  apply rounds_ok_extend; [done|]. apply rounds_ok_extend; [apply injected_plain|].
  destruct Hs as [[-> _]|(text & view & res & p' & w & w' & _ & _ & Ha & Ho)]; [done | by eapply outcome_paired].
Qed.

Lemma proactive_paired ctx mo b a u a' :
  paired a -> runProactiveTurn data_field cfg ctx mo b a = Some (u, a') -> paired a'.
Proof.
  intros [Hw Hp] H. pose proof H as H0. apply proactive_spec in H0 as (_ & Hs & _). split; [by rewrite Hs|]. clear Hs Hw.
  unfold runProactiveTurn in H. apply m_bind_some in H as (u1 & a1 & [= _ Ha1] & H).
  apply m_bind_some in H as (e & a2 & H2 & H). apply frames_start in H2 as [[E1 _ _ _ _] _].
  assert (B : ap_history a2 = ap_history a) by (subst a1; done). clear Ha1 E1.
  destruct e as [e|]; [injection H as _ <-; simpl; by rewrite B|].
  apply m_bind_some in H as (u2 & a3 & H3 & H). apply run_durable_some in H3 as (drained & p' & _ & ->).
  assert (Hh : rounds_ok [] ((ap_history a2 ++ map (fun inj => system_message (inj_Text inj)) drained)
                               ++ [system_message (tb_Instructions b)]) = true).
  { rewrite B. apply rounds_ok_note; [|done]. apply rounds_ok_extend; [done | apply injected_plain]. }
  apply m_bind_some in H as (h & a4 & [= <- <-] & H). apply m_bind_some in H as ([[res err] pe] & a5 & H5 & H).
  unfold run_single in H5. destruct (ac_runner cfg ctx _ _) as [[out evs] [[w q] g]] eqn:Er. injection H5 as -> _ <-.
  assert (Hend : forall ev err res a u a', runner_events [ev] = [] ->
    m_bind (endExtensionTurns cfg ctx res err) (fun _ => emit ev) a = Some (u, a') -> ap_history a' = ap_history a).
  { intros ev err0 res0 b0 v b1 Hev Hb. eapply (frames_bind cfg) in Hb as [[Hb _ _ _ _] _]; [done|apply frames_end|].
    intros _. by apply frames_emit. }
  destruct err as [err|]; [|destruct res as [r|]; [|done]].
  - apply Hend in H; [|done]. by rewrite H.
  - apply m_bind_some in H as (u3 & a6 & [= _ <-] & H). apply Hend in H; [|done]. rewrite H. simpl.
    apply rounds_ok_extend; [done|]. eapply pr_answers. unfold eff_value. by rewrite Er.
Qed.

(** What a session can do without taking over another conversation. *)
Definition goes_on (op : session_op Ctx) : Prop :=
  match op with
  | OpTurn _ _ _ _ _ | OpSubmit _ _ _ _ _ | OpEvent _ _ _ _ => True
  | OpFork _ _ _ n => n <= 0
  | OpAttach _ _ _ | OpResume _ _ => False
  end.

Lemma do_paired op a a' :
  goes_on op -> paired a -> session_do WithoutCancel data_field cfg op a = Some a' -> paired a'.
Proof.
  intros Hg Hp H.
  assert (Hone : forall ctx mo input schema announced a r a', paired a ->
     runOneTurn WithoutCancel data_field cfg ctx mo input schema announced a = Some (r, a') -> paired a').
  { intros ctx mo input schema announced b r b' Hb H1. eapply one_turn_kept in H1; [|done|apply Hb].
    by eapply turn_paired. }
  assert (Hu : untouched paired) by (constructor; [intros ev b _ Hb | intros q b Hb]; exact Hb).
  destruct op; try done; cbn [session_do] in H; apply fmap_Some in H as ([r a1] & H & ->); simpl.
  - eapply run_turn_with_inv; [apply Hu | apply Hone | exact Hp | exact H].
  - eapply submit_inv; [apply Hu | apply Hone | exact Hp | exact H].
  - unfold consume_event in H. apply m_bind_some in H as (firing & a2 & H1 & H).
    destruct (Ingest (ap_injection a) now ev) as [p|]; [simpl in H1|done].
    destruct (OnEvent (ap_triggers a) now ev) as [[f t]|]; [|done]. injection H1 as <- <-.
    destruct f as [b|]; [by apply proactive_paired in H | by injection H as _ <-].
  - unfold Fork in H. rewrite Hst in H. apply m_bind_some in H as (id & a0 & [= <- <-] & H).
    destruct (String.eqb _ _); [by injection H as _ <-|]. apply m_bind_some in H as (f & a2 & H1 & H).
    unfold m_store in H1. destruct (rs_ForkRun _ _ _ _ _ _ _) as [f' s'] eqn:E. injection H1 as <- <-.
    destruct Hp as [Hw Hp]. apply sl_fork in E as [Hw' _]; [|done].
    destruct f' as [e|resp]; [by injection H as _ <-|].
    destruct (negb _); [by injection H as _ <-|]. destruct (negb _); [by injection H as _ <-|].
    rewrite (proj2 (Z.ltb_ge _ _)) in H by exact Hg.
    by apply m_bind_some in H as (u & a3 & [= _ <-] & [= _ <-]).
Qed.

(** A conversation stays one the providers accept.  If it pairs every
    tool call with its answer, it still does after any turns, submitted
    messages, injected events, triggered turns and forks, however the turns
    end: in order, by id, with nothing in between.  Whoever answers only has
    to pair the calls of its own results, as the Runner does. *)
Theorem session_paired ops a a' :
  sl_wf (ap_store a) -> rounds_ok [] (ap_history a) = true -> Forall goes_on ops ->
  session_run WithoutCancel data_field cfg ops a = Some a' ->
  rounds_ok [] (ap_history a') = true.
Proof.
  intros Hw Hp Hg H. enough (Hp' : paired a') by apply Hp'. assert (Hpa : paired a) by done. clear Hw Hp.
  revert a Hpa H. induction Hg as [|op ops Ho Hg IH]; intros a Hp H; cbn in H; [by injection H as <-|].
  destruct (session_do _ _ _ op a) as [a1|] eqn:E; [|done]. eapply IH; [|exact H]. by eapply do_paired.
Qed.
End Paired.
