(* ===== verification/SessionDemo.v ===== *)
(** * Sessions to try

    A session whose Runner answers every message with [reply], except [fail],
    over the in-memory store: the theorems of SessionLog.v and SessionRuns.v
    at work on it, and what the sessions do that their comments do not say. *)

From S2P Require Import Prelude GoStr Errors Json Provider TreeBudget Middleware Events Compaction StepStage RunStore Triggers Dispatch.
From S2P Require Import Runner TurnProps SubAgents FuncSource Memory Team Stages Injection SkillGrants Session SessionLog SessionRuns SessionEngine.
Local Open Scope Z_scope.

(** ** A Runner *)

Definition demo_result : TurnResult :=
  {| res_Text := "reply"; res_Messages := [text_message RoleAssistant "reply"]; res_Usage := Usage_zero;
     res_UsageByModel := None; res_Steps := 1; res_FinishReason := "stop"; res_Structured := ""; res_StructuredError := "" |}.

(** The world counts the messages the user will still send; one of them comes
    after the last model call of each turn.  A turn asked to load a skill
    activates its grant. *)
Definition demo_runner : single_engine (Ctx:=unit) (W:=nat) := fun _ req '(w, q, g) =>
  let text := last_text (tr_History req) in
  let '(w, q) := match w with O => (O, q) | S w => (w, (steer_offer "and then?" q).2) end in
  let g := if String.eqb text "load" then activate [tool_grant "deploy"] g else g in
  if String.eqb text "fail" then
    ((None, Some (EText "boom")), [EventTurnBegin; EventError "boom"], (w, q, g))
  else ((Some demo_result, None), [EventTurnBegin; EventTurnEnd demo_result], (w, q, g)).

Definition demo_cfg (exts : list (Extension unit nat)) : AppConfig unit nat InMemoryRunStore :=
  {| ac_store := Some InMemorySessions; ac_extensions := exts; ac_transient := []; ac_runner := demo_runner;
     ac_team := None; ac_mirror := fun _ w => w |}.

Definition demo_event (name : string) : IncomingEvent :=
  {| ie_Server := "ci"; ie_Name := name; ie_ID := "1"; ie_Cursor := ""; ie_Time := 1; ie_Data := "{}" |}.

Definition demo_policy (pending : list IncomingEvent) : EventInjectionPolicy :=
  with_pending (NewEventInjectionPolicy (fun _ => None) (fun _ => None)
    {| ic_Hints := ∅; ic_Filters := []; ic_Transforms := []; ic_Merge := None; ic_MaxPerDrain := 16; ic_Consent := None |})
    pending 0.

Definition demo_binding : TriggerBinding :=
  {| tb_Server := ""; tb_Event := "build"; tb_Filter := None; tb_Instructions := "load"; tb_Label := "ci"; tb_Cooldown := 0 |}.

Definition demo_app (store : InMemoryRunStore) (pending : list IncomingEvent) (unsent : nat) : App nat InMemoryRunStore :=
  {| ap_history := []; ap_runID := ""; ap_cursor := ""; ap_store := store;
     ap_steer := {| sq_active := false; sq_queue := [] |}; ap_injection := demo_policy pending;
     ap_triggers := NewTriggerPolicy [demo_binding] 5 None; ap_grants := {| gr_approved := ∅; gr_active := [] |};
     ap_active := ""; ap_log := []; ap_persisted := 0; ap_world := unsent |}.

Definition demo_moment : moment := {| mo_drain := 1; mo_range := []; mo_create := 2; mo_append := 3 |}.

Abbreviation demo_do := (session_do (fun c => c) (fun _ _ => None) (demo_cfg [])).
Abbreviation demo_run := (session_run (fun c => c) (fun _ _ => None) (demo_cfg [])).

Definition says (input : string) : session_op unit := OpTurn tt demo_moment [demo_moment; demo_moment] input "".
Definition build_event : session_op unit := OpEvent tt demo_moment 5 (demo_event "build").

Definition texts (l : list Message) : list string := map m_Text l.

Definition demo_stored (a : App nat InMemoryRunStore) : option (list string) :=
  texts <$> stored (Ctx:=unit) InMemorySessions a.

Lemma demo_fresh pending unsent : fresh (Ctx:=unit) InMemorySessions (demo_app NewInMemoryRunStore pending unsent).
Proof. by constructor. Qed.

Definition demo_turn (input : string) (a : App nat InMemoryRunStore) :=
  runOneTurn (fun c => c) (fun _ _ => None) (demo_cfg []) tt demo_moment input "" false a.

Lemma session_turn_witness :
  exists late err a' m', demo_turn "hello" (demo_app NewInMemoryRunStore [demo_event "note"] 1) = Some (late, err, a')
    /\ late = ["and then?"] /\ texts (ap_history a') = ["event note from ci: {}"; "hello"; "reply"]
    /\ stored (Ctx:=unit) InMemorySessions a' = Some m' /\ texts m' = ["hello"; "reply"]
    /\ ap_steer a' = {| sq_active := false; sq_queue := [] |}.
Proof.
  destruct (demo_turn "hello" (demo_app NewInMemoryRunStore [demo_event "note"] 1)) as [[[late err] a']|] eqn:E;
    [|vm_compute in E; discriminate].
  destruct (session_turn (Ctx:=unit) InMemorySessions (fun c => c) (fun _ _ => None) (demo_cfg []) eq_refl tt demo_moment
    "hello" "" false (demo_app NewInMemoryRunStore [demo_event "note"] 1) late err a' [] (fr_wf _ _ (demo_fresh _ _)) eq_refl E)
    as (drained & said & m' & H1 & H2 & H3 & H4 & H5 & H6 & H7).
  exists late, err, a', m'. split; [reflexivity|].
  vm_compute in E. injection E as <- <- <-. split; [reflexivity|]. split; [reflexivity|]. split; [exact H3|].
  split; [|exact H6]. vm_compute in H3. injection H3 as <-. reflexivity.
Defined.

Lemma session_record_sound_witness :
  exists a' m said, demo_run [says "hello"; build_event; says "fail"; OpFork tt demo_moment "branch" 1; says "again"]
      (demo_app NewInMemoryRunStore [demo_event "note"] 0) = Some a'
    /\ stored (Ctx:=unit) InMemorySessions a' = Some m /\ said `sublist_of` ap_history a' /\ Forall2 same_said said m
    /\ texts m = ["hello"; "again"; "reply"].
Proof.
  destruct (demo_run [says "hello"; build_event; says "fail"; OpFork tt demo_moment "branch" 1; says "again"]
    (demo_app NewInMemoryRunStore [demo_event "note"] 0)) as [a'|] eqn:E; [|vm_compute in E; discriminate].
  destruct (session_record_sound (Ctx:=unit) InMemorySessions (fun c => c) (fun _ _ => None) (demo_cfg []) eq_refl _ _ _
    (demo_fresh _ _) E) as (m & said & H1 & H2 & H3).
  exists a', m, said. split; [reflexivity|]. split; [exact H1|]. split; [exact H2|]. split; [exact H3|].
  vm_compute in E. injection E as <-. vm_compute in H1. injection H1 as <-. reflexivity.
Defined.

Lemma demo_idle : idle (demo_policy []).
Proof. constructor; reflexivity. Qed.

Lemma session_resumes_witness :
  exists a' a'', demo_run [says "hello"; says "fail"; OpFork tt demo_moment "branch" 0; says "again"]
      (demo_app NewInMemoryRunStore [] 1) = Some a'
    /\ Resume (demo_cfg []) tt (ap_runID a') a' = Some (None, a'')
    /\ Forall2 same_said (ap_history a') (ap_history a'')
    /\ texts (ap_history a') = ["hello"; "reply"; "and then?"; "reply"; "again"; "reply"] /\ ap_runID a' = "branch".
Proof.
  destruct (demo_run [says "hello"; says "fail"; OpFork tt demo_moment "branch" 0; says "again"]
      (demo_app NewInMemoryRunStore [] 1)) as [a'|] eqn:E; [|vm_compute in E; discriminate].
  assert (Hrun : ap_runID a' = "branch") by (vm_compute in E; injection E as <-; reflexivity).
  destruct (session_resumes (Ctx:=unit) InMemorySessions (fun c => c) (fun _ _ => None) (demo_cfg []) eq_refl tt
    [says "hello"; says "fail"; OpFork tt demo_moment "branch" 0; says "again"] _ _ mem_reliable (demo_fresh _ _) demo_idle ltac:(repeat constructor) E ltac:(rewrite Hrun; discriminate))
    as (a'' & H1 & H2 & _).
  exists a', a''. split; [reflexivity|]. split; [exact H1|]. split; [exact H2|]. split; [|exact Hrun].
  vm_compute in E. injection E as <-. reflexivity.
Defined.

Lemma subscribe_replays_witness :
  exists a' evs n, demo_run [says "hello"; says "fail"] (demo_app NewInMemoryRunStore [] 0) = Some a'
    /\ subscribe_replay (demo_cfg []) tt a' = Some (evs, n, a')
    /\ runner_events evs = [EventTurnBegin; EventTurnEnd (redact_result demo_result); EventTurnBegin; EventError "boom"].
Proof.
  destruct (demo_run [says "hello"; says "fail"] (demo_app NewInMemoryRunStore [] 0)) as [a'|] eqn:E;
    [|vm_compute in E; discriminate].
  destruct (subscribe_replays (Ctx:=unit) InMemorySessions (fun c => c) (fun _ _ => None) (demo_cfg []) eq_refl tt
    [says "hello"; says "fail"] _ _ mem_reliable ltac:(constructor) eq_refl (demo_fresh [] 0) eq_refl eq_refl
    ltac:(repeat constructor) E) as (evs & H1 & H2).
  exists a', evs, (Z.of_nat (length (ap_log a'))). split; [reflexivity|]. split; [exact H1|]. rewrite H2.
  vm_compute in E. injection E as <-. reflexivity.
Defined.

(** *** Without a store *)

Definition plain_cfg : AppConfig unit nat InMemoryRunStore :=
  {| ac_store := None; ac_extensions := []; ac_transient := []; ac_runner := demo_runner; ac_team := None;
     ac_mirror := fun _ w => w |}.

Definition no_windows (a : App nat InMemoryRunStore) : Prop := ip_windows (ap_injection a) = ∅.

Lemma drain_no_windows p now range : ip_windows p = ∅ ->
  exists out p', Drain (fun _ _ => None) p now range = Some (out, p') /\ ip_windows p' = ∅.
Proof.
  intros Hw. unfold Drain. assert (Hf : flush_windows p now range = Some p).
  { induction range as [|n range IH]; [done|]. cbn [flush_windows]. by rewrite Hw, lookup_empty. }
  rewrite Hf. cbn [mbind option_bind]. destruct (take_budget _ _ _ _ _) as [out pending]. by eexists _, _.
Qed.

Definition to_come (a : App nat InMemoryRunStore) : nat :=
  ap_world a + (if Nat.eqb (length (sq_queue (ap_steer a))) 0 then 0 else 1).

Lemma plain_turn mo input schema announced a :
  no_windows a -> exists late err a',
    runOneTurn (fun c => c) (fun _ _ => None) plain_cfg tt mo input schema announced a = Some (late, err, a')
    /\ no_windows a' /\ (late <> [] -> (to_come a' < to_come a)%nat).
Proof.
  intros Hw. destruct (drain_no_windows (ap_injection a) (mo_drain mo) (mo_range mo) Hw) as (out & p' & Hd & Hp').
  unfold runOneTurn, turn_body, m_bind, m_upd, converse, run_durable.
  destruct announced; cbn -[Drain]; rewrite Hd; cbn -[Drain demo_runner];
    unfold run_single; cbn -[demo_runner]; unfold demo_runner; destruct (ap_world a) as [|w] eqn:Ew; cbn -[String.eqb];
    destruct (String.eqb _ "fail"); cbn; eexists _, _, _; (split; [reflexivity|]); (split; [exact Hp'|]);
    unfold to_come; cbn; rewrite Ew; intros Hl; try lia;
    (destruct (sq_queue (ap_steer a)); [done | cbn; lia]).
Qed.

Lemma late_turns_end_witness :
  exists err a', RunTurnWith (fun c => c) (fun _ _ => None) plain_cfg tt demo_moment [demo_moment; demo_moment] "hello" ""
      (demo_app NewInMemoryRunStore [] 2) = Some (err, a')
    /\ texts (ap_history a') = ["hello"; "reply"; "and then?"; "reply"; "and then?"; "reply"].
Proof.
  destruct (late_turns_end (fun c => c) (fun _ _ => None) plain_cfg no_windows to_come tt demo_moment
    [demo_moment; demo_moment] "hello" "" (demo_app NewInMemoryRunStore [] 2) plain_turn (fun _ _ H => H) eq_refl
    ltac:(vm_compute; lia)) as (err & a' & H & _).
  exists err, a'. split; [exact H|]. vm_compute in H. injection H as _ <-. reflexivity.
Defined.

Lemma search_sessions_witness :
  SearchSessions (fun s => s) (demo_cfg []) 20 tt "hat" (demo_app demo_store [] 0)
    = Some (inr (List.filter (search_match (fun s => s) "hat") (take 1000 (sorted_infos demo_store))), demo_app demo_store [] 0)
  /\ ri_ID <$> List.filter (search_match (fun s => s) "hat") (take 1000 (sorted_infos demo_store)) = ["chat"].
Proof.
  split; [|vm_compute; reflexivity].
  apply (search_sessions (fun s => s) (demo_cfg []) eq_refl); [lia | vm_compute; discriminate].
Defined.

(** *** With the Runner

    A model that calls a tool once and then answers, and a user who says one
    thing more while the tool runs. *)

Abbreviation demo_world := (@turn_world nat).

Definition live_model : Provider unit demo_world :=
  {| prov_id := 1; prov_caps := None;
     prov_Stream := fun _ req => eff_ret (inr (
       if existsb is_tool (pr_Messages req) then [inr (text_delta DeltaText "done")]
       else [inr (start_delta 0 "c1" "look")]));
     prov_Generate := fun _ _ => eff_ret (inl (EText "not asked")) |}.

Definition live_disp (ctx : unit) (step : Z) (calls : list ToolCall) (tools : list ToolDef)
    : eff demo_world Event (list Message * list Signal) := fun '(w, q, g) =>
  let q := match w with O => q | S _ => (steer_offer "also this" q).2 end in
  ((zip_with result_of calls (map (fun _ => "ok") calls), []), [], (pred w, q, g)).

#[local] Instance live_dispatcher : Dispatcher unit demo_world.
Proof.
  refine {| disp := live_disp |}. intros ctx step calls tools [[w q] g]. exists (map (fun _ => "ok") calls).
  split; [apply length_map | reflexivity].
Defined.

Definition live_env : TurnEnv unit demo_world :=
  {| te_budget := fun _ _ => None; te_set_budget := fun _ _ w => w; te_with_budget := fun c _ w => (c, w);
     te_ctx_err := fun _ _ => None; te_compile := fun _ => inl (EText "no schema"); te_fresh := 1 |}.

Definition live_config : RunnerConfig unit demo_world :=
  {| rc_Provider := live_model; rc_Tools := None; rc_Instructions := "help"; rc_InstructionsFunc := None;
     rc_MaxSteps := 5; rc_TreeBudget := {| tb_MaxSteps := 0; tb_MaxTokens := 0 |}; rc_Selector := None;
     rc_Generation := GenerationParams_zero; rc_Compactor := None; rc_StepStages := [steerStage];
     rc_SignalPolicy := None; rc_PreemptGrant := None; rc_ResponseSchema := ""; rc_ResponseGuided := None;
     rc_TurnEnd := [] |}.

Definition live_cfg : AppConfig unit nat InMemoryRunStore :=
  {| ac_store := Some InMemorySessions; ac_extensions := []; ac_transient := [];
     ac_runner := runner_engine live_env live_config; ac_team := None; ac_mirror := fun _ w => w |}.

#[local] Instance live_paired : PairedRunner live_cfg.
Proof.
  apply (runner_engine_paired live_env live_config); [done|].
  change (Forall notes_only [steerStage (Ctx:=unit) (W:=nat)]). constructor; [apply steer_stage_notes | constructor].
Defined.

Lemma session_paired_witness :
  exists a', session_run (fun c => c) (fun _ _ => None) live_cfg
      [says "hello"; build_event; OpFork tt demo_moment "branch" 0; says "more"]
      (demo_app NewInMemoryRunStore [demo_event "note"] 1) = Some a'
    /\ rounds_ok [] (ap_history a') = true
    /\ take 6 (m_Role <$> ap_history a') = [RoleSystem; RoleUser; RoleAssistant; RoleTool; RoleUser; RoleAssistant]
    /\ take 6 (texts (ap_history a')) = ["event note from ci: {}"; "hello"; ""; "ok"; "also this"; "done"].
Proof.
  destruct (session_run (fun c => c) (fun _ _ => None) live_cfg
      [says "hello"; build_event; OpFork tt demo_moment "branch" 0; says "more"]
      (demo_app NewInMemoryRunStore [demo_event "note"] 1)) as [a'|] eqn:E; [|vm_compute in E; discriminate].
  pose proof (session_paired (Ctx:=unit) InMemorySessions (fun c => c) (fun _ _ => None) live_cfg eq_refl
    [says "hello"; build_event; OpFork tt demo_moment "branch" 0; says "more"]
    (demo_app NewInMemoryRunStore [demo_event "note"] 1) a' (fr_wf _ _ (demo_fresh _ _)) eq_refl
    ltac:(repeat constructor; vm_compute; discriminate) E) as H.
  exists a'. split; [reflexivity|]. split; [exact H|]. vm_compute in E. injection E as <-. split; vm_compute; reflexivity.
Defined.

(** ** What the comments do not say *)

Definition demo_state (ops : list (session_op unit)) (pending : list IncomingEvent) : option (App nat InMemoryRunStore) :=
  demo_run ops (demo_app NewInMemoryRunStore pending 0).

(** An event injected into a turn joins the history and not the store: the
    conversation that is resumed is without it. *)
Lemma injected_events_not_stored :
  (texts ∘ ap_history <$> demo_state [says "hello"] [demo_event "note"]) = Some ["event note from ci: {}"; "hello"; "reply"]
  /\ (a ← demo_state [says "hello"] [demo_event "note"]; demo_stored a) = Some ["hello"; "reply"]
  /\ (texts ∘ ap_history <$> demo_state [says "hello"; OpResume tt "run-1"] [demo_event "note"]) = Some ["hello"; "reply"].
Proof. split; [|split]; vm_compute; reflexivity. Qed.

(** A fork of the whole log goes on with a history its run does not have. *)
Lemma whole_fork_keeps_injected :
  (texts ∘ ap_history <$> demo_state [says "hello"; OpFork tt demo_moment "branch" 0] [demo_event "note"])
    = Some ["event note from ci: {}"; "hello"; "reply"]
  /\ (a ← demo_state [says "hello"; OpFork tt demo_moment "branch" 0] [demo_event "note"]; demo_stored a)
    = Some ["hello"; "reply"].
Proof. split; vm_compute; reflexivity. Qed.

(** A turn that fails does not leave the history as it was: the events drained
    for it stay. *)
Lemma failed_turn_keeps_injected :
  (texts ∘ ap_history <$> demo_state [says "fail"] [demo_event "note"]) = Some ["event note from ci: {}"].
Proof. vm_compute. reflexivity. Qed.

(** A turn a trigger starts is in the history and nowhere else, and the grants
    of a skill it loads are still active when it is over. *)
Lemma proactive_turn_not_stored :
  (texts ∘ ap_history <$> demo_state [says "hello"; build_event] [])
    = Some ["hello"; "reply"; "event build from ci: {}"; "load"; "reply"]
  /\ (a ← demo_state [says "hello"; build_event] []; demo_stored a) = Some ["hello"; "reply"].
Proof. split; vm_compute; reflexivity. Qed.

Lemma proactive_turn_keeps_grants :
  (length ∘ gr_active ∘ ap_grants <$> demo_state [build_event] []) = Some 1%nat
  /\ (length ∘ gr_active ∘ ap_grants <$> demo_state [says "load"] []) = Some 0%nat.
Proof. split; vm_compute; reflexivity. Qed.

Definition replayed (a : App nat InMemoryRunStore) : list Event :=
  match subscribe_replay (demo_cfg []) tt a with Some (evs, _, _) => runner_events evs | None => [] end.

(** A subscriber after the next turn is not replayed the triggered turn: the
    offset has moved past its events, and the store never had them. *)
Lemma proactive_turn_not_replayed :
  (length ∘ runner_events ∘ ap_log <$> demo_state [says "hello"; build_event; says "again"] []) = Some 6%nat
  /\ (length ∘ replayed <$> demo_state [says "hello"; build_event; says "again"] []) = Some 4%nat.
Proof. split; vm_compute; reflexivity. Qed.

(** A surface that attaches to a resumed run before its first turn is replayed
    none of the events the store has. *)
Lemma resumed_run_not_replayed :
  exists a1 a2 r, demo_state [says "hello"] [] = Some a1
    /\ demo_run [OpAttach tt demo_moment "run-1"] (demo_app (ap_store a1) [] 0) = Some a2
    /\ LoadRun "run-1" (ap_store a2) = Some r /\ length (run_Events r) = 2%nat
    /\ texts (ap_history a2) = ["hello"; "reply"] /\ replayed a2 = [].
Proof.
  destruct (demo_state [says "hello"] []) as [a1|] eqn:E1; [|vm_compute in E1; discriminate].
  exists a1. vm_compute in E1. injection E1 as <-. eexists _, _. split; [reflexivity|].
  split; [vm_compute; reflexivity|]. split; [vm_compute; reflexivity|]. repeat split; vm_compute; reflexivity.
Qed.

(** *** A store that fails once *)

(** The in-memory store, whose next calls that append events fail. *)
Definition flaky : RunStore unit (InMemoryRunStore * nat) :=
  {| rs_CreateRun := fun _ now id '(s, n) => let '(r, s) := CreateRun now id s in (inr r, (s, n));
     rs_AppendMessages := fun _ now id msgs '(s, n) => let '(r, s) := AppendMessages now id msgs s in (inr r, (s, n));
     rs_AppendEvents := fun _ id evs '(s, n) =>
       match n with
       | S n => (inl (EText "unavailable"), (s, n))
       | O => let '(r, s) := AppendEvents id evs s in (inr r, (s, O))
       end;
     rs_LoadRun := fun _ id '(s, _) => inr (LoadRun id s);
     rs_ForkRun := fun _ now id new_id n '(s, k) => let '(r, s) := ForkRun now id new_id n s in (inr r, (s, k));
     rs_ListRuns := fun _ cursor limit '(s, _) => inr <$> ListRuns cursor limit s |}.

Definition flaky_cfg : AppConfig unit nat (InMemoryRunStore * nat) :=
  {| ac_store := Some flaky; ac_extensions := []; ac_transient := []; ac_runner := demo_runner; ac_team := None;
     ac_mirror := fun _ w => w |}.

Definition flaky_app : App nat (InMemoryRunStore * nat) :=
  {| ap_history := []; ap_runID := ""; ap_cursor := ""; ap_store := (NewInMemoryRunStore, 1%nat);
     ap_steer := {| sq_active := false; sq_queue := [] |}; ap_injection := demo_policy [];
     ap_triggers := NewTriggerPolicy [] 5 None; ap_grants := {| gr_approved := ∅; gr_active := [] |};
     ap_active := ""; ap_log := []; ap_persisted := 0; ap_world := O |}.

(** The events of a turn whose flush failed are lost to the replay as soon as
    the next turn's flush succeeds. *)
Lemma failed_flush_leaves_gap :
  exists a evs n, session_run (fun c => c) (fun _ _ => None) flaky_cfg [says "hello"; says "again"] flaky_app = Some a
    /\ subscribe_replay flaky_cfg tt a = Some (evs, n, a)
    /\ length (runner_events (ap_log a)) = 4%nat /\ length (runner_events evs) = 2%nat.
Proof. eexists _, _, _. split; [vm_compute; reflexivity|]. split; [vm_compute; reflexivity|]. split; vm_compute; reflexivity. Qed.

(** *** Hooks *)

(** An extension that counts the turns it believes to be running, and refuses
    the message "no". *)
Definition counting_ext : Extension unit nat :=
  {| ext_Name := "counter";
     ext_TurnStart := fun _ w => (None, [], S w);
     ext_InputTransforms := [Some (fun _ input => eff_ret
       (if String.eqb input "no" then inl (EText "refused") else inr input))];
     ext_TurnEnd := Some (fun _ _ _ w => (tt, [], pred w)) |}.

Definition counting_cfg : AppConfig unit nat InMemoryRunStore :=
  {| ac_store := None; ac_extensions := [counting_ext]; ac_transient := [];
     ac_runner := fun _ _ w => ((Some demo_result, None), [], w); ac_team := None; ac_mirror := fun _ w => w |}.

(** A turn that fails before the model is asked starts for the extension and
    never ends for it. *)
Lemma failed_transform_never_ends :
  (ap_world ∘ snd <$> runOneTurn (fun c => c) (fun _ _ => None) counting_cfg tt demo_moment "yes" "" false
      (demo_app NewInMemoryRunStore [] 0)) = Some 0%nat
  /\ (ap_world ∘ snd <$> runOneTurn (fun c => c) (fun _ _ => None) counting_cfg tt demo_moment "no" "" false
      (demo_app NewInMemoryRunStore [] 0)) = Some 1%nat.
Proof. split; vm_compute; reflexivity. Qed.
