(* ===== verification/Rules.v ===== *)
(** * Rule files: src/ext/agentsmd/rules.go

    A rule file says in its frontmatter when it applies.  The file models
    path.Match as far as it says whether a name matches, the reader of
    frontmatter, the kinds of rules and their globs, and proves the globs
    against a reference relation, that a rule matches only below its root,
    and that frontmatter is read back as it was written. *)

From S2P Require Import Prelude GoStr Paths.
Local Open Scope nat_scope.

(** ** Go strings *)

(** [utf8.DecodeRuneInString]: the rune and its length. *)
Definition decode_rune (s : string) : N * nat :=
  match s with
  | EmptyString => (65533%N, 0)
  | String a rest =>
      let head := Ascii.N_of_ascii a in
      if code a <? 128 then (head, 1)
      else
        let tail (n : nat) := match String.get n s with Some c => (Ascii.N_of_ascii c mod 64)%N | None => 0%N end in
        match utf8_len s with
        | 2 => ((head mod 32 * 64 + tail 1%nat)%N, 2)
        | 3 => ((head mod 16 * 4096 + tail 1%nat * 64 + tail 2%nat)%N, 3)
        | 4 => ((head mod 8 * 262144 + tail 1%nat * 4096 + tail 2%nat * 64 + tail 3%nat)%N, 4)
        | _ => (65533%N, 1)
        end
  end.

(** [strings.Split] at one byte. *)
Fixpoint split_byte (c : nat) (s : string) : list string :=
  match s with
  | EmptyString => [""]
  | String d s' =>
      if Nat.eqb (code d) c then "" :: split_byte c s'
      else match split_byte c s' with
           | l :: ls => String d l :: ls
           | [] => [String d ""]
           end
  end.

Fixpoint str_map (f : Ascii.ascii -> Ascii.ascii) (s : string) : string :=
  match s with EmptyString => "" | String c s => String (f c) (str_map f s) end.

(** [strings.EqualFold] with a word whose letters have no other case forms
    than the two of ASCII. *)
Definition equal_fold (s t : string) : bool := String.eqb (str_map lower_ascii s) (str_map lower_ascii t).

(** ** [path.Match]

    [None] is a mismatch or a malformed pattern: the code looks at the first
    result alone, and a malformed chunk never matches. *)

(** A character of a class: [getEsc]. *)
Definition get_esc (chunk : string) : option (N * string) :=
  match chunk with
  | EmptyString => None
  | String c rest =>
      if ceq c 45 || ceq c 93 then None
      else
        let chunk := if ceq c 92 then rest else chunk in
        if String.eqb chunk "" then None
        else
          let '(r, n) := decode_rune chunk in
          if N.eqb r 65533 && Nat.eqb n 1 then None
          else
            let chunk := str_drop n chunk in
            if String.eqb chunk "" then None else Some (r, chunk)
  end.

(** The ranges of a class up to its bracket: whether [r] is in one of them. *)
Fixpoint class_ranges (fuel : nat) (chunk : string) (r : N) (matched : bool) (nrange : nat) : option (bool * string) :=
  match fuel with
  | O => None
  | S fuel =>
      match chunk with
      | String c rest =>
          if ceq c 93 && (0 <? nrange) then Some (matched, rest)
          else
            '(lo, chunk) ← get_esc chunk;
            '(hi, chunk) ← match chunk with
                           | String d rest' => if ceq d 45 then get_esc rest' else Some (lo, chunk)
                           | EmptyString => Some (lo, chunk)
                           end;
            class_ranges fuel chunk r (matched || N.leb lo r && N.leb r hi) (S nrange)
      | EmptyString => None
      end
  end.

Definition match_class (chunk : string) (r : N) : option (bool * string) :=
  let '(negated, chunk) := match chunk with
                           | String c rest => if ceq c 94 then (true, rest) else (false, chunk)
                           | EmptyString => (false, chunk)
                           end in
  '(matched, rest) ← class_ranges (String.length chunk) chunk r false 0;
  Some (negb (Bool.eqb matched negated), rest).

(** [matchChunk]: what is left of the name. *)
Fixpoint match_chunk (fuel : nat) (chunk s : string) : option string :=
  match chunk with
  | EmptyString => Some s
  | String c rest =>
      match fuel, s with
      | S fuel, String d s' =>
          if ceq c 91 then
            let '(r, n) := decode_rune s in
            '(ok, rest) ← match_class rest r;
            if (ok : bool) then match_chunk fuel rest (str_drop n s) else None
          else if ceq c 63 then
            if ceq d 47 then None else match_chunk fuel rest (str_drop (decode_rune s).2 s)
          else if ceq c 92 then
            match rest with
            | String e rest => if Ascii.eqb e d then match_chunk fuel rest s' else None
            | EmptyString => None
            end
          else if Ascii.eqb c d then match_chunk fuel rest s' else None
      | _, _ => None
      end
  end.

Definition chunk_matches (chunk s : string) : option string := match_chunk (String.length chunk) chunk s.

Fixpoint drop_stars (s : string) : bool * string :=
  match s with
  | String c s' => if ceq c 42 then (true, (drop_stars s').2) else (false, s)
  | EmptyString => (false, "")
  end.

(** The chunk at the head of a pattern without leading stars, and the rest. *)
Fixpoint scan_chunk (in_class : bool) (s : string) : string * string :=
  match s with
  | EmptyString => ("", "")
  | String c s' =>
      if ceq c 92 then
        match s' with
        | String e s'' => let '(chunk, rest) := scan_chunk in_class s'' in (String c (String e chunk), rest)
        | EmptyString => (String c "", "")
        end
      else if ceq c 42 && negb in_class then ("", s)
      else
        let in_class := if ceq c 91 then true else if ceq c 93 then false else in_class in
        let '(chunk, rest) := scan_chunk in_class s' in (String c chunk, rest)
  end.

(** After a star: the first place further on where the chunk matches, and, if
    it is the last chunk, ends the name. *)
Fixpoint skip_to (chunk : string) (last : bool) (name : string) : option string :=
  match name with
  | EmptyString => None
  | String c name' =>
      if ceq c 47 then None
      else match chunk_matches chunk name' with
           | Some t => if last && negb (String.eqb t "") then skip_to chunk last name' else Some t
           | None => skip_to chunk last name'
           end
  end.

Fixpoint match_go (fuel : nat) (pattern name : string) : bool :=
  if String.eqb pattern "" then String.eqb name ""
  else
    match fuel with
    | O => false
    | S fuel =>
        let '(star, pattern) := drop_stars pattern in
        let '(chunk, pattern) := scan_chunk false pattern in
        if star && String.eqb chunk "" then str_forall (fun c => negb (ceq c 47)) name
        else
          let last := String.eqb pattern "" in
          match chunk_matches chunk name with
          | Some t =>
              if String.eqb t "" || negb last then match_go fuel pattern t
              else if (star : bool) then
                match skip_to chunk last name with Some t => match_go fuel pattern t | None => false end
              else false
          | None =>
              if (star : bool) then
                match skip_to chunk last name with Some t => match_go fuel pattern t | None => false end
              else false
          end
    end.

Definition path_match (pattern name : string) : bool := match_go (S (String.length pattern)) pattern name.

(** ** Globs *)

Fixpoint suffixes {A} (l : list A) : list (list A) := l :: match l with [] => [] | _ :: l' => suffixes l' end.

(** [matchSegments]: over the globs; the loop tries every rest of the path. *)
Fixpoint matchSegments (g p : list string) : bool :=
  match g with
  | [] => match p with [] => true | _ => false end
  | s :: g' =>
      if String.eqb s "**" then
        match g' with [] => true | _ => existsb (matchSegments g') (suffixes p) end
      else match p with
           | [] => false
           | e :: p' => path_match s e && matchSegments g' p'
           end
  end.

Definition path_base (p : string) : string :=
  if String.eqb p "" then "."
  else match rev (List.filter (fun e => negb (String.eqb e "")) (split_slash p)) with [] => slash | e :: _ => e end.

Definition globMatch (glob rel : string) : bool :=
  let glob := trim_prefix glob "./" in
  let glob := if has_suffix "/" glob then glob +:+ "**" else glob in
  if negb (str_contains glob "/") then path_match glob (path_base rel)
  else matchSegments (split_slash glob) (split_slash rel).

(** ** Rules *)

Inductive ruleKind := ruleAlways | ruleGlob | ruleDescription | ruleManual.

#[export] Instance ruleKind_eq_dec : EqDecision ruleKind.
Proof. solve_decision. Defined.

Record ruleMeta := { rm_always : bool; rm_description : string; rm_globs : list string }.

Record rule := {
  ru_path : string;
  ru_root : string;
  ru_within : string;
  ru_global : bool;
  ru_meta : ruleMeta;
  ru_kind : ruleKind;
  ru_text : string;
}.

Record doc := { dc_path : string; dc_text : string; dc_label : string }.

Definition rule_name (r : rule) : string := trim_suffix (trim_suffix (Base (ru_path r)) ".mdc") ".md".

Definition rule_same (r o : rule) : bool :=
  bool_decide (ru_kind r = ru_kind o) && String.eqb (ru_text r) (ru_text o)
  && String.eqb (rm_description (ru_meta r)) (rm_description (ru_meta o))
  && String.eqb (str_join nul (rm_globs (ru_meta r))) (str_join nul (rm_globs (ru_meta o))).

Definition alwaysLabel (r : rule) : string :=
  if negb (String.eqb (ru_within r) "") then "rule, applies within " +:+ ru_within r
  else if ru_global r then "your rule, applies always"
  else "rule, applies always".

Definition rule_doc (r : rule) (label : string) : doc := {| dc_path := ru_path r; dc_text := ru_text r; dc_label := label |}.

(** Both paths are absolute, so [filepath.Rel] does not fail. *)
Definition rule_matches (r : rule) (abs root : string) : string :=
  let root := if String.eqb (ru_root r) "" then root else ru_root r in
  if String.eqb root "" then ""
  else
    let rel := Rel root abs in
    if climbs rel then ""
    else default "" (find (fun g => globMatch g rel) (rm_globs (ru_meta r))).

Definition kindOf (file : string) (m : ruleMeta) : ruleKind :=
  if rm_always m then ruleAlways
  else if Nat.ltb 0 (length (rm_globs m)) then ruleGlob
  else if negb (String.eqb (rm_description m) "") then ruleDescription
  else if has_suffix ".mdc" file then ruleManual
  else ruleAlways.

(** ** Frontmatter *)

Definition unquote (s : string) : string :=
  let n := String.length s in
  match String.get 0 s, String.get (n - 1) s with
  | Some a, Some z =>
      if (2 <=? n) && (ceq a 34 || ceq a 39) && Ascii.eqb z a then str_take (n - 2) (str_drop 1 s) else s
  | _, _ => s
  end.

Definition splitList (v : string) : list string :=
  let v := trim_space v in
  let v := trim_suffix (trim_prefix v "[") "]" in
  List.filter (fun p => negb (String.eqb p "")) (map (fun p => unquote (trim_space p)) (split_byte 44 v)).

Definition add_globs (l : list string) (m : ruleMeta) : ruleMeta :=
  {| rm_always := rm_always m; rm_description := rm_description m; rm_globs := rm_globs m ++ l |}.

(** One line of the frontmatter: the key in force and what it says so far. *)
Definition meta_line (st : string * ruleMeta) (line : string) : string * ruleMeta :=
  let '(key, m) := st in
  let t := trim_space line in
  if String.eqb t "" || has_prefix "#" t then st
  else if has_prefix "- " t then
    if String.eqb key "globs" || String.eqb key "paths" then
      let v := unquote (trim_space (str_drop 2 t)) in
      if String.eqb v "" then st else (key, add_globs [v] m)
    else st
  else match cut_byte (Ascii.ascii_of_nat 58) t with
       | None => st
       | Some (k, v) =>
           let key := trim_space k in
           let v := trim_space v in
           (key,
            if String.eqb key "alwaysApply" then
              {| rm_always := equal_fold v "true"; rm_description := rm_description m; rm_globs := rm_globs m |}
            else if String.eqb key "description" then
              {| rm_always := rm_always m; rm_description := unquote v; rm_globs := rm_globs m |}
            else if String.eqb key "globs" || String.eqb key "paths" then add_globs (splitList v) m
            else m)
       end.

Definition bom : string := byte_of 239 +:+ byte_of 187 +:+ byte_of 191.

Definition no_meta : ruleMeta := {| rm_always := false; rm_description := ""; rm_globs := [] |}.

(** The lines before the closing line and those after it. *)
Fixpoint cut_fence (lines : list string) : option (list string * list string) :=
  match lines with
  | [] => None
  | l :: lines =>
      if String.eqb (trim_space l) "---" then Some ([], lines)
      else '(inside, after) ← cut_fence lines; Some (l :: inside, after)
  end.

Definition parseRuleFrontmatter (src : string) : ruleMeta * string :=
  let s := trim_prefix src bom in
  match cut_byte (Ascii.ascii_of_nat 10) s with
  | None => (no_meta, trim_space src)
  | Some (first, rest) =>
      if negb (String.eqb (trim_space first) "---") then (no_meta, trim_space src)
      else match cut_fence (split_lines rest) with
           | None => (no_meta, trim_space src)
           | Some (inside, after) =>
               ((foldl meta_line ("", no_meta) inside).2, trim_space (str_join newline after))
           end
  end.

(** ** Globs against a reference relation *)

(** What the segments of a glob say of the elements of a path. *)
Inductive seg_match : list string -> list string -> Prop :=
| SegEnd : seg_match [] []
| SegHere s g e p : s <> "**" -> path_match s e = true -> seg_match g p -> seg_match (s :: g) (e :: p)
| SegDeep g pre p : seg_match g p -> seg_match ("**" :: g) (pre ++ p).

#[export] Hint Constructors seg_match : chakra.

Lemma suffixes_spec {A} (l q : list A) : q ∈ suffixes l <-> exists pre, l = pre ++ q.
Proof.
  induction l as [|a l IH]; cbn [suffixes]; rewrite elem_of_cons.
  - split; [intros [->|H%not_elem_of_nil]; [by exists []|done]|intros [[|] H]; naive_solver].
  - rewrite IH. split.
    + intros [->|[pre ->]]; [by exists []|by exists (a :: pre)].
    + intros [[|b pre] H]; [by left|right]. injection H as -> ->. by exists pre.
Qed.

Lemma matchSegments_spec g p : matchSegments g p = true <-> seg_match g p.
Proof.
  revert p. induction g as [|s g IH]; intros p; cbn [matchSegments].
  { destruct p; split; intros H; [constructor|done|done|inversion H]. }
  destruct (String.eqb s "**") eqn:Es.
  - apply String.eqb_eq in Es as ->. split.
    + destruct g as [|s' g'].
      * intros _. rewrite <- (app_nil_r p). repeat constructor.
      * intros (q & Hq & Hm)%existsb_exists. apply list_elem_of_In, suffixes_spec in Hq as [pre ->]. apply SegDeep. by apply IH.
    + intros H. inversion H as [|? ? ? ? Hn|g' pre q Hm]; subst; [done|]. destruct g as [|s' g']; [done|].
      apply existsb_exists. exists q. split; [|by apply IH]. apply list_elem_of_In, suffixes_spec. eauto.
  - apply String.eqb_neq in Es. destruct p as [|e p].
    + split; [done|]. intros H. inversion H; subst; done.
    + rewrite andb_true_iff, IH. split.
      * intros [? ?]. by constructor.
      * intros H. inversion H; subst; [by split|done].
Qed.

(** The glob as it is split: a leading ["./"] is dropped, a trailing slash
    means everything below. *)
Definition glob_pattern (g : string) : string :=
  let g := trim_prefix g "./" in if has_suffix "/" g then g +:+ "**" else g.

(** What a glob selects among the paths [down] below the root. *)
Definition glob_selects (g : string) (down : list string) : Prop :=
  let p := glob_pattern g in
  if str_contains p "/" then seg_match (split_slash p) (match down with [] => ["."] | _ => down end)
  else path_match p (List.last down ".") = true.

Lemma path_of_split down : Forall normal down -> split_slash (path_of false down) = match down with [] => ["."] | _ => down end.
Proof.
  intros H. destruct down as [|e down]; [done|]. cbn [path_of].
  apply split_join_slash; [done|by apply normals_no_slash].
Qed.

Lemma path_base_down down : Forall normal down -> path_base (path_of false down) = List.last down ".".
Proof.
  intros H. unfold path_base. rewrite path_of_split by done.
  destruct down as [|e down _] using rev_ind; [done|].
  assert (Hne : String.eqb (path_of false (down ++ [e])) "" = false).
  { apply String.eqb_neq. intros He. pose proof (path_of_split _ H) as Hs. rewrite He in Hs. cbn in Hs.
    destruct down as [|d down]; cbn in Hs; injection Hs; [|intros; by destruct down].
    intros <-. by apply Forall_inv in H as [? _]. }
  rewrite Hne. replace (match down ++ [e] with [] => ["."] | _ => down ++ [e] end) with (down ++ [e]) by (by destruct down).
  apply Forall_app in H as [Hd He]. apply Forall_inv in He as [He _].
  rewrite List.filter_app, rev_app_distr. cbn [List.filter]. apply String.eqb_neq in He. rewrite He. cbn.
  by rewrite last_last.
Qed.

Lemma globMatch_spec g down : Forall normal down -> globMatch g (path_of false down) = true <-> glob_selects g down.
Proof.
  intros H. unfold globMatch, glob_selects. fold (glob_pattern g). destruct (str_contains (glob_pattern g) "/"); cbn [negb].
  - rewrite path_of_split by done. apply matchSegments_spec.
  - by rewrite path_base_down.
Qed.

Lemma find_first {A} (f : A -> bool) l a :
  List.find f l = Some a <-> exists pre post, l = pre ++ a :: post /\ f a = true /\ Forall (fun b => f b = false) pre.
Proof.
  induction l as [|b l IH]; cbn [List.find].
  - split; [done|intros ([|] & post & H & _); discriminate H].
  - destruct (f b) eqn:Eb.
    + split; [intros [= ->]; by exists [], l|]. intros ([|c pre] & post & [= -> ->] & Ha & Hp); [done|]. apply Forall_inv in Hp. congruence.
    + rewrite IH. split.
      * intros (pre & post & -> & Ha & Hp). exists (b :: pre), post. repeat split; [done|by constructor].
      * intros ([|c pre] & post & [= -> ->] & Ha & Hp); [congruence|]. apply Forall_cons in Hp as [_ Hp]. eauto.
Qed.

(** A rule matches an absolute path exactly when the path is at or below
    the directory its globs are relative to and some glob selects what is
    below; the answer is the first such glob.  A rule of the user's own looks
    below whichever root holds the path. *)
Theorem rule_matches_first r abs root g :
  is_abs abs = true -> g <> "" ->
  let top := if String.eqb (ru_root r) "" then root else ru_root r in
  rule_matches r (Clean abs) root = g <->
  top <> "" /\ exists down pre post,
    clean_elems abs = clean_elems top ++ down /\ rm_globs (ru_meta r) = pre ++ g :: post
    /\ glob_selects g down /\ Forall (fun h => ~ glob_selects h down) pre.
Proof.
  intros Ha Hg top. unfold rule_matches. fold top. destruct (String.eqb top "") eqn:Et.
  { apply String.eqb_eq in Et. split; [intros <-; done|intros [? _]; done]. }
  apply String.eqb_neq in Et. destruct (climbs (Rel top (Clean abs))) eqn:Ec.
  { split; [intros <-; done|]. intros (_ & down & pre & post & Hd & _).
    assert (climbs (Rel top (Clean abs)) = false) by (apply rel_climbs_iff; eauto). congruence. }
  apply rel_down in Ec as (down & -> & Hn & Hd); [|done]. split.
  - intros Hf. destruct (find _ _) as [h|] eqn:Ef; cbn in Hf; [subst h|by subst g].
    apply find_first in Ef as (pre & post & Hl & Hs & Hp). split; [done|]. exists down, pre, post.
    repeat split; [done|done|by apply globMatch_spec|]. eapply Forall_impl; [exact Hp|]. cbv beta.
    intros h Hh. rewrite <- globMatch_spec by done. congruence.
  - intros (_ & down' & pre & post & Hd' & Hl & Hs & Hp). rewrite Hd' in Hd. apply app_inv_head in Hd as ->.
    assert (find (fun h => globMatch h (path_of false down)) (rm_globs (ru_meta r)) = Some g) as ->; [|done].
    apply find_first. exists pre, post. repeat split; [done|by apply globMatch_spec|]. eapply Forall_impl; [exact Hp|]. cbv beta.
    intros h Hh. rewrite <- globMatch_spec in Hh by done. by apply not_true_iff_false.
Qed.

Lemma rule_matches_first_witness :
  rule_matches {| ru_path := "/w/.cursor/rules/web.mdc"; ru_root := "/w"; ru_within := ""; ru_global := false;
                  ru_meta := {| rm_always := false; rm_description := ""; rm_globs := ["*.go"; "web/**/*.ts"] |};
                  ru_kind := ruleGlob; ru_text := "Use strict types." |} (Clean "/w/web/src/./app.ts") "" = "web/**/*.ts".
Proof.
  apply rule_matches_first; [reflexivity|discriminate|]. split; [discriminate|].
  exists ["web"; "src"; "app.ts"], ["*.go"], []. repeat split.
  - apply globMatch_spec; [|vm_compute; reflexivity]. repeat constructor; discriminate.
  - constructor; [|constructor]. vm_compute. discriminate.
Defined.

(** ** Frontmatter read back *)

(** Text that starts and ends with printable bytes that are neither quotes
    nor brackets. *)
Definition plain_edge (c : Ascii.ascii) : bool := graphic c && negb (existsb (Nat.eqb (code c)) [34; 39; 91; 93]).

Definition edged (s : string) : Prop :=
  exists c u t d, s = String c u /\ s = t +:+ String d "" /\ plain_edge c = true /\ plain_edge d = true.

Lemma plain_edge_graphic c : plain_edge c = true -> graphic c = true.
Proof. by intros [? _]%andb_true_iff. Qed.

Lemma plain_edge_not c n : plain_edge c = true -> n ∈ [34; 39; 91; 93] -> ceq c n = false.
Proof.
  unfold plain_edge, ceq. intros [_ H%negb_true_iff]%andb_true_iff Hn. apply not_true_iff_false. intros Hc.
  apply Nat.eqb_eq in Hc. rewrite <- not_true_iff_false in H. apply H. apply existsb_exists. exists n.
  split; [by apply list_elem_of_In|]. by apply Nat.eqb_eq.
Qed.

Lemma edged_trim s : edged s -> trim_space s = s.
Proof.
  intros (c & u & t & d & -> & He & Hc%plain_edge_graphic & Hd%plain_edge_graphic). by eapply trim_space_edges.
Qed.

Lemma edged_app a b m : edged a -> edged b -> edged (a +:+ m +:+ b).
Proof.
  intros (c & u & _ & _ & -> & _ & Hc & _) (_ & _ & t & d & _ & -> & _ & Hd).
  exists c, (u +:+ m +:+ t +:+ String d ""), (String c u +:+ m +:+ t), d. by rewrite !app_assoc_str.
Qed.

Lemma edged_unquote s : edged s -> unquote s = s.
Proof.
  intros (c & u & _ & _ & -> & _ & Hc & _). unfold unquote. cbv zeta. cbn [String.get].
  rewrite (plain_edge_not c 34), (plain_edge_not c 39) by (done || set_solver). cbn [orb].
  case_match; [|done]. by rewrite andb_false_r.
Qed.

Lemma edged_brackets s : edged s -> trim_suffix (trim_prefix s "[") "]" = s.
Proof.
  intros (c & u & t & d & Hs & He & Hc & Hd).
  assert (trim_prefix s "[" = s) as ->.
  { unfold trim_prefix. destruct (has_prefix "[" s) eqn:E; [|done]. exfalso. apply has_prefix_spec in E as [r Hr].
    rewrite Hs in Hr. injection Hr as -> _. by vm_compute in Hc. }
  unfold trim_suffix. destruct (has_suffix "]" s) eqn:E; [|done]. exfalso. unfold has_suffix in E. apply andb_true_iff in E as [_ E%String.eqb_eq].
  assert (s = str_take (String.length s - 1) s +:+ "]") as Ht by (rewrite <- E; symmetry; apply take_drop_str).
  rewrite He in Ht at 1. apply snoc_inj in Ht as ->. by vm_compute in Hd.
Qed.

Lemma edged_not_empty s : edged s -> s <> "".
Proof. intros (c & u & _ & _ & -> & _). discriminate. Qed.

Definition no_comma (s : string) : bool := str_forall (fun c => negb (ceq c 44)) s.

Lemma split_byte_elem s : no_comma s = true -> split_byte 44 s = [s].
Proof.
  induction s as [|c s IH]; [done|]. cbn [no_comma str_forall]. intros [Hc%negb_true_iff Hs]%andb_true_iff.
  cbn [split_byte]. unfold ceq in Hc. by rewrite Hc, IH.
Qed.

Lemma split_byte_app a b : no_comma a = true -> split_byte 44 (a +:+ String (Ascii.ascii_of_nat 44) b) = a :: split_byte 44 b.
Proof.
  induction a as [|c a IH]; [done|]. cbn [no_comma str_forall]. intros [Hc%negb_true_iff Hs]%andb_true_iff.
  rewrite app_cons. cbn [split_byte]. unfold ceq in Hc. by rewrite Hc, IH.
Qed.

Lemma split_byte_space s : exists p ps, split_byte 44 s = p :: ps /\ split_byte 44 (" " +:+ s) = (" " +:+ p) :: ps.
Proof.
  assert (exists p ps, split_byte 44 s = p :: ps) as (p & ps & E).
  { destruct s as [|c s]; cbn [split_byte]; [eauto|]. destruct (Nat.eqb _ _); [eauto|]. destruct (split_byte 44 s); eauto. }
  exists p, ps. split; [done|]. rewrite app_cons, app_empty_l. cbn [split_byte].
  change (Nat.eqb _ 44) with false. cbv iota. by rewrite E.
Qed.

Definition glob_word (g : string) : Prop := edged g /\ no_comma g = true /\ one_line g = true.

Lemma split_globs gs : gs <> [] -> Forall glob_word gs ->
  edged (str_join ", " gs) /\ map (fun p => unquote (trim_space p)) (split_byte 44 (str_join ", " gs)) = gs.
Proof.
  intros Hn H. induction H as [|g gs (He & Hc & _) Hgs IH]; [done|]. destruct gs as [|h gs].
  - cbn [str_join]. split; [done|]. rewrite split_byte_elem by done. cbn [map]. by rewrite edged_trim, edged_unquote.
  - change (str_join ", " (g :: h :: gs)) with (g +:+ ", " +:+ str_join ", " (h :: gs)). destruct IH as [IHe IHm]; [done|].
    split; [by apply edged_app|].
    change (", " +:+ str_join ", " (h :: gs)) with (String (Ascii.ascii_of_nat 44) (" " +:+ str_join ", " (h :: gs))).
    rewrite split_byte_app by done. cbn [map]. rewrite edged_trim, edged_unquote by done. f_equal. rewrite <- IHm at 2.
    destruct (split_byte_space (str_join ", " (h :: gs))) as (p & ps & -> & ->). done.
Qed.

Lemma splitList_globs gs : Forall glob_word gs -> splitList (str_join ", " gs) = gs.
Proof.
  intros H. destruct gs as [|g gs]; [done|]. destruct (split_globs (g :: gs)) as [He Hm]; [done|done|].
  unfold splitList. rewrite edged_trim, edged_brackets, Hm by done.
  clear He Hm. induction H as [|h hs (He & _ & _) Hhs IH]; [done|]. cbn [List.filter].
  apply edged_not_empty, String.eqb_neq in He. by rewrite He, IH.
Qed.

(** A rule file as a user writes it. *)
Definition render_rule (m : ruleMeta) (body : string) : string :=
  str_join newline ["---"; "alwaysApply: " +:+ (if rm_always m then "true" else "false");
                    "description: " +:+ rm_description m; "globs: " +:+ str_join ", " (rm_globs m); "---"; body].

Definition meta_ok (m : ruleMeta) : Prop :=
  (rm_description m = "" \/ edged (rm_description m)) /\ one_line (rm_description m) = true /\ Forall glob_word (rm_globs m).

Lemma edged_keyed k v : edged k -> edged v -> trim_space (k +:+ ": " +:+ v) = k +:+ ": " +:+ v.
Proof. intros Hk Hv. by apply edged_trim, edged_app. Qed.

Lemma globs_line gs : Forall glob_word gs -> one_line (str_join ", " gs) = true.
Proof.
  intros H. induction H as [|g gs (_ & _ & Hl) Hgs IH]; [done|]. destruct gs as [|h gs]; [done|].
  change (str_join ", " (g :: h :: gs)) with (g +:+ ", " +:+ str_join ", " (h :: gs)). by rewrite !one_line_app, Hl, IH.
Qed.

Definition value_ok (v : string) : Prop := v = "" \/ edged v.

(** What [meta_line] finds on the line of a key: the value, whatever it is. *)
Definition keyed_as (k v : string) : Prop :=
  exists t w, trim_space (k +:+ ": " +:+ v) = t /\ t = k +:+ ":" +:+ w /\ trim_space w = v.

Lemma keyed_line k v : edged k -> trim_space (k +:+ ": ") = k +:+ ":" -> value_ok v -> keyed_as k v.
Proof.
  intros Hk Ht [->|Hv].
  - exists (k +:+ ":"), "". by rewrite app_empty_r.
  - exists (k +:+ ": " +:+ v), (" " +:+ v). rewrite edged_keyed by done.
    repeat split. rewrite trim_space_space. by apply edged_trim.
Qed.

Lemma key_edged_description : edged "description".
Proof. exists (Ascii.ascii_of_nat 100), "escription", "descriptio", (Ascii.ascii_of_nat 110). repeat split. Qed.

Lemma key_edged_globs : edged "globs".
Proof. exists (Ascii.ascii_of_nat 103), "lobs", "glob", (Ascii.ascii_of_nat 115). repeat split. Qed.

Lemma meta_line_always key m b :
  meta_line (key, m) ("alwaysApply: " +:+ (if b : bool then "true" else "false"))
  = ("alwaysApply", {| rm_always := b; rm_description := rm_description m; rm_globs := rm_globs m |}).
Proof. by destruct b. Qed.

Lemma meta_line_description key m v : value_ok v ->
  meta_line (key, m) ("description: " +:+ v) = ("description", {| rm_always := rm_always m; rm_description := v; rm_globs := rm_globs m |}).
Proof.
  intros Hv. destruct (keyed_line "description" v key_edged_description eq_refl Hv) as (t & w & Ht & -> & Hw).
  unfold meta_line. change ("description: " +:+ v) with ("description" +:+ ": " +:+ v). rewrite Ht.
  change (cut_byte _ _) with (Some ("description", w)). change (_ || has_prefix "#" _) with false.
  change (has_prefix "- " _) with false. change (trim_space "description") with "description". cbv beta iota zeta. rewrite Hw.
  cbn [String.eqb Ascii.eqb Bool.eqb orb].
  destruct Hv as [->|Hv]; [done|]. by rewrite edged_unquote.
Qed.

Lemma meta_line_globs key m gs : Forall glob_word gs ->
  meta_line (key, m) ("globs: " +:+ str_join ", " gs) = ("globs", add_globs gs m).
Proof.
  intros Hg. assert (value_ok (str_join ", " gs)) as Hv.
  { destruct gs as [|g gs]; [by left|]. right. by apply split_globs. }
  destruct (keyed_line "globs" _ key_edged_globs eq_refl Hv) as (t & w & Ht & -> & Hw).
  unfold meta_line. change ("globs: " +:+ ?v) with ("globs" +:+ ": " +:+ v). rewrite Ht.
  change (cut_byte _ _) with (Some ("globs", w)). change (_ || has_prefix "#" _) with false.
  change (has_prefix "- " _) with false. change (trim_space "globs") with "globs". cbv beta iota zeta. rewrite Hw.
  cbn [String.eqb Ascii.eqb Bool.eqb orb]. by rewrite splitList_globs.
Qed.

Lemma join_line_cons l ls : ls <> [] -> str_join newline (l :: ls) = l +:+ newline +:+ str_join newline ls.
Proof. by destruct ls. Qed.

Lemma split_line l s : one_line l = true -> split_lines (l +:+ newline +:+ s) = l :: split_lines s.
Proof. intros Hl. by rewrite split_lines_app, split_lines_line. Qed.

(** A rule file written with its three keys is read back as its
    frontmatter and its body: the trigger, the description and every glob, in
    their order. *)
Theorem frontmatter_roundtrip m body :
  meta_ok m -> trim_space body = body -> parseRuleFrontmatter (render_rule m body) = (m, body).
Proof.
  destruct m as [always d gs]. intros (Hd & Hl & Hg) Hb. cbn [rm_description rm_globs] in *.
  destruct (keyed_line "description" d key_edged_description eq_refl Hd) as (t1 & w1 & Ht1 & -> & _).
  assert (value_ok (str_join ", " gs)) as Hv by (destruct gs; [by left|right; by apply split_globs]).
  destruct (keyed_line "globs" _ key_edged_globs eq_refl Hv) as (t2 & w2 & Ht2 & -> & _).
  unfold render_rule, parseRuleFrontmatter. cbn [rm_always rm_description rm_globs].
  rewrite join_line_cons by done. set (rest := str_join newline _).
  change (cut_byte _ _) with (Some ("---", rest)). cbv beta iota. change (negb _) with false. cbv iota.
  subst rest. rewrite !join_line_cons by done. change (str_join newline [body]) with body.
  rewrite !split_line; [|done|by rewrite one_line_app, globs_line|by rewrite one_line_app, Hl|by destruct always].
  assert (cut_fence (("alwaysApply: " +:+ (if always then "true" else "false")) :: ("description: " +:+ d)
                     :: ("globs: " +:+ str_join ", " gs) :: "---" :: split_lines body)
          = Some ([("alwaysApply: " +:+ (if always then "true" else "false")); "description: " +:+ d; "globs: " +:+ str_join ", " gs],
                  split_lines body)) as ->.
  { cbn [cut_fence]. change ("description: " +:+ d) with ("description" +:+ ": " +:+ d).
    change ("globs: " +:+ ?x) with ("globs" +:+ ": " +:+ x). rewrite Ht1, Ht2.
    assert (String.eqb (trim_space ("alwaysApply: " +:+ (if always then "true" else "false"))) "---" = false) as -> by (by destruct always).
    reflexivity. }
  cbn [foldl]. rewrite meta_line_always, meta_line_description, meta_line_globs by done.
  by rewrite join_split, Hb.
Qed.

Lemma frontmatter_roundtrip_witness :
  parseRuleFrontmatter (render_rule {| rm_always := false; rm_description := "How to write tests"; rm_globs := ["*_test.go"; "web/**/*.ts"] |} "Use tables.")
  = ({| rm_always := false; rm_description := "How to write tests"; rm_globs := ["*_test.go"; "web/**/*.ts"] |}, "Use tables.").
Proof.
  apply frontmatter_roundtrip; [|vm_compute; reflexivity]. split; [right|split; [reflexivity|]].
  - eexists _, _, "How to write test", _. repeat split.
  - constructor; [|constructor; [|constructor]]; (split; [|by split]).
    + eexists _, _, "*_test.g", _. repeat split.
    + eexists _, _, "web/**/*.t", _. repeat split.
Defined.

(** The brackets of a flow list are taken off a glob that starts or ends with
    a class, so a file named in brackets is not the one selected. *)
Lemma leading_class_lost :
  splitList "[id].tsx" = ["id].tsx"]
  /\ globMatch "[[]id].tsx" "[id].tsx" = true /\ globMatch "id].tsx" "[id].tsx" = false.
Proof. repeat split; vm_compute; reflexivity. Qed.
