(* ===== verification/Instructions.v ===== *)
(** * Instruction files: src/ext/agentsmd/profile.go and load.go

    Which instruction files apply where.  The files of the disk are read
    through a cache that a change of size or time invalidates; the loader
    climbs from each workspace root, picks the first present name of each
    directory, and expands the files they import.  The file proves that the
    chain of directories is a run of ancestors that ends at the root, that
    expansion stops, reads each file once and, for a repository's files, keeps
    to paths below the roots, that fenced code is left alone, and that the
    text that is shown keeps to its limit. *)

From S2P Require Import Prelude GoStr Errors Paths Rules.
Local Open Scope nat_scope.

(** ** Profiles *)

Inductive Walk := WalkMarker | WalkFSRoot | WalkOther (s : string).
Inductive Subdirs := SubdirsOff | SubdirsLazy | SubdirsOther (s : string).
Inductive Changes := ChangesFreeze | ChangesNotice | ChangesOther (s : string).

#[export] Instance Walk_eq_dec : EqDecision Walk.
Proof. solve_decision. Defined.
#[export] Instance Subdirs_eq_dec : EqDecision Subdirs.
Proof. solve_decision. Defined.
#[export] Instance Changes_eq_dec : EqDecision Changes.
Proof. solve_decision. Defined.

Record Profile := {
  pf_Names : list string;
  pf_Override : string;
  pf_Local : string;
  pf_Fallback : list string;
  pf_GlobalDir : string;
  pf_Walk : Walk;
  pf_Markers : list string;
  pf_PrimaryOnly : bool;
  pf_Subdirs : Subdirs;
  pf_Changes : Changes;
  pf_Imports : bool;
  pf_StripComments : bool;
  pf_Rules : list string;
  pf_GlobalRules : list string;
  pf_NestedRules : list string;
  pf_MaxBytes : Z;
}.

Definition Presets : list (string * Profile) :=
  [("codex", {| pf_Names := ["AGENTS.md"]; pf_Override := "AGENTS.override.md"; pf_Local := ""; pf_Fallback := [];
                pf_GlobalDir := "~/.codex"; pf_Walk := WalkMarker; pf_Markers := [".git"]; pf_PrimaryOnly := true;
                pf_Subdirs := SubdirsOff; pf_Changes := ChangesFreeze; pf_Imports := false; pf_StripComments := false;
                pf_Rules := []; pf_GlobalRules := []; pf_NestedRules := []; pf_MaxBytes := Z.shiftl 32 10 |});
   ("claude", {| pf_Names := ["CLAUDE.md"; ".claude/CLAUDE.md"]; pf_Override := ""; pf_Local := "CLAUDE.local.md";
                 pf_Fallback := ["AGENTS.md"; ".claude/AGENTS.md"]; pf_GlobalDir := "~/.claude"; pf_Walk := WalkFSRoot;
                 pf_Markers := []; pf_PrimaryOnly := true; pf_Subdirs := SubdirsLazy; pf_Changes := ChangesFreeze;
                 pf_Imports := true; pf_StripComments := true; pf_Rules := [".claude/rules"];
                 pf_GlobalRules := ["~/.claude/rules"]; pf_NestedRules := []; pf_MaxBytes := 0 |});
   ("cursor", {| pf_Names := ["AGENTS.md"]; pf_Override := ""; pf_Local := ""; pf_Fallback := []; pf_GlobalDir := "";
                 pf_Walk := WalkMarker; pf_Markers := [".git"]; pf_PrimaryOnly := true; pf_Subdirs := SubdirsLazy;
                 pf_Changes := ChangesFreeze; pf_Imports := false; pf_StripComments := false;
                 pf_Rules := [".cursorrules"; ".cursor/rules"]; pf_GlobalRules := []; pf_NestedRules := [".cursor/rules"];
                 pf_MaxBytes := 0 |});
   ("chakra", {| pf_Names := ["AGENTS.md"; "CLAUDE.md"]; pf_Override := "AGENTS.override.md"; pf_Local := "";
                 pf_Fallback := []; pf_GlobalDir := ""; pf_Walk := WalkMarker; pf_Markers := [".git"];
                 pf_PrimaryOnly := false; pf_Subdirs := SubdirsLazy; pf_Changes := ChangesNotice; pf_Imports := false;
                 pf_StripComments := false; pf_Rules := []; pf_GlobalRules := []; pf_NestedRules := [];
                 pf_MaxBytes := Z.shiftl 32 10 |})].

Definition Preset (name : string) : result Profile :=
  match List.find (fun p => String.eqb (fst p) name) Presets with
  | Some (_, p) => inr p
  | None =>
      inl (EText ("agentsmd: no preset " +:+ go_quote name +:+ " (have [" +:+ str_join " " (sort_strings (map fst Presets)) +:+ "])"))
  end.

Definition hasRules (p : Profile) : bool :=
  Nat.ltb 0 (length (pf_Rules p)) || Nat.ltb 0 (length (pf_GlobalRules p)) || Nat.ltb 0 (length (pf_NestedRules p)).

Definition validate (p : Profile) : option error :=
  if Nat.ltb 0 (length (pf_NestedRules p)) && negb (bool_decide (pf_Subdirs p = SubdirsLazy))
  then Some (EText ("agentsmd: nestedRules needs subdirs " +:+ go_quote "lazy" +:+ ", which notices the subdirectories they are read in"))
  else if Nat.eqb (length (pf_Names p)) 0 && String.eqb (pf_Override p) "" && String.eqb (pf_Local p) ""
          && Nat.eqb (length (pf_Fallback p)) 0 && negb (hasRules p)
  then Some (EText "agentsmd: profile names no files")
  else
    let want (field value a b : string) : option error :=
      Some (EText ("agentsmd: " +:+ field +:+ " " +:+ go_quote value +:+ ", want " +:+ go_quote a +:+ " or " +:+ go_quote b)) in
    match pf_Walk p with
    | WalkOther w => want "walk" w "marker" "fs-root"
    | _ =>
        match pf_Subdirs p with
        | SubdirsOther s => want "subdirs" s "off" "lazy"
        | _ => match pf_Changes p with ChangesOther c => want "changes" c "freeze" "notice" | _ => None end
        end
    end.

(** ** The disk and the cache *)

Record fileInfo := { fi_IsDir : bool; fi_Size : Z; fi_ModTime : Z }.

(** What the operating system answers while one operation runs: [None] is an
    error.  [dk_WalkDir] lists the files a walk visits, in its order. *)
Record disk := {
  dk_Stat : string -> option fileInfo;
  dk_ReadFile : string -> option string;
  dk_Lstat : string -> bool;
  dk_EvalSymlinks : string -> option string;
  dk_WalkDir : string -> list string;
}.

Record cachedFile := { cf_size : Z; cf_mtime : Z; cf_text : string }.
Abbreviation cache := (gmap string cachedFile).

(** Code that reads files: a function of the cache. *)
Definition rd (A : Type) : Type := cache -> A * cache.
Definition rd_ret {A} (a : A) : rd A := fun c => (a, c).
Definition rd_bind {A B} (m : rd A) (k : A -> rd B) : rd B := fun c => let '(a, c) := m c in k a c.
Declare Scope rd_scope.
Delimit Scope rd_scope with rd.
Notation "'let^' x ':=' m 'in' k" := (rd_bind m (fun x => k))
  (at level 10, x pattern, m at level 100, k at level 200) : rd_scope.
Open Scope rd_scope.

Definition read (d : disk) (path : string) : rd string := fun c =>
  match dk_Stat d path with
  | None => ("", delete path c)
  | Some fi =>
      if fi_IsDir fi then ("", delete path c)
      else
        let fresh :=
          match dk_ReadFile d path with
          | None => ("", delete path c)
          | Some b => (trim_space b, <[path := {| cf_size := fi_Size fi; cf_mtime := fi_ModTime fi; cf_text := trim_space b |}]> c)
          end in
        match c !! path with
        | Some e => if Z.eqb (cf_size e) (fi_Size fi) && Z.eqb (cf_mtime e) (fi_ModTime fi) then (cf_text e, c) else fresh
        | None => fresh
        end
  end.

(** ** The stretches of a text outside fenced code *)

Fixpoint skip_blanks (s : string) : nat * string :=
  match s with
  | String c s' => if ceq c 32 || ceq c 9 then let '(n, r) := skip_blanks s' in (S n, r) else (0, s)
  | EmptyString => (0, "")
  end.

Definition fence_at (s : string) : option nat :=
  let '(n, r) := skip_blanks s in
  if has_prefix "```" r || has_prefix "~~~" r then Some (n + 3) else None.

(** [fence.FindStringIndex]: [bol] says whether the text starts a line. *)
Fixpoint find_fence (bol : bool) (s : string) : option (nat * nat) :=
  match s with
  | EmptyString => None
  | String c s' =>
      match (if bol then fence_at s else None) with
      | Some n => Some (0, n)
      | None => prod_map S S <$> find_fence (ceq c 10) s'
      end
  end.

(** The stretches in order, [true] for one of a code block.  A fence line
    belongs to the block on both ends. *)
Fixpoint stretches (fuel : nat) (inside : bool) (rest : string) : list (bool * string) :=
  match fuel with
  | O => [(inside, rest)]
  | S fuel =>
      match find_fence true rest with
      | None => [(inside, rest)]
      | Some (a, b) =>
          let stop := match str_index_byte (Ascii.ascii_of_nat 10) (str_drop b rest) with
                      | Some i => b + i + 1
                      | None => String.length rest
                      end in
          (if inside then [(true, str_take stop rest)]
           else [(false, str_take a rest); (true, str_take (stop - a) (str_drop a rest))])
          ++ stretches fuel (negb inside) (str_drop stop rest)
      end
  end.

Definition text_stretches (text : string) : list (bool * string) := stretches (S (String.length text)) false text.

Definition outsideFences (text : string) (fn : string -> string) : string :=
  str_concat (map (fun '(code, s) => if code : bool then s else fn s) (text_stretches text)).

(** [blockComment] at the start of a line: the length of its match. *)
Definition comment_at (s : string) : option nat :=
  let '(n, r) := skip_blanks s in
  if negb (has_prefix "<!--" r) then None
  else
    let body := str_drop 4 r in
    match str_index "-->" body with
    | None => None
    | Some i =>
        let '(m, r) := skip_blanks (str_drop (i + 3) body) in
        Some (n + 4 + i + 3 + m + (if has_prefix newline r then 1 else 0))
    end.

Fixpoint drop_comments (fuel : nat) (bol : bool) (s : string) : string :=
  match fuel, s with
  | S fuel, String c s' =>
      match (if bol then comment_at s else None) with
      | Some n => drop_comments fuel (has_suffix newline (str_take n s)) (str_drop n s)
      | None => String c (drop_comments fuel (ceq c 10) s')
      end
  | _, _ => s
  end.

Definition stripComments (text : string) : string :=
  outsideFences text (fun s => drop_comments (String.length s) true s).

(** The length of the code span that starts after a back quote. *)
Fixpoint span_len (s : string) : option nat :=
  match s with
  | EmptyString => None
  | String c s' => if ceq c 96 then Some 1 else if ceq c 10 then None else S <$> span_len s'
  end.

(** [codeSpan.ReplaceAllString] with a space. *)
Fixpoint drop_spans (fuel : nat) (s : string) : string :=
  match fuel, s with
  | S fuel, String c s' =>
      match (if ceq c 96 then span_len s' else None) with
      | Some n => String (Ascii.ascii_of_nat 32) (drop_spans fuel (str_drop n s'))
      | None => String c (drop_spans fuel s')
      end
  | _, _ => s
  end.

Definition re_space (c : Ascii.ascii) : bool := existsb (ceq c) [9; 10; 12; 13; 32].

(** The path of a reference and what follows it. *)
Fixpoint ref_path (fuel : nat) (s : string) : string * string :=
  match fuel, s with
  | S fuel, String c s' =>
      if ceq c 92 then
        match s' with
        | String d s'' => if ceq d 32 then let '(p, r) := ref_path fuel s'' in (String c (String d p), r) else ("", s)
        | EmptyString => ("", s)
        end
      else if re_space c || ceq c 34 || ceq c 39 then ("", s)
      else let '(p, r) := ref_path fuel s' in (String c p, r)
  | _, _ => ("", s)
  end.

(** The text after the at sign of a reference that starts here. *)
Definition ref_at (sep : Ascii.ascii -> bool) (bol : bool) (s : string) : option string :=
  match s with
  | String c s' =>
      if bol && ceq c 64 then Some s'
      else if sep c then match s' with String d s'' => if ceq d 64 then Some s'' else None | EmptyString => None end
      else None
  | EmptyString => None
  end.

(** [FindAllStringSubmatch]: the words that [word] reads after an at sign. *)
Fixpoint find_refs (sep : Ascii.ascii -> bool) (word : string -> string * string) (fuel : nat) (bol : bool) (s : string) : list string :=
  match fuel, s with
  | S fuel, String c s' =>
      match ref_at sep bol s with
      | Some r =>
          let '(p, r) := word r in
          if String.eqb p "" then find_refs sep word fuel false s' else p :: find_refs sep word fuel false r
      | None => find_refs sep word fuel false s'
      end
  | _, _ => []
  end.

(** [strings.ReplaceAll] of a backslash and a space. *)
Fixpoint unescape_spaces (s : string) : string :=
  match s with
  | EmptyString => ""
  | String c s' =>
      match s' with
      | String d s'' => if ceq c 92 && ceq d 32 then String d (unescape_spaces s'') else String c (unescape_spaces s')
      | EmptyString => String c ""
      end
  end.

Definition line_refs (line : string) : list string :=
  map unescape_spaces
    (find_refs (fun c => ceq c 32 || ceq c 9) (fun s => ref_path (String.length s) s) (String.length line) true line).

Definition importRefs (text : string) : list string :=
  concat (map (fun '(code, s) =>
    if code : bool then [] else concat (map line_refs (split_lines (drop_spans (String.length s) s)))) (text_stretches text)).

(** ** The loader *)

Record loader := { ld_p : Profile; ld_roots : list string; ld_home : string }.

(** [maxImportDepth]. *)
Definition maxImportDepth : nat := 4.

Fixpoint dedup (seen : gset string) (l : list string) : list string :=
  match l with
  | [] => []
  | a :: l => if decide (a ∈ seen) then dedup seen l else a :: dedup ({[a]} ∪ seen) l
  end.

(** A path that starts at the home directory. *)
Definition at_home (s : string) : bool := String.eqb s "~" || has_prefix "~/" s.

Definition home_path (home dir : string) : string := Join home (trim_prefix dir "~").

Definition joinLabel (a b : string) : string := if String.eqb a "" then b else a +:+ "; " +:+ b.

Definition with_label (label : string) (x : doc) : doc := {| dc_path := dc_path x; dc_text := dc_text x; dc_label := label |}.

Section Loader.
Variable d : disk.
Variable l : loader.
Local Abbreviation p := (ld_p l).

Definition primary_roots : list string :=
  if pf_PrimaryOnly p && (1 <? length (ld_roots l)) then take 1 (ld_roots l) else ld_roots l.

Definition hasAny (dir : string) (names : list string) : bool := existsb (fun n => dk_Lstat d (Join dir n)) names.

(** The climb to the filesystem root, which is left out. *)
Fixpoint climb_all (fuel : nat) (dir : string) : list string :=
  match fuel with
  | O => []
  | S fuel => if String.eqb (Dir dir) dir then [] else dir :: climb_all fuel (Dir dir)
  end.

(** The climb to a marker, and whether one was found. *)
Fixpoint climb_to (fuel : nat) (markers : list string) (dir : string) : list string * bool :=
  match fuel with
  | O => ([], false)
  | S fuel =>
      if hasAny dir markers then ([dir], true)
      else if String.eqb (Dir dir) dir then ([dir], false)
      else let '(up, found) := climb_to fuel markers (Dir dir) in (dir :: up, found)
  end.

(** Every round takes one element off the path, and one more looks at the
    filesystem root. *)
Definition climb_fuel (root : string) : nat := S (length (clean_elems root)).

Definition chainFor (root : string) : list string :=
  rev match pf_Walk p with
      | WalkFSRoot => climb_all (climb_fuel root) root
      | _ =>
          let markers := match pf_Markers p with [] => [".git"] | ms => ms end in
          let '(up, found) := climb_to (climb_fuel root) markers root in
          if (found : bool) then up else [root]
      end.

Definition chainDirs : list string := dedup ∅ (concat (map chainFor primary_roots)).

(** The first root at or above the path. *)
Definition rootOf (path : string) : string :=
  default "" (List.find (fun r => String.eqb path r || has_prefix (r +:+ slash) path) (ld_roots l)).

Definition inRoots (path : string) : bool := negb (String.eqb (rootOf path) "").

Definition resolveImport (ref dir : string) : string :=
  if at_home ref then if String.eqb (ld_home l) "" then "" else Clean (home_path (ld_home l) ref)
  else if is_abs ref then Clean ref
  else Clean (Join dir ref).

Fixpoint pick (dir : string) (names : list string) : rd string :=
  match names with
  | [] => rd_ret ""
  | n :: names =>
      let path := Join dir n in
      let^ text := read d path in
      if negb (String.eqb text "") then rd_ret path else pick dir names
  end.

(** The files seen so far and the documents written. *)
Definition walk_state : Type := gset string * list doc.

(** [hops] is how many more imports deep the walk may go. *)
Fixpoint expand_walk (hops : nat) (global : bool) (path by_ : string) (st : walk_state) : rd walk_state :=
  let '(seen, out) := st in
  if decide (path ∈ seen) then rd_ret st
  else
    let seen := {[path]} ∪ seen in
    let^ text := read d path in
    if String.eqb text "" then rd_ret (seen, out)
    else
      let text := if pf_StripComments p then trim_space (stripComments text) else text in
      let out := out ++ [{| dc_path := path; dc_text := text; dc_label := if String.eqb by_ "" then "" else "imported by " +:+ by_ |}] in
      if negb (pf_Imports p) then rd_ret (seen, out)
      else
        match hops with
        | O => rd_ret (seen, out)
        | S hops =>
            foldl (fun (m : rd walk_state) ref =>
              let^ st := m in
              let target := resolveImport ref (Dir path) in
              if String.eqb target "" || negb global && negb (inRoots target) then rd_ret st
              else expand_walk hops global target path st) (rd_ret (seen, out)) (importRefs text)
        end.

Definition expand (path : string) (global : bool) : rd (list doc) :=
  let^ st := expand_walk maxImportDepth global path "" (∅, []) in rd_ret (snd st).

Definition primary (dir : string) (global : bool) : rd (list doc) :=
  let^ main := (if negb (String.eqb (pf_Override p) "") then pick dir [pf_Override p] else rd_ret "") in
  let^ main := (if String.eqb main "" then pick dir (pf_Names p) else rd_ret main) in
  let^ docs := (if negb (String.eqb main "") then expand main global else rd_ret []) in
  if negb (String.eqb (pf_Local p) "") && negb global then
    let^ path := pick dir [pf_Local p] in
    if negb (String.eqb path "") then let^ more := expand path false in rd_ret (docs ++ more) else rd_ret docs
  else rd_ret docs.

Definition fallback (dir : string) : rd (list doc) :=
  let^ path := pick dir (pf_Fallback p) in
  if negb (String.eqb path "") then expand path false else rd_ret [].

Definition subdir (dir : string) : rd (list doc) :=
  let^ docs := primary dir false in
  match docs with [] => fallback dir | _ => rd_ret docs end.

Definition rd_concat {A} (f : A -> rd (list doc)) (dirs : list A) : rd (list doc) :=
  foldl (fun m dir => let^ out := m in let^ docs := f dir in rd_ret (out ++ docs)) (rd_ret []) dirs.

Definition chain (dirs : list string) : rd (list doc) :=
  let^ docs := rd_concat (fun dir => primary dir false) dirs in
  match docs, pf_Fallback p with
  | [], _ :: _ => rd_concat fallback dirs
  | _, _ => rd_ret docs
  end.

Definition global : rd (list doc) :=
  let dir := pf_GlobalDir p in
  if String.eqb dir "" then rd_ret []
  else if at_home dir && String.eqb (ld_home l) "" then rd_ret []
  else
    let dir := if at_home dir then home_path (ld_home l) dir else dir in
    let^ docs := primary dir true in
    rd_ret (map (fun x => if String.eqb (dc_label x) "" then with_label "your global file" x else x) docs).

(** *** Rules *)

Definition ruleFiles (path : string) : list string :=
  List.filter (fun f => String.eqb f path || has_suffix ".md" f || has_suffix ".mdc" f) (dk_WalkDir d path).

Record rule_base := { rb_root : string; rb_within : string; rb_global : bool }.

Definition read_rule (base : rule_base) (f : string) : rd (option rule) :=
  let^ raw := read d f in
  if String.eqb raw "" then rd_ret None
  else
    let '(meta, body) := parseRuleFrontmatter raw in
    let body := if pf_StripComments p then trim_space (stripComments body) else body in
    if String.eqb body "" then rd_ret None
    else rd_ret (Some {| ru_path := f; ru_root := rb_root base; ru_within := rb_within base; ru_global := rb_global base;
                         ru_meta := meta; ru_kind := kindOf f meta; ru_text := body |}).

Fixpoint readRules_files (st : gset string * list rule) (base : rule_base) (files : list string) : rd (gset string * list rule) :=
  match files with
  | [] => rd_ret st
  | f :: files =>
      let '(seen, out) := st in
      if decide (f ∈ seen) then readRules_files st base files
      else
        let^ r := read_rule base f in
        readRules_files ({[f]} ∪ seen, match r with Some r => out ++ [r] | None => out end) base files
  end.

Definition readRules (st : gset string * list rule) (path : string) (base : rule_base) : rd (gset string * list rule) :=
  readRules_files st base (ruleFiles path).

Fixpoint readRules_all (st : gset string * list rule) (entries : list (string * rule_base)) : rd (gset string * list rule) :=
  match entries with
  | [] => rd_ret st
  | (path, base) :: entries => let^ st := readRules st path base in readRules_all st entries
  end.

Definition global_entries : list (string * rule_base) :=
  omap (fun dir =>
    let base := {| rb_root := ""; rb_within := ""; rb_global := true |} in
    if at_home dir then if String.eqb (ld_home l) "" then None else Some (home_path (ld_home l) dir, base)
    else Some (dir, base)) (pf_GlobalRules p).

Definition root_entries : list (string * rule_base) :=
  concat (map (fun root => map (fun entry => (Join root entry, {| rb_root := root; rb_within := ""; rb_global := false |})) (pf_Rules p))
            primary_roots).

Definition rules : rd (list rule) :=
  let^ st := readRules_all (∅, []) (global_entries ++ root_entries) in rd_ret (snd st).

Definition nestedRules (dir : string) : rd (list rule) :=
  let^ st := readRules_all (∅, [])
    (map (fun entry => (Join dir entry, {| rb_root := dir; rb_within := dir; rb_global := false |})) (pf_NestedRules p)) in
  rd_ret (snd st).
End Loader.

(** ** What is shown *)

(** [utf8.RuneStart]. *)
Definition rune_start (c : Ascii.ascii) : bool := negb (in_range 128 191 c).

Fixpoint cut_point (s : string) (n : nat) : nat :=
  match n with
  | O => 0
  | S m => match String.get n s with Some c => if rune_start c then n else cut_point s m | None => n end
  end.

(** The length is never negative where it is called. *)
Definition truncate (s : string) (n : nat) : string :=
  if String.length s <=? n then s else str_take (cut_point s n) s.

Record render_state := { rs_text : string; rs_used : nat; rs_skipped : list string }.

Definition section_sep (b : string) : string := if String.eqb b "" then "" else newline +:+ newline.

(** What is left of the limit for one document: [None] when it is skipped. *)
Definition room (max : Z) (used : nat) : bool := negb ((max <? 0)%Z || (0 <? max)%Z && (max <=? Z.of_nat used)%Z).

Definition fit (max : Z) (used : nat) (text : string) : string * bool :=
  if (0 <? max)%Z && (max <? Z.of_nat (used + String.length text))%Z then (truncate text (Z.to_nat max - used), true) else (text, false).

Definition render_doc (max : Z) (st : render_state) (x : doc) : render_state :=
  if negb (room max (rs_used st))
  then {| rs_text := rs_text st; rs_used := rs_used st; rs_skipped := rs_skipped st ++ [dc_path x] |}
  else
    let '(text, cut) := fit max (rs_used st) (dc_text x) in
    {| rs_text := rs_text st +:+ section_sep (rs_text st) +:+ "## " +:+ dc_path x
                  +:+ (if String.eqb (dc_label x) "" then "" else " (" +:+ dc_label x +:+ ")")
                  +:+ newline +:+ newline +:+ text
                  +:+ (if cut then newline +:+ newline +:+ "[cut here: instruction files are limited to " +:+ itoa max +:+ " bytes in all]" else "");
       rs_used := rs_used st + String.length text;
       rs_skipped := rs_skipped st |}.

Definition gone_text (path : string) : string :=
  "## " +:+ path +:+ " no longer applies" +:+ newline +:+ newline
  +:+ "It was deleted or replaced after the system prompt was written. Stop following the version there.".

Definition render (docs : list doc) (max : Z) (gone : list string) : string * nat * list string :=
  let st := foldl (render_doc max) {| rs_text := ""; rs_used := 0; rs_skipped := [] |} docs in
  let b := foldl (fun b path => b +:+ section_sep b +:+ gone_text path) (rs_text st) gone in
  let b := match rs_skipped st with
           | [] => b
           | skipped => b +:+ section_sep b +:+ "Not loaded, over the size limit for instruction files: " +:+ str_join ", " skipped
                        +:+ ". Read them with your file tools if they matter to the task."
           end in
  (b, rs_used st, rs_skipped st).

(** ** The chain of directories *)

(** The ancestor of a clean absolute path that has [i] elements. *)
Definition ancestor (root : string) (i : nat) : string := path_of true (take i (clean_elems root)).

Section Ancestors.
Context (d : disk) (l : loader) (root : string) (Habs : is_abs root = true) (Hclean : Clean root = root).
Local Abbreviation n := (length (clean_elems root)).

Lemma ancestor_elems i : clean_elems (ancestor root i) = take i (clean_elems root).
Proof. apply clean_elems_path, Forall_take, clean_elems_abs, Habs. Qed.

Lemma ancestor_root : ancestor root n = root.
Proof. unfold ancestor. rewrite take_ge by done. unfold Clean in Hclean. by rewrite Habs in Hclean. Qed.

Lemma ancestor_dir i : i <= n -> Dir (ancestor root i) = ancestor root (i - 1).
Proof.
  intros Hi. unfold Dir. rewrite ancestor_elems. change (is_abs (ancestor root i)) with true. unfold ancestor. f_equal.
  rewrite removelast_firstn_len, length_take, take_take. f_equal. lia.
Qed.

Lemma ancestor_top i : i <= n -> String.eqb (Dir (ancestor root i)) (ancestor root i) = Nat.eqb i 0.
Proof.
  intros Hi. rewrite ancestor_dir by done. destruct i as [|i]; [by rewrite String.eqb_refl|]. cbn [Nat.eqb].
  apply String.eqb_neq. intros He. apply (f_equal clean_elems) in He. rewrite !ancestor_elems in He.
  apply (f_equal length) in He. rewrite !length_take in He. lia.
Qed.

Lemma climb_all_spec i : i <= n -> rev (climb_all (S i) (ancestor root i)) = map (ancestor root) (seq 1 i).
Proof.
  induction i as [|i IH]; intros Hi; cbn [climb_all]; rewrite ancestor_top by done; cbn [Nat.eqb]; [done|].
  rewrite ancestor_dir, Nat.sub_succ, Nat.sub_0_r by done. cbn [rev].
  change (if String.eqb _ _ then [] else ancestor root i :: climb_all i (Dir (ancestor root i))) with (climb_all (S i) (ancestor root i)).
  rewrite IH, seq_S, map_app by lia. done.
Qed.

(** [k] is where the climb for a marker from the [i]-th ancestor ends. *)
Lemma climb_to_spec markers i : i <= n ->
  let '(up, found) := climb_to d (S i) markers (ancestor root i) in
  if found
  then exists k, k <= i /\ rev up = map (ancestor root) (seq k (S i - k)) /\ hasAny d (ancestor root k) markers = true
         /\ forall j, k < j <= i -> hasAny d (ancestor root j) markers = false
  else forall j, j <= i -> hasAny d (ancestor root j) markers = false.
Proof.
  induction i as [|i IH]; intros Hi; cbn [climb_to]; rewrite ancestor_top by done; cbn [Nat.eqb].
  - destruct (hasAny d (ancestor root 0) markers) eqn:E.
    + exists 0. repeat split; [done|done|intros j Hj; lia].
    + intros j Hj. by replace j with 0 by lia.
  - destruct (hasAny d (ancestor root (S i)) markers) eqn:E.
    + exists (S i). repeat split; [done| |done|intros j Hj; lia]. replace (S (S i) - S i) with 1 by lia. done.
    + rewrite ancestor_dir, Nat.sub_succ, Nat.sub_0_r by done. specialize (IH ltac:(lia)). cbn [climb_to] in IH.
      destruct (if hasAny d (ancestor root i) markers then _ else _) as [up [|]].
      * destruct IH as (k & Hk & Hr & Hm & Hj). exists k. repeat split; [lia| |done|].
        -- cbn [rev]. rewrite Hr. replace (S (S i) - k) with (S (S i - k)) by lia. rewrite seq_S, map_app. cbn [map].
           by replace (k + (S i - k)) with (S i) by lia.
        -- intros j Hlt. destruct (decide (j = S i)) as [->|]; [done|apply Hj; lia].
      * intros j Hj. destruct (decide (j = S i)) as [->|]; [done|apply IH; lia].
Qed.

(** Where the chain of a root starts. *)
Definition chain_start (k : nat) : Prop :=
  match pf_Walk (ld_p l) with
  | WalkFSRoot => k = 1
  | _ =>
      let markers := match pf_Markers (ld_p l) with [] => [".git"] | ms => ms end in
      (k <= n /\ hasAny d (ancestor root k) markers = true /\ forall j, k < j <= n -> hasAny d (ancestor root j) markers = false)
      \/ (k = n /\ forall j, j <= n -> hasAny d (ancestor root j) markers = false)
  end.

(** The startup chain of a workspace root is a run of its ancestors,
    outermost first and ending at the root itself: from just below the
    filesystem root, or from the nearest directory that holds a marker, or the
    root alone when none does. *)
Theorem chain_is_ancestors : exists k, chain_start k /\ chainFor d l root = map (ancestor root) (seq k (S n - k)).
Proof.
  unfold chainFor, chain_start, climb_fuel. pose proof (climb_all_spec n ltac:(done)) as Hall. rewrite ancestor_root in Hall.
  assert (Hm : forall markers, exists k,
    ((k <= n /\ hasAny d (ancestor root k) markers = true /\ forall j, k < j <= n -> hasAny d (ancestor root j) markers = false)
     \/ (k = n /\ forall j, j <= n -> hasAny d (ancestor root j) markers = false))
    /\ rev (let '(up, found) := climb_to d (S n) markers root in if found then up else [root]) = map (ancestor root) (seq k (S n - k))).
  { intros markers. pose proof (climb_to_spec markers n ltac:(done)) as Hto. rewrite ancestor_root in Hto.
    destruct (climb_to d (S n) markers root) as [up [|]].
    - destruct Hto as (k & Hk & Hr & Hh & Hj). exists k. split; [by left|done].
    - exists n. split; [by right|]. replace (S n - n) with 1 by lia. cbn [rev app seq map]. by rewrite ancestor_root. }
  destruct (pf_Walk (ld_p l)); [apply Hm| |apply Hm].
  exists 1. split; [done|]. rewrite Hall. by rewrite Nat.sub_succ, Nat.sub_0_r.
Qed.
End Ancestors.

(** ** Reading through the cache *)

(** What the file says now, as the model is shown it. *)
Definition current_text (d : disk) (path : string) : string :=
  match dk_Stat d path with
  | Some fi => if fi_IsDir fi then "" else match dk_ReadFile d path with Some b => trim_space b | None => "" end
  | None => ""
  end.

Section Honest.
(** The content a file has at a size and a time. *)
Variable version : string -> Z -> Z -> string.

(** A disk on which a file's size and time tell its content, and every file
    can be read. *)
Definition honest (d : disk) : Prop :=
  forall path fi, dk_Stat d path = Some fi -> fi_IsDir fi = false ->
    dk_ReadFile d path = Some (version path (fi_Size fi) (fi_ModTime fi)).

Definition cache_ok (c : cache) : Prop :=
  map_Forall (fun path e => cf_text e = trim_space (version path (cf_size e) (cf_mtime e))) c.

Lemma read_current d path c : honest d -> cache_ok c ->
  (read d path c).1 = current_text d path /\ cache_ok (read d path c).2.
Proof.
  intros Hd Hc. unfold read, current_text. destruct (dk_Stat d path) as [fi|] eqn:Es; [|split; [done|by apply map_Forall_delete]].
  destruct (fi_IsDir fi) eqn:Ed; [split; [done|by apply map_Forall_delete]|]. rewrite (Hd _ _ Es Ed).
  assert (Hf : cache_ok (<[path := {| cf_size := fi_Size fi; cf_mtime := fi_ModTime fi;
      cf_text := trim_space (version path (fi_Size fi) (fi_ModTime fi)) |}]> c)) by (by apply map_Forall_insert_2).
  destruct (c !! path) as [e|] eqn:Ee; [|by split].
  destruct (Z.eqb (cf_size e) (fi_Size fi) && Z.eqb (cf_mtime e) (fi_ModTime fi)) eqn:Em; [|by split].
  apply andb_true_iff in Em as [<-%Z.eqb_eq <-%Z.eqb_eq]. split; [|done]. exact (Hc _ _ Ee).
Qed.

(** The value of [m] does not depend on the cache: it is what an empty one
    gives. *)
Definition stable {A} (m : rd A) : Prop := forall c, cache_ok c -> (m c).1 = (m ∅).1 /\ cache_ok (m c).2.

Lemma cache_ok_empty : cache_ok ∅.
Proof. apply map_Forall_empty. Qed.

Lemma stable_ret {A} (a : A) : stable (rd_ret a).
Proof. by intros c Hc. Qed.

Lemma stable_bind {A B} (m : rd A) (k : A -> rd B) : stable m -> (forall a, stable (k a)) -> stable (rd_bind m k).
Proof.
  intros Hm Hk c Hc. unfold rd_bind. destruct (Hm c Hc) as [H1 H2]. destruct (Hm ∅ cache_ok_empty) as [_ H0].
  destruct (m c) as [a c1], (m ∅) as [a0 c0]. cbn [fst snd] in *. subst a0.
  destruct (Hk a c1 H2) as [H3 H4], (Hk a c0 H0) as [H5 _]. split; [congruence|done].
Qed.

Lemma stable_read d path : honest d -> stable (read d path).
Proof.
  intros Hd c Hc. destruct (read_current d path c Hd Hc) as [-> H]. split; [|done].
  by destruct (read_current d path ∅ Hd cache_ok_empty) as [-> _].
Qed.

Lemma stable_foldl {A B} (f : rd A -> B -> rd A) (m : rd A) (bs : list B) :
  stable m -> (forall m b, stable m -> stable (f m b)) -> stable (foldl f m bs).
Proof. intros Hm Hf. revert m Hm. induction bs as [|b bs IH]; intros m Hm; [done|]. cbn. auto. Qed.

Create HintDb stable.
#[local] Hint Resolve stable_ret stable_read : stable.

Ltac stability :=
  repeat first [ solve [auto with stable] | apply stable_bind; [|intros ?] | progress case_decide | progress case_match ].

Context (d : disk) (l : loader) (Hd : honest d).

Lemma stable_pick dir names : stable (pick d dir names).
Proof. induction names as [|n names IH]; cbn [pick]; stability. Qed.
#[local] Hint Resolve stable_pick : stable.

Lemma stable_walk hops g path by_ st : stable (expand_walk d l hops g path by_ st).
Proof.
  revert path by_ st. induction hops as [|hops IH]; intros path by_ [seen out]; cbn [expand_walk]; stability.
  all: apply stable_foldl; [apply stable_ret|]; intros m ref Hm; apply stable_bind; [done|]; intros st; case_match; [apply stable_ret|]; apply IH.
Qed.
#[local] Hint Resolve stable_walk : stable.

Lemma stable_expand path g : stable (expand d l path g).
Proof. unfold expand. apply stable_bind; [apply stable_walk|]. intros a. apply stable_ret. Qed.
#[local] Hint Resolve stable_expand : stable.

Lemma stable_primary dir g : stable (primary d l dir g).
Proof. unfold primary. stability. Qed.
#[local] Hint Resolve stable_primary : stable.

Lemma stable_fallback dir : stable (fallback d l dir).
Proof. unfold fallback. stability. Qed.
#[local] Hint Resolve stable_fallback : stable.

Lemma stable_subdir dir : stable (subdir d l dir).
Proof. unfold subdir. stability. Qed.

Lemma stable_concat {A} (f : A -> rd (list doc)) dirs : (forall a, stable (f a)) -> stable (rd_concat f dirs).
Proof. intros Hf. apply stable_foldl; [apply stable_ret|]. intros m a Hm. stability. Qed.

Lemma stable_chain dirs : stable (chain d l dirs).
Proof.
  unfold chain. apply stable_bind; [apply stable_concat; intros; apply stable_primary|]. intros docs.
  repeat case_match; try apply stable_ret. apply stable_concat. intros. apply stable_fallback.
Qed.

Lemma stable_global : stable (global d l).
Proof. unfold global. stability. Qed.

Lemma stable_read_rule base f : stable (read_rule d l base f).
Proof. unfold read_rule. stability. Qed.
#[local] Hint Resolve stable_read_rule : stable.

Lemma stable_rule_files st base files : stable (readRules_files d l st base files).
Proof. revert st. induction files as [|f files IH]; intros [seen out]; cbn [readRules_files]; pose proof stable_read_rule; stability. Qed.

Lemma stable_rules_all st entries : stable (readRules_all d l st entries).
Proof.
  revert st. induction entries as [|[path base] entries IH]; intros st; cbn [readRules_all]; [apply stable_ret|].
  apply stable_bind; [apply stable_rule_files|done].
Qed.

Lemma stable_rules : stable (rules d l).
Proof. unfold rules. apply stable_bind; [apply stable_rules_all|]. intros a. apply stable_ret. Qed.

Lemma stable_nested dir : stable (nestedRules d l dir).
Proof. unfold nestedRules. apply stable_bind; [apply stable_rules_all|]. intros a. apply stable_ret. Qed.
End Honest.

(** ** Imports *)

Section Expansion.
Context (d : disk) (l : loader) (glob : bool).
(** What a read may answer, and the caches it keeps to. *)
Context (gives : string -> string -> Prop) (Ok : cache -> Prop).
Context (Hread : forall c path, Ok c -> gives path (read d path c).1 /\ Ok (read d path c).2).

Definition kept_text (raw : string) : string := if pf_StripComments (ld_p l) then trim_space (stripComments raw) else raw.

Definition may_import (target : string) : Prop := target <> "" /\ (glob = true \/ inRoots l target = true).

(** [target] is [k] imports away from [path]. *)
Inductive imported (path : string) : nat -> string -> Prop :=
| ImportSelf : imported path 0 path
| ImportStep k q raw ref : imported path k q -> gives q raw -> ref ∈ importRefs (kept_text raw) ->
    may_import (resolveImport l ref (Dir q)) -> imported path (S k) (resolveImport l ref (Dir q)).

Definition doc_read (x : doc) : Prop := exists raw, gives (dc_path x) raw /\ raw <> "" /\ dc_text x = kept_text raw.

(** What a walk adds to the files [seen] and the documents [out]. *)
Definition walked (path : string) (max : nat) (st : walk_state) (r : walk_state * cache) : Prop :=
  Ok r.2 /\ st.1 ⊆ r.1.1 /\ exists new, r.1.2 = st.2 ++ new /\ NoDup (map dc_path new)
  /\ Forall (fun x => (dc_path x ∉ st.1) /\ (dc_path x ∈ r.1.1) /\ doc_read x /\ exists k, k <= max /\ imported path k (dc_path x)) new.

Lemma walked_refl path max st c : Ok c -> walked path max st (st, c).
Proof.
  intros Hc. split; [done|]. split; [done|]. exists []. rewrite app_nil_r. split; [done|]. split; constructor.
Qed.

Lemma walked_trans path max st r r' : walked path max st r -> walked path max r.1 r' -> walked path max st r'.
Proof.
  intros (H1 & H2 & new & H3 & H4 & H5) (H1' & H2' & new' & H3' & H4' & H5'). split; [done|]. split; [set_solver|].
  exists (new ++ new'). rewrite H3', H3, app_assoc. split; [done|]. rewrite map_app. split.
  - apply NoDup_app. split; [done|]. split; [|done]. intros q Hq Hq'.
    apply list_elem_of_fmap in Hq as (x & -> & Hx). apply list_elem_of_fmap in Hq' as (x' & Heq & Hx').
    rewrite Forall_forall in H5, H5'. apply H5 in Hx. apply H5' in Hx'. rewrite <- Heq in Hx'. naive_solver.
  - apply Forall_app. split.
    + eapply Forall_impl; [exact H5|]. cbv beta. intros x (? & ? & ?). repeat split; [done|set_solver|naive_solver|naive_solver].
    + eapply Forall_impl; [exact H5'|]. cbv beta. intros x (? & ? & ?). repeat split; [set_solver|done|naive_solver|naive_solver].
Qed.

Lemma expand_walk_walked hops : forall start k path by_ st c max,
  imported start k path -> k + hops <= max -> Ok c -> walked start max st (expand_walk d l hops glob path by_ st c).
Proof.
  induction hops as [|hops IH]; intros start k path by_ [seen out] c max Hi Hk Hc; cbn [expand_walk];
    (case_decide as Hs; [by apply walked_refl|]); unfold rd_bind at 1; destruct (Hread c path Hc) as [Hg Hok];
    destruct (read d path c) as [raw c1] eqn:Er; cbn [fst snd] in *.
  all: destruct (String.eqb_spec raw "") as [->|Hne];
    [cbn; split; [done|]; split; [cbn; set_solver|]; exists []; cbn; rewrite app_nil_r; repeat split; constructor|].
  all: fold (kept_text raw).
  all: set (x := {| dc_path := path; dc_text := kept_text raw; dc_label := _ |}).
  all: assert (Hx : walked start max (seen, out) (({[path]} ∪ seen, out ++ [x]), c1)) by
    (split; [done|]; split; [cbn; set_solver|]; exists [x]; split; [done|]; split; [by constructor; [set_solver|constructor]|];
     constructor; [|constructor]; cbn; repeat split; [done|set_solver|by exists raw|exists k; split; [lia|done]]).
  all: destruct (negb (pf_Imports (ld_p l))); [exact Hx|].
  { exact Hx. }
  assert (Hrefs : forall refs m, (forall ref, ref ∈ refs -> ref ∈ importRefs (kept_text raw)) ->
    walked start max (seen, out) (m c1) ->
    walked start max (seen, out) (foldl (fun (m : rd walk_state) ref =>
      let^ st := m in
      let target := resolveImport l ref (Dir path) in
      if String.eqb target "" || negb glob && negb (inRoots l target) then rd_ret st
      else expand_walk d l hops glob target path st) m refs c1)).
  { induction refs as [|ref refs IHr]; intros m Hin Hm; [exact Hm|]. cbn [foldl]. apply IHr; [intros; apply Hin; by right|].
    unfold rd_bind. destruct (m c1) as [st2 c2] eqn:Em. cbv zeta.
    destruct (String.eqb_spec (resolveImport l ref (Dir path)) "") as [|Ht]; [exact Hm|]. cbn [orb].
    destruct (negb glob && negb (inRoots l (resolveImport l ref (Dir path)))) eqn:Eg; [exact Hm|].
    eapply walked_trans; [exact Hm|]. apply IH with (k := S k); [|lia|by destruct Hm].
    apply (ImportStep start k path raw ref); [done|done|apply Hin; by left|]. split; [done|].
    destruct glob; [by left|]. right. by destruct (inRoots l _). }
  apply Hrefs; [done|exact Hx].
Qed.

Lemma expand_walked path c : Ok c ->
  NoDup (map dc_path (expand d l path glob c).1) /\ Ok (expand d l path glob c).2
  /\ Forall (fun x => doc_read x /\ exists k, k <= maxImportDepth /\ imported path k (dc_path x)) (expand d l path glob c).1.
Proof.
  intros Hc. pose proof (expand_walk_walked maxImportDepth path 0 path "" (∅, []) c maxImportDepth (ImportSelf path) ltac:(done) Hc) as H.
  unfold expand, rd_bind. destruct (expand_walk _ _ _ _ _ _ _ _) as [[seen out] c']. cbn in H |- *.
  destruct H as (Ho & _ & new & Hout & Hn & Hf). cbn in Hout, Hf. subst out. split; [done|]. split; [done|]. eapply Forall_impl; [exact Hf|]. cbv beta. naive_solver.
Qed.
End Expansion.

(** C38: The files a repository's instruction file brings in: no path twice,
    each but the file itself below a workspace root, and, when size and time
    tell a file's content, each with the text the file has now and at most
    four imports away. *)
Theorem expand_confined d l path c :
  let docs := (expand d l path false c).1 in
  NoDup (map dc_path docs)
  /\ (forall x, x ∈ docs -> dc_path x = path \/ inRoots l (dc_path x) = true)
  /\ (forall version, honest version d -> cache_ok version c -> forall x, x ∈ docs ->
        current_text d (dc_path x) <> "" /\ dc_text x = kept_text l (current_text d (dc_path x))
        /\ exists k, k <= 4 /\ imported l false (fun q raw => raw = current_text d q) path k (dc_path x)).
Proof.
  cbv zeta. split; [|split].
  - by apply (expand_walked d l false (fun _ _ => True) (fun _ => True)).
  - intros x Hx. destruct (expand_walked d l false (fun _ _ => True) (fun _ => True) ltac:(done) path c I) as (_ & _ & Hf).
    rewrite Forall_forall in Hf. destruct (Hf x Hx) as (_ & k & _ & Hi). destruct Hi as [|k q raw ref _ _ _ [_ [|]]]; [by left|done|by right].
  - intros version Hd Hc x Hx.
    destruct (expand_walked d l false (fun q raw => raw = current_text d q) (cache_ok version)) with (path := path) (c := c) as (_ & _ & Hf);
      [intros; by apply read_current|done|].
    rewrite Forall_forall in Hf. destruct (Hf x Hx) as ((raw & -> & Hne & Ht) & Hk). done.
Qed.

(** ** Fenced code *)

Lemma find_fence_bounds bol s a b : find_fence bol s = Some (a, b) -> a < b /\ b <= String.length s.
Proof.
  assert (Hblank : forall s, String.length s = (skip_blanks s).1 + String.length (skip_blanks s).2).
  { intros t. induction t as [|c t IH]; [done|]. cbn [skip_blanks]. case_match; [|done]. destruct (skip_blanks t) as [n r]. cbn in *. lia. }
  assert (Hat : forall s n, fence_at s = Some n -> 0 < n <= String.length s).
  { intros s' n. unfold fence_at. specialize (Hblank s'). destruct (skip_blanks s') as [m r]. cbn in Hblank.
    destruct (has_prefix "```" r || has_prefix "~~~" r) eqn:E; [|done]. intros [= <-].
    apply orb_true_iff in E as [E%has_prefix_length|E%has_prefix_length]; cbn in E; lia. }
  revert bol a b. induction s as [|c s IH]; intros bol a b; cbn [find_fence]; [done|].
  destruct (if bol then fence_at (String c s) else None) as [n|] eqn:E.
  - intros [= <- <-]. destruct bol; [|done]. apply Hat in E. lia.
  - destruct (find_fence (ceq c 10) s) as [[a' b']|] eqn:Ef; cbn; [|done]. intros [= <- <-].
    apply IH in Ef. cbn. lia.
Qed.

Lemma str_index_byte_lt c s i : str_index_byte c s = Some i -> i < String.length s.
Proof.
  revert i. induction s as [|d s IH]; intros i; cbn [str_index_byte]; [done|].
  destruct (Ascii.eqb c d); [intros [= <-]; cbn; lia|]. destruct (str_index_byte c s) as [j|]; cbn; [|done].
  intros [= <-]. specialize (IH j eq_refl). lia.
Qed.

Lemma str_take_split a n s : a <= n -> str_take a s +:+ str_take (n - a) (str_drop a s) = str_take n s.
Proof.
  revert n s. induction a as [|a IH]; intros n s Ha; [by rewrite take_0_str, Nat.sub_0_r|].
  destruct n as [|n]; [lia|]. destruct s as [|c s]; [by destruct (S n - S a), n|]. cbn [str_take str_drop]. rewrite app_cons.
  f_equal. rewrite Nat.sub_succ. apply IH. lia.
Qed.

(** Where the line of a fence ends. *)
Definition fence_stop (rest : string) (b : nat) : nat :=
  match str_index_byte (Ascii.ascii_of_nat 10) (str_drop b rest) with Some i => b + i + 1 | None => String.length rest end.

Lemma fence_stop_bounds rest a b : find_fence true rest = Some (a, b) -> a < fence_stop rest b <= String.length rest.
Proof.
  intros Hf%find_fence_bounds. unfold fence_stop. destruct (str_index_byte _ _) as [i|] eqn:E; [|lia].
  apply str_index_byte_lt in E. rewrite length_drop_str in E. lia.
Qed.

Lemma stretches_concat fuel inside rest : str_concat (map snd (stretches fuel inside rest)) = rest.
Proof.
  revert inside rest. induction fuel as [|fuel IH]; intros inside rest; cbn [stretches].
  { cbn. apply app_empty_r. }
  destruct (find_fence true rest) as [[a b]|] eqn:Ef; [|cbn; apply app_empty_r].
  fold (fence_stop rest b). apply fence_stop_bounds in Ef as [Ha Hs].
  destruct inside; cbn [app map snd]; unfold str_concat; cbn [foldr];
    change (foldr String.append "" ?l) with (str_concat l); rewrite IH.
  - apply take_drop_str.
  - rewrite <- app_assoc_str, str_take_split by lia. apply take_drop_str.
Qed.

(** More fuel than bytes changes nothing: no fence is left in the last
    stretch. *)
Lemma stretches_fuel f1 f2 inside rest :
  String.length rest < f1 -> String.length rest < f2 -> stretches f1 inside rest = stretches f2 inside rest.
Proof.
  revert f2 inside rest. induction f1 as [|f1 IH]; intros [|f2] inside rest H1 H2; [lia|lia|lia|]. cbn [stretches].
  destruct (find_fence true rest) as [[a b]|] eqn:Ef; [|done]. fold (fence_stop rest b).
  apply fence_stop_bounds in Ef as [Ha Hs]. f_equal. apply IH; rewrite length_drop_str; lia.
Qed.

(** Rewriting the text outside fenced code keeps the text: with the
    identity it is unchanged, whatever the rewriting every block is carried
    over in its place, and as many rounds as bytes see every fence. *)
Theorem outsideFences_keeps text :
  outsideFences text (fun s => s) = text
  /\ (forall fn, exists parts, str_concat (map snd parts) = text
        /\ outsideFences text fn = str_concat (map (fun '(code, s) => if code : bool then s else fn s) parts)
        /\ forall fuel, String.length text < fuel -> stretches fuel false text = parts).
Proof.
  split.
  - unfold outsideFences. rewrite <- (stretches_concat (S (String.length text)) false text) at 2. f_equal.
    apply map_ext. by intros [[|] s].
  - intros fn. exists (text_stretches text). split; [apply stretches_concat|]. split; [done|].
    intros fuel Hf. apply stretches_fuel; lia.
Qed.

(** ** The limit *)

(** What is shown of a document: its text or a part of it that ends before
    the start of a character. *)
Definition shows (x : doc) (s : string * bool) : Prop :=
  if s.2 then exists m, s.1 = str_take m (dc_text x) /\ (m = 0 \/ exists c, String.get m (dc_text x) = Some c /\ rune_start c = true)
  else s.1 = dc_text x.

Definition doc_section (max : Z) (x : doc) (s : string * bool) : string :=
  "## " +:+ dc_path x +:+ (if String.eqb (dc_label x) "" then "" else " (" +:+ dc_label x +:+ ")")
  +:+ newline +:+ newline +:+ s.1
  +:+ (if s.2 then newline +:+ newline +:+ "[cut here: instruction files are limited to " +:+ itoa max +:+ " bytes in all]" else "").

Definition skipped_section (skipped : list string) : list string :=
  match skipped with
  | [] => []
  | _ => ["Not loaded, over the size limit for instruction files: " +:+ str_join ", " skipped
          +:+ ". Read them with your file tools if they matter to the task."]
  end.

Definition add_section (b s : string) : string := b +:+ section_sep b +:+ s.

Definition shown_bytes (shown : list (string * bool)) : nat := sum_list_with (fun s => String.length s.1) shown.

Lemma add_sections ss b : b <> "" -> foldl add_section b ss = str_concat (b :: map (fun s => newline +:+ newline +:+ s) ss).
Proof.
  revert b. induction ss as [|s ss IH]; intros b Hb; cbn [foldl map str_concat foldr]; [by rewrite app_empty_r|].
  assert (add_section b s = b +:+ newline +:+ newline +:+ s) as Hs.
  { unfold add_section, section_sep. apply String.eqb_neq in Hb. by rewrite Hb, app_assoc_str. }
  rewrite Hs, IH by (by destruct b). cbn [str_concat foldr]. by rewrite app_assoc_str.
Qed.

Lemma join_concat sep s ss : str_join sep (s :: ss) = str_concat (s :: map (fun t => sep +:+ t) ss).
Proof.
  revert s. induction ss as [|t ss IH]; intros s; cbn [map str_concat foldr]; [by rewrite app_empty_r|].
  change (str_join sep (s :: t :: ss)) with (s +:+ sep +:+ str_join sep (t :: ss)). rewrite IH. cbn [str_concat foldr]. by rewrite app_assoc_str.
Qed.

Lemma sections_join ss : Forall (fun s => s <> "") ss -> foldl add_section "" ss = str_join (newline +:+ newline) ss.
Proof.
  intros H. destruct H as [|s ss Hs Hss]; [done|]. cbn [foldl]. change (add_section "" s) with s.
  rewrite add_sections by done. by rewrite join_concat.
Qed.

Lemma get_lt s k : k < String.length s -> exists c, String.get k s = Some c.
Proof.
  revert k. induction s as [|d s IH]; intros k Hk; cbn in Hk; [lia|]. destruct k as [|k]; cbn; [eauto|]. apply IH. lia.
Qed.

Lemma cut_point_spec s k : k < String.length s ->
  cut_point s k <= k /\ (cut_point s k = 0 \/ exists c, String.get (cut_point s k) s = Some c /\ rune_start c = true).
Proof.
  induction k as [|k IH]; intros Hk; cbn [cut_point]; [split; [done|by left]|].
  destruct (String.get (S k) s) as [c|] eqn:Eg.
  - destruct (rune_start c) eqn:Er; [split; [done|right; eauto]|]. destruct IH as [H1 H2]; [lia|]. split; [lia|done].
  - destruct (get_lt s (S k) Hk) as [c Hc]. congruence.
Qed.

Lemma fit_spec max used x : room max used = true ->
  shows x (fit max used (dc_text x)) /\ ((0 < max)%Z -> used + String.length (fit max used (dc_text x)).1 <= Z.to_nat max)
  /\ (max = 0%Z -> (fit max used (dc_text x)).2 = false).
Proof.
  unfold room, fit. rewrite negb_true_iff, orb_false_iff, andb_false_iff, !Z.ltb_ge, Z.leb_gt. intros [Hm Hu].
  destruct ((0 <? max)%Z && _) eqn:E; cbn [fst snd].
  - apply andb_true_iff in E as [Hp%Z.ltb_lt Ho%Z.ltb_lt]. unfold truncate.
    destruct (Nat.leb_spec (String.length (dc_text x)) (Z.to_nat max - used)); [lia|].
    destruct (cut_point_spec (dc_text x) (Z.to_nat max - used)) as [H1 H2]; [lia|].
    repeat split; [|intros _; rewrite length_take_str; lia|lia]. unfold shows. cbn. eauto.
  - apply andb_false_iff in E as [E%Z.ltb_ge|E%Z.ltb_ge]; repeat split; lia.
Qed.

Lemma render_full max docs st : room max (rs_used st) = false ->
  foldl (render_doc max) st docs = {| rs_text := rs_text st; rs_used := rs_used st; rs_skipped := rs_skipped st ++ map dc_path docs |}.
Proof.
  revert st. induction docs as [|x docs IH]; intros st Hr; cbn [foldl map].
  - rewrite app_nil_r. by destruct st.
  - unfold render_doc at 2. rewrite Hr. cbn [negb]. rewrite IH by done. cbn. by rewrite <- app_assoc.
Qed.

(** The documents that are shown are the first ones. *)
Lemma render_docs max docs st : exists shown,
  length shown <= length docs
  /\ foldl (render_doc max) st docs
     = {| rs_text := foldl add_section (rs_text st) (zip_with (doc_section max) docs shown);
          rs_used := rs_used st + shown_bytes shown;
          rs_skipped := rs_skipped st ++ map dc_path (drop (length shown) docs) |}
  /\ Forall2 shows (take (length shown) docs) shown
  /\ ((0 < max)%Z -> rs_used st <= Z.to_nat max -> rs_used st + shown_bytes shown <= Z.to_nat max)
  /\ (max = 0%Z -> length shown = length docs /\ Forall (fun s => s.2 = false) shown)
  /\ ((max < 0)%Z -> shown = []).
Proof.
  revert st. induction docs as [|x docs IH]; intros st.
  { exists []. cbn. rewrite app_nil_r, Nat.add_0_r. repeat split; [lia|by destruct st|constructor|lia|constructor]. }
  destruct (room max (rs_used st)) eqn:Er.
  - cbn [foldl]. destruct (fit_spec max (rs_used st) x Er) as (Hs & Hb & Hz).
    destruct (fit max (rs_used st) (dc_text x)) as [text cut] eqn:Ef.
    destruct (IH (render_doc max st x)) as (shown & Hl & Hr & Hf & Hm & H0 & Hn).
    assert (Hst : render_doc max st x = {| rs_text := add_section (rs_text st) (doc_section max x (text, cut));
        rs_used := rs_used st + String.length text; rs_skipped := rs_skipped st |}).
    { unfold render_doc. rewrite Er, Ef. cbn [negb]. f_equal. }
    rewrite Hst in *. cbn [rs_text rs_used rs_skipped fst snd] in *. exists ((text, cut) :: shown). rewrite Hr.
    cbn [length take drop zip_with foldl]. unfold shown_bytes in *. cbn [sum_list_with fst]. repeat split.
    + lia.
    + f_equal. lia.
    + by constructor.
    + intros H1 H2. specialize (Hb H1). specialize (Hm H1 Hb). lia.
    + destruct (H0 ltac:(done)) as [-> _]. done.
    + destruct (H0 ltac:(done)) as [_ ?]. constructor; [by apply Hz|done].
    + intros Hneg. unfold room in Er. apply Z.ltb_lt in Hneg. rewrite Hneg in Er. done.
  - exists []. rewrite render_full by done. cbn. rewrite Nat.add_0_r. repeat split; [lia|constructor|lia|..].
    + unfold room in Er. subst max. done.
    + constructor.
Qed.

(** What is rendered under a limit.  The documents are shown in order until
    the limit is used up, each in full or cut before the start of a character;
    together they take no more than the limit; the rest are named; without a
    limit every document is shown in full, and with nothing left of it none
    is. *)
Lemma render_spec docs max gone :
  let '(b, used, skipped) := render docs max gone in
  exists shown,
    Forall2 shows (take (length shown) docs) shown
    /\ skipped = map dc_path (drop (length shown) docs)
    /\ used = shown_bytes shown
    /\ b = str_join (newline +:+ newline) (zip_with (doc_section max) docs shown ++ map gone_text gone ++ skipped_section skipped)
    /\ ((0 < max)%Z -> (Z.of_nat used <= max)%Z)
    /\ (max = 0%Z -> skipped = [] /\ shown = map (fun x => (dc_text x, false)) docs)
    /\ ((max < 0)%Z -> used = 0 /\ skipped = map dc_path docs).
Proof.
  unfold render. cbv zeta. destruct (render_docs max docs {| rs_text := ""; rs_used := 0; rs_skipped := [] |}) as (shown & Hl & -> & Hf & Hm & H0 & Hn).
  cbn [rs_text rs_used rs_skipped app] in *. exists shown. repeat split; [done| |intros Hp; specialize (Hm Hp); lia|..].
  - rewrite <- sections_join.
    + rewrite !foldl_app. set (b0 := foldl add_section "" _). assert (Hg : forall b, foldl (fun b path => b +:+ section_sep b +:+ gone_text path) b gone
        = foldl add_section b (map gone_text gone)) by (intros b; revert b; induction gone as [|g gone' IH]; intros b; [done|]; cbn [foldl map]; apply IH).
      rewrite Hg. by destruct (map dc_path (drop (length shown) docs)).
    + apply Forall_app. split; [|apply Forall_app; split].
      * apply Forall_forall. intros s (i & Hi)%list_elem_of_lookup. rewrite lookup_zip_with in Hi.
        destruct (docs !! i); [|done]. destruct (shown !! i); [|done]. by injection Hi as <-.
      * apply Forall_forall. intros s (g & -> & _)%list_elem_of_fmap. done.
      * destruct (map dc_path (drop (length shown) docs)); constructor; [done|constructor].
  - destruct (H0 ltac:(done)) as [Hlen _]. by rewrite Hlen, drop_all.
  - destruct (H0 ltac:(done)) as [Hlen Hc]. rewrite Hlen, take_ge in Hf by done. clear -Hf Hc.
    induction Hf as [|x [t cut] xs ss Hs Hf IH]; [done|]. apply Forall_cons in Hc as [Hc Hcs]. cbn [map]. f_equal; [|by apply IH].
    unfold shows in Hs. cbn in Hc, Hs. subst cut t. done.
  - by rewrite Hn.
  - by rewrite Hn.
Qed.
