(* ===== verification/InstructionProps.v ===== *)
(** * What the instruction loader of a session promises

    Over any sequence of the hooks of InstructionSession.v, each on the disk
    of its moment: the system prompt is fixed once it is read and with the
    block keeps to the limit; rules are applied once and for a reason; the
    directories scanned lie below the roots and cover every path a call named;
    and under [ChangesNotice] prompt and block together show what the
    instruction files say now, and the user is told every difference. *)

From S2P Require Import Prelude GoStr Errors Paths Rules Provider Instructions InstructionSession.
Local Open Scope nat_scope.

(** ** Runs of a session *)

Inductive op :=
| OpPrompt
| OpCall (named : list string)
| OpStep (messages : list Message)
| OpInput (input : string).

Definition run_op (l : loader) (d : disk) (o : op) (e : ext) : ext :=
  match o with
  | OpPrompt => (prompt_section l d e).2
  | OpCall named => (after_call l d named e).2
  | OpStep messages => (step_stage l d e messages).2
  | OpInput input => (input_transform l d input e).2
  end.

Definition run_session (l : loader) (hist : list (disk * op)) : ext :=
  foldl (fun e '(d, o) => run_op l d o e) ext_empty hist.

Lemma run_session_snoc l hist d o : run_session l (hist ++ [(d, o)]) = run_op l d o (run_session l hist).
Proof. unfold run_session. by rewrite foldl_snoc. Qed.

Lemma foldl_inv {A B} (P : A -> Prop) (f : A -> B -> A) (bs : list B) (a : A) :
  (forall a b, b ∈ bs -> P a -> P (f a b)) -> P a -> P (foldl f a bs).
Proof.
  revert a. induction bs as [|b bs IH]; intros a Hf Ha; [done|]. cbn. apply IH; [|by apply Hf; [left|]].
  intros a' b' Hb. apply Hf. by right.
Qed.

(** ** Frames *)

(** All but what the user was told. *)
Definition untold (e : ext) : startup * scanned * list ruleHit * gset string * cache :=
  (xs_start e, xs_dirs e, xs_hits e, xs_ruleHit e, xs_cache e).

Lemma with_read_eq {A} (m : rd A) e : with_read m e = ((m (xs_cache e)).1, set_cache (m (xs_cache e)).2 e).
Proof. unfold with_read. by destruct (m (xs_cache e)). Qed.

Lemma untold_proj e e' : untold e = untold e' ->
  xs_start e = xs_start e' /\ xs_dirs e = xs_dirs e' /\ xs_hits e = xs_hits e' /\ xs_ruleHit e = xs_ruleHit e' /\ xs_cache e = xs_cache e'.
Proof. unfold untold. intros H. repeat split; congruence. Qed.

Lemma untold_foldl {B} (f : ext -> B -> ext) bs e : (forall e b, untold (f e b) = untold e) -> untold (foldl f e bs) = untold e.
Proof. intros Hf. apply (foldl_inv (fun e' => untold e' = untold e)); [|done]. intros e' b _ <-. apply Hf. Qed.

Lemma untold_say_of {B} (things : list B) line e : untold (say_of things line e) = untold e.
Proof. by destruct things. Qed.

(** ** A text inside another *)
Definition occurs (s t : string) : Prop := exists a b, t = a +:+ s +:+ b.

Lemma occurs_refl s : occurs s s.
Proof. exists "", "". by rewrite app_empty_r. Qed.

Lemma occurs_l s t u : occurs s t -> occurs s (t +:+ u).
Proof. intros (a & b & ->). exists a, (b +:+ u). by rewrite !app_assoc_str. Qed.

Lemma occurs_r s t u : occurs s u -> occurs s (t +:+ u).
Proof. intros (a & b & ->). exists (t +:+ a), b. by rewrite !app_assoc_str. Qed.

Lemma occurs_trans s t u : occurs s t -> occurs t u -> occurs s u.
Proof. intros H (a & b & ->). by apply occurs_r, occurs_l. Qed.

Lemma occurs_concat s ss : s ∈ ss -> occurs s (str_concat ss).
Proof.
  induction ss as [|t ss IH]; intros H; [by apply not_elem_of_nil in H|]. cbn.
  apply elem_of_cons in H as [->|H]; [apply occurs_l, occurs_refl|apply occurs_r; by apply IH].
Qed.

Lemma occurs_join sep s ss : s ∈ ss -> occurs s (str_join sep ss).
Proof.
  destruct ss as [|t ss]; intros H; [by apply not_elem_of_nil in H|]. rewrite join_concat.
  apply elem_of_cons in H as [->|H]; [by apply occurs_concat; left|].
  eapply occurs_trans; [|apply (occurs_concat (sep +:+ s))]; [apply occurs_r, occurs_refl|].
  right. apply list_elem_of_fmap. eauto.
Qed.

(** The section of a document shown in full. *)
Definition full_section (x : doc) : string := doc_section 0 x (dc_text x, false).

Lemma zip_map {A B C} (f : A -> B -> C) (g : A -> B) (xs : list A) : zip_with f xs (map g xs) = map (fun x => f x (g x)) xs.
Proof. induction xs as [|x xs IH]; [done|]. cbn. by rewrite IH. Qed.

(** A document in a text that is limited: in full or cut before the start of
    a character, or named as left out. *)
Definition presented (max : Z) (x : doc) (t : string) : Prop :=
  (exists s, shows x s /\ occurs (doc_section max x s) t)
  \/ (exists skipped line, dc_path x ∈ skipped /\ skipped_section skipped = [line] /\ occurs line t).

Definition text_bytes (docs : list doc) : nat := sum_list_with (fun x => String.length (dc_text x)) docs.

(** The documents are within the limit, or there is none. *)
Definition within (max : Z) (docs : list doc) : Prop := max = 0%Z \/ (Z.of_nat (text_bytes docs) < max)%Z.

(** The document is one of those that are rendered into the text: whole, when
    all of them are within the limit. *)
Definition in_view (max : Z) (docs : list doc) (x : doc) (t : string) : Prop :=
  presented max x t /\ (within max docs -> occurs (full_section x) t).

Lemma presented_occurs max x t u : occurs t u -> presented max x t -> presented max x u.
Proof.
  intros Ho [(s & Hs & H)|(sk & line & H1 & H2 & H)]; [left; exists s|right; exists sk, line]; split_and!; try done; by eapply occurs_trans.
Qed.

Lemma in_view_occurs max docs x t u : occurs t u -> in_view max docs x t -> in_view max docs x u.
Proof. intros Ho [H1 H2]. split; [by eapply presented_occurs|]. intros Hw. eapply occurs_trans; [by apply H2|done]. Qed.

Lemma zip_shown_in max docs shown i x s : docs !! i = Some x -> shown !! i = Some s -> doc_section max x s ∈ zip_with (doc_section max) docs shown.
Proof. intros Hx Hs. apply list_elem_of_lookup. exists i. by rewrite lookup_zip_with, Hx; cbn; rewrite Hs. Qed.

(** Documents within the limit are rendered whole. *)
Lemma render_within max docs st : (0 < max)%Z -> (Z.of_nat (rs_used st + text_bytes docs) < max)%Z ->
  foldl (render_doc max) st docs
  = {| rs_text := foldl add_section (rs_text st) (map full_section docs); rs_used := rs_used st + text_bytes docs; rs_skipped := rs_skipped st |}.
Proof.
  intros Hm. revert st. induction docs as [|x docs IH]; intros st Hs; cbn [foldl map]; [cbn; rewrite Nat.add_0_r; by destruct st|].
  change (text_bytes (x :: docs)) with (String.length (dc_text x) + text_bytes docs) in *.
  assert (render_doc max st x = {| rs_text := add_section (rs_text st) (full_section x); rs_used := rs_used st + String.length (dc_text x); rs_skipped := rs_skipped st |}) as ->.
  { unfold render_doc, room, fit. rewrite (proj2 (Z.ltb_ge max 0)), (proj2 (Z.ltb_lt 0 max)), (proj2 (Z.leb_gt max (Z.of_nat (rs_used st)))),
      (proj2 (Z.ltb_ge max (Z.of_nat (rs_used st + String.length (dc_text x))))) by lia. done. }
  rewrite IH by (cbn [rs_used]; lia). cbn [rs_text rs_used rs_skipped]. f_equal. lia.
Qed.

Lemma full_sections_join docs gone :
  foldl (fun b path => b +:+ section_sep b +:+ gone_text path) (foldl add_section "" (map full_section docs)) gone
  = str_join (newline +:+ newline) (map full_section docs ++ map gone_text gone).
Proof.
  rewrite <- sections_join.
  - rewrite foldl_app. generalize (foldl add_section "" (map full_section docs)). induction gone as [|g gone IH]; intros b; [done|]. cbn [foldl map]. apply IH.
  - apply Forall_app. split; apply Forall_forall; [intros ? (x & -> & _)%list_elem_of_fmap|intros ? (g & -> & _)%list_elem_of_fmap]; done.
Qed.

Lemma render_shows max docs gone x : x ∈ docs -> in_view max docs x (render docs max gone).1.1.
Proof.
  intros Hx. split.
  - pose proof (render_spec docs max gone) as H. destruct (render docs max gone) as [[b used] skipped].
    destruct H as (shown & Hf & Hsk & _ & Hb & _). cbn [fst]. rewrite Hb. apply list_elem_of_lookup in Hx as [i Hi].
    destruct (decide (i < length shown)) as [Hl|Hl].
    + left. destruct (lookup_lt_is_Some_2 shown i Hl) as [s Hs]. exists s. split.
      * eapply Forall2_lookup_lr; [exact Hf| |exact Hs]. by rewrite lookup_take_lt.
      * apply occurs_join, elem_of_app. left. by eapply zip_shown_in.
    + right. assert (dc_path x ∈ skipped) as Hp.
      { rewrite Hsk. apply list_elem_of_fmap. exists x. split; [done|]. apply list_elem_of_lookup. exists (i - length shown).
        rewrite lookup_drop. by replace (length shown + (i - length shown)) with i by lia. }
      exists skipped. unfold skipped_section in *. destruct skipped as [|q qs]; [by apply not_elem_of_nil in Hp|].
      eexists. split; [exact Hp|]. split; [reflexivity|]. apply occurs_join, elem_of_app. right. apply elem_of_app. right. by left.
  - intros [->|Hw].
    + pose proof (render_spec docs 0 gone) as H. destruct (render docs 0 gone) as [[b used] skipped].
      destruct H as (shown & _ & _ & _ & -> & _ & H0 & _). destruct (H0 eq_refl) as [-> ->]. cbn [fst skipped_section].
      apply occurs_join. rewrite app_nil_r, zip_map. apply elem_of_app. left. apply list_elem_of_fmap. by exists x.
    + unfold render. rewrite render_within by (cbn; lia). cbn [rs_text rs_used rs_skipped fst]. rewrite full_sections_join.
      apply occurs_join, elem_of_app. left. apply list_elem_of_fmap. by exists x.
Qed.

Lemma render_gone max docs gone path : path ∈ gone -> occurs (gone_text path) (render docs max gone).1.1.
Proof.
  intros Hp. pose proof (render_spec docs max gone) as H. destruct (render docs max gone) as [[b used] skipped].
  destruct H as (shown & _ & _ & _ & -> & _). cbn [fst]. apply occurs_join, elem_of_app. right. apply elem_of_app. left. apply list_elem_of_fmap. by exists path.
Qed.

Section Props.
Context (l : loader).
Local Abbreviation prof := (ld_p l).

Lemma untold_announceRules rs e : untold (announceRules l rs e) = untold e.
Proof. by destruct rs. Qed.

Lemma untold_tells docs e : untold (foldl (fun e x => tell_file x e) e docs) = untold e.
Proof. by apply untold_foldl. Qed.

Lemma untold_tell_rules rs e : untold (foldl (fun e r => tell_rule r e) e rs) = untold e.
Proof. by apply untold_foldl. Qed.

(** What [load] writes. *)
Definition startup_of (docs : list doc) (rs : list rule) (dirs : list string) : startup :=
  let r := render (docs ++ map (fun r => rule_doc r (alwaysLabel r)) (of_kind ruleAlways rs)) (Z.max (pf_MaxBytes prof) 0) [] in
  {| su_loaded := true; su_prompt := prompt_text r.1.1 (of_kind ruleDescription rs); su_promptN := r.1.2;
     su_chainDirs := dirs; su_seenDocs := docs; su_startRules := rs; su_promptRules := prompt_rules rs |}.

Lemma load_untold d e : su_loaded (xs_start e) = false ->
  let r := startup_read l d (xs_cache e) in
  untold (load l d e) = (startup_of r.1.1 r.1.2 (chainDirs d l), xs_dirs e, xs_hits e, xs_ruleHit e, r.2).
Proof.
  intros Hl. unfold load, startup_of. rewrite Hl, with_read_eq. destruct (startup_read l d (xs_cache e)) as [[docs rs] c]. cbn [fst snd].
  destruct (render _ _ _) as [[body n] skipped]. cbn [fst snd]. rewrite untold_announceRules.
  assert (Ht : forall e', untold (foldl (fun e x => tell_file x e) (set_start {| su_loaded := true;
      su_prompt := prompt_text body (of_kind ruleDescription rs); su_promptN := n; su_chainDirs := chainDirs d l; su_seenDocs := docs;
      su_startRules := rs; su_promptRules := prompt_rules rs |} (foldl (fun e r => tell_rule r e) e' rs)) docs)
    = ({| su_loaded := true; su_prompt := prompt_text body (of_kind ruleDescription rs); su_promptN := n; su_chainDirs := chainDirs d l;
          su_seenDocs := docs; su_startRules := rs; su_promptRules := prompt_rules rs |}, xs_dirs e', xs_hits e', xs_ruleHit e', xs_cache e')).
  { intros e'. rewrite untold_tells. pose proof (untold_tell_rules rs e') as H. unfold untold in *. cbn. congruence. }
  specialize (Ht (set_cache c e)). destruct docs as [|x docs]; [|destruct skipped]; exact Ht.
Qed.

Lemma load_loaded d e : su_loaded (xs_start e) = true -> load l d e = e.
Proof. intros H. unfold load. by rewrite H. Qed.

Lemma touch_dir_untold d e dir :
  let e' := touch_dir l d e dir in
  xs_start e' = xs_start e /\ xs_hits e' = xs_hits e /\ xs_ruleHit e' = xs_ruleHit e
  /\ sc_subdirs (xs_dirs e') = {[dir]} ∪ sc_subdirs (xs_dirs e).
Proof.
  cbv zeta. unfold touch_dir. case_decide as Hin; [repeat split; set_solver|].
  rewrite with_read_eq. destruct (subdir d l dir (xs_cache e)) as [docs c]. cbn [fst snd].
  set (e1 := set_dirs _ (set_cache c e)). match goal with |- context [say_of docs ?line ?x] => set (e2 := say_of docs line x) end.
  assert (H2 : untold e2 = untold e1) by (unfold e2; by rewrite untold_say_of, untold_tells). clearbody e2.
  apply untold_proj in H2 as (Hs & Hd & Hh & Hr & _).
  destruct (pf_NestedRules prof) as [|nested more]; [rewrite Hs, Hd, Hh, Hr; repeat split|].
  rewrite with_read_eq. destruct (nestedRules d l dir (xs_cache e2)) as [rs c2]. cbn [fst snd].
  match goal with |- context [say_of rs ?line ?x] => set (e4 := say_of rs line x) end.
  set (e3 := set_dirs _ (set_cache c2 e2)) in *.
  assert (H4 : untold e4 = untold e3) by (unfold e4; by rewrite untold_say_of, untold_tell_rules).
  apply untold_proj in H4 as (-> & -> & -> & -> & _). subst e3. cbn. rewrite Hs, Hd, Hh, Hr. repeat split.
Qed.

Lemma touch_untold d e path :
  let e' := touch l d e path in
  xs_start e' = xs_start e /\ xs_hits e' = xs_hits e /\ xs_ruleHit e' = xs_ruleHit e
  /\ sc_subdirs (xs_dirs e') = list_to_set (touched_dirs l d path) ∪ sc_subdirs (xs_dirs e).
Proof.
  cbv zeta. unfold touch. generalize (touched_dirs l d path) as dirs. intros dirs. revert e.
  induction dirs as [|dir dirs IH]; intros e; [repeat split; set_solver|]. cbn [foldl].
  destruct (touch_dir_untold d e dir) as (H1 & H2 & H3 & H4). destruct (IH (touch_dir l d e dir)) as (-> & -> & -> & ->).
  rewrite H1, H2, H3, H4. repeat split. set_solver.
Qed.

(** ** Progress

    What every hook keeps: the startup once it is read; the hits in their
    order, each rule at most once and for a reason [J]; the directories
    scanned, new ones among [D]. *)
Section Progress.
Context (J : ruleHit -> Prop) (D : string -> Prop).

Definition start_kept (e e' : ext) : Prop :=
  xs_start e' = xs_start e
  \/ su_loaded (xs_start e) = false /\ exists docs rs dirs, xs_start e' = startup_of docs rs dirs.

Definition progress (e e' : ext) : Prop :=
  start_kept e e'
  /\ (exists new, xs_hits e' = xs_hits e ++ new /\ xs_ruleHit e' = list_to_set (map rh_path new) ∪ xs_ruleHit e
        /\ NoDup (map rh_path new) /\ Forall (fun h => (rh_path h ∉ xs_ruleHit e) /\ J h) new)
  /\ sc_subdirs (xs_dirs e) ⊆ sc_subdirs (xs_dirs e')
  /\ (forall dir, dir ∈ sc_subdirs (xs_dirs e') -> dir ∈ sc_subdirs (xs_dirs e) \/ D dir).

Lemma progress_quiet e e' :
  start_kept e e' -> xs_hits e' = xs_hits e -> xs_ruleHit e' = xs_ruleHit e ->
  sc_subdirs (xs_dirs e) ⊆ sc_subdirs (xs_dirs e') -> (forall dir, dir ∈ sc_subdirs (xs_dirs e') -> dir ∈ sc_subdirs (xs_dirs e) \/ D dir) ->
  progress e e'.
Proof.
  intros Hs Hh Hr H1 H2. split; [done|]. split; [|done]. exists []. rewrite Hh, Hr, app_nil_r. repeat split; [set_solver|constructor|constructor].
Qed.

Lemma progress_refl e : progress e e.
Proof. apply progress_quiet; [by left|auto..]. Qed.

Lemma progress_trans e1 e2 e3 : progress e1 e2 -> progress e2 e3 -> progress e1 e3.
Proof.
  intros (Hs & (new & Hh & Hr & Hn & Hf) & Hd1 & Hd2) (Hs' & (new' & Hh' & Hr' & Hn' & Hf') & Hd1' & Hd2').
  split; [|split; [|split; [set_solver|]]].
  - destruct Hs as [Hs|[Hl (docs & rs & dirs & Hs)]], Hs' as [Hs'|[Hl' Hx]].
    + left. congruence.
    + right. rewrite <- Hs. done.
    + right. rewrite Hs'. eauto.
    + exfalso. rewrite Hs in Hl'. done.
  - exists (new ++ new'). rewrite Hh', Hh, Hr', Hr, map_app, <- app_assoc. split; [done|]. split; [set_solver|].
    rewrite Forall_forall in Hf'. split.
    + apply NoDup_app. split; [done|]. split; [|done]. intros q Hq (h & -> & Hin)%list_elem_of_fmap. apply Hf' in Hin as [Hin _].
      apply Hin. rewrite Hr. apply elem_of_union_l. by apply elem_of_list_to_set.
    + apply Forall_app. split; [done|]. apply Forall_forall. intros h Hin. apply Hf' in Hin as [Hin ?]. split; [set_solver|done].
  - intros dir [H|H]%Hd2'; [by apply Hd2|by right].
Qed.

Lemma progress_foldl {B} (f : ext -> B -> ext) bs e : (forall e b, b ∈ bs -> progress e (f e b)) -> progress e (foldl f e bs).
Proof.
  revert e. induction bs as [|b bs IH]; intros e Hf; [apply progress_refl|]. cbn. eapply progress_trans; [apply Hf; by left|].
  apply IH. intros e' b' Hb. apply Hf. by right.
Qed.

Lemma progress_untold e e' e'' : untold e' = untold e'' -> progress e e'' -> progress e e'.
Proof. intros (H1 & H2 & H3 & H4 & _)%untold_proj. unfold progress, start_kept. by rewrite H1, H2, H3, H4. Qed.

Lemma progress_load d e : progress e (load l d e).
Proof.
  destruct (su_loaded (xs_start e)) eqn:El; [rewrite load_loaded by done; apply progress_refl|].
  pose proof (load_untold d e El) as H. cbv zeta in H. unfold untold in H.
  apply progress_quiet; [right; split; [done|]; do 3 eexists; by injection H as -> _|congruence|congruence|..]; replace (xs_dirs (load l d e)) with (xs_dirs e) by congruence; auto.
Qed.

Lemma progress_read {A} (m : rd A) e : progress e (with_read m e).2.
Proof. rewrite with_read_eq. apply progress_quiet; [by left|auto..]. Qed.

Lemma progress_touch d e path : (forall dir, dir ∈ touched_dirs l d path -> D dir) -> progress e (touch l d e path).
Proof.
  intros HD. destruct (touch_untold d e path) as (Hs & Hh & Hr & Hd). apply progress_quiet; [by left|done|done|..]; rewrite Hd.
  - set_solver.
  - intros dir [Hin|]%elem_of_union; [right|by left]. apply HD. by apply elem_of_list_to_set in Hin.
Qed.

Lemma progress_hit e h line : rh_path h ∉ xs_ruleHit e -> J h -> progress e (say line (add_hit h e)).
Proof.
  intros Hn Hj. split; [by left|]. split; [|cbn; auto]. exists [h]. cbn. repeat split; [set_solver|constructor; [set_solver|constructor]|].
  by repeat constructor.
Qed.

Lemma progress_match_rule path root e r :
  (ru_kind r = ruleGlob -> rule_matches r path root <> "" ->
    J {| rh_path := ru_path r; rh_why := rel l path +:+ " matches " +:+ rule_matches r path root |}) ->
  progress e (match_rule l path root e r).
Proof.
  intros HJ. unfold match_rule. destruct (negb _ || _) eqn:E; [apply progress_refl|].
  apply orb_false_iff in E as [Hk%negb_false_iff%bool_decide_eq_true Hn%bool_decide_eq_false].
  destruct (String.eqb_spec (rule_matches r path root) "") as [|Hg]; [apply progress_refl|]. apply progress_hit; auto.
Qed.

Lemma progress_mention_rule names e r :
  (ru_kind r <> ruleAlways -> rule_name r ∈ names -> J {| rh_path := ru_path r; rh_why := "you mentioned @" +:+ rule_name r |}) ->
  progress e (mention_rule l names e r).
Proof.
  intros HJ. unfold mention_rule. destruct (_ || _ || _) eqn:E; [apply progress_refl|].
  apply orb_false_iff in E as [[Hk%bool_decide_eq_false Hn%bool_decide_eq_false]%orb_false_iff Hm%negb_false_iff%bool_decide_eq_true].
  apply progress_hit; auto.
Qed.

Lemma progress_unlock e : progress e (unlock e).2.
Proof. apply progress_quiet; [by left|auto..]. Qed.

Lemma untold_says lines e : untold (foldl (fun e line => say line e) e lines) = untold e.
Proof. by apply untold_foldl. Qed.

Lemma progress_ruleBlock d e : progress e (ruleBlock l d e).2.
Proof.
  unfold ruleBlock, current. rewrite with_read_eq. cbn [fst snd]. eapply progress_trans; [apply (progress_read (current_rd l d e))|].
  rewrite with_read_eq. cbn [snd]. set (e1 := set_cache _ e).
  case_decide; [|apply progress_refl]. unfold announceRuleChanges.
  match goal with |- context [foldl ?f ?a ?ls] => pose proof (untold_says ls a) as H1; set (e2 := foldl f a ls) in * end.
  apply (progress_untold _ _ e1); [|apply progress_refl]. rewrite <- H1. done.
Qed.

Lemma progress_block_parts d e : progress e (block_parts l d e).2.
Proof.
  unfold block_parts. destruct (decide (pf_Changes prof = ChangesNotice)).
  - rewrite with_read_eq. cbn [fst snd]. eapply progress_trans; [apply (progress_read (startup_now l d e))|].
    rewrite with_read_eq. cbn [snd]. set (e1 := set_cache _ e). rewrite with_read_eq. cbn [fst snd].
    eapply progress_trans; [apply (progress_read (rd_concat (subdir_docs l d e1) (sub_dirs e1)))|]. rewrite with_read_eq. cbn [snd].
    match goal with |- context [ruleBlock l d ?x] => pose proof (progress_ruleBlock d x) as H end.
    destruct (ruleBlock _ _ _) as [[[? ?] ?] ?]. exact H.
  - rewrite with_read_eq. cbn [fst snd].
    eapply progress_trans; [apply (progress_read (rd_concat (subdir_docs l d e) (sub_dirs e)))|]. rewrite with_read_eq. cbn [snd].
    match goal with |- context [ruleBlock l d ?x] => pose proof (progress_ruleBlock d x) as H end.
    destruct (ruleBlock _ _ _) as [[[? ?] ?] ?]. exact H.
Qed.

Lemma progress_block d e : progress e (block l d e).2.
Proof.
  unfold block. pose proof (progress_block_parts d e) as H. destruct (block_parts l d e) as [[[docs listed] gone] e1]. cbn [snd] in *.
  case_decide; [|done]. eapply progress_trans; [exact H|]. unfold announceChanges. rewrite with_read_eq. cbn [fst snd].
  match goal with |- context [foldl ?f ?a ?ls] => pose proof (untold_says ls a) as H1; set (e2 := foldl f a ls) in * end.
  eapply progress_trans; [apply (progress_read (files_now l d e1))|]. rewrite with_read_eq. cbn [snd].
  eapply progress_untold; [|apply progress_refl]. rewrite <- H1. done.
Qed.
End Progress.

(** ** The hooks *)

(** Why a hook applies a rule. *)
Definition applied_by (d : disk) (o : op) (h : ruleHit) : Prop :=
  exists r e, r ∈ (current l d e).1 /\ rh_path h = ru_path r /\
  match o with
  | OpCall named => exists path, path ∈ call_paths l named
      /\ let real := real_path d path in
         ru_kind r = ruleGlob /\ rule_matches r real (rootOf l real) <> ""
         /\ rh_why h = rel l real +:+ " matches " +:+ rule_matches r real (rootOf l real)
  | OpInput input => ru_kind r <> ruleAlways /\ rule_name r ∈ mentions input /\ rh_why h = "you mentioned @" +:+ rule_name r
  | _ => False
  end.

Definition named_dir (d : disk) (o : op) (dir : string) : Prop :=
  match o with OpCall named => exists path, path ∈ call_paths l named /\ dir ∈ touched_dirs l d path | _ => False end.

Lemma progress_call d named e path : path ∈ call_paths l named ->
  progress (applied_by d (OpCall named)) (named_dir d (OpCall named)) e (touch_and_match l d e path).
Proof.
  intros Hp. unfold touch_and_match.
  assert (Hm : forall e, progress (applied_by d (OpCall named)) (named_dir d (OpCall named)) e (matchRules l d e path)).
  { intros e1. unfold matchRules. pose proof (progress_read (applied_by d (OpCall named)) (named_dir d (OpCall named)) (current_rd l d e1) e1) as H.
    fold (current l d e1) in H. destruct (current l d e1) as [rs e2] eqn:Ec. cbn [snd] in H. eapply progress_trans; [exact H|].
    apply progress_foldl. intros e3 r Hr. apply progress_match_rule. intros Hk Hg. exists r, e1. rewrite Ec. cbn. eauto 10. }
  case_decide; [|apply Hm]. eapply progress_trans; [|apply Hm]. apply progress_touch. intros dir Hdir. exists path. done.
Qed.

Lemma progress_op d o e : progress (applied_by d o) (named_dir d o) e (run_op l d o e).
Proof.
  destruct o as [|named|messages|input]; cbn [run_op].
  - unfold prompt_section. eapply progress_trans; [apply progress_load|]. apply progress_unlock.
  - unfold after_call. destruct (negb _ && negb _); [apply progress_refl|].
    destruct (call_paths l named) as [|path paths] eqn:Ep; [apply progress_refl|]. rewrite <- Ep.
    eapply progress_trans; [|apply progress_unlock]. eapply progress_trans; [apply (progress_load _ _ d)|].
    apply progress_foldl. intros e' q Hq. by apply progress_call.
  - unfold step_stage. destruct (negb _ && negb _ && negb _); [apply progress_refl|].
    pose proof (progress_block (applied_by d (OpStep messages)) (named_dir d (OpStep messages)) d (load l d e)) as H.
    destruct (block l d (load l d e)) as [text e1]. cbn [snd] in H. unfold unlock. cbn [snd].
    eapply progress_trans; [apply progress_load|]. eapply progress_trans; [exact H|]. apply progress_unlock.
  - unfold input_transform. destruct (negb _); [apply progress_refl|]. case_decide; [apply progress_refl|].
    pose proof (progress_read (applied_by d (OpInput input)) (named_dir d (OpInput input)) (current_rd l d (load l d e)) (load l d e)) as H0.
    fold (current l d (load l d e)) in H0. destruct (current l d (load l d e)) as [rs e2] eqn:Ec. cbn [snd] in H0.
    eapply progress_trans; [apply progress_load|]. eapply progress_trans; [exact H0|].
    eapply progress_trans; [|apply progress_unlock]. apply progress_foldl. intros e3 r Hr. apply progress_mention_rule.
    intros Hk Hn. exists r, (load l d e). rewrite Ec. cbn. eauto 10.
Qed.

Lemma run_more hist hist' : exists J D, progress J D (run_session l hist) (run_session l (hist ++ hist')).
Proof.
  exists (fun _ => True), (fun _ => True). unfold run_session. rewrite foldl_app. apply progress_foldl. intros e [d o] _.
  destruct (progress_op d o e) as (Hs & (new & Hh & Hr & Hn & Hf) & Hd & _).
  split; [done|]. split; [|split; [done|auto]]. exists new. repeat split; [done|done|done|]. eapply Forall_impl; [exact Hf|]. naive_solver.
Qed.

Lemma run_hits hist :
  NoDup (map rh_path (xs_hits (run_session l hist)))
  /\ (forall h, h ∈ xs_hits (run_session l hist) -> rh_path h ∈ xs_ruleHit (run_session l hist)
       /\ exists d o, (d, o) ∈ hist /\ applied_by d o h)
  /\ (forall dir, dir ∈ sc_subdirs (xs_dirs (run_session l hist)) -> exists d o, (d, o) ∈ hist /\ named_dir d o dir).
Proof.
  induction hist as [|[d o] hist IH] using rev_ind; [repeat split; [constructor|set_solver|set_solver|set_solver]|].
  rewrite run_session_snoc. destruct IH as (IHn & IHh & IHd).
  destruct (progress_op d o (run_session l hist)) as (_ & (new & Hh & Hr & Hn & Hf) & _ & Hd). rewrite Forall_forall in Hf. split_and!.
  - rewrite Hh, map_app. apply NoDup_app. split; [done|]. split; [|done].
    intros q (h & -> & Hin)%list_elem_of_fmap (h' & Heq & Hin')%list_elem_of_fmap. apply Hf in Hin' as [Hin' _]. apply Hin'.
    rewrite <- Heq. by apply IHh.
  - intros h. rewrite Hh, elem_of_app, Hr. intros [Hin|Hin].
    + destruct (IHh h Hin) as (H1 & d' & o' & H2 & H3). split; [set_solver|]. exists d', o'. set_solver.
    + split; [|exists d, o; split; [set_solver|by apply Hf]]. apply elem_of_union_l, elem_of_list_to_set, list_elem_of_fmap. eauto.
  - intros dir [(d' & o' & H1 & H2)%IHd|H]%Hd; [exists d', o'; set_solver|exists d, o; set_solver].
Qed.

(** A rule of the session applies at most once, and only because a tool
    call named a path that one of its globs matches, or because the user wrote
    its name: never a rule that is always shown. *)
Theorem rules_apply_for_a_reason hist :
  NoDup (map rh_path (xs_hits (run_session l hist)))
  /\ forall h, h ∈ xs_hits (run_session l hist) -> exists d o, (d, o) ∈ hist /\ applied_by d o h.
Proof. destruct (run_hits hist) as (H1 & H2 & _). split; [done|]. intros h Hh. by apply H2. Qed.

(** ** The prompt and the limit *)

Lemma run_start hist : xs_start (run_session l hist) = xs_start ext_empty \/ exists docs rs dirs, xs_start (run_session l hist) = startup_of docs rs dirs.
Proof. destruct (run_more [] hist) as (J & D & [[H|[_ H]] _]); [by left|by right]. Qed.

Lemma load_start d e : su_loaded (xs_start e) = false -> exists docs rs dirs, xs_start (load l d e) = startup_of docs rs dirs.
Proof. intros He. pose proof (load_untold d e He) as H. cbv zeta in H. unfold untold in H. do 3 eexists. by injection H as -> _. Qed.

Lemma run_loaded d hist : exists docs rs dirs, xs_start (load l d (run_session l hist)) = startup_of docs rs dirs.
Proof.
  destruct (su_loaded (xs_start (run_session l hist))) eqn:El; [|by apply load_start]. rewrite load_loaded by done.
  destruct (run_start hist) as [H|H]; [|done]. rewrite H in El. done.
Qed.

Lemma startup_prompt_fits docs rs dirs : (0 < pf_MaxBytes prof)%Z -> (Z.of_nat (su_promptN (startup_of docs rs dirs)) <= pf_MaxBytes prof)%Z.
Proof.
  intros Hm. unfold startup_of. cbn [su_promptN].
  pose proof (render_spec (docs ++ map (fun r => rule_doc r (alwaysLabel r)) (of_kind ruleAlways rs)) (Z.max (pf_MaxBytes prof) 0) []) as H.
  destruct (render _ _ _) as [[b used] skipped]. destruct H as (shown & _ & _ & _ & _ & H & _). cbn [fst snd]. specialize (H ltac:(lia)). lia.
Qed.

(** The bytes of instruction text that the block of a call shows. *)
Definition block_used (d : disk) (e : ext) : nat :=
  let '(docs, _, gone, e) := block_parts l d e in (render docs (block_limit l e) gone).1.2.

(** C39: The system prompt is read once: whatever happens between, every
    later turn gets the same section.  Under a limit the instruction text of
    the prompt and that of the block shown before a call take, together, no
    more than the limit. *)
Theorem prompt_fixed_within_limit hist d :
  let e := load l d (run_session l hist) in
  (forall hist' d', (prompt_section l d' (run_session l (hist ++ (d, OpPrompt) :: hist'))).1.1 = su_prompt (xs_start e))
  /\ ((0 < pf_MaxBytes prof)%Z -> (Z.of_nat (su_promptN (xs_start e)) + Z.of_nat (block_used d e) <= pf_MaxBytes prof)%Z).
Proof.
  cbv zeta. destruct (run_loaded d hist) as (docs & rs & dirs & Hs). split.
  - intros hist' d'. change ((d, OpPrompt) :: hist') with ([(d, OpPrompt)] ++ hist'). rewrite app_assoc.
    destruct (run_more (hist ++ [(d, OpPrompt)]) hist') as (J & D & Hp & _).
    assert (He : xs_start (run_session l (hist ++ [(d, OpPrompt)])) = xs_start (load l d (run_session l hist))) by (by rewrite run_session_snoc).
    assert (Hl : su_loaded (xs_start (run_session l (hist ++ [(d, OpPrompt)]))) = true) by (by rewrite He, Hs).
    destruct Hp as [Hp|[Hp _]]; [|congruence]. unfold prompt_section. rewrite load_loaded by (by rewrite Hp). cbn. by rewrite Hp, He.
  - intros Hm. unfold block_used.
    destruct (progress_block_parts (fun _ => True) (fun _ => True) d (load l d (run_session l hist))) as [Hp _].
    destruct (block_parts l d (load l d (run_session l hist))) as [[[bdocs listed] gone] e1]. cbn [snd] in Hp.
    assert (He : xs_start e1 = xs_start (load l d (run_session l hist))).
    { destruct Hp as [Hp|[Hp _]]; [done|]. by rewrite Hs in Hp. }
    pose proof (startup_prompt_fits docs rs dirs Hm) as Hfit. rewrite <- Hs in Hfit.
    unfold block_limit. rewrite He. destruct (Z.ltb_spec 0 (pf_MaxBytes prof)); [|lia]. cbv zeta.
    destruct (Z.leb_spec (pf_MaxBytes prof - Z.of_nat (su_promptN (xs_start (load l d (run_session l hist))))) 0) as [Hr|Hr];
      match goal with |- context [render ?ds ?m ?g] => pose proof (render_spec ds m g) as Hspec end;
      destruct (render _ _ _) as [[b used] skipped]; destruct Hspec as (shown & _ & _ & _ & _ & H1 & _ & H2); cbn [fst snd].
    + destruct (H2 ltac:(lia)) as [-> _]. lia.
    + specialize (H1 Hr). lia.
Qed.

(** ** Reading through the cache of the session *)
Section Current.
Context (version : string -> Z -> Z -> string).

Definition ok (e : ext) : Prop := cache_ok version (xs_cache e).

Lemma ok_untold e e' : untold e = untold e' -> ok e' -> ok e.
Proof. intros (_ & _ & _ & _ & H)%untold_proj. unfold ok. by rewrite H. Qed.

Lemma ok_read {A} (m : rd A) e : stable version m -> ok e -> (with_read m e).1 = (m ∅).1 /\ ok (with_read m e).2.
Proof. intros Hm He. rewrite with_read_eq. by apply Hm. Qed.

Context (d : disk) (Hd : honest version d).

Lemma stable_nested_now dirs : stable version (nested_now l d dirs).
Proof.
  apply stable_foldl; [apply stable_ret|]. intros m dir Hm. apply stable_bind; [done|]. intros out.
  apply stable_bind; [by apply stable_nested|]. intros rs. apply stable_ret.
Qed.

Lemma stable_current e : stable version (current_rd l d e).
Proof.
  unfold current_rd. case_decide; [|apply stable_ret]. apply stable_bind; [by apply stable_rules|]. intros out.
  apply stable_bind; [apply stable_nested_now|]. intros more. apply stable_ret.
Qed.

Lemma stable_startup_now e : stable version (startup_now l d e).
Proof.
  unfold startup_now. apply stable_bind; [by apply stable_global|]. intros g. apply stable_bind; [by apply stable_chain|]. intros c. apply stable_ret.
Qed.

Lemma stable_startup_read : stable version (startup_read l d).
Proof.
  unfold startup_read. apply stable_bind; [by apply stable_global|]. intros g. apply stable_bind; [by apply stable_chain|]. intros c.
  apply stable_bind; [by apply stable_rules|]. intros rs. apply stable_ret.
Qed.

Lemma stable_subdir_docs e dir : stable version (subdir_docs l d e dir).
Proof. unfold subdir_docs. apply stable_bind; [case_decide; [apply stable_ret|by apply stable_subdir]|]. intros docs. apply stable_ret. Qed.

Lemma stable_subs e dirs : stable version (rd_concat (subdir_docs l d e) dirs).
Proof. apply stable_concat. intros. apply stable_subdir_docs. Qed.

Lemma stable_files_now e : stable version (files_now l d e).
Proof.
  unfold files_now. apply stable_bind; [apply stable_startup_now|]. intros docs.
  apply stable_bind; [apply stable_concat; intros; by apply stable_subdir|]. intros subs. apply stable_ret.
Qed.

Lemma ok_load e : ok e -> ok (load l d e).
Proof.
  intros He. destruct (su_loaded (xs_start e)) eqn:El; [by rewrite load_loaded|].
  pose proof (load_untold d e El) as H. cbv zeta in H. unfold untold in H. unfold ok.
  replace (xs_cache (load l d e)) with (startup_read l d (xs_cache e)).2 by congruence. by apply stable_startup_read.
Qed.

Lemma ok_touch_dir e dir : ok e -> ok (touch_dir l d e dir).
Proof.
  intros He. unfold touch_dir. case_decide; [done|]. pose proof (ok_read _ e (stable_subdir version d l Hd dir) He) as [_ H1].
  destruct (with_read (subdir d l dir) e) as [docs e1]. cbn [snd] in H1.
  match goal with |- context [say_of docs ?line ?x] => set (e2 := say_of docs line x) end.
  assert (H2 : ok e2) by (eapply ok_untold; [unfold e2; by rewrite untold_say_of, untold_tells|exact H1]). clearbody e2.
  destruct (pf_NestedRules prof); [done|]. pose proof (ok_read _ e2 (stable_nested version d l Hd dir) H2) as [_ H3].
  destruct (with_read (nestedRules d l dir) e2) as [rs e3]. cbn [snd] in H3.
  eapply ok_untold; [rewrite untold_say_of, untold_tell_rules; reflexivity|exact H3].
Qed.

Lemma ok_current e : ok e -> ok (current l d e).2.
Proof. intros He. by apply ok_read; [apply stable_current|]. Qed.

Lemma ok_match_rule path root e r : ok e -> ok (match_rule l path root e r).
Proof. intros He. unfold match_rule. by repeat case_match. Qed.

Lemma ok_call e path : ok e -> ok (touch_and_match l d e path).
Proof.
  intros He. unfold touch_and_match. assert (Hm : forall e, ok e -> ok (matchRules l d e path)).
  { intros e1 H1. unfold matchRules. pose proof (ok_current e1 H1) as H2. destruct (current l d e1) as [rs e2].
    apply (foldl_inv ok); [|done]. intros e3 r _. apply ok_match_rule. }
  case_decide; [|by apply Hm]. apply Hm. apply (foldl_inv ok); [|done]. intros e1 dir _. apply ok_touch_dir.
Qed.

Lemma ok_ruleBlock e : ok e -> ok (ruleBlock l d e).2.
Proof.
  intros He. unfold ruleBlock. pose proof (ok_current e He) as H1. destruct (current l d e) as [cur e1]. cbn [snd] in *.
  case_decide; [|done]. eapply ok_untold; [|exact H1]. unfold announceRuleChanges.
  match goal with |- context [foldl ?f ?a ?ls] => pose proof (untold_says ls a) as H2 end. rewrite <- H2. done.
Qed.

Lemma ok_announce e : ok e -> ok (announceChanges l d e).
Proof.
  intros He. unfold announceChanges. pose proof (ok_read _ e (stable_files_now e) He) as [_ H1].
  destruct (with_read (files_now l d e) e) as [now e1]. cbn [snd] in H1. eapply ok_untold; [|exact H1].
  match goal with |- context [foldl ?f ?a ?ls] => pose proof (untold_says ls a) as H2 end. rewrite <- H2. done.
Qed.

Lemma ok_block_parts e : ok e -> ok (block_parts l d e).2.
Proof.
  intros He. unfold block_parts.
  assert (H1 : ok (if decide (pf_Changes prof = ChangesNotice) then
      let '(now, e) := with_read (startup_now l d e) e in
      ((startup_changes (su_seenDocs (xs_start e)) now, startup_gone (su_seenDocs (xs_start e)) now), e) else (([], []), e)).2).
  { case_decide; [|done]. pose proof (ok_read _ e (stable_startup_now e) He) as [_ Hr]. by destruct (with_read _ e). }
  destruct (if decide _ then _ else _) as [[startup gone] e1]. cbn [snd] in H1.
  pose proof (ok_read _ e1 (stable_subs e1 (sub_dirs e1)) H1) as [_ H2]. destruct (with_read _ e1) as [subs e2]. cbn [snd] in H2.
  pose proof (ok_ruleBlock e2 H2) as H3. destruct (ruleBlock l d e2) as [[[rdocs listed] rgone] e3]. exact H3.
Qed.

Lemma ok_op o e : ok e -> ok (run_op l d o e).
Proof.
  intros He. destruct o as [|named|messages|input]; cbn [run_op].
  - apply ok_load in He. exact He.
  - unfold after_call. case_match; [done|]. destruct (call_paths l named) as [|path paths]; [done|].
    assert (H1 : ok (foldl (touch_and_match l d) (load l d e) (path :: paths))); [|exact H1].
    apply (foldl_inv ok); [|by apply ok_load]. intros e1 q _. apply ok_call.
  - unfold step_stage. case_match; [done|]. unfold block. pose proof (ok_block_parts _ (ok_load e He)) as H1.
    destruct (block_parts l d (load l d e)) as [[[docs listed] gone] e1]. cbn [snd] in H1.
    destruct (decide (pf_Changes prof = ChangesNotice)); [|exact H1]. exact (ok_announce _ H1).
  - unfold input_transform. case_match; [done|]. destruct (decide (mentions input = ∅)); [done|]. pose proof (ok_current _ (ok_load e He)) as H1.
    destruct (current l d (load l d e)) as [rs e1]. cbn [snd] in H1.
    assert (H2 : ok (foldl (mention_rule l (mentions input)) e1 rs)); [|exact H2].
    apply (foldl_inv ok); [|done]. intros e2 r _ H2. unfold mention_rule. by case_match.
Qed.
End Current.

Lemma run_ok version hist : Forall (fun s => honest version s.1) hist -> ok version (run_session l hist).
Proof.
  induction hist as [|[d o] hist IH] using rev_ind; intros H; [apply cache_ok_empty|].
  apply Forall_app in H as [H Hd%Forall_inv]. rewrite run_session_snoc. apply ok_op; [exact Hd|by apply IH].
Qed.

(** ** Prompt and block under [ChangesNotice] *)
Section Notice.
Context (version : string -> Z -> Z -> string) (d : disk) (Hd : honest version d).
Context (Hnotice : pf_Changes prof = ChangesNotice).

Lemma texts_lookup docs path text : path_texts docs !! path = Some text -> exists x, x ∈ docs /\ dc_path x = path /\ dc_text x = text.
Proof.
  unfold path_texts. induction docs as [|x docs IH] using rev_ind; [done|]. rewrite foldl_snoc. intros [[<- <-]|[_ H]]%lookup_insert_Some.
  - exists x. set_solver.
  - apply IH in H as (y & Hy & ?). exists y. set_solver.
Qed.

Lemma texts_none docs path : path_texts docs !! path = None -> path ∉ map dc_path docs.
Proof.
  unfold path_texts. induction docs as [|x docs IH] using rev_ind; [intros _; apply not_elem_of_nil|]. rewrite foldl_snoc, map_app.
  intros [H Hne]%lookup_insert_None. apply IH in H. cbn. set_solver.
Qed.

(** A current file either has the text of the prompt or is among the changes. *)
Lemma changes_cover seen now x : x ∈ now ->
  (exists y, y ∈ seen /\ dc_path y = dc_path x /\ dc_text y = dc_text x)
  \/ exists label, with_label label x ∈ startup_changes seen now.
Proof.
  intros Hx. assert (Hin : forall y, y ∈ startup_change (path_texts seen) x -> y ∈ startup_changes seen now).
  { intros y Hy. unfold startup_changes. apply list_elem_of_In, in_concat. exists (startup_change (path_texts seen) x).
    split; apply list_elem_of_In; [apply list_elem_of_fmap; eauto|done]. }
  unfold startup_change in Hin. destruct (path_texts seen !! dc_path x) as [old|] eqn:Eo; [|right; eexists; apply Hin; by left].
  destruct (String.eqb_spec old (dc_text x)) as [->|]; [|right; eexists; apply Hin; by left].
  left. apply texts_lookup in Eo as (y & ? & ? & ?). eauto.
Qed.

Lemma gone_cover seen now y : y ∈ seen -> dc_path y ∉ map dc_path now -> dc_path y ∈ startup_gone seen now.
Proof.
  intros Hy Hn. apply list_elem_of_In, filter_In. split; [apply list_elem_of_In, list_elem_of_fmap; eauto|].
  apply negb_true_iff. by apply bool_decide_eq_false.
Qed.

Lemma rd_concat_snoc {A} (f : A -> rd (list doc)) dirs a c :
  rd_concat f (dirs ++ [a]) c = let '(out, c1) := rd_concat f dirs c in let '(docs, c2) := f a c1 in (out ++ docs, c2).
Proof. unfold rd_concat. by rewrite foldl_snoc. Qed.

Lemma concat_value {A} (f : A -> rd (list doc)) dirs : (forall a, stable version (f a)) ->
  (rd_concat f dirs ∅).1 = concat (map (fun a => (f a ∅).1) dirs).
Proof.
  intros Hf. induction dirs as [|a dirs IH] using rev_ind; [done|]. rewrite rd_concat_snoc, map_app, concat_app.
  pose proof (stable_concat version f dirs Hf ∅ (cache_ok_empty version)) as [_ Hc].
  destruct (rd_concat f dirs ∅) as [out c]. cbn [fst snd] in *. subst out. destruct (Hf a c Hc) as [Hv _].
  destruct (f a c) as [docs c']. cbn [fst map concat] in *. by rewrite <- Hv, app_nil_r.
Qed.

Lemma block_covers e : ok version e ->
  let now := (startup_now l d e ∅).1 in
  let '(docs, listed, gone, e') := block_parts l d e in
  (forall x, x ∈ startup_changes (su_seenDocs (xs_start e)) now -> x ∈ docs)
  /\ (forall dir x, dir ∈ sc_subdirs (xs_dirs e) -> x ∈ (subdir d l dir ∅).1 -> exists label, with_label label x ∈ docs)
  /\ (forall path, path ∈ startup_gone (su_seenDocs (xs_start e)) now -> path ∈ gone).
Proof.
  intros He. cbv zeta. unfold block_parts. rewrite decide_True by done.
  pose proof (ok_read version _ e (stable_startup_now version d Hd e) He) as [Hv H1].
  pose proof (with_read_eq (startup_now l d e) e) as Hwr. destruct (with_read (startup_now l d e) e) as [now e1]. cbn [fst snd] in *. subst now.
  assert (Hds : xs_dirs e1 = xs_dirs e) by (by injection Hwr as _ ->).
  pose proof (ok_read version _ e1 (stable_subs version d Hd e1 (sub_dirs e1)) H1) as [Hsv _].
  destruct (with_read (rd_concat (subdir_docs l d e1) (sub_dirs e1)) e1) as [subs e2]. cbn [fst] in Hsv. subst subs.
  destruct (ruleBlock l d e2) as [[[rdocs listed] rgone] e3]. split_and!; [set_solver| |set_solver].
  intros dir x Hdir Hx. rewrite concat_value by (intros; by apply stable_subdir_docs).
  eexists. apply elem_of_app. right. apply elem_of_app. left. apply list_elem_of_In, in_concat. exists (subdir_docs l d e1 dir ∅).1.
  split; apply list_elem_of_In.
  - apply list_elem_of_fmap. exists dir. split; [done|]. unfold sub_dirs. rewrite sort_strings_perm, Hds. by apply elem_of_elements.
  - unfold subdir_docs, rd_bind. rewrite decide_False by (rewrite Hnotice; done).
    destruct (subdir d l dir ∅) as [docs c]. cbn in *. apply list_elem_of_fmap. exists x. split; [|done].
    instantiate (1 := if String.eqb (dc_label x) "" then "applies within " +:+ dir else dc_label x).
    destruct (String.eqb (dc_label x) ""); [done|by destruct x].
Qed.

Lemma block_text_body max docs listed gone :
  docs <> [] \/ gone <> [] -> occurs (render docs max gone).1.1 (block_text max docs listed gone).
Proof.
  intros Hne. unfold block_text.
  assert (occurs (render docs max gone).1.1 (blockHeader +:+ newline +:+ newline +:+
      (if String.eqb listed "" then (render docs max gone).1.1
       else (if String.eqb (render docs max gone).1.1 "" then (render docs max gone).1.1 else (render docs max gone).1.1 +:+ newline +:+ newline) +:+ listed))) as H.
  { do 3 apply occurs_r. destruct (String.eqb listed ""); [apply occurs_refl|]. apply occurs_l.
    case_match; [apply occurs_refl|apply occurs_l, occurs_refl]. }
  destruct docs as [|x docs]; [destruct gone as [|g gone]; [by destruct Hne|]|]; exact H.
Qed.

(** The prompt contains what was rendered into it. *)
Lemma prompt_body body described : body <> "" -> occurs body (prompt_text body described).
Proof.
  intros Hb. unfold prompt_text.
  set (full := match described with [] => body | _ => _ end).
  assert (occurs body full) as Ho.
  { unfold full. destruct described; [apply occurs_refl|]. apply occurs_l. case_match; [apply occurs_refl|apply occurs_l, occurs_refl]. }
  destruct (String.eqb_spec full "") as [E|_]; [|by do 3 apply occurs_r].
  rewrite E in Ho. destruct Ho as (a & b & Hab). symmetry in Hab. apply app_eq_nil_str in Hab as [_ Hab]. by apply app_eq_nil_str in Hab as [? _].
Qed.

(** The documents of the prompt: the instruction files and the rules that
    always apply. *)
Definition prompt_docs (st : startup) : list doc :=
  su_seenDocs st ++ map (fun r => rule_doc r (alwaysLabel r)) (of_kind ruleAlways (su_startRules st)).

Definition prompt_limit : Z := Z.max (pf_MaxBytes prof) 0.

Lemma presented_some max x t : presented max x t -> t <> "".
Proof.
  assert (forall s, s <> "" -> occurs s t -> t <> "") as H.
  { intros s Hs (a & b & ->) E. apply app_eq_nil_str in E as [_ E]. by apply app_eq_nil_str in E as [? _]. }
  intros [(s & _ & Ho)|(sk & line & _ & Hl & Ho)]; (eapply H; [|exact Ho]); [done|]. destruct sk; [done|]. by injection Hl as <-.
Qed.

Lemma prompt_shows docs rs dirs x : x ∈ docs ->
  in_view prompt_limit (prompt_docs (startup_of docs rs dirs)) x (su_prompt (startup_of docs rs dirs)).
Proof.
  intros Hx. unfold startup_of, prompt_docs. cbn [su_prompt su_seenDocs su_startRules]. fold prompt_limit.
  pose proof (render_shows prompt_limit (docs ++ map (fun r => rule_doc r (alwaysLabel r)) (of_kind ruleAlways rs)) [] x) as H.
  specialize (H ltac:(set_solver)). eapply in_view_occurs; [|exact H]. apply prompt_body. destruct H as [H _]. by eapply presented_some.
Qed.

(** A document is in view where one with its path and text is. *)
Lemma in_view_relabel max docs x y t : dc_path y = dc_path x -> dc_text y = dc_text x ->
  in_view max docs y t -> in_view max docs (with_label (dc_label y) x) t.
Proof.
  intros H1 H2 Hv. replace (with_label (dc_label y) x) with y; [done|]. destruct x, y. cbn in *. by subst.
Qed.

Lemma block_limit_parts e : su_loaded (xs_start e) = true -> block_limit l (block_parts l d e).2 = block_limit l e.
Proof.
  intros Hl. destruct (progress_block_parts (fun _ => True) (fun _ => True) d e) as [Hp _]. unfold block_limit.
  destruct Hp as [->|[Hp _]]; [done|congruence].
Qed.

(** C17: Under change notices, with files whose size and time tell their
    content: whatever happened before, every instruction file that applies now,
    a startup file or one of a directory scanned, is in view with the text it
    has now, in the system prompt or in the block shown before a model call,
    and every file of the prompt that no longer applies is named in the block
    as gone.  In view means: in full, always when there is no limit and when
    the files of that prompt or block are within what is left of the limit for
    it; else in full, or cut before the start of a character, or named as left
    out for the limit. *)
Theorem view_is_current hist : Forall (fun s => honest version s.1) hist ->
  let e := load l d (run_session l hist) in
  let prompt := su_prompt (xs_start e) in
  let text := (block l d e).1 in
  let block_docs := (block_parts l d e).1.1.1 in
  let now := (startup_now l d e ∅).1 in
  (forall x, x ∈ now -> exists label,
     in_view prompt_limit (prompt_docs (xs_start e)) (with_label label x) prompt
     \/ in_view (block_limit l e) block_docs (with_label label x) text)
  /\ (forall dir x, dir ∈ sc_subdirs (xs_dirs e) -> x ∈ (subdir d l dir ∅).1 -> exists label,
     in_view (block_limit l e) block_docs (with_label label x) text)
  /\ (forall y, y ∈ su_seenDocs (xs_start e) -> dc_path y ∉ map dc_path now -> occurs (gone_text (dc_path y)) text).
Proof.
  intros Hh. cbv zeta. set (e := load l d (run_session l hist)).
  assert (He : ok version e) by (apply (ok_load version d Hd), run_ok, Hh).
  destruct (run_loaded d hist) as (docs & rs & dirs & Hs). fold e in Hs.
  pose proof (block_covers e He) as Hc. cbv zeta in Hc. pose proof (block_limit_parts e ltac:(by rewrite Hs)) as Hlim. unfold block.
  destruct (block_parts l d e) as [[[bdocs listed] gone] e1]. cbn [fst snd] in *. rewrite Hlim. destruct Hc as (H1 & H2 & H3).
  assert (Hd1 : forall x, x ∈ bdocs -> in_view (block_limit l e) bdocs x (block_text (block_limit l e) bdocs listed gone)).
  { intros x Hx. eapply in_view_occurs; [|by apply render_shows]. apply block_text_body. left. by destruct bdocs; [apply not_elem_of_nil in Hx|]. }
  split_and!.
  - intros x Hx. destruct (changes_cover (su_seenDocs (xs_start e)) _ x Hx) as [(y & Hy & Hp & Ht)|[label Hx']].
    + exists (dc_label y). left. apply in_view_relabel; [done..|]. rewrite Hs. apply prompt_shows. by rewrite Hs in Hy.
    + exists label. right. by apply Hd1, H1.
  - intros dir x Hdir Hx. destruct (H2 dir x Hdir Hx) as [label Hl]. exists label. by apply Hd1.
  - intros y Hy Hn. assert (Hg : dc_path y ∈ gone) by (apply H3; by apply gone_cover).
    eapply occurs_trans; [by apply (render_gone (block_limit l e) bdocs)|]. apply block_text_body. right. by destruct gone; [apply not_elem_of_nil in Hg|].
Qed.

End Notice.

(** ** What the user is told *)
Section Told.
Context (version : string -> Z -> Z -> string) (d : disk) (Hd : honest version d).
Context (Hnotice : pf_Changes prof = ChangesNotice).

Lemma told_next_now {A} (told now : gmap string A) : told_next told now = now.
Proof.
  apply map_eq. intros p. unfold told_next. destruct (now !! p) as [a|] eqn:E.
  - apply map_lookup_filter_Some. split; [by apply lookup_union_Some_l|]. cbn. by rewrite E.
  - apply map_lookup_filter_None. right. intros a _ [b Hb]. cbn in Hb. congruence.
Qed.

Lemma says_pending lines e :
  td_pending (xs_told (foldl (fun e line => say line e) e lines)) = td_pending (xs_told e) ++ lines
  /\ td_files (xs_told (foldl (fun e line => say line e) e lines)) = td_files (xs_told e).
Proof.
  revert e. induction lines as [|line lines IH]; intros e; [by rewrite app_nil_r|]. cbn [foldl].
  destruct (IH (say line e)) as [-> ->]. cbn. by rewrite <- app_assoc.
Qed.

Lemma change_line (same : string -> string -> bool) subject gone_word told now path :
  (forall a b, same a b = true -> a = b) -> now !! path <> told !! path ->
  exists line, line ∈ change_lines l same subject gone_word told now /\ occurs (rel l path) line.
Proof.
  intros Hsame Hne.
  assert (Hline : forall what paths, path ∈ paths -> exists line, Some line = match paths with [] => None
      | _ => Some (subject +:+ " " +:+ what +:+ " during this session: " +:+ str_join ", " (sort_strings (map (rel l) paths)) +:+ ".") end
      /\ occurs (rel l path) line).
  { intros what paths Hp. destruct paths as [|q paths]; [by apply not_elem_of_nil in Hp|]. eexists. split; [reflexivity|].
    do 4 apply occurs_r. apply occurs_l, occurs_join. rewrite sort_strings_perm. apply list_elem_of_fmap. eauto. }
  assert (Hin : forall what paths, path ∈ paths ->
    (what, paths) ∈ [("changed", changed_keys same told now); ("added", added_keys told now); (gone_word, gone_keys told now)] ->
    exists line, line ∈ change_lines l same subject gone_word told now /\ occurs (rel l path) line).
  { intros what paths Hp Hw. destruct (Hline what paths Hp) as (line & Hl & Ho). exists line. split; [|done].
    unfold change_lines. apply list_elem_of_omap. exists (what, paths). split; [done|]. by rewrite Hl. }
  destruct (now !! path) as [a|] eqn:En, (told !! path) as [b|] eqn:Et; [| | |done].
  - apply (Hin "changed" (changed_keys same told now)); [|set_solver]. apply list_elem_of_In, filter_In.
    split; [apply list_elem_of_In, elem_of_elements, elem_of_dom; eauto|]. rewrite En, Et.
    destruct (same b a) eqn:Es; [|done]. apply Hsame in Es. congruence.
  - apply (Hin "added" (added_keys told now)); [|set_solver]. apply elem_of_elements, elem_of_difference.
    split; [apply elem_of_dom; eauto|]. by apply not_elem_of_dom.
  - apply (Hin gone_word (gone_keys told now)); [|set_solver]. apply elem_of_elements, elem_of_difference.
    split; [apply elem_of_dom; eauto|]. by apply not_elem_of_dom.
Qed.

Lemma announce_rules_files now e : td_files (xs_told (announceRuleChanges l now e)) = td_files (xs_told e).
Proof. unfold announceRuleChanges. cbv zeta. cbn [xs_told set_told td_files]. by destruct (says_pending (change_lines l rule_same "Rules" "deleted" (td_rules (xs_told e)) now) e) as [_ ->]. Qed.

Lemma ruleBlock_files e : td_files (xs_told (ruleBlock l d e).2) = td_files (xs_told e).
Proof.
  unfold ruleBlock, current. rewrite with_read_eq. cbn [snd]. case_decide; [|done]. by rewrite announce_rules_files.
Qed.

Lemma block_parts_files e : td_files (xs_told (block_parts l d e).2) = td_files (xs_told e)
  /\ xs_start (block_parts l d e).2 = xs_start e /\ xs_dirs (block_parts l d e).2 = xs_dirs e.
Proof.
  unfold block_parts. rewrite decide_True by done. rewrite with_read_eq. cbn [fst snd]. rewrite with_read_eq. cbn [fst snd].
  match goal with |- context [ruleBlock l d ?x] => set (e1 := x) end.
  pose proof (ruleBlock_files e1) as H1. assert (H2 : exists c, untold (ruleBlock l d e1).2 = untold (set_cache c e1)).
  { unfold ruleBlock, current. rewrite with_read_eq. cbn [snd]. rewrite decide_True by done. unfold announceRuleChanges.
    match goal with |- context [foldl ?f ?a ?ls] => pose proof (untold_says ls a) as H2 end. eexists. rewrite <- H2. done. }
  destruct H2 as [c H2%untold_proj]. destruct (ruleBlock l d e1) as [[[? ?] ?] e2]. cbn [snd] in *. destruct H2 as (-> & -> & _). by rewrite H1.
Qed.

(** Under change notices, a block compares every instruction file in
    sight with what the user was last told: a line names each that was added,
    changed or went, and afterwards the user has been told exactly what the
    files say now. *)
Theorem user_is_told hist : Forall (fun s => honest version s.1) hist ->
  let e := load l d (run_session l hist) in
  let e' := (block l d e).2 in
  let now := (files_now l d e ∅).1 in
  td_files (xs_told e') = now
  /\ forall path, now !! path <> td_files (xs_told e) !! path -> exists line, line ∈ td_pending (xs_told e') /\ occurs (rel l path) line.
Proof.
  intros Hh. cbv zeta. set (e := load l d (run_session l hist)).
  assert (He : ok version e) by (apply (ok_load version d Hd), run_ok, Hh).
  unfold block. destruct (block_parts_files e) as (Hf & Hs & Hds). pose proof (ok_block_parts version d Hd e He) as H1.
  destruct (block_parts l d e) as [[[bdocs listed] gone] e1]. cbn [snd] in *. rewrite decide_True by done.
  assert (Hnow : files_now l d e1 = files_now l d e) by (unfold files_now, startup_now, sub_dirs; by rewrite Hs, Hds).
  destruct (ok_read version _ e1 (stable_files_now version d Hd e1) H1) as [Hv _]. rewrite Hnow in Hv.
  unfold announceChanges. rewrite Hnow, with_read_eq in *. cbn [fst snd] in *. rewrite Hv.
  set (lines := change_lines l String.eqb _ _ _ _).
  destruct (says_pending lines (set_cache (files_now l d e (xs_cache e1)).2 e1)) as [Hp _]. cbn [xs_told set_told td_files td_pending]. rewrite told_next_now. split; [done|].
  intros path Hne. rewrite <- Hf in Hne. rewrite Hp.
  destruct (change_line String.eqb "Instruction files" "replaced or deleted" (td_files (xs_told e1)) (files_now l d e ∅).1 path) as (line & Hl & Ho).
  - intros a b. by rewrite String.eqb_eq.
  - done.
  - exists line. split; [|done]. apply elem_of_app. by right.
Qed.
End Told.

(** ** Directories a call names *)
Definition clean_abs (path : string) : Prop := is_abs path = true /\ Clean path = path.

Lemma clean_abs_path path : clean_abs path -> path = path_of true (clean_elems path).
Proof. intros [Ha Hc]. rewrite <- Hc at 1. unfold Clean. by rewrite Ha. Qed.

Lemma join_elem es part : Forall normal es -> normal part -> Join (path_of true es) part = path_of true (es ++ [part]).
Proof.
  intros He Hp. unfold Join, Clean. change part with (path_of false [part]) at 1 2.
  assert (Ha : is_abs (path_of true es) = true) by done. rewrite (join_abs _ _ Ha). rewrite clean_elems_join by (done || by constructor).
  by rewrite clean_elems_path.
Qed.

Lemma dirs_down_spec es parts : Forall normal es -> Forall normal parts ->
  dirs_down (path_of true es) parts = map (fun i => path_of true (es ++ take i parts)) (seq 1 (length parts)).
Proof.
  intros He Hp. revert es He. induction Hp as [|part parts Hpart Hparts IH]; intros es He; [done|]. cbn [dirs_down length seq map take].
  rewrite join_elem by done. rewrite take_0. f_equal. rewrite IH by (apply Forall_app; split; [done|by constructor]).
  rewrite <- (seq_shift (length parts) 1), map_map. apply map_ext. intros i. cbn [take]. by rewrite <- app_assoc.
Qed.

Lemma below_root root dir : clean_abs root -> clean_abs dir -> has_prefix (root +:+ slash) dir = true ->
  exists parts, clean_elems dir = clean_elems root ++ parts.
Proof.
  intros Hr Hd Hp. assert (Hns := Hd). apply has_prefix_spec in Hp as [t Ht]. rewrite app_assoc_str in Ht.
  assert (Hsd : split_slash dir = split_slash root ++ split_slash t) by (by rewrite Ht, split_slash_app).
  assert (Hsplit : forall p, clean_abs p -> split_slash p = "" :: match clean_elems p with [] => [""] | es => es end).
  { intros p Hq. rewrite (clean_abs_path p Hq) at 1. cbn [path_of]. change (slash +:+ ?x) with ("" +:+ slash +:+ x). rewrite split_slash_app.
    cbn [split_slash app]. f_equal. pose proof (clean_elems_abs p (proj1 Hq)) as Hn. destruct (clean_elems p) as [|e es]; [done|].
    rewrite split_join_slash; [done|done|by apply normals_no_slash]. }
  rewrite (Hsplit dir Hd), (Hsplit root Hr) in Hsd. cbn [app] in Hsd. injection Hsd as Hsd.
  pose proof (clean_elems_abs dir (proj1 Hd)) as Hn. destruct (clean_elems root) as [|r rs] eqn:Er.
  - by exists (clean_elems dir).
  - destruct (clean_elems dir) as [|e es]; [|exists (split_slash t); exact Hsd].
    exfalso. pose proof (clean_elems_abs root (proj1 Hr)) as Hnr. cbn in Hsd. injection Hsd as Hre _.
    rewrite Er in Hnr. apply Forall_inv in Hnr as [? _]. congruence.
Qed.

Context (Hroots : Forall clean_abs (ld_roots l)).

Lemma rootOf_spec path : inRoots l path = true ->
  rootOf l path ∈ ld_roots l /\ (path = rootOf l path \/ has_prefix (rootOf l path +:+ slash) path = true).
Proof.
  unfold inRoots, rootOf. destruct (List.find _ _) as [r|] eqn:E; [|done]. cbn. intros _. apply find_some in E as [Hin H].
  split; [by apply list_elem_of_In|]. apply orb_true_iff in H as [->%String.eqb_eq|]; auto.
Qed.

Lemma touched_dirs_spec d path : let dir := touched_dir d path in clean_abs dir -> inRoots l dir = true ->
  touched_dirs l d path = map (ancestor dir) (seq (S (length (clean_elems (rootOf l dir)))) (length (clean_elems dir) - length (clean_elems (rootOf l dir))))
  /\ exists down, clean_elems dir = clean_elems (rootOf l dir) ++ down.
Proof.
  cbv zeta. unfold touched_dirs. set (dir := touched_dir d path). intros Hd Hin. destruct (rootOf_spec dir Hin) as [Hr Hbelow].
  assert (Hc : clean_abs (rootOf l dir)) by (rewrite Forall_forall in Hroots; by apply Hroots).
  unfold inRoots in Hin. apply negb_true_iff in Hin. rewrite Hin. cbn [orb].
  destruct (String.eqb_spec dir (rootOf l dir)) as [He|Hne].
  { rewrite <- He, Nat.sub_diag. split; [done|]. exists []. by rewrite app_nil_r. }
  destruct Hbelow as [|Hp]; [done|]. destruct (below_root _ _ Hc Hd Hp) as [parts Hparts]. split; [|eauto].
  assert (Hn : Forall normal parts) by (pose proof (clean_elems_abs dir (proj1 Hd)) as H; rewrite Hparts in H; by apply Forall_app in H as [_ H]).
  unfold Rel. rewrite Hparts, strip_common_prefix. cbn [map app]. rewrite path_of_split by done.
  assert (parts <> []) as Hne'.
  { intros ->. apply Hne. rewrite (clean_abs_path dir Hd), (clean_abs_path (rootOf l dir) Hc) at 1. by rewrite Hparts, app_nil_r. }
  replace (match parts with [] => ["."] | _ => parts end) with parts by (by destruct parts).
  rewrite (clean_abs_path (rootOf l dir) Hc) at 1. rewrite dirs_down_spec by (done || apply clean_elems_abs, Hc).
  rewrite length_app. replace (length (clean_elems (rootOf l dir)) + length parts - length (clean_elems (rootOf l dir))) with (length parts) by lia.
  replace (S (length (clean_elems (rootOf l dir)))) with (length (clean_elems (rootOf l dir)) + 1) by lia.
  rewrite <- (fmap_add_seq (length (clean_elems (rootOf l dir))) 1). change (fmap ?f ?xs) with (map f xs). rewrite map_map. apply map_ext. intros i.
  unfold ancestor. rewrite Hparts, take_app_add. done.
Qed.


Lemma match_dirs d e path : xs_dirs (matchRules l d e path) = xs_dirs e.
Proof.
  unfold matchRules, current. rewrite with_read_eq.
  apply (foldl_inv (fun e' => xs_dirs e' = xs_dirs e)); [|done]. intros e' r _ <-. unfold match_rule. by repeat case_match.
Qed.

(** After a tool call that names a path, the instruction files of every
    directory between its workspace root and the path have been looked for;
    and no directory is ever scanned that is not such a directory of a call. *)
Theorem scanned_exactly_the_way_down hist d named path :
  pf_Subdirs prof = SubdirsLazy -> path ∈ call_paths l named ->
  clean_abs (touched_dir d path) -> inRoots l (touched_dir d path) = true ->
  let dir := touched_dir d path in
  let e := run_session l (hist ++ [(d, OpCall named)]) in
  (forall i, length (clean_elems (rootOf l dir)) < i <= length (clean_elems dir) -> ancestor dir i ∈ sc_subdirs (xs_dirs e))
  /\ (forall s, s ∈ sc_subdirs (xs_dirs e) -> exists d' o, (d', o) ∈ hist ++ [(d, OpCall named)] /\ named_dir d' o s).
Proof.
  intros Hlazy Hp Hd Hin. cbv zeta. split; [|apply run_hits]. intros i Hi.
  destruct (touched_dirs_spec d path Hd Hin) as [Ht _].
  assert (Ha : ancestor (touched_dir d path) i ∈ touched_dirs l d path).
  { rewrite Ht. apply list_elem_of_fmap. exists i. split; [done|]. apply elem_of_seq. lia. }
  rewrite run_session_snoc. cbn [run_op]. unfold after_call. rewrite Hlazy. cbn [negb andb]. rewrite bool_decide_true by done. cbn [negb andb].
  destruct (call_paths l named) as [|q qs] eqn:Eq; [by apply not_elem_of_nil in Hp|]. rewrite <- Eq in *. clear Eq q qs.
  unfold unlock. cbn [snd xs_dirs set_told]. generalize (load l d (run_session l hist)) as e0. intros e0.
  assert (Hmono : forall paths e, sc_subdirs (xs_dirs e) ⊆ sc_subdirs (xs_dirs (foldl (touch_and_match l d) e paths))).
  { intros paths e. apply (foldl_inv (fun e' => sc_subdirs (xs_dirs e) ⊆ sc_subdirs (xs_dirs e'))); [|done]. intros e1 b _ H1.
    etransitivity; [exact H1|]. unfold touch_and_match.
    rewrite match_dirs. destruct (decide _); [|done]. destruct (touch_untold d e1 b) as (_ & _ & _ & ->). set_solver. }
  revert e0 Hp. induction (call_paths l named) as [|q qs IH]; intros e0 Hp; [by apply not_elem_of_nil in Hp|].
  cbn [foldl]. apply elem_of_cons in Hp as [<-|Hp]; [|by apply IH]. apply Hmono. unfold touch_and_match. rewrite decide_True by done.
  rewrite match_dirs. destruct (touch_untold d e0 path) as (_ & _ & _ & ->). apply elem_of_union_l. by apply elem_of_list_to_set.
Qed.
End Props.
