(* ===== verification/InstructionDemo.v ===== *)
(** * A session of the instruction loader on concrete disks

    The theorems of InstructionProps.v at a workspace whose files change, and
    inputs on which the loader does not do what its comments say. *)

From S2P Require Import Prelude GoStr Errors Paths Rules Provider Instructions InstructionSession InstructionProps.
Local Open Scope nat_scope.

(** ** Disks *)

(** A file: its path, its time and its text. *)
Abbreviation file_at := (string * Z * string)%type.

Definition find_file (fs : list file_at) (path : string) : option file_at := List.find (fun '(p, _, _) => String.eqb p path) fs.

Definition disk_of (fs : list file_at) : disk := {|
  dk_Stat := fun path => match find_file fs path with
    | Some (_, m, t) => Some {| fi_IsDir := false; fi_Size := Z.of_nat (String.length t); fi_ModTime := m |}
    | None => None end;
  dk_ReadFile := fun path => match find_file fs path with Some (_, _, t) => Some t | None => None end;
  dk_Lstat := fun path => bool_decide (is_Some (find_file fs path));
  dk_EvalSymlinks := fun path => if existsb (fun '(p, _, _) => String.eqb p path || has_prefix (path +:+ slash) p) fs then Some path else None;
  dk_WalkDir := fun path => List.filter (fun p => String.eqb p path || has_prefix (path +:+ slash) p) (map (fun f => f.1.1) fs)
|}.

Definition version_in (table : list file_at) (path : string) (_ m : Z) : string :=
  match List.find (fun '(p, m', _) => String.eqb p path && Z.eqb m' m) table with Some (_, _, t) => t | None => "" end.

Lemma disk_honest table fs : forallb (fun '(p, m, t) => String.eqb (version_in table p 0 m) t) fs = true -> honest (version_in table) (disk_of fs).
Proof.
  intros H path fi. cbn [dk_Stat dk_ReadFile disk_of]. destruct (find_file fs path) as [[[p m] t]|] eqn:E; [|done]. intros [= <-] _. cbn.
  unfold find_file in E. apply find_some in E as [Hin Hp%String.eqb_eq]. subst p.
  rewrite forallb_forall in H. apply H in Hin. apply String.eqb_eq in Hin. f_equal. rewrite <- Hin. done.
Qed.

Definition go_rule (m : Z) (body : string) : file_at :=
  ("/w/r/.cursor/rules/go.mdc", m, render_rule {| rm_always := false; rm_description := ""; rm_globs := ["*.go"] |} body).

Definition before : list file_at :=
  [("/w/r/.git", 1%Z, "-"); ("/w/r/AGENTS.md", 1%Z, "Use tabs."); ("/w/r/web/AGENTS.md", 1%Z, "No jQuery."); go_rule 1 "Run gofmt."].

Definition after : list file_at :=
  [("/w/r/.git", 1%Z, "-"); ("/w/r/AGENTS.override.md", 2%Z, "Use spaces."); ("/w/r/web/AGENTS.md", 3%Z, "React only."); go_rule 1 "Run gofmt."].

Definition demo_profile : Profile :=
  {| pf_Names := ["AGENTS.md"]; pf_Override := "AGENTS.override.md"; pf_Local := ""; pf_Fallback := []; pf_GlobalDir := "";
     pf_Walk := WalkMarker; pf_Markers := [".git"]; pf_PrimaryOnly := false; pf_Subdirs := SubdirsLazy; pf_Changes := ChangesNotice;
     pf_Imports := true; pf_StripComments := false; pf_Rules := [".cursor/rules"]; pf_GlobalRules := []; pf_NestedRules := [];
     pf_MaxBytes := 0 |}.

Definition demo_loader : loader := {| ld_p := demo_profile; ld_roots := ["/w/r"]; ld_home := "/h" |}.

Definition demo_hist : list (disk * op) :=
  [(disk_of before, OpPrompt); (disk_of before, OpCall ["web/main.go"]); (disk_of before, OpStep [])].

Example demo_hits : map rh_path (xs_hits (run_session demo_loader demo_hist)) = ["/w/r/.cursor/rules/go.mdc"].
Proof. vm_compute. reflexivity. Qed.

Lemma demo_honest : Forall (fun s => honest (version_in (before ++ after)) s.1) demo_hist.
Proof. repeat constructor; apply disk_honest; vm_compute; reflexivity. Qed.

(** The preset that gives change notices, which has a limit. *)
Definition notice_loader : loader :=
  {| ld_p := match Preset "chakra" with inr p => p | inl _ => demo_profile end; ld_roots := ["/w/r"]; ld_home := "/h" |}.

(** The override replaces a file of the prompt and the subdirectory's file
    changed: the block holds both, whole, and names what went. *)
Lemma view_is_current_witness :
  let e := load notice_loader (disk_of after) (run_session notice_loader demo_hist) in
  let text := (block notice_loader (disk_of after) e).1 in
  (exists label, occurs (full_section {| dc_path := "/w/r/web/AGENTS.md"; dc_text := "React only."; dc_label := label |}) text)
  /\ occurs (gone_text "/w/r/AGENTS.md") text.
Proof.
  pose proof (view_is_current notice_loader (version_in (before ++ after)) (disk_of after)
    ltac:(apply disk_honest; vm_compute; reflexivity) eq_refl demo_hist demo_honest) as (_ & Hsub & Hgone).
  cbv zeta. split.
  - destruct (Hsub "/w/r/web" {| dc_path := "/w/r/web/AGENTS.md"; dc_text := "React only."; dc_label := "" |}) as [label [_ H]].
    + apply (bool_decide_unpack _). vm_compute. exact I.
    + replace ((subdir (disk_of after) notice_loader "/w/r/web" ∅).1)
        with [{| dc_path := "/w/r/web/AGENTS.md"; dc_text := "React only."; dc_label := "" |}] by (vm_compute; reflexivity). by left.
    + exists label. apply H. right. vm_compute. reflexivity.
  - apply (Hgone {| dc_path := "/w/r/AGENTS.md"; dc_text := "Use tabs."; dc_label := "" |}).
    + match goal with |- _ ∈ ?l => replace l with [{| dc_path := "/w/r/AGENTS.md"; dc_text := "Use tabs."; dc_label := "" |}] by (vm_compute; reflexivity) end. by left.
    + match goal with |- _ ∉ map _ ?l => replace l with [{| dc_path := "/w/r/AGENTS.override.md"; dc_text := "Use spaces."; dc_label := "" |}]
        by (vm_compute; reflexivity) end. cbn. intros H%list_elem_of_singleton. discriminate H.
Defined.

Lemma user_is_told_witness :
  let e := load demo_loader (disk_of after) (run_session demo_loader demo_hist) in
  let e' := (block demo_loader (disk_of after) e).2 in
  td_files (xs_told e') !! "/w/r/AGENTS.md" = None
  /\ exists line, line ∈ td_pending (xs_told e') /\ occurs "AGENTS.override.md" line.
Proof.
  pose proof (user_is_told demo_loader (version_in (before ++ after)) (disk_of after)
    ltac:(apply disk_honest; vm_compute; reflexivity) eq_refl demo_hist demo_honest) as (Htold & Hline).
  cbv zeta in *. split.
  - rewrite Htold. vm_compute. reflexivity.
  - apply (Hline "/w/r/AGENTS.override.md"). vm_compute. discriminate.
Defined.

Lemma scanned_witness :
  ancestor "/w/r/web" 3 ∈ sc_subdirs (xs_dirs (run_session demo_loader ([] ++ [(disk_of before, OpCall ["web/main.go"])]))).
Proof.
  apply (proj1 (scanned_exactly_the_way_down demo_loader ltac:(by repeat constructor) [] (disk_of before) ["web/main.go"] "/w/r/web/main.go"
    eq_refl ltac:(vm_compute; by left) ltac:(by split) ltac:(vm_compute; reflexivity))).
  vm_compute. lia.
Defined.

(** ** What the loader does not do *)

Definition import_chain : list file_at :=
  [("/w/r/AGENTS.md", 1%Z, "@f1 @f4"); ("/w/r/f1", 1%Z, "@f2"); ("/w/r/f2", 1%Z, "@f3"); ("/w/r/f3", 1%Z, "@f4"); ("/w/r/f4", 1%Z, "@x");
   ("/w/r/x", 1%Z, "Two imports away.")].

(** The walk is depth first and reads a file once: a file first reached at the
    fourth hop brings in nothing, although the top file imports it too. *)
Lemma near_import_missed :
  map dc_path (expand (disk_of import_chain) demo_loader "/w/r/AGENTS.md" false ∅).1 = ["/w/r/AGENTS.md"; "/w/r/f1"; "/w/r/f2"; "/w/r/f3"; "/w/r/f4"]
  /\ imported demo_loader false (fun q raw => raw = current_text (disk_of import_chain) q) "/w/r/AGENTS.md" 2 "/w/r/x".
Proof.
  split; [vm_compute; reflexivity|].
  apply (ImportStep demo_loader false _ "/w/r/AGENTS.md" 1 "/w/r/f4" "@x" "x"); [|vm_compute; reflexivity|vm_compute; by left|split; [discriminate|by right]].
  apply (ImportStep demo_loader false _ "/w/r/AGENTS.md" 0 "/w/r/AGENTS.md" "@f1 @f4" "f4");
    [constructor|vm_compute; reflexivity|vm_compute; right; by left|split; [discriminate|by right]].
Qed.

Definition capped : loader :=
  {| ld_p := {| pf_Names := ["AGENTS.md"]; pf_Override := ""; pf_Local := ""; pf_Fallback := []; pf_GlobalDir := "";
                pf_Walk := WalkMarker; pf_Markers := [".git"]; pf_PrimaryOnly := false; pf_Subdirs := SubdirsLazy;
                pf_Changes := ChangesNotice; pf_Imports := false; pf_StripComments := false; pf_Rules := []; pf_GlobalRules := [];
                pf_NestedRules := []; pf_MaxBytes := 12 |};
     ld_roots := ["/w/r"]; ld_home := "" |}.

(** The note of a cut in the block gives what was left of the limit for the
    limit itself. *)
Lemma cut_note_misstates_limit :
  pf_MaxBytes (ld_p capped) = 12%Z
  /\ occurs "limited to 3 bytes in all" (block capped (disk_of before) (run_session capped demo_hist)).1.
Proof.
  split; [reflexivity|]. set (t := (block _ _ _).1).
  exists (str_take 220 t), (str_drop 245 t). subst t. vm_compute. reflexivity.
Qed.

(** A first character that does not fit leaves room for the start of a later
    file, which is to be named as skipped. *)
Lemma later_file_shown :
  (render [{| dc_path := "/a"; dc_text := byte_of 195 +:+ byte_of 169; dc_label := "" |};
           {| dc_path := "/b"; dc_text := "bcd"; dc_label := "" |}] 1 []).2 = []
  /\ (render [{| dc_path := "/a"; dc_text := byte_of 195 +:+ byte_of 169; dc_label := "" |};
              {| dc_path := "/b"; dc_text := "bcd"; dc_label := "" |}] 1 []).1.2 = 1.
Proof. split; vm_compute; reflexivity. Qed.

(** A workspace rooted at the filesystem root holds no path but itself. *)
Lemma slash_root_is_empty :
  inRoots {| ld_p := demo_profile; ld_roots := ["/"]; ld_home := "" |} "/etc/app" = false
  /\ clean_elems "/etc/app" = clean_elems "/" ++ ["etc"; "app"].
Proof. split; vm_compute; reflexivity. Qed.
