(* ===== verification/Http.v ===== *)
(** * Http

    src/retry.go and src/sse_stream.go: the requests to a model endpoint that
    are sent again after a transient failure, and the loop that turns the
    server-sent events of an answer into deltas.

    Floating point, HTTP dates and the network are parameters: a [numbers]
    record for strconv.ParseFloat and the conversion of a float to a
    Duration, functions of the world for the clock, the client and the timer.
    The reads of an event stream are a list of ticks, one per turn of the
    loop, so a list that ends stands for a read that has not returned. *)

From S2P Require Import Prelude GoStr Errors Provider.

Local Open Scope Z_scope.

(** ** What a request ends in *)

Definition Second : Z := 1000000000.
Definition Millisecond : Z := 1000000.

Definition maxSendAttempts : Z := 6.
Definition maxRetryWait : Z := 60 * Second.

(** [http.Response]: [hr_Get] is [Header.Get]; the body is the bytes read
    before the stream ends or breaks. *)
Record HTTPResponse := {
  hr_StatusCode : Z;
  hr_Get : string -> string;
  hr_Body : string;
}.

Record ProviderError := { pe_StatusCode : Z; pe_Body : string }.

Definition ProviderError_Error (e : ProviderError) : string :=
  "agent: provider returned HTTP " +:+ itoa (pe_StatusCode e) +:+ ": " +:+ pe_Body e.

(** An error of a send: a [*ProviderError] or any other. *)
Inductive send_error := SendFailed (e : error) | SendRefused (e : ProviderError).

Definition send_error_text (e : send_error) : string :=
  match e with SendFailed e => error_text e | SendRefused e => ProviderError_Error e end.

Definition retryable (status : Z) (body : string) : bool :=
  if status =? 429 then negb (str_contains body "insufficient_quota")
  else if (status =? 500) || (status =? 502) || (status =? 503) || (status =? 504) || (status =? 529) then true
  else false.

(** ** The wait a message names

    The regular expression [(?i)try again in ([0-9.]+)\s*(ms|s)\b].  Case
    folding of an [s] includes the long s, two bytes in UTF-8. *)

Definition fold_eq (a b : Ascii.ascii) : bool := Ascii.eqb (lower_ascii a) (lower_ascii b).

(** What is left of [s] after [p], up to ASCII case. *)
Fixpoint eat_fold (p s : string) : option string :=
  match p, s with
  | EmptyString, _ => Some s
  | String a p, String b s => if fold_eq a b then eat_fold p s else None
  | String _ _, EmptyString => None
  end.

Fixpoint eat_while (P : Ascii.ascii -> bool) (s : string) : string * string :=
  match s with
  | String c t => if P c then let '(a, r) := eat_while P t in (String c a, r) else ("", s)
  | EmptyString => ("", "")
  end.

Definition number_char (c : Ascii.ascii) : bool := is_dec_digit c || ceq c 46.
Definition regex_space (c : Ascii.ascii) : bool :=
  ceq c 9 || ceq c 10 || ceq c 12 || ceq c 13 || ceq c 32.
Definition word_char (c : Ascii.ascii) : bool :=
  is_dec_digit c || in_range 65 90 c || in_range 97 122 c || ceq c 95.

Definition long_s : string := byte_of 197 +:+ byte_of 191.

Definition starts_word (s : string) : bool :=
  match s with String c _ => word_char c | EmptyString => false end.

(** The unit: its length in nanoseconds, when a word boundary follows. *)
Definition eat_unit (s : string) : option Z :=
  match eat_fold "ms" s, eat_fold "s" s with
  | Some r, _ => if starts_word r then None else Some Millisecond
  | None, Some r => if starts_word r then None else Some Second
  | None, None =>
      match s with
      | String m t =>
          if fold_eq m (Ascii.ascii_of_nat 109) && has_prefix long_s t
          then if starts_word (str_drop 2 t) then Some Second else None
          else if has_prefix long_s s
               then if starts_word (str_drop 2 s) then Some Second else None
               else None
      | EmptyString => None
      end
  end.

Definition try_again_at (s : string) : option (string * Z) :=
  match eat_fold "try again in " s with
  | None => None
  | Some r =>
      let '(n, r) := eat_while number_char r in
      if String.eqb n "" then None
      else (fun u => (n, u)) <$> eat_unit (eat_while regex_space r).2
  end.

(** [tryAgainIn.FindStringSubmatch]: the leftmost match. *)
Fixpoint tryAgainIn (s : string) : option (string * Z) :=
  match try_again_at s with
  | Some m => Some m
  | None => match s with String _ t => tryAgainIn t | EmptyString => None end
  end.

(** strconv.ParseFloat; [f_pos] is [0 < x]; [f_dur x unit] is
    [time.Duration(x * float64(unit))]. *)
Record numbers (F : Type) := {
  f_parse : string -> option F;
  f_pos : F -> bool;
  f_dur : F -> Z -> Z;
}.
Arguments f_parse {F}. Arguments f_pos {F}. Arguments f_dur {F}.

Section Retry.
Context {F : Type} (nums : numbers F).

(** [until v]: [time.Until] of the date in [v], if [http.ParseTime] reads one. *)
Definition asked_wait (until : string -> option Z) (h : string -> string) (body : string) : Z :=
  let header :=
    let v := h "Retry-After" in
    if negb (String.eqb v "") then
      match f_parse nums v with
      | Some secs => f_dur nums secs Second
      | None => default 0 (until v)
      end
    else match tryAgainIn body with
         | Some (n, unit) => from_option (fun n => f_dur nums n unit) 0 (f_parse nums n)
         | None => 0
         end in
  match f_parse nums (h "retry-after-ms") with
  | Some ms => if f_pos nums ms then f_dur nums ms Millisecond else header
  | None => header
  end.

Definition retryWait (until : string -> option Z) (h : string -> string) (body : string) (attempt : Z) : Z :=
  let wait := asked_wait until h body in
  let wait := if wait <=? 0 then Z.shiftl Second (attempt - 1) else wait in
  if maxRetryWait <? wait then maxRetryWait else wait.

(** ** Sending *)

Context {W Req : Type}
  (clock : W -> string -> option Z)
  (newReq : W -> result Req * W)
  (client_Do : Req -> W -> result HTTPResponse * W)
  (retrySleep : Z -> W -> option error * W).

(** What a send does to the outside. *)
Inductive net_event := Sent (r : result HTTPResponse) | Waited (d : Z).

(** One call of [sendWithRetry] from attempt [attempt] on.  [None] is a loop
    that ran out of fuel. *)
Fixpoint send_from (fuel : nat) (attempt : Z) : eff W net_event (option (send_error + HTTPResponse)) :=
  match fuel with
  | O => eff_ret None
  | S fuel =>
      (let* req := eff_call newReq in
       match req with
       | inl err => eff_ret (Some (inl (SendFailed err)))
       | inr req =>
           let* resp := eff_call (client_Do req) in
           eff_emit (Sent resp) ;;;
           match resp with
           | inl err => eff_ret (Some (inl (SendFailed err)))
           | inr resp =>
               if (200 <=? hr_StatusCode resp) && (hr_StatusCode resp <? 300) then eff_ret (Some (inr resp))
               else
                 let perr := {| pe_StatusCode := hr_StatusCode resp; pe_Body := str_take 2048 (hr_Body resp) |} in
                 if (maxSendAttempts <=? attempt) || negb (retryable (hr_StatusCode resp) (pe_Body perr))
                 then eff_ret (Some (inl (SendRefused perr)))
                 else
                   let* until := eff_call (fun w => (clock w, w)) in
                   let d := retryWait until (hr_Get resp) (pe_Body perr) attempt in
                   let* err := eff_call (retrySleep d) in
                   eff_emit (Waited d) ;;;
                   match err with
                   | Some _ => eff_ret (Some (inl (SendRefused perr)))
                   | None => send_from fuel (attempt + 1)
                   end
           end
       end)%eff
  end.

Definition send_fuel : nat := 6.

Definition sendWithRetry : eff W net_event (option (send_error + HTTPResponse)) := send_from send_fuel 1.

End Retry.

(** ** The stream of events *)

(** Why [Recv] returned no delta. *)
Inductive recv_error := EOF | RecvErr (e : error).

(** One turn of the loop as it meets the outside: the context before the
    read, what the read returned, the context after a failed read. *)
Record tick := {
  tk_before : option error;
  tk_Data : string;
  tk_err : option recv_error;
  tk_after : option error;
}.

Section Stream.
(** The state a provider's [decode] keeps, and [decode] itself: deltas and
    whether the stream is over, or an error; and the state after. *)
Context {S : Type} (decode : S -> string -> result (list Delta * bool) * S).

Record sseStream := { ss_queue : list Delta; ss_done : bool; ss_dec : S }.

Definition is_eof (e : recv_error) : bool := match e with EOF => true | RecvErr _ => false end.

(** [Recv]: [None] while its read has not returned. *)
Fixpoint Recv (s : sseStream) (ticks : list tick) {struct ticks}
  : option ((recv_error + Delta) * sseStream * list tick) :=
  match ss_queue s with
  | d :: q => Some (inr d, {| ss_queue := q; ss_done := ss_done s; ss_dec := ss_dec s |}, ticks)
  | [] =>
      if ss_done s then Some (inl EOF, s, ticks)
      else match ticks with
           | [] => None
           | t :: ticks =>
               match tk_before t with
               | Some err => Some (inl (RecvErr err), s, ticks)
               | None =>
                   let read_on done :=
                     let payload := trim_space (tk_Data t) in
                     if String.eqb payload "" then
                       Recv {| ss_queue := []; ss_done := done; ss_dec := ss_dec s |} ticks
                     else
                       let '(r, dec) := decode (ss_dec s) payload in
                       match r with
                       | inl err => Some (inl (RecvErr err), {| ss_queue := []; ss_done := done; ss_dec := dec |}, ticks)
                       | inr (ds, over) => Recv {| ss_queue := ds; ss_done := done || over; ss_dec := dec |} ticks
                       end in
                   match tk_err t with
                   | Some e =>
                       match tk_after t with
                       | Some err => Some (inl (RecvErr err), s, ticks)
                       | None =>
                           if negb (is_eof e) || String.eqb (tk_Data t) "" then Some (inl e, s, ticks)
                           else read_on true
                       end
                   | None => read_on false
                   end
               end
           end
  end.

End Stream.
Arguments sseStream S : clear implicits.

(** * Properties *)

(** ** Sending *)

Definition is2xx (resp : HTTPResponse) : bool := (200 <=? hr_StatusCode resp) && (hr_StatusCode resp <? 300).

Definition refusal (resp : HTTPResponse) : ProviderError :=
  {| pe_StatusCode := hr_StatusCode resp; pe_Body := str_take 2048 (hr_Body resp) |}.

(** An answer worth another try. *)
Definition transient (resp : HTTPResponse) : bool :=
  negb (is2xx resp) && retryable (hr_StatusCode resp) (pe_Body (refusal resp)).

Lemma wp_call {W E A} (f : W -> A * W) (Q : A -> list E -> Prop) : (forall a, Q a []) -> wp (eff_call f) Q.
Proof. intros H w. unfold eff_value, eff_events, eff_call. destruct (f w). apply H. Qed.

Section RetryProps.
Context {F : Type} (nums : numbers F).

Lemma backoff_value attempt : 1 <= attempt -> Z.shiftl Second (attempt - 1) = Second * 2 ^ (attempt - 1).
Proof. intros. apply Z.shiftl_mul_pow2. lia. Qed.

(** The wait before the next attempt: what the endpoint asks for, capped, or
    a doubling wait when it asks for none. *)
Definition wait_for (attempt : Z) (resp : HTTPResponse) (d : Z) : Prop :=
  exists until, let asked := asked_wait nums until (hr_Get resp) (pe_Body (refusal resp)) in
    (0 < asked -> d = Z.min asked maxRetryWait) /\ (asked <= 0 -> d = Z.min (Second * 2 ^ (attempt - 1)) maxRetryWait)
    /\ 0 < d <= maxRetryWait.

Lemma retryWait_for until resp attempt : 1 <= attempt ->
  wait_for attempt resp (retryWait nums until (hr_Get resp) (pe_Body (refusal resp)) attempt).
Proof.
  intros Ha. exists until. unfold retryWait. rewrite backoff_value by done.
  set (asked := asked_wait _ _ _ _). cbv zeta. assert (0 < 2 ^ (attempt - 1)) by (apply Z.pow_pos_nonneg; lia).
  unfold maxRetryWait, Second in *.
  destruct (Z.leb_spec asked 0); [destruct (Z.ltb_spec (60 * 1000000000) (1000000000 * 2 ^ (attempt - 1)))
                                 |destruct (Z.ltb_spec (60 * 1000000000) asked)]; lia.
Qed.

Context {W Req : Type}
  (clock : W -> string -> option Z)
  (newReq : W -> result Req * W)
  (client_Do : Req -> W -> result HTTPResponse * W)
  (retrySleep : Z -> W -> option error * W).

Definition round_events (p : HTTPResponse * Z) : list net_event := [Sent (inr p.1); Waited p.2].

(** How a send ends after [k] waits. *)
Inductive send_end (k : Z) : list net_event -> send_error + HTTPResponse -> Prop :=
| end_no_request e : send_end k [] (inl (SendFailed e))
| end_transport e : send_end k [Sent (inl e)] (inl (SendFailed e))
| end_ok resp : is2xx resp = true -> send_end k [Sent (inr resp)] (inr resp)
| end_refused resp : is2xx resp = false -> k = maxSendAttempts - 1 \/ transient resp = false ->
    send_end k [Sent (inr resp)] (inl (SendRefused (refusal resp)))
| end_cancelled resp d : transient resp = true -> wait_for (k + 1) resp d ->
    send_end k [Sent (inr resp); Waited d] (inl (SendRefused (refusal resp))).

Definition sends (attempt : Z) (r : option (send_error + HTTPResponse)) (evs : list net_event) : Prop :=
  exists rounds tail out,
    r = Some out /\ evs = concat (map round_events rounds) ++ tail
    /\ (forall i resp d, rounds !! i = Some (resp, d) -> transient resp = true /\ wait_for (attempt + Z.of_nat i) resp d)
    /\ attempt + Z.of_nat (length rounds) <= maxSendAttempts
    /\ send_end (attempt - 1 + Z.of_nat (length rounds)) tail out.

Lemma sends_end attempt out tail : attempt <= maxSendAttempts -> send_end (attempt - 1) tail out -> sends attempt (Some out) tail.
Proof.
  intros Ha He. exists [], tail, out. repeat split; [by intros| | |]; cbn [length Z.of_nat]; try lia.
  - by intros.
  - by rewrite Z.add_0_r.
Qed.

Lemma sends_round attempt resp d r evs :
  transient resp = true -> wait_for attempt resp d -> sends (attempt + 1) r evs ->
  sends attempt r ([Sent (inr resp); Waited d] ++ evs).
Proof.
  intros Ht Hw (rounds & tail & out & -> & -> & Hr & Hl & He). exists ((resp, d) :: rounds), tail, out.
  split; [done|]. split; [done|]. split; [|split].
  - intros [|i] resp' d' Hi; cbn in Hi.
    + simplify_eq. by rewrite Z.add_0_r.
    + apply Hr in Hi. by replace (attempt + Z.of_nat (S i)) with (attempt + 1 + Z.of_nat i) by lia.
  - cbn [length]. lia.
  - cbn [length]. by replace (attempt - 1 + Z.of_nat (S (length rounds))) with (attempt + 1 - 1 + Z.of_nat (length rounds)) by lia.
Qed.

Lemma send_from_sends fuel attempt :
  1 <= attempt -> Z.of_nat fuel = maxSendAttempts + 1 - attempt -> (0 < fuel)%nat ->
  wp (send_from nums clock newReq client_Do retrySleep fuel attempt) (sends attempt).
Proof.
  revert attempt. induction fuel as [|fuel IH]; [lia|]. intros attempt Ha Hf _. cbn [send_from].
  assert (Hle : attempt <= maxSendAttempts) by lia.
  wp_step. apply wp_call. intros [e|req].
  { wp_step. apply sends_end; [done|constructor]. }
  wp_step. apply wp_call. intros resp. wp_step. wp_step. destruct resp as [e|resp].
  { wp_step. apply sends_end; [done|constructor]. }
  fold (is2xx resp). destruct (is2xx resp) eqn:H2.
  { wp_step. apply sends_end; [done|by constructor]. }
  fold (refusal resp). destruct ((maxSendAttempts <=? attempt) || negb (retryable (hr_StatusCode resp) (pe_Body (refusal resp)))) eqn:Hstop.
  { wp_step. apply sends_end; [done|]. constructor; [done|]. unfold transient. rewrite H2.
    apply orb_true_iff in Hstop as [Hm|Hm]; [left; apply Z.leb_le in Hm; lia|right; by apply negb_true_iff in Hm as ->]. }
  apply orb_false_iff in Hstop as [Hm Hr%negb_false_iff]. apply Z.leb_gt in Hm.
  assert (Ht : transient resp = true) by (unfold transient; by rewrite H2).
  wp_step. apply wp_call. intros unt. wp_step. apply wp_call. intros [err|]; wp_step; wp_step; cbn [app].
  - wp_step. apply sends_end; [done|]. constructor; [done|]. replace (attempt - 1 + 1) with attempt by lia. by apply retryWait_for.
  - eapply wp_mono; [apply IH; lia|]. intros r evs Hs. apply sends_round; [done|by apply retryWait_for|done].
Qed.

(** C33: A request is sent at most six times.  Every answer but the last was a
    transient refusal, after which the send waited what the endpoint asked
    for, or a doubling second when it asked for nothing, never more than a
    minute; the last one decides: a success is returned open, a transport
    error as it is, and a refusal that will not clear, that came on the last
    attempt or whose wait was cancelled becomes the provider's error with
    the first 2048 bytes of the body.  The loop always ends. *)
Theorem send_retries :
  wp (sendWithRetry nums clock newReq client_Do retrySleep) (sends 1).
Proof. apply send_from_sends; [lia|done|unfold send_fuel; lia]. Qed.

End RetryProps.

(** A wait of minutes, as an OpenAI limit message writes it, is not read: the
    send backs off for a second. *)
Lemma minutes_not_read :
  tryAgainIn "Rate limit reached. Please try again in 5.482s. Visit" = Some ("5.482", Second)
  /\ tryAgainIn "Try Again In 820 MS" = Some ("820", Millisecond)
  /\ tryAgainIn "Rate limit reached. Please try again in 1m30s. Visit" = None.
Proof. vm_compute. done. Qed.

(** ** The stream of events *)

Section StreamProps.
Context {D : Type} (decode : D -> string -> result (list Delta * bool) * D).

(** What is said from a payload on, [last] if nothing follows it. *)
Definition payload_says (dec : D) (payload : string) (last : option recv_error) : list Delta * option recv_error * D :=
  if String.eqb payload "" then ([], last, dec)
  else match decode dec payload with
       | (inl err, dec) => ([], Some (RecvErr err), dec)
       | (inr (ds, over), dec) => (ds, if over then Some EOF else last, dec)
       end.

(** What one tick says when nothing is queued: the deltas, how the stream
    ends if it does, and the state after. *)
Definition tick_says (dec : D) (t : tick) : list Delta * option recv_error * D :=
  match tk_before t with
  | Some err => ([], Some (RecvErr err), dec)
  | None =>
      let say := payload_says dec (trim_space (tk_Data t)) in
      match tk_err t with
      | None => say None
      | Some e =>
          match tk_after t with
          | Some err => ([], Some (RecvErr err), dec)
          | None => if is_eof e && negb (String.eqb (tk_Data t) "") then say (Some EOF) else ([], Some e, dec)
          end
      end
  end.

(** What the ticks say up to the first end. *)
Fixpoint ticks_say (dec : D) (ticks : list tick) : list Delta * option recv_error :=
  match ticks with
  | [] => ([], None)
  | t :: ticks =>
      match tick_says dec t with
      | (ds, Some e, _) => (ds, Some e)
      | (ds, None, dec) => let '(ds', e) := ticks_say dec ticks in (ds ++ ds', e)
      end
  end.

(** What a stream has still to say. *)
Definition to_say (s : sseStream D) (ticks : list tick) : list Delta * option recv_error :=
  if ss_done s then (ss_queue s, Some EOF)
  else let '(ds, e) := ticks_say (ss_dec s) ticks in (ss_queue s ++ ds, e).

(** Receive until an error or a read that has not returned. *)
Fixpoint drain_deltas (n : nat) (s : sseStream D) (ticks : list tick) : list Delta * option recv_error :=
  match n with
  | O => ([], None)
  | S n =>
      match Recv decode s ticks with
      | None => ([], None)
      | Some (inl e, _, _) => ([], Some e)
      | Some (inr d, s, ticks) => let '(ds, e) := drain_deltas n s ticks in (d :: ds, e)
      end
  end.

Definition tick_reads (dec : D) (ticks : list tick) (payload : string) (last : option recv_error) : list Delta * option recv_error :=
  match payload_says dec payload last with
  | (ds, Some e, _) => (ds, Some e)
  | (ds, None, dec) => let '(ds', e) := ticks_say dec ticks in (ds ++ ds', e)
  end.

(** A result of [Recv] agrees with what was left to say. *)
Definition recv_ok (r : option ((recv_error + Delta) * sseStream D * list tick)) (out : list Delta * option recv_error) : Prop :=
  match r with
  | None => out = ([], None)
  | Some (inl e, s, _) => out = ([], Some e) /\ ss_queue s = []
  | Some (inr d, s, ticks) => out = (d :: (to_say s ticks).1, (to_say s ticks).2)
  end.

Lemma to_say_queued d q dn dec ticks :
  let s := {| ss_queue := q; ss_done := dn; ss_dec := dec |} in
  to_say {| ss_queue := d :: q; ss_done := dn; ss_dec := dec |} ticks = (d :: (to_say s ticks).1, (to_say s ticks).2).
Proof. unfold to_say. cbn [ss_done ss_queue ss_dec]. destruct dn; [done|]. by destruct (ticks_say dec ticks). Qed.

Lemma to_say_empty dec ticks : to_say {| ss_queue := []; ss_done := false; ss_dec := dec |} ticks = ticks_say dec ticks.
Proof. unfold to_say. cbn. by destruct (ticks_say dec ticks). Qed.

Lemma ticks_say_cons dec t ticks :
  ticks_say dec (t :: ticks)
  = match tick_says dec t with
    | (ds, Some e, _) => (ds, Some e)
    | (ds, None, dec') => to_say {| ss_queue := ds; ss_done := false; ss_dec := dec' |} ticks
    end.
Proof. done. Qed.

Lemma Recv_says ticks : forall s, recv_ok (Recv decode s ticks) (to_say s ticks).
Proof.
  induction ticks as [|t ticks IH]; intros [[|d q] dn dec]; cbn [Recv ss_queue ss_done ss_dec]; try apply to_say_queued.
  { by destruct dn. }
  destruct dn; [done|]. rewrite to_say_empty, ticks_say_cons. unfold tick_says.
  destruct (tk_before t) as [err|]; [done|].
  set (payload := trim_space (tk_Data t)).
  assert (Hread : forall dn : bool,
    recv_ok (if String.eqb payload "" then Recv decode {| ss_queue := []; ss_done := dn; ss_dec := dec |} ticks
             else let '(r, dec') := decode dec payload in
                  match r with
                  | inl err => Some (inl (RecvErr err), {| ss_queue := []; ss_done := dn; ss_dec := dec' |}, ticks)
                  | inr (ds, over) => Recv decode {| ss_queue := ds; ss_done := dn || over; ss_dec := dec' |} ticks
                  end)
            match payload_says dec payload (if dn then Some EOF else None) with
            | (ds, Some e, _) => (ds, Some e)
            | (ds, None, dec') => to_say {| ss_queue := ds; ss_done := false; ss_dec := dec' |} ticks
            end).
  { intros dn. unfold payload_says. destruct (String.eqb payload "").
    - pose proof (IH {| ss_queue := []; ss_done := dn; ss_dec := dec |}) as H. by destruct dn.
    - destruct (decode dec payload) as [[err|[ds over]] dec']; [done|].
      pose proof (IH {| ss_queue := ds; ss_done := dn || over; ss_dec := dec' |}) as H.
      destruct over; [rewrite orb_true_r in H |- *; exact H|]. rewrite orb_false_r in H |- *. by destruct dn. }
  destruct (tk_err t) as [e|]; [|exact (Hread false)]. destruct (tk_after t) as [err|]; [done|].
  destruct (is_eof e); [|done]. destruct (String.eqb (tk_Data t) ""); [done|]. exact (Hread true).
Qed.

(** Receiving from a stream until it ends gives exactly the deltas its
    events decode to, in order, and then the end they say: the read error, the
    cancelled context or decode error that came first, or EOF after the
    sentinel or after an event that arrived together with the end of the
    body.  Nothing is dropped, repeated or read past the end. *)
Theorem stream_drained (s : sseStream D) (ticks : list tick) (n : nat) :
  (length (to_say s ticks).1 < n)%nat -> drain_deltas n s ticks = to_say s ticks.
Proof.
  revert s ticks. induction n as [|n IH]; intros s ticks Hn; [lia|]. cbn [drain_deltas].
  pose proof (Recv_says ticks s) as H. destruct (Recv decode s ticks) as [[[[e|d] s'] ticks']|]; cbn [recv_ok] in H.
  - by destruct H as [-> _].
  - rewrite H in Hn |- *. cbn [length fst] in Hn. rewrite IH by lia. by destruct (to_say s' ticks').
  - by rewrite H.
Qed.

(** The state [decode] is left in when the ticks first end the stream. *)
Fixpoint ticks_state (dec : D) (ticks : list tick) : D :=
  match ticks with
  | [] => dec
  | t :: ticks => match tick_says dec t with
                  | (_, Some _, dec) => dec
                  | (_, None, dec) => ticks_state dec ticks
                  end
  end.

Definition to_state (s : sseStream D) (ticks : list tick) : D := if ss_done s then ss_dec s else ticks_state (ss_dec s) ticks.

(** The state of a stream received until an error. *)
Fixpoint drained_state (n : nat) (s : sseStream D) (ticks : list tick) : D :=
  match n with
  | O => ss_dec s
  | S n =>
      match Recv decode s ticks with
      | None => ss_dec s
      | Some (inl _, s, _) => ss_dec s
      | Some (inr _, s, ticks) => drained_state n s ticks
      end
  end.

Definition state_ok (r : option ((recv_error + Delta) * sseStream D * list tick)) (st : D) : Prop :=
  match r with
  | None => True
  | Some (inl _, s, _) => ss_dec s = st
  | Some (inr _, s, ticks) => to_state s ticks = st
  end.

Lemma Recv_state ticks : forall s, state_ok (Recv decode s ticks) (to_state s ticks).
Proof.
  induction ticks as [|t ticks IH]; intros [[|d q] dn dec]; cbn [Recv ss_queue ss_done ss_dec]; try (by destruct dn).
  destruct dn; [done|]. unfold to_state at 1. cbn [ss_done ss_dec ticks_state]. unfold tick_says.
  destruct (tk_before t) as [err|]; [done|].
  set (payload := trim_space (tk_Data t)).
  assert (Hread : forall dn : bool,
    state_ok (if String.eqb payload "" then Recv decode {| ss_queue := []; ss_done := dn; ss_dec := dec |} ticks
              else let '(r, dec') := decode dec payload in
                   match r with
                   | inl err => Some (inl (RecvErr err), {| ss_queue := []; ss_done := dn; ss_dec := dec' |}, ticks)
                   | inr (ds, over) => Recv decode {| ss_queue := ds; ss_done := dn || over; ss_dec := dec' |} ticks
                   end)
             match payload_says dec payload (if dn then Some EOF else None) with
             | (_, Some _, dec') => dec'
             | (_, None, dec') => ticks_state dec' ticks
             end).
  { intros dn. unfold payload_says. destruct (String.eqb payload "").
    - pose proof (IH {| ss_queue := []; ss_done := dn; ss_dec := dec |}) as H. by destruct dn.
    - destruct (decode dec payload) as [[err|[ds over]] dec']; [done|].
      pose proof (IH {| ss_queue := ds; ss_done := dn || over; ss_dec := dec' |}) as H.
      destruct over; [rewrite orb_true_r in H |- *; exact H|]. rewrite orb_false_r in H |- *. by destruct dn. }
  destruct (tk_err t) as [e|]; [|exact (Hread false)]. destruct (tk_after t) as [err|]; [done|].
  destruct (is_eof e); [|done]. destruct (String.eqb (tk_Data t) ""); [done|]. exact (Hread true).
Qed.

Lemma drained_state_says (s : sseStream D) (ticks : list tick) (n : nat) :
  (length (to_say s ticks).1 < n)%nat -> is_Some (to_say s ticks).2 -> drained_state n s ticks = to_state s ticks.
Proof.
  revert s ticks. induction n as [|n IH]; intros s ticks Hn He; [lia|]. cbn [drained_state].
  pose proof (Recv_says ticks s) as H. pose proof (Recv_state ticks s) as Hst.
  destruct (Recv decode s ticks) as [[[[e|d] s'] ticks']|]; cbn [recv_ok state_ok] in H, Hst.
  - done.
  - rewrite H in Hn, He. cbn [length fst snd] in Hn, He. rewrite IH by (try lia; done). done.
  - rewrite H in He. by destruct He.
Qed.

End StreamProps.
