(* ===== verification/Wire.v ===== *)
(** * Wire

    What the three vendor providers share: JSON values as Go builds them
    before json.Marshal, the names of a request's tools on the wire, the
    messages as a model sees them, the posting of a body, and what a stream
    of tool-call fragments amounts to.

    json.Marshal, http.NewRequest, the HTTP client and the clock are fields of
    the record [endpoint]. *)

From S2P Require Import Prelude GoStr Errors Provider ToolName Http.

(** ** Values *)

(** A value handed to json.Marshal.  The members of an object are written in
    the order of the source; Go sorts them by key.  [JDoc] is a document that
    was decoded and goes out unchanged. *)
Inductive jval :=
| JBool (b : bool)
| JInt (z : Z)
| JFloat (x : float64)
| JStr (s : string)
| JList (l : list jval)
| JObj (m : list (string * jval))
| JDoc (doc : RawJSON).

(** A nil [any]. *)
Definition JNull : jval := JDoc "null".

Definition is_nil (v : jval) : bool := match v with JDoc doc => String.eqb doc "null" | _ => false end.

Abbreviation body := (gmap string jval).

Fixpoint obj_get (k : string) (m : list (string * jval)) : option jval :=
  match m with
  | [] => None
  | (k', v) :: m => if String.eqb k k' then Some v else obj_get k m
  end.

Definition field (k : string) (v : jval) : option jval := match v with JObj m => obj_get k m | _ => None end.
Definition as_str (v : jval) : option string := match v with JStr s => Some s | _ => None end.
Definition as_list (v : jval) : option (list jval) := match v with JList l => Some l | _ => None end.

(** [body[k] = v] when [v] is there. *)
Definition put_some (k : string) (v : option jval) (b : body) : body :=
  match v with Some v => <[k := v]> b | None => b end.

(** ** Names *)

(** The two maps of [toolNameMaps]; the search in them always ends. *)
Definition maps_of (tools : list ToolDef) : NameMaps := default maps_empty (toolNameMaps tools).

(** ** Posting *)

Record endpoint (W Req F : Type) := {
  ep_nums : numbers F;
  ep_clock : W -> string -> option Z;
  ep_Do : Req -> W -> result HTTPResponse * W;
  ep_sleep : Z -> W -> option error * W;
  ep_NewRequest : string -> list (string * string) -> string -> W -> result Req * W;
  ep_Marshal : body -> result string;
}.
Arguments ep_nums {W Req F}. Arguments ep_clock {W Req F}. Arguments ep_Do {W Req F}.
Arguments ep_sleep {W Req F}. Arguments ep_NewRequest {W Req F}. Arguments ep_Marshal {W Req F}.

Definition with_key (name pre key : string) : list (string * string) :=
  if String.eqb key "" then [] else [(name, pre +:+ key)].

(** The body of the [post] methods, which differ in address and headers. *)
Definition post_to {W Req F} (ep : endpoint W Req F) (url : string) (headers : list (string * string)) (b : body)
  : eff W net_event (option (send_error + HTTPResponse)) :=
  match ep_Marshal ep b with
  | inl err => eff_ret (Some (inl (SendFailed (wrap_error "agent: encode request: " err))))
  | inr raw =>
      sendWithRetry (ep_nums ep) (ep_clock ep) (ep_NewRequest ep url (("Content-Type", "application/json") :: headers) raw)
                    (ep_Do ep) (ep_sleep ep)
  end.

(** An error of the provider's own. *)
Definition send_failed {A} (e : error) : send_error + A := inl (SendFailed e).

(** An opened stream: the state [decode] starts from, nothing read yet. *)
Definition open_stream {D} (d : D) : sseStream D := {| ss_queue := []; ss_done := false; ss_dec := d |}.

(** ** Messages as a model sees them

    Times are not sent; calls are an assistant's, a call's id a tool's. *)
Definition visible (m : Message) : Message :=
  {| m_Role := m_Role m; m_Text := m_Text m;
     m_ToolCalls := if decide (m_Role m = RoleAssistant) then m_ToolCalls m else [];
     m_ToolCallID := if decide (m_Role m = RoleTool) then m_ToolCallID m else "";
     m_Timestamp := 0 |}.

Definition role_of (s : string) : Role :=
  if String.eqb s "user" then RoleUser else if String.eqb s "assistant" then RoleAssistant
  else if String.eqb s "tool" then RoleTool else if String.eqb s "system" then RoleSystem else RoleOther s.

(** A role other than the four is not spelled like one of them. *)
Definition role_ok (r : Role) : Prop := role_of (role_text r) = r.

(** ** Deltas *)

Definition finish_delta (reason : string) : Delta :=
  {| d_Kind := DeltaFinish; d_Text := ""; d_Index := 0; d_ToolCallID := ""; d_ToolName := "";
     d_FinishReason := reason; d_Usage := None |}.

Definition usage_delta (u : Usage) : Delta :=
  {| d_Kind := DeltaUsage; d_Text := ""; d_Index := 0; d_ToolCallID := ""; d_ToolName := "";
     d_FinishReason := ""; d_Usage := Some u |}.

Definition text_or (s d : string) : string := if String.eqb s "" then d else s.

(** The call a vendor's answer names: its name turned back, its arguments an
    object. *)
Definition answered_call (real : gmap string string) (id name args : string) : ToolCall :=
  {| tc_ID := id; tc_Name := realToolName real name;
     tc_Args := toolCallArgsFromJSON (if String.eqb args "" then "{}" else args) |}.

(** ** Tool-call fragments *)

(** A piece of a streamed tool call: the first of an index starts it. *)
Record fragment := { fg_Index : Z; fg_ID : string; fg_Name : string; fg_Arguments : string }.

(** The calls a list of fragments amounts to: one for each index, in order of
    first appearance, with the id and name of its first fragment and the
    arguments of all. *)
Definition args_at (i : Z) (fs : list fragment) : string :=
  str_concat (fg_Arguments <$> filter (fun f => fg_Index f = i) fs).

Fixpoint assemble_calls (seen : gset Z) (fs : list fragment) : list fragment :=
  match fs with
  | [] => []
  | f :: fs =>
      if decide (fg_Index f ∈ seen) then assemble_calls seen fs
      else {| fg_Index := fg_Index f; fg_ID := fg_ID f; fg_Name := fg_Name f;
              fg_Arguments := fg_Arguments f +:+ args_at (fg_Index f) fs |}
           :: assemble_calls ({[fg_Index f]} ∪ seen) fs
  end.

(** * Lemmas *)

(** ** Names *)

Lemma maps_of_ok tools : maps_ok (maps_of tools) /\ forall a, a ∈ td_Name <$> tools -> is_Some (realToSafe (maps_of tools) !! a).
Proof.
  unfold maps_of, toolNameMaps. destruct (add_tools_ok tools maps_empty maps_empty_ok) as (m & -> & Hm & Hin & _).
  split; [done|]. intros a Ha. apply Hin. by right.
Qed.

Lemma wire_name_back tools a : a ∈ td_Name <$> tools ->
  realToolName (safeToReal (maps_of tools)) (safeToolName (realToSafe (maps_of tools)) a) = a.
Proof.
  intros Ha. destruct (maps_of_ok tools) as [[Hinv _] Hin]. destruct (Hin a Ha) as [s Hs].
  unfold safeToolName, realToolName. rewrite Hs. apply Hinv in Hs. by rewrite Hs.
Qed.

(** ** Values *)

Lemma put_some_ne k k' v b : k <> k' -> put_some k v b !! k' = b !! k'.
Proof. intros H. destruct v; cbn; [by rewrite lookup_insert_ne|done]. Qed.

Lemma put_some_eq k v b : put_some k v b !! k = match v with Some v => Some v | None => b !! k end.
Proof. destruct v; cbn; [by rewrite lookup_insert_eq|done]. Qed.

(** ** Streams of calls *)

Definition call_delta (d : Delta) : Prop := d_Kind d = DeltaToolCallStart \/ d_Kind d = DeltaToolCallArgs.

#[export] Instance call_delta_dec d : Decision (call_delta d).
Proof. unfold call_delta. apply _. Defined.

Lemma args_of_filter i ds : args_of i (filter call_delta ds) = args_of i ds.
Proof.
  unfold args_of. do 2 f_equal. rewrite list_filter_filter. apply list_filter_iff. intros d. unfold call_delta. naive_solver.
Qed.

Lemma calls_of_filter ds : calls_of (filter call_delta ds) = calls_of ds.
Proof.
  induction ds as [|d ds IH]; [done|]. rewrite filter_cons. destruct (decide (call_delta d)) as [H|H]; cbn [calls_of].
  - by rewrite args_of_filter, IH.
  - rewrite IH. destruct (decide (d_Kind d = DeltaToolCallStart)); [|done]. exfalso. apply H. by left.
Qed.

Lemma starts_of_filter ds : starts_of (filter call_delta ds) = starts_of ds.
Proof.
  unfold starts_of. f_equal. rewrite list_filter_filter. apply list_filter_iff. intros d. unfold call_delta. naive_solver.
Qed.

Lemma str_concat_app (a b : list string) : str_concat (a ++ b) = str_concat a +:+ str_concat b.
Proof.
  induction a as [|x a IH]; [done|]. change (str_concat ((x :: a) ++ b)) with (x +:+ str_concat (a ++ b)).
  rewrite IH. change (str_concat (x :: a)) with (x +:+ str_concat a). by rewrite app_assoc_str.
Qed.

Lemma texts_of_app k a b : texts_of k (a ++ b) = texts_of k a +:+ texts_of k b.
Proof. unfold texts_of. rewrite filter_app, fmap_app. apply str_concat_app. Qed.

Lemma texts_of_cons' k d ds : texts_of k (d :: ds) = (if decide (d_Kind d = k) then d_Text d else "") +:+ texts_of k ds.
Proof. unfold texts_of. rewrite filter_cons. by destruct (decide (d_Kind d = k)). Qed.

Lemma texts_of_none k ds : Forall (fun d => d_Kind d <> k) ds -> texts_of k ds = "".
Proof. induction 1 as [|d ds Hd _ IH]; [done|]. rewrite texts_of_cons'. by rewrite decide_False. Qed.

(** A fragment that is empty says nothing. *)
Definition opt_text (k : DeltaKind) (t : string) : list Delta := if negb (String.eqb t "") then [text_delta k t] else [].

Lemma texts_of_opt k t : texts_of k (opt_text k t) = t.
Proof.
  unfold opt_text. destruct (String.eqb_spec t "") as [->|]; [done|]. cbn [negb].
  unfold texts_of. rewrite filter_cons, decide_True by done. cbn. by rewrite app_empty_r.
Qed.

Lemma args_at_nil i : args_at i [] = "".
Proof. done. Qed.

Lemma args_at_cons i f fs : args_at i (f :: fs) = (if decide (fg_Index f = i) then fg_Arguments f else "") +:+ args_at i fs.
Proof. unfold args_at. rewrite filter_cons. by destruct (decide (fg_Index f = i)). Qed.

(** ** Clean streams

    The ticks of events that arrive whole, in an uncancelled context. *)
Definition clean (payload : string) : tick := {| tk_before := None; tk_Data := payload; tk_err := None; tk_after := None |}.

Section Clean.
Context {D E : Type} (decode : D -> string -> result (list Delta * bool) * D) (step : D -> E -> list Delta * D).

(** What events say in order. *)
Fixpoint events_say (d : D) (es : list E) : list Delta * D :=
  match es with
  | [] => ([], d)
  | e :: es => let '(ds, d) := step d e in let '(ds', d) := events_say d es in (ds ++ ds', d)
  end.

(** A payload that decodes to an event that does not end the stream. *)
Definition carries (payload : string) (e : E) : Prop :=
  trim_space payload <> ""
  /\ forall d, decode d (trim_space payload) = (inr ((step d e).1, false), (step d e).2).

Lemma clean_ticks_say d payloads es ticks :
  Forall2 carries payloads es ->
  ticks_say decode d (map clean payloads ++ ticks)
  = let '(ds, d) := events_say d es in let '(ds', e) := ticks_say decode d ticks in (ds ++ ds', e).
Proof.
  intros H. revert d. induction H as [|p e payloads es [Hp Hd] H IH]; intros d.
  { cbn. by destruct (ticks_say decode d ticks). }
  cbn [map app ticks_say events_say]. unfold tick_says. cbn [tk_before tk_err tk_Data clean].
  unfold payload_says. destruct (String.eqb_spec (trim_space p) "") as [?|_]; [done|].
  rewrite Hd. destruct (step d e) as [ds d']. cbn [fst snd]. rewrite IH.
  destruct (events_say d' es) as [ds' d'']. destruct (ticks_say decode d'' ticks). by rewrite app_assoc.
Qed.

Lemma clean_ticks_state d payloads es ticks :
  Forall2 carries payloads es -> ticks_state decode d (map clean payloads ++ ticks) = ticks_state decode (events_say d es).2 ticks.
Proof.
  intros H. revert d. induction H as [|p e payloads es [Hp Hd] H IH]; intros d; [done|].
  cbn [map app ticks_state events_say]. unfold tick_says. cbn [tk_before tk_err tk_Data clean].
  unfold payload_says. destruct (String.eqb_spec (trim_space p) "") as [?|_]; [done|].
  rewrite Hd, IH. destruct (step d e) as [ds d']. cbn [fst snd]. by destruct (events_say d' es).
Qed.

Lemma events_say_app d es es' :
  events_say d (es ++ es') = let '(ds, d) := events_say d es in let '(ds', d) := events_say d es' in (ds ++ ds', d).
Proof.
  revert d. induction es as [|e es IH]; intros d; cbn [app events_say]; [by destruct (events_say d es')|].
  destruct (step d e) as [ds d1]. rewrite IH. destruct (events_say d1 es) as [ds2 d2]. destruct (events_say d2 es').
  by rewrite app_assoc.
Qed.

End Clean.

(** ** Filters *)

Definition opt_list {A B} (f : A -> B) (o : option A) : list B := from_option (fun a => [f a]) [] o.

Section Filters.
Context {A : Type} (P : A -> Prop) `{forall x, Decision (P x)}.

Lemma filter_no l : Forall (fun x => ~ P x) l -> filter P l = [].
Proof. induction 1 as [|x l Hx _ IH]; [done|]. by rewrite filter_cons, decide_False, IH. Qed.

Lemma filter_opt_every {B} (f : B -> A) o : (forall b, P (f b)) -> filter P (opt_list f o) = opt_list f o.
Proof. intros Hf. apply filter_all. destruct o; repeat constructor. apply Hf. Qed.

Lemma filter_opt_none {B} (f : B -> A) o : (forall b, ~ P (f b)) -> filter P (opt_list f o) = [].
Proof. intros Hf. apply filter_no. destruct o; repeat constructor. apply Hf. Qed.

Lemma concat_opt_list {B C} (f : B -> A) (g : C -> option B) l : concat ((fun c => opt_list f (g c)) <$> l) = f <$> omap g l.
Proof. induction l as [|c l IH]; [done|]. cbn. destruct (g c); cbn; by f_equal. Qed.

End Filters.

Lemma filter_text_every (P : Delta -> Prop) `{forall d, Decision (P d)} k t : (forall t, P (text_delta k t)) -> filter P (opt_text k t) = opt_text k t.
Proof. intros HP. apply filter_all. unfold opt_text. destruct (String.eqb t ""); repeat constructor. apply HP. Qed.

Lemma filter_text_none (P : Delta -> Prop) `{forall d, Decision (P d)} k t : (forall t, ~ P (text_delta k t)) -> filter P (opt_text k t) = [].
Proof. intros HP. apply filter_no. unfold opt_text. destruct (String.eqb t ""); repeat constructor. apply HP. Qed.

Lemma texts_of_filter k ds : texts_of k (filter (fun d => d_Kind d = k) ds) = texts_of k ds.
Proof. unfold texts_of. do 2 f_equal. rewrite list_filter_filter. apply list_filter_iff. naive_solver. Qed.

Lemma texts_of_concat k dss : texts_of k (concat dss) = str_concat (texts_of k <$> dss).
Proof. induction dss as [|ds dss IH]; [done|]. cbn [concat fmap list_fmap]. by rewrite texts_of_app, IH. Qed.

(** Calls of one stretch that the next adds nothing to. *)
Lemma calls_of_app a b : (forall i, i ∈ starts_of a -> args_of i b = "") -> calls_of (a ++ b) = calls_of a ++ calls_of b.
Proof.
  induction a as [|d a IH]; intros H; [done|]. cbn [app calls_of]. unfold starts_of in *. rewrite filter_cons in H.
  destruct (decide (d_Kind d = DeltaToolCallStart)) as [Hd|Hd].
  - rewrite IH by (intros i Hi; apply H; csimpl; by right). f_equal. f_equal. f_equal.
    unfold args_of. rewrite filter_app, fmap_app, str_concat_app. fold (args_of (d_Index d) b).
    rewrite H by (csimpl; by left). by rewrite app_empty_r.
  - by apply IH.
Qed.

Lemma starts_of_app a b : starts_of (a ++ b) = starts_of a ++ starts_of b.
Proof. unfold starts_of. by rewrite filter_app, fmap_app. Qed.

Lemma no_calls ds : Forall (fun d => d_Kind d <> DeltaToolCallStart) ds -> calls_of ds = [] /\ starts_of ds = [].
Proof.
  intros H. split; [|unfold starts_of; by rewrite filter_no].
  induction H as [|d ds Hd _ IH]; [done|]. cbn [calls_of]. by rewrite decide_False.
Qed.

Lemma args_of_none i ds : Forall (fun d => call_delta d -> d_Index d <> i) ds -> args_of i ds = "".
Proof.
  intros H. unfold args_of. rewrite filter_no; [done|]. eapply Forall_impl; [exact H|]. intros d Hd [Hk Hi].
  apply Hd; [by right|done].
Qed.

Lemma concat_kind (Q : Delta -> Prop) (g : string -> list Delta) ts : (forall t, Forall Q (g t)) -> Forall Q (concat (g <$> ts)).
Proof. intros H. induction ts as [|t ts IH]; [constructor|]. cbn. apply Forall_app. by split. Qed.

(** ** What a stretch of a stream says

    Its text, its reasoning and its calls, whose indices lie in a range and
    start once each. *)
Record says (lo hi : Z) (ds : list Delta) (text reason : string) (calls : list ToolCall) : Prop := {
  sy_text : texts_of DeltaText ds = text;
  sy_reason : texts_of DeltaReasoning ds = reason;
  sy_calls : calls_of ds = calls;
  sy_kinds : Forall (fun d => d_Kind d <> DeltaFinish /\ d_Kind d <> DeltaUsage /\ (call_delta d -> (lo <= d_Index d < hi)%Z)) ds;
  sy_once : NoDup (starts_of ds);
}.

Lemma says_starts lo hi ds t r c : says lo hi ds t r c -> Forall (fun i => (lo <= i < hi)%Z) (starts_of ds).
Proof.
  intros [_ _ _ Hk _]. unfold starts_of. apply Forall_fmap, Forall_forall. intros d [Hd Hin]%list_elem_of_filter.
  rewrite Forall_forall in Hk. destruct (Hk d Hin) as (_ & _ & Hi). apply Hi. by left.
Qed.

Lemma says_nothing lo : says lo lo [] "" "" [].
Proof. split; try done; constructor. Qed.

Lemma says_app lo mid hi a b ta tb ra rb ca cb : (lo <= mid <= hi)%Z ->
  says lo mid a ta ra ca -> says mid hi b tb rb cb -> says lo hi (a ++ b) (ta +:+ tb) (ra +:+ rb) (ca ++ cb).
Proof.
  intros Hm Ha Hb. pose proof (says_starts _ _ _ _ _ _ Ha) as Hsa. pose proof (says_starts _ _ _ _ _ _ Hb) as Hsb.
  destruct Ha as [<- <- <- Hka Hna], Hb as [<- <- <- Hkb Hnb]. split; [apply texts_of_app|apply texts_of_app|..].
  - apply calls_of_app. intros i Hi. apply args_of_none. eapply Forall_impl; [exact Hkb|]. intros d (_ & _ & Hd) Hcd.
    specialize (Hd Hcd). rewrite Forall_forall in Hsa. apply Hsa in Hi. lia.
  - apply Forall_app. split; (eapply Forall_impl; [eassumption|]); intros d (? & ? & Hd); (split; [done|split; [done|]]);
      intros Hcd; specialize (Hd Hcd); lia.
  - rewrite starts_of_app. apply NoDup_app. split; [done|]. split; [|done]. intros i Hi Hi'.
    rewrite Forall_forall in Hsa, Hsb. apply Hsa in Hi. apply Hsb in Hi'. lia.
Qed.

(** A text cut into pieces. *)
Lemma says_pieces lo hi (k : DeltaKind) ts (g : string -> list Delta) : k = DeltaText \/ k = DeltaReasoning ->
  (forall t, g t = opt_text k t \/ g t = [text_delta k t]) ->
  says lo hi (concat (g <$> ts)) (if decide (k = DeltaText) then str_concat ts else "") (if decide (k = DeltaText) then "" else str_concat ts) [].
Proof.
  intros Hk Hg. set (ds := concat _). assert (Hkind : Forall (fun d => d_Kind d = k) ds).
  { apply concat_kind. intros t. destruct (Hg t) as [-> | ->]; [|by repeat constructor]. unfold opt_text. destruct (String.eqb t ""); by repeat constructor. }
  destruct (no_calls ds) as [Hcs Hst]; [eapply Forall_impl; [exact Hkind|]; intros d ->; by destruct Hk as [-> | ->]|].
  assert (Hsame : texts_of k ds = str_concat ts).
  { unfold ds. rewrite texts_of_concat, <- list_fmap_compose. f_equal. rewrite <- (list_fmap_id ts) at 2. apply list_fmap_ext.
    intros j t _. cbn. destruct (Hg t) as [-> | ->]; [apply texts_of_opt|]. rewrite texts_of_cons', decide_True by done. apply app_empty_r. }
  assert (Hother : forall k', k' <> k -> texts_of k' ds = "").
  { intros k' Hne. apply texts_of_none. eapply Forall_impl; [exact Hkind|]. intros d ->. congruence. }
  split.
  - destruct Hk as [-> | ->]; [exact Hsame|by apply Hother].
  - destruct Hk as [-> | ->]; [by apply Hother|exact Hsame].
  - done.
  - eapply Forall_impl; [exact Hkind|]. intros d Hd. unfold call_delta. rewrite Hd.
    destruct Hk as [-> | ->]; (split; [done|split; [done|]]; by intros [?|?]).
  - rewrite Hst. constructor.
Qed.

Definition opt_args (i : Z) (t : string) : list Delta := if negb (String.eqb t "") then [args_delta i t] else [].

Lemma concat_args i ts : args_of i (concat (opt_args i <$> ts)) = str_concat ts.
Proof.
  induction ts as [|t ts IH]; [done|]. cbn [fmap list_fmap concat]. change (str_concat (t :: ts)) with (t +:+ str_concat ts).
  unfold args_of in *. rewrite filter_app, fmap_app, str_concat_app, IH. f_equal. unfold opt_args.
  destruct (String.eqb_spec t "") as [->|]; [done|]. cbn [negb]. rewrite filter_cons, decide_True by done. cbn. apply app_empty_r.
Qed.

(** A call whose arguments are cut into pieces. *)
Lemma says_call i (d : Delta) ts : d_Kind d = DeltaToolCallStart -> d_Index d = i ->
  says i (i + 1) (d :: concat (opt_args i <$> ts)) "" ""
    [finish_call {| tc_ID := d_ToolCallID d; tc_Name := d_ToolName d; tc_Args := "" |} (d_Text d +:+ str_concat ts)].
Proof.
  intros Hk Hi.
  assert (Hargs : Forall (fun d => d_Kind d = DeltaToolCallArgs /\ d_Index d = i) (concat (opt_args i <$> ts))).
  { apply concat_kind. intros t. unfold opt_args. destruct (String.eqb t ""); by repeat constructor. }
  assert (Htexts : forall k, k = DeltaText \/ k = DeltaReasoning -> texts_of k (concat (opt_args i <$> ts)) = "").
  { intros k Hk'. apply texts_of_none. eapply Forall_impl; [exact Hargs|]. intros d' [-> _]. by destruct Hk' as [-> | ->]. }
  destruct (no_calls (concat (opt_args i <$> ts))) as [Hcs Hst]; [eapply Forall_impl; [exact Hargs|]; by intros d' [-> _]|].
  split.
  - rewrite texts_of_cons', decide_False, Htexts by (try rewrite Hk; auto; done). done.
  - rewrite texts_of_cons', decide_False, Htexts by (try rewrite Hk; auto; done). done.
  - cbn [calls_of]. rewrite decide_True by done. by rewrite Hcs, Hi, concat_args.
  - constructor; [rewrite Hk, Hi; repeat split; try done; lia|]. eapply Forall_impl; [exact Hargs|]. intros d' [Hk' Hi']. rewrite Hk', Hi'.
    repeat split; try done; lia.
  - unfold starts_of. rewrite filter_cons, decide_True by done. csimpl. fold (starts_of (concat (opt_args i <$> ts))). rewrite Hst.
    constructor; [apply not_elem_of_nil|constructor].
Qed.

(** The end of a stream. *)
Definition ending (d : Delta) : Prop := d_Kind d = DeltaFinish \/ d_Kind d = DeltaUsage.

(** A stretch and an end accumulate to what they say. *)
Lemma accumulate_says lo hi ds t r c tail : says lo hi ds t r c -> Forall ending tail ->
  accumulate (ds ++ tail)
  = {| r_Text := t; r_Reasoning := r; r_ToolCalls := c; r_FinishReason := finish_of tail; r_Usage := usage_of tail |}.
Proof.
  intros [Ht Hr Hc Hk Hn] Hend.
  destruct (no_calls tail) as [Hcs Hst]; [eapply Forall_impl; [exact Hend|]; by intros d [-> | ->]|].
  assert (Hmiss : forall k, k = DeltaText \/ k = DeltaReasoning -> texts_of k tail = "").
  { intros k Hk'. apply texts_of_none. eapply Forall_impl; [exact Hend|]. intros d [-> | ->]; by destruct Hk' as [-> | ->]. }
  rewrite accumulate_meaning by (rewrite starts_of_app, Hst, app_nil_r; exact Hn). unfold stream_meaning.
  rewrite !(texts_of_app _ ds), Ht, Hr, !Hmiss, !app_empty_r by auto.
  rewrite calls_of_app, Hc, Hcs, app_nil_r.
  2:{ intros i _. apply args_of_none. eapply Forall_impl; [exact Hend|]. intros d [Hd|Hd] [Hd'|Hd']; congruence. }
  unfold finish_of, usage_of. rewrite !filter_app.
  rewrite (filter_no (fun d => d_Kind d = DeltaFinish) ds) by (eapply Forall_impl; [exact Hk|]; by intros d (? & _)).
  rewrite (filter_no (fun d => d_Kind d = DeltaUsage) ds) by (eapply Forall_impl; [exact Hk|]; by intros d (_ & ? & _)).
  done.
Qed.
