(* ===== verification/OpenAI.v ===== *)
(** * OpenAI

    src/openai_provider.go: a chat-completions endpoint.  Which requests it
    refuses, the request body, and the answer, whole or as a stream of
    chunks.  encoding/json is a parameter: [bind] decodes a document into a
    value, [decode_chunk] and [decode_full] the vendor's records, which are
    Records here with the fields the code reads. *)

From S2P Require Import Prelude GoStr Errors Provider ToolName Http Wire.

(** ** Configuration *)

Inductive GuidedDialect := NoDialect | GuidedDialectLlamaCpp | GuidedDialectVLLM | GuidedDialectOllama | OtherDialect (s : string).

#[export] Instance GuidedDialect_eq_dec : EqDecision GuidedDialect.
Proof. solve_decision. Defined.

Definition dialect_text (d : GuidedDialect) : string :=
  match d with
  | NoDialect => "" | GuidedDialectLlamaCpp => "llamacpp" | GuidedDialectVLLM => "vllm"
  | GuidedDialectOllama => "ollama" | OtherDialect s => s
  end.

(** [Penalties]: [None] is the nil slice. *)
Record OpenAIConfig := {
  oc_BaseURL : string;
  oc_APIKey : string;
  oc_Model : string;
  oc_GuidedDialect : GuidedDialect;
  oc_ExtraBody : body;
  oc_NoTemperature : bool;
  oc_NoResponseSchema : bool;
  oc_Penalties : option (list string);
}.

Record OpenAIProvider := { op_cfg : OpenAIConfig; op_Penalties : list string }.

Definition known_penalty (k : string) : bool :=
  String.eqb k PenaltyRepeat || String.eqb k PenaltyFrequency || String.eqb k PenaltyPresence || String.eqb k PenaltyDRY.

Definition NewOpenAIProvider (cfg : OpenAIConfig) : result OpenAIProvider :=
  if String.eqb (oc_BaseURL cfg) "" || String.eqb (oc_Model cfg) ""
  then inl (EText "agent: OpenAIConfig requires BaseURL and Model")
  else match oc_GuidedDialect cfg with
       | OtherDialect s => inl (EText ("agent: unknown OpenAIConfig.GuidedDialect " +:+ go_quote s))
       | _ =>
           match List.find (fun k => negb (known_penalty k)) (default [] (oc_Penalties cfg)) with
           | Some k => inl (EText ("agent: unknown OpenAIConfig.Penalties kind " +:+ go_quote k))
           | None => inr {| op_cfg := cfg; op_Penalties := default [PenaltyFrequency; PenaltyPresence] (oc_Penalties cfg) |}
           end
       end.

Definition ProviderCapabilities (p : OpenAIProvider) : Capabilities :=
  {| cap_Guided :=
       match oc_GuidedDialect (op_cfg p) with
       | GuidedDialectLlamaCpp => [GuidedGrammar; GuidedJSONSchema]
       | GuidedDialectVLLM => [GuidedGrammar; GuidedRegex; GuidedJSONSchema]
       | GuidedDialectOllama => [GuidedJSONSchema]
       | _ => []
       end;
     cap_Seed := true;
     cap_Temperature := negb (oc_NoTemperature (op_cfg p));
     cap_Penalties := op_Penalties p |}.

Definition unsupported (what : string) : error := wrap_sentinel ErrUnsupportedParam (": " +:+ what).

Definition check (p : OpenAIProvider) (req : ProviderRequest) : option error :=
  match refusePenalties (pr_Penalties req) (op_Penalties p) ("this endpoint takes " +:+ str_join ", " (op_Penalties p)) with
  | Some err => Some err
  | None =>
      match pr_Guided req with
      | None => None
      | Some g =>
          match guided_kind (p_deref g) with
          | inl err => Some err
          | inr kind =>
              let dialect := oc_GuidedDialect (op_cfg p) in
              if decide (dialect = NoDialect) then Some (unsupported "Guided (OpenAIConfig.GuidedDialect is not set)")
              else if bool_decide (dialect = GuidedDialectLlamaCpp) && String.eqb kind GuidedRegex
              then Some (unsupported "Guided.Regex (llama.cpp has no regex constraint)")
              else if bool_decide (dialect = GuidedDialectOllama) && negb (String.eqb kind GuidedJSONSchema)
              then Some (unsupported ("Guided." +:+ kind +:+ " (Ollama takes a JSON schema only)"))
              else if bool_decide (dialect = GuidedDialectOllama) && negb (String.eqb (pr_ResponseSchema req) "")
              then Some (unsupported "Guided with ResponseSchema (both are Ollama's response_format)")
              else None
          end
      end
  end.

(** ** The request *)

Section Body.
(** [RawJSON.Bind] into an [any], and a tool's [InputSchema]. *)
Context (bind : RawJSON -> option jval) (InputSchema : ToolDef -> jval).

Definition guidedFields (p : OpenAIProvider) (g : GuidedDecoding) : body :=
  let schema := if String.eqb (g_JSONSchema g) "" then JNull else default JNull (bind (g_JSONSchema g)) in
  match oc_GuidedDialect (op_cfg p) with
  | GuidedDialectLlamaCpp =>
      if negb (String.eqb (g_Grammar g) "") then {["grammar" := JStr (g_Grammar g)]} else {["json_schema" := schema]}
  | GuidedDialectVLLM =>
      {["structured_outputs" := JObj
          (if negb (String.eqb (g_Grammar g) "") then [("grammar", JStr (g_Grammar g))]
           else if negb (String.eqb (g_Regex g) "") then [("regex", JStr (g_Regex g))]
           else [("json", schema)])]}
  | GuidedDialectOllama =>
      {["response_format" := JObj [("type", JStr "json_schema");
                                   ("json_schema", JObj [("name", JStr "guided"); ("schema", schema)])]]}
  | _ => ∅
  end.

Definition oa_call (names : gmap string string) (tc : ToolCall) : jval :=
  JObj [("id", JStr (tc_ID tc)); ("type", JStr "function");
        ("function", JObj [("name", JStr (safeToolName names (tc_Name tc))); ("arguments", JStr (tc_Args tc))])].

Definition oa_message (names : gmap string string) (m : Message) : jval :=
  JObj (("role", JStr (role_text (m_Role m))) ::
    match m_Role m with
    | RoleTool => [("tool_call_id", JStr (m_ToolCallID m)); ("content", JStr (m_Text m))]
    | RoleAssistant =>
        (if negb (String.eqb (m_Text m) "") || bool_decide (m_ToolCalls m = []) then [("content", JStr (m_Text m))] else [])
        ++ (if bool_decide (m_ToolCalls m = []) then [] else [("tool_calls", JList (map (oa_call names) (m_ToolCalls m)))])
    | _ => [("content", JStr (m_Text m))]
    end).

(** The system message: the instructions, with the schema in it when the
    endpoint takes only [json_object]. *)
Definition asks_json_object (p : OpenAIProvider) (req : ProviderRequest) (stream : bool) : bool :=
  negb stream && oc_NoResponseSchema (op_cfg p) && negb (String.eqb (pr_ResponseSchema req) "").

Definition system_text (p : OpenAIProvider) (req : ProviderRequest) (stream : bool) : string :=
  if asks_json_object p req stream then
    let note := "Reply with only a JSON document that matches this JSON schema:" +:+ newline +:+ pr_ResponseSchema req in
    if negb (String.eqb (pr_Instructions req) "") then pr_Instructions req +:+ newline +:+ newline +:+ note else note
  else pr_Instructions req.

Definition oa_tool (names : gmap string string) (td : ToolDef) : jval :=
  JObj [("type", JStr "function");
        ("function", JObj [("name", JStr (default "" (names !! td_Name td)));
                           ("description", JStr (td_Description td));
                           ("parameters", InputSchema td)])].

Definition oa_penalties (pen : SamplingPenalties) : body :=
  put_some "repeat_penalty" (JFloat ∘ p_deref <$> sp_Repeat pen)
  (put_some "repeat_last_n" (JInt ∘ p_deref <$> sp_RepeatLastN pen)
  (put_some "frequency_penalty" (JFloat ∘ p_deref <$> sp_Frequency pen)
  (put_some "presence_penalty" (JFloat ∘ p_deref <$> sp_Presence pen)
  (put_some "dry_multiplier" (JFloat ∘ p_deref <$> sp_DRYMultiplier pen)
  (put_some "dry_base" (JFloat ∘ p_deref <$> sp_DRYBase pen)
  (put_some "dry_allowed_length" (JInt ∘ p_deref <$> sp_DRYAllowedLength pen) ∅)))))).

Definition oa_tool_choice (names : gmap string string) (req : ProviderRequest) : option jval :=
  if bool_decide (pr_Tools req = []) || ToolChoice_IsZero (pr_ToolChoice req) then None
  else
    let choice := pr_ToolChoice req in
    let choice := if String.eqb (tch_Mode choice) "function"
                  then {| tch_Mode := tch_Mode choice; tch_Name := safeToolName names (tch_Name choice) |} else choice in
    match ToolChoice_wire choice with
    | WireNil => None
    | WireString s => Some (JStr s)
    | WireFunction name => Some (JObj [("type", JStr "function"); ("function", JObj [("name", JStr name)])])
    end.

Definition oa_response_format (schema : jval) : jval :=
  JObj [("type", JStr "json_schema"); ("json_schema", JObj [("name", JStr "response"); ("schema", schema)])].

(** The fields before ExtraBody. *)
Definition own_body (p : OpenAIProvider) (req : ProviderRequest) (stream : bool) : body :=
  let names := realToSafe (maps_of (pr_Tools req)) in
  let instructions := system_text p req stream in
  let msgs := (if negb (String.eqb instructions "") then [JObj [("role", JStr "system"); ("content", JStr instructions)]] else [])
              ++ map (oa_message names) (pr_Messages req) in
  let b : body := <["messages" := JList msgs]> {["model" := JStr (oc_Model (op_cfg p))]} in
  let b := if bool_decide (pr_Tools req = []) then b else <["tools" := JList (map (oa_tool names) (pr_Tools req))]> b in
  let b := put_some "temperature" (JFloat ∘ p_deref <$> pr_Temperature req) b in
  let b := if (0 <? pr_MaxTokens req)%Z then <["max_tokens" := JInt (pr_MaxTokens req)]> b else b in
  let b := put_some "seed" (JInt ∘ p_deref <$> pr_Seed req) b in
  let b := from_option (fun pen => oa_penalties (p_deref pen) ∪ b) b (pr_Penalties req) in
  let b := from_option (fun g => guidedFields p (p_deref g) ∪ b) b (pr_Guided req) in
  let b := put_some "tool_choice" (oa_tool_choice names req) b in
  if stream then <["stream_options" := JObj [("include_usage", JBool true)]]> (<["stream" := JBool true]> b)
  else if asks_json_object p req stream then <["response_format" := JObj [("type", JStr "json_object")]]> b
  else if negb (String.eqb (pr_ResponseSchema req) "")
  then put_some "response_format" (oa_response_format <$> bind (pr_ResponseSchema req)) b
  else b.

Definition buildBody (p : OpenAIProvider) (req : ProviderRequest) (stream : bool) : body :=
  own_body p req stream ∪ oc_ExtraBody (op_cfg p).

End Body.

Definition post {W Req F} (ep : endpoint W Req F) (p : OpenAIProvider) (b : body)
  : eff W net_event (option (send_error + HTTPResponse)) :=
  post_to ep (trim_suffix (oc_BaseURL (op_cfg p)) "/" +:+ "/chat/completions")
          (with_key "Authorization" "Bearer " (oc_APIKey (op_cfg p))) b.

(** ** The answer *)

Record oaUsage := { ou_Prompt : Z; ou_Completion : Z; ou_Details : option Z }.

(** [toUsage]; the argument is [Timings.CacheN]. *)
Definition toUsage (u : oaUsage) (timings : option Z) : Usage :=
  {| u_In := ou_Prompt u; u_Out := ou_Completion u;
     u_Cached := match ou_Details u, timings with Some n, _ => n | None, Some n => n | None, None => 0%Z end |}.

(** The completion [Generate] decodes: its first choice. *)
Record oaChoice := {
  oh_Content : string;
  oh_ReasoningContent : string;
  oh_ToolCalls : list fragment;
  oh_FinishReason : string;
}.
Record oaFull := { of_Choices : list oaChoice; of_Usage : option oaUsage; of_Timings : option Z }.

(** A chunk of a stream. *)
Record oaDelta := {
  ok_Content : string;
  ok_ReasoningContent : string;
  ok_Reasoning : string;
  ok_ToolCalls : list fragment;
  ok_FinishReason : option string;
}.
Record oaChunk := { ch_Choices : list oaDelta; ch_Usage : option oaUsage; ch_Timings : option Z }.

Definition oa_toolCall (real : gmap string string) (tc : fragment) : ToolCall :=
  answered_call real (fg_ID tc) (fg_Name tc) (fg_Arguments tc).

Definition toResponse (real : gmap string string) (full : oaFull) : result ProviderResponse :=
  match of_Choices full with
  | [] => inl (EText "agent: completion had no choices")
  | choice :: _ =>
      inr {| r_Text := oh_Content choice; r_Reasoning := oh_ReasoningContent choice;
             r_ToolCalls := map (oa_toolCall real) (oh_ToolCalls choice);
             r_FinishReason := oh_FinishReason choice;
             r_Usage := (fun u => toUsage u (of_Timings full)) <$> of_Usage full |}
  end.

Definition start_fragment (real : gmap string string) (f : fragment) : Delta :=
  {| d_Kind := DeltaToolCallStart; d_Text := fg_Arguments f; d_Index := fg_Index f; d_ToolCallID := fg_ID f;
     d_ToolName := realToolName real (fg_Name f); d_FinishReason := ""; d_Usage := None |}.

(** The tool-call fragments of a chunk, and the indices started so far. *)
Fixpoint callDeltas (real : gmap string string) (started : gset Z) (fs : list fragment) : list Delta * gset Z :=
  match fs with
  | [] => ([], started)
  | f :: fs =>
      if decide (fg_Index f ∈ started) then
        let '(ds, started) := callDeltas real started fs in
        ((if negb (String.eqb (fg_Arguments f) "") then [args_delta (fg_Index f) (fg_Arguments f)] else []) ++ ds, started)
      else
        let '(ds, started) := callDeltas real ({[fg_Index f]} ∪ started) fs in
        (start_fragment real f :: ds, started)
  end.

Definition chunkDeltas (real : gmap string string) (started : gset Z) (chunk : oaChunk) : list Delta * gset Z :=
  let usage := from_option (fun u => [usage_delta (toUsage u (ch_Timings chunk))]) [] (ch_Usage chunk) in
  match ch_Choices chunk with
  | [] => (usage, started)
  | choice :: _ =>
      let text := if negb (String.eqb (ok_Content choice) "") then [text_delta DeltaText (ok_Content choice)] else [] in
      let r := ok_ReasoningContent choice +:+ ok_Reasoning choice in
      let reasoning := if negb (String.eqb r "") then [text_delta DeltaReasoning r] else [] in
      let '(calls, started) := callDeltas real started (ok_ToolCalls choice) in
      let finish := match ok_FinishReason choice with
                    | Some f => if negb (String.eqb f "") then [finish_delta f] else []
                    | None => []
                    end in
      (usage ++ text ++ reasoning ++ calls ++ finish, started)
  end.

Section Answer.
Context (bind : RawJSON -> option jval) (InputSchema : ToolDef -> jval)
  (decode_chunk : string -> result oaChunk) (decode_full : string -> result oaFull).

(** [openaiStream.decode]; the state is the set of started indices. *)
Definition decode (real : gmap string string) (started : gset Z) (payload : string)
  : result (list Delta * bool) * gset Z :=
  if String.eqb payload "[DONE]" then (inr ([], true), started)
  else match decode_chunk payload with
       | inl err => (inl (wrap_error "agent: bad SSE chunk: " err), started)
       | inr chunk => let '(ds, started) := chunkDeltas real started chunk in (inr (ds, false), started)
       end.

Context {W Req F : Type} (ep : endpoint W Req F).

(** [Stream]: the maps that turn wire names back, and the stream; [None] is a
    send that did not end. *)
Definition Stream (p : OpenAIProvider) (req : ProviderRequest)
  : eff W net_event (option (send_error + (gmap string string * sseStream (gset Z)))) :=
  match check p req with
  | Some err => eff_ret (Some (send_failed err))
  | None =>
      (let* resp := post ep p (buildBody bind InputSchema p req true) in
       eff_ret (match resp with
                | None => None
                | Some (inl err) => Some (inl err)
                | Some (inr _) => Some (inr (safeToReal (maps_of (pr_Tools req)), open_stream ∅))
                end))%eff
  end.

Definition Generate (p : OpenAIProvider) (req : ProviderRequest)
  : eff W net_event (option (send_error + ProviderResponse)) :=
  match check p req with
  | Some err => eff_ret (Some (send_failed err))
  | None =>
      (let* resp := post ep p (buildBody bind InputSchema p req false) in
       eff_ret (match resp with
                | None => None
                | Some (inl err) => Some (inl err)
                | Some (inr resp) =>
                    match decode_full (hr_Body resp) with
                    | inl err => Some (send_failed (wrap_error "agent: decode completion: " err))
                    | inr full =>
                        match toResponse (safeToReal (maps_of (pr_Tools req))) full with
                        | inl err => Some (send_failed err)
                        | inr out => Some (inr out)
                        end
                    end
                end))%eff
  end.

End Answer.

(** * Properties *)

(** ** Refusals *)

Lemma refuse_kinds_None ks sendable why : refuse_kinds ks sendable why = None <-> forallb (fun k => str_mem k sendable) ks = true.
Proof. induction ks as [|k ks IH]; [done|]. cbn. by destruct (str_mem k sendable). Qed.

Lemma refuse_kinds_unsupported ks sendable why e : refuse_kinds ks sendable why = Some e -> error_is ErrUnsupportedParam e = true.
Proof.
  induction ks as [|k ks IH]; [done|]. cbn [refuse_kinds]. destruct (str_mem k sendable); [apply IH|].
  intros [= <-]. apply error_is_sentinel.
Qed.

Lemma CanPenalize_refuse c s why : CanPenalize c s = true <-> refusePenalties s (cap_Penalties c) why = None.
Proof.
  unfold CanPenalize, refusePenalties. rewrite refuse_kinds_None.
  destruct (refuse_kinds _ _ "") eqn:E.
  - split; [done|]. intros H. by rewrite (proj2 (refuse_kinds_None _ _ "") H) in E.
  - split; [|done]. intros _. by apply refuse_kinds_None in E.
Qed.

Lemma guided_kind_cases g k : guided_kind g = inr k -> k = GuidedGrammar \/ k = GuidedRegex \/ k = GuidedJSONSchema.
Proof.
  unfold guided_kind, guided_kinds. destruct (String.eqb (g_Grammar g) ""), (String.eqb (g_Regex g) ""), (String.eqb (g_JSONSchema g) "");
    cbn; intros [= <-]; auto.
Qed.

Lemma guided_kind_unsupported g e : guided_kind g = inl e -> error_is ErrUnsupportedParam e = true.
Proof. unfold guided_kind. destruct (guided_kinds g) as [|k [|k' ks]]; intros [= <-]; apply error_is_sentinel. Qed.

Lemma NewOpenAIProvider_dialect cfg p : NewOpenAIProvider cfg = inr p -> forall s, oc_GuidedDialect (op_cfg p) <> OtherDialect s.
Proof.
  unfold NewOpenAIProvider. destruct (_ || _); [done|].
  destruct (oc_GuidedDialect cfg) eqn:E; try done; destruct (List.find _ _); try done; intros [= <-] s; cbn; by rewrite E.
Qed.

(** A provider refuses a request, before anything is sent and with an
    ErrUnsupportedParam, exactly when the capabilities it reports do not
    admit the request's penalties and constraint, or when an Ollama request
    asks for two documents in one field. *)
Theorem check_capabilities cfg p req :
  NewOpenAIProvider cfg = inr p ->
  (check p req = None <->
    CanPenalize (ProviderCapabilities p) (pr_Penalties req) = true
    /\ CanGuide (ProviderCapabilities p) (pr_Guided req) = true
    /\ ~ (oc_GuidedDialect (op_cfg p) = GuidedDialectOllama /\ is_Some (pr_Guided req) /\ pr_ResponseSchema req <> ""))
  /\ (forall e, check p req = Some e -> error_is ErrUnsupportedParam e = true).
Proof.
  intros Hp. pose proof (NewOpenAIProvider_dialect _ _ Hp) as Hd. unfold check.
  rewrite (CanPenalize_refuse _ _ ("this endpoint takes " +:+ str_join ", " (op_Penalties p))). cbn [cap_Penalties ProviderCapabilities].
  destruct (refusePenalties _ _ _) as [err|] eqn:Ep.
  { split; [split; [done|by intros (? & _)]|]. intros e [= <-]. by eapply refuse_kinds_unsupported. }
  destruct (pr_Guided req) as [g|]; cbn [CanGuide]; [|split; [|done]; split; [|done]; intros _; repeat split; by intros (_ & [? ?] & _)].
  destruct (guided_kind (p_deref g)) as [err|k] eqn:Ek.
  { split; [split; [done|by intros (_ & ? & _)]|]. intros e [= <-]. by eapply guided_kind_unsupported. }
  apply guided_kind_cases in Ek. unfold ProviderCapabilities; cbn [cap_Guided].
  destruct (oc_GuidedDialect (op_cfg p)) eqn:Edl; [| | | |by destruct (Hd s)];
    destruct Ek as [-> | [-> | ->]]; cbn; destruct (String.eqb_spec (pr_ResponseSchema req) "") as [Es|Es]; cbn;
    (split; [split; [try done; intros _; repeat split; naive_solver|naive_solver]
            |intros e He; first [done | injection He as <-; apply error_is_sentinel]]).
Qed.

(** ** Streaming and generating *)

(** The completion a list of chunks assembles to: the pieces of each text in
    order, the calls of the fragments, the last finish reason and the last
    usage. *)
Definition chunk_choice (c : oaChunk) : oaDelta :=
  default {| ok_Content := ""; ok_ReasoningContent := ""; ok_Reasoning := ""; ok_ToolCalls := []; ok_FinishReason := None |}
          (head (ch_Choices c)).
Definition chunk_text (c : oaChunk) : string := ok_Content (chunk_choice c).
Definition chunk_reasoning (c : oaChunk) : string := ok_ReasoningContent (chunk_choice c) +:+ ok_Reasoning (chunk_choice c).
Definition chunk_calls (c : oaChunk) : list fragment := ok_ToolCalls (chunk_choice c).
Definition chunk_reason (c : oaChunk) : option string :=
  match ok_FinishReason (chunk_choice c) with Some f => if String.eqb f "" then None else Some f | None => None end.
Definition chunk_usage (c : oaChunk) : option (oaUsage * option Z) := (fun u => (u, ch_Timings c)) <$> ch_Usage c.

Definition assembled (chunks : list oaChunk) : oaFull :=
  let report := last (omap chunk_usage chunks) in
  {| of_Choices := [{| oh_Content := str_concat (chunk_text <$> chunks);
                       oh_ReasoningContent := str_concat (chunk_reasoning <$> chunks);
                       oh_ToolCalls := assemble_calls ∅ (concat (chunk_calls <$> chunks));
                       oh_FinishReason := default "" (last (omap chunk_reason chunks)) |}];
     of_Usage := fst <$> report; of_Timings := report ≫= snd |}.

Section Streams.
Context (real : gmap string string).

Lemma callDeltas_kinds started fs : Forall call_delta (callDeltas real started fs).1.
Proof.
  revert started. induction fs as [|f fs IH]; intros started; cbn [callDeltas]; [constructor|].
  destruct (decide (fg_Index f ∈ started)).
  - specialize (IH started). destruct (callDeltas real started fs) as [ds s]. cbn [fst] in *. apply Forall_app. split; [|done].
    destruct (String.eqb (fg_Arguments f) ""); [constructor|]. constructor; [by right|constructor].
  - specialize (IH ({[fg_Index f]} ∪ started)). destruct (callDeltas real _ fs) as [ds s]. cbn [fst] in *. constructor; [by left|done].
Qed.

(** Every call starts once. *)
Lemma callDeltas_starts started fs :
  NoDup (starts_of (callDeltas real started fs).1) /\ Forall (fun i => i ∉ started) (starts_of (callDeltas real started fs).1).
Proof.
  revert started. induction fs as [|f fs IH]; intros started; cbn [callDeltas]; [split; constructor|].
  destruct (decide (fg_Index f ∈ started)) as [Hin|Hin].
  - specialize (IH started). destruct (callDeltas real started fs) as [ds s]. by destruct (String.eqb (fg_Arguments f) "").
  - specialize (IH ({[fg_Index f]} ∪ started)). destruct (callDeltas real _ fs) as [ds s]. cbn [fst] in *.
    change (starts_of (start_fragment real f :: ds)) with (fg_Index f :: starts_of ds).
    destruct IH as [Hnd Hout]. rewrite Forall_forall in Hout. split; constructor; [|done|done|].
    + intros Hi. apply Hout in Hi. set_solver.
    + apply Forall_forall. intros i Hi. apply Hout in Hi. set_solver.
Qed.

Lemma callDeltas_args i started fs : i ∈ started -> args_of i (callDeltas real started fs).1 = args_at i fs.
Proof.
  revert started. induction fs as [|f fs IH]; intros started Hi; cbn [callDeltas]; [done|]. rewrite args_at_cons.
  destruct (decide (fg_Index f ∈ started)) as [Hin|Hin].
  - rewrite <- (IH started) by done. destruct (callDeltas real started fs) as [ds s]. cbn [fst].
    destruct (String.eqb_spec (fg_Arguments f) "") as [->|]; cbn [negb app]; [by destruct (decide _)|].
    unfold args_of. rewrite filter_cons. cbn [d_Kind d_Index args_delta]. 
    destruct (decide (fg_Index f = i)); [by rewrite decide_True by done|by rewrite decide_False by naive_solver].
  - rewrite decide_False by (intros <-; done). rewrite app_empty_l, <- (IH ({[fg_Index f]} ∪ started)) by set_solver.
    destruct (callDeltas real _ fs) as [ds s]. cbn [fst]. by rewrite args_of_other.
Qed.

Lemma callDeltas_calls started fs :
  calls_of (callDeltas real started fs).1 = map (oa_toolCall real) (assemble_calls started fs).
Proof.
  revert started. induction fs as [|f fs IH]; intros started; cbn [callDeltas assemble_calls]; [done|].
  destruct (decide (fg_Index f ∈ started)) as [Hin|Hin].
  - rewrite <- IH. destruct (callDeltas real started fs) as [ds s]. by destruct (String.eqb (fg_Arguments f) "").
  - cbn [map]. rewrite <- IH, <- (callDeltas_args (fg_Index f) ({[fg_Index f]} ∪ started)) by set_solver.
    destruct (callDeltas real _ fs) as [ds s]. cbn [fst calls_of]. by rewrite decide_True.
Qed.

Lemma callDeltas_app started fs gs :
  callDeltas real started (fs ++ gs)
  = let '(ds, s) := callDeltas real started fs in let '(ds', s') := callDeltas real s gs in (ds ++ ds', s').
Proof.
  revert started. induction fs as [|f fs IH]; intros started; cbn [app callDeltas]; [by destruct (callDeltas real started gs)|].
  destruct (decide _); rewrite IH; destruct (callDeltas real _ fs) as [ds s]; destruct (callDeltas real s gs); by rewrite <- ?app_assoc.
Qed.

Lemma chunkDeltas_parts started c :
  chunkDeltas real started c
  = let '(calls, s) := callDeltas real started (chunk_calls c) in
    (opt_list (fun '(u, t) => usage_delta (toUsage u t)) (chunk_usage c) ++ opt_text DeltaText (chunk_text c)
     ++ opt_text DeltaReasoning (chunk_reasoning c) ++ calls ++ opt_list finish_delta (chunk_reason c), s).
Proof.
  unfold chunkDeltas, chunk_calls, chunk_text, chunk_reasoning, chunk_reason, chunk_usage, chunk_choice, opt_text.
  destruct (ch_Choices c) as [|d ds]; cbn [head default]; destruct (ch_Usage c); cbn; try done;
    destruct (callDeltas real started (ok_ToolCalls d)); destruct (ok_FinishReason d) as [f|]; try done; by destruct (String.eqb f "").
Qed.

(** What a run of chunks says. *)
Definition stream_deltas (started : gset Z) (chunks : list oaChunk) : list Delta * gset Z :=
  events_say (chunkDeltas real) started chunks.

Lemma stream_calls started chunks :
  filter call_delta (stream_deltas started chunks).1 = (callDeltas real started (concat (chunk_calls <$> chunks))).1.
Proof.
  revert started. unfold stream_deltas. induction chunks as [|c chunks IH]; intros started; [done|].
  cbn [events_say fmap list_fmap concat]. rewrite callDeltas_app, chunkDeltas_parts.
  pose proof (callDeltas_kinds started (chunk_calls c)) as Hk.
  destruct (callDeltas real started (chunk_calls c)) as [calls s]. specialize (IH s).
  destruct (events_say (chunkDeltas real) s chunks) as [ds s']. destruct (callDeltas real s (concat _)) as [ds' s''].
  cbn [fst] in *. subst ds'. rewrite !filter_app, (filter_all call_delta calls Hk).
  rewrite filter_opt_none by (intros [??] [?|?]; discriminate). rewrite !filter_text_none by (intros ? [?|?]; discriminate).
  rewrite filter_opt_none by (intros ? [?|?]; discriminate). by rewrite app_nil_r.
Qed.

Lemma stream_part (P : Delta -> Prop) `{forall d, Decision (P d)} (g : oaChunk -> list Delta) :
  (forall started c, filter P (chunkDeltas real started c).1 = g c) ->
  forall started chunks, filter P (stream_deltas started chunks).1 = concat (g <$> chunks).
Proof.
  intros Hg started chunks. revert started. unfold stream_deltas. induction chunks as [|c chunks IH]; intros started; [done|].
  cbn [events_say fmap list_fmap concat]. rewrite <- (Hg started c). destruct (chunkDeltas real started c) as [ds s].
  rewrite <- (IH s). destruct (events_say _ s chunks). cbn [fst]. by rewrite filter_app.
Qed.


Lemma parts_text started c k : k = DeltaText \/ k = DeltaReasoning ->
  filter (fun d => d_Kind d = k) (chunkDeltas real started c).1
  = opt_text k (if decide (k = DeltaText) then chunk_text c else chunk_reasoning c).
Proof.
  intros Hk. rewrite chunkDeltas_parts. pose proof (callDeltas_kinds started (chunk_calls c)) as Hc.
  destruct (callDeltas real started (chunk_calls c)) as [calls s]. cbn [fst] in *. rewrite !filter_app.
  rewrite (filter_no _ calls) by (eapply Forall_impl; [exact Hc|]; intros d [H|H]; rewrite H; by destruct Hk as [-> | ->]).
  rewrite !filter_opt_none by (try intros [? ?]; by destruct Hk as [-> | ->]).
  destruct Hk as [-> | ->]; [rewrite filter_text_every, filter_text_none by done|rewrite filter_text_none, filter_text_every by done];
    cbn [app]; by rewrite ?app_nil_r.
Qed.

Lemma parts_finish started c :
  filter (fun d => d_Kind d = DeltaFinish) (chunkDeltas real started c).1 = opt_list finish_delta (chunk_reason c).
Proof.
  rewrite chunkDeltas_parts. pose proof (callDeltas_kinds started (chunk_calls c)) as Hc.
  destruct (callDeltas real started (chunk_calls c)) as [calls s]. cbn [fst] in *. rewrite !filter_app.
  rewrite (filter_no _ calls) by (eapply Forall_impl; [exact Hc|]; intros d [H|H]; by rewrite H).
  rewrite filter_opt_none by (intros [??]; discriminate). by rewrite !filter_text_none, filter_opt_every by done.
Qed.

Lemma parts_usage started c :
  filter (fun d => d_Kind d = DeltaUsage) (chunkDeltas real started c).1
  = opt_list (fun '(u, t) => usage_delta (toUsage u t)) (chunk_usage c).
Proof.
  rewrite chunkDeltas_parts. pose proof (callDeltas_kinds started (chunk_calls c)) as Hc.
  destruct (callDeltas real started (chunk_calls c)) as [calls s]. cbn [fst] in *. rewrite !filter_app.
  rewrite (filter_no _ calls) by (eapply Forall_impl; [exact Hc|]; intros d [H|H]; by rewrite H).
  rewrite !filter_text_none by done. rewrite filter_opt_every by by intros [??].
  rewrite filter_opt_none by done. by rewrite !app_nil_r.
Qed.

Lemma stream_text started chunks :
  texts_of DeltaText (stream_deltas started chunks).1 = str_concat (chunk_text <$> chunks)
  /\ texts_of DeltaReasoning (stream_deltas started chunks).1 = str_concat (chunk_reasoning <$> chunks).
Proof.
  split; rewrite <- texts_of_filter.
  - rewrite (stream_part _ (fun c => opt_text DeltaText (chunk_text c))) by (intros; by rewrite parts_text by auto).
    rewrite texts_of_concat, <- list_fmap_compose. f_equal. apply list_fmap_ext. intros i c _. apply texts_of_opt.
  - rewrite (stream_part _ (fun c => opt_text DeltaReasoning (chunk_reasoning c))) by (intros; by rewrite parts_text by auto).
    rewrite texts_of_concat, <- list_fmap_compose. f_equal. apply list_fmap_ext. intros i c _. apply texts_of_opt.
Qed.

(** The deltas of a list of chunks accumulate to what [Generate] makes of the
    completion the chunks assemble to. *)
Lemma accumulate_chunks chunks :
  inr (accumulate (stream_deltas ∅ chunks).1) = toResponse real (assembled chunks).
Proof.
  pose proof (callDeltas_starts ∅ (concat (chunk_calls <$> chunks))) as [Hnd _].
  rewrite accumulate_meaning by (rewrite <- starts_of_filter, stream_calls; exact Hnd).
  unfold toResponse, assembled, stream_meaning. cbn [of_Choices of_Usage of_Timings oh_Content oh_ReasoningContent oh_ToolCalls oh_FinishReason].
  destruct (stream_text ∅ chunks) as [-> ->].
  rewrite <- calls_of_filter, stream_calls, callDeltas_calls.
  assert (Hf : finish_of (stream_deltas ∅ chunks).1 = default "" (last (omap chunk_reason chunks))).
  { unfold finish_of. rewrite (stream_part _ _ parts_finish), concat_opt_list, fmap_last. by destruct (last _). }
  assert (Hu : usage_of (stream_deltas ∅ chunks).1 = (fun '(u, t) => toUsage u t) <$> last (omap chunk_usage chunks)).
  { unfold usage_of. rewrite (stream_part _ _ parts_usage), concat_opt_list, fmap_last. by destruct (last (omap chunk_usage chunks)) as [[u t]|]. }
  rewrite Hf, Hu. by destruct (last (omap chunk_usage chunks)) as [[u t]|].
Qed.

End Streams.

Section Whole.
Context (decode_chunk : string -> result oaChunk).

(** A payload that is a chunk. *)
Definition is_chunk (payload : string) (c : oaChunk) : Prop :=
  trim_space payload <> "" /\ trim_space payload <> "[DONE]" /\ decode_chunk (trim_space payload) = inr c.

Lemma is_chunk_carries real payload c : is_chunk payload c -> carries (decode decode_chunk real) (chunkDeltas real) payload c.
Proof.
  intros (Hne & Hd & Hc). split; [done|]. intros started. unfold decode. destruct (String.eqb_spec (trim_space payload) "[DONE]"); [done|].
  rewrite Hc. by destruct (chunkDeltas real started c).
Qed.

Lemma done_says real started rest : ticks_say (decode decode_chunk real) started (clean "[DONE]" :: rest) = ([], Some EOF).
Proof.
  cbn [ticks_say]. unfold tick_says. cbn [tk_before tk_err tk_Data clean].
  assert (trim_space "[DONE]" = "[DONE]") as -> by (vm_compute; reflexivity). done.
Qed.

(** C13: Reading a stream of chunks to its end accumulates to exactly what
    Generate makes of the completion the chunks assemble to: the same text,
    reasoning, tool calls under their own names with their arguments joined
    by index, finish reason and usage, however the server cut them up and
    interleaved them. *)
Theorem openai_stream_is_generate real payloads chunks rest :
  Forall2 is_chunk payloads chunks ->
  exists ds n, (forall m, n <= m ->
    drain_deltas (decode decode_chunk real) m (open_stream ∅) (map clean payloads ++ clean "[DONE]" :: rest) = (ds, Some EOF))
  /\ inr (accumulate ds) = toResponse real (assembled chunks).
Proof.
  intros H. exists (stream_deltas real ∅ chunks).1, (S (length (stream_deltas real ∅ chunks).1)).
  split; [|apply accumulate_chunks].
  assert (Hs : to_say (decode decode_chunk real) (open_stream ∅) (map clean payloads ++ clean "[DONE]" :: rest)
               = ((stream_deltas real ∅ chunks).1, Some EOF)).
  { unfold open_stream. rewrite to_say_empty. erewrite clean_ticks_say; [|eapply Forall2_impl; [exact H|apply is_chunk_carries]].
    unfold stream_deltas. destruct (events_say (chunkDeltas real) ∅ chunks) as [ds d]. rewrite done_says. cbn [fst]. by rewrite app_nil_r. }
  intros m Hm. rewrite stream_drained, Hs by (rewrite Hs; cbn [fst]; lia). done.
Qed.

End Whole.

(** ** The request body *)

Definition read_call (real : gmap string string) (v : jval) : option ToolCall :=
  id ← field "id" v ≫= as_str;
  f ← field "function" v;
  name ← field "name" f ≫= as_str;
  args ← field "arguments" f ≫= as_str;
  Some {| tc_ID := id; tc_Name := realToolName real name; tc_Args := args |}.

Definition read_calls (real : gmap string string) (v : jval) : option (list ToolCall) :=
  match field "tool_calls" v with None => Some [] | Some l => l ← as_list l; mapM (read_call real) l end.

(** A message of the request as a server reads it, names turned back. *)
Definition read_message (real : gmap string string) (v : jval) : option Message :=
  role ← field "role" v ≫= as_str;
  calls ← read_calls real v;
  Some {| m_Role := role_of role; m_Text := default "" (field "content" v ≫= as_str); m_ToolCalls := calls;
          m_ToolCallID := default "" (field "tool_call_id" v ≫= as_str); m_Timestamp := 0 |}.

Definition read_messages (real : gmap string string) (b : body) : option (list Message) :=
  l ← b !! "messages" ≫= as_list; mapM (read_message real) l.

(** What a request may hold: roles told apart by their text, calls of the
    tools it offers. *)
Definition sendable (req : ProviderRequest) : Prop :=
  Forall (fun m => role_ok (m_Role m) /\ Forall (fun tc => tc_Name tc ∈ td_Name <$> pr_Tools req) (m_ToolCalls m)) (pr_Messages req).

Section ReadBack.
Context (bind : RawJSON -> option jval) (InputSchema : ToolDef -> jval).

Lemma read_oa_calls tools tcs : Forall (fun tc => tc_Name tc ∈ td_Name <$> tools) tcs ->
  mapM (read_call (safeToReal (maps_of tools))) (map (oa_call (realToSafe (maps_of tools))) tcs) = Some tcs.
Proof.
  induction 1 as [|tc tcs Htc _ IH]; [done|]. cbn [map mapM]. rewrite IH.
  unfold read_call, oa_call. cbn. rewrite wire_name_back by done. by destruct tc.
Qed.

Lemma read_oa_message tools m :
  role_ok (m_Role m) -> Forall (fun tc => tc_Name tc ∈ td_Name <$> tools) (m_ToolCalls m) ->
  read_message (safeToReal (maps_of tools)) (oa_message (realToSafe (maps_of tools)) m) = Some (visible m).
Proof.
  intros Hr Hn. unfold read_message, visible. destruct m as [role text calls id t]; cbn [m_Role m_Text m_ToolCalls m_ToolCallID] in *.
  unfold oa_message, read_calls. cbn [m_Role m_Text m_ToolCalls m_ToolCallID]. destruct role as [| | | |s]; cbn.
  - done.
  - destruct (String.eqb_spec text "") as [->|Ht]; destruct (decide (calls = [])) as [->|Hc]; cbn; try done;
      rewrite ?bool_decide_eq_false_2 by done; cbn; rewrite read_oa_calls by done; done.
  - done.
  - done.
  - unfold role_ok in Hr. cbn in Hr. by rewrite Hr.
Qed.

Lemma oa_penalties_None pen k : k = "model" \/ k = "messages" -> oa_penalties pen !! k = None.
Proof. intros Hk. unfold oa_penalties. rewrite !put_some_ne by (by destruct Hk as [-> | ->]). apply lookup_empty. Qed.

Lemma guidedFields_None p g k : k = "model" \/ k = "messages" -> guidedFields bind p g !! k = None.
Proof.
  intros Hk. unfold guidedFields. destruct (oc_GuidedDialect (op_cfg p)); try apply lookup_empty;
    repeat case_match; apply lookup_singleton_ne; by destruct Hk as [-> | ->].
Qed.

Definition base_body (p : OpenAIProvider) (req : ProviderRequest) (stream : bool) : body :=
  <["messages" := JList ((if negb (String.eqb (system_text p req stream) "")
       then [JObj [("role", JStr "system"); ("content", JStr (system_text p req stream))]] else [])
       ++ map (oa_message (realToSafe (maps_of (pr_Tools req)))) (pr_Messages req))]> {["model" := JStr (oc_Model (op_cfg p))]}.

(** One field of a request that is neither. *)
Ltac own_step Hk :=
  match goal with
  | |- put_some ?k' ?v ?b !! ?k = _ => rewrite (put_some_ne k' k v b) by (by destruct Hk as [-> | ->])
  | |- <[?k' := ?v]> ?b !! ?k = _ => rewrite (lookup_insert_ne b k' k) by (by destruct Hk as [-> | ->])
  | |- (oa_penalties ?x ∪ ?b) !! ?k = _ => rewrite (lookup_union_r (oa_penalties x) b k) by (by apply oa_penalties_None)
  | |- (guidedFields bind ?p ?x ∪ ?b) !! ?k = _ => rewrite (lookup_union_r (guidedFields bind p x) b k) by (by apply guidedFields_None)
  | |- from_option _ _ (pr_Penalties ?r) !! _ = _ => destruct (pr_Penalties r); cbn [from_option]
  | |- from_option _ _ (pr_Guided ?r) !! _ = _ => destruct (pr_Guided r); cbn [from_option]
  | |- (if ?c then _ else _) !! _ = _ => destruct c
  | |- base_body _ _ _ !! _ = _ => reflexivity
  end.

(** Nothing the other fields of a request do changes the model or the
    messages. *)
Lemma own_body_base p req stream k : k = "model" \/ k = "messages" ->
  own_body bind InputSchema p req stream !! k = base_body p req stream !! k.
Proof.
  intros Hk. unfold own_body. cbv zeta. fold (base_body p req stream).
  repeat own_step Hk.
Qed.

(** C32: The body of a request keeps its conversation: read as the server
    reads it, with the wire names turned back, it holds the model, the
    instructions as its first message and then every message as the model
    may see it, in order; what ExtraBody adds never replaces a field the
    provider sets. *)
Theorem openai_body_roundtrip p req stream :
  sendable req ->
  let b := buildBody bind InputSchema p req stream in
  b !! "model" = Some (JStr (oc_Model (op_cfg p)))
  /\ read_messages (safeToReal (maps_of (pr_Tools req))) b
     = Some ((if decide (system_text p req stream = "") then [] else [text_message RoleSystem (system_text p req stream)])
             ++ map visible (pr_Messages req))
  /\ (forall k v, own_body bind InputSchema p req stream !! k = Some v -> b !! k = Some v).
Proof.
  intros Hs b. assert (Hown : forall k v, own_body bind InputSchema p req stream !! k = Some v -> b !! k = Some v).
  { intros k v Hk. unfold b, buildBody. by apply lookup_union_Some_l. }
  assert (Hm : b !! "messages" = base_body p req stream !! "messages").
  { unfold base_body. rewrite lookup_insert_eq. apply Hown. rewrite own_body_base by auto. unfold base_body. by rewrite lookup_insert_eq. }
  split; [apply Hown; rewrite own_body_base by auto; unfold base_body; by rewrite lookup_insert_ne, lookup_singleton_eq|].
  split; [|done]. unfold read_messages. rewrite Hm. unfold base_body. rewrite lookup_insert_eq. cbn [mbind option_bind as_list].
  assert (Hms : mapM (read_message (safeToReal (maps_of (pr_Tools req)))) (map (oa_message (realToSafe (maps_of (pr_Tools req)))) (pr_Messages req))
                = Some (map visible (pr_Messages req))).
  { unfold sendable in Hs. induction Hs as [|m ms [Hr Hn] _ IH]; [done|]. cbn [map mapM]. rewrite read_oa_message by done. cbn. by rewrite IH. }
  destruct (String.eqb_spec (system_text p req stream) "") as [Ht|Ht]; cbn [negb app].
  - by rewrite decide_True.
  - rewrite decide_False by done. cbn [mapM app]. rewrite Hms. done.
Qed.

End ReadBack.

(** * Witnesses *)

Definition demo_config : OpenAIConfig :=
  {| oc_BaseURL := "http://localhost:1234/v1"; oc_APIKey := ""; oc_Model := "m"; oc_GuidedDialect := GuidedDialectOllama;
     oc_ExtraBody := {["cache_prompt" := JBool true]} ∪ {["model" := JStr "other"]}; oc_NoTemperature := false;
     oc_NoResponseSchema := false; oc_Penalties := None |}.
Definition demo_provider : OpenAIProvider := {| op_cfg := demo_config; op_Penalties := [PenaltyFrequency; PenaltyPresence] |}.

Definition demo_call : ToolCall := {| tc_ID := "1"; tc_Name := "fs/read"; tc_Args := "{}" |}.
Definition demo_messages : list Message :=
  [text_message RoleUser "hi";
   {| m_Role := RoleAssistant; m_Text := ""; m_ToolCalls := [demo_call]; m_ToolCallID := ""; m_Timestamp := 7 |};
   {| m_Role := RoleTool; m_Text := "ok"; m_ToolCalls := []; m_ToolCallID := "1"; m_Timestamp := 8 |}].

Definition demo_request (guided : option (ptr GuidedDecoding)) : ProviderRequest :=
  {| pr_Instructions := "be brief"; pr_Messages := demo_messages; pr_Tools := [named "fs/read"]; pr_Temperature := None;
     pr_MaxTokens := 10; pr_ToolChoice := ToolChoice_zero; pr_Seed := None; pr_Penalties := None; pr_Guided := guided;
     pr_ResponseSchema := "" |}.

Definition by_grammar : ptr GuidedDecoding := Ptr 1 {| g_Grammar := "root"; g_Regex := ""; g_JSONSchema := "" |}.
Definition by_schema : ptr GuidedDecoding := Ptr 2 {| g_Grammar := ""; g_Regex := ""; g_JSONSchema := "{}" |}.

(** An Ollama endpoint takes a schema and refuses a grammar. *)
Lemma check_capabilities_witness :
  check demo_provider (demo_request (Some by_schema)) = None
  /\ (check demo_provider (demo_request (Some by_grammar)) = None <->
      CanPenalize (ProviderCapabilities demo_provider) None = true
      /\ CanGuide (ProviderCapabilities demo_provider) (Some by_grammar) = true
      /\ ~ (GuidedDialectOllama = GuidedDialectOllama /\ is_Some (Some by_grammar) /\ "" <> ""))
  /\ is_Some (check demo_provider (demo_request (Some by_grammar))).
Proof.
  split; [reflexivity|]. split; [apply (check_capabilities demo_config demo_provider (demo_request (Some by_grammar))); reflexivity|].
  vm_compute. by eexists.
Defined.

Definition piece (i : Z) (id name args : string) : fragment := {| fg_Index := i; fg_ID := id; fg_Name := name; fg_Arguments := args |}.
Definition demo_chunk (text : string) (calls : list fragment) (reason : option string) : oaChunk :=
  {| ch_Choices := [{| ok_Content := text; ok_ReasoningContent := ""; ok_Reasoning := ""; ok_ToolCalls := calls; ok_FinishReason := reason |}];
     ch_Usage := None; ch_Timings := None |}.

(** Two calls whose arguments arrive interleaved. *)
Definition demo_chunks : list oaChunk :=
  [demo_chunk "let me " [] None; demo_chunk "look" [piece 0 "a" "fs_read" ""; piece 1 "b" "ls" "{"] None;
   demo_chunk "" [piece 0 "" "" "{}"; piece 1 "" "" "}"] (Some "tool_calls")].
Definition demo_decode (s : string) : result oaChunk :=
  match List.find (fun '(k, _) => String.eqb k s) (zip ["A"; "B"; "C"] demo_chunks) with
  | Some (_, c) => inr c | None => inl (EText "unexpected end of JSON input") end.

Lemma openai_stream_is_generate_witness :
  let real : gmap string string := {["fs_read" := "fs/read"]} in
  Forall2 (is_chunk demo_decode) ["A"; "B"; " C "] demo_chunks
  /\ (exists ds n, (forall m, n <= m ->
        drain_deltas (decode demo_decode real) m (open_stream ∅) (map clean ["A"; "B"; " C "] ++ clean "[DONE]" :: []) = (ds, Some EOF))
      /\ inr (accumulate ds) = toResponse real (assembled demo_chunks))
  /\ (match toResponse real (assembled demo_chunks) with inr r => r_ToolCalls r | inl _ => [] end)
     = [{| tc_ID := "a"; tc_Name := "fs/read"; tc_Args := "{}" |}; {| tc_ID := "b"; tc_Name := "ls"; tc_Args := "{}" |}].
Proof.
  intros real. assert (H : Forall2 (is_chunk demo_decode) ["A"; "B"; " C "] demo_chunks).
  { repeat constructor; vm_compute; congruence. }
  split; [exact H|]. split; [exact (openai_stream_is_generate demo_decode real _ demo_chunks [] H)|vm_compute; reflexivity].
Defined.

Lemma demo_sendable g : sendable (demo_request g).
Proof.
  unfold sendable. cbn [pr_Messages demo_request demo_messages]. repeat (apply Forall_cons; split); try apply Forall_nil; try done;
    (split; [reflexivity|]); cbn [m_ToolCalls text_message]; try apply Forall_nil; try done.
  apply Forall_cons; split; [|by apply Forall_nil]. cbn. by left.
Qed.

Lemma openai_body_roundtrip_witness :
  sendable (demo_request None)
  /\ let b := buildBody (fun _ => None) (fun _ => JNull) demo_provider (demo_request None) true in
     read_messages (safeToReal (maps_of [named "fs/read"])) b
     = Some (text_message RoleSystem "be brief" :: map visible demo_messages).
Proof.
  split; [apply demo_sendable|].
  exact (proj1 (proj2 (openai_body_roundtrip (fun _ => None) (fun _ => JNull) demo_provider (demo_request None) true (demo_sendable None)))).
Defined.
