(* ===== verification/Anthropic.v ===== *)
(** * Anthropic

    src/anthropic_provider.go: the Messages API.  Which requests it refuses,
    the request body, and the answer, whole or as a stream of events.
    encoding/json is a parameter: [bind] decodes a document into a value,
    [decode_event] and [decode_full] the vendor's records. *)

From S2P Require Import Prelude GoStr Errors Provider ToolName Http Wire.

(** ** Configuration *)

Definition defaultAnthropicVersion : string := "2023-06-01".
Definition defaultAnthropicMaxTokens : Z := 4096.
Definition structuredOutputToolName : string := "structured_output".

Record AnthropicConfig := {
  ac_BaseURL : string;
  ac_APIKey : string;
  ac_Model : string;
  ac_MaxTokens : Z;
  ac_Version : string;
}.

Definition NewAnthropicProvider (cfg : AnthropicConfig) : result AnthropicConfig :=
  if String.eqb (ac_Model cfg) "" then inl (EText "agent: AnthropicConfig requires Model")
  else inr {| ac_BaseURL := text_or (ac_BaseURL cfg) "https://api.anthropic.com";
              ac_APIKey := ac_APIKey cfg; ac_Model := ac_Model cfg;
              ac_MaxTokens := if (ac_MaxTokens cfg <=? 0)%Z then defaultAnthropicMaxTokens else ac_MaxTokens cfg;
              ac_Version := text_or (ac_Version cfg) defaultAnthropicVersion |}.

Definition ProviderCapabilities : Capabilities := Capabilities_zero.

Definition anthropicCheck (req : ProviderRequest) : option error :=
  if is_set (pr_Seed req) then Some (wrap_sentinel ErrUnsupportedParam ": Seed (the Anthropic Messages API has no seed)")
  else if is_set (pr_Guided req)
  then Some (wrap_sentinel ErrUnsupportedParam ": Guided (the Anthropic Messages API has no decoding constraint)")
  else refusePenalties (pr_Penalties req) [] "the Anthropic Messages API has no sampling penalties".

(** ** The request *)

Section Body.
Context (bind : RawJSON -> option jval) (InputSchema : ToolDef -> jval).

Definition rawToInput (args : RawJSON) : jval :=
  if String.eqb args "" then JObj []
  else match bind args with
       | Some v => if is_nil v then JObj [] else v
       | None => JObj []
       end.

Definition text_block (t : string) : jval := JObj [("type", JStr "text"); ("text", JStr t)].

Definition tool_use_block (names : gmap string string) (tc : ToolCall) : jval :=
  JObj [("type", JStr "tool_use"); ("id", JStr (tc_ID tc)); ("name", JStr (safeToolName names (tc_Name tc)));
        ("input", rawToInput (tc_Args tc))].

Definition role_content (role : string) (content : list jval) : jval := JObj [("role", JStr role); ("content", JList content)].

Definition anthropic_message (names : gmap string string) (m : Message) : jval :=
  match m_Role m with
  | RoleUser => role_content "user" [text_block (m_Text m)]
  | RoleAssistant =>
      role_content "assistant"
        ((if negb (String.eqb (m_Text m) "") then [text_block (m_Text m)] else [])
         ++ map (tool_use_block names) (m_ToolCalls m))
  | RoleTool =>
      role_content "user" [JObj [("type", JStr "tool_result"); ("tool_use_id", JStr (m_ToolCallID m)); ("content", JStr (m_Text m))]]
  | _ => role_content "user" [text_block (m_Text m)]
  end.

Definition anthropicToolChoice (tc : ToolChoice) : option jval :=
  let m := tch_Mode tc in
  if String.eqb m "auto" then Some (JObj [("type", JStr "auto")])
  else if String.eqb m "required" then Some (JObj [("type", JStr "any")])
  else if String.eqb m "none" then Some (JObj [("type", JStr "none")])
  else if String.eqb m "function" then Some (JObj [("type", JStr "tool"); ("name", JStr (tch_Name tc))])
  else None.

Definition anthropic_tool (names : gmap string string) (td : ToolDef) : jval :=
  JObj [("name", JStr (default "" (names !! td_Name td))); ("description", JStr (td_Description td));
        ("input_schema", InputSchema td)].

Definition structured_tool (schema : jval) : jval :=
  JObj [("name", JStr structuredOutputToolName);
        ("description", JStr "Return the response as structured output conforming to the schema.");
        ("input_schema", schema)].

Definition is_structured (req : ProviderRequest) (stream : bool) : bool :=
  negb stream && negb (String.eqb (pr_ResponseSchema req) "").

Definition buildBody (cfg : AnthropicConfig) (req : ProviderRequest) (stream : bool) : body :=
  let names := realToSafe (maps_of (pr_Tools req)) in
  let msgs := map (anthropic_message names) (pr_Messages req) in
  let maxTokens := if (0 <? pr_MaxTokens req)%Z then pr_MaxTokens req else ac_MaxTokens cfg in
  let b : body := <["max_tokens" := JInt maxTokens]> (<["messages" := JList msgs]> {["model" := JStr (ac_Model cfg)]}) in
  let b := if negb (String.eqb (pr_Instructions req) "") then <["system" := JStr (pr_Instructions req)]> b else b in
  let b := put_some "temperature" (JFloat ∘ p_deref <$> pr_Temperature req) b in
  let tools := map (anthropic_tool names) (pr_Tools req) in
  let b :=
    if is_structured req stream then
      match bind (pr_ResponseSchema req) with
      | Some schema =>
          <["tool_choice" := JObj [("type", JStr "tool"); ("name", JStr structuredOutputToolName)]]>
            (<["tools" := JList (tools ++ [structured_tool schema])]> b)
      | None => b
      end
    else if bool_decide (tools = []) then b
    else
      let choice := pr_ToolChoice req in
      let choice := if String.eqb (tch_Mode choice) "function"
                    then {| tch_Mode := tch_Mode choice; tch_Name := safeToolName names (tch_Name choice) |} else choice in
      put_some "tool_choice" (anthropicToolChoice choice) (<["tools" := JList tools]> b) in
  if stream then <["stream" := JBool true]> b else b.

End Body.

Definition post {W Req F} (ep : endpoint W Req F) (cfg : AnthropicConfig) (b : body)
  : eff W net_event (option (send_error + HTTPResponse)) :=
  post_to ep (trim_suffix (ac_BaseURL cfg) "/" +:+ "/v1/messages")
          (("anthropic-version", ac_Version cfg) :: with_key "x-api-key" "" (ac_APIKey cfg)) b.

(** ** The answer *)

Record anthropicUsage := { au_Input : Z; au_CacheCreation : Z; au_CacheRead : Z; au_Output : Z }.

Definition promptTokens (u : anthropicUsage) : Z := au_Input u + au_CacheCreation u + au_CacheRead u.

Record anthropicContentBlock := {
  bl_Type : string; bl_Text : string; bl_Thinking : string; bl_ID : string; bl_Name : string; bl_Input : RawJSON;
}.

Record anthropicFull := { af_Content : list anthropicContentBlock; af_StopReason : string; af_Usage : option anthropicUsage }.

(** What [Generate] has read of the content so far. *)
Record content_read := { cr_Text : string; cr_Structured : string; cr_Reason : string; cr_ToolCalls : list ToolCall }.

Definition anthropic_read_block (real : gmap string string) (structured : bool) (r : content_read) (b : anthropicContentBlock) : content_read :=
  if String.eqb (bl_Type b) "text" then
    {| cr_Text := cr_Text r +:+ bl_Text b; cr_Structured := cr_Structured r; cr_Reason := cr_Reason r; cr_ToolCalls := cr_ToolCalls r |}
  else if String.eqb (bl_Type b) "thinking" then
    {| cr_Text := cr_Text r; cr_Structured := cr_Structured r; cr_Reason := cr_Reason r +:+ bl_Thinking b; cr_ToolCalls := cr_ToolCalls r |}
  else if String.eqb (bl_Type b) "tool_use" then
    let args := text_or (bl_Input b) "{}" in
    if structured && String.eqb (bl_Name b) structuredOutputToolName then
      {| cr_Text := cr_Text r; cr_Structured := args; cr_Reason := cr_Reason r; cr_ToolCalls := cr_ToolCalls r |}
    else
      {| cr_Text := cr_Text r; cr_Structured := cr_Structured r; cr_Reason := cr_Reason r;
         cr_ToolCalls := cr_ToolCalls r ++ [{| tc_ID := bl_ID b; tc_Name := realToolName real (bl_Name b);
                                               tc_Args := toolCallArgsFromJSON args |}] |}
  else r.

Definition toResponse (real : gmap string string) (structured : bool) (full : anthropicFull) : ProviderResponse :=
  let r := foldl (anthropic_read_block real structured) {| cr_Text := ""; cr_Structured := ""; cr_Reason := ""; cr_ToolCalls := [] |} (af_Content full) in
  {| r_Text := if String.eqb (cr_Structured r) "" then cr_Text r else cr_Structured r;
     r_Reasoning := cr_Reason r;
     r_ToolCalls := cr_ToolCalls r;
     r_FinishReason := af_StopReason full;
     r_Usage := (fun u => {| u_In := promptTokens u; u_Out := au_Output u; u_Cached := au_CacheRead u |}) <$> af_Usage full |}.

(** A streamed event; [None] is a nil pointer. *)
Record block_start := { bs_Type : string; bs_ID : string; bs_Name : string }.
Record event_delta := { ed_Type : string; ed_Text : string; ed_PartialJSON : string; ed_Thinking : string; ed_StopReason : string }.
Record anthropicSSE := {
  ev_Type : string;
  ev_Index : Z;
  ev_Message : option (option anthropicUsage);
  ev_ContentBlock : option block_start;
  ev_Delta : option event_delta;
  ev_Usage : option anthropicUsage;
  ev_Error : option (string * string);
}.

(** [anthropicStream]: the counts of message_start. *)
Record anthropicStream := { as_inputTokens : Z; as_cachedTokens : Z }.
Definition anthropicStream_zero : anthropicStream := {| as_inputTokens := 0; as_cachedTokens := 0 |}.

Definition nothing : result (list Delta * bool) := inr ([], false).
Definition said (ds : list Delta) : result (list Delta * bool) := inr (ds, false).

Definition eventDeltas (real : gmap string string) (s : anthropicStream) (msg : anthropicSSE)
  : result (list Delta * bool) * anthropicStream :=
  let t := ev_Type msg in
  if String.eqb t "message_start" then
    match ev_Message msg with
    | Some (Some u) => (nothing, {| as_inputTokens := promptTokens u; as_cachedTokens := au_CacheRead u |})
    | _ => (nothing, s)
    end
  else if String.eqb t "content_block_start" then
    match ev_ContentBlock msg with
    | Some b => if String.eqb (bs_Type b) "tool_use"
                then (said [start_delta (ev_Index msg) (bs_ID b) (realToolName real (bs_Name b))], s)
                else (nothing, s)
    | None => (nothing, s)
    end
  else if String.eqb t "content_block_delta" then
    match ev_Delta msg with
    | None => (nothing, s)
    | Some d =>
        if String.eqb (ed_Type d) "text_delta" then
          (said (if negb (String.eqb (ed_Text d) "") then [text_delta DeltaText (ed_Text d)] else []), s)
        else if String.eqb (ed_Type d) "input_json_delta" then
          (said (if negb (String.eqb (ed_PartialJSON d) "") then [args_delta (ev_Index msg) (ed_PartialJSON d)] else []), s)
        else if String.eqb (ed_Type d) "thinking_delta" then
          (said (if negb (String.eqb (ed_Thinking d) "") then [text_delta DeltaReasoning (ed_Thinking d)] else []), s)
        else (nothing, s)
    end
  else if String.eqb t "message_delta" then
    let finish := match ev_Delta msg with
                  | Some d => if negb (String.eqb (ed_StopReason d) "") then [finish_delta (ed_StopReason d)] else []
                  | None => []
                  end in
    let usage := match ev_Usage msg with
                 | Some u => [usage_delta {| u_In := as_inputTokens s; u_Out := au_Output u; u_Cached := as_cachedTokens s |}]
                 | None => []
                 end in
    (said (finish ++ usage), s)
  else if String.eqb t "message_stop" then (inr ([], true), s)
  else if String.eqb t "error" then
    match ev_Error msg with
    | Some (ty, m) => (inl (EText ("agent: anthropic stream error (" +:+ ty +:+ "): " +:+ m)), s)
    | None => (inl (EText "agent: anthropic stream error"), s)
    end
  else (nothing, s).

Section Answer.
Context (bind : RawJSON -> option jval) (InputSchema : ToolDef -> jval)
  (decode_event : string -> result anthropicSSE) (decode_full : string -> result anthropicFull).

Definition decode (real : gmap string string) (s : anthropicStream) (payload : string)
  : result (list Delta * bool) * anthropicStream :=
  match decode_event payload with
  | inl err => (inl (wrap_error "agent: bad SSE event: " err), s)
  | inr msg => eventDeltas real s msg
  end.

Context {W Req F : Type} (ep : endpoint W Req F).

Definition Stream (cfg : AnthropicConfig) (req : ProviderRequest)
  : eff W net_event (option (send_error + (gmap string string * sseStream anthropicStream))) :=
  match anthropicCheck req with
  | Some err => eff_ret (Some (send_failed err))
  | None =>
      (let* resp := post ep cfg (buildBody bind InputSchema cfg req true) in
       eff_ret (match resp with
                | None => None
                | Some (inl err) => Some (inl err)
                | Some (inr _) => Some (inr (safeToReal (maps_of (pr_Tools req)), open_stream anthropicStream_zero))
                end))%eff
  end.

Definition Generate (cfg : AnthropicConfig) (req : ProviderRequest)
  : eff W net_event (option (send_error + ProviderResponse)) :=
  match anthropicCheck req with
  | Some err => eff_ret (Some (send_failed err))
  | None =>
      (let* resp := post ep cfg (buildBody bind InputSchema cfg req false) in
       eff_ret (match resp with
                | None => None
                | Some (inl err) => Some (inl err)
                | Some (inr resp) =>
                    match decode_full (hr_Body resp) with
                    | inl err => Some (send_failed (wrap_error "agent: decode message: " err))
                    | inr full => Some (inr (toResponse (safeToReal (maps_of (pr_Tools req)))
                                                        (negb (String.eqb (pr_ResponseSchema req) "")) full))
                    end
                end))%eff
  end.

End Answer.

(** * Properties *)

(** ** A message as the server streams it *)

Definition event0 (t : string) : anthropicSSE :=
  {| ev_Type := t; ev_Index := 0; ev_Message := None; ev_ContentBlock := None; ev_Delta := None; ev_Usage := None; ev_Error := None |}.

Definition message_start (u : anthropicUsage) : anthropicSSE :=
  {| ev_Type := "message_start"; ev_Index := 0; ev_Message := Some (Some u); ev_ContentBlock := None; ev_Delta := None;
     ev_Usage := None; ev_Error := None |}.

Definition block_opens (i : Z) (ty id name : string) : anthropicSSE :=
  {| ev_Type := "content_block_start"; ev_Index := i; ev_Message := None;
     ev_ContentBlock := Some {| bs_Type := ty; bs_ID := id; bs_Name := name |}; ev_Delta := None; ev_Usage := None; ev_Error := None |}.

Definition block_delta (i : Z) (d : event_delta) : anthropicSSE :=
  {| ev_Type := "content_block_delta"; ev_Index := i; ev_Message := None; ev_ContentBlock := None; ev_Delta := Some d;
     ev_Usage := None; ev_Error := None |}.

Definition text_piece (t : string) : event_delta :=
  {| ed_Type := "text_delta"; ed_Text := t; ed_PartialJSON := ""; ed_Thinking := ""; ed_StopReason := "" |}.
Definition json_piece (t : string) : event_delta :=
  {| ed_Type := "input_json_delta"; ed_Text := ""; ed_PartialJSON := t; ed_Thinking := ""; ed_StopReason := "" |}.
Definition thinking_piece (t : string) : event_delta :=
  {| ed_Type := "thinking_delta"; ed_Text := ""; ed_PartialJSON := ""; ed_Thinking := t; ed_StopReason := "" |}.

Definition message_delta (reason : string) (u : anthropicUsage) : anthropicSSE :=
  {| ev_Type := "message_delta"; ev_Index := 0; ev_Message := None; ev_ContentBlock := None;
     ev_Delta := Some {| ed_Type := ""; ed_Text := ""; ed_PartialJSON := ""; ed_Thinking := ""; ed_StopReason := reason |};
     ev_Usage := Some u; ev_Error := None |}.

Definition message_stop : anthropicSSE := event0 "message_stop".

(** The events of a block at index [i], its text cut up anywhere.  A tool call
    without input is streamed without pieces. *)
Inductive block_events (i : Z) (b : anthropicContentBlock) : list anthropicSSE -> Prop :=
| text_events id name ts : bl_Type b = "text" -> str_concat ts = bl_Text b ->
    block_events i b (block_opens i "text" id name :: map (fun t => block_delta i (text_piece t)) ts)
| thinking_events id name ts : bl_Type b = "thinking" -> str_concat ts = bl_Thinking b ->
    block_events i b (block_opens i "thinking" id name :: map (fun t => block_delta i (thinking_piece t)) ts)
| tool_events ts : bl_Type b = "tool_use" -> text_or (str_concat ts) "{}" = text_or (bl_Input b) "{}" ->
    block_events i b (block_opens i "tool_use" (bl_ID b) (bl_Name b) :: map (fun t => block_delta i (json_piece t)) ts)
| other_events : bl_Type b <> "text" -> bl_Type b <> "thinking" -> bl_Type b <> "tool_use" ->
    block_events i b [block_opens i (bl_Type b) "" ""].

Inductive blocks_events : Z -> list anthropicContentBlock -> list anthropicSSE -> Prop :=
| no_blocks i : blocks_events i [] []
| more_blocks i b bs es es' : block_events i b es -> blocks_events (i + 1) bs es' -> blocks_events i (b :: bs) (es ++ es').

(** Events that say nothing, which may stand anywhere. *)
Definition silent (e : anthropicSSE) : Prop :=
  ev_Type e = "ping" \/ ev_Type e = "content_block_stop"
  \/ (ev_Type e = "content_block_delta" /\ (ed_Type <$> ev_Delta e) = Some "signature_delta").

#[export] Instance silent_dec e : Decision (silent e).
Proof. unfold silent. apply _. Defined.

(** A stream of [full]: the prompt is counted at the start, the output at the
    end. *)
Definition streams (full : anthropicFull) (es : list anthropicSSE) : Prop :=
  exists u0 u1 blocks,
    blocks_events 0 (af_Content full) blocks
    /\ filter (fun e => ~ silent e) es = message_start u0 :: blocks ++ [message_delta (af_StopReason full) u1]
    /\ af_Usage full = Some {| au_Input := au_Input u0; au_CacheCreation := au_CacheCreation u0;
                               au_CacheRead := au_CacheRead u0; au_Output := au_Output u1 |}.

(** ** What a block says *)

Section Streaming.
Context (real : gmap string string).

Definition anthropic_text (b : anthropicContentBlock) : string := if String.eqb (bl_Type b) "text" then bl_Text b else "".
Definition block_thinking (b : anthropicContentBlock) : string := if String.eqb (bl_Type b) "thinking" then bl_Thinking b else "".
Definition block_calls (b : anthropicContentBlock) : list ToolCall :=
  if String.eqb (bl_Type b) "tool_use" then [answered_call real (bl_ID b) (bl_Name b) (bl_Input b)] else [].

Lemma anthropic_read_blocks bs r :
  let r' := foldl (anthropic_read_block real false) r bs in
  cr_Text r' = cr_Text r +:+ str_concat (anthropic_text <$> bs)
  /\ cr_Reason r' = cr_Reason r +:+ str_concat (block_thinking <$> bs)
  /\ cr_ToolCalls r' = cr_ToolCalls r ++ concat (block_calls <$> bs)
  /\ cr_Structured r' = cr_Structured r.
Proof.
  revert r. induction bs as [|b bs IH]; intros r; cbv zeta; cbn [foldl fmap list_fmap concat].
  { by rewrite !app_empty_r, app_nil_r. }
  destruct (IH (anthropic_read_block real false r b)) as (-> & -> & -> & ->). unfold anthropic_read_block, anthropic_text, block_thinking, block_calls.
  cbn [andb]. change (str_concat (?x :: ?l)) with (x +:+ str_concat l).
  destruct (String.eqb_spec (bl_Type b) "text"), (String.eqb_spec (bl_Type b) "thinking"), (String.eqb_spec (bl_Type b) "tool_use");
    try congruence; cbn [cr_Text cr_Structured cr_Reason cr_ToolCalls app]; rewrite ?app_assoc_str; rewrite <- ?app_assoc;
    rewrite ?app_empty_l; done.
Qed.

(** The deltas of an event as a total step. *)
Definition event_step (s : anthropicStream) (e : anthropicSSE) : list Delta * anthropicStream :=
  match eventDeltas real s e with
  | (inr (ds, _), s) => (ds, s)
  | (inl _, s) => ([], s)
  end.

Lemma anthropic_pieces_say i s f (g : string -> list Delta) ts :
  (forall t, event_step s (block_delta i (f t)) = (g t, s)) ->
  events_say event_step s (map (fun t => block_delta i (f t)) ts) = (concat (g <$> ts), s).
Proof. intros H. induction ts as [|t ts IH]; [done|]. cbn [map events_say]. rewrite H, IH. done. Qed.

Lemma opens_says i s ty id name :
  event_step s (block_opens i ty id name) = (if String.eqb ty "tool_use" then [start_delta i id (realToolName real name)] else [], s).
Proof. unfold event_step, eventDeltas. cbn. by destruct (String.eqb ty "tool_use"). Qed.

Lemma block_events_say i b es s : block_events i b es ->
  exists ds, events_say event_step s es = (ds, s) /\ says i (i + 1) ds (anthropic_text b) (block_thinking b) (block_calls b).
Proof.
  intros H. unfold anthropic_text, block_thinking, block_calls.
  destruct H as [id name ts Ht Hc|id name ts Ht Hc|ts Ht Hc|H1 H2 H3]; cbn [events_say]; rewrite opens_says; try rewrite Ht;
    cbn [String.eqb Ascii.eqb Bool.eqb].
  - exists (concat (opt_text DeltaText <$> ts)). split; [by rewrite (anthropic_pieces_say i s text_piece (opt_text DeltaText))|].
    rewrite <- Hc. apply (says_pieces _ _ DeltaText); auto.
  - exists (concat (opt_text DeltaReasoning <$> ts)). split; [by rewrite (anthropic_pieces_say i s thinking_piece (opt_text DeltaReasoning))|].
    rewrite <- Hc. apply (says_pieces _ _ DeltaReasoning); auto.
  - exists (start_delta i (bl_ID b) (realToolName real (bl_Name b)) :: concat (opt_args i <$> ts)).
    split; [by rewrite (anthropic_pieces_say i s json_piece (opt_args i))|].
    pose proof (says_call i (start_delta i (bl_ID b) (realToolName real (bl_Name b))) ts eq_refl eq_refl) as Hs.
    unfold finish_call in Hs. cbn in Hs. rewrite app_empty_l in Hs. unfold text_or in Hc. rewrite Hc in Hs. exact Hs.
  - exists []. split; [by destruct (String.eqb_spec (bl_Type b) "tool_use")|].
    destruct (String.eqb_spec (bl_Type b) "text"), (String.eqb_spec (bl_Type b) "thinking"), (String.eqb_spec (bl_Type b) "tool_use"); try congruence.
    apply (says_pieces i (i + 1) DeltaText [] (opt_text DeltaText)); auto.
Qed.

(** What the blocks of a message say together. *)
Lemma blocks_events_say i bs es s : blocks_events i bs es ->
  exists ds hi, events_say event_step s es = (ds, s) /\ (i <= hi)%Z
  /\ says i hi ds (str_concat (anthropic_text <$> bs)) (str_concat (block_thinking <$> bs)) (concat (block_calls <$> bs)).
Proof.
  induction 1 as [i|i b bs es es' Hb _ (ds' & hi & He' & Hi & Hs')].
  { exists [], i. split; [done|]. split; [done|apply says_nothing]. }
  destruct (block_events_say i b es s Hb) as (ds & He & Hs). exists (ds ++ ds'), hi.
  split; [by rewrite events_say_app, He, He'|]. split; [lia|]. cbn [fmap list_fmap concat].
  change (str_concat (?x :: ?l)) with (x +:+ str_concat l). eapply says_app; [|exact Hs|exact Hs']. lia.
Qed.

(** Silent events change nothing. *)
Lemma anthropic_silent_step s e : silent e -> event_step s e = ([], s).
Proof.
  unfold silent, event_step, eventDeltas. intros [-> | [-> | [-> Hd]]]; cbn; [done|done|].
  destruct (ev_Delta e) as [d|]; [|done]. cbn in Hd. injection Hd as ->. done.
Qed.

Lemma anthropic_events_say_filter s es : events_say event_step s es = events_say event_step s (filter (fun e => ~ silent e) es).
Proof.
  revert s. induction es as [|e es IH]; intros s; [done|]. rewrite filter_cons. destruct (decide (~ silent e)) as [Hn|Hn].
  - cbn [events_say]. destruct (event_step s e) as [ds s']. by rewrite IH.
  - cbn [events_say]. rewrite anthropic_silent_step by (by destruct (decide (silent e))). rewrite IH. by destruct (events_say _ _ _).
Qed.

(** A stream of a message accumulates to what [Generate] makes of it. *)
Lemma anthropic_accumulate_streams full es : streams full es ->
  accumulate (events_say event_step anthropicStream_zero es).1 = toResponse real false full.
Proof.
  intros (u0 & u1 & blocks & Hb & Hf & Hu). rewrite anthropic_events_say_filter, Hf. cbn [events_say].
  set (s := {| as_inputTokens := promptTokens u0; as_cachedTokens := au_CacheRead u0 |}).
  change (event_step anthropicStream_zero (message_start u0)) with ([] : list Delta, s). cbv beta iota. rewrite events_say_app.
  destruct (blocks_events_say 0 (af_Content full) blocks s Hb) as (ds & hi & -> & _ & Hs).
  set (fin := opt_list finish_delta (if String.eqb (af_StopReason full) "" then None else Some (af_StopReason full))).
  set (us := usage_delta {| u_In := promptTokens u0; u_Out := au_Output u1; u_Cached := au_CacheRead u0 |}).
  assert (Htail : events_say event_step s [message_delta (af_StopReason full) u1] = (fin ++ [us], s)).
  { cbn [events_say]. unfold event_step, eventDeltas, fin. cbn. by destruct (String.eqb (af_StopReason full) ""). }
  rewrite Htail. cbn [fst app]. erewrite accumulate_says; [|exact Hs|].
  2:{ apply Forall_app. split; [unfold fin; destruct (String.eqb _ _); cbn; [constructor|]|]; (constructor; [|constructor]); [by left|by right]. }
  unfold toResponse. destruct (anthropic_read_blocks (af_Content full) {| cr_Text := ""; cr_Structured := ""; cr_Reason := ""; cr_ToolCalls := [] |})
    as (-> & -> & -> & ->). cbn [cr_Text cr_Structured cr_Reason cr_ToolCalls String.eqb app]. rewrite !app_empty_l. f_equal.
  - unfold fin. destruct (String.eqb_spec (af_StopReason full) "") as [->|]; done.
  - rewrite Hu. unfold fin. by destruct (String.eqb (af_StopReason full) "").
Qed.

(** Nothing of a streamed message fails or ends the stream. *)
Definition ongoing (e : anthropicSSE) : Prop := forall s, exists ds, eventDeltas real s e = (inr (ds, false), (event_step s e).2).

Lemma ongoing_types e :
  ev_Type e = "message_start" \/ ev_Type e = "content_block_start" \/ ev_Type e = "content_block_delta" \/ ev_Type e = "message_delta"
  \/ ev_Type e = "ping" \/ ev_Type e = "content_block_stop" -> ongoing e.
Proof.
  intros H s. assert (exists ds s', eventDeltas real s e = (inr (ds, false), s')) as (ds & s' & E).
  { unfold eventDeltas. destruct H as [-> | [-> | [-> | [-> | [-> | ->]]]]]; cbn; repeat case_match; do 2 eexists; reflexivity. }
  exists ds. unfold event_step. by rewrite E.
Qed.

Lemma block_events_types i b es : block_events i b es -> Forall ongoing es.
Proof.
  assert (Hd : forall (f : string -> event_delta) ts, Forall ongoing (map (fun t => block_delta i (f t)) ts)).
  { intros f ts. apply Forall_forall. intros e He. apply (proj1 (list_elem_of_fmap _ _ _)) in He as (t & -> & _). apply ongoing_types. cbn. auto 10. }
  intros [??? _ _|??? _ _|? _ _|_ _ _]; (constructor; [apply ongoing_types; cbn; auto 10|first [apply Hd|constructor]]).
Qed.

Lemma anthropic_streams_ongoing full es : streams full es -> Forall ongoing es.
Proof.
  intros (u0 & u1 & blocks & Hb & Hf & _).
  assert (Hok : Forall ongoing (filter (fun e => ~ silent e) es)).
  { rewrite Hf. constructor; [apply ongoing_types; cbn; auto 10|]. apply Forall_app. split.
    - clear Hf. induction Hb; [constructor|]. apply Forall_app. split; [by eapply block_events_types|done].
    - constructor; [apply ongoing_types; cbn; auto 10|constructor]. }
  apply Forall_forall. intros e He. destruct (decide (silent e)) as [[?|[?|[? _]]]|Hn]; [apply ongoing_types; auto 10..|].
  rewrite Forall_forall in Hok. apply Hok. by apply list_elem_of_filter.
Qed.

End Streaming.

Section Whole.
Context (decode_event : string -> result anthropicSSE).

(** A payload that is an event of a message. *)
Definition is_event (payload : string) (e : anthropicSSE) : Prop :=
  trim_space payload <> "" /\ decode_event (trim_space payload) = inr e.

(** Reading a stream of a message to message_stop accumulates to what
    Generate makes of the same message: the text and the reasoning of its
    blocks in order, its tool calls under their own names with the arguments
    of their blocks, the stop reason, and a usage that counts the prompt with
    what was read from and written to the cache, whatever pings and
    signatures stand between. *)
Theorem anthropic_stream_is_generate real full payloads es stop rest :
  streams full es -> Forall2 is_event payloads es -> is_event stop message_stop ->
  exists n, forall m, n <= m ->
    let out := drain_deltas (decode decode_event real) m (open_stream anthropicStream_zero) (map clean payloads ++ clean stop :: rest) in
    out.2 = Some EOF /\ accumulate out.1 = toResponse real false full.
Proof.
  intros Hs Hp [Hne Hstop]. set (ds := (events_say (event_step real) anthropicStream_zero es).1).
  assert (Hsay : to_say (decode decode_event real) (open_stream anthropicStream_zero) (map clean payloads ++ clean stop :: rest) = (ds, Some EOF)).
  { unfold open_stream. rewrite to_say_empty. rewrite (clean_ticks_say _ (event_step real) _ payloads es).
    - unfold ds. destruct (events_say _ _ es) as [ds' s']. cbn [ticks_say]. unfold tick_says. cbn [tk_before tk_err tk_Data clean].
      unfold payload_says, decode. destruct (String.eqb_spec (trim_space stop) ""); [done|]. rewrite Hstop. cbn. by rewrite app_nil_r.
    - pose proof (anthropic_streams_ongoing real full es Hs) as Ho. clear -Hp Ho. induction Hp as [|p e ps es [Hne He] _ IH]; [constructor|].
      inversion Ho as [|? ? Hoe Ho']; subst. constructor; [|by apply IH]. split; [done|]. intros s. unfold decode. rewrite He.
      destruct (Hoe s) as [ds Hds]. rewrite Hds. unfold event_step in *. rewrite Hds in *. done. }
  exists (S (length ds)). intros m Hm. rewrite stream_drained, Hsay by (rewrite Hsay; cbn [fst]; lia).
  split; [done|]. by apply anthropic_accumulate_streams.
Qed.

End Whole.

(** ** The request body *)

Section BodyProps.
Context (bind : RawJSON -> option jval) (InputSchema : ToolDef -> jval).

(** Every request of a provider bounds its output. *)
Lemma max_tokens_sent cfg p req stream : NewAnthropicProvider cfg = inr p ->
  exists n, buildBody bind InputSchema p req stream !! "max_tokens" = Some (JInt n) /\ (0 < n)%Z.
Proof.
  intros Hp. assert (Hmax : (0 < ac_MaxTokens p)%Z).
  { unfold NewAnthropicProvider in Hp. destruct (String.eqb (ac_Model cfg) ""); simplify_eq. cbn.
    destruct (Z.leb_spec (ac_MaxTokens cfg) 0); unfold defaultAnthropicMaxTokens; lia. }
  exists (if (0 <? pr_MaxTokens req)%Z then pr_MaxTokens req else ac_MaxTokens p).
  split; [|destruct (Z.ltb_spec 0 (pr_MaxTokens req)); lia].
  unfold buildBody. cbv zeta. 
  repeat match goal with
         | |- (if ?c then _ else _) !! _ = _ => destruct c
         | |- (match ?c with Some _ => _ | None => _ end) !! _ = _ => destruct c
         | |- put_some ?k ?v ?b !! _ = _ => rewrite (put_some_ne k "max_tokens" v b) by done
         | |- <["max_tokens" := _]> _ !! _ = _ => by rewrite lookup_insert_eq
         | |- <[?k := ?v]> ?b !! _ = _ => rewrite (lookup_insert_ne b k "max_tokens") by done
         end.
Qed.

(** The name of every tool of a body. *)
Definition body_tool_names (b : body) : list string :=
  omap (fun v => field "name" v ≫= as_str) (default [] (b !! "tools" ≫= as_list)).

End BodyProps.

(** A request for a structured answer that offers a tool of that name sends
    the name twice, and a call of the user's tool is taken for the answer. *)
Lemma structured_name_taken :
  let req := {| pr_Instructions := ""; pr_Messages := [text_message RoleUser "hi"]; pr_Tools := [named "structured_output"];
                pr_Temperature := None; pr_MaxTokens := 0; pr_ToolChoice := ToolChoice_zero; pr_Seed := None; pr_Penalties := None;
                pr_Guided := None; pr_ResponseSchema := "{}" |} in
  let cfg := {| ac_BaseURL := ""; ac_APIKey := ""; ac_Model := "m"; ac_MaxTokens := 1; ac_Version := "" |} in
  body_tool_names (buildBody (fun doc => Some (JDoc doc)) (fun _ => JNull) cfg req false) = ["structured_output"; "structured_output"]
  /\ (forall real id, r_ToolCalls (toResponse real true
        {| af_Content := [{| bl_Type := "tool_use"; bl_Text := ""; bl_Thinking := ""; bl_ID := id; bl_Name := "structured_output"; bl_Input := "{}" |}];
           af_StopReason := "tool_use"; af_Usage := None |}) = []).
Proof. split; [vm_compute; reflexivity|reflexivity]. Qed.

(** * Witnesses *)

Definition demo_usage (i o : Z) : anthropicUsage := {| au_Input := i; au_CacheCreation := 2; au_CacheRead := 3; au_Output := o |}.
Definition demo_call : anthropicContentBlock :=
  {| bl_Type := "tool_use"; bl_Text := ""; bl_Thinking := ""; bl_ID := "t1"; bl_Name := "ls"; bl_Input := "{}" |}.
Definition demo_full : anthropicFull :=
  {| af_Content := [{| bl_Type := "text"; bl_Text := "hello"; bl_Thinking := ""; bl_ID := ""; bl_Name := ""; bl_Input := "" |};
                    demo_call];
     af_StopReason := "tool_use"; af_Usage := Some (demo_usage 10 20) |}.

Definition demo_events : list anthropicSSE :=
  [message_start (demo_usage 10 0); event0 "ping"; block_opens 0 "text" "" ""; block_delta 0 (text_piece "hel");
   block_delta 0 (text_piece "lo"); event0 "content_block_stop"; block_opens 1 "tool_use" "t1" "ls";
   message_delta "tool_use" (demo_usage 0 20)].
Definition demo_payloads : list string := ["A"; "B"; "C"; "D"; "E"; "F"; "G"; "H"].
Definition demo_decode (s : string) : result anthropicSSE :=
  match List.find (fun '(k, _) => String.eqb k s) (zip ("Z" :: demo_payloads) (message_stop :: demo_events)) with
  | Some (_, e) => inr e | None => inl (EText "invalid character") end.

Lemma anthropic_demo_streams : streams demo_full demo_events.
Proof.
  exists (demo_usage 10 0), (demo_usage 0 20),
    [block_opens 0 "text" "" ""; block_delta 0 (text_piece "hel"); block_delta 0 (text_piece "lo"); block_opens 1 "tool_use" "t1" "ls"].
  split; [|split; reflexivity].
  apply (more_blocks 0 _ _ [_; _; _] [_]); [by apply (text_events _ _ "" "" ["hel"; "lo"])|].
  change (0 + 1)%Z with 1%Z. apply (more_blocks 1 _ _ [_] []); [exact (tool_events 1 demo_call [] eq_refl eq_refl)|constructor].
Defined.

Lemma anthropic_stream_is_generate_witness :
  streams demo_full demo_events /\ Forall2 (is_event demo_decode) demo_payloads demo_events /\ is_event demo_decode "Z" message_stop
  /\ (exists n, forall m, n <= m ->
    let out := drain_deltas (decode demo_decode ∅) m (open_stream anthropicStream_zero) (map clean demo_payloads ++ clean "Z" :: []) in
    out.2 = Some EOF /\ accumulate out.1 = toResponse ∅ false demo_full).
Proof.
  assert (Hp : Forall2 (is_event demo_decode) demo_payloads demo_events) by (repeat constructor; vm_compute; congruence).
  assert (Hz : is_event demo_decode "Z" message_stop) by (split; vm_compute; congruence).
  split; [exact anthropic_demo_streams|]. split; [exact Hp|]. split; [exact Hz|].
  exact (anthropic_stream_is_generate demo_decode ∅ demo_full demo_payloads demo_events "Z" [] anthropic_demo_streams Hp Hz).
Defined.
