(* ===== verification/Cursors.v ===== *)
(** * Cursors

    src/responses_cursor.go: the key under which a conversation's response is
    remembered and the bounded cache that remembers it.  SHA-256 is a
    parameter; that it does not collide is a hypothesis.  The cache's
    container/list is a list of elements with identities, as in Linked.v, and
    its contract an association list, most recently used first. *)

From S2P Require Import Prelude GoStr Errors Provider ToolName Http Wire.

(** ** The key *)

(** [binary.BigEndian.PutUint64]. *)
Fixpoint be_bytes (k : nat) (z : Z) : string :=
  match k with
  | O => ""
  | S k => String (Ascii.ascii_of_nat (Z.to_nat (z / 256 ^ Z.of_nat k mod 256))) (be_bytes k z)
  end.

Definition count (n : nat) : string := be_bytes 8 (Z.of_nat n mod 2 ^ 64).
Definition key_field (s : string) : string := count (String.length s) +:+ s.

Definition call_bytes (tc : ToolCall) : string := key_field (tc_ID tc) +:+ key_field (tc_Name tc) +:+ key_field (tc_Args tc).

Definition message_bytes (m : Message) : string :=
  key_field (role_text (m_Role m)) +:+ key_field (m_Text m) +:+ key_field (m_ToolCallID m)
  +:+ count (length (m_ToolCalls m)) +:+ str_concat (map call_bytes (m_ToolCalls m)).

(** What the key is taken of. *)
Definition history_bytes (msgs : list Message) : string := str_concat (map message_bytes msgs).

Definition cursorKey {K} (sha256 : string -> K) (msgs : list Message) : K := sha256 (history_bytes msgs).

(** ** The cache *)

Section Cache.
Context {K : Type} `{Countable K}.

Record cursorCache := {
  cc_max : nat;
  cc_order : list (nat * (K * string));
  cc_byKey : gmap K nat;
  cc_next : nat;
}.

Definition newCursorCache (max : nat) : cursorCache := {| cc_max := max; cc_order := []; cc_byKey := ∅; cc_next := 0 |}.

Definition with_order (c : cursorCache) (order : list (nat * (K * string))) (byKey : gmap K nat) : cursorCache :=
  {| cc_max := cc_max c; cc_order := order; cc_byKey := byKey; cc_next := cc_next c |}.

(** [e.Value], [order.Remove(e)] and [order.MoveToFront(e)]. *)
Definition element (e : nat) (order : list (nat * (K * string))) : option (K * string) := snd <$> List.find (fun n => Nat.eqb n.1 e) order.
Definition unlink (e : nat) (order : list (nat * (K * string))) : list (nat * (K * string)) := filter (fun n => n.1 <> e) order.
Definition move_front (e : nat) (v : K * string) (order : list (nat * (K * string))) : list (nat * (K * string)) := (e, v) :: unlink e order.

(** [None] where the code would dereference an element that is not there. *)
Definition cache_get (c : cursorCache) (k : K) : option (option string * cursorCache) :=
  match cc_byKey c !! k with
  | None => Some (None, c)
  | Some e => v ← element e (cc_order c); Some (Some v.2, with_order c (move_front e v (cc_order c)) (cc_byKey c))
  end.

(** [for c.order.Len() > c.max]: the back element goes. *)
Fixpoint trim (fuel : nat) (c : cursorCache) : cursorCache :=
  match fuel, last (cc_order c) with
  | S fuel, Some (e, (k, _)) =>
      if Nat.ltb (cc_max c) (length (cc_order c))
      then trim fuel (with_order c (unlink e (cc_order c)) (delete k (cc_byKey c)))
      else c
  | _, _ => c
  end.

Definition cache_put (c : cursorCache) (k : K) (id : string) : option cursorCache :=
  match cc_byKey c !! k with
  | Some e => v ← element e (cc_order c); Some (with_order c (move_front e (v.1, id) (cc_order c)) (cc_byKey c))
  | None =>
      let e := cc_next c in
      let order := (e, (k, id)) :: cc_order c in
      Some (trim (length order) {| cc_max := cc_max c; cc_order := order; cc_byKey := <[k := e]> (cc_byKey c); cc_next := S e |})
  end.

Definition cache_drop (c : cursorCache) (k : K) : cursorCache :=
  match cc_byKey c !! k with
  | Some e => with_order c (unlink e (cc_order c)) (delete k (cc_byKey c))
  | None => c
  end.

Definition cache_len (c : cursorCache) : nat := length (cc_order c).

(** ** The contract *)

Definition rec_without (k : K) (l : list (K * string)) : list (K * string) := filter (fun x => x.1 <> k) l.
Definition rec_id (k : K) (l : list (K * string)) : option string := snd <$> List.find (fun x => bool_decide (x.1 = k)) l.

Definition rec_get (k : K) (l : list (K * string)) : option string * list (K * string) :=
  match rec_id k l with
  | Some id => (Some id, (k, id) :: rec_without k l)
  | None => (None, l)
  end.

(** A put that makes room drops what was used least recently. *)
Definition rec_put (max : nat) (k : K) (id : string) (l : list (K * string)) : list (K * string) :=
  match rec_id k l with
  | Some _ => (k, id) :: rec_without k l
  | None => take max ((k, id) :: l)
  end.

(** The cache stands for a recency list. *)
Definition entries (c : cursorCache) : list (K * string) := map snd (cc_order c).

Record cache_ok (c : cursorCache) : Prop := {
  co_ids : NoDup (map fst (cc_order c));
  co_fresh : Forall (fun n => n.1 < cc_next c) (cc_order c);
  co_keys : NoDup (map (fun n => n.2.1) (cc_order c));
  co_byKey : forall k e, cc_byKey c !! k = Some e <-> exists id, (e, (k, id)) ∈ cc_order c;
  co_max : length (cc_order c) <= cc_max c;
  co_room : 0 < cc_max c;
}.

End Cache.
Arguments cursorCache K {_ _}.

(** * Properties *)

(** ** The key tells conversations apart *)

Lemma be_bytes_length k z : String.length (be_bytes k z) = k.
Proof. induction k; cbn; congruence. Qed.

Lemma be_bytes_inj k z w : (0 <= z < 256 ^ Z.of_nat k)%Z -> (0 <= w < 256 ^ Z.of_nat k)%Z -> be_bytes k z = be_bytes k w -> z = w.
Proof.
  intros Hz Hw He. assert (Hk : (z mod 256 ^ Z.of_nat k = w mod 256 ^ Z.of_nat k)%Z).
  { clear Hz Hw. induction k as [|k IH]; [by rewrite !Z.mod_1_r|]. cbn [be_bytes] in He. injection He as Hb He. specialize (IH He).
    assert (Hdiv : (z / 256 ^ Z.of_nat k mod 256 = w / 256 ^ Z.of_nat k mod 256)%Z).
    { pose proof (Z.mod_pos_bound (z / 256 ^ Z.of_nat k) 256 ltac:(lia)). pose proof (Z.mod_pos_bound (w / 256 ^ Z.of_nat k) 256 ltac:(lia)).
      apply (f_equal Ascii.nat_of_ascii) in Hb. rewrite !Ascii.nat_ascii_embedding in Hb by lia. lia. }
    assert (Hp : (0 < 256 ^ Z.of_nat k)%Z) by (apply Z.pow_pos_nonneg; lia).
    rewrite Nat2Z.inj_succ, Z.pow_succ_r, Z.mul_comm by lia. rewrite !Z.rem_mul_r by lia. by rewrite IH, Hdiv. }
  by rewrite !Z.mod_small in Hk.
Qed.

(** Lengths a 64-bit int can hold. *)
Definition fits (n : nat) : Prop := (Z.of_nat n <= int64_max)%Z.

Lemma count_app_inj n m s t : fits n -> fits m -> count n +:+ s = count m +:+ t -> n = m /\ s = t.
Proof.
  unfold fits, int64_max, count. intros Hn Hm He. apply app_inj_str in He as [He ->]; [|by rewrite !be_bytes_length].
  split; [|done]. rewrite !Z.mod_small in He by lia. apply be_bytes_inj in He; lia.
Qed.

Lemma field_app_inj a b s t : fits (String.length a) -> fits (String.length b) -> key_field a +:+ s = key_field b +:+ t -> a = b /\ s = t.
Proof.
  unfold key_field. rewrite !app_assoc_str. intros Ha Hb He. apply count_app_inj in He as [Hl He]; [|done..].
  by apply app_inj_str in He.
Qed.

Definition fits_call (tc : ToolCall) : Prop :=
  fits (String.length (tc_ID tc)) /\ fits (String.length (tc_Name tc)) /\ fits (String.length (tc_Args tc)).
Definition fits_message (m : Message) : Prop :=
  fits (String.length (role_text (m_Role m))) /\ fits (String.length (m_Text m)) /\ fits (String.length (m_ToolCallID m))
  /\ fits (length (m_ToolCalls m)) /\ Forall fits_call (m_ToolCalls m).

(** What the key sees of a message. *)
Definition keyed (m : Message) : string * string * string * list ToolCall := (role_text (m_Role m), m_Text m, m_ToolCallID m, m_ToolCalls m).

Lemma calls_app_inj l l' s t : Forall fits_call l -> Forall fits_call l' -> length l = length l' ->
  str_concat (map call_bytes l) +:+ s = str_concat (map call_bytes l') +:+ t -> l = l' /\ s = t.
Proof.
  intros Hl. revert l'. induction Hl as [|c l (Hi & Hn & Ha) _ IH]; intros [|c' l'] Hl' Hlen He; [done|done|done|].
  inversion Hl' as [|? ? (Hi' & Hn' & Ha') Hl'']; subst. injection Hlen as Hlen.
  cbn [map] in He. change (str_concat (?x :: ?r)) with (x +:+ str_concat r) in He. unfold call_bytes in He. rewrite !app_assoc_str in He.
  apply field_app_inj in He as [Ei He]; [|done..]. apply field_app_inj in He as [En He]; [|done..]. apply field_app_inj in He as [Ea He]; [|done..].
  apply IH in He as [-> ->]; [|done..]. destruct c, c'; cbn in *; by subst.
Qed.

Lemma history_bytes_inj l l' : Forall fits_message l -> Forall fits_message l' -> history_bytes l = history_bytes l' -> map keyed l = map keyed l'.
Proof.
  unfold history_bytes. intros Hl. revert l'. induction Hl as [|m l (Hr & Ht & Hi & Hn & Hc) _ IH]; intros [|m' l'] Hl' He; [done|..].
  1,2: exfalso; apply (f_equal String.length) in He; cbn [map] in He; change (str_concat (?x :: ?r)) with (x +:+ str_concat r) in He;
    unfold message_bytes, key_field, count in He; rewrite !length_app_str, !be_bytes_length in He; cbn in He; lia.
  inversion Hl' as [|? ? (Hr' & Ht' & Hi' & Hn' & Hc') Hl'']; subst.
  cbn [map] in He. change (str_concat (?x :: ?r)) with (x +:+ str_concat r) in He. unfold message_bytes in He. rewrite !app_assoc_str in He.
  apply field_app_inj in He as [Er He]; [|done..]. apply field_app_inj in He as [Et He]; [|done..]. apply field_app_inj in He as [Ei He]; [|done..].
  apply count_app_inj in He as [En He]; [|done..]. apply calls_app_inj in He as [Ec He]; [|done..].
  cbn [map]. unfold keyed at 1 3. rewrite Er, Et, Ei, Ec. f_equal. by apply IH.
Qed.

(** With a hash that does not collide, equal keys are equal histories, as far
    as the model sees them. *)
Lemma cursorKey_inj {K} (sha256 : string -> K) l l' :
  (forall s t, sha256 s = sha256 t -> s = t) -> Forall fits_message l -> Forall fits_message l' ->
  cursorKey sha256 l = cursorKey sha256 l' -> map keyed l = map keyed l'.
Proof. intros Hs Hl Hl' He. by apply history_bytes_inj, Hs. Qed.

(** ** The cache refines its contract *)

Section Refine.
Context {K : Type} `{Countable K}.
Implicit Types (c : cursorCache K) (l : list (K * string)).

(** The invariant without the bound, which a put breaks for a moment. *)
Record cache_wf (order : list (nat * (K * string))) (byKey : gmap K nat) : Prop := {
  cw_ids : NoDup (map fst order);
  cw_keys : NoDup (map (fun n => n.2.1) order);
  cw_byKey : forall k e, byKey !! k = Some e <-> exists id, (e, (k, id)) ∈ order;
}.

Lemma cache_ok_wf c : cache_ok c -> cache_wf (cc_order c) (cc_byKey c).
Proof. by intros []. Qed.

Lemma same_element order (x y : nat * (K * string)) :
  NoDup (map fst order) -> x ∈ order -> y ∈ order -> x.1 = y.1 -> x = y.
Proof.
  induction order as [|z order IH]; [by intros ? ?%not_elem_of_nil|]. cbn [map]. intros [Hz Hn]%NoDup_cons Hx Hy He.
  apply elem_of_cons in Hx as [->|Hx]; apply elem_of_cons in Hy as [->|Hy]; [done|..|by apply IH];
    exfalso; apply Hz; apply list_elem_of_fmap; eauto.
Qed.

Lemma same_key order (x y : nat * (K * string)) :
  NoDup (map (fun n => n.2.1) order) -> x ∈ order -> y ∈ order -> x.2.1 = y.2.1 -> x = y.
Proof.
  induction order as [|z order IH]; [by intros ? ?%not_elem_of_nil|]. cbn [map]. intros [Hz Hn]%NoDup_cons Hx Hy He.
  apply elem_of_cons in Hx as [->|Hx]; apply elem_of_cons in Hy as [->|Hy]; [done|..|by apply IH];
    exfalso; apply Hz; apply list_elem_of_fmap; eauto.
Qed.

Lemma element_in (order : list (nat * (K * string))) e v : NoDup (map fst order) -> (e, v) ∈ order -> element e order = Some v.
Proof.
  intros Hn Hin. unfold element. destruct (List.find _ _) as [[e' v']|] eqn:Ef.
  - apply List.find_some in Ef as [Hin' He%Nat.eqb_eq]. apply list_elem_of_In in Hin'.
    cbn in *. subst e'. by pose proof (same_element _ _ _ Hn Hin Hin' eq_refl) as [= <-].
  - eapply List.find_none in Ef; [|by apply list_elem_of_In]. cbn in Ef. by rewrite Nat.eqb_refl in Ef.
Qed.

Lemma rec_id_in (order : list (nat * (K * string))) k id e : NoDup (map (fun n => n.2.1) order) -> (e, (k, id)) ∈ order -> rec_id k (map snd order) = Some id.
Proof.
  intros Hn Hin. unfold rec_id. destruct (List.find _ _) as [[k' id']|] eqn:Ef.
  - apply List.find_some in Ef as [Hin' He%bool_decide_eq_true]. apply list_elem_of_In, list_elem_of_fmap in Hin' as ([e' v] & Hv & Hin').
    cbn in Hv, He. subst v k'. by pose proof (same_key _ _ _ Hn Hin Hin' eq_refl) as [= _ <-].
  - eapply List.find_none in Ef; [|apply list_elem_of_In, list_elem_of_fmap; by exists (e, (k, id))]. cbn in Ef. by rewrite bool_decide_true in Ef.
Qed.

Lemma rec_id_none l k : (forall id, (k, id) ∉ l) -> rec_id k l = None.
Proof.
  intros Hn. unfold rec_id. destruct (List.find _ _) as [[k' id']|] eqn:Ef; [|done].
  apply List.find_some in Ef as [Hin He%bool_decide_eq_true]. cbn in He. subst k'. by apply list_elem_of_In, Hn in Hin.
Qed.

Lemma unlink_entries (order : list (nat * (K * string))) e k id :
  NoDup (map fst order) -> NoDup (map (fun n => n.2.1) order) -> (e, (k, id)) ∈ order ->
  map snd (unlink e order) = rec_without k (map snd order).
Proof.
  intros Hi Hk Hin. unfold unlink, rec_without. 
  assert (Hsame : forall x, x ∈ order -> (x.1 <> e <-> x.2.1 <> k)).
  { intros x Hx. split; intros Hne He; apply Hne.
    - by pose proof (same_key _ _ _ Hk Hx Hin He) as ->.
    - by pose proof (same_element _ _ _ Hi Hx Hin He) as ->. }
  clear Hi Hk Hin. induction order as [|x order IH]; [done|]. cbn [map]. rewrite !filter_cons.
  assert (Hx : x.1 <> e <-> x.2.1 <> k) by (apply Hsame; by left).
  rewrite <- IH by (intros y Hy; apply Hsame; by right).
  destruct (decide (x.1 <> e)), (decide (x.2.1 <> k)); try done; tauto.
Qed.

Lemma NoDup_map_unlink {A} (f : nat * (K * string) -> A) order e : NoDup (map f order) -> NoDup (map f (unlink e order)).
Proof.
  unfold unlink. induction order as [|x order IH]; [done|]. cbn [map]. intros [Hx Hn]%NoDup_cons. rewrite filter_cons.
  destruct (decide _); [|by apply IH]. cbn [map]. apply NoDup_cons. split; [|by apply IH].
  intros (y & Hy & Hin)%list_elem_of_fmap. apply Hx. rewrite Hy. apply list_elem_of_fmap_2. by apply list_elem_of_filter in Hin as [_ ?].
Qed.

Lemma unlink_wf order byKey e k id :
  cache_wf order byKey -> (e, (k, id)) ∈ order -> cache_wf (unlink e order) (delete k byKey).
Proof.
  intros [Hi Hk Hb] Hin.
  split; [by apply NoDup_map_unlink|by apply NoDup_map_unlink|]. intros k' e'. rewrite lookup_delete_Some, Hb. unfold unlink. split.
  - intros [Hne [id' Hin']]. exists id'. apply list_elem_of_filter. split; [|done]. cbn. intros ->.
    apply Hne. by pose proof (same_element _ _ _ Hi Hin Hin' eq_refl) as [= -> _].
  - intros [id' [Hne Hin']%list_elem_of_filter]. split; [|by exists id']. intros ->. apply Hne.
    by pose proof (same_key _ _ _ Hk Hin Hin' eq_refl) as [= -> _].
Qed.

Lemma front_wf order byKey e k id id' :
  cache_wf order byKey -> (e, (k, id)) ∈ order -> cache_wf (move_front e (k, id') order) byKey.
Proof.
  intros Hwf Hin. pose proof (unlink_wf _ _ _ _ _ Hwf Hin) as [Hi Hk Hb]. destruct Hwf as [_ _ Hb0].
  assert (Hbk : byKey !! k = Some e) by (apply Hb0; by exists id).
  split; cbn [map move_front fst snd].
  - constructor; [|done]. intros Hin'. apply list_elem_of_fmap in Hin' as (x & Hx & Hin'). apply list_elem_of_filter in Hin' as [Hne _]. by apply Hne.
  - constructor; [|done]. intros Hin'. apply list_elem_of_fmap in Hin' as ([e' [k' v]] & Hx & Hin'). cbn in Hx. subst k'.
    assert (delete k byKey !! k = Some e') as Hd by (apply Hb; by exists v). by rewrite lookup_delete_eq in Hd.
  - intros k' e'. destruct (decide (k = k')) as [<-|Hne].
    + split; [intros He; exists id'; rewrite Hbk in He; injection He as <-; by left|].
      intros [v Hv]. apply elem_of_cons in Hv as [[= -> _]|Hv]; [done|]. exfalso.
      assert (delete k byKey !! k = Some e') as Hd by (apply Hb; by exists v). by rewrite lookup_delete_eq in Hd.
    + rewrite <- (lookup_delete_ne byKey k k') by done. rewrite Hb. split; intros [v Hv]; exists v.
      * by right.
      * apply elem_of_cons in Hv as [[= ? ? _]|Hv]; [congruence|done].
Qed.

Lemma unlink_length (order : list (nat * (K * string))) e k id : NoDup (map fst order) -> (e, (k, id)) ∈ order -> S (length (unlink e order)) = length order.
Proof.
  induction order as [|x order IH]; [by intros ? ?%not_elem_of_nil|]. cbn [map]. intros [Hx Hn]%NoDup_cons Hin. unfold unlink in *.
  rewrite filter_cons. apply elem_of_cons in Hin as [<-|Hin].
  - rewrite decide_False by (by intros []). cbn [length]. f_equal. f_equal. apply filter_all, Forall_forall.
    intros y Hy He. apply Hx, list_elem_of_fmap. by exists y.
  - rewrite decide_True; [cbn [length]; by rewrite <- IH|]. intros He. apply Hx, list_elem_of_fmap. by exists (e, (k, id)).
Qed.

Lemma cursor_unlink_fresh (order : list (nat * (K * string))) e n : Forall (fun x => x.1 < n) order -> Forall (fun x => x.1 < n) (unlink e order).
Proof. rewrite !Forall_forall. intros Hf x Hx. apply Hf. by apply list_elem_of_filter in Hx as [_ ?]. Qed.

(** The key's element, when it has one. *)
Lemma found c k e : cache_ok c -> cc_byKey c !! k = Some e ->
  exists id, (e, (k, id)) ∈ cc_order c /\ element e (cc_order c) = Some (k, id) /\ rec_id k (entries c) = Some id.
Proof.
  intros Hok He. destruct (proj1 (co_byKey c Hok k e) He) as [id Hin]. exists id. split; [done|].
  split; [apply element_in; [apply Hok|done]|]. eapply rec_id_in; [apply Hok|done].
Qed.

Lemma not_found c k : cache_ok c -> cc_byKey c !! k = None -> rec_id k (entries c) = None.
Proof.
  intros Hok He. apply rec_id_none. intros id (x & Hx & Hin)%list_elem_of_fmap. destruct x as [e v]. cbn in Hx. subst v.
  assert (cc_byKey c !! k = Some e) by (apply (co_byKey c Hok); by exists id). congruence.
Qed.

(** Bringing an element to the front keeps the invariant. *)
Lemma front_ok c e k id id' : cache_ok c -> (e, (k, id)) ∈ cc_order c ->
  let c' := with_order c (move_front e (k, id') (cc_order c)) (cc_byKey c) in
  cache_ok c' /\ entries c' = (k, id') :: rec_without k (entries c).
Proof.
  intros Hok Hin c'. destruct (front_wf _ _ _ _ _ id' (cache_ok_wf c Hok) Hin) as [Hi Hk Hb].
  pose proof (unlink_length (cc_order c) e k id (co_ids c Hok) Hin) as Hlen. split.
  - split; cbn; try done.
    + constructor; [|apply cursor_unlink_fresh, Hok]. pose proof (co_fresh c Hok) as Hf. rewrite Forall_forall in Hf. exact (Hf _ Hin).
    + rewrite Hlen. apply Hok.
    + apply Hok.
  - unfold entries, c'. cbn. f_equal. eapply unlink_entries; [apply Hok|apply Hok|done].
Qed.

Lemma cache_get_refines c k : cache_ok c ->
  exists c', cache_get c k = Some ((rec_get k (entries c)).1, c') /\ cache_ok c' /\ entries c' = (rec_get k (entries c)).2.
Proof.
  intros Hok. unfold cache_get, rec_get. destruct (cc_byKey c !! k) as [e|] eqn:He.
  - destruct (found c k e Hok He) as (id & Hin & -> & ->). cbn. eexists. split; [done|]. by apply (front_ok c e k id id).
  - rewrite not_found by done. by exists c.
Qed.

Lemma trim_refines fuel c : cache_wf (cc_order c) (cc_byKey c) -> 0 < cc_max c -> length (cc_order c) <= fuel ->
  let c' := trim fuel c in
  cache_wf (cc_order c') (cc_byKey c') /\ entries c' = take (cc_max c) (entries c) /\ cc_max c' = cc_max c /\ cc_next c' = cc_next c
  /\ (forall x, x ∈ cc_order c' -> x ∈ cc_order c).
Proof.
  revert c. induction fuel as [|fuel IH]; intros c Hwf Hmax Hlen.
  { destruct (cc_order c) eqn:Ho; [|cbn in Hlen; lia]. cbn. unfold entries. rewrite Ho. cbn. by rewrite take_nil. }
  destruct (decide (length (cc_order c) <= cc_max c)) as [Hle|Hgt].
  { assert (trim (S fuel) c = c) as -> by (cbn [trim]; destruct (last (cc_order c)) as [[e [k id]]|]; [|done];
      by rewrite (proj2 (Nat.ltb_ge _ _) Hle)).
    cbn. rewrite take_ge by (unfold entries; by rewrite length_map). done. }
  destruct (cc_order c) as [|x init _] eqn:Ho using rev_ind; [cbn in Hgt; lia|]. destruct x as [e [k id]].
  assert (Hin : (e, (k, id)) ∈ cc_order c) by (rewrite Ho; apply elem_of_app; right; by left).
  assert (Hun : unlink e (init ++ [(e, (k, id))]) = init).
  { unfold unlink. rewrite filter_app. destruct Hwf as [Hi _ _]. rewrite map_app in Hi. apply NoDup_app in Hi as (_ & Hd & _).
    rewrite filter_all; [rewrite filter_cons, decide_False by (by intros []); apply app_nil_r|].
    apply Forall_forall. intros y Hy He. apply (Hd y.1); [by apply list_elem_of_fmap_2|rewrite He; by left]. }
  assert (Hstep : trim (S fuel) c = trim fuel (with_order c init (delete k (cc_byKey c)))).
  { cbn [trim]. rewrite Ho, last_snoc. rewrite (proj2 (Nat.ltb_lt _ _)) by lia. by rewrite Hun. }
  rewrite Hstep. rewrite <- Ho in Hwf. pose proof (unlink_wf _ _ _ _ _ Hwf Hin) as Hwf'. rewrite Ho, Hun in Hwf'.
  rewrite length_app in Hlen, Hgt. cbn [length] in Hlen, Hgt.
  destruct (IH (with_order c init (delete k (cc_byKey c)))) as (H1 & H2 & H3 & H4 & H5); cbn; [done|done|lia|].
  split; [done|]. split; [|split; [done|split; [done|]]].
  - rewrite H2. unfold entries. cbn. rewrite Ho, map_app, take_app_le; [done|]. rewrite length_map. lia.
  - intros y Hy. apply H5 in Hy. cbn in Hy. apply elem_of_app. by left.
Qed.

Lemma push_wf c k id : cache_ok c -> cc_byKey c !! k = None ->
  cache_wf ((cc_next c, (k, id)) :: cc_order c) (<[k := cc_next c]> (cc_byKey c)).
Proof.
  intros Hok He. pose proof (co_fresh c Hok) as Hf. rewrite Forall_forall in Hf. split; cbn [map fst snd].
  - constructor; [|apply Hok]. intros (x & Hx & Hin)%list_elem_of_fmap. apply Hf in Hin. lia.
  - constructor; [|apply Hok]. intros (x & Hx & Hin)%list_elem_of_fmap. destruct x as [e [k' v]]. cbn in Hx. subst k'.
    assert (cc_byKey c !! k = Some e) by (apply (co_byKey c Hok); by exists v). congruence.
  - intros k' e'. rewrite lookup_insert_Some, (co_byKey c Hok). split.
    + intros [[<- <-]|[Hne [v Hv]]]; [exists id; by left|exists v; by right].
    + intros [v Hv]. apply elem_of_cons in Hv as [[= -> -> ->]|Hv]; [by left|]. right. split; [|by exists v]. intros <-.
      assert (cc_byKey c !! k = Some e') by (apply (co_byKey c Hok); by exists v). congruence.
Qed.

Lemma cache_put_refines c k id : cache_ok c ->
  exists c', cache_put c k id = Some c' /\ cache_ok c' /\ entries c' = rec_put (cc_max c) k id (entries c) /\ cc_max c' = cc_max c.
Proof.
  intros Hok. unfold cache_put, rec_put. destruct (cc_byKey c !! k) as [e|] eqn:He.
  - destruct (found c k e Hok He) as (old & Hin & -> & ->). cbn. eexists. split; [done|].
    destruct (front_ok c e k old id Hok Hin) as [H1 H2]. done.
  - rewrite not_found by done. eexists. split; [done|]. cbv zeta. set (c1 := {| cc_max := _ |}).
    destruct (trim_refines (length ((cc_next c, (k, id)) :: cc_order c)) c1) as ([H1 H2 H3] & H4 & H5 & H6 & H7).
    { by apply push_wf. } { apply Hok. } { done. }
    split; [|by rewrite H4]. split; try done.
    + rewrite H6. apply Forall_forall. intros x Hx. apply H7 in Hx. cbn in Hx. pose proof (co_fresh c Hok) as Hf. rewrite Forall_forall in Hf.
      apply elem_of_cons in Hx as [->|Hx]; [cbn; lia|]. apply Hf in Hx. cbn. lia.
    + rewrite H5. assert (length (cc_order (trim (length ((cc_next c, (k, id)) :: cc_order c)) c1)) = length (entries (trim (length ((cc_next c, (k, id)) :: cc_order c)) c1)))
        as -> by (unfold entries; by rewrite length_map). rewrite H4, length_take. lia.
    + rewrite H5. apply Hok.
Qed.

Lemma cache_drop_refines c k : cache_ok c -> cache_ok (cache_drop c k) /\ entries (cache_drop c k) = rec_without k (entries c).
Proof.
  intros Hok. unfold cache_drop. destruct (cc_byKey c !! k) as [e|] eqn:He.
  - destruct (found c k e Hok He) as (id & Hin & _ & _). destruct (unlink_wf _ _ _ _ _ (cache_ok_wf c Hok) Hin) as [H1 H2 H3].
    pose proof (unlink_length (cc_order c) e k id (co_ids c Hok) Hin) as Hlen. pose proof (co_max c Hok). split.
    + split; cbn; try done; [apply cursor_unlink_fresh, Hok|lia|apply Hok].
    + unfold entries. cbn. eapply unlink_entries; [apply Hok|apply Hok|done].
  - split; [done|]. unfold rec_without. symmetry. apply filter_all, Forall_forall. intros [k' id] Hin Hk. cbn in Hk. subst k'.
    apply list_elem_of_fmap in Hin as ([e v] & Hx & Hin). cbn in Hx. subst v.
    assert (cc_byKey c !! k = Some e) by (apply (co_byKey c Hok); by exists id). congruence.
Qed.

Lemma newCursorCache_ok max : 0 < max -> cache_ok (newCursorCache (K:=K) max) /\ entries (newCursorCache (K:=K) max) = [].
Proof.
  intros Hm. split; [|done]. split; cbn; [constructor|constructor|constructor| |lia|done].
  intros k e. rewrite lookup_empty. split; [done|]. by intros [id ?%not_elem_of_nil].
Qed.

(** ** Sequences of operations *)

Inductive cache_op := CGet (k : K) | CPut (k : K) (id : string) | CDrop (k : K) | CLen.
Inductive cache_answer := AGet (r : option string) | ADone | ALen (n : nat).

Definition cache_step (c : cursorCache K) (o : cache_op) : option (cache_answer * cursorCache K) :=
  match o with
  | CGet k => '(r, c) ← cache_get c k; Some (AGet r, c)
  | CPut k id => c ← cache_put c k id; Some (ADone, c)
  | CDrop k => Some (ADone, cache_drop c k)
  | CLen => Some (ALen (cache_len c), c)
  end.

Definition rec_step (max : nat) (l : list (K * string)) (o : cache_op) : cache_answer * list (K * string) :=
  match o with
  | CGet k => let '(r, l) := rec_get k l in (AGet r, l)
  | CPut k id => (ADone, rec_put max k id l)
  | CDrop k => (ADone, rec_without k l)
  | CLen => (ALen (length l), l)
  end.

Fixpoint cache_run (c : cursorCache K) (os : list cache_op) : option (list cache_answer * cursorCache K) :=
  match os with
  | [] => Some ([], c)
  | o :: os => '(a, c) ← cache_step c o; '(r, c) ← cache_run c os; Some (a :: r, c)
  end.

Fixpoint rec_run (max : nat) (l : list (K * string)) (os : list cache_op) : list cache_answer * list (K * string) :=
  match os with
  | [] => ([], l)
  | o :: os => let '(a, l) := rec_step max l o in let '(r, l) := rec_run max l os in (a :: r, l)
  end.

Lemma cache_step_refines c o : cache_ok c ->
  exists c', cache_step c o = Some ((rec_step (cc_max c) (entries c) o).1, c') /\ cache_ok c'
    /\ entries c' = (rec_step (cc_max c) (entries c) o).2 /\ cc_max c' = cc_max c.
Proof.
  intros Hok. destruct o as [k|k id|k|]; cbn.
  - destruct (cache_get_refines c k Hok) as (c' & Hg & H1 & H2). exists c'. rewrite Hg. cbn. rewrite H2.
    assert (cc_max c' = cc_max c).
    { unfold cache_get in Hg. destruct (cc_byKey c !! k) as [e|]; [destruct (element e (cc_order c))|]; cbn in Hg; by simplify_eq. }
    by destruct (rec_get k (entries c)).
  - destruct (cache_put_refines c k id Hok) as (c' & -> & H1 & H2 & H3). by exists c'.
  - destruct (cache_drop_refines c k Hok) as [H1 H2]. exists (cache_drop c k). split; [done|]. split; [done|]. split; [done|].
    unfold cache_drop. by destruct (cc_byKey c !! k).
  - exists c. split; [|done]. unfold cache_len, entries. by rewrite length_map.
Qed.

(** C34: From a new cache, every sequence of gets, puts, drops and lengths
    answers what a list of the last max conversations, most recently used
    first, answers, and never follows an element that is gone. *)
Theorem cursor_cache_refines max (os : list cache_op) :
  0 < max -> exists c, cache_run (newCursorCache max) os = Some ((rec_run max [] os).1, c)
    /\ entries c = (rec_run max [] os).2 /\ length (entries c) <= max.
Proof.
  intros Hm. destruct (newCursorCache_ok max Hm) as [Hok He].
  assert (Hrun : forall os c, cache_ok c -> exists c', cache_run c os = Some ((rec_run (cc_max c) (entries c) os).1, c')
    /\ entries c' = (rec_run (cc_max c) (entries c) os).2 /\ cache_ok c' /\ cc_max c' = cc_max c).
  { clear. intros os. induction os as [|o os IH]; intros c Hok; [by exists c|]. cbn [cache_run rec_run].
    destruct (cache_step_refines c o Hok) as (c1 & -> & H1 & H2 & H3). cbn [mbind option_bind].
    destruct (IH c1 H1) as (c2 & -> & H4 & H5 & H6). rewrite H3, H2 in H4. cbn [mbind option_bind]. exists c2. rewrite H3, H2.
    destruct (rec_step (cc_max c) (entries c) o) as [a l]. cbn [fst snd] in *. destruct (rec_run (cc_max c) l os) as [r l'].
    cbn [fst snd] in *. split; [done|]. split; [done|]. split; [done|congruence]. }
  destruct (Hrun os _ Hok) as (c & H1 & H2 & H3 & H4). rewrite He in H1, H2. exists c. split; [done|]. split; [done|].
  unfold entries. rewrite length_map. pose proof (co_max c H3) as Hl. by rewrite H4 in Hl.
Qed.

End Refine.

Lemma cursor_cache_refines_witness :
  let os := [CPut "a" "1"; CPut "b" "2"; CGet "a"; CPut "c" "3"; CGet "b"; CGet "a"; CLen] in
  (0 < 2 /\ exists c, cache_run (newCursorCache 2) os = Some ((rec_run 2 [] os).1, c)
    /\ entries c = (rec_run 2 [] os).2 /\ length (entries c) <= 2)
  /\ (rec_run (K:=string) 2 [] os).1 = [ADone; ADone; AGet (Some "1"); ADone; AGet None; AGet (Some "1"); ALen 2].
Proof. intros os. split; [split; [lia|exact (cursor_cache_refines 2 os ltac:(lia))]|vm_compute; reflexivity]. Defined.
