(* ===== verification/Responses.v ===== *)
(** * Responses

    src/responses_provider.go: OpenAI's Responses API.  A conversation the
    provider has answered before is continued from the response the server
    stored: only the messages after it go out, with its id.  The cursors the
    provider keeps for that are in Cursors.v.

    The world holds the provider's cursors, since other calls of the same
    provider may change them while a request is out; [cursors] and
    [set_cursors] read and write them.  Each get, put or drop is one atomic
    step, as under the cache's lock. *)

From S2P Require Import Prelude GoStr Errors Provider ToolName Http Wire Cursors.

(** ** Configuration *)

Record ResponsesConfig := {
  rc_BaseURL : string;
  rc_APIKey : string;
  rc_Model : string;
  rc_ReasoningEffort : string;
  rc_ReasoningSummary : string;
  rc_Temperature : bool;
  rc_NoStore : bool;
  rc_CursorCacheSize : Z;
}.

Definition FullHistoryNoCursor : string := "no stored response matches this history".
Definition FullHistoryStaleCursor : string := "the stored response is gone from the server".

(** The provider and its empty cache. *)
Definition NewResponsesProvider {K} `{Countable K} (cfg : ResponsesConfig) : result (ResponsesConfig * cursorCache K) :=
  if String.eqb (rc_BaseURL cfg) "" || String.eqb (rc_Model cfg) ""
  then inl (EText "agent: ResponsesConfig requires BaseURL and Model")
  else
    let size := if (rc_CursorCacheSize cfg <=? 0)%Z then 256%Z else rc_CursorCacheSize cfg in
    inr (cfg, newCursorCache (Z.to_nat size)).

Definition ProviderCapabilities (cfg : ResponsesConfig) : Capabilities :=
  {| cap_Guided := []; cap_Seed := false; cap_Temperature := rc_Temperature cfg; cap_Penalties := [] |}.

Definition check (req : ProviderRequest) : option error :=
  if is_set (pr_Seed req) then Some (wrap_sentinel ErrUnsupportedParam ": Seed (the Responses API has no seed)")
  else if is_set (pr_Guided req) then Some (wrap_sentinel ErrUnsupportedParam ": Guided (the Responses API has no guided decoding)")
  else refusePenalties (pr_Penalties req) [] "the Responses API has no sampling penalties".

(** ** The request *)

Section Body.
Context (bind : RawJSON -> option jval) (InputSchema : ToolDef -> jval).

Definition rs_call (names : gmap string string) (tc : ToolCall) : jval :=
  JObj [("type", JStr "function_call"); ("call_id", JStr (tc_ID tc)); ("name", JStr (safeToolName names (tc_Name tc)));
        ("arguments", JStr (tc_Args tc))].

(** The items of a message. *)
Definition rs_items (names : gmap string string) (m : Message) : list jval :=
  match m_Role m with
  | RoleTool => [JObj [("type", JStr "function_call_output"); ("call_id", JStr (m_ToolCallID m)); ("output", JStr (m_Text m))]]
  | RoleAssistant =>
      (if negb (String.eqb (m_Text m) "") || bool_decide (m_ToolCalls m = [])
       then [JObj [("role", JStr "assistant"); ("content", JStr (m_Text m))]] else [])
      ++ map (rs_call names) (m_ToolCalls m)
  | r => [JObj [("role", JStr (role_text r)); ("content", JStr (m_Text m))]]
  end.

Definition rs_tool (names : gmap string string) (td : ToolDef) : jval :=
  JObj [("type", JStr "function"); ("name", JStr (default "" (names !! td_Name td)));
        ("description", JStr (td_Description td)); ("parameters", InputSchema td)].

Definition responsesToolChoice (tc : ToolChoice) (names : gmap string string) : option jval :=
  let m := tch_Mode tc in
  if String.eqb m "auto" || String.eqb m "required" || String.eqb m "none" then Some (JStr m)
  else if String.eqb m "function" then Some (JObj [("type", JStr "function"); ("name", JStr (safeToolName names (tch_Name tc)))])
  else None.

Definition buildBody (cfg : ResponsesConfig) (req : ProviderRequest) (input : list Message) (prev : string) (stream : bool) : body :=
  let names := realToSafe (maps_of (pr_Tools req)) in
  let items := concat (map (rs_items names) input) in
  let b : body := <["store" := JBool (negb (rc_NoStore cfg))]> (<["input" := JList items]> {["model" := JStr (rc_Model cfg)]}) in
  let b := if negb (String.eqb prev "") then <["previous_response_id" := JStr prev]> b else b in
  let b := if negb (String.eqb (pr_Instructions req) "") then <["instructions" := JStr (pr_Instructions req)]> b else b in
  let b := if bool_decide (pr_Tools req = []) then b
           else put_some "tool_choice" (responsesToolChoice (pr_ToolChoice req) names)
                  (<["tools" := JList (map (rs_tool names) (pr_Tools req))]> b) in
  let b := put_some "temperature" (JFloat ∘ p_deref <$> pr_Temperature req) b in
  let b := if (0 <? pr_MaxTokens req)%Z then <["max_output_tokens" := JInt (pr_MaxTokens req)]> b else b in
  let b := if negb (String.eqb (rc_ReasoningEffort cfg) "") || negb (String.eqb (rc_ReasoningSummary cfg) "")
           then <["reasoning" := JObj ((if negb (String.eqb (rc_ReasoningEffort cfg) "") then [("effort", JStr (rc_ReasoningEffort cfg))] else [])
                  ++ [("summary", JStr (if String.eqb (rc_ReasoningSummary cfg) "" then "auto" else rc_ReasoningSummary cfg))])]> b
           else b in
  if stream then <["stream" := JBool true]> b
  else if negb (String.eqb (pr_ResponseSchema req) "") then
    put_some "text" ((fun schema => JObj [("format", JObj [("type", JStr "json_schema"); ("name", JStr "response"); ("schema", schema)])])
                     <$> bind (pr_ResponseSchema req)) b
  else b.

End Body.

(** ** The answer *)

Record rsOutputItem := {
  it_Type : string;
  it_CallID : string;
  it_Name : string;
  it_Arguments : string;
  it_Content : list (string * string);
  it_Summary : list string;
}.

Record rsUsage := { ru_Input : Z; ru_Output : Z; ru_Details : option Z }.

Definition toUsage (u : rsUsage) : Usage := {| u_In := ru_Input u; u_Out := ru_Output u; u_Cached := default 0%Z (ru_Details u) |}.

Record rsResponse := {
  rr_ID : string;
  rr_Status : string;
  rr_Output : list rsOutputItem;
  rr_Usage : option rsUsage;
  rr_Incomplete : option string;
  rr_Error : option (string * string);
}.

Definition finishReason (r : rsResponse) (hasCalls : bool) : string :=
  match rr_Incomplete r with
  | Some reason =>
      if String.eqb (rr_Status r) "incomplete" then (if String.eqb reason "max_output_tokens" then "length" else reason)
      else if hasCalls then "tool_calls" else "stop"
  | None => if hasCalls then "tool_calls" else "stop"
  end.

(** The output text parts of a message item, the summary of a reasoning item
    and the call of a function call item. *)
Definition item_text (it : rsOutputItem) : string :=
  if String.eqb (it_Type it) "message"
  then str_concat (map snd (filter (fun c => c.1 = "output_text") (it_Content it))) else "".
Definition item_reason (it : rsOutputItem) : string := if String.eqb (it_Type it) "reasoning" then str_concat (it_Summary it) else "".
Definition item_calls (real : gmap string string) (it : rsOutputItem) : list ToolCall :=
  if String.eqb (it_Type it) "function_call" then [answered_call real (it_CallID it) (it_Name it) (it_Arguments it)] else [].

Definition toProviderResponse (real : gmap string string) (r : rsResponse) : ProviderResponse :=
  let calls := concat (map (item_calls real) (rr_Output r)) in
  {| r_Text := str_concat (map item_text (rr_Output r));
     r_Reasoning := str_concat (map item_reason (rr_Output r));
     r_ToolCalls := calls;
     r_FinishReason := finishReason r (negb (bool_decide (calls = [])));
     r_Usage := toUsage <$> rr_Usage r |}.

Record rsEvent := {
  re_Type : string;
  re_OutputIndex : Z;
  re_Delta : string;
  re_Item : option rsOutputItem;
  re_Response : option rsResponse;
  re_Code : string;
  re_Message : string;
  re_Error : option (string * string);
}.

(** ** Cursors *)

Section Provider.
Context {K : Type} `{Countable K} (sha256 : string -> K).

(** The assistant message the Runner appends for an answer. *)
Definition reply (out : ProviderResponse) : Message :=
  {| m_Role := RoleAssistant; m_Text := r_Text out; m_ToolCalls := r_ToolCalls out; m_ToolCallID := ""; m_Timestamp := 0 |}.

(** [remember]; the list is the plan's history. *)
Definition remember_response (cfg : ResponsesConfig) (history : list Message) (id : string) (out : ProviderResponse) (c : cursorCache K)
  : option (cursorCache K) :=
  if rc_NoStore cfg || String.eqb id "" then Some c
  else cache_put c (cursorKey sha256 (history ++ [reply out])) id.

(** One more than [lastAssistant]: 0 when there is none. *)
Fixpoint after_last_assistant (msgs : list Message) : nat :=
  match msgs with
  | [] => 0
  | m :: msgs =>
      match after_last_assistant msgs with
      | O => if decide (m_Role m = RoleAssistant) then 1 else 0
      | S n => S (S n)
      end
  end.

(** *** The stream *)

Record responsesStream := {
  st_calls : gmap Z Z;
  st_acc : DeltaAccumulator;
  st_cursors : option (cursorCache K);
}.

(** [None] in [st_cursors] is the panic of a cache that lost an element. *)
Definition stream_init (c : cursorCache K) : responsesStream := {| st_calls := ∅; st_acc := acc_zero; st_cursors := Some c |}.

Definition start_call (real : gmap string string) (idx : Z) (it : rsOutputItem) : Delta :=
  {| d_Kind := DeltaToolCallStart; d_Text := it_Arguments it; d_Index := idx; d_ToolCallID := it_CallID it;
     d_ToolName := realToolName real (it_Name it); d_FinishReason := ""; d_Usage := None |}.

(** The deltas of an event that goes on, and the calls after it. *)
Definition event_deltas (real : gmap string string) (calls : gmap Z Z) (ev : rsEvent) : list Delta * gmap Z Z :=
  let t := re_Type ev in
  if String.eqb t "response.output_text.delta" then ([text_delta DeltaText (re_Delta ev)], calls)
  else if String.eqb t "response.reasoning_summary_text.delta" || String.eqb t "response.reasoning_text.delta"
  then ([text_delta DeltaReasoning (re_Delta ev)], calls)
  else if String.eqb t "response.output_item.added" then
    match re_Item ev with
    | Some it =>
        if String.eqb (it_Type it) "function_call" then
          let idx := Z.of_nat (size calls) in
          ([start_call real idx it], <[re_OutputIndex ev := idx]> calls)
        else ([], calls)
    | None => ([], calls)
    end
  else if String.eqb t "response.function_call_arguments.delta" then
    match calls !! re_OutputIndex ev with
    | Some idx => (if negb (String.eqb (re_Delta ev) "") then [args_delta idx (re_Delta ev)] else [], calls)
    | None => ([], calls)
    end
  else ([], calls).

Definition decode (decode_event : string -> result rsEvent) (cfg : ResponsesConfig) (history : list Message) (real : gmap string string)
    (s : responsesStream) (payload : string) : result (list Delta * bool) * responsesStream :=
  match decode_event payload with
  | inl err => (inl (wrap_error "agent: bad SSE event: " err), s)
  | inr ev =>
      let t := re_Type ev in
      if String.eqb t "response.completed" || String.eqb t "response.incomplete" then
        match re_Response ev with
        | None => (inr ([], true), s)
        | Some r =>
            let out := from_option (fun u => [usage_delta (toUsage u)]) [] (rr_Usage r)
                       ++ [finish_delta (finishReason r (negb (bool_decide (st_calls s = ∅))))] in
            let acc := foldl acc_Add (st_acc s) out in
            (inr (out, true), {| st_calls := st_calls s; st_acc := acc;
                                 st_cursors := c ← st_cursors s; remember_response cfg history (rr_ID r) (acc_Result acc) c |})
        end
      else if String.eqb t "response.failed" then
        let msg := match re_Response ev with
                   | Some r => from_option snd "response failed" (rr_Error r)
                   | None => "response failed"
                   end in
        (inl (EText ("agent: " +:+ msg)), s)
      else if String.eqb t "error" then
        let '(code, msg) := match re_Error ev with Some e => e | None => (re_Code ev, re_Message ev) end in
        (inl (EText ("agent: stream error " +:+ code +:+ ": " +:+ msg)), s)
      else
        let '(out, calls) := event_deltas real (st_calls s) ev in
        (inr (out, false), {| st_calls := calls; st_acc := foldl acc_Add (st_acc s) out; st_cursors := st_cursors s |})
  end.

(** *** Sending *)

(** What a send does: a notice, a request for its input and previous id, or
    what happens on the network below. *)
Inductive rs_event := FullHistory (reason : string) | Posting (input : list Message) (prev : string) | Net (e : net_event).

Definition lift_net {W A} (m : eff W net_event A) : eff W rs_event A :=
  fun w => let '(a, evs, w) := m w in (a, map Net evs, w).

Definition isStaleCursor (err : send_error) : bool :=
  match err with
  | SendRefused pe =>
      ((pe_StatusCode pe =? 404)%Z || (pe_StatusCode pe =? 400)%Z) && str_contains (pe_Body pe) "previous_response"
  | SendFailed _ => false
  end.

Context {W Req F : Type} (ep : endpoint W Req F)
  (cursors : W -> cursorCache K) (set_cursors : cursorCache K -> W -> W)
  (bind : RawJSON -> option jval) (InputSchema : ToolDef -> jval)
  (decode_full : string -> result rsResponse)
  (cfg : ResponsesConfig).

Definition post (b : body) : eff W net_event (option (send_error + HTTPResponse)) :=
  post_to ep (trim_suffix (rc_BaseURL cfg) "/" +:+ "/responses") (with_key "Authorization" "Bearer " (rc_APIKey cfg)) b.

Definition posting (req : ProviderRequest) (input : list Message) (prev : string) (stream : bool)
  : eff W rs_event (option (send_error + HTTPResponse)) :=
  (eff_emit (Posting input prev) ;;; lift_net (post (buildBody bind InputSchema cfg req input prev stream)))%eff.

(** [cursors.get]; the inner [None] is a miss, the outer a panic. *)
Definition get_cursor (k : K) : eff W rs_event (option (option string)) :=
  eff_call (fun w => match cache_get (cursors w) k with
                     | Some (r, c) => (Some r, set_cursors c w)
                     | None => (None, w)
                     end).

Definition drop_cursor (k : K) : eff W rs_event unit := eff_call (fun w => (tt, set_cursors (cache_drop (cursors w) k) w)).

(** The input of a request and the id it continues from. *)
Definition choose_input (msgs : list Message) : eff W rs_event (option (list Message * string)) :=
  (let k := after_last_assistant msgs in
   if rc_NoStore cfg || Nat.eqb k 0 then eff_ret (Some (msgs, ""))
   else
     let* r := get_cursor (cursorKey sha256 (take k msgs)) in
     match r with
     | None => eff_ret None
     | Some (Some id) => eff_ret (Some (drop k msgs, id))
     | Some None => eff_emit (FullHistory FullHistoryNoCursor) ;;; eff_ret (Some (msgs, ""))
     end)%eff.

Definition send (req : ProviderRequest) (stream : bool) : eff W rs_event (option (send_error + HTTPResponse)) :=
  (let msgs := pr_Messages req in
   let* ch := choose_input msgs in
   match ch with
   | None => eff_ret None
   | Some (input, prev) =>
       let* resp := posting req input prev stream in
       match resp with
       | Some (inl err) =>
           if negb (String.eqb prev "") && isStaleCursor err then
             drop_cursor (cursorKey sha256 (take (after_last_assistant msgs) msgs)) ;;;
             eff_emit (FullHistory FullHistoryStaleCursor) ;;;
             posting req msgs "" stream
           else eff_ret resp
       | _ => eff_ret resp
       end
   end)%eff.

Definition Generate (req : ProviderRequest) : eff W rs_event (option (send_error + ProviderResponse)) :=
  match check req with
  | Some err => eff_ret (Some (send_failed err))
  | None =>
      (let* resp := send req false in
       match resp with
       | None => eff_ret None
       | Some (inl err) => eff_ret (Some (inl err))
       | Some (inr resp) =>
           match decode_full (hr_Body resp) with
           | inl err => eff_ret (Some (send_failed (wrap_error "agent: decode response: " err)))
           | inr full =>
               match rr_Error full with
               | Some (_, msg) => eff_ret (Some (send_failed (EText ("agent: response failed: " +:+ msg))))
               | None =>
                   let out := toProviderResponse (safeToReal (maps_of (pr_Tools req))) full in
                   let* ok := eff_call (fun w =>
                     match remember_response cfg (pr_Messages req) (rr_ID full) out (cursors w) with
                     | Some c => (true, set_cursors c w)
                     | None => (false, w)
                     end) in
                   eff_ret (if ok : bool then Some (inr out) else None)
               end
           end
       end)%eff
  end.

(** [Stream]: the wire names back, the history of the plan and the stream. *)
Definition Stream (req : ProviderRequest) : eff W rs_event (option (send_error + (gmap string string * list Message * sseStream responsesStream))) :=
  match check req with
  | Some err => eff_ret (Some (send_failed err))
  | None =>
      (let* resp := send req true in
       match resp with
       | None => eff_ret None
       | Some (inl err) => eff_ret (Some (inl err))
       | Some (inr _) =>
           let* c := eff_call (fun w => (cursors w, w)) in
           eff_ret (Some (inr (safeToReal (maps_of (pr_Tools req)), pr_Messages req, open_stream (stream_init c))))
       end)%eff
  end.

End Provider.
Arguments responsesStream K {_ _}.

(** * Properties *)

(** ** A response as the server streams it *)

Definition delta_event (t : string) (o : Z) (d : string) : rsEvent :=
  {| re_Type := t; re_OutputIndex := o; re_Delta := d; re_Item := None; re_Response := None; re_Code := ""; re_Message := ""; re_Error := None |}.

Definition item_added (o : Z) (it : rsOutputItem) : rsEvent :=
  {| re_Type := "response.output_item.added"; re_OutputIndex := o; re_Delta := ""; re_Item := Some it; re_Response := None;
     re_Code := ""; re_Message := ""; re_Error := None |}.

(** The call as it is announced, with the part of its arguments known then. *)
Definition announced (it : rsOutputItem) (args : string) : rsOutputItem :=
  {| it_Type := "function_call"; it_CallID := it_CallID it; it_Name := it_Name it; it_Arguments := args; it_Content := []; it_Summary := [] |}.

Inductive item_events (o : Z) (it : rsOutputItem) : list rsEvent -> Prop :=
| message_events opened ts : it_Type it = "message" -> it_Type opened = "message" -> str_concat ts = item_text it ->
    item_events o it (item_added o opened :: map (delta_event "response.output_text.delta" o) ts)
| reasoning_events opened ts : it_Type it = "reasoning" -> it_Type opened = "reasoning" -> str_concat ts = item_reason it ->
    item_events o it (item_added o opened :: map (delta_event "response.reasoning_summary_text.delta" o) ts)
| call_events a ts : it_Type it = "function_call" -> text_or (a +:+ str_concat ts) "{}" = text_or (it_Arguments it) "{}" ->
    item_events o it (item_added o (announced it a) :: map (delta_event "response.function_call_arguments.delta" o) ts)
| other_events opened : it_Type it <> "message" -> it_Type it <> "reasoning" -> it_Type it <> "function_call" ->
    it_Type opened <> "function_call" -> item_events o it [item_added o opened].

Inductive items_events : Z -> list rsOutputItem -> list rsEvent -> Prop :=
| no_items o : items_events o [] []
| more_items o it its es es' : item_events o it es -> items_events (o + 1) its es' -> items_events o (it :: its) (es ++ es').

(** The events the provider reads; all others may stand anywhere. *)
Definition heard : list string :=
  ["response.output_text.delta"; "response.reasoning_summary_text.delta"; "response.reasoning_text.delta";
   "response.output_item.added"; "response.function_call_arguments.delta"; "response.completed"; "response.incomplete";
   "response.failed"; "error"].
Definition silent (e : rsEvent) : Prop := re_Type e ∉ heard.

#[export] Instance silent_dec e : Decision (silent e).
Proof. unfold silent. apply _. Defined.

Definition closes (full : rsResponse) (e : rsEvent) : Prop :=
  (re_Type e = "response.completed" \/ re_Type e = "response.incomplete") /\ re_Response e = Some full.

Definition streams (full : rsResponse) (es : list rsEvent) : Prop := items_events 0 (rr_Output full) (filter (fun e => ~ silent e) es).

Section Streaming.
Context {K : Type} `{Countable K} (sha256 : string -> K) (cfg : ResponsesConfig) (history : list Message) (real : gmap string string).
Implicit Types (s : responsesStream K).

(** An event that goes on, as a total step. *)
Definition event_step s (e : rsEvent) : list Delta * responsesStream K :=
  let '(out, calls) := event_deltas real (st_calls s) e in
  (out, {| st_calls := calls; st_acc := foldl acc_Add (st_acc s) out; st_cursors := st_cursors s |}).

(** The accumulator has seen every delta, and the cursors wait. *)
Lemma events_acc es s : let '(ds, s') := events_say event_step s es in
  st_acc s' = foldl acc_Add (st_acc s) ds /\ st_cursors s' = st_cursors s.
Proof.
  revert s. induction es as [|e es IH]; intros s; [done|]. cbn [events_say]. unfold event_step at 1.
  destruct (event_deltas real (st_calls s) e) as [out calls].
  specialize (IH {| st_calls := calls; st_acc := foldl acc_Add (st_acc s) out; st_cursors := st_cursors s |}).
  destruct (events_say event_step _ es) as [ds s']. cbn [st_acc st_cursors] in IH. by rewrite foldl_app.
Qed.

Definition counted (o : Z) (n : Z) s : Prop :=
  Z.of_nat (size (st_calls s)) = n /\ forall o', is_Some (st_calls s !! o') -> (o' < o)%Z.

Lemma responses_pieces_say t o (g : string -> list Delta) ts s :
  (forall d s', st_calls s' = st_calls s -> event_deltas real (st_calls s') (delta_event t o d) = (g d, st_calls s')) ->
  exists s', events_say event_step s (map (delta_event t o) ts) = (concat (g <$> ts), s') /\ st_calls s' = st_calls s.
Proof.
  intros Hg. assert (Hgen : forall s1, st_calls s1 = st_calls s ->
    exists s', events_say event_step s1 (map (delta_event t o) ts) = (concat (g <$> ts), s') /\ st_calls s' = st_calls s).
  { induction ts as [|d ts IH]; intros s1 H1; [by exists s1|]. cbn [map events_say]. unfold event_step at 1. rewrite Hg by done.
    destruct (IH {| st_calls := st_calls s1; st_acc := foldl acc_Add (st_acc s1) (g d); st_cursors := st_cursors s1 |} H1) as (s' & -> & Hs').
    by exists s'. }
  by apply Hgen.
Qed.

Lemma item_events_say o n it es s : item_events o it es -> counted o n s -> (0 <= n)%Z ->
  exists ds s' n', events_say event_step s es = (ds, s') /\ counted (o + 1) n' s' /\ n' = (n + Z.of_nat (length (item_calls real it)))%Z
  /\ says n n' ds (item_text it) (item_reason it) (item_calls real it).
Proof.
  intros Hit [Hn Hk] Hn0. assert (Hmono : forall s', st_calls s' = st_calls s -> counted (o + 1) n s').
  { intros s' Hs'. split; [by rewrite Hs'|]. rewrite Hs'. intros o' Ho'. apply Hk in Ho'. lia. }
  assert (Hadd : forall opened, it_Type opened <> "function_call" -> event_step s (item_added o opened) = ([], {| st_calls := st_calls s; st_acc := st_acc s; st_cursors := st_cursors s |})).
  { intros opened Ho. unfold event_step, event_deltas. cbn. destruct (String.eqb_spec (it_Type opened) "function_call"); done. }
  unfold item_text, item_reason, item_calls.
  destruct Hit as [opened ts Ht Ho Hc|opened ts Ht Ho Hc|a ts Ht Hc|opened H1 H2 H3 H4]; cbn [events_say].
  - rewrite Hadd by (by rewrite Ho). rewrite Ht. cbn [String.eqb Ascii.eqb Bool.eqb].
    destruct (responses_pieces_say "response.output_text.delta" o (fun d => [text_delta DeltaText d]) ts
      {| st_calls := st_calls s; st_acc := st_acc s; st_cursors := st_cursors s |}) as (s' & -> & Hs'); [done|].
    eexists _, s', n. split; [done|]. split; [by apply Hmono|]. split; [cbn; lia|]. unfold item_text in Hc. rewrite Ht in Hc. cbn in Hc.
    cbn [app]. rewrite <- Hc. apply (says_pieces n n DeltaText); auto.
  - rewrite Hadd by (by rewrite Ho). rewrite Ht. cbn [String.eqb Ascii.eqb Bool.eqb].
    destruct (responses_pieces_say "response.reasoning_summary_text.delta" o (fun d => [text_delta DeltaReasoning d]) ts
      {| st_calls := st_calls s; st_acc := st_acc s; st_cursors := st_cursors s |}) as (s' & -> & Hs'); [done|].
    eexists _, s', n. split; [done|]. split; [by apply Hmono|]. split; [cbn; lia|]. unfold item_reason in Hc. rewrite Ht in Hc. cbn in Hc.
    cbn [app]. rewrite <- Hc. apply (says_pieces n n DeltaReasoning); auto.
  - assert (Hfresh : st_calls s !! o = None).
    { destruct (st_calls s !! o) eqn:E; [|done]. assert (o < o)%Z by (apply Hk; eauto). lia. }
    set (d := start_call real (Z.of_nat (size (st_calls s))) (announced it a)).
    set (s1 := {| st_calls := <[o := Z.of_nat (size (st_calls s))]> (st_calls s); st_acc := acc_Add (st_acc s) d; st_cursors := st_cursors s |}).
    change (event_step s (item_added o (announced it a))) with ([d], s1). cbv beta iota.
    destruct (responses_pieces_say "response.function_call_arguments.delta" o (opt_args n) ts s1) as (s' & -> & Hs').
    { intros t s2 Hs2. unfold event_deltas. cbn. rewrite Hs2. cbn. rewrite lookup_insert_eq. by rewrite Hn. }
    exists (d :: concat (opt_args n <$> ts)), s', (n + 1)%Z. split; [done|]. rewrite Ht. cbn [String.eqb Ascii.eqb Bool.eqb length]. split; [|split; [lia|]].
    + split; rewrite Hs'; cbn.
      * rewrite map_size_insert_None by done. lia.
      * intros o' [i Hi]. apply lookup_insert_Some in Hi as [[<- _]|[_ Hi]]; [lia|]. assert (o' < o)%Z by (apply Hk; eauto). lia.
    + pose proof (says_call n d ts eq_refl Hn) as Hs. unfold finish_call in Hs. cbn [d d_ToolCallID d_ToolName d_Text start_call announced tc_ID tc_Name it_CallID it_Name it_Arguments] in Hs.
      unfold text_or in Hc. rewrite Hc in Hs. exact Hs.
  - rewrite Hadd by done. eexists [], _, n. split; [done|]. split; [by apply Hmono|].
    destruct (String.eqb_spec (it_Type it) "message"), (String.eqb_spec (it_Type it) "reasoning"), (String.eqb_spec (it_Type it) "function_call"); try congruence.
    split; [cbn; lia|apply says_nothing].
Qed.

Lemma items_events_say o its es : forall n s, items_events o its es -> counted o n s -> (0 <= n)%Z ->
  exists ds s' n', events_say event_step s es = (ds, s') /\ Z.of_nat (size (st_calls s')) = n'
  /\ n' = (n + Z.of_nat (length (concat (map (item_calls real) its))))%Z
  /\ says n n' ds (str_concat (map item_text its)) (str_concat (map item_reason its)) (concat (map (item_calls real) its)).
Proof.
  intros n s Hits. revert n s. induction Hits as [o|o it its es es' Hit _ IH]; intros n s Hc Hn.
  { exists [], s, n. split; [done|]. split; [apply Hc|]. split; [cbn; lia|apply says_nothing]. }
  destruct (item_events_say o n it es s Hit Hc Hn) as (ds & s1 & n1 & He & Hc1 & Hn1 & Hs1).
  destruct (IH n1 s1 Hc1 ltac:(lia)) as (ds' & s2 & n2 & He' & Hc2 & Hn2 & Hs2).
  exists (ds ++ ds'), s2, n2. split; [by rewrite events_say_app, He, He'|]. split; [done|]. cbn [map concat]. rewrite length_app.
  split; [lia|]. change (str_concat (?x :: ?l)) with (x +:+ str_concat l). eapply says_app; [|exact Hs1|exact Hs2]. lia.
Qed.

Lemma responses_silent_step s e : silent e -> event_step s e = ([], {| st_calls := st_calls s; st_acc := st_acc s; st_cursors := st_cursors s |}).
Proof.
  unfold silent, event_step, event_deltas. intros Hs.
  assert (Hne : forall t, t ∈ heard -> String.eqb (re_Type e) t = false) by (intros t Ht; apply String.eqb_neq; by intros Heq; rewrite Heq in Hs).
  rewrite !Hne by (unfold heard; set_solver). done.
Qed.

Lemma responses_events_say_filter s es : events_say event_step s es = events_say event_step s (filter (fun e => ~ silent e) es).
Proof.
  revert s. induction es as [|e es IH]; intros s; [done|]. rewrite filter_cons. destruct (decide (~ silent e)) as [Hn|Hn].
  - cbn [events_say]. destruct (event_step s e) as [ds s']. by rewrite IH.
  - cbn [events_say]. rewrite responses_silent_step by (by destruct (decide (silent e))). rewrite IH. destruct s. cbn. by destruct (events_say _ _ _).
Qed.

(** The closing event. *)
Definition closing s (full : rsResponse) : list Delta :=
  from_option (fun u => [usage_delta (toUsage u)]) [] (rr_Usage full) ++ [finish_delta (finishReason full (negb (bool_decide (st_calls s = ∅))))].

(** The events of a response and its close accumulate to what [Generate]
    makes of the response. *)
Lemma responses_accumulate_streams full es c : streams full es ->
  let '(ds, s) := events_say event_step (stream_init c) es in
  accumulate (ds ++ closing s full) = toProviderResponse real full
  /\ st_acc s = foldl acc_Add acc_zero ds /\ st_cursors s = Some c.
Proof.
  intros Hes. pose proof (events_acc es (stream_init c)) as Hacc. rewrite responses_events_say_filter in Hacc |- *.
  destruct (items_events_say 0 (rr_Output full) _ 0%Z (stream_init c) Hes) as (ds & s & n & He & Hc & Hn & Hs); [|done|].
  { split; [done|]. cbn. intros o [i Hi]. by rewrite lookup_empty in Hi. }
  rewrite He in Hacc |- *. split; [|exact Hacc]. unfold closing. erewrite accumulate_says; [|exact Hs|].
  2:{ apply Forall_app. split; [destruct (rr_Usage full); cbn; [|constructor]|]; (constructor; [|constructor]); [by right|by left]. }
  unfold toProviderResponse. set (calls := concat (map (item_calls real) (rr_Output full))) in *.
  assert (Hempty : bool_decide (st_calls s = ∅) = bool_decide (calls = [])).
  { apply bool_decide_ext. split; intros Hx.
    - rewrite Hx, map_size_empty in Hc. apply nil_length_inv. lia.
    - apply map_size_empty_iff. rewrite Hx in Hn. cbn in Hn. lia. }
  rewrite Hempty. f_equal.
  - unfold finish_of. rewrite filter_app. destruct (rr_Usage full); done.
  - unfold usage_of. rewrite filter_app. destruct (rr_Usage full); done.
Qed.

Definition ongoing (e : rsEvent) : Prop :=
  re_Type e <> "response.completed" /\ re_Type e <> "response.incomplete" /\ re_Type e <> "response.failed" /\ re_Type e <> "error".

Lemma item_events_ongoing o it es : item_events o it es -> Forall ongoing es.
Proof.
  assert (Hd : forall t ts, ongoing (delta_event t o "") -> Forall ongoing (map (delta_event t o) ts)).
  { intros t ts Ht. apply Forall_forall. intros e He. apply (proj1 (list_elem_of_fmap _ _ _)) in He as (d & -> & _). exact Ht. }
  intros [?? _ _ _|?? _ _ _|?? _ _|? _ _ _ _]; (constructor; [done|try apply Hd; done]).
Qed.

Lemma responses_streams_ongoing full es : streams full es -> Forall ongoing es.
Proof.
  unfold streams. intros Hes. assert (Hok : Forall ongoing (filter (fun e => ~ silent e) es)).
  { induction Hes; [constructor|]. apply Forall_app. split; [by eapply item_events_ongoing|done]. }
  apply Forall_forall. intros e He. destruct (decide (silent e)) as [Hs|Hn].
  - unfold silent, heard in Hs. unfold ongoing. set_solver.
  - rewrite Forall_forall in Hok. apply Hok. by apply list_elem_of_filter.
Qed.

Context (decode_event : string -> result rsEvent).

Definition is_event (payload : string) (e : rsEvent) : Prop :=
  trim_space payload <> "" /\ decode_event (trim_space payload) = inr e.

Lemma ongoing_carries payload e : is_event payload e -> ongoing e ->
  carries (decode sha256 decode_event cfg history real) event_step payload e.
Proof.
  intros [Hne He] (H1 & H2 & H3 & H4). split; [done|]. intros s. unfold decode, event_step. rewrite He.
  apply String.eqb_neq in H1, H2, H3, H4. rewrite H1, H2, H3, H4. cbn. by destruct (event_deltas real (st_calls s) e).
Qed.

(** C14: Reading a streamed response to its closing event accumulates to what
    Generate makes of the same response - text, reasoning, tool calls under
    their own names, finish reason and usage, whatever other events stand
    between - and leaves the provider with the same cursor, so that the next
    request continues from the response either way. *)
Theorem responses_stream_is_generate full payloads es close last c rest :
  streams full es -> Forall2 is_event payloads es -> is_event close last -> closes full last ->
  exists n, forall m, n <= m ->
    let s := open_stream (stream_init c) in let ticks := map clean payloads ++ clean close :: rest in
    let out := drain_deltas (decode sha256 decode_event cfg history real) m s ticks in
    out.2 = Some EOF /\ accumulate out.1 = toProviderResponse real full
    /\ st_cursors (drained_state (decode sha256 decode_event cfg history real) m s ticks)
       = remember_response sha256 cfg history (rr_ID full) (toProviderResponse real full) c.
Proof.
  intros Hes Hp [Hne Hlast] [Hty Hfull]. pose proof (responses_accumulate_streams full es c Hes) as Hacc.
  set (dec := decode sha256 decode_event cfg history real).
  assert (Hcarry : Forall2 (carries dec event_step) payloads es).
  { pose proof (responses_streams_ongoing full es Hes) as Ho. clear -Hp Ho. induction Hp as [|p e ps es Hpe _ IH]; [constructor|].
    inversion Ho; subst. constructor; [by apply ongoing_carries|by apply IH]. }
  pose proof (clean_ticks_say dec event_step (stream_init c) payloads es (clean close :: rest) Hcarry) as Hsay.
  pose proof (clean_ticks_state dec event_step (stream_init c) payloads es (clean close :: rest) Hcarry) as Hst.
  destruct (events_say event_step (stream_init c) es) as [ds s']. destruct Hacc as (Hout & Ha & Hc). cbn [snd] in Hst.
  assert (Hclose : tick_says dec s' (clean close) = (closing s' full, Some EOF,
    {| st_calls := st_calls s'; st_acc := foldl acc_Add (st_acc s') (closing s' full);
       st_cursors := c ← st_cursors s'; remember_response sha256 cfg history (rr_ID full) (acc_Result (foldl acc_Add (st_acc s') (closing s' full))) c |})).
  { unfold tick_says. cbn [tk_before tk_err tk_Data clean]. unfold payload_says, dec, decode.
    destruct (String.eqb_spec (trim_space close) ""); [done|]. rewrite Hlast, Hfull. by destruct Hty as [-> | ->]. }
  cbn [ticks_say ticks_state] in Hsay, Hst. rewrite Hclose in Hsay, Hst.
  assert (Hto : to_say dec (open_stream (stream_init c)) (map clean payloads ++ clean close :: rest) = (ds ++ closing s' full, Some EOF)).
  { unfold open_stream. by rewrite to_say_empty. }
  exists (S (length (ds ++ closing s' full))). intros m Hm.
  cbv zeta. rewrite drained_state_says by (rewrite Hto; cbn [fst snd]; first [lia|done]). rewrite stream_drained, Hto by (rewrite Hto; cbn [fst]; lia).
  split; [done|]. split; [exact Hout|]. unfold to_state, open_stream. cbn [ss_done ss_dec]. rewrite Hst. cbn [st_cursors]. rewrite Hc. cbn [mbind option_bind].
  by rewrite Ha, <- foldl_app, <- Hout.
Qed.

End Streaming.

(** * Witness *)

Definition demo_item (ty id name args : string) (content : list (string * string)) : rsOutputItem :=
  {| it_Type := ty; it_CallID := id; it_Name := name; it_Arguments := args; it_Content := content; it_Summary := [] |}.
Definition demo_message : rsOutputItem := demo_item "message" "" "" "" [("output_text", "hello"); ("refusal", "no")].
Definition demo_function_call : rsOutputItem := demo_item "function_call" "c1" "ls" "{}" [].
Definition demo_full : rsResponse :=
  {| rr_ID := "r1"; rr_Status := "completed"; rr_Output := [demo_message; demo_function_call]; rr_Usage := Some {| ru_Input := 5; ru_Output := 6; ru_Details := Some 2%Z |};
     rr_Incomplete := None; rr_Error := None |}.

Definition demo_events : list rsEvent :=
  [delta_event "response.created" 0 ""; item_added 0 demo_message; delta_event "response.output_text.delta" 0 "hel";
   delta_event "response.output_text.delta" 0 "lo"; item_added 1 (announced demo_function_call "");
   delta_event "response.function_call_arguments.delta" 1 "{"; delta_event "response.function_call_arguments.delta" 1 "}"].
Definition demo_last : rsEvent :=
  {| re_Type := "response.completed"; re_OutputIndex := 0; re_Delta := ""; re_Item := None; re_Response := Some demo_full; re_Code := "";
     re_Message := ""; re_Error := None |}.
Definition demo_payloads : list string := ["A"; "B"; "C"; "D"; "E"; "F"; "G"].
Definition demo_decode_event (s : string) : result rsEvent :=
  match List.find (fun '(k, _) => String.eqb k s) (zip ("Z" :: demo_payloads) (demo_last :: demo_events)) with
  | Some (_, e) => inr e | None => inl (EText "invalid character") end.

Lemma responses_demo_streams : streams demo_full demo_events.
Proof.
  unfold streams.
  assert (filter (fun e => ~ silent e) demo_events
    = [item_added 0 demo_message; delta_event "response.output_text.delta" 0 "hel"; delta_event "response.output_text.delta" 0 "lo"]
      ++ [item_added 1 (announced demo_function_call ""); delta_event "response.function_call_arguments.delta" 1 "{"; delta_event "response.function_call_arguments.delta" 1 "}"]
      ++ []) as -> by reflexivity.
  apply (more_items 0 demo_message).
  { exact (message_events 0 demo_message demo_message ["hel"; "lo"] eq_refl eq_refl eq_refl). }
  apply (more_items 1 demo_function_call); [|constructor]. exact (call_events 1 demo_function_call "" ["{"; "}"] eq_refl eq_refl).
Defined.

Lemma responses_stream_is_generate_witness :
  let cfg := {| rc_BaseURL := "u"; rc_APIKey := ""; rc_Model := "m"; rc_ReasoningEffort := ""; rc_ReasoningSummary := "";
                rc_Temperature := false; rc_NoStore := false; rc_CursorCacheSize := 0 |} in
  let history := [text_message RoleUser "hi"] in let c := newCursorCache (K:=string) 256 in
  streams demo_full demo_events /\ Forall2 (is_event demo_decode_event) demo_payloads demo_events
  /\ is_event demo_decode_event "Z" demo_last /\ closes demo_full demo_last
  /\ (exists n, forall m, n <= m ->
    let s := open_stream (stream_init c) in let ticks := map clean demo_payloads ++ clean "Z" :: [] in
    let out := drain_deltas (decode (fun s => s) demo_decode_event cfg history ∅) m s ticks in
    out.2 = Some EOF /\ accumulate out.1 = toProviderResponse ∅ demo_full
    /\ st_cursors (drained_state (decode (fun s => s) demo_decode_event cfg history ∅) m s ticks)
       = remember_response (fun s => s) cfg history "r1" (toProviderResponse ∅ demo_full) c)
  /\ r_Text (toProviderResponse ∅ demo_full) = "hello".
Proof.
  intros cfg history c.
  assert (Hp : Forall2 (is_event demo_decode_event) demo_payloads demo_events) by (repeat constructor; vm_compute; congruence).
  assert (Hz : is_event demo_decode_event "Z" demo_last) by (split; vm_compute; congruence).
  assert (Hc : closes demo_full demo_last) by (split; [by left|done]).
  split; [exact responses_demo_streams|]. split; [exact Hp|]. split; [exact Hz|]. split; [exact Hc|]. split; [|reflexivity].
  exact (responses_stream_is_generate (fun s => s) cfg history ∅ demo_decode_event demo_full demo_payloads demo_events "Z" demo_last c [] responses_demo_streams Hp Hz Hc).
Defined.
