(* ===== verification/ResponsesChain.v ===== *)
(** * Conversations continued on the server

    Whatever the Responses provider sends, the model sees the whole history:
    what the server stored under the id it continues from, followed by what
    is sent, is the request's history.  The server is a part of the world
    about which only its contract is assumed: a stored response keeps the
    conversation it answered, ids are not given twice, and a response may be
    forgotten at any time.  Other calls of the same provider may run while a
    request is out. *)

From S2P Require Import Prelude GoStr Errors Provider ToolName Http Wire Cursors Responses.
From stdpp Require Import infinite fin_sets.

(** ** Triples *)

(** From a world that satisfies [P], [m] ends in a value, events and a world
    that satisfy [Q]. *)
Definition run_ok {W E A} (P : W -> Prop) (m : eff W E A) (Q : A -> list E -> W -> Prop) : Prop :=
  forall w, P w -> let '(a, evs, w') := m w in Q a evs w'.

Lemma run_ret {W E A} (P : W -> Prop) (a : A) (Q : A -> list E -> W -> Prop) : (forall w, P w -> Q a [] w) -> run_ok P (eff_ret a) Q.
Proof. by intros H w Hw; apply H. Qed.

Lemma run_emit {W E} (P : W -> Prop) (ev : E) (Q : unit -> list E -> W -> Prop) : (forall w, P w -> Q tt [ev] w) -> run_ok P (eff_emit ev) Q.
Proof. by intros H w Hw; apply H. Qed.

Lemma run_call {W E A} (P : W -> Prop) (f : W -> A * W) (Q : A -> list E -> W -> Prop) :
  (forall w, P w -> Q (f w).1 [] (f w).2) -> run_ok P (eff_call f) Q.
Proof. intros H w Hw. unfold eff_call. specialize (H w Hw). by destruct (f w). Qed.

Lemma run_bind {W E A B} (P : W -> Prop) (m : eff W E A) (k : A -> eff W E B) (R : A -> list E -> W -> Prop) Q :
  run_ok P m R -> (forall a evs, run_ok (R a evs) (k a) (fun b evs' w => Q b (evs ++ evs') w)) -> run_ok P (eff_bind m k) Q.
Proof.
  intros Hm Hk w Hw. unfold eff_bind. specialize (Hm w Hw). destruct (m w) as [[a evs] w1].
  specialize (Hk a evs w1 Hm). destruct (k a w1) as [[b evs'] w2]. exact Hk.
Qed.

Lemma run_mono {W E A} (P P' : W -> Prop) (m : eff W E A) (Q Q' : A -> list E -> W -> Prop) :
  run_ok P' m Q' -> (forall w, P w -> P' w) -> (forall a evs w, Q' a evs w -> Q a evs w) -> run_ok P m Q.
Proof. intros Hm HP HQ w Hw. specialize (Hm w (HP w Hw)). destruct (m w) as [[a evs] w']. by apply HQ. Qed.

(** ** The server's contract *)

Abbreviation seen := (list (string * string * string * list ToolCall)).

Section Chain.
Context {K : Type} `{Countable K} (sha256 : string -> K) {W Req F : Type} (ep : endpoint W Req F)
  (cursors : W -> cursorCache K) (set_cursors : cursorCache K -> W -> W)
  (bind : RawJSON -> option jval) (InputSchema : ToolDef -> jval)
  (decode_full : string -> result rsResponse) (cfg : ResponsesConfig)
  (conv : W -> gmap string seen).

(** The conversation behind a previous id. *)
Definition view (c : gmap string seen) (prev : string) : option seen := if String.eqb prev "" then Some [] else c !! prev.

(** Every cursor leads to the conversation its key was taken of. *)
Record inv (w : W) : Prop := {
  iv_cache : cache_ok (cursors w);
  iv_cursor : forall k id, (k, id) ∈ entries (cursors w) ->
    id <> "" /\ exists msgs, Forall fits_message msgs /\ k = cursorKey sha256 msgs /\ conv w !! id = Some (map keyed msgs);
}.

(** What may happen while the provider waits. *)
Definition moves (w w' : W) : Prop := inv w -> inv w' /\ conv w ⊆ conv w'.

(** The contract, for one request: what of its history may be posted is a
    part after some message, or all of it. *)
Record world_laws (req : ProviderRequest) : Prop := {
  wl_sha : forall s t, sha256 s = sha256 t -> s = t;
  wl_get : forall c w, cursors (set_cursors c w) = c;
  wl_conv : forall c w, conv (set_cursors c w) = conv w;
  wl_do : forall r w, moves w (ep_Do ep r w).2;
  wl_sleep : forall d w, moves w (ep_sleep ep d w).2;
  wl_request : forall url hs raw w, moves w (ep_NewRequest ep url hs raw w).2;
  (** The server keeps the conversation under the id of its answer. *)
  wl_stores : forall n prev v w resp full evs w', let input := drop n (pr_Messages req) in
    posting ep bind InputSchema cfg req input prev false w = (Some (inr resp), evs, w') -> view (conv w) prev = Some v ->
    decode_full (hr_Body resp) = inr full -> rr_ID full <> "" ->
    conv w' !! rr_ID full = Some (v ++ map keyed input ++ [keyed (reply (toProviderResponse (safeToReal (maps_of (pr_Tools req))) full))]);
  (** Answers have lengths an int can hold. *)
  wl_fits : forall body full real, decode_full body = inr full -> fits_message (reply (toProviderResponse real full));
}.
Context (req : ProviderRequest) (laws : world_laws req).

Lemma moves_refl w : moves w w.
Proof. by intros Hi. Qed.

Lemma moves_trans w1 w2 w3 : moves w1 w2 -> moves w2 w3 -> moves w1 w3.
Proof. intros H1 H2 Hi. destruct (H1 Hi) as [Hi2 Hs]. destruct (H2 Hi2) as [Hi3 Hs']. split; [done|]. by etrans. Qed.

(** A computation that only moves the world. *)
Definition moving {E A} (m : eff W E A) : Prop := forall w0, run_ok (moves w0) m (fun _ _ w => moves w0 w).

Lemma moving_ret {E A} (a : A) : moving (E:=E) (eff_ret a).
Proof. intros w0. by apply run_ret. Qed.

Lemma moving_emit {E} (ev : E) : moving (eff_emit ev).
Proof. intros w0. by apply run_emit. Qed.

Lemma moving_call {E A} (f : W -> A * W) : (forall w, moves w (f w).2) -> moving (E:=E) (eff_call f).
Proof. intros Hf w0. apply run_call. intros w Hw. by eapply moves_trans. Qed.

Lemma moving_bind {E A B} (m : eff W E A) (k : A -> eff W E B) : moving m -> (forall a, moving (k a)) -> moving (eff_bind m k).
Proof. intros Hm Hk w0. eapply run_bind; [apply Hm|]. intros a evs. apply Hk. Qed.

(** A send moves the world. *)
Lemma send_from_moving newReq fuel attempt : (forall w, moves w (newReq w).2) ->
  moving (send_from (ep_nums ep) (ep_clock ep) newReq (ep_Do ep) (ep_sleep ep) fuel attempt).
Proof.
  intros Hnew. revert attempt. induction fuel as [|fuel IH]; intros attempt; cbn [send_from]; [apply moving_ret|].
  apply moving_bind; [by apply moving_call|]. intros [e|rq]; [apply moving_ret|].
  apply moving_bind; [apply moving_call, (wl_do req laws)|]. intros resp. apply moving_bind; [apply moving_emit|]. intros _.
  destruct resp as [e|resp]; [apply moving_ret|]. destruct (_ && _); [apply moving_ret|]. cbv zeta.
  destruct (_ || _); [apply moving_ret|]. apply moving_bind; [apply moving_call; intros w; apply moves_refl|]. intros unt.
  apply moving_bind; [apply moving_call, (wl_sleep req laws)|]. intros err. apply moving_bind; [apply moving_emit|]. intros _.
  destruct err; [apply moving_ret|apply IH].
Qed.

Lemma lift_moving {A} (m : eff W net_event A) : moving m -> moving (lift_net m).
Proof. intros Hm w0 w Hw. specialize (Hm w0 w Hw). unfold lift_net. by destruct (m w) as [[a evs] w']. Qed.

Lemma post_moving b : moving (post ep cfg b).
Proof.
  unfold post, post_to. destruct (ep_Marshal ep b); [apply moving_ret|]. apply send_from_moving. intros w. apply (wl_request req laws).
Qed.

(** ** Complete requests *)

Definition complete (msgs : list Message) (c : gmap string seen) (ev : rs_event) : Prop :=
  match ev with
  | Posting input prev => exists v, view c prev = Some v /\ v ++ map keyed input = map keyed msgs
  | _ => True
  end.

Lemma view_mono c c' prev v : c ⊆ c' -> view c prev = Some v -> view c' prev = Some v.
Proof. unfold view. intros Hs. destruct (String.eqb prev ""); [done|]. intros Hc. eapply lookup_weaken; [exact Hc|exact Hs]. Qed.

Lemma complete_mono msgs c c' ev : c ⊆ c' -> complete msgs c ev -> complete msgs c' ev.
Proof. intros Hs. destruct ev as [r|input prev|e]; cbn; [done| |done]. intros (v & Hv & He). exists v. split; [by eapply view_mono|done]. Qed.

Lemma nets_complete msgs c evs : Forall (complete msgs c) (map Net evs).
Proof. apply Forall_fmap. by apply Forall_forall. Qed.

(** One request. *)
Lemma posting_ok input prev stream w v msgs :
  inv w -> view (conv w) prev = Some v -> v ++ map keyed input = map keyed msgs ->
  let '(r, evs, w') := posting ep bind InputSchema cfg req input prev stream w in
  inv w' /\ conv w ⊆ conv w' /\ Forall (complete msgs (conv w')) evs.
Proof.
  intros Hi Hv He. unfold posting, eff_bind, eff_emit. pose proof (lift_moving _ (post_moving (buildBody bind InputSchema cfg req input prev stream)) w w (moves_refl w)) as Hm.
  unfold lift_net in *. destruct (post ep cfg _ w) as [[r evs] w']. cbn. destruct (Hm Hi) as [Hi' Hs]. split; [done|]. split; [done|].
  constructor; [|apply nets_complete]. exists v. split; [by eapply view_mono|done].
Qed.

(** A change of the cursors to fewer, or to some more that lead where they
    should, keeps the invariant. *)
Lemma inv_set w c : inv w -> cache_ok c ->
  (forall k id, (k, id) ∈ entries c -> (k, id) ∈ entries (cursors w)
    \/ (id <> "" /\ exists msgs, Forall fits_message msgs /\ k = cursorKey sha256 msgs /\ conv w !! id = Some (map keyed msgs))) ->
  inv (set_cursors c w) /\ conv (set_cursors c w) = conv w.
Proof.
  intros [Hc He] Hok Hin. split; [|apply (wl_conv req laws)]. split; rewrite (wl_get req laws); [done|]. intros k id Hk. rewrite (wl_conv req laws).
  apply Hin in Hk as [Hk|Hk]; [by apply He|done].
Qed.

Lemma rec_get_incl k (l : list (K * string)) x : x ∈ (rec_get k l).2 -> x ∈ l.
Proof.
  unfold rec_get, rec_id. destruct (List.find _ l) as [[k' id]|] eqn:Ef; [|done]. cbn. apply List.find_some in Ef as [Hin Hk%bool_decide_eq_true].
  apply list_elem_of_In in Hin. cbn in Hk. subst k'. intros [->|Hx]%elem_of_cons; [done|]. by apply list_elem_of_filter in Hx as [_ ?].
Qed.

Lemma rec_get_found k (l : list (K * string)) id : (rec_get k l).1 = Some id -> (k, id) ∈ l.
Proof.
  unfold rec_get, rec_id. destruct (List.find _ l) as [[k' id']|] eqn:Ef; [|done]. cbn. intros [= ->].
  apply List.find_some in Ef as [Hin Hk%bool_decide_eq_true]. apply list_elem_of_In in Hin. cbn in Hk. by subst k'.
Qed.

Lemma rec_put_incl max k id (l : list (K * string)) x : x ∈ rec_put max k id l -> x = (k, id) \/ x ∈ l.
Proof.
  unfold rec_put. destruct (rec_id k l).
  - intros [->|Hx]%elem_of_cons; [by left|]. right. by apply list_elem_of_filter in Hx as [_ ?].
  - intros (i & Hi & _)%elem_of_take. apply list_elem_of_lookup_2 in Hi. by apply elem_of_cons in Hi.
Qed.

(** The input a request chooses, with what it continues, is its history. *)
Lemma choose_input_ok msgs w : inv w -> Forall fits_message msgs ->
  let '(r, evs, w') := choose_input sha256 cursors set_cursors cfg msgs w in
  inv w' /\ conv w' = conv w /\ Forall (complete msgs (conv w')) evs
  /\ exists input prev v, r = Some (input, prev) /\ (exists n, input = drop n msgs) /\ view (conv w') prev = Some v /\ v ++ map keyed input = map keyed msgs.
Proof.
  intros Hi Hf. unfold choose_input. cbv zeta.
  destruct (rc_NoStore cfg || Nat.eqb (after_last_assistant msgs) 0).
  { split; [done|]. split; [done|]. split; [constructor|]. exists msgs, "", []. split; [done|]. split; [by exists 0|done]. }
  unfold eff_bind, get_cursor, eff_call. set (n := after_last_assistant msgs).
  destruct (cache_get_refines (cursors w) (cursorKey sha256 (take n msgs)) (iv_cache w Hi)) as (c & -> & Hok & Hent).
  set (k := cursorKey sha256 (take n msgs)) in *.
  destruct (inv_set w c Hi Hok) as [Hi' Hconv].
  { intros k' id' Hin. left. rewrite Hent in Hin. by eapply rec_get_incl. }
  destruct ((rec_get k (entries (cursors w))).1) as [id|] eqn:Hr; cbn.
  - split; [done|]. split; [done|]. split; [constructor|]. exists (drop n msgs), id.
    apply rec_get_found in Hr. destruct (iv_cursor w Hi _ _ Hr) as (Hid & old & Hfo & Hk & Hc).
    exists (map keyed old). split; [done|]. split; [by exists n|]. rewrite Hconv. unfold view.
    destruct (String.eqb_spec id ""); [done|]. split; [done|].
    assert (map keyed (take n msgs) = map keyed old) as <-.
    { eapply (cursorKey_inj sha256); [apply (wl_sha req laws)|by apply Forall_take|done|exact Hk]. }
    by rewrite <- map_app, take_drop.
  - split; [done|]. split; [done|]. split; [by repeat constructor|]. exists msgs, "", []. split; [done|]. split; [by exists 0|done].
Qed.

(** What [send] guarantees: the answer, if there is one, is the answer of a
    request that was complete. *)
Definition answers (r : option (send_error + HTTPResponse)) (w' : W) : Prop :=
  forall resp full, r = Some (inr resp) -> decode_full (hr_Body resp) = inr full -> rr_ID full <> "" ->
    conv w' !! rr_ID full = Some (map keyed (pr_Messages req ++ [reply (toProviderResponse (safeToReal (maps_of (pr_Tools req))) full)])).

Lemma posting_answers n prev w v r evs w' :
  posting ep bind InputSchema cfg req (drop n (pr_Messages req)) prev false w = (r, evs, w') -> view (conv w) prev = Some v ->
  v ++ map keyed (drop n (pr_Messages req)) = map keyed (pr_Messages req) -> answers r w'.
Proof.
  intros Hp Hv He resp full -> Hd Hid. rewrite (wl_stores req laws _ _ _ _ _ _ _ _ Hp Hv Hd Hid). f_equal.
  by rewrite app_assoc, He, map_app.
Qed.

Lemma send_ok w : inv w -> Forall fits_message (pr_Messages req) ->
  let '(r, evs, w') := send sha256 ep cursors set_cursors bind InputSchema cfg req false w in
  inv w' /\ conv w ⊆ conv w' /\ Forall (complete (pr_Messages req) (conv w')) evs /\ answers r w'.
Proof.
  intros Hi Hf. unfold send. cbv zeta. set (msgs := pr_Messages req). unfold eff_bind at 1.
  pose proof (choose_input_ok msgs w Hi Hf) as Hch. destruct (choose_input sha256 cursors set_cursors cfg msgs w) as [[ch evs1] w1].
  destruct Hch as (Hi1 & Hc1 & Hev1 & input & prev & v & -> & [n Hin] & Hv & He). unfold eff_bind at 1.
  pose proof (posting_ok input prev false w1 v msgs Hi1 Hv He) as Hp.
  destruct (posting ep bind InputSchema cfg req input prev false w1) as [[r evs2] w2] eqn:Hpost. destruct Hp as (Hi2 & Hc2 & Hev2).
  assert (Hev1' : Forall (complete msgs (conv w2)) evs1).
  { eapply Forall_impl; [exact Hev1|]. intros ev. apply complete_mono. done. }
  assert (Hsub : conv w ⊆ conv w2) by (by rewrite <- Hc1).
  assert (Hans : answers r w2) by (rewrite Hin in Hpost, He; by eapply posting_answers).
  destruct r as [[err|resp]|]; [|by (split; [done|]; split; [done|]; split; [apply Forall_app; split; [done|by rewrite app_nil_r]|done])..].
  destruct (negb (String.eqb prev "") && isStaleCursor err);
    [|by (split; [done|]; split; [done|]; split; [apply Forall_app; split; [done|by rewrite app_nil_r]|done])].
  unfold eff_bind, drop_cursor, eff_call, eff_emit. cbv beta iota. set (key := cursorKey sha256 _).
  destruct (cache_drop_refines (cursors w2) key (iv_cache w2 Hi2)) as [Hok Hent].
  destruct (inv_set w2 (cache_drop (cursors w2) key) Hi2 Hok) as [Hi3 Hc3].
  { intros k' id' Hx. left. rewrite Hent in Hx. by apply list_elem_of_filter in Hx as [_ ?]. }
  pose proof (posting_ok msgs "" false (set_cursors (cache_drop (cursors w2) key) w2) [] msgs Hi3 eq_refl eq_refl) as Hp.
  destruct (posting ep bind InputSchema cfg req msgs "" false _) as [[r' evs3] w4] eqn:Hpost'. destruct Hp as (Hi4 & Hc4 & Hev4).
  rewrite Hc3 in Hc4. split; [done|]. split; [by etrans|]. split.
  - assert (Hm : forall evs, Forall (complete msgs (conv w2)) evs -> Forall (complete msgs (conv w4)) evs).
    { intros evs Hevs. eapply Forall_impl; [exact Hevs|]. intros ev. by apply complete_mono. }
    apply Forall_app. split; [by apply Hm|]. apply Forall_app. split; [by apply Hm|]. cbn. constructor; [done|exact Hev4].
  - by eapply (posting_answers 0 "" _ []).
Qed.

(** C9: Whatever an answered request sends, the model sees its whole history:
    what the server stored under the id the request continues from, followed
    by what it sends, is the request's messages in order.  It holds for every
    post of a Generate, the second one after a forgotten response included,
    whatever other calls of the provider do meanwhile, and the cursors it
    leaves lead to the conversations they stand for. *)
Theorem conversation_complete w :
  inv w -> Forall fits_message (pr_Messages req) ->
  let '(r, evs, w') := Generate sha256 ep cursors set_cursors bind InputSchema decode_full cfg req w in
  inv w' /\ conv w ⊆ conv w'
  /\ forall input prev, Posting input prev ∈ evs ->
       exists v, view (conv w') prev = Some v /\ v ++ map keyed input = map keyed (pr_Messages req).
Proof.
  intros Hi Hf. unfold Generate. destruct (check req) as [err|].
  { split; [done|]. split; [done|]. by intros ? ? ?%not_elem_of_nil. }
  unfold eff_bind at 1. pose proof (send_ok w Hi Hf) as Hs.
  destruct (send sha256 ep cursors set_cursors bind InputSchema cfg req false w) as [[r evs] w1]. destruct Hs as (Hi1 & Hc1 & Hev1 & Hans).
  assert (Hposts : forall input prev, Posting input prev ∈ evs -> exists v, view (conv w1) prev = Some v /\ v ++ map keyed input = map keyed (pr_Messages req)).
  { intros input prev Hin. rewrite Forall_forall in Hev1. exact (Hev1 _ Hin). }
  destruct r as [[err|resp]|]; [by cbn; rewrite app_nil_r| |by cbn; rewrite app_nil_r].
  destruct (decode_full (hr_Body resp)) as [err|full] eqn:Hd; [by cbn; rewrite app_nil_r|].
  destruct (rr_Error full) as [[code msg]|]; [by cbn; rewrite app_nil_r|]. cbv zeta.
  set (out := toProviderResponse (safeToReal (maps_of (pr_Tools req))) full). unfold eff_bind, eff_call.
  unfold remember_response. destruct (rc_NoStore cfg || String.eqb (rr_ID full) "") eqn:Hns.
  - destruct (inv_set w1 (cursors w1) Hi1 (iv_cache w1 Hi1)) as [Hi2 Hc2]; [by intros; left|]. cbn. rewrite !app_nil_r, Hc2. done.
  - apply orb_false_iff in Hns as [_ Hid]. apply String.eqb_neq in Hid.
    destruct (cache_put_refines (cursors w1) (cursorKey sha256 (pr_Messages req ++ [reply out])) (rr_ID full) (iv_cache w1 Hi1)) as (c & -> & Hok & Hent & _).
    destruct (inv_set w1 c Hi1 Hok) as [Hi2 Hc2]; [|cbn; rewrite !app_nil_r, Hc2; done].
    intros k id Hin. rewrite Hent in Hin. apply rec_put_incl in Hin as [[= -> ->]|Hin]; [|by left]. right. split; [done|].
    exists (pr_Messages req ++ [reply out]). split; [|split; [done|]].
    + apply Forall_app. split; [done|]. constructor; [|constructor]. by eapply (wl_fits req laws).
    + by apply (Hans resp full eq_refl Hd Hid).
Qed.

End Chain.

(** * A server to try it on *)

(** The server reads how many items a request has and what it continues. *)
Record demo_world := { dw_cursors : cursorCache string; dw_conv : gmap string seen }.

Definition demo_history : list Message := [text_message RoleUser "hi"; text_message RoleAssistant "hello"; text_message RoleUser "more"].
Definition demo_request : ProviderRequest :=
  {| pr_Instructions := "be brief"; pr_Messages := demo_history; pr_Tools := []; pr_Temperature := None; pr_MaxTokens := 0;
     pr_ToolChoice := ToolChoice_zero; pr_Seed := None; pr_Penalties := None; pr_Guided := None; pr_ResponseSchema := "" |}.
Definition demo_config : ResponsesConfig :=
  {| rc_BaseURL := "https://api.openai.com/v1"; rc_APIKey := "k"; rc_Model := "m"; rc_ReasoningEffort := ""; rc_ReasoningSummary := "";
     rc_Temperature := false; rc_NoStore := false; rc_CursorCacheSize := 0 |}.

Definition ticks_of (n : nat) : string := str_concat (replicate n "x").
Definition demo_marshal (b : body) : result string :=
  inr (ticks_of (length (default [] (b !! "input" ≫= as_list))) +:+ ":" +:+ default "" (b !! "previous_response_id" ≫= as_str)).

Definition demo_response (id : string) : rsResponse :=
  {| rr_ID := id; rr_Status := "completed";
     rr_Output := [{| it_Type := "message"; it_CallID := ""; it_Name := ""; it_Arguments := ""; it_Content := [("output_text", "ok")]; it_Summary := [] |}];
     rr_Usage := None; rr_Incomplete := None; rr_Error := None |}.
Definition demo_reply : Message := reply (toProviderResponse ∅ (demo_response "")).

Definition demo_do (raw : string) (w : demo_world) : result HTTPResponse * demo_world :=
  let n := default 0 (str_index ":" raw) in
  let prev := str_drop (S n) raw in
  match view (dw_conv w) prev with
  | None => (inr {| hr_StatusCode := 400; hr_Get := fun _ => ""; hr_Body := "previous_response_not_found" |}, w)
  | Some v =>
      let id := fresh ({[""]} ∪ dom (dw_conv w)) in
      (inr {| hr_StatusCode := 200; hr_Get := fun _ => ""; hr_Body := id |},
       {| dw_cursors := dw_cursors w; dw_conv := <[id := v ++ map keyed (drop (3 - n) demo_history) ++ [keyed demo_reply]]> (dw_conv w) |})
  end.

Definition demo_endpoint : endpoint demo_world string unit :=
  {| ep_nums := {| f_parse := fun _ => None; f_pos := fun _ => false; f_dur := fun _ _ => 0%Z |};
     ep_clock := fun _ _ => None; ep_Do := demo_do; ep_sleep := fun _ w => (None, w);
     ep_NewRequest := fun _ _ raw w => (inr raw, w); ep_Marshal := demo_marshal |}.

Definition demo_set (c : cursorCache string) (w : demo_world) : demo_world := {| dw_cursors := c; dw_conv := dw_conv w |}.
Definition no_bind : RawJSON -> option jval := fun _ => None.
Definition no_schema : ToolDef -> jval := fun _ => JNull.
Definition demo_decode (s : string) : result rsResponse := inr (demo_response s).

Lemma demo_marshal_body n prev :
  demo_marshal (buildBody no_bind no_schema demo_config demo_request (drop n demo_history) prev false)
  = inr (ticks_of (length (drop n demo_history)) +:+ ":" +:+ prev).
Proof.
  unfold buildBody. destruct (String.eqb_spec prev "") as [->|Hp].
  - destruct n as [|[|[|n]]]; [vm_compute; reflexivity..|]. replace (drop (S (S (S n))) demo_history) with (@nil Message) by (cbn; by rewrite drop_nil).
    vm_compute; reflexivity.
  - destruct n as [|[|[|n]]]; [vm_compute; reflexivity..|]. replace (drop (S (S (S n))) demo_history) with (@nil Message) by (cbn; by rewrite drop_nil).
    vm_compute; reflexivity.
Qed.

Lemma demo_do_moves raw w : moves (fun s => s) dw_cursors dw_conv w (demo_do raw w).2.
Proof.
  intros [Hc Hk]. unfold demo_do. cbv zeta. destruct (view (dw_conv w) _) as [v|]; cbn; [|done].
  set (id := fresh _). assert (Hid : id ∉ {[""]} ∪ dom (dw_conv w)) by apply is_fresh.
  assert (Hnone : dw_conv w !! id = None) by (apply not_elem_of_dom; set_solver).
  assert (Hsub : dw_conv w ⊆ <[id := v ++ map keyed (drop (3 - default 0 (str_index ":" raw)) demo_history) ++ [keyed demo_reply]]> (dw_conv w)) by by apply insert_subseteq.
  split; [|done]. split; [done|]. cbn. intros k id' Hin. destruct (Hk k id' Hin) as (Hne & msgs & Hf & -> & Hm).
  split; [done|]. exists msgs. split; [done|]. split; [done|]. eapply lookup_weaken; [exact Hm|exact Hsub].
Qed.

Lemma demo_posting n prev w v :
  view (dw_conv w) prev = Some v -> let input := drop n demo_history in
  exists id evs, id <> "" /\ posting demo_endpoint no_bind no_schema demo_config demo_request input prev false w
    = (Some (inr {| hr_StatusCode := 200; hr_Get := fun _ => ""; hr_Body := id |}), evs,
       {| dw_cursors := dw_cursors w; dw_conv := <[id := v ++ map keyed input ++ [keyed demo_reply]]> (dw_conv w) |}).
Proof.
  intros Hv input. unfold posting, eff_bind, eff_emit, lift_net, post, post_to. cbn [ep_Marshal demo_endpoint].
  unfold input. rewrite demo_marshal_body. unfold sendWithRetry, send_fuel. cbn [send_from ep_NewRequest ep_Do demo_endpoint].
  unfold eff_bind, eff_call, eff_emit, eff_ret, demo_do.
  assert (Hn : default 0 (str_index ":" (ticks_of (length (drop n demo_history)) +:+ ":" +:+ prev)) = length (drop n demo_history)
    /\ drop (3 - length (drop n demo_history)) demo_history = drop n demo_history
    /\ str_drop (S (length (drop n demo_history))) (ticks_of (length (drop n demo_history)) +:+ ":" +:+ prev) = prev).
  { destruct n as [|[|[|n]]]; [done..|]. replace (drop (S (S (S n))) demo_history) with (@nil Message) by (cbn; by rewrite drop_nil). done. }
  destruct Hn as (-> & -> & ->). rewrite Hv. set (id := fresh _).
  assert (Hid : id ∉ {[""]} ∪ dom (dw_conv w)) by apply is_fresh.
  clearbody id. exists id. eexists. split; [intros ->; apply Hid, elem_of_union_l; by apply elem_of_singleton|]. cbn. reflexivity.
Qed.

Lemma demo_laws : world_laws (fun s => s) demo_endpoint dw_cursors demo_set no_bind no_schema demo_decode demo_config dw_conv demo_request.
Proof.
  split; try done.
  - intros raw w. apply demo_do_moves.
  - intros n prev v w resp full evs w' input Hp Hv Hd _. destruct (demo_posting n prev w v Hv) as (id & evs' & _ & Hp').
    unfold input in Hp. cbn [pr_Messages demo_request] in Hp, Hp'. rewrite Hp' in Hp. injection Hp as <- _ <-. injection Hd as <-.
    cbn. by rewrite lookup_insert_eq.
  - intros body full real [= <-].
    assert (reply (toProviderResponse real (demo_response body)) = text_message RoleAssistant "ok") as -> by reflexivity.
    unfold fits_message, fits, int64_max. cbn [m_Role m_Text m_ToolCallID m_ToolCalls text_message]. repeat split; try apply Forall_nil; cbn; lia.
Qed.

(** A conversation the provider has answered: its cursor leads to the first
    two messages. *)
Definition demo_start : demo_world :=
  {| dw_cursors := {| cc_max := 256; cc_order := [(0, (cursorKey (fun s => s) (take 2 demo_history), "r0"))];
                      cc_byKey := {[cursorKey (fun s => s) (take 2 demo_history) := 0]}; cc_next := 1 |};
     dw_conv := {["r0" := map keyed (take 2 demo_history)]} |}.

Lemma demo_fits : Forall fits_message demo_history.
Proof.
  unfold demo_history. repeat (apply Forall_cons; split); try apply Forall_nil; unfold fits_message, fits, int64_max;
    cbn [m_Role m_Text m_ToolCallID m_ToolCalls text_message]; repeat split; try apply Forall_nil; cbn; lia.
Qed.

Lemma demo_inv : inv (fun s => s) dw_cursors dw_conv demo_start.
Proof.
  split.
  - split; unfold demo_start; cbn [dw_cursors cc_order cc_byKey cc_max cc_next map fst snd length]; try lia;
      try (repeat constructor; cbn; try lia; apply not_elem_of_nil).
    intros k e. rewrite lookup_singleton_Some. split.
    + intros [<- <-]. exists "r0". by left.
    + intros [id Hin]. by apply list_elem_of_singleton in Hin as [= -> -> _].
  - cbn. intros k id Hin. apply list_elem_of_singleton in Hin as [= -> ->]. split; [done|]. exists (take 2 demo_history).
    split; [apply Forall_take, demo_fits|]. split; [done|]. by rewrite lookup_singleton_eq.
Qed.

(** The request continues from the stored response and sends one message. *)
Lemma conversation_complete_witness :
  world_laws (fun s => s) demo_endpoint dw_cursors demo_set no_bind no_schema demo_decode demo_config dw_conv demo_request
  /\ inv (fun s => s) dw_cursors dw_conv demo_start /\ Forall fits_message demo_history
  /\ let run := Generate (fun s => s) demo_endpoint dw_cursors demo_set no_bind no_schema demo_decode demo_config demo_request demo_start in
     inv (fun s => s) dw_cursors dw_conv run.2
     /\ (exists v, view (dw_conv run.2) "r0" = Some v /\ v ++ map keyed [text_message RoleUser "more"] = map keyed demo_history)
     /\ List.filter (fun ev => match ev with Posting _ _ => true | _ => false end) run.1.2 = [Posting [text_message RoleUser "more"] "r0"].
Proof.
  split; [exact demo_laws|]. split; [exact demo_inv|]. split; [exact demo_fits|]. intros run.
  pose proof (conversation_complete (fun s => s) demo_endpoint dw_cursors demo_set no_bind no_schema demo_decode demo_config dw_conv demo_request demo_laws
    demo_start demo_inv demo_fits) as H.
  assert (Hposts : List.filter (fun ev => match ev with Posting _ _ => true | _ => false end) run.1.2 = [Posting [text_message RoleUser "more"] "r0"])
    by (vm_compute; reflexivity).
  fold run in H. destruct run as [[r evs] w']. cbn [fst snd] in *. destruct H as (Hi & _ & Hp).
  split; [exact Hi|]. split; [|exact Hposts]. apply Hp. apply list_elem_of_In.
  apply (filter_In (fun ev => match ev with Posting _ _ => true | _ => false end)). rewrite Hposts. by left.
Defined.

(** ** Where the chain is not what was meant

    The key leaves out the tools.  When a later request offers another tool
    that takes over a wire name, the stored calls name that other tool. *)
Lemma stored_names_go_stale :
  let before := maps_of [named "a/b"] in let after := maps_of [named "a_b"; named "a/b"] in
  safeToolName (realToSafe before) "a/b" = "a_b" /\ realToolName (safeToReal after) "a_b" = "a_b"
  /\ safeToolName (realToSafe after) "a/b" <> "a_b".
Proof. vm_compute. repeat split. discriminate. Qed.
