(* ===== verification/Jsonrpc.v ===== *)
(** * Jsonrpc

    src/ext/lsp/jsonrpc.go: the connection to a language server.  Frames on
    the pipe, the loop that reads them, and the calls that wait for replies.

    The pipe is a byte string; encoding/json is a pair of parameters.  The
    calls, the read loop and the timers run concurrently: a step relation
    whose steps are the critical sections and channel operations of the code.
    A call is named by its id, which also names its channel. *)

From S2P Require Import Prelude GoStr Errors RunStore Rules.

(** ** Messages *)

Record rpc_message := {
  rm_ID : option Z;
  rm_Method : string;
  rm_Params : string;
  rm_Result : string;
  rm_Error : option (Z * string);
}.

#[export] Instance rpc_message_eq_dec : EqDecision rpc_message.
Proof. solve_decision. Defined.

Definition crlf : string := byte_of 13 +:+ byte_of 10.

(** ** Frames *)

(** [send]: the header and the body, under the write lock. *)
Definition frame_bytes (body : string) : string :=
  "Content-Length: " +:+ itoa (Z.of_nat (String.length body)) +:+ crlf +:+ crlf +:+ body.

(** [strings.TrimRight(line, "\r\n")]. *)
Fixpoint drop_eol (s : string) : string :=
  match s with
  | EmptyString => ""
  | String c t =>
      let t := drop_eol t in
      if String.eqb t "" && (ceq c 10 || ceq c 13) then "" else String c t
  end.

Definition is_content_length (name : string) : bool := equal_fold (trim_space name) "Content-Length".

(** The largest allocation the runtime tries; [make] panics above it. *)
Definition maxAlloc : Z := 2 ^ 48.

Inductive frame_result :=
| Frame (body rest : string)
| NoFrame (e : error)
| FramePanic.

(** The error of [strconv.Atoi] on what it refuses. *)
Definition atoi_error (v : string) : string :=
  let digits := match v with String c t => if ceq c 43 || ceq c 45 then t else v | EmptyString => v end in
  "strconv.Atoi: parsing " +:+ go_quote v
  +:+ (if negb (String.eqb digits "") && str_forall is_dec_digit digits then ": value out of range" else ": invalid syntax").

(** The header lines from here on; [length] is what was declared so far. *)
Fixpoint read_headers (fuel : nat) (length : Z) (s : string) : frame_result :=
  match fuel with
  | O => NoFrame (EText "EOF")
  | S fuel =>
      match cut_byte (Ascii.ascii_of_nat 10) s with
      | None => NoFrame (EText "EOF")
      | Some (line, rest) =>
          let line := drop_eol line in
          if String.eqb line "" then
            if (length <? 0)%Z then NoFrame (EText "lsp: frame has no Content-Length")
            else if (maxAlloc <? length)%Z then FramePanic
            else if (Z.of_nat (String.length rest) <? length)%Z then NoFrame (EText "unexpected EOF")
            else Frame (str_take (Z.to_nat length) rest) (str_drop (Z.to_nat length) rest)
          else match cut_byte (Ascii.ascii_of_nat 58) line with
               | None => NoFrame (EText ("lsp: malformed header " +:+ go_quote line))
               | Some (name, value) =>
                   if is_content_length name then
                     match atoi (trim_space value) with
                     | Some n => read_headers fuel n rest
                     | None => NoFrame (EText ("lsp: bad Content-Length " +:+ go_quote value +:+ ": " +:+ atoi_error (trim_space value)))
                     end
                   else read_headers fuel length rest
               end
      end
  end.

Definition readFrame (s : string) : frame_result := read_headers (S (String.length s)) (-1) s.

(** ** The read loop *)

Section Loop.
(** [json.Unmarshal] of a frame into a message, and the number of items in
    the params of a configuration request. *)
Context (unmarshal : string -> option rpc_message) (config_items : string -> nat).

(** What the loop does with a frame. *)
Inductive loop_event := Answer (reply : rpc_message) | Deliver (id : Z) (msg : rpc_message) | Notify (method params : string).

Definition answer_request (id : Z) (req : rpc_message) : rpc_message :=
  {| rm_ID := Some id; rm_Method := ""; rm_Params := "";
     rm_Result := if String.eqb (rm_Method req) "workspace/configuration"
                  then "[" +:+ str_join "," (replicate (config_items (rm_Params req)) "{}") +:+ "]" else "null";
     rm_Error := None |}.

Definition dispatch_frame (frame : string) : list loop_event :=
  match unmarshal frame with
  | None => []
  | Some msg =>
      match rm_ID msg with
      | Some id => if negb (String.eqb (rm_Method msg) "") then [Answer (answer_request id msg)] else [Deliver id msg]
      | None => if negb (String.eqb (rm_Method msg) "") then [Notify (rm_Method msg) (rm_Params msg)] else []
      end
  end.

(** [run]: what it does until the stream ends, and whether it panics. *)
Fixpoint run_loop (fuel : nat) (s : string) : list loop_event * bool :=
  match fuel with
  | O => ([], false)
  | S fuel =>
      match readFrame s with
      | Frame frame rest => let '(evs, p) := run_loop fuel rest in (dispatch_frame frame ++ evs, p)
      | NoFrame _ => ([], false)
      | FramePanic => ([], true)
      end
  end.

Definition run (s : string) : list loop_event * bool := run_loop (S (String.length s)) s.

End Loop.

(** ** Calls *)

Inductive chan_state := ChEmpty | ChFull (msg : rpc_message) | ChClosed.

Inductive call_result :=
| Replied (msg : rpc_message)
| GaveUp
| ServerGone
| SendFailed (e : error).

(** A call between its steps: registered, waiting in the select, or back. *)
Inductive rpc_phase := Registered | Waiting | Returned (r : call_result).

(** The read loop: reading, between the two steps of [shutdown], over.
    [done] is closed once it is not reading. *)
Inductive reader_phase := Reading | Ending | Ended.

#[export] Instance reader_phase_eq_dec : EqDecision reader_phase.
Proof. solve_decision. Defined.

(** [cn_delivered] is what the loop delivered, in order. *)
Record conn := {
  cn_nextID : Z;
  cn_pending : gset Z;
  cn_chans : gmap Z chan_state;
  cn_calls : gmap Z rpc_phase;
  cn_reader : reader_phase;
  cn_delivered : list (Z * rpc_message);
}.

Definition newConn : conn :=
  {| cn_nextID := 0; cn_pending := ∅; cn_chans := ∅; cn_calls := ∅; cn_reader := Reading; cn_delivered := [] |}.

Definition set_call (c : conn) (id : Z) (ph : rpc_phase) : conn :=
  {| cn_nextID := cn_nextID c; cn_pending := cn_pending c; cn_chans := cn_chans c; cn_calls := <[id := ph]> (cn_calls c);
     cn_reader := cn_reader c; cn_delivered := cn_delivered c |}.
Definition set_pending (c : conn) (p : gset Z) : conn :=
  {| cn_nextID := cn_nextID c; cn_pending := p; cn_chans := cn_chans c; cn_calls := cn_calls c;
     cn_reader := cn_reader c; cn_delivered := cn_delivered c |}.
Definition set_chans (c : conn) (ch : gmap Z chan_state) : conn :=
  {| cn_nextID := cn_nextID c; cn_pending := cn_pending c; cn_chans := ch; cn_calls := cn_calls c;
     cn_reader := cn_reader c; cn_delivered := cn_delivered c |}.

(** The first critical section of [call]. *)
Definition register (c : conn) : conn :=
  let id := (cn_nextID c + 1)%Z in
  {| cn_nextID := id; cn_pending := {[id]} ∪ cn_pending c; cn_chans := <[id := ChEmpty]> (cn_chans c);
     cn_calls := <[id := Registered]> (cn_calls c); cn_reader := cn_reader c; cn_delivered := cn_delivered c |}.

(** [delete(c.pending, id)]. *)
Definition drop_pending (c : conn) (id : Z) : conn := set_pending c (cn_pending c ∖ {[id]}).

(** [deliver]: the reply of the loop goes to the channel of its call, if the
    call is pending; the channel has room, since a pending one is empty. *)
Definition deliver (c : conn) (id : Z) (msg : rpc_message) : conn :=
  let c' := if decide (id ∈ cn_pending c) then set_chans c (<[id := ChFull msg]> (cn_chans c)) else c in
  let c' := drop_pending c' id in
  {| cn_nextID := cn_nextID c'; cn_pending := cn_pending c'; cn_chans := cn_chans c'; cn_calls := cn_calls c';
     cn_reader := cn_reader c'; cn_delivered := cn_delivered c' ++ [(id, msg)] |}.

(** [shutdown], in its two steps: closing [done], then the channels of the
    calls that were pending. *)
Definition shutdown_done (c : conn) : conn :=
  {| cn_nextID := cn_nextID c; cn_pending := cn_pending c; cn_chans := cn_chans c; cn_calls := cn_calls c;
     cn_reader := Ending; cn_delivered := cn_delivered c |}.
Definition shutdown_pending (c : conn) : conn :=
  {| cn_nextID := cn_nextID c; cn_pending := ∅; cn_chans := gset_to_gmap ChClosed (cn_pending c) ∪ cn_chans c;
     cn_calls := cn_calls c; cn_reader := Ended; cn_delivered := cn_delivered c |}.

Inductive conn_step : conn -> conn -> Prop :=
| step_register c : conn_step c (register c)
| step_sent c id : cn_calls c !! id = Some Registered -> conn_step c (set_call c id Waiting)
| step_send_failed c id e : cn_calls c !! id = Some Registered -> conn_step c (set_call (drop_pending c id) id (Returned (SendFailed e)))
| step_give_up c id : cn_calls c !! id = Some Waiting -> conn_step c (set_call (drop_pending c id) id (Returned GaveUp))
| step_see_done c id : cn_calls c !! id = Some Waiting -> cn_reader c <> Reading -> conn_step c (set_call c id (Returned ServerGone))
| step_receive c id msg : cn_calls c !! id = Some Waiting -> cn_chans c !! id = Some (ChFull msg) ->
    conn_step c (set_call (set_chans c (<[id := ChEmpty]> (cn_chans c))) id (Returned (Replied msg)))
| step_closed c id : cn_calls c !! id = Some Waiting -> cn_chans c !! id = Some ChClosed ->
    conn_step c (set_call c id (Returned ServerGone))
| step_deliver c id msg : cn_reader c = Reading -> conn_step c (deliver c id msg)
| step_stream_ends c : cn_reader c = Reading -> conn_step c (shutdown_done c)
| step_fail_pending c : cn_reader c = Ending -> conn_step c (shutdown_pending c).

(** What [call] makes of a reply: its error, or the result to decode. *)
Definition reply_value (msg : rpc_message) : result (option string) :=
  match rm_Error msg with
  | Some (code, text) => inl (EText ("lsp: rpc error " +:+ itoa code +:+ ": " +:+ text))
  | None => inr (if String.eqb (rm_Result msg) "" then None else Some (rm_Result msg))
  end.

(** * Properties *)

(** ** Frames *)

Definition not_eol (c : Ascii.ascii) : bool := negb (ceq c 10 || ceq c 13).
Definition plain_line (s : string) : bool := str_forall not_eol s.

Lemma cut_byte_app c a b : str_forall (fun d => negb (Ascii.eqb c d)) a = true -> cut_byte c (a +:+ String c b) = Some (a, b).
Proof.
  intros Ha. unfold cut_byte. assert (str_index_byte c (a +:+ String c b) = Some (String.length a)) as ->.
  { induction a as [|d a IH]; [rewrite app_empty_l; cbn [str_index_byte]; by rewrite Ascii.eqb_refl|].
    cbn [str_forall] in Ha. apply andb_true_iff in Ha as [Hd Ha]. apply negb_true_iff in Hd.
    rewrite app_cons. cbn [str_index_byte]. rewrite Hd. by rewrite IH. }
  f_equal. f_equal; [apply take_app_str|]. replace (S (String.length a)) with (String.length (a +:+ String c "")) by (rewrite length_app_str; cbn; lia).
  replace (a +:+ String c b) with ((a +:+ String c "") +:+ b) by by rewrite app_assoc_str. apply drop_app_str.
Qed.

Lemma drop_eol_plain s : plain_line s = true -> drop_eol s = s.
Proof.
  induction s as [|c s IH]; [done|]. cbn. intros [Hc Hs]%andb_true_iff. rewrite IH by done. unfold not_eol in Hc. apply negb_true_iff in Hc.
  rewrite Hc, andb_false_r. done.
Qed.

Lemma drop_eol_cr s : plain_line s = true -> drop_eol (s +:+ byte_of 13) = s.
Proof.
  induction s as [|c s IH]; [done|]. cbn [plain_line str_forall]. intros [Hc Hs]%andb_true_iff.
  rewrite app_cons. cbn [drop_eol]. rewrite IH by done. unfold not_eol in Hc. apply negb_true_iff in Hc. rewrite Hc, andb_false_r. done.
Qed.

Lemma plain_no_newline s : plain_line s = true -> str_forall (fun d => negb (Ascii.eqb (Ascii.ascii_of_nat 10) d)) (s +:+ byte_of 13) = true.
Proof.
  intros Hs. rewrite str_forall_app. apply andb_true_iff. split; [|done]. revert Hs. apply str_forall_impl. intros c.
  unfold not_eol, ceq. rewrite negb_true_iff, orb_false_iff, negb_true_iff. intros [Hc _]. apply Ascii.eqb_neq. intros <-. done.
Qed.

(** One line is read off. *)
Lemma read_line fuel length line rest : plain_line line = true ->
  read_headers (S fuel) length (line +:+ crlf +:+ rest)
  = (if String.eqb line "" then
       if (length <? 0)%Z then NoFrame (EText "lsp: frame has no Content-Length")
       else if (maxAlloc <? length)%Z then FramePanic
       else if (Z.of_nat (String.length rest) <? length)%Z then NoFrame (EText "unexpected EOF")
       else Frame (str_take (Z.to_nat length) rest) (str_drop (Z.to_nat length) rest)
     else match cut_byte (Ascii.ascii_of_nat 58) line with
          | None => NoFrame (EText ("lsp: malformed header " +:+ go_quote line))
          | Some (name, value) =>
              if is_content_length name then
                match atoi (trim_space value) with
                | Some n => read_headers fuel n rest
                | None => NoFrame (EText ("lsp: bad Content-Length " +:+ go_quote value +:+ ": " +:+ atoi_error (trim_space value)))
                end
              else read_headers fuel length rest
          end).
Proof.
  intros Hl. cbn [read_headers]. unfold crlf. 
  replace (line +:+ (byte_of 13 +:+ byte_of 10) +:+ rest) with ((line +:+ byte_of 13) +:+ String (Ascii.ascii_of_nat 10) rest)
    by by rewrite !app_assoc_str.
  rewrite cut_byte_app by by apply plain_no_newline. by rewrite drop_eol_cr.
Qed.

Lemma length_crlf : String.length crlf = 2.
Proof. reflexivity. Qed.

(** A header other than Content-Length. *)
Definition header_line (h : string * string) : string := h.1 +:+ String (Ascii.ascii_of_nat 58) h.2.
Definition header_bytes (h : string * string) : string := header_line h +:+ crlf.

Definition other_header (h : string * string) : Prop :=
  plain_line (header_line h) = true /\ str_forall (fun d => negb (Ascii.eqb (Ascii.ascii_of_nat 58) d)) h.1 = true /\ is_content_length h.1 = false.

Lemma header_not_empty h : String.eqb (header_line h) "" = false.
Proof. unfold header_line. apply String.eqb_neq. intros Heq. apply app_eq_nil_str in Heq as [_ ?]. done. Qed.

Lemma read_other fuel length hs rest : Forall other_header hs -> List.length hs <= fuel ->
  read_headers fuel length (str_concat (map header_bytes hs) +:+ rest) = read_headers (fuel - List.length hs) length rest.
Proof.
  intros Hhs. revert fuel. induction Hhs as [|h hs (Hp & Hn & Hc) _ IH]; intros fuel Hf; [by rewrite Nat.sub_0_r|].
  cbn [List.length] in *. destruct fuel as [|fuel]; [lia|]. cbn [map]. change (str_concat (?x :: ?l)) with (x +:+ str_concat l).
  unfold header_bytes at 1. rewrite !app_assoc_str, read_line, header_not_empty by done.
  unfold header_line. rewrite cut_byte_app, Hc by done. rewrite IH by lia. done.
Qed.

(** The declared length. *)
Lemma read_length fuel length n rest : (0 <= n <= int64_max)%Z ->
  read_headers (S fuel) length ("Content-Length: " +:+ itoa n +:+ crlf +:+ rest) = read_headers fuel n rest.
Proof.
  intros Hn. assert (Hd : str_forall is_dec_digit (itoa n) = true).
  { unfold itoa. destruct n as [|p|p]; [done| |lia]. change (pretty (Z.pos p)) with (pretty (N.pos p)). apply pretty_N_digits. }
  assert (Hplain : plain_line ("Content-Length: " +:+ itoa n) = true).
  { unfold plain_line. rewrite str_forall_app. apply andb_true_iff. split; [done|]. revert Hd. apply str_forall_impl. intros c.
    unfold is_dec_digit, in_range, not_eol, ceq. intros [H1%Nat.leb_le H2%Nat.leb_le]%andb_true_iff.
    rewrite (proj2 (Nat.eqb_neq _ _)), (proj2 (Nat.eqb_neq _ _)) by lia. done. }
  rewrite <- (app_assoc_str "Content-Length: "), read_line by done.
  change (String.eqb ("Content-Length: " +:+ itoa n) "") with false. cbv iota.
  change ("Content-Length: " +:+ itoa n) with ("Content-Length" +:+ String (Ascii.ascii_of_nat 58) (" " +:+ itoa n)).
  rewrite cut_byte_app by done. assert (is_content_length "Content-Length" = true) as -> by (vm_compute; reflexivity).
  rewrite trim_space_space, trim_graphic.
  - assert (atoi (itoa n) = Some n) as ->; [|done]. destruct (decide (n = 0%Z)) as [->|]; [done|]. apply atoi_itoa. lia.
  - unfold graphic_word. apply andb_true_iff. split; [apply negb_true_iff, String.eqb_neq, itoa_not_empty|].
    revert Hd. apply str_forall_impl. intros c. unfold is_dec_digit, graphic, in_range. intros [H1%Nat.leb_le H2%Nat.leb_le]%andb_true_iff.
    apply andb_true_iff. split; apply Nat.leb_le; lia.
Qed.

Definition fits_frame (body : string) : Prop := (Z.of_nat (String.length body) <= maxAlloc)%Z.

(** A frame as a server may send it. *)
Definition sent_frame (f : list (string * string) * string) : string := str_concat (map header_bytes f.1) +:+ frame_bytes f.2.

Lemma readFrame_sent f rest : Forall other_header f.1 -> fits_frame f.2 -> readFrame (sent_frame f +:+ rest) = Frame f.2 rest.
Proof.
  destruct f as [hs body]. cbn [fst snd]. unfold sent_frame, frame_bytes, readFrame, fits_frame. cbn [fst snd]. intros Hhs Hfit.
  set (n := Z.of_nat (String.length body)). set (s := _ +:+ rest).
  assert (Hlen : List.length hs + 4 <= String.length s).
  { unfold s. rewrite !length_app_str. change (String.length "Content-Length: ") with 16. assert (List.length hs <= String.length (str_concat (map header_bytes hs))).
    { clear. induction hs as [|h hs IH]; [cbn; lia|]. cbn [map List.length]. change (str_concat (?x :: ?l)) with (x +:+ str_concat l).
      unfold header_bytes at 1. rewrite !length_app_str, length_crlf. lia. }
    rewrite !length_crlf. lia. }
  assert (Hfuel : List.length hs + 5 <= S (String.length s)) by lia. clear Hlen.
  revert Hfuel. generalize (S (String.length s)) as fuel0. unfold s. clear s. intros fuel0 Hfuel. rewrite !app_assoc_str, read_other by (done || lia).
  destruct (fuel0 - List.length hs) as [|[|fuel]] eqn:Hf; [lia|lia|].
  assert (HM : (maxAlloc <= int64_max)%Z) by (vm_compute; discriminate).
  rewrite read_length by lia. rewrite <- (app_empty_l (crlf +:+ body +:+ rest)), read_line by done.
  change (String.eqb "" "") with true. cbv iota. rewrite (proj2 (Z.ltb_ge _ _)) by lia. rewrite (proj2 (Z.ltb_ge _ _)) by lia.
  rewrite length_app_str, (proj2 (Z.ltb_ge _ _)) by lia. unfold n. by rewrite Nat2Z.id, take_app_str, drop_app_str.
Qed.

(** C37: A stream of frames is read back as their bodies, whatever other
    headers the server sends with them: the loop handles each message in
    order - a request is answered under its id, a reply goes to its call, a
    notification is passed on, and a body that is no message is skipped -
    and it ends when the stream does. *)
Theorem frames_read_back unmarshal config_items fs :
  Forall (fun f => Forall other_header f.1 /\ fits_frame f.2) fs ->
  run unmarshal config_items (str_concat (map sent_frame fs)) = (concat (map (fun f => dispatch_frame unmarshal config_items f.2) fs), false).
Proof.
  intros Hfs. unfold run. assert (Hfuel : List.length fs < S (String.length (str_concat (map sent_frame fs)))).
  { clear. induction fs as [|f fs IH]; [cbn; lia|]. cbn [map List.length] in *. change (str_concat (?x :: ?l)) with (x +:+ str_concat l).
    unfold sent_frame at 1, frame_bytes. rewrite !length_app_str, !length_crlf. lia. }
  revert Hfuel. generalize (S (String.length (str_concat (map sent_frame fs)))). induction Hfs as [|f fs [Hhs Hfit] _ IH]; intros fuel Hfuel.
  - destruct fuel; [lia|]. reflexivity.
  - cbn [List.length] in Hfuel. destruct fuel as [|fuel]; [lia|]. cbn [map concat run_loop]. change (str_concat (?x :: ?l)) with (x +:+ str_concat l).
    rewrite readFrame_sent by done. rewrite IH by lia. done.
Qed.

(** A server's header can take the client down. *)
Lemma huge_length_panics : readFrame ("Content-Length: 4611686018427387904" +:+ crlf +:+ crlf) = FramePanic.
Proof. vm_compute. reflexivity. Qed.

(** ** Calls *)

(** A call that still has a reply to take. *)
Definition in_flight (ph : rpc_phase) : bool :=
  match ph with Registered | Waiting => true | Returned _ => false end.

(** What holds of one call: [ch] its channel, [ph] where it stands. *)
Record call_inv (reader : reader_phase) (delivered : list rpc_message) (pending : Prop) (ch : chan_state) (ph : rpc_phase) : Prop := {
  ci_room : pending -> ch = ChEmpty;
  ci_full : forall m, ch = ChFull m -> m ∈ delivered;
  ci_replied : forall m, ph = Returned (Replied m) -> m ∈ delivered;
  ci_flight : in_flight ph = true -> pending \/ (exists m, ch = ChFull m) \/ ch = ChClosed;
  ci_closed : ch = ChClosed -> reader = Ended;
}.

Definition replies_to (id : Z) (c : conn) : list rpc_message := omap (fun p => if Z.eqb p.1 id then Some p.2 else None) (cn_delivered c).

Record conn_inv (c : conn) : Prop := {
  vi_ids : forall id, is_Some (cn_calls c !! id) -> (id <= cn_nextID c)%Z;
  vi_chans : forall id, is_Some (cn_chans c !! id) <-> is_Some (cn_calls c !! id);
  vi_pending : forall id, id ∈ cn_pending c -> is_Some (cn_calls c !! id);
  vi_call : forall id ch ph, cn_chans c !! id = Some ch -> cn_calls c !! id = Some ph ->
              call_inv (cn_reader c) (replies_to id c) (id ∈ cn_pending c) ch ph;
}.

Lemma conn_inv_new : conn_inv newConn.
Proof. split; cbn; intros; try set_solver. all: rewrite ?lookup_empty in *; try done. Qed.

Lemma replies_deliver c id msg j : replies_to j (deliver c id msg) = replies_to j c ++ (if Z.eqb id j then [msg] else []).
Proof.
  unfold replies_to, deliver. cbn. destruct (decide _); cbn; rewrite omap_app; csimpl; by destruct (Z.eqb id j).
Qed.

Lemma call_inv_mono r (d d' : list rpc_message) (P P' : Prop) ch ph : d ⊆ d' -> (P <-> P') -> call_inv r d P ch ph -> call_inv r d' P' ch ph.
Proof.
  intros Hd HP [Hroom Hf Hr Hfl Hcl]. split; [tauto|eauto|eauto| |done]. intros [?|?]%Hfl; [tauto|by right].
Qed.

(** A step that touches the call [id] only. *)
Lemma conn_inv_at c c' id ch ph :
  conn_inv c -> is_Some (cn_calls c !! id) -> cn_nextID c' = cn_nextID c -> cn_reader c' = cn_reader c ->
  (forall j, replies_to j c ⊆ replies_to j c') ->
  cn_calls c' = <[id := ph]> (cn_calls c) -> cn_chans c' = <[id := ch]> (cn_chans c) ->
  (forall j, j <> id -> (j ∈ cn_pending c' <-> j ∈ cn_pending c)) ->
  call_inv (cn_reader c') (replies_to id c') (id ∈ cn_pending c') ch ph ->
  conn_inv c'.
Proof.
  intros [Hids Hch Hp Hc] Hid Hn Hr Hrep Hcalls Hchans Hpend Hinv. split.
  - intros j. rewrite Hcalls, Hn. destruct (decide (j = id)) as [->|]; [auto|]. rewrite lookup_insert_ne by done. auto.
  - intros j. rewrite Hcalls, Hchans. destruct (decide (j = id)) as [->|]; [rewrite !lookup_insert_eq; by split; eauto|].
    rewrite !lookup_insert_ne by done. apply Hch.
  - intros j Hj. rewrite Hcalls. destruct (decide (j = id)) as [->|]; [rewrite lookup_insert_eq; eauto|].
    rewrite lookup_insert_ne by done. apply Hp. by apply Hpend.
  - intros j chj phj. rewrite Hcalls, Hchans. destruct (decide (j = id)) as [->|]; [rewrite !lookup_insert_eq; by intros [= <-] [= <-]|].
    rewrite !lookup_insert_ne by done. intros H1 H2. rewrite Hr. eapply call_inv_mono; [apply Hrep|symmetry; by apply Hpend|by apply Hc].
Qed.

Lemma conn_inv_register c : conn_inv c -> conn_inv (register c).
Proof.
  intros [Hids Hch Hp Hc]. set (id := (cn_nextID c + 1)%Z).
  assert (Hfresh : cn_calls c !! id = None).
  { destruct (cn_calls c !! id) eqn:Hx; [|done]. assert (id <= cn_nextID c)%Z by (apply Hids; eauto). lia. }
  split; unfold register; cbn; fold id.
  - intros j. destruct (decide (j = id)) as [->|]; [lia|]. rewrite lookup_insert_ne by done. intros Hj. apply Hids in Hj. lia.
  - intros j. destruct (decide (j = id)) as [->|]; [rewrite !lookup_insert_eq; by split; eauto|]. by rewrite !lookup_insert_ne.
  - intros j. destruct (decide (j = id)) as [->|]; [rewrite lookup_insert_eq; eauto|]. rewrite lookup_insert_ne by done.
    intros Hj. apply Hp. set_solver.
  - intros j ch ph. destruct (decide (j = id)) as [->|].
    + rewrite !lookup_insert_eq. intros [= <-] [= <-]. split; try done. intros _. left. set_solver.
    + rewrite !lookup_insert_ne by done. intros H1 H2. eapply call_inv_mono; [done| |by apply Hc]. set_solver.
Qed.

Lemma deliver_rest c id msg :
  cn_nextID (deliver c id msg) = cn_nextID c /\ cn_reader (deliver c id msg) = cn_reader c /\
  cn_calls (deliver c id msg) = cn_calls c /\ cn_pending (deliver c id msg) = cn_pending c ∖ {[id]}.
Proof. unfold deliver. by destruct (decide _). Qed.

Lemma deliver_chans c id msg :
  cn_chans (deliver c id msg) = if decide (id ∈ cn_pending c) then <[id := ChFull msg]> (cn_chans c) else cn_chans c.
Proof. unfold deliver. by destruct (decide _). Qed.

Lemma conn_inv_deliver c id msg : conn_inv c -> conn_inv (deliver c id msg).
Proof.
  intros Hinv. assert (Hrep : forall j, replies_to j c ⊆ replies_to j (deliver c id msg)) by (intros j; rewrite replies_deliver; set_solver).
  destruct (cn_calls c !! id) as [ph|] eqn:Hph.
  - destruct (proj2 (vi_chans _ Hinv id) (mk_is_Some _ _ Hph)) as [ch Hch]. pose proof (vi_call _ Hinv _ _ _ Hch Hph) as [? Hf Hr Hfl Hcl].
    destruct (deliver_rest c id msg) as (Hn & Hrd & Hcs & Hps).
    apply (conn_inv_at c _ id (if decide (id ∈ cn_pending c) then ChFull msg else ch) ph); eauto.
    + rewrite Hcs. by rewrite insert_id.
    + rewrite deliver_chans. destruct (decide _); [done|]. by rewrite insert_id.
    + intros j Hj. rewrite Hps. set_solver.
    + rewrite Hrd, Hps, replies_deliver, Z.eqb_refl. destruct (decide _) as [Hin|Hin]; split.
      * set_solver.
      * intros m [= <-]. set_solver.
      * intros m Hm. apply elem_of_app. left. auto.
      * intros _. right. left. by exists msg.
      * done.
      * set_solver.
      * intros m Hm. apply elem_of_app. left. auto.
      * intros m Hm. apply elem_of_app. left. auto.
      * intros [?|?]%Hfl; [done|by right].
      * done.
  - assert (Hnp : id ∉ cn_pending c) by (intros Hin; apply (vi_pending _ Hinv) in Hin as [? ?]; congruence).
    destruct Hinv as [Hids Hch Hp Hc]. unfold deliver in *. rewrite decide_False in * by done. split; cbn; auto.
    + intros j Hj. apply Hp. set_solver.
    + intros j ch ph H1 H2. assert (j <> id) by congruence. eapply call_inv_mono; [apply Hrep| |by apply Hc]. set_solver.
Qed.

Lemma conn_inv_shutdown c : conn_inv c -> conn_inv (shutdown_pending c).
Proof.
  intros [? Hch Hp Hc]. split; cbn; auto; [|set_solver|].
  - intros id. rewrite <- Hch, lookup_union, lookup_gset_to_gmap. destruct (decide (id ∈ cn_pending c)) as [Hin|Hin].
    + rewrite option_guard_True by done. apply Hp, Hch in Hin as [ch ->]. by split; eauto.
    + rewrite option_guard_False by done. by rewrite option_union_left_id.
  - intros id ch ph H1 H2. destruct (proj2 (Hch id) (mk_is_Some _ _ H2)) as [ch0 Hch0]. destruct (Hc _ _ _ Hch0 H2) as [? Hf Hrp Hfl Hcl].
    rewrite lookup_union, lookup_gset_to_gmap, Hch0 in H1. destruct (decide (id ∈ cn_pending c)) as [Hin|Hin].
    + rewrite option_guard_True in H1 by done. injection H1 as <-. split; auto; [set_solver|done].
    + rewrite option_guard_False in H1 by done. injection H1 as <-. split; auto; [set_solver|].
      intros Hi. destruct (Hfl Hi) as [?|?]; [done|auto].
Qed.

(** A call moves on without taking a reply. *)
Lemma conn_inv_moves c id ph0 p ph :
  conn_inv c -> cn_calls c !! id = Some ph0 -> (forall j, j <> id -> (j ∈ p <-> j ∈ cn_pending c)) -> (id ∈ p -> id ∈ cn_pending c) ->
  (forall m, ph <> Returned (Replied m)) -> (in_flight ph = true -> in_flight ph0 = true /\ (id ∈ cn_pending c -> id ∈ p)) ->
  conn_inv (set_call (set_pending c p) id ph).
Proof.
  intros Hinv Hid Hp Hpid Hph Hfl. destruct (proj2 (vi_chans _ Hinv id) (mk_is_Some _ _ Hid)) as [ch0 Hch0].
  destruct (vi_call _ Hinv _ _ _ Hch0 Hid) as [Hroom Hf Hrp Hfl0 Hcl].
  apply (conn_inv_at c _ id ch0 ph); eauto; cbn; [by rewrite insert_id|]. split; auto.
  - intros m ->. by destruct (Hph m).
  - intros Hi. destruct (Hfl Hi) as [Hi0 Hin]. destruct (Hfl0 Hi0) as [?|?]; auto.
Qed.

Lemma set_pending_same c : set_pending c (cn_pending c) = c.
Proof. by destruct c. Qed.

Lemma conn_inv_step c c' : conn_inv c -> conn_step c c' -> conn_inv c'.
Proof.
  intros Hinv Hst. destruct Hst as [c|c id Hid|c id e Hid|c id Hid|c id Hid _|c id msg Hid Hch|c id Hid Hch|c id msg _|c Hr|c Hr].
  - by apply conn_inv_register.
  - rewrite <- (set_pending_same c). by eapply conn_inv_moves.
  - eapply conn_inv_moves; eauto; set_solver.
  - eapply conn_inv_moves; eauto; set_solver.
  - rewrite <- (set_pending_same c). by eapply conn_inv_moves.
  - destruct (vi_call _ Hinv _ _ _ Hch Hid) as [Hroom Hf Hrp Hfl Hcl].
    eapply (conn_inv_at c _ id ChEmpty); eauto; try done. split; cbn; try done. intros m [= <-]. auto.
  - rewrite <- (set_pending_same c). by eapply conn_inv_moves.
  - by apply conn_inv_deliver.
  - destruct Hinv as [? ? ? Hc]. split; auto. intros id ch ph H1 H2. destruct (Hc _ _ _ H1 H2) as [? ? ? ? Hcl]. split; auto.
    cbn. intros Hx. specialize (Hcl Hx). congruence.
  - by apply conn_inv_shutdown.
Qed.

Lemma elem_of_replies id msg c : msg ∈ replies_to id c <-> (id, msg) ∈ cn_delivered c.
Proof.
  unfold replies_to. rewrite list_elem_of_omap. split.
  - intros ([j m] & Hin & Hm). cbn in Hm. destruct (Z.eqb_spec j id) as [->|]; [|done]. by injection Hm as ->.
  - intros Hin. exists (id, msg). split; [done|]. cbn. by rewrite Z.eqb_refl.
Qed.

(** C15: The connection multiplexes.  In every state that any number of
    concurrent calls, time-outs, replies and the end of the stream can reach:
    a call that returned a reply returned one the server sent under its own
    id; a call whose entry is still registered has an empty channel, so the
    read loop never blocks on handing a reply over and never sends on a
    closed channel; a call that is sent or waiting has its entry, its reply, or
    a closed channel, so while the loop reads no reply to it can be lost; the
    next call's id is fresh; and once the loop has ended, a waiting call can
    return at once. *)
Theorem call_answers c :
  star conn_step newConn c ->
  (forall id msg, cn_calls c !! id = Some (Returned (Replied msg)) -> (id, msg) ∈ cn_delivered c) /\
  (forall id, id ∈ cn_pending c -> cn_chans c !! id = Some ChEmpty) /\
  (forall id ph, cn_calls c !! id = Some ph -> in_flight ph = true ->
     id ∈ cn_pending c \/ (exists msg, cn_chans c !! id = Some (ChFull msg) /\ (id, msg) ∈ cn_delivered c)
     \/ (cn_chans c !! id = Some ChClosed /\ cn_reader c = Ended)) /\
  cn_calls c !! cn_nextID (register c) = None /\
  (forall id, cn_reader c <> Reading -> cn_calls c !! id = Some Waiting ->
     exists c', conn_step c c' /\ cn_calls c' !! id = Some (Returned ServerGone)).
Proof.
  intros Hs. assert (Hinv : conn_inv c) by (eapply (star_invariant conn_step conn_inv); [exact conn_inv_step|exact Hs|exact conn_inv_new]).
  assert (Hch : forall id ph, cn_calls c !! id = Some ph -> exists ch, cn_chans c !! id = Some ch).
  { intros id ph Hid. destruct (proj2 (vi_chans _ Hinv id) (mk_is_Some _ _ Hid)) as [ch ?]. eauto. }
  split_and!.
  - intros id msg Hid. destruct (Hch _ _ Hid) as [ch Hc]. apply elem_of_replies. by eapply (ci_replied _ _ _ _ _ (vi_call _ Hinv _ _ _ Hc Hid)).
  - intros id Hin. destruct (vi_pending _ Hinv _ Hin) as [ph Hid]. destruct (Hch _ _ Hid) as [ch Hc].
    by rewrite Hc, (ci_room _ _ _ _ _ (vi_call _ Hinv _ _ _ Hc Hid) Hin).
  - intros id ph Hid Hfl. destruct (Hch _ _ Hid) as [ch Hc]. destruct (vi_call _ Hinv _ _ _ Hc Hid) as [_ Hf _ Hfl' Hcl].
    destruct (Hfl' Hfl) as [?|[[m ->]| ->]]; [by left|right; left|right; right; auto].
    exists m. split; [done|]. apply elem_of_replies. by apply Hf.
  - cbn. destruct (cn_calls c !! _) eqn:Hx; [|done]. assert (cn_nextID c + 1 <= cn_nextID c)%Z by (apply (vi_ids _ Hinv); eauto). lia.
  - intros id Hr Hid. eexists. split; [by apply (step_see_done c id)|]. apply lookup_insert_eq.
Qed.

(** One call, answered. *)
Definition hello_reply : rpc_message := {| rm_ID := Some 1%Z; rm_Method := ""; rm_Params := ""; rm_Result := "{}"; rm_Error := None |}.
Definition hello_waits : conn := set_call (register newConn) 1 Waiting.
Definition hello_arrived : conn := deliver hello_waits 1 hello_reply.
Definition hello_back : conn :=
  set_call (set_chans hello_arrived (<[1%Z := ChEmpty]> (cn_chans hello_arrived))) 1 (Returned (Replied hello_reply)).

Lemma hello_arrives : star conn_step newConn hello_arrived.
Proof.
  eapply star_step; [apply step_register|]. eapply star_step; [by apply (step_sent _ 1)|]. apply star_one. by apply (step_deliver _ 1 hello_reply).
Qed.

Lemma hello_runs : star conn_step newConn hello_back.
Proof. eapply star_trans; [exact hello_arrives|]. apply star_one. by apply (step_receive _ 1 hello_reply). Qed.

Lemma call_answers_witness :
  cn_calls hello_back !! 1%Z = Some (Returned (Replied hello_reply)) /\ (1%Z, hello_reply) ∈ cn_delivered hello_back.
Proof. split; [reflexivity|]. apply (proj1 (call_answers hello_back hello_runs)). reflexivity. Defined.

(** [call]'s documentation says errServerGone comes "if the connection ends
    first"; the select takes any case that is ready, so a call whose reply has
    already arrived may return it instead once the loop ends. *)
Lemma reply_lost_at_exit :
  exists c, star conn_step newConn c /\ cn_chans c !! 1%Z = Some (ChFull hello_reply) /\ cn_calls c !! 1%Z = Some (Returned ServerGone).
Proof.
  exists (set_call (shutdown_done hello_arrived) 1 (Returned ServerGone)). split_and!; [|reflexivity..].
  eapply star_trans; [exact hello_arrives|]. eapply star_step; [by apply step_stream_ends|]. apply star_one. by apply (step_see_done _ 1).
Qed.

(** A call made after the end leaves its entry behind: neither
    [errServerGone] path removes it. *)
Lemma entry_kept_after_exit :
  exists c, star conn_step newConn c /\ cn_reader c = Ended /\ cn_calls c !! 1%Z = Some (Returned ServerGone) /\ 1%Z ∈ cn_pending c.
Proof.
  exists (set_call (set_call (register (shutdown_pending (shutdown_done newConn))) 1 Waiting) 1 (Returned ServerGone)).
  split_and!; [|reflexivity|reflexivity|set_solver].
  eapply star_step; [by apply step_stream_ends|]. eapply star_step; [by apply step_fail_pending|].
  eapply star_step; [apply step_register|]. eapply star_step; [by apply (step_sent _ 1)|]. apply star_one. by apply (step_see_done _ 1).
Qed.

(** A concrete reader of messages, and two frames. *)
Definition toy_unmarshal (s : string) : option rpc_message :=
  if String.eqb s "{1}" then Some hello_reply
  else if String.eqb s "{2}" then Some {| rm_ID := Some 7%Z; rm_Method := "workspace/configuration"; rm_Params := "[]"; rm_Result := ""; rm_Error := None |}
  else None.
Definition demo_frames : list (list (string * string) * string) := [([("Content-Type", " utf8")], "{1}"); ([], "junk"); ([], "{2}")].

Lemma frames_read_back_witness :
  Forall (fun f => Forall other_header f.1 /\ fits_frame f.2) demo_frames /\
  run toy_unmarshal (fun _ => 2) (str_concat (map sent_frame demo_frames))
  = ([Deliver 1 hello_reply;
      Answer {| rm_ID := Some 7%Z; rm_Method := ""; rm_Params := ""; rm_Result := "[{},{}]"; rm_Error := None |}], false).
Proof.
  assert (Forall (fun f => Forall other_header f.1 /\ fits_frame f.2) demo_frames) as Hf.
  { unfold demo_frames, other_header, fits_frame. apply Forall_cons; split; [split; [apply Forall_cons; split; [repeat split; reflexivity|apply Forall_nil; exact I]|vm_compute; discriminate]|].
    apply Forall_cons; split; [split; [apply Forall_nil; exact I|vm_compute; discriminate]|].
    apply Forall_cons; split; [split; [apply Forall_nil; exact I|vm_compute; discriminate]|apply Forall_nil; exact I]. }
  split; [exact Hf|]. rewrite (frames_read_back toy_unmarshal (fun _ => 2) demo_frames Hf). reflexivity.
Defined.
