(* ===== verification/Embeddings.v ===== *)
(** * Embeddings

    src/embedder.go and src/semantic_memory.go: the HTTP embedder, and the
    memory store that recalls by similarity.

    Floating point is a record of operations on codes that are ordered in one
    line, so no score is NaN; encoding/json is a parameter.  An
    embedder's answer is an argument of the operation that asked for it: the
    call is made outside the lock and reads nothing of the store.  The store
    keeps an item and its vector in two maps that it updates together, under
    the same key and one lock: here one map of pairs. *)

From S2P Require Import Prelude GoStr Errors Provider Http Wire Linked Memory.
Local Open Scope eff_scope.

(** ** Vectors *)

(** [nil] is the empty vector. *)
Abbreviation Embedding := (list float64).

Record float_ops := {
  fl_add : float64 -> float64 -> float64;
  fl_mul : float64 -> float64 -> float64;
  fl_div : float64 -> float64 -> float64;
  fl_sqrt : float64 -> float64;
}.

Definition Cosine (fl : float_ops) (a b : Embedding) : float64 :=
  if negb (Nat.eqb (length a) (length b)) then 0%Z
  else
    let dot := foldl (fun s p => fl_add fl s (fl_mul fl p.1 p.2)) 0%Z (zip a b) in
    let na := foldl (fun s p => fl_add fl s (fl_mul fl p.1 p.1)) 0%Z (zip a b) in
    let nb := foldl (fun s p => fl_add fl s (fl_mul fl p.2 p.2)) 0%Z (zip a b) in
    if Z.eqb na 0 || Z.eqb nb 0 then 0%Z else fl_div fl dot (fl_mul fl (fl_sqrt fl na) (fl_sqrt fl nb)).

(** ** The embedder *)

Record OpenAIEmbedderConfig := { ec_BaseURL : string; ec_APIKey : string; ec_Model : string }.

Definition NewOpenAIEmbedder (cfg : OpenAIEmbedderConfig) : result OpenAIEmbedderConfig :=
  if String.eqb (ec_BaseURL cfg) "" || String.eqb (ec_Model cfg) ""
  then inl (EText "agent: OpenAIEmbedderConfig requires BaseURL and Model") else inr cfg.

(** [vecs[d.Index] = d.Embedding] for the entries whose index is in range. *)
Definition place_one (vecs : list Embedding) (d : Z * Embedding) : list Embedding :=
  if Z.ltb d.1 0 || Z.leb (Z.of_nat (length vecs)) d.1 then vecs else <[Z.to_nat d.1 := d.2]> vecs.

(** The answer, put in the order of the inputs. *)
Definition place (n : nat) (data : list (Z * Embedding)) : result (list Embedding) :=
  if negb (Nat.eqb (length data) n)
  then inl (EText ("agent: embedding count mismatch: got " +:+ itoa (Z.of_nat (length data)) +:+ " for "
                   +:+ itoa (Z.of_nat n) +:+ " inputs"))
  else inr (foldl place_one (replicate n []) data).

Section Embed.
Context {W Req F : Type} (ep : endpoint W Req F) (decode : string -> result (list (Z * Embedding))).

Definition Embed (e : OpenAIEmbedderConfig) (texts : list string) : eff W net_event (send_error + list Embedding) :=
  if bool_decide (texts = []) then eff_ret (inr [])
  else
    match ep_Marshal ep {["model" := JStr (ec_Model e); "input" := JList (map JStr texts)]} with
    | inl err => eff_ret (send_failed (wrap_error "agent: encode embedding request: " err))
    | inr raw =>
        let* req := eff_call (ep_NewRequest ep (ec_BaseURL e +:+ "/embeddings")
                                (("Content-Type", "application/json") :: with_key "Authorization" "Bearer " (ec_APIKey e)) raw) in
        match req with
        | inl err => eff_ret (send_failed err)
        | inr req =>
            let* resp := eff_call (ep_Do ep req) in
            eff_ret (match resp with
                     | inl err => send_failed err
                     | inr resp =>
                         if Z.ltb (hr_StatusCode resp) 200 || Z.leb 300 (hr_StatusCode resp)
                         then inl (SendRefused {| pe_StatusCode := hr_StatusCode resp; pe_Body := hr_Body resp |})
                         else match decode (hr_Body resp) with
                              | inl err => send_failed (wrap_error "agent: decode embedding response: " err)
                              | inr data => match place (length texts) data with
                                            | inl err => send_failed err
                                            | inr vecs => inr vecs
                                            end
                              end
                     end)
        end
    end.
End Embed.

(** ** The semantic store *)

Definition sem_note : Type := MemoryItem * Embedding.
Definition note_zero : sem_note := (item_zero, []).

Record InMemorySemanticStore := { sem_ns : gmap string (linked sem_note); sem_maxEntries : Z }.

Definition InMemorySemanticStoreOption := InMemorySemanticStore -> InMemorySemanticStore.

Definition WithSemanticMaxMemories (n : Z) : InMemorySemanticStoreOption := fun s =>
  if Z.ltb 0 n then {| sem_ns := sem_ns s; sem_maxEntries := n |} else s.

Definition NewInMemorySemanticStore (has_embedder : bool) (opts : list InMemorySemanticStoreOption) : result InMemorySemanticStore :=
  if has_embedder then inr (fold_left (fun s o => o s) opts {| sem_ns := ∅; sem_maxEntries := 0 |})
  else inl (EText "agent: InMemorySemanticStore needs an Embedder").

Definition set_sem (s : InMemorySemanticStore) (ns : string) (m : linked sem_note) : InMemorySemanticStore :=
  {| sem_ns := <[ns := m]> (sem_ns s); sem_maxEntries := sem_maxEntries s |}.

(** [bucket]: the sub-store of a namespace, created on first use. *)
Definition sem_bucket (s : InMemorySemanticStore) (ns : string) : linked sem_note * InMemorySemanticStore :=
  match sem_ns s !! ns with
  | Some m => (m, s)
  | None => (linked_empty, set_sem s ns linked_empty)
  end.

Definition first_vec (vecs : list Embedding) : Embedding := default [] (head vecs).

(** [PutMemory], given the embedder's answer. *)
Definition SemPutMemory (now : Time) (req : PutMemoryRequest) (vecs : result (list Embedding)) (s : InMemorySemanticStore)
  : result unit * InMemorySemanticStore :=
  let item := stamp_item now (pm_Item req) in
  match vecs with
  | inl err => (inl (wrap_error ("agent: embedding memory " +:+ go_quote (mi_Key item) +:+ ": ") err), s)
  | inr vecs =>
      let '(m, s) := sem_bucket s (pm_Namespace req) in
      (inr tt, set_sem s (pm_Namespace req) (linked_put (Z.to_nat (sem_maxEntries s)) m (mi_Key item) (item, first_vec vecs)))
  end.

(** [listAll]. *)
Fixpoint list_all (limit : Z) (items : gmap string sem_note) (order : list (nat * string)) (out : list ScoredMemory) : list ScoredMemory :=
  match order with
  | [] => out
  | (_, k) :: order =>
      if Z.ltb 0 limit && Z.leb limit (Z.of_nat (length out)) then out
      else list_all limit items order (out ++ [{| sm_Item := (default note_zero (items !! k)).1; sm_Score := 0%Z |}])
  end.

Section Listing.
Context (fl : float_ops).

Definition scored (qvec : Embedding) (x : sem_note) : ScoredMemory := {| sm_Item := x.1; sm_Score := Cosine fl qvec x.2 |}.

(** [SliceStable], by decreasing score, and the limit. *)
Definition ranked (limit : Z) (l : list ScoredMemory) : list ScoredMemory :=
  cap_items limit (stable_sort (fun sm => (- sm_Score sm)%Z) l).

(** [ListMemories], given the embedder's answer for a query. *)
Definition SemListMemories (req : ListMemoriesRequest) (qvecs : result (list Embedding)) (s : InMemorySemanticStore)
  : result (list ScoredMemory) * InMemorySemanticStore :=
  if String.eqb (lm_Query req) "" then
    let '(m, s) := sem_bucket s (lm_Namespace req) in (inr (list_all (lm_Limit req) (lk_items m) (lk_order m) []), s)
  else match qvecs with
       | inl err => (inl (wrap_error "agent: embedding query: " err), s)
       | inr qvecs =>
           let '(m, s) := sem_bucket s (lm_Namespace req) in
           (inr (ranked (lm_Limit req) (map (fun n => scored (first_vec qvecs) (default note_zero (lk_items m !! n.2))) (lk_order m))), s)
       end.

Definition SemDeleteMemory (req : DeleteMemoryRequest) (s : InMemorySemanticStore) : bool * InMemorySemanticStore :=
  let '(m, s) := sem_bucket s (dm_Namespace req) in
  let '(deleted, m) := linked_delete m (dm_Key req) in
  (deleted, set_sem s (dm_Namespace req) m).

(** ** Requests, on the store and on plain lists *)

Inductive sem_request :=
| SPut (now : Time) (req : PutMemoryRequest) (vecs : result (list Embedding))
| SList (req : ListMemoriesRequest) (qvecs : result (list Embedding))
| SDelete (req : DeleteMemoryRequest).

Inductive sem_response := SemPut (r : result unit) | SemList (r : result (list ScoredMemory)) | SemDelete (deleted : bool).

Definition sem_answer (s : InMemorySemanticStore) (r : sem_request) : sem_response * InMemorySemanticStore :=
  match r with
  | SPut now req vecs => let '(x, s) := SemPutMemory now req vecs s in (SemPut x, s)
  | SList req qvecs => let '(x, s) := SemListMemories req qvecs s in (SemList x, s)
  | SDelete req => let '(b, s) := SemDeleteMemory req s in (SemDelete b, s)
  end.

Definition sem_notes := string -> list (string * sem_note).

Definition set_notes (n : sem_notes) (ns : string) (l : list (string * sem_note)) : sem_notes :=
  fun ns' => if String.eqb ns' ns then l else n ns'.

(** What a list of notes answers. *)
Definition sem_recalled (l : list (string * sem_note)) (req : ListMemoriesRequest) (qvecs : result (list Embedding))
  : result (list ScoredMemory) :=
  if String.eqb (lm_Query req) ""
  then inr (cap_items (lm_Limit req) (map (fun e => {| sm_Item := e.2.1; sm_Score := 0%Z |}) l))
  else match qvecs with
       | inl err => inl (wrap_error "agent: embedding query: " err)
       | inr qvecs => inr (ranked (lm_Limit req) (map (fun e => scored (first_vec qvecs) e.2) l))
       end.

Definition sem_spec (max : Z) (n : sem_notes) (r : sem_request) : sem_response * sem_notes :=
  match r with
  | SPut now req vecs =>
      let item := stamp_item now (pm_Item req) in
      match vecs with
      | inl err => (SemPut (inl (wrap_error ("agent: embedding memory " +:+ go_quote (mi_Key item) +:+ ": ") err)), n)
      | inr vecs => (SemPut (inr tt), set_notes n (pm_Namespace req)
                       (entries_put (Z.to_nat max) (n (pm_Namespace req)) (mi_Key item) (item, first_vec vecs)))
      end
  | SList req qvecs => (SemList (sem_recalled (n (lm_Namespace req)) req qvecs), n)
  | SDelete req =>
      let '(b, l) := entries_delete (n (dm_Namespace req)) (dm_Key req) in (SemDelete b, set_notes n (dm_Namespace req) l)
  end.
End Listing.

(** * Properties *)

(** ** The embedder *)

Lemma place_length n data vecs : place n data = inr vecs -> length vecs = n.
Proof.
  unfold place. destruct (Nat.eqb_spec (length data) n) as [Hn|]; cbn; [|done]. intros [= <-]. clear Hn.
  rewrite <- (length_replicate n (@nil float64)) at 2. generalize (replicate n (@nil float64)). induction data as [|d data IH]; intros vecs; [done|].
  cbn [foldl]. rewrite IH. unfold place_one. destruct (_ || _); [done|]. apply length_insert.
Qed.

Lemma place_lookup vecs data i :
  NoDup (map fst data) -> Forall (fun d => (0 <= d.1 < Z.of_nat (length vecs))%Z) data ->
  foldl place_one vecs data !! i = match List.find (fun d => Z.eqb d.1 (Z.of_nat i)) data with Some d => Some d.2 | None => vecs !! i end.
Proof.
  revert vecs. induction data as [|[j v] data IH]; intros vecs; [done|]. cbn [map fst]. intros [Hni Hnd]%NoDup_cons [Hj Hr]%Forall_cons.
  cbn [foldl List.find fst snd] in *. unfold place_one at 2. cbn [fst snd]. rewrite (proj2 (Z.ltb_ge _ _)), (proj2 (Z.leb_gt _ _)) by lia. cbn [orb].
  rewrite IH; [|done|by rewrite length_insert]. destruct (Z.eqb_spec j (Z.of_nat i)) as [->|Hne].
  - destruct (List.find _ data) as [d|] eqn:Hf.
    + apply List.find_some in Hf as [Hin Hd%Z.eqb_eq]. destruct Hni. apply list_elem_of_fmap. exists d. split; [done|]. by apply list_elem_of_In.
    + rewrite Nat2Z.id, list_lookup_insert_eq by lia. done.
  - destruct (List.find _ data); [done|]. rewrite list_lookup_insert_ne by lia. done.
Qed.

(** When the endpoint answers every input once, in any order, the
    embedder returns one vector per input, in the order of the inputs. *)
Theorem embed_in_order n data (vecs : list Embedding) :
  map fst data ≡ₚ map Z.of_nat (seq 0 n) -> place n data = inr vecs ->
  length vecs = n /\ forall d, d ∈ data -> vecs !! Z.to_nat d.1 = Some d.2.
Proof.
  intros Hp Hv. split; [by eapply place_length|]. intros d Hd.
  assert (Hnd : NoDup (map fst data)) by (rewrite Hp; apply (NoDup_fmap_2 Z.of_nat), NoDup_ListNoDup, seq_NoDup).
  assert (Hr : forall d, d ∈ data -> (0 <= d.1 < Z.of_nat n)%Z).
  { intros x Hx. assert (Hin : x.1 ∈ map fst data) by (apply list_elem_of_fmap; eauto). rewrite Hp in Hin.
    apply list_elem_of_fmap in Hin as (k & -> & Hk). apply list_elem_of_In, in_seq in Hk. lia. }
  unfold place in Hv. destruct (negb _); [done|]. injection Hv as <-. pose proof (Hr d Hd). rewrite place_lookup; [|done|].
  - destruct (List.find _ data) as [d'|] eqn:Hf.
    + apply List.find_some in Hf as [Hin Heq%Z.eqb_eq]. do 2 f_equal.
      apply (NoDup_key_eq fst data); [done|by apply list_elem_of_In|done|lia].
    + exfalso. apply list_elem_of_In in Hd. pose proof (List.find_none _ _ Hf d Hd) as Hx. apply Z.eqb_neq in Hx. lia.
  - apply Forall_forall. intros x Hx. rewrite length_replicate. auto.
Qed.

Lemma embed_in_order_witness :
  map fst [(1%Z, [20%Z]); (0%Z, [10%Z])] ≡ₚ map Z.of_nat (seq 0 2) /\ place 2 [(1%Z, [20%Z]); (0%Z, [10%Z])] = inr [[10%Z]; [20%Z]] /\
  length [[10%Z]; [20%Z]] = 2.
Proof.
  split; [apply Permutation_swap|]. split; [reflexivity|].
  refine (proj1 (embed_in_order 2 [(1%Z, [20%Z]); (0%Z, [10%Z])] [[10%Z]; [20%Z]] _ _)); [apply Permutation_swap|reflexivity].
Defined.

(** The interface promises one embedding per text; an endpoint that repeats
    an index leaves a nil vector for another, and no error. *)
Lemma repeated_index_leaves_nil : place 2 [(0%Z, [10%Z]); (0%Z, [20%Z])] = inr [[20%Z]; []].
Proof. reflexivity. Qed.

(** ** The store *)

Record sem_rep (max : Z) (s : InMemorySemanticStore) (n : sem_notes) : Prop := {
  sr_max : sem_maxEntries s = max;
  sr_ns ns : linked_rep (default linked_empty (sem_ns s !! ns)) (n ns);
  sr_bound ns : (0 < max)%Z -> length (n ns) <= Z.to_nat max;
}.

Lemma sem_bucket_rep max s n ns :
  sem_rep max s n -> linked_rep (sem_bucket s ns).1 (n ns) /\ sem_rep max (sem_bucket s ns).2 n.
Proof.
  intros R. unfold sem_bucket. pose proof (sr_ns _ _ _ R ns) as Hns.
  destruct (sem_ns s !! ns) as [m|] eqn:Hm; cbn in *; [done|]. split; [done|]. split; [apply R| |apply R].
  intros ns'. cbn. destruct (decide (ns = ns')) as [->|]; [by rewrite lookup_insert_eq|]. rewrite lookup_insert_ne by done. apply R.
Qed.

Lemma set_sem_rep max s n ns m l :
  sem_rep max s n -> linked_rep m l -> ((0 < max)%Z -> length l <= Z.to_nat max) -> sem_rep max (set_sem s ns m) (set_notes n ns l).
Proof.
  intros R Hm Hl. unfold set_notes. split; [apply R| |]; intros ns'; cbn; destruct (String.eqb_spec ns' ns) as [->|].
  - by rewrite lookup_insert_eq.
  - rewrite lookup_insert_ne by done. apply R.
  - done.
  - apply R.
Qed.

Lemma list_all_spec limit items order out :
  ((0 < limit)%Z -> (Z.of_nat (length out) <= limit)%Z) ->
  list_all limit items order out
  = cap_items limit (out ++ map (fun n => {| sm_Item := (default note_zero (items !! n.2)).1; sm_Score := 0%Z |}) order).
Proof.
  revert out. induction order as [|[id k] order IH]; intros out Hout; cbn [list_all map].
  - rewrite app_nil_r. unfold cap_items. destruct (Z.ltb_spec 0 limit); [|done]. rewrite take_ge; [done|lia].
  - destruct (Z.ltb_spec 0 limit) as [Hl|Hl]; [destruct (Z.leb_spec limit (Z.of_nat (length out))) as [Hf|Hf]|]; cbn [andb].
    + unfold cap_items. rewrite (proj2 (Z.ltb_lt 0 limit)) by done. rewrite take_app_le by lia. symmetry. apply take_ge. lia.
    + rewrite IH by (rewrite length_app; cbn; lia). by rewrite <- app_assoc.
    + rewrite IH by lia. by rewrite <- app_assoc.
Qed.

Lemma sem_answer_rep fl max s n r :
  sem_rep max s n -> (sem_answer fl s r).1 = (sem_spec fl max n r).1 /\ sem_rep max (sem_answer fl s r).2 (sem_spec fl max n r).2.
Proof.
  intros R. destruct r as [now req vecs|req qvecs|req]; cbn [sem_answer sem_spec].
  - unfold SemPutMemory. destruct vecs as [err|vecs]; [done|]. destruct (sem_bucket_rep max s n (pm_Namespace req) R) as [Hm R'].
    destruct (sem_bucket s _) as [m s']. cbn in *. split; [done|]. rewrite (sr_max _ _ _ R').
    apply set_sem_rep; [done|by apply linked_put_rep|]. intros Hpos. apply entries_put_bound; [lia|]. by apply R.
  - unfold SemListMemories, sem_recalled. destruct (sem_bucket_rep max s n (lm_Namespace req) R) as [Hm R'].
    destruct (String.eqb _ ""); [|destruct qvecs as [err|qvecs]; [done|]]; destruct (sem_bucket s _) as [m s']; cbn in *; (split; [|done]); do 2 f_equal.
    + rewrite list_all_spec by (cbn; lia). cbn [app]. f_equal. rewrite <- (map_map (fun n => default note_zero (lk_items m !! n.2)) (fun x => {| sm_Item := x.1; sm_Score := 0%Z |})).
      by rewrite (linked_view _ _ _ Hm), map_map.
    + f_equal. rewrite <- (map_map (fun n => default note_zero (lk_items m !! n.2)) (scored fl (first_vec qvecs))).
      by rewrite (linked_view _ _ _ Hm), map_map.
  - unfold SemDeleteMemory. destruct (sem_bucket_rep max s n (dm_Namespace req) R) as [Hm R']. destruct (sem_bucket s _) as [m s']. cbn in *.
    destruct (linked_delete_rep m (n (dm_Namespace req)) (dm_Key req) Hm) as [Hb Hd].
    destruct (linked_delete m _) as [b m'], (entries_delete _ _) as [b' l'] eqn:He. cbn in *. subst b'. split; [done|].
    apply set_sem_rep; [done|done|]. intros Hpos. pose proof (entries_delete_length (n (dm_Namespace req)) (dm_Key req)) as Hlen. rewrite He in Hlen. cbn in Hlen.
    pose proof (sr_bound _ _ _ R (dm_Namespace req) Hpos). lia.
Qed.

Definition sem_start (max : Z) : InMemorySemanticStore :=
  fold_left (fun s o => o s) [WithSemanticMaxMemories max] {| sem_ns := ∅; sem_maxEntries := 0 |}.

Lemma sem_start_rep max : (0 <= max)%Z -> sem_rep max (sem_start max) (fun _ => []).
Proof.
  intros Hm. unfold sem_start. cbn. unfold WithSemanticMaxMemories. destruct (Z.ltb_spec 0 max); split; cbn; try lia; try done.
  all: intros ns; rewrite lookup_empty; apply linked_empty_rep.
Qed.

Lemma respond_rep fl max s n rs : sem_rep max s n ->
  (respond (sem_answer fl) s rs).1 = (respond (sem_spec fl max) n rs).1
  /\ sem_rep max (respond (sem_answer fl) s rs).2 (respond (sem_spec fl max) n rs).2.
Proof.
  revert s n. induction rs as [|r rs IH]; intros s n R; cbn [respond]; [done|]. destruct (sem_answer_rep fl max s n r R) as [Ha R'].
  destruct (sem_answer fl s r) as [a s1], (sem_spec fl max n r) as [a' n1]. cbn in *. subst a'. destruct (IH s1 n1 R') as [Ho R2].
  destruct (respond (sem_answer fl) s1 rs), (respond (sem_spec fl max) n1 rs). cbn in *. by subst.
Qed.

(** The notes in a recall, best first, and the notes left out. *)
Record recall_of (limit : Z) (notes out rest : list ScoredMemory) : Prop := {
  ro_all : out ++ rest ≡ₚ notes;
  ro_best : StronglySorted (fun a b => (sm_Score b <= sm_Score a)%Z) out;
  ro_left_out a b : a ∈ out -> b ∈ rest -> (sm_Score b <= sm_Score a)%Z;
  ro_ties r : filter (fun sm => sm_Score sm = r) (out ++ rest) = filter (fun sm => sm_Score sm = r) notes;
  ro_count : length out = if Z.ltb 0 limit then Nat.min (Z.to_nat limit) (length notes) else length notes;
}.

Lemma sorted_best l :
  StronglySorted (rank_le (fun sm => (- sm_Score sm)%Z)) l -> StronglySorted (fun a b => (sm_Score b <= sm_Score a)%Z) l.
Proof.
  induction 1 as [|x l _ IH Hx]; constructor; [done|]. eapply Forall_impl; [exact Hx|]. unfold rank_le. intros; lia.
Qed.

Lemma ranked_recall limit notes : exists rest, recall_of limit notes (ranked limit notes) rest.
Proof.
  set (rank := fun sm => (- sm_Score sm)%Z). set (k := if Z.ltb 0 limit then Z.to_nat limit else length notes).
  assert (Hcut : ranked limit notes = take k (stable_sort rank notes)).
  { unfold ranked, cap_items, k. destruct (Z.ltb 0 limit); [done|]. rewrite take_ge; [done|]. by rewrite (stable_sort_perm rank notes). }
  exists (drop k (stable_sort rank notes)). rewrite Hcut. pose proof (stable_sort_sorted rank notes) as Hs. rewrite <- (take_drop k) in Hs.
  split.
  - by rewrite take_drop, stable_sort_perm.
  - apply sorted_best. by eapply sorted_app_l.
  - intros a b Ha Hb. pose proof (sorted_prefix rank _ _ a b Hs Ha Hb). unfold rank in *. lia.
  - intros r. rewrite take_drop. pose proof (stable_sort_stable rank (- r)%Z notes) as Hst.
    rewrite !(list_filter_iff (fun sm => sm_Score sm = r) (fun sm => rank sm = (- r)%Z)); [done|..]; intros; unfold rank; lia.
  - rewrite length_take, (Permutation_length (stable_sort_perm rank notes)). unfold k. destruct (Z.ltb 0 limit); lia.
Qed.

(** C36: The semantic store is an ordered list of notes per namespace.  Over
    any sequence of requests, with any answers of the embedder, it answers as
    the lists do and stays within its cap; and a recall gives the notes of
    its namespace alone, by decreasing score, the older of two that score
    alike first, and none that it leaves out scores more. *)
Theorem semantic_store_recalls fl max rs :
  (0 <= max)%Z ->
  let '(out, s) := respond (sem_answer fl) (sem_start max) rs in
  let '(out', n) := respond (sem_spec fl max) (fun _ => []) rs in
  out = out' /\
  (forall ns, NoDup (map fst (n ns)) /\ ((0 < max)%Z -> length (n ns) <= Z.to_nat max)) /\
  forall req qvecs, lm_Query req <> "" -> exists items rest,
    (SemListMemories fl req (inr qvecs) s).1 = inr items /\
    recall_of (lm_Limit req) (map (fun e => scored fl (first_vec qvecs) e.2) (n (lm_Namespace req))) items rest.
Proof.
  intros Hm. destruct (respond_rep fl max _ _ rs (sem_start_rep max Hm)) as [Ho R].
  destruct (respond (sem_answer fl) _ rs) as [out s], (respond (sem_spec fl max) _ rs) as [out' n]. cbn in *. split; [done|]. split.
  - intros ns. split; [apply (rep_nodup _ _ (sr_ns _ _ _ R ns))|by apply R].
  - intros req qvecs Hq. destruct (sem_answer_rep fl max s n (SList req (inr qvecs)) R) as [Ha _]. cbn in Ha.
    destruct (SemListMemories fl req (inr qvecs) s) as [x s']. cbn in *. injection Ha as ->. unfold sem_recalled.
    rewrite (proj2 (String.eqb_neq _ _)) by done. destruct (ranked_recall (lm_Limit req) (map (fun e => scored fl (first_vec qvecs) e.2) (n (lm_Namespace req)))) as [rest Hrest].
    eauto.
Qed.

(** Two notes of the same namespace, one of another, and a cap. *)
Definition toy_floats : float_ops := {| fl_add := Z.add; fl_mul := Z.mul; fl_div := fun a _ => a; fl_sqrt := fun a => a |}.
Definition toy_note (k : string) (ns : string) (v : Embedding) : sem_request :=
  SPut 5 {| pm_Item := {| mi_Key := k; mi_Value := "v"; mi_CreatedAt := 0%Z |}; pm_Namespace := ns |} (inr [v]).

Lemma semantic_store_recalls_witness :
  (0 <= 2)%Z /\
  let s := (respond (sem_answer toy_floats) (sem_start 2)
              [toy_note "old" "" [9; 9]%Z; toy_note "far" "" [1; 0]%Z; toy_note "near" "" [3; 4]%Z; toy_note "x" "other" [9; 9]%Z]).2 in
  exists items rest, (SemListMemories toy_floats {| lm_Query := "q"; lm_Limit := 1; lm_Namespace := "" |} (inr [[1; 1]%Z]) s).1 = inr items /\
    map (fun sm => mi_Key (sm_Item sm)) items = ["near"] /\ map (fun sm => mi_Key (sm_Item sm)) rest = ["far"].
Proof.
  split; [lia|]. cbv zeta.
  pose proof (semantic_store_recalls toy_floats 2
    [toy_note "old" "" [9; 9]%Z; toy_note "far" "" [1; 0]%Z; toy_note "near" "" [3; 4]%Z; toy_note "x" "other" [9; 9]%Z] ltac:(lia)) as H.
  destruct (respond (sem_answer toy_floats) (sem_start 2) _) as [out s] eqn:Hs. destruct (respond (sem_spec toy_floats 2) _ _) as [out' n] eqn:Hn.
  destruct H as (_ & _ & H). destruct (H {| lm_Query := "q"; lm_Limit := 1; lm_Namespace := "" |} [[1; 1]%Z] ltac:(discriminate)) as (items & rest & Hi & Hr).
  vm_compute in Hs. injection Hs as <- <-. vm_compute in Hn. injection Hn as <- <-. exists items, rest. split; [exact Hi|].
  vm_compute in Hi. injection Hi as <-. split; [reflexivity|]. destruct Hr as [Hp _ _ _ _]. cbn [lm_Namespace map] in Hp. vm_compute in Hp.
  apply Permutation_cons_app_inv with (l1 := [_]) in Hp. cbn in Hp. apply Permutation_sym, Permutation_length_1_inv in Hp. by rewrite Hp.
Defined.
