(* ===== verification/Connections.v ===== *)
(** * Connections

    src/host/connections.go, src/host/steproute.go, src/local_providers.go and
    the model table of src/host/server_agents.go: how a connection's
    configuration becomes a provider, the registry that builds each provider
    once and knows the active one, and what routes model calls to it.

    A builder is a Go function that may answer differently on each call, so
    its answer for a call is an argument of the operation that makes it.  The
    order in which Go ranges over a map is an argument too.  The table that
    resolves a role to a connection is mcpkit's, a parameter. *)

From S2P Require Import Prelude GoStr Errors Provider Events StepStage Wire Cursors OpenAI Anthropic Responses Embeddings.
Local Open Scope eff_scope.

(** ** Local providers *)

Record LlamaCppConfig := { lc_BaseURL : string; lc_Model : string; lc_APIKey : string }.

Definition DefaultLlamaCppBaseURL : string := "http://localhost:8080/v1".
Definition DefaultOllamaBaseURL : string := "http://localhost:11434/v1".

Definition NewLlamaCppProvider (cfg : LlamaCppConfig) : result OpenAIProvider :=
  NewOpenAIProvider
    {| oc_BaseURL := text_or (lc_BaseURL cfg) DefaultLlamaCppBaseURL;
       oc_APIKey := lc_APIKey cfg;
       oc_Model := text_or (lc_Model cfg) "llama.cpp";
       oc_GuidedDialect := GuidedDialectLlamaCpp;
       oc_ExtraBody := {["cache_prompt" := Wire.JBool true]};
       oc_NoTemperature := false; oc_NoResponseSchema := false;
       oc_Penalties := Some [PenaltyRepeat; PenaltyFrequency; PenaltyPresence; PenaltyDRY] |}.

Record OllamaConfig := { ol_BaseURL : string; ol_Model : string; ol_APIKey : string }.

Definition NewOllamaProvider (cfg : OllamaConfig) : result OpenAIProvider :=
  if String.eqb (ol_Model cfg) "" then inl (EText "agent: OllamaConfig requires Model")
  else NewOpenAIProvider
    {| oc_BaseURL := text_or (ol_BaseURL cfg) DefaultOllamaBaseURL;
       oc_APIKey := ol_APIKey cfg; oc_Model := ol_Model cfg;
       oc_GuidedDialect := GuidedDialectOllama; oc_ExtraBody := ∅;
       oc_NoTemperature := false; oc_NoResponseSchema := false; oc_Penalties := None |}.

(** ** Configuration *)

Record ThinkingHint := { th_OpenTag : string; th_CloseTag : string }.

Record ConnectionConfig := {
  cc_Type : string;
  cc_BaseURL : string;
  cc_Model : string;
  cc_APIKeyEnv : string;
  cc_APIKey : string;
  cc_MaxTokens : Z;
  cc_Dim : Z;
  cc_ThinkingHint : option ThinkingHint;
  cc_Vision : bool;
  cc_ReasoningEffort : string;
  cc_Temperature : option bool;
  cc_ResponseSchema : option bool;
}.

Definition conn_zero : ConnectionConfig :=
  {| cc_Type := ""; cc_BaseURL := ""; cc_Model := ""; cc_APIKeyEnv := ""; cc_APIKey := ""; cc_MaxTokens := 0; cc_Dim := 0;
     cc_ThinkingHint := None; cc_Vision := false; cc_ReasoningEffort := ""; cc_Temperature := None; cc_ResponseSchema := None |}.

Record StepRoute := { sr_FromStep : Z; sr_ToStep : Z; sr_Connection : string }.

Record ConnectionsConfig := {
  cs_Active : string;
  cs_Embedder : string;
  cs_Connections : gmap string ConnectionConfig;
  cs_AgentRoles : gmap string string;
  cs_StepRoutes : list StepRoute;
}.

Definition EmbedderConnection (c : option ConnectionsConfig) : ConnectionConfig * bool :=
  match c with
  | None => (conn_zero, false)
  | Some c => if String.eqb (cs_Embedder c) "" then (conn_zero, false)
              else match cs_Connections c !! cs_Embedder c with Some conn => (conn, true) | None => (conn_zero, false) end
  end.

Definition connection_types : list (string * string) :=
  [("lmstudio", "http://localhost:1234/v1"); ("llamacpp", DefaultLlamaCppBaseURL); ("openai", "https://api.openai.com/v1");
   ("openai-responses", "https://api.openai.com/v1"); ("ollama", DefaultOllamaBaseURL);
   ("gemini", "https://generativelanguage.googleapis.com/v1beta/openai"); ("anthropic", "https://api.anthropic.com");
   ("openrouter", "https://openrouter.ai/api/v1"); ("litellm", "http://localhost:4000/v1")].

Definition connectionBaseURLs : gmap string string := list_to_map connection_types.

Definition knownTypes : string := str_join ", " (sort_strings (map fst connection_types)).

Definition resolveBaseURL (conn : ConnectionConfig) : result string :=
  if negb (String.eqb (cc_BaseURL conn) "") then inr (cc_BaseURL conn)
  else match connectionBaseURLs !! cc_Type conn with
       | Some base => inr base
       | None =>
           inl (EText (if String.eqb (cc_Type conn) ""
                       then "host: connection needs a baseUrl or a known type (" +:+ knownTypes +:+ ")"
                       else "host: unknown connection type " +:+ go_quote (cc_Type conn) +:+ " (set baseUrl, or use one of " +:+ knownTypes +:+ ")"))
       end.

(** ** Building a provider *)

(** What is built: one of the package's providers, one that a custom builder
    made, or one of these behind the reasoning parser. *)
Inductive built_as (C : Type) :=
| BAnthropic (cfg : AnthropicConfig)
| BResponses (cfg : ResponsesConfig)
| BOpenAI (p : OpenAIProvider)
| BCustom (c : C)
| BThinking (p : built_as C) (openTag closeTag : string).
Arguments BAnthropic {C}. Arguments BResponses {C}. Arguments BOpenAI {C}. Arguments BCustom {C}. Arguments BThinking {C}.

(** [p, err = f(...)]: what is built of a success. *)
Definition on_ok {A B} (f : A -> B) (r : result A) : result B := match r with inl e => inl e | inr a => inr (f a) end.

Section Build.
Context {C : Type}.

Definition builtinProvider (conn : ConnectionConfig) (base key : string) : result (built_as C) :=
  if String.eqb (cc_Type conn) "anthropic" then
    on_ok BAnthropic (NewAnthropicProvider
      {| ac_BaseURL := base; ac_APIKey := key; ac_Model := cc_Model conn; ac_MaxTokens := cc_MaxTokens conn; ac_Version := "" |})
  else if String.eqb (cc_Type conn) "openai-responses" then
    on_ok (fun p => BResponses p.1) (NewResponsesProvider (K := string)
      {| rc_BaseURL := base; rc_APIKey := key; rc_Model := cc_Model conn; rc_ReasoningEffort := cc_ReasoningEffort conn;
         rc_ReasoningSummary := ""; rc_Temperature := default false (cc_Temperature conn); rc_NoStore := false; rc_CursorCacheSize := 0 |})
  else if String.eqb (cc_Type conn) "llamacpp" then
    on_ok BOpenAI (NewLlamaCppProvider {| lc_BaseURL := base; lc_Model := cc_Model conn; lc_APIKey := key |})
  else if String.eqb (cc_Type conn) "ollama" then
    on_ok BOpenAI (NewOllamaProvider {| ol_BaseURL := base; ol_Model := cc_Model conn; ol_APIKey := key |})
  else
    on_ok BOpenAI (NewOpenAIProvider
      {| oc_BaseURL := base; oc_APIKey := key; oc_Model := cc_Model conn; oc_GuidedDialect := NoDialect; oc_ExtraBody := ∅;
         oc_NoTemperature := negb (default true (cc_Temperature conn));
         oc_NoResponseSchema := negb (default true (cc_ResponseSchema conn)); oc_Penalties := None |}).

Definition NewThinkingProvider (p : built_as C) (openTag closeTag : string) : built_as C :=
  if String.eqb closeTag "" then p else BThinking p openTag closeTag.

Abbreviation ConnectionTypes := (gmap string (ConnectionConfig -> result (built_as C))).

Definition with_resolved (conn : ConnectionConfig) (key base : string) : ConnectionConfig :=
  {| cc_Type := cc_Type conn; cc_BaseURL := base; cc_Model := cc_Model conn; cc_APIKeyEnv := cc_APIKeyEnv conn; cc_APIKey := key;
     cc_MaxTokens := cc_MaxTokens conn; cc_Dim := cc_Dim conn; cc_ThinkingHint := cc_ThinkingHint conn; cc_Vision := cc_Vision conn;
     cc_ReasoningEffort := cc_ReasoningEffort conn; cc_Temperature := cc_Temperature conn; cc_ResponseSchema := cc_ResponseSchema conn |}.

Definition connection_key (Getenv : string -> string) (conn : ConnectionConfig) : string :=
  if String.eqb (cc_APIKey conn) "" && negb (String.eqb (cc_APIKeyEnv conn) "") then Getenv (cc_APIKeyEnv conn) else cc_APIKey conn.

Definition buildProvider (Getenv : string -> string) (conn : ConnectionConfig) (types : ConnectionTypes) : result (built_as C) :=
  match resolveBaseURL conn with
  | inl err => inl err
  | inr base =>
      let key := connection_key Getenv conn in
      match (match types !! cc_Type conn with
             | Some build => build (with_resolved conn key base)
             | None => builtinProvider conn base key
             end) with
      | inl err => inl err
      | inr p => inr (match cc_ThinkingHint conn with Some h => NewThinkingProvider p (th_OpenTag h) (th_CloseTag h) | None => p end)
      end
  end.

Definition DefaultProviderBuilder (Getenv : string -> string) (conn : ConnectionConfig) : result (built_as C) := buildProvider Getenv conn ∅.
Definition Build (t : ConnectionTypes) (Getenv : string -> string) (conn : ConnectionConfig) : result (built_as C) := buildProvider Getenv conn t.
End Build.

Definition BuildEmbedder (Getenv : string -> string) (conn : ConnectionConfig) : result OpenAIEmbedderConfig :=
  if String.eqb (cc_Type conn) "anthropic"
  then inl (EText ("host: connection type " +:+ go_quote (cc_Type conn) +:+ " has no embeddings API; use an openai/gemini/local embedder"))
  else match resolveBaseURL conn with
       | inl err => inl err
       | inr base =>
           NewOpenAIEmbedder {| ec_BaseURL := base; ec_Model := cc_Model conn;
                                ec_APIKey := if String.eqb (cc_APIKeyEnv conn) "" then "" else Getenv (cc_APIKeyEnv conn) |}
       end.

(** ** Step routes *)

Definition covers (r : StepRoute) (step : Z) : bool :=
  (sr_FromStep r <=? step)%Z && ((sr_ToStep r =? 0)%Z || (step <=? sr_ToStep r)%Z).

Definition bad_range (r : StepRoute) : bool :=
  (sr_FromStep r <? 0)%Z || (sr_ToStep r <? 0)%Z
  || (negb (sr_ToStep r =? 0)%Z && (sr_ToStep r <? Z.max (sr_FromStep r) 1)%Z).

Fixpoint validate_from (i : Z) (routes : list StepRoute) (conns : gmap string ConnectionConfig) : option error :=
  match routes with
  | [] => None
  | r :: routes =>
      match conns !! sr_Connection r with
      | None => Some (EText ("host: stepRoutes[" +:+ itoa i +:+ "] names undefined connection " +:+ go_quote (sr_Connection r)))
      | Some _ =>
          if bad_range r
          then Some (EText ("host: stepRoutes[" +:+ itoa i +:+ "] has an empty step range " +:+ itoa (sr_FromStep r) +:+ ".." +:+ itoa (sr_ToStep r)))
          else validate_from (i + 1) routes conns
      end
  end.

Definition validateStepRoutes (routes : list StepRoute) (conns : gmap string ConnectionConfig) : option error :=
  validate_from 0 routes conns.

Section Routing.
Context {Ctx W : Type}.

Definition route_for (routes : list StepRoute) (step : Z) : option StepRoute := List.find (fun r => covers r step) routes.

Definition routed (v : StepView Ctx W) (p : option (Provider Ctx W)) (name : string) : StepView Ctx W :=
  {| sv_Messages := sv_Messages v; sv_Tools := sv_Tools v; sv_Provider := p; sv_ProviderName := name;
     sv_Guided := sv_Guided v; sv_Generation := sv_Generation v |}.

Definition StepRouteStage (routes : list StepRoute) (resolve : string -> eff W Event (result (Provider Ctx W)))
    (def : option (eff W Event string)) : StepStage Ctx W :=
  {| ss_Name := "host.step_route";
     ss_Scope := ScopeRequest;
     ss_Run := fun _ info v =>
       match route_for routes (si_Step info) with
       | Some r =>
           let* p := resolve (sr_Connection r) in
           match p with
           | inl err => eff_ret (inl (wrap_error ("routing step " +:+ itoa (si_Step info) +:+ ": ") err))
           | inr p => eff_ret (inr (routed v (Some p) (sr_Connection r)))
           end
       | None =>
           match def with
           | Some def => let* name := def in eff_ret (inr (routed v (sv_Provider v) name))
           | None => eff_ret (inr v)
           end
       end |}.
End Routing.

(** ** The registry *)

(** The first complaint of a loop over a map, in the order it was ranged. *)
Fixpoint first_error {A} (f : A -> option error) (l : list A) : option error :=
  match l with [] => None | x :: l => match f x with Some e => Some e | None => first_error f l end end.

Definition connection_error (p : string * ConnectionConfig) : option error :=
  let '(name, conn) := p in
  if String.eqb (cc_Model conn) "" && negb (String.eqb (cc_Type conn) "llamacpp")
  then Some (EText ("host: connection " +:+ go_quote name +:+ " has no model"))
  else match resolveBaseURL conn with
       | inl err => Some (wrap_error ("host: connection " +:+ go_quote name +:+ ": ") err)
       | inr _ => None
       end.

Definition embedder_error (cfg : ConnectionsConfig) : option error :=
  if String.eqb (cs_Embedder cfg) "" then None
  else match cs_Connections cfg !! cs_Embedder cfg with
       | None => Some (EText ("host: embedder connection " +:+ go_quote (cs_Embedder cfg) +:+ " is not defined"))
       | Some conn =>
           if String.eqb (cc_Type conn) "anthropic"
           then Some (EText ("host: embedder connection " +:+ go_quote (cs_Embedder cfg) +:+ " is anthropic, which has no embeddings API"))
           else match resolveBaseURL conn with
                | inl err => Some (wrap_error ("host: embedder connection " +:+ go_quote (cs_Embedder cfg) +:+ ": ") err)
                | inr _ => None
                end
       end.

Definition known_role (role : string) : bool := str_mem role ["small"; "medium"; "large"].

Definition role_error (conns : gmap string ConnectionConfig) (p : string * string) : option error :=
  let '(role, name) := p in
  if negb (known_role role) then Some (EText ("host: agentRoles has unknown role " +:+ go_quote role +:+ " (want small, medium or large)"))
  else match conns !! name with
       | None => Some (EText ("host: agentRoles " +:+ go_quote role +:+ " names undefined connection " +:+ go_quote name))
       | Some _ => None
       end.

Section Registry.
Context {P : Type}.

Record ConnectionRegistry := {
  cr_conns : gmap string ConnectionConfig;
  cr_names : list string;
  cr_active : string;
  cr_cache : gmap string P;
  cr_agentRoles : gmap string string;
}.

(** [conns] and [roles] are the two maps in the order they are ranged. *)
Definition NewConnectionRegistry (cfg : option ConnectionsConfig) (conns : list (string * ConnectionConfig)) (roles : list (string * string))
  : result ConnectionRegistry :=
  match cfg with
  | None => inl (EText "host: connections config is empty")
  | Some cfg =>
      if bool_decide (cs_Connections cfg = ∅) then inl (EText "host: connections config is empty")
      else
        match first_error connection_error conns with
        | Some err => inl err
        | None =>
            if String.eqb (cs_Active cfg) "" then inl (EText "host: connections config needs an active connection")
            else match cs_Connections cfg !! cs_Active cfg with
                 | None => inl (EText ("host: active connection " +:+ go_quote (cs_Active cfg) +:+ " is not defined"))
                 | Some _ =>
                     match embedder_error cfg with
                     | Some err => inl err
                     | None =>
                         match first_error (role_error (cs_Connections cfg)) roles with
                         | Some err => inl err
                         | None =>
                             match validateStepRoutes (cs_StepRoutes cfg) (cs_Connections cfg) with
                             | Some err => inl err
                             | None => inr {| cr_conns := cs_Connections cfg; cr_names := sort_strings (map fst conns);
                                              cr_active := cs_Active cfg; cr_cache := ∅; cr_agentRoles := cs_AgentRoles cfg |}
                             end
                         end
                     end
                 end
        end
  end.

Definition Names (r : ConnectionRegistry) : list string := cr_names r.
Definition Active (r : ConnectionRegistry) : string := cr_active r.
Definition config_of (r : ConnectionRegistry) (name : string) : ConnectionConfig := default conn_zero (cr_conns r !! name).
Definition ModelOf (r : ConnectionRegistry) (name : string) : string := cc_Model (config_of r name).
Definition ActiveModel (r : ConnectionRegistry) : string := cc_Model (config_of r (cr_active r)).

Definition with_cache (r : ConnectionRegistry) (c : gmap string P) : ConnectionRegistry :=
  {| cr_conns := cr_conns r; cr_names := cr_names r; cr_active := cr_active r; cr_cache := c; cr_agentRoles := cr_agentRoles r |}.
Definition set_active (r : ConnectionRegistry) (name : string) : ConnectionRegistry :=
  {| cr_conns := cr_conns r; cr_names := cr_names r; cr_active := name; cr_cache := cr_cache r; cr_agentRoles := cr_agentRoles r |}.

(** The operations, given what the builder would answer now. *)
Definition builder := ConnectionConfig -> result P.

Definition providerLocked (build : builder) (r : ConnectionRegistry) (name : string) : result P * ConnectionRegistry :=
  match cr_cache r !! name with
  | Some p => (inr p, r)
  | None =>
      match build (config_of r name) with
      | inl err => (inl (wrap_error ("host: building provider " +:+ go_quote name +:+ ": ") err), r)
      | inr p => (inr p, with_cache r (<[name := p]> (cr_cache r)))
      end
  end.

Definition unknown_connection (name : string) : error := EText ("host: unknown connection " +:+ go_quote name).

Definition Provider_ (build : builder) (r : ConnectionRegistry) (name : string) : result P * ConnectionRegistry :=
  match cr_conns r !! name with
  | None => (inl (unknown_connection name), r)
  | Some _ => providerLocked build r name
  end.

Definition ActiveProvider (build : builder) (r : ConnectionRegistry) : result P * ConnectionRegistry :=
  providerLocked build r (cr_active r).

Definition SetActive (build : builder) (r : ConnectionRegistry) (name : string) : result P * ConnectionRegistry :=
  match cr_conns r !! name with
  | None => (inl (unknown_connection name), r)
  | Some _ =>
      match providerLocked build r name with
      | (inl err, r) => (inl err, r)
      | (inr p, r) => (inr p, set_active r name)
      end
  end.

(** ** The App's model *)

(** The registry, and what the switch the Runner holds points at. *)
Record chat_model := { cm_reg : ConnectionRegistry; cm_switch : P }.

Definition Providers (a : option ConnectionRegistry) : list string * string :=
  match a with None => ([], "") | Some r => (Names r, Active r) end.

Definition ModelLabel (a : option ConnectionRegistry) (single : string) : string :=
  let active := (Providers a).2 in
  match a with
  | Some r =>
      if negb (String.eqb active "") then
        let m := ActiveModel r in
        if negb (String.eqb m "") && negb (String.eqb m active) then active +:+ " (" +:+ m +:+ ")" else active
      else single
  | None => single
  end.

(** [SwitchProvider], in its two critical sections: choosing the connection,
    then pointing the switch at the provider it got. *)
Definition switch_choose (build : builder) (a : chat_model) (name : string) : result P * chat_model :=
  let '(p, r) := SetActive build (cm_reg a) name in (p, {| cm_reg := r; cm_switch := cm_switch a |}).
Definition switch_point (a : chat_model) (p : P) : chat_model := {| cm_reg := cm_reg a; cm_switch := p |}.

Definition SwitchProvider (build : builder) (a : chat_model) (name : string) : option error * chat_model :=
  match switch_choose build a name with
  | (inl err, a) => (Some err, a)
  | (inr p, a) => (None, switch_point a p)
  end.

(** ** Models for a server's agents *)

Record RoleModel := { rm_Model : string; rm_Vision : bool }.

Definition role_table (r : option ConnectionRegistry) : gmap string RoleModel :=
  match r with
  | None => ∅
  | Some r => (fun name => {| rm_Model := name; rm_Vision := cc_Vision (config_of r name) |}) <$> cr_agentRoles r
  end.

Record modelChoice {R : Type} := { ch_provider : P; ch_connection : string; ch_how : R; ch_err : option error }.
Arguments modelChoice : clear implicits.

(** [Resolve] is mcpkit's; [resolved_default] its answer for the default. *)
Definition pick {H R} (Resolve : gmap string RoleModel -> option H -> string * R) (resolved_default : R) (build : builder)
    (main : P) (reg : option ConnectionRegistry) (h : option H) : modelChoice R * option ConnectionRegistry :=
  let '(name, how) := Resolve (role_table reg) h in
  match reg with
  | Some r =>
      if String.eqb name "" then ({| ch_provider := main; ch_connection := ""; ch_how := how; ch_err := None |}, reg)
      else match Provider_ build r name with
           | (inl err, r) => ({| ch_provider := main; ch_connection := ""; ch_how := resolved_default; ch_err := Some err |}, Some r)
           | (inr p, r) => ({| ch_provider := p; ch_connection := name; ch_how := how; ch_err := None |}, Some r)
           end
  | None => ({| ch_provider := main; ch_connection := ""; ch_how := how; ch_err := None |}, reg)
  end.
End Registry.
Arguments ConnectionRegistry : clear implicits.
Arguments builder : clear implicits.
Arguments chat_model : clear implicits.
Arguments modelChoice : clear implicits.

(** * Properties *)

Lemma find_split {A} (f : A -> bool) l :
  (exists pre x post, l = pre ++ x :: post /\ Forall (fun y => f y = false) pre /\ f x = true /\ List.find f l = Some x)
  \/ (Forall (fun y => f y = false) l /\ List.find f l = None).
Proof.
  induction l as [|x l IH]; cbn; [right; by split|]. destruct (f x) eqn:Hx.
  - left. exists [], x, l. by split_and!.
  - destruct IH as [(pre & y & post & -> & Hp & Hy & Hf)|[Hn Hf]]; [left; exists (x :: pre), y, post|right]; split_and!; auto.
Qed.

(** ** What a configuration must be *)

Definition connection_ok (conn : ConnectionConfig) : Prop :=
  (cc_Model conn <> "" \/ cc_Type conn = "llamacpp") /\ (cc_BaseURL conn <> "" \/ is_Some (connectionBaseURLs !! cc_Type conn)).

Definition route_ok (conns : gmap string ConnectionConfig) (r : StepRoute) : Prop :=
  is_Some (conns !! sr_Connection r) /\ (0 <= sr_FromStep r)%Z
  /\ (sr_ToStep r = 0 \/ 1 <= sr_ToStep r /\ sr_FromStep r <= sr_ToStep r)%Z.

Record config_ok (cfg : ConnectionsConfig) : Prop := {
  co_connections : forall name conn, cs_Connections cfg !! name = Some conn -> connection_ok conn;
  co_active : cs_Active cfg <> "" /\ is_Some (cs_Connections cfg !! cs_Active cfg);
  co_embedder : cs_Embedder cfg <> "" -> exists conn, cs_Connections cfg !! cs_Embedder cfg = Some conn /\ cc_Type conn <> "anthropic" /\ connection_ok conn;
  co_roles : forall role name, cs_AgentRoles cfg !! role = Some name -> known_role role = true /\ is_Some (cs_Connections cfg !! name);
  co_routes : Forall (route_ok (cs_Connections cfg)) (cs_StepRoutes cfg);
}.

Lemma first_error_none {A} (f : A -> option error) l : first_error f l = None <-> forall x, x ∈ l -> f x = None.
Proof.
  induction l as [|x l IH]; cbn; [set_solver|]. destruct (f x) eqn:Hx; [split; [done|]; intros H; rewrite H in Hx by set_solver; done|].
  rewrite IH. set_solver.
Qed.

Lemma resolve_ok conn : (exists base, resolveBaseURL conn = inr base) <-> (cc_BaseURL conn <> "" \/ is_Some (connectionBaseURLs !! cc_Type conn)).
Proof.
  unfold resolveBaseURL. destruct (String.eqb_spec (cc_BaseURL conn) "") as [->|Hne]; cbn [negb].
  - destruct (connectionBaseURLs !! cc_Type conn); [by split; eauto|]. split; [by intros [? ?]|]. intros [?|[? ?]]; done.
  - by split; eauto.
Qed.

Lemma connection_error_none name conn : connection_error (name, conn) = None <-> connection_ok conn.
Proof.
  unfold connection_error, connection_ok. rewrite <- resolve_ok.
  destruct (String.eqb_spec (cc_Model conn) ""), (String.eqb_spec (cc_Type conn) "llamacpp"); cbn; try (destruct (resolveBaseURL conn); naive_solver).
Qed.

Lemma embedder_error_none cfg :
  (forall name conn, cs_Connections cfg !! name = Some conn -> connection_ok conn) ->
  embedder_error cfg = None <->
  (cs_Embedder cfg <> "" -> exists conn, cs_Connections cfg !! cs_Embedder cfg = Some conn /\ cc_Type conn <> "anthropic" /\ connection_ok conn).
Proof.
  intros Hall. unfold embedder_error. destruct (String.eqb_spec (cs_Embedder cfg) ""); [done|].
  destruct (cs_Connections cfg !! cs_Embedder cfg) as [conn|] eqn:Hc; [|split; [done|]; intros H; by destruct (H n) as (? & ? & _)].
  specialize (Hall _ _ Hc). pose proof (proj2 (resolve_ok conn) (proj2 Hall)) as [base ->].
  destruct (String.eqb_spec (cc_Type conn) "anthropic"); split; try done; [|by eauto].
  intros H. destruct (H n) as (? & [= <-] & ? & _). done.
Qed.

Lemma role_error_none conns role name : role_error conns (role, name) = None <-> known_role role = true /\ is_Some (conns !! name).
Proof.
  unfold role_error. destruct (known_role role); cbn; [|naive_solver]. destruct (conns !! name); split; try done; eauto. by intros [_ [? ?]].
Qed.

Lemma bad_range_false conns r : is_Some (conns !! sr_Connection r) -> bad_range r = false <-> route_ok conns r.
Proof.
  intros Hc. unfold bad_range, route_ok. rewrite !orb_false_iff, andb_false_iff, !Z.ltb_ge, negb_false_iff, Z.eqb_eq. intuition lia.
Qed.

Lemma validate_from_none i routes conns : validate_from i routes conns = None <-> Forall (route_ok conns) routes.
Proof.
  revert i. induction routes as [|r routes IH]; intros i; cbn; [by split|]. rewrite Forall_cons.
  destruct (conns !! sr_Connection r) eqn:Hc; [|split; [done|]; intros [([? ?] & _) _]; congruence].
  rewrite <- IH with (i := (i + 1)%Z), <- (bad_range_false conns r) by eauto. destruct (bad_range r); naive_solver.
Qed.

Lemma registry_made_iff {P} cfg conns roles :
  conns ≡ₚ map_to_list (cs_Connections cfg) -> roles ≡ₚ map_to_list (cs_AgentRoles cfg) ->
  (exists r, NewConnectionRegistry (P := P) (Some cfg) conns roles = inr r) <-> config_ok cfg.
Proof.
  intros Hconns Hroles. unfold NewConnectionRegistry.
  assert (Hce : first_error connection_error conns = None <-> forall name conn, cs_Connections cfg !! name = Some conn -> connection_ok conn).
  { rewrite first_error_none. split.
    - intros H name conn Hl. apply (connection_error_none name), H. rewrite Hconns. by apply elem_of_map_to_list.
    - intros H [name conn] Hin. rewrite Hconns in Hin. apply elem_of_map_to_list in Hin. apply connection_error_none. eauto. }
  assert (Hre : first_error (role_error (cs_Connections cfg)) roles = None
                <-> forall role name, cs_AgentRoles cfg !! role = Some name -> known_role role = true /\ is_Some (cs_Connections cfg !! name)).
  { rewrite first_error_none. split.
    - intros H role name Hl. apply role_error_none, H. rewrite Hroles. by apply elem_of_map_to_list.
    - intros H [role name] Hin. rewrite Hroles in Hin. apply elem_of_map_to_list in Hin. apply role_error_none. eauto. }
  split.
  - intros [r Hr]. case_bool_decide; [done|]. destruct (first_error connection_error conns); [done|].
    destruct (String.eqb_spec (cs_Active cfg) ""); [done|]. destruct (cs_Connections cfg !! cs_Active cfg) eqn:Ha; [|done].
    destruct (embedder_error cfg) eqn:He; [done|]. destruct (first_error _ roles) eqn:Hro; [done|]. destruct (validateStepRoutes _ _) eqn:Hv; [done|].
    pose proof (proj1 Hce eq_refl) as Hall. split; [done|by rewrite Ha; eauto|by apply embedder_error_none|by apply Hre|by eapply validate_from_none].
  - intros [Hall [Hne [c Ha]] He Hro Hv]. rewrite bool_decide_false by (intros Hemp; rewrite Hemp, lookup_empty in Ha; done).
    rewrite (proj2 Hce Hall), (proj2 (String.eqb_neq _ _) Hne), Ha, (proj2 (embedder_error_none cfg Hall) He), (proj2 Hre Hro).
    unfold validateStepRoutes. rewrite (proj2 (validate_from_none 0 _ _) Hv). eauto.
Qed.

(** The registry is made exactly of the configurations that are right -
    every connection has a model and an address, the active one and the one
    of the embedder role are defined, roles are known and assigned to defined
    connections, and every step route names a defined connection and covers a
    step - whatever order the maps are ranged in. *)
Theorem registry_accepts {P} cfg conns roles :
  conns ≡ₚ map_to_list (cs_Connections cfg) -> roles ≡ₚ map_to_list (cs_AgentRoles cfg) ->
  (exists r, NewConnectionRegistry (P := P) (Some cfg) conns roles = inr r) <-> config_ok cfg.
Proof. intros Hconns Hroles. by apply registry_made_iff. Qed.

(** ** The default builder *)

Lemma base_not_empty conn base : resolveBaseURL conn = inr base -> base <> "".
Proof.
  unfold resolveBaseURL. destruct (String.eqb_spec (cc_BaseURL conn) ""); cbn [negb]; [|by intros [= <-]].
  destruct (connectionBaseURLs !! cc_Type conn) as [b|] eqn:Hb; [|done]. intros [= <-] ->. unfold connectionBaseURLs in Hb.
  apply elem_of_list_to_map_2 in Hb. revert Hb. unfold connection_types. rewrite !elem_of_cons, elem_of_nil. intuition discriminate.
Qed.

Lemma openai_made cfg :
  oc_BaseURL cfg <> "" -> oc_Model cfg <> "" -> (forall s, oc_GuidedDialect cfg <> OtherDialect s) ->
  Forall (fun k => known_penalty k = true) (default [] (oc_Penalties cfg)) -> exists p, NewOpenAIProvider cfg = inr p.
Proof.
  intros Hb Hm Hd Hp. unfold NewOpenAIProvider. rewrite !(proj2 (String.eqb_neq _ _)) by done. cbn [orb].
  assert (List.find (fun k => negb (known_penalty k)) (default [] (oc_Penalties cfg)) = None) as ->.
  { destruct (List.find _ _) eqn:Hf; [|done]. apply List.find_some in Hf as [Hin Hk]. rewrite Forall_forall in Hp.
    apply list_elem_of_In in Hin. rewrite (Hp _ Hin) in Hk. done. }
  destruct (oc_GuidedDialect cfg); eauto. by destruct (Hd s).
Qed.

Lemma builtin_made {C} conn base key : connection_ok conn -> base <> "" -> exists p : built_as C, builtinProvider conn base key = inr p.
Proof.
  intros [Hm _] Hb. unfold builtinProvider. destruct (String.eqb_spec (cc_Type conn) "anthropic") as [Ht|].
  { unfold NewAnthropicProvider. cbn. destruct Hm as [Hm|Hm]; [|congruence]. rewrite (proj2 (String.eqb_neq _ _)) by done. cbn. eauto. }
  destruct (String.eqb_spec (cc_Type conn) "openai-responses") as [Ht|].
  { unfold NewResponsesProvider. cbn. destruct Hm as [Hm|Hm]; [|congruence]. rewrite !(proj2 (String.eqb_neq _ _)) by done. cbn. eauto. }
  destruct (String.eqb_spec (cc_Type conn) "llamacpp") as [Ht|Ht].
  { unfold NewLlamaCppProvider. match goal with |- context [NewOpenAIProvider ?c] => destruct (openai_made c) as [p ->] end; cbn; try done; eauto.
    - unfold text_or. by rewrite (proj2 (String.eqb_neq _ _)).
    - unfold text_or. by destruct (String.eqb_spec (cc_Model conn) ""). }
  destruct Hm as [Hm|Hm]; [|done]. destruct (String.eqb_spec (cc_Type conn) "ollama") as [Hto|].
  - unfold NewOllamaProvider. cbn. rewrite (proj2 (String.eqb_neq _ _)) by done.
    match goal with |- context [NewOpenAIProvider ?c] => destruct (openai_made c) as [p ->] end; cbn; try done; eauto.
    unfold text_or. by rewrite (proj2 (String.eqb_neq _ _)).
  - match goal with |- context [NewOpenAIProvider ?c] => destruct (openai_made c) as [p ->] end; cbn; try done; eauto.
Qed.

Lemma default_builds {C} Getenv conn : connection_ok conn -> exists p : built_as C, DefaultProviderBuilder Getenv conn = inr p.
Proof.
  intros Hok. unfold DefaultProviderBuilder, buildProvider. destruct (proj2 (resolve_ok conn) (proj2 Hok)) as [base Hb]. rewrite Hb, lookup_empty.
  destruct (builtin_made (C := C) conn base (connection_key Getenv conn) Hok (base_not_empty _ _ Hb)) as [p ->]. eauto.
Qed.

Lemma registry_fields {P} cfg conns roles (r : ConnectionRegistry P) :
  NewConnectionRegistry (Some cfg) conns roles = inr r ->
  cr_conns r = cs_Connections cfg /\ cr_active r = cs_Active cfg /\ cr_cache r = ∅.
Proof. unfold NewConnectionRegistry. repeat case_match; try done. by intros [= <-]. Qed.

(** C40: A connection the registry accepts can be built: whatever its type
    and the environment, the default builder makes its provider, so an
    operation of the registry fails only on a name that is not defined. *)
Theorem accepted_connections_build {C} Getenv cfg conns roles r name :
  conns ≡ₚ map_to_list (cs_Connections cfg) -> roles ≡ₚ map_to_list (cs_AgentRoles cfg) ->
  NewConnectionRegistry (P := built_as C) (Some cfg) conns roles = inr r ->
  (exists p r', ActiveProvider (DefaultProviderBuilder Getenv) r = (inr p, r')) /\
  (is_Some (cs_Connections cfg !! name) ->
     (exists p r', Provider_ (DefaultProviderBuilder Getenv) r name = (inr p, r')) /\
     (exists p r', SetActive (DefaultProviderBuilder Getenv) r name = (inr p, r'))) /\
  (cs_Connections cfg !! name = None ->
     Provider_ (DefaultProviderBuilder Getenv) r name = (inl (unknown_connection name), r) /\
     SetActive (DefaultProviderBuilder Getenv) r name = (inl (unknown_connection name), r)).
Proof.
  intros Hconns Hroles Hr. assert (Hok : config_ok cfg) by (apply (registry_made_iff (P := built_as C) cfg conns roles Hconns Hroles); eauto).
  destruct (registry_fields _ _ _ _ Hr) as (Hc & Ha & Hcache).
  assert (Hb : forall n conn, cs_Connections cfg !! n = Some conn ->
             exists p r', providerLocked (DefaultProviderBuilder (C := C) Getenv) r n = (inr p, r')).
  { intros n conn Hn. unfold providerLocked. rewrite Hcache, lookup_empty. unfold config_of. rewrite Hc, Hn. cbn [default].
    destruct (default_builds (C := C) Getenv conn) as [p Hp]; [by eapply co_connections|]. cbn. rewrite Hp. eauto. }
  split; [|split].
  - destruct (co_active _ Hok) as [_ [conn Hn]]. unfold ActiveProvider. rewrite Ha. eauto.
  - intros [conn Hn]. unfold Provider_, SetActive. rewrite Hc, Hn. destruct (Hb _ _ Hn) as (p & r' & Hl). rewrite Hl. split; eauto.
  - intros Hn. unfold Provider_, SetActive. by rewrite Hc, Hn.
Qed.

(** ** The registry in use *)

Section Use.
Context {P : Type}.

Inductive registry_op := RProvider (name : string) | RActive | RSetActive (name : string).

(** An operation, with the builder's answers while it runs; the log says
    which connection was asked for and what came back. *)
Definition registry_step (r : ConnectionRegistry P) (o : registry_op * builder P) : (registry_op * string * result P) * ConnectionRegistry P :=
  match o.1 with
  | RProvider name => let '(p, r') := Provider_ o.2 r name in ((o.1, name, p), r')
  | RActive => let '(p, r') := ActiveProvider o.2 r in ((o.1, cr_active r, p), r')
  | RSetActive name => let '(p, r') := SetActive o.2 r name in ((o.1, name, p), r')
  end.

Definition registry_log (r : ConnectionRegistry P) (os : list (registry_op * builder P)) := Memory.respond registry_step r os.

(** The name the switches of a log leave active. *)
Definition switched (active : string) (log : list (registry_op * string * result P)) : string :=
  foldl (fun a e => match e with ((RSetActive name, _), inr _) => name | _ => a end) active log.

Record registry_inv (r : ConnectionRegistry P) : Prop := {
  ri_active : is_Some (cr_conns r !! cr_active r);
  ri_cache : forall n, is_Some (cr_cache r !! n) -> is_Some (cr_conns r !! n);
}.

(** One operation: what it leaves alone, and where a provider comes from. *)
Lemma locked_spec (build : builder P) (r : ConnectionRegistry P) name p (r' : ConnectionRegistry P) : providerLocked build r name = (p, r') ->
  cr_conns r' = cr_conns r /\ cr_names r' = cr_names r /\ cr_active r' = cr_active r /\ cr_cache r ⊆ cr_cache r' /\
  (forall q, p = inr q -> cr_cache r' !! name = Some q) /\ (forall n, is_Some (cr_cache r' !! n) -> is_Some (cr_cache r !! n) \/ n = name).
Proof.
  unfold providerLocked. destruct (cr_cache r !! name) as [q|] eqn:Hc.
  - intros [= <- <-]. split_and!; try done; [by intros ? [= <-]|by left].
  - destruct (build _) as [err|q]; intros [= <- <-]; split_and!; try done; [by left|by apply insert_subseteq|intros ? [= <-]; apply lookup_insert_eq|].
    cbn. intros n. destruct (decide (n = name)); [by right|]. rewrite lookup_insert_ne by done. by left.
Qed.

Lemma step_spec r o e r' : registry_inv r -> registry_step r o = (e, r') ->
  registry_inv r' /\ cr_conns r' = cr_conns r /\ cr_names r' = cr_names r /\ cr_cache r ⊆ cr_cache r' /\
  cr_active r' = switched (cr_active r) [e] /\
  (forall p, e.2 = inr p -> cr_cache r' !! e.1.2 = Some p /\ is_Some (cr_conns r !! e.1.2)).
Proof.
  intros [Ha Hca] Hst. destruct o as [[name| |name] build]; cbn in Hst.
  - unfold Provider_ in Hst. destruct (cr_conns r !! name) as [conn|] eqn:Hn; [|injection Hst as <- <-; by split_and!].
    destruct (providerLocked build r name) as [p r1] eqn:Hl. injection Hst as <- <-. destruct (locked_spec _ _ _ _ _ Hl) as (Hc & Hnm & Hac & Hsub & Hp & Hdom).
    split_and!; try done; [split; rewrite ?Hc, ?Hac; [done|]; intros n [?| ->]%Hdom; eauto|]. cbn. intros q ->. split; [by apply Hp|by rewrite Hn].
  - unfold ActiveProvider in Hst. destruct (providerLocked build r _) as [p r1] eqn:Hl. injection Hst as <- <-.
    destruct (locked_spec _ _ _ _ _ Hl) as (Hc & Hnm & Hac & Hsub & Hp & Hdom).
    split_and!; try done; [split; rewrite ?Hc, ?Hac; [done|]; intros n [?| ->]%Hdom; eauto|]. cbn. intros q ->. split; [by apply Hp|done].
  - unfold SetActive in Hst. destruct (cr_conns r !! name) as [conn|] eqn:Hn; [|injection Hst as <- <-; by split_and!].
    destruct (providerLocked build r name) as [p r1] eqn:Hl. destruct (locked_spec _ _ _ _ _ Hl) as (Hc & Hnm & Hac & Hsub & Hp & Hdom).
    assert (Hdom' : forall n, is_Some (cr_cache r1 !! n) -> is_Some (cr_conns r1 !! n)).
    { rewrite Hc. intros n [?| ->]%Hdom; eauto. }
    destruct p as [err|q]; injection Hst as <- <-; cbn.
    + split_and!; try done. split; [by rewrite Hac, Hc|done].
    + split_and!; try done; [|intros q' [= <-]; split; [by apply Hp|by rewrite Hn]]. split; [cbn; rewrite Hc, Hn; eauto|done].
Qed.

Lemma log_spec r os log r' : registry_inv r -> registry_log r os = (log, r') ->
  registry_inv r' /\ cr_conns r' = cr_conns r /\ cr_names r' = cr_names r /\ cr_cache r ⊆ cr_cache r' /\
  cr_active r' = switched (cr_active r) log /\
  (forall e p, e ∈ log -> e.2 = inr p -> cr_cache r' !! e.1.2 = Some p /\ is_Some (cr_conns r !! e.1.2)).
Proof.
  revert r log. induction os as [|o os IH]; intros r log Hinv Hl; cbn in Hl.
  { injection Hl as <- <-. split_and!; try done. intros e p []%not_elem_of_nil. }
  destruct (registry_step r o) as [e r1] eqn:Hs. destruct (step_spec _ _ _ _ Hinv Hs) as (Hinv1 & Hc1 & Hn1 & Hsub1 & Ha1 & He).
  destruct (Memory.respond registry_step r1 os) as [log1 r2] eqn:Hl1. injection Hl as <- <-.
  destruct (IH r1 log1 Hinv1 Hl1) as (Hinv2 & Hc2 & Hn2 & Hsub2 & Ha2 & Hes).
  split_and!; [done|congruence|congruence|by etransitivity| |].
  - rewrite Ha2, Ha1. done.
  - intros e' p Hin Hp. apply elem_of_cons in Hin as [->|Hin].
    + destruct (He p Hp) as [Hq ?]. split; [|done]. by eapply lookup_weaken.
    + destruct (Hes e' p Hin Hp) as [? Hd]. split; [done|]. by rewrite <- Hc1.
Qed.

(** C16: Over any use of the registry, with any answers of the builder: a
    name is given one provider, the same from then on; a provider is given
    only for a defined name; the active connection is the last one a switch
    succeeded for, so a failed switch changes nothing, and it is always
    defined; and the listing is the sorted names of the configuration. *)
Theorem registry_stable cfg conns roles r os log r' :
  conns ≡ₚ map_to_list (cs_Connections cfg) ->
  NewConnectionRegistry (Some cfg) conns roles = inr r -> registry_log r os = (log, r') ->
  (forall o o' name p q, (o, name, inr p) ∈ log -> (o', name, inr q) ∈ log -> p = q) /\
  (forall o name p, (o, name, inr p) ∈ log -> is_Some (cs_Connections cfg !! name)) /\
  Active r' = switched (cs_Active cfg) log /\ is_Some (cs_Connections cfg !! Active r') /\
  StronglySorted String.le (Names r') /\ (forall name, name ∈ Names r' <-> is_Some (cs_Connections cfg !! name)).
Proof.
  intros Hconns Hr Hl. destruct (registry_fields _ _ _ _ Hr) as (Hc & Ha & Hca).
  assert (Hinv : registry_inv r).
  { split; [|intros n; rewrite Hca, lookup_empty; by intros [? ?]]. rewrite Hc, Ha. unfold NewConnectionRegistry in Hr. repeat case_match; eauto; done. }
  assert (Hnames : cr_names r = sort_strings (map fst conns)) by (unfold NewConnectionRegistry in Hr; repeat case_match; try done; by injection Hr as <-).
  destruct (log_spec _ _ _ _ Hinv Hl) as ([Ha' _] & Hc' & Hn' & _ & Hsw & He). unfold Active, Names. split_and!.
  - intros o o' name p q H1 H2. destruct (He _ p H1 eq_refl) as [Hp _]. destruct (He _ q H2 eq_refl) as [Hq _]. cbn in *. congruence.
  - intros o name p H1. destruct (He _ p H1 eq_refl) as [_ Hd]. by rewrite <- Hc.
  - by rewrite Hsw, Ha.
  - by rewrite <- Hc, <- Hc'.
  - rewrite Hn', Hnames. apply sort_strings_sorted.
  - intros name. rewrite Hn', Hnames, sort_strings_perm, Hconns. split.
    + intros ([n c] & -> & Hin)%list_elem_of_fmap. apply elem_of_map_to_list in Hin. eauto.
    + intros [c Hn]. apply list_elem_of_fmap. exists (name, c). split; [done|]. by apply elem_of_map_to_list.
Qed.
End Use.

(** ** Step routes *)

Section Routes.
Context {Ctx W : Type}.
Implicit Types (resolve : string -> eff W Event (result (Provider Ctx W))).

(** Once a registry has accepted its routes, each route covers some step,
    and a step of a turn runs on the connection of the first route that
    covers it, which is defined, with the rest of the view untouched; only a
    failure to build that connection's provider ends the turn.  A step that
    none covers keeps its provider, under the active connection's name. *)
Theorem steps_routed cfg resolve (def : eff W Event string) (ctx : Ctx) info view w :
  config_ok cfg ->
  Forall (fun r => exists step, (1 <= step)%Z /\ covers r step = true) (cs_StepRoutes cfg) /\
  match ss_Run (StepRouteStage (cs_StepRoutes cfg) resolve (Some def)) ctx info view w with
  | (inl err, _, _) =>
      exists pre r post e evs w', cs_StepRoutes cfg = pre ++ r :: post /\ covers r (si_Step info) = true
        /\ resolve (sr_Connection r) w = (inl e, evs, w') /\ err = wrap_error ("routing step " +:+ itoa (si_Step info) +:+ ": ") e
  | (inr v, _, _) =>
      sv_Messages v = sv_Messages view /\ sv_Tools v = sv_Tools view /\ sv_Guided v = sv_Guided view /\ sv_Generation v = sv_Generation view /\
      ((exists pre r post p evs w', cs_StepRoutes cfg = pre ++ r :: post /\ covers r (si_Step info) = true
          /\ Forall (fun r' => covers r' (si_Step info) = false) pre /\ is_Some (cs_Connections cfg !! sr_Connection r)
          /\ resolve (sr_Connection r) w = (inr p, evs, w') /\ sv_Provider v = Some p /\ sv_ProviderName v = sr_Connection r)
       \/ (Forall (fun r => covers r (si_Step info) = false) (cs_StepRoutes cfg) /\ sv_Provider v = sv_Provider view
           /\ sv_ProviderName v = (def w).1.1))
  end.
Proof.
  intros Hok. pose proof (co_routes _ Hok) as Hroutes. split.
  { eapply Forall_impl; [exact Hroutes|]. intros r (_ & Hf & Ht). exists (Z.max (sr_FromStep r) 1). unfold covers. split; [lia|].
    apply andb_true_iff. split; [apply Z.leb_le; lia|]. apply orb_true_iff. destruct Ht as [->|[? ?]]; [by left|right; apply Z.leb_le; lia]. }
  cbn [ss_Run StepRouteStage]. unfold route_for. destruct (find_split (fun r => covers r (si_Step info)) (cs_StepRoutes cfg)) as [(pre & r & post & Heq & Hpre & Hr & ->)|[Hnone ->]].
  - unfold eff_bind. destruct (resolve (sr_Connection r) w) as [[[e|p] evs] w'] eqn:Hres; cbn.
    + exists pre, r, post, e, evs, w'. done.
    + split_and!; try done. left. exists pre, r, post, p, evs, w'. split_and!; try done.
      rewrite Heq in Hroutes. apply Forall_app in Hroutes as [_ [[? _] _]%Forall_cons]. done.
  - unfold eff_bind. destruct (def w) as [[name evs] w'] eqn:Hd. cbn. split_and!; try done. right. done.
Qed.
End Routes.

(** ** Concrete configurations *)

Definition conn_named (type base model key env : string) : ConnectionConfig :=
  {| cc_Type := type; cc_BaseURL := base; cc_Model := model; cc_APIKeyEnv := env; cc_APIKey := key; cc_MaxTokens := 0; cc_Dim := 0;
     cc_ThinkingHint := None; cc_Vision := false; cc_ReasoningEffort := ""; cc_Temperature := None; cc_ResponseSchema := None |}.

Definition two_connections : ConnectionsConfig :=
  {| cs_Active := "big"; cs_Embedder := "";
     cs_Connections := {["big" := conn_named "anthropic" "" "opus" "" "KEY"; "mini" := conn_named "llamacpp" "" "" "" ""]};
     cs_AgentRoles := {["small" := "mini"]};
     cs_StepRoutes := [{| sr_FromStep := 2; sr_ToStep := 0; sr_Connection := "mini" |}] |}.

Definition two_conns : list (string * ConnectionConfig) := map_to_list (cs_Connections two_connections).
Definition two_roles : list (string * string) := map_to_list (cs_AgentRoles two_connections).

Definition two_registry {P} : ConnectionRegistry P :=
  {| cr_conns := cs_Connections two_connections; cr_names := ["big"; "mini"]; cr_active := "big"; cr_cache := ∅;
     cr_agentRoles := cs_AgentRoles two_connections |}.

Lemma two_accepted {P} : NewConnectionRegistry (P := P) (Some two_connections) two_conns two_roles = inr two_registry.
Proof. reflexivity. Qed.

Lemma registry_accepts_witness :
  two_conns ≡ₚ map_to_list (cs_Connections two_connections) /\ two_roles ≡ₚ map_to_list (cs_AgentRoles two_connections) /\ config_ok two_connections.
Proof.
  split; [reflexivity|]. split; [reflexivity|].
  apply (proj1 (registry_accepts (P := nat) two_connections two_conns two_roles ltac:(reflexivity) ltac:(reflexivity))).
  exists two_registry. apply two_accepted.
Defined.

Lemma accepted_connections_build_witness :
  NewConnectionRegistry (P := built_as unit) (Some two_connections) two_conns two_roles = inr two_registry /\
  is_Some (cs_Connections two_connections !! "mini") /\
  exists p r', SetActive (DefaultProviderBuilder (C := unit) (fun _ => "key")) two_registry "mini" = (inr p, r').
Proof.
  split; [apply two_accepted|]. split; [vm_compute; eauto|].
  refine (proj2 (proj1 (proj2 (accepted_connections_build (fun _ => "key") two_connections two_conns two_roles two_registry "mini" _ _ _)) _));
    [reflexivity|reflexivity|apply two_accepted|vm_compute; eauto].
Defined.

(** A builder that numbers what it builds by the call. *)
Definition numbered (n : nat) : builder nat := fun _ => inr n.
Definition broken : builder nat := fun _ => inl (EText "no key").

Definition some_use : list (registry_op * builder nat) :=
  [(RProvider "mini", numbered 1); (RActive, numbered 2); (RSetActive "mini", numbered 3); (RSetActive "nope", numbered 4); (RActive, broken)].

Lemma registry_stable_witness :
  let '(log, r') := registry_log two_registry some_use in
  log = [(RProvider "mini", "mini", inr 1); (RActive, "big", inr 2); (RSetActive "mini", "mini", inr 1);
         (RSetActive "nope", "nope", inl (unknown_connection "nope")); (RActive, "mini", inr 1)] /\
  Active r' = "mini" /\ is_Some (cs_Connections two_connections !! Active r').
Proof.
  destruct (registry_log two_registry some_use) as [log r'] eqn:Hl.
  pose proof (registry_stable two_connections two_conns two_roles two_registry some_use log r' ltac:(reflexivity) two_accepted Hl) as (_ & _ & Ha & Hd & _).
  assert (log = [(RProvider "mini", "mini", inr 1); (RActive, "big", inr 2); (RSetActive "mini", "mini", inr 1);
         (RSetActive "nope", "nope", inl (unknown_connection "nope")); (RActive, "mini", inr 1)]) as Hlog.
  { vm_compute in Hl. injection Hl as <- _. reflexivity. }
  split; [exact Hlog|]. split; [rewrite Ha, Hlog; reflexivity|exact Hd].
Defined.

Lemma two_ok : config_ok two_connections.
Proof. apply (registry_made_iff (P := nat) two_connections two_conns two_roles ltac:(reflexivity) ltac:(reflexivity)). eauto using two_accepted. Qed.

Definition mute_provider (id : positive) : Provider unit unit :=
  {| prov_id := id; prov_caps := None; prov_Stream := fun _ _ => eff_ret (inl (EText "none")); prov_Generate := fun _ _ => eff_ret (inl (EText "none")) |}.
Definition second_step : StepInfo := {| si_Step := 2; si_MaxSteps := 9; si_Usage := Usage_zero; si_Turn := [] |}.
Definition plain_view : StepView unit unit := first_view [] [] None GenerationParams_zero.

Lemma steps_routed_witness :
  config_ok two_connections /\
  match ss_Run (StepRouteStage (cs_StepRoutes two_connections) (fun _ => eff_ret (inr (mute_provider 7))) (Some (eff_ret "big"))) tt second_step plain_view tt with
  | (inr v, _, _) => sv_ProviderName v = "mini" /\ sv_Messages v = sv_Messages plain_view
  | _ => False
  end.
Proof.
  split; [exact two_ok|].
  pose proof (proj2 (steps_routed two_connections (fun _ => eff_ret (inr (mute_provider 7))) (eff_ret "big") tt second_step plain_view tt two_ok)) as H.
  cbn in H |- *. split; [reflexivity|]. exact (proj1 H).
Defined.

(** ** Findings *)

(** [ConnectionConfig] says of [APIKey] that it wins over [APIKeyEnv]; the
    embedder is built with the variable's key, or none. *)
Lemma embedder_ignores_key :
  BuildEmbedder (fun _ => "env") (conn_named "openai" "" "text" "mine" "") = inr {| ec_BaseURL := "https://api.openai.com/v1"; ec_APIKey := ""; ec_Model := "text" |} /\
  BuildEmbedder (fun _ => "env") (conn_named "openai" "" "text" "mine" "KEY") = inr {| ec_BaseURL := "https://api.openai.com/v1"; ec_APIKey := "env"; ec_Model := "text" |}.
Proof. split; reflexivity. Qed.

(** The registry lets a llama.cpp connection without a model take the
    embedder role; its embedder cannot be made. *)
Lemma embedder_needs_model :
  embedder_error {| cs_Active := "e"; cs_Embedder := "e"; cs_Connections := {["e" := conn_named "llamacpp" "" "" "" ""]};
                    cs_AgentRoles := ∅; cs_StepRoutes := [] |} = None /\
  BuildEmbedder (fun _ => "") (conn_named "llamacpp" "" "" "" "") = inl (EText "agent: OpenAIEmbedderConfig requires BaseURL and Model").
Proof. split; reflexivity. Qed.

(** Two switches at once can leave the registry naming one connection and the
    Runner talking to the other. *)
Lemma switches_interleave :
  let a0 := {| cm_reg := two_registry; cm_switch := 0 |} in
  let '(p1, a1) := switch_choose (numbered 1) a0 "mini" in
  let '(p2, a2) := switch_choose (numbered 2) a1 "big" in
  p1 = inr 1 /\ p2 = inr 2 /\
  let a3 := switch_point (switch_point a2 2) 1 in
  Active (cm_reg a3) = "big" /\ ModelLabel (Some (cm_reg a3)) "" = "big (opus)" /\ cm_switch a3 = 1 /\ cr_cache (cm_reg a3) !! "mini" = Some 1.
Proof. repeat split; reflexivity. Qed.
