(* ===== verification/ServerAgents.v ===== *)
(** * Server agents

    src/host/server_agents.go: the agents a server advertises, as delegate
    tools that are resolved on first use, and the handlers of list-changed
    notifications.

    The catalog (mcpkit's cache over agents/list and agents/get), the failures
    it classifies and the running of a child are parameters.  A child is the
    configuration it is made of; making one can fail ([child_error] stands for
    NewRunner and NewAgentSource, which Runner.v and SubAgents.v model).  The
    state changes in the critical sections [roster_listed], [resolved] and
    [dropped]; a call is one sequence of them, so no other call changes the
    table while the catalog answers; spans are left out. *)

From S2P Require Import Prelude GoStr Errors Provider Middleware MultiSource Dispatch Connections.
Local Open Scope eff_scope.

(** ** Notifications *)

(** [listWatchers]: a handler per server and method, by its number. *)
Abbreviation listWatchers := (gmap string nat).

Definition watch_key (serverID method : string) : string := serverID +:+ " " +:+ method.

Definition watch_set (w : listWatchers) (serverID method : string) (fn : nat) : bool * listWatchers :=
  let key := watch_key serverID method in
  (negb (is_set (w !! key)), <[key := fn]> w).

(** [notify]: the handler that runs. *)
Definition watch_notify (w : listWatchers) (serverID method : string) : option nat := w !! watch_key serverID method.

(** [watchListChanged]: whether it opens a listen stream. *)
Definition watchListChanged (w : listWatchers) (serverID method : string) (fn : nat) : bool * listWatchers :=
  watch_set w serverID method fn.

(** ** The source of one server *)

Record AgentCard := { card_Name : string; card_Description : string; card_Capabilities : list string }.

Definition describeAgent (c : AgentCard) : string :=
  card_Description c +:+
  (match card_Capabilities c with
   | [] => ""
   | caps => (if String.eqb (card_Description c) "" then "" else " ") +:+ "Capabilities: " +:+ str_join ", " caps +:+ "."
   end).

Section Source.
Context {P Hint R W : Type}.

(** [ga_Rest] is what else DeepEqual compares. *)
Record GetAgentResult := { ga_Instructions : string; ga_Tools : list ToolDef; ga_ModelRoutingHint : option Hint; ga_Rest : string }.

(** A child is its configuration. *)
Record child := {
  kid_Name : string;
  kid_Description : string;
  kid_Instructions : string;
  kid_Tools : list ToolDef;
  kid_Provider : P;
  kid_MaxSteps : Z;
}.

(** [byTool] and [built]. *)
Record serverAgentSource := { sa_byTool : gmap string AgentCard; sa_built : gmap string (child * GetAgentResult) }.

Definition newServerAgentSource : serverAgentSource := {| sa_byTool := ∅; sa_built := ∅ |}.

(** The first card of each name. *)
Definition first_cards (roster : list AgentCard) : gmap string AgentCard :=
  foldl (fun m c => match m !! card_Name c with Some _ => m | None => <[card_Name c := c]> m end) ∅ roster.

(** What [Tools] does with the catalog's answer, under the lock. *)
Definition roster_listed (roster : result (list AgentCard)) (s : serverAgentSource) : serverAgentSource :=
  match roster with
  | inl _ => s
  | inr roster =>
      let byTool := first_cards roster in
      {| sa_byTool := byTool; sa_built := filter (fun p => is_Some (byTool !! p.1)) (sa_built s) |}
  end.

Definition delegate_tool (s : serverAgentSource) (name : string) : string * string :=
  (name, default "" (describeAgent <$> sa_byTool s !! name)).

(** The tools listed: names and descriptions; all have one input schema. *)
Definition delegate_tools (s : serverAgentSource) : list (string * string) :=
  map (delegate_tool s) (sort_strings (map fst (map_to_list (sa_byTool s)))).

Definition resolved (id : string) (c : child) (detail : GetAgentResult) (s : serverAgentSource) : serverAgentSource :=
  {| sa_byTool := sa_byTool s; sa_built := <[id := (c, detail)]> (sa_built s) |}.

Definition dropped (name : string) (s : serverAgentSource) : serverAgentSource :=
  {| sa_byTool := delete name (sa_byTool s); sa_built := delete name (sa_built s) |}.

Record sa_world := { sw_src : serverAgentSource; sw_reg : option (ConnectionRegistry P); sw_rest : W }.

Inductive sa_event := RosterChanged | Ran (c : child).

Definition on_src {A} (f : serverAgentSource -> A * serverAgentSource) : eff sa_world sa_event A :=
  eff_call (fun w => let '(a, s) := f (sw_src w) in (a, {| sw_src := s; sw_reg := sw_reg w; sw_rest := sw_rest w |})).
Definition on_rest {A} (f : W -> A * W) : eff sa_world sa_event A :=
  eff_call (fun w => let '(a, r) := f (sw_rest w) in (a, {| sw_src := sw_src w; sw_reg := sw_reg w; sw_rest := r |})).
Definition on_reg {A} (f : option (ConnectionRegistry P) -> A * option (ConnectionRegistry P)) : eff sa_world sa_event A :=
  eff_call (fun w => let '(a, r) := f (sw_reg w) in (a, {| sw_src := sw_src w; sw_reg := r; sw_rest := sw_rest w |})).

(** ** Parameters *)

Inductive resolve_failure := AgentNotFound | InvalidDefinition | OtherFailure.

(** [dp_build] is what the registry's builder answers in a given world. *)
Record serverAgentDeps := {
  dp_ListAgents : W -> result (list AgentCard) * W;
  dp_GetAgent : string -> W -> result GetAgentResult * W;
  dp_classify : error -> resolve_failure;
  dp_Resolve : gmap string RoleModel -> option Hint -> string * R;
  dp_resolved_default : R;
  dp_build : builder P;
  dp_main : P;
  dp_maxSteps : Z;
  dp_child_error : child -> option error;
  dp_run : child -> tool_args -> W -> call_out * W;
}.

(** Equality of definitions is [reflect.DeepEqual]. *)
Context `{EqDecision GetAgentResult} (deps : serverAgentDeps).

Definition Tools : eff sa_world sa_event (list (string * string)) :=
  let* roster := on_rest (dp_ListAgents deps) in
  on_src (fun s => let s' := roster_listed roster s in (delegate_tools s', s')).

Definition card (name : string) : eff sa_world sa_event (option AgentCard) := on_src (fun s => (sa_byTool s !! name, s)).

Definition child_of (c : AgentCard) (detail : GetAgentResult) (p : P) : child :=
  {| kid_Name := card_Name c; kid_Description := describeAgent c; kid_Instructions := ga_Instructions detail;
     kid_Tools := ga_Tools detail; kid_Provider := p; kid_MaxSteps := dp_maxSteps deps |}.

Definition resolve_agent (c : AgentCard) : eff sa_world sa_event (result child) :=
  let id := card_Name c in
  let* prev := on_src (fun s => (sa_built s !! id, s)) in
  let* detail := on_rest (dp_GetAgent deps id) in
  match detail with
  | inl err => eff_ret (inl err)
  | inr detail =>
      let build :=
        let* choice := on_reg (fun reg => pick (dp_Resolve deps) (dp_resolved_default deps) (dp_build deps) (dp_main deps) reg (ga_ModelRoutingHint detail)) in
        let kid := child_of c detail (ch_provider choice) in
        match dp_child_error deps kid with
        | Some err => eff_ret (inl err)
        | None => on_src (fun s => (inr kid, resolved id kid detail s))
        end in
      match prev with
      | Some (kid, was) => if bool_decide (was = detail) then eff_ret (inr kid) else build
      | None => build
      end
  end.

Definition describeResolveError (name : string) (err : error) : eff sa_world sa_event string :=
  match dp_classify deps err with
  | AgentNotFound =>
      on_src (fun s => (tt, dropped name s)) ;;;
      eff_emit RosterChanged ;;;
      eff_ret ("agent " +:+ go_quote name +:+ " no longer exists on this server and has been removed from your tools")
  | InvalidDefinition =>
      eff_ret ("the server's definition of agent " +:+ go_quote name +:+ " is invalid, so it cannot run: " +:+ error_text err)
  | OtherFailure => eff_ret ("could not resolve agent " +:+ go_quote name +:+ ": " +:+ error_text err)
  end.

Definition error_answer (text : string) : call_out := (Some (errorToolResult text), None).

Definition run_kid (kid : child) (args : tool_args) : eff sa_world sa_event call_out :=
  eff_emit (Ran kid) ;;; on_rest (dp_run deps kid args).

Definition Call (name : string) (args : tool_args) : eff sa_world sa_event call_out :=
  let* c := card name in
  let* c := match c with
            | Some c => eff_ret (Some c)
            | None => let* _ := Tools in card name
            end in
  match c with
  | None => eff_ret (None, Some (wrap_sentinel ErrUnknownTool (": " +:+ go_quote name)))
  | Some c =>
      let* kid := resolve_agent c in
      match kid with
      | inl err => let* text := describeResolveError (card_Name c) err in eff_ret (error_answer text)
      | inr kid => run_kid kid args
      end
  end.

(** * Properties *)

Record src_ok (s : serverAgentSource) : Prop := {
  so_cards : forall n c, sa_byTool s !! n = Some c -> card_Name c = n;
  so_built : forall n k d, sa_built s !! n = Some (k, d) ->
               kid_Name k = n /\ kid_Instructions k = ga_Instructions d /\ kid_Tools k = ga_Tools d /\ kid_MaxSteps k = dp_maxSteps deps;
}.

Lemma new_source_ok : src_ok newServerAgentSource.
Proof. split; cbn; intros *; rewrite lookup_empty; done. Qed.

Lemma first_cards_spec roster n :
  first_cards roster !! n = List.find (fun c => String.eqb (card_Name c) n) roster.
Proof.
  unfold first_cards. assert (H : forall m : gmap string AgentCard, foldl (fun m c => match m !! card_Name c with Some _ => m | None => <[card_Name c := c]> m end) m roster !! n
    = match m !! n with Some c => Some c | None => List.find (fun c => String.eqb (card_Name c) n) roster end).
  { induction roster as [|c roster IH]; intros m; cbn [foldl List.find]; [by destruct (m !! n)|]. rewrite IH.
    destruct (String.eqb_spec (card_Name c) n) as [<-|Hne].
    - destruct (m !! card_Name c) as [c0|] eqn:Hm; [by rewrite Hm|]. by rewrite lookup_insert_eq.
    - destruct (m !! card_Name c); [done|]. by rewrite lookup_insert_ne. }
  by rewrite H, lookup_empty.
Qed.

Lemma listed_ok roster s : src_ok s -> src_ok (roster_listed roster s).
Proof.
  intros [Hc Hb]. destruct roster as [err|roster]; [by split|]. split; cbn.
  - intros n c. rewrite first_cards_spec. intros Hf. apply List.find_some in Hf as [_ Hn]. by apply String.eqb_eq in Hn.
  - intros n k d Hl. apply map_lookup_filter_Some in Hl as [Hl _]. by apply Hb.
Qed.

Lemma resolved_ok id k d s :
  src_ok s -> kid_Name k = id -> kid_Instructions k = ga_Instructions d -> kid_Tools k = ga_Tools d -> kid_MaxSteps k = dp_maxSteps deps ->
  src_ok (resolved id k d s).
Proof.
  intros [Hc Hb] ? ? ? ?. split; [done|]. cbn. intros n k' d'. destruct (decide (n = id)) as [->|]; [rewrite lookup_insert_eq; by intros [= <- <-]|].
  rewrite lookup_insert_ne by done. apply Hb.
Qed.

Lemma dropped_ok n s : src_ok s -> src_ok (dropped n s).
Proof.
  intros [Hc Hb]. split; cbn; intros *; rewrite lookup_delete_Some; intros [_ ?]; eauto.
Qed.

(** The delegates listed are the agents of the last roster the server
    gave, each name once, in order, described by its first card; a roster
    that cannot be fetched changes nothing, and one that can takes the
    children of agents that left with it. *)
Theorem delegates_listed w out evs w' :
  Tools w = (out, evs, w') ->
  map fst out = sort_strings (map fst (map_to_list (sa_byTool (sw_src w')))) /\ NoDup (map fst out) /\
  match (dp_ListAgents deps (sw_rest w)).1 with
  | inl _ => sw_src w' = sw_src w
  | inr roster =>
      (forall n, n ∈ map fst out <-> exists c, c ∈ roster /\ card_Name c = n) /\
      (forall n t, (n, t) ∈ out -> exists pre c post, roster = pre ++ c :: post /\ card_Name c = n /\ Forall (fun c' => card_Name c' <> n) pre /\ t = describeAgent c) /\
      (forall n, is_Some (sa_built (sw_src w') !! n) -> n ∈ map fst out) /\
      (forall n, n ∈ map fst out -> sa_built (sw_src w') !! n = sa_built (sw_src w) !! n)
  end.
Proof.
  unfold Tools, on_rest, on_src, eff_call, eff_bind. cbn. destruct (dp_ListAgents deps (sw_rest w)) as [roster r] eqn:Hl. intros [= <- _ <-]. cbn.
  set (s := roster_listed roster (sw_src w)).
  assert (Hfst : map fst (delegate_tools s) = sort_strings (map fst (map_to_list (sa_byTool s)))).
  { unfold delegate_tools. rewrite map_map. apply map_id. }
  assert (Hin : forall n, n ∈ map fst (delegate_tools s) <-> is_Some (sa_byTool s !! n)).
  { intros n. rewrite Hfst, sort_strings_perm. split.
    - intros ([n' c] & -> & Hx)%list_elem_of_fmap. apply elem_of_map_to_list in Hx. eauto.
    - intros [c Hx]. apply list_elem_of_fmap. exists (n, c). split; [done|]. by apply elem_of_map_to_list. }
  split_and!; [done|rewrite Hfst, sort_strings_perm; apply NoDup_fst_map_to_list|]. destruct roster as [err|roster]; [done|].
  assert (Hby : forall n, sa_byTool s !! n = List.find (fun c => String.eqb (card_Name c) n) roster) by (intros n; apply first_cards_spec).
  split_and!.
  - intros n. rewrite Hin, Hby. split.
    + intros [c Hf]. apply List.find_some in Hf as [Hc Hn%String.eqb_eq]. exists c. split; [by apply list_elem_of_In|done].
    + intros (c & Hc & Hn). destruct (List.find _ roster) eqn:Hf; [eauto|]. apply list_elem_of_In in Hc. pose proof (List.find_none _ _ Hf c Hc) as Hx.
      apply String.eqb_neq in Hx. done.
  - intros n t Ht. unfold delegate_tools in Ht. apply list_elem_of_fmap in Ht as (n' & [= <- ->] & Hn'). rewrite Hby.
    destruct (find_split (fun c => String.eqb (card_Name c) n) roster) as [(pre & c & post & Heq & Hpre & Hc%String.eqb_eq & Hf)|[_ Hf]]; rewrite Hf; cbn.
    + exists pre, c, post. split_and!; try done. eapply Forall_impl; [exact Hpre|]. cbn. intros c' Hc'. by apply String.eqb_neq.
    + exfalso. assert (Hm : n ∈ map fst (delegate_tools s)) by (by rewrite Hfst). apply Hin in Hm as [? Hm]. rewrite Hby, Hf in Hm. done.
  - intros n [[k d] Hb]. apply Hin. subst s. unfold roster_listed in *. cbn in Hb. by apply map_lookup_filter_Some in Hb as [_ Hb].
  - intros n Hn. apply Hin in Hn. subst s. cbn in *. rewrite map_lookup_filter. destruct (sa_built (sw_src w) !! n) as [x|]; [|done]. cbn.
    by rewrite option_guard_True.
Qed.

(** ** A delegation *)

(** What resolving a card leads to. *)
Lemma resolve_spec c w out evs w' : src_ok (sw_src w) -> resolve_agent c w = (out, evs, w') ->
  evs = [] /\ src_ok (sw_src w') /\ sa_byTool (sw_src w') = sa_byTool (sw_src w) /\
  forall k, out = inr k -> kid_Name k = card_Name c /\ kid_MaxSteps k = dp_maxSteps deps /\ exists d,
    (dp_GetAgent deps (card_Name c) (sw_rest w)).1 = inr d /\ kid_Instructions k = ga_Instructions d /\ kid_Tools k = ga_Tools d /\
    sa_built (sw_src w') !! card_Name c = Some (k, d) /\
    (forall k0, sa_built (sw_src w) !! card_Name c = Some (k0, d) -> k = k0 /\ sw_reg w' = sw_reg w).
Proof.
  intros Hok. unfold resolve_agent, on_src, on_rest, on_reg, eff_call, eff_bind, eff_ret. cbn.
  destruct (dp_GetAgent deps (card_Name c) (sw_rest w)) as [[err|d] r] eqn:Hg; cbn; [intros [= <- <- <-]; by split_and!|].
  destruct (sa_built (sw_src w) !! card_Name c) as [[k0 was]|] eqn:Hb; [case_bool_decide as Heq|].
  - subst was. intros [= <- <- <-]. split_and!; try done. intros k [= <-]. destruct (so_built _ Hok _ _ _ Hb) as (? & ? & ? & ?).
    split_and!; try done. exists d. split_and!; try done. by intros k1 [= <-].
  - destruct (pick _ _ _ _ _ _) as [ch reg]. destruct (dp_child_error deps _) eqn:Hce; intros [= <- <- <-]; split_and!; try done; cbn.
    + by apply resolved_ok.
    + intros k [= <-]. split_and!; try done. exists d. split_and!; try done; [apply lookup_insert_eq|]. intros k1 [= _ Hw]. done.
  - destruct (pick _ _ _ _ _ _) as [ch reg]. destruct (dp_child_error deps _) eqn:Hce; intros [= <- <- <-]; split_and!; try done; cbn.
    + by apply resolved_ok.
    + intros k [= <-]. split_and!; try done. exists d. split_and!; try done. apply lookup_insert_eq.
Qed.

(** The card a call acts on: the one listed, or the one a fresh listing has. *)
Lemma card_spec name w c w1 :
  src_ok (sw_src w) ->
  (let* c := card name in match c with Some c => eff_ret (Some c) | None => let* _ := Tools in card name end) w = (c, [], w1) ->
  src_ok (sw_src w1) /\ c = sa_byTool (sw_src w1) !! name /\ (is_Some (sa_byTool (sw_src w) !! name) -> w1 = w).
Proof.
  intros Hok. unfold card, Tools, on_src, on_rest, eff_call, eff_bind, eff_ret. destruct w as [s reg r]. cbn.
  destruct (sa_byTool s !! name) as [c0|] eqn:Hc; cbn.
  - intros [= <- <-]. by split_and!.
  - destruct (dp_ListAgents deps r) as [roster r']. cbn. intros [= <- <-]. cbn. split_and!; [by apply listed_ok|done|by intros [? ?]].
Qed.

Lemma card_quiet name w :
  exists c w1, (let* c := card name in match c with Some c => eff_ret (Some c) | None => let* _ := Tools in card name end) w = (c, [], w1).
Proof.
  unfold card, Tools, on_src, on_rest, eff_call, eff_bind, eff_ret. destruct w as [s reg r]. cbn.
  destruct (sa_byTool s !! name); cbn; [eauto|]. destruct (dp_ListAgents deps r). cbn. eauto.
Qed.

(** C35: A delegation runs the child the server describes now.  Whatever was
    cached, a call either misses a name that is on no listing, old or fresh;
    or runs exactly one child, which carries the called name, the instructions
    and the tools of the definition the server just gave, and is kept with
    that definition - the child it already had when the definition is
    unchanged; or runs none and tells the model in a result that an error is
    there, and an agent the server no longer knows is off the listing with its
    child. *)
Theorem call_runs_current name args w out evs w' :
  src_ok (sw_src w) -> Call name args w = (out, evs, w') ->
  src_ok (sw_src w') /\
  ((out = (None, Some (wrap_sentinel ErrUnknownTool (": " +:+ go_quote name))) /\ evs = [] /\ sa_byTool (sw_src w') !! name = None
      /\ sa_byTool (sw_src w) !! name = None)
   \/ (exists k d w1 w2, evs = [Ran k] /\ kid_Name k = name /\ (dp_GetAgent deps name w1).1 = inr d
        /\ kid_Instructions k = ga_Instructions d /\ kid_Tools k = ga_Tools d /\ kid_MaxSteps k = dp_maxSteps deps
        /\ (out, sw_rest w') = dp_run deps k args w2 /\ sa_built (sw_src w') !! name = Some (k, d)
        /\ (is_Some (sa_byTool (sw_src w) !! name) -> w1 = sw_rest w /\
              forall k0, sa_built (sw_src w) !! name = Some (k0, d) -> k = k0 /\ sw_reg w' = sw_reg w))
   \/ (exists text, out = error_answer text /\
        (evs = [] \/ evs = [RosterChanged] /\ sa_byTool (sw_src w') !! name = None /\ sa_built (sw_src w') !! name = None))).
Proof.
  intros Hok Hc. unfold Call in Hc. destruct (card_quiet name w) as (c & w1 & Hcard).
  destruct (card_spec name w c w1 Hok Hcard) as (Hok1 & Hc1 & Hw1).
  rewrite <- eff_bind_assoc in Hc. unfold eff_bind at 1 in Hc. rewrite Hcard in Hc. destruct c as [c|]; cbn in Hc.
  - symmetry in Hc1. pose proof (so_cards _ Hok1 _ _ Hc1) as Hname. unfold eff_bind at 1 in Hc.
    destruct (resolve_agent c w1) as [[[err|k] evs1] w2] eqn:Hr; destruct (resolve_spec c w1 _ _ _ Hok1 Hr) as (-> & Hok2 & Hby & Hk).
    + unfold describeResolveError, eff_bind, eff_emit, eff_ret, on_src, eff_call in Hc. cbn in Hc. rewrite Hname in Hc.
      destruct (dp_classify deps err); cbn in Hc; injection Hc as <- <- <-; cbn.
      * split; [by apply dropped_ok|]. right. right. eexists. split; [done|]. right. split; [done|]. split; apply lookup_delete_eq.
      * split; [done|]. right. right. eexists. split; [done|]. by left.
      * split; [done|]. right. right. eexists. split; [done|]. by left.
    + unfold run_kid, eff_bind, eff_emit, on_rest, eff_call in Hc. cbn in Hc. destruct (dp_run deps k args (sw_rest w2)) as [o r3] eqn:Hrun.
      cbn in Hc. injection Hc as <- <- <-. cbn. split; [done|]. right. left.
      destruct (Hk k eq_refl) as (Hkn & Hms & d & Hg & Hi & Ht & Hb & Hsame). rewrite Hname in *.
      exists k, d, (sw_rest w1), (sw_rest w2). split_and!; try done. intros Hin. rewrite <- (Hw1 Hin). by split.
  - injection Hc as <- <- <-. split; [done|]. left. split_and!; try done.
    destruct (sa_byTool (sw_src w) !! name) eqn:Hx; [|done]. rewrite (Hw1 ltac:(eauto)), Hx in Hc1. done.
Qed.
End Source.

(** ** A concrete server *)

#[export] Instance any_eq_dec : EqDecision any.
Proof. solve_decision. Defined.
#[export] Instance tooldef_eq_dec : EqDecision ToolDef.
Proof. solve_decision. Defined.
#[export] Instance get_agent_eq_dec {H} `{EqDecision H} : EqDecision (@GetAgentResult H).
Proof. solve_decision. Defined.

(** The world counts the calls of the catalog. *)
Definition reviewer : AgentCard := {| card_Name := "reviewer"; card_Description := "Reviews."; card_Capabilities := ["go"; "rocq"] |}.
Definition review_detail : @GetAgentResult unit :=
  {| ga_Instructions := "Be strict."; ga_Tools := []; ga_ModelRoutingHint := None; ga_Rest := "" |}.

Definition toy_deps : @serverAgentDeps nat unit unit nat :=
  {| dp_ListAgents := fun n => (inr [reviewer; {| card_Name := "reviewer"; card_Description := "Again."; card_Capabilities := [] |}], S n);
     dp_GetAgent := fun name n => (if String.eqb name "reviewer" then inr review_detail else inl (EText "agent_not_found"), S n);
     dp_classify := fun _ => AgentNotFound;
     dp_Resolve := fun _ _ => ("", tt);
     dp_resolved_default := tt;
     dp_build := fun _ => inr 9;
     dp_main := 1;
     dp_maxSteps := 6;
     dp_child_error := fun _ => None;
     dp_run := fun k _ n => ((Some (errorToolResult (kid_Instructions k)), None), n) |}.

Definition toy_world : @sa_world nat unit nat := {| sw_src := newServerAgentSource; sw_reg := None; sw_rest := 0 |}.

Definition review_child : @child nat :=
  {| kid_Name := "reviewer"; kid_Description := "Reviews. Capabilities: go, rocq."; kid_Instructions := "Be strict.";
     kid_Tools := []; kid_Provider := 1; kid_MaxSteps := 6 |}.

Lemma delegates_listed_witness :
  exists w', Tools toy_deps toy_world = ([("reviewer", "Reviews. Capabilities: go, rocq.")], [], w') /\ NoDup (map fst [("reviewer", "Reviews. Capabilities: go, rocq.")]).
Proof.
  eexists. split; [reflexivity|].
  exact (proj1 (proj2 (delegates_listed toy_deps toy_world [("reviewer", "Reviews. Capabilities: go, rocq.")] [] _ eq_refl))).
Defined.

Lemma call_runs_current_witness :
  src_ok toy_deps (sw_src toy_world) /\
  exists out w', Call toy_deps "reviewer" ∅ toy_world = (out, [Ran review_child], w') /\ src_ok toy_deps (sw_src w').
Proof.
  split; [apply new_source_ok|]. do 2 eexists. split; [vm_compute; reflexivity|].
  refine (proj1 (call_runs_current toy_deps "reviewer" ∅ toy_world _ [Ran review_child] _ _ _)); [apply new_source_ok|vm_compute; reflexivity].
Defined.

(** An agent that left between the listing and the call. *)
Lemma departed_agent_dropped :
  let w := {| sw_src := {| sa_byTool := {["gone" := {| card_Name := "gone"; card_Description := ""; card_Capabilities := [] |}]}; sa_built := ∅ |};
              sw_reg := None; sw_rest := 0 |} in
  let '(out, evs, w') := Call toy_deps "gone" ∅ w in
  out = error_answer ("agent " +:+ go_quote "gone" +:+ " no longer exists on this server and has been removed from your tools")
  /\ evs = [RosterChanged] /\ sa_byTool (sw_src w') !! "gone" = None.
Proof. vm_compute. repeat split; reflexivity. Qed.
