(* ===== verification/Sampling.v ===== *)
(** * Sampling

    src/host/sampling.go: a connected server asks the session's model for a
    completion.  The user's answers, the model's and the approval mode are
    functions of the world; which provider answers goes through the registry
    of Connections.v.  Events record the questions with their answers, the
    calls of a model and the host's messages, in order. *)

From S2P Require Import Prelude GoStr Errors Provider Runner Connections.
Local Open Scope eff_scope.

Record SamplingConfig := {
  sg_Enabled : bool;
  sg_Connection : string;
  sg_MaxTokens : Z;
  sg_ReviewResponse : bool;
}.

(** mcpkit's request, with the fields read here. *)
Record SamplingMessage := { sam_Role : string; sam_Type : string; sam_Text : string }.
Record CreateMessageRequest := {
  cm_Messages : list SamplingMessage;
  cm_SystemPrompt : string;
  cm_MaxTokens : Z;
  cm_Temperature : option (ptr float64);
}.
Record CreateMessageResult := { cmr_Model : string; cmr_StopReason : string; cmr_Role : string; cmr_Type : string; cmr_Text : string }.

(** ** The running total *)

Record samplingState := { sam_requests : Z; sam_usage : Usage }.
Definition sampling_zero : samplingState := {| sam_requests := 0; sam_usage := Usage_zero |}.

Definition sampling_add (s : samplingState) (u : option Usage) : samplingState :=
  {| sam_requests := wrap64 (sam_requests s + 1);
     sam_usage := match u with Some u => usage_add (sam_usage s) u | None => sam_usage s end |}.

(** ** Texts *)

Definition truncateForAsk (s : string) (n : nat) : string :=
  if Nat.leb (String.length s) n then s
  else str_take n s +:+ newline +:+ (byte_of 226 +:+ byte_of 128 +:+ byte_of 166) +:+ " "
       +:+ itoa (Z.of_nat (String.length s - n)) +:+ " more character(s)".

Fixpoint after_newlines (pre s : string) : string :=
  match s with
  | EmptyString => ""
  | String c s => String c ((if ceq c 10 then pre else "") +:+ after_newlines pre s)
  end.

Definition indentBlock (s : string) : string := "  " +:+ after_newlines "  " s.

(** [strings.TrimRight(s, "\n")]. *)
Fixpoint trim_newlines (s : string) : string :=
  match s with
  | EmptyString => ""
  | String c s => let t := trim_newlines s in if ceq c 10 && String.eqb t "" then "" else String c t
  end.

Definition sampling_render (m : SamplingMessage) : string :=
  newline +:+ sam_Role m +:+ ":" +:+ newline +:+ indentBlock (truncateForAsk (sam_Text m) 1500) +:+ newline.

Definition renderSamplingAsk (serverID : string) (req : CreateMessageRequest) (maxTokens : Z) : string :=
  trim_newlines
    ("MCP server " +:+ go_quote serverID +:+ " asks to use your model"
     +:+ (if Z.ltb 0 maxTokens then " (up to " +:+ itoa maxTokens +:+ " output tokens)" else "") +:+ "." +:+ newline
     +:+ (if String.eqb (cm_SystemPrompt req) "" then ""
          else newline +:+ "System prompt:" +:+ newline +:+ indentBlock (truncateForAsk (cm_SystemPrompt req) 1000) +:+ newline)
     +:+ str_concat (map sampling_render (cm_Messages req))).

Definition review_question (serverID text : string) : string :=
  "Send this reply to MCP server " +:+ go_quote serverID +:+ "?" +:+ newline +:+ newline +:+ indentBlock (truncateForAsk text 4000).

Definition samplingStopReason (r : string) : string :=
  if str_mem r ["stop"; "end_turn"; ""] then "endTurn"
  else if str_mem r ["length"; "max_tokens"] then "maxTokens"
  else if String.eqb r "stop_sequence" then "stopSequence" else r.

Definition usage_message (serverID : string) (u : option Usage) (s : samplingState) : string :=
  let u := default Usage_zero u in
  "MCP server " +:+ serverID +:+ " sampled the model: " +:+ itoa (u_In u) +:+ " input, " +:+ itoa (u_Out u)
  +:+ " output tokens (this session: " +:+ itoa (sam_requests s) +:+ " requests, " +:+ itoa (u_In (sam_usage s)) +:+ " input, "
  +:+ itoa (u_Out (sam_usage s)) +:+ " output)".

(** ** A request *)

Fixpoint sampling_messages (i : Z) (ms : list SamplingMessage) : result (list Message) :=
  match ms with
  | [] => inr []
  | m :: ms =>
      if negb (String.eqb (sam_Type m) "text")
      then inl (EText ("host: sampling message " +:+ itoa (i + 1) +:+ " is " +:+ sam_Type m +:+ " content; only text is supported"))
      else if String.eqb (sam_Role m) "user" then on_ok (cons (text_message RoleUser (sam_Text m))) (sampling_messages (i + 1) ms)
      else if String.eqb (sam_Role m) "assistant" then on_ok (cons (text_message RoleAssistant (sam_Text m))) (sampling_messages (i + 1) ms)
      else inl (EText ("host: sampling message " +:+ itoa (i + 1) +:+ " has role " +:+ go_quote (sam_Role m) +:+ ", want user or assistant"))
  end.

Definition sampling_tokens (cfg : SamplingConfig) (req : CreateMessageRequest) : Z :=
  if (0 <? sg_MaxTokens cfg)%Z && ((cm_MaxTokens req <=? 0)%Z || (sg_MaxTokens cfg <? cm_MaxTokens req)%Z)
  then sg_MaxTokens cfg else cm_MaxTokens req.

Definition sampling_request (req : CreateMessageRequest) (msgs : list Message) (maxTokens : Z) : ProviderRequest :=
  {| pr_Instructions := cm_SystemPrompt req; pr_Messages := msgs; pr_Tools := []; pr_Temperature := cm_Temperature req;
     pr_MaxTokens := maxTokens; pr_ToolChoice := ToolChoice_zero; pr_Seed := None; pr_Penalties := None; pr_Guided := None;
     pr_ResponseSchema := "" |}.

Section Sample.
Context {P W : Type}.

Inductive sampling_event :=
| Asked (question : string) (answer : result bool)
| Generated (p : P) (req : ProviderRequest) (answer : result ProviderResponse)
| HostMessage (text : string).

(** [sm_build] is what the registry's builder answers, [sm_model] the model
    of a configuration without connections. *)
Record sampling_deps := {
  sm_cfg : option SamplingConfig;
  sm_always_allow : W -> bool;
  sm_confirm : string -> W -> result bool * W;
  sm_generate : P -> ProviderRequest -> W -> result ProviderResponse * W;
  sm_build : builder P;
  sm_chat : P;
  sm_model : string;
}.

Record sampling_world := { sw_state : samplingState; sw_connections : option (ConnectionRegistry P); sw_world : W }.

Context (d : sampling_deps).

Definition set_world (w : sampling_world) (x : W) : sampling_world :=
  {| sw_state := sw_state w; sw_connections := sw_connections w; sw_world := x |}.

Definition confirm (q : string) : eff sampling_world sampling_event (result bool) := fun w =>
  let '(a, x) := sm_confirm d q (sw_world w) in (a, [Asked q a], set_world w x).

Definition generate (p : P) (req : ProviderRequest) : eff sampling_world sampling_event (result ProviderResponse) := fun w =>
  let '(a, x) := sm_generate d p req (sw_world w) in (a, [Generated p req a], set_world w x).

Definition samplingRunsUnasked : eff sampling_world sampling_event bool := fun w => (sm_always_allow d (sw_world w), [], w).

Definition samplingProvider (cfg : SamplingConfig) : eff sampling_world sampling_event (result (P * string)) := fun w =>
  let keep a r := (a, [], {| sw_state := sw_state w; sw_connections := r; sw_world := sw_world w |}) in
  let name := sg_Connection cfg in
  if negb (String.eqb name "") then
    match sw_connections w with
    | None => keep (inl (EText ("host: sampling connection " +:+ go_quote name +:+ ": no connections are configured"))) None
    | Some r =>
        match Provider_ (sm_build d) r name with
        | (inl err, r) => keep (inl (wrap_error ("host: sampling connection " +:+ go_quote name +:+ ": ") err)) (Some r)
        | (inr p, r) => keep (inr (p, ModelOf r name)) (Some r)
        end
    end
  else match sw_connections w with
       | Some r => keep (inr (sm_chat d, ActiveModel r)) (Some r)
       | None => keep (inr (sm_chat d, sm_model d)) None
       end.

Definition charge_sampling (u : option Usage) : eff sampling_world sampling_event samplingState := fun w =>
  let s := sampling_add (sw_state w) u in
  (s, [], {| sw_state := s; sw_connections := sw_connections w; sw_world := sw_world w |}).

(** A question put to the user: [Some] is the error the server sees. *)
Definition ask_consent (q refusal : string) : eff sampling_world sampling_event (option error) :=
  let* a := confirm q in
  eff_ret (match a with inl err => Some err | inr ok => if ok then None else Some (EText refusal) end).

(** From the call of the model on. *)
Definition sample_reply (serverID : string) (cfg : SamplingConfig) (sent : ProviderRequest) (provider : P) (model : string)
  : eff sampling_world sampling_event (result CreateMessageResult) :=
  let* resp := generate provider sent in
  match resp with
  | inl err => eff_ret (inl (wrap_error "host: sampling: " err))
  | inr resp =>
      let* no := (if sg_ReviewResponse cfg
                  then ask_consent (review_question serverID (r_Text resp)) "the user declined to send the sampled reply"
                  else eff_ret None) in
      match no with
      | Some err => eff_ret (inl err)
      | None =>
          let* total := charge_sampling (r_Usage resp) in
          eff_emit (HostMessage (usage_message serverID (r_Usage resp) total)) ;;;
          eff_ret (inr {| cmr_Model := model; cmr_StopReason := samplingStopReason (r_FinishReason resp);
                          cmr_Role := "assistant"; cmr_Type := "text"; cmr_Text := r_Text resp |})
      end
  end.

Definition sample (serverID : string) (req : CreateMessageRequest) : eff sampling_world sampling_event (result CreateMessageResult) :=
  match sm_cfg d with
  | None => eff_ret (inl (EText "host: sampling is not enabled"))
  | Some cfg =>
      if negb (sg_Enabled cfg) then eff_ret (inl (EText "host: sampling is not enabled"))
      else match sampling_messages 0 (cm_Messages req) with
      | inl err => eff_ret (inl err)
      | inr msgs =>
          let maxTokens := sampling_tokens cfg req in
          let* unasked := samplingRunsUnasked in
          let* no := (if unasked then eff_ret None
                      else ask_consent (renderSamplingAsk serverID req maxTokens) "the user declined the sampling request") in
          match no with
          | Some err => eff_ret (inl err)
          | None =>
              let* pm := samplingProvider cfg in
              match pm with
              | inl err => eff_ret (inl err)
              | inr (provider, model) => sample_reply serverID cfg (sampling_request req msgs maxTokens) provider model
              end
          end
      end
  end.
End Sample.

(** * Properties *)

Section Props.
Context {P W : Type} (d : @sampling_deps P W).

Lemma sampling_messages_spec i ms msgs : sampling_messages i ms = inr msgs ->
  map m_Text msgs = map sam_Text ms /\ Forall (fun m => sam_Type m = "text") ms /\
  Forall2 (fun m s => m_Role m = RoleUser /\ sam_Role s = "user" \/ m_Role m = RoleAssistant /\ sam_Role s = "assistant") msgs ms.
Proof.
  revert i msgs. induction ms as [|m ms IH]; intros i msgs; cbn; [intros [= <-]; by split_and!|].
  destruct (String.eqb_spec (sam_Type m) "text") as [Ht|]; cbn; [|done].
  destruct (String.eqb_spec (sam_Role m) "user") as [Hu|]; [|destruct (String.eqb_spec (sam_Role m) "assistant") as [Ha|]; [|done]];
    destruct (sampling_messages (i + 1) ms) as [err|rest] eqn:Hr; cbn; try done; intros [= <-]; destruct (IH _ _ Hr) as (H1 & H2 & H3);
    cbn; rewrite H1; split_and!; auto.
Qed.

Lemma sampling_tokens_bound cfg req :
  (0 < sg_MaxTokens cfg)%Z -> (0 < sampling_tokens cfg req <= sg_MaxTokens cfg)%Z /\
  ((0 < cm_MaxTokens req)%Z -> (sampling_tokens cfg req <= cm_MaxTokens req)%Z).
Proof.
  intros Hc. unfold sampling_tokens. rewrite (proj2 (Z.ltb_lt _ _) Hc). cbn [andb].
  destruct (Z.leb_spec (cm_MaxTokens req) 0), (Z.ltb_spec (sg_MaxTokens cfg) (cm_MaxTokens req)); cbn [orb]; lia.
Qed.

(** What a request may send: the server's own messages and prompt, no tools,
    and no more tokens than the operator allows. *)
Record fair_request (cfg : SamplingConfig) (req : CreateMessageRequest) (sent : ProviderRequest) : Prop := {
  fq_prompt : pr_Instructions sent = cm_SystemPrompt req;
  fq_texts : map m_Text (pr_Messages sent) = map sam_Text (cm_Messages req);
  fq_tools : pr_Tools sent = [];
  fq_tokens : (0 < sg_MaxTokens cfg)%Z -> (0 < pr_MaxTokens sent <= sg_MaxTokens cfg)%Z;
}.

Lemma consent_run q refusal (w : @sampling_world P W) out evs w' :
  ask_consent d q refusal w = (out, evs, w') ->
  sw_state w' = sw_state w /\ sw_connections w' = sw_connections w /\ exists a, evs = [Asked q a] /\ (out = None <-> a = inr true).
Proof.
  unfold ask_consent, eff_bind, confirm, eff_ret. destruct (sm_confirm d q (sw_world w)) as [a x]. intros [= <- <- <-]. cbn.
  split_and!; [done..|]. exists a. split; [done|]. by destruct a as [err|[|]].
Qed.

Lemma provider_run cfg (w : @sampling_world P W) out evs w' :
  samplingProvider d cfg w = (out, evs, w') -> evs = [] /\ sw_state w' = sw_state w.
Proof.
  unfold samplingProvider. destruct (negb _); [destruct (sw_connections w) as [r|]; [destruct (Provider_ _ r _) as [[?|?] ?]|]|destruct (sw_connections w)];
    intros [= <- <- <-]; by split.
Qed.

(** The question put before a model is called: none when the mode allows all. *)
Definition asked_first (serverID : string) (cfg : SamplingConfig) (req : CreateMessageRequest) (unasked : bool) : list (@sampling_event P) :=
  if unasked then [] else [Asked (renderSamplingAsk serverID req (sampling_tokens cfg req)) (inr true)].

Lemma asked_run serverID cfg req (w : @sampling_world P W) no (evs : list (@sampling_event P)) w' (unasked : bool) :
  (if unasked then eff_ret None
   else ask_consent d (renderSamplingAsk serverID req (sampling_tokens cfg req)) "the user declined the sampling request") w = (no, evs, w') ->
  sw_state w' = sw_state w /\ (forall p sent a, @Generated P p sent a ∉ evs) /\ (no = None -> evs = asked_first serverID cfg req unasked).
Proof.
  unfold asked_first. destruct unasked.
  - intros [= <- <- <-]. split_and!; try done. intros *. apply not_elem_of_nil.
  - intros Ha. destruct (consent_run _ _ _ _ _ _ Ha) as (Hs & _ & a & -> & Hiff). split_and!; [done| |].
    + intros * Hin%list_elem_of_singleton. done.
    + intros Hn. by rewrite (proj1 Hiff Hn).
Qed.

(** And before a reply leaves: none when replies are not reviewed. *)
Definition reviewed (serverID : string) (cfg : SamplingConfig) (text : string) (a : result bool) : list (@sampling_event P) :=
  if sg_ReviewResponse cfg then [Asked (review_question serverID text) a] else [].

(** From the call of the model on: what the server gets, and what happened. *)
Definition reply_outcome (serverID : string) (cfg : SamplingConfig) (sent : ProviderRequest) (p : P) (s s' : samplingState)
    (out : result CreateMessageResult) (evs : list (@sampling_event P)) : Prop :=
  match out with
  | inr r =>
      exists resp, cmr_Text r = r_Text resp /\ s' = sampling_add s (r_Usage resp) /\
        evs = [Generated p sent (inr resp)] ++ reviewed serverID cfg (r_Text resp) (inr true)
              ++ [HostMessage (usage_message serverID (r_Usage resp) s')]
  | inl _ =>
      s' = s /\
      ((exists err, evs = [Generated p sent (inl err)])
       \/ (exists resp b, evs = Generated p sent (inr resp) :: reviewed serverID cfg (r_Text resp) b
              /\ sg_ReviewResponse cfg = true /\ b <> inr true))
  end.

Lemma reply_run serverID cfg sent p model (w : @sampling_world P W) out evs w' :
  sample_reply d serverID cfg sent p model w = (out, evs, w') ->
  reply_outcome serverID cfg sent p (sw_state w) (sw_state w') out evs.
Proof.
  unfold sample_reply, eff_bind at 1, generate. destruct (sm_generate d p sent (sw_world w)) as [[err|resp] x].
  { intros [= <- <- <-]. split; [done|]. left. eauto. }
  set (w1 := set_world w x). unfold eff_bind at 1.
  match goal with |- context [(if sg_ReviewResponse cfg then ?a else ?b) w1] => destruct ((if sg_ReviewResponse cfg then a else b) w1) as [[no ea] w2] eqn:Hc end.
  assert (Ha : sw_state w2 = sw_state w /\ exists b, ea = reviewed serverID cfg (r_Text resp) b /\
             (no = None -> b = inr true) /\ (is_Some no -> sg_ReviewResponse cfg = true /\ b <> inr true)).
  { unfold reviewed. destruct (sg_ReviewResponse cfg).
    - destruct (consent_run _ _ _ _ _ _ Hc) as (Hs & _ & a & -> & Hiff). split; [done|]. exists a. split_and!; [done|by apply Hiff|].
      intros [e ->]. split; [done|]. intros ->. by specialize (proj2 Hiff eq_refl).
    - injection Hc as <- <- <-. split; [done|]. exists (inr true). split_and!; try done. }
  destruct Ha as (Hs & b & -> & Hok & Hno). destruct no as [err|].
  - intros [= <- <- <-]. split; [done|]. right. exists resp, b. rewrite app_nil_r. destruct (Hno ltac:(eauto)). by split_and!.
  - rewrite (Hok eq_refl). unfold charge_sampling, eff_bind, eff_emit, eff_ret. cbn. intros [= <- <- <-]. cbn. exists resp. cbn. rewrite Hs. by split_and!.
Qed.

(** C11: A server gets a completion only with consent.  The model is called
    at most once, only when sampling is on, after the user agreed to the
    question that describes the request unless the mode allows everything, on
    the server's own text and within the token cap; the server gets a reply
    only if the model gave it and, when replies are reviewed, the user agreed
    to send it, and then the totals count it and the host says so; on every
    other path the server gets an error and the totals do not move. *)
Theorem sampling_consent serverID req (w : @sampling_world P W) out evs w' :
  sample d serverID req w = (out, evs, w') ->
  match out with
  | inr r => exists p sent resp, Generated p sent (inr resp) ∈ evs /\ cmr_Text r = r_Text resp /\ sw_state w' = sampling_add (sw_state w) (r_Usage resp)
  | inl _ => sw_state w' = sw_state w
  end /\
  ((forall p sent a, @Generated P p sent a ∉ evs) \/
   (exists cfg p sent after, sm_cfg d = Some cfg /\ sg_Enabled cfg = true /\ fair_request cfg req sent /\
      evs = asked_first serverID cfg req (sm_always_allow d (sw_world w)) ++ after /\
      reply_outcome serverID cfg sent p (sw_state w) (sw_state w') out after)).
Proof.
  unfold sample. destruct (sm_cfg d) as [cfg|] eqn:Hcfg; [|by intros [= <- <- <-]; split; [|left; intros *; apply not_elem_of_nil]].
  destruct (sg_Enabled cfg) eqn:Hen; cbn [negb]; [|by intros [= <- <- <-]; split; [|left; intros *; apply not_elem_of_nil]].
  destruct (sampling_messages 0 (cm_Messages req)) as [err|msgs] eqn:Hms; [by intros [= <- <- <-]; split; [|left; intros *; apply not_elem_of_nil]|].
  set (sent := sampling_request req msgs (sampling_tokens cfg req)).
  assert (Hfair : fair_request cfg req sent).
  { split; cbn; [done|by eapply sampling_messages_spec|done|]. intros Hc. by apply sampling_tokens_bound. }
  unfold samplingRunsUnasked. unfold eff_bind at 1. destruct (eff_bind _ _ w) as [[o1 e1] w1] eqn:H1. intros [= <- <- <-]. cbn [app].
  unfold eff_bind at 1 in H1. match type of H1 with context [(if ?c then ?a else ?b) w] => destruct ((if c then a else b) w) as [[no ea] wa] eqn:Ha end.
  destruct (asked_run _ _ _ _ _ _ _ _ Ha) as [Hsa [Hquiet Hask]]. destruct no as [err|].
  { injection H1 as <- <- <-. rewrite app_nil_r. split; [done|]. by left. }
  unfold eff_bind at 1 in H1. destruct (samplingProvider d cfg wa) as [[pm e2] w2] eqn:Hp. destruct (provider_run _ _ _ _ _ Hp) as [-> Hs2].
  destruct pm as [err|[p model]].
  { injection H1 as <- <- <-. rewrite !app_nil_r. split; [congruence|]. by left. }
  destruct (sample_reply d serverID cfg sent p model w2) as [[o3 e3] w3] eqn:Hr. injection H1 as <- <- <-. cbn [app].
  pose proof (reply_run _ _ _ _ _ _ _ _ _ Hr) as Ho. rewrite Hs2, Hsa in Ho. split.
  - destruct o3 as [err|r]; cbn in Ho; [by destruct Ho|]. destruct Ho as (resp & Ht & Hst & ->). exists p, sent, resp. split_and!; try done.
    apply elem_of_app. right. apply elem_of_cons. by left.
  - right. exists cfg, p, sent, e3. rewrite (Hask eq_refl). by split_and!.
Qed.
End Props.

(** ** Concrete sessions *)

Definition sampling_on (review : bool) : SamplingConfig := {| sg_Enabled := true; sg_Connection := ""; sg_MaxTokens := 100; sg_ReviewResponse := review |}.
Definition hello_request : CreateMessageRequest :=
  {| cm_Messages := [{| sam_Role := "user"; sam_Type := "text"; sam_Text := "hi" |}]; cm_SystemPrompt := ""; cm_MaxTokens := 500; cm_Temperature := None |}.
Definition reply_of (text : string) : ProviderResponse :=
  {| r_Text := text; r_Reasoning := ""; r_ToolCalls := []; r_FinishReason := "stop"; r_Usage := Some {| u_In := 7; u_Out := 3; u_Cached := 0 |} |}.

(** The user's answers are the world, the next one first. *)
Definition session_deps (review : bool) (text : string) : @sampling_deps nat (list bool) :=
  {| sm_cfg := Some (sampling_on review); sm_always_allow := fun _ => false;
     sm_confirm := fun _ w => match w with b :: w => (inr b, w) | [] => (inl (EText "no one to ask"), []) end;
     sm_generate := fun _ _ w => (inr (reply_of text), w);
     sm_build := fun _ => inr 2; sm_chat := 1; sm_model := "m" |}.
Definition session_world (answers : list bool) : @sampling_world nat (list bool) :=
  {| sw_state := sampling_zero; sw_connections := None; sw_world := answers |}.

Lemma sampling_consent_witness :
  let '(out, evs, w') := sample (session_deps true "hello") "srv" hello_request (session_world [true; true]) in
  length evs = 4 /\ sam_requests (sw_state w') = 1%Z /\
  ((forall p sent a, @Generated nat p sent a ∉ evs) \/
   (exists cfg p sent after, sm_cfg (session_deps true "hello") = Some cfg /\ sg_Enabled cfg = true /\ fair_request cfg hello_request sent /\
      evs = asked_first "srv" cfg hello_request false ++ after /\
      reply_outcome "srv" cfg sent p sampling_zero (sw_state w') out after)).
Proof.
  destruct (sample (session_deps true "hello") "srv" hello_request (session_world [true; true])) as [[out evs] w'] eqn:Hs.
  pose proof (sampling_consent _ _ _ _ _ _ _ Hs) as [_ H].
  split; [vm_compute in Hs; injection Hs as _ <- _; reflexivity|]. split; [vm_compute in Hs; injection Hs as _ _ <-; reflexivity|]. exact H.
Defined.

(** [samplingState] says it is the total of what sampling has cost; a reply
    the user declines to send cost its tokens and is not in it. *)
Lemma declined_reply_not_counted :
  let '(out, evs, w') := sample (session_deps true "hello") "srv" hello_request (session_world [true; false]) in
  out = inl (EText "the user declined to send the sampled reply") /\ length evs = 3 /\ sw_state w' = sampling_zero.
Proof. vm_compute. repeat split; reflexivity. Qed.

Fixpoint repeat_text (n : nat) (s : string) : string := match n with O => "" | S n => s +:+ repeat_text n s end.

(** [ReviewResponse] says that nothing the model wrote reaches a server
    unseen; the question shows the first 4000 bytes, and two replies that
    differ after them are asked about in the same words. *)
Definition long_reply (tail : string) : string := repeat_text 100 "0123456789012345678901234567890123456789" +:+ tail.

Lemma long_reply_sent_unseen :
  review_question "srv" (long_reply "A") = review_question "srv" (long_reply "B") /\
  (exists evs w', sample (session_deps true (long_reply "B")) "srv" hello_request (session_world [true; true])
     = (inr {| cmr_Model := "m"; cmr_StopReason := "endTurn"; cmr_Role := "assistant"; cmr_Type := "text"; cmr_Text := long_reply "B" |}, evs, w')).
Proof. split; [vm_compute; reflexivity|]. do 2 eexists. vm_compute. reflexivity. Qed.

(** The cut is at a byte, in the middle of a character. *)
Lemma cut_splits_character : truncateForAsk (byte_of 195 +:+ byte_of 169) 1 = byte_of 195 +:+ newline +:+ (byte_of 226 +:+ byte_of 128 +:+ byte_of 166) +:+ " 1 more character(s)".
Proof. vm_compute. reflexivity. Qed.
