(* ===== verification/Egress.v ===== *)
(** * Egress

    src/ext/exec/egress.go: the proxy that lets sandboxed commands reach named
    hosts.  Which hosts a configuration lists, what a client asks for in
    SOCKS5 or HTTP (the host that is decided and the address that is dialled),
    and the connections under way: a step relation whose steps are the sections
    of [allowed] under the lock, the user's answer between them, and the dials.

    [path.Match] is that of Rules.v.  What package net makes of a host and a
    port, and net/url of the host of a URL, are written out.  [strings.ToLower],
    the text of an IP address and the ASCII form of a host name are parameters,
    as is net/http, which yields requests. *)

From S2P Require Import Prelude GoStr Errors Rules.

Record NetworkConfig := { nc_Allow : list string; nc_Ask : bool }.

(** ** Addresses *)

(** [strings.LastIndexByte]. *)
Fixpoint str_last_byte (c : Ascii.ascii) (s : string) : option nat :=
  match s with
  | EmptyString => None
  | String d s => match str_last_byte c s with Some i => Some (S i) | None => if Ascii.eqb c d then Some 0 else None end
  end.

Definition has_byte (c : Ascii.ascii) (s : string) : bool := match str_index_byte c s with Some _ => true | None => false end.

Definition colon : Ascii.ascii := Ascii.ascii_of_nat 58.
Definition lbracket : Ascii.ascii := Ascii.ascii_of_nat 91.
Definition rbracket : Ascii.ascii := Ascii.ascii_of_nat 93.

(** [net.SplitHostPort]. *)
Definition SplitHostPort (hostport : string) : option (string * string) :=
  match str_last_byte colon hostport with
  | None => None
  | Some i =>
      if has_prefix "[" hostport then
        match str_index_byte rbracket hostport with
        | None => None
        | Some e =>
            if negb (Nat.eqb (S e) i) then None
            else if has_byte lbracket (str_drop 1 hostport) || has_byte rbracket (str_drop (S e) hostport) then None
            else Some (str_take (e - 1) (str_drop 1 hostport), str_drop (S i) hostport)
        end
      else if has_byte colon (str_take i hostport) || has_byte lbracket hostport || has_byte rbracket hostport then None
      else Some (str_take i hostport, str_drop (S i) hostport)
  end.

(** [net.JoinHostPort]. *)
Definition JoinHostPort (host port : string) : string :=
  if has_byte colon host then "[" +:+ host +:+ "]:" +:+ port else host +:+ ":" +:+ port.

(** [URL.Hostname] and [URL.Port], of the URL's host. *)
Definition valid_optional_port (s : string) : bool :=
  match s with EmptyString => true | String c s => Ascii.eqb c colon && str_forall is_dec_digit s end.

Definition cut_port (hostport : string) : string * string :=
  match str_last_byte colon hostport with
  | Some i => if valid_optional_port (str_drop i hostport) then (str_take i hostport, str_drop (S i) hostport) else (hostport, "")
  | None => (hostport, "")
  end.

Definition url_Hostname (hostport : string) : string :=
  let host := fst (cut_port hostport) in
  if has_prefix "[" host && has_suffix "]" host then str_take (String.length host - 2) (str_drop 1 host) else host.

Definition url_Port (hostport : string) : string := snd (cut_port hostport).

(** ** Which hosts are listed *)

Section Hosts.
Context (ToLower : string -> string).

(** [newEgress]: the list as it is kept. *)
Definition kept_allow (cfg : NetworkConfig) : list string := map (fun a => ToLower (trim_space a)) (nc_Allow cfg).

Fixpoint trim_dot (s : string) : string :=
  match s with
  | EmptyString => ""
  | String c s => if ceq c 46 && String.eqb s "" then "" else String c (trim_dot s)
  end.

Definition norm_host (host : string) : string := ToLower (trim_dot host).

Definition entry_lists (host a : string) : bool :=
  String.eqb a host || (has_prefix "*." a && (path_match a host || has_suffix (str_drop 1 a) host)).

Definition listed_host (allow : list string) (host : string) : bool := existsb (entry_lists host) allow.
End Hosts.

(** ** What a client asks for *)

(** What a client asks for: the host that is decided, the address that is
    dialled, if one is, and whether another request may follow on the
    connection. *)
Record want := { wt_host : string; wt_addr : option string; wt_again : bool }.

(** [http]: a request, as net/http reads it. *)
Record http_request := { hq_CONNECT : bool; hq_Host : string; hq_Scheme : string; hq_URLHost : string }.

Definition hostOnly (hostport : string) : string :=
  match SplitHostPort hostport with Some (h, _) => h | None => hostport end.

(** The address [http.Transport] dials for a URL, if it dials one. *)
Definition transport_addr (idna : string -> result string) (scheme urlhost : string) : option string :=
  let default_port := if String.eqb scheme "http" then Some "80" else if String.eqb scheme "https" then Some "443" else None in
  match default_port with
  | Some dp =>
      if String.eqb urlhost "" then None
      else
        let host := match idna (url_Hostname urlhost) with inr a => a | inl _ => url_Hostname urlhost end in
        Some (JoinHostPort host (if String.eqb (url_Port urlhost) "" then dp else url_Port urlhost))
  | None => None
  end.

Definition http_want (idna : string -> result string) (r : http_request) : want :=
  if hq_CONNECT r then {| wt_host := hostOnly (hq_Host r); wt_addr := Some (hq_Host r); wt_again := false |}
  else {| wt_host := url_Hostname (hq_URLHost r); wt_addr := transport_addr idna (hq_Scheme r) (hq_URLHost r); wt_again := true |}.

(** [socks5]: what is written back before the client is given up, or what it
    wants. *)
Inductive socks_request := SocksGone | SocksUnsupported | SocksWants (host : string) (port : Z).

(** [io.ReadFull] of [n] bytes. *)
Definition read_full (n : nat) (s : string) : option (string * string) :=
  if Nat.ltb (String.length s) n then None else Some (str_take n s, str_drop n s).

(** The same when its error is dropped: what is missing stays zero. *)
Definition read_some (n : nat) (s : string) : string * string :=
  match read_full n s with
  | Some r => r
  | None => (s +:+ str_concat (replicate (n - String.length s) (byte_of 0)), "")
  end.

Definition byte_at (n : nat) (s : string) : nat := match String.get n s with Some c => code c | None => 0 end.

(** [IPString] is [net.IP.String]. *)
Definition socks_address (IPString : string -> string) (kind : nat) (s : string) : option (string * string) :=
  if Nat.eqb kind 1 then let '(ip, s) := read_some 4 s in Some (IPString ip, s)
  else if Nat.eqb kind 4 then let '(ip, s) := read_some 16 s in Some (IPString ip, s)
  else if Nat.eqb kind 3 then
    match s with
    | EmptyString => Some ("", "")
    | String n s => Some (read_some (code n) s)
    end
  else None.

Definition socks5 (IPString : string -> string) (s : string) : socks_request :=
  match read_full 2 s with
  | None => SocksGone
  | Some (head, s) =>
      match read_full (byte_at 1 head) s with
      | None => SocksGone
      | Some (_, s) =>
          match read_full 4 s with
          | None => SocksUnsupported
          | Some (req, s) =>
              if negb (Nat.eqb (byte_at 1 req) 1) then SocksUnsupported
              else match socks_address IPString (byte_at 3 req) s with
                   | None => SocksGone
                   | Some (host, s) =>
                       match read_full 2 s with
                       | None => SocksGone
                       | Some (p, _) => SocksWants host (Z.of_nat (byte_at 0 p) * 256 + Z.of_nat (byte_at 1 p))
                       end
                   end
          end
      end
  end.

Definition socks_want (host : string) (port : Z) : want :=
  {| wt_host := host; wt_addr := Some (JoinHostPort host (itoa port)); wt_again := false |}.

(** [handle]: the first byte a client sends says which of the two serves it;
    an HTTP request is what net/http reads. *)
Inductive first_want (IPString : string -> string) (idna : string -> result string) : want -> Prop :=
| fw_socks s host port :
    has_prefix (byte_of 5) s = true -> socks5 IPString s = SocksWants host port -> first_want IPString idna (socks_want host port)
| fw_http r : first_want IPString idna (http_want idna r).

(** ** The connections *)

Section Connections.
Context (ToLower : string -> string) (IPString : string -> string) (idna : string -> result string).

Inductive proxy_event :=
| EAsk (host : string) (answer : result bool)
| EBlocked (host : string)
| ERefused (w : want)
| EDial (w : want).

(** A connection: accepted, between two HTTP requests, or with a request
    before, in the middle of and after [allowed]. *)
Inductive client_phase := Idle | Serving | Checking (w : want) | Undecided (w : want) (asker announce : bool) | Permitted (w : want) | Closed.

Record egress := {
  eg_allow : list string;
  eg_ask : bool;
  eg_asker : bool;
  eg_announce : bool;
  eg_decided : gmap string bool;
  eg_clients : gmap nat client_phase;
  eg_log : list proxy_event;
}.

Definition newEgress (cfg : NetworkConfig) : egress :=
  {| eg_allow := kept_allow ToLower cfg; eg_ask := nc_Ask cfg; eg_asker := false; eg_announce := false;
     eg_decided := ∅; eg_clients := ∅; eg_log := [] |}.

(** [allowed] up to the question: the list, then an earlier answer. *)
Definition allowed_now (e : egress) (host : string) : option bool :=
  if listed_host (eg_allow e) (norm_host ToLower host) then Some true else eg_decided e !! norm_host ToLower host.

(** The question, if it is put: its answer, and what is logged. *)
Definition ask_about (e : egress) (asker : bool) (host : string) (answer : result bool) : bool * list proxy_event :=
  if eg_ask e && asker then (match answer with inr ok => ok | inl _ => false end, [EAsk host answer]) else (false, []).

Definition set_client (e : egress) (c : nat) (ph : client_phase) (log : list proxy_event) : egress :=
  {| eg_allow := eg_allow e; eg_ask := eg_ask e; eg_asker := eg_asker e; eg_announce := eg_announce e;
     eg_decided := eg_decided e; eg_clients := <[c := ph]> (eg_clients e); eg_log := eg_log e ++ log |}.

Definition outcome_of_check (w : want) (ok : bool) : client_phase * list proxy_event :=
  if ok then (Permitted w, []) else (Closed, [ERefused w]).

(** The first section; what can ask and tell is read in it. *)
Definition check_client (e : egress) (c : nat) (w : want) : egress :=
  match allowed_now e (wt_host w) with
  | Some ok => set_client e c (outcome_of_check w ok).1 (outcome_of_check w ok).2
  | None => set_client e c (Undecided w (eg_asker e) (eg_announce e)) []
  end.

(** The question and the second section. *)
Definition decide_client (e : egress) (c : nat) (w : want) (asker announce : bool) (answer : result bool) : egress :=
  let host := norm_host ToLower (wt_host w) in
  let '(ok, asked) := ask_about e asker host answer in
  let blocked := if negb ok && announce then [EBlocked host] else [] in
  let e := {| eg_allow := eg_allow e; eg_ask := eg_ask e; eg_asker := eg_asker e; eg_announce := eg_announce e;
              eg_decided := <[host := ok]> (eg_decided e); eg_clients := eg_clients e; eg_log := eg_log e |} in
  set_client e c (outcome_of_check w ok).1 (asked ++ blocked ++ (outcome_of_check w ok).2).

Definition set_asker (e : egress) (asker announce : bool) : egress :=
  {| eg_allow := eg_allow e; eg_ask := eg_ask e; eg_asker := asker; eg_announce := announce;
     eg_decided := eg_decided e; eg_clients := eg_clients e; eg_log := eg_log e |}.

Inductive egress_step : egress -> egress -> Prop :=
| eg_accept e c : eg_clients e !! c = None -> egress_step e (set_client e c Idle [])
| eg_request e c w : eg_clients e !! c = Some Idle -> first_want IPString idna w -> egress_step e (set_client e c (Checking w) [])
| eg_next e c r : eg_clients e !! c = Some Serving -> egress_step e (set_client e c (Checking (http_want idna r)) [])
| eg_check e c w : eg_clients e !! c = Some (Checking w) -> egress_step e (check_client e c w)
| eg_answer e c w asker announce a : eg_clients e !! c = Some (Undecided w asker announce) ->
    egress_step e (decide_client e c w asker announce a)
| eg_dial e c w addr : eg_clients e !! c = Some (Permitted w) -> wt_addr w = Some addr ->
    egress_step e (set_client e c (if wt_again w then Serving else Closed) [EDial w])
| eg_close e c ph : eg_clients e !! c = Some ph -> egress_step e (set_client e c Closed [])
| eg_attach e asker announce : egress_step e (set_asker e asker announce).
End Connections.

(** * Properties *)

(** ** The host a dial reaches *)

(** The host that [net.Dialer] takes from the address it is given. *)
Definition dialled_host (w : want) : option string :=
  match wt_addr w with
  | Some addr => match SplitHostPort addr with Some (h, _) => Some h | None => None end
  | None => None
  end.

Lemma has_byte_app c s t : has_byte c (s +:+ t) = has_byte c s || has_byte c t.
Proof.
  unfold has_byte. induction s as [|d s IH]; [done|]. rewrite app_cons. cbn [str_index_byte]. destruct (Ascii.eqb c d); [done|].
  destruct (str_index_byte c (s +:+ t)), (str_index_byte c s); done.
Qed.

Lemma last_byte_none c s : has_byte c s = false -> str_last_byte c s = None.
Proof.
  unfold has_byte. induction s as [|d s IH]; [done|]. cbn [str_index_byte str_last_byte]. destruct (Ascii.eqb c d); [done|].
  destruct (str_index_byte c s); [done|]. intros _. by rewrite IH.
Qed.

Lemma last_byte_app c s t : has_byte c t = false -> str_last_byte c (s +:+ String c t) = Some (String.length s).
Proof.
  intros Ht. induction s as [|d s IH]; [|rewrite app_cons; cbn [str_last_byte String.length]; by rewrite IH].
  rewrite app_empty_l. cbn [str_last_byte]. by rewrite last_byte_none, Ascii.eqb_refl.
Qed.

Lemma index_byte_split c s i : str_index_byte c s = Some i -> s = str_take i s +:+ String c (str_drop (S i) s).
Proof.
  revert i. induction s as [|d s IH]; intros i; cbn [str_index_byte]; [done|]. destruct (Ascii.eqb_spec c d) as [->|_]; [by intros [= <-]|].
  destruct (str_index_byte c s) as [j|]; [|done]. intros [= <-]. cbn [fmap option_fmap option_map str_take str_drop]. rewrite app_cons. by rewrite <- IH.
Qed.

Lemma digits_no_colon s : str_forall is_dec_digit s = true -> has_byte colon s = false.
Proof.
  unfold has_byte. induction s as [|c s IH]; [done|]. cbn [str_forall str_index_byte]. rewrite andb_true_iff. intros [Hc Hs]. specialize (IH Hs).
  destruct (Ascii.eqb_spec colon c) as [<-|_]; [by vm_compute in Hc|]. by destruct (str_index_byte colon s).
Qed.

Lemma itoa_no_colon z : (0 <= z)%Z -> has_byte colon (itoa z) = false.
Proof. intros H. destruct z as [|n|n]; [done| |lia]. apply digits_no_colon. exact (pretty_N_digits (Npos n)). Qed.

Lemma url_Port_no_colon hostport : has_byte colon (url_Port hostport) = false.
Proof.
  unfold url_Port, cut_port. destruct (str_last_byte colon hostport) as [i|]; [|done]. destruct (valid_optional_port _) eqn:Hv; [|done]. cbn [snd].
  replace (S i) with (i + 1) by lia. rewrite <- drop_drop_str. destruct (str_drop i hostport) as [|c s]; [done|]. cbn in Hv |- *.
  apply andb_true_iff in Hv as [_ Hv]. replace (str_drop 0 s) with s by (by destruct s). by apply digits_no_colon.
Qed.

(** What is dialled for a joined address is the host, or the host without the
    brackets around it. *)
Lemma split_joined host port h q :
  has_byte colon port = false -> SplitHostPort (JoinHostPort host port) = Some (h, q) -> host = h \/ host = "[" +:+ h +:+ "]".
Proof.
  intros Hp. unfold JoinHostPort, SplitHostPort. destruct (has_byte colon host) eqn:Hc.
  - assert ("[" +:+ host +:+ "]:" +:+ port = ("[" +:+ host +:+ "]") +:+ String colon port) as -> by (by rewrite !app_assoc_str).
    rewrite last_byte_app by done. rewrite app_assoc_str, has_prefix_app. destruct (str_index_byte rbracket _) as [e|]; [|done].
    destruct (Nat.eqb_spec (S e) (String.length ("[" +:+ host +:+ "]"))) as [He|]; [|done]. cbn [negb]. destruct (_ || _); [done|].
    intros [= <- _]. left. rewrite !length_app_str in He. cbn [String.length] in He.
    rewrite app_empty_l, app_assoc_str.
    replace (e - 1) with (String.length host) by lia. symmetry. apply take_app_str.
  - assert (host +:+ ":" +:+ port = host +:+ String colon port) as -> by done. rewrite last_byte_app, take_app_str by done.
    destruct (has_prefix "[" _) eqn:Hb; [|rewrite Hc; destruct (_ || _); [done|]; intros [= <- _]; by left].
    destruct (str_index_byte rbracket _) as [e|] eqn:Hi; [|done]. destruct (Nat.eqb_spec (S e) (String.length host)) as [He|]; [|done].
    cbn [negb]. destruct (_ || _); [done|]. intros [= <- _]. right. apply index_byte_split in Hi.
    destruct host as [|b host]; [done|]. apply has_prefix_spec in Hb as [t Ht].
    change ("[" +:+ t) with (String lbracket ("" +:+ t)) in Ht. rewrite app_cons in Ht. injection Ht as -> _.
    cbn [String.length] in He. injection He as He. destruct e as [|e]; [by rewrite app_cons in Hi|].
    rewrite app_cons in Hi. cbn [str_take str_drop] in Hi. rewrite app_cons in Hi. injection Hi as Hi.
    rewrite !app_cons, app_empty_l. cbv iota. replace (S e - 1) with e by lia.
    change (host +:+ String colon port = str_take e (host +:+ String colon port) +:+ String rbracket (str_drop (S e) (host +:+ String colon port))) in Hi.
    rewrite take_app_le_str in Hi |- * by lia. rewrite drop_app_le_str in Hi by lia. rewrite (drop_ge_str (S e)), app_empty_l in Hi by lia.
    destruct (app_inj_str host (str_take e host +:+ "]") (String colon port) (String colon port)) as [Hh _].
    + rewrite length_app_str, length_take_str. cbn. lia.
    + rewrite Hi at 1. by rewrite app_assoc_str.
    + change lbracket with (Ascii.Ascii true true false true true false true false). f_equal. exact Hh.
Qed.

(** The address a client's request has dialled is for the host that was
    decided, or for its ASCII form; of one in brackets, for what they hold. *)
Definition names_same (idna : string -> result string) (decided dialled : string) : Prop :=
  exists name, (name = decided \/ idna decided = inr name) /\ (name = dialled \/ name = "[" +:+ dialled +:+ "]").

Lemma socks_port_range IPString s host port : socks5 IPString s = SocksWants host port -> (0 <= port)%Z.
Proof.
  unfold socks5. destruct (read_full 2 s) as [[head s1]|]; [|done]. destruct (read_full _ s1) as [[? s2]|]; [|done].
  destruct (read_full 4 s2) as [[req s3]|]; [|done]. destruct (negb _); [done|]. destruct (socks_address _ _ _) as [[h s4]|]; [|done].
  destruct (read_full 2 s4) as [[p ?]|]; [|done]. intros [= _ <-]. lia.
Qed.

Lemma wants_same IPString idna w h : first_want IPString idna w -> dialled_host w = Some h -> names_same idna (wt_host w) h.
Proof.
  unfold dialled_host. intros [s host port _ Hs|r]; cbn [wt_addr socks_want wt_host].
  - destruct (SplitHostPort _) as [[h' q]|] eqn:E; [|done]. intros [= ->]. exists host. split; [by left|].
    apply split_joined in E; [naive_solver|]. by eapply itoa_no_colon, socks_port_range.
  - unfold http_want. destruct (hq_CONNECT r); cbn [wt_addr wt_host].
    { unfold hostOnly. destruct (SplitHostPort _) as [[h' q]|]; [|done]. intros [= ->]. exists h. split; by left. }
    unfold transport_addr. destruct (if String.eqb _ "http" then _ else _) as [dp|] eqn:Hdp; [|done]. destruct (String.eqb _ ""); [done|].
    destruct (SplitHostPort _) as [[h' q]|] eqn:E; [|done]. intros [= ->]. apply split_joined in E.
    + eexists. split; [|destruct E as [E|E]; [left|right]; exact E]. destruct (idna _) as [err|a]; [by left|by right].
    + destruct (String.eqb _ ""); [|apply url_Port_no_colon].
      destruct (String.eqb (hq_Scheme r) "http"); [by injection Hdp as <-|]. destruct (String.eqb (hq_Scheme r) "https"); [by injection Hdp as <-|done].
Qed.

(** ** Only permitted hosts are dialled *)

Section Safety.
Context (ToLower : string -> string) (IPString : string -> string) (idna : string -> result string).

Abbreviation proxy_step := (egress_step ToLower IPString idna).

(** An entry names the host, or is a pattern for it, or for all below a
    domain. *)
Definition entry_names (host a : string) : Prop :=
  a = host \/ exists domain, a = "*." +:+ domain /\ (path_match a host = true \/ exists sub, host = sub +:+ "." +:+ domain).

Definition names_host (cfg : NetworkConfig) (host : string) : Prop :=
  exists a, a ∈ nc_Allow cfg /\ entry_names (norm_host ToLower host) (ToLower (trim_space a)).

Lemma has_suffix_spec p s : has_suffix p s = true <-> exists t, s = t +:+ p.
Proof.
  split; [|intros [t ->]; apply has_suffix_self]. unfold has_suffix. rewrite andb_true_iff, String.eqb_eq. intros [_ H].
  exists (str_take (String.length s - String.length p) s). rewrite <- H at 2. by rewrite take_drop_str.
Qed.

Lemma entry_lists_spec host a : entry_lists host a = true <-> entry_names host a.
Proof.
  unfold entry_lists, entry_names. rewrite orb_true_iff, String.eqb_eq, andb_true_iff, orb_true_iff, has_prefix_spec, has_suffix_spec.
  assert (forall d, str_drop 1 ("*." +:+ d) = "." +:+ d) as Hd by (by intros).
  split; (intros [H|H]; [by left|right]).
  - destruct H as [[d ->] H]. exists d. rewrite Hd in H. by split.
  - destruct H as (d & -> & H). rewrite Hd. split; [by exists d|done].
Qed.

Lemma listed_host_spec cfg host : listed_host (kept_allow ToLower cfg) (norm_host ToLower host) = true <-> names_host cfg host.
Proof.
  unfold listed_host, kept_allow, names_host. rewrite existsb_exists. setoid_rewrite in_map_iff. setoid_rewrite list_elem_of_In. split.
  - intros (b & (a & <- & Ha) & H). exists a. split; [done|]. by apply entry_lists_spec.
  - intros (a & Ha & H). exists (ToLower (trim_space a)). split; [by exists a|]. by apply entry_lists_spec.
Qed.

(** A host is open: listed, or the user said yes to it. *)
Definition open_host (cfg : NetworkConfig) (log : list proxy_event) (host : string) : Prop :=
  names_host cfg host \/ (nc_Ask cfg = true /\ EAsk (norm_host ToLower host) (inr true) ∈ log).

(** Every dial is of a host that was open before it. *)
Definition dials_open (cfg : NetworkConfig) (log : list proxy_event) : Prop :=
  forall before w after, log = before ++ EDial w :: after -> first_want IPString idna w /\ open_host cfg before (wt_host w).

Definition phase_want (ph : client_phase) : option want :=
  match ph with Checking w | Undecided w _ _ | Permitted w => Some w | _ => None end.

Record egress_inv (cfg : NetworkConfig) (e : egress) : Prop := {
  vi_allow : eg_allow e = kept_allow ToLower cfg;
  vi_ask : eg_ask e = nc_Ask cfg;
  vi_yes : forall h, eg_decided e !! h = Some true -> nc_Ask cfg = true /\ EAsk h (inr true) ∈ eg_log e;
  vi_wants : forall c ph w, eg_clients e !! c = Some ph -> phase_want ph = Some w -> first_want IPString idna w;
  vi_permitted : forall c w, eg_clients e !! c = Some (Permitted w) -> open_host cfg (eg_log e) (wt_host w);
  vi_dials : dials_open cfg (eg_log e);
}.

Lemma open_host_mono cfg log log' h : open_host cfg log h -> open_host cfg (log ++ log') h.
Proof. intros [?|[? ?]]; [by left|right; split; [done|]]. apply elem_of_app. by left. Qed.

Lemma dials_open_app cfg log log' :
  dials_open cfg log -> (forall w, EDial w ∈ log' -> first_want IPString idna w /\ open_host cfg log (wt_host w)) -> dials_open cfg (log ++ log').
Proof.
  intros H H' before w after [(k & -> & Hk)|(k & -> & ->)]%app_eq_inv.
  - destruct k as [|x k]; cbn in Hk.
    + rewrite app_nil_r in H'. apply H'. rewrite <- Hk. set_solver.
    + injection Hk as <- _. by eapply H.
  - destruct (H' w) as [Hw Ho]; [set_solver|]. split; [done|]. by apply open_host_mono.
Qed.

(** A step of one client that does not change what is decided. *)
Lemma set_client_inv cfg e c ph log :
  egress_inv cfg e -> (forall w, phase_want ph = Some w -> first_want IPString idna w) ->
  (forall w, ph = Permitted w -> open_host cfg (eg_log e ++ log) (wt_host w)) ->
  (forall w, EDial w ∈ log -> first_want IPString idna w /\ open_host cfg (eg_log e) (wt_host w)) -> egress_inv cfg (set_client e c ph log).
Proof.
  intros [Ha Hk Hy Hw Hp Hd] Hpw Hph Hlog. split; cbn; auto.
  - intros h Hh. destruct (Hy h Hh). split; [done|]. apply elem_of_app. by left.
  - intros c' ph' w. destruct (decide (c' = c)) as [->|]; [rewrite lookup_insert_eq; intros [= <-]; auto|].
    rewrite lookup_insert_ne by done. by apply Hw.
  - intros c' w. destruct (decide (c' = c)) as [->|]; [rewrite lookup_insert_eq; intros [= ->]; auto|].
    rewrite lookup_insert_ne by done. intros H. by apply open_host_mono, (Hp c').
  - by apply dials_open_app.
Qed.

Lemma outcome_quiet w ok w' : EDial w' ∉ (outcome_of_check w ok).2.
Proof. destruct ok; cbn; [apply not_elem_of_nil|]. by intros ?%list_elem_of_singleton. Qed.

Lemma outcome_want w ok w' : phase_want (outcome_of_check w ok).1 = Some w' -> w' = w.
Proof. destruct ok; cbn; [|done]. by intros [= ->]. Qed.

(** The decision of the second section. *)
Lemma decided_inv cfg e host ok asked :
  egress_inv cfg e -> (ok = true -> nc_Ask cfg = true /\ EAsk host (inr true) ∈ asked) -> (forall w, EDial w ∉ asked) ->
  egress_inv cfg {| eg_allow := eg_allow e; eg_ask := eg_ask e; eg_asker := eg_asker e; eg_announce := eg_announce e;
                    eg_decided := <[host := ok]> (eg_decided e); eg_clients := eg_clients e; eg_log := eg_log e ++ asked |}.
Proof.
  intros [Ha Hk Hy Hw Hp Hd] Hyes Hquiet. split; cbn; auto.
  - intros h. destruct (decide (h = host)) as [->|].
    + rewrite lookup_insert_eq. intros [= ->]. destruct (Hyes eq_refl). split; [done|]. apply elem_of_app. by right.
    + rewrite lookup_insert_ne by done. intros Hh. destruct (Hy h Hh). split; [done|]. apply elem_of_app. by left.
  - intros c w H. by apply open_host_mono, (Hp c).
  - apply dials_open_app; [done|]. intros w H. by destruct (Hquiet w).
Qed.

Lemma ask_about_yes e asker host a ok asked :
  ask_about e asker host a = (ok, asked) ->
  (ok = true -> eg_ask e = true /\ EAsk host (inr true) ∈ asked) /\ forall w, EDial w ∉ asked.
Proof.
  unfold ask_about. destruct (eg_ask e && asker) eqn:E; intros [= <- <-].
  - apply andb_true_iff in E as [-> _]. split; [|by intros w ?%list_elem_of_singleton]. destruct a as [?|[|]]; try done. intros _. split; [done|].
    by apply list_elem_of_singleton.
  - split; [done|]. intros w. apply not_elem_of_nil.
Qed.

Lemma decide_client_inv cfg e c w asker announce a :
  egress_inv cfg e -> first_want IPString idna w -> egress_inv cfg (decide_client ToLower e c w asker announce a).
Proof.
  intros Hinv Hw. unfold decide_client. destruct (ask_about e asker (norm_host ToLower (wt_host w)) a) as [ok asked] eqn:Hask.
  apply ask_about_yes in Hask as [Hyes Hquiet]. rewrite (vi_ask _ _ Hinv) in Hyes.
  pose proof (decided_inv cfg e (norm_host ToLower (wt_host w)) ok asked Hinv Hyes Hquiet) as H.
  eapply (set_client_inv _ _ c (outcome_of_check w ok).1 ((if negb ok && announce then [EBlocked (norm_host ToLower (wt_host w))] else []) ++ (outcome_of_check w ok).2)) in H.
  - unfold set_client in H |- *. cbn in H |- *. by rewrite <- app_assoc in H.
  - by intros w' ->%outcome_want.
  - intros w' Hv. destruct ok; [|done]. injection Hv as <-. right. destruct (Hyes eq_refl). split; [done|]. cbn. set_solver.
  - intros w' [Hb|Hv]%elem_of_app; [|by apply outcome_quiet in Hv]. destruct (_ && _); [by apply list_elem_of_singleton in Hb|by apply not_elem_of_nil in Hb].
Qed.

Lemma check_client_inv cfg e c w : egress_inv cfg e -> first_want IPString idna w -> egress_inv cfg (check_client ToLower e c w).
Proof.
  intros Hinv Hw. unfold check_client. destruct (allowed_now ToLower e (wt_host w)) as [ok|] eqn:E.
  - apply set_client_inv; [done|by intros w' ->%outcome_want| |intros w' Hv; by apply outcome_quiet in Hv].
    intros w' Hv. destruct ok; [|done]. injection Hv as <-. apply open_host_mono. revert E. unfold allowed_now. rewrite (vi_allow _ _ Hinv).
    destruct (listed_host _ _) eqn:Hl; [left; by apply listed_host_spec|]. intros H. right. by apply (vi_yes _ _ Hinv).
  - apply set_client_inv; [done|by intros w' [= <-]|done|intros w' []%not_elem_of_nil].
Qed.

Lemma egress_inv_step cfg e e' : egress_inv cfg e -> proxy_step e e' -> egress_inv cfg e'.
Proof.
  intros Hinv Hst. destruct Hst as [e c _|e c w _ Hw|e c r _|e c w Hc|e c w asker announce a Hc|e c w addr Hc _|e c ph _|e asker announce].
  - apply set_client_inv; [done..|]. intros w []%not_elem_of_nil.
  - apply set_client_inv; [done|by intros w' [= <-]|done|]. intros w' []%not_elem_of_nil.
  - apply set_client_inv; [done|intros w' [= <-]; constructor|done|]. intros w' []%not_elem_of_nil.
  - apply check_client_inv; [done|]. by eapply vi_wants.
  - apply decide_client_inv; [done|]. by eapply vi_wants.
  - apply set_client_inv; [done|by destruct (wt_again w)..|]. intros w' Hw%list_elem_of_singleton. injection Hw as ->.
    split; [by eapply vi_wants|by eapply vi_permitted].
  - apply set_client_inv; [done..|]. intros w []%not_elem_of_nil.
  - by destruct Hinv.
Qed.

(** C12: Every connection the proxy makes is to a host the configuration lists
    or the user allowed, over any clients, SOCKS and HTTP requests, answers and
    interleavings of their sections.  Whenever an address is dialled, the host
    that the dialer takes from it is, as it stands or in its ASCII form, the
    host the client named, or that name less the brackets around it; and the
    host the client named, in lower case and less its final dot, is named by
    an entry of the list, or the configuration lets the user be asked and the
    user had said yes to it before.  A host is remembered as allowed only
    after a yes. *)
Theorem dials_permitted cfg e :
  star proxy_step (newEgress ToLower cfg) e ->
  (forall before w after h, eg_log e = before ++ EDial w :: after -> dialled_host w = Some h ->
     exists host, names_same idna host h /\
       (names_host cfg host \/ nc_Ask cfg = true /\ EAsk (norm_host ToLower host) (inr true) ∈ before)) /\
  (forall h, eg_decided e !! h = Some true -> nc_Ask cfg = true /\ EAsk h (inr true) ∈ eg_log e).
Proof.
  intros Hs. assert (Hinv : egress_inv cfg e).
  { eapply (star_invariant proxy_step); [intros; by eapply egress_inv_step|exact Hs|].
    split; cbn; try done; intros *; try rewrite lookup_empty; try done. by intros b w a []%app_cons_not_nil. }
  split; [|apply (vi_yes _ _ Hinv)]. intros before w after h Hlog Hh. destruct (vi_dials _ _ Hinv _ _ _ Hlog) as [Hw Ho].
  exists (wt_host w). split; [by eapply wants_same|exact Ho].
Qed.
End Safety.

(** ** SOCKS5 *)

Lemma read_full_app a b n : String.length a = n -> read_full n (a +:+ b) = Some (a, b).
Proof.
  intros <-. unfold read_full. rewrite length_app_str, (proj2 (Nat.ltb_ge _ _)) by lia. by rewrite take_app_str, drop_app_str.
Qed.

Lemma read_some_app a b n : String.length a = n -> read_some n (a +:+ b) = (a, b).
Proof. intros H. unfold read_some. by rewrite read_full_app. Qed.

(** What a client sends: the methods it offers, then a CONNECT to a name. *)
Definition socks_bytes (methods host : string) (port : nat) : string :=
  (byte_of 5 +:+ byte_of (String.length methods)) +:+ methods +:+ (byte_of 5 +:+ byte_of 1 +:+ byte_of 0 +:+ byte_of 3)
  +:+ byte_of (String.length host) +:+ host +:+ (byte_of (port / 256) +:+ byte_of (port mod 256)).

Lemma code_byte n : n < 256 -> code (Ascii.ascii_of_nat n) = n.
Proof. apply Ascii.nat_ascii_embedding. Qed.

(** A SOCKS5 request for a host name is read back: whatever methods the
    client offers, the host that is decided, and the port that is dialled, are
    the ones it sent. *)
Theorem socks_roundtrip IPString methods host port rest :
  String.length methods < 256 -> String.length host < 256 -> (Z.of_nat port < 65536)%Z ->
  socks5 IPString (socks_bytes methods host port +:+ rest) = SocksWants host (Z.of_nat port).
Proof.
  intros Hm Hh Hp. unfold socks_bytes, socks5. rewrite !app_assoc_str.
  rewrite <- (app_assoc_str (byte_of 5) (byte_of (String.length methods))), read_full_app by done.
  change (byte_at 1 (byte_of 5 +:+ byte_of (String.length methods))) with (code (Ascii.ascii_of_nat (String.length methods))).
  rewrite code_byte, read_full_app by done.
  rewrite <- (app_assoc_str (byte_of 0)), <- (app_assoc_str (byte_of 1)), <- (app_assoc_str (byte_of 5)), read_full_app by done.
  change (byte_at 1 (byte_of 5 +:+ byte_of 1 +:+ byte_of 0 +:+ byte_of 3)) with 1. cbn [Nat.eqb negb].
  change (byte_at 3 (byte_of 5 +:+ byte_of 1 +:+ byte_of 0 +:+ byte_of 3)) with 3. unfold socks_address. cbn [Nat.eqb].
  change (byte_of (String.length host) +:+ ?s) with (String (Ascii.ascii_of_nat (String.length host)) s). cbv iota beta.
  rewrite code_byte, read_some_app by done. rewrite <- (app_assoc_str (byte_of (port / 256))), read_full_app by done.
  change (byte_at 0 (byte_of (port / 256) +:+ byte_of (port mod 256))) with (code (Ascii.ascii_of_nat (port / 256))).
  change (byte_at 1 (byte_of (port / 256) +:+ byte_of (port mod 256))) with (code (Ascii.ascii_of_nat (port mod 256))).
  rewrite !code_byte; [|apply Nat.mod_upper_bound; lia|apply Nat.Div0.div_lt_upper_bound; lia].
  f_equal. pose proof (Nat.div_mod_eq port 256). lia.
Qed.

Lemma socks_roundtrip_witness :
  String.length (byte_of 0) < 256 /\ String.length "example.com" < 256 /\ (Z.of_nat 443 < 65536)%Z /\
  socks5 (fun s => s) (socks_bytes (byte_of 0) "example.com" 443 +:+ "hello") = SocksWants "example.com" 443.
Proof.
  split; [cbn; lia|]. split; [cbn; lia|]. split; [lia|].
  apply (socks_roundtrip (fun s => s) (byte_of 0) "example.com" 443 "hello"); [cbn; lia|cbn; lia|lia].
Defined.

(** ** A proxy in use *)

Definition toy_config (ask : bool) : NetworkConfig := {| nc_Allow := ["Proxy.golang.org"; "*.npmjs.org"]; nc_Ask := ask |}.
Definition toy_ip (s : string) : string := s.
Definition toy_idna (s : string) : result string := inr (str_lower s).

Abbreviation toy_step := (egress_step str_lower toy_ip toy_idna).

(** A CONNECT to the host's port 443. *)
Definition connect_to (host : string) : http_request :=
  {| hq_CONNECT := true; hq_Host := host +:+ ":443"; hq_Scheme := ""; hq_URLHost := host +:+ ":443" |}.
Definition want_of (host : string) : want := http_want toy_idna (connect_to host).

(** A client's request, up to its dial or its refusal. *)
Definition opened (e : egress) (c : nat) (host : string) : egress :=
  set_client (set_client e c Idle []) c (Checking (want_of host)) [].
Definition checked (e : egress) (c : nat) (host : string) : egress := check_client str_lower (opened e c host) c (want_of host).

Lemma checked_run e c host : eg_clients e !! c = None -> star toy_step e (checked e c host).
Proof.
  intros Hc. unfold checked, opened. eapply star_step; [by apply eg_accept|].
  eapply star_step; [apply eg_request; [apply lookup_insert_eq|apply fw_http]|]. apply star_one, eg_check. apply lookup_insert_eq.
Qed.

Definition listed_dial : egress :=
  set_client (checked (newEgress str_lower (toy_config false)) 0 "registry.NPMJS.org.") 0 Closed [EDial (want_of "registry.NPMJS.org.")].

Lemma listed_dial_run : star toy_step (newEgress str_lower (toy_config false)) listed_dial.
Proof.
  eapply star_trans; [apply (checked_run _ 0 "registry.NPMJS.org."); vm_compute; reflexivity|]. apply star_one.
  apply (eg_dial _ _ _ _ 0 (want_of "registry.NPMJS.org.") "registry.NPMJS.org.:443"); vm_compute; reflexivity.
Qed.

Lemma dials_permitted_witness :
  eg_log listed_dial = [] ++ EDial (want_of "registry.NPMJS.org.") :: [] /\
  dialled_host (want_of "registry.NPMJS.org.") = Some "registry.NPMJS.org." /\
  exists host, names_same toy_idna host "registry.NPMJS.org." /\
    (names_host str_lower (toy_config false) host
     \/ nc_Ask (toy_config false) = true /\ EAsk (norm_host str_lower host) (inr true) ∈ []).
Proof.
  assert (Hlog : eg_log listed_dial = [] ++ EDial (want_of "registry.NPMJS.org.") :: []) by (vm_compute; reflexivity).
  assert (Hh : dialled_host (want_of "registry.NPMJS.org.") = Some "registry.NPMJS.org.") by (vm_compute; reflexivity).
  split; [exact Hlog|]. split; [exact Hh|].
  exact (proj1 (dials_permitted str_lower toy_ip toy_idna (toy_config false) listed_dial listed_dial_run) _ _ _ _ Hlog Hh).
Defined.

(** A plain request through a URL: its port, or that of the scheme, and the
    ASCII form of its host. *)
Example transport_addrs :
  transport_addr toy_idna "http" "Example.com" = Some "example.com:80"
  /\ transport_addr toy_idna "https" "[::1]:8443" = Some "[::1]:8443"
  /\ transport_addr toy_idna "ftp" "example.com" = None
  /\ transport_addr toy_idna "" "" = None.
Proof. split_and!; vm_compute; reflexivity. Qed.

(** [allowed] says the user is asked once per host per session; two
    connections that ask before either is answered put the question twice,
    and the later answer is the one that stays. *)
Definition asked_start : egress := set_asker (newEgress str_lower (toy_config true)) true true.
Definition asked_both : egress := checked (checked asked_start 0 "evil.com") 1 "evil.com".
Definition asked_no : egress := decide_client str_lower asked_both 0 (want_of "evil.com") true true (inr false).
Definition asked_yes : egress := decide_client str_lower asked_no 1 (want_of "evil.com") true true (inr true).

Lemma asked_twice :
  star toy_step (newEgress str_lower (toy_config true)) asked_yes /\
  eg_log asked_yes = [EAsk "evil.com" (inr false); EBlocked "evil.com"; ERefused (want_of "evil.com"); EAsk "evil.com" (inr true)] /\
  eg_decided asked_yes !! "evil.com" = Some true.
Proof.
  split; [|split; vm_compute; reflexivity].
  apply (star_trans _ _ asked_both).
  - apply (star_trans _ _ asked_start); [apply star_one, eg_attach|].
    apply (star_trans _ _ (checked asked_start 0 "evil.com")); apply checked_run; vm_compute; reflexivity.
  - apply (star_step _ _ asked_no); [apply (eg_answer str_lower toy_ip toy_idna asked_both 0 (want_of "evil.com"))|
      apply star_one, (eg_answer str_lower toy_ip toy_idna asked_no 1 (want_of "evil.com"))]; vm_compute; reflexivity.
Qed.

(** A SOCKS client that puts a host in brackets reaches the host, and is
    decided under a name of its own: a host the user refused is asked about
    again. *)
Lemma bracketed_name_decided_apart :
  dialled_host (socks_want "[evil.com]" 443) = dialled_host (socks_want "evil.com" 443)
  /\ dialled_host (socks_want "evil.com" 443) = Some "evil.com"
  /\ allowed_now str_lower (decide_client str_lower asked_both 0 (want_of "evil.com") true true (inr false)) "evil.com" = Some false
  /\ allowed_now str_lower (decide_client str_lower asked_both 0 (want_of "evil.com") true true (inr false)) "[evil.com]" = None.
Proof. split_and!; vm_compute; reflexivity. Qed.
